(* ===== verification/_CoqProject ===== *)
-Q . S2P
Prelude.v
GoTime.v
Resilience.v
Quota.v
Governance.v
Jobs.v
GoPath.v
GoStrings.v
GoCalendar.v
GoRegexp.v
Types.v
RunStore.v
Events.v
Chat.v
Executor.v
RunServer.v
Access.v
Federation.v
FederationServer.v
AgentStore.v
KVStore.v
AgentServer.v
MathEval.v
NetGuard.v
FileTools.v
Tools.v
Pii.v
Sql.v
Lifecycle.v
Tenancy.v
Compliance.v
McpStores.v
Mcp.v
ModelPolicy.v
Intent.v
ChatServer.v
Providers.v
PgStores.v
AgentMemory.v
PgRuns.v
Migration.v
GoText.v
Sandbox.v
McpChat.v
Facets.v
Knowledge.v
Observe.v
Delivery.v
Health.v
PgEvents.v
UsageReport.v
AuditLog.v
Codegen.v
Config.v
Operations.v
