(* ===== verification/Prelude.v ===== *)
(** * AgentOS: a verification library for the Go control plane

    AgentOS runs AI agents for many tenants.  An HTTP server (agentorchestrator)
    accepts runs, admits them through per-tenant quotas (internal/quota), stores
    them (internal/storage), and hands them to an executor, whose workers drive
    each run: prompt, model calls through a retrying and circuit-breaking
    provider (modelpolicy), tool calls, events, outcome.  Tool calls of agents
    pass a governance engine (internal/governance); background work goes through
    a job queue (internal/jobs); servers of several sites forward runs and events
    to each other (federation).  This library models the core of that program
    and proves what makes it correct.

    ** The files

    Language and library:
    - Prelude (this file): integers, times and floating point, maps and their
      iteration order, environment settings, histories of state machines, lists,
      automation.
    - GoTime: dynamic values ([any]) and [time.ParseDuration].
    - GoPath: [filepath.Join] with its cleaning, and [sort.Slice].
    - GoStrings, GoText: the functions of package strings the program uses.
    - GoCalendar: dates, [time.Time.Format], and that the texts of days and hours
      order as the times do.
    - GoRegexp: the patterns the program compiles, run leftmost-first, with their
      meaning without an order.

    Core:
    - Types: the records of internal/types/stacka.go.
    - Resilience: modelpolicy/resilience.go, the circuit breaker and the retry
      loops.
    - Quota: internal/quota, the backend interface, the in-memory and the
      Postgres backend, the limiter, the token budget.
    - Governance: internal/governance, the decision engine, its trackers, the
      kill switch, the agent registry, the validation of the configuration.
    - Jobs: internal/jobs, the queue interface, both queues, the worker's tick.
    - RunStore: internal/storage/file_run_store.go.
    - Events: agentorchestrator/events.go and
      internal/storage/event_log_store.go.
    - Chat: modelpolicy/chat.go, internal/tokens, the conversation memory
      (internal/storage/file_memory_store.go) and agentorchestrator/prompt.go.
    - Executor: agentorchestrator/agent_loop.go and executor.go.
    - RunServer: the run handlers of agentorchestrator/server.go.

    Access and the other resources of the orchestrator:
    - Access: internal/auth (identity, API keys, roles, OIDC claims), the member
      and API key tables, and internal/middleware.
    - AgentStore: the agent and agent version stores of internal/storage.
    - KVStore: the key-value store of internal/storage, and internal/tenants
      (Module Tenants).
    - AgentServer: the other handlers of agentorchestrator/server.go, with their
      routes and role checks: agents, versions, rollback, memory, key-value data,
      events, tenants, API keys, members.

    Postgres and the life of data:
    - Sql: rows, faults and batched deletes; what a statement does to a table.
    - PgStores: internal/crypto and the Postgres stores of key-value data and
      conversation memory.
    - PgRuns: the Postgres stores of runs and agents.
    - PgEvents: the Postgres event log with its listener and its subscriptions.
    - AgentMemory: the table of what agents remember and the MCP tools over it.
    - Migration: the migrations of the schema (Module Schema) and the copy of
      the file stores into Postgres.
    - Lifecycle, Tenancy, Compliance: retention, the deletion of tenants, and
      the export and deletion requests of a tenant.
    - UsageReport, AuditLog: recorded usage with its reports and its export; the
      audit trail with its pages.

    Models:
    - ModelPolicy: modelpolicy/policy.go, usage.go, server.go and the registry of
      providers.go.
    - Providers: the two providers of modelpolicy, their streams and errors, and
      the choice of the default model.
    - Intent: agentorchestrator/router.go, intent_config.go and composer.go.
    - ChatServer: internal/multimodal and agentorchestrator/openai_compat.go.

    Federation:
    - Federation: event_store.go, forward_index.go, peer_registry.go and
      sse_proxy.go of federation/.
    - FederationServer: forwarder.go, jwt.go and server.go of federation/.

    Tools of runs:
    - NetGuard: internal/ssrf, internal/httpfetch, internal/validate and the HTTP
      tools of MCP.
    - FileTools: the file tools over a file system with links.
    - MathEval: the expression evaluator of internal/tools/math_eval.go.
    - Tools: the other built-in tools, their registry, custom webhook tools.
    - Pii: detection and redaction of personal data, and the audit scrubber.

    MCP:
    - McpStores: clearance tiers, elevation requests, the audit log of decisions
      and the agent manager (mcp/clearance_store.go,
      internal/storage/postgres/clearance.go, mcp/tools/auditstore.go,
      internal/agents).
    - Mcp: the MCP server with its authorization and governance checks (mcp/) and
      the tools that work on its own stores (mcp/tools/dynamic.go, governance.go,
      agents.go).
    - McpChat, Facets, Knowledge, Observe, Sandbox, Codegen: the other tools of
      mcp/tools, each with what is behind it (the facet registry, the document
      store and its client, Prometheus, the container executor).

    Running the service:
    - Config: settings, profiles, secrets, the choice of the stores, the totals
      that are measured.
    - Health, Delivery: checks and probes; webhooks and usage events.
    - Operations: the first tenant, the backup check, the refresh of tokens, the
      checks of a deployment.

    ** How the code is modelled

    A struct is a [Record], an interface is a type class with a second class for
    the laws its clients rely on ([QuotaBackend] and [QuotaBackendLaws],
    [Queue] and [QueueLaws], [ClearanceStore] and [ClearanceStoreLaws], [Target]
    and [TargetLaws] of the migrator); the clients are proved against the laws,
    and the implementations discharge them.  A method is a function from the state (and
    its inputs) to its result and the new state; a mutex makes it atomic, so a
    component's concurrent use is a sequence of operations ([exec] for the final
    state, [trace] for the answers too).  Where a goroutine waits between two
    parts of a method (the executor's loop, the listener of PgEvents, a chat
    completion of McpChat), the parts are separate steps and the operations of
    other goroutines come in between.  Objects that are shared by pointers and
    changed later (channels, export jobs) live in a heap.

    Everything the code asks the outside is an input: clock readings, random
    identifiers, the answers of models, services and daemons, whether a file or a
    database can be written.  An outside that may answer differently each time is
    a function of the number of the query or of the requests so far.  The order
    in which Go visits a map is an argument of every
    definition whose result can depend on it, and the theorems hold for every
    order ([GoRange]).  Integers are unbounded except where overflow can be
    reached (the backoff of the job queue, durations, retention times).  Floating
    point is a class ([GoFloat]) with an exact and an IEEE binary64 instance:
    structural facts hold for both, bounds are proved in exact arithmetic, but those
    of the intent file in binary64 (where NaN passes).
    Panics are the value [None].  Encoding to JSON and back is modelled by the
    decoded value, or by a decoder that is an argument.  A table of Postgres is a
    map by its primary key or a list of rows; a statement is atomic and any
    statement can fail.

    ** What the theorems show

    - Admission (RunServer, Quota): the concurrency counters refine abstract
      per-tenant counters for every lawful backend; each path of a run creation
      takes a slot exactly when it answers 201; creation is idempotent; only a
      cancellation gives a slot back; the in-memory token bucket, with its lazy
      creation and its sweep, answers as a bucket that never forgets, and bounds
      the calls in every window; the token budget counts exactly; the Postgres
      backend refuses the first request of a tenant.
    - Execution (Executor): every run ends within its step limit with exactly one
      outcome event; its outcome is on record; cancellation is final unless the
      model is answering; the conversation memory receives the prompt.
    - Cancellation (RunServer): with the file-backed store, whichever writes fail,
      records are canceled or left alone: that of the run, and those of its active
      children when that of the run could be written.
    - Storage (RunStore, Events, Chat): the run store refines a list in order of
      last use; tenants are isolated; recent runs survive a restart, evicted ones
      do not; paging is complete; event sinks never panic, number without gaps,
      replay exactly, and deliver in order; the event log is complete below its
      cap; memory windows are the longest that fit.
    - Stores (AgentStore, KVStore): the file-backed stores refine plain maps, with
      their limits and their errors.
    - Postgres (PgStores, PgRuns, PgEvents, AgentMemory, Migration): the Postgres
      stores answer as the file stores do, whatever statements fail, but for what a
      row does not hold, a column refuses or an index excludes; a
      subscriber gets the events of its run once and in order while at most a
      thousand runs are logged, never a panic, and the subscriptions are bounded; agents do not see what others remember; each
      migration takes effect exactly once and in order whatever fails; the copy
      of the file stores never overwrites, is complete (for the directories it looks
      into) when it reports no error, and changes nothing when repeated.
    - Life of data (Lifecycle, Tenancy, Compliance, UsageReport, AuditLog): a
      purge removes exactly the rows past their cutoff; retention times are
      respected below the overflow of a duration; the deletion of a tenant
      takes rows of that tenant alone, and all of them from the tables it is for; export jobs only go forward; reports add up the
      recorded usage, and the exported table reads back; the pages of the audit
      trail cover it exactly once when the times differ.
    - Policy (Governance): a call is allowed only when every policy agrees; hourly
      limits hold over every hour; freezes hold; the breaker counts streaks.
    - Resilience: the breaker's invariant, its threshold, its cooling time, the
      bounds of attempts and of the backoff, and the leak of half-open slots.
    - Jobs: a tick resolves the job it takes; no job is handed out twice; the cap
      and the attempt limits hold; the backoff is exact until it overflows.
    - Access (Access, AgentServer): a role check passes exactly for a member of
      sufficient rank; an API key authenticates its bearer while it is neither
      revoked nor expired, and is refused otherwise, over every history of keys; the routes below /v1/agents/ keep
      agents of other tenants as they are (when tenants are registered under names
      that are path elements) and need the developer role for every
      change of agents, versions and runs; a rollback
      restores the configuration of any version; pages are complete.
    - Models (ModelPolicy, Providers, Intent, ChatServer): the token meter counts
      exactly, a provider is reached only within policy and budget; a streamed
      answer has the text and the usage of the answer in one piece in whatever
      pieces it arrives, and its calls when it stops for them;
      which errors are retried; the intent file is
      validated exactly and composing keeps the conversation; chat slots are
      balanced under every interleaving, and streams are relayed exactly.
    - Federation (Federation, FederationServer): each kept run holds the accepted
      events in order and without repetition; forwarding is decided by the first
      answer that need not be retried; the events of a forwarded run are relayed
      from its site and filtered on the way; every ingestion is answered.
    - Guards (NetGuard, FileTools, Tools, Pii, Sandbox): a fetch only connects to
      addresses that are not private, through every redirect and whatever a name
      resolves to; a file that is read lies below the base directory or in a
      sibling whose name extends it, and a file that is written reads back, up to the cap of a read; a tool runs only when it is on the list of the run, a
      command only when it is allowed; the detector reports exactly the matches
      and the redactor replaces exactly these; a container is limited, killed when
      its time is over before an answer has begun, and asked to be removed on every path.
    - MCP (Mcp, McpStores, McpChat, Facets, Knowledge, Observe, Codegen): a tool
      runs only past every check, agents stay within their tier,
      discovery agrees with authorization, spawned agents stay within their
      tenant, the audit log is an exact window; content reaches the model only
      with the clearance it needs; a prompt is classified by whole words;
      documents of a tenant stay with it; the edits a model writes as it is asked to, none of them empty, are applied as
      it wrote them; addresses are escaped and read back.
    - Evaluator (MathEval): every text is answered within a linear depth, and the
      answer is that of the expression tree the text prints.
    - Running (Config, Health, Delivery, Operations): the problems that are
      reported are exactly those of the settings; a production profile without
      them is safe but for the developer mode; a health answer follows from the
      required and the optional checks; a webhook is sent at most four times, until it is accepted; the
      first tenant is made only where there is none, and its key authenticates
      its owner.

    Some theorems state what the code does where a comment promises otherwise;
    they are the findings of the manifest.

    ** Recursion and fuel

    Loops that consume a list or a counter are structural.  Fuel appears where
    the recursion is not structural, and the definitions that use it give enough:
    - the job queue's eviction: the queue's length (every round removes a job);
    - [time.ParseDuration], the demultiplexer of container logs, the search for
      whole words, the repetitions of a pattern: the length of the text, or one
      more (every round consumes a byte);
    - the retry loops: MaxAttempts; the cancel cascade: the configured depth,
      where the code itself stops;
    - the redirects of a fetch: the limit of the client; the links of a path: 255
      in EvalSymlinks and 40 in the kernel, where these refuse themselves;
    - the batches of a purge: the rows and one (every full batch removes rows);
    - the pages of the audit trail: the entries and one (every page but the last
      has entries);
    - the expression parser: eight calls per byte and eight more (no cycle of its
      functions is longer, and each cycle consumes a byte; [math_eval_total]
      shows that it never runs out).
    The executor's iterations are a list of inputs; one more than the step limit
    is shown to be enough.  Nested calls of invoke_tool recurse on the nested
    message.

    ** What is not modelled

    - Process start-up (cmd/agentos/main.go, the listen.go files): flags, the
      order of construction, listening, signals.  The operations it runs
      (bootstrap, migrations, deployment checks) are modelled.
    - Goroutine plumbing that carries no data: the worker pool's blocking queue
      and shutdown of the executor, the tickers of the job worker and of the
      health checks of peers.  Their ticks are operations.
    - Output: log lines, spans, the declarations of the metric counters, printed
      text, the layout of JSON answers; HTTP is modelled from the decoded request
      to the status and body of the answer.
    - Libraries: the text of SQL statements (their effect is modelled), which texts
      and JSON a column takes, the JSON
      and YAML codecs, TLS, the verification of signatures and the discovery of
      keys in OIDC, bcrypt, AES and SHA-256; they are arguments.
    - Interfaces and request envelopes that are only serialized, and the helpers
      that write a response or draw an identifier (internal/httpx, internal/id). *)

From Stdlib Require Export Ascii.
From stdpp Require Export base gmap strings list fin_maps fin_sets sorting pretty.
From Stdlib Require Export ZArith Lia QArith Qpower Qround Lqa.
From Stdlib Require Import Floats.SpecFloat.

#[global] Open Scope Z_scope.

(** ** Scope and notations of the development *)

Declare Scope go_scope.
Delimit Scope go_scope with go.

(** The early return of a handler: a check that threads the state answers
    whether to go on; if not, [r] is the answer. *)
Notation "'guard!' s ← e 'else' r ;; k" :=
  (match e with pair ok s => if negb ok then r else k end)
  (at level 200, s name, e at level 99, r at level 99, k at level 200, right associativity) : go_scope.

(** [time.Time] is the number of nanoseconds since Go's zero time, so the zero
    value of [time.Time] is [0]; [time.Duration] is a number of nanoseconds. *)
Abbreviation Time := Z (only parsing).
Abbreviation Duration := Z (only parsing).

Definition Millisecond : Duration := 1000000.
Definition Second : Duration := 1000000000.
Definition Minute : Duration := 60 * Second.
Definition Hour : Duration := 60 * Minute.

(** ** Machine integers *)

(** Go's [int], [int64] and [time.Duration] are 64-bit two's complement. *)
Definition int64_wrap (z : Z) : Z := (z + 2 ^ 63) mod 2 ^ 64 - 2 ^ 63.

Definition in_int64 (z : Z) : Prop := - 2 ^ 63 <= z < 2 ^ 63.

#[global] Instance in_int64_dec z : Decision (in_int64 z).
Proof. unfold in_int64. apply _. Defined.

Lemma int64_wrap_id z : in_int64 z → int64_wrap z = z.
Proof. unfold in_int64, int64_wrap. intros. rewrite Z.mod_small; lia. Qed.

Lemma int64_wrap_range z : in_int64 (int64_wrap z).
Proof.
  unfold in_int64, int64_wrap.
  pose proof (Z.mod_pos_bound (z + 2 ^ 63) (2 ^ 64)). lia.
Qed.

(** ** Floating point

    The definitions that compute with [float64] are written once, over the
    operations the source uses.  [Q] reads them as exact arithmetic and
    [spec_float] as IEEE-754 binary64 with rounding to nearest even. *)
Class GoFloat (F : Type) := {
  fofZ : Z → F;
  fadd : F → F → F;
  fsub : F → F → F;
  fmul : F → F → F;
  fltb : F → F → bool;
  fquarter : F;
  fseconds : Duration → F;
  fpow : F → Z → F;
  ftrunc : F → Z
}.

#[global] Instance GoFloat_Q : GoFloat Q := {|
  fofZ := inject_Z;
  fadd := Qplus;
  fsub := Qminus;
  fmul := Qmult;
  fltb x y := negb (Qle_bool y x);
  fquarter := 1 # 4;
  fseconds d := Qmake d 1000000000;
  fpow := Qpower;
  ftrunc q := Z.quot (Qnum q) (Zpos (Qden q))
|}.

Definition b64_of_Z (z : Z) : spec_float := binary_normalize 53 1024 z 0 false.

(** [Duration.Seconds]: whole seconds plus the remaining nanoseconds over 1e9. *)
Definition b64_seconds (d : Duration) : spec_float :=
  SFadd 53 1024 (b64_of_Z (Z.quot d Second))
    (SFdiv 53 1024 (b64_of_Z (Z.rem d Second)) (b64_of_Z 1000000000)).

(** [math.Pow] at an integer exponent, by repeated multiplication: exact for the
    powers of two the program's scale factor produces. *)
Definition b64_pow (x : spec_float) (n : Z) : spec_float :=
  Z.iter n (SFmul 53 1024 x) (b64_of_Z 1).

(** Conversion to an integer drops the fraction. *)
Definition b64_trunc (x : spec_float) : Z :=
  match x with
  | S754_finite s m e =>
      let a := if bool_decide (0 <= e) then Zpos m * 2 ^ e else Zpos m / 2 ^ (- e) in
      if s then - a else a
  | _ => 0
  end.

#[global] Instance GoFloat_b64 : GoFloat spec_float := {|
  fofZ := b64_of_Z;
  fadd := SFadd 53 1024;
  fsub := SFsub 53 1024;
  fmul := SFmul 53 1024;
  fltb := SFltb;
  fquarter := SFdiv 53 1024 (b64_of_Z 1) (b64_of_Z 4);
  fseconds := b64_seconds;
  fpow := b64_pow;
  ftrunc := b64_trunc
|}.

Lemma fltb_Q_lt (x y : Q) : fltb x y = true ↔ (x < y)%Q.
Proof.
  simpl. rewrite negb_true_iff. destruct (Qle_bool y x) eqn:E.
  - apply Qle_bool_iff in E. split; [done|]. intros ?. by apply Qle_not_lt in E.
  - split; [|done]. intros _. apply Qnot_le_lt. rewrite <-Qle_bool_iff. by rewrite E.
Qed.

Lemma fltb_Q_ge (x y : Q) : fltb x y = false ↔ (y <= x)%Q.
Proof. simpl. rewrite negb_false_iff. apply Qle_bool_iff. Qed.

#[global] Instance fltb_Q_proper : Proper (Qeq ==> Qeq ==> eq) (fltb (F := Q)).
Proof.
  intros x x' Hx y y' Hy. destruct (fltb x' y') eqn:E.
  - apply fltb_Q_lt in E. apply fltb_Q_lt. by rewrite Hx, Hy.
  - apply fltb_Q_ge in E. apply fltb_Q_ge. by rewrite Hx, Hy.
Qed.

(** Dropping the fraction of a nonnegative rational rounds it down. *)
Lemma ftrunc_Q_nonneg (q : Q) :
  (0 <= q)%Q → 0 <= ftrunc q ∧ (inject_Z (ftrunc q) <= q)%Q.
Proof.
  destruct q as [n d]. unfold Qle, inject_Z; simpl. intros Hq.
  assert (0 <= n) by lia.
  pose proof (Z.quot_pos n (Zpos d) ltac:(lia) ltac:(lia)).
  pose proof (Z.mul_quot_le n (Zpos d) ltac:(lia) ltac:(lia)). lia.
Qed.

(** ** Maps

    A Go map read at a missing key gives the zero value of its element type. *)
Definition go_get {K V} `{Countable K} (zero : V) (m : gmap K V) (k : K) : V :=
  default zero (m !! k).

Lemma go_get_insert {K V} `{Countable K} (zero : V) (m : gmap K V) k k' v :
  go_get zero (<[k := v]> m) k' = if decide (k = k') then v else go_get zero m k'.
Proof. unfold go_get. rewrite lookup_insert. by case_decide. Qed.

(** [for k, v := range m] visits the entries in an order the language leaves
    unspecified.  Where the visiting order can be observed, a definition takes
    the order as an argument, and the theorems hold for every order. *)
Class GoRange {K V} `{Countable K} (rng : gmap K V → list (K * V)) : Prop :=
  range_perm m : rng m ≡ₚ map_to_list m.

#[global] Instance GoRange_map_to_list {K V} `{Countable K} :
  GoRange (map_to_list : gmap K V → list (K * V)).
Proof. intros m. reflexivity. Qed.

(** The opposite order: a second implementation of the same contract. *)
#[global] Instance GoRange_rev {K V} `{Countable K} :
  GoRange (λ m : gmap K V, rev (map_to_list m)).
Proof. intros m. symmetry. apply Permutation_rev. Qed.

Section range.
Context {K V : Type} `{Countable K} (rng : gmap K V → list (K * V)) `{!GoRange rng}.

Lemma elem_of_range m k v : (k, v) ∈ rng m ↔ m !! k = Some v.
Proof. by rewrite (range_perm m), elem_of_map_to_list. Qed.

Lemma length_range m : length (rng m) = size m.
Proof. by rewrite (range_perm m), length_map_to_list. Qed.

Lemma NoDup_range_fst m : NoDup (rng m).*1.
Proof. rewrite (range_perm m). apply NoDup_fst_map_to_list. Qed.

Lemma list_to_map_range m : list_to_map (rng m) = m.
Proof.
  rewrite <-(list_to_map_to_list m) at 2. symmetry.
  apply list_to_map_proper; [apply NoDup_fst_map_to_list|]. symmetry. apply range_perm.
Qed.

End range.

(** ** Strings

    A Go string is a sequence of bytes; [os.Getenv] gives the empty string for
    an unset variable, so an environment is a total function. *)
Definition Environ := string → string.

Definition digit_of (c : ascii) : option Z :=
  let n := Z.of_nat (nat_of_ascii c) in
  if bool_decide (48 <= n <= 57) then Some (n - 48) else None.

Fixpoint parse_digits (acc : Z) (s : string) : option Z :=
  match s with
  | EmptyString => Some acc
  | String c s' => d ← digit_of c; parse_digits (acc * 10 + d) s'
  end.

Definition parse_uint (s : string) : option Z :=
  match s with EmptyString => None | _ => parse_digits 0 s end.

Definition check_int64 (z : Z) : option Z :=
  if bool_decide (in_int64 z) then Some z else None.

(** [strconv.Atoi]: an optional sign and at least one decimal digit, in range. *)
Definition Atoi (s : string) : option Z :=
  match s with
  | String "-" s' => n ← parse_uint s'; check_int64 (- n)
  | String "+" s' => n ← parse_uint s'; check_int64 n
  | _ => n ← parse_uint s; check_int64 n
  end.

(** The integer of a variable when it parses and is positive, else the default:
    the guard every integer setting of the program goes through. *)
Definition envInt (env : Environ) (key : string) (def : Z) : Z :=
  if decide (env key = "") then def
  else match Atoi (env key) with
       | Some i => if bool_decide (i <= 0) then def else i
       | None => def
       end.

(** ** State machines

    A component's history is the sequence of operations applied to it. *)
Section machine.
Context {S O : Type} (step : S → O → S).

Definition exec (s : S) (ops : list O) : S := foldl step s ops.

Lemma exec_app s ops1 ops2 : exec s (ops1 ++ ops2) = exec (exec s ops1) ops2.
Proof. apply foldl_app. Qed.

Lemma exec_invariant (I : S → Prop) s ops :
  I s → (∀ s o, I s → o ∈ ops → I (step s o)) → I (exec s ops).
Proof.
  revert s; induction ops as [|o ops IH]; intros s Hs Hstep; [done|].
  apply IH; [|intros; apply Hstep; set_solver].
  apply Hstep; [done|]. set_solver.
Qed.

End machine.

(** A component whose operations also answer: the answers in order, and the
    final state. *)
Fixpoint trace {S O A : Type} (step : O → S → A * S) (s : S) (ops : list O) : list A * S :=
  match ops with
  | [] => ([], s)
  | o :: ops' => let '(a, s1) := step o s in let '(as_, s2) := trace step s1 ops' in (a :: as_, s2)
  end.

(** Forward simulation: related states answer every history alike. *)
Lemma trace_sim {S T O A : Type} (step : O → S → A * S) (step' : O → T → A * T)
    (R : S → T → Prop) (ops : list O) s t :
  (∀ o s t, o ∈ ops → R s t → (step o s).1 = (step' o t).1 ∧ R (step o s).2 (step' o t).2) →
  R s t → (trace step s ops).1 = (trace step' t ops).1 ∧ R (trace step s ops).2 (trace step' t ops).2.
Proof.
  revert s t. induction ops as [|o ops IH]; intros s t Hstep HR; [done|]. simpl.
  destruct (Hstep o s t) as [Ha HR1]; [left|done|].
  destruct (step o s) as [a s1], (step' o t) as [a' t1]; simpl in *. subst a'.
  destruct (IH s1 t1) as [Has HR2]; [|done|].
  { intros o' s' t' Ho'. apply Hstep. by right. }
  destruct (trace step s1 ops), (trace step' t1 ops); simpl in *. by subst.
Qed.

Lemma trace_invariant {S O A : Type} (step : O → S → A * S) (I : S → Prop) (ops : list O) s :
  (∀ o s, o ∈ ops → I s → I (step o s).2) → I s → I (trace step s ops).2.
Proof.
  revert s. induction ops as [|o ops IH]; intros s Hstep Hs; [done|]. simpl.
  assert (I (step o s).2) as H1 by (apply Hstep; [left|done]).
  destruct (step o s) as [a s1]; simpl in *.
  assert (I (trace step s1 ops).2) as H2 by (apply IH; [|done]; intros; apply Hstep; [by right|done]).
  by destruct (trace step s1 ops).
Qed.

Lemma trace_cons {S O A : Type} (step : O → S → A * S) s o ops :
  (trace step s (o :: ops)).2 = (trace step (step o s).2 ops).2.
Proof. simpl. destruct (step o s) as [a s1]. simpl. by destruct (trace step s1 ops). Qed.

Lemma trace_cons_answers {S O A : Type} (step : O → S → A * S) s o ops :
  (trace step s (o :: ops)).1 = (step o s).1 :: (trace step (step o s).2 ops).1.
Proof. simpl. destruct (step o s) as [a s1]. simpl. by destruct (trace step s1 ops). Qed.

Lemma trace_app {S O A : Type} (step : O → S → A * S) s ops1 ops2 :
  (trace step s (ops1 ++ ops2)).2 = (trace step (trace step s ops1).2 ops2).2.
Proof.
  revert s. induction ops1 as [|o ops1 IH]; intros s; [done|]. simpl.
  destruct (step o s) as [a s1]. specialize (IH s1).
  destruct (trace step s1 (ops1 ++ ops2)), (trace step s1 ops1); simpl in *. by rewrite IH.
Qed.

(** ** Lists *)

Lemma length_filter_le {A} (P : A → Prop) `{∀ x, Decision (P x)} (l : list A) :
  (length (filter P l) ≤ length l)%nat.
Proof. apply length_filter. Qed.

Lemma filter_all {A} (P : A → Prop) `{∀ x, Decision (P x)} (l : list A) : Forall P l → filter P l = l.
Proof. induction 1; [done|]. rewrite filter_cons_True by done. by f_equal. Qed.

Lemma filter_none {A} (P : A → Prop) `{∀ x, Decision (P x)} (l : list A) : Forall (λ x, ¬ P x) l → filter P l = [].
Proof. induction 1; [done|]. by rewrite filter_cons_False. Qed.

Lemma NoDup_fmap_elem {A B} (f : A → B) (l : list A) x y :
  NoDup (f <$> l) → x ∈ l → y ∈ l → f x = f y → x = y.
Proof.
  intros Hnd [i Hi]%list_elem_of_lookup [j Hj]%list_elem_of_lookup Hf.
  assert (i = j) as ->; [|congruence].
  eapply (NoDup_lookup _ i j (f x) Hnd); rewrite list_lookup_fmap; [by rewrite Hi|by rewrite Hj, Hf].
Qed.

(** ** Automation *)

Create HintDb go.

(** Split every conditional of the goal and the context, then clean up. *)
Ltac go_split :=
  repeat (first [ case_match | case_decide | case_bool_decide ]; simplify_eq/=).

Ltac go_solve := go_split; try done; try lia; auto with go.

#[export] Hint Resolve int64_wrap_id int64_wrap_range : go.
