(* ===== verification/GoTime.v ===== *)
(** * GoTime: parsing of durations and loosely typed values

    The parts of the Go library the configuration code relies on:
    [time.ParseDuration], and the dynamically typed values ([any]) that JSON
    and YAML decoding produce. *)

From S2P Require Import Prelude.

(** ** Dynamic values *)

(** A value of type [any]: what decoding yields, plus Go integers. *)
Inductive any :=
  | ANil
  | ABool (b : bool)
  | AFloat (q : Q)
  | AInt (z : Z)
  | AStr (s : string)
  | AList (l : list any)
  | AMap (m : list (string * any)).

(** [m[k]] on a [map[string]any] (keys occur once). *)
Fixpoint any_get (k : string) (m : list (string * any)) : option any :=
  match m with
  | [] => None
  | (k', v) :: m' => if decide (k = k') then Some v else any_get k m'
  end.

(** [m[k].(string)] in its two-result form: the zero value when it fails. *)
Definition any_string (k : string) (m : list (string * any)) : option string :=
  match any_get k m with Some (AStr s) => Some s | _ => None end.

(** ** [time.ParseDuration] *)

Definition is_digit (c : ascii) : bool :=
  bool_decide (48 <= Z.of_nat (nat_of_ascii c) <= 57).

Definition digit_val (c : ascii) : Z := Z.of_nat (nat_of_ascii c) - 48.

(** The leading digits as a number, and the rest; [None] past [2^63]. *)
Fixpoint leadingInt (x : Z) (s : string) : option (Z * string) :=
  match s with
  | String c s' =>
      if is_digit c then
        if bool_decide (2 ^ 63 / 10 < x) then None
        else let x := x * 10 + digit_val c in
             if bool_decide (2 ^ 63 < x) then None else leadingInt x s'
      else Some (x, s)
  | EmptyString => Some (x, s)
  end.

(** The digits after the point as a numerator and a power of ten; digits that
    would overflow are dropped. *)
Fixpoint leadingFraction (x scale : Z) (overflow : bool) (s : string) : Z * Z * string :=
  match s with
  | String c s' =>
      if is_digit c then
        if overflow then leadingFraction x scale true s'
        else if bool_decide ((2 ^ 63 - 1) / 10 < x) then leadingFraction x scale true s'
        else let y := x * 10 + digit_val c in
             if bool_decide (2 ^ 63 < y) then leadingFraction x scale true s'
             else leadingFraction y (scale * 10) false s'
      else (x, scale, s)
  | EmptyString => (x, scale, s)
  end.

(** The unit: everything up to the next digit or point. *)
Fixpoint spanUnit (s : string) : string * string :=
  match s with
  | String c s' =>
      if is_digit c || bool_decide (c = "."%char) then (EmptyString, s)
      else let '(u, r) := spanUnit s' in (String c u, r)
  | EmptyString => (EmptyString, s)
  end.

Definition unitMap (u : string) : option Z :=
  if decide (u = "ns") then Some 1
  else if decide (u = "us") then Some 1000
  else if decide (u = "µs") then Some 1000
  else if decide (u = "μs") then Some 1000
  else if decide (u = "ms") then Some Millisecond
  else if decide (u = "s") then Some Second
  else if decide (u = "m") then Some Minute
  else if decide (u = "h") then Some Hour
  else None.

(** The loop over number-unit pairs; every round consumes a byte, so the length
    of the string is enough fuel. *)
Fixpoint durationLoop (fuel : nat) (d : Z) (s : string) : option Z :=
  match s, fuel with
  | EmptyString, _ => Some d
  | _, O => None
  | String c _, S fuel' =>
      if negb (is_digit c || bool_decide (c = "."%char)) then None
      else
        '(v, s1) ← leadingInt 0 s;
        let pre := negb (Nat.eqb (String.length s) (String.length s1)) in
        let '(f, scale, s2, post) :=
          match s1 with
          | String "." s1' =>
              let '(f, scale, s2) := leadingFraction 0 1 false s1' in
              (f, scale, s2, negb (Nat.eqb (String.length s1') (String.length s2)))
          | _ => (0, 1, s1, false)
          end in
        if negb (pre || post) then None
        else
          let '(u, s3) := spanUnit s2 in
          unit ← unitMap u;
          if bool_decide (2 ^ 63 / unit < v) then None
          else
            let v := v * unit + (if bool_decide (0 < f) then f * unit / scale else 0) in
            if bool_decide (2 ^ 63 < v) || bool_decide (2 ^ 63 < d + v) then None
            else durationLoop fuel' (d + v) s3
  end.

Definition ParseDuration (s : string) : option Duration :=
  let '(neg, s) := match s with
                   | String "-" s' => (true, s')
                   | String "+" s' => (false, s')
                   | _ => (false, s)
                   end in
  if decide (s = "0") then Some 0
  else if decide (s = "") then None
  else
    d ← durationLoop (String.length s) 0 s;
    if neg : bool then Some (- d)
    else if bool_decide (2 ^ 63 - 1 < d) then None else Some d.

Example parse_1h : ParseDuration "1h" = Some Hour.
Proof. vm_compute. reflexivity. Qed.

Example parse_1h30m : ParseDuration "1h30m0.5s" = Some (Hour + 30 * Minute + 500 * Millisecond).
Proof. vm_compute. reflexivity. Qed.

Example parse_bad : ParseDuration "1x" = None ∧ ParseDuration "" = None ∧ ParseDuration "1" = None.
Proof. vm_compute. auto. Qed.
