(* ===== verification/Resilience.v ===== *)
(** * Resilience: retry and circuit breaker around a model provider

    Models modelpolicy/resilience.go: the breaker's three operations and its
    snapshot, the retry loops of [ChatComplete] and [ChatCompleteStream], the
    backoff computation and the configuration read from the environment.
    The wrapped provider is an interface of the source: what one attempt sees
    of it, of the clock, of the context and of the random source is the
    argument [env]. *)

From S2P Require Import Prelude.

(** ** Data *)

Record RetryConfig {F : Type} := {
  MaxAttempts : Z;
  BaseBackoff : Duration;
  MaxBackoff : Duration;
  BackoffScale : F
}.
Arguments RetryConfig : clear implicits.

Definition DefaultRetryConfig {F} `{GoFloat F} : RetryConfig F := {|
  MaxAttempts := 3;
  BaseBackoff := 500 * Millisecond;
  MaxBackoff := 30 * Second;
  BackoffScale := fofZ 2
|}.

Inductive CircuitState := CircuitClosed | CircuitOpen | CircuitHalfOpen.

#[global] Instance CircuitState_eq_dec : EqDecision CircuitState.
Proof. solve_decision. Defined.

Record CircuitBreakerConfig := {
  FailureThreshold : Z;
  RecoveryTimeout : Duration;
  HalfOpenMax : Z
}.

Definition DefaultCircuitBreakerConfig (env : Environ) : CircuitBreakerConfig := {|
  FailureThreshold := envInt env "AGENTOS_CB_FAILURE_THRESHOLD" 8;
  RecoveryTimeout :=
    int64_wrap (envInt env "AGENTOS_CB_RECOVERY_TIMEOUT" 60 * Second);
  HalfOpenMax := envInt env "AGENTOS_CB_HALF_OPEN_MAX" 2
|}.

Record circuitBreaker := {
  state : CircuitState;
  failures : Z;
  lastFailure : Time;
  halfOpenActive : Z;
  cfg : CircuitBreakerConfig
}.

Definition newCircuitBreaker (c : CircuitBreakerConfig) : circuitBreaker := {|
  state := CircuitClosed; failures := 0; lastFailure := 0; halfOpenActive := 0; cfg := c
|}.

(** ** The breaker's operations; [now] is the reading of [time.Now] *)

Definition allow (now : Time) (cb : circuitBreaker) : bool * circuitBreaker :=
  match state cb with
  | CircuitClosed => (true, cb)
  | CircuitOpen =>
      if bool_decide (RecoveryTimeout (cfg cb) <= now - lastFailure cb) then
        (true, {| state := CircuitHalfOpen; failures := failures cb;
                  lastFailure := lastFailure cb; halfOpenActive := 1; cfg := cfg cb |})
      else (false, cb)
  | CircuitHalfOpen =>
      if bool_decide (halfOpenActive cb < HalfOpenMax (cfg cb)) then
        (true, {| state := CircuitHalfOpen; failures := failures cb;
                  lastFailure := lastFailure cb;
                  halfOpenActive := halfOpenActive cb + 1; cfg := cfg cb |})
      else (false, cb)
  end.

Definition recordSuccess (cb : circuitBreaker) : circuitBreaker := {|
  state := CircuitClosed; failures := 0; lastFailure := lastFailure cb;
  halfOpenActive := 0; cfg := cfg cb
|}.

Definition recordFailure (now : Time) (cb : circuitBreaker) : circuitBreaker :=
  match state cb with
  | CircuitHalfOpen =>
      {| state := CircuitOpen; failures := failures cb + 1; lastFailure := now;
         halfOpenActive := 0; cfg := cfg cb |}
  | _ =>
      {| state := if bool_decide (FailureThreshold (cfg cb) <= failures cb + 1)
                  then CircuitOpen else state cb;
         failures := failures cb + 1; lastFailure := now;
         halfOpenActive := halfOpenActive cb; cfg := cfg cb |}
  end.

Record CircuitBreakerStatusInfo := {
  StatusState : string;
  StatusFailures : Z;
  StatusLastFailure : Time;
  StatusRecoveryTimeout : Duration
}.

Definition CircuitBreakerStatus (cb : circuitBreaker) : CircuitBreakerStatusInfo := {|
  StatusState := match state cb with
                 | CircuitClosed => "closed"
                 | CircuitOpen => "open"
                 | CircuitHalfOpen => "half_open"
                 end;
  StatusFailures := failures cb;
  StatusLastFailure := lastFailure cb;
  StatusRecoveryTimeout := RecoveryTimeout (cfg cb)
|}.

(** ** Errors of a provider call *)

(** [*ProviderError] carries an HTTP status; every other error of a provider
    (connection refused, timeout, ...) is [OtherError]. *)
Record ProviderError := { StatusCode : Z; Code : string; Message : string; RetryAfter : string }.

Inductive CallError :=
  | EProvider (pe : ProviderError)
  | EOther (what : string)
  | ErrCircuitOpen
  | ECtx.

Definition isRetryable (err : option CallError) : bool :=
  match err with
  | None => false
  | Some (EProvider pe) =>
      if bool_decide (500 <= StatusCode pe) then true
      else bool_decide (StatusCode pe = 429)
  | Some _ => true
  end.

Definition retryAfterSeconds (pe : ProviderError) : Z :=
  if decide (RetryAfter pe = "") then 0 else default 0 (Atoi (RetryAfter pe)).

Definition retryAfterDuration (err : option CallError) : Duration :=
  match err with
  | Some (EProvider pe) =>
      if decide (RetryAfter pe = "") then 0
      else let secs := retryAfterSeconds pe in
           if bool_decide (0 < secs) then int64_wrap (secs * Second) else 0
  | _ => 0
  end.

(** ** Backoff and the retry loops *)

Section retry.
Context {F : Type} `{GoFloat F}.

(** [r] is the draw of [rand.Float64]. *)
Definition backoffDuration (attempt : Z) (c : RetryConfig F) (r : F) : Duration :=
  let base := fmul (fofZ (BaseBackoff c)) (fpow (BackoffScale c) attempt) in
  let base := if fltb (fofZ (MaxBackoff c)) base then fofZ (MaxBackoff c) else base in
  let jitter := fmul (fmul base fquarter) (fsub (fmul (fofZ 2) r) (fofZ 1)) in
  let d := ftrunc (fadd base jitter) in
  if bool_decide (d < 0) then BaseBackoff c else d.

(** What attempt [i] of a call observes: the random draw, whether the context
    ends the wait, the clock when the breaker is asked, what the wrapped
    provider would answer, and the clock when a failure is recorded. *)
Record Attempt {Resp : Type} := {
  at_rand : F;
  at_ctxDone : bool;
  at_allow : Time;
  at_inner : Resp + CallError;
  at_fail : Time
}.
Arguments Attempt : clear implicits.

(** The externally visible effects of a call, in order. *)
Inductive Effect := Waited (d : Duration) | CalledInner.

#[global] Instance Effect_eq_dec : EqDecision Effect.
Proof. solve_decision. Defined.

Record Outcome {Resp : Type} := {
  o_resp : option Resp;
  o_err : option CallError;
  o_breaker : circuitBreaker;
  o_trace : list Effect
}.
Arguments Outcome : clear implicits.

Definition emit {Resp} (es : list Effect) (o : Outcome Resp) : Outcome Resp := {|
  o_resp := o_resp o; o_err := o_err o; o_breaker := o_breaker o;
  o_trace := es ++ o_trace o
|}.

(** The wait before attempt [attempt > 0]: the backoff, or Retry-After if longer. *)
Definition waitBefore (c : RetryConfig F) (attempt : Z) (lastErr : option CallError)
    (r : F) : Duration :=
  let wait := backoffDuration (attempt - 1) c r in
  let ra := retryAfterDuration lastErr in
  if bool_decide (wait < ra) then ra else wait.

(** [n] attempts remain, [attempt] is the loop variable. *)
Fixpoint retryLoop {Resp} (c : RetryConfig F) (env : Z → Attempt Resp)
    (n : nat) (attempt : Z) (lastErr : option CallError) (cb : circuitBreaker) : Outcome Resp :=
  match n with
  | O => {| o_resp := None; o_err := lastErr; o_breaker := cb; o_trace := [] |}
  | S n' =>
      let a := env attempt in
      let waits := if bool_decide (0 < attempt)
                   then [Waited (waitBefore c attempt lastErr (at_rand a))] else [] in
      if bool_decide (0 < attempt) && at_ctxDone a then
        {| o_resp := None; o_err := Some ECtx; o_breaker := cb; o_trace := waits |}
      else
        let '(ok, cb) := allow (at_allow a) cb in
        if negb ok then
          emit waits (retryLoop c env n' (attempt + 1) (Some ErrCircuitOpen) cb)
        else
          match at_inner a with
          | inl resp =>
              {| o_resp := Some resp; o_err := None; o_breaker := recordSuccess cb;
                 o_trace := waits ++ [CalledInner] |}
          | inr err =>
              if negb (isRetryable (Some err)) then
                {| o_resp := None; o_err := Some err; o_breaker := cb;
                   o_trace := waits ++ [CalledInner] |}
              else
                emit (waits ++ [CalledInner])
                  (retryLoop c env n' (attempt + 1) (Some err) (recordFailure (at_fail a) cb))
          end
  end.

Definition ChatComplete {Resp} (c : RetryConfig F) (env : Z → Attempt Resp)
    (cb : circuitBreaker) : Outcome Resp :=
  retryLoop c env (Z.to_nat (MaxAttempts c)) 0 None cb.

(** The streaming variant has the same loop; its result is the chunk channel. *)
Definition ChatCompleteStream {Chan} (c : RetryConfig F) (env : Z → Attempt Chan)
    (cb : circuitBreaker) : Outcome Chan :=
  retryLoop c env (Z.to_nat (MaxAttempts c)) 0 None cb.

End retry.

Arguments Attempt : clear implicits.
Arguments Outcome : clear implicits.
Arguments Attempt _ _ : assert.

(** ** The breaker as a state machine *)

(** Requests of several goroutines interleave: each holds the mutex for one
    operation, so a history is any sequence of operations. *)
Inductive BreakerOp :=
  | OpAllow (now : Time)
  | OpSuccess
  | OpFailure (now : Time).

Definition breakerStep (cb : circuitBreaker) (op : BreakerOp) : circuitBreaker :=
  match op with
  | OpAllow now => (allow now cb).2
  | OpSuccess => recordSuccess cb
  | OpFailure now => recordFailure now cb
  end.

Record breaker_inv (c : CircuitBreakerConfig) (cb : circuitBreaker) : Prop := {
  inv_cfg : cfg cb = c;
  inv_failures : 0 <= failures cb;
  inv_closed : state cb = CircuitClosed → failures cb < FailureThreshold c;
  inv_probes : state cb ≠ CircuitHalfOpen → halfOpenActive cb = 0;
  inv_halfopen : state cb = CircuitHalfOpen →
                 1 <= halfOpenActive cb <= Z.max 1 (HalfOpenMax c)
}.

(** The breaker admits no call and counts nothing: open and still cooling down. *)
Definition cooling (cb : circuitBreaker) (now : Time) : Prop :=
  state cb = CircuitOpen ∧ now - lastFailure cb < RecoveryTimeout (cfg cb).

(** Every probe slot is taken. *)
Definition probes_exhausted (cb : circuitBreaker) : Prop :=
  state cb = CircuitHalfOpen ∧ HalfOpenMax (cfg cb) <= halfOpenActive cb.

(** How many of a sequence of [allow] calls are admitted. *)
Fixpoint admitted (times : list Time) (cb : circuitBreaker) : nat :=
  match times with
  | [] => O
  | t :: ts => let '(ok, cb') := allow t cb in
               ((if ok then 1 else 0) + admitted ts cb')%nat
  end.

Definition inner_calls {Resp} (o : Outcome Resp) : nat :=
  length (filter (λ e, e = CalledInner) (o_trace o)).

(** ** Lemmas *)

Arguments isRetryable : simpl never.

Ltac breaker_cases cb :=
  destruct cb as [[] ? ? ? ?]; unfold allow, recordFailure, recordSuccess in *; simpl in *;
  repeat (case_bool_decide; simplify_eq/=).

Lemma breaker_inv_step c cb op :
  0 < FailureThreshold c → breaker_inv c cb → breaker_inv c (breakerStep cb op).
Proof.
  intros Hc [<- H1 H2 H3 H4]. destruct op; unfold breakerStep; breaker_cases cb;
    split; simpl in *; intros; simplify_eq/=; try done;
    try specialize (H2 eq_refl); try specialize (H4 eq_refl);
    try specialize (H3 ltac:(done)); lia.
Qed.

Lemma allow_cooling cb now : cooling cb now → allow now cb = (false, cb).
Proof. intros [Hs Ht]. unfold allow. rewrite Hs, bool_decide_eq_false_2; [done|lia]. Qed.

Lemma allow_exhausted cb now : probes_exhausted cb → allow now cb = (false, cb).
Proof. intros [Hs Ht]. unfold allow. rewrite Hs, bool_decide_eq_false_2; [done|lia]. Qed.

Section loops.
Context {F : Type} `{GoFloat F} {Resp : Type}.
Implicit Types (env : Z → Attempt F Resp) (c : RetryConfig F).

Lemma inner_calls_emit es (o : Outcome Resp) :
  inner_calls (emit es o) = (length (filter (λ e, e = CalledInner) es) + inner_calls o)%nat.
Proof. unfold inner_calls, emit. simpl. by rewrite filter_app, length_app. Qed.

(** A breaker that refuses every attempt of the call is left as it was, and the
    provider is not reached. *)
Lemma retryLoop_refused c env n i e cb :
  (∀ j, allow (at_allow (env j)) cb = (false, cb)) →
  let o := retryLoop c env n i e cb in
  inner_calls o = 0%nat ∧ o_breaker o = cb ∧ o_resp o = None ∧
  (o_err o = Some ErrCircuitOpen ∨ o_err o = Some ECtx ∨ (n = 0%nat ∧ o_err o = e)).
Proof.
  intros Hno. revert i e. induction n as [|n IH]; intros i e; simpl; [split_and!; [done..|auto]|].
  rewrite Hno. simpl.
  destruct (bool_decide (0 < i) && at_ctxDone (env i)).
  - unfold inner_calls; simpl. split; [by case_bool_decide|].
    split_and!; auto.
  - destruct (IH (i + 1) (Some ErrCircuitOpen)) as (Hc & Hb & Hr & He).
    rewrite inner_calls_emit, Hc. simpl. split; [by case_bool_decide|].
    split_and!; [done|done|]. destruct He as [?|[?|[-> ?]]]; auto.
Qed.

Lemma retryLoop_calls c env n i e cb :
  (inner_calls (retryLoop c env n i e cb) ≤ n)%nat.
Proof.
  revert i e cb. induction n as [|n IH]; intros i e cb; simpl; [done|].
  assert (∀ w, length (filter (λ x, x = CalledInner)
     ((if bool_decide (0 < i) then [Waited w] else []) ++ [CalledInner])) = 1%nat) as Hw.
  { intros w. by case_bool_decide. }
  assert (∀ w, length (filter (λ x, x = CalledInner)
     (if bool_decide (0 < i) then [Waited w] else [])) = 0%nat) as Hw0.
  { intros w. by case_bool_decide. }
  destruct (bool_decide (0 < i) && at_ctxDone (env i)).
  { unfold inner_calls; simpl. rewrite Hw0. lia. }
  destruct (allow _ cb) as [[] cb']; simpl.
  - destruct (at_inner (env i)) as [r|err]; [unfold inner_calls; simpl; rewrite Hw; lia|].
    destruct (isRetryable (Some err)); simpl.
    + rewrite inner_calls_emit, Hw. specialize (IH (i+1) (Some err) (recordFailure (at_fail (env i)) cb')). lia.
    + unfold inner_calls; simpl. rewrite Hw; lia.
  - rewrite inner_calls_emit, Hw0. specialize (IH (i+1) (Some ErrCircuitOpen) cb'). lia.
Qed.

(** A call answers with a response or with an error, never with both or neither. *)
Lemma retryLoop_result c env n i e cb :
  n ≠ 0%nat ∨ e ≠ None →
  let o := retryLoop c env n i e cb in
  (∃ r j, o_resp o = Some r ∧ o_err o = None ∧ at_inner (env j) = inl r ∧
     state (o_breaker o) = CircuitClosed ∧ failures (o_breaker o) = 0) ∨
  (o_resp o = None ∧ o_err o ≠ None).
Proof.
  revert i e cb. induction n as [|n IH]; intros i e cb He; simpl.
  { right. destruct He as [?|?]; done. }
  destruct (bool_decide (0 < i) && at_ctxDone (env i)); [by right|].
  destruct (allow _ cb) as [[] cb']; simpl; [|apply IH; by right].
  destruct (at_inner (env i)) as [r|err] eqn:Er; simpl; [left; by eauto 10|].
  destruct (isRetryable (Some err)); simpl; [apply IH; by right|by right].
Qed.

(** A probe that ends in an error the loop does not retry takes a slot of the
    half-open breaker and is recorded neither as success nor as failure. *)
Lemma ChatComplete_leaks_slot c env cb err :
  0 < MaxAttempts c →
  at_inner (env 0) = inr err → isRetryable (Some err) = false →
  (allow (at_allow (env 0)) cb).1 = true →
  o_breaker (ChatComplete c env cb) = (allow (at_allow (env 0)) cb).2 ∧
  o_err (ChatComplete c env cb) = Some err.
Proof.
  intros Hm Hi Hr Ha. unfold ChatComplete.
  destruct (Z.to_nat (MaxAttempts c)) eqn:E; [lia|]. simpl.
  destruct (allow _ cb) as [ok cb']; simpl in *; subst. by rewrite Hi, Hr.
Qed.

End loops.

(** A sequence of calls, one after the other. *)
Definition chatCalls {F} `{GoFloat F} {Resp} (c : RetryConfig F)
    (calls : list (Z → Attempt F Resp)) (cb : circuitBreaker) : circuitBreaker :=
  exec (λ cb env, o_breaker (ChatComplete c env cb)) cb calls.

(** A call whose first attempt the provider rejects with a client error. *)
Definition rejected_call {F Resp} (env : Z → Attempt F Resp) : Prop :=
  ∃ err, at_inner (env 0) = inr err ∧ isRetryable (Some err) = false.

Section stuck.
Context {F : Type} `{GoFloat F} {Resp : Type}.
Implicit Types (env : Z → Attempt F Resp) (c : RetryConfig F)
  (calls : list (Z → Attempt F Resp)).

Lemma chatCalls_exhausted c calls cb :
  probes_exhausted cb → chatCalls c calls cb = cb.
Proof.
  intros Hp. unfold chatCalls. apply exec_invariant; [done|].
  intros s env -> _. apply retryLoop_refused. intros j. by apply allow_exhausted.
Qed.

Lemma chatCalls_half_open c calls cb :
  0 < MaxAttempts c → state cb = CircuitHalfOpen → 0 <= halfOpenActive cb →
  Forall rejected_call calls →
  HalfOpenMax (cfg cb) - halfOpenActive cb <= Z.of_nat (length calls) →
  probes_exhausted (chatCalls c calls cb).
Proof.
  intros Hm. revert cb. induction calls as [|env calls IH]; intros cb Hs Ha Hall Hn.
  { split; [done|]. unfold chatCalls. simpl in *. lia. }
  apply Forall_cons in Hall as [(err & Hi & Hr) Hall].
  destruct (decide (halfOpenActive cb < HalfOpenMax (cfg cb))) as [Hlt|Hge].
  - assert ((allow (at_allow (env 0)) cb).1 = true) as Hok.
    { unfold allow. by rewrite Hs, bool_decide_eq_true_2. }
    destruct (ChatComplete_leaks_slot c env cb err Hm Hi Hr Hok) as [Hb _].
    unfold chatCalls. simpl. rewrite Hb.
    unfold allow. rewrite Hs, bool_decide_eq_true_2 by done.
    apply IH; simpl in *; [done|lia|done|lia].
  - rewrite chatCalls_exhausted; split; auto; lia.
Qed.

End stuck.

Lemma failures_keep_open ts cb :
  state cb = CircuitOpen → state (exec breakerStep cb (OpFailure <$> ts)) = CircuitOpen.
Proof.
  intros Hs. apply exec_invariant; [done|]. intros s o Hso Ho.
  apply list_elem_of_fmap in Ho as (t & -> & _). simpl. unfold recordFailure.
  rewrite Hso. simpl. by case_bool_decide.
Qed.

Lemma failures_trip ts cb :
  state cb = CircuitClosed → failures cb < FailureThreshold (cfg cb) →
  state (exec breakerStep cb (OpFailure <$> ts)) =
    if bool_decide (FailureThreshold (cfg cb) <= failures cb + Z.of_nat (length ts))
    then CircuitOpen else CircuitClosed.
Proof.
  revert cb. induction ts as [|t ts IH]; intros cb Hs Hf.
  { simpl. rewrite bool_decide_eq_false_2 by lia. done. }
  rewrite fmap_cons. simpl. unfold recordFailure at 1. rewrite Hs.
  case_bool_decide as Ht.
  - rewrite failures_keep_open by done. rewrite bool_decide_eq_true_2; [done|]. lia.
  - rewrite IH; simpl; [|done|lia].
    destruct (decide (FailureThreshold (cfg cb) <= failures cb + Z.of_nat (S (length ts))));
      [rewrite !bool_decide_eq_true_2 by lia|rewrite !bool_decide_eq_false_2 by lia]; done.
Qed.

(** The capped base of a backoff is positive and at most the maximum. *)
Lemma backoff_base_bounds (attempt : Z) (c : RetryConfig Q) :
  0 < BaseBackoff c → 0 <= MaxBackoff c → (0 < BackoffScale c)%Q →
  let base := (inject_Z (BaseBackoff c) * Qpower (BackoffScale c) attempt)%Q in
  let b := if fltb (inject_Z (MaxBackoff c)) base then inject_Z (MaxBackoff c) else base in
  (0 <= b <= inject_Z (MaxBackoff c))%Q.
Proof.
  intros Hb Hm Hs base b. unfold b.
  assert (0 <= inject_Z (MaxBackoff c))%Q by (rewrite <-(Zle_Qle 0); done).
  destruct (fltb (inject_Z (MaxBackoff c)) base) eqn:E.
  - split; [done|apply Qle_refl].
  - apply fltb_Q_ge in E. split; [|done]. unfold base.
    apply Qmult_le_0_compat; [rewrite <-(Zle_Qle 0); lia|].
    apply Qpower_0_le. by apply Qlt_le_weak.
Qed.

(** ** Properties *)

(** Every interleaving of breaker operations keeps the breaker consistent: a
    closed breaker has fewer failures than the threshold, probe slots are in use
    only while half-open, and never more than the configured maximum. *)
Theorem breaker_history_inv c ops :
  0 < FailureThreshold c → breaker_inv c (exec breakerStep (newCircuitBreaker c) ops).
Proof.
  intros Hc. apply exec_invariant; [|intros; by apply breaker_inv_step].
  by split; simpl.
Qed.

(** From a fresh count, a closed breaker opens exactly when the number of
    consecutive failures reaches the threshold, and not before. *)
Theorem breaker_trips_at_threshold cb ts :
  state cb = CircuitClosed → failures cb = 0 → 0 < FailureThreshold (cfg cb) →
  state (exec breakerStep cb (OpFailure <$> ts)) =
    if bool_decide (FailureThreshold (cfg cb) <= Z.of_nat (length ts))
    then CircuitOpen else CircuitClosed.
Proof. intros Hs Hf Ht. rewrite failures_trip; [by rewrite Hf|done|lia]. Qed.

(** While an open breaker is cooling down, a chat call never reaches the
    provider, leaves the breaker untouched and answers with an error. *)
Theorem ChatComplete_cooling {F} `{GoFloat F} {Resp} c (env : Z → Attempt F Resp) cb :
  0 < MaxAttempts c → (∀ i, cooling cb (at_allow (env i))) →
  let o := ChatComplete c env cb in
  inner_calls o = 0%nat ∧ o_breaker o = cb ∧ o_resp o = None ∧
  (o_err o = Some ErrCircuitOpen ∨ o_err o = Some ECtx).
Proof.
  intros Hm Hc. simpl.
  destruct (retryLoop_refused c env (Z.to_nat (MaxAttempts c)) 0 None cb)
    as (H1 & H2 & H3 & H4); [intros; by apply allow_cooling|].
  unfold ChatComplete. split_and!; try done.
  destruct H4 as [?|[?|[? _]]]; [by left|by right|lia].
Qed.

(** A chat call reaches the provider at most [MaxAttempts] times, and answers
    either with a response some attempt got from the provider, leaving the
    breaker closed with no failures, or with an error. *)
Theorem ChatComplete_answers {F} `{GoFloat F} {Resp} c (env : Z → Attempt F Resp) cb :
  0 < MaxAttempts c →
  let o := ChatComplete c env cb in
  Z.of_nat (inner_calls o) <= MaxAttempts c ∧
  ((∃ r j, o_resp o = Some r ∧ o_err o = None ∧ at_inner (env j) = inl r ∧
      state (o_breaker o) = CircuitClosed ∧ failures (o_breaker o) = 0) ∨
   (o_resp o = None ∧ o_err o ≠ None)).
Proof.
  intros Hm. split.
  - pose proof (retryLoop_calls c env (Z.to_nat (MaxAttempts c)) 0 None cb).
    unfold ChatComplete. lia.
  - apply retryLoop_result. left. lia.
Qed.

(** After recovery, once as many probes as the half-open breaker has slots end
    in a client error (one that is not retried), no later chat call ever reaches
    the provider again: the slots are never given back. *)
Theorem half_open_slots_leak {F} `{GoFloat F} {Resp} c cb
    (probes : list (Z → Attempt F Resp)) first (later : list (Z → Attempt F Resp))
    (env : Z → Attempt F Resp) :
  0 < MaxAttempts c → state cb = CircuitOpen →
  RecoveryTimeout (cfg cb) <= at_allow (first 0) - lastFailure cb →
  Forall rejected_call (first :: probes) →
  HalfOpenMax (cfg cb) - 1 <= Z.of_nat (length probes) →
  let cb' := chatCalls c ((first :: probes) ++ later) cb in
  inner_calls (ChatComplete c env cb') = 0%nat ∧ o_breaker (ChatComplete c env cb') = cb'.
Proof.
  intros Hm Hs Ht [(err & Hi & Hr) Hall]%Forall_cons Hn. simpl.
  destruct (ChatComplete_leaks_slot c first cb err Hm Hi Hr) as [Hb _].
  { unfold allow. by rewrite Hs, bool_decide_eq_true_2. }
  assert (probes_exhausted (chatCalls c (first :: probes) cb)) as Hp.
  { unfold chatCalls. simpl. rewrite Hb. unfold allow.
    rewrite Hs, bool_decide_eq_true_2 by done. apply chatCalls_half_open; simpl; auto; lia. }
  assert (chatCalls c ((first :: probes) ++ later) cb = chatCalls c (first :: probes) cb) as E.
  { unfold chatCalls at 1. rewrite exec_app. by apply chatCalls_exhausted. }
  simpl in E. unfold chatCalls in E |- *; simpl in E |- *. rewrite E.
  destruct (retryLoop_refused c env (Z.to_nat (MaxAttempts c)) 0 None
              (chatCalls c (first :: probes) cb)) as (H1 & H2 & _).
  { intros j. by apply allow_exhausted. }
  by split.
Qed.

(** In exact arithmetic the jittered backoff is never negative and never
    exceeds the configured maximum by more than a quarter. *)
Theorem backoffDuration_bounds attempt (c : RetryConfig Q) (r : Q) :
  0 < BaseBackoff c → 0 <= MaxBackoff c → (0 < BackoffScale c)%Q → (0 <= r <= 1)%Q →
  0 <= backoffDuration attempt c r ∧ 4 * backoffDuration attempt c r <= 5 * MaxBackoff c.
Proof.
  intros Hb Hm Hs Hr.
  pose proof (backoff_base_bounds attempt c Hb Hm Hs) as Hbase. cbv zeta in Hbase.
  set (b := if fltb _ _ then _ else _) in Hbase.
  set (sum := (b + b * (1 # 4) * (inject_Z 2 * r - inject_Z 1))%Q).
  assert (backoffDuration attempt c r =
    if bool_decide (ftrunc sum < 0) then BaseBackoff c else ftrunc sum) as -> by done.
  assert (0 <= sum)%Q as H0 by (unfold sum; change (inject_Z 2) with 2%Q; change (inject_Z 1) with 1%Q; nra).
  destruct (ftrunc_Q_nonneg sum H0) as [Hd0 Hd].
  assert (inject_Z (4 * ftrunc sum) <= inject_Z (5 * MaxBackoff c))%Q as H4.
  { rewrite !inject_Z_mult. change (inject_Z 4) with 4%Q. change (inject_Z 5) with 5%Q.
    assert (sum <= (5 # 4) * b)%Q; [|lra].
    unfold sum; change (inject_Z 2) with 2%Q; change (inject_Z 1) with 1%Q; nra. }
  rewrite <-Zle_Qle in H4. rewrite bool_decide_eq_false_2 by lia. lia.
Qed.

(** ** Witnesses *)

Definition sample_breaker_cfg : CircuitBreakerConfig :=
  {| FailureThreshold := 2; RecoveryTimeout := 60 * Second; HalfOpenMax := 2 |}.

Definition sample_open : circuitBreaker :=
  exec breakerStep (newCircuitBreaker sample_breaker_cfg) [OpFailure Second; OpFailure (2 * Second)].

(** An environment whose every attempt runs at [now] and answers [out]. *)
Definition sample_env (now : Time) (out : string + CallError) (i : Z) : Attempt Q string :=
  {| at_rand := 1 # 2; at_ctxDone := false; at_allow := now; at_inner := out; at_fail := now |}.

Definition bad_request : CallError :=
  EProvider {| StatusCode := 400; Code := "bad"; Message := "bad request"; RetryAfter := "" |}.

Lemma breaker_history_inv_witness :
  breaker_inv sample_breaker_cfg
    (exec breakerStep (newCircuitBreaker sample_breaker_cfg)
       [OpFailure Second; OpFailure (2 * Second); OpAllow (62 * Second); OpAllow (62 * Second)]) ∧
  state (exec breakerStep (newCircuitBreaker sample_breaker_cfg)
       [OpFailure Second; OpFailure (2 * Second); OpAllow (62 * Second)]) = CircuitHalfOpen.
Proof.
  split; [|vm_compute; reflexivity].
  apply (breaker_history_inv sample_breaker_cfg). vm_compute. reflexivity.
Defined.

Lemma breaker_trips_at_threshold_witness :
  state (exec breakerStep (newCircuitBreaker sample_breaker_cfg)
           (OpFailure <$> [Second; 2 * Second])) = CircuitOpen.
Proof.
  rewrite (breaker_trips_at_threshold (newCircuitBreaker sample_breaker_cfg));
    vm_compute; reflexivity.
Defined.

Lemma ChatComplete_cooling_witness :
  inner_calls (ChatComplete DefaultRetryConfig
    (sample_env (3 * Second) (inl "hi")) sample_open) = 0%nat.
Proof.
  apply (ChatComplete_cooling DefaultRetryConfig
           (sample_env (3 * Second) (inl "hi")) sample_open); [vm_compute; reflexivity|].
  intros i. split; vm_compute; reflexivity.
Defined.

Lemma ChatComplete_answers_witness :
  let o := ChatComplete DefaultRetryConfig (sample_env (63 * Second) (inl "hi")) sample_open in
  Z.of_nat (inner_calls o) <= 3 ∧ o_resp o = Some "hi".
Proof.
  split; [|vm_compute; reflexivity].
  apply (ChatComplete_answers DefaultRetryConfig (sample_env (63 * Second) (inl "hi")) sample_open).
  vm_compute. reflexivity.
Defined.

Lemma half_open_slots_leak_witness :
  let call := sample_env (63 * Second) (inr bad_request) in
  inner_calls (ChatComplete DefaultRetryConfig (sample_env (10000 * Second) (inl "healthy"))
    (chatCalls DefaultRetryConfig ([call; call] ++ []) sample_open)) = 0%nat.
Proof.
  apply (half_open_slots_leak DefaultRetryConfig sample_open
    [sample_env (63 * Second) (inr bad_request)] (sample_env (63 * Second) (inr bad_request)) []
    (sample_env (10000 * Second) (inl "healthy"))); try (vm_compute; congruence).
  repeat constructor; exists bad_request; split; vm_compute; reflexivity.
Defined.

Lemma backoffDuration_bounds_witness :
  0 <= backoffDuration 3 DefaultRetryConfig (1 # 2)%Q ∧
  4 * backoffDuration 3 DefaultRetryConfig (1 # 2)%Q <= 5 * (30 * Second) ∧
  backoffDuration 3 DefaultRetryConfig (fmul fquarter (fofZ 2) : Q) = 4 * Second.
Proof.
  pose proof (backoffDuration_bounds 3 DefaultRetryConfig (1 # 2)%Q) as H.
  destruct H as [H1 H2]; try (vm_compute; congruence); [split; vm_compute; congruence|].
  split_and!; [exact H1|exact H2|vm_compute; reflexivity].
Defined.

(** The same computation in binary64 gives the same wait. *)
Example backoffDuration_binary64 :
  backoffDuration 3 DefaultRetryConfig (fmul fquarter (fofZ 2) : SpecFloat.spec_float) = 4 * Second.
Proof. vm_compute. reflexivity. Qed.
