(* ===== verification/Quota.v ===== *)
(** * Quota: per-tenant rate, concurrency and token limits

    Models internal/quota: the [QuotaBackend] interface (backend.go), its
    in-memory implementation and the [Limiter] in front of it (limiter.go), the
    Postgres implementation (postgres.go) and the hourly [TokenBudget]
    (token_budget.go). *)

From S2P Require Import Prelude.

(** ** The backend interface (backend.go) *)

Class QuotaBackend (B : Type) := {
  AllowQPS : Time → string → Z → B → bool * B;
  TryIncConcurrent : string → Z → B → bool * B;
  DecConcurrent : string → B → B;
  WithInitialConcurrent : gmap string Z → B → B;
  (** the counter an implementation keeps for a tenant *)
  concurrentOf : B → string → Z
}.

(** What the run handlers rely on: the counter operations act on one tenant,
    stop at the maximum and at zero, and the rate check leaves counters alone. *)
Class QuotaBackendLaws (B : Type) `{QuotaBackend B} := {
  law_inc_ok t max b : concurrentOf b t < max →
    (TryIncConcurrent t max b).1 = true ∧
    ∀ u, concurrentOf (TryIncConcurrent t max b).2 u =
         if decide (t = u) then concurrentOf b t + 1 else concurrentOf b u;
  law_inc_full t max b : max <= concurrentOf b t → TryIncConcurrent t max b = (false, b);
  law_dec t b u : concurrentOf (DecConcurrent t b) u =
    if decide (t = u) then Z.max 0 (concurrentOf b t - 1) else concurrentOf b u;
  law_allow now t q b u : 0 <= concurrentOf b u →
    concurrentOf (AllowQPS now t q b).2 u = concurrentOf b u;
  law_init counts b u : concurrentOf (WithInitialConcurrent counts b) u =
    default (concurrentOf b u) (counts !! u)
}.

(** ** The in-memory backend (limiter.go) *)

Definition bucketIdleTTL : Duration := 1 * Hour.
Definition limiterSweepEvery : Z := 100.

Record bucket {F : Type} := { tokens : F; last : Time; lastAccess : Time }.
Arguments bucket : clear implicits.

Record MemoryBackend {F : Type} := {
  buckets : gmap string (bucket F);
  concurrent : gmap string Z;
  allowCount : Z
}.
Arguments MemoryBackend : clear implicits.

Section memory.
Context {F : Type} `{GoFloat F}.

Definition NewMemoryBackend : MemoryBackend F :=
  {| buckets := ∅; concurrent := ∅; allowCount := 0 |}.

(** Buckets idle for longer than the TTL go; so do zero counters without bucket. *)
Definition sweepLocked (now : Time) (m : MemoryBackend F) : MemoryBackend F :=
  let cutoff := now - bucketIdleTTL in
  let bs := filter (λ kb, ¬ (lastAccess kb.2 < cutoff)) (buckets m) in
  {| buckets := bs;
     concurrent := filter (λ kc, ¬ (kc.2 <= 0 ∧ bs !! kc.1 = None)) (concurrent m);
     allowCount := allowCount m |}.

Definition memAllowQPS (now : Time) (tenant : string) (qps : Z) (m : MemoryBackend F)
    : bool * MemoryBackend F :=
  let m := {| buckets := buckets m; concurrent := concurrent m;
              allowCount := allowCount m + 1 |} in
  let m := if bool_decide (Z.rem (allowCount m) limiterSweepEvery = 0)
           then sweepLocked now m else m in
  let b := match buckets m !! tenant with
           | Some b => b
           | None => {| tokens := fofZ qps; last := now; lastAccess := now |}
           end in
  let dt := fseconds (now - last b) in
  let refilled := fadd (tokens b) (fmul dt (fofZ qps)) in
  let level := if fltb (fofZ qps) refilled then fofZ qps else refilled in
  let store x := {| buckets := <[tenant := {| tokens := x; last := now; lastAccess := now |}]> (buckets m);
                    concurrent := concurrent m; allowCount := allowCount m |} in
  if fltb level (fofZ 1) then (false, store level)
  else (true, store (fsub level (fofZ 1))).

Definition memTryIncConcurrent (tenant : string) (max : Z) (m : MemoryBackend F)
    : bool * MemoryBackend F :=
  let cur := go_get 0 (concurrent m) tenant in
  if bool_decide (max <= cur) then (false, m)
  else (true, {| buckets := buckets m; concurrent := <[tenant := cur + 1]> (concurrent m);
                 allowCount := allowCount m |}).

Definition memDecConcurrent (tenant : string) (m : MemoryBackend F) : MemoryBackend F :=
  let cur := go_get 0 (concurrent m) tenant - 1 in
  let cur := if bool_decide (cur < 0) then 0 else cur in
  {| buckets := buckets m; concurrent := <[tenant := cur]> (concurrent m);
     allowCount := allowCount m |}.

Definition memWithInitialConcurrent (counts : gmap string Z) (m : MemoryBackend F)
    : MemoryBackend F :=
  {| buckets := buckets m; concurrent := counts ∪ concurrent m; allowCount := allowCount m |}.

#[global] Instance QuotaBackend_memory : QuotaBackend (MemoryBackend F) := {|
  AllowQPS := memAllowQPS;
  TryIncConcurrent := memTryIncConcurrent;
  DecConcurrent := memDecConcurrent;
  WithInitialConcurrent := memWithInitialConcurrent;
  concurrentOf m t := go_get 0 (concurrent m) t
|}.

End memory.

(** ** The limiter *)

Record Limiter {B : Type} := { backend : B; qps : Z; maxConcurrent : Z }.
Arguments Limiter : clear implicits.

Section limiter.
Context {B : Type} `{QuotaBackend B}.

Definition setBackend (l : Limiter B) (b : B) : Limiter B :=
  {| backend := b; qps := qps l; maxConcurrent := maxConcurrent l |}.

Definition limAllowQPS (now : Time) (tenant : string) (l : Limiter B) : bool * Limiter B :=
  let '(ok, b) := AllowQPS now tenant (qps l) (backend l) in (ok, setBackend l b).

Definition limTryIncConcurrent (tenant : string) (l : Limiter B) : bool * Limiter B :=
  let '(ok, b) := TryIncConcurrent tenant (maxConcurrent l) (backend l) in (ok, setBackend l b).

Definition limDecConcurrent (tenant : string) (l : Limiter B) : Limiter B :=
  setBackend l (DecConcurrent tenant (backend l)).

Definition limWithInitialConcurrent (counts : gmap string Z) (l : Limiter B) : Limiter B :=
  setBackend l (WithInitialConcurrent counts (backend l)).

End limiter.

(** The environment variables fix the limits; the backend is the in-memory one. *)
Definition NewFromEnv {F} `{GoFloat F} (env : Environ) (qpsEnv concurrentEnv : string)
    (defaultQPS defaultConcurrent : Z) : Limiter (MemoryBackend F) :=
  {| backend := NewMemoryBackend; qps := envInt env qpsEnv defaultQPS;
     maxConcurrent := envInt env concurrentEnv defaultConcurrent |}.

(** ** The Postgres backend (postgres.go)

    One row per tenant in [quota_state].  Each method sends one statement; the
    insert of its WITH clause and its UPDATE run on the same snapshot, so the
    UPDATE does not see a row the insert has just added.  [faults] says which
    of the coming statements the database fails (nothing is then changed). *)
Record quota_state {F : Type} := { row_tokens : F; last_refill : Time; row_concurrent : Z }.
Arguments quota_state : clear implicits.

Record PostgresBackend {F : Type} := {
  hasDB : bool;
  rows : gmap string (quota_state F);
  faults : list bool
}.
Arguments PostgresBackend : clear implicits.

Section postgres.
Context {F : Type} `{GoFloat F}.

(** Run one statement: no database or a failing statement gives [None]. *)
Definition pgStatement {A} (p : PostgresBackend F)
    (stmt : gmap string (quota_state F) → A * gmap string (quota_state F))
    : option A * PostgresBackend F :=
  if negb (hasDB p) then (None, p)
  else if default false (head (faults p)) then
    (None, {| hasDB := hasDB p; rows := rows p; faults := tail (faults p) |})
  else let '(a, rs) := stmt (rows p) in
       (Some a, {| hasDB := hasDB p; rows := rs; faults := tail (faults p) |}).

Definition pgAllowQPS (now : Time) (tenant : string) (qps : Z) (p : PostgresBackend F)
    : bool * PostgresBackend F :=
  let '(res, p) := pgStatement p (λ rs,
    match rs !! tenant with
    | None => (false, <[tenant := {| row_tokens := fofZ qps; last_refill := now; row_concurrent := 0 |}]> rs)
    | Some r =>
        let refilled := fadd (row_tokens r) (fmul (fseconds (now - last_refill r)) (fofZ qps)) in
        let level := if fltb (fofZ qps) refilled then fofZ qps else refilled in
        if fltb level (fofZ 1) then (false, rs)
        else (true, <[tenant := {| row_tokens := fsub level (fofZ 1); last_refill := now;
                                   row_concurrent := row_concurrent r |}]> rs)
    end) in
  (default false res, p).

Definition pgTryIncConcurrent (now : Time) (tenant : string) (max : Z) (p : PostgresBackend F)
    : bool * PostgresBackend F :=
  let '(res, p) := pgStatement p (λ rs,
    match rs !! tenant with
    | None => (false, <[tenant := {| row_tokens := fofZ 0; last_refill := now; row_concurrent := 0 |}]> rs)
    | Some r =>
        if bool_decide (row_concurrent r < max) then
          (true, <[tenant := {| row_tokens := row_tokens r; last_refill := last_refill r;
                                row_concurrent := row_concurrent r + 1 |}]> rs)
        else (false, rs)
    end) in
  (default false res, p).

Definition pgDecConcurrent (tenant : string) (p : PostgresBackend F) : PostgresBackend F :=
  (pgStatement p (λ rs, (tt, alter (λ r, {| row_tokens := row_tokens r;
      last_refill := last_refill r; row_concurrent := Z.max (row_concurrent r - 1) 0 |}) tenant rs))).2.

(** One upsert per entry of the map, in the order the range statement visits it. *)
Definition pgWithInitialConcurrent (now : Time) (counts : list (string * Z))
    (p : PostgresBackend F) : PostgresBackend F :=
  foldl (λ p tc, (pgStatement p (λ rs, (tt,
      <[tc.1 := match rs !! tc.1 with
                | Some r => {| row_tokens := row_tokens r; last_refill := last_refill r; row_concurrent := tc.2 |}
                | None => {| row_tokens := fofZ 0; last_refill := now; row_concurrent := tc.2 |}
                end]> rs))).2) p counts.

End postgres.

(** ** The hourly token budget (token_budget.go) *)

(** The [UsageRecorder] interface a Postgres usage store implements. *)
Class UsageRecorder (St : Type) := {
  usageRecord : string → Z → Time → St → bool * St;   (** [false]: the write failed *)
  hourlyUsage : string → Time → St → option Z          (** [None]: the query failed *)
}.

Record tokenWindow := { wtokens : Z; windowEnd : Time }.

Record TokenBudget {St : Type} := {
  windows : gmap string tokenWindow;
  limit : Z;
  store : option St
}.
Arguments TokenBudget : clear implicits.

Section budget.
Context {St : Type} `{UsageRecorder St}.

Definition NewTokenBudget (limit : Z) : TokenBudget St :=
  {| windows := ∅; limit := limit; store := None |}.

Definition NewTokenBudgetFromEnv (env : Environ) : TokenBudget St :=
  NewTokenBudget (envInt env "AGENTOS_QUOTA_HOURLY_TOKENS" 0).

Definition WithStore (s : St) (tb : TokenBudget St) : TokenBudget St :=
  {| windows := windows tb; limit := limit tb; store := Some s |}.

Definition expired (now : Time) (w : tokenWindow) : bool := bool_decide (windowEnd w < now).

Definition getOrCreateWindow (now : Time) (tenant : string) (tb : TokenBudget St)
    : tokenWindow * TokenBudget St :=
  let fresh :=
    let ws := filter (λ kw, expired now kw.2 = false) (delete tenant (windows tb)) in
    let initialTokens := match store tb with
                         | Some s => default 0 (hourlyUsage tenant now s)
                         | None => 0
                         end in
    let w := {| wtokens := initialTokens; windowEnd := now + 1 * Hour |} in
    (w, {| windows := <[tenant := w]> ws; limit := limit tb; store := store tb |}) in
  match windows tb !! tenant with
  | None => fresh
  | Some w => if expired now w then fresh else (w, tb)
  end.

Definition Check (now : Time) (tenant : string) (tb : TokenBudget St) : bool * TokenBudget St :=
  if bool_decide (limit tb <= 0) then (true, tb)
  else let '(w, tb) := getOrCreateWindow now tenant tb in
       (bool_decide (wtokens w < limit tb), tb).

Definition Remaining (now : Time) (tenant : string) (tb : TokenBudget St) : Z * TokenBudget St :=
  if bool_decide (limit tb <= 0) then (-1, tb)
  else let '(w, tb) := getOrCreateWindow now tenant tb in
       let rem := limit tb - wtokens w in
       ((if bool_decide (rem < 0) then 0 else rem), tb).

Definition persist (now : Time) (tenant : string) (n : Z) (tb : TokenBudget St) : TokenBudget St :=
  {| windows := windows tb; limit := limit tb;
     store := match store tb with
              | Some s => Some (usageRecord tenant n now s).2
              | None => None
              end |}.

(** [now] is read for the window and again for the persisted record. *)
Definition Record_ (now now' : Time) (tenant : string) (n : Z) (tb : TokenBudget St)
    : bool * TokenBudget St :=
  if bool_decide (limit tb <= 0) then (true, persist now' tenant n tb)
  else
    let '(w, tb) := getOrCreateWindow now tenant tb in
    let w := {| wtokens := wtokens w + n; windowEnd := windowEnd w |} in
    let tb := {| windows := <[tenant := w]> (windows tb); limit := limit tb; store := store tb |} in
    (bool_decide (wtokens w <= limit tb), persist now' tenant n tb).

End budget.

(** ** The in-memory backend keeps the interface's promises *)

Section laws.
Context {F : Type} `{GoFloat F}.

Lemma sweep_concurrent now (m : MemoryBackend F) u :
  0 <= go_get 0 (concurrent m) u →
  go_get 0 (concurrent (sweepLocked now m)) u = go_get 0 (concurrent m) u.
Proof.
  unfold go_get, sweepLocked; simpl. rewrite map_lookup_filter. intros Hu.
  destruct (concurrent m !! u) as [x|]; simpl in *; [|done].
  case_guard as Hg; simpl; [done|]. destruct Hg; lia.
Qed.

#[global] Instance QuotaBackendLaws_memory : QuotaBackendLaws (MemoryBackend F).
Proof.
  split; simpl.
  - intros t max b Hlt. unfold memTryIncConcurrent.
    rewrite bool_decide_eq_false_2 by lia. simpl. split; [done|]. intros u. by rewrite go_get_insert.
  - intros t max b Hge. unfold memTryIncConcurrent. by rewrite bool_decide_eq_true_2.
  - intros t b u. rewrite go_get_insert. case_decide; [|done]. case_bool_decide; lia.
  - intros now t q b u Hu. unfold memAllowQPS.
    destruct (bool_decide (Z.rem _ _ = 0)); case_match; simpl; try done;
      by apply (sweep_concurrent now {| buckets := buckets b; concurrent := concurrent b;
                                        allowCount := allowCount b + 1 |}).
  - intros counts b u. unfold go_get. rewrite lookup_union.
    destruct (counts !! u), (concurrent b !! u); done.
Qed.

End laws.

(** ** Histories of the counters *)

Inductive CounterOp := OpTryInc (tenant : string) | OpDec (tenant : string)
  | OpRate (now : Time) (tenant : string).

Section histories.
Context {B : Type} `{QuotaBackendLaws B}.

Definition counterStep (l : Limiter B) (op : CounterOp) : Limiter B :=
  match op with
  | OpTryInc t => (limTryIncConcurrent t l).2
  | OpDec t => limDecConcurrent t l
  | OpRate now t => (limAllowQPS now t l).2
  end.

(** The specification: a counter per tenant, incremented below the maximum and
    decremented above zero. *)
Definition specStep (max : Z) (f : string → Z) (op : CounterOp) : string → Z :=
  match op with
  | OpTryInc t => λ u, if decide (t = u) then (if bool_decide (f t < max) then f t + 1 else f t) else f u
  | OpDec t => λ u, if decide (t = u) then Z.max 0 (f t - 1) else f u
  | OpRate _ _ => f
  end.

Definition counters (l : Limiter B) : string → Z := concurrentOf (backend l).

Lemma counterStep_limits l op :
  qps (counterStep l op) = qps l ∧ maxConcurrent (counterStep l op) = maxConcurrent l.
Proof.
  destruct op; simpl; [unfold limTryIncConcurrent|done|unfold limAllowQPS]; by case_match.
Qed.

Lemma counterStep_spec l op u :
  (∀ t, 0 <= counters l t) →
  counters (counterStep l op) u = specStep (maxConcurrent l) (counters l) op u.
Proof.
  intros Hpos. unfold counters in *. destruct op as [t|t|now t]; simpl.
  - unfold limTryIncConcurrent. destruct (TryIncConcurrent _ _ _) as [ok b] eqn:E. simpl.
    destruct (decide (concurrentOf (backend l) t < maxConcurrent l)) as [Hlt|Hge].
    + rewrite bool_decide_eq_true_2 by done.
      destruct (law_inc_ok t (maxConcurrent l) (backend l) Hlt) as [_ Hu].
      rewrite E in Hu. by rewrite Hu.
    + rewrite bool_decide_eq_false_2 by done.
      rewrite law_inc_full in E by lia. simplify_eq. case_decide; by subst.
  - apply law_dec.
  - unfold limAllowQPS. destruct (AllowQPS _ _ _ _) as [ok b] eqn:E. simpl.
    rewrite <-(law_allow now t (qps l) (backend l) u) by done. by rewrite E.
Qed.

Lemma specStep_bounds max f op u :
  0 <= max → (∀ t, 0 <= f t <= max) → 0 <= specStep max f op u <= max.
Proof.
  intros Hm Hf. pose proof (Hf u). destruct op as [t|t|]; simpl; try done;
    case_decide; subst; try done; try case_bool_decide; lia.
Qed.

End histories.

(** ** The rate limit, in exact arithmetic *)

Section rate.
Context (q : Z) (Hq : 0 < q).

(** The textbook token bucket: levels are never forgotten. *)
Definition refLevel (now : Time) (t : string) (ref : gmap string (Q * Time)) : Q :=
  match ref !! t with
  | None => inject_Z q
  | Some (tok, l) =>
      let r := (tok + fseconds (now - l) * inject_Z q)%Q in
      if fltb (inject_Z q) r then inject_Z q else r
  end.

Definition refAllow (now : Time) (t : string) (ref : gmap string (Q * Time))
    : bool * gmap string (Q * Time) :=
  let lvl := refLevel now t ref in
  if fltb lvl 1%Q then (false, <[t := (lvl, now)]> ref)
  else (true, <[t := ((lvl - 1)%Q, now)]> ref).

(** The level [memAllowQPS] computes for a tenant. *)
Definition memLevel (now : Time) (t : string) (m : MemoryBackend Q) : Q :=
  let b := default {| tokens := inject_Z q; last := now; lastAccess := now |} (buckets m !! t) in
  let r := (tokens b + fseconds (now - last b) * inject_Z q)%Q in
  if fltb (inject_Z q) r then inject_Z q else r.

Definition counted (now : Time) (m : MemoryBackend Q) : MemoryBackend Q :=
  let m := {| buckets := buckets m; concurrent := concurrent m; allowCount := allowCount m + 1 |} in
  if bool_decide (Z.rem (allowCount m) limiterSweepEvery = 0) then sweepLocked now m else m.

Lemma memAllowQPS_unfold now t m :
  memAllowQPS now t q m =
    let m1 := counted now m in
    let lvl := memLevel now t m1 in
    let store x := {| buckets := <[t := {| tokens := x; last := now; lastAccess := now |}]> (buckets m1);
                      concurrent := concurrent m1; allowCount := allowCount m1 |} in
    if fltb lvl 1%Q then (false, store lvl) else (true, store (lvl - 1)%Q).
Proof.
  unfold memAllowQPS, memLevel. fold (counted now m). by destruct (buckets (counted now m) !! t).
Qed.

(** An evicted bucket has been idle for so long that it would be full again. *)
Definition sim (now : Time) (m : MemoryBackend Q) (ref : gmap string (Q * Time)) : Prop :=
  ∀ t, match buckets m !! t, ref !! t with
       | Some b, Some (tok, l) =>
           (tokens b == tok)%Q ∧ last b = l ∧ lastAccess b = l ∧ l <= now ∧ (0 <= tok)%Q
       | None, None => True
       | None, Some (tok, l) => l + bucketIdleTTL <= now ∧ (0 <= tok)%Q
       | Some _, None => False
       end.

Lemma sim_later now now' m ref : now <= now' → sim now m ref → sim now' m ref.
Proof.
  intros Hn Hs t. specialize (Hs t).
  destruct (buckets m !! t), (ref !! t) as [[]|]; try done; intuition lia.
Qed.

Lemma sim_counted now m ref : sim now m ref → sim now (counted now m) ref.
Proof.
  intros Hs t. specialize (Hs t). unfold counted. case_bool_decide; [|done].
  simpl. rewrite map_lookup_filter. destruct (buckets m !! t) as [b|]; simpl; [|done].
  case_guard as Hg; simpl; [done|].
  destruct (ref !! t) as [[tok l]|]; [|done].
  destruct Hs as (_ & _ & Hl & _ & Ht). simpl in Hg. unfold bucketIdleTTL in *. split; [lia|done].
Qed.

Lemma seconds_full (n : Z) (tok : Q) :
  (0 <= tok)%Q → Second <= n → (inject_Z q <= tok + fseconds n * inject_Z q)%Q.
Proof.
  intros Ht Hn. simpl. assert (1 <= n # 1000000000)%Q.
  { unfold Qle; simpl. unfold Second in Hn. lia. }
  assert (0 <= inject_Z q)%Q by (rewrite <-(Zle_Qle 0); lia). nra.
Qed.

Lemma sim_level now t m ref : sim now m ref → (memLevel now t m == refLevel now t ref)%Q.
Proof.
  intros Hs. specialize (Hs t). unfold memLevel, refLevel.
  destruct (buckets m !! t) as [b|], (ref !! t) as [[tok l]|]; simpl default; try done.
  - destruct Hs as (Ht & -> & _).
    rewrite (fltb_Q_proper _ _ (reflexivity _) _ _ (Qplus_comp _ _ Ht _ _ (reflexivity _))).
    case_match; by rewrite ?Ht.
  - destruct Hs as [Hl Ht]. simpl tokens. simpl last.
    assert (inject_Z q <= tok + fseconds (now - l) * inject_Z q)%Q as Hf.
    { apply seconds_full; [done|]. unfold bucketIdleTTL, Hour, Minute in Hl. unfold Second in *. lia. }
    rewrite Z.sub_diag. transitivity (inject_Z q).
    + case_match; [done|]. change (fseconds 0) with (0 # 1000000000)%Q. lra.
    + destruct (fltb (inject_Z q) (tok + _)%Q) eqn:E; [done|]. apply fltb_Q_ge in E. lra.
  - simpl tokens. simpl last. rewrite Z.sub_diag. change (fseconds 0) with (0 # 1000000000)%Q.
    case_match; [done|]. lra.
Qed.

(** Levels of the reference are never negative and never from the future. *)
Definition refwf (now : Time) (ref : gmap string (Q * Time)) : Prop :=
  ∀ t tok l, ref !! t = Some (tok, l) → (0 <= tok)%Q ∧ l <= now.

Lemma sim_refwf now m ref : sim now m ref → refwf now ref.
Proof.
  intros Hs t tok l Hr. specialize (Hs t). rewrite Hr in Hs.
  destruct (buckets m !! t); [by destruct Hs as (? & ? & ? & ? & ?)|].
  unfold bucketIdleTTL, Hour, Minute, Second in Hs. split; [by destruct Hs|lia].
Qed.

Lemma refwf_nonneg now t ref : refwf now ref → (0 <= refLevel now t ref)%Q.
Proof.
  intros Hwf. unfold refLevel.
  assert (0 <= inject_Z q)%Q as H0 by (rewrite <-(Zle_Qle 0); lia).
  destruct (ref !! t) as [[tok l]|] eqn:E; [|done]. destruct (Hwf _ _ _ E) as [Ht Hl].
  cbv zeta. destruct (fltb _ _); [exact H0|].
  assert (0 <= fseconds (now - l))%Q by (unfold Qle; simpl; lia). nra.
Qed.

Lemma refwf_later now now' ref : now <= now' → refwf now ref → refwf now' ref.
Proof. intros Hn Hwf t tok l Hr. destruct (Hwf _ _ _ Hr). split; [done|lia]. Qed.

Lemma refwf_allow now t ref : refwf now ref → refwf now (refAllow now t ref).2.
Proof.
  intros Hwf. pose proof (refwf_nonneg now t ref Hwf) as H0.
  unfold refAllow. cbv zeta. destruct (fltb _ _) eqn:E; intros u tok l; simpl;
    rewrite lookup_insert; case_decide; try apply Hwf; intros; simplify_eq; split; try done; try lia.
  apply fltb_Q_ge in E. lra.
Qed.

Lemma sim_step now0 now t m ref :
  sim now0 m ref → now0 <= now →
  (memAllowQPS now t q m).1 = (refAllow now t ref).1 ∧
  sim now (memAllowQPS now t q m).2 (refAllow now t ref).2.
Proof.
  intros Hs0 Hn. pose proof (sim_counted now m ref (sim_later _ _ _ _ Hn Hs0)) as Hs.
  pose proof (sim_level now t _ _ Hs) as Hlvl.
  pose proof (refwf_nonneg now t _ (sim_refwf _ _ _ Hs)) as H0.
  assert (∀ x y m', (x == y)%Q → (0 <= y)%Q → m' = counted now m →
    sim now {| buckets := <[t := {| tokens := x; last := now; lastAccess := now |}]> (buckets m');
               concurrent := concurrent m'; allowCount := allowCount m' |} (<[t := (y, now)]> ref)) as Hins.
  { intros x y m' Hxy Hy -> u. simpl. rewrite !lookup_insert. case_decide; [|apply Hs].
    simpl. split_and!; auto; lia. }
  rewrite memAllowQPS_unfold. unfold refAllow. cbv zeta.
  rewrite (fltb_Q_proper _ _ Hlvl _ _ (reflexivity _)).
  destruct (fltb (refLevel now t ref) 1%Q) eqn:E; simpl; split; auto.
  apply fltb_Q_ge in E. apply Hins; [by rewrite Hlvl|lra|done].
Qed.

(** A history of rate checks: the clock reading and the tenant of each. *)
Fixpoint nondecreasing (t0 : Time) (calls : list (Time * string)) : Prop :=
  match calls with
  | [] => True
  | c :: cs => t0 <= c.1 ∧ nondecreasing c.1 cs
  end.

Definition memAfter (m : MemoryBackend Q) (calls : list (Time * string)) : MemoryBackend Q :=
  exec (λ m c, (memAllowQPS c.1 c.2 q m).2) m calls.

Fixpoint memDecisions (m : MemoryBackend Q) (calls : list (Time * string)) : list bool :=
  match calls with
  | [] => []
  | c :: cs => let '(ok, m') := memAllowQPS c.1 c.2 q m in ok :: memDecisions m' cs
  end.

Fixpoint refDecisions (ref : gmap string (Q * Time)) (calls : list (Time * string)) : list bool :=
  match calls with
  | [] => []
  | c :: cs => let '(ok, r') := refAllow c.1 c.2 ref in ok :: refDecisions r' cs
  end.

(** How many of the calls of tenant [u] are admitted. *)
Fixpoint admittedFor (u : string) (calls : list (Time * string)) (ds : list bool) : Z :=
  match calls, ds with
  | c :: cs, d :: ds => (if decide (c.2 = u) then Z.b2z d else 0) + admittedFor u cs ds
  | _, _ => 0
  end.

Lemma memDecisions_ref now m ref calls :
  sim now m ref → nondecreasing now calls → memDecisions m calls = refDecisions ref calls.
Proof.
  revert now m ref. induction calls as [|c cs IH]; intros now m ref Hs Hm; [done|].
  destruct Hm as [Hc Hm]. simpl. destruct (sim_step now c.1 c.2 m ref Hs Hc) as [Hd Hs'].
  destruct (memAllowQPS _ _ _ _) as [d m'], (refAllow _ _ _) as [d' ref']. simpl in *. subst.
  f_equal. by apply (IH c.1).
Qed.

Lemma memAfter_sim now m ref calls :
  sim now m ref → nondecreasing now calls →
  ∃ ref', sim (foldl (λ _ c, c.1) now calls) (memAfter m calls) ref'.
Proof.
  revert now m ref. induction calls as [|c cs IH]; intros now m ref Hs Hm; [by exists ref|].
  destruct Hm as [Hc Hm]. destruct (sim_step now c.1 c.2 m ref Hs Hc) as [_ Hs'].
  unfold memAfter. simpl. by eapply IH.
Qed.

Lemma nondecreasing_app now c1 c2 :
  nondecreasing now (c1 ++ c2) ↔
  nondecreasing now c1 ∧ nondecreasing (foldl (λ _ c, c.1) now c1) c2.
Proof.
  revert now. induction c1 as [|c c1 IH]; intros now; simpl; [tauto|]. rewrite IH. tauto.
Qed.

Lemma refLevel_growth now now' t ref :
  now <= now' →
  (refLevel now' t ref <= refLevel now t ref + fseconds (now' - now) * inject_Z q)%Q.
Proof.
  intros Hn. unfold refLevel.
  assert (0 <= inject_Z q)%Q by (rewrite <-(Zle_Qle 0); lia).
  assert (0 <= fseconds (now' - now))%Q by (unfold Qle; simpl; lia).
  destruct (ref !! t) as [[tok l]|]; [|nra]. cbv zeta.
  assert (fseconds (now' - l) == fseconds (now - l) + fseconds (now' - now))%Q as Hd.
  { unfold Qeq, Qplus; simpl. lia. }
  destruct (fltb _ (tok + fseconds (now' - l) * _)%Q) eqn:E';
    destruct (fltb _ (tok + fseconds (now - l) * _)%Q) eqn:E;
    rewrite ?fltb_Q_ge, ?fltb_Q_lt in *; nra.
Qed.

Lemma refLevel_le now t ref : (refLevel now t ref <= inject_Z q)%Q.
Proof.
  unfold refLevel. destruct (ref !! t) as [[tok l]|]; [|apply Qle_refl]. cbv zeta.
  destruct (fltb _ _) eqn:E; [apply Qle_refl|]. by apply fltb_Q_ge in E.
Qed.

Lemma refLevel_insert_other now t u x ref :
  t ≠ u → refLevel now u (<[t := x]> ref) = refLevel now u ref.
Proof. intros. unfold refLevel. by rewrite lookup_insert_ne. Qed.

Lemma refLevel_insert now t x ref :
  (x <= inject_Z q)%Q → (refLevel now t (<[t := (x, now)]> ref) == x)%Q.
Proof.
  intros Hx. unfold refLevel. rewrite lookup_insert_eq, Z.sub_diag. cbv zeta.
  change (fseconds 0) with (0 # 1000000000)%Q.
  destruct (fltb _ _) eqn:E; rewrite ?fltb_Q_lt in E; lra.
Qed.

(** What a tenant is admitted is paid for by its level and by the refill. *)
Lemma refDecisions_bound u t0 hi ref calls :
  refwf t0 ref → nondecreasing t0 calls → Forall (λ c, c.1 <= hi) calls → t0 <= hi →
  (inject_Z (admittedFor u calls (refDecisions ref calls))
    <= refLevel t0 u ref + fseconds (hi - t0) * inject_Z q)%Q.
Proof.
  assert (0 <= inject_Z q)%Q as Hq0 by (rewrite <-(Zle_Qle 0); lia).
  revert t0 ref. induction calls as [|[now t] cs IH]; intros t0 ref Hwf Hm Hall Hhi.
  { pose proof (refwf_nonneg t0 u ref Hwf).
    assert (0 <= fseconds (hi - t0))%Q by (unfold Qle; simpl; lia). simpl admittedFor.
    change (inject_Z 0) with 0%Q. nra. }
  destruct Hm as [Hn Hm]. apply Forall_cons in Hall as [Hnow Hall]. simpl in Hn, Hm, Hnow.
  pose proof (refwf_later _ _ _ Hn Hwf) as Hwf'.
  specialize (IH now (refAllow now t ref).2 (refwf_allow now t ref Hwf') Hm Hall Hnow).
  pose proof (refLevel_growth t0 now u ref Hn) as Hg.
  assert (fseconds (hi - t0) == fseconds (now - t0) + fseconds (hi - now))%Q as Hd.
  { unfold Qeq, Qplus; simpl. lia. }
  assert (∀ d, (refAllow now t ref).1 = d →
    refLevel now u (refAllow now t ref).2 + inject_Z (if decide (t = u) then Z.b2z d else 0)
      <= refLevel now u ref)%Q as Hpay.
  { intros d Hd'. pose proof (refLevel_le now t ref). unfold refAllow in *. cbv zeta in *.
    destruct (decide (t = u)) as [->|Hne].
    - destruct (fltb (refLevel now u ref) 1%Q); simpl in *; subst;
        rewrite refLevel_insert by lra; simpl;
        change (inject_Z 1) with 1%Q; change (inject_Z 0) with 0%Q; lra.
    - destruct (fltb (refLevel now t ref) 1%Q); simpl; rewrite refLevel_insert_other by done;
        change (inject_Z 0) with 0%Q; lra. }
  simpl. destruct (refAllow now t ref) as [d ref']. simpl in *.
  rewrite inject_Z_plus. specialize (Hpay d eq_refl). nra.
Qed.

End rate.

(** ** Histories of the token budget *)

Inductive BudgetOp :=
  | BCheck (now : Time) (tenant : string)
  | BRemaining (now : Time) (tenant : string)
  | BRecord (now now' : Time) (tenant : string) (n : Z).

Definition budgetOpTime (op : BudgetOp) : Time :=
  match op with BCheck now _ | BRemaining now _ | BRecord now _ _ _ => now end.

(** The tokens a history records for a tenant. *)
Fixpoint spent (t : string) (ops : list BudgetOp) : Z :=
  match ops with
  | [] => 0
  | BRecord _ _ u n :: ops => (if decide (u = t) then n else 0) + spent t ops
  | _ :: ops => spent t ops
  end.

Section budget_histories.
Context {St : Type} `{UsageRecorder St}.
Implicit Types tb : TokenBudget St.

Definition budgetStep (tb : TokenBudget St) (op : BudgetOp) : TokenBudget St :=
  match op with
  | BCheck now t => (Check now t tb).2
  | BRemaining now t => (Remaining now t tb).2
  | BRecord now now' t n => (Record_ now now' t n tb).2
  end.

Lemma getOrCreateWindow_live now t tb w :
  windows tb !! t = Some w → now <= windowEnd w → getOrCreateWindow now t tb = (w, tb).
Proof.
  intros Hw Hn. unfold getOrCreateWindow, expired. rewrite Hw, bool_decide_eq_false_2; [done|lia].
Qed.

(** Serving one tenant never disturbs the live window of another. *)
Lemma getOrCreateWindow_other now t u tb w :
  u ≠ t → windows tb !! t = Some w → now <= windowEnd w →
  windows (getOrCreateWindow now u tb).2 !! t = Some w ∧
  limit (getOrCreateWindow now u tb).2 = limit tb.
Proof.
  intros Hne Hw Hn. unfold getOrCreateWindow.
  assert (windows tb !! t = Some w ∧ limit tb = limit tb) as Hsame by done.
  destruct (windows tb !! u) as [w'|]; [destruct (expired now w'); [|done]|]; simpl;
    (split; [|done]); rewrite lookup_insert_ne by done;
    apply map_lookup_filter_Some; (split; [by rewrite lookup_delete_ne|]);
    simpl; unfold expired; rewrite bool_decide_eq_false_2; try done; lia.
Qed.

Lemma budgetStep_window t w tb op :
  0 < limit tb → windows tb !! t = Some w → budgetOpTime op <= windowEnd w →
  limit (budgetStep tb op) = limit tb ∧
  windows (budgetStep tb op) !! t =
    Some {| wtokens := wtokens w + spent t [op]; windowEnd := windowEnd w |}.
Proof.
  intros Hl Hw Hn. destruct w as [k e]. simpl in Hn.
  destruct op as [now u|now u|now now' u n]; simpl in Hn |- *;
    unfold Check, Remaining, Record_; rewrite bool_decide_eq_false_2 by lia; simpl;
    (destruct (decide (u = t)) as [->|Hne];
     [rewrite (getOrCreateWindow_live _ _ _ _ Hw Hn)|
      pose proof (getOrCreateWindow_other now t u tb _ Hne Hw Hn) as [Ho Hlim];
      destruct (getOrCreateWindow now u tb) as [w' tb']; simpl in *]);
    simpl; rewrite ?lookup_insert_eq, ?lookup_insert_ne by done; rewrite ?Z.add_0_r; auto.
Qed.

Lemma budget_window t w tb ops :
  0 < limit tb → windows tb !! t = Some w →
  Forall (λ op, budgetOpTime op <= windowEnd w) ops →
  limit (exec budgetStep tb ops) = limit tb ∧
  windows (exec budgetStep tb ops) !! t =
    Some {| wtokens := wtokens w + spent t ops; windowEnd := windowEnd w |}.
Proof.
  revert tb w. induction ops as [|op ops IH]; intros tb w Hl Hw Hall.
  { simpl. destruct w. by rewrite Z.add_0_r. }
  apply Forall_cons in Hall as [Hop Hall].
  destruct (budgetStep_window t w tb op Hl Hw Hop) as [Hlim Hw'].
  destruct (IH _ _ ltac:(by rewrite Hlim) Hw' Hall) as [H1 H2]. simpl in *.
  rewrite H1, H2, Hlim. split; [done|]. do 2 f_equal. destruct op; simpl; lia.
Qed.

End budget_histories.

(** No store: the interface of a budget that only counts in memory. *)
#[global] Instance UsageRecorder_none : UsageRecorder Empty_set :=
  {| usageRecord _ _ _ s := (true, s); hourlyUsage _ _ _ := None |}.

(** ** Properties *)

(** Against any backend that keeps the interface's promises, every history of
    limiter calls acts on the counters exactly as the per-tenant counter
    specification, and no counter leaves the range from zero to the maximum. *)
Theorem limiter_refines_counters {B} `{QuotaBackendLaws B} (l : Limiter B) ops :
  0 <= maxConcurrent l → (∀ t, 0 <= counters l t <= maxConcurrent l) →
  ∀ u, counters (exec counterStep l ops) u =
         exec (specStep (maxConcurrent l)) (counters l) ops u ∧
       0 <= counters (exec counterStep l ops) u <= maxConcurrent l.
Proof.
  intros Hm.
  assert (∀ f, (∀ u, counters l u = f u) → (∀ t, 0 <= f t <= maxConcurrent l) →
    ∀ u, counters (exec counterStep l ops) u = exec (specStep (maxConcurrent l)) f ops u ∧
         0 <= counters (exec counterStep l ops) u <= maxConcurrent l) as Hgen; [|by eauto].
  revert l Hm. induction ops as [|op ops IH]; intros l Hm f Hf Hb u; simpl.
  { rewrite Hf. by split. }
  destruct (counterStep_limits l op) as [_ Hmax].
  destruct (IH (counterStep l op) ltac:(by rewrite Hmax) (specStep (maxConcurrent l) f op)) with (u := u)
    as [H1 H2].
  - intros v. rewrite counterStep_spec by (intros; rewrite Hf; apply Hb).
    destruct op; simpl; rewrite ?Hf; done.
  - intros v. rewrite Hmax. by apply specStep_bounds.
  - rewrite Hmax in *. by split.
Qed.

(** C22. Evicting idle buckets is invisible: for a clock that does not run
    backwards, the in-memory backend takes exactly the decisions of a token
    bucket that never forgets a tenant. *)
Theorem memory_backend_refines_token_bucket q calls :
  0 < q → nondecreasing 0 calls →
  memDecisions q NewMemoryBackend calls = refDecisions q ∅ calls.
Proof.
  intros Hq Hm. apply (memDecisions_ref q Hq 0); [|done]. intros t. by rewrite !lookup_empty.
Qed.

(** In every window of a history, a tenant is admitted at most [qps] calls plus
    what [qps] per second refills during the window. *)
Theorem AllowQPS_rate_bound q u pre win lo hi :
  0 < q → nondecreasing 0 (pre ++ win) → Forall (λ c, lo <= c.1 <= hi) win →
  foldl (λ _ c, c.1) 0 pre <= lo → lo <= hi →
  Second * admittedFor u win (memDecisions q (memAfter q NewMemoryBackend pre) win)
    <= q * (Second + (hi - lo)).
Proof.
  intros Hq [Hpre Hwin]%nondecreasing_app Hall Hlo Hhi.
  destruct (memAfter_sim q Hq 0 NewMemoryBackend ∅ pre) as [ref Hs]; [|done|].
  { intros t. by rewrite !lookup_empty. }
  assert (nondecreasing lo win) as Hlow.
  { destruct win as [|c w]; [done|]. apply Forall_cons in Hall as [? _]. simpl in *. split; [lia|]. by destruct Hwin. }
  pose proof (sim_later _ _ _ _ Hlo Hs) as Hs'.
  rewrite (memDecisions_ref q Hq lo _ ref) by done.
  pose proof (refDecisions_bound q Hq u lo hi ref win (sim_refwf _ _ _ Hs') Hlow
    (Forall_impl _ _ _ Hall (λ _ H, proj2 H)) Hhi) as Hb.
  pose proof (refLevel_le q lo u ref).
  set (n := admittedFor _ _ _) in *.
  assert (inject_Z n <= inject_Z q + fseconds (hi - lo) * inject_Z q)%Q as Hn by lra.
  unfold Qle, Qplus, Qmult, inject_Z in Hn; simpl in Hn. unfold Second. lia.
Qed.

(** During the life of a tenant's window, whatever the other tenants do, the
    budget check answers whether the tokens the window started with and those
    recorded since are below the limit. *)
Theorem budget_accounting {St} `{UsageRecorder St} (tb : TokenBudget St) t w ops now :
  0 < limit tb → windows tb !! t = Some w →
  Forall (λ op, budgetOpTime op <= windowEnd w) ops → now <= windowEnd w →
  (Check now t (exec budgetStep tb ops)).1 = bool_decide (wtokens w + spent t ops < limit tb).
Proof.
  intros Hl Hw Hall Hn. destruct (budget_window t w tb ops Hl Hw Hall) as [Hlim Hw'].
  unfold Check. rewrite bool_decide_eq_false_2 by (rewrite Hlim; lia).
  rewrite (getOrCreateWindow_live _ _ _ _ Hw' Hn). simpl. by rewrite Hlim.
Qed.

(** Windows do not slide: a tenant can use its whole hourly limit at the last
    instant of one window and again one nanosecond later, and both are within
    budget. *)
Theorem budget_boundary_burst l t t0 :
  0 < l →
  let tb := (Check (St := Empty_set) t0 t (NewTokenBudget l)).2 in
  let '(ok1, tb1) := Record_ (t0 + Hour) (t0 + Hour) t l tb in
  let '(ok2, tb2) := Record_ (t0 + Hour + 1) (t0 + Hour + 1) t l tb1 in
  ok1 = true ∧ ok2 = true ∧ (Remaining (t0 + Hour + 1) t tb2).1 = 0.
Proof.
  intros Hl. assert (0 < Hour) by done.
  unfold Check, Record_, Remaining, NewTokenBudget, getOrCreateWindow, expired.
  repeat (simpl; rewrite ?lookup_insert_eq, ?lookup_empty; case_bool_decide; simpl; try lia).
Qed.

(** The Postgres backend refuses the first request of every tenant, whatever
    the limits, because the UPDATE does not see the row its own statement
    inserts; the in-memory backend admits it. *)
Theorem postgres_refuses_first_request {F} `{GoFloat F} now t q max (p : PostgresBackend F) :
  rows p !! t = None →
  (pgAllowQPS now t q p).1 = false ∧ (pgTryIncConcurrent now t max p).1 = false ∧
  (0 < max → (memTryIncConcurrent t max (NewMemoryBackend (F := F))).1 = true).
Proof.
  intros Hr. unfold pgAllowQPS, pgTryIncConcurrent, pgStatement.
  destruct (negb (hasDB p)); simpl; [|destruct (default false _); simpl; rewrite ?Hr; simpl];
    (split_and!; [done..|]); intros Hm; unfold memTryIncConcurrent, go_get; simpl;
    rewrite lookup_empty; simpl; rewrite bool_decide_eq_false_2 by lia; done.
Qed.

(** ** Witnesses *)

Definition sample_limiter : Limiter (MemoryBackend Q) :=
  NewFromEnv (λ _, "") "AGENTOS_QUOTA_RUN_CREATE_QPS" "AGENTOS_QUOTA_CONCURRENT_RUNS" 10 2.

Lemma limiter_refines_counters_witness :
  counters (exec counterStep sample_limiter
    [OpTryInc "a"; OpTryInc "a"; OpTryInc "a"; OpDec "a"; OpTryInc "b"]) "a" = 1.
Proof.
  destruct (limiter_refines_counters sample_limiter
    [OpTryInc "a"; OpTryInc "a"; OpTryInc "a"; OpDec "a"; OpTryInc "b"]) with (u := "a") as [-> _];
    [vm_compute; congruence|intros t; vm_compute; split; congruence|vm_compute; reflexivity].
Defined.

Lemma memory_backend_refines_token_bucket_witness :
  memDecisions 1 NewMemoryBackend [(0, "a"); (1, "a"); (2 * Second, "a")] = [true; false; true].
Proof.
  rewrite (memory_backend_refines_token_bucket 1); [vm_compute; reflexivity|lia|].
  repeat split; vm_compute; congruence.
Defined.

(** The same history in binary64. *)
Example memory_backend_binary64 :
  (λ m0 : MemoryBackend SpecFloat.spec_float,
    let '(a, m1) := memAllowQPS 0 "a" 1 m0 in
    let '(b, m2) := memAllowQPS 1 "a" 1 m1 in
    let '(c, _) := memAllowQPS (2 * Second) "a" 1 m2 in [a; b; c]) NewMemoryBackend
  = [true; false; true].
Proof. vm_compute. reflexivity. Qed.

Lemma AllowQPS_rate_bound_witness :
  Second * admittedFor "a" [(1, "a"); (2, "a")]
    (memDecisions 1 (memAfter 1 NewMemoryBackend [(0, "b")]) [(1, "a"); (2, "a")])
  <= 1 * (Second + (2 - 1)).
Proof.
  apply (AllowQPS_rate_bound 1 "a" [(0, "b")] [(1, "a"); (2, "a")] 1 2);
    [lia|repeat split; simpl; lia|repeat constructor; simpl; lia|simpl; lia|lia].
Defined.

Definition sample_budget : TokenBudget Empty_set :=
  (Check 0 "a" (NewTokenBudget 100)).2.

Lemma budget_accounting_witness :
  (Check 20 "a" (exec budgetStep sample_budget [BRecord 5 5 "a" 60; BCheck 6 "b"; BRecord 7 7 "a" 40])).1
  = false.
Proof.
  rewrite (budget_accounting sample_budget "a" {| wtokens := 0; windowEnd := Hour |});
    [vm_compute; reflexivity|vm_compute; reflexivity|vm_compute; reflexivity| |vm_compute; congruence].
  repeat constructor; vm_compute; congruence.
Defined.

Lemma budget_boundary_burst_witness :
  (Record_ (Hour + 1) (Hour + 1) "a" 100
     (Record_ Hour Hour "a" 100 sample_budget).2).1 = true.
Proof.
  pose proof (budget_boundary_burst 100 "a" 0 ltac:(lia)) as H.
  vm_compute in H. vm_compute. apply H.
Defined.

Definition sample_pg : PostgresBackend Q := {| hasDB := true; rows := ∅; faults := [] |}.

Lemma postgres_refuses_first_request_witness :
  (pgAllowQPS 0 "a" 10 sample_pg).1 = false ∧
  (pgAllowQPS 1 "a" 10 (pgAllowQPS 0 "a" 10 sample_pg).2).1 = true.
Proof.
  split; [|vm_compute; reflexivity].
  apply (postgres_refuses_first_request 0 "a" 10 5 sample_pg). reflexivity.
Defined.
