(* ===== verification/Governance.v ===== *)
(** * Governance: the policy engine in front of every tool call

    Models internal/governance: the configuration and its validation (types.go,
    loader.go), the kill switch (killswitch.go), the agent registry
    (registry.go), the behaviour trackers and the engine (engine.go).  A
    decision's reason is kept as the arguments of the message the source
    formats. *)

From S2P Require Import Prelude GoTime.

(** ** Configuration (types.go) *)

Inductive Verdict := Allow | Deny.

#[global] Instance Verdict_eq_dec : EqDecision Verdict.
Proof. solve_decision. Defined.

Inductive Reason :=
  | RAgentFrozen (reason : string)
  | RUnknownAgent (agent : string)
  | RNoSegmentation (agent : string)
  | RExplicitlyDenied (tool agent : string)
  | RNotAllowed (tool agent : string)
  | RBreakerFrozen (agent : string)
  | RHourlyLimit (agent category : string) (count limit : Z)
  | RDailyLimit (agent : string) (count limit : Z)
  | RLoop (agent action target : string) (count : Z) (window : Duration) (limit : Z).

Record Decision := { dVerdict : Verdict; dReason : option Reason; dDomain : string }.

Record AgentPolicy := { Role : string; Description : string; Clearance : string; Auth : string }.

(** [ToolCategory] is a string type with two named values. *)
Definition CategoryObserve : string := "observe".
Definition CategoryAction : string := "action".

Record RateLimit := { PerHour : Z; PerDay : Z; ObservePerHour : Z; ActionPerHour : Z }.

Record LoopDetectionConfig := { MaxAttemptsPerTarget : Z; Window : string; OnTrigger : string }.

Record CircuitBreakerConfig := {
  ConsecutiveFailures : Z; CBAction : string; Notify : string; AutoUnfreeze : bool
}.

Record BehaviorConfig := {
  RateLimits : gmap string RateLimit;
  LoopDetection : LoopDetectionConfig;
  CircuitBreaker : CircuitBreakerConfig
}.

Record SegmentationEntry := {
  AllowedActions : list string;
  DeniedActions : list string;
  ProtectedTargets : list string;
  ProtectedGate : string;
  Scope : string
}.

Record GovernanceConfig := {
  Version : string;
  Framework : string;
  Agents : gmap string AgentPolicy;
  Behavior : BehaviorConfig;
  Segments : gmap string SegmentationEntry
}.

(** ** Validation (loader.go)

    The first problem found; the two range loops report whichever offending
    entry they meet first. *)
Inductive ConfigError :=
  | MissingVersion
  | NoAgents
  | AgentWithoutRole (name : string)
  | UnknownSegmentAgent (name : string).

Definition validateConfig (rngA : gmap string AgentPolicy → list (string * AgentPolicy))
    (rngS : gmap string SegmentationEntry → list (string * SegmentationEntry))
    (c : GovernanceConfig) : option ConfigError :=
  if decide (Version c = "") then Some MissingVersion
  else if decide (size (Agents c) = 0%nat) then Some NoAgents
  else match list_find (λ na, Role na.2 = "") (rngA (Agents c)) with
       | Some (_, (name, _)) => Some (AgentWithoutRole name)
       | None =>
           match list_find (λ ns, Agents c !! ns.1 = None) (rngS (Segments c)) with
           | Some (_, (name, _)) => Some (UnknownSegmentAgent name)
           | None => None
           end
       end.

(** ** Kill switch (killswitch.go) *)

Record FreezeRecord := { AgentID : string; FReason : string; FrozenBy : string; FrozenAt : Time }.

Abbreviation KillSwitch := (gmap string FreezeRecord).

Definition NewKillSwitch : KillSwitch := ∅.

Definition Freeze (now : Time) (agentID reason frozenBy : string) (ks : KillSwitch) : KillSwitch :=
  <[agentID := {| AgentID := agentID; FReason := reason; FrozenBy := frozenBy; FrozenAt := now |}]> ks.

Definition Unfreeze (agentID : string) (ks : KillSwitch) : KillSwitch :=
  match ks !! agentID with Some _ => delete agentID ks | None => ks end.

Definition IsFrozen (agentID : string) (ks : KillSwitch) : option string :=
  FReason <$> ks !! agentID.

Definition ListFrozen (rng : KillSwitch → list (string * FreezeRecord)) (ks : KillSwitch)
    : list FreezeRecord := (rng ks).*2.

(** ** The tracker interfaces of the engine (types.go) *)

Class RateLimiter (R : Type) := {
  rlRecordAction : string → string → Time → R → R;
  rlCheck : string → string → RateLimit → Time → R → option Reason * R
}.

Class LoopDetector (L : Type) := {
  ldRecordAttempt : string → string → string → Time → L → L;
  ldCheck : string → string → string → Z → Duration → Time → L → option Reason * L
}.

Class CircuitBreakerTracker (C : Type) := {
  cbRecordSuccess : string → C → C;
  cbRecordFailure : string → C → Z * C;
  cbConsecutiveFailures : string → C → Z;
  cbIsFrozen : string → C → bool;
  cbFreeze : string → C → C
}.

(** ** The in-memory trackers (engine.go) *)

Abbreviation Buckets := (gmap string (list Time)).

Definition rateBucketKey (agentID category : string) : string :=
  agentID +:+ ":" +:+ category.

Definition maxRateBuckets : Z := 10000.

(** The latest of a list of timestamps, from the zero time. *)
Definition latestOf (ts : list Time) : Time :=
  foldl (λ latest t, if bool_decide (latest < t) then t else latest) 0 ts.

(** Position of the entry with the earliest time, scanning from [oldest]. *)
Fixpoint oldestFrom (oldest : nat) (best : Time) (j : nat) (l : list (string * Time)) : nat :=
  match l with
  | [] => oldest
  | e :: l' => if bool_decide (e.2 < best) then oldestFrom j e.2 (S j) l'
               else oldestFrom oldest best (S j) l'
  end.

(** One round of the selection: the oldest entry, and the others after the swap. *)
Definition takeOldest (e : string * Time) (rest : list (string * Time))
    : (string * Time) * list (string * Time) :=
  match oldestFrom 0 e.2 1 rest with
  | O => (e, rest)
  | S j => match rest !! j with
           | Some x => (x, <[j := e]> rest)
           | None => (e, rest)
           end
  end.

Fixpoint deleteOldest (n : nat) (entries : list (string * Time)) (bs : Buckets) : Buckets :=
  match n, entries with
  | S n', e :: rest =>
      let '(x, rest') := takeOldest e rest in deleteOldest n' rest' (delete x.1 bs)
  | _, _ => bs
  end.

(** The visiting order of the ranges over the buckets. *)
Class BucketRange := bucket_range : Buckets → list (string * list Time).

Section trackers.
Context `{BucketRange}.

Definition evictOldestBucketsLocked (bs : Buckets) : Buckets :=
  let toRemove := Nat.max 1 (size bs / 10) in
  deleteOldest toRemove ((λ kt, (kt.1, latestOf kt.2)) <$> bucket_range bs) bs.

Definition RecordAction (agentID category : string) (t : Time) (bs : Buckets) : Buckets :=
  let key := rateBucketKey agentID category in
  let bs := <[key := go_get [] bs key ++ [t]]> bs in
  if bool_decide (maxRateBuckets < Z.of_nat (size bs)) then evictOldestBucketsLocked bs else bs.

Definition after (cutoff : Time) (ts : list Time) : list Time := filter (λ t, cutoff < t) ts.

Definition countAfter (cutoff : Time) (ts : list Time) : Z := Z.of_nat (length (after cutoff ts)).

Definition hourLimitOf (category : string) (limits : RateLimit) : Z :=
  if decide (category = CategoryObserve ∧ 0 < ObservePerHour limits) then ObservePerHour limits
  else if decide (category = CategoryAction ∧ 0 < ActionPerHour limits) then ActionPerHour limits
  else PerHour limits.

Definition RateCheck (agentID category : string) (limits : RateLimit) (now : Time) (bs : Buckets)
    : option Reason * Buckets :=
  let key := rateBucketKey agentID category in
  let hourAgo := now - Hour in
  let dayAgo := now - 24 * Hour in
  let alive := after dayAgo (go_get [] bs key) in
  let hourCount := countAfter hourAgo alive in
  let bs := <[key := alive]> bs in
  let hourLimit := hourLimitOf category limits in
  if decide (0 < hourLimit ∧ hourLimit <= hourCount) then
    (Some (RHourlyLimit agentID category hourCount hourLimit), bs)
  else if bool_decide (0 < PerDay limits) then
    let dayCount := countAfter dayAgo (go_get [] bs (rateBucketKey agentID CategoryObserve))
                  + countAfter dayAgo (go_get [] bs (rateBucketKey agentID CategoryAction)) in
    if bool_decide (PerDay limits <= dayCount) then
      (Some (RDailyLimit agentID dayCount (PerDay limits)), bs)
    else (None, bs)
  else (None, bs).

Definition loopKey (agentID action target : string) : string :=
  agentID +:+ "|" +:+ action +:+ "|" +:+ target.

Definition maxLoopBuckets : Z := 10000.

(** Past the cap, timestamps of the last 24 hours are kept and empty keys go. *)
Definition evictStale (cutoff : Time) (bs : Buckets) : Buckets :=
  omap (λ ts, match after cutoff ts with [] => None | alive => Some alive end) bs.

Definition RecordAttempt (agentID action target : string) (t : Time) (bs : Buckets) : Buckets :=
  let key := loopKey agentID action target in
  let bs := <[key := go_get [] bs key ++ [t]]> bs in
  if bool_decide (maxLoopBuckets < Z.of_nat (size bs)) then evictStale (t - 24 * Hour) bs else bs.

Definition LoopCheck (agentID action target : string) (maxAttempts : Z) (window : Duration)
    (now : Time) (bs : Buckets) : option Reason * Buckets :=
  let key := loopKey agentID action target in
  let alive := after (now - window) (go_get [] bs key) in
  let count := Z.of_nat (length alive) in
  let bs := <[key := alive]> bs in
  if bool_decide (maxAttempts <= count) then
    (Some (RLoop agentID action target count window maxAttempts), bs)
  else (None, bs).

End trackers.

Record InMemoryCircuitBreaker := { failures : gmap string Z; frozen : gmap string bool }.

Definition NewInMemoryCircuitBreaker : InMemoryCircuitBreaker := {| failures := ∅; frozen := ∅ |}.

Definition CBRecordSuccess (agentID : string) (cb : InMemoryCircuitBreaker) : InMemoryCircuitBreaker :=
  {| failures := <[agentID := 0]> (failures cb); frozen := frozen cb |}.

Definition CBRecordFailure (agentID : string) (cb : InMemoryCircuitBreaker) : Z * InMemoryCircuitBreaker :=
  let n := go_get 0 (failures cb) agentID + 1 in
  (n, {| failures := <[agentID := n]> (failures cb); frozen := frozen cb |}).

Definition CBConsecutiveFailures (agentID : string) (cb : InMemoryCircuitBreaker) : Z :=
  go_get 0 (failures cb) agentID.

Definition CBIsFrozen (agentID : string) (cb : InMemoryCircuitBreaker) : bool :=
  go_get false (frozen cb) agentID.

Definition CBFreeze (agentID : string) (cb : InMemoryCircuitBreaker) : InMemoryCircuitBreaker :=
  {| failures := failures cb; frozen := <[agentID := true]> (frozen cb) |}.

(** ** The engine (engine.go) *)

Record Engine {R L C : Type} := {
  cfg : GovernanceConfig;
  killSwitch : KillSwitch;
  rateLimiter : R;
  loopDetector : L;
  circuitBreaker : C
}.
Arguments Engine : clear implicits.

(** [parseWindow]: an hour when the configured string does not parse. *)
Definition parseWindow (s : string) : Duration := default Hour (ParseDuration s).

Definition deny (r : Reason) (domain : string) : Decision :=
  {| dVerdict := Deny; dReason := Some r; dDomain := domain |}.

Definition allowed : Decision := {| dVerdict := Allow; dReason := None; dDomain := "" |}.

(** [None]: segmentation has no objection.  Hits on protected targets are only
    logged by the source. *)
Definition checkSegmentation (c : GovernanceConfig) (agentID toolName : string) : option Decision :=
  match Segments c !! agentID with
  | None => Some (deny (RNoSegmentation agentID) "segmentation")
  | Some seg =>
      if decide (toolName ∈ DeniedActions seg) then
        Some (deny (RExplicitlyDenied toolName agentID) "segmentation")
      else if decide (toolName ∈ AllowedActions seg) then None
      else Some (deny (RNotAllowed toolName agentID) "segmentation")
  end.

Section engine.
Context {R L C : Type} `{RateLimiter R} `{LoopDetector L} `{CircuitBreakerTracker C}.
Implicit Types e : Engine R L C.

Definition setTrackers (e : Engine R L C) (r : R) (l : L) : Engine R L C :=
  {| cfg := cfg e; killSwitch := killSwitch e; rateLimiter := r; loopDetector := l;
     circuitBreaker := circuitBreaker e |}.

Definition checkBehavior (now : Time) (agentID toolName category : string)
    (args : list (string * any)) (e : Engine R L C) : option Decision * Engine R L C :=
  if cbIsFrozen agentID (circuitBreaker e) then
    (Some (deny (RBreakerFrozen agentID) "behavior"), e)
  else
    let '(rateReason, rl) :=
      match RateLimits (Behavior (cfg e)) !! agentID with
      | Some limits => rlCheck agentID category limits now (rateLimiter e)
      | None => (None, rateLimiter e)
      end in
    match rateReason with
    | Some r => (Some (deny r "behavior"), setTrackers e rl (loopDetector e))
    | None =>
        let target := default "" (any_string "target" args) in
        let windowDur := parseWindow (Window (LoopDetection (Behavior (cfg e)))) in
        let maxAttempts := MaxAttemptsPerTarget (LoopDetection (Behavior (cfg e))) in
        let '(loopReason, ld) :=
          if decide (target ≠ "" ∧ 0 < maxAttempts) then
            ldCheck agentID toolName target maxAttempts windowDur now (loopDetector e)
          else (None, loopDetector e) in
        match loopReason with
        | Some r => (Some (deny r "behavior"), setTrackers e rl ld)
        | None =>
            let rl := rlRecordAction agentID category now rl in
            let ld := if decide (target ≠ "")
                      then ldRecordAttempt agentID toolName target now ld else ld in
            (None, setTrackers e rl ld)
        end
    end.

(** [Check]; [opts] is the category of the first option, if any is given. *)
Definition EngineCheck (now : Time) (agentID toolName : string) (args : list (string * any))
    (opts : option string) (e : Engine R L C) : Decision * Engine R L C :=
  match IsFrozen agentID (killSwitch e) with
  | Some reason => (deny (RAgentFrozen reason) "killswitch", e)
  | None =>
      match Agents (cfg e) !! agentID with
      | None => (deny (RUnknownAgent agentID) "identity", e)
      | Some _ =>
          match checkSegmentation (cfg e) agentID toolName with
          | Some d => (d, e)
          | None =>
              let category := match opts with
                              | Some c => if decide (c = "") then CategoryAction else c
                              | None => CategoryAction
                              end in
              let '(d, e) := checkBehavior now agentID toolName category args e in
              (default allowed d, e)
          end
      end
  end.

Definition RecordResult (agentID : string) (success : bool) (e : Engine R L C) : Engine R L C :=
  let setCB c := {| cfg := cfg e; killSwitch := killSwitch e; rateLimiter := rateLimiter e;
                    loopDetector := loopDetector e; circuitBreaker := c |} in
  if success then setCB (cbRecordSuccess agentID (circuitBreaker e))
  else
    let '(count, c) := cbRecordFailure agentID (circuitBreaker e) in
    let threshold := ConsecutiveFailures (CircuitBreaker (Behavior (cfg e))) in
    if decide (0 < threshold ∧ threshold <= count) then setCB (cbFreeze agentID c) else setCB c.

(** Freeze and unfreeze through [Engine.KillSwitch]. *)
Definition setKillSwitch (ks : KillSwitch) (e : Engine R L C) : Engine R L C :=
  {| cfg := cfg e; killSwitch := ks; rateLimiter := rateLimiter e;
     loopDetector := loopDetector e; circuitBreaker := circuitBreaker e |}.

End engine.

(** The implementations [NewEngineFromConfig] installs. *)
Record InMemoryRateLimiter := { rbuckets : Buckets }.
Record InMemoryLoopDetector := { attempts : Buckets }.

#[global] Instance CircuitBreakerTracker_memory : CircuitBreakerTracker InMemoryCircuitBreaker := {|
  cbRecordSuccess := CBRecordSuccess;
  cbRecordFailure := CBRecordFailure;
  cbConsecutiveFailures := CBConsecutiveFailures;
  cbIsFrozen := CBIsFrozen;
  cbFreeze := CBFreeze
|}.

#[global] Instance LoopDetector_memory : LoopDetector InMemoryLoopDetector := {|
  ldRecordAttempt a x t now l := {| attempts := RecordAttempt a x t now (attempts l) |};
  ldCheck a x t n w now l :=
    let '(r, bs) := LoopCheck a x t n w now (attempts l) in (r, {| attempts := bs |})
|}.

#[global] Instance RateLimiter_memory `{BucketRange} : RateLimiter InMemoryRateLimiter := {|
  rlRecordAction a c t r := {| rbuckets := RecordAction a c t (rbuckets r) |};
  rlCheck a c lim now r :=
    let '(o, bs) := RateCheck a c lim now (rbuckets r) in (o, {| rbuckets := bs |})
|}.

Abbreviation MemEngine := (Engine InMemoryRateLimiter InMemoryLoopDetector InMemoryCircuitBreaker).

Definition NewEngineFromConfig (c : GovernanceConfig) : MemEngine := {|
  cfg := c; killSwitch := NewKillSwitch; rateLimiter := {| rbuckets := ∅ |};
  loopDetector := {| attempts := ∅ |}; circuitBreaker := NewInMemoryCircuitBreaker
|}.

(** ** Agent registry (registry.go) *)

Record agentEntry := { role : string; connectedAt : Time; lastActionAt : Time; actionCount : Z }.

Record AgentRegistry := { agents : gmap string agentEntry; validRoles : gset string }.

Definition NewAgentRegistry (c : GovernanceConfig) : AgentRegistry := {|
  agents := ∅;
  validRoles := list_to_set (filter (λ r, r ≠ "") ((λ p, Role p.2) <$> map_to_list (Agents c)))
|}.

(** [false]: the role is not one of the configuration. *)
Definition Register (now : Time) (agentID r : string) (reg : AgentRegistry) : bool * AgentRegistry :=
  if decide (r ∈ validRoles reg) then
    (true, {| agents := <[agentID := {| role := r; connectedAt := now; lastActionAt := 0; actionCount := 0 |}]>
                          (agents reg);
              validRoles := validRoles reg |})
  else (false, reg).

Definition GetRole (agentID : string) (reg : AgentRegistry) : option string := role <$> agents reg !! agentID.

Definition RegistryRecordAction (now : Time) (agentID : string) (reg : AgentRegistry) : AgentRegistry := {|
  agents := alter (λ a, {| role := role a; connectedAt := connectedAt a; lastActionAt := now;
                           actionCount := int64_wrap (actionCount a + 1) |}) agentID (agents reg);
  validRoles := validRoles reg
|}.

(** A zero entry when the agent is not registered. *)
Definition GetStats (agentID : string) (reg : AgentRegistry) : agentEntry :=
  default {| role := ""; connectedAt := 0; lastActionAt := 0; actionCount := 0 |} (agents reg !! agentID).

(** ** Histories *)

Definition categoryOf (opts : option string) : string :=
  match opts with
  | Some c => if decide (c = "") then CategoryAction else c
  | None => CategoryAction
  end.

Inductive EngineOp :=
  | ECheck (now : Time) (agentID toolName : string) (args : list (string * any)) (opts : option string)
  | EResult (agentID : string) (success : bool)
  | EFreeze (now : Time) (agentID reason by_ : string)
  | EUnfreeze (agentID : string).

Section histories.
Context {R L C : Type} `{RateLimiter R} `{LoopDetector L} `{CircuitBreakerTracker C}.

Definition engineStep (e : Engine R L C) (op : EngineOp) : Engine R L C :=
  match op with
  | ECheck now a tool args opts => (EngineCheck now a tool args opts e).2
  | EResult a ok => RecordResult a ok e
  | EFreeze now a r by_ => setKillSwitch (Freeze now a r by_ (killSwitch e)) e
  | EUnfreeze a => setKillSwitch (Unfreeze a (killSwitch e)) e
  end.

(** Times at which a history allows a call of the agent in the category. *)
Fixpoint allowedTimes (a c : string) (e : Engine R L C) (ops : list EngineOp) : list Time :=
  match ops with
  | [] => []
  | op :: ops' =>
      (match op with
       | ECheck now a' tool args opts =>
           if decide (a' = a ∧ categoryOf opts = c ∧
                      dVerdict (EngineCheck now a' tool args opts e).1 = Allow)
           then [now] else []
       | _ => []
       end) ++ allowedTimes a c (engineStep e op) ops'
  end.

End histories.

(** The clock readings of the checks of a history do not run backwards. *)
Fixpoint clock_ok (t0 : Time) (ops : list EngineOp) : Prop :=
  match ops with
  | [] => True
  | ECheck now _ _ _ _ :: ops' => t0 <= now ∧ clock_ok now ops'
  | _ :: ops' => clock_ok t0 ops'
  end.

(** The rate buckets a history can touch. *)
Definition opKeys (ops : list EngineOp) : gset string :=
  list_to_set (omap (λ op, match op with
                           | ECheck _ a _ _ opts => Some (rateBucketKey a (categoryOf opts))
                           | _ => None
                           end) ops).

Definition windowCount (lo hi : Time) (ts : list Time) : Z :=
  Z.of_nat (length (filter (λ t, lo < t <= hi) ts)).

(** Failure streak and frozen flag of one agent, as the policy describes them. *)
Definition streakStep (threshold : Z) (s : Z * bool) (success : bool) : Z * bool :=
  if success then (0, s.2)
  else (s.1 + 1, s.2 || (bool_decide (0 < threshold) && bool_decide (threshold <= s.1 + 1))).

Definition resultsOf (a : string) (ops : list EngineOp) : list bool :=
  omap (λ op, match op with EResult a' ok => if decide (a' = a) then Some ok else None | _ => None end) ops.

(** ** Lemmas: interfaces *)

Section interface_lemmas.
Context {R L C : Type} `{RateLimiter R} `{LoopDetector L} `{CircuitBreakerTracker C}.
Implicit Types e : Engine R L C.

Lemma EngineCheck_unfold now a tool args opts e :
  IsFrozen a (killSwitch e) = None → is_Some (Agents (cfg e) !! a) →
  checkSegmentation (cfg e) a tool = None →
  EngineCheck now a tool args opts e =
    let '(d, e') := checkBehavior now a tool (categoryOf opts) args e in (default allowed d, e').
Proof. intros Hf [p Hp] Hs. unfold EngineCheck. by rewrite Hf, Hp, Hs. Qed.

Lemma checkSegmentation_None c a tool :
  checkSegmentation c a tool = None ↔
  (∃ seg, Segments c !! a = Some seg ∧ (tool ∉ DeniedActions seg) ∧ tool ∈ AllowedActions seg).
Proof. unfold checkSegmentation. destruct (Segments c !! a); repeat case_decide; split; intros; destruct_and?; eauto;
  by destruct_or?; naive_solver. Qed.

Lemma checkBehavior_denies now a tool cat args e d :
  (checkBehavior now a tool cat args e).1 = Some d → dVerdict d = Deny ∧ dDomain d = "behavior".
Proof.
  unfold checkBehavior. go_split; intros; by simplify_eq/=.
Qed.

(** The three ways past the policy checks. *)
Lemma EngineCheck_cases now a tool args opts e :
  let '(d, e') := EngineCheck now a tool args opts e in
  (dVerdict d = Deny ∧ dDomain d ≠ "behavior" ∧ e' = e) ∨
  (IsFrozen a (killSwitch e) = None ∧ is_Some (Agents (cfg e) !! a) ∧
   checkSegmentation (cfg e) a tool = None ∧
   (d, e') = let '(d, e') := checkBehavior now a tool (categoryOf opts) args e in (default allowed d, e')).
Proof.
  destruct (IsFrozen a (killSwitch e)) eqn:Hf; [unfold EngineCheck; rewrite Hf; simpl; by left|].
  destruct (Agents (cfg e) !! a) eqn:Ha; [|unfold EngineCheck; rewrite Hf, Ha; simpl; by left].
  destruct (checkSegmentation (cfg e) a tool) as [d|] eqn:Hs.
  - unfold EngineCheck. rewrite Hf, Ha, Hs. left. unfold checkSegmentation in Hs.
    go_split; done.
  - rewrite EngineCheck_unfold by (rewrite ?Ha; eauto).
    destruct (checkBehavior _ _ _ _ _ _) as [d e']. right. by eauto.
Qed.

Lemma checkBehavior_frozen now a tool cat args e :
  cbIsFrozen a (circuitBreaker e) = true →
  checkBehavior now a tool cat args e = (Some (deny (RBreakerFrozen a) "behavior"), e).
Proof. intros Hf. unfold checkBehavior. by rewrite Hf. Qed.

Lemma checkBehavior_keeps now a tool cat args e :
  let e' := (checkBehavior now a tool cat args e).2 in
  cfg e' = cfg e ∧ killSwitch e' = killSwitch e ∧ circuitBreaker e' = circuitBreaker e.
Proof. simpl. unfold checkBehavior. by go_split. Qed.

Lemma EngineCheck_keeps now a tool args opts e :
  let e' := (EngineCheck now a tool args opts e).2 in
  cfg e' = cfg e ∧ killSwitch e' = killSwitch e ∧ circuitBreaker e' = circuitBreaker e.
Proof.
  simpl. pose proof (EngineCheck_cases now a tool args opts e) as Hc.
  destruct (EngineCheck now a tool args opts e) as [d e'].
  destruct Hc as [(_ & _ & ->)|(_ & _ & _ & Heq)]; [done|].
  pose proof (checkBehavior_keeps now a tool (categoryOf opts) args e) as Hk.
  destruct (checkBehavior _ _ _ _ _ _). by simplify_eq/=.
Qed.

Lemma engineStep_cfg e op : cfg (engineStep e op) = cfg e.
Proof.
  destruct op as [now a tool args opts|a ok|now a r b|a]; simpl; try done.
  - by destruct (EngineCheck_keeps now a tool args opts e).
  - unfold RecordResult. by repeat case_match.
Qed.

Lemma RecordResult_keeps a ok e :
  cfg (RecordResult a ok e) = cfg e ∧ killSwitch (RecordResult a ok e) = killSwitch e ∧
  rateLimiter (RecordResult a ok e) = rateLimiter e ∧
  loopDetector (RecordResult a ok e) = loopDetector e.
Proof. unfold RecordResult. by repeat case_match. Qed.

End interface_lemmas.

(** ** Lemmas: the in-memory trackers *)

Lemma countAfter_after lo cut ts : cut <= lo → countAfter lo (after cut ts) = countAfter lo ts.
Proof.
  intros. unfold countAfter, after. do 2 f_equal. rewrite list_filter_filter_l; [done|]. lia.
Qed.

Lemma countAfter_mono lo lo' ts : lo <= lo' → countAfter lo' ts <= countAfter lo ts.
Proof.
  intros Hle. unfold countAfter, after. induction ts as [|t ts IH]; [done|].
  rewrite !filter_cons. repeat case_decide; simpl; lia.
Qed.

Lemma countAfter_app lo ts ts' : countAfter lo (ts ++ ts') = countAfter lo ts + countAfter lo ts'.
Proof. unfold countAfter, after. rewrite filter_app, length_app. lia. Qed.

Lemma countAfter_nonneg lo ts : 0 <= countAfter lo ts.
Proof. unfold countAfter. lia. Qed.

Lemma windowCount_app lo hi ts ts' :
  windowCount lo hi (ts ++ ts') = windowCount lo hi ts + windowCount lo hi ts'.
Proof. unfold windowCount. rewrite filter_app, length_app. lia. Qed.

Lemma windowCount_single lo hi t : windowCount lo hi [t] = if decide (lo < t <= hi) then 1 else 0.
Proof. unfold windowCount. rewrite filter_cons. by case_decide. Qed.

Lemma windowCount_le lo hi ts : windowCount lo hi ts <= countAfter lo ts.
Proof.
  unfold windowCount, countAfter, after. induction ts as [|t ts IH]; [done|].
  rewrite !filter_cons. repeat case_decide; simpl; lia.
Qed.

(** The bucket of an agent and category. *)
Definition bucketOf (a c : string) (bs : Buckets) : list Time := go_get [] bs (rateBucketKey a c).

Lemma bucketOf_insert a c k x bs :
  bucketOf a c (<[k := x]> bs) = if decide (k = rateBucketKey a c) then x else bucketOf a c bs.
Proof. apply go_get_insert. Qed.

Lemma RateCheck_buckets a' c' lim now bs a c lo :
  now - 24 * Hour <= lo →
  countAfter lo (bucketOf a c (RateCheck a' c' lim now bs).2) = countAfter lo (bucketOf a c bs).
Proof.
  intros Hlo. assert ((RateCheck a' c' lim now bs).2 =
    <[rateBucketKey a' c' := after (now - 24 * Hour) (go_get [] bs (rateBucketKey a' c'))]> bs) as ->.
  { unfold RateCheck. by repeat case_match. }
  rewrite bucketOf_insert. case_decide as Hk; [|done]. rewrite Hk. by apply countAfter_after.
Qed.

Lemma RateCheck_dom a c lim now bs :
  dom (RateCheck a c lim now bs).2 = {[rateBucketKey a c]} ∪ dom bs.
Proof. unfold RateCheck. repeat case_match; simpl; apply dom_insert_L. Qed.

(** A passed check leaves room in the hour and in the day. *)
Lemma RateCheck_pass a c lim now bs :
  (RateCheck a c lim now bs).1 = None →
  (0 < hourLimitOf c lim → countAfter (now - Hour) (bucketOf a c bs) < hourLimitOf c lim) ∧
  (0 < PerDay lim →
   countAfter (now - 24 * Hour) (bucketOf a CategoryObserve bs) +
   countAfter (now - 24 * Hour) (bucketOf a CategoryAction bs) < PerDay lim).
Proof.
  intros Hp. split.
  - intros Hl. unfold RateCheck in Hp. rewrite countAfter_after in Hp by (unfold Hour, Minute, Second; lia).
    case_decide as Hd; [done|]. fold (bucketOf a c bs) in Hd. lia.
  - intros Hl. pose proof (RateCheck_buckets a c lim now bs a CategoryObserve (now - 24 * Hour) ltac:(lia)) as Ho.
    pose proof (RateCheck_buckets a c lim now bs a CategoryAction (now - 24 * Hour) ltac:(lia)) as Ha.
    unfold RateCheck in Hp, Ho, Ha. repeat (case_match; simplify_eq/=);
      rewrite ?bool_decide_eq_true, ?bool_decide_eq_false in *; unfold bucketOf in *; lia.
Qed.

Section memory.
Context `{BucketRange} (K : gset string).
Hypothesis HK : Z.of_nat (size K) <= maxRateBuckets.

Lemma RecordAction_buckets a' c' t bs :
  dom bs ⊆ K → rateBucketKey a' c' ∈ K →
  RecordAction a' c' t bs = <[rateBucketKey a' c' := bucketOf a' c' bs ++ [t]]> bs.
Proof.
  intros Hd Hk. unfold RecordAction. fold (bucketOf a' c' bs).
  rewrite bool_decide_eq_false_2; [done|].
  assert (size (<[rateBucketKey a' c' := bucketOf a' c' bs ++ [t]]> bs) ≤ size K)%nat; [|lia].
  rewrite <-size_dom. apply subseteq_size. rewrite dom_insert_L. set_solver.
Qed.

Lemma RecordAction_count a' c' t bs a c lo :
  dom bs ⊆ K → rateBucketKey a' c' ∈ K →
  countAfter lo (bucketOf a c bs) <= countAfter lo (bucketOf a c (RecordAction a' c' t bs)) ∧
  (a' = a → c' = c →
   countAfter lo (bucketOf a c (RecordAction a' c' t bs)) =
   countAfter lo (bucketOf a c bs) + countAfter lo [t]).
Proof.
  intros Hd Hk. rewrite RecordAction_buckets by done.
  pose proof (countAfter_nonneg lo [t]).
  rewrite bucketOf_insert. split.
  - case_decide as E; [|done]. unfold bucketOf. rewrite <-E, countAfter_app. lia.
  - intros -> ->. rewrite decide_True by done. apply countAfter_app.
Qed.

Abbreviation rbs e := (rbuckets (rateLimiter e)).

(** What a check does to the rate buckets, on every path. *)
Lemma EngineCheck_buckets now a tool args opts (e : MemEngine) :
  let '(d, e') := EngineCheck now a tool args opts e in
  let '(r, bs1) := match RateLimits (Behavior (cfg e)) !! a with
                   | Some lim => RateCheck a (categoryOf opts) lim now (rbs e)
                   | None => (None, rbs e)
                   end in
  (dVerdict d = Deny ∧ (rbs e' = rbs e ∨ rbs e' = bs1)) ∨
  (dVerdict d = Allow ∧ r = None ∧ rbs e' = RecordAction a (categoryOf opts) now bs1).
Proof.
  pose proof (EngineCheck_cases now a tool args opts e) as Hc.
  destruct (EngineCheck _ _ _ _ _ _) as [d e'].
  destruct Hc as [(Hd & _ & ->)|(_ & _ & _ & Heq)]; [by repeat case_match; auto|].
  unfold checkBehavior in Heq. simpl in Heq.
  destruct (CBIsFrozen _ _); simplify_eq/=; [by repeat case_match; auto|].
  destruct (RateLimits _ !! a) as [lim|]; simpl in *;
    [destruct (RateCheck _ _ _ _ _) as [[r|] bs1] eqn:Er; simplify_eq/=; [by auto|]|].
  all: go_split; auto.
Qed.

(** The buckets know of every allowed call of the last day. *)
Definition covers (a c : string) (t0 : Time) (past : list Time) (e : MemEngine) : Prop :=
  dom (rbs e) ⊆ K ∧
  ∀ lo, t0 - 24 * Hour <= lo → countAfter lo past <= countAfter lo (bucketOf a c (rbs e)).

Lemma covers_check a c t0 past now a' tool args opts (e : MemEngine) :
  covers a c t0 past e → t0 <= now → rateBucketKey a' (categoryOf opts) ∈ K →
  let '(d, e') := EngineCheck now a' tool args opts e in
  covers a c now (past ++ if decide (a' = a ∧ categoryOf opts = c ∧ dVerdict d = Allow)
                          then [now] else []) e'.
Proof.
  intros [Hd Hc] Hn Hk. pose proof (EngineCheck_buckets now a' tool args opts e) as Hb.
  destruct (EngineCheck now a' tool args opts e) as [d e'].
  assert (∃ r bs1, (match RateLimits (Behavior (cfg e)) !! a' with
     | Some lim => RateCheck a' (categoryOf opts) lim now (rbs e)
     | None => (None, rbs e) end) = (r, bs1) ∧ dom bs1 ⊆ K ∧
     ∀ lo, now - 24 * Hour <= lo → countAfter lo (bucketOf a c bs1) = countAfter lo (bucketOf a c (rbs e)))
    as (r & bs1 & E & Hd1 & Hc1).
  { destruct (RateLimits _ !! a') as [lim|]; [|by eauto].
    eexists _, _. split; [apply surjective_pairing|]. split.
    - rewrite RateCheck_dom. set_solver.
    - intros lo Hlo. by apply RateCheck_buckets. }
  rewrite E in Hb. destruct Hb as [(Hv & Hr)|(Hv & -> & Hr)].
  - rewrite decide_False by (rewrite Hv; naive_solver). rewrite app_nil_r.
    split; [destruct Hr as [-> | ->]; done|]. intros lo Hlo. specialize (Hc lo ltac:(lia)).
    destruct Hr as [-> | ->]; [done|]. by rewrite Hc1.
  - split.
    + rewrite Hr, RecordAction_buckets by done. rewrite dom_insert_L. set_solver.
    + intros lo Hlo. specialize (Hc lo ltac:(lia)). rewrite <-Hc1 in Hc by lia. rewrite Hr.
      destruct (RecordAction_count a' (categoryOf opts) now bs1 a c lo Hd1 Hk) as [Hge Heq].
      rewrite countAfter_app. case_decide as Hdec; [|unfold countAfter, after in *; simpl; lia].
      destruct Hdec as (Ha & Hcat & _). rewrite (Heq Ha Hcat). lia.
Qed.

(** An allowed call still fits into every hour that contains it. *)
Lemma window_check a lim c t0 past now tool args opts lo (e : MemEngine) :
  RateLimits (Behavior (cfg e)) !! a = Some lim → 0 < hourLimitOf c lim →
  covers a c t0 past e → t0 <= now → categoryOf opts = c →
  dVerdict (EngineCheck now a tool args opts e).1 = Allow → lo < now <= lo + Hour →
  windowCount lo (lo + Hour) past + 1 <= hourLimitOf c lim.
Proof.
  intros Hlim Hpos [_ Hc] Hn Hcat Hv Hlo.
  pose proof (EngineCheck_buckets now a tool args opts e) as Hb.
  destruct (EngineCheck now a tool args opts e) as [d e']. simpl in Hv. rewrite Hlim, Hcat in Hb.
  destruct (RateCheck a c lim now (rbs e)) as [r bs1] eqn:E.
  destruct Hb as [(Hv' & _)|(_ & -> & _)]; [congruence|].
  destruct (RateCheck_pass a c lim now (rbs e)) as [Hh _]; [by rewrite E|].
  specialize (Hh Hpos). assert (0 < Hour) by done.
  pose proof (windowCount_le lo (lo + Hour) past).
  pose proof (Hc lo ltac:(lia)).
  pose proof (countAfter_mono (now - Hour) lo (bucketOf a c (rbs e)) ltac:(lia)). lia.
Qed.

Lemma allowedTimes_window a lim c t0 past ops lo (e : MemEngine) :
  RateLimits (Behavior (cfg e)) !! a = Some lim → 0 < hourLimitOf c lim →
  covers a c t0 past e → clock_ok t0 ops → opKeys ops ⊆ K →
  windowCount lo (lo + Hour) past <= hourLimitOf c lim →
  windowCount lo (lo + Hour) (past ++ allowedTimes a c e ops) <= hourLimitOf c lim.
Proof.
  revert t0 past e. induction ops as [|op ops IH]; intros t0 past e Hlim Hpos Hcov Hclk Hks Hw.
  { simpl. by rewrite app_nil_r. }
  assert (opKeys ops ⊆ K) as Hks'.
  { unfold opKeys in *. destruct op; simpl in Hks; set_solver. }
  destruct op as [now a' tool args opts|a' ok|now a' r b|a']; simpl in Hclk |- *;
    [|destruct (RecordResult_keeps a' ok e) as (Hcfg & _ & Hrl & _);
      apply (IH t0); rewrite ?Hcfg; auto; unfold covers; by rewrite Hrl|apply (IH t0); auto ..].
    destruct Hclk as [Hn Hclk]. rewrite app_assoc.
    assert (rateBucketKey a' (categoryOf opts) ∈ K) as Hk by (unfold opKeys in Hks; simpl in Hks; set_solver).
    pose proof (covers_check a c t0 past now a' tool args opts e Hcov Hn Hk) as Hcov'.
    pose proof (window_check a lim c t0 past now tool args opts lo e Hlim Hpos Hcov Hn) as Hfit.
    destruct (EngineCheck_keeps now a' tool args opts e) as [Hcfg _].
    assert (∀ x, windowCount lo (lo + Hour) (past ++ x) = windowCount lo (lo + Hour) past + windowCount lo (lo + Hour) x)
      as Happ by (intros; apply windowCount_app).
    destruct (EngineCheck now a' tool args opts e) as [d e'] eqn:E. simpl in *.
    apply (IH now); rewrite ?Hcfg; auto.
    case_decide as Hd; rewrite ?app_nil_r; auto. destruct Hd as (-> & Hcat & Hv).
    rewrite Happ, windowCount_single. case_decide; [|lia].
    rewrite E in Hfit. by apply Hfit.
Qed.

End memory.

(** ** Lemmas: circuit breaker and kill switch *)

Lemma RecordResult_streak a a' ok (thr : Z) (e : MemEngine) `{BucketRange} :
  ConsecutiveFailures (CircuitBreaker (Behavior (cfg e))) = thr →
  let obs e := (CBConsecutiveFailures a (circuitBreaker e), CBIsFrozen a (circuitBreaker e)) in
  obs (RecordResult a' ok e) = if decide (a' = a) then streakStep thr (obs e) ok else obs e.
Proof.
  intros Hthr. unfold RecordResult, streakStep, CBConsecutiveFailures, CBIsFrozen. simpl.
  destruct ok; simpl; [rewrite go_get_insert; by case_decide|]. rewrite Hthr.
  destruct (decide (a' = a)) as [->|Hne].
  - destruct (decide (0 < thr ∧ thr <= go_get 0 (failures (circuitBreaker e)) a + 1)) as [[H1 H2]|Hno];
      simpl; rewrite ?go_get_insert, ?decide_True by done; f_equal.
    + rewrite !bool_decide_eq_true_2 by done. by rewrite orb_true_r.
    + destruct (decide (0 < thr)); [|rewrite (bool_decide_eq_false_2 (0 < thr)) by done; by rewrite orb_false_r].
      rewrite (bool_decide_eq_false_2 (thr <= _)) by tauto. by rewrite andb_false_r, orb_false_r.
  - case_decide; simpl; by rewrite !go_get_insert, !decide_False by done.
Qed.

Lemma engineStep_breaker (e : MemEngine) op `{BucketRange} :
  match op with EResult _ _ => True | _ => circuitBreaker (engineStep e op) = circuitBreaker e end.
Proof.
  destruct op as [now a tool args opts| | |]; try done.
  apply (EngineCheck_keeps now a tool args opts e).
Qed.

Lemma engine_streak a (e : MemEngine) ops `{BucketRange} :
  let obs e := (CBConsecutiveFailures a (circuitBreaker e), CBIsFrozen a (circuitBreaker e)) in
  obs (exec engineStep e ops) =
  foldl (streakStep (ConsecutiveFailures (CircuitBreaker (Behavior (cfg e))))) (obs e) (resultsOf a ops).
Proof.
  revert e. induction ops as [|op ops IH]; intros e; [done|]. cbv beta zeta in *.
  change (exec engineStep e (op :: ops)) with (exec engineStep (engineStep e op) ops).
  rewrite IH, engineStep_cfg. unfold resultsOf. simpl.
  pose proof (engineStep_breaker e op) as Hb.
  destruct op as [| a' ok| |]; try by rewrite Hb.
  change (engineStep e (EResult a' ok)) with (RecordResult a' ok e).
  pose proof (RecordResult_streak a a' ok _ e eq_refl) as Hs. cbv beta zeta in Hs. rewrite Hs.
  by case_decide.
Qed.

Lemma streak_frozen thr n rs : (foldl (streakStep thr) (n, true) rs).2 = true.
Proof. revert n. induction rs as [|[] rs IH]; intros n; [done|apply IH..]. Qed.

Lemma IsFrozen_step a op {R L C} `{RateLimiter R} `{LoopDetector L} `{CircuitBreakerTracker C}
    (e : Engine R L C) :
  is_Some (IsFrozen a (killSwitch e)) → op ≠ EUnfreeze a →
  is_Some (IsFrozen a (killSwitch (engineStep e op))).
Proof.
  intros Hf Hne. destruct op as [now a' tool args opts|a' ok|now a' r b|a']; simpl.
  - by destruct (EngineCheck_keeps now a' tool args opts e) as (_ & -> & _).
  - by destruct (RecordResult_keeps a' ok e) as (_ & -> & _).
  - unfold IsFrozen, Freeze in *. rewrite lookup_insert. case_decide; simpl; eauto.
  - unfold IsFrozen, Unfreeze in *. destruct (killSwitch e !! a'); [|done].
    rewrite lookup_delete_ne; [done|congruence].
Qed.

(** ** Properties *)

(** C4. Deny by default, for every implementation of the trackers: a call is
    allowed only for a known agent that neither the kill switch nor the circuit
    breaker has frozen, on a tool its segment lists and does not deny; a call
    the policy itself refuses leaves the engine as it was. *)
Theorem engine_allow_sound {R L C} `{RateLimiter R} `{LoopDetector L} `{CircuitBreakerTracker C}
    now a tool args opts (e : Engine R L C) :
  let '(d, e') := EngineCheck now a tool args opts e in
  (dVerdict d = Allow →
     IsFrozen a (killSwitch e) = None ∧ is_Some (Agents (cfg e) !! a) ∧
     cbIsFrozen a (circuitBreaker e) = false ∧
     ∃ seg, Segments (cfg e) !! a = Some seg ∧ (tool ∉ DeniedActions seg) ∧ tool ∈ AllowedActions seg) ∧
  (dVerdict d = Deny → dDomain d ≠ "behavior" → e' = e).
Proof.
  pose proof (EngineCheck_cases now a tool args opts e) as Hc.
  destruct (EngineCheck now a tool args opts e) as [d e'].
  destruct Hc as [(Hd & _ & ->)|(Hf & Ha & Hs & Heq)]; [split; [congruence|done]|].
  apply checkSegmentation_None in Hs. split.
  - intros Hv. split_and!; try done. apply not_true_is_false. intros Hb.
    rewrite checkBehavior_frozen in Heq by done. by simplify_eq/=.
  - intros Hv Hdom. pose proof (checkBehavior_denies now a tool (categoryOf opts) args e) as Hden.
    destruct (checkBehavior _ _ _ _ _ _) as [[d'|] e1]; simplify_eq/=.
    by destruct (Hden d' eq_refl).
Qed.

(** However the calls of all agents interleave, an agent under an hourly limit
    is never allowed more calls of a category in any hour than that limit, as
    long as the history stays within the tracker's bucket cap. *)
Theorem engine_hourly_limit `{BucketRange} c a cat lim ops lo :
  RateLimits (Behavior c) !! a = Some lim → 0 < hourLimitOf cat lim →
  clock_ok 0 ops → Z.of_nat (size (opKeys ops)) <= maxRateBuckets →
  windowCount lo (lo + Hour) (allowedTimes a cat (NewEngineFromConfig c) ops) <= hourLimitOf cat lim.
Proof.
  intros Hlim Hpos Hclk Hk.
  apply (allowedTimes_window (opKeys ops) Hk a lim cat 0 [] ops lo (NewEngineFromConfig c)); auto.
  - split; simpl; [set_solver|]. intros lo' _. apply countAfter_nonneg.
  - unfold windowCount. simpl. lia.
Qed.

(** The circuit breaker follows the policy for every agent and interleaving:
    the counter is the current streak of failures, and the agent is frozen
    exactly when some streak has reached the threshold. *)
Theorem engine_breaker_tracks_streak `{BucketRange} c a ops :
  let e := exec engineStep (NewEngineFromConfig c) ops in
  (CBConsecutiveFailures a (circuitBreaker e), CBIsFrozen a (circuitBreaker e)) =
  foldl (streakStep (ConsecutiveFailures (CircuitBreaker (Behavior c)))) (0, false) (resultsOf a ops).
Proof. apply (engine_streak a (NewEngineFromConfig c) ops). Qed.

(** Freezing by the circuit breaker is permanent: no later history, whatever
    the configured auto-unfreeze flag, lets the agent's calls through. *)
Theorem engine_breaker_freeze_permanent `{BucketRange} (e : MemEngine) a ops now tool args opts :
  CBIsFrozen a (circuitBreaker e) = true →
  dVerdict (EngineCheck now a tool args opts (exec engineStep e ops)).1 = Deny.
Proof.
  intros Hf. pose proof (engine_streak a e ops) as Hs. cbv beta zeta in Hs. rewrite Hf in Hs.
  assert (CBIsFrozen a (circuitBreaker (exec engineStep e ops)) = true) as Hf'.
  { change (CBIsFrozen _ _) with ((CBConsecutiveFailures a (circuitBreaker (exec engineStep e ops)),
      CBIsFrozen a (circuitBreaker (exec engineStep e ops))).2). rewrite Hs. apply streak_frozen. }
  pose proof (EngineCheck_cases now a tool args opts (exec engineStep e ops)) as Hc.
  destruct (EngineCheck _ _ _ _ _ _) as [d e'].
  destruct Hc as [(Hd & _)|(_ & _ & _ & Heq)]; [done|].
  rewrite checkBehavior_frozen in Heq by done. by simplify_eq/=.
Qed.

(** A frozen agent stays frozen until it is unfrozen: every check in between is
    denied by the kill switch and leaves the engine untouched. *)
Theorem kill_switch_blocks {R L C} `{RateLimiter R} `{LoopDetector L} `{CircuitBreakerTracker C}
    (e : Engine R L C) now0 a r by_ ops now tool args opts :
  EUnfreeze a ∉ ops →
  let e' := exec engineStep (engineStep e (EFreeze now0 a r by_)) ops in
  ∃ r', EngineCheck now a tool args opts e' = (deny (RAgentFrozen r') "killswitch", e').
Proof.
  intros Hno. cbv zeta.
  assert (is_Some (IsFrozen a (killSwitch (exec engineStep (engineStep e (EFreeze now0 a r by_)) ops)))) as [r' Hr].
  { apply exec_invariant.
    - simpl. unfold IsFrozen, Freeze. rewrite lookup_insert_eq. by eauto.
    - intros s o Hs Ho. apply IsFrozen_step; [done|]. intros ->. done. }
  exists r'. unfold EngineCheck. by rewrite Hr.
Qed.

(** Validation accepts exactly the configurations with a version, at least one
    agent, a role for every agent and segments only for known agents, in
    whatever order the maps are visited. *)
Theorem validateConfig_sound rngA rngS `{!GoRange rngA} `{!GoRange rngS} c :
  validateConfig rngA rngS c = None ↔
  Version c ≠ "" ∧ Agents c ≠ ∅ ∧ (∀ a p, Agents c !! a = Some p → Role p ≠ "") ∧
  dom (Segments c) ⊆ dom (Agents c).
Proof.
  unfold validateConfig. case_decide; [naive_solver|].
  destruct (decide (size (Agents c) = 0%nat)) as [Hz|Hz].
  { rewrite map_size_empty_iff in Hz. naive_solver. }
  rewrite map_size_empty_iff in Hz.
  destruct (list_find _ (rngA _)) as [[i [n p]]|] eqn:E1.
  { apply list_find_Some in E1 as (Hl & Hr & _). apply list_elem_of_lookup_2 in Hl.
    apply (elem_of_range rngA) in Hl. naive_solver. }
  apply list_find_None in E1. rewrite Forall_forall in E1.
  assert (∀ a p, Agents c !! a = Some p → Role p ≠ "") as Hroles.
  { intros a p Hp. apply (E1 (a, p)). by apply (elem_of_range rngA). }
  destruct (list_find _ (rngS _)) as [[i [n sg]]|] eqn:E2.
  - apply list_find_Some in E2 as (Hl & Hr & _). apply list_elem_of_lookup_2 in Hl.
    apply (elem_of_range rngS) in Hl. split; [done|]. intros (_ & _ & _ & Hd). simpl in Hr.
    apply not_elem_of_dom in Hr. apply elem_of_dom_2 in Hl. set_solver.
  - apply list_find_None in E2. rewrite Forall_forall in E2. split; [|done]. intros _.
    split_and!; [done|done|done|]. intros n [sg Hn]%elem_of_dom.
    destruct (Agents c !! n) eqn:Ha; [by eapply elem_of_dom_2|].
    by destruct (E2 (n, sg)); [apply (elem_of_range rngS)|].
Qed.

(** ** Witnesses *)

#[local] Instance sample_range : BucketRange := map_to_list.

Definition sample_config : GovernanceConfig := {|
  Version := "1"; Framework := "atf";
  Agents := {["bot" := {| Role := "ops"; Description := ""; Clearance := ""; Auth := "" |}]};
  Behavior := {|
    RateLimits := {["bot" := {| PerHour := 2; PerDay := 0; ObservePerHour := 0; ActionPerHour := 0 |}]};
    LoopDetection := {| MaxAttemptsPerTarget := 3; Window := "1h"; OnTrigger := "deny" |};
    CircuitBreaker := {| ConsecutiveFailures := 2; CBAction := "freeze"; Notify := ""; AutoUnfreeze := true |}
  |};
  Segments := {["bot" := {| AllowedActions := ["http"]; DeniedActions := ["shell"];
                            ProtectedTargets := []; ProtectedGate := ""; Scope := "" |}]}
|}.

Definition sample_engine : MemEngine := NewEngineFromConfig sample_config.

Definition call_at (t : Time) : EngineOp := ECheck t "bot" "http" [("target", AStr "svc")] None.

Lemma engine_allow_sound_witness :
  dVerdict (EngineCheck 1 "bot" "http" [] None sample_engine).1 = Allow ∧
  is_Some (Agents sample_config !! "bot").
Proof.
  split; [vm_compute; reflexivity|].
  pose proof (engine_allow_sound 1 "bot" "http" [] None sample_engine) as H.
  destruct (EngineCheck 1 "bot" "http" [] None sample_engine) as [d e'] eqn:E.
  apply H. apply (f_equal (λ x, dVerdict x.1)) in E. vm_compute in E. symmetry. exact E.
Defined.

Lemma engine_hourly_limit_witness :
  windowCount 0 (0 + Hour) (allowedTimes "bot" "action" (NewEngineFromConfig sample_config)
    [call_at 1; call_at 2; call_at 3]) <= 2 ∧
  allowedTimes "bot" "action" (NewEngineFromConfig sample_config) [call_at 1; call_at 2; call_at 3] = [1; 2].
Proof.
  split; [|vm_compute; reflexivity].
  apply (engine_hourly_limit sample_config "bot" "action"
    {| PerHour := 2; PerDay := 0; ObservePerHour := 0; ActionPerHour := 0 |}
    [call_at 1; call_at 2; call_at 3] 0); vm_compute; intuition congruence.
Defined.

Lemma engine_breaker_freeze_permanent_witness :
  dVerdict (EngineCheck 9 "bot" "http" [] None
    (exec engineStep (exec engineStep sample_engine [EResult "bot" false; EResult "bot" false])
       [EResult "bot" true; EUnfreeze "bot"])).1 = Deny.
Proof.
  apply (engine_breaker_freeze_permanent
    (exec engineStep sample_engine [EResult "bot" false; EResult "bot" false]) "bot").
  vm_compute. reflexivity.
Defined.

Lemma kill_switch_blocks_witness :
  ∃ r', (EngineCheck 9 "bot" "http" [] None
    (exec engineStep (engineStep sample_engine (EFreeze 1 "bot" "incident" "ops"))
       [call_at 2; EUnfreeze "other"])).1 = deny (RAgentFrozen r') "killswitch".
Proof.
  destruct (kill_switch_blocks sample_engine 1 "bot" "incident" "ops"
    [call_at 2; EUnfreeze "other"] 9 "http" [] None) as [r' H].
  - intros Hin. apply list_elem_of_In in Hin. simpl in Hin. intuition discriminate.
  - exists r'. cbv zeta in H. rewrite H. reflexivity.
Defined.

Lemma validateConfig_sound_witness :
  validateConfig map_to_list (λ m, rev (map_to_list m)) sample_config = None.
Proof.
  apply (validateConfig_sound map_to_list (λ m, rev (map_to_list m))).
  split_and!; [discriminate|discriminate| |vm_compute; set_solver].
  intros a p Hp. unfold sample_config in Hp. simpl in Hp.
  apply lookup_singleton_Some in Hp as [_ <-]. discriminate.
Defined.
