(* ===== verification/Jobs.v ===== *)
(** * Jobs: the background job queue and its worker

    Models internal/jobs: the [Queue] interface, [MemoryQueue] (queue.go),
    [PostgresQueue] (postgres_queue.go) and the polling [Worker] (worker.go).
    A job identifier is drawn by id.New and is an argument of [Enqueue]; so is
    the outcome of marshalling the payload. *)

From S2P Require Import Prelude.

Inductive JobStatus := StatusPending | StatusRunning | StatusCompleted | StatusFailed.

#[global] Instance JobStatus_eq_dec : EqDecision JobStatus.
Proof. solve_decision. Defined.

Record Job := {
  ID : string;
  Type_ : string;
  Payload : string;
  Status : JobStatus;
  Attempts : Z;
  MaxAttempts : Z;
  NextRunAt : Time;
  CreatedAt : Time;
  LastError : string
}.

Inductive JobError := ErrJobNotFound | ErrMarshal | ErrDatabase.

Record EnqueueOptions := { optMaxAttempts : Z; Delay : Duration }.

Definition defaultEnqueueOptions : EnqueueOptions := {| optMaxAttempts := 3; Delay := 0 |}.

(** The functional options, applied in order. *)
Inductive EnqueueOption := WithMaxAttempts (n : Z) | WithDelay (d : Duration).

Definition applyOption (o : EnqueueOptions) (f : EnqueueOption) : EnqueueOptions :=
  match f with
  | WithMaxAttempts n => {| optMaxAttempts := n; Delay := Delay o |}
  | WithDelay d => {| optMaxAttempts := optMaxAttempts o; Delay := d |}
  end.

(** Exponential backoff: five seconds, tripled per earlier attempt, in int64. *)
Definition backoff (attempt : Z) : Duration :=
  Z.iter (attempt - 1) (λ d, int64_wrap (d * 3)) (5 * Second).

(** ** Updates of one job *)

Definition setStatus (s : JobStatus) (j : Job) : Job := {|
  ID := ID j; Type_ := Type_ j; Payload := Payload j; Status := s; Attempts := Attempts j;
  MaxAttempts := MaxAttempts j; NextRunAt := NextRunAt j; CreatedAt := CreatedAt j;
  LastError := LastError j
|}.

Definition claimed (j : Job) : Job := {|
  ID := ID j; Type_ := Type_ j; Payload := Payload j; Status := StatusRunning;
  Attempts := Attempts j + 1; MaxAttempts := MaxAttempts j; NextRunAt := NextRunAt j;
  CreatedAt := CreatedAt j; LastError := LastError j
|}.

Definition failedWith (now : Time) (errMsg : string) (j : Job) : Job := {|
  ID := ID j; Type_ := Type_ j; Payload := Payload j;
  Status := if bool_decide (Attempts j < MaxAttempts j) then StatusPending else StatusFailed;
  Attempts := Attempts j; MaxAttempts := MaxAttempts j;
  NextRunAt := if bool_decide (Attempts j < MaxAttempts j)
               then now + backoff (Attempts j) else NextRunAt j;
  CreatedAt := CreatedAt j; LastError := errMsg
|}.

Definition eligible (now : Time) (j : Job) : Prop := Status j = StatusPending ∧ NextRunAt j <= now.

#[global] Instance eligible_dec now j : Decision (eligible now j).
Proof. unfold eligible. apply _. Defined.

Definition finished (j : Job) : Prop := Status j = StatusCompleted ∨ Status j = StatusFailed.

#[global] Instance finished_dec j : Decision (finished j).
Proof. unfold finished. apply _. Defined.

Definition newJob (id type raw : string) (o : EnqueueOptions) (now : Time) : Job := {|
  ID := id; Type_ := type; Payload := raw; Status := StatusPending; Attempts := 0;
  MaxAttempts := optMaxAttempts o; NextRunAt := now + Delay o; CreatedAt := now; LastError := ""
|}.

(** ** The in-memory queue (queue.go) *)

Definition memoryQueueMaxJobs : Z := 10000.

Abbreviation MemoryQueue := (list Job).

(** The first finished job goes; when there is none, the oldest job. *)
Definition evictOne (q : MemoryQueue) : MemoryQueue :=
  match list_find finished q with
  | Some (i, _) => take i q ++ drop (S i) q
  | None => tail q
  end.

(** Every round removes a job, so the length bounds the rounds. *)
Fixpoint evictLoop (fuel : nat) (q : MemoryQueue) : MemoryQueue :=
  match fuel with
  | O => q
  | S fuel' => if bool_decide (memoryQueueMaxJobs <= Z.of_nat (length q))
               then evictLoop fuel' (evictOne q) else q
  end.

Definition evictLocked (q : MemoryQueue) : MemoryQueue := evictLoop (length q) q.

Definition memEnqueue (id type : string) (raw : option string) (opts : list EnqueueOption)
    (now : Time) (q : MemoryQueue) : (string + JobError) * MemoryQueue :=
  let o := foldl applyOption defaultEnqueueOptions opts in
  match raw with
  | None => (inr ErrMarshal, q)
  | Some raw => (inl id, evictLocked q ++ [newJob id type raw o now])
  end.

Definition memDequeue (now : Time) (q : MemoryQueue) : option Job * MemoryQueue :=
  match list_find (eligible now) q with
  | Some (i, j) => (Some (claimed j), <[i := claimed j]> q)
  | None => (None, q)
  end.

(** Update the first job with the identifier. *)
Definition updateByID (id : string) (f : Job → Job) (q : MemoryQueue) : option JobError * MemoryQueue :=
  match list_find (λ j, ID j = id) q with
  | Some (i, j) => (None, <[i := f j]> q)
  | None => (Some ErrJobNotFound, q)
  end.

Definition memComplete (id : string) (q : MemoryQueue) : option JobError * MemoryQueue :=
  updateByID id (setStatus StatusCompleted) q.

Definition memFail (now : Time) (id errMsg : string) (q : MemoryQueue) : option JobError * MemoryQueue :=
  updateByID id (failedWith now errMsg) q.

(** ** The Postgres queue (postgres_queue.go)

    The [jobs] table by primary key; [faults] says which of the coming
    statements fail (they then change nothing). *)
Record PostgresQueue := { jobs : gmap string Job; faults : list bool }.

Definition pgExec {A} (q : PostgresQueue) (stmt : gmap string Job → A * gmap string Job)
    : option A * PostgresQueue :=
  if default false (head (faults q)) then (None, {| jobs := jobs q; faults := tail (faults q) |})
  else let '(a, js) := stmt (jobs q) in (Some a, {| jobs := js; faults := tail (faults q) |}).

(** An insert on an existing key violates the primary key. *)
Definition pgEnqueue (id type : string) (raw : option string) (opts : list EnqueueOption)
    (now : Time) (q : PostgresQueue) : (string + JobError) * PostgresQueue :=
  let o := foldl applyOption defaultEnqueueOptions opts in
  match raw with
  | None => (inr ErrMarshal, q)
  | Some raw =>
      let '(r, q) := pgExec q (λ js,
        match js !! id with
        | Some _ => (false, js)
        | None => (true, <[id := newJob id type raw o now]> js)
        end) in
      (match r with Some true => inl id | _ => inr ErrDatabase end, q)
  end.

(** ORDER BY next_run_at LIMIT 1: ties fall as the scan meets them. *)
Definition earliest (js : list (string * Job)) : option (string * Job) :=
  foldl (λ best kj, match best with
                    | Some b => if bool_decide (NextRunAt kj.2 < NextRunAt b.2) then Some kj else best
                    | None => Some kj
                    end) None js.

Definition pgDequeue (scan : gmap string Job → list (string * Job)) (now : Time) (q : PostgresQueue)
    : (option Job + JobError) * PostgresQueue :=
  let '(r, q) := pgExec q (λ js,
    match earliest (filter (λ kj, eligible now kj.2) (scan js)) with
    | Some (k, j) => (Some (claimed j), <[k := claimed j]> js)
    | None => (None, js)
    end) in
  (match r with Some o => inl o | None => inr ErrDatabase end, q).

Definition pgComplete (id : string) (q : PostgresQueue) : option JobError * PostgresQueue :=
  let '(r, q) := pgExec q (λ js, (js !! id, alter (setStatus StatusCompleted) id js)) in
  (match r with Some (Some _) => None | Some None => Some ErrJobNotFound | None => Some ErrDatabase end, q).

(** A select followed by an update of the row it read. *)
Definition pgFail (now : Time) (id errMsg : string) (q : PostgresQueue) : option JobError * PostgresQueue :=
  let '(r, q) := pgExec q (λ js, (js !! id, js)) in
  match r with
  | None => (Some ErrDatabase, q)
  | Some None => (Some ErrJobNotFound, q)
  | Some (Some read) =>
      let upd j := {|
        ID := ID j; Type_ := Type_ j; Payload := Payload j;
        Status := if bool_decide (Attempts read < MaxAttempts read) then StatusPending else StatusFailed;
        Attempts := Attempts j; MaxAttempts := MaxAttempts j;
        NextRunAt := if bool_decide (Attempts read < MaxAttempts read)
                     then now + backoff (Attempts read) else NextRunAt j;
        CreatedAt := CreatedAt j; LastError := errMsg |} in
      let '(w, q) := pgExec q (λ js, (tt, alter upd id js)) in
      (match w with Some _ => None | None => Some ErrDatabase end, q)
  end.

(** ** The queue interface *)

Class Queue (Q : Type) := {
  Enqueue : string → string → option string → list EnqueueOption → Time → Q → (string + JobError) * Q;
  Dequeue : Time → Q → (option Job + JobError) * Q;
  Complete : string → Q → option JobError * Q;
  Fail_ : Time → string → string → Q → option JobError * Q;
  (** the jobs an implementation holds, by identifier *)
  jobOf : Q → string → option Job;
  queue_ok : Q → Prop
}.

(** What a worker relies on. *)
Class QueueLaws (Q : Type) `{Queue Q} := {
  law_dequeue now q : queue_ok q →
    queue_ok (Dequeue now q).2 ∧
    match (Dequeue now q).1 with
    | inl (Some j') => ∃ j, jobOf q (ID j) = Some j ∧ eligible now j ∧ j' = claimed j ∧
        ∀ k, jobOf (Dequeue now q).2 k = if decide (k = ID j) then Some j' else jobOf q k
    | inl None => (∀ k j, jobOf q k = Some j → ¬ eligible now j) ∧ ∀ k, jobOf (Dequeue now q).2 k = jobOf q k
    | inr _ => False
    end;
  law_complete id q : queue_ok q →
    queue_ok (Complete id q).2 ∧
    (Complete id q).1 = (if jobOf q id then None else Some ErrJobNotFound) ∧
    ∀ k, jobOf (Complete id q).2 k =
         if decide (k = id) then setStatus StatusCompleted <$> jobOf q k else jobOf q k;
  law_fail now id msg q : queue_ok q →
    queue_ok (Fail_ now id msg q).2 ∧
    (Fail_ now id msg q).1 = (if jobOf q id then None else Some ErrJobNotFound) ∧
    ∀ k, jobOf (Fail_ now id msg q).2 k =
         if decide (k = id) then failedWith now msg <$> jobOf q k else jobOf q k
}.

(** ** The worker (worker.go) *)

(** Handlers by job type; a handler answers with an error message or [None]. *)
Definition Handlers := string → option (Job → option string).

(** One tick: take a job, run its handler, record the outcome.  [now'] is the
    clock when a failure is recorded. *)
Definition poll {Q} `{Queue Q} (handlers : Handlers) (now now' : Time) (q : Q) : Q :=
  match Dequeue now q with
  | (inr _, q) => q
  | (inl None, q) => q
  | (inl (Some job), q) =>
      match handlers (Type_ job) with
      | None => (Fail_ now' (ID job) "no handler registered for job type" q).2
      | Some h =>
          match h job with
          | Some err => (Fail_ now' (ID job) err q).2
          | None => (Complete (ID job) q).2
          end
      end
  end.

(** ** Both queues keep the interface's promises *)

Definition memJobOf (q : MemoryQueue) (k : string) : option Job := snd <$> list_find (λ j, ID j = k) q.

#[global] Instance Queue_memory : Queue MemoryQueue := {|
  Enqueue := memEnqueue;
  Dequeue now q := let '(o, q') := memDequeue now q in (inl o, q');
  Complete := memComplete;
  Fail_ := memFail;
  jobOf := memJobOf;
  queue_ok q := NoDup (ID <$> q)
|}.

Lemma memJobOf_Some q k j :
  NoDup (ID <$> q) → memJobOf q k = Some j ↔ j ∈ q ∧ ID j = k.
Proof.
  intros Hnd. unfold memJobOf. split.
  - intros ([i j'] & (Hl & Hk & _)%list_find_Some & [= <-])%fmap_Some. split; [|done].
    by eapply list_elem_of_lookup_2.
  - intros [[i Hi]%list_elem_of_lookup Hk]. apply fmap_Some. exists (i, j). split; [|done].
    apply list_find_Some. split_and!; [done|done|]. intros i' j' Hi' Hlt Hj'.
    assert (i' = i); [|lia]. eapply NoDup_lookup; [exact Hnd| |];
      rewrite list_lookup_fmap; [by rewrite Hi'|rewrite Hi; simpl; congruence].
Qed.

(** Replacing a job in place by one with the same identifier. *)
Lemma memJobOf_insert q i j j' k :
  NoDup (ID <$> q) → q !! i = Some j → ID j' = ID j →
  NoDup (ID <$> <[i := j']> q) ∧
  memJobOf (<[i := j']> q) k = if decide (k = ID j) then Some j' else memJobOf q k.
Proof.
  intros Hnd Hi Hid.
  assert (ID <$> <[i := j']> q = ID <$> q) as Hids.
  { rewrite list_fmap_insert, Hid. apply list_insert_id. by rewrite list_lookup_fmap, Hi. }
  split; [by rewrite Hids|]. apply option_eq. intros x. rewrite memJobOf_Some by (by rewrite Hids).
  pose proof (lookup_lt_Some _ _ _ Hi).
  case_decide as Hk.
  - split; [|intros [= <-]; split; [|congruence]].
    + intros [[n Hn]%list_elem_of_lookup Hx]. f_equal.
      assert (n = i) as ->.
      { eapply NoDup_lookup; [exact Hnd| |]; rewrite <-?Hids, list_lookup_fmap; [by rewrite Hn|].
        rewrite list_lookup_insert_eq by done. simpl. congruence. }
      rewrite list_lookup_insert_eq in Hn by done. by simplify_eq.
    + apply list_elem_of_lookup. exists i. by rewrite list_lookup_insert_eq.
  - rewrite memJobOf_Some by done. split; intros [[n Hn]%list_elem_of_lookup Hx]; (split; [|done]);
      apply list_elem_of_lookup; exists n; destruct (decide (n = i)) as [->|].
    + rewrite list_lookup_insert_eq in Hn by done. congruence.
    + by rewrite list_lookup_insert_ne in Hn.
    + congruence.
    + by rewrite list_lookup_insert_ne.
Qed.

Lemma updateByID_spec id f q :
  NoDup (ID <$> q) → (∀ j, ID (f j) = ID j) →
  NoDup (ID <$> (updateByID id f q).2) ∧
  (updateByID id f q).1 = (if memJobOf q id then None else Some ErrJobNotFound) ∧
  ∀ k, memJobOf (updateByID id f q).2 k = if decide (k = id) then f <$> memJobOf q k else memJobOf q k.
Proof.
  intros Hnd Hf. unfold updateByID.
  destruct (list_find (λ j, ID j = id) q) as [[i j]|] eqn:E.
  - assert (memJobOf q id = Some j) as Hj by (unfold memJobOf; by rewrite E).
    apply list_find_Some in E as (Hi & <- & _).
    destruct (memJobOf_insert q i j (f j) (ID j) Hnd Hi (Hf j)) as [Hnd' _].
    split_and!; [done|by rewrite Hj|]. intros k. simpl.
    destruct (memJobOf_insert q i j (f j) k Hnd Hi (Hf j)) as [_ ->].
    case_decide as Hk; [by rewrite Hk, Hj|done].
  - assert (memJobOf q id = None) as Hj by (unfold memJobOf; by rewrite E).
    split_and!; [done|by rewrite Hj|]. intros k. simpl. case_decide as Hk; [by rewrite Hk, Hj|done].
Qed.

#[global] Instance QueueLaws_memory : QueueLaws MemoryQueue.
Proof.
  split; simpl.
  - intros now q Hnd. unfold memDequeue.
    destruct (list_find (eligible now) q) as [[i j]|] eqn:E; simpl.
    + apply list_find_Some in E as (Hi & He & _).
      split; [by apply (memJobOf_insert q i j (claimed j) (ID j))|].
      exists j. split_and!; auto.
      * apply memJobOf_Some; [done|]. split; [by eapply list_elem_of_lookup_2|done].
      * intros k. by apply (memJobOf_insert q i j (claimed j) k).
    + apply list_find_None in E. rewrite Forall_forall in E. split_and!; [done| |done].
      intros k j [Hj _]%memJobOf_Some; [|done]. by apply E.
  - intros id q Hnd. by apply updateByID_spec.
  - intros now id msg q Hnd. by apply updateByID_spec.
Qed.

(** The order in which the table is scanned. *)
Class JobScan := job_scan : gmap string Job → list (string * Job).

#[global] Instance Queue_postgres `{JobScan} : Queue PostgresQueue := {|
  Enqueue := pgEnqueue;
  Dequeue := pgDequeue job_scan;
  Complete := pgComplete;
  Fail_ := pgFail;
  jobOf q k := jobs q !! k;
  queue_ok q := Forall (λ b, b = false) (faults q) ∧ map_Forall (λ k j, ID j = k) (jobs q)
|}.

Lemma earliest_elem l kj : earliest l = Some kj → kj ∈ l.
Proof.
  unfold earliest. induction l as [|x l IH] using rev_ind; [done|].
  rewrite foldl_app. simpl. intros E. apply elem_of_app.
  repeat (case_match; simplify_eq/=); auto using list_elem_of_singleton.
  all: try (right; by apply list_elem_of_singleton).
Qed.

Lemma earliest_None l : earliest l = None → l = [].
Proof.
  unfold earliest. induction l as [|x l IH] using rev_ind; [done|].
  rewrite foldl_app. simpl. by go_split.
Qed.

Lemma pgExec_ok {A} q (stmt : gmap string Job → A * gmap string Job) :
  Forall (λ b, b = false) (faults q) →
  pgExec q stmt = (Some (stmt (jobs q)).1, {| jobs := (stmt (jobs q)).2; faults := tail (faults q) |}) ∧
  Forall (λ b, b = false) (tail (faults q)).
Proof.
  intros Hf. unfold pgExec. destruct (faults q) as [|b fs]; simpl.
  - by destruct (stmt (jobs q)).
  - apply Forall_cons in Hf as [-> Hf]. by destruct (stmt (jobs q)).
Qed.

Lemma alter_lookup_id (f : Job → Job) (id : string) (js : gmap string Job) k :
  alter f id js !! k = if decide (k = id) then f <$> js !! k else js !! k.
Proof. rewrite lookup_alter. repeat case_decide; congruence. Qed.

Lemma alter_ids (f : Job → Job) (id : string) (js : gmap string Job) :
  (∀ j, ID (f j) = ID j) → map_Forall (λ k j, ID j = k) js → map_Forall (λ k j, ID j = k) (alter f id js).
Proof.
  intros Hf Hjs k j. rewrite alter_lookup_id. case_decide; [|apply Hjs].
  intros (j' & Hj' & ->)%fmap_Some. rewrite Hf. by apply Hjs.
Qed.

#[global] Instance QueueLaws_postgres `{Hscan : JobScan} `{!GoRange job_scan} : QueueLaws PostgresQueue.
Proof.
  split; simpl.
  - intros now q [Hf Hid]. unfold pgDequeue.
    match goal with |- context [pgExec q ?s] => destruct (pgExec_ok q s Hf) as [-> Hf'] end.
    simpl. destruct (earliest _) as [[k j]|] eqn:E; simpl.
    + apply earliest_elem, list_elem_of_filter in E as [He Hin]. apply (elem_of_range job_scan) in Hin.
      specialize (Hid k j Hin) as Hk. simpl in Hk. subst k. split.
      * split; [done|]. by apply map_Forall_insert_2.
      * exists j. split_and!; auto. intros k. rewrite lookup_insert. repeat case_decide; congruence.
    + split; [done|]. split; [|done]. intros k j Hk He. apply earliest_None in E.
      assert ((k, j) ∈ filter (λ kj, eligible now kj.2) (job_scan (jobs q))) as Hin.
      { apply list_elem_of_filter. split; [done|]. by apply (elem_of_range job_scan). }
      rewrite E in Hin. by apply not_elem_of_nil in Hin.
  - intros id q [Hf Hid]. unfold pgComplete.
    match goal with |- context [pgExec q ?s] => destruct (pgExec_ok q s Hf) as [-> Hf'] end.
    simpl. split_and!; [done|by apply alter_ids|by destruct (jobs q !! id)|].
    intros k. apply alter_lookup_id.
  - intros now id msg q [Hf Hid]. unfold pgFail.
    match goal with |- context [pgExec q ?s] => destruct (pgExec_ok q s Hf) as [-> Hf'] end.
    simpl. destruct (jobs q !! id) as [j0|] eqn:Ej; simpl.
    + match goal with |- context [pgExec ?p ?s] => destruct (pgExec_ok p s Hf') as [-> Hf''] end.
      simpl. split_and!; [done|by apply alter_ids|done|]. intros k. rewrite alter_lookup_id.
      case_decide as Hk; [|done]. subst k. by rewrite Ej.
    + split_and!; [done|done|done|]. intros k. case_decide as Hk; [|done]. subst k. by rewrite Ej.
Qed.

(** ** Histories of the in-memory queue *)

Inductive JobOp :=
  | JEnqueue (id type : string) (raw : option string) (opts : list EnqueueOption) (now : Time)
  | JDequeue (now : Time)
  | JComplete (id : string)
  | JFail (now : Time) (id errMsg : string).

Definition jobStep (q : MemoryQueue) (op : JobOp) : MemoryQueue :=
  match op with
  | JEnqueue id type raw opts now => (memEnqueue id type raw opts now q).2
  | JDequeue now => (memDequeue now q).2
  | JComplete id => (memComplete id q).2
  | JFail now id msg => (memFail now id msg q).2
  end.

(** Every enqueued job allows at least one attempt. *)
Definition opts_ok (op : JobOp) : Prop :=
  match op with
  | JEnqueue _ _ _ opts _ => 1 <= optMaxAttempts (foldl applyOption defaultEnqueueOptions opts)
  | _ => True
  end.

Record job_ok (j : Job) : Prop := {
  job_attempts : 0 <= Attempts j <= MaxAttempts j;
  job_pending : Status j = StatusPending → Attempts j < MaxAttempts j
}.

Lemma evictOne_length q : q ≠ [] → length (evictOne q) = (length q - 1)%nat.
Proof.
  intros Hq. unfold evictOne. destruct (list_find finished q) as [[i j]|] eqn:E.
  - apply list_find_Some in E as (Hi & _). apply lookup_lt_Some in Hi.
    rewrite length_app, length_take, length_drop. lia.
  - destruct q; simpl; [done|lia].
Qed.

Lemma evictOne_subset q j : j ∈ evictOne q → j ∈ q.
Proof.
  unfold evictOne. destruct (list_find finished q) as [[i x]|].
  - intros [Hj|Hj]%elem_of_app.
    + apply list_elem_of_lookup in Hj as [k Hk]. apply lookup_take_Some in Hk as [Hk _].
      by eapply list_elem_of_lookup_2.
    + apply list_elem_of_lookup in Hj as [k Hk]. rewrite lookup_drop in Hk.
      by eapply list_elem_of_lookup_2.
  - destruct q; [done|]. simpl. by right.
Qed.

Lemma evictLoop_spec fuel q :
  (length q ≤ fuel)%nat →
  Z.of_nat (length (evictLoop fuel q)) < memoryQueueMaxJobs ∧ (∀ j, j ∈ evictLoop fuel q → j ∈ q).
Proof.
  revert q. induction fuel as [|fuel IH]; intros q Hl; simpl.
  { destruct q; [done|]. simpl in Hl. lia. }
  case_bool_decide as Hm; [|split; [lia|done]].
  assert (q ≠ []) as Hq by (intros ->; done).
  pose proof (evictOne_length q Hq).
  destruct (IH (evictOne q)) as [H1 H2]; [lia|]. split; [done|].
  intros j Hj. by apply evictOne_subset, H2.
Qed.

Lemma updateByID_length id f q : length (updateByID id f q).2 = length q.
Proof. unfold updateByID. case_match; [|done]. case_match. apply length_insert. Qed.

Lemma jobStep_length q op :
  Z.of_nat (length q) <= memoryQueueMaxJobs → Z.of_nat (length (jobStep q op)) <= memoryQueueMaxJobs.
Proof.
  intros Hl. destruct op as [id type [raw|] opts now|now|id|now id msg]; simpl; auto.
  - rewrite length_app. simpl. destruct (evictLoop_spec (length q) q) as [He _]; [done|].
    unfold evictLocked. lia.
  - unfold memDequeue. repeat case_match; simpl; rewrite ?length_insert; done.
  - unfold memComplete. by rewrite updateByID_length.
  - unfold memFail. by rewrite updateByID_length.
Qed.

Lemma Forall_updateByID (P : Job → Prop) id f q :
  Forall P q → (∀ j, P j → P (f j)) → Forall P (updateByID id f q).2.
Proof.
  intros Hq Hf. unfold updateByID. repeat case_match; simpl; [|done].
  apply list_find_Some in H as (Hi & _). apply Forall_insert; [done|]. apply Hf. by eapply Forall_lookup_1.
Qed.

Lemma jobStep_ok q op : opts_ok op → Forall job_ok q → Forall job_ok (jobStep q op).
Proof.
  intros Ho Hq. destruct op as [id type [raw|] opts now|now|id|now id msg]; simpl in *; auto.
  - apply Forall_app. split.
    + apply Forall_forall. intros j Hj. destruct (evictLoop_spec (length q) q) as [_ Hsub]; [done|].
      rewrite Forall_forall in Hq. by apply Hq, Hsub.
    + apply Forall_singleton. split; simpl; [lia|]. intros _. lia.
  - unfold memDequeue. repeat case_match; simpl; [|done].
    apply list_find_Some in H as (Hi & [Hp _] & _). apply Forall_insert; [done|].
    pose proof (Forall_lookup_1 _ _ _ _ Hq Hi) as [Ha Hpend]. split; simpl; [|done].
    specialize (Hpend Hp). lia.
  - apply Forall_updateByID; [done|]. intros j [Ha _]. by split.
  - apply Forall_updateByID; [done|]. intros j [Ha _]. split; simpl; [done|]. case_bool_decide; [lia|done].
Qed.

(** ** Properties *)

(** For every queue that keeps the interface's promises, one tick of the worker
    takes at most one eligible job, leaves every other job as it was, and never
    leaves the taken job running: it is completed, or pending again when
    attempts remain, or failed. *)
Theorem poll_resolves_job {Q} `{QueueLaws Q} (q : Q) handlers now now' :
  queue_ok q →
  let q' := poll handlers now now' q in
  queue_ok q' ∧
  (((∀ k j, jobOf q k = Some j → ¬ eligible now j) ∧ (∀ k, jobOf q' k = jobOf q k)) ∨
   ∃ j j', jobOf q (ID j) = Some j ∧ eligible now j ∧ jobOf q' (ID j) = Some j' ∧
     Attempts j' = Attempts j + 1 ∧
     Status j' = match handlers (Type_ j) with
                 | Some h => match h (claimed j) with
                             | None => StatusCompleted
                             | Some _ => if bool_decide (Attempts j + 1 < MaxAttempts j)
                                         then StatusPending else StatusFailed
                             end
                 | None => if bool_decide (Attempts j + 1 < MaxAttempts j)
                           then StatusPending else StatusFailed
                 end ∧
     ∀ k, k ≠ ID j → jobOf q' k = jobOf q k).
Proof.
  intros Hq. simpl. unfold poll. destruct (law_dequeue now q Hq) as [Hq1 Hd].
  destruct (Dequeue now q) as [[[jc|]|e] q1]; simpl in *; [|by destruct Hd; auto|done].
  destruct Hd as (j & Hj & He & -> & Hk). simpl.
  assert (jobOf q1 (ID j) = Some (claimed j)) as Hj1 by (rewrite Hk; by rewrite decide_True).
  assert (∀ msg, let r := (Fail_ now' (ID j) msg q1).2 in queue_ok r ∧
    jobOf r (ID j) = Some (failedWith now' msg (claimed j)) ∧ ∀ k, k ≠ ID j → jobOf r k = jobOf q k) as Hfail.
  { intros msg. destruct (law_fail now' (ID j) msg q1 Hq1) as (Hok & _ & Hjk). split_and!; [done| |].
    - rewrite Hjk, decide_True, Hj1 by done. done.
    - intros k Hne. by rewrite Hjk, decide_False, Hk, decide_False. }
  destruct (handlers (Type_ j)) as [h|] eqn:Eh; [destruct (h (claimed j)) as [err|] eqn:Er|].
  - destruct (Hfail err) as (? & ? & ?). split; [done|]. right.
    exists j, (failedWith now' err (claimed j)). split; [done|]. split; [exact He|]. rewrite Eh, ?Er. by split_and!.
  - destruct (law_complete (ID j) q1 Hq1) as (Hok & _ & Hjk). split; [done|]. right.
    exists j, (setStatus StatusCompleted (claimed j)). split; [done|]. split; [exact He|].
    rewrite Eh, Er. split_and!; try done.
    + by rewrite Hjk, decide_True, Hj1.
    + intros k Hne. by rewrite Hjk, decide_False, Hk, decide_False.
  - match goal with |- context [Fail_ now' (ID j) ?m q1] => destruct (Hfail m) as (? & ? & ?) end.
    split; [done|]. right. eexists j, _. split; [done|]. split; [exact He|]. rewrite Eh. by split_and!.
Qed.

(** No job is handed out twice: the next dequeue, at whatever time, never
    returns a job that the previous one claimed. *)
Theorem dequeue_exclusive {Q} `{QueueLaws Q} (q : Q) now1 now2 j1 j2 :
  queue_ok q → (Dequeue now1 q).1 = inl (Some j1) →
  (Dequeue now2 (Dequeue now1 q).2).1 = inl (Some j2) → ID j1 ≠ ID j2.
Proof.
  intros Hq E1 E2 Heq. destruct (law_dequeue now1 q Hq) as [Hq1 Hd1]. rewrite E1 in Hd1.
  destruct (law_dequeue now2 _ Hq1) as [_ Hd2]. rewrite E2 in Hd2.
  destruct Hd1 as (a & _ & _ & -> & Hk1), Hd2 as (b & Hb & [Hp _] & -> & _). simpl in Heq.
  rewrite Hk1, decide_True in Hb by done. by simplify_eq/=.
Qed.

(** In every history of the in-memory queue the cap holds, and no job is ever
    attempted more often than its maximum. *)
Theorem memory_queue_history ops :
  Forall opts_ok ops →
  Z.of_nat (length (exec jobStep [] ops)) <= memoryQueueMaxJobs ∧
  Forall job_ok (exec jobStep [] ops).
Proof.
  intros Ho. split.
  - apply (exec_invariant jobStep (λ q, Z.of_nat (length q) <= memoryQueueMaxJobs)); [done|].
    intros. by apply jobStep_length.
  - apply exec_invariant; [constructor|]. intros q op Hq Hop. apply jobStep_ok; [|done].
    rewrite Forall_forall in Ho. by apply Ho.
Qed.

(** The backoff is exactly five seconds tripled per attempt up to attempt 20;
    the next attempt overflows int64 and yields a negative wait. *)
Theorem backoff_exact_then_overflows :
  (∀ attempt, 1 <= attempt <= 20 → backoff attempt = 5 * Second * 3 ^ (attempt - 1)) ∧
  backoff 21 < 0.
Proof.
  split; [|vm_compute; reflexivity]. intros n Hn.
  assert (∀ m : nat, (m < 20)%nat → backoff (Z.of_nat m + 1) = 5 * Second * 3 ^ Z.of_nat m) as Hall.
  { intros m Hm. do 20 (destruct m as [|m]; [vm_compute; reflexivity|]). lia. }
  specialize (Hall (Z.to_nat (n - 1)) ltac:(lia)).
  rewrite Z2Nat.id in Hall by lia. by replace (n - 1 + 1) with n in Hall by lia.
Qed.

(** ** Witnesses *)

#[local] Instance sample_scan : JobScan := map_to_list.

Definition sample_queue : MemoryQueue :=
  exec jobStep [] [JEnqueue "j1" "webhook" (Some "{}") [] 0; JEnqueue "j2" "purge" (Some "{}") [WithDelay 5] 0].

Definition sample_handlers : Handlers := λ t, if decide (t = "webhook") then Some (λ _, None) else None.

Lemma poll_resolves_job_witness :
  (Status <$> jobOf (poll sample_handlers 1 2 sample_queue) "j1") = Some StatusCompleted ∧
  queue_ok (poll sample_handlers 1 2 sample_queue).
Proof.
  split; [vm_compute; reflexivity|].
  apply (poll_resolves_job sample_queue sample_handlers 1 2).
  vm_compute. repeat constructor; set_solver.
Defined.

Definition sample_claim (q : MemoryQueue) : Job :=
  match (Dequeue 9 q).1 with inl (Some j) => j | _ => claimed (newJob "" "" "" defaultEnqueueOptions 0) end.

Lemma dequeue_exclusive_witness :
  (Dequeue 9 (Dequeue 9 sample_queue).2).1 = inl (Some (sample_claim (Dequeue 9 sample_queue).2)) ∧
  ID (sample_claim sample_queue) ≠ ID (sample_claim (Dequeue 9 sample_queue).2).
Proof.
  split; [vm_compute; reflexivity|].
  apply (dequeue_exclusive sample_queue 9 9); [|vm_compute; reflexivity..].
  vm_compute; repeat constructor; set_solver.
Defined.

Lemma memory_queue_history_witness :
  Forall job_ok sample_queue.
Proof.
  apply (memory_queue_history
    [JEnqueue "j1" "webhook" (Some "{}") [] 0; JEnqueue "j2" "purge" (Some "{}") [WithDelay 5] 0]).
  repeat constructor; vm_compute; congruence.
Defined.
