(* ===== verification/GoPath.v ===== *)
(** * Slash-separated paths, and sorting

    The parts of Go's [strings], [path/filepath] and [sort] packages that the
    storage layer builds its keys and listings with: splitting at slashes,
    [filepath.Join] with its lexical cleaning (Unix rules), and [sort.Slice],
    whose treatment of equal elements is unspecified. *)
From S2P Require Import Prelude.

(** ** Splitting at slashes *)

Fixpoint splitSlash (s : string) : list string :=
  match s with
  | EmptyString => [""]
  | String c s' =>
      if decide (c = "/"%char) then "" :: splitSlash s'
      else match splitSlash s' with
           | x :: xs => String c x :: xs
           | [] => [String c ""]
           end
  end.

Fixpoint noSlash (s : string) : bool :=
  match s with
  | EmptyString => true
  | String c s' => negb (bool_decide (c = "/"%char)) && noSlash s'
  end.

(** ** filepath.Clean and filepath.Join *)

(** One path element, on the stack of the elements kept so far. *)
Definition cleanStep (rooted : bool) (out : list string) (c : string) : list string :=
  if decide (c = "" ∨ c = ".") then out
  else if decide (c = "..") then
    match out with
    | x :: rest => if decide (x = "..") then ".." :: out else rest
    | [] => if rooted then [] else [".."]
    end
  else c :: out.

Definition Clean (p : string) : string :=
  if decide (p = "") then "."
  else
    let rooted := match p with String "/" _ => true | _ => false end in
    let body := String.concat "/" (reverse (foldl (cleanStep rooted) [] (splitSlash p))) in
    if rooted then String "/" body else if decide (body = "") then "." else body.

(** Leading empty elements are dropped, the rest is joined and cleaned. *)
Fixpoint Join (elems : list string) : string :=
  match elems with
  | [] => ""
  | e :: es => if decide (e = "") then Join es else Clean (String.concat "/" elems)
  end.

(** A name that is a single path element and that cleaning leaves alone. *)
Definition component (s : string) : bool :=
  noSlash s && bool_decide (s ≠ "" ∧ s ≠ "." ∧ s ≠ "..").

Lemma splitSlash_noSlash s : noSlash s = true → splitSlash s = [s].
Proof.
  induction s as [|c s IH]; simpl; [done|]. intros [Hc Hs]%andb_true_iff.
  rewrite negb_true_iff, bool_decide_eq_false in Hc. by rewrite decide_False, IH.
Qed.

Lemma splitSlash_app s t : noSlash s = true → splitSlash (s +:+ String "/" t) = s :: splitSlash t.
Proof.
  induction s as [|c s IH]; simpl; [done|]. intros [Hc Hs]%andb_true_iff.
  rewrite negb_true_iff, bool_decide_eq_false in Hc. by rewrite decide_False, IH.
Qed.

Lemma splitSlash_concat cs :
  cs ≠ [] → Forall (λ c, noSlash c = true) cs → splitSlash (String.concat "/" cs) = cs.
Proof.
  intros Hne Hcs. induction Hcs as [|c cs Hc Hcs IH]; [done|]. destruct cs as [|c' cs].
  - simpl. by apply splitSlash_noSlash.
  - change (String.concat "/" (c :: c' :: cs)) with (c +:+ String "/" (String.concat "/" (c' :: cs))).
    rewrite splitSlash_app by done. f_equal. by apply IH.
Qed.

Lemma component_spec s : component s = true ↔ noSlash s = true ∧ s ≠ "" ∧ s ≠ "." ∧ s ≠ "..".
Proof. unfold component. by rewrite andb_true_iff, bool_decide_eq_true. Qed.

Lemma foldl_cleanStep cs out :
  Forall (λ c, component c = true) cs → foldl (cleanStep false) out cs = reverse cs ++ out.
Proof.
  intros Hcs. revert out. induction Hcs as [|c cs Hc Hcs IH]; intros out; [done|]. simpl.
  apply component_spec in Hc as (_ & ? & ? & ?). unfold cleanStep at 2.
  rewrite decide_False by tauto. rewrite decide_False by done.
  by rewrite IH, reverse_cons, <-app_assoc.
Qed.

(** Joining single path elements only puts the slashes between them. *)
Lemma Join_components c cs :
  Forall (λ c, component c = true) (c :: cs) → Join (c :: cs) = String.concat "/" (c :: cs).
Proof.
  intros Hcs. pose proof Hcs as Hcs'. apply Forall_cons in Hcs' as [Hc _].
  apply component_spec in Hc as (Hns & Hne & _).
  assert (∃ x s, String.concat "/" (c :: cs) = String x s ∧ x ≠ "/"%char) as (x & s & Hx & Hns').
  { destruct c as [|x c]; [done|]. simpl in Hns. apply andb_true_iff in Hns as [Hx _].
    rewrite negb_true_iff, bool_decide_eq_false in Hx. exists x. destruct cs; simpl; eauto. }
  assert (splitSlash (String.concat "/" (c :: cs)) = c :: cs) as Hsp.
  { apply splitSlash_concat; [done|]. eapply Forall_impl; [exact Hcs|]. intros ? ?%component_spec. tauto. }
  cbn [Join]. rewrite decide_False by done. unfold Clean. rewrite decide_False by (by rewrite Hx).
  replace (match String.concat "/" (c :: cs) with String "/" _ => true | _ => false end) with false
    by (rewrite Hx; destruct x as [[] [] [] [] [] [] [] []]; done).
  rewrite Hsp, foldl_cleanStep, app_nil_r, reverse_involutive by done.
  by rewrite decide_False by (by rewrite Hx).
Qed.

(** ** sort.Slice

    [sortSlice R l] sorts [l] so that no later element must come before an
    earlier one; the order of the elements that [R] ties is left open. *)
Class SliceSort := sortSlice : ∀ {A : Type} (R : relation A) `{∀ x y, Decision (R x y)}, list A → list A.

Class SliceSortLaws `{SliceSort} := {
  sort_perm {A} (R : relation A) `{∀ x y, Decision (R x y)} l : sortSlice R l ≡ₚ l;
  sort_sorted {A} (R : relation A) `{∀ x y, Decision (R x y)} `{!Transitive R, !Total R} l :
    StronglySorted R (sortSlice R l)
}.

Definition mergeSlice : SliceSort := λ A R _ l, merge_sort R l.

Lemma mergeSlice_laws : @SliceSortLaws mergeSlice.
Proof.
  split.
  - intros. apply merge_sort_Permutation.
  - intros. apply StronglySorted_merge_sort; apply _.
Qed.

Lemma Clean_components c cs :
  Forall (λ c, component c = true) (c :: cs) → Clean (String.concat "/" (c :: cs)) = String.concat "/" (c :: cs).
Proof.
  intros Hcs. pose proof (Join_components c cs Hcs) as HJ. cbn [Join] in HJ.
  apply Forall_cons in Hcs as [(_ & Hne & _)%component_spec _]. by rewrite decide_False in HJ.
Qed.

Lemma concat_cons x y ys : String.concat "/" (x :: y :: ys) = x +:+ String "/" (String.concat "/" (y :: ys)).
Proof. reflexivity. Qed.

Lemma concat_concat d ds cs :
  String.concat "/" (String.concat "/" (d :: ds) :: cs) = String.concat "/" ((d :: ds) ++ cs).
Proof.
  destruct cs as [|c cs]; [by rewrite app_nil_r|]. revert d. induction ds as [|d' ds IH]; intros d; [done|].
  rewrite concat_cons, (concat_cons d d' ds). cbn [app]. rewrite concat_cons.
  change (d' :: ds ++ c :: cs) with ((d' :: ds) ++ c :: cs). rewrite <-IH, concat_cons.
  clear. induction d as [|x d IH]; [done|].
  change (String x (((d +:+ String "/" (String.concat "/" (d' :: ds))) +:+ String "/" (String.concat "/" (c :: cs))))
    = String x (d +:+ String "/" (String.concat "/" (d' :: ds) +:+ String "/" (String.concat "/" (c :: cs))))).
  by rewrite IH.
Qed.

(** Joining a clean relative directory with single elements below it. *)
Lemma Join_below d ds cs :
  Forall (λ c, component c = true) ((d :: ds) ++ cs) →
  Join (String.concat "/" (d :: ds) :: cs) = String.concat "/" ((d :: ds) ++ cs).
Proof.
  intros Hc. cbn [Join]. rewrite decide_False.
  - rewrite concat_concat. cbn [app]. by apply Clean_components.
  - apply Forall_cons in Hc as [(_ & Hne & _)%component_spec _]. destruct d as [|x d]; [done|]. by destruct ds.
Qed.

Lemma concat_components_inj cs cs' :
  cs ≠ [] → cs' ≠ [] → Forall (λ c, component c = true) cs → Forall (λ c, component c = true) cs' →
  String.concat "/" cs = String.concat "/" cs' → cs = cs'.
Proof.
  intros Hne Hne' Hc Hc' Heq%(f_equal splitSlash).
  assert (∀ l, Forall (λ c, component c = true) l → Forall (λ c, noSlash c = true) l) as Hns
    by (intros l Hl; eapply Forall_impl; [exact Hl|]; intros ? ?%component_spec; tauto).
  rewrite !splitSlash_concat in Heq by auto. done.
Qed.

Lemma noSlash_app s t : noSlash (s +:+ t) = noSlash s && noSlash t.
Proof.
  induction s as [|c s IH]; [done|].
  change (negb (bool_decide (c = "/"%char)) && noSlash (s +:+ t) = (negb (bool_decide (c = "/"%char)) && noSlash s) && noSlash t).
  by rewrite IH, andb_assoc.
Qed.

Lemma component_json a : component a = true → component (a +:+ ".json") = true.
Proof.
  rewrite !component_spec, noSlash_app. intros (-> & Hne & _). split; [done|].
  destruct a as [|c [|c' a]]; [done|..]; split_and!; intros H; try (by inversion H).
  inversion H as [[Hc Hc' Ha]]. by destruct a.
Qed.
