(* ===== verification/GoStrings.v ===== *)
(** * GoStrings: the parts of Go's [strings] package the handlers use

    A Go string is a sequence of bytes.  White space is [unicode.IsSpace] on the
    runes of the string in UTF-8, as [strings.TrimSpace] and [strings.Fields]
    read it; letter case is folded for ASCII only, which decides every
    comparison the program makes, because no rune outside ASCII is mapped to one
    of the letters of the words it compares with. *)
From S2P Require Import Prelude.

(** ** White space *)

(** The white-space runes of one, two and three bytes. *)
Definition space1 (c0 : ascii) : bool :=
  let b0 := N_of_ascii c0 in bool_decide (b0 = 32 ∨ (9 <= b0 /\ b0 <= 13))%N.

Definition space2 (c0 c1 : ascii) : bool :=
  let b0 := N_of_ascii c0 in let b1 := N_of_ascii c1 in
  bool_decide (b0 = 194 ∧ (b1 = 133 ∨ b1 = 160))%N.

Definition space3 (c0 c1 c2 : ascii) : bool :=
  let b0 := N_of_ascii c0 in let b1 := N_of_ascii c1 in let b2 := N_of_ascii c2 in
  bool_decide ((b0 = 225 ∧ b1 = 154 ∧ b2 = 128) ∨
    (b0 = 226 ∧ b1 = 128 ∧ ((128 <= b2 /\ b2 <= 138) ∨ b2 = 168 ∨ b2 = 169 ∨ b2 = 175)) ∨
    (b0 = 226 ∧ b1 = 129 ∧ b2 = 159) ∨
    (b0 = 227 ∧ b1 = 128 ∧ b2 = 128))%N.

(** The number of bytes of the white-space rune at the head of the string. *)
Definition spaceLen (s : string) : nat :=
  match s with
  | EmptyString => 0
  | String c0 s1 =>
      if space1 c0 then 1
      else match s1 with
           | EmptyString => 0
           | String c1 s2 =>
               if space2 c0 c1 then 2
               else match s2 with
                    | EmptyString => 0
                    | String c2 _ => if space3 c0 c1 c2 then 3 else 0
                    end
           end
  end.

(** In the functions below [skip] counts the bytes left of a white-space rune. *)
Fixpoint trimLeftFrom (skip : nat) (s : string) : string :=
  match s with
  | EmptyString => EmptyString
  | String _ s' =>
      match skip with
      | S k => trimLeftFrom k s'
      | O => match spaceLen s with S k => trimLeftFrom k s' | O => s end
      end
  end.

(** Whether the string is a sequence of white-space runes. *)
Fixpoint allSpaceFrom (skip : nat) (s : string) : bool :=
  match s with
  | EmptyString => true
  | String _ s' =>
      match skip with
      | S k => allSpaceFrom k s'
      | O => match spaceLen s with S k => allSpaceFrom k s' | O => false end
      end
  end.

(** The longest suffix of white space is dropped. *)
Fixpoint trimRightSpace (s : string) : string :=
  match s with
  | EmptyString => EmptyString
  | String c s' => if allSpaceFrom 0 s then EmptyString else String c (trimRightSpace s')
  end.

Definition TrimSpace (s : string) : string := trimRightSpace (trimLeftFrom 0 s).

Definition emitField (f : string) (fs : list string) : list string :=
  if decide (f = "") then fs else f :: fs.

(** [strings.Fields]: the runs of bytes between white space; [cur] is the run so far. *)
Fixpoint fieldsFrom (skip : nat) (cur : string) (s : string) : list string :=
  match s with
  | EmptyString => emitField cur []
  | String c s' =>
      match skip with
      | S k => fieldsFrom k "" s'
      | O => match spaceLen s with
             | S k => emitField cur (fieldsFrom k "" s')
             | O => fieldsFrom 0 (cur +:+ String c "") s'
             end
      end
  end.

Definition Fields (s : string) : list string := fieldsFrom 0 "" s.

(** ** Prefixes, suffixes, case *)

Definition lowerAscii (c : ascii) : ascii :=
  let n := nat_of_ascii c in
  if bool_decide (65 ≤ n ≤ 90)%nat then ascii_of_nat (n + 32) else c.

Fixpoint ToLower (s : string) : string :=
  match s with
  | EmptyString => EmptyString
  | String c s' => String (lowerAscii c) (ToLower s')
  end.

Definition HasPrefix (s p : string) : bool := String.prefix p s.

Fixpoint dropBytes (n : nat) (s : string) : string :=
  match n, s with
  | S n', String _ s' => dropBytes n' s'
  | _, _ => s
  end.

Fixpoint takeBytes (n : nat) (s : string) : string :=
  match n, s with
  | S n', String c s' => String c (takeBytes n' s')
  | _, _ => EmptyString
  end.

Definition TrimPrefix (s p : string) : string :=
  if HasPrefix s p then dropBytes (String.length p) s else s.

Definition HasSuffix (s p : string) : bool :=
  bool_decide (String.length p ≤ String.length s)%nat &&
  bool_decide (dropBytes (String.length s - String.length p) s = p).

Fixpoint stringForall (p : ascii → bool) (s : string) : bool :=
  match s with
  | EmptyString => true
  | String c s' => p c && stringForall p s'
  end.

(** [strings.TrimRight] with a cutset. *)
Fixpoint trimRightBy (cut : ascii → bool) (s : string) : string :=
  match s with
  | EmptyString => EmptyString
  | String c s' => if stringForall cut s then EmptyString else String c (trimRightBy cut s')
  end.

Definition trimRightChar (x : ascii) (s : string) : string := trimRightBy (λ c, bool_decide (c = x)) s.

Fixpoint trimLeftChar (x : ascii) (s : string) : string :=
  match s with
  | EmptyString => EmptyString
  | String c s' => if bool_decide (c = x) then trimLeftChar x s' else s
  end.

Definition trimChar (x : ascii) (s : string) : string := trimRightChar x (trimLeftChar x s).

(** [strings.Split] at a single byte. *)
Fixpoint splitChar (x : ascii) (s : string) : list string :=
  match s with
  | EmptyString => [""]
  | String c s' =>
      if decide (c = x) then "" :: splitChar x s'
      else match splitChar x s' with
           | w :: ws => String c w :: ws
           | [] => [String c ""]
           end
  end.

(** [filepath.Base]: the last element, trailing slashes removed. *)
Definition pathBase (p : string) : string :=
  if bool_decide (p = "") then "." else
  let q := trimRightChar "/" p in
  if bool_decide (q = "") then "/" else default "" (head (reverse (splitChar "/" q))).

Fixpoint replaceChar (x y : ascii) (s : string) : string :=
  match s with
  | EmptyString => EmptyString
  | String c s' => String (if decide (c = x) then y else c) (replaceChar x y s')
  end.

(** ** Facts *)

(** A string without white-space runes at its ends is left alone. *)
Definition trimmed (s : string) : Prop := TrimSpace s = s.

Lemma trimLeftFrom_head skip s :
  trimLeftFrom skip s = "" ∨ spaceLen (trimLeftFrom skip s) = 0%nat.
Proof.
  revert skip; induction s as [|c s IH]; intros skip; [by left|]. cbn -[spaceLen].
  destruct skip; [|apply IH]. destruct (spaceLen (String c s)) eqn:E; [by right|apply IH].
Qed.

Lemma trimLeftFrom_id s : s = "" ∨ spaceLen s = 0%nat → trimLeftFrom 0 s = s.
Proof. intros [->|H]; [done|]. destruct s; [done|]. cbn -[spaceLen]. by rewrite H. Qed.

Lemma string_app_cons c s t : String c s +:+ t = String c (s +:+ t).
Proof. reflexivity. Qed.

Lemma string_app_nil t : "" +:+ t = t.
Proof. reflexivity. Qed.

Lemma string_app_nil_r (s : string) : s +:+ "" = s.
Proof. induction s as [|c s IH]; [done|]. rewrite string_app_cons. by rewrite IH. Qed.

Lemma string_app_assoc s t u : s +:+ t +:+ u = (s +:+ t) +:+ u.
Proof. induction s as [|c s IH]; [done|]. rewrite !string_app_cons. by f_equal. Qed.

Lemma string_length_app s t : String.length (s +:+ t) = (String.length s + String.length t)%nat.
Proof. induction s as [|c s IH]; [done|]. rewrite string_app_cons. cbn. by rewrite IH. Qed.

Lemma string_app_inj_r s s' t : s +:+ t = s' +:+ t → s = s'.
Proof.
  revert s'. induction s as [|c s IH]; intros [|c' s']; rewrite ?string_app_cons, ?string_app_nil; [done|..].
  - intros Heq%(f_equal String.length). cbn in Heq. rewrite string_length_app in Heq. lia.
  - intros Heq%(f_equal String.length). cbn in Heq. rewrite string_length_app in Heq. lia.
  - intros [= -> Heq]. f_equal. by apply IH.
Qed.

Lemma spaceLen_app s t k : spaceLen s = S k → spaceLen (s +:+ t) = S k.
Proof.
  destruct s as [|c0 [|c1 [|c2 s]]]; rewrite ?string_app_cons, ?string_app_nil; unfold spaceLen; intros H;
    repeat case_match; simplify_eq; done.
Qed.

Lemma spaceLen_bound s : (spaceLen s ≤ String.length s)%nat.
Proof. destruct s as [|c0 [|c1 [|c2 s]]]; cbn -[space1 space2 space3]; repeat case_match; lia. Qed.

Lemma allSpaceFrom_app skip s t :
  (skip ≤ String.length s)%nat → allSpaceFrom skip s = true → allSpaceFrom 0 t = true →
  allSpaceFrom skip (s +:+ t) = true.
Proof.
  revert skip; induction s as [|c s IH]; intros skip Hlen Hs Ht.
  { assert (skip = 0%nat) as -> by (simpl in Hlen; lia). done. }
  rewrite string_app_cons. destruct skip as [|k]; cbn -[spaceLen] in *; [|apply IH; [lia|done..]].
  pose proof (spaceLen_bound (String c s)) as Hb.
  destruct (spaceLen (String c s)) as [|k] eqn:E; [done|].
  rewrite <-string_app_cons, (spaceLen_app _ _ _ E).
  apply IH; [cbn in Hb; lia|done..].
Qed.

(** Trimming on the right cuts off a run of white space. *)
Lemma trimRightSpace_split s : ∃ w, s = trimRightSpace s +:+ w ∧ allSpaceFrom 0 w = true.
Proof.
  induction s as [|c s (w & Hw & Hsp)]; [by exists ""|]. cbn -[allSpaceFrom].
  destruct (allSpaceFrom 0 (String c s)) eqn:E; [by exists (String c s)|].
  exists w. split; [|done]. rewrite string_app_cons. by f_equal.
Qed.

Lemma trimRightSpace_idemp s : trimRightSpace (trimRightSpace s) = trimRightSpace s.
Proof.
  induction s as [|c s IH]; [done|]. cbn -[allSpaceFrom].
  destruct (allSpaceFrom 0 (String c s)) eqn:E; [done|]. cbn -[allSpaceFrom].
  destruct (allSpaceFrom 0 (String c (trimRightSpace s))) eqn:E'; [|by f_equal].
  destruct (trimRightSpace_split s) as (w & Hw & Hsp).
  assert (allSpaceFrom 0 (String c (trimRightSpace s) +:+ w) = true) as H
    by (apply allSpaceFrom_app; [cbn; lia|done..]).
  rewrite string_app_cons, <-Hw in H. congruence.
Qed.

Lemma TrimSpace_idemp s : TrimSpace (TrimSpace s) = TrimSpace s.
Proof.
  unfold TrimSpace. set (l := trimLeftFrom 0 s).
  assert (trimLeftFrom 0 (trimRightSpace l) = trimRightSpace l) as ->; [|apply trimRightSpace_idemp].
  apply trimLeftFrom_id. destruct (trimLeftFrom_head 0 s) as [H|H]; fold l in H; [left; by rewrite H|right].
  destruct (spaceLen (trimRightSpace l)) eqn:E; [done|].
  destruct (trimRightSpace_split l) as (w & Hw & _). rewrite Hw in H.
  by rewrite (spaceLen_app _ _ _ E) in H.
Qed.

Lemma trimmed_TrimSpace s : trimmed (TrimSpace s).
Proof. apply TrimSpace_idemp. Qed.

#[export] Hint Resolve trimmed_TrimSpace : go.

Lemma HasPrefix_app p s : HasPrefix (p +:+ s) p = true.
Proof.
  unfold HasPrefix. induction p as [|c p IH]; [by destruct s|]. rewrite string_app_cons. cbn.
  by destruct (ascii_dec c c).
Qed.

Lemma HasPrefix_split s p : HasPrefix s p = true → s = p +:+ dropBytes (String.length p) s.
Proof.
  unfold HasPrefix. revert s; induction p as [|c p IH]; intros [|d s]; cbn; try done.
  destruct (ascii_dec c d) as [->|]; [|done]. intros H. rewrite string_app_cons. f_equal. by apply IH.
Qed.

Lemma dropBytes_app p s : dropBytes (String.length p) (p +:+ s) = s.
Proof. induction p as [|c p IH]; [by destruct s|]. rewrite string_app_cons. apply IH. Qed.

Lemma takeBytes_app w s : takeBytes (String.length w) (w +:+ s) = w.
Proof. induction w as [|c w IH]; [by destruct s|]. rewrite string_app_cons. simpl. by f_equal. Qed.

(** ** Strings of ASCII bytes

    In a string without bytes above 127 every white-space rune is one byte. *)
Definition ascii7 (c : ascii) : bool := bool_decide (nat_of_ascii c < 128)%nat.

Definition graphic (c : ascii) : bool := bool_decide (33 ≤ nat_of_ascii c ≤ 126)%nat.

Lemma nat_of_N_of_ascii c : nat_of_ascii c = N.to_nat (N_of_ascii c).
Proof. reflexivity. Qed.

Lemma graphic_ascii7 c : graphic c = true → ascii7 c = true.
Proof. unfold graphic, ascii7. rewrite !bool_decide_eq_true. lia. Qed.

Lemma graphic_space1 c : graphic c = true → space1 c = false.
Proof.
  unfold graphic, space1. rewrite bool_decide_eq_true, bool_decide_eq_false, nat_of_N_of_ascii. lia.
Qed.

Lemma spaceLen_ascii7 c s : ascii7 c = true → spaceLen (String c s) = if space1 c then 1%nat else 0%nat.
Proof.
  unfold ascii7. rewrite bool_decide_eq_true, nat_of_N_of_ascii. intros Hc. cbn -[space1 space2 space3].
  destruct (space1 c); [done|]. destruct s as [|c1 s]; [done|].
  replace (space2 c c1) with false
    by (symmetry; unfold space2; apply bool_decide_eq_false; lia).
  destruct s as [|c2 s]; [done|].
  replace (space3 c c1 c2) with false; [done|].
  symmetry; unfold space3; apply bool_decide_eq_false; lia.
Qed.

Lemma stringForall_app p s t : stringForall p (s +:+ t) = stringForall p s && stringForall p t.
Proof. induction s as [|c s IH]; [done|]. rewrite string_app_cons. cbn. by rewrite IH, andb_assoc. Qed.

Lemma stringForall_impl (p q : ascii → bool) s :
  (∀ c, p c = true → q c = true) → stringForall p s = true → stringForall q s = true.
Proof.
  intros Hpq. induction s as [|c s IH]; [done|]. cbn. rewrite !andb_true_iff. intros [? ?]. auto.
Qed.

Lemma allSpaceFrom_ascii7 s :
  stringForall ascii7 s = true → allSpaceFrom 0 s = stringForall space1 s.
Proof.
  induction s as [|c s IH]; [done|]. cbn -[spaceLen space1]. intros [Hc Hs]%andb_true_iff.
  rewrite spaceLen_ascii7 by done. destruct (space1 c); [by apply IH|done].
Qed.

(** A text that ends in a graphic character keeps its end. *)
Lemma trimRightSpace_graphic s t :
  stringForall ascii7 s = true → t ≠ "" → stringForall graphic t = true → trimRightSpace (s +:+ t) = s +:+ t.
Proof.
  intros Hs Hne Ht. induction s as [|c s IH].
  - rewrite string_app_nil. clear Hs Hne. induction t as [|d t IHt]; [done|].
    cbn in Ht. apply andb_true_iff in Ht as [Hd Ht]. cbn -[allSpaceFrom].
    rewrite allSpaceFrom_ascii7
      by (cbn; rewrite graphic_ascii7 by done; by apply (stringForall_impl _ _ _ graphic_ascii7)).
    cbn -[space1]. rewrite graphic_space1 by done. cbn. f_equal. by apply IHt.
  - cbn in Hs. apply andb_true_iff in Hs as [Hc Hs]. rewrite string_app_cons. cbn -[allSpaceFrom].
    rewrite allSpaceFrom_ascii7; cycle 1.
    { cbn. rewrite Hc, stringForall_app, Hs. by apply (stringForall_impl _ _ _ graphic_ascii7). }
    cbn -[space1]. rewrite stringForall_app.
    replace (stringForall space1 t) with false; [by rewrite !andb_false_r, IH|].
    destruct t as [|d t]; [done|]. cbn in Ht |- *. apply andb_true_iff in Ht as [Hd _].
    by rewrite graphic_space1.
Qed.

Lemma TrimSpace_graphic c s t :
  graphic c = true → stringForall ascii7 s = true → t ≠ "" → stringForall graphic t = true →
  TrimSpace (String c s +:+ t) = String c s +:+ t.
Proof.
  intros Hc Hs Hne Ht. unfold TrimSpace. rewrite trimLeftFrom_id.
  - apply trimRightSpace_graphic; [|done..]. cbn. by rewrite graphic_ascii7.
  - right. rewrite string_app_cons, spaceLen_ascii7 by by apply graphic_ascii7. by rewrite graphic_space1.
Qed.

Lemma TrimSpace_graphic_all t : stringForall graphic t = true → TrimSpace t = t.
Proof.
  destruct t as [|c t]; [done|]. cbn [stringForall]. intros [Hc Ht]%andb_true_iff. unfold TrimSpace.
  rewrite trimLeftFrom_id by (right; rewrite spaceLen_ascii7 by (by apply graphic_ascii7); by rewrite graphic_space1).
  change (String c t) with ("" +:+ String c t). apply trimRightSpace_graphic; [done..|]. cbn [stringForall]. by rewrite Hc, Ht.
Qed.

(** A white-space rune does not reach past an ASCII byte. *)
Lemma spaceLen_before s c t :
  ascii7 c = true → s ≠ "" → (spaceLen (s +:+ String c t) ≤ String.length s)%nat.
Proof.
  unfold ascii7. rewrite bool_decide_eq_true, nat_of_N_of_ascii. intros Hc Hne.
  assert (∀ x, space2 x c = false) as H2 by (intros x; unfold space2; apply bool_decide_eq_false; lia).
  assert (∀ x y, space3 x y c = false) as H3 by (intros x y; unfold space3; apply bool_decide_eq_false; lia).
  assert (∀ x y, space3 x c y = false) as H3' by (intros x y; unfold space3; apply bool_decide_eq_false; lia).
  destruct s as [|c0 [|c1 [|c2 s]]]; [done|..]; rewrite ?string_app_cons, ?string_app_nil; unfold spaceLen;
    rewrite ?H2, ?H3, ?H3'; repeat case_match; cbn [String.length]; simplify_eq; try lia;
    rewrite ?H2, ?H3, ?H3' in *; done.
Qed.

Lemma allSpaceFrom_graphic skip s c t :
  graphic c = true → (skip ≤ String.length s)%nat → allSpaceFrom skip (s +:+ String c t) = false.
Proof.
  intros Hc. revert skip. induction s as [|d s IH]; intros skip Hl.
  - cbn in Hl. assert (skip = 0%nat) as -> by lia. rewrite string_app_nil. cbn -[spaceLen].
    rewrite spaceLen_ascii7 by (by apply graphic_ascii7). by rewrite graphic_space1.
  - rewrite string_app_cons. destruct skip as [|k]; cbn -[spaceLen] in *; [|apply IH; lia].
    pose proof (spaceLen_before (String d s) c t (graphic_ascii7 _ Hc) ltac:(done)) as Hb.
    rewrite string_app_cons in Hb. cbn [String.length] in Hb.
    destruct (spaceLen _) as [|k]; [done|]. apply IH. lia.
Qed.

Lemma trimRightSpace_snoc s c : graphic c = true → trimRightSpace (s +:+ String c "") = s +:+ String c "".
Proof.
  intros Hc. induction s as [|d s IH].
  - rewrite string_app_nil. cbn -[allSpaceFrom].
    change (String c "") with ("" +:+ String c ""). by rewrite allSpaceFrom_graphic by (done || cbn; lia).
  - rewrite string_app_cons. cbn -[allSpaceFrom]. rewrite <-string_app_cons.
    rewrite allSpaceFrom_graphic by (done || lia). by rewrite IH.
Qed.

Lemma trimRightBy_app cut s c t :
  cut c = false → stringForall cut t = true → trimRightBy cut (s +:+ String c t) = s +:+ String c "".
Proof.
  intros Hc Ht. induction s as [|d s IH].
  - rewrite !string_app_nil. cbn. rewrite Hc. cbn. f_equal. destruct t; [done|]. cbn in *. by rewrite Ht.
  - rewrite !string_app_cons. cbn. rewrite stringForall_app. cbn. rewrite Hc, andb_false_r, andb_false_r. by rewrite IH.
Qed.

Lemma HasSuffix_app s p : HasSuffix (s +:+ p) p = true.
Proof.
  unfold HasSuffix. rewrite string_length_app, Nat.add_sub, dropBytes_app.
  by rewrite !bool_decide_eq_true_2 by (done || lia).
Qed.

Lemma concat_snoc_app l x y : String.concat "/" (l ++ [x +:+ y]) = String.concat "/" (l ++ [x]) +:+ y.
Proof.
  induction l as [|z l IH]; [done|]. destruct l as [|w l].
  - change (z +:+ String "/" (x +:+ y) = (z +:+ String "/" x) +:+ y).
    by rewrite <-string_app_assoc, string_app_cons.
  - change (z +:+ String "/" (String.concat "/" ((w :: l) ++ [x +:+ y])) =
      (z +:+ String "/" (String.concat "/" ((w :: l) ++ [x]))) +:+ y).
    by rewrite IH, <-string_app_assoc, string_app_cons.
Qed.

Example trim_both : TrimSpace "  a b	 " = "a b" ∧ Fields " a  b,c " = ["a"; "b,c"].
Proof. vm_compute. auto. Qed.

Example split_comma : splitChar "," "a,,b" = ["a"; ""; "b"] ∧ trimChar "/" "//x/y/" = "x/y".
Proof. vm_compute. auto. Qed.

Lemma string_app_inj_len s s' t t' :
  String.length t = String.length t' → s +:+ t = s' +:+ t' → s = s' ∧ t = t'.
Proof.
  intros Hlen. revert s'. induction s as [|c s IH]; intros [|c' s'] Heq.
  - by rewrite !string_app_nil in Heq.
  - apply (f_equal String.length) in Heq. rewrite string_app_nil, string_length_app in Heq. simpl in Heq. lia.
  - apply (f_equal String.length) in Heq. rewrite string_app_nil, string_length_app in Heq. simpl in Heq. lia.
  - rewrite !string_app_cons in Heq. injection Heq as -> Heq. apply IH in Heq as [-> ->]. done.
Qed.

Lemma dropBytes_app_len s t : dropBytes (String.length (s +:+ t) - String.length t) (s +:+ t) = t.
Proof.
  rewrite string_length_app. replace (String.length s + String.length t - String.length t)%nat with (String.length s) by lia.
  apply dropBytes_app.
Qed.
