(* ===== verification/GoCalendar.v ===== *)
(** * GoCalendar: dates of [time.Time] and their text

    [Year], [Month], [Day] and [Hour] of a time in UTC, the layouts "2006-01-02"
    and "2006-01-02-15" of [Format], and the fact the program relies on: the text
    of an earlier hour or day is the smaller string.  Times count nanoseconds
    from the first of January of the year 1; the text is that of Go up to the
    year 9999. *)
From S2P Require Import Prelude GoStrings.

Definition Day : Duration := 24 * Hour.

(** ** The date of a day number *)

Definition n400 (d : Z) : Z := d / 146097.
Definition r400 (d : Z) : Z := d mod 146097.
Definition n100 (d : Z) : Z := Z.min (r400 d / 36524) 3.
Definition r100 (d : Z) : Z := r400 d - 36524 * n100 d.
Definition n4 (d : Z) : Z := r100 d / 1461.
Definition r4 (d : Z) : Z := r100 d mod 1461.
Definition n1 (d : Z) : Z := Z.min (r4 d / 365) 3.

Definition yearOf (d : Z) : Z := 400 * n400 d + 100 * n100 d + 4 * n4 d + n1 d + 1.
Definition yearDay (d : Z) : Z := r4 d - 365 * n1 d.

Definition isLeap (y : Z) : bool :=
  bool_decide (y mod 4 = 0 ∧ (y mod 100 ≠ 0 ∨ y mod 400 = 0)).

Definition monthLengths (leap : bool) : list Z :=
  [31; if leap then 29 else 28; 31; 30; 31; 30; 31; 31; 30; 31; 30; 31].

(** Month and day of the month, counting from one. *)
Fixpoint monthDay (month : Z) (lengths : list Z) (yday : Z) : Z * Z :=
  match lengths with
  | [] => (month, yday + 1)
  | n :: ns => if decide (yday < n) then (month, yday + 1) else monthDay (month + 1) ns (yday - n)
  end.

Definition dateOf (d : Z) : Z * Z := monthDay 1 (monthLengths (isLeap (yearOf d))) (yearDay d).

(** ** Text *)

Definition digit (z : Z) : ascii := ascii_of_N (48 + Z.to_N z).

(** The last [n] decimal digits. *)
Fixpoint pad (n : nat) (z : Z) : string :=
  match n with
  | O => ""
  | S n' => pad n' (z / 10) +:+ String (digit (z mod 10)) ""
  end.

(** Layout "2006-01-02". *)
Definition formatDay (t : Time) : string :=
  let d := t / Day in
  pad 4 (yearOf d) +:+ "-" +:+ pad 2 (dateOf d).1 +:+ "-" +:+ pad 2 (dateOf d).2.

(** Layout "2006-01-02-15". *)
Definition formatHour (t : Time) : string := formatDay t +:+ "-" +:+ pad 2 (t mod Day / Hour).

Example format_examples :
  formatHour (63844797600 * Second) = "2024-02-29-10" ∧ formatDay 0 = "0001-01-01" ∧
  formatDay (Day * 730484) = "2000-12-31" ∧ formatDay (Day * 730485) = "2001-01-01" ∧
  formatDay (Day * 36524) = "0101-01-01".
Proof. vm_compute. split_and!; reflexivity. Qed.

(** ** Comparing texts *)

Lemma compare_app s1 s2 t1 t2 :
  String.length s1 = String.length s2 →
  String.compare (s1 +:+ t1) (s2 +:+ t2) =
  match String.compare s1 s2 with Eq => String.compare t1 t2 | c => c end.
Proof.
  revert s2. induction s1 as [|c1 s1 IH]; intros [|c2 s2] Hlen; try done.
  rewrite !string_app_cons. simpl. destruct (Ascii.compare c1 c2); try done. apply IH. by injection Hlen.
Qed.

Lemma pad_length n z : String.length (pad n z) = n.
Proof. revert z. induction n as [|n IH]; intros z; [done|]. simpl. rewrite string_length_app, IH. simpl. lia. Qed.

Lemma digit_compare a b : 0 <= a < 10 → 0 <= b < 10 → Ascii.compare (digit a) (digit b) = (a ?= b).
Proof.
  intros Ha Hb. unfold Ascii.compare, digit. rewrite !N_ascii_embedding by lia.
  destruct (Z.compare_spec a b); [apply N.compare_eq_iff|apply N.compare_lt_iff|apply N.compare_gt_iff]; lia.
Qed.

Lemma pad_compare n a b :
  0 <= a < 10 ^ Z.of_nat n → 0 <= b < 10 ^ Z.of_nat n → String.compare (pad n a) (pad n b) = (a ?= b).
Proof.
  revert a b. induction n as [|n IH]; intros a b Ha Hb; [replace a with b by (simpl in *; lia); by rewrite Z.compare_refl|].
  rewrite Nat2Z.inj_succ, Z.pow_succ_r in Ha, Hb by lia. cbn [pad].
  pose proof (Z.mod_pos_bound a 10 ltac:(lia)). pose proof (Z.mod_pos_bound b 10 ltac:(lia)).
  pose proof (Z.div_mod a 10 ltac:(lia)). pose proof (Z.div_mod b 10 ltac:(lia)).
  rewrite compare_app, IH by (rewrite ?pad_length; try done; lia).
  simpl. rewrite digit_compare by done.
  destruct (Z.compare_spec (a / 10) (b / 10)) as [E| |]; destruct (Z.compare_spec (a mod 10) (b mod 10));
    symmetry; first [apply Z.compare_eq_iff; lia | apply Z.compare_lt_iff; lia | apply Z.compare_gt_iff; lia].
Qed.

(** ** Order *)

(** Lexicographic order of lists of fields of one length. *)
Fixpoint lexLt (xs ys : list Z) : Prop :=
  match xs, ys with
  | x :: xs, y :: ys => x < y ∨ (x = y ∧ lexLt xs ys)
  | _, _ => False
  end.

Lemma yearDay_bounds d : 0 <= d → 0 <= n100 d <= 3 ∧ 0 <= n4 d <= 24 ∧ 0 <= n1 d <= 3 ∧ 0 <= yearDay d <= 365.
Proof.
  intros Hd. unfold yearDay, n1, r4, n4, r100, n100, r400.
  pose proof (Z.mod_pos_bound d 146097 ltac:(lia)). set (x := d mod 146097) in *. clearbody x.
  assert (0 <= x - 36524 * Z.min (x / 36524) 3 <= 36524) as Hr by (Z.to_euclidean_division_equations; lia).
  assert (0 <= Z.min (x / 36524) 3 <= 3) by (Z.to_euclidean_division_equations; lia).
  set (r := x - 36524 * Z.min (x / 36524) 3) in *. clearbody r.
  Z.to_euclidean_division_equations; lia.
Qed.

Lemma year_lex d d' : 0 <= d < d' → lexLt [yearOf d; yearDay d] [yearOf d'; yearDay d'].
Proof.
  intros Hd. destruct (yearDay_bounds d ltac:(lia)) as (Hb1 & Hb2 & Hb3 & _).
  destruct (yearDay_bounds d' ltac:(lia)) as (Hb1' & Hb2' & Hb3' & _).
  assert (n400 d < n400 d' ∨ n400 d = n400 d' ∧ r400 d < r400 d') as H4
    by (unfold n400, r400; Z.to_euclidean_division_equations; lia).
  assert (r400 d < r400 d' → n100 d < n100 d' ∨ n100 d = n100 d' ∧ r100 d < r100 d') as H3
    by (unfold n100, r100, n100; intros; Z.to_euclidean_division_equations; lia).
  assert (r100 d < r100 d' → n4 d < n4 d' ∨ n4 d = n4 d' ∧ r4 d < r4 d') as H2
    by (unfold n4, r4; intros; Z.to_euclidean_division_equations; lia).
  assert (r4 d < r4 d' → n1 d < n1 d' ∨ n1 d = n1 d' ∧ yearDay d < yearDay d') as H1
    by (unfold yearDay, n1; intros; Z.to_euclidean_division_equations; lia).
  unfold lexLt, yearOf. lia.
Qed.

Lemma monthDay_ge m ns y : m <= (monthDay m ns y).1.
Proof.
  revert m y. induction ns as [|n ns IH]; intros m y; simpl; [lia|]. case_decide; simpl; [lia|].
  specialize (IH (m + 1) (y - n)). lia.
Qed.

Lemma monthDay_lex m ns y y' :
  y < y' → lexLt [(monthDay m ns y).1; (monthDay m ns y).2] [(monthDay m ns y').1; (monthDay m ns y').2].
Proof.
  revert m y y'. induction ns as [|n ns IH]; intros m y y' Hy; [simpl; lia|]. cbn [monthDay].
  case_decide; case_decide; cbn [fst snd].
  - simpl. lia.
  - pose proof (monthDay_ge (m + 1) ns (y' - n)). simpl. lia.
  - lia.
  - apply IH. lia.
Qed.

Lemma dateOf_bounds d : 0 <= d → 0 <= (dateOf d).1 < 100 ∧ 0 <= (dateOf d).2 < 100.
Proof.
  intros Hd. destruct (yearDay_bounds d Hd) as (_ & _ & _ & Hy). unfold dateOf, monthLengths.
  destruct (isLeap (yearOf d)); cbn [monthDay]; repeat case_decide; cbn [fst snd]; lia.
Qed.

Lemma date_lex d d' :
  0 <= d < d' → lexLt [yearOf d; (dateOf d).1; (dateOf d).2] [yearOf d'; (dateOf d').1; (dateOf d').2].
Proof.
  intros Hd. destruct (year_lex d d' Hd) as [Hlt|[Heq [Hlt|[]]]]; [by left| |tauto].
  right. split; [done|]. unfold dateOf. rewrite Heq. by apply monthDay_lex.
Qed.

(** The first day of the year 10000. *)
Definition endOfYears : Z := 3652059.

Lemma yearOf_bounds d : 0 <= d < endOfYears → 0 <= yearOf d < 10000.
Proof.
  intros Hd. split.
  - destruct (yearDay_bounds d ltac:(lia)) as (? & ? & ? & _). unfold yearOf.
    assert (0 <= n400 d) by (apply Z.div_pos; lia). lia.
  - destruct (decide (d = endOfYears - 1)) as [->|]; [by vm_compute|].
    destruct (year_lex d (endOfYears - 1) ltac:(lia)) as [Hlt|[Heq _]].
    + change (yearOf (endOfYears - 1)) with 9999 in Hlt. lia.
    + rewrite Heq. by vm_compute.
Qed.

Definition inYears (t : Time) : Prop := 0 <= t < endOfYears * Day.

#[global] Instance inYears_dec t : Decision (inYears t).
Proof. unfold inYears. apply _. Defined.

Lemma formatDay_length t : String.length (formatDay t) = 10%nat.
Proof. unfold formatDay. by rewrite !string_length_app, !pad_length. Qed.

Lemma formatHour_length t : String.length (formatHour t) = 13%nat.
Proof. unfold formatHour. by rewrite !string_length_app, formatDay_length, pad_length. Qed.

Lemma formatDay_lt t t' :
  inYears t → inYears t' → t / Day < t' / Day → String.compare (formatDay t) (formatDay t') = Lt.
Proof.
  unfold inYears. intros Ht Ht' Hlt. assert (0 < Day) by done.
  assert (0 <= t / Day < endOfYears ∧ 0 <= t' / Day < endOfYears) as [Hb Hb'].
  { split; split; first [apply Z.div_pos; lia | apply Z.div_lt_upper_bound; lia]. }
  pose proof (date_lex (t / Day) (t' / Day) ltac:(lia)) as Hlex. simpl in Hlex.
  destruct (dateOf_bounds (t / Day) ltac:(lia)), (dateOf_bounds (t' / Day) ltac:(lia)).
  pose proof (yearOf_bounds _ Hb). pose proof (yearOf_bounds _ Hb').
  unfold formatDay. cbv zeta. rewrite !compare_app, !pad_compare by (rewrite ?string_length_app, ?pad_length; done).
  simpl. repeat (match goal with |- context [?a ?= ?b] => destruct (Z.compare_spec a b) end); try done; lia.
Qed.

Lemma compare_refl s : String.compare s s = Eq.
Proof. induction s as [|c s IH]; [done|]. simpl. unfold Ascii.compare. by rewrite N.compare_refl. Qed.

Lemma formatDay_eq t t' : t / Day = t' / Day → formatDay t = formatDay t'.
Proof. unfold formatDay. by intros ->. Qed.

Lemma hour_day t : t / Hour = 24 * (t / Day) + t mod Day / Hour ∧ 0 <= t mod Day / Hour < 24.
Proof. unfold Day. set (h := Hour). assert (0 < h) by done. clearbody h. Z.to_euclidean_division_equations. nia. Qed.

(** The text of an hour orders as the hour. *)
Lemma formatHour_compare t t' :
  inYears t → inYears t' → String.compare (formatHour t) (formatHour t') = (t / Hour ?= t' / Hour).
Proof.
  intros Ht Ht'. destruct (hour_day t) as [-> Hh], (hour_day t') as [-> Hh'].
  unfold formatHour. rewrite !compare_app by (by rewrite ?formatDay_length).
  rewrite pad_compare by (simpl; lia). change (String.compare "-" "-") with Eq. cbv iota.
  destruct (Z.lt_trichotomy (t / Day) (t' / Day)) as [Hlt|[Heq|Hgt]].
  - rewrite formatDay_lt by done. symmetry. apply Z.compare_lt_iff. lia.
  - rewrite (formatDay_eq t t') by done. rewrite compare_refl, Heq.
    destruct (Z.compare_spec (t mod Day / Hour) (t' mod Day / Hour)); symmetry;
      [apply Z.compare_eq_iff|apply Z.compare_lt_iff|apply Z.compare_gt_iff]; lia.
  - rewrite String.compare_antisym, formatDay_lt by done. simpl. symmetry. apply Z.compare_gt_iff. lia.
Qed.

Lemma formatDay_compare t t' :
  inYears t → inYears t' → String.compare (formatDay t) (formatDay t') = (t / Day ?= t' / Day).
Proof.
  intros Ht Ht'. destruct (Z.compare_spec (t / Day) (t' / Day)) as [Heq|Hlt|Hgt].
  - rewrite (formatDay_eq t t') by done. apply compare_refl.
  - by apply formatDay_lt.
  - by rewrite String.compare_antisym, formatDay_lt.
Qed.

Lemma compare_le s s' : String.compare s s' ≠ Gt ↔ String.le s s'.
Proof. unfold String.le, String.leb. destruct (String.compare s s'); simpl; split; try done; intros Hg; by destruct Hg. Qed.

Lemma formatHour_le t t' : inYears t → inYears t' → String.le (formatHour t) (formatHour t') ↔ t / Hour <= t' / Hour.
Proof. intros. rewrite <-compare_le, formatHour_compare by done. apply Z.compare_le_iff. Qed.

Lemma formatDay_le t t' : inYears t → inYears t' → String.le (formatDay t) (formatDay t') ↔ t / Day <= t' / Day.
Proof. intros. rewrite <-compare_le, formatDay_compare by done. apply Z.compare_le_iff. Qed.

(** ** RFC 3339 *)

(** Layout "2006-01-02T15:04:05Z07:00" of a time in UTC. *)
Definition formatRFC3339 (t : Time) : string :=
  formatDay t +:+ "T" +:+ pad 2 (t mod Day / Hour) +:+ ":" +:+ pad 2 (t mod Hour / Minute) +:+ ":" +:+
  pad 2 (t mod Minute / Second) +:+ "Z".

Example formatRFC3339_example : formatRFC3339 (63844799345 * Second + 7) = "2024-02-29T10:29:05Z".
Proof. vm_compute. reflexivity. Qed.

Lemma div_unit n h t : 0 < n → 0 < h → t / h = n * (t / (n * h)) + t mod (n * h) / h ∧ 0 <= t mod (n * h) / h < n.
Proof. intros Hn Hh. Z.to_euclidean_division_equations. nia. Qed.

Lemma second_day t :
  t / Second = 86400 * (t / Day) + 3600 * (t mod Day / Hour) + 60 * (t mod Hour / Minute) + t mod Minute / Second ∧
  0 <= t mod Day / Hour < 24 ∧ 0 <= t mod Hour / Minute < 60 ∧ 0 <= t mod Minute / Second < 60.
Proof.
  destruct (div_unit 24 Hour t) as [Hd ?], (div_unit 60 Minute t) as [Hh ?], (div_unit 60 Second t) as [Hm ?]; try done.
  change (60 * Minute) with Hour in *. change (60 * Second) with Minute in *. change (24 * Hour) with Day in *. lia.
Qed.

(** The text of a time orders as its seconds. *)
Lemma formatRFC3339_compare t t' :
  inYears t → inYears t' → String.compare (formatRFC3339 t) (formatRFC3339 t') = (t / Second ?= t' / Second).
Proof.
  intros Ht Ht'. destruct (second_day t) as (-> & Hh & Hm & Hs), (second_day t') as (-> & Hh' & Hm' & Hs').
  unfold formatRFC3339. rewrite !compare_app by (by rewrite ?formatDay_length, ?pad_length).
  rewrite !pad_compare by (simpl; lia). change (String.compare "T" "T") with Eq. change (String.compare ":" ":") with Eq.
  change (String.compare "Z" "Z") with Eq. cbv iota. rewrite formatDay_compare by done.
  repeat (match goal with |- context [match ?a ?= ?b with _ => _ end] => destruct (Z.compare_spec a b) end);
    symmetry; first [apply Z.compare_eq_iff; lia | apply Z.compare_lt_iff; lia | apply Z.compare_gt_iff; lia].
Qed.
