(* ===== verification/GoRegexp.v ===== *)
(** * GoRegexp: what the program uses of package regexp

    Patterns are a small syntax; [results] lists the ways a pattern matches at a
    position, in the order of preference of Go (leftmost-first: the alternatives
    in the order written, a greedy repetition as long as possible, a lazy one as
    short as possible), so that its first element is what the package answers.
    [Match] is the meaning of a pattern without an order; [results_exact] says
    that the two agree.

    A text is a list of bytes.  The classes of the program's patterns that hold
    any byte above 127 hold them all and are followed by an ASCII byte or by the
    end of the repetition, so matching bytes and matching runes agree.  No pattern
    of the program repeats a part that can be empty, or can match the empty text
    where all matches are collected. *)
From S2P Require Import Prelude GoStrings.

Inductive re :=
  | Lit (p : ascii → bool)
  | Eps
  | Cat (a b : re)
  | Alt (a b : re)
  | Star (greedy : bool) (a : re)
  | Cap (n : nat) (a : re)
  | WordB
  | BeginText
  | EndText.

(** A position: the byte before it, the text after it and the groups captured. *)
Record Pos := { before : option ascii; after : string; caps : list (nat * string) }.

Definition wordChar (c : ascii) : bool :=
  let n := nat_of_ascii c in bool_decide ((48 ≤ n ≤ 57) ∨ (65 ≤ n ≤ 90) ∨ n = 95 ∨ (97 ≤ n ≤ 122))%nat.

Definition wordAt (c : option ascii) : bool := if c is Some c then wordChar c else false.

Definition headByte (s : string) : option ascii := if s is String c _ then Some c else None.

Definition atBoundary (p : Pos) : bool := xorb (wordAt (before p)) (wordAt (headByte (after p))).

Definition left_ (p : Pos) : nat := String.length (after p).

Definition captured (p q : Pos) : string := takeBytes (left_ p - left_ q) (after p).

Definition closeGroup (n : nat) (p q : Pos) : Pos :=
  {| before := before q; after := after q; caps := (n, captured p q) :: caps q |}.

Fixpoint starResults (f : Pos → list Pos) (greedy : bool) (fuel : nat) (p : Pos) : list Pos :=
  match fuel with
  | O => [p]
  | S fuel =>
    let more := flat_map (starResults f greedy fuel) (filter (λ q, left_ q < left_ p)%nat (f p)) in
    if greedy then more ++ [p] else p :: more
  end.

Fixpoint results (r : re) (p : Pos) : list Pos :=
  match r with
  | Lit t =>
    match after p with
    | String c s => if t c then [{| before := Some c; after := s; caps := caps p |}] else []
    | "" => []
    end
  | Eps => [p]
  | Cat a b => flat_map (results b) (results a p)
  | Alt a b => results a p ++ results b p
  | Star greedy a => starResults (results a) greedy (left_ p) p
  | Cap n a => closeGroup n p <$> results a p
  | WordB => if atBoundary p then [p] else []
  | BeginText => if before p then [] else [p]
  | EndText => if bool_decide (after p = "") then [p] else []
  end.

(** ** Derived forms *)

Definition Plus (a : re) : re := Cat a (Star true a).
Definition Opt (a : re) : re := Alt a Eps.

Fixpoint Times (n : nat) (a : re) : re :=
  match n with O => Eps | 1%nat => a | S n => Cat a (Times n a) end.

(** Up to [n] more, as many as possible. *)
Fixpoint UpTo (n : nat) (a : re) : re :=
  match n with O => Eps | S n => Alt (Cat a (UpTo n a)) Eps end.

Definition Between (n m : nat) (a : re) : re := Cat (Times n a) (UpTo (m - n) a).
Definition AtLeast (n : nat) (a : re) : re := Cat (Times n a) (Star true a).

Definition chr (c : ascii) : re := Lit (λ x, bool_decide (x = c)).

Fixpoint word (s : string) : re :=
  match s with "" => Eps | String c "" => chr c | String c s => Cat (chr c) (word s) end.

Definition inRange (a b : ascii) (c : ascii) : bool :=
  bool_decide (nat_of_ascii a ≤ nat_of_ascii c ≤ nat_of_ascii b)%nat.

Definition digit (c : ascii) : bool := inRange "0" "9" c.
Definition alpha (c : ascii) : bool := inRange "a" "z" c || inRange "A" "Z" c.
Definition alnum (c : ascii) : bool := alpha c || digit c.
Definition anyByte (c : ascii) : bool := true.
Definition newline : ascii := ascii_of_nat 10.
Definition notNewline (c : ascii) : bool := negb (bool_decide (c = newline)).
(** The class [\s]. *)
Definition spaceClass (c : ascii) : bool := bool_decide (nat_of_ascii c ∈ [9; 10; 12; 13; 32])%nat.

(** ** Searching *)

Definition first (r : re) (p : Pos) : option Pos := head (results r p).

(** [MatchString]. *)
Fixpoint matchFrom (r : re) (prev : option ascii) (s : string) : bool :=
  match first r {| before := prev; after := s; caps := [] |} with
  | Some _ => true
  | None => match s with "" => false | String c s => matchFrom r (Some c) s end
  end.

Definition MatchString (r : re) (s : string) : bool := matchFrom r None s.

(** A text cut into the bytes between the matches and the matches, each with where
    it starts and its groups. *)
Inductive Seg := Raw (c : ascii) | Hit (start : nat) (text : string) (groups : list (nat * string)).

Fixpoint segments (r : re) (prev : option ascii) (pos skip : nat) (s : string) : list Seg :=
  match s with
  | "" => []
  | String c s' =>
    match skip with
    | S k => segments r (Some c) (S pos) k s'
    | O =>
      match first r {| before := prev; after := s; caps := [] |} with
      | Some q =>
        match (String.length s - left_ q)%nat with
        | O => Raw c :: segments r (Some c) (S pos) 0 s'
        | S k => Hit pos (takeBytes (S k) s) (caps q) :: segments r (Some c) (S pos) k s'
        end
      | None => Raw c :: segments r (Some c) (S pos) 0 s'
      end
    end
  end.

Definition allSegments (r : re) (s : string) : list Seg := segments r None 0 0 s.

(** [FindAllStringIndex]. *)
Definition hitSpan (g : Seg) : option (nat * nat) :=
  if g is Hit pos t _ then Some (pos, (pos + String.length t)%nat) else None.

Definition FindAllStringIndex (r : re) (s : string) : list (nat * nat) := omap hitSpan (allSegments r s).

(** [ReplaceAllStringFunc], the function given the groups too. *)
Fixpoint render (repl : string → list (nat * string) → string) (gs : list Seg) : string :=
  match gs with
  | [] => ""
  | Raw c :: gs => String c (render repl gs)
  | Hit _ t g :: gs => repl t g +:+ render repl gs
  end.

Definition ReplaceAll (r : re) (repl : string → list (nat * string) → string) (s : string) : string :=
  render repl (allSegments r s).

(** The last text a group captured. *)
Definition groupOf (n : nat) (g : list (nat * string)) : string :=
  default "" (snd <$> List.find (λ kv, bool_decide (kv.1 = n)) g).

(** ** The meaning of a pattern *)

Inductive Match : re → Pos → Pos → Prop :=
  | MLit t c s p : after p = String c s → t c = true → Match (Lit t) p {| before := Some c; after := s; caps := caps p |}
  | MEps p : Match Eps p p
  | MCat a b p q q' : Match a p q → Match b q q' → Match (Cat a b) p q'
  | MAltL a b p q : Match a p q → Match (Alt a b) p q
  | MAltR a b p q : Match b p q → Match (Alt a b) p q
  | MStarEnd g a p : Match (Star g a) p p
  | MStarMore g a p q q' : Match a p q → (left_ q < left_ p)%nat → Match (Star g a) q q' → Match (Star g a) p q'
  | MCap n a p q : Match a p q → Match (Cap n a) p (closeGroup n p q)
  | MWordB p : atBoundary p = true → Match WordB p p
  | MBegin p : before p = None → Match BeginText p p
  | MEnd p : after p = "" → Match EndText p p.

#[export] Hint Constructors Match : regexp.

Lemma starResults_sound a g fuel p q :
  (∀ p q, q ∈ results a p → Match a p q) →
  q ∈ starResults (results a) g fuel p → Match (Star g a) p q.
Proof.
  intros IH. revert p. induction fuel as [|fuel IHf]; intros p; simpl.
  { rewrite list_elem_of_singleton. intros ->. constructor. }
  assert (Hmore : q ∈ flat_map (starResults (results a) g fuel) (filter (λ q, left_ q < left_ p)%nat (results a p)) →
                  Match (Star g a) p q).
  { rewrite list_elem_of_In, in_flat_map. intros (x & Hx & Hq).
    rewrite <- !list_elem_of_In in *. apply list_elem_of_filter in Hx as [Hl Hx]. eauto with regexp. }
  destruct g; [rewrite elem_of_app, list_elem_of_singleton|rewrite elem_of_cons];
    intros [H | H]; subst; auto with regexp.
Qed.

Lemma starResults_complete a g p q :
  (∀ p q, Match a p q → q ∈ results a p) →
  Match (Star g a) p q → ∀ fuel, (left_ p ≤ fuel)%nat → q ∈ starResults (results a) g fuel p.
Proof.
  intros IH HM. remember (Star g a) as r eqn:Hr. induction HM as [| | | | |g' a' p|g' a' p q q' H1 _ Hl H2 IH2| | | |];
    simplify_eq; intros [|fuel] Hf; simpl.
  - set_solver.
  - destruct g; set_solver.
  - lia.
  - assert (q' ∈ flat_map (starResults (results a) g fuel) (filter (λ q, left_ q < left_ p)%nat (results a p))).
    { apply list_elem_of_In, in_flat_map. exists q. rewrite <- !list_elem_of_In. split.
      - apply list_elem_of_filter. auto.
      - apply IH2; [done|lia]. }
    destruct g; set_solver.
Qed.

Lemma results_sound r : ∀ p q, q ∈ results r p → Match r p q.
Proof.
  induction r as [t| |a IHa b IHb|a IHa b IHb|g a IHa|n a IHa| | |]; intros p q; simpl.
  - destruct (after p) as [|c s] eqn:E; [set_solver|]. destruct (t c) eqn:Et; [|set_solver].
    rewrite list_elem_of_singleton. intros ->. by constructor.
  - rewrite list_elem_of_singleton. intros ->. constructor.
  - rewrite list_elem_of_In, in_flat_map. intros (x & Hx & Hq). rewrite <- !list_elem_of_In in *. eauto with regexp.
  - rewrite elem_of_app. intros [?|?]; eauto with regexp.
  - by apply starResults_sound.
  - intros (q' & -> & Hq)%list_elem_of_fmap. auto with regexp.
  - destruct (atBoundary p) eqn:E; [|set_solver]. rewrite list_elem_of_singleton. intros ->. auto with regexp.
  - destruct (before p) eqn:E; [set_solver|]. rewrite list_elem_of_singleton. intros ->. auto with regexp.
  - case_bool_decide; [|set_solver]. rewrite list_elem_of_singleton. intros ->. auto with regexp.
Qed.

Lemma results_complete r : ∀ p q, Match r p q → q ∈ results r p.
Proof.
  induction r as [t| |a IHa b IHb|a IHa b IHb|g a IHa|n a IHa| | |]; intros p q HM; simpl.
  5: { by eapply starResults_complete. }
  all: inversion HM as [t' c s p' E Et| | | | | | | | | |]; simplify_eq.
  - rewrite E, Et. set_solver.
  - set_solver.
  - apply list_elem_of_In, in_flat_map. eexists. rewrite <- !list_elem_of_In. eauto.
  - set_solver.
  - set_solver.
  - apply list_elem_of_fmap. eauto.
  - case_match; [set_solver|congruence].
  - case_match; [congruence|set_solver].
  - rewrite bool_decide_true by done. set_solver.
Qed.

(** What the matcher lists is what the pattern means. *)
Lemma results_exact r p q : q ∈ results r p ↔ Match r p q.
Proof. split; [apply results_sound|apply results_complete]. Qed.

(** ** What a match consumes *)

Definition starts (p : Pos) (w : string) (q : Pos) : Prop := after p = w +:+ after q.

Lemma Match_suffix r p q : Match r p q → ∃ w, starts p w q.
Proof.
  unfold starts. induction 1 as [t c s p E Et|p|a b p q q' H1 [w1 E1] H2 [w2 E2]| | | |
                                 g a p q q' H1 [w1 E1] Hl H2 [w2 E2]|n a p q H1 [w1 E1]| | |]; eauto;
    try by exists "".
  - exists (String c ""). by rewrite E.
  - exists (w1 +:+ w2). by rewrite <- string_app_assoc, <- E2.
  - exists (w1 +:+ w2). by rewrite <- string_app_assoc, <- E2.
Qed.

Lemma takeBytes_length n s : (n ≤ String.length s)%nat → String.length (takeBytes n s) = n.
Proof. revert n. induction s as [|c s IH]; intros [|n] ?; simpl in *; try lia. rewrite IH; lia. Qed.

Lemma takeBytes_takeBytes n m s : (n ≤ m)%nat → takeBytes n (takeBytes m s) = takeBytes n s.
Proof. revert n m. induction s as [|c s IH]; intros [|n] [|m] ?; simpl; try done; try lia. f_equal. apply IH. lia. Qed.

Lemma takeBytes_all n s : (String.length s ≤ n)%nat → takeBytes n s = s.
Proof. revert n. induction s as [|c s IH]; intros [|n] ?; simpl in *; try done; try lia. f_equal. apply IH. lia. Qed.

Lemma take_drop_bytes n s : takeBytes n s +:+ dropBytes n s = s.
Proof. revert n. induction s as [|c s IH]; intros [|n]; simpl; try done. rewrite string_app_cons. by f_equal. Qed.

Lemma captured_starts p w q : starts p w q → captured p q = w.
Proof.
  unfold starts, captured, left_. intros ->. rewrite string_length_app.
  replace (String.length w + String.length (after q) - String.length (after q))%nat with (String.length w) by lia.
  apply takeBytes_app.
Qed.

Lemma captured_app p q : (∃ w, starts p w q) → captured p q +:+ after q = after p.
Proof. intros [w Hw]. rewrite (captured_starts _ _ _ Hw). done. Qed.

Lemma first_Match r p q : first r p = Some q → Match r p q.
Proof. intros H. apply results_exact. unfold first in H. destruct (results r p); simplify_eq. set_solver. Qed.

Lemma first_None r p : first r p = None → ∀ q, ¬ Match r p q.
Proof.
  intros H q HM%results_exact. unfold first in H. destruct (results r p); simplify_eq. set_solver.
Qed.

Lemma first_iff r p : is_Some (first r p) ↔ ∃ q, Match r p q.
Proof.
  split; [intros [q H]; eauto using first_Match|].
  intros [q H]. destruct (first r p) eqn:E; [eauto|]. by destruct (first_None _ _ E q).
Qed.

(** ** Searching loses nothing *)

Definition segText (g : Seg) : string := match g with Raw c => String c "" | Hit _ t _ => t end.

Fixpoint segTexts (gs : list Seg) : string :=
  match gs with [] => "" | g :: gs => segText g +:+ segTexts gs end.

Lemma segments_texts r s : ∀ prev pos skip, segTexts (segments r prev pos skip s) = dropBytes skip s.
Proof.
  induction s as [|c s IH]; intros prev pos [|skip]; simpl; try done.
  destruct (first r _) as [q|]; simpl; [|by rewrite IH; destruct s].
  destruct (S (String.length s) - left_ q)%nat as [|k]; simpl.
  - by rewrite IH; destruct s.
  - by rewrite IH, string_app_cons, take_drop_bytes.
Qed.

(** Replacing every match by itself gives the text back. *)
Lemma ReplaceAll_same r s : ReplaceAll r (λ t _, t) s = s.
Proof.
  unfold ReplaceAll, allSegments. transitivity (segTexts (segments r None 0 0 s)).
  - generalize (segments r None 0 0 s). intros gs. induction gs as [|[c|pos t g] gs IH]; simpl; rewrite ?IH; done.
  - rewrite segments_texts. by destruct s.
Qed.

(** ** Where the matches lie *)

Fixpoint lastByte (prev : option ascii) (s : string) : option ascii :=
  match s with "" => prev | String c s => lastByte (Some c) s end.

Definition hitAt (r : re) (prev : option ascii) (s : string) (pos skip : nat) (g : Seg) : Prop :=
  match g with
  | Raw _ => True
  | Hit at_ t groups => ∃ pre post q,
      s = pre +:+ t +:+ post ∧ at_ = (pos + String.length pre)%nat ∧ (skip ≤ String.length pre)%nat ∧ t ≠ "" ∧
      Match r {| before := lastByte prev pre; after := t +:+ post; caps := [] |} q ∧ after q = post ∧ groups = caps q
  end.

Lemma hitAt_cons r c s prev pos skip g :
  hitAt r (Some c) s (S pos) skip g → hitAt r prev (String c s) pos (S skip) g.
Proof.
  destruct g as [|a t groups]; [done|]. intros (pre & post & q & -> & -> & Hl & Ht & HM & Hq & Hg).
  exists (String c pre), post, q. simpl. rewrite ?string_app_cons. repeat split; auto; lia.
Qed.

Lemma hitAt_weaken r s prev pos skip skip' g : (skip' ≤ skip)%nat → hitAt r prev s pos skip g → hitAt r prev s pos skip' g.
Proof.
  intros Hle. destruct g as [|a t groups]; [done|]. intros (pre & post & q & -> & -> & Hl & Ht & HM & Hq & Hg).
  exists pre, post, q. repeat split; auto; lia.
Qed.

Lemma first_hit r prev s q : let p := {| before := prev; after := s; caps := [] |} in
  first r p = Some q → s = takeBytes (String.length s - left_ q) s +:+ after q ∧ Match r p q.
Proof.
  intros p HM%first_Match. split; [|done].
  pose proof (captured_app p q (Match_suffix _ _ _ HM)) as Hc. unfold captured, p, left_ in Hc. by simpl in Hc.
Qed.

Lemma segments_hits r s : ∀ prev pos skip, Forall (hitAt r prev s pos skip) (segments r prev pos skip s).
Proof.
  induction s as [|c s IH]; intros prev pos [|skip]; simpl; try done.
  - destruct (first r _) as [q|] eqn:E.
    + apply first_hit in E as [Hs HM]. simpl in Hs.
      destruct (S (String.length s) - left_ q)%nat as [|k] eqn:Ek; constructor; simpl; try done.
      * eapply Forall_impl; [apply (IH (Some c) (S pos) 0%nat)|]. intros g Hg%(hitAt_cons _ _ _ prev).
        eapply hitAt_weaken; [|done]. lia.
      * exists "", (after q), q. simpl. simpl in Hs.
        rewrite string_app_nil. rewrite <- Hs. repeat split; auto; lia.
      * eapply Forall_impl; [apply (IH (Some c) (S pos) k)|]. intros g Hg%(hitAt_cons _ _ _ prev).
        eapply hitAt_weaken; [|done]. lia.
    + constructor; [done|]. eapply Forall_impl; [apply (IH (Some c) (S pos) 0%nat)|].
      intros g Hg%(hitAt_cons _ _ _ prev). eapply hitAt_weaken; [|done]. lia.
  - eapply Forall_impl; [apply (IH (Some c) (S pos) skip)|]. intros g Hg. by apply hitAt_cons.
Qed.

Definition spanWithin (lo hi : nat) (x : nat * nat) : Prop := (lo ≤ x.1 ∧ x.1 < x.2 ∧ x.2 ≤ hi)%nat.

Lemma hitAt_span r prev s pos skip g x :
  hitAt r prev s pos skip g → hitSpan g = Some x → spanWithin (pos + skip) (pos + String.length s) x.
Proof.
  destruct g as [|a t groups]; [done|]. intros (pre & post & q & -> & -> & Hl & Ht & _) [= <-].
  unfold spanWithin. simpl. rewrite !string_length_app. destruct t; [done|]. simpl. lia.
Qed.

(** The spans found start after one another ends. *)
Definition apart (x y : nat * nat) : Prop := (x.2 ≤ y.1)%nat.

Lemma segments_spans r s : ∀ prev pos skip,
  Forall (spanWithin (pos + skip) (pos + String.length s)) (omap hitSpan (segments r prev pos skip s)).
Proof.
  intros prev pos skip. apply Forall_forall. intros x (g & Hg & Hx)%list_elem_of_omap.
  eapply hitAt_span; [|exact Hx]. pose proof (segments_hits r s prev pos skip) as Hh.
  rewrite Forall_forall in Hh. by apply Hh.
Qed.

Lemma segments_apart r s : ∀ prev pos skip, StronglySorted apart (omap hitSpan (segments r prev pos skip s)).
Proof.
  induction s as [|c s IH]; intros prev pos [|skip]; simpl; try by constructor.
  2: by apply IH.
  destruct (first r _) as [q|] eqn:E; [|by apply IH].
  destruct (S (String.length s) - left_ q)%nat as [|k] eqn:Ek; simpl; [by apply IH|].
  constructor; [apply IH|].
  eapply Forall_impl; [apply segments_spans|]. intros [a b] (H1 & H2 & H3). unfold apart; simpl in *.
  rewrite takeBytes_length by lia. lia.
Qed.

Lemma FindAllStringIndex_within r s : Forall (spanWithin 0 (String.length s)) (FindAllStringIndex r s).
Proof. apply (segments_spans r s None 0 0). Qed.

Lemma FindAllStringIndex_apart r s : StronglySorted apart (FindAllStringIndex r s).
Proof. apply segments_apart. Qed.

(** ** Anchored classes *)

(** A pattern [^...$] of counted classes reads a whole text: the meaning on texts of
    patterns without captures. *)
Definition atStart (s : string) : Pos := {| before := None; after := s; caps := [] |}.

Lemma matchFrom_anchored r s prev : prev ≠ None → matchFrom (Cat BeginText r) prev s = false.
Proof.
  revert prev. induction s as [|c s IH]; intros [x|] H; try done; simpl; try done. by apply IH.
Qed.

Lemma MatchString_anchored r s :
  MatchString (Cat BeginText r) s = true ↔ ∃ q, Match r (atStart s) q.
Proof.
  unfold MatchString. rewrite <- first_iff.
  assert (Hf : first (Cat BeginText r) (atStart s) = first r (atStart s)).
  { unfold first. simpl. by rewrite app_nil_r. }
  assert (Hm : matchFrom (Cat BeginText r) None s = bool_decide (is_Some (first r (atStart s)))).
  { rewrite <- Hf. destruct s as [|c s]; cbn [matchFrom].
    - fold (atStart ""). by destruct (first _ (atStart "")).
    - fold (atStart (String c s)). destruct (first _ (atStart (String c s))); [done|].
      by rewrite matchFrom_anchored. }
  by rewrite Hm, bool_decide_eq_true.
Qed.

(** A run of bytes of a class read between two positions. *)
Definition Reads (t : ascii → bool) (w : string) (p q : Pos) : Prop :=
  starts p w q ∧ stringForall t w = true ∧ before q = lastByte (before p) w ∧ caps q = caps p.

Lemma lastByte_app prev a b : lastByte prev (a +:+ b) = lastByte (lastByte prev a) b.
Proof. revert prev. induction a as [|c a IH]; intros prev; [done|]. rewrite string_app_cons. apply IH. Qed.

Lemma Reads_nil t p q : Reads t "" p q ↔ p = q.
Proof.
  unfold Reads, starts. destruct p, q; simpl. rewrite ?string_app_nil. split; [|naive_solver].
  intros (-> & _ & -> & ->). done.
Qed.

Lemma Reads_app t a b p q q' : Reads t a p q → Reads t b q q' → Reads t (a +:+ b) p q'.
Proof.
  unfold Reads, starts. intros (H1 & H2 & H3 & H4) (J1 & J2 & J3 & J4).
  rewrite H1, J1, string_app_assoc, stringForall_app, H2, J2, lastByte_app, <- H3. repeat split; congruence.
Qed.

(** The position after reading [w]. *)
Definition advance (w : string) (p : Pos) : Pos :=
  {| before := lastByte (before p) w; after := dropBytes (String.length w) (after p); caps := caps p |}.

Lemma Reads_split t a b p q : Reads t (a +:+ b) p q → Reads t a p (advance a p) ∧ Reads t b (advance a p) q.
Proof.
  unfold Reads, starts. rewrite stringForall_app, andb_true_iff, lastByte_app, <- string_app_assoc.
  intros (H1 & [H2 H2'] & H3 & H4). simpl. rewrite H1, dropBytes_app. auto.
Qed.

Lemma Match_Lit t p q : Match (Lit t) p q ↔ ∃ c, Reads t (String c "") p q.
Proof.
  split.
  - inversion 1 as [? c s ? E Et| | | | | | | | | |]; simplify_eq. exists c.
    unfold Reads, starts. simpl. by rewrite E, Et.
  - intros (c & H1 & H2 & H3 & H4). unfold starts in H1. simpl in *. rewrite string_app_cons in H1.
    destruct q as [qb qa qc]; simpl in *. subst. constructor; [done|]. by rewrite andb_true_r in H2.
Qed.

Lemma Match_Cat a b p q : Match (Cat a b) p q ↔ ∃ x, Match a p x ∧ Match b x q.
Proof. split; [inversion 1; eauto|]. intros (x & ? & ?). eauto with regexp. Qed.

Lemma Match_Alt a b p q : Match (Alt a b) p q ↔ Match a p q ∨ Match b p q.
Proof. split; [inversion 1; eauto|]. intros [?|?]; eauto with regexp. Qed.

Lemma Match_Eps p q : Match Eps p q ↔ p = q.
Proof. split; [by inversion 1|]. intros ->. constructor. Qed.

Lemma Match_EndText p q : Match EndText p q ↔ p = q ∧ after p = "".
Proof. split; [by inversion 1|]. intros [-> ?]. by constructor. Qed.

Lemma string_split_at (w : string) n : (n ≤ String.length w)%nat → ∃ a b, w = a +:+ b ∧ String.length a = n.
Proof. intros ?. exists (takeBytes n w), (dropBytes n w). by rewrite take_drop_bytes, takeBytes_length. Qed.

Lemma Match_more t n r p q (R : nat → Prop) :
  (∀ p q, Match r p q ↔ ∃ w, R (String.length w) ∧ Reads t w p q) → R n →
  Match (Cat (Lit t) r) p q ↔ ∃ w, (∃ k, String.length w = S k ∧ R k) ∧ Reads t w p q.
Proof.
  intros Hr HR. rewrite Match_Cat. setoid_rewrite Match_Lit. setoid_rewrite Hr. split.
  - intros (x & (c & H1) & w & H2 & H3). exists (String c w). split; [simpl; eauto|].
    change (String c w) with (String c "" +:+ w). eapply Reads_app; eauto.
  - intros (w & (k & Hl & Hk) & HR'). destruct w as [|c w]; [done|]. simpl in Hl. simplify_eq.
    change (String c w) with (String c "" +:+ w) in HR'. apply Reads_split in HR' as [H1 H2]. eauto 10.
Qed.

Lemma Match_Times t n p q : Match (Times n (Lit t)) p q ↔ ∃ w, String.length w = n ∧ Reads t w p q.
Proof.
  revert p q. induction n as [|n IH]; intros p q; simpl.
  - rewrite Match_Eps. split.
    + intros ->. exists "". by rewrite Reads_nil.
    + intros ([|] & ? & H); [by apply (Reads_nil t)|done].
  - destruct n as [|n].
    + rewrite Match_Lit. split.
      * intros (c & H). by exists (String c "").
      * intros ([|c [|]] & ? & H); try done. eauto.
    + rewrite (Match_more t (S n) _ _ _ (λ k, k = S n)) by (done || apply IH).
      split; intros (w & H & HR); exists w; split; try done; naive_solver.
Qed.

Lemma Match_UpTo t n p q : Match (UpTo n (Lit t)) p q ↔ ∃ w, (String.length w ≤ n)%nat ∧ Reads t w p q.
Proof.
  revert p q. induction n as [|n IH]; intros p q; simpl.
  - rewrite Match_Eps. split.
    + intros ->. exists "". by rewrite Reads_nil.
    + intros ([|] & H & ?); simpl in H; [by apply (Reads_nil t)|lia].
  - rewrite Match_Alt, (Match_more t n _ _ _ (λ k, k ≤ n)%nat), Match_Eps by (done || apply IH). split.
    + intros [(w & (k & Hl & Hk) & H)| ->]; [exists w; split; [lia|done]|]. exists "". rewrite Reads_nil. split; [simpl; lia|done].
    + intros ([|c w] & Hl & H); [right; by apply (Reads_nil t)|]. left. exists (String c w). simpl in *. split; [|done].
      exists (String.length w). split; [done|lia].
Qed.

Lemma Match_Between t n m p q : (n ≤ m)%nat →
  Match (Between n m (Lit t)) p q ↔ ∃ w, (n ≤ String.length w ≤ m)%nat ∧ Reads t w p q.
Proof.
  intros Hle. unfold Between. rewrite Match_Cat. setoid_rewrite Match_Times. setoid_rewrite Match_UpTo. split.
  - intros (x & (w1 & L1 & H1) & w2 & L2 & H2). exists (w1 +:+ w2). rewrite string_length_app.
    split; [lia|]. by eapply Reads_app.
  - intros (w & Hl & H). destruct (string_split_at w n ltac:(lia)) as (a & b & -> & Ha).
    rewrite string_length_app in Hl. apply Reads_split in H as [H1 H2]. exists (advance a p).
    split; [eauto|]. exists b. split; [lia|done].
Qed.

Lemma Match_word s p q : Match (word s) p q ↔ starts p s q ∧ before q = lastByte (before p) s ∧ caps q = caps p.
Proof.
  revert p q. induction s as [|c s IH]; intros p q; cbn [word].
  - rewrite Match_Eps. pose proof (Reads_nil (λ _, true) p q) as Hn. unfold Reads in Hn. naive_solver.
  - assert (Hc : ∀ q, Match (chr c) p q ↔ starts p (String c "") q ∧ before q = Some c ∧ caps q = caps p).
    { intros x. unfold chr. rewrite Match_Lit. unfold Reads. simpl. split.
      - intros (c' & H1 & H2 & H3 & H4). rewrite andb_true_r in H2. apply bool_decide_eq_true in H2. by subst.
      - intros (H1 & H2 & H3). exists c. by rewrite bool_decide_true. }
    destruct s as [|d s].
    + rewrite Hc. done.
    + change (Match (Cat (chr c) (word (String d s))) p q ↔ starts p (String c (String d s)) q
               ∧ before q = lastByte (Some c) (String d s) ∧ caps q = caps p).
      rewrite Match_Cat. setoid_rewrite Hc. setoid_rewrite IH. unfold starts. split.
      * intros (x & (-> & -> & ->) & -> & H2 & H3). rewrite !string_app_cons, string_app_nil. auto.
      * intros (H1 & H2 & H3). exists {| before := Some c; after := String d s +:+ after q; caps := caps p |}.
        simpl. rewrite H1, !string_app_cons, string_app_nil. auto.
Qed.
