(* ===== verification/Types.v ===== *)
(** * The API types shared by the orchestrator, the executor and the stores

    Records of internal/types/stacka.go, with the source's field names (a
    suffix is added where a name is taken).  Timestamps are RFC 3339 strings,
    as in the source. *)
From S2P Require Import Prelude GoTime.

Record RunInput := { InputType : string; InputText : string }.

Record RunOptions := { Priority : string; TimeoutMs : Z; MaxSteps : Z; StreamEvents : bool }.

Record RunOutput := {
  OutputType : string; OutputText : string; Artifacts : list (list (string * any))
}.

Record RunError := { ErrCode : string; ErrMessage : string; ErrDetails : list (string * any) }.

Record Run := {
  TenantID : string;
  AgentID : string;
  RunID : string;
  RStatus : string;
  RCreatedAt : string;
  StartedAt : string;
  CompletedAt : string;
  EventsURL : string;
  Input : RunInput;
  Options : RunOptions;
  Output : option RunOutput;
  Error_ : option RunError;
  IdempotencyKey : string;
  RetryOf : string;
  ParentRunID : string
}.

(** The zero value of the struct. *)
Definition zeroRun : Run := {|
  TenantID := ""; AgentID := ""; RunID := ""; RStatus := ""; RCreatedAt := ""; StartedAt := "";
  CompletedAt := ""; EventsURL := ""; Input := {| InputType := ""; InputText := "" |};
  Options := {| Priority := ""; TimeoutMs := 0; MaxSteps := 0; StreamEvents := false |};
  Output := None; Error_ := None; IdempotencyKey := ""; RetryOf := ""; ParentRunID := ""
|}.

Record Event := {
  EventID : string;
  Sequence : Z;
  ETime : string;
  EType : string;
  ETenantID : string;
  EAgentID : string;
  ERunID : string;
  StepID : string;
  Traceparent : string;
  Payload : list (string * any)
}.
