(* ===== verification/RunStore.v ===== *)
(** * The file-backed run store (internal/storage/file_run_store.go)

    Runs are kept in a map by their storage key, with an access order that
    drives the eviction above [maxRunsInRunStore], and every write rewrites one
    JSON file through a temporary file and a rename.  The file is modelled by
    what a reader of it would find; a write either replaces it or, when one of
    the file-system calls fails, leaves it alone.  The iteration order of the
    map and the sort are arguments (classes [RunRange] and [SliceSort]).

    The abstract store is a list of entries in order of last use, cut to its
    most recent [maxRunsInRunStore] entries. *)
From S2P Require Import Prelude GoTime GoPath Types.

Inductive StoreError := ErrContext | ErrRunExists | ErrInvalidRun | ErrRead | ErrDecode | ErrPersist.

#[global] Instance StoreError_eq_dec : EqDecision StoreError.
Proof. solve_decision. Defined.

(** What [os.ReadFile] and [json.Unmarshal] find at the store's path. *)
Inductive RunFile :=
  | FileMissing
  | FileUnreadable
  | FileEmpty
  | FileGarbled
  | FileRuns (persisted : gmap string Run).

Definition maxRunsInRunStore : Z := 5000.

Record fileRunStore := {
  file : RunFile;
  runs : gmap string Run;
  runOrder : list string
}.

Class RunRange := run_range : gmap string Run → list (string * Run).

(** ** Operations *)

Definition validateRun (run : Run) : option StoreError :=
  if decide (TenantID run = "" ∨ RunID run = "") then Some ErrInvalidRun else None.

Definition storageKey (tenantID runID : string) : string :=
  Join ["tenant"; tenantID; "runs"; runID].

(** The first occurrence of the key is cut out, and the key appended. *)
Fixpoint cutFirst (key : string) (order : list string) : list string :=
  match order with
  | [] => []
  | k :: order' => if decide (k = key) then order' else k :: cutFirst key order'
  end.

Definition touchOrderLocked (key : string) (s : fileRunStore) : fileRunStore :=
  {| file := file s; runs := runs s; runOrder := cutFirst key (runOrder s) ++ [key] |}.

(** The loop consumes the access order, so it is structural on it. *)
Fixpoint evictLoop (rs : gmap string Run) (order : list string) : gmap string Run * list string :=
  match order with
  | [] => (rs, [])
  | oldest :: order' =>
      if bool_decide (Z.of_nat (size rs) > maxRunsInRunStore) then evictLoop (delete oldest rs) order'
      else (rs, order)
  end.

Definition evictLocked (s : fileRunStore) : fileRunStore :=
  let '(rs, order) := evictLoop (runs s) (runOrder s) in
  {| file := file s; runs := rs; runOrder := order |}.

(** [fault] says that one of the calls that write the file fails. *)
Definition persistLocked (fault : bool) (s : fileRunStore) : option StoreError * fileRunStore :=
  if fault then (Some ErrPersist, s)
  else (None, {| file := FileRuns (runs s); runs := runs s; runOrder := runOrder s |}).

Definition load `{RunRange} (f : RunFile) : StoreError + fileRunStore :=
  match f with
  | FileMissing | FileEmpty => inr {| file := f; runs := ∅; runOrder := [] |}
  | FileUnreadable => inl ErrRead
  | FileGarbled => inl ErrDecode
  | FileRuns persisted =>
      inr (evictLocked {| file := f; runs := persisted; runOrder := (run_range persisted).*1 |})
  end.

Definition NewFileRunStore `{RunRange} (f : RunFile) : StoreError + fileRunStore := load f.

Definition setRun (key : string) (run : Run) (s : fileRunStore) : fileRunStore :=
  {| file := file s; runs := <[key := run]> (runs s); runOrder := runOrder s |}.

(** The common tail of Create and Save. *)
Definition putRun (fault : bool) (key : string) (run : Run) (s : fileRunStore)
    : option StoreError * fileRunStore :=
  persistLocked fault (evictLocked (touchOrderLocked key (setRun key run s))).

(** [cancelled] says whether the caller's context is already done. *)
Definition Create (cancelled fault : bool) (run : Run) (s : fileRunStore)
    : option StoreError * fileRunStore :=
  if cancelled then (Some ErrContext, s)
  else match validateRun run with
       | Some e => (Some e, s)
       | None =>
           let key := storageKey (TenantID run) (RunID run) in
           match runs s !! key with
           | Some _ => (Some ErrRunExists, s)
           | None => putRun fault key run s
           end
       end.

Definition Save (cancelled fault : bool) (run : Run) (s : fileRunStore)
    : option StoreError * fileRunStore :=
  if cancelled then (Some ErrContext, s)
  else match validateRun run with
       | Some e => (Some e, s)
       | None => putRun fault (storageKey (TenantID run) (RunID run)) run s
       end.

Definition Get (cancelled : bool) (tenantID runID : string) (s : fileRunStore)
    : (StoreError + option Run) * fileRunStore :=
  if cancelled then (inl ErrContext, s)
  else if decide (tenantID = "" ∨ runID = "") then (inr None, s)
  else
    let key := storageKey tenantID runID in
    match runs s !! key with
    | Some run => (inr (Some run), touchOrderLocked key s)
    | None => (inr None, s)
    end.

Section queries.
Context `{RunRange} `{SliceSort}.

Definition GetByIdempotencyKey (cancelled : bool) (tenantID idempotencyKey : string) (s : fileRunStore)
    : StoreError + option Run :=
  if cancelled then inl ErrContext
  else if decide (tenantID = "" ∨ idempotencyKey = "") then inr None
  else inr ((λ kr, kr.2.2) <$>
    list_find (λ kr, TenantID kr.2 = tenantID ∧ IdempotencyKey kr.2 = idempotencyKey) (run_range (runs s))).

(** Newest first, by the creation timestamp. *)
Definition newer (a b : Run) : Prop := String.le (RCreatedAt b) (RCreatedAt a).

#[global] Instance newer_dec a b : Decision (newer a b).
Proof. unfold newer. apply _. Defined.

Definition List_ (cancelled : bool) (tenantID : string) (s : fileRunStore) : StoreError + list Run :=
  if cancelled then inl ErrContext
  else if decide (tenantID = "") then inr []
  else inr (sortSlice newer (filter (λ r, TenantID r = tenantID) (run_range (runs s)).*2)).

Definition clampLimit (limit : Z) : Z :=
  let limit := if bool_decide (limit <= 0) then 50 else limit in
  if bool_decide (limit > 200) then 200 else limit.

(** The runs after the cursor, or nothing when the cursor is unknown. *)
Definition afterCursor (afterRunID : string) (rs : list Run) : option (list Run) :=
  if decide (afterRunID = "") then Some rs
  else match list_find (λ r, RunID r = afterRunID) rs with
       | Some (idx, _) => Some (drop (idx + 1) rs)
       | None => None
       end.

Definition ListByAgent (cancelled : bool) (tenantID agentID : string) (limit : Z) (afterRunID : string)
    (s : fileRunStore) : StoreError + list Run :=
  if cancelled then inl ErrContext
  else if decide (tenantID = "" ∨ agentID = "") then inr []
  else
    let rs := sortSlice newer
      (filter (λ r, TenantID r = tenantID ∧ AgentID r = agentID) (run_range (runs s)).*2) in
    match afterCursor afterRunID rs with
    | None => inr []
    | Some rs => inr (take (Z.to_nat (clampLimit limit)) rs)
    end.

Definition ListChildRuns (cancelled : bool) (tenantID parentRunID : string) (s : fileRunStore)
    : StoreError + list Run :=
  if cancelled then inl ErrContext
  else if decide (tenantID = "" ∨ parentRunID = "") then inr []
  else inr (filter (λ r, TenantID r = tenantID ∧ (RetryOf r = parentRunID ∨ ParentRunID r = parentRunID))
              (run_range (runs s)).*2).

End queries.

(** ** The abstract store: entries in order of last use *)

Abbreviation entries := (list (string * Run)).

Definition without (key : string) (l : entries) : entries := filter (λ kv, kv.1 ≠ key) l.

Definition mostRecent (l : entries) : entries := drop (length l - Z.to_nat maxRunsInRunStore) l.

Definition lruPut (key : string) (run : Run) (l : entries) : entries :=
  mostRecent (without key l ++ [(key, run)]).

Inductive StoreOp :=
  | SCreate (cancelled fault : bool) (run : Run)
  | SSave (cancelled fault : bool) (run : Run)
  | SGet (cancelled : bool) (tenantID runID : string).

Definition storeStep (op : StoreOp) (s : fileRunStore) : (StoreError + option Run) * fileRunStore :=
  let written r := (from_option inl (inr None) r.1, r.2) in
  match op with
  | SCreate c f run => written (Create c f run s)
  | SSave c f run => written (Save c f run s)
  | SGet c t r => Get c t r s
  end.

(** The abstract answers do not depend on the access order at all. *)
Definition lruStep (op : StoreOp) (l : entries) : (StoreError + option Run) * entries :=
  let find_ key : option Run := list_to_map (M := gmap string Run) l !! key in
  let put (fault : bool) run := (if fault then inl ErrPersist else inr None,
    lruPut (storageKey (TenantID run) (RunID run)) run l) in
  match op with
  | SCreate true _ _ | SSave true _ _ | SGet true _ _ => (inl ErrContext, l)
  | SCreate false f run =>
      if validateRun run then (inl ErrInvalidRun, l)
      else if find_ (storageKey (TenantID run) (RunID run)) then (inl ErrRunExists, l)
      else put f run
  | SSave false f run => if validateRun run then (inl ErrInvalidRun, l) else put f run
  | SGet false t r =>
      if decide (t = "" ∨ r = "") then (inr None, l)
      else match find_ (storageKey t r) with
           | Some run => (inr (Some run), without (storageKey t r) l ++ [(storageKey t r, run)])
           | None => (inr None, l)
           end
  end.

Definition lruLoad `{RunRange} (f : RunFile) : entries :=
  match f with FileRuns persisted => mostRecent (run_range persisted) | _ => [] end.

(** The map and the access order of the store are the two faces of one list. *)
Record lruRel (s : fileRunStore) (l : entries) : Prop := {
  rel_order : runOrder s = l.*1;
  rel_runs : runs s = list_to_map l;
  rel_nodup : NoDup l.*1
}.

Lemma without_notin key l : key ∉ l.*1 → without key l = l.
Proof.
  intros Hk. apply filter_all, Forall_forall. intros [k r] Hin E. simpl in E. subst k.
  apply Hk, list_elem_of_fmap. by exists (key, r).
Qed.

Lemma without_fst key l : NoDup l.*1 → cutFirst key l.*1 = (without key l).*1.
Proof.
  induction l as [|[k r] l IH]; [done|]. simpl. intros [Hk Hnd]%NoDup_cons.
  unfold without. rewrite filter_cons. simpl. case_decide as E.
  - subst k. rewrite decide_False by tauto. f_equal. symmetry. by apply without_notin.
  - rewrite decide_True by done. simpl. f_equal. by apply IH.
Qed.

Lemma without_map key l : list_to_map (without key l) =@{gmap string Run} delete key (list_to_map l).
Proof.
  unfold without. induction l as [|[k r] l IH]; simpl; [by rewrite delete_empty|].
  rewrite filter_cons. simpl. case_decide as E.
  - simpl. by rewrite delete_insert_ne, <-IH.
  - subst k. by rewrite delete_insert_eq.
Qed.

Lemma without_elem key l k : k ∈ (without key l).*1 ↔ k ≠ key ∧ k ∈ l.*1.
Proof. unfold without. rewrite !list_elem_of_fmap. setoid_rewrite list_elem_of_filter. naive_solver. Qed.

Lemma without_nodup key l run : NoDup l.*1 → NoDup (without key l ++ [(key, run)]).*1.
Proof.
  intros Hnd. rewrite fmap_app. apply NoDup_app. split_and!.
  - induction l as [|[k r] l IH]; [done|]. apply NoDup_cons in Hnd as [Hk Hnd].
    unfold without. rewrite filter_cons. case_decide; [|by apply IH]. simpl. apply NoDup_cons.
    split; [|by apply IH]. intros Hin%without_elem. tauto.
  - intros k Hk%without_elem. simpl. rewrite list_elem_of_singleton. tauto.
  - apply NoDup_singleton.
Qed.

(** Using or writing an entry moves it to the end. *)
Lemma lruRel_touch s l key run :
  lruRel s l → lruRel (touchOrderLocked key (setRun key run s)) (without key l ++ [(key, run)]).
Proof.
  intros [Ho Hr Hnd]. split; simpl.
  - by rewrite Ho, without_fst, fmap_app.
  - rewrite Hr. rewrite (list_to_map_proper (without key l ++ [(key, run)]) ((key, run) :: without key l)).
    + simpl. by rewrite without_map, insert_delete_eq.
    + by apply without_nodup.
    + by rewrite Permutation_app_comm.
  - by apply without_nodup.
Qed.

Lemma size_list_to_map_nodup (l : entries) : NoDup l.*1 → size (list_to_map l : gmap string Run) = length l.
Proof. intros Hnd. by rewrite <-length_map_to_list, map_to_list_to_map. Qed.

Lemma evictLoop_mostRecent l :
  NoDup l.*1 → evictLoop (list_to_map l) l.*1 = (list_to_map (mostRecent l), (mostRecent l).*1).
Proof.
  unfold mostRecent. induction l as [|[k r] l IH]; [done|].
  intros Hnd. pose proof Hnd as [Hk Hnd']%NoDup_cons. cbn [fmap list_fmap evictLoop].
  rewrite (size_list_to_map_nodup ((k, r) :: l)) by done. case_bool_decide as Hsz.
  - simpl list_to_map at 1. rewrite delete_insert_eq, delete_id by by apply not_elem_of_list_to_map_1.
    rewrite IH by done.
    replace (length ((k, r) :: l) - Z.to_nat maxRunsInRunStore)%nat
      with (S (length l - Z.to_nat maxRunsInRunStore)) by (simpl length in *; lia). done.
  - replace (length ((k, r) :: l) - Z.to_nat maxRunsInRunStore)%nat with 0%nat by lia. done.
Qed.

Lemma lruRel_evict s l : lruRel s l → lruRel (evictLocked s) (mostRecent l).
Proof.
  intros [Ho Hr Hnd]. unfold evictLocked. rewrite Hr, Ho, evictLoop_mostRecent by done.
  split; simpl; try done. unfold mostRecent. rewrite fmap_drop. eapply sublist_NoDup; [exact Hnd|apply sublist_drop].
Qed.

Lemma lruRel_put fault s l key run :
  lruRel s l → lruRel (putRun fault key run s).2 (lruPut key run l).
Proof.
  intros Hrel%(lruRel_touch _ _ key run)%lruRel_evict. unfold putRun, persistLocked.
  destruct fault; [done|]. by destruct Hrel.
Qed.

Lemma touch_same s key run : runs s !! key = Some run → setRun key run s = s.
Proof. intros Hk. unfold setRun. rewrite insert_id by done. by destruct s. Qed.

Lemma storeStep_sim op s l :
  lruRel s l → (storeStep op s).1 = (lruStep op l).1 ∧ lruRel (storeStep op s).2 (lruStep op l).2.
Proof.
  intros Hrel. pose proof (rel_runs _ _ Hrel) as Hr.
  destruct op as [[] f run|[] f run|[] t r]; simpl; try done.
  - unfold Create. destruct (validateRun run) eqn:Ev; simpl.
    { unfold validateRun in Ev. case_decide; by simplify_eq. }
    rewrite Hr. destruct (list_to_map l !! _); simpl; [done|].
    split; [by destruct f|by apply lruRel_put].
  - unfold Save. destruct (validateRun run) eqn:Ev; simpl.
    { unfold validateRun in Ev. case_decide; by simplify_eq. }
    split; [by destruct f|by apply lruRel_put].
  - unfold Get. case_decide; [done|]. rewrite Hr. destruct (list_to_map l !! _) as [run|] eqn:E; [|done].
    split; [done|]. simpl. rewrite <-(touch_same s (storageKey t r) run) by by rewrite Hr. by apply lruRel_touch.
Qed.

Lemma load_rel `{RunRange} `{!GoRange run_range} f s : load f = inr s → lruRel s (lruLoad f).
Proof.
  destruct f as [| | | |m]; simpl; intros [= <-]; try (by split; [..|constructor]).
  apply (lruRel_evict _ (run_range m)). split; simpl; [done| |by apply NoDup_range_fst].
  by rewrite list_to_map_range.
Qed.

(** ** Consequences on the abstract store *)

Abbreviation keyOf run := (storageKey (TenantID run) (RunID run)).

(** The key an operation may write. *)
Definition opKey (op : StoreOp) : option string :=
  match op with
  | SCreate _ _ run | SSave _ _ run => Some (keyOf run)
  | SGet _ _ _ => None
  end.

Definition opFault (op : StoreOp) : bool :=
  match op with SCreate _ f _ | SSave _ f _ => f | SGet _ _ _ => false end.

(** The entry is present with at most [n] entries used after it. *)
Definition recentWithin (n : nat) (key : string) (run : Run) (l : entries) : Prop :=
  ∃ l1 l2, l = l1 ++ (key, run) :: l2 ∧ (length l2 ≤ n)%nat.

Lemma recentWithin_weaken n key run l : recentWithin n key run l → recentWithin (S n) key run l.
Proof. intros (l1 & l2 & -> & ?). exists l1, l2. split; [done|lia]. Qed.

Lemma recentWithin_touch n key run k r l :
  k ≠ key → recentWithin n key run l → recentWithin (S n) key run (without k l ++ [(k, r)]).
Proof.
  intros Hk (l1 & l2 & -> & Hn). exists (without k l1), (without k l2 ++ [(k, r)]). split.
  - unfold without. rewrite filter_app, filter_cons_True by done. by rewrite <-app_assoc.
  - rewrite length_app. simpl. pose proof (length_filter_le (λ kv : string * Run, kv.1 ≠ k) l2).
    unfold without. lia.
Qed.

Lemma recentWithin_mostRecent n key run l :
  (n < Z.to_nat maxRunsInRunStore)%nat → recentWithin n key run l → recentWithin n key run (mostRecent l).
Proof.
  intros Hn (l1 & l2 & -> & Hl). unfold mostRecent. rewrite length_app. simpl length.
  exists (drop (length l1 + S (length l2) - Z.to_nat maxRunsInRunStore) l1), l2. split; [|done].
  rewrite drop_app_le by lia. done.
Qed.

Lemma recentWithin_step n key run op l :
  opKey op ≠ Some key → (S n < Z.to_nat maxRunsInRunStore)%nat →
  NoDup l.*1 → recentWithin n key run l → recentWithin (S n) key run (lruStep op l).2.
Proof.
  intros Hop Hn Hnd Hl. pose proof (recentWithin_weaken _ _ _ _ Hl).
  assert (∀ run', keyOf run' ≠ key → recentWithin (S n) key run (lruPut (keyOf run') run' l)) as Hput.
  { intros run' ?. apply recentWithin_mostRecent; [done|]. by apply recentWithin_touch. }
  destruct op as [[] f run'|[] f run'|[] t r]; simpl; try done.
  - destruct (validateRun run'); [done|]. destruct (list_to_map l !! _); [done|]. apply Hput. naive_solver.
  - destruct (validateRun run'); [done|]. apply Hput. naive_solver.
  - case_decide; [done|]. destruct (list_to_map l !! _) as [run'|] eqn:E; [|done]. simpl.
    destruct (decide (storageKey t r = key)) as [<-|]; [|by apply recentWithin_touch].
    destruct Hl as (l1 & l2 & -> & _).
    rewrite (elem_of_list_to_map_1 _ _ run) in E by (done || set_solver). simplify_eq.
    exists (without (storageKey t r) (l1 ++ (storageKey t r, run') :: l2)), []. split; [done|simpl; lia].
Qed.

Lemma trace_lruStep_recent ops n key run s l :
  (∀ op, op ∈ ops → opKey op ≠ Some key) → (n + length ops < Z.to_nat maxRunsInRunStore)%nat →
  lruRel s l → recentWithin n key run l →
  runs (trace storeStep s ops).2 !! key = Some run.
Proof.
  revert n s l. induction ops as [|op ops IH]; intros n s l Hops Hn Hrel Hl; simpl in *.
  - destruct Hrel as [_ -> Hnd], Hl as (l1 & l2 & -> & _).
    apply elem_of_list_to_map_1; [done|]. set_solver.
  - destruct (storeStep_sim op s l Hrel) as [_ Hrel'].
    assert (recentWithin (S n) key run (lruStep op l).2) as Hl'.
    { apply recentWithin_step; [apply Hops; left|lia|apply Hrel|done]. }
    destruct (storeStep op s) as [a s1]. simpl in *.
    specialize (IH (S n) s1 _ (λ op' Hop', Hops op' (list_elem_of_further _ _ _ Hop')) ltac:(lia) Hrel' Hl').
    by destruct (trace storeStep s1 ops).
Qed.

(** ** Durability *)

(** Without write faults the file always holds exactly the runs in memory. *)
Definition durable (s : fileRunStore) : Prop :=
  file s = FileRuns (runs s) ∨ (file s = FileMissing ∧ runs s = ∅).

Lemma durable_step op s : opFault op = false → durable s → durable (storeStep op s).2.
Proof.
  intros Hf Hd. destruct op as [[] f run|[] f run|[] t r]; simpl in *; subst; try done.
  - unfold Create. destruct (validateRun run); [done|]. destruct (runs s !! _); [done|]. by left.
  - unfold Save. destruct (validateRun run); [done|]. by left.
  - unfold Get. case_decide; [done|]. by destruct (runs s !! _).
Qed.

Lemma mostRecent_small l : (length l ≤ Z.to_nat maxRunsInRunStore)%nat → mostRecent l = l.
Proof. intros Hl. unfold mostRecent. by replace (length l - _)%nat with 0%nat by lia. Qed.

Definition emptyStore : fileRunStore := {| file := FileMissing; runs := ∅; runOrder := [] |}.

Lemma emptyStore_rel : lruRel emptyStore [].
Proof. split; [done..|constructor]. Qed.

Lemma lruStep_small op l :
  NoDup l.*1 → (length l ≤ Z.to_nat maxRunsInRunStore)%nat →
  (length (lruStep op l).2 ≤ Z.to_nat maxRunsInRunStore)%nat.
Proof.
  intros Hnd Hl.
  assert (∀ run, (length (lruPut (keyOf run) run l) ≤ Z.to_nat maxRunsInRunStore)%nat) as Hput.
  { intros run. unfold lruPut, mostRecent. rewrite length_drop. lia. }
  destruct op as [[] f run|[] f run|[] t r]; simpl; try done.
  - destruct (validateRun run); [done|]. destruct (list_to_map l !! _); [done|apply Hput].
  - destruct (validateRun run); [done|apply Hput].
  - case_decide; [done|]. destruct (list_to_map l !! _) as [run|] eqn:E; [|done]. simpl.
    rewrite length_app. simpl. apply elem_of_list_to_map_2 in E.
    pose proof (length_filter_lt (λ kv : string * Run, kv.1 ≠ storageKey t r) l _ E ltac:(simpl; tauto)).
    unfold without. lia.
Qed.

(** The abstract store that a history from scratch leads to. *)
Lemma trace_from_empty ops s l :
  lruRel s l → (length l ≤ Z.to_nat maxRunsInRunStore)%nat →
  let r := trace storeStep s ops in let r' := trace lruStep l ops in
  r.1 = r'.1 ∧ lruRel r.2 r'.2 ∧ (length r'.2 ≤ Z.to_nat maxRunsInRunStore)%nat.
Proof.
  intros Hrel Hl. apply (trace_sim storeStep lruStep
    (λ s l, lruRel s l ∧ (length l ≤ Z.to_nat maxRunsInRunStore)%nat) ops s l); [|done].
  intros op s' l' _ [Hrel' Hl']. destruct (storeStep_sim op s' l' Hrel') as [Ha Hr].
  split_and!; [done|done|]. apply lruStep_small; [apply Hrel'|done].
Qed.

Lemma restart_same `{RunRange} `{!GoRange run_range} s l :
  durable s → lruRel s l → (length l ≤ Z.to_nat maxRunsInRunStore)%nat →
  ∃ s', NewFileRunStore (file s) = inr s' ∧ runs s' = runs s.
Proof.
  intros [Hf|[Hf Hr]] Hrel Hl; rewrite Hf; simpl; [|by eexists; split].
  eexists. split; [done|].
  destruct (lruRel_evict {| file := FileRuns (runs s); runs := runs s; runOrder := (run_range (runs s)).*1 |}
    (run_range (runs s))) as [_ -> _].
  { split; simpl; [done| |by apply NoDup_range_fst].
    by rewrite list_to_map_range. }
  rewrite mostRecent_small.
  - by rewrite list_to_map_range.
  - rewrite (length_range run_range), (rel_runs _ _ Hrel), size_list_to_map_nodup by apply Hrel. done.
Qed.

(** Creating fresh runs appends their entries. *)
Lemma mostRecent_snoc l x : mostRecent (mostRecent l ++ [x]) = mostRecent (l ++ [x]).
Proof.
  assert (0 < Z.to_nat maxRunsInRunStore)%nat by (unfold maxRunsInRunStore; lia).
  unfold mostRecent. rewrite !length_app, length_drop. simpl.
  destruct (decide (length l ≤ Z.to_nat maxRunsInRunStore)%nat) as [Hl|Hl].
  - replace (length l - Z.to_nat maxRunsInRunStore)%nat with 0%nat by lia. by rewrite drop_0, Nat.sub_0_r.
  - rewrite !drop_app_le by (rewrite ?length_drop; lia). rewrite drop_drop. do 2 f_equal. lia.
Qed.

Lemma mostRecent_sub l k : k ∈ (mostRecent l).*1 → k ∈ l.*1.
Proof. unfold mostRecent. rewrite fmap_drop. intros [i Hi]%list_elem_of_lookup. rewrite lookup_drop in Hi. by eapply list_elem_of_lookup_2. Qed.

Lemma trace_creates rs done_ :
  Forall (λ r, validateRun r = None) rs → NoDup ((done_).*1 ++ ((λ r, keyOf r) <$> rs)) →
  trace lruStep (mostRecent done_) (SCreate false false <$> rs) =
  (replicate (length rs) (inr None), mostRecent (done_ ++ ((λ r, (keyOf r, r)) <$> rs))).
Proof.
  intros Hv. revert done_. induction Hv as [|r rs Hr Hv IH]; intros done_ Hnd; simpl.
  { by rewrite app_nil_r. }
  assert (keyOf r ∉ (mostRecent done_).*1) as Hk.
  { intros Hin%mostRecent_sub. apply NoDup_app in Hnd as (_ & Hnd & _). apply (Hnd _ Hin). left. }
  rewrite Hr. rewrite (not_elem_of_list_to_map_1 _ _ Hk). simpl.
  unfold lruPut. rewrite without_notin, mostRecent_snoc by done.
  rewrite IH; [by rewrite <-app_assoc|].
  rewrite fmap_app, <-app_assoc. done.
Qed.

(** ** Keys *)

(** Every entry is a valid run stored under its own key. *)
Definition keyed (s : fileRunStore) : Prop :=
  map_Forall (λ k r, k = keyOf r ∧ validateRun r = None) (runs s).

Lemma evictLoop_subseteq rs order : (evictLoop rs order).1 ⊆ rs.
Proof.
  revert rs. induction order as [|k order IH]; intros rs; simpl; [done|].
  case_bool_decide; [|done]. transitivity (delete k rs); [apply IH|apply delete_subseteq].
Qed.

Lemma runs_putRun fault key run s : runs (putRun fault key run s).2 ⊆ <[key := run]> (runs s).
Proof.
  unfold putRun, persistLocked, evictLocked. simpl.
  pose proof (evictLoop_subseteq (<[key := run]> (runs s)) (cutFirst key (runOrder s) ++ [key])).
  by destruct (evictLoop _ _), fault.
Qed.

Lemma keyed_step op s : keyed s → keyed (storeStep op s).2.
Proof.
  intros Hs.
  assert (∀ f run, validateRun run = None → keyed (putRun f (keyOf run) run s).2) as Hput.
  { intros f run Hv k r Hk. eapply lookup_weaken in Hk; [|apply runs_putRun].
    apply lookup_insert_Some in Hk as [[<- <-]|[_ Hk]]; [done|]. by apply Hs. }
  destruct op as [[] f run|[] f run|[] t r]; simpl; try done.
  - unfold Create. destruct (validateRun run) eqn:?; [done|]. destruct (runs s !! _); [done|]. by apply Hput.
  - unfold Save. destruct (validateRun run) eqn:?; [done|]. by apply Hput.
  - unfold Get. case_decide; [done|]. by destruct (runs s !! _).
Qed.

#[export] Hint Resolve keyed_step storeStep_sim emptyStore_rel : go.

Lemma keyed_history ops : keyed (trace storeStep emptyStore ops).2.
Proof. apply trace_invariant; [auto with go|]. apply map_Forall_empty. Qed.

Lemma storageKey_components t r :
  component t = true → component r = true → storageKey t r = String.concat "/" ["tenant"; t; "runs"; r].
Proof. intros Ht Hr. apply Join_components. repeat constructor; done. Qed.

Lemma storageKey_inj t r t' r' :
  component t = true → component r = true → component t' = true → component r' = true →
  storageKey t r = storageKey t' r' → t = t' ∧ r = r'.
Proof.
  intros Ht Hr Ht' Hr'. rewrite !storageKey_components by done. intros Heq%(f_equal splitSlash).
  rewrite !splitSlash_concat in Heq; [by simplify_eq|done| |done|];
    repeat constructor; try done; by eapply component_spec.
Qed.

(** ** Paging through an agent's runs *)

Lemma clampLimit_pos limit : 0 < clampLimit limit <= 200.
Proof. unfold clampLimit. go_solve. Qed.

Section paging.
Context `{SliceSort} `{!SliceSortLaws}.
Variables (tenant agent : string) (limit : Z) (s : fileRunStore).
Hypothesis tenant_nonempty : tenant ≠ "".
Hypothesis agent_nonempty : agent ≠ "".
Hypothesis s_keyed : keyed s.

Definition ofAgent (r : Run) : Prop := TenantID r = tenant ∧ AgentID r = agent.

#[local] Instance ofAgent_dec r : Decision (ofAgent r).
Proof. unfold ofAgent. apply _. Defined.

Definition agentRuns : list Run := filter ofAgent (map_to_list (runs s)).*2.

(** No two runs of the agent carry the same creation timestamp. *)
Definition distinctTimes : Prop := NoDup (RCreatedAt <$> agentRuns).

(** A client that follows the cursor; every call may see another map order. *)
Fixpoint pageAll (orders : list RunRange) (cursor : string) : list Run :=
  match orders with
  | [] => []
  | o :: orders' =>
      match @ListByAgent o _ false tenant agent limit cursor s with
      | inr page => match last page with
                    | Some r => page ++ pageAll orders' (RunID r)
                    | None => []
                    end
      | inl _ => []
      end
  end.

Lemma agentRuns_ids : NoDup (RunID <$> agentRuns).
Proof.
  apply (NoDup_fmap_1 (storageKey tenant)). rewrite <-list_fmap_compose.
  assert (∀ l : entries, (∀ kr, kr ∈ l → kr.1 = keyOf kr.2) → NoDup l.*1 →
    NoDup ((storageKey tenant ∘ RunID) <$> filter ofAgent l.*2)) as Haux.
  { induction l as [|[k r] l IH]; simpl; intros Hk Hnd; [constructor|].
    apply NoDup_cons in Hnd as [Hn Hnd].
    assert (NoDup ((storageKey tenant ∘ RunID) <$> filter ofAgent l.*2)) as IHl.
    { apply IH; [|done]. intros kr Hkr. apply Hk. by right. }
    rewrite filter_cons. case_decide as Hr; [|done]. simpl. constructor; [|done].
    intros (r' & Heq & [[Ht' _] (kr & -> & Hkr)%list_elem_of_fmap]%list_elem_of_filter)%list_elem_of_fmap.
    apply Hn, list_elem_of_fmap. exists kr. split; [|done].
    rewrite (Hk kr) by (by right). rewrite Ht'. simpl in Heq. rewrite <-Heq.
    specialize (Hk (k, r)). simpl in Hk. destruct Hr as [<- _]. apply Hk. left. }
  apply Haux; [|apply NoDup_fst_map_to_list]. intros [k r] Hkr%elem_of_map_to_list. by apply s_keyed.
Qed.

Lemma newer_trans : Transitive newer.
Proof. intros a b c Hab Hbc. unfold newer in *. by etrans. Qed.

Lemma newer_total : Total newer.
Proof. intros a b. unfold newer. apply (total String.le). Qed.

#[local] Existing Instances newer_trans newer_total.

Definition sortedRuns (o : RunRange) : list Run := sortSlice newer (filter ofAgent (@run_range o (runs s)).*2).

Lemma sortedRuns_perm (o : RunRange) `{!GoRange (@run_range o)} : sortedRuns o ≡ₚ agentRuns.
Proof. unfold sortedRuns, agentRuns. by rewrite sort_perm, (range_perm (rng := @run_range o)). Qed.

Lemma sortedRuns_unique (o1 o2 : RunRange) `{!GoRange (@run_range o1), !GoRange (@run_range o2)} :
  distinctTimes → sortedRuns o1 = sortedRuns o2.
Proof.
  intros Hd. apply (StronglySorted_unique_strong newer).
  - intros r1 r2. rewrite (sortedRuns_perm o1), (sortedRuns_perm o2). intros H1 H2 H12 H21. apply (NoDup_fmap_elem RCreatedAt _ _ _ Hd); [done..|].
    by apply (anti_symm String.le).
  - apply sort_sorted; apply _.
  - apply sort_sorted; apply _.
  - by rewrite (sortedRuns_perm o1), (sortedRuns_perm o2).
Qed.

Lemma afterCursor_split done_ r rest :
  NoDup (RunID <$> done_ ++ r :: rest) → RunID r ≠ "" →
  afterCursor (RunID r) (done_ ++ r :: rest) = Some rest.
Proof.
  intros Hnd Hr. unfold afterCursor. rewrite decide_False by done.
  assert (list_find (λ r', RunID r' = RunID r) (done_ ++ r :: rest) = Some (length done_, r)) as ->.
  { apply list_find_Some. split_and!; [by rewrite list_lookup_middle|done|].
    intros j y Hj Hlt Heq. rewrite lookup_app_l in Hj by done.
    rewrite fmap_app, fmap_cons in Hnd. apply NoDup_app in Hnd as (_ & Hnd & _).
    apply (Hnd (RunID y)); [apply list_elem_of_fmap; exists y; split; [done|by eapply list_elem_of_lookup_2]|].
    rewrite Heq. left. }
  simpl. by rewrite drop_app_ge, Nat.add_comm, Nat.add_sub by lia.
Qed.

Lemma ListByAgent_page (o : RunRange) cursor rest :
  afterCursor cursor (sortedRuns o) = Some rest →
  @ListByAgent o _ false tenant agent limit cursor s = inr (take (Z.to_nat (clampLimit limit)) rest).
Proof.
  intros Hc. unfold ListByAgent. rewrite decide_False by tauto.
  change (sortSlice newer _) with (sortedRuns o). by rewrite Hc.
Qed.

Lemma pageAll_from orders full done_ rest cursor :
  Forall (λ o, GoRange (@run_range o) ∧ sortedRuns o = full) orders →
  NoDup (RunID <$> full) → Forall (λ r, RunID r ≠ "") full →
  full = done_ ++ rest → cursor = default "" (RunID <$> last done_) →
  pageAll orders cursor = take (Z.to_nat (clampLimit limit) * length orders) rest.
Proof.
  intros Ho Hnd Hne. revert done_ rest cursor.
  induction Ho as [|o orders [Hgo Hfull] Ho IH]; intros done_ rest cursor Heq Hcur; cbn [pageAll length].
  { by rewrite Nat.mul_0_r, take_0. }
  pose proof (clampLimit_pos limit) as Hlim.
  rewrite (ListByAgent_page o cursor rest).
  2:{ rewrite Hfull, Heq, Hcur. destruct (last done_) as [r|] eqn:E; simpl.
      - apply last_Some in E as [done' ->]. rewrite <-app_assoc in *. simpl in *. apply afterCursor_split.
        + by rewrite <-Heq.
        + rewrite Heq in Hne. rewrite Forall_forall in Hne. apply Hne. set_solver.
      - apply last_None in E as ->. by unfold afterCursor. }
  set (n := Z.to_nat (clampLimit limit)). destruct (last (take n rest)) as [r|] eqn:E.
  - rewrite (IH (done_ ++ take n rest) (drop n rest)).
    + fold n. by rewrite Nat.mul_succ_r, Nat.add_comm, take_take_drop.
    + by rewrite <-app_assoc, take_drop.
    + by rewrite last_app, E.
  - apply last_None in E. destruct rest as [|x rest]; [by rewrite take_nil|].
    by destruct n eqn:En; [lia|].
Qed.

End paging.

(** ** Properties *)

(** C7. The map, the access order and the eviction of the store together are a
    list of entries in order of last use, cut to the cap: from every readable
    file, every history of Create, Save and Get, with cancelled contexts and
    failing writes, answers as that list does. *)
Theorem run_store_refines_lru `{RunRange} `{!GoRange run_range} f s ops :
  NewFileRunStore f = inr s →
  let r := trace storeStep s ops in
  let r' := trace lruStep (lruLoad f) ops in
  r.1 = r'.1 ∧ runOrder r.2 = r'.2.*1 ∧ (∀ k, runs r.2 !! k = list_to_map (M := gmap string Run) r'.2 !! k) ∧
  Z.of_nat (size (runs r.2)) <= maxRunsInRunStore.
Proof.
  intros Hs%load_rel. simpl. destruct (trace_from_empty ops s (lruLoad f) Hs) as (Ha & [Ho Hr Hnd] & Hl).
  { destruct f; simpl; try lia. unfold mostRecent. rewrite length_drop. lia. }
  split_and!; [done|done|by rewrite Hr|]. rewrite Hr, size_list_to_map_nodup by done.
  assert (0 <= maxRunsInRunStore) by done. lia.
Qed.

(** Tenants are isolated: after any history of writes with identifiers that are
    single path elements, reading with such identifiers finds only the run that
    carries exactly these identifiers. *)
Theorem run_store_isolation ops c t r run :
  (∀ op, op ∈ ops → match op with
     | SCreate _ _ run | SSave _ _ run => component (TenantID run) = true ∧ component (RunID run) = true
     | SGet _ _ _ => True
     end) →
  component t = true → component r = true →
  (Get c t r (trace storeStep emptyStore ops).2).1 = inr (Some run) →
  TenantID run = t ∧ RunID run = r.
Proof.
  intros Hops Ht Hr.
  set (I := λ s, keyed s ∧
    map_Forall (λ _ r, component (TenantID r) = true ∧ component (RunID r) = true) (runs s)).
  assert (I (trace storeStep emptyStore ops).2) as [Hk Hc].
  { apply trace_invariant; [|split; apply map_Forall_empty]. intros op s Hop [Hks Hcs].
    split; [auto with go|]. specialize (Hops op Hop).
    assert (∀ f run, component (TenantID run) = true ∧ component (RunID run) = true →
      map_Forall (λ _ r, component (TenantID r) = true ∧ component (RunID r) = true)
        (runs (putRun f (keyOf run) run s).2)) as Hput.
    { intros f run' Hrun. intros k r' Hr'. eapply lookup_weaken in Hr'; [|apply runs_putRun].
      by apply (map_Forall_insert_2 _ _ _ _ Hrun Hcs) in Hr'. }
    destruct op as [[] f run'|[] f run'|[] t' r']; simpl; try done.
    - unfold Create. destruct (validateRun run'); [done|]. destruct (runs s !! _); [done|]. by apply Hput.
    - unfold Save. destruct (validateRun run'); [done|]. by apply Hput.
    - unfold Get. case_decide; [done|]. by destruct (runs s !! _). }
  unfold Get. destruct c; [done|]. case_decide; [done|].
  destruct (runs _ !! _) as [run'|] eqn:E; [|done]. intros [= ->].
  destruct (Hk _ _ E) as [Hkey _], (Hc _ _ E) as [? ?].
  apply storageKey_inj in Hkey as [-> ->]; done.
Qed.

(** Saved runs are durable while they are recent: a run saved in a history whose
    writes succeed is found again after a restart, as long as fewer than the
    cap's number of operations followed and none of them wrote the same run. *)
Theorem recent_run_survives_restart `{RunRange} `{!GoRange run_range} pre run ops s' :
  validateRun run = None →
  (∀ op, op ∈ pre ++ ops → opFault op = false) →
  (∀ op, op ∈ ops → opKey op ≠ Some (keyOf run)) →
  Z.of_nat (length ops) < maxRunsInRunStore →
  NewFileRunStore (file (trace storeStep emptyStore (pre ++ SSave false false run :: ops)).2) = inr s' →
  (Get false (TenantID run) (RunID run) s').1 = inr (Some run).
Proof.
  intros Hv Hf Hops Hlen Hs'.
  assert (durable (trace storeStep emptyStore (pre ++ SSave false false run :: ops)).2) as Hd.
  { apply trace_invariant; [|by right]. intros op s Hop. apply durable_step.
    apply elem_of_app in Hop as [Hop|[->|Hop]%elem_of_cons]; [|done|]; apply Hf; set_solver. }
  destruct (trace_from_empty (pre ++ SSave false false run :: ops) _ _ emptyStore_rel) as (_ & Hrel & Hl); [simpl; lia|].
  destruct (restart_same _ _ Hd Hrel Hl) as (s2 & Hs2 & Hsame).
  assert (s2 = s') as -> by congruence.
  destruct (trace_from_empty pre _ _ emptyStore_rel) as (_ & Hrel1 & _); [simpl; lia|].
  destruct (storeStep_sim (SSave false false run) _ _ Hrel1) as [_ Hrel2].
  unfold Get. rewrite decide_False by (unfold validateRun in Hv; by case_decide).
  rewrite Hsame, trace_app, trace_cons.
  assert (runs (trace storeStep (storeStep (SSave false false run) (trace storeStep emptyStore pre).2).2 ops).2
    !! keyOf run = Some run) as Hget.
  { eapply (trace_lruStep_recent ops 0); [done|lia|done|]. simpl. rewrite Hv. simpl.
    apply recentWithin_mostRecent; [lia|]. eexists _, []. by split. }
  by rewrite Hget.
Qed.

(** The cap is not only a cache limit: after one run more than the cap has been
    created, each creation having succeeded, the first run is gone from the file
    too, and a restarted store does not find it. *)
Theorem eviction_loses_runs `{RunRange} `{!GoRange run_range} r0 rs :
  Forall (λ r, validateRun r = None) (r0 :: rs) → NoDup ((λ r, keyOf r) <$> r0 :: rs) →
  Z.of_nat (length rs) = maxRunsInRunStore →
  let r := trace storeStep emptyStore (SCreate false false <$> r0 :: rs) in
  Forall (λ a, a = inr None) r.1 ∧
  ∃ s', NewFileRunStore (file r.2) = inr s' ∧ (Get false (TenantID r0) (RunID r0) s').1 = inr None.
Proof.
  intros Hv Hnd Hlen. cbv zeta.
  destruct (trace_from_empty (SCreate false false <$> r0 :: rs) _ _ emptyStore_rel) as (Ha & Hrel & Hl);
    [simpl; lia|].
  pose proof (trace_creates (r0 :: rs) [] Hv Hnd) as Htr.
  rewrite (mostRecent_small []) in Htr by (simpl; lia). rewrite Htr in Ha, Hrel, Hl.
  split; [rewrite Ha; by apply Forall_replicate|].
  assert (durable (trace storeStep emptyStore (SCreate false false <$> r0 :: rs)).2) as Hd.
  { apply trace_invariant; [|by right]. intros op s (r & -> & _)%list_elem_of_fmap. by apply durable_step. }
  destruct (restart_same _ _ Hd Hrel Hl) as (s' & Hs' & Hsame). exists s'. split; [done|].
  unfold Get. apply Forall_cons in Hv as [Hv0 _].
  rewrite decide_False by (unfold validateRun in Hv0; by case_decide).
  rewrite Hsame, (rel_runs _ _ Hrel), not_elem_of_list_to_map_1; [done|].
  rewrite app_nil_l. unfold mostRecent. cbn [fmap list_fmap length]. rewrite length_fmap.
  replace (S (length rs) - Z.to_nat maxRunsInRunStore)%nat with 1%nat by lia. cbn [drop].
  rewrite drop_0. cbn [snd]. rewrite <-list_fmap_compose.
  by apply NoDup_cons in Hnd as [? _].
Qed.

(** Following the cursor lists every run of the agent exactly once, newest
    first, although each page is cut from a freshly sorted listing that may have
    visited the map in another order; the timestamps must tell the runs apart. *)
Theorem paging_complete `{SliceSort} `{!SliceSortLaws} ops tenant agent limit (orders : list RunRange) :
  let s := (trace storeStep emptyStore ops).2 in
  tenant ≠ "" → agent ≠ "" →
  Forall (λ o, GoRange (@run_range o)) orders → distinctTimes tenant agent s →
  Z.of_nat (size (runs s)) <= clampLimit limit * Z.of_nat (length orders) →
  pageAll tenant agent limit s orders "" ≡ₚ agentRuns tenant agent s ∧
  StronglySorted newer (pageAll tenant agent limit s orders "").
Proof.
  intros s Ht Ha Ho Hd Hlen. pose proof (keyed_history ops : keyed s) as Hk.
  set (full := sortedRuns tenant agent s (map_to_list : RunRange)).
  pose proof (sortedRuns_perm tenant agent s (map_to_list : RunRange)) as Hperm. fold full in Hperm.
  rewrite (pageAll_from tenant agent limit s Ht Ha Hk orders full [] full).
  - rewrite take_ge; [split; [done|]|].
    + apply sort_sorted; [apply newer_trans|apply newer_total].
    + rewrite Hperm. unfold agentRuns.
      pose proof (length_filter_le (ofAgent tenant agent) (map_to_list (runs s)).*2) as Hle.
      rewrite length_fmap, length_map_to_list in Hle. pose proof (clampLimit_pos limit).
      apply Nat2Z.inj_le. rewrite Nat2Z.inj_mul, Z2Nat.id by lia. etransitivity; [|exact Hlen]. by apply inj_le.
  - eapply Forall_impl; [exact Ho|]. intros o Hgo. split; [done|].
    eapply sortedRuns_unique; try done. apply GoRange_map_to_list.
  - rewrite Hperm. by apply agentRuns_ids.
  - rewrite Hperm. apply Forall_forall. intros r [_ (kr & -> & Hkr)%list_elem_of_fmap]%list_elem_of_filter.
    destruct kr as [k r]. apply elem_of_map_to_list in Hkr. destruct (Hk _ _ Hkr) as [_ Hv].
    unfold validateRun in Hv. case_decide; [done|]. simpl. tauto.
  - done.
  - done.
Qed.

(** ** Witnesses *)

#[local] Instance forward : RunRange := map_to_list.
#[local] Instance merge : SliceSort := mergeSlice.
#[local] Instance merge_laws : SliceSortLaws := mergeSlice_laws.

Definition backward : RunRange := λ m, rev (map_to_list m).

Definition sample_run (id created : string) : Run := {|
  TenantID := "acme"; AgentID := "bot"; RunID := id; RStatus := "queued"; RCreatedAt := created;
  StartedAt := ""; CompletedAt := ""; EventsURL := ""; Input := Input zeroRun; Options := Options zeroRun;
  Output := None; Error_ := None; IdempotencyKey := ""; RetryOf := ""; ParentRunID := ""
|}.

Definition sample_ops : list StoreOp :=
  [SCreate false false (sample_run "r1" "2026-01-01T00:00:01Z"); SCreate false false (sample_run "r2" "2026-01-01T00:00:02Z");
   SGet false "acme" "r1"; SSave false true (sample_run "r3" "2026-01-01T00:00:03Z")].

Lemma run_store_refines_lru_witness :
  (trace storeStep emptyStore sample_ops).1 =
    [inr None; inr None; inr (Some (sample_run "r1" "2026-01-01T00:00:01Z")); inl ErrPersist] ∧
  runOrder (trace storeStep emptyStore sample_ops).2 = (trace lruStep [] sample_ops).2.*1.
Proof.
  split; [vm_compute; reflexivity|].
  apply (run_store_refines_lru FileMissing emptyStore sample_ops). reflexivity.
Defined.

Lemma run_store_isolation_witness :
  TenantID (sample_run "r1" "2026-01-01T00:00:01Z") = "acme" ∧ RunID (sample_run "r1" "2026-01-01T00:00:01Z") = "r1".
Proof.
  apply (run_store_isolation sample_ops false); [|vm_compute; reflexivity..].
  intros op Hop. unfold sample_ops in Hop. rewrite !elem_of_cons in Hop.
  destruct Hop as [->|[->|[->|[->|Hop]]]]; try (vm_compute; by split). by apply not_elem_of_nil in Hop.
Defined.

Lemma recent_run_survives_restart_witness :
  let s := (trace storeStep emptyStore
    ([] ++ SSave false false (sample_run "r1" "t1") :: [SSave false false (sample_run "r2" "t2")])).2 in
  match NewFileRunStore (file s) with
  | inr s' => (Get false "acme" "r1" s').1 = inr (Some (sample_run "r1" "t1"))
  | inl _ => False
  end.
Proof.
  cbv zeta. destruct (NewFileRunStore _) as [e|s'] eqn:E; [vm_compute in E; congruence|].
  refine (recent_run_survives_restart [] (sample_run "r1" "t1") [SSave false false (sample_run "r2" "t2")] s'
    _ _ _ _ E); [reflexivity| | |reflexivity].
  - intros op Hop. apply list_elem_of_singleton in Hop. by subst.
  - intros op Hop. apply list_elem_of_singleton in Hop. subst. vm_compute. congruence.
Defined.

Definition numbered (i : nat) : Run := sample_run (String "r" (pretty i)) "t".

Lemma numbered_nodup l :
  forallb (λ i : nat, component (RunID (numbered i))) l = true → NoDup l → NoDup ((λ r, keyOf r) <$> (numbered <$> l)).
Proof.
  intros Hc Hnd. rewrite <-list_fmap_compose. apply NoDup_fmap_2_strong; [|done].
  intros i j Hi Hj Heq. rewrite forallb_forall in Hc.
  apply storageKey_inj in Heq as [_ Heq]; [|done| |done|].
  - simpl in Heq. by simplify_eq.
  - apply Hc. by apply list_elem_of_In.
  - apply Hc. by apply list_elem_of_In.
Qed.

Lemma eviction_loses_runs_witness :
  ∃ s', NewFileRunStore (file (trace storeStep emptyStore
    (SCreate false false <$> numbered 5000 :: (numbered <$> seq 0 5000))).2) = inr s' ∧
  (Get false "acme" "r5000" s').1 = inr None.
Proof.
  apply (eviction_loses_runs (numbered 5000) (numbered <$> seq 0 5000)).
  - apply Forall_forall. intros r Hr. rewrite <-fmap_cons in Hr.
    apply list_elem_of_fmap in Hr as (i & -> & _). unfold validateRun. rewrite decide_False; [done|].
    by intros [?|?].
  - apply (numbered_nodup (5000%nat :: seq 0 5000)); [vm_compute; reflexivity|].
    apply NoDup_cons. split; [|apply NoDup_seq]. rewrite elem_of_seq. lia.
  - rewrite length_fmap, length_seq. reflexivity.
Defined.

Definition sample_pages (orders : list RunRange) (ops : list StoreOp) : list string :=
  RunID <$> pageAll "acme" "bot" 1 (trace storeStep emptyStore ops).2 orders "".

Lemma paging_complete_witness :
  sample_pages [forward; backward; forward] sample_ops = ["r3"; "r2"; "r1"] ∧
  pageAll "acme" "bot" 1 (trace storeStep emptyStore sample_ops).2 [forward; backward; forward] "" ≡ₚ
  agentRuns "acme" "bot" (trace storeStep emptyStore sample_ops).2.
Proof.
  split; [vm_compute; reflexivity|].
  apply (paging_complete sample_ops "acme" "bot" 1 [forward; backward; forward]); try done.
  - repeat constructor; try apply GoRange_map_to_list; apply GoRange_rev.
  - apply (bool_decide_unpack _). vm_compute. exact I.
Defined.

(** With equal timestamps (they have a resolution of one second) the pages depend on
    the map order of each call: the cursor's run moves, and a run is never listed. *)
Example paging_skips_tied_run :
  let ops := [SCreate false false (sample_run "r1" "t"); SCreate false false (sample_run "r2" "t")] in
  sample_pages [forward; forward; forward] ops = ["r1"; "r2"] ∧
  sample_pages [forward; backward; forward] ops = ["r1"].
Proof. vm_compute. done. Qed.
