(* ===== verification/Events.v ===== *)
(** * Run events: the event log and the event sinks

    internal/storage/event_log_store.go (the per-run files and the bounded
    cache in front of them) and agentorchestrator/events.go (the sink of one
    run: numbering, replay, live subscriptions).

    A subscriber's channel is modelled by its buffer and whether it is closed;
    sending on a closed channel and closing a channel twice panic, and a panic is
    the value [None] of the state.  The fresh event id, the formatted time and
    the outcome of the file write are inputs of [Emit]. *)
From S2P Require Import Prelude GoTime Types.

(** ** The event log *)

Definition maxRunsInMemory : Z := 1000.

(** [logFiles] holds what the file of each key contains. *)
Record fileEventLogStore := {
  logRuns : gmap string (list Event);
  logOrder : list string;
  logFiles : gmap string (list Event)
}.

Definition NewFileEventLogStore (files : gmap string (list Event)) : fileEventLogStore :=
  {| logRuns := ∅; logOrder := []; logFiles := files |}.

Definition runKey (tenantID runID : string) : string := tenantID +:+ "/" +:+ runID.

(** The loop drops one key per round; an empty order would make it panic. *)
Fixpoint evictRuns (rs : gmap string (list Event)) (order : list string)
    : option (gmap string (list Event) * list string) :=
  if bool_decide (Z.of_nat (size rs) > maxRunsInMemory) then
    match order with
    | [] => None
    | oldest :: order' => evictRuns (delete oldest rs) order'
    end
  else Some (rs, order).

(** [fault] says that the file cannot be written; [None] is a panic. *)
Definition Append (fault : bool) (e : Event) (s : fileEventLogStore) : option (bool * fileEventLogStore) :=
  let key := runKey (ETenantID e) (ERunID e) in
  let order := match logRuns s !! key with Some _ => logOrder s | None => logOrder s ++ [key] end in
  '(rs, order) ← evictRuns (<[key := go_get [] (logRuns s) key ++ [e]]> (logRuns s)) order;
  Some (negb fault, {|
    logRuns := rs; logOrder := order;
    logFiles := if fault then logFiles s else <[key := go_get [] rs key]> (logFiles s)
  |}).

Definition QueryFromSequence (tenantID runID : string) (afterSequence : Z) (s : fileEventLogStore)
    : list Event :=
  let events := go_get [] (logRuns s) (runKey tenantID runID) in
  if bool_decide (afterSequence <= 0) then events
  else filter (λ e, afterSequence < Sequence e) events.

(** ** The event sink *)

Definition subscriberBufSize : Z := 64.

Record chan := { buf : list Event; closed : bool }.

Record EventSink := {
  events : list Event;
  seq_ : Z;
  sinkRunID : string;
  sinkTenant : string;
  sinkAgent : string;
  subscribers : list nat;
  done_ : bool;
  droppedEvents : Z;
  chans : gmap nat chan;
  nextChan : nat
}.

Definition NewEventSink (tenantID agentID runID : string) : EventSink := {|
  events := []; seq_ := 0; sinkRunID := runID; sinkTenant := tenantID; sinkAgent := agentID;
  subscribers := []; done_ := false; droppedEvents := 0; chans := ∅; nextChan := 0
|}.

Definition setChans (cs : gmap nat chan) (dropped : Z) (s : EventSink) : EventSink := {|
  events := events s; seq_ := seq_ s; sinkRunID := sinkRunID s; sinkTenant := sinkTenant s;
  sinkAgent := sinkAgent s; subscribers := subscribers s; done_ := done_ s;
  droppedEvents := dropped; chans := cs; nextChan := nextChan s
|}.

(** A non-blocking send: a full buffer drops the event. *)
Definition trySend (env : Event) (s : EventSink) (ch : nat) : option EventSink :=
  c ← chans s !! ch;
  if closed c then None
  else if bool_decide (Z.of_nat (length (buf c)) < subscriberBufSize)
  then Some (setChans (<[ch := {| buf := buf c ++ [env]; closed := false |}]> (chans s)) (droppedEvents s) s)
  else Some (setChans (chans s) (droppedEvents s + 1) s).

Definition sendAll (env : Event) (chs : list nat) (s : EventSink) : option EventSink :=
  foldl (λ s ch, s ≫= λ s, trySend env s ch) (Some s) chs.

Definition notifySubscribers (env : Event) (s : EventSink) : option EventSink :=
  sendAll env (subscribers s) s.

Definition traceparent : string := "00-00000000000000000000000000000000-0000000000000000-01".

Definition newEvent (evtID now eventType : string) (payload : list (string * any)) (s : EventSink) : Event := {|
  EventID := evtID; Sequence := seq_ s + 1; ETime := now; EType := eventType; ETenantID := sinkTenant s;
  EAgentID := sinkAgent s; ERunID := sinkRunID s; StepID := ""; Traceparent := traceparent;
  Payload := payload
|}.

Definition record_ (env : Event) (s : EventSink) : EventSink := {|
  events := events s ++ [env]; seq_ := seq_ s + 1; sinkRunID := sinkRunID s; sinkTenant := sinkTenant s;
  sinkAgent := sinkAgent s; subscribers := subscribers s; done_ := done_ s;
  droppedEvents := droppedEvents s; chans := chans s; nextChan := nextChan s
|}.

(** The sink's part of Emit; [EmitLogged] adds the durable log, whose failure
    is only reported. *)
Definition Emit (evtID now eventType : string) (payload : list (string * any)) (s : EventSink)
    : option EventSink :=
  let env := newEvent evtID now eventType payload s in
  notifySubscribers env (record_ env s).

Definition EmitLogged (fault : bool) (evtID now eventType : string) (payload : list (string * any))
    (s : EventSink) (log : option fileEventLogStore) : option (EventSink * option fileEventLogStore) :=
  s' ← Emit evtID now eventType payload s;
  match log with
  | None => Some (s', None)
  | Some l => '(_, l') ← Append fault (newEvent evtID now eventType payload s) l; Some (s', Some l')
  end.

Definition Events_ (s : EventSink) : list Event := events s.

Definition EventsFromSequence (afterSequence : Z) (s : EventSink) : list Event :=
  filter (λ e, afterSequence < Sequence e) (events s).

Definition Subscribe (s : EventSink) : nat * EventSink :=
  (nextChan s, {|
    events := events s; seq_ := seq_ s; sinkRunID := sinkRunID s; sinkTenant := sinkTenant s;
    sinkAgent := sinkAgent s; subscribers := subscribers s ++ [nextChan s]; done_ := done_ s;
    droppedEvents := droppedEvents s;
    chans := <[nextChan s := {| buf := []; closed := false |}]> (chans s);
    nextChan := S (nextChan s)
  |}).

(** Closing a closed channel panics. *)
Definition closeChan (cs : gmap nat chan) (ch : nat) : option (gmap nat chan) :=
  c ← cs !! ch;
  if closed c then None else Some (<[ch := {| buf := buf c; closed := true |}]> cs).

Definition setSubscribers (subs : list nat) (d : bool) (cs : gmap nat chan) (s : EventSink) : EventSink := {|
  events := events s; seq_ := seq_ s; sinkRunID := sinkRunID s; sinkTenant := sinkTenant s;
  sinkAgent := sinkAgent s; subscribers := subs; done_ := d;
  droppedEvents := droppedEvents s; chans := cs; nextChan := nextChan s
|}.

Definition Unsubscribe (ch : nat) (s : EventSink) : option EventSink :=
  match list_find (λ sub, sub = ch) (subscribers s) with
  | Some (i, _) =>
      cs ← closeChan (chans s) ch;
      Some (setSubscribers (take i (subscribers s) ++ drop (i + 1) (subscribers s)) (done_ s) cs s)
  | None => Some s
  end.

Definition closeAll (chs : list nat) (cs : gmap nat chan) : option (gmap nat chan) :=
  foldl (λ cs ch, cs ≫= λ cs, closeChan cs ch) (Some cs) chs.

Definition Done (s : EventSink) : option EventSink :=
  if done_ s then Some s
  else cs ← closeAll (subscribers s) (chans s); Some (setSubscribers [] true cs s).

(** ** The reader's side *)

Inductive Received := Got (e : Event) | Closed | Blocks.

(** Receiving from the channel: buffered events first, then the close. *)
Definition Recv (ch : nat) (s : EventSink) : Received * EventSink :=
  match chans s !! ch with
  | None => (Blocks, s)
  | Some c =>
      match buf c with
      | e :: b => (Got e, setChans (<[ch := {| buf := b; closed := closed c |}]> (chans s)) (droppedEvents s) s)
      | [] => (if closed c then Closed else Blocks, s)
      end
  end.

(** What handleStream sends before it subscribes. *)
Definition streamReplay (fromSequence : Z) (s : EventSink) : list Event :=
  if bool_decide (0 <= fromSequence)
  then if bool_decide (0 < fromSequence) then EventsFromSequence fromSequence s else Events_ s
  else [].

(** ** Histories of a sink *)

Inductive SinkOp :=
  | SEmit (evtID now eventType : string) (payload : list (string * any))
  | SSubscribe
  | SUnsubscribe (ch : nat)
  | SRecv (ch : nat)
  | SDone.

(** A panicked process ([None]) answers nothing more. *)
Definition sinkStep (op : SinkOp) (os : option EventSink) : Received * option EventSink :=
  match os with
  | None => (Blocks, None)
  | Some s =>
      match op with
      | SEmit i n t p => (Blocks, Emit i n t p s)
      | SSubscribe => (Blocks, Some (Subscribe s).2)
      | SUnsubscribe ch => (Blocks, Unsubscribe ch s)
      | SRecv ch => let '(r, s') := Recv ch s in (r, Some s')
      | SDone => (Blocks, Done s)
      end
  end.

(** The events that the reader of one channel got. *)
Fixpoint gotFrom (ch : nat) (ops : list SinkOp) (answers : list Received) : list Event :=
  match ops, answers with
  | op :: ops', a :: answers' =>
      match op, a with
      | SRecv ch', Got e => if decide (ch' = ch) then e :: gotFrom ch ops' answers' else gotFrom ch ops' answers'
      | _, _ => gotFrom ch ops' answers'
      end
  | _, _ => []
  end.

(** The open channels are exactly the subscribed ones, and the events are
    numbered from one. *)
Record sink_ok (s : EventSink) : Prop := {
  ok_nodup : NoDup (subscribers s);
  ok_open : ∀ ch, ch ∈ subscribers s → ∃ c, chans s !! ch = Some c ∧ closed c = false;
  ok_fresh : ∀ ch, is_Some (chans s !! ch) → (ch < nextChan s)%nat;
  ok_seq : seq_ s = Z.of_nat (length (events s));
  ok_numbered : ∀ i e, events s !! i = Some e → Sequence e = Z.of_nat i + 1
}.

(** Sending changes only the channels, each by at most the new event. *)
Record sent (env : Event) (chs : list nat) (s s' : EventSink) : Prop := {
  sent_events : events s' = events s;
  sent_seq : seq_ s' = seq_ s;
  sent_subs : subscribers s' = subscribers s;
  sent_done : done_ s' = done_ s;
  sent_next : nextChan s' = nextChan s;
  sent_dropped : droppedEvents s <= droppedEvents s';
  sent_other : ∀ ch, ch ∉ chs → chans s' !! ch = chans s !! ch;
  sent_each : ∀ ch, ch ∈ chs → ∃ c c', chans s !! ch = Some c ∧ chans s' !! ch = Some c' ∧
    closed c' = false ∧
    (buf c' = buf c ++ [env] ∨ (buf c' = buf c ∧ droppedEvents s < droppedEvents s'))
}.

Lemma trySend_spec env s ch c :
  chans s !! ch = Some c → closed c = false → ∃ s', trySend env s ch = Some s' ∧ sent env [ch] s s'.
Proof.
  intros Hc Hcl. unfold trySend. rewrite Hc. simpl. rewrite Hcl. case_bool_decide.
  - eexists. split; [done|]. split; simpl; try (done || lia).
    + intros ch' Hne. rewrite list_elem_of_singleton in Hne. by rewrite lookup_insert_ne.
    + intros ch' ->%list_elem_of_singleton. exists c. rewrite lookup_insert_eq. eauto 10.
  - eexists. split; [done|]. split; simpl; try (done || lia).
    intros ch' ->%list_elem_of_singleton. exists c, c. split_and!; try done. right. split; [done|lia].
Qed.

Lemma sendAll_spec env chs s :
  NoDup chs → (∀ ch, ch ∈ chs → ∃ c, chans s !! ch = Some c ∧ closed c = false) →
  ∃ s', sendAll env chs s = Some s' ∧ sent env chs s s'.
Proof.
  revert s. induction chs as [|ch chs IH]; intros s Hnd Hopen; unfold sendAll in *; simpl.
  { exists s. split; [done|]. split; try (done || lia). intros ch Hch. by apply not_elem_of_nil in Hch. }
  apply NoDup_cons in Hnd as [Hch Hnd].
  destruct (Hopen ch) as (c & Hc & Hcl); [left|].
  destruct (trySend_spec env s ch c Hc Hcl) as (s1 & -> & H1).
  assert (∀ ch', ch' ∈ chs → chans s1 !! ch' = chans s !! ch') as Hsame.
  { intros ch' Hch'. apply (sent_other _ _ _ _ H1). rewrite list_elem_of_singleton. congruence. }
  destruct (IH s1 Hnd) as (s2 & -> & H2).
  { intros ch' Hch'. rewrite Hsame by done. apply Hopen. by right. }
  exists s2. split; [done|]. destruct H1 as [E1 Q1 S1 D1 N1 Dr1 O1 Ea1], H2 as [E2 Q2 S2 D2 N2 Dr2 O2 Ea2].
  split; try (congruence || lia).
  - intros ch' [Hne Hnin]%not_elem_of_cons. rewrite O2 by done. apply O1. by rewrite list_elem_of_singleton.
  - intros ch' [->|Hin]%elem_of_cons.
    + destruct (Ea1 ch) as (a & a' & Ha & Ha' & Hcl' & Hb); [left|]. exists a, a'.
      rewrite O2 by done. split_and!; try done. destruct Hb as [?|[? ?]]; [by left|right; split; [done|lia]].
    + destruct (Ea2 ch' Hin) as (a & a' & Ha & Ha' & Hcl' & Hb). exists a, a'.
      rewrite Hsame in Ha by done. split_and!; try done. destruct Hb as [?|[? ?]]; [by left|right; split; [done|lia]].
Qed.

Lemma Emit_spec i n t p s :
  sink_ok s → let env := newEvent i n t p s in
  ∃ s', Emit i n t p s = Some s' ∧ sent env (subscribers s) (record_ env s) s' ∧ sink_ok s'.
Proof.
  intros [Hnd Hopen Hfresh Hseq Hnum] env. unfold Emit, notifySubscribers. fold env.
  destruct (sendAll_spec env (subscribers s) (record_ env s)) as (s' & Hs & Hsent); [done..|].
  exists s'. split_and!; [done|done|].
  destruct Hsent as [E Q S D N Dr O Ea]; simpl in *.
  assert (∀ ch, is_Some (chans s' !! ch) ↔ is_Some (chans s !! ch)) as Hdom.
  { intros ch. destruct (decide (ch ∈ subscribers s)) as [Hin|Hin]; [|by rewrite O].
    destruct (Ea ch Hin) as (c & c' & -> & -> & _). naive_solver. }
  split.
  - by rewrite S.
  - intros ch. rewrite S. intros Hin. destruct (Ea ch Hin) as (c & c' & _ & -> & ? & _). eauto.
  - intros ch. rewrite N, Hdom. apply Hfresh.
  - rewrite Q, E, Hseq, length_app. simpl. lia.
  - intros j e. rewrite E. intros [Hj|[Hj He]]%lookup_app_Some; [by apply Hnum|].
    apply list_lookup_singleton_Some in He as [? <-]. simpl. lia.
Qed.

Lemma closeAll_spec chs cs :
  NoDup chs → (∀ ch, ch ∈ chs → ∃ c, cs !! ch = Some c ∧ closed c = false) →
  ∃ cs', closeAll chs cs = Some cs' ∧
    ∀ ch, cs' !! ch = if decide (ch ∈ chs) then (λ c, {| buf := buf c; closed := true |}) <$> cs !! ch
                      else cs !! ch.
Proof.
  revert cs. induction chs as [|ch chs IH]; intros cs Hnd Hopen; unfold closeAll in *; simpl.
  { by exists cs. }
  apply NoDup_cons in Hnd as [Hch Hnd].
  destruct (Hopen ch) as (c & Hc & Hcl); [left|]. unfold closeChan at 2. rewrite Hc. simpl. rewrite Hcl.
  destruct (IH (<[ch := {| buf := buf c; closed := true |}]> cs) Hnd) as (cs' & Hcs' & Hlook).
  { intros ch' Hch'. rewrite lookup_insert_ne by congruence. apply Hopen. by right. }
  exists cs'. split; [done|]. intros ch'. rewrite Hlook.
  destruct (decide (ch' = ch)) as [->|Hne].
  - destruct (decide (ch ∈ chs)); [done|]. rewrite lookup_insert_eq, Hc.
    destruct (decide (ch ∈ ch :: chs)) as [|Hn]; [done|]. destruct Hn. left.
  - rewrite lookup_insert_ne by done. repeat case_decide; try done; set_solver.
Qed.

Lemma Unsubscribe_spec ch s :
  sink_ok s → ∃ s', Unsubscribe ch s = Some s' ∧ sink_ok s' ∧ events s' = events s ∧
    droppedEvents s' = droppedEvents s ∧ done_ s' = done_ s ∧ nextChan s' = nextChan s ∧
    (∀ ch', ch' ≠ ch → chans s' !! ch' = chans s !! ch' ∧ (ch' ∈ subscribers s' ↔ ch' ∈ subscribers s)).
Proof.
  intros Hok. pose proof Hok as [Hnd Hopen Hfresh Hseq Hnum]. unfold Unsubscribe.
  destruct (list_find _ _) as [[i x]|] eqn:E; [|by exists s].
  apply list_find_Some in E as (Hi & -> & _).
  destruct (Hopen ch) as (c & Hc & Hcl); [by eapply list_elem_of_lookup_2|].
  unfold closeChan. rewrite Hc. simpl. rewrite Hcl. simpl.
  assert (∃ l1 l2, subscribers s = l1 ++ ch :: l2 ∧
    take i (subscribers s) ++ drop (i + 1) (subscribers s) = l1 ++ l2) as (l1 & l2 & Hl & ->).
  { exists (take i (subscribers s)), (drop (S i) (subscribers s)).
    split; [by rewrite take_drop_middle|]. by rewrite Nat.add_1_r. }
  rewrite Hl in Hnd. apply NoDup_app in Hnd as (Hn1 & Hn12 & [Hn Hn2]%NoDup_cons).
  eexists. split; [done|]. split; [split; simpl; try done|split_and!; try done].
  - apply NoDup_app. split_and!; [done| |done]. intros y Hy Hy2. apply (Hn12 y Hy). by right.
  - intros ch' Hin. rewrite lookup_insert_ne.
    + apply Hopen. rewrite Hl. set_solver.
    + intros ->. apply elem_of_app in Hin as [Hin|Hin]; [|done]. apply (Hn12 ch' Hin). left.
  - intros ch' Hs. apply Hfresh. destruct (decide (ch' = ch)) as [->|]; [by rewrite Hc|].
    by rewrite lookup_insert_ne in Hs.
  - intros ch' Hne. simpl. rewrite lookup_insert_ne by done. split; [done|]. rewrite Hl. set_solver.
Qed.

Lemma Done_spec s :
  sink_ok s → ∃ s', Done s = Some s' ∧ sink_ok s' ∧ events s' = events s ∧ done_ s' = true ∧
    droppedEvents s' = droppedEvents s ∧
    (∀ ch c, chans s !! ch = Some c → ∃ c', chans s' !! ch = Some c' ∧ buf c' = buf c) ∧
    (done_ s = false → subscribers s' = []) ∧ (done_ s = true → s' = s).
Proof.
  intros Hok. pose proof Hok as [Hnd Hopen Hfresh Hseq Hnum]. unfold Done.
  destruct (done_ s) eqn:Ed; [exists s; naive_solver|].
  destruct (closeAll_spec (subscribers s) (chans s) Hnd Hopen) as (cs & -> & Hcs). simpl.
  eexists. split; [done|]. split_and!; simpl; try done.
  - split; simpl; try done; [constructor|set_solver|].
    intros ch Hs. apply Hfresh. rewrite Hcs in Hs. case_decide; [|done]. by rewrite fmap_is_Some in Hs.
  - intros ch c Hc. rewrite Hcs, Hc. case_decide; simpl; eauto.
Qed.

Lemma Recv_ok ch s : sink_ok s → sink_ok (Recv ch s).2.
Proof.
  intros [Hnd Hopen Hfresh Hseq Hnum]. unfold Recv. destruct (chans s !! ch) as [c|] eqn:Hc; [|done].
  destruct (buf c); [done|]. split; simpl; try done.
  - intros ch' Hin. destruct (decide (ch' = ch)) as [->|]; [|rewrite lookup_insert_ne by done; by apply Hopen].
    rewrite lookup_insert_eq. destruct (Hopen ch Hin) as (c' & ? & ?). simplify_eq. eauto.
  - intros ch' Hs. apply Hfresh. destruct (decide (ch' = ch)) as [->|]; [by rewrite Hc|].
    by rewrite lookup_insert_ne in Hs.
Qed.

Lemma Subscribe_ok s : sink_ok s → sink_ok (Subscribe s).2.
Proof.
  intros [Hnd Hopen Hfresh Hseq Hnum]. split; simpl; try done.
  - apply NoDup_app. split_and!; [done| |apply NoDup_singleton]. intros ch Hin ->%list_elem_of_singleton.
    destruct (Hopen _ Hin) as (c & Hc & _). specialize (Hfresh (nextChan s)). rewrite Hc in Hfresh.
    specialize (Hfresh ltac:(eauto)). lia.
  - intros ch [Hin| ->%list_elem_of_singleton]%elem_of_app; [|rewrite lookup_insert_eq; eauto].
    destruct (Hopen _ Hin) as (c & Hc & Hcl). exists c. split; [|done]. rewrite lookup_insert_ne; [done|].
    intros <-. specialize (Hfresh (nextChan s)). rewrite Hc in Hfresh. specialize (Hfresh ltac:(eauto)). lia.
  - intros ch. rewrite lookup_insert. case_decide; [lia|]. intros Hs%Hfresh. lia.
Qed.

Lemma NewEventSink_ok t a r : sink_ok (NewEventSink t a r).
Proof.
  split; simpl; [constructor|set_solver| |done|done].
  intros ch [c Hc]. by rewrite lookup_empty in Hc.
Qed.

#[export] Hint Resolve Recv_ok Subscribe_ok NewEventSink_ok : go.

(** No operation panics, and every operation keeps the sink well formed. *)
Lemma sinkStep_ok op s : sink_ok s → ∃ s', (sinkStep op (Some s)).2 = Some s' ∧ sink_ok s'.
Proof.
  intros Hok. destruct op as [i n t p| |ch|ch|]; simpl.
  - destruct (Emit_spec i n t p s Hok) as (s' & ? & _ & ?). eauto.
  - eexists. split; [done|]. by apply Subscribe_ok.
  - destruct (Unsubscribe_spec ch s Hok) as (s' & ? & ? & _). eauto.
  - pose proof (Recv_ok ch s Hok). destruct (Recv ch s). eauto.
  - destruct (Done_spec s Hok) as (s' & ? & ? & _). eauto.
Qed.

Lemma sink_history ops s :
  sink_ok s → ∃ s', (trace sinkStep (Some s) ops).2 = Some s' ∧ sink_ok s'.
Proof.
  intros Hok. apply (trace_invariant sinkStep (λ os, ∃ s', os = Some s' ∧ sink_ok s') ops (Some s)); [|eauto].
  intros op os _ (s' & -> & Hs'). by apply sinkStep_ok.
Qed.

(** ** What one subscriber sees *)

(** Since [s0], the reader of [ch] got [got]; [live] says that the sink has not
    been told to close since. *)
Definition stream (s0 : EventSink) (ch : nat) (live : Prop) (s : EventSink) (got : list Event) : Prop :=
  (length (events s0) ≤ length (events s))%nat ∧ droppedEvents s0 <= droppedEvents s ∧
  ∃ c, chans s !! ch = Some c ∧
    (got ++ buf c) `sublist_of` drop (length (events s0)) (events s) ∧
    (live → droppedEvents s = droppedEvents s0 →
       ch ∈ subscribers s ∧ got ++ buf c = drop (length (events s0)) (events s)).

Lemma stream_emit s0 ch live i n t p s got :
  sink_ok s → stream s0 ch live s got →
  ∃ s', Emit i n t p s = Some s' ∧ sink_ok s' ∧ stream s0 ch live s' got.
Proof.
  intros Hok (Hlen & Hdr & c & Hc & Hsub & Hall).
  destruct (Emit_spec i n t p s Hok) as (s' & Hs' & [E Q S D N Dr O Ea] & Hok'). simpl in *.
  exists s'. split_and!; [done|done|].
  assert (drop (length (events s0)) (events s') =
    drop (length (events s0)) (events s) ++ [newEvent i n t p s]) as Hdrop by (by rewrite E, drop_app_le).
  split; [rewrite E, length_app; lia|]. split; [lia|].
  destruct (decide (ch ∈ subscribers s)) as [Hin|Hin].
  - destruct (Ea ch Hin) as (c0 & c' & Hc0 & Hc' & _ & Hb). simplify_eq. exists c'. split; [done|].
    rewrite Hdrop. destruct Hb as [Hb|[Hb Hlt]]; rewrite Hb.
    + rewrite app_assoc. split; [by apply sublist_app|].
      intros Hl Hd. destruct (Hall Hl ltac:(lia)) as [_ ->]. by rewrite S.
    + split; [by apply sublist_inserts_r|]. intros _ Hd. lia.
  - exists c. rewrite O, Hdrop by done. split_and!; [done|by apply sublist_inserts_r|].
    intros Hl Hd. destruct (Hall Hl ltac:(lia)) as [? _]. done.
Qed.

Lemma stream_weaken s0 ch (live live' : Prop) s got :
  (live' → live) → stream s0 ch live s got → stream s0 ch live' s got.
Proof.
  intros Hl (? & ? & c & ? & ? & Hall). split_and!; try done. exists c. split_and!; try done.
  intros ?. by apply Hall, Hl.
Qed.

(** Receiving moves the first event of the buffer to what the reader got. *)
Lemma stream_recv s0 ch live ch' s got :
  stream s0 ch live s got →
  stream s0 ch live (Recv ch' s).2 (got ++ gotFrom ch [SRecv ch'] [(Recv ch' s).1]).
Proof.
  intros Hst. pose proof Hst as (? & ? & c & Hc & Hs & Hall). unfold Recv.
  destruct (decide (ch' = ch)) as [->|Hne].
  - rewrite Hc. destruct (buf c) as [|e b] eqn:Eb; simpl.
    + by destruct (closed c); rewrite app_nil_r.
    + rewrite decide_True by done. unfold stream. simpl. split_and!; try done.
      eexists. rewrite lookup_insert_eq. split; [done|]. simpl. by rewrite <-app_assoc.
  - destruct (chans s !! ch') as [c'|] eqn:Ec'; [destruct (buf c') as [|e b]|]; simpl.
    + by destruct (closed c'); rewrite app_nil_r.
    + rewrite decide_False, app_nil_r by done. unfold stream. simpl. split_and!; try done.
      exists c. by rewrite lookup_insert_ne.
    + by rewrite app_nil_r.
Qed.

Lemma stream_step s0 ch live op s got :
  sink_ok s → op ≠ SUnsubscribe ch → stream s0 ch live s got →
  ∃ s', (sinkStep op (Some s)).2 = Some s' ∧ sink_ok s' ∧
    stream s0 ch (live ∧ op ≠ SDone) s' (got ++ gotFrom ch [op] [(sinkStep op (Some s)).1]).
Proof.
  intros Hok Hop Hst. destruct (sinkStep_ok op s Hok) as (s' & Hs' & Hok'). exists s'. split_and!; [done..|].
  destruct op as [i n t p| |ch'|ch'|]; simpl in Hs'; simplify_eq; simpl gotFrom; rewrite ?app_nil_r.
  - destruct (stream_emit _ _ _ i n t p _ _ Hok Hst) as (s2 & ? & _ & ?). simplify_eq.
    by eapply stream_weaken; [intros [? _]|].
  - eapply stream_weaken; [intros [Hl _]; exact Hl|].
    destruct Hst as (? & ? & c & Hc & ? & Hall). split_and!; try done. exists c. simpl. split_and!; try done.
    + rewrite lookup_insert_ne; [done|]. intros Heq.
      assert (ch < nextChan s)%nat by (apply (ok_fresh _ Hok); by rewrite Hc). lia.
    + intros Hl Hd. destruct (Hall Hl Hd). split; [|done]. set_solver.
  - eapply stream_weaken; [intros [Hl _]; exact Hl|].
    destruct (Unsubscribe_spec ch' s Hok) as (s2 & Hs2 & _ & He & Hd & _ & _ & Hch). simplify_eq.
    destruct Hst as (? & ? & c & Hc & Hs & Hall).
    destruct (Hch ch) as [Hch1 Hch2]; [congruence|]. unfold stream. rewrite He, Hd. split_and!; try done.
    exists c. rewrite Hch1, Hch2. by split_and!.
  - eapply stream_weaken; [intros [Hl _]; exact Hl|].
    pose proof (stream_recv _ _ _ ch' _ _ Hst) as Hr. simpl. destruct (Recv ch' s). by simplify_eq/=.
  - destruct (Done_spec s Hok) as (s2 & Hs2 & _ & He & _ & Hd & Hch & _). simplify_eq.
    destruct Hst as (? & ? & c & Hc & Hs & Hall).
    destruct (Hch ch c Hc) as (c' & Hc' & Hb). unfold stream. rewrite He, Hd. split_and!; try done.
    exists c'. rewrite Hb. split_and!; try done. by intros [_ []].
Qed.

Lemma gotFrom_cons ch op ops a answers :
  gotFrom ch (op :: ops) (a :: answers) = gotFrom ch [op] [a] ++ gotFrom ch ops answers.
Proof. simpl. repeat case_match; done. Qed.

Lemma stream_history s0 ch live ops s got :
  sink_ok s → SUnsubscribe ch ∉ ops → stream s0 ch live s got →
  ∃ s', (trace sinkStep (Some s) ops).2 = Some s' ∧
    stream s0 ch (live ∧ SDone ∉ ops) s' (got ++ gotFrom ch ops (trace sinkStep (Some s) ops).1).
Proof.
  revert live s got. induction ops as [|op ops IH]; intros live s got Hok Hun Hst.
  { exists s. split; [done|]. rewrite app_nil_r. by eapply stream_weaken; [intros [? _]|]. }
  apply not_elem_of_cons in Hun as [Hop Hun].
  destruct (stream_step _ _ _ op _ _ Hok (λ E, Hop (eq_sym E)) Hst) as (s1 & Hs1 & Hok1 & Hst1).
  destruct (IH _ _ _ Hok1 Hun Hst1) as (s2 & Hs2 & Hst2). exists s2.
  rewrite trace_cons, trace_cons_answers, gotFrom_cons, app_assoc, Hs1. split; [done|].
  eapply stream_weaken; [|exact Hst2]. intros [Hl Hd]. apply not_elem_of_cons in Hd as [Hd ?].
  split; [split; [done|congruence]|done].
Qed.

(** ** The event log's bookkeeping *)

Definition logStep (os : option fileEventLogStore) (fe : bool * Event) : option fileEventLogStore :=
  os ≫= λ s, snd <$> Append fe.1 fe.2 s.

Abbreviation eventKey e := (runKey (ETenantID e) (ERunID e)).

(** Every cached run is in the eviction order, so the loop never runs dry. *)
Definition log_ok (s : fileEventLogStore) : Prop := dom (logRuns s) ⊆ list_to_set (logOrder s).

Lemma evictRuns_ok rs order :
  dom rs ⊆ list_to_set order →
  ∃ rs' order', evictRuns rs order = Some (rs', order') ∧ dom rs' ⊆ list_to_set order' ∧
    Z.of_nat (size rs') <= maxRunsInMemory.
Proof.
  revert rs. induction order as [|k order IH]; intros rs Hdom; simpl; case_bool_decide as Hsz.
  - assert (rs = ∅) as -> by (apply dom_empty_inv_L; set_solver). by rewrite map_size_empty in Hsz.
  - eexists _, _. split_and!; [done|done|lia].
  - apply IH. rewrite dom_delete. set_solver.
  - eexists _, _. split_and!; [done|done|lia].
Qed.

Lemma Append_ok f e s : log_ok s → ∃ b s', Append f e s = Some (b, s') ∧ log_ok s' ∧
  Z.of_nat (size (logRuns s')) <= maxRunsInMemory.
Proof.
  intros Hok. unfold Append.
  match goal with |- context [evictRuns ?rs ?o] => destruct (evictRuns_ok rs o) as (rs' & o' & -> & ? & ?) end.
  - rewrite dom_insert. unfold log_ok in Hok. destruct (logRuns s !! _) as [l|] eqn:E; simpl.
    + apply elem_of_dom_2 in E. set_solver.
    + set_solver.
  - simpl. eauto.
Qed.

(** Below the cap nothing is evicted. *)
Record log_complete (l : list (bool * Event)) (s : fileEventLogStore) : Prop := {
  complete_dom : dom (logRuns s) = list_to_set ((λ fe, eventKey fe.2) <$> l);
  complete_runs : ∀ k, go_get [] (logRuns s) k = filter (λ e, eventKey e = k) l.*2;
  complete_files : Forall (λ fe, fe.1 = false) l → logFiles s = logRuns s
}.

Lemma Append_complete l f e s :
  log_complete l s →
  Z.of_nat (size (list_to_set ((λ fe, eventKey fe.2) <$> l ++ [(f, e)]) : gset string)) <= maxRunsInMemory →
  ∃ b s', Append f e s = Some (b, s') ∧ log_complete (l ++ [(f, e)]) s'.
Proof.
  intros [Hdom Hruns Hfiles] Hsz. unfold Append.
  set (rs := <[eventKey e := go_get [] (logRuns s) (eventKey e) ++ [e]]> (logRuns s)).
  assert (dom rs = list_to_set ((λ fe, eventKey fe.2) <$> l ++ [(f, e)])) as Hd.
  { unfold rs. rewrite dom_insert_L, Hdom, fmap_app, list_to_set_app_L. simpl. set_solver. }
  assert (∀ order, evictRuns rs order = Some (rs, order)) as ->.
  { intros order. rewrite <-Hd, size_dom in Hsz. destruct order; simpl; by rewrite bool_decide_eq_false_2 by lia. }
  simpl. eexists _, _. split; [done|]. split; simpl; [done| |].
  - intros k. unfold rs. rewrite go_get_insert, fmap_app, filter_app, Hruns, <-(Hruns k). simpl.
    rewrite filter_cons, filter_nil. repeat case_decide; simplify_eq; rewrite ?app_nil_r, ?Hruns; done.
  - intros Hl. apply Forall_app in Hl as [Hl Hf]. apply Forall_cons in Hf as [Hf _].
    simpl in Hf. subst f. rewrite Hfiles by done.
    unfold rs. by rewrite go_get_insert, decide_True by done.
Qed.

Lemma events_filter_drop s k :
  sink_ok s → 0 <= k → EventsFromSequence k s = drop (Z.to_nat k) (events s).
Proof.
  intros Hok Hk. pose proof (ok_numbered _ Hok) as Hnum. unfold EventsFromSequence.
  rewrite <-(take_drop (Z.to_nat k) (events s)) at 1. rewrite filter_app.
  rewrite filter_none, filter_all; [done| |].
  - apply Forall_lookup. intros i e Hi. rewrite lookup_drop in Hi. apply Hnum in Hi. lia.
  - apply Forall_lookup. intros i e [Hi Hlt]%lookup_take_Some. apply Hnum in Hi. lia.
Qed.

Lemma sent_unaffected i n t p s s' :
  sink_ok s → Emit i n t p s = Some s' → events s' = events s ++ [newEvent i n t p s].
Proof. intros Hok E. destruct (Emit_spec i n t p s Hok) as (s2 & ? & [? _ _ _ _ _ _ _] & _). by simplify_eq. Qed.

(** An idle channel of a closed sink stays idle. *)
Lemma idle_step ch op s :
  sink_ok s → done_ s = true → chans s !! ch = Some {| buf := []; closed := false |} →
  op ≠ SUnsubscribe ch → (∀ i n t p, op ≠ SEmit i n t p) →
  ∃ s', (sinkStep op (Some s)).2 = Some s' ∧ sink_ok s' ∧ done_ s' = true ∧
    chans s' !! ch = Some {| buf := []; closed := false |}.
Proof.
  intros Hok Hd Hc Hun Hem. destruct (sinkStep_ok op s Hok) as (s' & Hs' & Hok'). exists s'.
  split_and!; [done|done|..]; destruct op as [i n t p| |ch'|ch'|]; simpl in Hs'; simplify_eq; try done.
  - by destruct (Hem i n t p).
  - destruct (Unsubscribe_spec ch' s Hok) as (s2 & ? & _ & _ & _ & Hd' & _). simplify_eq. by rewrite Hd'.
  - destruct (Recv ch' s) as [r s1] eqn:E. simplify_eq/=. unfold Recv in E. repeat case_match; by simplify_eq/=.
  - destruct (Done_spec s Hok) as (s2 & ? & _ & _ & ? & _). by simplify_eq.
  - by destruct (Hem i n t p).
  - simpl. rewrite lookup_insert_ne; [done|]. intros Heq.
    assert (ch < nextChan s)%nat by (apply (ok_fresh _ Hok); by rewrite Hc). lia.
  - destruct (Unsubscribe_spec ch' s Hok) as (s2 & ? & _ & _ & _ & _ & _ & Hch). simplify_eq.
    destruct (Hch ch) as [-> _]; [congruence|done].
  - destruct (Recv ch' s) as [r s1] eqn:E. simplify_eq/=. unfold Recv in E.
    repeat case_match; simplify_eq/=; try done.
    rewrite lookup_insert. case_decide; [|done]. by simplify_eq.
  - destruct (Done_spec s Hok) as (s2 & ? & _ & _ & _ & _ & _ & _ & Hsame). simplify_eq. by rewrite Hsame.
Qed.

(** ** Properties *)

(** In every history a sink never panics (no send on a closed channel, no
    channel closed twice), its events are numbered from one without gaps, and
    replaying from a sequence number returns exactly the events after it. *)
Theorem sink_replay_exact tenant agent run ops :
  ∃ s, (trace sinkStep (Some (NewEventSink tenant agent run)) ops).2 = Some s ∧
    Sequence <$> events s = seqZ 1 (Z.of_nat (length (events s))) ∧
    ∀ k, 0 <= k → events s = take (Z.to_nat k) (events s) ++ streamReplay k s.
Proof.
  destruct (sink_history ops _ (NewEventSink_ok tenant agent run)) as (s & Hs & Hok). exists s.
  split_and!; [done| |].
  - apply list_eq. intros i. rewrite list_lookup_fmap. destruct (events s !! i) as [e|] eqn:E; simpl.
    + rewrite (ok_numbered _ Hok _ _ E). apply lookup_lt_Some in E. rewrite lookup_seqZ_lt by lia. f_equal. lia.
    + apply lookup_ge_None in E. rewrite lookup_seqZ_ge by lia. done.
  - intros k Hk. unfold streamReplay. rewrite bool_decide_eq_true_2 by done. case_bool_decide as Hk0.
    + by rewrite events_filter_drop, take_drop.
    + replace k with 0 by lia. done.
Qed.

(** A subscriber receives a subsequence of the events emitted since it
    subscribed, in order and without repetition; as long as nothing was dropped
    and the run is not over, what it received and what waits in its buffer is
    exactly these events. *)
Theorem subscriber_stream tenant agent run pre s ops :
  (trace sinkStep (Some (NewEventSink tenant agent run)) pre).2 = Some s →
  let '(ch, s1) := Subscribe s in
  SUnsubscribe ch ∉ ops →
  let r := trace sinkStep (Some s1) ops in
  ∃ s2 c, r.2 = Some s2 ∧ chans s2 !! ch = Some c ∧
    let seen := gotFrom ch ops r.1 ++ buf c in
    let emitted := drop (length (events s)) (events s2) in
    seen `sublist_of` emitted ∧ (SDone ∉ ops → droppedEvents s2 = droppedEvents s → seen = emitted).
Proof.
  intros Hs. destruct (sink_history pre _ (NewEventSink_ok tenant agent run)) as (s' & Hs' & Hok).
  simplify_eq. unfold Subscribe at 1. cbv beta iota zeta. intros Hun.
  destruct (stream_history s (nextChan s) True ops (Subscribe s).2 []) as (s2 & Hs2 & _ & _ & c & Hc & Hsub & Hall).
  - auto with go.
  - done.
  - split_and!; simpl; [lia|lia|]. eexists. rewrite lookup_insert_eq. split; [done|]. simpl.
    rewrite drop_all. split; [done|]. intros _ _. split; [set_solver|done].
  - exists s2, c. split_and!; [done|done|done|]. intros Hd Hdr. by apply Hall.
Qed.

(** The stream handler replays and then subscribes.  An event emitted in
    between, followed by the end of the run, is neither replayed nor delivered,
    and the channel is never closed: whatever happens to the sink's other
    subscribers, the reader waits for ever. *)
Theorem stream_gap_hangs tenant agent run pre s from i n t p ops :
  (trace sinkStep (Some (NewEventSink tenant agent run)) pre).2 = Some s → done_ s = false →
  ∃ s1 s2, Emit i n t p s = Some s1 ∧ Done s1 = Some s2 ∧
    newEvent i n t p s ∈ events s1 ∧ newEvent i n t p s ∉ streamReplay from s ∧
    let '(ch, s3) := Subscribe s2 in
    SUnsubscribe ch ∉ ops → (∀ i n t p, SEmit i n t p ∉ ops) →
    ∃ s4, (trace sinkStep (Some s3) ops).2 = Some s4 ∧ (Recv ch s4).1 = Blocks.
Proof.
  intros Hs Hd. destruct (sink_history pre _ (NewEventSink_ok tenant agent run)) as (s' & Hs' & Hok). simplify_eq.
  destruct (Emit_spec i n t p s Hok) as (s1 & Hs1 & _ & Hok1).
  destruct (Done_spec s1 Hok1) as (s2 & Hs2 & Hok2 & _ & Hd2 & _).
  exists s1, s2. split_and!; [done|done|..].
  - rewrite (sent_unaffected _ _ _ _ _ _ Hok Hs1). set_solver.
  - intros Hin. assert (newEvent i n t p s ∈ events s) as [j Hj]%list_elem_of_lookup.
    { unfold streamReplay, Events_, EventsFromSequence in Hin. repeat case_bool_decide; [|done|].
      - by apply list_elem_of_filter in Hin as [_ ?].
      - by apply not_elem_of_nil in Hin. }
    pose proof (ok_numbered _ Hok _ _ Hj) as Hn. apply lookup_lt_Some in Hj. simpl in Hn.
    rewrite (ok_seq _ Hok) in Hn. lia.
  - unfold Subscribe at 1. cbv beta iota zeta. intros Hun Hem.
    pose proof (trace_invariant sinkStep (λ os, ∃ s, os = Some s ∧ sink_ok s ∧ done_ s = true ∧
      chans s !! nextChan s2 = Some {| buf := []; closed := false |}) ops (Some (Subscribe s2).2)) as Hinv.
    destruct Hinv as (s4 & Hs4 & _ & _ & Hc4).
    + intros op os Hop (s0 & -> & Hok0 & Hd0 & Hc0). apply idle_step; try done.
      * intros ->. done.
      * intros i' n' t' p' ->. by apply (Hem i' n' t' p').
    + eexists. split; [done|]. split_and!; [auto with go|done|]. simpl. by rewrite lookup_insert_eq.
    + exists s4. split; [done|]. unfold Recv. by rewrite Hc4.
Qed.

(** The event log never panics and caches a bounded number of runs; while no
    more runs than the cap have been logged, a query returns exactly the
    events appended for the run, in order, and so does its file when the
    writes succeed. *)
Theorem event_log_complete l :
  ∃ s, foldl logStep (Some (NewFileEventLogStore ∅)) l = Some s ∧
    Z.of_nat (size (logRuns s)) <= maxRunsInMemory ∧
    (Z.of_nat (size (list_to_set ((λ fe, eventKey fe.2) <$> l) : gset string)) <= maxRunsInMemory →
     (∀ t r, QueryFromSequence t r 0 s = filter (λ e, eventKey e = runKey t r) l.*2) ∧
     (Forall (λ fe, fe.1 = false) l → logFiles s = logRuns s)).
Proof.
  assert (∃ s, foldl logStep (Some (NewFileEventLogStore ∅)) l = Some s ∧ log_ok s ∧
    Z.of_nat (size (logRuns s)) <= maxRunsInMemory ∧
    (Z.of_nat (size (list_to_set ((λ fe, eventKey fe.2) <$> l) : gset string)) <= maxRunsInMemory →
     log_complete l s)) as (s & Hs & _ & Hsz & Hc).
  { induction l as [|[f e] l IH] using rev_ind.
    - eexists. split; [done|]. split_and!; [|done|].
      + unfold log_ok. simpl. set_solver.
      + intros _. split; simpl; [set_solver|done|done].
    - destruct IH as (s & Hs & Hok & _ & Hc). rewrite foldl_app, Hs. simpl.
      destruct (Append_ok f e s Hok) as (b & s' & Hap & Hok' & Hsz'). rewrite Hap. simpl.
      exists s'. split_and!; try done. intros Hsz.
      destruct (Append_complete l f e s) as (b2 & s2 & Hap2 & Hc2); [|done|by simplify_eq].
      apply Hc. etrans; [|exact Hsz]. apply inj_le, subseteq_size. rewrite fmap_app, list_to_set_app. set_solver. }
  exists s. split_and!; try done. intros Hle. destruct (Hc Hle) as [_ Hruns Hfiles]. split; [|done].
  intros t r. unfold QueryFromSequence. rewrite bool_decide_eq_true_2 by done. apply Hruns.
Qed.

(** ** Witnesses *)

Definition sample_history : list SinkOp :=
  [SEmit "e1" "t1" "run.started" []; SSubscribe; SEmit "e2" "t2" "step.token" []; SRecv 0; SEmit "e3" "t3" "step.token" []].

Definition sample_sink : EventSink := NewEventSink "acme" "bot" "r1".

Definition after_history (ops : list SinkOp) : EventSink :=
  default sample_sink (trace sinkStep (Some sample_sink) ops).2.

Lemma sink_replay_exact_witness :
  EventID <$> streamReplay 1 (after_history sample_history) = ["e2"; "e3"] ∧
  events (after_history sample_history) =
    take 1 (events (after_history sample_history)) ++ streamReplay 1 (after_history sample_history).
Proof.
  split; [vm_compute; reflexivity|].
  destruct (sink_replay_exact "acme" "bot" "r1" sample_history) as (s & Hs & _ & Hk).
  unfold after_history, sample_sink. rewrite Hs. apply (Hk 1). lia.
Defined.

Lemma subscriber_stream_witness :
  ∃ s2 c, (trace sinkStep (Some (Subscribe sample_sink).2) (drop 2 sample_history)).2 = Some s2 ∧
    chans s2 !! 0%nat = Some c ∧
    gotFrom 0 (drop 2 sample_history)
      (trace sinkStep (Some (Subscribe sample_sink).2) (drop 2 sample_history)).1 ++ buf c
    `sublist_of` drop (length (events sample_sink)) (events s2).
Proof.
  destruct (subscriber_stream "acme" "bot" "r1" [] sample_sink (drop 2 sample_history)) as (s2 & c & H1 & H2 & H3 & _).
  - reflexivity.
  - vm_compute. intros H. repeat (apply elem_of_cons in H as [H|H]; [discriminate H|]). by apply not_elem_of_nil in H.
  - exists s2, c. by split_and!.
Defined.

Lemma stream_gap_hangs_witness :
  ∃ s1 s2, Emit "e9" "t9" "run.completed" [] sample_sink = Some s1 ∧ Done s1 = Some s2 ∧
    (Recv (nextChan s2) (Subscribe s2).2).1 = Blocks.
Proof.
  destruct (stream_gap_hangs "acme" "bot" "r1" [] sample_sink 0 "e9" "t9" "run.completed" [] [])
    as (s1 & s2 & H1 & H2 & _ & _ & H3); [reflexivity..|].
  exists s1, s2. split_and!; [done|done|].
  destruct H3 as (s4 & H4 & H5); [apply not_elem_of_nil|intros; apply not_elem_of_nil|].
  simpl in H4. by simplify_eq.
Defined.

Definition sample_event (run : string) (n : Z) : Event := {|
  EventID := "e"; Sequence := n; ETime := ""; EType := "step.token"; ETenantID := "acme"; EAgentID := "bot";
  ERunID := run; StepID := ""; Traceparent := traceparent; Payload := []
|}.

Lemma event_log_complete_witness :
  ∃ s, foldl logStep (Some (NewFileEventLogStore ∅))
         [(false, sample_event "a" 1); (false, sample_event "b" 1); (false, sample_event "a" 2)] = Some s ∧
    QueryFromSequence "acme" "a" 0 s = [sample_event "a" 1; sample_event "a" 2].
Proof.
  destruct (event_log_complete
    [(false, sample_event "a" 1); (false, sample_event "b" 1); (false, sample_event "a" 2)]) as (s & Hs & _ & Hc).
  exists s. split; [done|]. destruct Hc as [Hq _]; [vm_compute; congruence|].
  rewrite Hq. vm_compute. reflexivity.
Defined.

(** A run that was evicted from the cache is not reloaded: its next event
    replaces the file, and with it every earlier event. *)
Example event_log_overwrites_evicted_run :
  let others := (λ i : nat, (false, sample_event (String "r" (pretty i)) 1)) <$> seq 0 1000 in
  (λ s, Sequence <$> go_get [] (logFiles s) "acme/a") <$>
    foldl logStep (Some (NewFileEventLogStore ∅))
      ([(false, sample_event "a" 1); (false, sample_event "a" 2)] ++ others ++ [(false, sample_event "a" 3)]) =
  Some [3].
Proof. vm_compute. reflexivity. Qed.
