(* ===== verification/Chat.v ===== *)
(** * Chat messages, prompts and conversation memory

    modelpolicy/chat.go (messages and their text), internal/tokens (the token
    estimate), internal/storage/file_memory_store.go (the conversation memory of
    an agent) and agentorchestrator/prompt.go (the prompt, and the conversion
    between stored and model messages).

    Tool calls are stored as raw JSON: [RawToolCalls] says whether nothing is
    stored, or what decoding it gives. *)
From S2P Require Import Prelude GoTime GoPath GoStrings Types.
From Stdlib Require Import SpecFloat.

(** ** Messages (modelpolicy/chat.go) *)

Record FunctionCall := { FName : string; Arguments_ : string }.

Record ToolCall := { TCID : string; TCType : string; Function_ : FunctionCall }.

(** [Content] is a dynamic value: a string, or the parts of a multipart message. *)
Record ChatMessage := {
  MRole : string; Content : any; ToolCalls : list ToolCall; ToolCallID : string; MName : string
}.

Record ChatUsage := { PromptTokens : Z; CompletionTokens : Z; TotalTokens : Z }.

Record ChatChoice := { Message : ChatMessage; FinishReason : string }.

Record ChatResponse := { Choices : list ChatChoice; Usage : ChatUsage }.

Record StreamChunk := {
  Delta : string; ChunkToolCalls : list ToolCall; ChunkFinish : string;
  ChunkUsage : option ChatUsage; ChunkErr : option string
}.

(** The nonempty texts of the parts of type "text". *)
Definition textOfPart (p : any) : option string :=
  match p with
  | AMap m =>
      if decide (any_string "type" m = Some "text") then
        t ← any_string "text" m; if decide (t = "") then None else Some t
      else None
  | _ => None
  end.

Definition extractTextFromParts (parts : list any) : string :=
  String.concat " " (omap textOfPart parts).

Definition MessageText (m : ChatMessage) : string :=
  match Content m with
  | AStr s => s
  | AList parts => extractTextFromParts parts
  | _ => ""
  end.

(** ** Token estimate (internal/tokens) *)

(** [len(strings.Fields(s))]; [skip] counts the bytes left of a white-space rune. *)
Fixpoint countFields (skip : nat) (inField : bool) (s : string) : Z :=
  match s with
  | EmptyString => 0
  | String _ s' =>
      match skip with
      | S k => countFields k false s'
      | O => match spaceLen s with
             | S k => countFields k false s'
             | O => (if inField then 0 else 1) + countFields 0 true s'
             end
      end
  end.

(** The constant 1.3 and the product are float64 values. *)
Definition EstimateTokens (text : string) : Z :=
  if decide (text = "") then 0
  else
    let words := countFields 0 false text in
    if bool_decide (words = 0) then 4
    else
      let est := ftrunc (fmul (fofZ (F := spec_float) words) (SFdiv 53 1024 (fofZ 13) (fofZ 10))) in
      if bool_decide (est < 4) then 4 else est.

(** ** Conversation memory (file_memory_store.go) *)

Inductive RawToolCalls := RawNone | RawDecodes (tcs : list ToolCall) | RawGarbled.

Record StoredMessage := {
  SRole : string; SContent : string; SToolCallID : string; SToolCalls : RawToolCalls; SName : string
}.

Inductive MemError := MemContext | MemRequired | MemRead | MemWrite.

(** A file of the store: its messages, or unreadable. *)
Inductive MemFile := MemMessages (msgs : list StoredMessage) | MemBroken.

Record fileMemoryStore := { dataDir : string; memFiles : gmap string MemFile }.

Definition filePath (tenantID agentID : string) (s : fileMemoryStore) : string :=
  Join [dataDir s; tenantID; agentID +:+ ".json"].

Definition loadLocked (tenantID agentID : string) (s : fileMemoryStore) : MemError + list StoredMessage :=
  match memFiles s !! filePath tenantID agentID s with
  | None => inr []
  | Some (MemMessages msgs) => inr msgs
  | Some MemBroken => inl MemRead
  end.

Definition Append (cancelled fault : bool) (tenantID agentID : string) (messages : list StoredMessage)
    (s : fileMemoryStore) : option MemError * fileMemoryStore :=
  if cancelled then (Some MemContext, s)
  else if decide (tenantID = "" ∨ agentID = "") then (Some MemRequired, s)
  else match loadLocked tenantID agentID s with
       | inl e => (Some e, s)
       | inr existing =>
           if fault then (Some MemWrite, s)
           else (None, {| dataDir := dataDir s;
                          memFiles := <[filePath tenantID agentID s := MemMessages (existing ++ messages)]> (memFiles s) |})
       end.

(** The loop drops one message per round. *)
Fixpoint trimLoop (total maxTokens : Z) (msgs : list StoredMessage) : list StoredMessage :=
  match msgs with
  | [] => []
  | m :: msgs' =>
      if bool_decide (maxTokens < total) then trimLoop (total - EstimateTokens (SContent m)) maxTokens msgs'
      else msgs
  end.

Definition tokensOf (msgs : list StoredMessage) : Z :=
  foldr (λ m acc, EstimateTokens (SContent m) + acc) 0 msgs.

Definition trimByTokens (msgs : list StoredMessage) (maxTokens : Z) : list StoredMessage :=
  trimLoop (tokensOf msgs) maxTokens msgs.

Definition GetRecent (cancelled : bool) (tenantID agentID : string) (maxMessages maxTokens : Z)
    (s : fileMemoryStore) : MemError + list StoredMessage :=
  if cancelled then inl MemContext
  else if decide (tenantID = "" ∨ agentID = "") then inr []
  else match loadLocked tenantID agentID s with
       | inl e => inl e
       | inr all =>
           let all := if bool_decide (0 < maxMessages < Z.of_nat (length all))
                      then drop (length all - Z.to_nat maxMessages) all else all in
           inr (if bool_decide (0 < maxTokens) then trimByTokens all maxTokens else all)
       end.

Definition Clear (cancelled fault : bool) (tenantID agentID : string) (s : fileMemoryStore)
    : option MemError * fileMemoryStore :=
  if cancelled then (Some MemContext, s)
  else if decide (tenantID = "" ∨ agentID = "") then (Some MemRequired, s)
  else match memFiles s !! filePath tenantID agentID s with
       | None => (None, s)
       | Some _ => if fault then (Some MemWrite, s)
                   else (None, {| dataDir := dataDir s; memFiles := delete (filePath tenantID agentID s) (memFiles s) |})
       end.

(** ** Prompts (agentorchestrator/prompt.go) *)

Record AgentConfig := {
  SystemPrompt : string; ModelID : string; ToolNames : list string; CfgMaxSteps : Z; CfgTimeoutMs : Z
}.

Record Agent := {
  AgentID_ : string; AgentTenant : string; AName : string; Description : string; AVersion : string; AStatus : string;
  Config : option AgentConfig; ACreatedAt : string; AUpdatedAt : string
}.

(** An agent of which only the identity is known. *)
Definition bareAgent (tenantID agentID : string) : Agent := {|
  AgentID_ := agentID; AgentTenant := tenantID; AName := ""; Description := ""; AVersion := ""; AStatus := "";
  Config := None; ACreatedAt := ""; AUpdatedAt := ""
|}.

Definition storageMsgToModel (m : StoredMessage) : ChatMessage := {|
  MRole := SRole m; Content := AStr (SContent m);
  ToolCalls := match SToolCalls m with RawDecodes tcs => tcs | _ => [] end;
  ToolCallID := SToolCallID m; MName := SName m
|}.

Definition modelMsgToStorage (m : ChatMessage) : StoredMessage := {|
  SRole := MRole m; SContent := MessageText m; SToolCallID := ToolCallID m;
  SToolCalls := match ToolCalls m with [] => RawNone | tcs => RawDecodes tcs end; SName := MName m
|}.

Definition modelMsgsToStorage (msgs : list ChatMessage) : list StoredMessage := modelMsgToStorage <$> msgs.

Definition textMessage (role text : string) : ChatMessage :=
  {| MRole := role; Content := AStr text; ToolCalls := []; ToolCallID := ""; MName := "" |}.

Definition buildPrompt (agent : Agent) (run : Run) (history : list StoredMessage) : list ChatMessage :=
  match Config agent with
  | Some c => if decide (SystemPrompt c = "") then [] else [textMessage "system" (SystemPrompt c)]
  | None => []
  end ++ (storageMsgToModel <$> history) ++
  (if decide (InputText (Input run) = "") then [] else [textMessage "user" (InputText (Input run))]).

(** ** Lemmas *)

(** Trimming leaves the longest suffix that fits. *)
Lemma trimLoop_spec maxTokens msgs :
  ∃ cut, msgs = cut ++ trimByTokens msgs maxTokens ∧
    (trimByTokens msgs maxTokens = [] ∨ tokensOf (trimByTokens msgs maxTokens) <= maxTokens) ∧
    ∀ cut' m, cut = cut' ++ [m] → maxTokens < tokensOf (m :: trimByTokens msgs maxTokens).
Proof.
  unfold trimByTokens. induction msgs as [|m msgs IH].
  { exists []. split_and!; [done|by left|]. intros cut' m Hc. by destruct cut'. }
  cbn [trimLoop]. case_bool_decide as Hlt.
  - replace (tokensOf (m :: msgs) - EstimateTokens (SContent m)) with (tokensOf msgs) by (simpl; lia).
    destruct IH as (cut & Hcut & Hfit & Hmax). exists (m :: cut). split_and!; [by rewrite Hcut at 1|done|].
    intros cut' x Hc. destruct cut as [|y cut].
    + destruct cut' as [|? []]; simplify_eq/=. by rewrite <-Hcut.
    + destruct cut' as [|z cut']; simplify_eq/=. by apply (Hmax cut').
  - exists []. split_and!; [done|right; lia|]. intros cut' x Hc. by destruct cut'.
Qed.

Lemma modelMsg_roundtrip m :
  (∃ s, Content m = AStr s) → storageMsgToModel (modelMsgToStorage m) = m.
Proof.
  intros [s Hs]. destruct m as [r c tcs tc n]. unfold storageMsgToModel, modelMsgToStorage, MessageText.
  simpl in *. subst c. by destruct tcs.
Qed.

(** ** Properties *)

(** What GetRecent returns is the longest suffix of the stored conversation
    that respects both windows: at most [maxMessages] messages, at most
    [maxTokens] estimated tokens, and one more message would break the token
    window or is beyond the message window. *)
Theorem memory_window t a maxMessages maxTokens s all recent :
  t ≠ "" → a ≠ "" → 0 < maxMessages → 0 < maxTokens →
  loadLocked t a s = inr all → GetRecent false t a maxMessages maxTokens s = inr recent →
  ∃ cut, all = cut ++ recent ∧ Z.of_nat (length recent) <= maxMessages ∧ tokensOf recent <= maxTokens ∧
    ∀ cut' m, cut = cut' ++ [m] →
      maxTokens < tokensOf (m :: recent) ∨ Z.of_nat (length recent) = maxMessages.
Proof.
  intros Ht Ha Hm Hk Hall Hrec. unfold GetRecent in Hrec. rewrite decide_False in Hrec by tauto.
  rewrite Hall, (bool_decide_eq_true_2 (0 < maxTokens)) in Hrec by done. simplify_eq.
  set (window := if bool_decide (0 < maxMessages < Z.of_nat (length all))
                 then drop (length all - Z.to_nat maxMessages) all else all).
  assert (∃ pre, all = pre ++ window ∧ Z.of_nat (length window) <= maxMessages ∧
    (pre ≠ [] → Z.of_nat (length window) = maxMessages)) as (pre & Hpre & Hlen & Hfull).
  { unfold window. case_bool_decide as Hw.
    - exists (take (length all - Z.to_nat maxMessages) all). rewrite take_drop, length_drop. split_and!; [done|lia|lia].
    - exists []. split_and!; [done|lia|done]. }
  destruct (trimLoop_spec maxTokens window) as (cut & Hcut & Hfit & Hmax).
  exists (pre ++ cut). split_and!.
  - by rewrite <-app_assoc, <-Hcut.
  - rewrite Hcut, length_app in Hlen. lia.
  - destruct Hfit as [->|?]; [simpl; lia|done].
  - intros cut' m Heq. destruct cut as [|c cut _] using rev_ind.
    + rewrite app_nil_r in Heq. right. rewrite <-Hfull; [by rewrite Hcut at 2|]. subst pre. by destruct cut'.
    + left. rewrite app_assoc in Heq. apply app_inj_tail in Heq as [_ <-]. by eapply Hmax.
Qed.

(** ** Witnesses *)

Definition stored (role text : string) : StoredMessage :=
  {| SRole := role; SContent := text; SToolCallID := ""; SToolCalls := RawNone; SName := "" |}.

Definition sample_memory : fileMemoryStore :=
  (Append false false "acme" "bot" [stored "user" "hi"; stored "assistant" "one two three four five six"; stored "user" "bye"]
    {| dataDir := "data/memory"; memFiles := ∅ |}).2.

Lemma memory_window_witness :
  ∃ cut, [stored "user" "hi"; stored "assistant" "one two three four five six"; stored "user" "bye"] =
    cut ++ [stored "assistant" "one two three four five six"; stored "user" "bye"] ∧
    tokensOf [stored "assistant" "one two three four five six"; stored "user" "bye"] <= 11.
Proof.
  destruct (memory_window "acme" "bot" 5 11 sample_memory _
    [stored "assistant" "one two three four five six"; stored "user" "bye"]
    ltac:(done) ltac:(done) ltac:(lia) ltac:(lia) eq_refl) as (cut & H1 & _ & H2 & _).
  - vm_compute. reflexivity.
  - by exists cut.
Defined.
