(* ===== verification/Executor.v ===== *)
(** * The executor: one run from queue to outcome

    agentorchestrator/agent_loop.go and executor.go.  A run executes in a worker
    goroutine while HTTP handlers may cancel it and write its record, so the
    loop is a state machine whose steps are the parts between the points where
    it waits: the start of the run, the request to the model, and the handling
    of the model's answer.  [executeRun] composes them with any activity of
    other goroutines in between.

    Calls to collaborators whose answers the loop does not use (event sink,
    webhooks, conversation memory, token budget) are recorded in order in
    [xCalls]; the run store is part of the state because the loop reads it back.
    The clock, the answers of the model and of the tools, and the outcome of
    every write are inputs.  The tool definitions passed to the model, the
    metrics and the log lines have no effect on the state and are left out. *)
From S2P Require Import Prelude GoTime GoPath Types RunStore Chat.

Inductive Call :=
  | CEmit (type : string) (payload : list (string * any))
  | CWebhook (event timestamp : string) (data : list (string * any))
  | CMemory (cancelled : bool) (msgs : list StoredMessage)
  | CBudget (tokens : Z)
  | CAutoRetry.

(** The settings of an executor; [piiDetector] tells whether a text contains
    personal data, [piiRedact] replaces what it finds. *)
Record ExecConfig := {
  defaultMaxSteps : Z;
  defaultModel : string;
  piiDetector : option (string → bool);
  piiRedact : string → string;
  piiMode : string;
  toolMaxOutput : Z;
  hasBudget : bool;
  canStream : bool;
  autoRetry : bool;
  memMaxMessages : Z;
  memMaxTokens : Z
}.

Inductive Phase := PNew | PLoop | PAsked | PFinished.

#[global] Instance Phase_eq_dec : EqDecision Phase.
Proof. solve_decision. Defined.

Record Exec := {
  xRun : Run;
  xAgent : Agent;
  xMessages : list ChatMessage;
  xModel : string;
  xMax : Z;
  xStep : Z;
  xUsage : ChatUsage;
  xPhase : Phase;
  xCtxDone : bool;
  xStore : fileRunStore;
  xCalls : list Call
}.

(** ** State updates *)

Definition setRun_ (run : Run) (x : Exec) : Exec :=
  {| xRun := run; xAgent := xAgent x; xMessages := xMessages x; xModel := xModel x; xMax := xMax x;
     xStep := xStep x; xUsage := xUsage x; xPhase := xPhase x; xCtxDone := xCtxDone x;
     xStore := xStore x; xCalls := xCalls x |}.

Definition setStore (s : fileRunStore) (x : Exec) : Exec :=
  {| xRun := xRun x; xAgent := xAgent x; xMessages := xMessages x; xModel := xModel x; xMax := xMax x;
     xStep := xStep x; xUsage := xUsage x; xPhase := xPhase x; xCtxDone := xCtxDone x;
     xStore := s; xCalls := xCalls x |}.

Definition setPhase (p : Phase) (x : Exec) : Exec :=
  {| xRun := xRun x; xAgent := xAgent x; xMessages := xMessages x; xModel := xModel x; xMax := xMax x;
     xStep := xStep x; xUsage := xUsage x; xPhase := p; xCtxDone := xCtxDone x;
     xStore := xStore x; xCalls := xCalls x |}.

Definition setMessages (ms : list ChatMessage) (x : Exec) : Exec :=
  {| xRun := xRun x; xAgent := xAgent x; xMessages := ms; xModel := xModel x; xMax := xMax x;
     xStep := xStep x; xUsage := xUsage x; xPhase := xPhase x; xCtxDone := xCtxDone x;
     xStore := xStore x; xCalls := xCalls x |}.

Definition setLoop (model : string) (max step : Z) (u : ChatUsage) (x : Exec) : Exec :=
  {| xRun := xRun x; xAgent := xAgent x; xMessages := xMessages x; xModel := model; xMax := max;
     xStep := step; xUsage := u; xPhase := xPhase x; xCtxDone := xCtxDone x;
     xStore := xStore x; xCalls := xCalls x |}.

Definition calls (cs : list Call) (x : Exec) : Exec :=
  {| xRun := xRun x; xAgent := xAgent x; xMessages := xMessages x; xModel := xModel x; xMax := xMax x;
     xStep := xStep x; xUsage := xUsage x; xPhase := xPhase x; xCtxDone := xCtxDone x;
     xStore := xStore x; xCalls := xCalls x ++ cs |}.

Definition cancelCtx (x : Exec) : Exec :=
  {| xRun := xRun x; xAgent := xAgent x; xMessages := xMessages x; xModel := xModel x; xMax := xMax x;
     xStep := xStep x; xUsage := xUsage x; xPhase := xPhase x; xCtxDone := true;
     xStore := xStore x; xCalls := xCalls x |}.

(** A run with a new status, timestamps and result. *)
Definition runWith (status started completed : string) (output : option RunOutput) (err : option RunError)
    (r : Run) : Run := {|
  TenantID := TenantID r; AgentID := AgentID r; RunID := RunID r; RStatus := status;
  RCreatedAt := RCreatedAt r; StartedAt := started; CompletedAt := completed; EventsURL := EventsURL r;
  Input := Input r; Options := Options r; Output := output; Error_ := err;
  IdempotencyKey := IdempotencyKey r; RetryOf := RetryOf r; ParentRunID := ParentRunID r
|}.

Definition terminal (status : string) : bool :=
  bool_decide (status ∈ ["canceled"; "completed"; "failed"]).

Definition saveRun (cancelled fault : bool) (x : Exec) : Exec :=
  setStore (Save cancelled fault (xRun x) (xStore x)).2 x.

Definition usageAny (u : ChatUsage) : any :=
  AMap [("prompt_tokens", AInt (PromptTokens u)); ("completion_tokens", AInt (CompletionTokens u));
        ("total_tokens", AInt (TotalTokens u))].

(** ** Output limits *)

Definition truncate (s : string) (maxLen : Z) : string :=
  if bool_decide (Z.of_nat (String.length s) <= maxLen) then s
  else String.substring 0 (Z.to_nat maxLen) s +:+ "...".

Definition newline : string := String "010" "".

Definition truncateToolOutput (cfg : ExecConfig) (result : string) : string :=
  if bool_decide (0 < toolMaxOutput cfg < Z.of_nat (String.length result))
  then String.substring 0 (Z.to_nat (toolMaxOutput cfg)) result +:+ newline +:+
       "... [output truncated at " +:+ pretty (toolMaxOutput cfg) +:+ " bytes]"
  else result.

(** ** Steps of the run *)

(** The store is re-read, and a run that is already terminal keeps its record. *)
Definition failRun (cfg : ExecConfig) (now : string) (fault : bool) (code message : string) (x : Exec) : Exec :=
  let run := xRun x in
  let payload := [("run_id", AStr (RunID run)); ("code", AStr code); ("message", AStr message)] in
  let '(got, s) := Get false (TenantID run) (RunID run) (xStore x) in
  let x := setStore s x in
  let fail :=
    let run := runWith "failed" (StartedAt run) now (Output run)
                 (Some {| ErrCode := code; ErrMessage := message; ErrDetails := [] |}) run in
    calls (CEmit "run.failed" payload ::
           CWebhook "run.failed" now [("code", AStr code); ("message", AStr message)] ::
           (if decide (code = "provider_error" ∧ RetryOf run = "" ∧ autoRetry cfg = true) then [CAutoRetry] else []))
      (saveRun false fault (setRun_ run x)) in
  setPhase PFinished
    match got with
    | inr (Some current) =>
        if terminal (RStatus current)
        then calls [CEmit "run.failed" (payload ++ [("note", AStr ("run already in terminal state: " +:+ RStatus current))])] x
        else fail
    | _ => fail
    end.

Definition transitionToRunning (now : string) (fault : bool) (x : Exec) : Exec :=
  let run := runWith "running" now (CompletedAt (xRun x)) (Output (xRun x)) (Error_ (xRun x)) (xRun x) in
  calls [CEmit "run.started" [("run_id", AStr (RunID run))]; CWebhook "run.started" now []]
    (saveRun (xCtxDone x) fault (setRun_ run x)).

Definition maxStepsOf (cfg : ExecConfig) (run : Run) (agent : Agent) : Z :=
  let own := MaxSteps (Options run) in
  let maxSteps := if bool_decide (0 < own) then own else defaultMaxSteps cfg in
  match Config agent with
  | Some c => if bool_decide (0 < CfgMaxSteps c ∧ own = 0) then CfgMaxSteps c else maxSteps
  | None => maxSteps
  end.

Definition modelOf (cfg : ExecConfig) (agent : Agent) : string :=
  match Config agent with
  | Some c => if decide (ModelID c = "") then defaultModel cfg else ModelID c
  | None => defaultModel cfg
  end.

Definition zeroUsage : ChatUsage := {| PromptTokens := 0; CompletionTokens := 0; TotalTokens := 0 |}.

(** Everything before the loop. *)
Definition startRun (cfg : ExecConfig) (now now' : string) (fault fault' : bool) (mem : fileMemoryStore)
    (x : Exec) : Exec :=
  let x := transitionToRunning now fault x in
  let run := xRun x in
  let history := match GetRecent (xCtxDone x) (TenantID run) (AgentID run) (memMaxMessages cfg) (memMaxTokens cfg) mem with
                 | inr h => h
                 | inl _ => []
                 end in
  let x := setMessages (buildPrompt (xAgent x) run history) x in
  let model := modelOf cfg (xAgent x) in
  if decide (model = "")
  then failRun cfg now' fault' "no_model" "no model configured for agent and no default model set" x
  else setPhase PLoop (setLoop model (maxStepsOf cfg run (xAgent x)) 0 zeroUsage x).

Inductive PIIVerdict := PIIBlocked | PIIContinue (messages : list ChatMessage).

(** Only the latest message is scanned, and only a user's. *)
Definition scanInputForPII (cfg : ExecConfig) (messages : list ChatMessage) : PIIVerdict :=
  match piiDetector cfg, last messages with
  | Some detects, Some m =>
      let text := MessageText m in
      if decide (MRole m ≠ "user" ∨ text = "") then PIIContinue messages
      else if detects text then
        if decide (piiMode cfg = "block") then PIIBlocked
        else if decide (piiMode cfg = "redact") then
          PIIContinue (take (length messages - 1) messages ++
            [{| MRole := MRole m; Content := AStr (piiRedact cfg text); ToolCalls := ToolCalls m;
                ToolCallID := ToolCallID m; MName := MName m |}])
        else PIIContinue messages
      else PIIContinue messages
  | _, _ => PIIContinue messages
  end.

(** The head of an iteration, up to the call of the model. *)
Definition askModel (cfg : ExecConfig) (now : string) (fault : bool) (x : Exec) : Exec :=
  if bool_decide (xStep x < xMax x) then
    let x := setLoop (xModel x) (xMax x) (xStep x + 1) (xUsage x) x in
    if xCtxDone x then failRun cfg now fault "canceled" "run canceled" x
    else match scanInputForPII cfg (xMessages x) with
         | PIIBlocked => failRun cfg now fault "pii_blocked" "PII detected in input" x
         | PIIContinue ms =>
             setPhase PAsked
               (calls [CEmit "step.model_invoke" [("step", AInt (xStep x)); ("model", AStr (xModel x))]]
                  (setMessages ms x))
         end
  else failRun cfg now fault "max_steps_exceeded"
         ("run exceeded maximum of " +:+ pretty (xMax x) +:+ " steps") x.

(** ** The model's answer *)

Record StreamAcc := { accText : string; accCalls : list ToolCall; accFinish : string; accUsage : ChatUsage }.

(** The chunks are consumed in order; the calls are the token events emitted. *)
Fixpoint streamChunks (step : Z) (acc : StreamAcc) (chunks : list StreamChunk)
    : list Call * (string + StreamAcc) :=
  match chunks with
  | [] => ([], inr acc)
  | ch :: chunks' =>
      match ChunkErr ch with
      | Some e => ([], inl e)
      | None =>
          let acc' := {| accText := accText acc +:+ Delta ch;
                         accCalls := accCalls acc ++ ChunkToolCalls ch;
                         accFinish := if decide (ChunkFinish ch = "") then accFinish acc else ChunkFinish ch;
                         accUsage := default (accUsage acc) (ChunkUsage ch) |} in
          let '(cs, r) := streamChunks step acc' chunks' in
          ((if decide (Delta ch = "") then []
            else [CEmit "step.token" [("delta", AStr (Delta ch)); ("step", AInt step)]]) ++ cs, r)
      end
  end.

Definition toolCallEvent (step : Z) (tc : ToolCall) : Call :=
  CEmit "step.tool_call" [("step", AInt step); ("tool_name", AStr (FName (Function_ tc))); ("tool_id", AStr (TCID tc))].

Definition streamModelCall (step : Z) (answer : string + list StreamChunk) : list Call * (string + ChatResponse) :=
  match answer with
  | inl e => ([], inl e)
  | inr chunks =>
      match streamChunks step {| accText := ""; accCalls := []; accFinish := ""; accUsage := zeroUsage |} chunks with
      | (cs, inl e) => (cs, inl e)
      | (cs, inr acc) =>
          (cs ++ (toolCallEvent step <$> accCalls acc),
           inr {| Choices := [{| Message := {| MRole := "assistant"; Content := AStr (accText acc);
                                               ToolCalls := accCalls acc; ToolCallID := ""; MName := "" |};
                                 FinishReason := if decide (accFinish acc = "") then "stop" else accFinish acc |}];
                  Usage := accUsage acc |})
      end
  end.

(** What the provider answers, to either kind of request. *)
Record Answer := { aBuffered : string + ChatResponse; aStream : string + list StreamChunk }.

Definition invokeModel (cfg : ExecConfig) (x : Exec) (a : Answer) : list Call * (string + ChatResponse) :=
  if StreamEvents (Options (xRun x)) && canStream cfg then streamModelCall (xStep x) (aStream a)
  else ([], aBuffered a).

(** The output and the duration of the i-th tool call of the answer. *)
Definition ToolOracle := nat → ToolCall → string * Z.

Definition toolResult (cfg : ExecConfig) (tools : ToolOracle) (i : nat) (tc : ToolCall) : string * Z :=
  let '(result, ms) := tools i tc in (truncateToolOutput cfg result, ms).

Definition toolCalls (now : string) (step : Z) (tc : ToolCall) (r : string * Z) : list Call :=
  [CEmit "step.tool_result" [("step", AInt step); ("tool_id", AStr (TCID tc)); ("result", AStr (truncate r.1 500))];
   CWebhook "run.step" now
     [("step_id", AStr (TCID tc)); ("tool_name", AStr (FName (Function_ tc)));
      ("tool_input", AStr (truncate (Arguments_ (Function_ tc)) 512));
      ("tool_output", AStr (truncate r.1 512)); ("duration_ms", AInt r.2)]].

Definition toolMessage (tc : ToolCall) (r : string * Z) : ChatMessage :=
  {| MRole := "tool"; Content := AStr r.1; ToolCalls := []; ToolCallID := TCID tc; MName := "" |}.

Definition addUsage (a b : ChatUsage) : ChatUsage := {|
  PromptTokens := PromptTokens a + PromptTokens b;
  CompletionTokens := CompletionTokens a + CompletionTokens b;
  TotalTokens := TotalTokens a + TotalTokens b
|}.

(** Run the requested tools; the results are reported in the order of the calls. *)
Definition runTools (cfg : ExecConfig) (now : string) (tools : ToolOracle) (msg : ChatMessage) (x : Exec) : Exec :=
  let results := imap (λ i tc, (tc, toolResult cfg tools i tc)) (ToolCalls msg) in
  setPhase PLoop
    (calls ((toolCallEvent (xStep x) <$> ToolCalls msg) ++
            (results ≫= λ tr, toolCalls now (xStep x) tr.1 tr.2))
       (setMessages (xMessages x ++ [msg] ++ ((λ tr, toolMessage tr.1 tr.2) <$> results)) x)).

(** The final answer: the record is saved, whatever the store holds by now. *)
Definition completeRun (now : string) (fault : bool) (msg : ChatMessage) (x : Exec) : Exec :=
  let run := runWith "completed" (StartedAt (xRun x)) now
               (Some {| OutputType := "text"; OutputText := MessageText msg; Artifacts := [] |})
               (Error_ (xRun x)) (xRun x) in
  setPhase PFinished
    (calls [CEmit "run.completed" [("run_id", AStr (RunID run)); ("total_steps", AInt (xStep x)); ("usage", usageAny (xUsage x))];
            CWebhook "run.completed" now [("total_steps", AInt (xStep x))];
            CMemory (xCtxDone x) (modelMsgsToStorage (xMessages x))]
       (saveRun false fault (setRun_ run x))).

(** The rest of an iteration, from the model's answer on. *)
Definition handleAnswer (cfg : ExecConfig) (now : string) (fault : bool) (a : Answer) (tools : ToolOracle)
    (x : Exec) : Exec :=
  let '(cs, resp) := invokeModel cfg x a in
  let x := calls cs x in
  match resp with
  | inl err => if xCtxDone x then failRun cfg now fault "canceled" "run canceled" x
               else failRun cfg now fault "provider_error" err x
  | inr resp =>
      match Choices resp with
      | [] => failRun cfg now fault "provider_error" "no choices in model response" x
      | choice :: _ =>
          let x := setLoop (xModel x) (xMax x) (xStep x) (addUsage (xUsage x) (Usage resp)) x in
          let x := calls ((if hasBudget cfg then [CBudget (TotalTokens (Usage resp))] else []) ++
                     [CEmit "step.model_response" [("step", AInt (xStep x)); ("finish_reason", AStr (FinishReason choice));
                                                   ("usage", usageAny (Usage resp))]]) x in
          if decide (FinishReason choice = "tool_calls" ∧ ToolCalls (Message choice) ≠ [])
          then runTools cfg now tools (Message choice) x
          else completeRun now fault (Message choice) x
      end
  end.

(** ** Interleaving with other goroutines *)

Inductive EnvOp := EnvCancel | EnvStore (op : StoreOp).

Definition envStep (x : Exec) (op : EnvOp) : Exec :=
  match op with
  | EnvCancel => cancelCtx x
  | EnvStore op => setStore (storeStep op (xStore x)).2 x
  end.

(** The inputs of one iteration, with what other goroutines do before the
    model is asked and while it answers. *)
Record Iteration := {
  iBefore : list EnvOp;
  iNow : string;
  iFault : bool;
  iDuring : list EnvOp;
  iAnswer : Answer;
  iTools : ToolOracle;
  iNow' : string;
  iFault' : bool
}.

Definition iterate (cfg : ExecConfig) (x : Exec) (i : Iteration) : Exec :=
  match xPhase x with
  | PLoop =>
      let x := askModel cfg (iNow i) (iFault i) (exec envStep x (iBefore i)) in
      match xPhase x with
      | PAsked => handleAnswer cfg (iNow' i) (iFault' i) (iAnswer i) (iTools i) (exec envStep x (iDuring i))
      | _ => x
      end
  | _ => x
  end.

Record runJob := { jRun : Run; jAgent : Agent; jCtxDone : bool }.

Definition newExec (job : runJob) (s : fileRunStore) : Exec := {|
  xRun := jRun job; xAgent := jAgent job; xMessages := []; xModel := ""; xMax := 0; xStep := 0;
  xUsage := zeroUsage; xPhase := PNew; xCtxDone := jCtxDone job; xStore := s; xCalls := []
|}.

(** The whole run; [its] are the inputs of the iterations. *)
Definition executeRun (cfg : ExecConfig) (job : runJob) (now now' : string) (fault fault' : bool)
    (mem : fileMemoryStore) (its : list Iteration) (s : fileRunStore) : Exec :=
  foldl (iterate cfg) (startRun cfg now now' fault fault' mem (newExec job s)) its.

(** ** Automatic retry *)

Definition retryRunOf (now newRunID : string) (run : Run) : Run := {|
  TenantID := TenantID run; AgentID := AgentID run; RunID := newRunID; RStatus := "queued";
  RCreatedAt := now; StartedAt := ""; CompletedAt := "";
  EventsURL := "/v1/runs/" +:+ newRunID +:+ "/events"; Input := Input run; Options := Options run;
  Output := None; Error_ := None; IdempotencyKey := ""; RetryOf := RunID run; ParentRunID := ""
|}.

(** After the delay: nothing on shutdown, else the retry is created and submitted. *)
Definition scheduleAutoRetry (shutdown fault : bool) (now newRunID : string) (run : Run) (agent : Agent)
    (s : fileRunStore) : option runJob * fileRunStore :=
  if shutdown then (None, s)
  else let retryRun := retryRunOf now newRunID run in
       match Create shutdown fault retryRun s with
       | (Some _, s) => (None, s)
       | (None, s) => (Some {| jRun := retryRun; jAgent := agent; jCtxDone := false |}, s)
       end.

(** ** The executor's registry of runs (executor.go) *)

Definition sinkTTL : Duration := 5 * Minute.

(** [cancels] holds the runs whose cancel function is known, [cancelled] those
    whose context it has ended; a sink is identified by its run. *)
Record Registry := {
  cancels : gset string;
  cancelled_ : gset string;
  eventSinks : gset string;
  sinkCompleted : gmap string Time;
  queue : list runJob
}.

Definition Submit (job : runJob) (g : Registry) : Registry := {|
  cancels := {[RunID (jRun job)]} ∪ cancels g; cancelled_ := cancelled_ g;
  eventSinks := {[RunID (jRun job)]} ∪ eventSinks g; sinkCompleted := sinkCompleted g;
  queue := queue g ++ [job]
|}.

Definition Cancel (runID : string) (g : Registry) : Registry := {|
  cancels := cancels g;
  cancelled_ := if decide (runID ∈ cancels g) then {[runID]} ∪ cancelled_ g else cancelled_ g;
  eventSinks := eventSinks g; sinkCompleted := sinkCompleted g; queue := queue g
|}.

Definition evictStaleSinks (now : Time) (g : Registry) : Registry :=
  let stale := dom (filter (λ kt, kt.2 < now - sinkTTL) (sinkCompleted g)) in
  {| cancels := cancels g; cancelled_ := cancelled_ g; eventSinks := eventSinks g ∖ stale;
     sinkCompleted := filter (λ kt, ¬ kt.2 < now - sinkTTL) (sinkCompleted g); queue := queue g |}.

(** What a worker does after [executeRun] returned. *)
Definition workerDone (now now' : Time) (runID : string) (g : Registry) : Registry :=
  evictStaleSinks now' {|
    cancels := cancels g ∖ {[runID]}; cancelled_ := cancelled_ g; eventSinks := eventSinks g;
    sinkCompleted := <[runID := now]> (sinkCompleted g); queue := queue g
  |}.

(** ** The events of a run *)

Definition emits (cs : list Call) : list string :=
  omap (λ c, match c with CEmit t _ => Some t | _ => None end) cs.

Abbreviation emitted x := (emits (xCalls x)).

Definition outcomes : list string := ["run.completed"; "run.failed"].

(** Events that neither end the run nor ask the model. *)
Definition quiet (t : string) : Prop :=
  t ∈ ["step.token"; "step.tool_call"; "step.tool_result"; "step.model_response"].

Definition invocations (ts : list string) : Z :=
  Z.of_nat (length (filter (λ t, t = "step.model_invoke") ts)).

(** The run has started, has no outcome yet and asked the model at most [k] times. *)
Definition started_ (k : Z) (ts : list string) : Prop :=
  ∃ l, ts = "run.started" :: l ∧ Forall (λ t, t ∉ outcomes) l ∧ invocations l <= k.

(** The run has exactly one outcome, its last event. *)
Definition ended (k : Z) (ts : list string) : Prop :=
  ∃ l t, ts = "run.started" :: l ++ [t] ∧ t ∈ outcomes ∧ Forall (λ t, t ∉ outcomes) l ∧ invocations l <= k.

Lemma emits_app a b : emits (a ++ b) = emits a ++ emits b.
Proof. apply omap_app. Qed.

Lemma invocations_app a b : invocations (a ++ b) = invocations a + invocations b.
Proof. unfold invocations. rewrite filter_app, length_app. lia. Qed.

Lemma quiet_invocations ts : Forall quiet ts → invocations ts = 0.
Proof.
  intros Hq. unfold invocations. rewrite filter_none; [done|].
  eapply Forall_impl; [exact Hq|]. intros t Ht ->. unfold quiet in Ht. set_solver.
Qed.

Lemma quiet_no_outcome ts : Forall quiet ts → Forall (λ t, t ∉ outcomes) ts.
Proof. intros Hq. eapply Forall_impl; [exact Hq|]. unfold quiet, outcomes. intros t Ht Ho. set_solver. Qed.

Lemma started_quiet k ts qs : started_ k ts → Forall quiet qs → started_ k (ts ++ qs).
Proof.
  intros (l & -> & Hl & Hk) Hq. exists (l ++ qs). split_and!; [done| |].
  - apply Forall_app. split; [done|by apply quiet_no_outcome].
  - rewrite invocations_app, (quiet_invocations qs) by done. lia.
Qed.

Lemma started_invoke k ts : started_ k ts → started_ (k + 1) (ts ++ ["step.model_invoke"]).
Proof.
  intros (l & -> & Hl & Hk). exists (l ++ ["step.model_invoke"]). split_and!; [done| |].
  - apply Forall_app. split; [done|]. apply Forall_singleton. unfold outcomes. set_solver.
  - rewrite invocations_app. change (invocations ["step.model_invoke"]) with 1. lia.
Qed.

Lemma started_ended k ts t : started_ k ts → t ∈ outcomes → ended k (ts ++ [t]).
Proof. intros (l & -> & Hl & Hk) Ht. by exists l, t. Qed.

Lemma ended_weaken k k' ts : k <= k' → ended k ts → ended k' ts.
Proof. intros ? (l & t & ? & ? & ? & ?). exists l, t. split_and!; try done. lia. Qed.

Lemma toolCallEvents_quiet step tcs : Forall quiet (emits (toolCallEvent step <$> tcs)).
Proof. induction tcs; simpl; [constructor|]. constructor; [|done]. unfold quiet. set_solver. Qed.

Lemma streamChunks_quiet step acc chunks : Forall quiet (emits (streamChunks step acc chunks).1).
Proof.
  revert acc. induction chunks as [|ch chunks IH]; intros acc; simpl; [constructor|].
  destruct (ChunkErr ch); simpl; [constructor|].
  match goal with |- context [streamChunks step ?a chunks] => specialize (IH a); destruct (streamChunks step a chunks) as [cs r] end.
  simpl in *. rewrite emits_app. apply Forall_app. split; [|done].
  case_decide; simpl; [constructor|]. apply Forall_singleton. unfold quiet. set_solver.
Qed.

Lemma invokeModel_quiet cfg x a : Forall quiet (emits (invokeModel cfg x a).1).
Proof.
  unfold invokeModel. case_match; [|constructor]. unfold streamModelCall.
  destruct (aStream a) as [e|chunks]; simpl; [constructor|].
  match goal with |- context [streamChunks ?s ?c chunks] =>
    pose proof (streamChunks_quiet s c chunks); destruct (streamChunks s c chunks) as [cs [e|acc]] end;
    simpl in *; [done|]. rewrite emits_app. apply Forall_app. split; [done|apply toolCallEvents_quiet].
Qed.

#[export] Hint Resolve toolCallEvents_quiet invokeModel_quiet started_quiet quiet_no_outcome : go.

(** ** Every step makes progress *)

Lemma failRun_ends cfg now f code msg k x :
  started_ k (emitted x) →
  let x' := failRun cfg now f code msg x in xPhase x' = PFinished ∧ ended k (emitted x').
Proof.
  intros Hs. unfold failRun. destruct (Get _ _ _ _) as [got s]. split; [done|]. simpl.
  assert (ended k (emitted x ++ ["run.failed"])) by (apply started_ended; [done|set_solver]).
  repeat (case_match || case_decide); simpl; rewrite emits_app; done.
Qed.

Lemma envs_frame ops x :
  let x' := exec envStep x ops in
  xPhase x' = xPhase x ∧ xCalls x' = xCalls x ∧ xStep x' = xStep x ∧ xMax x' = xMax x ∧ xRun x' = xRun x.
Proof.
  cbv zeta. apply (exec_invariant envStep (λ y, xPhase y = xPhase x ∧ xCalls y = xCalls x ∧ xStep y = xStep x ∧
    xMax y = xMax x ∧ xRun y = xRun x)); [done|]. intros y [|] Hy _; done.
Qed.

(** The loop is at its head after [k] iterations, or the run is over. *)
Definition progress (max k : Z) (x : Exec) : Prop :=
  (xPhase x = PFinished ∧ ended (Z.max 0 max) (emitted x)) ∨
  (xPhase x = PLoop ∧ xStep x = k ∧ xMax x = max ∧ 0 <= k <= Z.max 0 max ∧ started_ k (emitted x)).

Lemma askModel_progress cfg now f x max k :
  xStep x = k → xMax x = max → 0 <= k <= Z.max 0 max → started_ k (emitted x) →
  let x' := askModel cfg now f x in
  (xPhase x' = PFinished ∧ ended (Z.max 0 max) (emitted x')) ∨
  (xPhase x' = PAsked ∧ xStep x' = k + 1 ∧ xMax x' = max ∧ k + 1 <= max ∧ started_ (k + 1) (emitted x')).
Proof.
  intros Hk Hm Hle Hs. unfold askModel.
  assert (∀ code msg y, emitted y = emitted x →
    xPhase (failRun cfg now f code msg y) = PFinished ∧ ended (Z.max 0 max) (emitted (failRun cfg now f code msg y))) as Hfail.
  { intros code msg y Hy. destruct (failRun_ends cfg now f code msg k y) as [? ?]; [by rewrite Hy|].
    split; [done|]. eapply ended_weaken; [|done]. lia. }
  case_bool_decide as Hlt; [|left; by apply Hfail]. simpl.
  destruct (xCtxDone x); [left; by apply Hfail|].
  destruct (scanInputForPII _ _) as [|ms]; [left; by apply Hfail|]. right. simpl.
  rewrite emits_app. split_and!; [done|lia|done|lia|]. by apply started_invoke.
Qed.

Lemma handleAnswer_progress cfg now f a tools x max k :
  xStep x = k → xMax x = max → 0 <= k <= max → started_ k (emitted x) →
  progress max k (handleAnswer cfg now f a tools x).
Proof.
  intros Hk Hm Hle Hs. unfold handleAnswer.
  pose proof (invokeModel_quiet cfg x a) as Hq. destruct (invokeModel cfg x a) as [cs resp]. simpl in Hq.
  assert (started_ k (emitted (calls cs x))) as Hs1 by (simpl; rewrite emits_app; by apply started_quiet).
  assert (∀ code msg, progress max k (failRun cfg now f code msg (calls cs x))) as Hfail.
  { intros code msg. left. destruct (failRun_ends cfg now f code msg k (calls cs x) Hs1) as [? ?].
    split; [done|]. eapply ended_weaken; [|done]. lia. }
  destruct resp as [err|resp]; [destruct (xCtxDone _); apply Hfail|].
  destruct (Choices resp) as [|choice rest]; [apply Hfail|].
  match goal with |- context [runTools cfg now tools _ ?y] => set (y1 := y) end.
  assert (started_ k (emitted y1)) as Hs2.
  { unfold y1. simpl. rewrite !emits_app, app_assoc. simpl in Hs1. rewrite emits_app in Hs1.
    apply started_quiet.
    - apply started_quiet; [done|]. destruct (hasBudget cfg); constructor.
    - apply Forall_singleton. unfold quiet. set_solver. }
  assert (xStep y1 = k ∧ xMax y1 = max) as [Hk1 Hm1] by done. clearbody y1.
  case_decide.
  - right. unfold runTools. simpl. split_and!; try done; [lia|lia|]. rewrite emits_app, emits_app.
    apply started_quiet; [done|]. apply Forall_app. split; [auto with go|].
    generalize (imap (λ i tc, (tc, toolResult cfg tools i tc)) (ToolCalls (Message choice))).
    intros rs. induction rs as [|r rs IH]; simpl; [constructor|]. constructor; [|done]. unfold quiet. set_solver.
  - left. split; [done|]. unfold completeRun. simpl. rewrite emits_app. simpl.
    eapply ended_weaken; [|apply started_ended; [exact Hs2|set_solver]]. lia.
Qed.

Lemma iterate_progress cfg max k x i :
  progress max k x → progress max (k + 1) (iterate cfg x i).
Proof.
  intros [[Hp He]|(Hp & Hk & Hm & Hle & Hs)]; unfold iterate; rewrite Hp; [by left|].
  destruct (envs_frame (iBefore i) x) as (_ & Hc & Hst & Hmx & _).
  destruct (askModel_progress cfg (iNow i) (iFault i) (exec envStep x (iBefore i)) max k)
    as [[Hp' He']|(Hp' & Hk' & Hm' & Hle' & Hs')]; [congruence|congruence|done|by rewrite Hc|..].
  - rewrite Hp'. by left.
  - rewrite Hp'.
    set (x2 := askModel cfg (iNow i) (iFault i) (exec envStep x (iBefore i))) in *.
    destruct (envs_frame (iDuring i) x2) as (_ & Hc2 & Hst2 & Hmx2 & _).
    apply handleAnswer_progress; [congruence|congruence|lia|by rewrite Hc2].
Qed.

Lemma startRun_progress cfg now now' f f' mem job s :
  progress (maxStepsOf cfg (jRun job) (jAgent job)) 0 (startRun cfg now now' f f' mem (newExec job s)).
Proof.
  unfold startRun. set (x := transitionToRunning now f (newExec job s)).
  assert (started_ 0 (emitted x)) as Hs by (exists []; split_and!; [done|constructor|done]).
  case_decide.
  - left. match goal with |- context [failRun cfg now' f' ?c ?m ?y] =>
      destruct (failRun_ends cfg now' f' c m 0 y Hs) as [? He] end.
    split; [done|]. eapply ended_weaken; [|exact He]. lia.
  - right. simpl. split_and!; try done; lia.
Qed.

Lemma iterations_progress cfg max its k x :
  progress max k x → progress max (k + Z.of_nat (length its)) (foldl (iterate cfg) x its).
Proof.
  revert k x. induction its as [|i its IH]; intros k x Hp; simpl.
  - by rewrite Z.add_0_r.
  - replace (k + Z.of_nat (S (length its))) with (k + 1 + Z.of_nat (length its)) by lia.
    by apply IH, iterate_progress.
Qed.

(** ** What the store says about the run *)

Definition recorded (s : fileRunStore) (run : Run) (status : string) : Prop :=
  ∃ r, runs s !! keyOf run = Some r ∧ RStatus r = status.

Lemma Get_recorded s run r :
  validateRun run = None → runs s !! keyOf run = Some r →
  Get false (TenantID run) (RunID run) s = (inr (Some r), touchOrderLocked (keyOf run) s).
Proof.
  intros Hv Hr. unfold Get. rewrite decide_False by (unfold validateRun in Hv; by case_decide).
  by rewrite Hr.
Qed.

Lemma failRun_keeps_terminal cfg now f code msg x r :
  validateRun (xRun x) = None → runs (xStore x) !! keyOf (xRun x) = Some r → terminal (RStatus r) = true →
  let x' := failRun cfg now f code msg x in
  runs (xStore x') = runs (xStore x) ∧ xRun x' = xRun x ∧ xPhase x' = PFinished ∧ xCtxDone x' = xCtxDone x.
Proof.
  intros Hv Hr Ht. unfold failRun. rewrite (Get_recorded _ _ r) by done. by rewrite Ht.
Qed.

(** Other goroutines only read the store. *)
Definition readonly (op : EnvOp) : Prop :=
  match op with EnvStore (SGet _ _ _) | EnvCancel => True | _ => False end.

Lemma envs_readonly ops x :
  Forall readonly ops →
  let x' := exec envStep x ops in
  runs (xStore x') = runs (xStore x) ∧ (xCtxDone x = true → xCtxDone x' = true).
Proof.
  intros Hro. cbv zeta. rewrite Forall_forall in Hro.
  apply (exec_invariant envStep (λ y, runs (xStore y) = runs (xStore x) ∧ (xCtxDone x = true → xCtxDone y = true))); [done|].
  intros y [|[| |c t r]] [Hy Hd] Hop; specialize (Hro _ Hop); simpl in *; try done.
  split; [|done]. rewrite <-Hy. unfold Get. destruct c; [done|]. case_decide; [done|]. by destruct (runs (xStore y) !! _).
Qed.

(** A run that is canceled, in its record and in its context. *)
Record isCanceled (x : Exec) : Prop := {
  can_phase : xPhase x = PLoop ∨ xPhase x = PFinished;
  can_ctx : xCtxDone x = true;
  can_valid : validateRun (xRun x) = None;
  can_record : recorded (xStore x) (xRun x) "canceled"
}.

Lemma iterate_canceled cfg x i :
  Forall readonly (iBefore i) → isCanceled x →
  isCanceled (iterate cfg x i) ∧ runs (xStore (iterate cfg x i)) = runs (xStore x) ∧
  invocations (emitted (iterate cfg x i)) = invocations (emitted x).
Proof.
  intros Hro [[Hp|Hp] Hc Hv Hr]; unfold iterate; rewrite Hp; [|split; [split; auto|done]].
  destruct (envs_frame (iBefore i) x) as (_ & Hcl & _ & _ & Hrun).
  destruct (envs_readonly (iBefore i) x Hro) as [Hruns Hctx]. specialize (Hctx Hc).
  set (y := exec envStep x (iBefore i)) in *. destruct Hr as (r & Hr & Hst).
  assert (∀ code msg z, xStore z = xStore y → xRun z = xRun y → xCtxDone z = true → xCalls z = xCalls y →
    xPhase (failRun cfg (iNow i) (iFault i) code msg z) = PFinished ∧
    isCanceled (failRun cfg (iNow i) (iFault i) code msg z) ∧
    runs (xStore (failRun cfg (iNow i) (iFault i) code msg z)) = runs (xStore x) ∧
    invocations (emitted (failRun cfg (iNow i) (iFault i) code msg z)) = invocations (emitted x)) as Hfail.
  { intros code msg z Hzs Hzr Hzc Hzl.
    destruct (failRun_keeps_terminal cfg (iNow i) (iFault i) code msg z r) as (H1 & H2 & H3 & H4).
    - by rewrite Hzr, Hrun.
    - by rewrite Hzs, Hzr, Hruns, Hrun.
    - by rewrite Hst.
    - split_and!; [done| | |].
      + split; [by right|congruence|by rewrite H2, Hzr, Hrun|]. exists r. by rewrite H1, H2, Hzs, Hzr, Hruns, Hrun.
      + by rewrite H1, Hzs, Hruns.
      + unfold failRun. rewrite (Get_recorded _ _ r) by (by rewrite ?Hzs, Hzr, ?Hruns, Hrun). rewrite Hst. simpl.
        rewrite emits_app, invocations_app, Hzl, Hcl. simpl. change (invocations ["run.failed"]) with 0. lia. }
  unfold askModel. case_bool_decide.
  - simpl. rewrite Hctx. destruct (Hfail "canceled" "run canceled"
      (setLoop (xModel y) (xMax y) (xStep y + 1) (xUsage y) y)) as (-> & ? & ? & ?); done.
  - match goal with |- context [failRun cfg _ _ ?c ?m y] => destruct (Hfail c m y) as (-> & ? & ? & ?); done end.
Qed.

(** The identity of the run never changes. *)
Lemma failRun_key cfg now f code msg x : keyOf (xRun (failRun cfg now f code msg x)) = keyOf (xRun x).
Proof. unfold failRun. destruct (Get _ _ _ _) as [got s]. simpl. repeat case_match; done. Qed.

Lemma iterate_key cfg x i : keyOf (xRun (iterate cfg x i)) = keyOf (xRun x).
Proof.
  unfold iterate. destruct (xPhase x); try done.
  destruct (envs_frame (iBefore i) x) as (_ & _ & _ & _ & Hrun). set (y := exec envStep x (iBefore i)) in *.
  assert (keyOf (xRun (askModel cfg (iNow i) (iFault i) y)) = keyOf (xRun x)) as Hask.
  { unfold askModel. case_bool_decide; [|by rewrite failRun_key, Hrun]. simpl.
    destruct (xCtxDone y); [by rewrite failRun_key; simpl; rewrite Hrun|].
    destruct (scanInputForPII _ _); [by rewrite failRun_key; simpl; rewrite Hrun|]. simpl. by rewrite Hrun. }
  set (z := askModel cfg (iNow i) (iFault i) y) in *. destruct (xPhase z); try done.
  destruct (envs_frame (iDuring i) z) as (_ & _ & _ & _ & Hrun2). rewrite <-Hrun2 in Hask.
  set (w := exec envStep z (iDuring i)) in *. unfold handleAnswer.
  destruct (invokeModel cfg w (iAnswer i)) as [cs [err|resp]].
  - destruct (xCtxDone _); by rewrite failRun_key.
  - destruct (Choices resp); [by rewrite failRun_key|]. by case_decide.
Qed.

(** A canceled run that a worker picks up is not overwritten. *)
Lemma startRun_canceled cfg now now' f f' mem x :
  xCtxDone x = true → validateRun (xRun x) = None → recorded (xStore x) (xRun x) "canceled" →
  let y := startRun cfg now now' f f' mem x in
  isCanceled y ∧ keyOf (xRun y) = keyOf (xRun x) ∧ runs (xStore y) = runs (xStore x) ∧ invocations (emitted y) = invocations (emitted x).
Proof.
  intros Hc Hv (r & Hr & Hst). cbv zeta. unfold startRun, transitionToRunning, saveRun. simpl. rewrite Hc. simpl.
  assert (invocations (emits (xCalls x ++ [CEmit "run.started" [("run_id", AStr (RunID (xRun x)))];
    CWebhook "run.started" now []])) = invocations (emitted x)) as Hinv.
  { rewrite emits_app, invocations_app. simpl. change (invocations ["run.started"]) with 0. lia. }
  case_decide.
  - match goal with |- context [failRun cfg now' f' ?c ?m ?z] =>
      destruct (failRun_keeps_terminal cfg now' f' c m z r) as (H1 & H2 & H3 & H4); [done|done|by rewrite Hst|];
      assert (invocations (emitted (failRun cfg now' f' c m z)) = invocations (emitted z)) as H5 end.
    { unfold failRun. rewrite (Get_recorded _ _ r) by done. rewrite Hst. simpl.
      rewrite emits_app, invocations_app. simpl. change (invocations ["run.failed"]) with 0. lia. }
    split_and!.
    + split; [by right|by rewrite H4|by rewrite H2|]. exists r. rewrite H1, H2. by split.
    + by rewrite H2.
    + by rewrite H1.
    + rewrite H5. done.
  - split_and!; [|done..]. split; [by left|done|done|]. exists r. by split.
Qed.

(** ** Persistence of the outcome *)

Lemma Save_recorded run s l :
  lruRel s l → validateRun run = None →
  let s' := (Save false false run s).2 in
  runs s' !! keyOf run = Some run ∧ ∃ l', lruRel s' l'.
Proof.
  intros Hrel Hv. unfold Save. rewrite Hv.
  pose proof (lruRel_put false s l (keyOf run) run Hrel) as Hput. split; [|eauto].
  destruct Hput as [_ -> Hnd]. apply elem_of_list_to_map_1; [done|].
  assert (0 < Z.to_nat maxRunsInRunStore)%nat by (unfold maxRunsInRunStore; lia).
  destruct (recentWithin_mostRecent 0 (keyOf run) run (without (keyOf run) l ++ [(keyOf run, run)]))
    as (l1 & l2 & Hl & _); [done|by eexists _, []|].
  unfold lruPut. rewrite Hl. set_solver.
Qed.

(** The store holds exactly the loop's own copy of the run. *)
Record inSync (x : Exec) : Prop := {
  sync_valid : validateRun (xRun x) = None;
  sync_store : runs (xStore x) !! keyOf (xRun x) = Some (xRun x);
  sync_rel : ∃ l, lruRel (xStore x) l
}.

Lemma saveRun_sync x :
  validateRun (xRun x) = None → (∃ l, lruRel (xStore x) l) → inSync (saveRun false false x).
Proof.
  intros Hv [l Hl]. destruct (Save_recorded (xRun x) (xStore x) l Hl Hv) as [? ?]. by split.
Qed.

(** The loop's copy is running, or the run is over with an outcome on record. *)
Definition synced (x : Exec) : Prop :=
  inSync x ∧ ((xPhase x = PFinished ∧ RStatus (xRun x) ∈ ["completed"; "failed"]) ∨
              (xPhase x ≠ PFinished ∧ RStatus (xRun x) = "running")).

Lemma failRun_synced cfg now code msg x :
  inSync x → RStatus (xRun x) = "running" → synced (failRun cfg now false code msg x).
Proof.
  intros [Hv Hr [l Hl]] Hst. unfold failRun. rewrite (Get_recorded _ _ (xRun x)) by done.
  rewrite Hst. change (terminal "running") with false. cbv iota zeta. split; [|left; split; [done|set_solver]].
  pose proof (lruRel_touch (xStore x) l (keyOf (xRun x)) (xRun x) Hl) as Htouch.
  rewrite touch_same in Htouch by done.
  match goal with |- context [saveRun false false ?y] => destruct (saveRun_sync y) as [? ? ?]; [done|eauto|] end.
  by split.
Qed.

(** No write fails and no other goroutine interferes. *)
Definition undisturbed (i : Iteration) : Prop :=
  iBefore i = [] ∧ iDuring i = [] ∧ iFault i = false ∧ iFault' i = false.

Lemma iterate_synced cfg x i : undisturbed i → synced x → synced (iterate cfg x i).
Proof.
  intros (Hb & Hd & Hf & Hf') Hx. pose proof Hx as [Hsync Hst]. unfold iterate. rewrite Hb, Hd, Hf, Hf'. simpl.
  destruct (xPhase x) eqn:Hp; try exact Hx. destruct Hst as [[? _]|[_ Hst]]; [congruence|].
  assert (∀ code msg y, xStore y = xStore x → xRun y = xRun x → synced (failRun cfg (iNow i) false code msg y)) as Hfail.
  { intros code msg y Hys Hyr. destruct Hsync as [Hv Hr Hl].
    apply failRun_synced; [split; rewrite ?Hys, ?Hyr; done|by rewrite Hyr]. }
  assert (∀ now code msg y, xPhase (failRun cfg now false code msg y) = PFinished) as Hfp.
  { intros now code msg y. unfold failRun. by destruct (Get _ _ _ _). }
  unfold askModel. case_bool_decide; [|rewrite Hfp; by apply Hfail]. simpl.
  destruct (xCtxDone x); [rewrite Hfp; by apply Hfail|].
  destruct (scanInputForPII _ _) as [|ms]; [rewrite Hfp; by apply Hfail|]. simpl.
  match goal with |- synced (handleAnswer _ _ _ _ _ ?y) => set (y1 := y) end.
  assert (inSync y1 ∧ RStatus (xRun y1) = "running") as [Hy Hyst] by (by destruct Hsync). clearbody y1.
  unfold handleAnswer. destruct (invokeModel cfg y1 (iAnswer i)) as [cs resp].
  assert (∀ code msg, synced (failRun cfg (iNow' i) false code msg (calls cs y1))) as Hfail'.
  { intros code msg. apply failRun_synced; [by destruct Hy|done]. }
  destruct resp as [err|resp]; [destruct (xCtxDone _); apply Hfail'|].
  destruct (Choices resp) as [|choice rest]; [apply Hfail'|]. destruct Hy as [Hv Hr [l Hl]]. case_decide.
  - split; [split; eauto|]. right. by split.
  - split; [|left; split; [done|]; simpl; set_solver].
    unfold completeRun. match goal with |- context [saveRun false false ?z] => destruct (saveRun_sync z) as [? ? ?]; [done|eauto|] end.
    by split.
Qed.

Lemma startRun_synced cfg now now' mem job s l :
  lruRel s l → validateRun (jRun job) = None → jCtxDone job = false →
  synced (startRun cfg now now' false false mem (newExec job s)).
Proof.
  intros Hl Hv Hc. unfold startRun.
  assert (inSync (transitionToRunning now false (newExec job s))) as Hsync.
  { unfold transitionToRunning. simpl. rewrite Hc.
    match goal with |- context [saveRun false false ?z] => destruct (saveRun_sync z) as [? ? ?]; [done|eauto|] end.
    by split. }
  set (x := transitionToRunning now false (newExec job s)) in *.
  assert (RStatus (xRun x) = "running" ∧ xPhase x = PNew) as [Hst Hp] by done. clearbody x.
  case_decide.
  - apply failRun_synced; [by destruct Hsync|done].
  - split; [by destruct Hsync|]. right. by split.
Qed.

(** ** Properties *)

(** C3. A run always ends: after at most one iteration more than its step limit it is
    finished, whatever the model and the tools answer, whichever writes fail
    and whatever other goroutines do.  The model has been asked at most as
    often as the limit says, and the run's events start with run.started and
    end with its only outcome event. *)
Theorem executeRun_terminates cfg job now now' f f' mem its s :
  let max := maxStepsOf cfg (jRun job) (jAgent job) in
  Z.max 0 max < Z.of_nat (length its) →
  let x := executeRun cfg job now now' f f' mem its s in
  xPhase x = PFinished ∧ ended (Z.max 0 max) (emitted x).
Proof.
  intros max Hlen. cbv zeta.
  destruct (iterations_progress cfg max its 0 _ (startRun_progress cfg now now' f f' mem job s))
    as [?|(_ & _ & _ & Hle & _)]; [done|]. lia.
Qed.

(** C15. Cancellation is final unless the model is already answering: when a run's
    context is done and its record says canceled, no sequence of iterations changes
    anything in the store or asks the model again, whatever the inputs of the iterations
    and whichever writes would fail, while other goroutines only read the store; whether
    the run was still queued or waiting at the head of its loop. *)
Theorem cancel_is_final cfg x its :
  Forall (λ i, Forall readonly (iBefore i)) its →
  xCtxDone x = true → validateRun (xRun x) = None → recorded (xStore x) (xRun x) "canceled" →
  (xPhase x = PLoop →
   runs (xStore (foldl (iterate cfg) x its)) = runs (xStore x) ∧
   invocations (emitted (foldl (iterate cfg) x its)) = invocations (emitted x)) ∧
  (∀ now now' f f' mem,
   let y := foldl (iterate cfg) (startRun cfg now now' f f' mem x) its in
   runs (xStore y) = runs (xStore x) ∧ invocations (emitted y) = invocations (emitted x)).
Proof.
  intros Hro Hc Hv Hr.
  assert (∀ y, isCanceled y →
    runs (xStore (foldl (iterate cfg) y its)) = runs (xStore y) ∧
    invocations (emitted (foldl (iterate cfg) y its)) = invocations (emitted y)) as Hloop.
  { clear Hc Hv Hr. induction Hro as [|i its Hi Hro IH]; intros y Hy; simpl; [done|].
    destruct (iterate_canceled cfg y i Hi Hy) as (Hy' & Hruns & Hinv).
    destruct (IH _ Hy') as [? ?]. split; congruence. }
  split.
  - intros Hp. apply Hloop. split; auto.
  - intros now now' f f' mem. cbv zeta.
    destruct (startRun_canceled cfg now now' f f' mem x Hc Hv Hr) as (Hy & _ & Hruns & Hinv).
    rewrite <-Hinv, <-Hruns. by apply Hloop.
Qed.

(** C16. The outcome is on record: an undisturbed run whose writes succeed ends with
    its final state, completed or failed, in the store. *)
Theorem executeRun_persists cfg job now now' mem its s l :
  lruRel s l → validateRun (jRun job) = None → jCtxDone job = false → Forall undisturbed its →
  Z.max 0 (maxStepsOf cfg (jRun job) (jAgent job)) < Z.of_nat (length its) →
  let x := executeRun cfg job now now' false false mem its s in
  (Get false (TenantID (xRun x)) (RunID (xRun x)) (xStore x)).1 = inr (Some (xRun x)) ∧
  RStatus (xRun x) ∈ ["completed"; "failed"].
Proof.
  intros Hl Hv Hc Hits Hlen. cbv zeta.
  assert (synced (executeRun cfg job now now' false false mem its s)) as [[Hv' Hr _] Hst].
  { unfold executeRun. generalize (startRun_synced cfg now now' mem job s l Hl Hv Hc).
    generalize (startRun cfg now now' false false mem (newExec job s)). clear Hlen.
    induction Hits as [|i its Hi Hits IH]; intros x Hx; simpl; [done|]. apply IH. by apply iterate_synced. }
  destruct (iterations_progress cfg _ its 0 _ (startRun_progress cfg now now' false false mem job s))
    as [[Hp _]|(_ & _ & _ & Hle & _)]; [|lia].
  fold (executeRun cfg job now now' false false mem its s) in Hp.
  rewrite (Get_recorded _ _ _ Hv' Hr). split; [done|]. destruct Hst as [[_ ?]|[? _]]; done.
Qed.

(** A run that the model answers at once, with unlimited memory windows and
    without personal data scanning. *)
Record plainRun (cfg : ExecConfig) (job : runJob) (i : Iteration) (choice : ChatChoice) : Prop := {
  plain_windows : memMaxMessages cfg <= 0 ∧ memMaxTokens cfg <= 0;
  plain_pii : piiDetector cfg = None;
  plain_model : modelOf cfg (jAgent job) ≠ "";
  plain_steps : 0 < maxStepsOf cfg (jRun job) (jAgent job);
  plain_ctx : jCtxDone job = false;
  plain_ids : TenantID (jRun job) ≠ "" ∧ AgentID (jRun job) ≠ "";
  plain_buffered : StreamEvents (Options (jRun job)) && canStream cfg = false;
  plain_env : iBefore i = [] ∧ iDuring i = [];
  plain_answer : ∃ u, aBuffered (iAnswer i) = inr {| Choices := [choice]; Usage := u |};
  plain_finish : FinishReason choice ≠ "tool_calls"
}.

(** Conversation memory keeps the prompt instead of the exchange: completing a run
    appends the whole prompt, which repeats the stored history, and not the
    model's answer, so every run at least doubles the stored conversation. *)
Theorem conversation_doubles cfg job now now' mem i choice old s :
  plainRun cfg job i choice →
  let t := TenantID (jRun job) in let a := AgentID (jRun job) in
  loadLocked t a mem = inr old →
  let msgs := modelMsgsToStorage (buildPrompt (jAgent job) (jRun job) old) in
  last (xCalls (executeRun cfg job now now' false false mem [i] s)) = Some (CMemory false msgs) ∧
  loadLocked t a (Append false false t a msgs mem).2 = inr (old ++ msgs) ∧
  (2 * length old ≤ length (old ++ msgs))%nat.
Proof.
  intros [[Hw1 Hw2] Hpii Hmodel Hsteps Hctx [Ht Ha] Hbuf [Hb Hd] [u Hans] Hfin] t a Hold msgs. subst t a. split_and!.
  - unfold executeRun, startRun. simpl foldl.
    assert (GetRecent false (TenantID (jRun job)) (AgentID (jRun job)) (memMaxMessages cfg) (memMaxTokens cfg) mem = inr old) as Hrec.
    { unfold GetRecent. rewrite decide_False by tauto. rewrite Hold.
      by rewrite !bool_decide_eq_false_2 by lia. }
    cbn -[buildPrompt GetRecent modelOf maxStepsOf iterate last]. rewrite Hctx, Hrec, decide_False by done.
    unfold iterate. cbn -[buildPrompt maxStepsOf handleAnswer askModel last]. rewrite Hb. simpl exec.
    unfold askModel. cbn -[buildPrompt maxStepsOf handleAnswer last scanInputForPII].
    rewrite bool_decide_eq_true_2 by done. rewrite Hctx. unfold scanInputForPII. rewrite Hpii.
    cbn -[buildPrompt maxStepsOf handleAnswer last]. rewrite Hd. simpl exec.
    unfold handleAnswer, invokeModel. cbn -[buildPrompt maxStepsOf last]. rewrite Hbuf, Hans. cbn [Choices]. cbv iota.
    rewrite decide_False by tauto. unfold completeRun. cbn -[buildPrompt maxStepsOf last app].
    rewrite !last_app. simpl. by rewrite Hctx.
  - unfold Append. rewrite decide_False by tauto. rewrite Hold. unfold loadLocked, filePath. simpl.
    by rewrite lookup_insert_eq.
  - rewrite length_app. unfold msgs, modelMsgsToStorage, buildPrompt.
    rewrite length_fmap, !length_app, length_fmap. lia.
Qed.

(** ** Witnesses *)

Definition sample_cfg : ExecConfig := {|
  defaultMaxSteps := 3; defaultModel := "m1"; piiDetector := None; piiRedact := λ s, s; piiMode := "warn";
  toolMaxOutput := 1048576; hasBudget := true; canStream := true; autoRetry := true;
  memMaxMessages := 0; memMaxTokens := 0
|}.

Definition sample_job (done : bool) : runJob := {|
  jRun := {| TenantID := "acme"; AgentID := "bot"; RunID := "r1"; RStatus := "queued"; RCreatedAt := "t0";
             StartedAt := ""; CompletedAt := ""; EventsURL := "/v1/runs/r1/events";
             Input := {| InputType := "text"; InputText := "hello" |}; Options := Options zeroRun;
             Output := None; Error_ := None; IdempotencyKey := ""; RetryOf := ""; ParentRunID := "" |};
  jAgent := bareAgent "acme" "bot";
  jCtxDone := done
|}.

Definition say (text finish : string) (tcs : list ToolCall) : Answer :=
  let resp := {| Choices := [{| Message := {| MRole := "assistant"; Content := AStr text; ToolCalls := tcs;
                                              ToolCallID := ""; MName := "" |}; FinishReason := finish |}];
                 Usage := {| PromptTokens := 5; CompletionTokens := 2; TotalTokens := 7 |} |} in
  {| aBuffered := inr resp; aStream := inl "unused" |}.

Definition iteration (during : list EnvOp) (a : Answer) : Iteration := {|
  iBefore := []; iNow := "t2"; iFault := false; iDuring := during; iAnswer := a;
  iTools := λ _ _, ("4", 12); iNow' := "t3"; iFault' := false
|}.

Definition search : ToolCall := {| TCID := "c1"; TCType := "function"; Function_ := {| FName := "search"; Arguments_ := "{}" |} |}.

Definition empty_memory : fileMemoryStore := {| dataDir := "data/memory"; memFiles := ∅ |}.

Definition sample_exec : Exec :=
  executeRun sample_cfg (sample_job false) "t1" "t1" false false empty_memory
    [iteration [] (say "" "tool_calls" [search]); iteration [] (say "done" "stop" []);
     iteration [] (say "" "stop" []); iteration [] (say "" "stop" [])] emptyStore.

Lemma executeRun_terminates_witness :
  emitted sample_exec = ["run.started"; "step.model_invoke"; "step.model_response"; "step.tool_call"; "step.tool_result";
                         "step.model_invoke"; "step.model_response"; "run.completed"] ∧
  xPhase sample_exec = PFinished.
Proof.
  split; [vm_compute; reflexivity|].
  apply (executeRun_terminates sample_cfg (sample_job false) "t1" "t1" false false empty_memory
    [iteration [] (say "" "tool_calls" [search]); iteration [] (say "done" "stop" []);
     iteration [] (say "" "stop" []); iteration [] (say "" "stop" [])] emptyStore).
  vm_compute. reflexivity.
Defined.

Definition canceledRun : Run := runWith "canceled" "" "t9" None None (jRun (sample_job false)).

Definition canceledStore : fileRunStore := (Save false false canceledRun emptyStore).2.

Lemma cancel_is_final_witness :
  runs (xStore (executeRun sample_cfg (sample_job true) "t1" "t1" false false empty_memory
    [iteration [] (say "done" "stop" [])] canceledStore)) = runs canceledStore ∧
  runs canceledStore !! keyOf (jRun (sample_job true)) = Some canceledRun.
Proof.
  split; [|vm_compute; reflexivity].
  apply (cancel_is_final sample_cfg (newExec (sample_job true) canceledStore) [iteration [] (say "done" "stop" [])]).
  - repeat constructor.
  - reflexivity.
  - reflexivity.
  - exists canceledRun. vm_compute. done.
Defined.

Lemma executeRun_persists_witness :
  RStatus (xRun sample_exec) = "completed" ∧
  (Get false (TenantID (xRun sample_exec)) (RunID (xRun sample_exec)) (xStore sample_exec)).1 = inr (Some (xRun sample_exec)).
Proof.
  split; [vm_compute; reflexivity|].
  apply (executeRun_persists sample_cfg (sample_job false) "t1" "t1" empty_memory
    [iteration [] (say "" "tool_calls" [search]); iteration [] (say "done" "stop" []);
     iteration [] (say "" "stop" []); iteration [] (say "" "stop" [])] emptyStore [] emptyStore_rel);
    [reflexivity|reflexivity| |vm_compute; reflexivity].
  repeat constructor.
Defined.

Lemma conversation_doubles_witness :
  last (xCalls (executeRun sample_cfg (sample_job false) "t1" "t1" false false empty_memory
    [iteration [] (say "hi" "stop" [])] emptyStore)) = Some (CMemory false [stored "user" "hello"]).
Proof.
  apply (conversation_doubles sample_cfg (sample_job false) "t1" "t1" empty_memory
    (iteration [] (say "hi" "stop" []))
    {| Message := {| MRole := "assistant"; Content := AStr "hi"; ToolCalls := []; ToolCallID := ""; MName := "" |};
       FinishReason := "stop" |} [] emptyStore); [|reflexivity].
  split; try done. by eexists.
Defined.

(** An answer that arrives after the cancel handler has written the record
    replaces it: the canceled run is completed again. *)
Example late_answer_overwrites_cancel :
  let x := executeRun sample_cfg (sample_job false) "t1" "t1" false false empty_memory
    [iteration [EnvCancel; EnvStore (SSave false false canceledRun)] (say "done" "stop" [])] emptyStore in
  RStatus <$> runs (xStore x) !! "tenant/acme/runs/r1" = Some "completed".
Proof. vm_compute. reflexivity. Qed.
