(* ===== verification/RunServer.v ===== *)
(** * The run handlers of the orchestrator (agentorchestrator/server.go)

    Creation (single and in batches), listing, cancellation with its cascade to
    child runs, retry, and the restoration of the quota counters at start-up.
    The handlers are proved against the interface of the quota backend
    ([QuotaBackendLaws]), not against one implementation.

    A request is given by its decoded body ([None] when decoding fails), its
    context, the clock readings and the fresh run identifier; [sFaults] says
    which of the coming writes of the run store fail.  Audit entries, metrics and
    response headers are output only. *)
From S2P Require Import Prelude GoTime GoPath Types Quota RunStore Chat Executor.

#[local] Open Scope go_scope.

Record RunCreateRequest := { qInput : RunInput; qOptions : RunOptions; qIdempotencyKey : string }.

Inductive Response :=
  | RError (status : Z) (code : string) (retryable : bool)
  | RRun (status : Z) (run : Run)
  | RRuns (status : Z) (runs : list Run) (hasMore : bool).

Record Server {B St : Type} := {
  sRuns : fileRunStore;
  sLimiter : Limiter B;
  sBudget : option (TokenBudget St);
  sExecutor : option Registry;
  sAgents : string → string → option Agent;
  sFaults : list bool
}.
Arguments Server : clear implicits.

Section handlers.
Context {B St : Type} `{QuotaBackend B} `{UsageRecorder St} `{RunRange} `{SliceSort}.

(** ** State updates *)

Definition setRuns (r : fileRunStore) (faults : list bool) (s : Server B St) : Server B St :=
  {| sRuns := r; sLimiter := sLimiter s; sBudget := sBudget s; sExecutor := sExecutor s;
     sAgents := sAgents s; sFaults := faults |}.

Definition setLimiter (l : Limiter B) (s : Server B St) : Server B St :=
  {| sRuns := sRuns s; sLimiter := l; sBudget := sBudget s; sExecutor := sExecutor s;
     sAgents := sAgents s; sFaults := sFaults s |}.

Definition setBudget (b : option (TokenBudget St)) (s : Server B St) : Server B St :=
  {| sRuns := sRuns s; sLimiter := sLimiter s; sBudget := b; sExecutor := sExecutor s;
     sAgents := sAgents s; sFaults := sFaults s |}.

Definition setExecutor (e : option Registry) (s : Server B St) : Server B St :=
  {| sRuns := sRuns s; sLimiter := sLimiter s; sBudget := sBudget s; sExecutor := e;
     sAgents := sAgents s; sFaults := sFaults s |}.

Definition nextFault (s : Server B St) : bool := default false (head (sFaults s)).

Definition storeCreate (cancelled : bool) (run : Run) (s : Server B St) : option StoreError * Server B St :=
  let '(e, r) := Create cancelled (nextFault s) run (sRuns s) in (e, setRuns r (tail (sFaults s)) s).

Definition storeSave (cancelled : bool) (run : Run) (s : Server B St) : option StoreError * Server B St :=
  let '(e, r) := Save cancelled (nextFault s) run (sRuns s) in (e, setRuns r (tail (sFaults s)) s).

Definition storeGet (cancelled : bool) (tenantID runID : string) (s : Server B St)
    : (StoreError + option Run) * Server B St :=
  let '(g, r) := Get cancelled tenantID runID (sRuns s) in (g, setRuns r (sFaults s) s).

Definition allowQPS (now : Time) (t : string) (s : Server B St) : bool * Server B St :=
  let '(ok, l) := limAllowQPS now t (sLimiter s) in (ok, setLimiter l s).

Definition tryInc (t : string) (s : Server B St) : bool * Server B St :=
  let '(ok, l) := limTryIncConcurrent t (sLimiter s) in (ok, setLimiter l s).

Definition dec (t : string) (s : Server B St) : Server B St :=
  setLimiter (limDecConcurrent t (sLimiter s)) s.

(** No budget configured means no limit. *)
Definition checkBudget (now : Time) (t : string) (s : Server B St) : bool * Server B St :=
  match sBudget s with
  | None => (true, s)
  | Some tb => let '(ok, tb) := Quota.Check now t tb in (ok, setBudget (Some tb) s)
  end.

(** ** Creating runs *)

Definition newRun (tenantID agentID runID now : string) (req : RunCreateRequest) : Run := {|
  TenantID := tenantID; AgentID := agentID; RunID := runID; RStatus := "queued"; RCreatedAt := now;
  StartedAt := ""; CompletedAt := ""; EventsURL := "/v1/runs/" +:+ runID +:+ "/events";
  Input := qInput req; Options := qOptions req; Output := None; Error_ := None;
  IdempotencyKey := qIdempotencyKey req; RetryOf := ""; ParentRunID := ""
|}.

(** An unknown agent runs with a minimal configuration. *)
Definition resolveAgent (tenantID agentID : string) (s : Server B St) : Agent :=
  default (bareAgent tenantID agentID) (sAgents s tenantID agentID).

Definition submitRun (run : Run) (agent : Agent) (s : Server B St) : Server B St :=
  setExecutor (Submit {| jRun := run; jAgent := agent; jCtxDone := false |} <$> sExecutor s) s.

Definition createError (e : StoreError) : Response :=
  match e with
  | ErrRunExists => RError 409 "conflict" false
  | ErrInvalidRun => RError 400 "invalid_request" false
  | _ => RError 500 "run_persist_failed" true
  end.

(** The run that already carries the idempotency key; a lookup error is ignored. *)
Definition existingRun (cancelled : bool) (tenantID key : string) (s : Server B St) : option Run :=
  if decide (key = "") then None
  else match GetByIdempotencyKey cancelled tenantID key (sRuns s) with
       | inr found => found
       | inl _ => None
       end.

Definition handleRunCreate (cancelled : bool) (nowQ nowB : Time) (now runID tenantID agentID : string)
    (body : option RunCreateRequest) (s : Server B St) : Response * Server B St :=
  guard! s ← allowQPS nowQ tenantID s else (RError 429 "quota_exceeded" true, s) ;;
  guard! s ← tryInc tenantID s else (RError 429 "quota_exceeded" true, s) ;;
  guard! s ← checkBudget nowB tenantID s else (RError 429 "token_budget_exceeded" true, dec tenantID s) ;;
  match body with
  | None => (RError 400 "invalid_json" false, dec tenantID s)
  | Some req =>
      match existingRun cancelled tenantID (qIdempotencyKey req) s with
      | Some run => (RRun 200 run, dec tenantID s)
      | None =>
          let run := newRun tenantID agentID runID now req in
          match storeCreate cancelled run s with
          | (Some e, s) => (createError e, dec tenantID s)
          | (None, s) => (RRun 201 run, submitRun run (resolveAgent tenantID agentID s) s)
          end
      end
  end.

(** One request of a batch with its clock readings and fresh identifier. *)
Record BatchItem := { bReq : RunCreateRequest; bNowQ : Time; bNowB : Time; bNow : string; bRunID : string }.

(** The loop over the batch: an error answers at once, although the runs created
    before it stay; a failing write ends the batch if some run was created. *)
Fixpoint batchLoop (cancelled : bool) (tenantID agentID : string) (agent : Agent) (items : list BatchItem)
    (created : list Run) (s : Server B St) : Response * Server B St :=
  match items with
  | [] => (RRuns 201 created false, s)
  | it :: items' =>
      guard! s ← allowQPS (bNowQ it) tenantID s else (RError 429 "quota_exceeded" true, s) ;;
      guard! s ← tryInc tenantID s else (RError 429 "quota_exceeded" true, s) ;;
      guard! s ← checkBudget (bNowB it) tenantID s else (RError 429 "token_budget_exceeded" true, dec tenantID s) ;;
      let run := newRun tenantID agentID (bRunID it) (bNow it) (bReq it) in
      match storeCreate cancelled run s with
      | (Some _, s) =>
          let s := dec tenantID s in
          match created with
          | [] => (RError 500 "run_persist_failed" true, s)
          | _ => (RRuns 201 created false, s)
          end
      | (None, s) =>
          batchLoop cancelled tenantID agentID agent items' (created ++ [run]) (submitRun run agent s)
      end
  end.

Definition handleRunBatch (cancelled : bool) (tenantID agentID : string) (body : option (list BatchItem))
    (s : Server B St) : Response * Server B St :=
  match body with
  | None => (RError 400 "invalid_json" false, s)
  | Some items =>
      if bool_decide (items = []) then (RError 400 "invalid_request" false, s)
      else if bool_decide (50 < Z.of_nat (length items)) then (RError 400 "invalid_request" false, s)
      else batchLoop cancelled tenantID agentID (resolveAgent tenantID agentID s) items [] s
  end.

(** ** Listing *)

Definition handleRunList (cancelled : bool) (limitParam after status tenantID agentID : string)
    (s : Server B St) : Response :=
  let limit := match Atoi limitParam with
               | Some n => if bool_decide (0 < n) then n else 50
               | None => 50
               end in
  let limit := if bool_decide (200 < limit) then 200 else limit in
  match ListByAgent cancelled tenantID agentID (limit + 1) after (sRuns s) with
  | inl _ => RError 500 "run_list_failed" true
  | inr rs =>
      let rs := if decide (status = "") then rs else filter (λ r, RStatus r = status) rs in
      RRuns 200 (take (Z.to_nat limit) rs) (bool_decide (limit < Z.of_nat (length rs)))
  end.

(** ** Canceling *)

Definition maxCancelDepth (env : Environ) : Z :=
  match Atoi (env "AGENTOS_MAX_DELEGATION_DEPTH") with
  | Some n => if bool_decide (0 < n) then n else 5
  | None => 5
  end.

Definition cancelRun (now : string) (r : Run) : Run :=
  runWith "canceled" (StartedAt r) now (Output r) (Error_ r) r.

Definition cancelExecution (runID : string) (s : Server B St) : Server B St :=
  setExecutor (Cancel runID <$> sExecutor s) s.

Definition active (r : Run) : bool := bool_decide (RStatus r = "queued" ∨ RStatus r = "running").

(** [fuel] counts the levels left until the depth limit; [now] gives the time at
    which each run's record is written. *)
Fixpoint cascadeCancelChildren (fuel : nat) (cancelled : bool) (now : string → string)
    (tenantID parentRunID : string) (s : Server B St) : Server B St :=
  match fuel with
  | O => s
  | S fuel' =>
      match ListChildRuns cancelled tenantID parentRunID (sRuns s) with
      | inl _ => s
      | inr children =>
          foldl (λ s child,
            if negb (active child) then s
            else
              match storeSave cancelled (cancelRun (now (RunID child)) child) (cancelExecution (RunID child) s) with
              | (Some _, s) => s
              | (None, s) => cascadeCancelChildren fuel' cancelled now tenantID (RunID child) (dec tenantID s)
              end) s children
      end
  end.

Definition handleCancel (env : Environ) (isPost cancelled : bool) (now : string → string)
    (tenantID runID : string) (s : Server B St) : Response * Server B St :=
  if negb isPost then (RError 405 "method_not_allowed" false, s)
  else
  match storeGet cancelled tenantID runID s with
  | (inl _, s) => (RError 500 "run_lookup_failed" true, s)
  | (inr None, s) => (RError 404 "not_found" false, s)
  | (inr (Some run), s) =>
      if bool_decide (RStatus run ∈ ["completed"; "failed"; "canceled"])
      then (RError 409 "invalid_state_transition" false, s)
      else
        let run' := cancelRun (now (RunID run)) run in
        match storeSave cancelled run' (cancelExecution (RunID run) s) with
        | (Some _, s) => (RError 500 "run_persist_failed" true, s)
        | (None, s) =>
            (RRun 200 run',
             dec tenantID (cascadeCancelChildren (Z.to_nat (maxCancelDepth env)) cancelled now tenantID runID s))
        end
  end.

(** ** Retrying *)

Definition handleRunRetry (cancelled : bool) (now newRunID tenantID runID : string) (s : Server B St)
    : Response * Server B St :=
  match storeGet cancelled tenantID runID s with
  | (inl _, s) => (RError 500 "run_lookup_failed" true, s)
  | (inr None, s) => (RError 404 "not_found" false, s)
  | (inr (Some original), s) =>
      if bool_decide (RStatus original ≠ "failed" ∧ RStatus original ≠ "error")
      then (RError 409 "run_not_terminal" false, s)
      else
        let retryRun := retryRunOf now newRunID original in
        match storeCreate cancelled retryRun s with
        | (Some _, s) => (RError 500 "run_persist_failed" true, s)
        | (None, s) => (RRun 201 retryRun, submitRun retryRun (resolveAgent tenantID (AgentID original) s) s)
        end
  end.

(** ** Start-up *)

(** Count the active runs of every tenant; a failing listing counts nothing. *)
Definition restoreConcurrentCounts (tenants : list string) (s : Server B St) : Server B St :=
  let counts := foldl (λ (m : gmap string Z) r,
                   if active r then <[TenantID r := go_get 0 m (TenantID r) + 1]> m else m)
                  ∅ (tenants ≫= λ t, match List_ false t (sRuns s) with inr rs => rs | inl _ => [] end) in
  if bool_decide (counts = ∅) then s
  else setLimiter (limWithInitialConcurrent counts (sLimiter s)) s.

End handlers.

(** Writing a run makes its record readable, also when the file write fails. *)
Lemma putRun_recorded fault run s l :
  lruRel s l → runs (putRun fault (keyOf run) run s).2 !! keyOf run = Some run.
Proof.
  intros Hrel. destruct (lruRel_put fault s l (keyOf run) run Hrel) as [_ -> Hnd].
  apply elem_of_list_to_map_1; [done|].
  destruct (recentWithin_mostRecent 0 (keyOf run) run (without (keyOf run) l ++ [(keyOf run, run)]))
    as (l1 & l2 & Hl & _); [unfold maxRunsInRunStore; lia|by eexists _, []|].
  unfold lruPut. rewrite Hl. set_solver.
Qed.

(** ** The quota counters *)

Section quota.
Context {B St : Type} `{QuotaBackendLaws B} `{UsageRecorder St} `{RunRange} `{SliceSort}.

Abbreviation slots s := (counters (sLimiter s)).
Abbreviation limit_ s := (maxConcurrent (sLimiter s)).

Definition created (r : Response) : bool :=
  match r with RRun status _ => bool_decide (status = 201) | _ => false end.

Lemma allowQPS_frame now t (s : Server B St) :
  (∀ u, 0 <= slots s u) →
  let s' := (allowQPS now t s).2 in
  (∀ u, slots s' u = slots s u) ∧ limit_ s' = limit_ s ∧ sRuns s' = sRuns s ∧ sExecutor s' = sExecutor s.
Proof.
  intros Hs. unfold allowQPS, limAllowQPS, counters in *.
  pose proof (λ u, law_allow now t (qps (sLimiter s)) (backend (sLimiter s)) u (Hs u)) as Hl.
  destruct (AllowQPS now t _ _) as [ok b]. simpl in *. done.
Qed.

Lemma tryInc_spec t (s : Server B St) :
  let '(ok, s') := tryInc t s in
  limit_ s' = limit_ s ∧ sRuns s' = sRuns s ∧ sExecutor s' = sExecutor s ∧
  ok = bool_decide (slots s t < limit_ s) ∧
  ∀ u, slots s' u = slots s u + (if ok then if decide (t = u) then 1 else 0 else 0).
Proof.
  unfold tryInc, limTryIncConcurrent, counters.
  destruct (decide (concurrentOf (backend (sLimiter s)) t < limit_ s)) as [Hlt|Hge].
  - destruct (law_inc_ok t (limit_ s) (backend (sLimiter s)) Hlt) as [Hok Hu].
    destruct (TryIncConcurrent _ _ _) as [ok b]. simpl in *. subst ok.
    rewrite bool_decide_eq_true_2 by done. split_and!; try done.
    intros u. rewrite Hu. case_decide; [by subst|lia].
  - rewrite (law_inc_full t (limit_ s)) by lia. simpl. rewrite bool_decide_eq_false_2 by done.
    split_and!; try done. intros u. lia.
Qed.

Lemma dec_slots t (s : Server B St) u :
  slots (dec t s) u = if decide (t = u) then Z.max 0 (slots s t - 1) else slots s u.
Proof. unfold dec, counters. simpl. apply law_dec. Qed.

Lemma checkBudget_frame now t (s : Server B St) :
  let s' := (checkBudget now t s).2 in
  sLimiter s' = sLimiter s ∧ sRuns s' = sRuns s ∧ sExecutor s' = sExecutor s.
Proof. unfold checkBudget. destruct (sBudget s) as [tb|]; [|done]. by destruct (Quota.Check now t tb). Qed.

Lemma storeCreate_frame c run (s : Server B St) :
  let s' := (storeCreate c run s).2 in sLimiter s' = sLimiter s ∧ sExecutor s' = sExecutor s.
Proof. unfold storeCreate. by destruct (Create _ _ _ _). Qed.

(** The three admission checks, in the order of the handlers. *)
Definition admission (nowQ nowB : Time) (t : string) (s : Server B St) : bool * Server B St :=
  guard! s ← allowQPS nowQ t s else (false, s) ;;
  guard! s ← tryInc t s else (false, s) ;;
  guard! s ← checkBudget nowB t s else (false, dec t s) ;;
  (true, s).

Lemma admission_spec nowQ nowB t (s : Server B St) :
  (∀ u, 0 <= slots s u) →
  let '(ok, s') := admission nowQ nowB t s in
  limit_ s' = limit_ s ∧ sRuns s' = sRuns s ∧ sExecutor s' = sExecutor s ∧
  (ok = true → slots s t < limit_ s) ∧
  ∀ u, slots s' u = slots s u + (if ok then if decide (t = u) then 1 else 0 else 0).
Proof.
  intros Hs. unfold admission.
  destruct (allowQPS_frame nowQ t s Hs) as (Ha & Hm & Hr & He). destruct (allowQPS nowQ t s) as [[] s1]; simpl in *;
    [|split_and!; try done; intros u; rewrite Ha; lia].
  pose proof (tryInc_spec t s1) as Ht. destruct (tryInc t s1) as [ok s2].
  destruct Ht as (Hm2 & Hr2 & He2 & Hok & Hu).
  destruct ok; simpl; [|split_and!; try congruence; intros u; rewrite Hu, Ha; lia].
  symmetry in Hok. apply bool_decide_eq_true in Hok. rewrite Ha, Hm in Hok.
  destruct (checkBudget_frame nowB t s2) as (Hl3 & Hr3 & He3).
  destruct (checkBudget nowB t s2) as [[] s3]; cbn [fst snd negb] in *.
  - split_and!; try (congruence || done). intros u. rewrite Hl3, Hu, Ha. done.
  - split_and!; [simpl; congruence..|done|]. intros u. rewrite dec_slots, Hl3. specialize (Hs t).
    rewrite !Hu, !Ha. case_decide; [subst; rewrite decide_True by done; lia|lia].
Qed.

(** Single creation is admission followed by the creation proper. *)
Definition createAdmitted (cancelled : bool) (now runID tenantID agentID : string)
    (body : option RunCreateRequest) (s : Server B St) : Response * Server B St :=
  match body with
  | None => (RError 400 "invalid_json" false, dec tenantID s)
  | Some req =>
      match existingRun cancelled tenantID (qIdempotencyKey req) s with
      | Some run => (RRun 200 run, dec tenantID s)
      | None =>
          let run := newRun tenantID agentID runID now req in
          match storeCreate cancelled run s with
          | (Some e, s) => (createError e, dec tenantID s)
          | (None, s) => (RRun 201 run, submitRun run (resolveAgent tenantID agentID s) s)
          end
      end
  end.

Lemma handleRunCreate_admission c nowQ nowB now id t a body (s : Server B St) :
  let '(ok, s') := admission nowQ nowB t s in
  if ok then handleRunCreate c nowQ nowB now id t a body s = createAdmitted c now id t a body s'
  else ∃ code, handleRunCreate c nowQ nowB now id t a body s = (RError 429 code true, s').
Proof.
  unfold admission, handleRunCreate. destruct (allowQPS nowQ t s) as [[] s1]; simpl; [|by eexists].
  destruct (tryInc t s1) as [[] s2]; simpl; [|by eexists].
  destruct (checkBudget nowB t s2) as [[] s3]; simpl; [done|by eexists].
Qed.

Lemma createAdmitted_spec c now id t a body (s : Server B St) :
  0 < slots s t →
  let '(resp, s') := createAdmitted c now id t a body s in
  limit_ s' = limit_ s ∧
  (∀ u, slots s' u = slots s u - (if created resp then 0 else if decide (t = u) then 1 else 0)) ∧
  match resp with
  | RRun 201 run =>
      runs (sRuns s) !! keyOf run = None ∧ TenantID run = t ∧ AgentID run = a ∧ RStatus run = "queued" ∧
      sExecutor s' = Submit {| jRun := run; jAgent := resolveAgent t a s; jCtxDone := false |} <$> sExecutor s
  | _ => sExecutor s' = sExecutor s
  end.
Proof.
  intros Hpos. unfold createAdmitted.
  assert (∀ u, slots (dec t s) u = slots s u - (if decide (t = u) then 1 else 0)) as Hdec.
  { intros u. rewrite dec_slots. case_decide; [subst; lia|lia]. }
  destruct body as [req|]; [|done].
  destruct (existingRun c t (qIdempotencyKey req) s) as [run|]; [split_and!; [done|exact Hdec|done]|].
  set (run := newRun t a id now req).
  destruct (storeCreate_frame c run s) as [Hl He].
  unfold storeCreate, Create in *. destruct c; simpl in *.
  { split_and!; [done|exact Hdec|done]. }
  destruct (validateRun run) as [e|] eqn:Ev; simpl.
  { unfold validateRun in Ev. case_decide; simplify_eq. split_and!; [done|exact Hdec|done]. }
  destruct (runs (sRuns s) !! storageKey t id) as [r|] eqn:Er; simpl; [split_and!; [done|exact Hdec|done]|].
  unfold putRun, persistLocked. destruct (nextFault s); simpl; [split_and!; [done|exact Hdec|done]|].
  split_and!; try done. intros u. change (slots s u = slots s u - 0). lia.
Qed.

Lemma handleRunCreate_slots c nowQ nowB now id t a body (s : Server B St) :
  (∀ u, 0 <= slots s u) →
  let '(resp, s') := handleRunCreate c nowQ nowB now id t a body s in
  limit_ s' = limit_ s ∧
  (∀ u, slots s' u = slots s u + (if created resp then if decide (t = u) then 1 else 0 else 0)) ∧
  (created resp = true → slots s t < limit_ s) ∧
  match resp with
  | RRun 201 run =>
      runs (sRuns s) !! keyOf run = None ∧ TenantID run = t ∧ AgentID run = a ∧ RStatus run = "queued" ∧
      ∃ agent, sExecutor s' = Submit {| jRun := run; jAgent := agent; jCtxDone := false |} <$> sExecutor s
  | _ => sExecutor s' = sExecutor s
  end.
Proof.
  intros Hs. pose proof (admission_spec nowQ nowB t s Hs) as Hadm.
  pose proof (handleRunCreate_admission c nowQ nowB now id t a body s) as Hcr.
  destruct (admission nowQ nowB t s) as [ok s1]. destruct Hadm as (Hm & Hr & He & Hlt & Hu).
  destruct ok; simpl in Hu.
  - rewrite Hcr. pose proof (createAdmitted_spec c now id t a body s1) as Hca.
    destruct (createAdmitted c now id t a body s1) as [resp s'].
    destruct Hca as (Hm' & Hu' & Hresp).
    { rewrite Hu, decide_True by done. specialize (Hs t). lia. }
    split_and!; [congruence| |by auto|].
    + intros u. rewrite Hu', Hu. destruct (created resp); repeat case_decide; lia.
    + rewrite Hr, He in Hresp. repeat (case_match; try done). naive_solver.
  - destruct Hcr as [code ->]. simpl. split_and!; [done| |done|done]. intros u. by rewrite Hu.
Qed.

(** A batch only takes slots of its own tenant, and only free ones. *)
Lemma batchLoop_slots c t a agent items made (s : Server B St) :
  (∀ u, 0 <= slots s u) →
  let s' := (batchLoop c t a agent items made s).2 in
  limit_ s' = limit_ s ∧ (∀ u, u ≠ t → slots s' u = slots s u) ∧
  slots s t <= slots s' t <= Z.max (slots s t) (limit_ s).
Proof.
  revert made s. induction items as [|it items IH]; intros made s Hs; simpl; [split_and!; [done|done|lia|lia]|].
  pose proof (admission_spec (bNowQ it) (bNowB it) t s Hs) as Hadm. unfold admission in Hadm.
  destruct (allowQPS (bNowQ it) t s) as [[] s1]; cbn [negb] in *;
    [|destruct Hadm as (Hm & _ & _ & _ & Hu); split_and!; [done|intros u _; rewrite Hu; lia|rewrite Hu; lia|rewrite Hu; lia]].
  destruct (tryInc t s1) as [[] s2]; cbn [negb] in *;
    [|destruct Hadm as (Hm & _ & _ & _ & Hu); split_and!; [done|intros u _; rewrite Hu; lia|rewrite Hu; lia|rewrite Hu; lia]].
  destruct (checkBudget (bNowB it) t s2) as [[] s3]; cbn [negb] in *;
    [|destruct Hadm as (Hm & _ & _ & _ & Hu); split_and!; [done|intros u _; rewrite Hu; lia|rewrite Hu; lia|rewrite Hu; lia]].
  destruct Hadm as (Hm & _ & _ & Hlt & Hu). specialize (Hlt eq_refl).
  set (run := newRun t a (bRunID it) (bNow it) (bReq it)).
  destruct (storeCreate_frame c run s3) as [Hl _]. destruct (storeCreate c run s3) as [[e|] s4]; cbn [snd] in Hl.
  - assert (∀ u, slots (dec t s4) u = slots s u) as Hd.
    { intros u. rewrite dec_slots, Hl, !Hu. specialize (Hs t). repeat case_decide; simplify_eq; lia. }
    assert (limit_ (dec t s4) = limit_ s) as Hmd by (simpl; congruence).
    destruct made; cbn [snd]; (split_and!; [done|intros u _; apply Hd|rewrite Hd; lia|rewrite Hd; lia]).
  - destruct (IH (made ++ [run]) (submitRun run agent s4)) as (Hm5 & Ho5 & Hge & Hle).
    { intros u. simpl. rewrite Hl, Hu. specialize (Hs u). repeat case_decide; lia. }
    simpl in Hm5, Ho5, Hge, Hle. rewrite Hl in *. rewrite Hu, decide_True in Hge, Hle by done.
    split_and!; [congruence| |lia|lia]. intros u Hne. rewrite Ho5, Hu, decide_False by congruence. lia.
Qed.

End quota.

(** ** Cancellation *)

Section cancel.
Context {B St : Type} `{QuotaBackendLaws B} `{UsageRecorder St} `{RunRange} `{!GoRange run_range} `{SliceSort}.

(** The only change a cascade may make to a record. *)
Definition changeOk (r r' : Run) : Prop :=
  r' = r ∨ (RStatus r ∉ ["completed"; "failed"] ∧ ∃ now, r' = cancelRun now r).

Lemma active_unfinished r : active r = true → RStatus r ∉ ["completed"; "failed"].
Proof. unfold active. intros [->| ->]%bool_decide_eq_true; set_solver. Qed.

Definition onlyCancels (m m' : gmap string Run) : Prop :=
  dom m' = dom m ∧ ∀ k r, m !! k = Some r → ∃ r', m' !! k = Some r' ∧ changeOk r r'.

Lemma onlyCancels_refl m : onlyCancels m m.
Proof. split; [done|]. intros k r Hr. exists r. split; [done|by left]. Qed.

#[local] Hint Resolve onlyCancels_refl : go.

Lemma changeOk_trans a b c : changeOk a b → changeOk b c → changeOk a c.
Proof.
  intros [->|[Ha [n ->]]]; [done|]. intros [->|[_ [n' ->]]].
  - right. eauto.
  - right. split; [done|]. by exists n'.
Qed.

Lemma onlyCancels_trans m1 m2 m3 : onlyCancels m1 m2 → onlyCancels m2 m3 → onlyCancels m1 m3.
Proof.
  intros [Hd1 Hm1] [Hd2 Hm2]. split; [congruence|]. intros k r Hr.
  destruct (Hm1 k r Hr) as (r2 & Hr2 & Hc). destruct (Hm2 k r2 Hr2) as (r3 & Hr3 & Hc').
  exists r3. split; [done|]. by eapply changeOk_trans.
Qed.

Lemma canceled_stays m m' k r :
  onlyCancels m m' → m !! k = Some r → RStatus r = "canceled" → ∃ r', m' !! k = Some r' ∧ RStatus r' = "canceled".
Proof.
  intros [_ Hm] Hr Hst. destruct (Hm k r Hr) as (r' & Hr' & [->|[_ [n ->]]]); eauto.
Qed.

(** The store of a running server: the keys are the runs' own, within the cap. *)
Record store_ok (s : fileRunStore) : Prop := {
  store_keyed : keyed s;
  store_cap : Z.of_nat (size (runs s)) <= maxRunsInRunStore
}.

(** Saving over an existing record evicts nothing; when the write fails the record has changed
    in memory all the same. *)
Lemma Save_existing fault run r0 s :
  store_ok s → runs s !! keyOf run = Some r0 → validateRun run = None →
  let '(e, s') := Save false fault run s in
  e = (if fault then Some ErrPersist else None) ∧ runs s' = <[keyOf run := run]> (runs s) ∧ store_ok s'.
Proof.
  intros [Hk Hcap] Hr Hv. unfold Save. rewrite Hv. unfold putRun, persistLocked, evictLocked. simpl.
  assert (size (<[keyOf run := run]> (runs s)) = size (runs s)) as Hsz
    by (rewrite map_size_insert_Some; [done|by rewrite Hr]).
  assert (∀ order, evictLoop (<[keyOf run := run]> (runs s)) order = (<[keyOf run := run]> (runs s), order)) as ->.
  { intros [|k order]; simpl; [done|]. by rewrite bool_decide_eq_false_2 by (rewrite Hsz; lia). }
  assert (store_ok {| file := file s; runs := <[keyOf run := run]> (runs s); runOrder := runOrder s |}) as [Hk' Hcap'].
  { split; simpl; [|by rewrite Hsz]. intros k r Hkr. simpl in Hkr. apply lookup_insert_Some in Hkr as [[<- <-]|[_ Hkr]]; [done|by apply Hk]. }
  by destruct fault; split_and!; split.
Qed.

(** The children listed are records of the store. *)
Lemma ListChildRuns_elem t p s children child :
  keyed s → ListChildRuns false t p s = inr children → child ∈ children →
  runs s !! keyOf child = Some child ∧ validateRun child = None ∧ TenantID child = t.
Proof.
  intros Hk Hl Hin. unfold ListChildRuns in Hl. case_decide; simplify_eq; [by apply not_elem_of_nil in Hin|].
  apply list_elem_of_filter in Hin as [[Ht _] ([k r] & -> & Hkr)%list_elem_of_fmap].
  apply (elem_of_range run_range) in Hkr. destruct (Hk _ _ Hkr) as [-> Hv]. done.
Qed.

(** What every part of a cascade does. *)
Record cascaded (s s' : Server B St) : Prop := {
  casc_ok : store_ok (sRuns s');
  casc_runs : onlyCancels (runs (sRuns s)) (runs (sRuns s'))
}.

Lemma cascaded_trans s1 s2 s3 : cascaded s1 s2 → cascaded s2 s3 → cascaded s1 s3.
Proof. intros [_ Ha] [? Hb]. split; [done|]. by eapply onlyCancels_trans. Qed.

(** Writing the cancellation of a child whose record may meanwhile have been
    canceled through another parent. *)
Lemma saveCanceled now child r (s : Server B St) :
  store_ok (sRuns s) → validateRun child = None →
  runs (sRuns s) !! keyOf child = Some r → changeOk child r → RStatus child ∉ ["completed"; "failed"] →
  let '(e, s') := storeSave false (cancelRun now child) s in
  e = (if nextFault s then Some ErrPersist else None) ∧ cascaded s s' ∧ runs (sRuns s') !! keyOf child = Some (cancelRun now child) ∧
  sLimiter s' = sLimiter s.
Proof.
  intros Hok Hv Hr Hch Hact. unfold storeSave.
  pose proof (Save_existing (nextFault s) (cancelRun now child) r (sRuns s) Hok Hr Hv) as Hs.
  destruct (Save false (nextFault s) (cancelRun now child) (sRuns s)) as [e r']. destruct Hs as (-> & Hruns & Hok').
  split_and!; [done| |by simpl; rewrite Hruns, lookup_insert_eq|done].
  split; [done|]. simpl. rewrite Hruns. change (keyOf (cancelRun now child)) with (keyOf child). split.
  - rewrite dom_insert_L. apply elem_of_dom_2 in Hr. set_solver.
  - intros k r1 Hr1. destruct (decide (k = keyOf child)) as [->|Hne].
    + rewrite lookup_insert_eq. eexists. split; [done|]. simplify_eq. right.
      destruct Hch as [->|[Hu [n ->]]]; (split; [first [exact Hact|cbn; set_solver]|by exists now]).
    + rewrite lookup_insert_ne by done. exists r1. split; [done|by left].
Qed.

(** One child of a cascade; [rec] is the cascade below it. *)
Definition cancelChild (rec : string → Server B St → Server B St) (now : string → string) (t : string)
    (s : Server B St) (child : Run) : Server B St :=
  if negb (active child) then s
  else match storeSave false (cancelRun (now (RunID child)) child) (cancelExecution (RunID child) s) with
       | (Some _, s) => s
       | (None, s) => rec (RunID child) (dec t s)
       end.

Lemma cancelChild_spec rec now t s0 s child :
  (∀ p s, store_ok (sRuns s) → cascaded s (rec p s)) →
  cascaded s0 s → runs (sRuns s0) !! keyOf child = Some child → validateRun child = None →
  let s' := cancelChild rec now t s child in
  cascaded s s' ∧
  (active child = true → ∃ r', runs (sRuns s') !! keyOf child = Some r' ∧ RStatus r' = "canceled").
Proof.
  intros Hrec [Hok Hruns] Hc Hv. unfold cancelChild. destruct (active child) eqn:Hact; simpl.
  - destruct (proj2 Hruns _ _ Hc) as (r & Hr & Hch).
    pose proof (saveCanceled (now (RunID child)) child r (cancelExecution (RunID child) s) Hok Hv Hr Hch (active_unfinished _ Hact)) as Hsave.
    destruct (storeSave _ _ _) as [e s1]. destruct Hsave as (He & [Hok1 Hr1] & Hcan & _).
    destruct e as [e|]; [split; [by split|intros _; eauto]|].
    destruct (Hrec (RunID child) (dec t s1)) as [Hok2 Hr2]; [done|]. split.
    + split; [done|]. by eapply onlyCancels_trans.
    + intros _. by apply (canceled_stays _ _ _ _ Hr2 Hcan).
  - split; [|done]. split; auto with go.
Qed.

Lemma cancelChildren_spec rec now t s0 s cs :
  (∀ p s, store_ok (sRuns s) → cascaded s (rec p s)) →
  cascaded s0 s → (∀ c, c ∈ cs → runs (sRuns s0) !! keyOf c = Some c ∧ validateRun c = None) →
  let s' := foldl (cancelChild rec now t) s cs in
  cascaded s0 s' ∧
  ∀ c, c ∈ cs → active c = true → ∃ r', runs (sRuns s') !! keyOf c = Some r' ∧ RStatus r' = "canceled".
Proof.
  intros Hrec. induction cs as [|c cs IH] using rev_ind; intros Hcasc Hcs; simpl.
  { split; [done|]. intros c Hc. by apply not_elem_of_nil in Hc. }
  rewrite foldl_app. simpl.
  destruct IH as [IHc IHall]; [done|intros c' Hc'; apply Hcs; set_solver|].
  set (s1 := foldl (cancelChild rec now t) s cs) in *.
  destruct (Hcs c) as [Hc Hv]; [set_solver|].
  destruct (cancelChild_spec rec now t s0 s1 c Hrec IHc Hc Hv) as [Hstep Hcan].
  split; [by eapply cascaded_trans|]. intros c' Hin Hact.
  apply elem_of_app in Hin as [Hin|Hin%list_elem_of_singleton]; [|subst; by apply Hcan].
  destruct (IHall c' Hin Hact) as (r' & Hr' & Hst). by apply (canceled_stays _ _ _ _ (casc_runs _ _ Hstep) Hr').
Qed.

Lemma cascade_unfold fuel now t p (s : Server B St) :
  cascadeCancelChildren (S fuel) false now t p s =
  match ListChildRuns false t p (sRuns s) with
  | inl _ => s
  | inr children => foldl (cancelChild (λ p s, cascadeCancelChildren fuel false now t p s) now t) s children
  end.
Proof. done. Qed.

Lemma cascade_spec fuel now t p (s : Server B St) :
  store_ok (sRuns s) → cascaded s (cascadeCancelChildren fuel false now t p s).
Proof.
  revert p s. induction fuel as [|fuel IH]; intros p s Hok; [split; auto with go|].
  rewrite cascade_unfold.
  destruct (ListChildRuns false t p (sRuns s)) as [e|children] eqn:El; [split; auto with go|].
  eapply (cancelChildren_spec _ now t s s children); [done|split; auto with go|].
  intros c Hc. destruct (ListChildRuns_elem t p (sRuns s) children c) as (? & ? & _); [apply Hok|done|done|done].
Qed.

(** The direct children that were active when the cascade began are canceled. *)
Lemma cascade_children fuel now t p (s : Server B St) k c :
  store_ok (sRuns s) → t ≠ "" → p ≠ "" →
  runs (sRuns s) !! k = Some c → TenantID c = t → RetryOf c = p ∨ ParentRunID c = p → active c = true →
  ∃ r', runs (sRuns (cascadeCancelChildren (S fuel) false now t p s)) !! k = Some r' ∧ RStatus r' = "canceled".
Proof.
  intros Hok Ht Hp Hk Hct Hcp Hact. rewrite cascade_unfold.
  destruct (ListChildRuns false t p (sRuns s)) as [e|children] eqn:El.
  { unfold ListChildRuns in El. case_decide; done. }
  assert (c ∈ children) as Hin.
  { unfold ListChildRuns in El. rewrite decide_False in El by tauto. simplify_eq.
    apply list_elem_of_filter. split; [done|]. apply list_elem_of_fmap. exists (k, c). split; [done|].
    by apply (elem_of_range run_range). }
  destruct (cancelChildren_spec (λ p s, cascadeCancelChildren fuel false now t p s) now t s s children) as [_ Hall].
  - intros p' s' ?. by apply cascade_spec.
  - split; auto with go.
  - intros c' Hc'. destruct (ListChildRuns_elem t p (sRuns s) children c') as (? & ? & _); [apply Hok|done|done|done].
  - destruct (store_keyed _ Hok _ _ Hk) as [-> _]. by apply Hall.
Qed.

End cancel.

(** ** Histories of a server *)

Inductive ServerOp :=
  | OCreate (cancelled : bool) (nowQ nowB : Time) (now runID tenantID agentID : string) (body : option RunCreateRequest)
  | OBatch (cancelled : bool) (tenantID agentID : string) (body : option (list BatchItem))
  | ORetry (cancelled : bool) (now newRunID tenantID runID : string)
  | OStore (op : StoreOp)
  | OWorkerDone (now now' : Time) (runID : string).

(** [OStore] and [OWorkerDone] are the executor at work. *)
Definition serverStep {B St} `{QuotaBackend B} `{UsageRecorder St} `{RunRange}
    (s : Server B St) (op : ServerOp) : Server B St :=
  match op with
  | OCreate c nq nb now id t a body => (handleRunCreate c nq nb now id t a body s).2
  | OBatch c t a body => (handleRunBatch c t a body s).2
  | ORetry c now id t r => (handleRunRetry c now id t r s).2
  | OStore op => setRuns (storeStep op (sRuns s)).2 (sFaults s) s
  | OWorkerDone now now' id => setExecutor (workerDone now now' id <$> sExecutor s) s
  end.

(** The tenant has no slot left. *)
Definition full {B St} `{QuotaBackend B} (t : string) (s : Server B St) : Prop :=
  (∀ u, 0 <= counters (sLimiter s) u) ∧ counters (sLimiter s) t = maxConcurrent (sLimiter s).

Lemma full_step {B St} `{QuotaBackendLaws B} `{UsageRecorder St} `{RunRange} t (s : Server B St) op :
  full t s → full t (serverStep s op).
Proof.
  intros [Hs Ht]. destruct op as [c nq nb now id t' a body|c t' a body|c now id t' r|op|now now' id]; simpl.
  - pose proof (handleRunCreate_slots c nq nb now id t' a body s Hs) as Hc.
    destruct (handleRunCreate _ _ _ _ _ _ _ _ _) as [resp s']. destruct Hc as (Hm & Hu & Hlt & _). simpl. split.
    + intros u. rewrite Hu. specialize (Hs u). destruct (created resp); repeat case_decide; lia.
    + rewrite Hu, Hm. destruct (created resp); [|lia]. specialize (Hlt eq_refl). case_decide; [subst; lia|lia].
  - unfold handleRunBatch. destruct body as [items|]; [|done]. repeat case_bool_decide; try done.
    destruct (batchLoop_slots c t' a (resolveAgent t' a s) items [] s Hs) as (Hm & Ho & Hge & Hle). split.
    + intros u. destruct (decide (u = t')) as [->|Hne]; [specialize (Hs t'); lia|by rewrite Ho].
    + rewrite Hm. destruct (decide (t = t')) as [->|Hne]; [lia|by rewrite Ho].
  - unfold handleRunRetry, storeGet. destruct (Get _ _ _ _) as [[e|[orig|]] r']; simpl; try done.
    case_bool_decide; [done|].
    match goal with |- context [storeCreate c ?run ?s1] => pose proof (storeCreate_frame c run s1) as [Hl _];
      destruct (storeCreate c run s1) as [[e|] s2] end; simpl in *; unfold full; simpl; by rewrite Hl.
  - done.
  - done.
Qed.

(** ** Idempotency *)

Section idempotency.
Context {B St : Type} `{QuotaBackendLaws B} `{UsageRecorder St} `{RunRange} `{!GoRange run_range}.

(** A creation that answers 201 has recorded the run. *)
Lemma created_recorded nowQ nowB now id t a req run (s s1 : Server B St) l :
  (∀ u, 0 <= counters (sLimiter s) u) → lruRel (sRuns s) l →
  handleRunCreate false nowQ nowB now id t a (Some req) s = (RRun 201 run, s1) →
  t ≠ "" ∧ ∃ k r, runs (sRuns s1) !! k = Some r ∧ TenantID r = t ∧ IdempotencyKey r = qIdempotencyKey req.
Proof.
  intros Hs Hl Hcr. pose proof (admission_spec nowQ nowB t s Hs) as Ha.
  pose proof (handleRunCreate_admission false nowQ nowB now id t a (Some req) s) as Hc.
  destruct (admission nowQ nowB t s) as [[] s2]; [|destruct Hc as [code Hc]; congruence].
  destruct Ha as (_ & Hr & _). rewrite Hc in Hcr. unfold createAdmitted in Hcr.
  destruct (existingRun false t (qIdempotencyKey req) s2); [congruence|].
  unfold storeCreate, Create in Hcr. set (run0 := newRun t a id now req) in *. simpl in Hcr.
  destruct (validateRun run0) as [e|] eqn:Ev; [simpl in Hcr; destruct e; discriminate Hcr|].
  destruct (runs (sRuns s2) !! storageKey t id); [simpl in Hcr; discriminate Hcr|].
  pose proof (putRun_recorded (nextFault s2) run0 (sRuns s2) l) as Hput. rewrite Hr in Hput. specialize (Hput Hl).
  rewrite Hr in Hcr. change (storageKey t id) with (keyOf run0) in Hcr.
  destruct (putRun (nextFault s2) (keyOf run0) run0 (sRuns s)) as [[e|] r'];
    [destruct e; simpl in Hcr; discriminate Hcr|].
  simpl in Hcr. injection Hcr as _ <-. split; [unfold validateRun in Ev; case_decide; [done|]; simpl in *; tauto|].
  exists (keyOf run0), run0. done.
Qed.

(** A stored run with the key is found, in whatever order the map is visited. *)
Lemma existing_found t key (s : Server B St) k r0 :
  key ≠ "" → runs (sRuns s) !! k = Some r0 → TenantID r0 = t → IdempotencyKey r0 = key → t ≠ "" →
  ∃ r, existingRun false t key s = Some r ∧ TenantID r = t ∧ IdempotencyKey r = key.
Proof.
  intros Hkey Hk Ht Hik Hne. unfold existingRun, GetByIdempotencyKey. rewrite !decide_False by tauto.
  destruct (list_find _ (run_range (runs (sRuns s)))) as [[i [k' r]]|] eqn:E; simpl.
  - apply list_find_Some in E as (_ & [? ?] & _). simpl in *. by exists r.
  - apply list_find_None in E. rewrite Forall_forall in E. exfalso. apply (E (k, r0)); [|by split].
    by apply (elem_of_range run_range).
Qed.

End idempotency.

Lemma active_not_terminal r : active r = true → bool_decide (RStatus r ∈ ["completed"; "failed"; "canceled"]) = false.
Proof. intros [->| ->]%bool_decide_eq_true; reflexivity. Qed.

Lemma maxCancelDepth_pos env : 0 < maxCancelDepth env.
Proof. unfold maxCancelDepth. go_solve. Qed.

(** ** Properties *)

(** C2. Admission and release balance on every path of a creation: whatever the
    outcome (refused, malformed, repeated, not persisted or created), the
    tenant's counter has grown by one exactly when the answer is 201, no other
    tenant's counter has changed, a slot was free, and only then the executor
    has received the new queued run. *)
Theorem create_quota_exact {B St} `{QuotaBackendLaws B} `{UsageRecorder St} `{RunRange}
    c nowQ nowB now id t a body (s : Server B St) :
  (∀ u, 0 <= counters (sLimiter s) u) →
  let '(resp, s') := handleRunCreate c nowQ nowB now id t a body s in
  (∀ u, counters (sLimiter s') u =
        counters (sLimiter s) u + (if created resp then if decide (t = u) then 1 else 0 else 0)) ∧
  (created resp = true → counters (sLimiter s) t < maxConcurrent (sLimiter s)) ∧
  match resp with
  | RRun 201 run =>
      runs (sRuns s) !! keyOf run = None ∧ TenantID run = t ∧ AgentID run = a ∧ RStatus run = "queued" ∧
      ∃ agent, sExecutor s' = Submit {| jRun := run; jAgent := agent; jCtxDone := false |} <$> sExecutor s
  | _ => sExecutor s' = sExecutor s
  end.
Proof.
  intros Hs. pose proof (handleRunCreate_slots c nowQ nowB now id t a body s Hs) as Hc.
  destruct (handleRunCreate c nowQ nowB now id t a body s) as [resp s']. by destruct Hc as [_ ?].
Qed.

(** Nothing but a cancellation gives a slot back: once a tenant's counter is at
    its maximum, then after any history of creations, batches, retries and
    executor activity, finished runs included, every further creation of the
    tenant is refused. *)
Theorem slots_only_released_by_cancel {B St} `{QuotaBackendLaws B} `{UsageRecorder St} `{RunRange}
    t (s : Server B St) ops c nowQ nowB now id a body :
  (∀ u, 0 <= counters (sLimiter s) u) → counters (sLimiter s) t = maxConcurrent (sLimiter s) →
  ∃ code, (handleRunCreate c nowQ nowB now id t a body (exec serverStep s ops)).1 = RError 429 code true.
Proof.
  intros Hs Ht.
  assert (full t (exec serverStep s ops)) as [Hs' Ht'].
  { apply (exec_invariant serverStep (full t)); [by split|]. intros s1 op Hf _. by apply full_step. }
  pose proof (admission_spec nowQ nowB t _ Hs') as Ha.
  pose proof (handleRunCreate_admission c nowQ nowB now id t a body (exec serverStep s ops)) as Hc.
  destruct (admission nowQ nowB t _) as [[] s1].
  - destruct Ha as (_ & _ & _ & Hlt & _). specialize (Hlt eq_refl). lia.
  - destruct Hc as [code ->]. by exists code.
Qed.

(** C21. Creation is idempotent: after a run has been created with an idempotency
    key, the same tenant's next request with that key creates nothing: it is
    refused by a quota or answers with a run that carries the key, and the
    store and the counters stay as they were. *)
Theorem create_idempotent {B St} `{QuotaBackendLaws B} `{UsageRecorder St} `{RunRange} `{!GoRange run_range}
    nowQ nowB now id a req run (s s1 : Server B St) l t nowQ' nowB' now' id' a' req' :
  (∀ u, 0 <= counters (sLimiter s) u) → lruRel (sRuns s) l →
  handleRunCreate false nowQ nowB now id t a (Some req) s = (RRun 201 run, s1) →
  qIdempotencyKey req ≠ "" → qIdempotencyKey req' = qIdempotencyKey req →
  let '(resp, s2) := handleRunCreate false nowQ' nowB' now' id' t a' (Some req') s1 in
  sRuns s2 = sRuns s1 ∧ (∀ u, counters (sLimiter s2) u = counters (sLimiter s1) u) ∧
  ((∃ code, resp = RError 429 code true) ∨
   ∃ r, resp = RRun 200 r ∧ TenantID r = t ∧ IdempotencyKey r = qIdempotencyKey req).
Proof.
  intros Hs Hl Hcreate Hkey Hkey'.
  destruct (created_recorded nowQ nowB now id t a req run s s1 l Hs Hl Hcreate) as (Hne & k & r0 & Hr0 & Ht0 & Hk0).
  pose proof (handleRunCreate_slots false nowQ nowB now id t a (Some req) s Hs) as Hsl. rewrite Hcreate in Hsl.
  destruct Hsl as (_ & Hu1 & _).
  assert (∀ u, 0 <= counters (sLimiter s1) u) as Hs1.
  { intros u. rewrite Hu1. specialize (Hs u). destruct (created _); repeat case_decide; lia. }
  pose proof (handleRunCreate_slots false nowQ' nowB' now' id' t a' (Some req') s1 Hs1) as Hsl2.
  pose proof (admission_spec nowQ' nowB' t s1 Hs1) as Ha.
  pose proof (handleRunCreate_admission false nowQ' nowB' now' id' t a' (Some req') s1) as Hc.
  destruct (admission nowQ' nowB' t s1) as [[] s2]; destruct Ha as (_ & Hr & _ & _ & _).
  - rewrite Hc in *. unfold createAdmitted in *.
    destruct (existing_found t (qIdempotencyKey req') s2 k r0) as (r & Hex & Htr & Hkr);
      [congruence|by rewrite Hr|done|congruence|done|].
    rewrite Hex in *. destruct Hsl2 as (_ & Hu2 & _). split_and!; [done| |].
    + intros u. rewrite Hu2. simpl. lia.
    + right. exists r. split_and!; [done|done|congruence].
  - destruct Hc as [code Hc]. rewrite Hc in *. destruct Hsl2 as (_ & Hu2 & _).
    split_and!; [done| |left; by exists code]. intros u. rewrite Hu2. simpl. lia.
Qed.


(** ** Witnesses *)

#[local] Instance sample_range : RunRange := map_to_list.

Definition sample_server : Server (MemoryBackend Q) Empty_set := {|
  sRuns := emptyStore;
  sLimiter := {| backend := NewMemoryBackend; qps := 10; maxConcurrent := 1 |};
  sBudget := None;
  sExecutor := Some {| cancels := ∅; cancelled_ := ∅; eventSinks := ∅; sinkCompleted := ∅; queue := [] |};
  sAgents := λ _ _, None;
  sFaults := []
|}.

Definition sample_request (key : string) : RunCreateRequest :=
  {| qInput := {| InputType := "text"; InputText := "hello" |}; qOptions := Options zeroRun; qIdempotencyKey := key |}.

Definition sample_created : Response * Server (MemoryBackend Q) Empty_set :=
  handleRunCreate false 0 0 "t0" "r1" "acme" "bot" (Some (sample_request "k")) sample_server.

Lemma sample_server_slots u : 0 <= counters (sLimiter sample_server) u.
Proof. unfold counters. simpl. unfold go_get. by rewrite lookup_empty. Qed.

Lemma sample_created_slots u : 0 <= counters (sLimiter sample_created.2) u.
Proof.
  pose proof (handleRunCreate_slots false 0 0 "t0" "r1" "acme" "bot" (Some (sample_request "k")) sample_server
    sample_server_slots) as Hc.
  unfold sample_created. destruct (handleRunCreate _ _ _ _ _ _ _ _ _) as [resp s']. destruct Hc as (_ & Hu & _).
  cbn [snd]. rewrite Hu. pose proof (sample_server_slots u). destruct (created resp); repeat case_decide; lia.
Qed.

Lemma create_quota_exact_witness :
  created sample_created.1 = true ∧
  counters (sLimiter sample_created.2) "acme" = counters (sLimiter sample_server) "acme" + 1.
Proof.
  split; [vm_compute; reflexivity|].
  pose proof (create_quota_exact false 0 0 "t0" "r1" "acme" "bot" (Some (sample_request "k")) sample_server
    sample_server_slots) as Hc.
  unfold sample_created. destruct (handleRunCreate _ _ _ _ _ _ _ _ _) as [resp s'] eqn:E.
  destruct Hc as [Hu _]. cbn [snd]. rewrite Hu. replace (created resp) with true; [done|].
  change resp with (resp, s').1. rewrite <-E. vm_compute. reflexivity.
Defined.

Lemma slots_only_released_by_cancel_witness :
  ∃ code, (handleRunCreate false 5 5 "t5" "r2" "acme" "bot" (Some (sample_request ""))
    (exec serverStep sample_created.2 [OStore (SSave false false (runWith "completed" "t1" "t2" None None (jRun (sample_job false))));
                                       OWorkerDone 3 4 "r1"])).1 = RError 429 code true.
Proof.
  apply (slots_only_released_by_cancel "acme" sample_created.2); [apply sample_created_slots|].
  vm_compute. reflexivity.
Defined.

Lemma create_idempotent_witness :
  let '(resp, s2) := handleRunCreate false 9 9 "t9" "r9" "acme" "bot" (Some (sample_request "k")) sample_created.2 in
  sRuns s2 = sRuns sample_created.2.
Proof.
  pose proof (create_idempotent 0 0 "t0" "r1" "bot" (sample_request "k")
    (newRun "acme" "bot" "r1" "t0" (sample_request "k")) sample_server sample_created.2 [] "acme"
    9 9 "t9" "r9" "bot" (sample_request "k") sample_server_slots emptyStore_rel eq_refl) as Hc.
  specialize (Hc ltac:(done) eq_refl).
  destruct (handleRunCreate _ _ _ _ _ _ _ _ _) as [resp s2]. by destruct Hc.
Defined.

Definition sample_env : Environ := λ _, "".

