(* ===== verification/Access.v ===== *)
(** * Access: authentication and access control

    internal/auth (the request's identity, roles, API keys, the OIDC validator)
    and internal/middleware (WithAuth, APIKeyMiddleware, RBACMiddleware,
    ProtectMetrics, CORSMiddleware), with the member and API key tables of
    internal/storage/postgres.

    A middleware is a function from the request's context to a denial (status
    and error code) or the context it passes on.  The token library and bcrypt
    are not part of the repository: [jwtParse] (signature, issuer, expiry) and
    [Bcrypt] are parameters.  The tables are lists and maps of rows, and every
    database call takes from the table whether it fails. *)
From S2P Require Import Prelude GoTime GoPath GoStrings.

(** ** Identity (internal/auth/context.go) *)

Record AuthContext := {
  ATenantID : string;
  PrincipalID : string;
  Scopes : list string;
  SubjectType : string;
  APIKeyID : string;
  ARole : string;
  BearerToken : string;
  TokenTenantID : string;
  TokenPrincipalID : string;
  Validated : bool
}.

Definition zeroAuth : AuthContext := {|
  ATenantID := ""; PrincipalID := ""; Scopes := []; SubjectType := ""; APIKeyID := ""; ARole := "";
  BearerToken := ""; TokenTenantID := ""; TokenPrincipalID := ""; Validated := false
|}.

(** The headers of a request; a missing header reads as the empty string. *)
Definition Header := string → string.

Definition DevMode (env : Environ) : bool := bool_decide (env "AGENTOS_DEV_MODE" = "true").

Definition parseScopes (raw : string) : list string :=
  let raw := TrimSpace raw in
  if decide (raw = "") then []
  else
    let parts := Fields (replaceChar "," " " raw) in
    filter (λ p, p ≠ "") (TrimSpace <$> parts).

(** The token of a bearer Authorization header, or the empty string. *)
Definition bearerToken (header : string) : string :=
  let h := TrimSpace header in
  if HasPrefix (ToLower h) "bearer " then TrimSpace (dropBytes 7 h) else "".

Definition FromRequest (h : Header) : AuthContext := {|
  ATenantID := TrimSpace (h "X-Tenant-Id");
  PrincipalID := TrimSpace (h "X-Principal-Id");
  Scopes := parseScopes (h "X-Scopes");
  SubjectType := TrimSpace (h "X-Subject-Type");
  APIKeyID := TrimSpace (h "X-Api-Key-Id");
  ARole := "";
  BearerToken := bearerToken (h "Authorization");
  TokenTenantID := ""; TokenPrincipalID := ""; Validated := false
|}.

Definition DefaultTenant (env : Environ) : string := TrimSpace (env "AGENTOS_DEFAULT_TENANT").

Inductive TenantError := ErrTenantRequired | ErrTenantMismatch.

Definition RequireTenant (env : Environ) (ac : AuthContext) : TenantError + string :=
  let tokenTenant := TrimSpace (TokenTenantID ac) in
  let headerTenant := TrimSpace (ATenantID ac) in
  if decide (tokenTenant ≠ "" ∧ headerTenant ≠ "" ∧ tokenTenant ≠ headerTenant) then inl ErrTenantMismatch
  else if decide (tokenTenant ≠ "") then inr tokenTenant
  else if decide (headerTenant ≠ "") then inr headerTenant
  else if decide (DefaultTenant env ≠ "") then inr (DefaultTenant env)
  else inl ErrTenantRequired.

(** An answer that ends the request. *)
Record Denial := { dStatus : Z; dCode : string }.

Definition deny (status : Z) (code : string) : Denial := {| dStatus := status; dCode := code |}.

Definition ResolveTenantHTTP (env : Environ) (ac : AuthContext) : Denial + string :=
  match RequireTenant env ac with
  | inr t => inr t
  | inl ErrTenantMismatch => inl (deny 400 "tenant_mismatch")
  | inl ErrTenantRequired => inl (deny 401 "unauthorized")
  end.

(** ** Roles (internal/auth/rbac.go) *)

Definition roleLevel (r : string) : option Z :=
  if decide (r = "owner") then Some 40
  else if decide (r = "admin") then Some 30
  else if decide (r = "developer") then Some 20
  else if decide (r = "viewer") then Some 10
  else None.

Definition HasPermission (userRole requiredRole : string) : bool :=
  match roleLevel userRole, roleLevel requiredRole with
  | Some u, Some r => bool_decide (r <= u)
  | _, _ => false
  end.

Definition ValidRole (s : string) : bool := bool_decide (is_Some (roleLevel s)).

(** ** Scopes (agentorchestrator/server.go) *)

(** Simple case folding against an ASCII word: besides the ASCII letters, only
    the long s (two bytes) and the Kelvin sign (three bytes) fold to ASCII. *)
Fixpoint foldFrom (skip : nat) (s : string) : string :=
  match s with
  | EmptyString => EmptyString
  | String c0 s1 =>
      match skip with
      | S k => foldFrom k s1
      | O =>
          match s1 with
          | String c1 (String c2 _) =>
              if bool_decide (nat_of_ascii c0 = 226 ∧ nat_of_ascii c1 = 132 ∧ nat_of_ascii c2 = 170)%nat
              then String "k" (foldFrom 2 s1)
              else if bool_decide (nat_of_ascii c0 = 197 ∧ nat_of_ascii c1 = 191)%nat
              then String "s" (foldFrom 1 s1)
              else String (lowerAscii c0) (foldFrom 0 s1)
          | String c1 _ =>
              if bool_decide (nat_of_ascii c0 = 197 ∧ nat_of_ascii c1 = 191)%nat
              then String "s" (foldFrom 1 s1)
              else String (lowerAscii c0) (foldFrom 0 s1)
          | EmptyString => String (lowerAscii c0) (foldFrom 0 s1)
          end
      end
  end.

Definition EqualFold (s t : string) : bool := bool_decide (foldFrom 0 s = foldFrom 0 t).

Definition hasScope (scopes : list string) (target : string) : bool :=
  let target := TrimSpace target in
  existsb (λ s, EqualFold (TrimSpace s) target) scopes.

(** ** API keys (internal/auth/apikey.go) *)

Definition keyPrefix : string := "aos_live_".
Definition keyRandomLen : Z := 32.
Definition prefixLen : nat := 8.

(** The hashing library: a salted hash, and the comparison with a password. *)
Class Bcrypt := {
  GenerateFromPassword : string → string → option string;
  CompareHashAndPassword : string → string → bool
}.

Class BcryptLaws `{Bcrypt} := {
  compare_generated salt pw h :
    GenerateFromPassword salt pw = Some h → CompareHashAndPassword h pw = true;
  generate_short salt pw :
    (String.length pw ≤ 72)%nat → is_Some (GenerateFromPassword salt pw)
}.

Definition hexDigit (n : nat) : ascii :=
  ascii_of_nat (if bool_decide (n < 10)%nat then 48 + n else 87 + n).

(** [hex.EncodeToString] *)
Fixpoint EncodeToString (bs : list ascii) : string :=
  match bs with
  | [] => EmptyString
  | b :: bs' =>
      let n := nat_of_ascii b in
      String (hexDigit (n / 16)) (String (hexDigit (n mod 16)) (EncodeToString bs'))
  end.

Record GeneratedKey := { gKeyID : string; gFullKey : string; gPrefix : string; gKeyHash : string }.

(** [raw] and [idRaw] are the bytes the random source gives, 16 and 8 of them,
    [None] when it fails. *)
Definition GenerateKey `{Bcrypt} (raw idRaw : option (list ascii)) (salt : string) : option GeneratedKey :=
  raw ← raw;
  let body := EncodeToString raw in
  let fullKey := keyPrefix +:+ body in
  idRaw ← idRaw;
  hash ← GenerateFromPassword salt fullKey;
  Some {| gKeyID := "key_" +:+ EncodeToString idRaw; gFullKey := fullKey;
          gPrefix := takeBytes prefixLen body; gKeyHash := hash |}.

Definition ValidateKey `{Bcrypt} (fullKey storedHash : string) : bool :=
  CompareHashAndPassword storedHash fullKey.

Definition MaskKey (fullKey : string) : string :=
  if negb (HasPrefix fullKey keyPrefix) then "****"
  else
    let body := dropBytes (String.length keyPrefix) fullKey in
    if bool_decide (String.length body < 4)%nat then keyPrefix +:+ "****"
    else keyPrefix +:+ "****" +:+ dropBytes (String.length body - 4) body.

Definition IsAPIKey (token : string) : bool := HasPrefix token keyPrefix.

Definition ExtractPrefix (fullKey : string) : string :=
  if negb (HasPrefix fullKey keyPrefix) then ""
  else
    let body := dropBytes (String.length keyPrefix) fullKey in
    if bool_decide (String.length body < prefixLen)%nat then "" else takeBytes prefixLen body.

(** ** The tables (internal/storage/postgres) *)

Inductive DBError := ErrNotFound | ErrDatabase.

(** Whether the next statement fails, and the statements after it. *)
Definition nextFault (faults : list bool) : bool * list bool := (default false (head faults), tail faults).

(** *** tenant_members *)

Record MemberStore := { mRows : gmap (string * string) string; mFaults : list bool }.

Definition withFault {A} (s : MemberStore) (r : DBError + A) : (DBError + A) * MemberStore :=
  let '(f, fs) := nextFault (mFaults s) in
  (if f : bool then inl ErrDatabase else r, {| mRows := mRows s; mFaults := fs |}).

Definition GetRole (tenantID principalID : string) (s : MemberStore) : (DBError + string) * MemberStore :=
  withFault s (match mRows s !! (tenantID, principalID) with Some r => inr r | None => inl ErrNotFound end).

Definition membersOf (tenantID : string) (rows : gmap (string * string) string) : gmap (string * string) string :=
  filter (λ kv, kv.1.1 = tenantID) rows.

Definition CountMembers (tenantID : string) (s : MemberStore) : (DBError + Z) * MemberStore :=
  withFault s (inr (Z.of_nat (size (membersOf tenantID (mRows s))))).

(** The upsert; the CHECK constraint of the table refuses an unknown role. *)
Definition SetRole (tenantID principalID role : string) (s : MemberStore) : option DBError * MemberStore :=
  let '(f, fs) := nextFault (mFaults s) in
  if (f : bool) || negb (ValidRole role) then (Some ErrDatabase, {| mRows := mRows s; mFaults := fs |})
  else (None, {| mRows := <[(tenantID, principalID) := role]> (mRows s); mFaults := fs |}).

Definition DeleteMember (tenantID principalID : string) (s : MemberStore) : option DBError * MemberStore :=
  let '(f, fs) := nextFault (mFaults s) in
  if f : bool then (Some ErrDatabase, {| mRows := mRows s; mFaults := fs |})
  else match mRows s !! (tenantID, principalID) with
       | None => (Some ErrNotFound, {| mRows := mRows s; mFaults := fs |})
       | Some _ => (None, {| mRows := delete (tenantID, principalID) (mRows s); mFaults := fs |})
       end.

(** *** api_keys *)

Record APIKeyRecord := {
  KeyID : string;
  KTenantID : string;
  KeyHash : string;
  KeyPrefix : string;
  KName : string;
  KRole : string;
  CreatedBy : string;
  KCreatedAt : Time;
  ExpiresAt : option Time;
  RevokedAt : option Time
}.

Record APIKeyStore := { kRows : gmap string APIKeyRecord; kFaults : list bool }.

Definition keyFault {A} (s : APIKeyStore) (r : DBError + A) : (DBError + A) * APIKeyStore :=
  let '(f, fs) := nextFault (kFaults s) in
  (if f : bool then inl ErrDatabase else r, {| kRows := kRows s; kFaults := fs |}).

(** The order in which the database yields the rows of a SELECT. *)
Class KeyScan := key_scan : gmap string APIKeyRecord → list (string * APIKeyRecord).

(** The INSERT: the primary key is unique, the role is checked, a new row is
    not revoked. *)
Definition CreateKey (key : APIKeyRecord) (s : APIKeyStore) : option DBError * APIKeyStore :=
  let '(f, fs) := nextFault (kFaults s) in
  let row := {| KeyID := KeyID key; KTenantID := KTenantID key; KeyHash := KeyHash key;
                KeyPrefix := KeyPrefix key; KName := KName key; KRole := KRole key;
                CreatedBy := CreatedBy key; KCreatedAt := KCreatedAt key; ExpiresAt := ExpiresAt key;
                RevokedAt := None |} in
  if (f : bool) || negb (ValidRole (KRole key)) || bool_decide (is_Some (kRows s !! KeyID key)) then
    (Some ErrDatabase, {| kRows := kRows s; kFaults := fs |})
  else (None, {| kRows := <[KeyID key := row]> (kRows s); kFaults := fs |}).

(** [QueryRow]: the first row of the result. *)
Definition firstKey `{KeyScan} (P : APIKeyRecord → Prop) `{∀ k, Decision (P k)} (s : APIKeyStore) :
    (DBError + APIKeyRecord) * APIKeyStore :=
  keyFault s (match head (filter P (key_scan (kRows s)).*2) with Some r => inr r | None => inl ErrNotFound end).

Definition GetByPrefix `{KeyScan} (tenantID prefix : string) (s : APIKeyStore) :
    (DBError + APIKeyRecord) * APIKeyStore :=
  firstKey (λ k, KTenantID k = tenantID ∧ KeyPrefix k = prefix) s.

Definition LookupByPrefix `{KeyScan} (prefix : string) (s : APIKeyStore) :
    (DBError + APIKeyRecord) * APIKeyStore :=
  firstKey (λ k, KeyPrefix k = prefix) s.

Definition hideHash (k : APIKeyRecord) : APIKeyRecord := {|
  KeyID := KeyID k; KTenantID := KTenantID k; KeyHash := ""; KeyPrefix := KeyPrefix k; KName := KName k;
  KRole := KRole k; CreatedBy := CreatedBy k; KCreatedAt := KCreatedAt k; ExpiresAt := ExpiresAt k;
  RevokedAt := RevokedAt k
|}.

Definition newestFirst (a b : APIKeyRecord) : Prop := KCreatedAt b <= KCreatedAt a.

#[global] Instance newestFirst_dec a b : Decision (newestFirst a b).
Proof. unfold newestFirst. apply _. Defined.

Definition ListKeys `{KeyScan, SliceSort} (tenantID : string) (s : APIKeyStore) :
    (DBError + list APIKeyRecord) * APIKeyStore :=
  keyFault s (inr (hideHash <$> sortSlice newestFirst (filter (λ k, KTenantID k = tenantID) (key_scan (kRows s)).*2))).

Definition revoke (now : Time) (k : APIKeyRecord) : APIKeyRecord := {|
  KeyID := KeyID k; KTenantID := KTenantID k; KeyHash := KeyHash k; KeyPrefix := KeyPrefix k; KName := KName k;
  KRole := KRole k; CreatedBy := CreatedBy k; KCreatedAt := KCreatedAt k; ExpiresAt := ExpiresAt k;
  RevokedAt := Some now
|}.

(** The UPDATE touches the row of the key when it is the tenant's and active. *)
Definition Revoke (now : Time) (tenantID keyID : string) (s : APIKeyStore) : option DBError * APIKeyStore :=
  let '(f, fs) := nextFault (kFaults s) in
  let same := {| kRows := kRows s; kFaults := fs |} in
  if f : bool then (Some ErrDatabase, same)
  else match kRows s !! keyID with
       | Some k =>
           if decide (KTenantID k = tenantID ∧ RevokedAt k = None)
           then (None, {| kRows := <[keyID := revoke now k]> (kRows s); kFaults := fs |})
           else (Some ErrNotFound, same)
       | None => (Some ErrNotFound, same)
       end.

(** ** The OIDC validator (internal/auth/oidc.go) *)

Record OIDCConfig := { IssuerURL : string; Audience : string; TenantClaim : string }.

Definition LoadOIDCConfig (env : Environ) : OIDCConfig :=
  let claim := TrimSpace (env "AGENTOS_OIDC_TENANT_CLAIM") in
  {| IssuerURL := TrimSpace (env "AGENTOS_OIDC_ISSUER_URL");
     Audience := TrimSpace (env "AGENTOS_OIDC_AUDIENCE");
     TenantClaim := if decide (claim = "") then "tenant_id" else claim |}.

Definition OIDCEnabled (c : OIDCConfig) : bool := bool_decide (IssuerURL c ≠ "").

Abbreviation Claims := (list (string * any)) (only parsing).

Definition validateAudience (c : OIDCConfig) (claims : Claims) : bool :=
  match any_get "aud" claims with
  | Some (AStr aud) => bool_decide (aud = Audience c)
  | Some (AList auds) =>
      existsb (λ a, match a with AStr s => bool_decide (s = Audience c) | _ => false end) auds
  | _ => false
  end.

(** [jwtParse] is the token library with the provider's keys: the claims of a
    token whose signature, issuer and expiry it accepts. *)
Definition ValidateToken (jwtParse : OIDCConfig → string → option Claims) (c : OIDCConfig) (token : string) :
    option Claims :=
  claims ← jwtParse c token;
  if bool_decide (Audience c ≠ "") && negb (validateAudience c claims) then None else Some claims.

Definition nonempty_claim (claims : Claims) (k : string) : option string :=
  match any_string k claims with
  | Some v => if decide (v = "") then None else Some v
  | None => None
  end.

Fixpoint firstClaim (claims : Claims) (ks : list string) : string :=
  match ks with
  | [] => ""
  | k :: ks' => match nonempty_claim claims k with Some v => v | None => firstClaim claims ks' end
  end.

Definition ExtractTenantFromClaims (c : OIDCConfig) (claims : Claims) : string :=
  firstClaim claims [TenantClaim c; "tenant_id"; "tid"; "org_id"; "organization_id"].

(** ** Middleware (internal/middleware) *)

Definition setIdentity (tenant tokenTenant principal tokenPrincipal : string) (scopes : list string)
    (ac : AuthContext) : AuthContext := {|
  ATenantID := tenant; PrincipalID := principal; Scopes := scopes; SubjectType := SubjectType ac;
  APIKeyID := APIKeyID ac; ARole := ARole ac; BearerToken := BearerToken ac; TokenTenantID := tokenTenant;
  TokenPrincipalID := tokenPrincipal; Validated := true
|}.

(** What a verified token adds: only what the headers left empty. *)
Definition applyClaims (c : OIDCConfig) (claims : Claims) (ac : AuthContext) : AuthContext :=
  let t := ExtractTenantFromClaims c claims in
  let '(tenant, tokenTenant) :=
    if decide (ATenantID ac = "" ∧ t ≠ "") then (t, t) else (ATenantID ac, TokenTenantID ac) in
  let '(principal, tokenPrincipal) :=
    match nonempty_claim claims "sub" with
    | Some sub => if decide (PrincipalID ac = "") then (TrimSpace sub, TrimSpace sub)
                  else (PrincipalID ac, TokenPrincipalID ac)
    | None => (PrincipalID ac, TokenPrincipalID ac)
    end in
  let scopes := match Scopes ac, any_string "scope" claims with
                | [], Some scope => Fields scope
                | ss, _ => ss
                end in
  setIdentity tenant tokenTenant principal tokenPrincipal scopes ac.

Definition WithAuth (jwtParse : OIDCConfig → string → option Claims) (oidc : option OIDCConfig) (h : Header) :
    Denial + AuthContext :=
  let ac := FromRequest h in
  match oidc with
  | Some c =>
      if bool_decide (BearerToken ac ≠ "") && negb (IsAPIKey (BearerToken ac)) then
        match ValidateToken jwtParse c (BearerToken ac) with
        | None => inl (deny 401 "Unauthorized")
        | Some claims => inr (applyClaims c claims ac)
        end
      else inr ac
  | None => inr ac
  end.

Definition withKey (rec : APIKeyRecord) (ac : AuthContext) : AuthContext := {|
  ATenantID := KTenantID rec; PrincipalID := KeyID rec; Scopes := Scopes ac; SubjectType := SubjectType ac;
  APIKeyID := KeyID rec; ARole := KRole rec; BearerToken := BearerToken ac;
  TokenTenantID := TokenTenantID ac; TokenPrincipalID := TokenPrincipalID ac; Validated := true
|}.

(** [ExpiresAt] lies before the current time. *)
Definition expired (now : Time) (rec : APIKeyRecord) : bool :=
  match ExpiresAt rec with Some e => bool_decide (e < now) | None => false end.

Definition isRevoked (rec : APIKeyRecord) : bool :=
  match RevokedAt rec with Some _ => true | None => false end.

(** The lookup: scoped to the tenant when one is known, else by prefix alone,
    where the store supports it. *)
Definition findKey `{KeyScan} (env : Environ) (prefixLookup : bool) (ac : AuthContext) (prefix : string)
    (s : APIKeyStore) : (DBError + APIKeyRecord) * APIKeyStore :=
  match RequireTenant env ac with
  | inr tenantID => GetByPrefix tenantID prefix s
  | inl _ => if prefixLookup then LookupByPrefix prefix s else (inl ErrNotFound, s)
  end.

Definition APIKeyMiddleware `{Bcrypt, KeyScan} (env : Environ) (prefixLookup : bool) (now : Time)
    (ac : AuthContext) (store : option APIKeyStore) : (Denial + AuthContext) * option APIKeyStore :=
  let unauthorized := inl (deny 401 "Unauthorized") in
  match store with
  | None => (if DevMode env then inr ac else unauthorized, None)
  | Some s =>
      let token := BearerToken ac in
      if negb (IsAPIKey token) then (inr ac, Some s)
      else
        let prefix := ExtractPrefix token in
        if decide (prefix = "") then (unauthorized, Some s)
        else
          match findKey env prefixLookup ac prefix s with
          | (inl _, s') => (unauthorized, Some s')
          | (inr rec, s') =>
              if negb (ValidateKey token (KeyHash rec)) then (unauthorized, Some s')
              else if isRevoked rec then (unauthorized, Some s')
              else if expired now rec then (unauthorized, Some s')
              else (inr (withKey rec ac), Some s')
          end
  end.

Definition withRole (role : string) (ac : AuthContext) : AuthContext := {|
  ATenantID := ATenantID ac; PrincipalID := PrincipalID ac; Scopes := Scopes ac; SubjectType := SubjectType ac;
  APIKeyID := APIKeyID ac; ARole := role; BearerToken := BearerToken ac; TokenTenantID := TokenTenantID ac;
  TokenPrincipalID := TokenPrincipalID ac; Validated := Validated ac
|}.

(** The role of the principal: from the context, from the members table, or
    owner for the first user of a tenant without members. *)
Definition memberRole (tenantID : string) (ac : AuthContext) (s : MemberStore) : option string * MemberStore :=
  if decide (ARole ac ≠ "") then (Some (ARole ac), s)
  else
    match GetRole tenantID (PrincipalID ac) s with
    | (inr role, s1) => (Some role, s1)
    | (inl ErrDatabase, s1) => (None, s1)
    | (inl ErrNotFound, s1) =>
        match CountMembers tenantID s1 with
        | (inl _, s2) => (None, s2)
        | (inr count, s2) =>
            if bool_decide (count = 0) then
              match SetRole tenantID (PrincipalID ac) "owner" s2 with
              | (Some _, s3) => (None, s3)
              | (None, s3) => (Some "owner", s3)
              end
            else (None, s2)
        end
    end.

Definition RBACMiddleware (env : Environ) (requiredRole : string) (ac : AuthContext) (store : option MemberStore) :
    (Denial + AuthContext) * option MemberStore :=
  let forbidden := inl (deny 403 "forbidden") in
  match store with
  | None => (if DevMode env then inr ac else forbidden, None)
  | Some s =>
      if decide (PrincipalID ac = "") then (forbidden, Some s)
      else
        match RequireTenant env ac with
        | inl _ => (forbidden, Some s)
        | inr tenantID =>
            match memberRole tenantID ac s with
            | (None, s') => (forbidden, Some s')
            | (Some role, s') =>
                if negb (HasPermission role requiredRole) then (forbidden, Some s')
                else (inr (withRole role ac), Some s')
            end
        end
  end.

Definition ProtectMetrics (env : Environ) (requireAuth : bool) (ac : AuthContext) : option Denial :=
  if requireAuth then
    match ResolveTenantHTTP env ac with inl d => Some d | inr _ => None end
  else None.

(** *** Cross-origin requests (cors.go) *)

Definition ParseCORSConfig (origins : string) : list string :=
  if decide (TrimSpace origins = "") then []
  else filter (λ p, p ≠ "") (TrimSpace <$> splitChar "," origins).

Record CORSAnswer := { corsHeaders : list (string * string); corsCallsNext : bool }.

Definition CORSMiddleware (allowed : list string) (origin method : string) : CORSAnswer :=
  let pass := {| corsHeaders := []; corsCallsNext := true |} in
  if decide (allowed = []) then pass
  else if decide ("*" ∈ allowed) then pass
  else if decide (origin = "") then pass
  else if decide (origin ∉ allowed) then pass
  else {| corsHeaders :=
            [("Access-Control-Allow-Origin", origin);
             ("Access-Control-Allow-Methods", "GET, POST, PUT, DELETE, OPTIONS");
             ("Access-Control-Allow-Headers", "Authorization, Content-Type, X-Tenant-Id, X-Request-Id, X-Correlation-Id");
             ("Access-Control-Max-Age", "86400");
             ("Access-Control-Allow-Credentials", "true");
             ("Vary", "Origin")];
          corsCallsNext := negb (bool_decide (method = "OPTIONS")) |}.

(** The row handleAPIKeyCreate stores for a generated key. *)
Definition keyRecord (tenantID createdBy name role : string) (now : Time) (expires : option Time) (g : GeneratedKey) :
    APIKeyRecord := {|
  KeyID := gKeyID g; KTenantID := tenantID; KeyHash := gKeyHash g; KeyPrefix := gPrefix g; KName := name;
  KRole := role; CreatedBy := createdBy; KCreatedAt := now; ExpiresAt := expires; RevokedAt := None
|}.

(** The identity of a request as the handlers of the orchestrator see it:
    WithAuth, then the API key check. *)
Definition authenticate `{Bcrypt, KeyScan} (jwtParse : OIDCConfig → string → option Claims) (oidc : option OIDCConfig)
    (env : Environ) (prefixLookup : bool) (now : Time) (h : Header) (store : option APIKeyStore) :
    (Denial + AuthContext) * option APIKeyStore :=
  match WithAuth jwtParse oidc h with
  | inl d => (inl d, store)
  | inr ac => APIKeyMiddleware env prefixLookup now ac store
  end.

(** The token of a well-formed Authorization header. *)
Lemma bearerToken_token tok :
  tok ≠ "" → stringForall graphic tok = true → bearerToken ("Bearer " +:+ tok) = tok.
Proof.
  intros Hne Ht. unfold bearerToken.
  rewrite (TrimSpace_graphic "B" "earer " tok) by done.
  change (ToLower ("Bearer " +:+ tok)) with ("bearer " +:+ ToLower tok). rewrite HasPrefix_app.
  rewrite (dropBytes_app "Bearer "). by apply TrimSpace_graphic_all.
Qed.

(** ** Role checks *)

Lemma HasPermission_trans a b c : HasPermission a b = true → HasPermission b c = true → HasPermission a c = true.
Proof.
  unfold HasPermission. destruct (roleLevel a), (roleLevel b), (roleLevel c); try done.
  rewrite !bool_decide_eq_true. lia.
Qed.

(** What grants a role: the context (an API key), a row of the table, or being
    the first user of a tenant without members. *)
Inductive Granted (rows : gmap (string * string) string) (t : string) (ac : AuthContext) : string → Prop :=
  | GrantedByContext : ARole ac ≠ "" → Granted rows t ac (ARole ac)
  | GrantedByRow role : ARole ac = "" → rows !! (t, PrincipalID ac) = Some role → Granted rows t ac role
  | GrantedFirst : ARole ac = "" → membersOf t rows = ∅ → Granted rows t ac "owner".

Lemma size_membersOf t rows : Z.of_nat (size (membersOf t rows)) = 0 → membersOf t rows = ∅.
Proof. intros H. apply map_size_empty_iff. lia. Qed.

Lemma memberRole_sound t ac s role s' :
  memberRole t ac s = (Some role, s') → Granted (mRows s) t ac role.
Proof.
  unfold memberRole, GetRole, CountMembers, SetRole, withFault, nextFault. intros H.
  case_decide; [by simplify_eq; constructor|].
  assert (ARole ac = "") by (by destruct (decide (ARole ac = ""))).
  destruct (default false (head (mFaults s))); [done|]. cbn in H.
  destruct (mRows s !! (t, PrincipalID ac)) as [r|] eqn:E; [by simplify_eq; constructor|].
  destruct (default false (head (tail (mFaults s)))); [done|]. cbn in H.
  case_bool_decide as Hc; [|done]. destruct (_ || _); [done|]. simplify_eq.
  apply GrantedFirst; [done|]. by apply size_membersOf.
Qed.

(** The table changes only by the bootstrap of a tenant without members. *)
Lemma memberRole_rows t ac s role s' :
  memberRole t ac s = (role, s') →
  mRows s' = mRows s ∨
  (ARole ac = "" ∧ membersOf t (mRows s) = ∅ ∧ mRows s' = <[(t, PrincipalID ac) := "owner"]> (mRows s)).
Proof.
  unfold memberRole, GetRole, CountMembers, SetRole, withFault, nextFault. intros H.
  case_decide; [by simplify_eq; left|].
  assert (ARole ac = "") by (by destruct (decide (ARole ac = ""))).
  destruct (default false (head (mFaults s))); [by simplify_eq; left|]. cbn in H.
  destruct (mRows s !! (t, PrincipalID ac)) as [r|] eqn:E; [by simplify_eq; left|].
  destruct (default false (head (tail (mFaults s)))); [by simplify_eq; left|]. cbn in H.
  case_bool_decide as Hc; [|by simplify_eq; left]. destruct (_ || _); simplify_eq; [by left|right].
  split_and!; [done| |done]. by apply size_membersOf.
Qed.

(** The statements a role takes: none for one of the context, one for a row, two for no
    row among other members, three for the bootstrap. *)
Definition roleStatements (rows : gmap (string * string) string) (t : string) (ac : AuthContext) : nat :=
  if decide (ARole ac ≠ "") then 0
  else match rows !! (t, PrincipalID ac) with
       | Some _ => 1
       | None => if decide (membersOf t rows = ∅) then 3 else 2
       end.

(** The next [n] statements do not fail. *)
Definition answered (n : nat) (faults : list bool) : Prop := Forall (λ f, f = false) (take n faults).

Lemma answered_S n faults : answered (S n) faults ↔ default false (head faults) = false ∧ answered n (tail faults).
Proof.
  unfold answered. destruct faults as [|f faults]; cbn [take head tail default from_option]; [rewrite take_nil; split; [intros; split; [done|constructor]|constructor]|].
  by rewrite Forall_cons.
Qed.

(** The first user of a tenant without members, when the three statements succeed. *)
Definition bootstraps (t : string) (ac : AuthContext) (s : MemberStore) : Prop :=
  ARole ac = "" ∧ membersOf t (mRows s) = ∅ ∧ answered 3 (mFaults s).

Lemma memberRole_complete t ac s role :
  Granted (mRows s) t ac role → answered (roleStatements (mRows s) t ac) (mFaults s) → (memberRole t ac s).1 = Some role.
Proof.
  unfold memberRole, roleStatements, GetRole, CountMembers, SetRole, withFault, nextFault. intros Hg Hf.
  destruct Hg as [Hr|role Hr Hrow|Hr Hm]; [by rewrite decide_True| |]; rewrite decide_False in Hf by tauto; rewrite decide_False by tauto.
  - rewrite Hrow in Hf |- *. apply answered_S in Hf as [-> _]. done.
  - assert (mRows s !! (t, PrincipalID ac) = None) as Hrow.
    { destruct (mRows s !! (t, PrincipalID ac)) as [r|] eqn:E; [|done].
      assert (membersOf t (mRows s) !! (t, PrincipalID ac) = Some r) as E' by (by apply map_lookup_filter_Some).
      by rewrite Hm in E'. }
    rewrite Hrow in Hf |- *. rewrite decide_True in Hf by done.
    apply answered_S in Hf as [-> Hf]. apply answered_S in Hf as [H1 Hf]. apply answered_S in Hf as [H2 _].
    cbn. rewrite H1. cbn. rewrite Hm, map_size_empty. cbn. by rewrite H2.
Qed.

(** A role is found only when every statement it takes was answered. *)
Lemma memberRole_answered t ac s role s' :
  memberRole t ac s = (Some role, s') → answered (roleStatements (mRows s) t ac) (mFaults s).
Proof.
  unfold memberRole, roleStatements, GetRole, CountMembers, SetRole, withFault, nextFault. intros H.
  case_decide; [by constructor|].
  destruct (default false (head (mFaults s))) eqn:E0; [done|]. cbn in H.
  destruct (mRows s !! (t, PrincipalID ac)) as [r|]; [apply answered_S; split; [done|constructor]|].
  destruct (default false (head (tail (mFaults s)))) eqn:E1; [done|]. cbn in H.
  case_bool_decide as Hc; [|done]. apply size_membersOf in Hc. rewrite decide_True by done.
  destruct (default false (head (tail (tail (mFaults s))))) eqn:E2; [done|].
  rewrite !answered_S. split_and!; [done..|constructor].
Qed.

(** The table changes exactly by the bootstrap. *)
Lemma memberRole_table t ac s :
  (bootstraps t ac s → mRows (memberRole t ac s).2 = <[(t, PrincipalID ac) := "owner"]> (mRows s)) ∧
  (¬ bootstraps t ac s → mRows (memberRole t ac s).2 = mRows s).
Proof.
  destruct (memberRole t ac s) as [o s'] eqn:Hm. cbn [snd]. split.
  - intros (Hr & He & Ha). pose proof (GrantedFirst (mRows s) t ac Hr He) as Hg.
    assert (roleStatements (mRows s) t ac = 3%nat) as Hn.
    { unfold roleStatements. rewrite decide_False by tauto. destruct (mRows s !! _) as [r|] eqn:E; [|by rewrite decide_True].
      assert (membersOf t (mRows s) !! (t, PrincipalID ac) = Some r) as E' by (by apply map_lookup_filter_Some). by rewrite He in E'. }
    pose proof (memberRole_complete t ac s _ Hg ltac:(by rewrite Hn)) as Ho. rewrite Hm in Ho. cbn in Ho. subst o.
    revert Hm. unfold memberRole, GetRole, CountMembers, SetRole, withFault, nextFault. rewrite decide_False by tauto.
    apply answered_S in Ha as [-> Ha]. apply answered_S in Ha as [H1 Ha]. apply answered_S in Ha as [H2 _].
    destruct (mRows s !! (t, PrincipalID ac)) as [r|] eqn:E.
    { assert (membersOf t (mRows s) !! (t, PrincipalID ac) = Some r) as E' by (by apply map_lookup_filter_Some). by rewrite He in E'. }
    cbn. rewrite H1. cbn. rewrite He, map_size_empty. cbn. rewrite H2. cbn. by intros [= <-].
  - intros Hn. destruct (memberRole_rows _ _ _ _ _ Hm) as [?|(Hr & He & Hs)]; [done|].
    destruct o as [role|].
    + pose proof (memberRole_answered _ _ _ _ _ Hm) as Ha. exfalso. apply Hn. split_and!; [done..|].
      unfold roleStatements in Ha. rewrite decide_False in Ha by tauto. destruct (mRows s !! _) as [r|] eqn:E; [|by rewrite decide_True in Ha].
      assert (membersOf t (mRows s) !! (t, PrincipalID ac) = Some r) as E' by (by apply map_lookup_filter_Some). by rewrite He in E'.
    + revert Hm. unfold memberRole, GetRole, CountMembers, SetRole, withFault, nextFault. intros H.
      repeat (case_decide || case_bool_decide || case_match); simplify_eq/=; done.
Qed.

(** C9. The role check fails closed and is exact: a request passes exactly with a
    principal, a tenant, and a role that the context, a row of the members table,
    or the bootstrap of a tenant without members grants and that covers the
    required role, when none of the database calls this takes fails; every other
    request is refused, so a fault in any of these calls refuses.  The table
    changes exactly by a bootstrap whose calls all succeed. *)
Theorem rbac_exact (env : Environ) (required : string) (ac : AuthContext) (s : MemberStore) :
  let '(res, s') := RBACMiddleware env required ac (Some s) in
  (∀ ac', res = inr ac' ↔
     PrincipalID ac ≠ "" ∧ ∃ t role, RequireTenant env ac = inr t ∧ Granted (mRows s) t ac role ∧
       answered (roleStatements (mRows s) t ac) (mFaults s) ∧ HasPermission role required = true ∧ ac' = withRole role ac) ∧
  (∀ d, res = inl d → d = deny 403 "forbidden") ∧
  (∃ s1, s' = Some s1 ∧
     (∀ t, PrincipalID ac ≠ "" → RequireTenant env ac = inr t → bootstraps t ac s → mRows s1 = <[(t, PrincipalID ac) := "owner"]> (mRows s)) ∧
     ((∀ t, PrincipalID ac ≠ "" → RequireTenant env ac = inr t → ¬ bootstraps t ac s) → mRows s1 = mRows s)).
Proof.
  unfold RBACMiddleware. case_decide as Hp; [split_and!; naive_solver|].
  destruct (RequireTenant env ac) as [e|t] eqn:Ht; [split_and!; naive_solver|].
  pose proof (memberRole_table t ac s) as [Hb Hnb]. destruct (memberRole t ac s) as [o s1] eqn:Hm. cbn [snd] in Hb, Hnb.
  assert (∀ role, o = Some role ↔ Granted (mRows s) t ac role ∧ answered (roleStatements (mRows s) t ac) (mFaults s)) as Ho.
  { intros role. split; [intros ->; split; [by eapply memberRole_sound|by eapply memberRole_answered]|].
    intros [Hg Ha]. pose proof (memberRole_complete t ac s role Hg Ha) as Hc. by rewrite Hm in Hc. }
  assert (∃ s2, Some s1 = Some s2 ∧
     (∀ t', PrincipalID ac ≠ "" → inr t = inr t' :> TenantError + string → bootstraps t' ac s → mRows s2 = <[(t', PrincipalID ac) := "owner"]> (mRows s)) ∧
     ((∀ t', PrincipalID ac ≠ "" → inr t = inr t' :> TenantError + string → ¬ bootstraps t' ac s) → mRows s2 = mRows s)) as Htable
    by (exists s1; split_and!; [done|intros t' _ [= <-]; exact Hb|intros Hn; apply Hnb; by apply Hn]).
  destruct o as [role|]; [destruct (HasPermission role required) eqn:Hr|]; cbn; (split; [|split; [naive_solver|exact Htable]]).
  - intros ac'. split.
    + intros [= <-]. split; [done|]. exists t, role. destruct (proj1 (Ho role) eq_refl). by split_and!.
    + intros (_ & t' & role' & [= <-] & Hg & Ha & _ & ->). by pose proof (proj2 (Ho role') (conj Hg Ha)) as [= ->].
  - intros ac'. split; [done|]. intros (_ & t' & role' & [= <-] & Hg & Ha & Hr' & _). pose proof (proj2 (Ho role') (conj Hg Ha)) as [= ->]. congruence.
  - intros ac'. split; [done|]. intros (_ & t' & role' & [= <-] & Hg & Ha & _). by pose proof (proj2 (Ho role') (conj Hg Ha)).
Qed.

(** ** API keys *)

Lemma elem_of_head_filter {A} (P : A → Prop) `{∀ x, Decision (P x)} l x :
  head (filter P l) = Some x → x ∈ l ∧ P x.
Proof.
  intros Hh. assert (x ∈ filter P l) as Hx by (destruct (filter P l); simplify_eq/=; set_solver).
  apply list_elem_of_filter in Hx. naive_solver.
Qed.

Section keys.
Context `{Bcrypt, KeyScan, !GoRange key_scan}.

Lemma firstKey_sound P `{∀ k, Decision (P k)} s rec s' :
  firstKey P s = (inr rec, s') → (∃ id, kRows s !! id = Some rec) ∧ P rec.
Proof.
  unfold firstKey, keyFault, nextFault. intros Hk.
  destruct (default false (head (kFaults s))); [done|].
  destruct (head (filter P _)) as [r|] eqn:E; [|done]. simplify_eq.
  apply elem_of_head_filter in E as [Hin HP]. split; [|done].
  apply list_elem_of_fmap in Hin as ([id r] & -> & Hin). exists id.
  by apply elem_of_range in Hin.
Qed.

Lemma findKey_rows env pl ac prefix s r s' : findKey env pl ac prefix s = (r, s') → kRows s' = kRows s.
Proof.
  unfold findKey, GetByPrefix, LookupByPrefix, firstKey, keyFault, nextFault.
  destruct (RequireTenant env ac), pl; intros; by simplify_eq.
Qed.

(** An API key is believed only on the strength of a row: the request passes
    only if some row of the table has the key's prefix and a hash that matches the
    whole key, is neither revoked nor expired, and is the tenant's own when the
    request names a tenant; tenant, principal and role of the request are then
    the row's.  Checking changes no row. *)
Theorem api_key_sound (env : Environ) (pl : bool) (now : Time) (ac : AuthContext) (s : APIKeyStore) :
  let '(res, s') := APIKeyMiddleware env pl now ac (Some s) in
  (∃ s1, s' = Some s1 ∧ kRows s1 = kRows s) ∧
  (IsAPIKey (BearerToken ac) = true → ∀ ac', res = inr ac' →
     ∃ id rec, kRows s !! id = Some rec ∧ KeyPrefix rec = ExtractPrefix (BearerToken ac) ∧
       CompareHashAndPassword (KeyHash rec) (BearerToken ac) = true ∧
       RevokedAt rec = None ∧ (∀ e, ExpiresAt rec = Some e → now <= e) ∧
       (∀ t, RequireTenant env ac = inr t → KTenantID rec = t) ∧
       ATenantID ac' = KTenantID rec ∧ PrincipalID ac' = KeyID rec ∧ ARole ac' = KRole rec ∧
       Validated ac' = true).
Proof.
  unfold APIKeyMiddleware. destruct (IsAPIKey (BearerToken ac)) eqn:Hk; cbn; [|naive_solver].
  case_decide as Hp; [naive_solver|].
  destruct (findKey env pl ac (ExtractPrefix (BearerToken ac)) s) as [[e|rec] s1] eqn:Hf;
    pose proof (findKey_rows _ _ _ _ _ _ _ Hf) as Hrows; [naive_solver|].
  assert ((∃ id, kRows s !! id = Some rec) ∧ KeyPrefix rec = ExtractPrefix (BearerToken ac) ∧
    (∀ t, RequireTenant env ac = inr t → KTenantID rec = t)) as ((id & Hid) & Hpre & Hten).
  { unfold findKey in Hf. destruct (RequireTenant env ac) as [e|t] eqn:Ht.
    - destruct pl; [|done]. apply firstKey_sound in Hf. naive_solver.
    - apply firstKey_sound in Hf. naive_solver. }
  unfold ValidateKey. destruct (CompareHashAndPassword (KeyHash rec) (BearerToken ac)) eqn:Hh; cbn; [|naive_solver].
  unfold isRevoked. destruct (RevokedAt rec) as [r|] eqn:Hr; [naive_solver|].
  destruct (expired now rec) eqn:He; [naive_solver|]. split; [naive_solver|].
  intros _ ac' [= <-]. exists id, rec. split_and!; try done.
  intros e Hexp. unfold expired in He. rewrite Hexp, bool_decide_eq_false in He. lia.
Qed.

End keys.

Lemma hexDigit_graphic n : (n < 16)%nat → graphic (hexDigit n) = true.
Proof. intros. do 16 (destruct n as [|n]; [reflexivity|]). lia. Qed.

Lemma EncodeToString_graphic bs : stringForall graphic (EncodeToString bs) = true.
Proof.
  induction bs as [|b bs IH]; [done|]. cbn -[hexDigit Nat.div Nat.modulo].
  pose proof (nat_ascii_bounded b).
  rewrite !hexDigit_graphic, IH; [done| |].
  - apply Nat.mod_upper_bound. lia.
  - apply Nat.Div0.div_lt_upper_bound. lia.
Qed.

Lemma EncodeToString_length bs : String.length (EncodeToString bs) = (2 * length bs)%nat.
Proof. induction bs as [|b bs IH]; [done|]. cbn -[hexDigit Nat.div Nat.modulo]. rewrite IH. lia. Qed.

Lemma takeBytes_nonempty n s : (0 < n)%nat → s ≠ "" → takeBytes n s ≠ "".
Proof. destruct n, s; cbn; try done; lia. Qed.

Lemma ExtractPrefix_key body :
  (prefixLen ≤ String.length body)%nat → ExtractPrefix (keyPrefix +:+ body) = takeBytes prefixLen body.
Proof.
  intros Hlen. unfold ExtractPrefix. rewrite HasPrefix_app, dropBytes_app. cbn -[takeBytes].
  rewrite bool_decide_eq_false_2 by (unfold prefixLen in *; lia). done.
Qed.

Section lifecycle.
Context `{BcryptLaws} `{KeyScan, !GoRange key_scan}.
Context (raw idRaw : list ascii) (salt : string) (Hraw : length raw = 16%nat).

(** Generation succeeds; the key carries its prefix and matches its hash. *)
Lemma GenerateKey_ok :
  ∃ g, GenerateKey (Some raw) (Some idRaw) salt = Some g ∧
    gFullKey g = keyPrefix +:+ EncodeToString raw ∧
    IsAPIKey (gFullKey g) = true ∧ ExtractPrefix (gFullKey g) = gPrefix g ∧ gPrefix g ≠ "" ∧
    ValidateKey (gFullKey g) (gKeyHash g) = true ∧ stringForall graphic (gFullKey g) = true.
Proof.
  pose proof (EncodeToString_length raw) as Hl.
  destruct (generate_short salt (keyPrefix +:+ EncodeToString raw)) as [h Hh].
  { rewrite string_length_app, Hl, Hraw. cbn. lia. }
  unfold GenerateKey. cbn -[takeBytes keyPrefix]. rewrite Hh. eexists. split; [reflexivity|]. cbn -[takeBytes keyPrefix].
  split_and!; [done| | | | |].
  - apply HasPrefix_app.
  - apply ExtractPrefix_key. rewrite Hl, Hraw. unfold prefixLen. lia.
  - apply takeBytes_nonempty; [unfold prefixLen; lia|]. intros Hn. rewrite Hn in Hl. cbn in Hl. lia.
  - eapply compare_generated, Hh.
  - rewrite stringForall_app. by rewrite EncodeToString_graphic.
Qed.

Lemma firstKey_unique P `{∀ k, Decision (P k)} s id rec :
  kRows s !! id = Some rec → P rec → (∀ id' r, kRows s !! id' = Some r → P r → id' = id) →
  default false (head (kFaults s)) = false →
  ∃ s', firstKey P s = (inr rec, s') ∧ kRows s' = kRows s.
Proof.
  intros Hid HP Hu Hf. unfold firstKey, keyFault, nextFault. rewrite Hf.
  destruct (head (filter P (key_scan (kRows s)).*2)) as [r|] eqn:E.
  - apply elem_of_head_filter in E as [Hin HPr].
    apply list_elem_of_fmap in Hin as ([id' r'] & -> & Hin). apply elem_of_range in Hin; [|done].
    pose proof (Hu _ _ Hin HPr) as ->. simplify_eq. eauto.
  - exfalso. assert (rec ∈ filter P (key_scan (kRows s)).*2) as Hin; [|by destruct (filter P _); [set_solver|]].
    apply list_elem_of_filter. split; [done|]. apply list_elem_of_fmap. exists (id, rec). split; [done|].
    by apply elem_of_range.
Qed.

(** The table accepts an unrevoked, unexpired row of the request's tenant, when
    no other row has its prefix. *)
Lemma APIKeyMiddleware_accepts env now ac id rec s :
  kRows s !! id = Some rec → default false (head (kFaults s)) = false →
  IsAPIKey (BearerToken ac) = true → KeyPrefix rec = ExtractPrefix (BearerToken ac) → KeyPrefix rec ≠ "" →
  (∀ id' r, kRows s !! id' = Some r → KeyPrefix r = KeyPrefix rec → id' = id) →
  (∀ t, RequireTenant env ac = inr t → t = KTenantID rec) →
  ValidateKey (BearerToken ac) (KeyHash rec) = true →
  (APIKeyMiddleware env true now ac (Some s)).1 =
    if isRevoked rec || expired now rec then inl (deny 401 "Unauthorized") else inr (withKey rec ac).
Proof.
  intros Hid Hf Hk Hpre Hne Hu Ht Hv. unfold APIKeyMiddleware. rewrite Hk. cbn [negb].
  rewrite decide_False by congruence.
  assert (∃ s', findKey env true ac (ExtractPrefix (BearerToken ac)) s = (inr rec, s')) as [s' ->].
  { unfold findKey. rewrite <-Hpre. destruct (RequireTenant env ac) as [e|t].
    - edestruct (firstKey_unique (λ k, KeyPrefix k = KeyPrefix rec) s id rec) as (s' & ? & _); eauto.
    - rewrite (Ht t eq_refl).
      edestruct (firstKey_unique (λ k, KTenantID k = KTenantID rec ∧ KeyPrefix k = KeyPrefix rec) s id rec)
        as (s' & ? & _); eauto. naive_solver. }
  rewrite Hv. cbn. by destruct (isRevoked rec), (expired now rec).
Qed.

Lemma authenticate_key jwtParse oidc env now h tok store :
  h "Authorization" = "Bearer " +:+ tok → tok ≠ "" → stringForall graphic tok = true → IsAPIKey tok = true →
  authenticate jwtParse oidc env true now h store = APIKeyMiddleware env true now (FromRequest h) store ∧
  BearerToken (FromRequest h) = tok.
Proof.
  intros Hh Hne Hg Hk.
  assert (BearerToken (FromRequest h) = tok) as Hb by (cbn; rewrite Hh; by apply bearerToken_token).
  split; [|done]. unfold authenticate, WithAuth. destruct oidc as [c|]; [|done].
  rewrite Hb, Hk. cbn. by rewrite andb_false_r.
Qed.

(** A key passes only when the statement that looks it up does not fail. *)
Lemma APIKeyMiddleware_fault env pl now ac ac' s :
  IsAPIKey (BearerToken ac) = true → (APIKeyMiddleware env pl now ac (Some s)).1 = inr ac' →
  default false (head (kFaults s)) = false.
Proof.
  unfold APIKeyMiddleware. intros ->. cbn [negb]. case_decide; [done|].
  unfold findKey, GetByPrefix, LookupByPrefix, firstKey, keyFault, nextFault.
  destruct (RequireTenant env ac), pl; destruct (default false (head (kFaults s))); done.
Qed.

Lemma APIKeyMiddleware_denial env pl now ac d s :
  IsAPIKey (BearerToken ac) = true → (APIKeyMiddleware env pl now ac (Some s)).1 = inl d → d = deny 401 "Unauthorized".
Proof.
  unfold APIKeyMiddleware. intros ->. cbn [negb]. case_decide; [by intros [= <-]|]. destruct (findKey _ _ _ _ _) as [[e|rec] s']; [by intros [= <-]|].
  repeat case_match; cbn; intros; by simplify_eq.
Qed.

(** What happens to the table of keys: other keys are made, keys are revoked. *)
Inductive KeyOp := OpCreateKey (key : APIKeyRecord) | OpRevokeKey (now : Time) (tenantID keyID : string).

Definition keyStep (s : APIKeyStore) (op : KeyOp) : APIKeyStore :=
  match op with
  | OpCreateKey key => (CreateKey key s).2
  | OpRevokeKey now tenantID keyID => (Revoke now tenantID keyID s).2
  end.

(** The tenant has revoked the key, and the call succeeded. *)
Definition revokedBy (tenantID keyID : string) (s : APIKeyStore) (ops : list KeyOp) : Prop :=
  ∃ ops1 now ops2, ops = ops1 ++ OpRevokeKey now tenantID keyID :: ops2 ∧ (Revoke now tenantID keyID (exec keyStep s ops1)).1 = None.

(** The row of a key stays as it was created until the tenant revokes it, and revoked from
    then on. *)
Lemma key_history rec s ops : RevokedAt rec = None → kRows s !! KeyID rec = Some rec →
  (¬ revokedBy (KTenantID rec) (KeyID rec) s ops ∧ kRows (exec keyStep s ops) !! KeyID rec = Some rec) ∨
  (revokedBy (KTenantID rec) (KeyID rec) s ops ∧ ∃ now, kRows (exec keyStep s ops) !! KeyID rec = Some (revoke now rec)).
Proof.
  intros Hr Hs. induction ops as [|op ops IH] using rev_ind.
  { left. split; [|done]. intros (ops1 & now & ops2 & Hn & _). by destruct ops1. }
  rewrite exec_app. cbn. set (s' := exec keyStep s ops) in *.
  assert (revokedBy (KTenantID rec) (KeyID rec) s (ops ++ [op]) ↔ revokedBy (KTenantID rec) (KeyID rec) s ops ∨
    ∃ now, op = OpRevokeKey now (KTenantID rec) (KeyID rec) ∧ (Revoke now (KTenantID rec) (KeyID rec) s').1 = None) as Hrev.
  { split.
    - intros (ops1 & now & ops2 & Heq & Hok). destruct ops2 as [|op2 ops2 _] using rev_ind.
      + apply app_inj_tail in Heq as [<- ->]. right. by exists now.
      + rewrite app_comm_cons, app_assoc in Heq. apply app_inj_tail in Heq as [-> ->]. left. by exists ops1, now, ops2.
    - intros [(ops1 & now & ops2 & -> & Hok)|(now & -> & Hok)]; [|by exists ops, now, []].
      exists ops1, now, (ops2 ++ [op]). split; [by rewrite <- app_assoc|done]. }
  destruct op as [key|now t id].
  - assert (kRows (keyStep s' (OpCreateKey key)) !! KeyID rec = kRows s' !! KeyID rec) as ->.
    { cbn. unfold CreateKey, nextFault. destruct (_ || _ || bool_decide (is_Some (kRows s' !! KeyID key))) eqn:E; [done|]. cbn.
      apply orb_false_iff in E as [_ E%bool_decide_eq_false_1]. apply lookup_insert_ne. intros Hx. apply E. rewrite Hx.
      destruct IH as [[_ ->]|[_ [? ->]]]; eauto. }
    assert (¬ ∃ now, OpCreateKey key = OpRevokeKey now (KTenantID rec) (KeyID rec) ∧ (Revoke now (KTenantID rec) (KeyID rec) s').1 = None) as Hno by (by intros (? & [=] & _)).
    rewrite Hrev. destruct IH as [[? ->]|[? [n ->]]]; [left; tauto|right; split; [tauto|by exists n]].
  - rewrite Hrev. cbn. unfold Revoke, nextFault. destruct (default false (head (kFaults s'))); cbn.
    { destruct IH as [[Hn ->]|[? [n ->]]]; [left|right; split; [tauto|by exists n]]. split; [|done]. intros [?|(? & _ & [=])]; done. }
    destruct (kRows s' !! id) as [k|] eqn:Hk; [|cbn].
    2:{ destruct IH as [[Hn E]|[? [n E]]]; [left|right; split; [tauto|by exists n]]. split; [|done].
        intros [?|(? & [= <- _ ->] & _)]; [done|]. congruence. }
    destruct (decide (KTenantID k = t ∧ RevokedAt k = None)) as [[Hkt Hkr]|Hk']; cbn.
    + destruct (decide (id = KeyID rec)) as [->|Hne].
      * right. rewrite lookup_insert_eq. destruct IH as [[Hn E]|[? [n E]]]; rewrite E in Hk; injection Hk as <-; [|done].
        split; [right; exists now; split; [by rewrite Hkt|]|by exists now]. by rewrite E, decide_True.
      * rewrite lookup_insert_ne by done. destruct IH as [[Hn ->]|[? [n ->]]]; [left|right; split; [tauto|by exists n]]. split; [|done].
        intros [?|(? & [= _ _ ->] & _)]; done.
    + destruct IH as [[Hn E]|[? [n E]]]; [left|right; split; [tauto|by exists n]]. split; [|done].
      intros [?|(? & [= <- -> ->] & Hok)]; [done|]. rewrite E in Hk. injection Hk as <-. tauto.
Qed.

(** C32. The life of an API key.  Once a generated key is stored, and whatever other keys are
    made and whatever is revoked, with any database failures: a request that carries it as a
    bearer token passes only while the tenant has not revoked it, it has not expired, the
    request names no other tenant and the lookup does not fail, and then has the tenant,
    the role and the principal it was created for; every other such request is refused.
    When no other key has its first eight digits, it passes whenever these conditions hold.
    The hashes of the other keys are taken not to match it. *)
Theorem api_key_lifecycle (jwtParse : OIDCConfig → string → option Claims) (oidc : option OIDCConfig)
    (env : Environ) (h : Header) (tenant createdBy name role : string) (created later : Time)
    (expires : option Time) (s s1 : APIKeyStore) (g : GeneratedKey) (ops : list KeyOp) :
  GenerateKey (Some raw) (Some idRaw) salt = Some g →
  CreateKey (keyRecord tenant createdBy name role created expires g) s = (None, s1) →
  h "Authorization" = "Bearer " +:+ gFullKey g →
  let s2 := exec keyStep s1 ops in
  (∀ id r, id ≠ gKeyID g → kRows s2 !! id = Some r → CompareHashAndPassword (KeyHash r) (gFullKey g) = false) →
  let res := (authenticate jwtParse oidc env true later h (Some s2)).1 in
  let valid := ¬ revokedBy tenant (gKeyID g) s1 ops ∧ (∀ e, expires = Some e → later <= e) ∧
               (∀ t, RequireTenant env (FromRequest h) = inr t → t = tenant) ∧ default false (head (kFaults s2)) = false in
  (∀ ac, res = inr ac → valid ∧ ATenantID ac = tenant ∧ ARole ac = role ∧ PrincipalID ac = gKeyID g) ∧
  (¬ valid → res = inl (deny 401 "Unauthorized")) ∧
  ((∀ id r, id ≠ gKeyID g → kRows s2 !! id = Some r → KeyPrefix r ≠ gPrefix g) → valid → ∃ ac, res = inr ac).
Proof.
  intros Hg Hc Hh s2 Hother. cbv zeta. destruct GenerateKey_ok as (g' & Hg' & _ & Hk & Hpx & Hpne & Hv & Hgr).
  rewrite Hg in Hg'. injection Hg' as <-. set (rec := keyRecord tenant createdBy name role created expires g) in *.
  assert (kRows s1 !! KeyID rec = Some rec) as Hrow.
  { revert Hc. unfold CreateKey, nextFault. destruct (_ || _ || _); [done|]. intros [= <-]. apply lookup_insert_eq. }
  assert (gFullKey g ≠ "") as Hne by (intros Hn; rewrite Hn in Hk; done).
  destruct (authenticate_key jwtParse oidc env later h (gFullKey g) (Some s2) Hh Hne Hgr Hk) as [-> Hb].
  pose proof (key_history rec s1 ops eq_refl Hrow) as Hist. fold s2 in Hist. cbn [KTenantID KeyID rec keyRecord] in Hist.
  pose proof (api_key_sound env true later (FromRequest h) s2) as Hsound.
  destruct (APIKeyMiddleware env true later (FromRequest h) (Some s2)) as [res s3] eqn:Eres. destruct Hsound as [_ Hsound]. rewrite Hb in Hsound. cbn [fst].
  assert (∀ ac, res = inr ac →
    (¬ revokedBy tenant (gKeyID g) s1 ops ∧ (∀ e, expires = Some e → later <= e) ∧
     (∀ t, RequireTenant env (FromRequest h) = inr t → t = tenant) ∧ default false (head (kFaults s2)) = false) ∧
    ATenantID ac = tenant ∧ ARole ac = role ∧ PrincipalID ac = gKeyID g) as Hpass.
  { intros ac Hac. destruct (Hsound Hk ac Hac) as (id & r & Hid & _ & Hcmp & Hnr & Hexp & Hten & ? & ? & ? & _).
    destruct (decide (id = gKeyID g)) as [->|Hidn]; [|by rewrite (Hother _ _ Hidn Hid) in Hcmp].
    destruct Hist as [[Hn E]|[_ [n E]]]; rewrite E in Hid; injection Hid as <-; [|done]. split; [|done].
    split_and!; [done|done|intros t Ht; symmetry; by apply Hten|]. apply (APIKeyMiddleware_fault env true later (FromRequest h) ac s2); [by rewrite Hb|by rewrite Eres]. }
  split; [exact Hpass|]. split.
  - intros Hnv. destruct res as [d|ac]; [|exfalso; apply Hnv, (Hpass ac eq_refl)].
    f_equal. apply (APIKeyMiddleware_denial env true later (FromRequest h) d s2); [by rewrite Hb|by rewrite Eres].
  - intros Hu (Hn & Hexp & Hten & Hf). destruct Hist as [[_ E]|[? _]]; [|done].
    replace res with (APIKeyMiddleware env true later (FromRequest h) (Some s2)).1 by (by rewrite Eres).
    rewrite (APIKeyMiddleware_accepts env later (FromRequest h) (gKeyID g) rec s2); rewrite ?Hb; try done.
    + unfold expired. cbn. destruct expires as [e|]; [|by eexists]. rewrite bool_decide_eq_false_2; [by eexists|]. specialize (Hexp e eq_refl). lia.
    + intros id' r Hl Hp. destruct (decide (id' = gKeyID g)); [done|]. by apply (Hu id' r) in Hp.
Qed.

End lifecycle.

(** ** Where the tenant comes from *)

Lemma applyClaims_fields c claims ac :
  let ac' := applyClaims c claims ac in
  let t := ExtractTenantFromClaims c claims in
  Validated ac' = true ∧
  (ATenantID ac', TokenTenantID ac') =
    if decide (ATenantID ac = "" ∧ t ≠ "") then (t, t) else (ATenantID ac, TokenTenantID ac).
Proof.
  unfold applyClaims. destruct (nonempty_claim claims "sub"); repeat case_decide; done.
Qed.

Lemma applyClaims_mismatch env c claims ac :
  TokenTenantID ac = "" → RequireTenant env (applyClaims c claims ac) ≠ inl ErrTenantMismatch.
Proof.
  intros Htok. destruct (applyClaims_fields c claims ac) as [_ Hf]. unfold RequireTenant.
  case_decide as Hd; injection Hf as -> ->.
  - rewrite decide_False by tauto. by repeat case_decide.
  - rewrite Htok. rewrite decide_False by (intros [Hn _]; by apply Hn). by repeat case_decide.
Qed.

(** The tenant of a request is the X-Tenant-Id header whenever it is not
    blank, even when a verified OIDC token names another tenant, and the context is
    still marked as validated: the token's tenant is read only where the header is
    empty, so the mismatch check of RequireTenant never fires. *)
Theorem tenant_header_wins (jwtParse : OIDCConfig → string → option Claims) (oidc : option OIDCConfig)
    (env : Environ) (h : Header) (ac : AuthContext) :
  WithAuth jwtParse oidc h = inr ac →
  RequireTenant env ac ≠ inl ErrTenantMismatch ∧
  (TrimSpace (h "X-Tenant-Id") ≠ "" → RequireTenant env ac = inr (TrimSpace (h "X-Tenant-Id"))) ∧
  (∀ c claims, oidc = Some c → bearerToken (h "Authorization") ≠ "" →
     IsAPIKey (bearerToken (h "Authorization")) = false →
     ValidateToken jwtParse c (bearerToken (h "Authorization")) = Some claims → Validated ac = true).
Proof.
  intros Hw.
  assert (RequireTenant env (FromRequest h) ≠ inl ErrTenantMismatch) as Hm0
    by (unfold RequireTenant; cbn; rewrite decide_False by (intros [Hn _]; by apply Hn); by repeat case_decide).
  assert (∀ ac, TokenTenantID ac = "" → ATenantID ac = TrimSpace (h "X-Tenant-Id") →
    TrimSpace (h "X-Tenant-Id") ≠ "" → RequireTenant env ac = inr (TrimSpace (h "X-Tenant-Id"))) as Hh.
  { intros ac' Htok Hten Hne. unfold RequireTenant. rewrite Htok, Hten, TrimSpace_idemp.
    rewrite decide_False by (intros [Hn _]; by apply Hn). rewrite decide_False by (intros Hn; by apply Hn).
    by rewrite decide_True. }
  unfold WithAuth in Hw. change (BearerToken (FromRequest h)) with (bearerToken (h "Authorization")) in Hw.
  destruct oidc as [c|]; [|simplify_eq; split_and!; [done|by apply Hh|done]].
  destruct (bool_decide (bearerToken (h "Authorization") ≠ "") && negb (IsAPIKey (bearerToken (h "Authorization"))))
    eqn:Hb; [|simplify_eq; split_and!; [done|by apply Hh|]].
  2:{ intros ? ? _ Hne Hk _. rewrite Hk, bool_decide_eq_true_2 in Hb by done. done. }
  destruct (ValidateToken jwtParse c _) as [claims|]; [|done]. simplify_eq.
  split_and!; [by apply applyClaims_mismatch| |].
  - intros Hne. destruct (applyClaims_fields c claims (FromRequest h)) as [_ Hf].
    rewrite decide_False in Hf by (cbn; tauto). injection Hf as Ht Htok. by apply Hh.
  - intros ? ? _ _ _ _. apply applyClaims_fields.
Qed.

(** ** The tables stay well formed *)

Definition rolesValid (s : MemberStore) : Prop := map_Forall (λ _ r, ValidRole r = true) (mRows s).

Inductive MemberOp :=
  | OpCheck (env : Environ) (required : string) (ac : AuthContext)
  | OpSet (tenantID principalID role : string)
  | OpDelete (tenantID principalID : string).

Definition memberStep (s : MemberStore) (op : MemberOp) : MemberStore :=
  match op with
  | OpCheck env required ac => default s (RBACMiddleware env required ac (Some s)).2
  | OpSet t p r => (SetRole t p r s).2
  | OpDelete t p => (DeleteMember t p s).2
  end.

(** Whatever requests are checked and whatever members are set or removed,
    in any order and with any database failures, every stored role is one of the
    four roles of the hierarchy. *)
Theorem member_roles_valid (s : MemberStore) (ops : list MemberOp) :
  rolesValid s → rolesValid (exec memberStep s ops).
Proof.
  intros Hs. apply exec_invariant; [done|]. clear s Hs. intros s op Hs _. unfold rolesValid in *.
  destruct op as [env required ac|t p r|t p]; cbn -[RBACMiddleware SetRole DeleteMember].
  - unfold RBACMiddleware. case_decide; [done|]. destruct (RequireTenant env ac) as [|t]; [done|].
    destruct (memberRole t ac s) as [o s1] eqn:Hm. apply memberRole_rows in Hm.
    assert (map_Forall (λ _ r, ValidRole r = true) (mRows s1)) as Hs1.
    { destruct Hm as [->|(_ & _ & ->)]; [done|]. by apply map_Forall_insert_2. }
    by destruct o as [role|]; [destruct (HasPermission role required)|].
  - unfold SetRole, nextFault. destruct (ValidRole r) eqn:Hr; cbn;
      [|rewrite orb_true_r; done]. destruct (default false _); cbn; [done|]. by apply map_Forall_insert_2.
  - unfold DeleteMember, nextFault. destruct (default false _); [done|].
    destruct (mRows s !! (t, p)); [|done]. cbn. by apply map_Forall_delete.
Qed.

(** ** Instances and examples *)

(** A hash that keeps the password: enough to show the laws can hold. *)
Definition plainBcrypt : Bcrypt := {|
  GenerateFromPassword _ pw :=
    if bool_decide (String.length pw ≤ 72)%nat then Some ("$2a$" +:+ pw) else None;
  CompareHashAndPassword hash pw := bool_decide (hash = "$2a$" +:+ pw)
|}.

Lemma plainBcrypt_laws : @BcryptLaws plainBcrypt.
Proof.
  split.
  - intros salt pw h. cbn. case_bool_decide; [|done]. intros [= <-]. by apply bool_decide_eq_true.
  - intros salt pw Hl. cbn. rewrite bool_decide_eq_true_2 by done. eauto.
Qed.

Definition forwardScan : KeyScan := map_to_list.

Definition sample_raw : list ascii := ["000";"017";"034";"051";"068";"085";"102";"119";"136";"153";"170";"187";"204";"221";"238";"255"]%char.

Definition no_tokens (c : OIDCConfig) (t : string) : option Claims := None.

Definition sample_header (tenant token : string) : Header := λ k,
  if decide (k = "X-Tenant-Id") then tenant
  else if decide (k = "Authorization") then "Bearer " +:+ token else "".

Definition no_env : Environ := λ _, "".

Example masked : MaskKey "aos_live_0011223344556677" = "aos_live_****6677" ∧ MaskKey "x" = "****".
Proof. vm_compute. auto. Qed.

Definition sample_key_text : string := "aos_live_00112233445566778899aabbccddeeff".

(** Another key of the tenant is made, then the first one is revoked, after a failed try. *)
Definition sample_key_ops : list KeyOp :=
  [OpCreateKey {| KeyID := "key_02"; KTenantID := "acme"; KeyHash := "$2a$other"; KeyPrefix := "ffffffff"; KName := ""; KRole := "viewer";
                  CreatedBy := "ann"; KCreatedAt := 6; ExpiresAt := None; RevokedAt := None |};
   OpRevokeKey 7 "acme" "key_01"; OpRevokeKey 8 "acme" "key_01"].

Lemma api_key_lifecycle_witness :
  ∃ g s1, @GenerateKey plainBcrypt (Some sample_raw) (Some ["001"%char]) "salt" = Some g ∧
    CreateKey (keyRecord "acme" "ann" "ci" "developer" 5 (Some 20) g) {| kRows := ∅; kFaults := [false; false; true] |} = (None, s1) ∧
    (∃ ac, (@authenticate plainBcrypt forwardScan no_tokens None no_env true 10 (sample_header "acme" sample_key_text)
       (Some (exec keyStep s1 (take 2 sample_key_ops)))).1 = inr ac ∧ ATenantID ac = "acme" ∧ ARole ac = "developer") ∧
    (@authenticate plainBcrypt forwardScan no_tokens None no_env true 10 (sample_header "acme" sample_key_text)
       (Some (exec keyStep s1 sample_key_ops))).1 = inl (deny 401 "Unauthorized").
Proof.
  set (g := {| gKeyID := "key_01"; gFullKey := sample_key_text; gPrefix := "00112233"; gKeyHash := "$2a$" +:+ sample_key_text |}).
  assert (Hg : @GenerateKey plainBcrypt (Some sample_raw) (Some ["001"%char]) "salt" = Some g) by (vm_compute; reflexivity).
  set (s1 := (CreateKey (keyRecord "acme" "ann" "ci" "developer" 5 (Some 20) g) {| kRows := ∅; kFaults := [false; false; true] |}).2).
  assert (Hc : CreateKey (keyRecord "acme" "ann" "ci" "developer" 5 (Some 20) g) {| kRows := ∅; kFaults := [false; false; true] |} = (None, s1)) by (vm_compute; reflexivity).
  exists g, s1. split; [exact Hg|]. split; [exact Hc|].
  pose proof (λ ops Hr, @api_key_lifecycle plainBcrypt plainBcrypt_laws forwardScan GoRange_map_to_list sample_raw ["001"%char] "salt" eq_refl
    no_tokens None no_env (sample_header "acme" sample_key_text) "acme" "ann" "ci" "developer" 5 10 (Some 20) _ s1 g ops Hg Hc eq_refl Hr) as H.
  assert (Ho : ∀ n, n = 2%nat ∨ n = 3%nat → map_Forall (λ id r, id = "key_01" ∨ @CompareHashAndPassword plainBcrypt (KeyHash r) sample_key_text = false ∧ KeyPrefix r ≠ "00112233")
      (kRows (exec keyStep s1 (take n sample_key_ops)))) by (intros n [-> | ->]; apply (bool_decide_unpack _); vm_compute; exact I).
  split.
  - destruct (H (take 2 sample_key_ops)) as (H1 & _ & H3); [intros id r Hn Hr; destruct (Ho 2%nat (or_introl eq_refl) id r Hr) as [?|[? _]]; done|].
    destruct H3 as [ac Hac]; [intros id r Hn Hr; destruct (Ho 2%nat (or_introl eq_refl) id r Hr) as [?|[_ ?]]; done| |].
    + split_and!; [|intros e [= <-]; lia|intros t Ht; vm_compute in Ht; by injection Ht|vm_compute; reflexivity].
      intros (ops1 & now & ops2 & Heq & Hok). destruct ops1 as [|o1 [|o2 [|o3 ops1]]]; try discriminate Heq.
      injection Heq as <- <- _. vm_compute in Hok. discriminate Hok.
    + exists ac. destruct (H1 ac Hac) as (_ & ? & ? & _). split; [exact Hac|]. by split.
  - destruct (H sample_key_ops) as (_ & H2 & _); [intros id r Hn Hr; destruct (Ho 3%nat (or_intror eq_refl) id r Hr) as [?|[? _]]; done|].
    apply H2. intros (Hn & _). apply Hn. exists (take 2 sample_key_ops), 8, []. split; [reflexivity|vm_compute; reflexivity].
Defined.

Definition sample_rows : APIKeyStore :=
  match @GenerateKey plainBcrypt (Some sample_raw) (Some ["001"%char]) "salt" with
  | Some g => (CreateKey (keyRecord "acme" "ann" "ci" "developer" 5 (Some 20) g) {| kRows := ∅; kFaults := [] |}).2
  | None => {| kRows := ∅; kFaults := [] |}
  end.

Lemma api_key_sound_witness :
  let ac := FromRequest (sample_header "acme" "aos_live_00112233445566778899aabbccddeeff") in
  ∃ ac' id rec, (@APIKeyMiddleware plainBcrypt forwardScan no_env true 10 ac (Some sample_rows)).1 = inr ac' ∧
    kRows sample_rows !! id = Some rec ∧ RevokedAt rec = None ∧ ATenantID ac' = KTenantID rec ∧ ARole ac' = KRole rec.
Proof.
  cbv zeta. set (ac := FromRequest _).
  pose proof (@api_key_sound plainBcrypt forwardScan GoRange_map_to_list no_env true 10 ac sample_rows) as H.
  destruct (@APIKeyMiddleware plainBcrypt forwardScan no_env true 10 ac (Some sample_rows)) as [[e|ac'] s'] eqn:E;
    [exfalso; vm_compute in E; discriminate E|].
  destruct H as [_ H]. destruct (H eq_refl ac' eq_refl) as (id & rec & ? & ? & ? & ? & ? & ? & ? & ? & ? & ?).
  exists ac', id, rec. auto.
Defined.

(** A verified token of tenant "other" with a header that names "acme". *)
Definition token_of_other (c : OIDCConfig) (t : string) : option Claims := Some [("tenant_id", AStr "other")].

Definition sample_oidc : OIDCConfig := {| IssuerURL := "https://idp"; Audience := ""; TenantClaim := "tenant_id" |}.

Lemma tenant_header_wins_witness :
  ∃ ac, WithAuth token_of_other (Some sample_oidc) (sample_header "acme" "tok") = inr ac ∧
    RequireTenant no_env ac = inr "acme" ∧ Validated ac = true.
Proof.
  eexists. split; [vm_compute; reflexivity|].
  destruct (tenant_header_wins token_of_other (Some sample_oidc) no_env (sample_header "acme" "tok") _ eq_refl)
    as (_ & Ht & Hv).
  split; [apply Ht; vm_compute; done|].
  apply (Hv sample_oidc [("tenant_id", AStr "other")]); [done|vm_compute; done|vm_compute; done|reflexivity].
Defined.

Lemma member_roles_valid_witness :
  rolesValid (exec memberStep {| mRows := ∅; mFaults := [] |}
    [OpCheck no_env "viewer" (FromRequest (λ k, if decide (k = "X-Principal-Id") then "ann" else "acme"));
     OpSet "acme" "bob" "root"; OpDelete "acme" "ann"]).
Proof. apply member_roles_valid. apply map_Forall_empty. Defined.

(** After the only member leaves, the next principal becomes the owner. *)
Example empty_tenant_is_claimed :
  mRows (exec memberStep {| mRows := {[("acme", "ann") := "owner"]}; mFaults := [] |}
    [OpDelete "acme" "ann";
     OpCheck no_env "viewer" (FromRequest (λ k, if decide (k = "X-Principal-Id") then "eve" else "acme"))])
  = {[("acme", "eve") := "owner"]}.
Proof. vm_compute. reflexivity. Qed.

Example cors_wildcard : CORSMiddleware (ParseCORSConfig "https://a.example, *") "https://a.example" "GET"
  = {| corsHeaders := []; corsCallsNext := true |}.
Proof. vm_compute. reflexivity. Qed.

Example long_s_scope : hasScope [String "t" "enant" +:+ String "197" (String "191" ":admin")] "tenants:admin" = true.
Proof. vm_compute. reflexivity. Qed.
