(* ===== verification/Federation.v ===== *)
(** * Federation: events of other sites

    federation/event_store.go (ingested events, bounded and deduplicated),
    federation/forward_index.go (where a forwarded run lives),
    federation/peer_registry.go (the known sites and their health) and
    federation/sse_proxy.go (the filtered relay of a remote event stream).

    An envelope is the decoded JSON object.  The order in which Go visits a map
    is given by the classes [SeenRange] and [ForwardRange]; a panic is [None]. *)
From S2P Require Import Prelude GoTime GoPath GoStrings.

Abbreviation Envelope := (list (string * any)) (only parsing).

(** ** Event store *)

Definition maxStoredRuns : Z := 500.
Definition maxSeenEventIDs : Z := 10000.

Record storedEvents := { seenEventIDs : gset string; lastSequence : Z; events : list Envelope }.

Record eventStore := { stored : gmap (string * string) storedEvents; runOrder : list (string * string) }.

Definition newEventStore : eventStore := {| stored := ∅; runOrder := [] |}.

(** The order in which a set of identifiers is visited; the results below hold
    for every order. *)
Class SeenRange := seen_range : gset string → list string.

(** The sequence number of an event object; a float is cut to an integer. *)
Definition eventSequence (eventObj : Envelope) : Z :=
  match any_get "sequence" eventObj with
  | Some (AFloat q) => ftrunc q
  | Some (AInt z) => z
  | Some (AStr s) => default 0 (Atoi s)
  | _ => 0
  end.

(** [env["event"].(map[string]any)] *)
Definition eventOf (env : Envelope) : option Envelope :=
  match any_get "event" env with Some (AMap m) => Some m | _ => None end.

Definition eventID (eventObj : Envelope) : string := default "" (any_string "event_id" eventObj).

(** Beyond the cap a tenth of the identifiers is forgotten, in map order. *)
Definition dropSeen `{SeenRange} (seen : gset string) : gset string :=
  if bool_decide (maxSeenEventIDs <= Z.of_nat (size seen))
  then seen ∖ list_to_set (take (Z.to_nat (maxSeenEventIDs / 10)) (seen_range seen))
  else seen.

(** One envelope: the entry it leaves, and whether it was accepted. *)
Definition ingestOne `{SeenRange} (st : storedEvents) (env : Envelope) : bool * storedEvents :=
  match eventOf env with
  | None => (false, st)
  | Some eventObj =>
      let eid := eventID eventObj in
      if decide (eid = "") then (false, st)
      else
        let seq := eventSequence eventObj in
        if decide (seq ≠ 0 ∧ seq <= lastSequence st) then (false, st)
        else if decide (eid ∈ seenEventIDs st) then (false, st)
        else
          (true, {| seenEventIDs := {[eid]} ∪ dropSeen (seenEventIDs st);
                    lastSequence := if bool_decide (lastSequence st < seq) then seq else lastSequence st;
                    events := events st ++ [env] |})
  end.

Fixpoint ingestAll `{SeenRange} (st : storedEvents) (envs : list Envelope) (accepted rejected : Z) :
    Z * Z * storedEvents :=
  match envs with
  | [] => (accepted, rejected, st)
  | env :: envs' =>
      match ingestOne st env with
      | (true, st') => ingestAll st' envs' (accepted + 1) rejected
      | (false, st') => ingestAll st' envs' accepted (rejected + 1)
      end
  end.

(** The oldest runs leave while there are too many; [runOrder[0]] of an empty
    slice panics. *)
Fixpoint evictRuns (m : gmap (string * string) storedEvents) (order : list (string * string)) :
    option eventStore :=
  if bool_decide (Z.of_nat (size m) <= maxStoredRuns) then Some {| stored := m; runOrder := order |}
  else match order with
       | [] => None
       | oldest :: order' => evictRuns (delete oldest m) order'
       end.

Definition emptyEvents : storedEvents := {| seenEventIDs := ∅; lastSequence := 0; events := [] |}.

Definition Ingest `{SeenRange} (tenantID runID : string) (envs : list Envelope) (s : eventStore) :
    option ((Z * Z) * eventStore) :=
  let k := (tenantID, runID) in
  let '(st, order) := match stored s !! k with
                      | Some st => (st, runOrder s)
                      | None => (emptyEvents, runOrder s ++ [k])
                      end in
  let '(accepted, rejected, st) := ingestAll st envs 0 0 in
  s' ← evictRuns (<[k := st]> (stored s)) order;
  Some ((accepted, rejected), s').

Definition List_ (tenantID runID : string) (s : eventStore) : option (list Envelope) :=
  events <$> stored s !! (tenantID, runID).

Definition afterSequence (fromSequence : Z) (env : Envelope) : bool :=
  let seq := eventSequence (default [] (eventOf env)) in
  bool_decide (seq = 0 ∨ fromSequence < seq).

Definition ListFromSequence (tenantID runID : string) (fromSequence : Z) (s : eventStore) : option (list Envelope) :=
  (λ st, List.filter (afterSequence fromSequence) (events st)) <$> stored s !! (tenantID, runID).

(** *** Its invariant *)

Definition seqOf (env : Envelope) : Z := eventSequence (default [] (eventOf env)).

Definition idOf (env : Envelope) : string := eventID (default [] (eventOf env)).

(** The numbers of the numbered events rise, and the last of them is remembered;
    below the cap the remembered identifiers are those of the events, each once. *)
Record entry_ok (st : storedEvents) : Prop := {
  entry_sorted : StronglySorted Z.lt (filter (λ z, z ≠ 0) (seqOf <$> events st));
  entry_last : Forall (λ z, 0 <= z <= lastSequence st) (seqOf <$> events st);
  entry_last_nonneg : 0 <= lastSequence st;
  entry_named : Forall (λ e, idOf e ≠ "") (events st);
  entry_ids : Z.of_nat (length (events st)) <= maxSeenEventIDs →
    seenEventIDs st = list_to_set (idOf <$> events st) ∧ NoDup (idOf <$> events st)
}.

Record store_inv (s : eventStore) : Prop := {
  inv_nodup : NoDup (runOrder s);
  inv_dom k : k ∈ runOrder s ↔ is_Some (stored s !! k);
  inv_cap : Z.of_nat (size (stored s)) <= maxStoredRuns;
  inv_entries : map_Forall (λ _ st, entry_ok st) (stored s)
}.

Lemma emptyEvents_ok : entry_ok emptyEvents.
Proof. split; cbn; try constructor; try done; constructor. Qed.

Lemma StronglySorted_snoc {A} (R : relation A) l x :
  StronglySorted R l → Forall (λ y, R y x) l → StronglySorted R (l ++ [x]).
Proof.
  induction 1 as [|y l Hl IH Hy]; intros Hx; [repeat constructor|].
  apply Forall_cons in Hx as [? ?]. cbn. constructor; [by apply IH|].
  apply Forall_app. split; [done|]. by constructor.
Qed.

Section event_store.
Context `{SeenRange}.

Lemma size_ids (l : list string) : NoDup l → size (list_to_set l : gset string) = length l.
Proof. intros. apply size_list_to_set. done. Qed.

(** Accepting an envelope appends it. *)
Lemma ingestOne_events st env b st' :
  ingestOne st env = (b, st') → events st' = events st ++ (if b then [env] else []).
Proof. unfold ingestOne. intros. go_split; by rewrite ?app_nil_r. Qed.

Lemma ingestOne_ok st env : entry_ok st → entry_ok (ingestOne st env).2.
Proof.
  intros Hok. unfold ingestOne. destruct (eventOf env) as [obj|] eqn:He; [|done].
  case_decide as Hid; [done|]. case_decide as Hseq; [done|]. case_decide as Hnew; [done|].
  destruct Hok as [Hsort Hlast Hnn Hnamed Hids].
  assert (seqOf env = eventSequence obj) as Hs by (unfold seqOf; by rewrite He).
  assert (idOf env = eventID obj) as Hi by (unfold idOf; by rewrite He).
  set (q := eventSequence obj) in *.
  assert (q = 0 ∨ lastSequence st < q) as Hq by lia.
  split; cbn [lastSequence events seenEventIDs snd]; rewrite ?fmap_app, ?filter_app;
    change (seqOf <$> [env]) with [seqOf env]; change (idOf <$> [env]) with [idOf env]; rewrite ?Hs, ?Hi.
  - destruct (decide (q ≠ 0)).
    + rewrite filter_cons_True by done. cbn. apply StronglySorted_snoc; [done|].
      apply Forall_forall. intros z Hz%list_elem_of_filter. rewrite Forall_forall in Hlast.
      destruct Hz as [_ Hz%Hlast]. lia.
    + rewrite filter_cons_False by done. cbn. by rewrite app_nil_r.
  - apply Forall_app. split; [|apply Forall_singleton; case_bool_decide; lia].
    eapply Forall_impl; [done|]. cbn. intros z Hz. case_bool_decide; lia.
  - case_bool_decide; lia.
  - apply Forall_app. split; [done|]. apply Forall_singleton. by rewrite Hi.
  - rewrite length_app. cbn. intros Hlen. destruct Hids as [Hseen Hnd]; [lia|].
    unfold dropSeen. rewrite bool_decide_eq_false_2; cycle 1.
    { rewrite Hseen, size_ids, length_fmap by done. lia. }
    split; [rewrite list_to_set_app_L, Hseen; set_solver|].
    apply NoDup_app. split_and!; [done| |apply NoDup_singleton].
    intros x Hx ->%list_elem_of_singleton. apply Hnew. rewrite Hseen. by apply elem_of_list_to_set.
Qed.

(** A batch keeps its accepted envelopes in order; every envelope is counted. *)
Lemma ingestAll_spec envs : ∀ st a r a' r' st',
  ingestAll st envs a r = (a', r', st') → entry_ok st →
  entry_ok st' ∧ a' + r' = a + r + Z.of_nat (length envs) ∧
  ∃ kept, sublist kept envs ∧ events st' = events st ++ kept ∧ a' = a + Z.of_nat (length kept).
Proof.
  induction envs as [|env envs IH]; intros st a r a' r' st' Hr Hok; cbn in Hr.
  { simplify_eq. split_and!; [done|cbn; lia|]. exists []. rewrite app_nil_r. cbn. split_and!; [done..|lia]. }
  pose proof (ingestOne_ok st env Hok) as Hok'.
  destruct (ingestOne st env) as [b st1] eqn:Ho. apply ingestOne_events in Ho. cbn in Hok'.
  destruct b; apply IH in Hr as (? & ? & kept & ? & Hev & ?); try done; split_and!; try done; try (cbn; lia).
  - exists (env :: kept). split_and!; [by constructor| |cbn; lia].
    by rewrite Hev, Ho, <-app_assoc.
  - exists kept. split_and!; [by constructor| |done]. by rewrite Hev, Ho, app_nil_r.
Qed.

Lemma ingestAll_nonneg envs : ∀ st a r,
  let '(a', r', _) := ingestAll st envs a r in a <= a' ∧ r <= r'.
Proof.
  induction envs as [|env envs IH]; intros st a r; cbn; [lia|].
  destruct (ingestOne st env) as [[] st1].
  - specialize (IH st1 (a + 1) r). destruct (ingestAll st1 envs _ _) as [[a' r'] ?]. lia.
  - specialize (IH st1 a (r + 1)). destruct (ingestAll st1 envs _ _) as [[a' r'] ?]. lia.
Qed.

Lemma size_order (m : gmap (string * string) storedEvents) order :
  NoDup order → (∀ k, k ∈ order ↔ is_Some (m !! k)) → size m = length order.
Proof.
  intros Hnd Hdom. rewrite <-size_dom, <-(size_list_to_set (C := gset (string * string)) order) by done.
  f_equal. apply set_eq. intros k. by rewrite elem_of_dom, elem_of_list_to_set, Hdom.
Qed.

(** Evicting never runs out of runs, and keeps the youngest. *)
Lemma evictStoredRuns_ok order : ∀ m,
  NoDup order → (∀ k, k ∈ order ↔ is_Some (m !! k)) → map_Forall (λ _ st, entry_ok st) m →
  ∃ s', evictRuns m order = Some s' ∧ store_inv s' ∧
    runOrder s' = drop (length order - Z.to_nat maxStoredRuns) order ∧
    (∀ k, k ∈ runOrder s' → stored s' !! k = m !! k).
Proof.
  induction order as [|k order IH]; intros m Hnd Hdom Hall; pose proof (size_order _ _ Hnd Hdom) as Hsz;
    cbn -[maxStoredRuns drop Nat.sub]; rewrite Hsz.
  - rewrite bool_decide_eq_true_2 by (cbn; done). eexists. split_and!; [done| |done|done].
    split; cbn; [constructor|set_solver|rewrite Hsz; done|done].
  - case_bool_decide as Hle.
    + eexists. split_and!; [done| | |done].
      * split; cbn; [done|done|by rewrite Hsz|done].
      * cbn [runOrder]. replace (_ - _)%nat with 0%nat by (unfold maxStoredRuns in *; cbn [length] in Hle; lia). done.
    + apply NoDup_cons in Hnd as [Hk Hnd].
      destruct (IH (delete k m)) as (s' & Hs & Hinv & Hord & Hlook); [done| | |].
      * intros k'. destruct (decide (k = k')) as [->|Hne].
        -- rewrite lookup_delete_eq. split; [done|]. by intros [? ?].
        -- rewrite lookup_delete_ne by done. rewrite <-Hdom. set_solver.
      * by apply map_Forall_delete.
      * exists s'. split_and!; [done|done| |].
        -- rewrite Hord. cbn [length].
           replace (S (length order) - Z.to_nat maxStoredRuns)%nat
             with (S (length order - Z.to_nat maxStoredRuns)) by (unfold maxStoredRuns in *; cbn [length] in Hle; lia).
           done.
        -- intros k' Hin. rewrite (Hlook k' Hin). apply lookup_delete_ne. intros ->. apply Hk.
           rewrite Hord in Hin. rewrite <-(take_drop (length order - Z.to_nat maxStoredRuns) order).
           set_solver.
Qed.

Lemma Ingest_ok tenantID runID envs s :
  store_inv s →
  ∃ a r s', Ingest tenantID runID envs s = Some ((a, r), s') ∧ store_inv s' ∧
    0 <= a ∧ 0 <= r ∧ a + r = Z.of_nat (length envs).
Proof.
  intros [Hnd Hdom Hcap Hall]. unfold Ingest.
  set (k := (tenantID, runID)).
  assert (∃ st order, (match stored s !! k with Some st => (st, runOrder s) | None => (emptyEvents, runOrder s ++ [k]) end)
      = (st, order) ∧ entry_ok st ∧ NoDup order ∧ (∀ k', k' ∈ order ↔ k' = k ∨ is_Some (stored s !! k'))) as
    (st & order & -> & Hst & Hnd' & Hdom').
  { destruct (stored s !! k) as [st|] eqn:Hk.
    - exists st, (runOrder s). split_and!; [done|by eapply Hall|done|]. intros k'. rewrite Hdom.
      split; [by right|]. intros [->|?]; [rewrite Hk; eauto|done].
    - exists emptyEvents, (runOrder s ++ [k]). split_and!; [done|apply emptyEvents_ok| |].
      + apply NoDup_app. split_and!; [done| |apply NoDup_singleton].
        intros k' Hk' ->%list_elem_of_singleton. apply Hdom in Hk'. rewrite Hk in Hk'. by destruct Hk'.
      + intros k'. rewrite elem_of_app, Hdom, list_elem_of_singleton. tauto. }
  destruct (ingestAll st envs 0 0) as [[a r] st'] eqn:Hi.
  pose proof (ingestAll_nonneg envs st 0 0) as Hnn. rewrite Hi in Hnn.
  apply ingestAll_spec in Hi as (Hst' & Hsum & kept & _ & _ & Ha); [|done].
  destruct (evictStoredRuns_ok order (<[k := st']> (stored s))) as (s' & -> & Hinv & _).
  - done.
  - intros k'. rewrite Hdom', lookup_insert_is_Some'. naive_solver.
  - by apply map_Forall_insert_2.
  - exists a, r, s'. cbn. split_and!; [done|done|lia|lia|lia].
Qed.

(** A history of ingested batches. *)
Fixpoint ingestHistory (s : eventStore) (ops : list (string * string * list Envelope)) : option eventStore :=
  match ops with
  | [] => Some s
  | (t, r, envs) :: ops' => '(_, s') ← Ingest t r envs s; ingestHistory s' ops'
  end.

Lemma ingestHistory_inv ops : ∀ s, store_inv s → ∃ s', ingestHistory s ops = Some s' ∧ store_inv s'.
Proof.
  induction ops as [|[[t r] envs] ops IH]; intros s Hs; cbn -[Ingest]; [eauto|].
  destruct (Ingest_ok t r envs s Hs) as (a & rj & s' & -> & Hs' & _). cbn. by apply IH.
Qed.

Lemma newEventStore_inv : store_inv newEventStore.
Proof.
  split; cbn; [constructor| |done|apply map_Forall_empty].
  intros k. rewrite lookup_empty. split; [by intros ?%not_elem_of_nil|by intros [? ?]].
Qed.

(** In a list of rising numbers those past [n] form the tail. *)
Lemma resume_split n evs :
  StronglySorted Z.lt (seqOf <$> evs) → Forall (λ e, seqOf e ≠ 0) evs →
  ∃ seen, evs = seen ++ List.filter (afterSequence n) evs ∧ Forall (λ e, seqOf e <= n) seen.
Proof.
  induction evs as [|e evs IH]; intros Hsort Hnum; [by exists []|].
  apply Forall_cons in Hnum as [He Hnum]. inversion Hsort as [|? ? Hsort' Hlt]; subst.
  cbn. unfold afterSequence at 1. change (eventSequence (default [] (eventOf e))) with (seqOf e).
  case_bool_decide as Hn.
  - exists []. split; [|constructor]. cbn. f_equal.
    assert (Forall (λ e', n < seqOf e') evs) as Hall.
    { apply (Forall_fmap seqOf) in Hlt. eapply Forall_impl; [exact Hlt|]. cbn. lia. }
    clear -Hall. induction Hall as [|e' l Hl _ IHl]; [done|]. cbn. unfold afterSequence at 1.
    change (eventSequence (default [] (eventOf e'))) with (seqOf e').
    rewrite bool_decide_eq_true_2 by lia. by f_equal.
  - destruct (IH Hsort' Hnum) as (seen & Heq & Hseen). exists (e :: seen). split; [cbn; by f_equal|].
    constructor; [lia|done].
Qed.

(** Whatever batches arrive from other sites, ingesting never panics and keeps
    at most 500 runs; the numbered events of a run have rising sequence numbers,
    and no two of its first 10000 events share an identifier.  When all events of
    a run are numbered, a reader that resumes after [n] gets exactly the stored
    events it has not seen: the rest are numbered at most [n]. *)
Theorem event_store_history (ops : list (string * string * list Envelope)) :
  ∃ s, ingestHistory newEventStore ops = Some s ∧ Z.of_nat (size (stored s)) <= maxStoredRuns ∧
    ∀ t r evs, List_ t r s = Some evs →
      StronglySorted Z.lt (filter (λ z, z ≠ 0) (seqOf <$> evs)) ∧
      (Z.of_nat (length evs) <= maxSeenEventIDs → NoDup (idOf <$> evs)) ∧
      ∀ n, Forall (λ e, seqOf e ≠ 0) evs →
        ∃ seen, evs = seen ++ default [] (ListFromSequence t r n s) ∧ Forall (λ e, seqOf e <= n) seen.
Proof.
  destruct (ingestHistory_inv ops _ newEventStore_inv) as (s & Hs & [_ _ Hcap Hall]).
  exists s. split_and!; [done|done|]. unfold List_, ListFromSequence. intros t r evs.
  destruct (stored s !! (t, r)) as [st|] eqn:Hst; [|done]. intros [= <-].
  apply Hall in Hst as [Hsort Hlast Hnn Hnamed Hids]. split_and!; [done|naive_solver|].
  intros n Hnum. cbn. apply resume_split; [|done].
  by rewrite filter_all in Hsort by (by apply Forall_fmap).
Qed.

(** An envelope that is rejected still takes a place: when the store is full,
    a rejected event of an unknown run evicts the run that was first seen longest
    ago, whatever its recent use. *)
Theorem rejected_event_evicts (tenantID runID : string) (env : Envelope) (oldest : string * string)
    (rest : list (string * string)) (s : eventStore) :
  store_inv s → Z.of_nat (size (stored s)) = maxStoredRuns → runOrder s = oldest :: rest →
  stored s !! (tenantID, runID) = None → eventOf env = None ∨ idOf env = "" →
  ∃ s', Ingest tenantID runID [env] s = Some ((0, 1), s') ∧
    is_Some (stored s !! oldest) ∧ stored s' !! oldest = None ∧ is_Some (stored s' !! (tenantID, runID)).
Proof.
  intros [Hnd Hdom Hcap Hall] Hsz Hord Hnone Hrej.
  assert (is_Some (stored s !! oldest)) as Hold by (apply Hdom; rewrite Hord; set_solver).
  assert (ingestOne emptyEvents env = (false, emptyEvents)) as Hi.
  { unfold ingestOne. destruct (eventOf env) as [obj|] eqn:He; [|done].
    destruct Hrej as [|Hid]; [done|]. unfold idOf in Hid. rewrite He in Hid. cbn in Hid. by rewrite decide_True. }
  unfold Ingest. rewrite Hnone. cbn [ingestAll]. rewrite Hi, Hord.
  set (k := (tenantID, runID)) in *. set (m := <[k := emptyEvents]> (stored s)).
  destruct (evictStoredRuns_ok ((oldest :: rest) ++ [k]) m) as (s' & Hs & [_ Hdom' _ _] & Hdrop & Hlook).
  - rewrite <-Hord. apply NoDup_app. split_and!; [done| |apply NoDup_singleton].
    intros k' Hk' ->%list_elem_of_singleton. apply Hdom in Hk'. rewrite Hnone in Hk'. by destruct Hk'.
  - intros k'. unfold m. rewrite lookup_insert_is_Some', <-Hord, elem_of_app, Hdom, list_elem_of_singleton.
    naive_solver.
  - by apply map_Forall_insert_2; [apply emptyEvents_ok|].
  - rewrite Hs. cbn. exists s'. split_and!; [done|done| |].
    + assert (length (oldest :: rest) = 500%nat) as Hlen.
      { rewrite <-Hord, <-(size_order _ _ Hnd Hdom). unfold maxStoredRuns in Hsz. lia. }
      assert (oldest ∉ runOrder s') as Hout.
      { rewrite Hdrop, length_app, Hlen. replace (500 + length [k] - Z.to_nat maxStoredRuns)%nat with 1%nat by done.
        change (drop 1 ((oldest :: rest) ++ [k])) with (rest ++ [k]). rewrite elem_of_app, list_elem_of_singleton.
        rewrite Hord in Hnd. apply NoDup_cons in Hnd as [Hnin _]. intros [?| ->]; [done|].
        rewrite Hnone in Hold. by destruct Hold. }
      destruct (stored s' !! oldest) eqn:E; [|done]. exfalso. apply Hout, Hdom'. eauto.
    + apply Hdom'. rewrite Hdrop, drop_app, elem_of_app. right.
      replace (_ - _ - _)%nat with 0%nat; [set_solver|]. rewrite length_app. cbn [length]. unfold maxStoredRuns. lia.
Qed.

End event_store.

(** ** Forward index *)

Definition maxForwardEntries : Z := 10000.
Definition forwardEntryTTL : Duration := 24 * Hour.
Definition forwardSweepEvery : Z := 50.

Record forwardTarget := { RemoteStackID : string; RemoteEventsURL : string; createdAt : Time }.

Record forwardIndexRecord := { frTenantID : string; frRunID : string; frStackID : string; frEventsURL : string }.

(** The file of the index; [FwdGarbled] does not decode. *)
Inductive ForwardFile := FwdMissing | FwdGarbled | FwdRecords (recs : list forwardIndexRecord).

Record forwardIndex := {
  fm : gmap (string * string) forwardTarget;
  fpath : bool; (* a file is configured *)
  ffile : ForwardFile;
  setCount : Z
}.

Class ForwardRange := fwd_range : gmap (string * string) forwardTarget → list ((string * string) * forwardTarget).

Definition newForwardIndex : forwardIndex := {| fm := ∅; fpath := false; ffile := FwdMissing; setCount := 0 |}.

Definition loadRecord (now : Time) (m : gmap (string * string) forwardTarget) (r : forwardIndexRecord) :
    gmap (string * string) forwardTarget :=
  <[(frTenantID r, frRunID r) := {| RemoteStackID := frStackID r; RemoteEventsURL := frEventsURL r; createdAt := now |}]> m.

(** A file that is missing or does not decode leaves the index empty. *)
Definition newForwardIndexPersistent (now : Time) (path : bool) (file : ForwardFile) : forwardIndex :=
  {| fm := match file with
           | FwdRecords recs => if path then foldl (loadRecord now) ∅ recs else ∅
           | _ => ∅
           end;
     fpath := path; ffile := file; setCount := 0 |}.

Definition toRecord (kv : (string * string) * forwardTarget) : forwardIndexRecord := {|
  frTenantID := kv.1.1; frRunID := kv.1.2; frStackID := RemoteStackID kv.2; frEventsURL := RemoteEventsURL kv.2
|}.

Definition persistLocked `{ForwardRange} (fault : bool) (i : forwardIndex) : forwardIndex :=
  if negb (fpath i) || fault then i
  else {| fm := fm i; fpath := fpath i; ffile := FwdRecords (toRecord <$> fwd_range (fm i)); setCount := setCount i |}.

Definition staleEntry (cutoff : Time) (v : forwardTarget) : Prop := createdAt v ≠ 0 ∧ createdAt v < cutoff.

#[global] Instance staleEntry_dec cutoff v : Decision (staleEntry cutoff v).
Proof. unfold staleEntry. apply _. Defined.

Definition sweepExpired (now : Time) (m : gmap (string * string) forwardTarget) :
    gmap (string * string) forwardTarget :=
  filter (λ kv, ¬ staleEntry (now - forwardEntryTTL) kv.2) m.

(** The scan for the oldest entry, in map order. *)
Definition older (best : option ((string * string) * Time)) (kv : (string * string) * forwardTarget) :
    option ((string * string) * Time) :=
  match best with
  | None => Some (kv.1, createdAt kv.2)
  | Some (k, t) => if bool_decide (createdAt kv.2 < t) then Some (kv.1, createdAt kv.2) else Some (k, t)
  end.

Definition evictOldest `{ForwardRange} (m : gmap (string * string) forwardTarget) :
    gmap (string * string) forwardTarget :=
  match foldl older None (fwd_range m) with
  | Some (k, _) => delete k m
  | None => m
  end.

(** [now] is the time of the entry, [sweepNow] the time the sweep reads. *)
Definition Set_ `{ForwardRange} (fault : bool) (now sweepNow : Time)
    (tenantID runID remoteStackID remoteEventsURL : string) (i : forwardIndex) : forwardIndex :=
  let m := <[(tenantID, runID) := {| RemoteStackID := remoteStackID; RemoteEventsURL := remoteEventsURL; createdAt := now |}]> (fm i) in
  let count := setCount i + 1 in
  let m := if bool_decide (count mod forwardSweepEvery = 0) then sweepExpired sweepNow m else m in
  let m := if bool_decide (maxForwardEntries < Z.of_nat (size m)) then evictOldest m else m in
  persistLocked fault {| fm := m; fpath := fpath i; ffile := ffile i; setCount := count |}.

Definition Get (tenantID runID : string) (i : forwardIndex) : option forwardTarget := fm i !! (tenantID, runID).

Section forward_index.
Context `{ForwardRange, !GoRange fwd_range}.

Lemma foldl_older l : ∀ k t, ∃ k' t',
  foldl older (Some (k, t)) l = Some (k', t') ∧ t' <= t ∧ Forall (λ kv, t' <= createdAt kv.2) l ∧
  ((k', t') = (k, t) ∨ ∃ v, (k', v) ∈ l ∧ createdAt v = t').
Proof.
  induction l as [|[k1 v1] l IH]; intros k t; cbn [foldl older fst snd].
  { exists k, t. split_and!; [done|lia|constructor|by left]. }
  case_bool_decide.
  - destruct (IH k1 (createdAt v1)) as (k' & t' & -> & Hle & Hall & Hin). exists k', t'.
    split_and!; [done|lia|by constructor|]. right.
    destruct Hin as [[= -> ->]|(v & ? & ?)]; [exists v1|exists v]; set_solver.
  - destruct (IH k t) as (k' & t' & -> & Hle & Hall & Hin). exists k', t'.
    split_and!; [done|lia|constructor; [cbn; lia|done]|].
    destruct Hin as [?|(v & ? & ?)]; [by left|right; exists v; set_solver].
Qed.

(** Eviction removes one entry, one of the oldest. *)
Lemma evictOldest_spec m :
  m ≠ ∅ → ∃ k v, m !! k = Some v ∧ evictOldest m = delete k m ∧ (∀ k' v', m !! k' = Some v' → createdAt v <= createdAt v').
Proof.
  intros Hne. unfold evictOldest.
  destruct (fwd_range m) as [|[k0 v0] l] eqn:Hl.
  { exfalso. apply Hne. apply map_size_empty_iff. by rewrite <-(length_range fwd_range m), Hl. }
  destruct (foldl_older l k0 (createdAt v0)) as (k & t & Hf & Hle & Hall & Hin).
  cbn [foldl older fst snd]. rewrite Hf.
  assert (∃ v, (k, v) ∈ fwd_range m ∧ createdAt v = t) as (v & Hv & Ht).
  { rewrite Hl. destruct Hin as [[= -> ->]|(v & ? & ?)]; [exists v0|exists v]; set_solver. }
  exists k, v. split_and!; [by apply elem_of_range in Hv|done|].
  intros k' v' Hk. apply (elem_of_range fwd_range) in Hk. rewrite Hl in Hk. rewrite Forall_forall in Hall.
  apply elem_of_cons in Hk as [[= -> ->]|Hk]; [lia|]. specialize (Hall _ Hk). cbn in Hall. lia.
Qed.

Lemma sweepExpired_lookup now m k v :
  sweepExpired now m !! k = Some v ↔ m !! k = Some v ∧ ¬ staleEntry (now - forwardEntryTTL) v.
Proof. unfold sweepExpired. by rewrite map_lookup_filter_Some. Qed.

(** Loading the records of a map gives its targets back. *)
Lemma foldl_loadRecord now l : ∀ m,
  NoDup l.*1 → ∀ k, (λ v, (RemoteStackID v, RemoteEventsURL v)) <$> foldl (loadRecord now) m (toRecord <$> l) !! k =
    match list_to_map (M := gmap (string * string) forwardTarget) l !! k with
    | Some v => Some (RemoteStackID v, RemoteEventsURL v)
    | None => (λ v, (RemoteStackID v, RemoteEventsURL v)) <$> m !! k
    end.
Proof.
  induction l as [|[[t r] v] l IH]; intros m Hnd k; [done|]. cbn in Hnd. apply NoDup_cons in Hnd as [Hk Hnd].
  cbn [fmap list_fmap foldl]. rewrite IH by done. cbn [list_to_map foldr uncurry].
  rewrite lookup_insert. unfold loadRecord. cbn -[lookup insert]. rewrite (lookup_insert m). 
  destruct (decide ((t, r) = k)) as [<-|Hne]; [|done].
  by rewrite not_elem_of_list_to_map_1.
Qed.

(** The size cap, after an entry newer than all others was added. *)
Lemma capIndex_spec key tgt m :
  m !! key = Some tgt → (∀ k v, m !! k = Some v → k ≠ key → createdAt v < createdAt tgt) →
  Z.of_nat (size m) <= maxForwardEntries + 1 →
  let m' := if bool_decide (maxForwardEntries < Z.of_nat (size m)) then evictOldest m else m in
  m' !! key = Some tgt ∧ Z.of_nat (size m') <= maxForwardEntries ∧ m' ⊆ m ∧
  (m' = m ∨ ∃ k v, k ≠ key ∧ m !! k = Some v ∧ m' = delete k m ∧ maxForwardEntries < Z.of_nat (size m) ∧
     ∀ k' v', m !! k' = Some v' → createdAt v <= createdAt v').
Proof.
  intros Hkey Hnew Hsz. cbv zeta. case_bool_decide as Hfull; [|split_and!; [done|lia|done|by left]].
  assert (m ≠ ∅) as Hne by (intros Hn; by rewrite Hn in Hkey).
  destruct (evictOldest_spec m Hne) as (k & v & Hk & -> & Hmin).
  assert (k ≠ key) as Hnk.
  { intros ->. rewrite Hkey in Hk. injection Hk as <-.
    assert (m = {[key := tgt]}) as Heq.
    { apply map_eq. intros k'. rewrite lookup_singleton. case_decide as Hk'; [by subst|].
      destruct (m !! k') as [v'|] eqn:E; [|done]. exfalso.
      pose proof (Hmin _ _ E). specialize (Hnew _ _ E ltac:(congruence)). lia. }
    rewrite Heq, map_size_singleton in Hfull. unfold maxForwardEntries in Hfull. lia. }
  split_and!.
  - by rewrite lookup_delete_ne.
  - rewrite map_size_delete_Some by eauto. unfold maxForwardEntries in *. lia.
  - apply delete_subseteq.
  - right. by exists k, v.
Qed.

Definition target (stack url : string) (now : Time) : forwardTarget :=
  {| RemoteStackID := stack; RemoteEventsURL := url; createdAt := now |}.

(** The entries after a [Set]. *)
Lemma Set_entries fault now sweepNow tenantID runID stack url i :
  now <= sweepNow → sweepNow - forwardEntryTTL <= now →
  Z.of_nat (size (fm i)) <= maxForwardEntries →
  (∀ k v, fm i !! k = Some v → createdAt v < now) →
  let m3 := fm (Set_ fault now sweepNow tenantID runID stack url i) in
  let tgt := target stack url now in
  let m1 := <[(tenantID, runID) := tgt]> (fm i) in
  m3 !! (tenantID, runID) = Some tgt ∧ Z.of_nat (size m3) <= maxForwardEntries ∧
  (∀ k v, m3 !! k = Some v → m1 !! k = Some v) ∧
  (∀ k v, m1 !! k = Some v → m3 !! k = Some v ∨ staleEntry (sweepNow - forwardEntryTTL) v ∨
     (Z.of_nat (size (fm i)) = maxForwardEntries ∧ ∀ k' v', m3 !! k' = Some v' → createdAt v <= createdAt v')).
Proof.
  intros Hsw Httl Hcap Hold. cbv zeta. unfold Set_. fold (target stack url now).
  set (tgt := target stack url now). set (key := (tenantID, runID)). set (m1 := <[key := tgt]> (fm i)).
  set (m2 := if bool_decide (_ mod _ = 0) then sweepExpired sweepNow m1 else m1).
  assert (m2 !! key = Some tgt) as Hkey.
  { unfold m2. case_bool_decide; [|apply lookup_insert_eq]. apply sweepExpired_lookup.
    split; [apply lookup_insert_eq|]. unfold staleEntry. cbn. lia. }
  assert (∀ k v, m2 !! k = Some v → m1 !! k = Some v) as Hsub.
  { intros k v. unfold m2. case_bool_decide; [|done]. by intros [? _]%sweepExpired_lookup. }
  assert (∀ k v, m1 !! k = Some v → m2 !! k = Some v ∨ staleEntry (sweepNow - forwardEntryTTL) v) as Hsup.
  { intros k v Hk. unfold m2. case_bool_decide; [|by left].
    destruct (decide (staleEntry (sweepNow - forwardEntryTTL) v)); [by right|left]. by apply sweepExpired_lookup. }
  assert (Z.of_nat (size m2) <= Z.of_nat (size (fm i)) + 1) as Hsz.
  { assert (size m2 ≤ size m1)%nat by (apply map_subseteq_size, map_subseteq_spec; exact Hsub).
    assert (size m1 ≤ S (size (fm i)))%nat; [|lia].
    unfold m1. destruct (fm i !! key) eqn:E; [rewrite map_size_insert_Some by eauto; lia|].
    by rewrite map_size_insert_None. }
  assert (∀ k v, m2 !! k = Some v → k ≠ key → createdAt v < createdAt tgt) as Hnew.
  { intros k v Hk%Hsub Hnk. unfold m1 in Hk. rewrite lookup_insert_ne in Hk by done. by apply Hold in Hk. }
  destruct (capIndex_spec key tgt m2 Hkey Hnew ltac:(lia)) as (Hkey3 & Hcap3 & Hsub3 & Hev).
  set (m3 := if bool_decide (maxForwardEntries < _) then evictOldest m2 else m2) in *.
  assert (fm (persistLocked fault {| fm := m3; fpath := fpath i; ffile := ffile i; setCount := setCount i + 1 |}) = m3)
    as -> by (unfold persistLocked; by destruct (negb _ || fault)).
  split_and!; [done|done|intros k v Hk; eapply Hsub, lookup_weaken; eauto|].
  intros k v Hk1. apply Hsup in Hk1 as [Hk2|?]; [|by right; left].
  destruct Hev as [->|(kd & vd & ? & Hkd & Hm3 & Hfull & Hmin)]; [by left|].
  destruct (decide (kd = k)) as [->|Hne]; [|left; by rewrite Hm3, lookup_delete_ne].
  right; right. split; [lia|]. intros k' v' Hk'. simplify_eq. eapply Hmin, lookup_weaken; eauto.
Qed.

(** Recording where a forwarded run lives: the entry can be read back, the
    index never exceeds its cap, every other entry is kept unless the sweep found
    it older than a day or the index was full and it was one of the oldest, and
    when the file could be written a restarted server knows the same targets. *)
Theorem forward_index_set (fault : bool) (now sweepNow restart : Time) (tenantID runID stack url : string)
    (i : forwardIndex) :
  now <= sweepNow → sweepNow - forwardEntryTTL <= now →
  Z.of_nat (size (fm i)) <= maxForwardEntries →
  (∀ k v, fm i !! k = Some v → createdAt v < now) →
  let i' := Set_ fault now sweepNow tenantID runID stack url i in
  Get tenantID runID i' = Some (target stack url now) ∧
  Z.of_nat (size (fm i')) <= maxForwardEntries ∧
  (∀ k v, fm i' !! k = Some v → k ≠ (tenantID, runID) → fm i !! k = Some v) ∧
  (∀ k v, fm i !! k = Some v → k ≠ (tenantID, runID) →
     fm i' !! k = Some v ∨ staleEntry (sweepNow - forwardEntryTTL) v ∨
     (Z.of_nat (size (fm i)) = maxForwardEntries ∧ ∀ k' v', fm i' !! k' = Some v' → createdAt v <= createdAt v')) ∧
  (fault = false → fpath i = true →
     ∀ k, (λ v, (RemoteStackID v, RemoteEventsURL v)) <$> fm (newForwardIndexPersistent restart true (ffile i')) !! k =
          (λ v, (RemoteStackID v, RemoteEventsURL v)) <$> fm i' !! k).
Proof.
  intros Hsw Httl Hcap Hold. cbv zeta.
  destruct (Set_entries fault now sweepNow tenantID runID stack url i Hsw Httl Hcap Hold) as (Hkey & Hsz & Hsub & Hsup).
  split_and!; [done|done| | |].
  - intros k v Hk Hnk. apply Hsub in Hk. by rewrite lookup_insert_ne in Hk.
  - intros k v Hk Hnk. apply Hsup. by rewrite lookup_insert_ne.
  - intros -> Hp k. unfold Set_, persistLocked. cbn [fpath]. rewrite Hp. cbn -[lookup fmap foldl sweepExpired evictOldest].
    rewrite foldl_loadRecord by (by apply NoDup_range_fst). rewrite list_to_map_range by done.
    by destruct (_ !! k).
Qed.

End forward_index.

(** ** Peer registry *)

Record Endpoints := { AgentOrchestratorBaseURL : string; ModelPolicyBaseURL : string }.

Record Build := { BVersion : string; GitSHA : string; Timestamp : string }.

Record PeerInfo := {
  StackID : string; Environment : string; Region : string; APIVersions : list string;
  PEndpoints : Endpoints; PBuild : Build
}.

Record PeersFile := { Local_ : PeerInfo; Peers : list PeerInfo }.

Record PeerHealth := { Healthy : bool; LastCheck : Time; LastError : string; Latency : Duration }.

Definition zeroHealth : PeerHealth := {| Healthy := false; LastCheck := 0; LastError := ""; Latency := 0 |}.

Record Registry := { Local : PeerInfo; peers : gmap string PeerInfo; health : gmap string PeerHealth }.

Definition zeroPeer : PeerInfo := {|
  StackID := ""; Environment := ""; Region := ""; APIVersions := [];
  PEndpoints := {| AgentOrchestratorBaseURL := ""; ModelPolicyBaseURL := "" |};
  PBuild := {| BVersion := ""; GitSHA := ""; Timestamp := "" |}
|}.

Definition override (v def : string) : string := if decide (v = "") then def else v.

(** [read] gives the decoded peers file, [None] when reading or decoding fails. *)
Definition LoadRegistryFromEnv (env : Environ) (read : string → option PeersFile) : option Registry :=
  let path := TrimSpace (env "AGENTOS_PEERS_FILE") in
  if decide (path = "") then Some {| Local := zeroPeer; peers := ∅; health := ∅ |}
  else
    pf ← read path;
    let l := Local_ pf in
    Some {|
      Local := {| StackID := override (TrimSpace (env "AGENTOS_STACK_ID")) (StackID l);
                  Environment := override (TrimSpace (env "AGENTOS_ENVIRONMENT")) (Environment l);
                  Region := override (TrimSpace (env "AGENTOS_REGION")) (Region l);
                  APIVersions := APIVersions l; PEndpoints := PEndpoints l; PBuild := PBuild l |};
      peers := foldl (λ m p, if decide (StackID p = "") then m else <[StackID p := p]> m) ∅ (Peers pf);
      health := ∅ |}.

Definition GetPeer (stackID : string) (r : Registry) : option PeerInfo := peers r !! stackID.

Definition AddPeer (peer : PeerInfo) (r : Registry) : Registry :=
  if decide (StackID peer = "") then r
  else {| Local := Local r; peers := <[StackID peer := peer]> (peers r);
          health := match health r !! StackID peer with
                    | Some _ => health r
                    | None => <[StackID peer := zeroHealth]> (health r)
                    end |}.

Definition RemovePeer (stackID : string) (r : Registry) : Registry :=
  {| Local := Local r; peers := delete stackID (peers r); health := delete stackID (health r) |}.

(** The order in which the peers are visited. *)
Class PeerRange := peer_range : gmap string PeerInfo → list (string * PeerInfo).

Definition ListPeers `{PeerRange} (r : Registry) : list PeerInfo := (peer_range (peers r)).*2.

Definition HealthyPeers `{PeerRange} (r : Registry) : list PeerInfo :=
  (filter (λ kv, Healthy <$> health r !! kv.1 = Some true) (peer_range (peers r))).*2.

Definition GetHealth (stackID : string) (r : Registry) : option PeerHealth := health r !! stackID.

Definition updateHealth (now : Time) (stackID : string) (healthy : bool) (errMsg : string) (latency : Duration)
    (r : Registry) : Registry :=
  {| Local := Local r; peers := peers r;
     health := <[stackID := {| Healthy := healthy; LastCheck := now; LastError := errMsg; Latency := latency |}]>
                 (health r) |}.

(** What a health request to a URL gives: an error, or a status code. *)
Inductive Probe := ProbeBadURL (err : string) | ProbeError (err : string) (latency : Duration)
  | ProbeStatus (status : Z) (latency : Duration).

Definition checkPeer (now : Time) (probe : string → Probe) (peer : PeerInfo) (r : Registry) : Registry :=
  let url := trimRightChar "/" (AgentOrchestratorBaseURL (PEndpoints peer)) +:+ "/health" in
  match probe url with
  | ProbeBadURL err => updateHealth now (StackID peer) false err 0 r
  | ProbeError err latency => updateHealth now (StackID peer) false err latency r
  | ProbeStatus status latency =>
      let healthy := bool_decide (status = 200) in
      updateHealth now (StackID peer) healthy
        (if healthy then "" else "health check returned status " +:+ pretty status) latency r
  end.

Definition checkAllPeers `{PeerRange} (now : Time) (probe : string → Probe) (r : Registry) : Registry :=
  foldl (λ r p, checkPeer now probe p r) r (ListPeers r).

(** ** Stream proxy *)

Record proxyState := { pSeen : gset string; pLast : Z }.

(** Only numbers count here: a JSON number decodes to a float. *)
Definition proxySeq (eventObj : Envelope) : Z :=
  match any_get "sequence" eventObj with Some (AFloat q) => ftrunc q | _ => 0 end.

Definition isNewline (c : ascii) : bool := bool_decide (c = "010"%char ∨ c = "013"%char).

(** [unmarshal] is the JSON decoder on an object. *)
Definition eventPayload (unmarshal : string → option Envelope) (line : string) : option Envelope :=
  let trim := trimRightBy isNewline line in
  if HasPrefix trim "data:" then
    env ← unmarshal (TrimSpace (TrimPrefix trim "data:")); eventOf env
  else None.

(** Whether the line is passed on, and the state after it. *)
Definition proxyLine (unmarshal : string → option Envelope) (line : string) (st : proxyState) : bool * proxyState :=
  match eventPayload unmarshal line with
  | None => (true, st)
  | Some obj =>
      let eid := eventID obj in
      let seq := proxySeq obj in
      if decide (eid ≠ "" ∧ eid ∈ pSeen st) then (false, st)
      else
        let seen := if decide (eid = "") then pSeen st else {[eid]} ∪ pSeen st in
        if decide (seq ≠ 0 ∧ seq <= pLast st) then (false, {| pSeen := seen; pLast := pLast st |})
        else (true, {| pSeen := seen; pLast := if bool_decide (pLast st < seq) then seq else pLast st |})
  end.

Fixpoint proxyLines (unmarshal : string → option Envelope) (lines : list string) (st : proxyState) : list string :=
  match lines with
  | [] => []
  | line :: lines' =>
      match proxyLine unmarshal line st with
      | (true, st') => line :: proxyLines unmarshal lines' st'
      | (false, st') => proxyLines unmarshal lines' st'
      end
  end.

(** One attempt to reach the remote site: an error, or a status with the lines
    of its answer (each ends in a newline) and whether reading ended well. *)
Inductive RemoteTry := RemoteError | RemoteAnswer (status : Z) (lines : list string) (eof : bool).

Inductive ProxyError := ErrUnreachable | ErrRemoteStatus | ErrRead.

(** Up to three attempts; an attempt beyond the given list is an error. *)
Fixpoint firstAnswer (n : nat) (tries : list RemoteTry) : option RemoteTry :=
  match n, tries with
  | O, _ => None
  | S n', RemoteAnswer s ls eof :: _ => Some (RemoteAnswer s ls eof)
  | S n', RemoteError :: tries' => firstAnswer n' tries'
  | S n', [] => None
  end.

Definition Proxy (unmarshal : string → option Envelope) (fromSequence : Z) (tries : list RemoteTry) :
    list string * option ProxyError :=
  match firstAnswer 3 tries with
  | Some (RemoteAnswer status lines eof) =>
      if bool_decide (status < 200 ∨ 300 <= status) then ([], Some ErrRemoteStatus)
      else (proxyLines unmarshal lines {| pSeen := ∅; pLast := fromSequence |},
            if eof then None else Some ErrRead)
  | _ => ([], Some ErrUnreachable)
  end.

Definition newline : string := String "010" "".

(** The lines a site streams for its stored events. *)
Definition StreamStoredEvents (marshal : Envelope → string) (envs : list Envelope) : list string :=
  env ← envs; [("event: agentos.event" +:+ newline)%string; ("data: " +:+ marshal env +:+ newline)%string; newline].

Section proxy.
Context (unmarshal : string → option Envelope).

Definition eventsOf (lines : list string) : list Envelope := omap (eventPayload unmarshal) lines.

Lemma proxyLines_spec lines : ∀ st,
  let out := proxyLines unmarshal lines st in
  sublist out lines ∧
  filter (λ l, eventPayload unmarshal l = None) out = filter (λ l, eventPayload unmarshal l = None) lines ∧
  NoDup (filter (λ i, i ≠ "") (eventID <$> eventsOf out)) ∧
  Forall (λ i, i ∉ pSeen st) (filter (λ i, i ≠ "") (eventID <$> eventsOf out)) ∧
  StronglySorted Z.lt (filter (λ q, q ≠ 0) (proxySeq <$> eventsOf out)) ∧
  Forall (λ q, pLast st < q) (filter (λ q, q ≠ 0) (proxySeq <$> eventsOf out)).
Proof.
  induction lines as [|line lines IH]; intros st; cbn [proxyLines].
  { cbn. split_and!; try constructor. }
  unfold proxyLine. destruct (eventPayload unmarshal line) as [obj|] eqn:He.
  - case_decide as Hdup; [|case_decide as Hst].
    + destruct (IH st) as (Hs & Hf & Hrest). split_and!; try apply Hrest; [by constructor|].
      rewrite Hf. by rewrite filter_cons_False by (by rewrite He).
    + destruct (IH {| pSeen := if decide (eventID obj = "") then pSeen st else {[eventID obj]} ∪ pSeen st; pLast := pLast st |})
        as (Hs & Hf & Hnd & Hns & Hrest).
      split_and!; try apply Hrest; [by constructor| |done|].
      * rewrite Hf. by rewrite filter_cons_False by (by rewrite He).
      * eapply Forall_impl; [exact Hns|]. cbn. intros i Hi. case_decide; set_solver.
    + set (st' := {| pSeen := _; pLast := _ |}).
      destruct (IH st') as (Hs & Hf & Hnd & Hns & Hsort & Hlt).
      assert (eventsOf (line :: proxyLines unmarshal lines st') = obj :: eventsOf (proxyLines unmarshal lines st')) as ->
        by (unfold eventsOf; cbn; by rewrite He).
      cbn [fmap list_fmap]. split_and!.
      * by constructor.
      * rewrite !filter_cons_False by (by rewrite He). done.
      * destruct (decide (eventID obj ≠ "")) as [Hne|He0]; [|by rewrite filter_cons_False].
        rewrite filter_cons_True by done. constructor; [|done]. intros Hin.
        rewrite Forall_forall in Hns. apply Hns in Hin. apply Hin. cbn. rewrite decide_False by done. set_solver.
      * assert (Forall (λ i, i ∉ pSeen st) (filter (λ i, i ≠ "") (eventID <$> eventsOf (proxyLines unmarshal lines st')))) as Hns'.
        { eapply Forall_impl; [exact Hns|]. cbn. intros i Hi. case_decide; set_solver. }
        destruct (decide (eventID obj ≠ "")) as [Hne|He0]; [|by rewrite filter_cons_False].
        rewrite filter_cons_True by done. constructor; [|done]. tauto.
      * destruct (decide (proxySeq obj ≠ 0)) as [Hne|He0]; [|by rewrite filter_cons_False].
        rewrite filter_cons_True by done. constructor; [done|].
        eapply Forall_impl; [exact Hlt|]. cbn. intros q. case_bool_decide; lia.
      * assert (Forall (λ q, pLast st < q) (filter (λ q, q ≠ 0) (proxySeq <$> eventsOf (proxyLines unmarshal lines st')))) as Hlt'.
        { eapply Forall_impl; [exact Hlt|]. cbn. intros q. case_bool_decide; lia. }
        destruct (decide (proxySeq obj ≠ 0)) as [Hne|He0]; [|by rewrite filter_cons_False].
        rewrite filter_cons_True by done. constructor; [lia|done].
  - destruct (IH st) as (Hs & Hf & Hrest).
    assert (eventsOf (line :: proxyLines unmarshal lines st) = eventsOf (proxyLines unmarshal lines st)) as ->
      by (unfold eventsOf; cbn; by rewrite He).
    split_and!; try apply Hrest; [by constructor|]. rewrite !filter_cons_True by done. by rewrite Hf.
Qed.

(** The relay of a remote stream never reorders or invents lines, passes every
    line that is not an event, passes no event identifier twice, and the numbers of
    the numbered events it passes rise strictly from the requested position. *)
Theorem proxy_filters (fromSequence : Z) (tries : list RemoteTry) :
  let out := (Proxy unmarshal fromSequence tries).1 in
  (∀ status lines eof, firstAnswer 3 tries = Some (RemoteAnswer status lines eof) → 200 <= status < 300 →
     sublist out lines ∧
     filter (λ l, eventPayload unmarshal l = None) out = filter (λ l, eventPayload unmarshal l = None) lines) ∧
  NoDup (filter (λ i, i ≠ "") (eventID <$> eventsOf out)) ∧
  StronglySorted Z.lt (filter (λ q, q ≠ 0) (proxySeq <$> eventsOf out)) ∧
  Forall (λ q, fromSequence < q) (filter (λ q, q ≠ 0) (proxySeq <$> eventsOf out)).
Proof.
  unfold Proxy. destruct (firstAnswer 3 tries) as [[|status lines eof]|].
  - cbn. split_and!; [done|constructor..].
  - case_bool_decide as Hs.
    + cbn. split_and!; [intros ? ? ? [= <- <- <-] ?; lia|constructor..].
    + pose proof (proxyLines_spec lines {| pSeen := ∅; pLast := fromSequence |}) as (? & ? & ? & _ & ? & ?).
      cbn [fst]. split_and!; try done. by intros ? ? ? [= <- <- <-] _.
  - cbn. split_and!; [done|constructor..].
Qed.

Context (marshal : Envelope → string).

(** An event as it travels: an object text that decodes to it, with a JSON number
    as its sequence. *)
Record onWire (e : Envelope) : Prop := {
  wire_text : ∃ body, marshal e = String "{" (body +:+ "}");
  wire_decodes : unmarshal (marshal e) = Some e;
  wire_number : ∃ obj q, eventOf e = Some obj ∧ any_get "sequence" obj = Some (AFloat q)
}.

Lemma eventPayload_wire e obj :
  onWire e → eventOf e = Some obj → eventPayload unmarshal ("data: " +:+ marshal e +:+ newline) = Some obj.
Proof.
  intros [[body Hb] Hd _] Ho. unfold eventPayload.
  assert ("data: " +:+ marshal e +:+ newline = ("data: " +:+ String "{" body) +:+ String "}" newline) as ->.
  { rewrite Hb. rewrite !string_app_cons, !string_app_nil. by rewrite <-string_app_assoc. }
  rewrite trimRightBy_app by done.
  assert (("data: " +:+ String "{" body) +:+ "}" = "data:" +:+ String " " (marshal e)) as ->.
  { rewrite Hb. rewrite !string_app_cons, !string_app_nil. done. }
  unfold TrimPrefix. rewrite HasPrefix_app, dropBytes_app.
  replace (TrimSpace (String " " (marshal e))) with (marshal e); [by rewrite Hd|].
  rewrite Hb. unfold TrimSpace. cbn -[trimRightSpace spaceLen]. rewrite (spaceLen_ascii7 " ") by done.
  replace (space1 " ") with true by done. cbn -[trimRightSpace spaceLen].
  rewrite (spaceLen_ascii7 "{") by done. replace (space1 "{") with false by done.
  rewrite <-string_app_cons. by rewrite trimRightSpace_snoc.
Qed.

Lemma proxy_relays evs : ∀ st,
  Forall onWire evs → Forall (λ e, idOf e ≠ "" ∧ idOf e ∉ pSeen st) evs → NoDup (idOf <$> evs) →
  StronglySorted Z.lt (seqOf <$> evs) → Forall (λ e, pLast st < seqOf e) evs →
  proxyLines unmarshal (StreamStoredEvents marshal evs) st = StreamStoredEvents marshal evs.
Proof.
  induction evs as [|e evs IH]; intros st Hw Hid Hnd Hsort Hlt; [done|].
  apply Forall_cons in Hw as [He Hw]. apply Forall_cons in Hid as [[Hne Hnew] Hid]. apply Forall_cons in Hlt as [Hl Hlt].
  cbn in Hnd. apply NoDup_cons in Hnd as [Hnin Hnd]. inversion Hsort as [|? ? Hsort' Hall]; subst.
  pose proof (wire_number _ He) as (obj & q & Ho & Hq).
  assert (seqOf e = ftrunc q ∧ proxySeq obj = ftrunc q ∧ idOf e = eventID obj) as (Hs & Hp & Hi)
    by (unfold seqOf, idOf, proxySeq, eventSequence; rewrite Ho; cbn; by rewrite Hq).
  unfold StreamStoredEvents. cbn -[proxyLine newline String.append].
  change (mbind _ evs) with (StreamStoredEvents marshal evs).
  unfold proxyLine at 1. replace (eventPayload unmarshal ("event: agentos.event" +:+ newline)) with (@None Envelope) by done.
  cbn -[proxyLine newline String.append]. f_equal.
  unfold proxyLine at 1. rewrite (eventPayload_wire e obj He Ho). rewrite <-Hi, Hp, <-Hs.
  rewrite decide_False by tauto. rewrite decide_False by lia. cbn -[proxyLine newline String.append]. f_equal.
  unfold proxyLine at 1. replace (eventPayload unmarshal newline) with (@None Envelope) by done.
  cbn -[proxyLine newline String.append]. f_equal. apply IH; [done| |done|done|].
  - cbn. rewrite decide_False by done. apply Forall_forall. intros e' He'. rewrite Forall_forall in Hid.
    specialize (Hid e' He'). split; [tauto|]. rewrite not_elem_of_union, not_elem_of_singleton. split; [|tauto].
    intros Heq. apply Hnin. rewrite <-Heq. by apply list_elem_of_fmap_2.
  - cbn. rewrite bool_decide_eq_true_2 by done. apply (Forall_fmap seqOf) in Hall. exact Hall.
Qed.

(** Two sites together: events ingested by one site, in any history, and read
    by another through the relay after sequence number [n] arrive complete and in
    order: the relay passes the whole stream of the stored events past [n], even
    when its first one or two attempts fail, provided the events are numbered JSON
    objects and the run has at most 10000 of them. *)
Theorem federated_stream_complete `{SeenRange} (ops : list (string * string * list Envelope)) (s : eventStore)
    (t r : string) (n : Z) (evs : list Envelope) (failures : nat) :
  ingestHistory newEventStore ops = Some s → List_ t r s = Some evs →
  Forall onWire evs → Forall (λ e, seqOf e ≠ 0) evs → Z.of_nat (length evs) <= maxSeenEventIDs → (failures ≤ 2)%nat →
  ∃ seen fresh, evs = seen ++ fresh ∧ Forall (λ e, seqOf e <= n) seen ∧
    ListFromSequence t r n s = Some fresh ∧
    Proxy unmarshal n (replicate failures RemoteError ++ [RemoteAnswer 200 (StreamStoredEvents marshal fresh) true])
      = (StreamStoredEvents marshal fresh, None).
Proof.
  intros Hh Hl Hw Hnum Hlen Hf.
  destruct (ingestHistory_inv ops _ newEventStore_inv) as (s' & Hh' & [_ _ _ Hall]).
  assert (s' = s) as -> by congruence. unfold List_, ListFromSequence in *.
  destruct (stored s !! (t, r)) as [st|] eqn:Hst; [|done]. injection Hl as <-.
  apply Hall in Hst as [Hsort Hlast Hnn Hnamed Hids]. destruct (Hids Hlen) as [_ Hnd].
  rewrite filter_all in Hsort by (by apply Forall_fmap).
  set (fresh := List.filter (afterSequence n) (events st)).
  destruct (resume_split n (events st) Hsort Hnum) as (seen & Hev & Hseen). fold fresh in Hev.
  exists seen, fresh. split_and!; [done|done|done|].
  assert (Forall (λ e, n < seqOf e) fresh) as Hlt.
  { apply Forall_forall. intros e He. unfold fresh in He. apply list_elem_of_In, filter_In in He as [He Ha].
    apply list_elem_of_In in He. rewrite Forall_forall in Hnum. specialize (Hnum e He).
    unfold afterSequence in Ha. apply bool_decide_eq_true in Ha as [Ha|Ha]; [by unfold seqOf in Hnum|done]. }
  clearbody fresh. rewrite Hev in Hw, Hnd, Hsort, Hnamed.
  rewrite fmap_app in Hnd. rewrite fmap_app in Hsort.
  apply Forall_app in Hw as [_ Hw]. apply NoDup_app in Hnd as (_ & _ & Hnd). apply Forall_app in Hnamed as [_ Hnamed].
  apply StronglySorted_app in Hsort as (_ & _ & Hsort).
  unfold Proxy.
  replace (firstAnswer 3 (replicate failures RemoteError ++ [RemoteAnswer 200 (StreamStoredEvents marshal fresh) true]))
    with (Some (RemoteAnswer 200 (StreamStoredEvents marshal fresh) true))
    by (destruct failures as [|[|[|]]]; cbn; [done..|lia]).
  rewrite bool_decide_eq_false_2 by lia. rewrite proxy_relays; try done.
  eapply Forall_impl; [exact Hnamed|]. cbn. set_solver.
Qed.

End proxy.

(** ** Instances and examples *)

Definition elementsSeen : SeenRange := elements.

Definition forwardOrder : ForwardRange := map_to_list.

Definition sample_event (id : string) (seq : Z) : Envelope :=
  [("event", AMap [("event_id", AStr id); ("sequence", AFloat (inject_Z seq))])].

Definition nameless_event : Envelope := [("event", AMap [("event_id", AStr "")])].

(** A full store: five hundred runs with one event each. *)
Definition full_ops : list (string * string * list Envelope) :=
  (λ i, ("acme", pretty i, [sample_event "e" 1])) <$> seq 0 500.

Definition full_store : eventStore :=
  default newEventStore (@ingestHistory elementsSeen newEventStore full_ops).

Lemma full_store_inv : store_inv full_store.
Proof.
  unfold full_store.
  by destruct (@ingestHistory_inv elementsSeen full_ops newEventStore newEventStore_inv) as (s & -> & Hs).
Qed.

Lemma rejected_event_evicts_witness :
  ∃ s', @Ingest elementsSeen "acme" "unknown" [nameless_event] full_store = Some ((0, 1), s') ∧
    is_Some (stored full_store !! ("acme", "0")) ∧ stored s' !! ("acme", "0") = None ∧
    is_Some (stored s' !! ("acme", "unknown")).
Proof.
  apply (@rejected_event_evicts elementsSeen "acme" "unknown" nameless_event ("acme", "0") (tail (runOrder full_store))).
  - exact full_store_inv.
  - vm_compute. reflexivity.
  - vm_compute. reflexivity.
  - vm_compute. reflexivity.
  - right. reflexivity.
Defined.

Lemma forward_index_set_witness :
  let i := @Set_ forwardOrder false 5 5 "acme" "run_1" "eu" "https://eu/v1/runs/run_1/events"
             {| fm := ∅; fpath := true; ffile := FwdMissing; setCount := 0 |} in
  Get "acme" "run_1" i = Some (target "eu" "https://eu/v1/runs/run_1/events" 5) ∧
  (λ v, (RemoteStackID v, RemoteEventsURL v)) <$> fm (newForwardIndexPersistent 9 true (ffile i)) !! ("acme", "run_1") =
  (λ v, (RemoteStackID v, RemoteEventsURL v)) <$> fm i !! ("acme", "run_1").
Proof.
  destruct (@forward_index_set forwardOrder GoRange_map_to_list false 5 5 9 "acme" "run_1" "eu" "https://eu/v1/runs/run_1/events"
    {| fm := ∅; fpath := true; ffile := FwdMissing; setCount := 0 |}) as (Hg & _ & _ & _ & Hr).
  - lia.
  - unfold forwardEntryTTL, Hour, Minute, Second. lia.
  - vm_compute. done.
  - intros k v Hk. cbn in Hk. by apply lookup_empty_Some in Hk.
  - split; [exact Hg|exact (Hr eq_refl eq_refl ("acme", "run_1"))].
Defined.

Definition sample_marshal (e : Envelope) : string := String "{" (idOf e +:+ "}").

Definition sample_unmarshal (s : string) : option Envelope :=
  if decide (s = "{a}") then Some (sample_event "a" 1)
  else if decide (s = "{b}") then Some (sample_event "b" 2) else None.

Lemma federated_stream_complete_witness :
  ∃ seen fresh, [sample_event "a" 1; sample_event "b" 2] = seen ++ fresh ∧ Forall (λ e, seqOf e <= 1) seen ∧
    ListFromSequence "acme" "r" 1
      (default newEventStore (@ingestHistory elementsSeen newEventStore [("acme", "r", [sample_event "a" 1; sample_event "a" 1; sample_event "b" 2])]))
      = Some fresh ∧
    Proxy sample_unmarshal 1 ([RemoteError] ++ [RemoteAnswer 200 (StreamStoredEvents sample_marshal fresh) true])
      = (StreamStoredEvents sample_marshal fresh, None).
Proof.
  apply (@federated_stream_complete sample_unmarshal sample_marshal elementsSeen
    [("acme", "r", [sample_event "a" 1; sample_event "a" 1; sample_event "b" 2])] _ "acme" "r" 1 _ 1).
  - vm_compute. reflexivity.
  - vm_compute. reflexivity.
  - apply Forall_cons; split; [|apply Forall_singleton]; split; try reflexivity.
    + by exists "a".
    + eexists _, _. by split.
    + by exists "b".
    + eexists _, _. by split.
  - apply Forall_cons; split; [|apply Forall_singleton]; vm_compute; lia.
  - vm_compute. done.
  - lia.
Defined.

(** The run that is used most still leaves first. *)
Example eviction_ignores_use :
  (λ s, (bool_decide (is_Some (stored s !! ("acme", "0"))), length (runOrder s))) <$>
    @ingestHistory elementsSeen newEventStore
      (full_ops ++ [("acme", "0", [sample_event "later" 2]); ("acme", "new", [sample_event "e" 1])])
  = Some (false, 500%nat).
Proof. vm_compute. reflexivity. Qed.
