(* ===== verification/FederationServer.v ===== *)
(** * FederationServer: forwarding, token checks and the federation handlers

    federation/forwarder.go (a run created at another site, with retries),
    federation/jwt.go (the token middleware) and federation/server.go (the
    handlers and their composition with the stores of Federation and the identity
    of Access).  The token library and the network are parameters and inputs: a
    remote site answers every request with a [Reply]. *)
From S2P Require Import Prelude GoTime GoPath GoStrings Access Federation.

#[local] Open Scope go_scope.

(** ** Dynamic objects *)

(** [m[k].(map[string]any)]: [None] is the nil map. *)
Definition any_map (k : string) (m : Envelope) : option Envelope :=
  match any_get k m with Some (AMap m') => Some m' | _ => None end.

(** [m[k].(string)], the empty string when it is something else. *)
Definition any_str (k : string) (m : Envelope) : string := default "" (any_string k m).

(** ** Forwarder (forwarder.go) *)

Record Forwarder := { FMaxAttempts : Z; BaseBackoff : Duration }.

Definition NewForwarder (env : Environ) : Forwarder :=
  let trimmed k := TrimSpace (env k) in
  {| FMaxAttempts := envInt trimmed "AGENTOS_FED_FORWARD_MAX_ATTEMPTS" 3;
     BaseBackoff := envInt trimmed "AGENTOS_FED_FORWARD_BASE_BACKOFF_MS" 250 * Millisecond |}.

Record ForwardRequest := {
  fURL : string; fTenant : string; fPrincipal : string; fBearer : string; fBody : Envelope
}.

(** What the remote site does with a request: nothing arrives, or a status and a
    body ([None]: not a JSON object). *)
Inductive Reply := NoReply | Replied (status : Z) (body : option Envelope).

Inductive ForwardError := ErrBadRequest | ErrTransport | ErrStatus (status : Z) | ErrDecodeBody | ErrIncomplete.

Record Forwarded := { fwRunID : string; fwEventsURL : string; fwStatus : string }.

Definition absoluteEvents (base eventsURL : string) : string :=
  if HasPrefix eventsURL "/" then trimRightChar "/" base +:+ eventsURL
  else if HasPrefix eventsURL "http://" || HasPrefix eventsURL "https://" then eventsURL
  else trimRightChar "/" base +:+ "/" +:+ eventsURL.

(** A 2xx answer. *)
Definition accepted (base : string) (body : option Envelope) : ForwardError + Forwarded :=
  match body with
  | None => inl ErrDecodeBody
  | Some decoded =>
      let runObj := default [] (any_map "run" decoded) in
      let runID := any_str "run_id" runObj in
      let eventsURL := any_str "events_url" runObj in
      let status := any_str "status" runObj in
      if decide (runID = "" ∨ eventsURL = "") then inl ErrIncomplete
      else inr {| fwRunID := runID; fwEventsURL := absoluteEvents base eventsURL;
                  fwStatus := if decide (status = "") then "queued" else status |}
  end.

(** What was done: the number of requests sent and the pauses between them. *)
Record ForwardLog := { requests : Z; sleeps : list Duration }.

Definition sent (l : ForwardLog) : ForwardLog := {| requests := requests l + 1; sleeps := sleeps l |}.

Definition slept (d : Duration) (l : ForwardLog) : ForwardLog :=
  {| requests := requests l; sleeps := sleeps l ++ [d] |}.

(** The attempts from [attempt] on; [left] is how many remain. *)
Fixpoint forwardLoop (left : nat) (attempt max : Z) (backoff : Duration) (base : string)
    (replies : Z → Reply) (lastErr : ForwardError) (log : ForwardLog) : (ForwardError + Forwarded) * ForwardLog :=
  match left with
  | O => (inl lastErr, log)
  | S left' =>
      let log := sent log in
      let retry err :=
        let log := if bool_decide (attempt < max) then slept (int64_wrap (attempt * backoff)) log else log in
        forwardLoop left' (attempt + 1) max backoff base replies err log in
      match replies attempt with
      | NoReply => retry ErrTransport
      | Replied status body =>
          if bool_decide (200 <= status < 300) then (accepted base body, log)
          else if bool_decide (400 <= status < 500) then (inl (ErrStatus status), log)
          else retry (ErrStatus status)
      end
  end.

Definition forwardRequest (base agentID tenantID principalID bearer : string) (body : Envelope) : ForwardRequest := {|
  fURL := trimRightChar "/" base +:+ "/v1/agents/" +:+ agentID +:+ "/runs";
  fTenant := tenantID; fPrincipal := principalID; fBearer := bearer; fBody := body
|}.

(** [send] is the remote site: its answer to the request at each attempt;
    [validURL] says which URLs a request can be made for. *)
Definition ForwardRun (f : Forwarder) (validURL : string → bool) (send : ForwardRequest → Z → Reply)
    (base agentID tenantID principalID bearer : string) (body : Envelope) : (ForwardError + Forwarded) * ForwardLog :=
  let max := if bool_decide (FMaxAttempts f <= 0) then 1 else FMaxAttempts f in
  let backoff := if bool_decide (BaseBackoff f <= 0) then 250 * Millisecond else BaseBackoff f in
  let req := forwardRequest base agentID tenantID principalID bearer body in
  let log := {| requests := 0; sleeps := [] |} in
  if negb (validURL (fURL req)) then (inl ErrBadRequest, log)
  else forwardLoop (Z.to_nat max) 1 max backoff base (send req) ErrTransport log.

(** ** Token checks (jwt.go) *)

Inductive JWTError := ErrInvalidToken | ErrTokenExpired | ErrInvalidSignature.

Record JWTClaims := {
  jTenantID : string; jPrincipalID : string; Subject : string; Issuer : string; jAudience : string;
  jExpiresAt : Z; IssuedAt : Z
}.

(** What the token library reports about a token. *)
Inductive JWTParse :=
  | JWTFails (expired signature : bool)
  | JWTParsed (valid : bool) (tenant principal subject issuer : string) (audience : list string)
      (exp iat : option Z).

Definition Verify (parse : string → JWTParse) (token : string) : JWTError + JWTClaims :=
  match parse token with
  | JWTFails true _ => inl ErrTokenExpired
  | JWTFails false true => inl ErrInvalidSignature
  | JWTFails false false => inl ErrInvalidToken
  | JWTParsed false _ _ _ _ _ _ _ => inl ErrInvalidToken
  | JWTParsed true t p s i aud exp iat =>
      inr {| jTenantID := t; jPrincipalID := p; Subject := s; Issuer := i; jAudience := default "" (head aud);
             jExpiresAt := default 0 exp; IssuedAt := default 0 iat |}
  end.

(** [None]: the server has no verifier. The error of a missing or unreadable key. *)
Definition NewJWTVerifier (env : Environ) (readKey : string → option (string → JWTParse)) :
    option (option (string → JWTParse)) :=
  if decide (TrimSpace (env "AGENTOS_FED_AUTH_DISABLED") = "1") then Some None
  else
    let path := TrimSpace (env "AGENTOS_FED_JWT_PUBLIC_KEY") in
    if decide (path = "") then None
    else parse ← readKey path; Some (Some parse).

Definition setHeader (k v : string) (h : Header) : Header := λ k', if decide (k = k') then v else h k'.

Definition setNonempty (k v : string) (h : Header) : Header := if decide (v = "") then h else setHeader k v h.

Definition JWTMiddleware (env : Environ) (verifier : option (string → JWTParse)) (h : Header) : Denial + Header :=
  let devMode := bool_decide (TrimSpace (env "AGENTOS_FED_AUTH_DISABLED") = "1") in
  match verifier with
  | None => if devMode then inr h else inl (deny 503 "auth_unavailable")
  | Some parse =>
      let authHeader := h "Authorization" in
      let token := if HasPrefix (ToLower authHeader) "bearer " then TrimSpace (dropBytes 7 authHeader) else "" in
      if decide (token = "") then inl (deny 401 "unauthorized")
      else
        match Verify parse token with
        | inl _ => inl (deny 401 "unauthorized")
        | inr claims =>
            inr (setNonempty "X-JWT-Subject" (Subject claims)
                  (setNonempty "X-JWT-Principal-Id" (jPrincipalID claims)
                    (setNonempty "X-JWT-Tenant-Id" (jTenantID claims) h)))
        end
  end.

(** ** The server (server.go) *)

Record FedServer := {
  fsRegistry : option Registry;
  fsForward : Forwarder;
  fsIndex : forwardIndex;
  fsEvents : eventStore
}.

Definition setIndex (i : forwardIndex) (s : FedServer) : FedServer :=
  {| fsRegistry := fsRegistry s; fsForward := fsForward s; fsIndex := i; fsEvents := fsEvents s |}.

Definition setEvents (e : eventStore) (s : FedServer) : FedServer :=
  {| fsRegistry := fsRegistry s; fsForward := fsForward s; fsIndex := fsIndex s; fsEvents := e |}.

Definition setRegistry (r : Registry) (s : FedServer) : FedServer :=
  {| fsRegistry := Some r; fsForward := fsForward s; fsIndex := fsIndex s; fsEvents := fsEvents s |}.

Inductive FedResponse :=
  | FedError (d : Denial)
  | FedForwarded (tenantID stackID runID eventsURL status : string)
  | FedIngested (accepted rejected : Z)
  | FedStream (lines : list string)
  | FedProxyFailed (lines : list string) (* 502, after the lines already sent *)
  | FedPeer (status : Z) (p : PeerInfo)
  | FedPanic.

Definition fail (status : Z) (code : string) : FedResponse := FedError (deny status code).

(** The tenant of the headers: a mismatch ends the request, a missing tenant is
    left to the payload. *)
Definition headerTenant (env : Environ) (ac : AuthContext) : Denial + string :=
  match RequireTenant env ac with
  | inr t => inr t
  | inl ErrTenantMismatch => inl (deny 400 "tenant_mismatch")
  | inl ErrTenantRequired => inr ""
  end.

(** The tenant a payload acts for, checked against the headers. *)
Definition payloadTenant (tenantHdr tenantPayload : string) : Denial + string :=
  let tenantID := if decide (tenantPayload = "") then tenantHdr else tenantPayload in
  if decide (tenantID = "") then inl (deny 401 "unauthorized")
  else if decide (tenantHdr ≠ "" ∧ tenantPayload ≠ "" ∧ TrimSpace tenantHdr ≠ TrimSpace tenantPayload)
  then inl (deny 400 "tenant_mismatch")
  else inr tenantID.

Definition orNil (k : string) (m : Envelope) : string * any := (k, default ANil (any_get k m)).

Definition handlePeerInfo (isGet : bool) (s : FedServer) : FedResponse :=
  if negb isGet then fail 405 "method_not_allowed"
  else match fsRegistry s with
       | None => fail 503 "unavailable"
       | Some reg => FedPeer 200 (Local reg)
       end.

Definition handleForwardRun `{ForwardRange} (env : Environ) (validURL : string → bool)
    (send : ForwardRequest → Z → Reply) (fault : bool) (now sweepNow : Time)
    (isPost : bool) (ac : AuthContext) (authorization : string) (body : option Envelope) (s : FedServer) :
    FedResponse * FedServer :=
  if negb isPost then (fail 405 "method_not_allowed", s)
  else match fsRegistry s with
  | None => (fail 503 "unavailable", s)
  | Some reg =>
  match headerTenant env ac with
  | inl d => (FedError d, s)
  | inr tenantHdr =>
  match body with
  | None => (fail 400 "invalid_json", s)
  | Some req =>
  match any_map "forward" req with
  | None => (fail 400 "invalid_request", s)
  | Some forwardObj =>
  match any_map "target_selector" forwardObj, any_map "auth" forwardObj, any_map "run_request" forwardObj with
  | Some selector, Some authObj, Some runReq =>
      let target := any_str "stack_id" selector in
      if decide (target = "") then (fail 400 "invalid_request", s)
      else
        match payloadTenant tenantHdr (any_str "tenant_id" authObj) with
        | inl d => (FedError d, s)
        | inr tenantID =>
            match GetPeer target reg with
            | None => (fail 404 "peer_not_found", s)
            | Some peer =>
                let agentID := any_str "agent_id" runReq in
                if decide (agentID = "") then (fail 400 "invalid_request", s)
                else
                  let runCreate := [orNil "input" runReq; orNil "context" runReq; orNil "tooling" runReq;
                                    orNil "run_options" runReq; orNil "idempotency_key" runReq] in
                  match (ForwardRun (fsForward s) validURL send (AgentOrchestratorBaseURL (PEndpoints peer)) agentID
                           tenantID (any_str "principal_id" authObj) (bearerToken authorization) runCreate).1 with
                  | inl _ => (fail 502 "forward_failed", s)
                  | inr fw =>
                      (FedForwarded tenantID (StackID peer) (fwRunID fw) (fwEventsURL fw) (fwStatus fw),
                       setIndex (Set_ fault now sweepNow tenantID (fwRunID fw) (StackID peer) (fwEventsURL fw) (fsIndex s)) s)
                  end
            end
        end
  | _, _, _ => (fail 400 "invalid_request", s)
  end
  end
  end
  end
  end.

Definition any_list (k : string) (m : Envelope) : list any :=
  match any_get k m with Some (AList l) => l | _ => [] end.

(** The loop over the events of an ingest request. *)
Fixpoint ingestEvents `{SeenRange} (tenantID : string) (evs : list any) (acc rej : Z) (st : eventStore) :
    option (Z * Z * eventStore) :=
  match evs with
  | [] => Some (acc, rej, st)
  | AMap env :: evs' =>
      let runID := any_str "run_id" (default [] (eventOf env)) in
      if decide (runID = "") then ingestEvents tenantID evs' acc (rej + 1) st
      else '(ar, st') ← Ingest tenantID runID [env] st;
           ingestEvents tenantID evs' (acc + ar.1) (rej + ar.2) st'
  | _ :: evs' => ingestEvents tenantID evs' acc (rej + 1) st
  end.

Definition handleEventsIngest `{SeenRange} (env : Environ) (isPost : bool) (ac : AuthContext)
    (body : option Envelope) (s : FedServer) : FedResponse * FedServer :=
  if negb isPost then (fail 405 "method_not_allowed", s)
  else match headerTenant env ac with
  | inl d => (FedError d, s)
  | inr tenantHdr =>
  match body with
  | None => (fail 400 "invalid_json", s)
  | Some req =>
  match any_map "auth" req with
  | None => (fail 400 "invalid_request", s)
  | Some authObj =>
  match payloadTenant tenantHdr (any_str "tenant_id" authObj) with
  | inl d => (FedError d, s)
  | inr tenantID =>
      match ingestEvents tenantID (any_list "events" req) 0 0 (fsEvents s) with
      | None => (FedPanic, s)
      | Some (acc, rej, st) => (FedIngested acc rej, setEvents st s)
      end
  end
  end
  end
  end.

(** [remote] answers the attempts of the relay for a URL. *)
Definition handleRunEvents (env : Environ) (unmarshal : string → option Envelope) (marshal : Envelope → string)
    (remote : string → Z → list RemoteTry) (isGet : bool) (ac : AuthContext) (path fromParam : string) (s : FedServer) :
    FedResponse :=
  if negb isGet then fail 405 "method_not_allowed"
  else match ResolveTenantHTTP env ac with
  | inl d => FedError d
  | inr tenantID =>
  match splitChar "/" (trimChar "/" (TrimPrefix path "/v1/federation/runs/")) with
  | [runID; "events"] =>
      let fromSeq := match Atoi fromParam with Some n => if bool_decide (0 < n) then n else 0 | None => 0 end in
      let fromStore :=
        match ListFromSequence tenantID runID fromSeq (fsEvents s) with
        | Some envs => FedStream (StreamStoredEvents marshal envs)
        | None => fail 404 "not_found"
        end in
      match Get tenantID runID (fsIndex s) with
      | Some tgt =>
          if decide (RemoteEventsURL tgt = "") then fromStore
          else match Proxy unmarshal fromSeq (remote (RemoteEventsURL tgt) fromSeq) with
               | (lines, None) => FedStream lines
               | (lines, Some _) => FedProxyFailed lines
               end
      | None => fromStore
      end
  | _ => fail 404 "not_found"
  end
  end.

Definition handlePeers (isPost : bool) (body : option PeerInfo) (s : FedServer) : FedResponse * FedServer :=
  if negb isPost then (fail 405 "method_not_allowed", s)
  else match fsRegistry s with
  | None => (fail 503 "unavailable", s)
  | Some reg =>
      match body with
      | None => (fail 400 "invalid_json", s)
      | Some peer =>
          if decide (StackID peer = "") then (fail 400 "invalid_request", s)
          else (FedPeer 201 peer, setRegistry (AddPeer peer reg) s)
      end
  end.

(** A request to the ingest endpoint through its middleware: the token check,
    then WithAuth, then the handler. *)
Definition ingestRequest `{SeenRange} (env : Environ) (verifier : option (string → JWTParse))
    (jwtParse : OIDCConfig → string → option Claims) (oidc : option OIDCConfig)
    (h : Header) (isPost : bool) (body : option Envelope) (s : FedServer) : FedResponse * FedServer :=
  match JWTMiddleware env verifier h with
  | inl d => (FedError d, s)
  | inr h' =>
      match WithAuth jwtParse oidc h' with
      | inl d => (FedError d, s)
      | inr ac => handleEventsIngest env isPost ac body s
      end
  end.

(** ** Forwarding *)

(** Answers after which the forwarder tries again. *)
Definition retryable (r : Reply) : bool :=
  match r with
  | NoReply => true
  | Replied status _ => negb (bool_decide (200 <= status < 300)) && negb (bool_decide (400 <= status < 500))
  end.

(** What a single answer means. *)
Definition outcomeOf (base : string) (r : Reply) : ForwardError + Forwarded :=
  match r with
  | NoReply => inl ErrTransport
  | Replied status body => if bool_decide (200 <= status < 300) then accepted base body else inl (ErrStatus status)
  end.

(** Linear pauses after the attempts [from, from + n). *)
Definition pauses (backoff : Duration) (from : Z) (n : nat) : list Duration :=
  (λ j, int64_wrap (j * backoff)) <$> seqZ from (Z.of_nat n).

Lemma pauses_S backoff from n : pauses backoff from (S n) = int64_wrap (from * backoff) :: pauses backoff (from + 1) n.
Proof. unfold pauses. rewrite seqZ_cons by lia. cbn. by rewrite Nat2Z.inj_succ, Z.pred_succ, Z.add_1_r. Qed.

Lemma forwardLoop_retry left attempt max backoff base replies err log :
  retryable (replies attempt) = true →
  forwardLoop (S left) attempt max backoff base replies err log =
    forwardLoop left (attempt + 1) max backoff base replies
      (match outcomeOf base (replies attempt) with inl e => e | inr _ => err end)
      (if bool_decide (attempt < max) then slept (int64_wrap (attempt * backoff)) (sent log) else sent log).
Proof.
  intros Hr. cbn. destruct (replies attempt) as [|status body]; [done|]. cbn in Hr.
  apply andb_true_iff in Hr as [H2 H4]. apply negb_true_iff in H2, H4. cbn. by rewrite H2, H4.
Qed.

Lemma forwardLoop_decides left attempt max backoff base replies err log :
  retryable (replies attempt) = false →
  forwardLoop (S left) attempt max backoff base replies err log = (outcomeOf base (replies attempt), sent log).
Proof.
  intros Hr. cbn. destruct (replies attempt) as [|status body]; [done|]. cbn in Hr. cbn.
  destruct (bool_decide (200 <= status < 300)); [done|]. cbn in Hr. apply negb_false_iff in Hr. by rewrite Hr.
Qed.

(** After [n] retried attempts, each followed by its pause. *)
Lemma forwardLoop_skip n : ∀ left attempt max backoff base replies err log,
  (∀ j, attempt <= j < attempt + Z.of_nat n → retryable (replies j) = true) → attempt + Z.of_nat n <= max →
  ∃ err', forwardLoop (n + left) attempt max backoff base replies err log =
    forwardLoop left (attempt + Z.of_nat n) max backoff base replies err'
      {| requests := requests log + Z.of_nat n; sleeps := sleeps log ++ pauses backoff attempt n |}.
Proof.
  induction n as [|n IH]; intros left attempt max backoff base replies err log Hr Hm.
  - exists err. cbn [Nat.add]. rewrite Z.add_0_r. f_equal. destruct log. cbn. by rewrite Z.add_0_r, app_nil_r.
  - cbn [Nat.add]. rewrite forwardLoop_retry by (apply Hr; lia). rewrite bool_decide_eq_true_2 by lia.
    edestruct (IH left (attempt + 1) max backoff base replies) as [err' ->]; [intros; apply Hr; lia|lia|].
    exists err'. rewrite pauses_S. f_equal; [lia|]. cbn. f_equal; [lia|by rewrite <-app_assoc].
Qed.

(** Forwarding a run is the first decisive answer: as long as the remote site is
    unreachable or answers outside 2xx and 4xx, the forwarder tries again, pausing
    longer each time, up to its limit; the first other answer decides, and if there
    is none, the last error is reported after exactly the configured attempts. *)
Theorem forward_run_exact (f : Forwarder) (validURL : string → bool) (send : ForwardRequest → Z → Reply)
    (base agentID tenantID principalID bearer : string) (body : Envelope) :
  let req := forwardRequest base agentID tenantID principalID bearer body in
  let max := if bool_decide (FMaxAttempts f <= 0) then 1 else FMaxAttempts f in
  let backoff := if bool_decide (BaseBackoff f <= 0) then 250 * Millisecond else BaseBackoff f in
  let run := ForwardRun f validURL send base agentID tenantID principalID bearer body in
  validURL (fURL req) = true →
  (∀ k, 1 <= k <= max → (∀ j, 1 <= j < k → retryable (send req j) = true) → retryable (send req k) = false →
     run = (outcomeOf base (send req k), {| requests := k; sleeps := pauses backoff 1 (Z.to_nat (k - 1)) |})) ∧
  ((∀ j, 1 <= j <= max → retryable (send req j) = true) →
     run = (outcomeOf base (send req max), {| requests := max; sleeps := pauses backoff 1 (Z.to_nat (max - 1)) |})).
Proof.
  cbv zeta. set (req := forwardRequest _ _ _ _ _ _). unfold ForwardRun. fold req.
  set (max := if bool_decide (FMaxAttempts f <= 0) then 1 else FMaxAttempts f).
  set (backoff := if bool_decide (BaseBackoff f <= 0) then _ else _).
  assert (1 <= max) as Hmax by (unfold max; case_bool_decide; lia).
  intros ->. cbn [negb]. split.
  - intros k Hk Hretry Hdec.
    replace (Z.to_nat max) with (Z.to_nat (k - 1) + S (Z.to_nat (max - k)))%nat by lia.
    edestruct (forwardLoop_skip (Z.to_nat (k - 1)) (S (Z.to_nat (max - k))) 1 max backoff base (send req)) as [err' ->];
      [intros; apply Hretry; lia|lia|].
    rewrite forwardLoop_decides by (replace (1 + _) with k by lia; done).
    replace (1 + Z.of_nat (Z.to_nat (k - 1))) with k by lia. unfold sent. cbn. do 2 f_equal. lia.
  - intros Hretry.
    replace (Z.to_nat max) with (Z.to_nat (max - 1) + 1)%nat by lia.
    edestruct (forwardLoop_skip (Z.to_nat (max - 1)) 1 1 max backoff base (send req)) as [err' ->];
      [intros; apply Hretry; lia|lia|].
    replace (1 + Z.of_nat (Z.to_nat (max - 1))) with max by lia.
    assert (retryable (send req max) = true) as Hm by (apply Hretry; lia).
    rewrite forwardLoop_retry by done. rewrite bool_decide_eq_false_2 by lia. cbn [forwardLoop].
    assert (∃ e, outcomeOf base (send req max) = inl e) as [e ->].
    { destruct (send req max) as [|status b]; cbn in *; [eauto|]. destruct (bool_decide (200 <= status < 300)); [done|eauto]. }
    unfold sent. cbn. do 2 f_equal. lia.
Qed.

(** ** Tenants of federated requests *)

Lemma setNonempty_ne k v h k' : k ≠ k' → setNonempty k v h k' = h k'.
Proof. intros. unfold setNonempty, setHeader. case_decide; [done|]. by rewrite decide_False. Qed.

(** The tenant claim of the verified token has no influence: two tokens that
    both verify are treated alike, whatever tenants, principals and subjects they
    are issued for, so a site that holds any valid token can ingest events for
    every tenant its payload names. *)
Theorem token_tenant_ignored `{SeenRange} (env : Environ) (parse1 parse2 : string → JWTParse)
    (jwtParse : OIDCConfig → string → option Claims) (oidc : option OIDCConfig)
    (h : Header) (isPost : bool) (body : option Envelope) (s : FedServer) :
  (∀ tok, is_Some (match Verify (parse1) tok with inr c => Some c | inl _ => None end) ↔
          is_Some (match Verify (parse2) tok with inr c => Some c | inl _ => None end)) →
  ingestRequest env (Some parse1) jwtParse oidc h isPost body s =
  ingestRequest env (Some parse2) jwtParse oidc h isPost body s.
Proof.
  intros Hv. unfold ingestRequest, JWTMiddleware.
  set (tok := if HasPrefix _ _ then _ else _). case_decide; [done|]. specialize (Hv tok).
  assert (∀ c1 c2, WithAuth jwtParse oidc (setNonempty "X-JWT-Subject" (Subject c1)
      (setNonempty "X-JWT-Principal-Id" (jPrincipalID c1) (setNonempty "X-JWT-Tenant-Id" (jTenantID c1) h))) =
    WithAuth jwtParse oidc (setNonempty "X-JWT-Subject" (Subject c2)
      (setNonempty "X-JWT-Principal-Id" (jPrincipalID c2) (setNonempty "X-JWT-Tenant-Id" (jTenantID c2) h)))) as Hsame.
  { assert (∀ c, FromRequest (setNonempty "X-JWT-Subject" (Subject c)
      (setNonempty "X-JWT-Principal-Id" (jPrincipalID c) (setNonempty "X-JWT-Tenant-Id" (jTenantID c) h))) = FromRequest h) as Hf.
    { intros c. unfold FromRequest. by rewrite !setNonempty_ne by done. }
    intros c1 c2. unfold WithAuth. by rewrite !Hf. }
  destruct (Verify parse1 tok) as [e1|c1], (Verify parse2 tok) as [e2|c2].
  - done.
  - destruct Hv as [_ Hv]. destruct Hv; [eauto|done].
  - destruct Hv as [Hv _]. destruct Hv; [eauto|done].
  - by rewrite (Hsame c1 c2).
Qed.

Lemma payloadTenant_bound th tp t :
  payloadTenant th tp = inr t → t ≠ "" ∧ (th ≠ "" → TrimSpace t = TrimSpace th) ∧ (t = th ∨ t = tp).
Proof.
  unfold payloadTenant. destruct (decide (tp = "")) as [->|Hp].
  - case_decide; [done|]. rewrite decide_False by tauto. intros [= <-]. auto.
  - rewrite decide_False by done. case_decide as Hm; [done|]. intros [= <-]. split_and!; [done| |by right].
    intros Hth. destruct (decide (TrimSpace th = TrimSpace tp)); [congruence|]. exfalso. tauto.
Qed.

(** The run is created at the peer for the tenant that the response names. *)
Lemma handleForwardRun_inv `{ForwardRange} env validURL send fault now sweepNow isPost ac authorization body s t st r u x s' :
  handleForwardRun env validURL send fault now sweepNow isPost ac authorization body s = (FedForwarded t st r u x, s') →
  ∃ reg peer th tp agentID principal req,
    fsRegistry s = Some reg ∧ headerTenant env ac = inr th ∧ payloadTenant th tp = inr t ∧
    peers reg !! (any_str "stack_id" (default [] (any_map "target_selector" (default [] (any_map "forward" (default [] body)))))) = Some peer ∧
    (ForwardRun (fsForward s) validURL send (AgentOrchestratorBaseURL (PEndpoints peer)) agentID t principal
       (bearerToken authorization) req).1 = inr {| fwRunID := r; fwEventsURL := u; fwStatus := x |} ∧
    st = StackID peer ∧ s' = setIndex (Set_ fault now sweepNow t r st u (fsIndex s)) s.
Proof.
  unfold handleForwardRun, GetPeer. intros Hh.
  destruct isPost; [|done]. cbn [negb] in Hh.
  destruct (fsRegistry s) as [reg|]; [|done].
  destruct (headerTenant env ac) as [|th]; [done|].
  destruct body as [req|]; [|done].
  destruct (any_map "forward" req) as [fo|] eqn:Hfo; [|done].
  destruct (any_map "target_selector" fo) as [sel|] eqn:Hsel; [|done].
  destruct (any_map "auth" fo) as [au|]; [|done].
  destruct (any_map "run_request" fo) as [rr|]; [|done].
  case_decide as Htgt; [done|].
  destruct (payloadTenant th (any_str "tenant_id" au)) as [|t'] eqn:Hpt; [done|].
  destruct (peers reg !! any_str "stack_id" sel) as [peer|] eqn:Hpeer; [|done].
  case_decide as Hag; [done|].
  destruct (ForwardRun _ _ _ _ _ _ _ _ _).1 as [|[fr fu fx]] eqn:Hfw; [done|]. injection Hh as -> <- <- <- <- <-.
  exists reg, peer, th, (any_str "tenant_id" au). eexists _, _, _. cbn. rewrite Hfo. cbn. rewrite Hsel.
  split_and!; [done|done|done|done|exact Hfw|done|done].
Qed.

(** Forwarding end to end: when the handler reports a forwarded run, the
    tenant agrees with the one the headers name, the run's place is on record, no
    other part of the server changed, and a reader of the run's events gets the
    relay of the remote stream, at the absolute URL the remote site gave. *)
Theorem forward_then_watch `{ForwardRange, !GoRange fwd_range} (env : Environ) (validURL : string → bool)
    (send : ForwardRequest → Z → Reply) (fault : bool) (now sweepNow : Time) (ac : AuthContext) (authorization : string)
    (body : option Envelope) (s s' : FedServer) (t st r u x : string)
    (unmarshal : string → option Envelope) (marshal : Envelope → string) (remote : string → Z → list RemoteTry)
    (reader : AuthContext) (path : string) :
  now <= sweepNow → sweepNow - forwardEntryTTL <= now → Z.of_nat (size (fm (fsIndex s))) <= maxForwardEntries →
  (∀ k v, fm (fsIndex s) !! k = Some v → createdAt v < now) →
  handleForwardRun env validURL send fault now sweepNow true ac authorization body s = (FedForwarded t st r u x, s') →
  (∀ th, RequireTenant env ac = inr th → TrimSpace t = TrimSpace th) ∧
  fsEvents s' = fsEvents s ∧ fsRegistry s' = fsRegistry s ∧
  (RequireTenant env reader = inr t → u ≠ "" →
   splitChar "/" (trimChar "/" (TrimPrefix path "/v1/federation/runs/")) = [r; "events"] →
   handleRunEvents env unmarshal marshal remote true reader path "" s' =
     match Proxy unmarshal 0 (remote u 0) with
     | (lines, None) => FedStream lines
     | (lines, Some _) => FedProxyFailed lines
     end).
Proof.
  intros Hsw Httl Hcap Hold Hh.
  apply handleForwardRun_inv in Hh as (reg & peer & th & tp & agentID & principal & req & _ & Hth & Hpt & _ & _ & -> & ->).
  split_and!; [|done|done|].
  - intros th' Ht. unfold headerTenant in Hth. rewrite Ht in Hth. injection Hth as ->.
    apply payloadTenant_bound in Hpt as (_ & Hb & _). apply Hb. intros ->.
    unfold RequireTenant in Ht. repeat case_decide; simplify_eq; done.
  - intros Hreader Hu Hpath. unfold handleRunEvents. cbn [negb]. unfold ResolveTenantHTTP.
    rewrite Hreader, Hpath. cbn -[Get Proxy].
    destruct (Set_entries fault now sweepNow t r (StackID peer) u (fsIndex s) Hsw Httl Hcap Hold) as (Hget & _).
    unfold Get. rewrite Hget. cbn -[Proxy]. by rewrite decide_False.
Qed.

(** ** Ingestion *)

Lemma ingestEvents_ok `{SeenRange} tenantID evs : ∀ acc rej st,
  store_inv st → ∃ acc' rej' st', ingestEvents tenantID evs acc rej st = Some (acc', rej', st') ∧ store_inv st' ∧
    acc' + rej' = acc + rej + Z.of_nat (length evs) ∧ acc <= acc' ∧ rej <= rej'.
Proof.
  induction evs as [|ev evs IH]; intros acc rej st Hst.
  { exists acc, rej, st. cbn. split_and!; [done|done|lia..]. }
  assert (∃ acc' rej' st', ingestEvents tenantID evs acc (rej + 1) st = Some (acc', rej', st') ∧ store_inv st' ∧
    acc' + rej' = acc + rej + Z.of_nat (length (ev :: evs)) ∧ acc <= acc' ∧ rej <= rej') as Hrej.
  { destruct (IH acc (rej + 1) st Hst) as (a & r & st' & ? & ? & ? & ? & ?).
    exists a, r, st'. cbn [length]. split_and!; [done|done|lia..]. }
  destruct ev; try exact Hrej. cbn [ingestEvents]. case_decide; [exact Hrej|].
  destruct (Ingest_ok tenantID (any_str "run_id" (default [] (eventOf m))) [m] st Hst) as (a & r & st1 & -> & Hst1 & Ha & Hr & Hs).
  cbn -[length]. destruct (IH (acc + a) (rej + r) st1 Hst1) as (a' & r' & st' & ? & ? & ? & ? & ?).
  exists a', r', st'. cbn [length] in *. split_and!; [done|done|lia..].
Qed.

(** The ingest handler always answers: whatever the body, it never panics,
    answers with an error without touching the server, or counts every event of
    the request as accepted or rejected and leaves the event store well formed. *)
Theorem ingest_handler_total `{SeenRange} (env : Environ) (isPost : bool) (ac : AuthContext) (body : option Envelope)
    (s : FedServer) :
  store_inv (fsEvents s) →
  let '(resp, s') := handleEventsIngest env isPost ac body s in
  store_inv (fsEvents s') ∧ fsIndex s' = fsIndex s ∧ fsRegistry s' = fsRegistry s ∧
  ((∃ d, resp = FedError d ∧ s' = s) ∨
   ∃ acc rej, resp = FedIngested acc rej ∧ 0 <= acc ∧ 0 <= rej ∧
     acc + rej = Z.of_nat (length (any_list "events" (default [] body)))).
Proof.
  intros Hs. unfold handleEventsIngest. destruct isPost; cbn; [|eauto 10].
  destruct (headerTenant env ac) as [d|th]; [eauto 10|]. destruct body as [req|]; [|cbn; eauto 10].
  destruct (any_map "auth" req) as [au|]; [|cbn; eauto 10].
  destruct (payloadTenant th (any_str "tenant_id" au)) as [d|t]; [eauto 10|].
  destruct (ingestEvents_ok t (any_list "events" req) 0 0 (fsEvents s) Hs) as (a & r & st & -> & Hst & Hsum & Ha & Hr).
  cbn. split_and!; [done|done|done|]. right. exists a, r. split_and!; [done|lia..].
Qed.

(** ** Examples *)

Definition sample_forwarder : Forwarder := {| FMaxAttempts := 3; BaseBackoff := 250 * Millisecond |}.

Definition sample_accept : Reply :=
  Replied 201 (Some [("run", AMap [("run_id", AStr "run_9"); ("events_url", AStr "/v1/runs/run_9/events")])]).

(** Unreachable, then overloaded, then accepted. *)
Definition sample_send (req : ForwardRequest) (attempt : Z) : Reply :=
  if decide (attempt = 1) then NoReply else if decide (attempt = 2) then Replied 503 None else sample_accept.

Lemma forward_run_exact_witness :
  ForwardRun sample_forwarder (λ _, true) sample_send "https://eu/" "bot" "acme" "ann" "" [] =
    (inr {| fwRunID := "run_9"; fwEventsURL := "https://eu/v1/runs/run_9/events"; fwStatus := "queued" |},
     {| requests := 3; sleeps := [250 * Millisecond; 500 * Millisecond] |}).
Proof.
  destruct (forward_run_exact sample_forwarder (λ _, true) sample_send "https://eu/" "bot" "acme" "ann" "" [] eq_refl) as [H _].
  rewrite (H 3); [vm_compute; reflexivity|vm_compute; by split| |reflexivity].
  intros j Hj. assert (j = 1 ∨ j = 2) as [->| ->] by lia; reflexivity.
Defined.

(** A token for tenant "other" and one for "acme": the ingested events are the same. *)
Definition token_for (t : string) : string → JWTParse := λ _, JWTParsed true t "site" "site" "idp" [] None None.

Definition sample_fed : FedServer := {|
  fsRegistry := Some (AddPeer {| StackID := "eu"; Environment := ""; Region := ""; APIVersions := [];
    PEndpoints := {| AgentOrchestratorBaseURL := "https://eu/"; ModelPolicyBaseURL := "" |};
    PBuild := {| BVersion := ""; GitSHA := ""; Timestamp := "" |} |} {| Local := zeroPeer; peers := ∅; health := ∅ |});
  fsForward := sample_forwarder; fsIndex := newForwardIndex; fsEvents := newEventStore
|}.

Definition sample_ingest : Envelope :=
  [("auth", AMap [("tenant_id", AStr "acme")]);
   ("events", AList [AMap [("event", AMap [("run_id", AStr "run_1"); ("event_id", AStr "e1"); ("sequence", AFloat 1)])]; ANil])].

Lemma token_tenant_ignored_witness :
  @ingestRequest elementsSeen no_env (Some (token_for "other")) no_tokens None (sample_header "" "tok") true (Some sample_ingest) sample_fed =
  @ingestRequest elementsSeen no_env (Some (token_for "acme")) no_tokens None (sample_header "" "tok") true (Some sample_ingest) sample_fed.
Proof. apply (@token_tenant_ignored elementsSeen). intros tok. cbn. split; eauto. Defined.

Example foreign_token_ingests :
  (@ingestRequest elementsSeen no_env (Some (token_for "other")) no_tokens None (sample_header "" "tok") true (Some sample_ingest) sample_fed).1
  = FedIngested 1 1.
Proof. vm_compute. reflexivity. Qed.

Lemma ingest_handler_total_witness :
  let '(resp, s') := @handleEventsIngest elementsSeen no_env true zeroAuth (Some sample_ingest) sample_fed in
  store_inv (fsEvents s') ∧ fsIndex s' = fsIndex sample_fed ∧ fsRegistry s' = fsRegistry sample_fed ∧
  ((∃ d, resp = FedError d ∧ s' = sample_fed) ∨
   ∃ acc rej, resp = FedIngested acc rej ∧ 0 <= acc ∧ 0 <= rej ∧ acc + rej = 2).
Proof. apply (@ingest_handler_total elementsSeen no_env true zeroAuth (Some sample_ingest)). apply newEventStore_inv. Defined.

Definition sample_forward : Envelope :=
  [("forward", AMap [("target_selector", AMap [("stack_id", AStr "eu")]); ("auth", AMap [("tenant_id", AStr "acme")]);
                     ("run_request", AMap [("agent_id", AStr "bot")])])].

Definition sample_remote (url : string) (from : Z) : list RemoteTry :=
  [RemoteAnswer 200 [("event: " +:+ url +:+ newline)%string] true].

Definition acme_reader : AuthContext := FromRequest (sample_header "acme" "").

Definition sample_forwarded : FedResponse * FedServer :=
  @handleForwardRun forwardOrder no_env (λ _, true) sample_send false 5 5 true acme_reader "" (Some sample_forward) sample_fed.

Lemma forward_then_watch_witness :
  handleRunEvents no_env sample_unmarshal sample_marshal sample_remote true acme_reader
    "/v1/federation/runs/run_9/events" "" sample_forwarded.2 =
  FedStream [("event: https://eu/v1/runs/run_9/events" +:+ newline)%string].
Proof.
  destruct (@forward_then_watch forwardOrder GoRange_map_to_list no_env (λ _, true) sample_send false 5 5 acme_reader ""
    (Some sample_forward) sample_fed sample_forwarded.2 "acme" "eu" "run_9" "https://eu/v1/runs/run_9/events" "queued"
    sample_unmarshal sample_marshal sample_remote acme_reader "/v1/federation/runs/run_9/events") as (_ & _ & _ & Hw).
  - lia.
  - unfold forwardEntryTTL, Hour, Minute, Second. lia.
  - vm_compute. done.
  - intros k v Hk. cbn in Hk. by apply lookup_empty_Some in Hk.
  - vm_compute. reflexivity.
  - rewrite Hw; [vm_compute; reflexivity|vm_compute; reflexivity|done|vm_compute; reflexivity].
Defined.
