(* ===== verification/AgentStore.v ===== *)
(** * AgentStore: agents and the history of their configurations

    internal/storage/agent_store.go (agents in memory and one file each) and
    internal/storage/postgres/agent_version_store.go (the in-memory history of
    configurations), with the labelling of snapshots by the handlers.

    A directory tree is a map from paths to decoded contents; whether a write or
    a removal fails is an input. *)
From S2P Require Import Prelude GoTime GoPath GoStrings Types Chat.

(** ** Agents *)

Inductive AgentError := AErrContext | ErrInvalidAgent | ErrAgentExists | ErrAgentNotFound | AErrIO.

(** A file below the directory of the store. *)
Inductive AgentFile := AFile (a : Agent) | AEmptyFile | AGarbled.

Record fileAgentStore := {
  adir : string;
  agents : gmap string Agent;
  adisk : gmap string AgentFile
}.

(** The order in which a map of agents is visited. *)
Class AgentRange := agent_range : gmap string Agent → list (string * Agent).

Definition agentStorageKey (tenantID agentID : string) : string := Join ["tenant"; tenantID; "agents"; agentID].

Definition validateAgent (a : Agent) : option AgentError :=
  if decide (AgentTenant a = "" ∨ AgentID_ a = "") then Some ErrInvalidAgent else None.

Definition writePath (dir tenantID agentID : string) : string := Join [Join [dir; tenantID]; agentID +:+ ".json"].

Definition persistAgent (fault : bool) (a : Agent) (s : fileAgentStore) : option AgentError * fileAgentStore :=
  if fault then (Some AErrIO, s)
  else (None, {| adir := adir s; agents := agents s;
                 adisk := <[writePath (adir s) (AgentTenant a) (AgentID_ a) := AFile a]> (adisk s) |}).

Definition putAgent (a : Agent) (s : fileAgentStore) : fileAgentStore :=
  {| adir := adir s; agents := <[agentStorageKey (AgentTenant a) (AgentID_ a) := a]> (agents s); adisk := adisk s |}.

Definition CreateAgent (cancelled fault : bool) (a : Agent) (s : fileAgentStore) : option AgentError * fileAgentStore :=
  if cancelled then (Some AErrContext, s)
  else match validateAgent a with
       | Some e => (Some e, s)
       | None =>
           if decide (is_Some (agents s !! agentStorageKey (AgentTenant a) (AgentID_ a)))
           then (Some ErrAgentExists, s)
           else persistAgent fault a (putAgent a s)
       end.

Definition GetAgent (cancelled : bool) (tenantID agentID : string) (s : fileAgentStore) : AgentError + option Agent :=
  if cancelled then inl AErrContext
  else if decide (tenantID = "" ∨ agentID = "") then inr None
  else inr (agents s !! agentStorageKey tenantID agentID).

Definition ListAgents `{AgentRange} (cancelled : bool) (tenantID : string) (s : fileAgentStore) : AgentError + list Agent :=
  if cancelled then inl AErrContext
  else if decide (tenantID = "") then inr []
  else inr (filter (λ a, AgentTenant a = tenantID) (agent_range (agents s)).*2).

Definition SaveAgent (cancelled fault : bool) (a : Agent) (s : fileAgentStore) : option AgentError * fileAgentStore :=
  if cancelled then (Some AErrContext, s)
  else match validateAgent a with
       | Some e => (Some e, s)
       | None => persistAgent fault a (putAgent a s)
       end.

Definition DeleteAgent (cancelled fault : bool) (tenantID agentID : string) (s : fileAgentStore) :
    option AgentError * fileAgentStore :=
  if cancelled then (Some AErrContext, s)
  else if decide (tenantID = "" ∨ agentID = "") then (Some ErrAgentNotFound, s)
  else
    let key := agentStorageKey tenantID agentID in
    match agents s !! key with
    | None => (Some ErrAgentNotFound, s)
    | Some _ =>
        let agents' := delete key (agents s) in
        if fault then (Some AErrIO, {| adir := adir s; agents := agents'; adisk := adisk s |})
        else (None, {| adir := adir s; agents := agents';
                       adisk := delete (Join [adir s; tenantID; agentID +:+ ".json"]) (adisk s) |})
    end.

(** One file of the walk: a file that is not JSON is an error. *)
Definition loadFile (m : option (gmap string Agent)) (f : string * AgentFile) : option (gmap string Agent) :=
  m ← m;
  if negb (HasSuffix f.1 ".json") then Some m
  else match f.2 with
       | AGarbled => None
       | AEmptyFile => Some m
       | AFile a =>
           if decide (AgentTenant a ≠ "" ∧ AgentID_ a ≠ "")
           then Some (<[agentStorageKey (AgentTenant a) (AgentID_ a) := a]> m) else Some m
       end.

(** The order in which the directory is walked. *)
Class FileRange := file_range : gmap string AgentFile → list (string * AgentFile).

Definition NewFileAgentStore `{FileRange} (dir : string) (disk : gmap string AgentFile) : option fileAgentStore :=
  let dir := if decide (dir = "") then Join ["data"; "agents"] else dir in
  m ← foldl loadFile (Some ∅) (file_range disk);
  Some {| adir := dir; agents := m; adisk := disk |}.

(** *** The abstract store: a map from tenant and agent to the agent *)

Inductive AgentOp :=
  | OpCreate (cancelled fault : bool) (a : Agent)
  | OpGet (cancelled : bool) (t a : string)
  | OpSave (cancelled fault : bool) (a : Agent)
  | OpDelete (cancelled fault : bool) (t a : string).

Definition answerUnit (e : option AgentError) : AgentError + option Agent :=
  match e with Some e => inl e | None => inr None end.

Definition agentStep (op : AgentOp) (s : fileAgentStore) : (AgentError + option Agent) * fileAgentStore :=
  match op with
  | OpCreate c f a => let '(e, s') := CreateAgent c f a s in (answerUnit e, s')
  | OpGet c t a => (GetAgent c t a s, s)
  | OpSave c f a => let '(e, s') := SaveAgent c f a s in (answerUnit e, s')
  | OpDelete c f t a => let '(e, s') := DeleteAgent c f t a s in (answerUnit e, s')
  end.

Abbreviation AgentMap := (gmap (string * string) Agent) (only parsing).

Definition written (fault : bool) : AgentError + option Agent := if fault then inl AErrIO else inr None.

Definition mapStep (op : AgentOp) (m : AgentMap) : (AgentError + option Agent) * AgentMap :=
  match op with
  | OpCreate true _ _ | OpGet true _ _ | OpSave true _ _ | OpDelete true _ _ _ => (inl AErrContext, m)
  | OpCreate false f a =>
      match m !! (AgentTenant a, AgentID_ a) with
      | Some _ => (inl ErrAgentExists, m)
      | None => (written f, <[(AgentTenant a, AgentID_ a) := a]> m)
      end
  | OpGet false t a => (inr (m !! (t, a)), m)
  | OpSave false f a => (written f, <[(AgentTenant a, AgentID_ a) := a]> m)
  | OpDelete false f t a =>
      match m !! (t, a) with
      | None => (inl ErrAgentNotFound, m)
      | Some _ => (written f, delete (t, a) m)
      end
  end.

(** Operations whose names are single path elements, as the handlers ensure. *)
Definition opNames (op : AgentOp) : string * string :=
  match op with
  | OpCreate _ _ a | OpSave _ _ a => (AgentTenant a, AgentID_ a)
  | OpGet _ t a | OpDelete _ _ t a => (t, a)
  end.

Definition opOk (op : AgentOp) : Prop := component (opNames op).1 = true ∧ component (opNames op).2 = true.

Definition opFaults (op : AgentOp) : bool :=
  match op with OpCreate _ f _ | OpSave _ f _ | OpDelete _ f _ _ => f | OpGet _ _ _ => false end.

Section agent_store.
Context (d : string) (ds : list string) (Hds : Forall (λ c, component c = true) (d :: ds)).

(** The file of an agent below the directory [d/ds]. *)
Definition agentFile (t a : string) : string := String.concat "/" ((d :: ds) ++ [t; a +:+ ".json"]).

Lemma agentStorageKey_inj t a t' a' :
  component t = true → component a = true → component t' = true → component a' = true →
  agentStorageKey t a = agentStorageKey t' a' → t = t' ∧ a = a'.
Proof.
  intros Ht Ha Ht' Ha'. unfold agentStorageKey.
  rewrite !Join_components by (repeat constructor; done).
  intros Heq%concat_components_inj; [by simplify_eq|done|done|repeat constructor; done..].
Qed.

Lemma below_ok t a : component t = true → component a = true →
  Forall (λ c, component c = true) ((d :: ds) ++ [t; a +:+ ".json"]).
Proof. intros. apply Forall_app. split; [done|]. repeat constructor; [done|]. by apply component_json. Qed.

Lemma writePath_eq t a : component t = true → component a = true →
  writePath (String.concat "/" (d :: ds)) t a = agentFile t a.
Proof.
  intros Ht Ha. unfold writePath, agentFile. pose proof (below_ok t a Ht Ha) as Hall.
  rewrite (Join_below d ds [t]) by (apply Forall_app; split; [done|by repeat constructor]).
  cbn [app]. rewrite (Join_below d (ds ++ [t]) [a +:+ ".json"]); cbn [app]; rewrite <-app_assoc; done.
Qed.

Lemma removePath_eq t a : component t = true → component a = true →
  Join [String.concat "/" (d :: ds); t; a +:+ ".json"] = agentFile t a.
Proof. intros Ht Ha. by apply Join_below, below_ok. Qed.

Lemma agentFile_inj t a t' a' :
  component t = true → component a = true → component t' = true → component a' = true →
  agentFile t a = agentFile t' a' → t = t' ∧ a = a'.
Proof.
  intros Ht Ha Ht' Ha' Heq%concat_components_inj; [|done|done|by apply below_ok..].
  apply app_inj_1 in Heq as [_ Heq]; [|done]. injection Heq as -> Heq%string_app_inj_r. done.
Qed.

Record storeRel (s : fileAgentStore) (m : AgentMap) : Prop := {
  rel_dir : adir s = String.concat "/" (d :: ds);
  rel_agents k x : agents s !! k = Some x ↔ ∃ t a, k = agentStorageKey t a ∧ m !! (t, a) = Some x;
  rel_keyed t a x : m !! (t, a) = Some x →
    AgentTenant x = t ∧ AgentID_ x = a ∧ component t = true ∧ component a = true
}.

(** The disk holds a file for every agent, and no other. *)
Definition diskRel (s : fileAgentStore) (m : AgentMap) : Prop :=
  ∀ p f, adisk s !! p = Some f ↔ ∃ t a x, p = agentFile t a ∧ m !! (t, a) = Some x ∧ f = AFile x.

Lemma rel_lookup s m t a :
  storeRel s m → component t = true → component a = true → agents s !! agentStorageKey t a = m !! (t, a).
Proof.
  intros [_ Hag Hk] Ht Ha. apply option_eq. intros x. rewrite Hag. split; [|eauto].
  intros (t' & a' & Heq & Hm). pose proof (Hk _ _ _ Hm) as (_ & _ & Ht' & Ha').
  by apply agentStorageKey_inj in Heq as [-> ->].
Qed.

Lemma rel_put s m a :
  storeRel s m → component (AgentTenant a) = true → component (AgentID_ a) = true →
  storeRel (putAgent a s) (<[(AgentTenant a, AgentID_ a) := a]> m).
Proof.
  intros Hrel Ht Ha. pose proof Hrel as [Hd Hag Hk]. split; [done| |].
  - intros k x. cbn. rewrite lookup_insert_Some, Hag. split.
    + intros [[<- <-]|(Hne & t' & a' & -> & Hm)]; [eexists _, _; by rewrite lookup_insert_eq|].
      exists t', a'. split; [done|]. rewrite lookup_insert_ne; [done|]. intros [= <- <-]. done.
    + intros (t' & a' & -> & Hm). apply lookup_insert_Some in Hm as [[[= <- <-] <-]|[Hne Hm]]; [by left|right].
      split; [|eauto]. intros Heq. pose proof (Hk _ _ _ Hm) as (_ & _ & ? & ?).
      apply agentStorageKey_inj in Heq as [? ?]; congruence.
  - intros t' a' x. rewrite lookup_insert_Some. intros [[[= <- <-] <-]|[_ Hm]]; eauto.
Qed.

Lemma rel_delete s m t a disk :
  storeRel s m → component t = true → component a = true →
  storeRel {| adir := adir s; agents := delete (agentStorageKey t a) (agents s); adisk := disk |} (delete (t, a) m).
Proof.
  intros Hrel Ht Ha. pose proof Hrel as [Hd Hag Hk]. split; [done| |].
  - intros k x. cbn. rewrite lookup_delete_Some, Hag. split.
    + intros (Hne & t' & a' & -> & Hm). exists t', a'. split; [done|]. apply lookup_delete_Some. split; [by intros [= <- <-]|done].
    + intros (t' & a' & -> & Hm). apply lookup_delete_Some in Hm as [Hne Hm]. split; [|eauto].
      intros Heq. pose proof (Hk _ _ _ Hm) as (_ & _ & ? & ?).
      apply agentStorageKey_inj in Heq as [? ?]; congruence.
  - intros t' a' x. rewrite lookup_delete_Some. intros [_ Hm]. eauto.
Qed.

Lemma rel_disk s m disk : storeRel s m → storeRel {| adir := adir s; agents := agents s; adisk := disk |} m.
Proof. by intros [? ? ?]. Qed.

Lemma disk_put s m a (m' := <[(AgentTenant a, AgentID_ a) := a]> m) ags :
  storeRel s m → diskRel s m → component (AgentTenant a) = true → component (AgentID_ a) = true →
  diskRel {| adir := adir s; agents := ags;
             adisk := <[writePath (adir s) (AgentTenant a) (AgentID_ a) := AFile a]> (adisk s) |} m'.
Proof.
  intros [Hd _ Hk] Hdisk Ht Ha p f. cbn [adisk]. rewrite Hd, writePath_eq by done.
  rewrite lookup_insert_Some, (Hdisk p f). unfold m'. split.
  - intros [[<- <-]|(Hne & t' & a' & x & -> & Hm & ->)]; [eexists _, _, _; by rewrite lookup_insert_eq|].
    exists t', a', x. split_and!; [done| |done]. rewrite lookup_insert_ne; [done|]. by intros [= <- <-].
  - intros (t' & a' & x & -> & Hm & ->). apply lookup_insert_Some in Hm as [[[= <- <-] <-]|[Hne Hm]]; [by left|right].
    split; [|eauto 10]. intros Heq. pose proof (Hk _ _ _ Hm) as (_ & _ & ? & ?).
    apply agentFile_inj in Heq as [? ?]; congruence.
Qed.

Lemma disk_delete s m t a ags :
  storeRel s m → diskRel s m → component t = true → component a = true →
  diskRel {| adir := adir s; agents := ags;
             adisk := delete (Join [adir s; t; a +:+ ".json"]) (adisk s) |} (delete (t, a) m).
Proof.
  intros [Hd _ Hk] Hdisk Ht Ha p f. cbn [adisk]. rewrite Hd, removePath_eq by done.
  rewrite lookup_delete_Some, (Hdisk p f). split.
  - intros (Hne & t' & a' & x & -> & Hm & ->). exists t', a', x. split_and!; [done| |done].
    apply lookup_delete_Some. split; [by intros [= <- <-]|done].
  - intros (t' & a' & x & -> & Hm & ->). apply lookup_delete_Some in Hm as [Hne Hm]. split; [|eauto 10].
    intros Heq. pose proof (Hk _ _ _ Hm) as (_ & _ & ? & ?). apply agentFile_inj in Heq as [? ?]; congruence.
Qed.

Lemma component_nonempty c : component c = true → c ≠ "".
Proof. rewrite component_spec. tauto. Qed.

(** One operation answers as the map does, and keeps the relations. *)
Lemma agentStep_sim op s m :
  opOk op → storeRel s m →
  (agentStep op s).1 = (mapStep op m).1 ∧ storeRel (agentStep op s).2 (mapStep op m).2 ∧
  (opFaults op = false → diskRel s m → diskRel (agentStep op s).2 (mapStep op m).2).
Proof.
  intros [Ht Ha] Hrel. destruct op as [[] f a|[] t a|[] f a|[] f t a]; try done; cbn in Ht, Ha; cbn [agentStep mapStep].
  - unfold CreateAgent, validateAgent. rewrite decide_False by (apply component_nonempty in Ht, Ha; tauto).
    rewrite (rel_lookup s m) by done. destruct (m !! (AgentTenant a, AgentID_ a)) as [x|] eqn:Hm.
    + rewrite decide_True by eauto. done.
    + rewrite decide_False by (by intros [? ?]). pose proof (rel_put s m a Hrel Ht Ha) as Hput.
      unfold persistAgent. destruct f; cbn; split_and!; try done; [by apply (rel_disk _ _ _ Hput)|].
      intros _ Hdisk. by apply (disk_put s).
  - unfold GetAgent. rewrite decide_False by (apply component_nonempty in Ht, Ha; tauto). by rewrite (rel_lookup s m).
  - unfold SaveAgent, validateAgent. rewrite decide_False by (apply component_nonempty in Ht, Ha; tauto).
    pose proof (rel_put s m a Hrel Ht Ha) as Hput.
    unfold persistAgent. destruct f; cbn; split_and!; try done; [by apply (rel_disk _ _ _ Hput)|].
    intros _ Hdisk. by apply (disk_put s).
  - unfold DeleteAgent. rewrite decide_False by (apply component_nonempty in Ht, Ha; tauto).
    rewrite (rel_lookup s m) by done. destruct (m !! (t, a)) as [x|] eqn:Hm; [|done].
    destruct f; cbn; split_and!; try done; try (by apply rel_delete). intros _ Hdisk. by apply (disk_delete s).
Qed.

Lemma loadFile_agent t a x m :
  AgentTenant x ≠ "" → AgentID_ x ≠ "" →
  loadFile (Some m) (agentFile t a, AFile x) = Some (<[agentStorageKey (AgentTenant x) (AgentID_ x) := x]> m).
Proof.
  intros Ht Ha. unfold loadFile. cbn [mbind option_bind fst snd].
  replace (HasSuffix (agentFile t a) ".json") with true; [cbn [negb]; by rewrite decide_True|].
  unfold agentFile. change [t; a +:+ ".json"] with ([t] ++ [a +:+ ".json"]).
  by rewrite app_assoc, concat_snoc_app, HasSuffix_app.
Qed.

(** Loading files that hold distinct agents. *)
Lemma foldl_loadFile l : ∀ m0,
  Forall (λ f, ∃ t a x, f = (agentFile t a, AFile x) ∧ AgentTenant x ≠ "" ∧ AgentID_ x ≠ "") l →
  NoDup ((λ f, match f.2 with AFile x => agentStorageKey (AgentTenant x) (AgentID_ x) | _ => "" end) <$> l) →
  ∃ m, foldl loadFile (Some m0) l = Some m ∧
    ∀ k x, m !! k = Some x ↔
      (∃ p, (p, AFile x) ∈ l ∧ k = agentStorageKey (AgentTenant x) (AgentID_ x)) ∨
      (m0 !! k = Some x ∧ ∀ p y, (p, AFile y) ∈ l → k ≠ agentStorageKey (AgentTenant y) (AgentID_ y)).
Proof.
  induction l as [|f l IH]; intros m0 Hl Hnd.
  { exists m0. split; [done|]. intros k x. split; [intros; right; split; [done|]; by intros ? ? ?%not_elem_of_nil|].
    intros [(p & Hp & _)|[? _]]; [by apply not_elem_of_nil in Hp|done]. }
  apply Forall_cons in Hl as [(t & a & x0 & -> & Hx1 & Hx2) Hl]. cbn in Hnd. apply NoDup_cons in Hnd as [Hnin Hnd].
  cbn [foldl]. rewrite loadFile_agent by done.
  set (k0 := agentStorageKey (AgentTenant x0) (AgentID_ x0)) in *.
  destruct (IH (<[k0 := x0]> m0) Hl Hnd) as (m & -> & Hm). exists m. split; [done|]. intros k x. rewrite Hm.
  assert (∀ p y, (p, AFile y) ∈ l → k0 ≠ agentStorageKey (AgentTenant y) (AgentID_ y)) as Hk0.
  { intros p y Hp Heq. apply Hnin. apply list_elem_of_fmap. exists (p, AFile y). done. }
  split.
  - intros [(p & Hp & ->)|[Hi Hn]]; [left; exists p; set_solver|].
    apply lookup_insert_Some in Hi as [[<- <-]|[Hne Hi]]; [left; eexists; split; [left|done]|right].
    split; [done|]. intros p y [[= _ Hy]|Hp]%elem_of_cons; [rewrite Hy; by apply not_eq_sym|eauto].
  - intros [(p & [[= _ Hx]|Hp]%elem_of_cons & ->)|[Hi Hn]]; [rewrite Hx|..].
    + right. split; [apply lookup_insert_eq|exact Hk0].
    + left. eauto.
    + right. split; [|intros; eapply Hn; by right]. rewrite lookup_insert_ne; [done|].
      intros <-. eapply (Hn (agentFile t a) x0); [left|done].
Qed.

Lemma restart_rel `{FileRange, !GoRange file_range} s m :
  storeRel s m → diskRel s m →
  ∃ s', NewFileAgentStore (String.concat "/" (d :: ds)) (adisk s) = Some s' ∧ storeRel s' m ∧ diskRel s' m.
Proof.
  intros Hrel Hdisk. pose proof Hrel as [Hd Hag Hk].
  assert (∀ p f, (p, f) ∈ file_range (adisk s) ↔ ∃ t a x, p = agentFile t a ∧ m !! (t, a) = Some x ∧ f = AFile x) as Hfr
    by (intros p f; by rewrite (elem_of_range file_range), (Hdisk p f)).
  assert (Forall (λ f, ∃ t a x, f = (agentFile t a, AFile x) ∧ AgentTenant x ≠ "" ∧ AgentID_ x ≠ "")
    (file_range (adisk s))) as Hall.
  { apply Forall_forall. intros [p f] (t & a & x & -> & Hm & ->)%Hfr.
    apply Hk in Hm as (<- & <- & ?%component_nonempty & ?%component_nonempty). eauto 10. }
  assert (NoDup ((λ f, match f.2 with AFile x => agentStorageKey (AgentTenant x) (AgentID_ x) | _ => "" end)
    <$> file_range (adisk s))) as Hnd.
  { apply NoDup_fmap_2_strong.
    - intros [p f] [p' f'] (t & a & x & -> & Hm & ->)%Hfr (t' & a' & x' & -> & Hm' & ->)%Hfr. cbn. intros Heq.
      pose proof (Hk _ _ _ Hm) as (<- & <- & ? & ?). pose proof (Hk _ _ _ Hm') as (<- & <- & ? & ?).
      apply agentStorageKey_inj in Heq as [Ht Ha]; [|done..]. rewrite Ht, Ha in Hm. rewrite Hm in Hm'. by injection Hm' as ->.
    - pose proof (NoDup_range_fst file_range (adisk s)) as Hn. by apply NoDup_fmap_1 in Hn. }
  destruct (foldl_loadFile (file_range (adisk s)) ∅ Hall Hnd) as (ags & Hl & Hags).
  unfold NewFileAgentStore. rewrite Hl. rewrite decide_False; cycle 1.
  { apply Forall_cons in Hds as [(_ & Hne & _)%component_spec _]. destruct d; [done|]. by destruct ds. }
  cbn [mbind option_bind]. eexists. split; [done|]. split; [|exact Hdisk].
  split; [done| |done]. intros k x. cbn. rewrite Hags. split.
  - intros [(p & (t & a & y & -> & Hm & [= <-])%Hfr & ->)|[Hn _]]; [|by apply lookup_empty_Some in Hn].
    pose proof (Hk _ _ _ Hm) as (<- & <- & _). eauto.
  - intros (t & a & -> & Hm). left. exists (agentFile t a). split; [apply Hfr; eauto 10|].
    by pose proof (Hk _ _ _ Hm) as (-> & -> & _).
Qed.

(** Listing gives exactly the agents of the tenant. *)
Lemma ListAgents_rel `{AgentRange, !GoRange agent_range} s m t :
  t ≠ "" → storeRel s m →
  ∃ l, ListAgents false t s = inr l ∧ NoDup l ∧ ∀ x, x ∈ l ↔ ∃ a, m !! (t, a) = Some x.
Proof.
  intros Hne Hrel. unfold ListAgents. rewrite decide_False by done. eexists. split; [done|].
  pose proof Hrel as [_ Hag Hk].
  assert (∀ x, x ∈ (agent_range (agents s)).*2 ↔ ∃ t a, m !! (t, a) = Some x) as Hel.
  { intros x. rewrite list_elem_of_fmap. split.
    - intros ([k y] & -> & Hin). apply (elem_of_range agent_range), Hag in Hin as (t' & a & _ & Hm). eauto.
    - intros (t' & a & Hm). exists (agentStorageKey t' a, x). split; [done|].
      apply (elem_of_range agent_range), Hag. eauto. }
  split.
  + apply NoDup_filter. apply NoDup_fmap_2_strong.
    * intros [k x] [k' x'] Hin Hin' Heq. cbn in Heq. subst x'.
      apply (elem_of_range agent_range), Hag in Hin as (t1 & a1 & -> & Hm1).
      apply (elem_of_range agent_range), Hag in Hin' as (t2 & a2 & -> & Hm2).
      by pose proof (Hk _ _ _ Hm1) as (<- & <- & _); pose proof (Hk _ _ _ Hm2) as (<- & <- & _).
    * pose proof (NoDup_range_fst agent_range (agents s)) as Hn. by apply NoDup_fmap_1 in Hn.
  + intros x. rewrite list_elem_of_filter, Hel. split.
    * intros [Ht (t' & a & Hm)]. pose proof (Hk _ _ _ Hm) as (<- & _). subst t. eauto.
    * intros (a & Hm). pose proof (Hk _ _ _ Hm) as (<- & _). eauto.
Qed.

Definition emptyAgentStore : fileAgentStore := {| adir := String.concat "/" (d :: ds); agents := ∅; adisk := ∅ |}.

Lemma emptyAgentStore_rel : storeRel emptyAgentStore ∅ ∧ diskRel emptyAgentStore ∅.
Proof.
  split; [split; [done| |]|]; cbn.
  - intros k x. rewrite lookup_empty. split; [done|]. intros (t & a & _ & Hm). by apply lookup_empty_Some in Hm.
  - intros t a x Hm. by apply lookup_empty_Some in Hm.
  - intros p f. cbn. rewrite lookup_empty. split; [done|]. intros (t & a & x & _ & Hm & _). by apply lookup_empty_Some in Hm.
Qed.

(** The agent store is a map from tenant and agent name to the agent: for names
    that are single path elements, every history of creations, reads, updates and
    deletions answers as that map does, failing writes included; listing a tenant
    gives exactly its agents; and when no write failed, a restarted store holds the
    same map. *)
Theorem agent_store_refines_map `{AgentRange, !GoRange agent_range} `{FileRange, !GoRange file_range}
    (ops : list AgentOp) :
  Forall opOk ops →
  let '(answers, s) := trace agentStep emptyAgentStore ops in
  let '(expected, m) := trace mapStep ∅ ops in
  answers = expected ∧
  (∀ t, t ≠ "" → ∃ l, ListAgents false t s = inr l ∧ NoDup l ∧
     ∀ x, x ∈ l ↔ ∃ a, m !! (t, a) = Some x) ∧
  (Forall (λ op, opFaults op = false) ops → ∃ s', NewFileAgentStore (adir emptyAgentStore) (adisk s) = Some s' ∧
     ∀ t a, component t = true → component a = true → GetAgent false t a s' = inr (m !! (t, a))).
Proof.
  intros Hops. rewrite Forall_forall in Hops.
  pose proof emptyAgentStore_rel as [Hr0 Hd0].
  pose proof (trace_sim agentStep mapStep storeRel ops emptyAgentStore ∅) as Hsim.
  assert (Forall (λ op, opFaults op = false) ops →
    storeRel (trace agentStep emptyAgentStore ops).2 (trace mapStep ∅ ops).2 ∧
    diskRel (trace agentStep emptyAgentStore ops).2 (trace mapStep ∅ ops).2) as Hdisk.
  { intros Hf. rewrite Forall_forall in Hf.
    apply (trace_sim agentStep mapStep (λ s m, storeRel s m ∧ diskRel s m)); [|done].
    intros op s m Hin [Hr Hd]. destruct (agentStep_sim op s m (Hops op Hin) Hr) as (? & ? & Hd'). auto. }
  destruct Hsim as [Hans Hrel]; [|done|].
  { intros op s m Hin Hr. by destruct (agentStep_sim op s m (Hops op Hin) Hr) as (? & ? & _). }
  destruct (trace agentStep emptyAgentStore ops) as [answers s], (trace mapStep ∅ ops) as [expected m]. cbn [fst snd] in *.
  split_and!; [done| |].
  - intros t Hne. by apply ListAgents_rel.
  - intros Hf. destruct (Hdisk Hf) as [_ Hd]. destruct (restart_rel s m Hrel Hd) as (s' & Hs' & Hr' & _).
    exists s'. split; [done|]. intros t a Ht Ha. unfold GetAgent.
    rewrite decide_False by (apply component_nonempty in Ht, Ha; tauto). by rewrite (rel_lookup s' m).
Qed.

End agent_store.

(** ** Version history *)

(** The configuration as stored: the JSON of nothing, of a configuration, or
    text that does not decode. *)
Inductive RawConfig := CfgNull | CfgJSON (c : AgentConfig) | CfgGarbled.

Definition marshalConfig (c : option AgentConfig) : RawConfig :=
  match c with None => CfgNull | Some c => CfgJSON c end.

Record AgentVersion := {
  vID : Z; vTenantID : string; vAgentID : string; vVersion : string; vConfig : RawConfig;
  vCreatedBy : string; vCreatedAt : string
}.

Definition maxVersionsPerAgent : Z := 1000.

Record versionStore := { versions : gmap string (list AgentVersion); nextID : Z }.

Definition NewMemoryAgentVersionStore : versionStore := {| versions := ∅; nextID := 1 |}.

Definition agentVersionKey (tenantID agentID : string) : string := tenantID +:+ "/" +:+ agentID.

Inductive VersionError := VErrContext | VErrInvalid.

Definition CreateSnapshot (cancelled : bool) (now tenantID agentID version createdBy : string) (config : RawConfig)
    (s : versionStore) : option VersionError * versionStore :=
  if cancelled then (Some VErrContext, s)
  else if decide (tenantID = "" ∨ agentID = "" ∨ version = "") then (Some VErrInvalid, s)
  else
    let key := agentVersionKey tenantID agentID in
    let av := {| vID := nextID s; vTenantID := tenantID; vAgentID := agentID; vVersion := version; vConfig := config;
                 vCreatedBy := createdBy; vCreatedAt := now |} in
    let vs := go_get [] (versions s) key ++ [av] in
    let vs := if bool_decide (maxVersionsPerAgent < Z.of_nat (length vs))
              then drop (Z.to_nat (Z.of_nat (length vs) - maxVersionsPerAgent)) vs else vs in
    (None, {| versions := <[key := vs]> (versions s); nextID := nextID s + 1 |}).

Definition olderVersion (a b : AgentVersion) : Prop := vID a <= vID b.

#[global] Instance olderVersion_dec a b : Decision (olderVersion a b).
Proof. unfold olderVersion. apply _. Defined.

Definition ListVersions `{SliceSort} (cancelled : bool) (tenantID agentID : string) (limit afterID : Z) (s : versionStore) :
    VersionError + (list AgentVersion * bool) :=
  if cancelled then inl VErrContext
  else if decide (tenantID = "" ∨ agentID = "") then inr ([], false)
  else
    let limit := if bool_decide (limit <= 0) then 20 else limit in
    let limit := if bool_decide (200 < limit) then 200 else limit in
    let filtered := sortSlice olderVersion
      (filter (λ v, afterID < vID v) (go_get [] (versions s) (agentVersionKey tenantID agentID))) in
    let hasMore := bool_decide (limit < Z.of_nat (length filtered)) in
    inr (if hasMore then take (Z.to_nat limit) filtered else filtered, hasMore).

(** The newest snapshot with the label. *)
Definition GetVersion (cancelled : bool) (tenantID agentID version : string) (s : versionStore) :
    VersionError + option AgentVersion :=
  if cancelled then inl VErrContext
  else if decide (tenantID = "" ∨ agentID = "" ∨ version = "") then inr None
  else inr (head (filter (λ v, vVersion v = version)
                    (reverse (go_get [] (versions s) (agentVersionKey tenantID agentID))))).

Definition CountVersions (cancelled : bool) (tenantID agentID : string) (s : versionStore) : VersionError + Z :=
  if cancelled then inl VErrContext
  else if decide (tenantID = "" ∨ agentID = "") then inr 0
  else inr (Z.of_nat (length (go_get [] (versions s) (agentVersionKey tenantID agentID)))).

(** What the handlers do after an update or a rollback: the next label is the
    number of snapshots plus one. *)
Definition snapshotNext (cancelled : bool) (now tenantID agentID createdBy : string) (config : RawConfig)
    (s : versionStore) : versionStore :=
  match CountVersions cancelled tenantID agentID s with
  | inl _ => s
  | inr count => (CreateSnapshot cancelled now tenantID agentID ("v" +:+ pretty (count + 1)) createdBy config s).2
  end.

Lemma snapshotNext_versions now t a by_ cfg s :
  t ≠ "" → a ≠ "" →
  let vs := go_get [] (versions s) (agentVersionKey t a) in
  let vs' := go_get [] (versions (snapshotNext false now t a by_ cfg s)) (agentVersionKey t a) in
  ∃ v, vConfig v = cfg ∧ vVersion v = "v" +:+ pretty (Z.of_nat (length vs) + 1) ∧
    vs' = drop (length vs + 1 - Z.to_nat maxVersionsPerAgent) (vs ++ [v]).
Proof.
  intros Ht Ha. cbv zeta. unfold snapshotNext, CountVersions, CreateSnapshot.
  rewrite !decide_False by tauto. cbn [snd]. rewrite decide_False by (intros [?|[?|Hv]]; [done..|by inversion Hv]).
  set (vs := go_get [] (versions s) (agentVersionKey t a)). cbn [versions snd]. rewrite go_get_insert, decide_True by done.
  set (av := {| vID := _ |}). exists av. split_and!; [done|done|]. rewrite length_app. cbn [length].
  case_bool_decide as Hc; [f_equal; unfold maxVersionsPerAgent in *; lia|].
  replace (length vs + 1 - Z.to_nat maxVersionsPerAgent)%nat with 0%nat by (unfold maxVersionsPerAgent in *; lia). done.
Qed.

(** The history after snapshots of the given configurations. *)
Definition snapshots (t a : string) (cfgs : list RawConfig) (s : versionStore) : versionStore :=
  foldl (λ s cfg, snapshotNext false "" t a "" cfg s) s cfgs.

Lemma snapshots_length t a cfgs s :
  t ≠ "" → a ≠ "" → (length (go_get [] (versions s) (agentVersionKey t a)) ≤ 1000)%nat →
  (length (go_get [] (versions (snapshots t a cfgs s)) (agentVersionKey t a)) =
    Nat.min 1000 (length (go_get [] (versions s) (agentVersionKey t a)) + length cfgs))%nat.
Proof.
  intros Ht Ha. revert s. induction cfgs as [|cfg cfgs IH]; intros s Hl; cbn [length]; [cbn [snapshots foldl]; lia|].
  cbn [snapshots foldl].
  destruct (snapshotNext_versions "" t a "" cfg s Ht Ha) as (v & _ & _ & Hvs).
  assert (length (go_get [] (versions (snapshotNext false "" t a "" cfg s)) (agentVersionKey t a)) =
    Nat.min 1000 (length (go_get [] (versions s) (agentVersionKey t a)) + 1))%nat as Hl'.
  { rewrite Hvs, length_drop, length_app. cbn [length]. unfold maxVersionsPerAgent. lia. }
  change (foldl _ _ cfgs) with (snapshots t a cfgs (snapshotNext false "" t a "" cfg s)). rewrite IH by lia. lia.
Qed.

(** The history of an agent never exceeds 1000 snapshots, and once it is full
    every further snapshot gets the same label, v1001: whatever was saved before
    under that label can no longer be rolled back to. *)
Theorem version_labels_collide (t a : string) (cfgs : list RawConfig) (first second : RawConfig) (s : versionStore) :
  t ≠ "" → a ≠ "" → versions s !! agentVersionKey t a = None → (1000 ≤ length cfgs)%nat →
  let s1 := snapshots t a (cfgs ++ [first]) s in
  let s2 := snapshots t a (cfgs ++ [first; second]) s in
  length (go_get [] (versions s2) (agentVersionKey t a)) = 1000%nat ∧
  (∃ v, GetVersion false t a "v1001" s1 = inr (Some v) ∧ vConfig v = first) ∧
  (∃ v, GetVersion false t a "v1001" s2 = inr (Some v) ∧ vConfig v = second).
Proof.
  intros Ht Ha Hn Hlen. cbv zeta.
  assert (go_get [] (versions s) (agentVersionKey t a) = []) as H0 by (unfold go_get; by rewrite Hn).
  assert (∀ cfgs' cfg s0, (length (go_get [] (versions s0) (agentVersionKey t a)) = 1000)%nat →
    s0 = snapshots t a cfgs' s →
    (∃ v, GetVersion false t a "v1001" (snapshots t a (cfgs' ++ [cfg]) s) = inr (Some v) ∧ vConfig v = cfg) ∧
    (length (go_get [] (versions (snapshots t a (cfgs' ++ [cfg]) s)) (agentVersionKey t a)) = 1000)%nat) as Hone.
  { intros cfgs' cfg s0 Hl ->. unfold snapshots. rewrite foldl_app. cbn [foldl].
    fold (snapshots t a cfgs' s). set (s0 := snapshots t a cfgs' s) in *.
    destruct (snapshotNext_versions "" t a "" cfg s0 Ht Ha) as (v & Hc & Hv & Hvs). rewrite Hl in Hv, Hvs.
    split; [|rewrite Hvs, length_drop, length_app, Hl; done].
    exists v. split; [|done]. unfold GetVersion. rewrite decide_False by (intros [?|[?|Hx]]; done).
    do 2 f_equal. rewrite Hvs, drop_app_le by (rewrite Hl; unfold maxVersionsPerAgent; lia).
    rewrite reverse_snoc, filter_cons_True by (rewrite Hv; vm_compute; done). done. }
  assert (length (go_get [] (versions (snapshots t a cfgs s)) (agentVersionKey t a)) = 1000%nat) as Hfull.
  { rewrite snapshots_length by (done || rewrite H0; cbn [length]; lia). rewrite H0. cbn [length]. lia. }
  destruct (Hone cfgs first _ Hfull eq_refl) as [Hv1 Hl1].
  destruct (Hone (cfgs ++ [first]) second _ Hl1 eq_refl) as [Hv2 Hl2].
  rewrite <-app_assoc in Hv2, Hl2. cbn in Hv2, Hl2. done.
Qed.

(** ** Witnesses *)

Definition allAgents : AgentRange := map_to_list.
Definition allFiles : FileRange := map_to_list.

Definition sample_agent_ops : list AgentOp :=
  [OpCreate false false (bareAgent "acme" "bot"); OpCreate false false (bareAgent "acme" "bot");
   OpSave false false (bareAgent "acme" "cat"); OpGet false "acme" "cat"; OpDelete false false "acme" "cat";
   OpGet false "acme" "cat"; OpDelete false false "acme" "cat"].

Lemma agent_store_refines_map_witness :
  (trace mapStep ∅ sample_agent_ops).1 =
    [inr None; inl ErrAgentExists; inr None; inr (Some (bareAgent "acme" "cat")); inr None; inr None;
     inl ErrAgentNotFound] ∧
  (trace agentStep (emptyAgentStore "data" ["agents"]) sample_agent_ops).1 = (trace mapStep ∅ sample_agent_ops).1.
Proof.
  split; [vm_compute; reflexivity|].
  pose proof (@agent_store_refines_map "data" ["agents"] ltac:(repeat constructor) allAgents GoRange_map_to_list
    allFiles GoRange_map_to_list sample_agent_ops) as H.
  destruct (trace agentStep _ _) as [answers s], (trace mapStep _ _) as [expected m]. apply H.
  unfold sample_agent_ops. repeat apply Forall_cons_2; try apply Forall_nil_2; split; vm_compute; reflexivity.
Defined.

Lemma version_labels_collide_witness :
  let cfgs := replicate 1000 CfgNull in
  let s1 := snapshots "acme" "bot" (cfgs ++ [CfgGarbled]) NewMemoryAgentVersionStore in
  let s2 := snapshots "acme" "bot" (cfgs ++ [CfgGarbled; CfgNull]) NewMemoryAgentVersionStore in
  length (go_get [] (versions s2) (agentVersionKey "acme" "bot")) = 1000%nat ∧
  (∃ v, GetVersion false "acme" "bot" "v1001" s1 = inr (Some v) ∧ vConfig v = CfgGarbled) ∧
  (∃ v, GetVersion false "acme" "bot" "v1001" s2 = inr (Some v) ∧ vConfig v = CfgNull).
Proof.
  apply (version_labels_collide "acme" "bot" (replicate 1000 CfgNull) CfgGarbled CfgNull NewMemoryAgentVersionStore);
    [done|done|reflexivity|]. by rewrite length_replicate.
Defined.
