(* ===== verification/KVStore.v ===== *)
(** * KVStore: key-value data of agents, and tenants

    internal/storage/file_kv_store.go with the checks of internal/types/storage.go
    (one file of keys and values per agent), and internal/tenants/store.go.

    The disk is a map from paths to decoded contents; whether a write fails is an
    input, and the assignment into a nil map that a file holding [null] leads to
    is a panic ([None]). *)
From S2P Require Import Prelude GoTime GoPath GoStrings.

(** ** Keys and values *)

Inductive KVError := KErrContext | KErrIdentity | ErrInvalidKey | ErrKeyTooLong | ErrValueTooLarge | ErrMaxKeysExceeded
  | KErrRead | KErrWrite.

Definition keyChar (c : ascii) : bool :=
  let n := nat_of_ascii c in
  bool_decide ((97 ≤ n ≤ 122)%nat ∨ (65 ≤ n ≤ 90)%nat ∨ (48 ≤ n ≤ 57)%nat ∨ n = 45%nat ∨ n = 95%nat ∨ n = 46%nat).

Definition ValidateKey (key : string) : option KVError :=
  if decide (key = "") then Some ErrInvalidKey
  else if bool_decide (256 < String.length key)%nat then Some ErrKeyTooLong
  else if negb (stringForall keyChar key) then Some ErrInvalidKey
  else None.

Definition ValidateValueSize (value : string) (maxSize : Z) : option KVError :=
  if bool_decide (maxSize < Z.of_nat (String.length value)) then Some ErrValueTooLarge else None.

(** ** The store *)

Inductive KVFile := KVData (m : gmap string string) | KVNull | KVEmpty | KVGarbled | KVUnreadable.

Record fileKVStore := {
  kvDir : string;
  maxValueSize : Z;
  maxKeysPerAgent : Z;
  kvDisk : gmap string KVFile
}.

Definition defaultMaxValueSize : Z := 65536.
Definition defaultMaxKeysPerAgent : Z := 1000.

Definition NewFileKVStore (dataDir : string) (maxValueSize maxKeysPerAgent : Z) (disk : gmap string KVFile) : fileKVStore := {|
  kvDir := if decide (dataDir = "") then Join ["data"; "kv"] else dataDir;
  maxValueSize := if bool_decide (maxValueSize <= 0) then defaultMaxValueSize else maxValueSize;
  maxKeysPerAgent := if bool_decide (maxKeysPerAgent <= 0) then defaultMaxKeysPerAgent else maxKeysPerAgent;
  kvDisk := disk
|}.

Definition filePath (tenantID agentID : string) (s : fileKVStore) : string := Join [kvDir s; tenantID; agentID +:+ ".json"].

(** The decoded file; [inr None] is the nil map. *)
Definition loadLocked (tenantID agentID : string) (s : fileKVStore) : KVError + option (gmap string string) :=
  match kvDisk s !! filePath tenantID agentID s with
  | None | Some KVEmpty => inr (Some ∅)
  | Some KVUnreadable | Some KVGarbled => inl KErrRead
  | Some KVNull => inr None
  | Some (KVData m) => inr (Some m)
  end.

Definition persistLocked (fault : bool) (tenantID agentID : string) (data : option (gmap string string)) (s : fileKVStore) :
    option KVError * fileKVStore :=
  if fault then (Some KErrWrite, s)
  else
    let content := match data with Some m => KVData m | None => KVNull end in
    (None, {| kvDir := kvDir s; maxValueSize := maxValueSize s; maxKeysPerAgent := maxKeysPerAgent s;
              kvDisk := <[filePath tenantID agentID s := content]> (kvDisk s) |}).

Definition Get (cancelled : bool) (tenantID agentID key : string) (s : fileKVStore) : KVError + option string :=
  if cancelled then inl KErrContext
  else match ValidateKey key with
       | Some e => inl e
       | None => match loadLocked tenantID agentID s with
                 | inl e => inl e
                 | inr data => inr (data ≫= λ m, m !! key)
                 end
       end.

Definition Set_ (cancelled fault : bool) (tenantID agentID key value : string) (s : fileKVStore) :
    option (option KVError * fileKVStore) :=
  if cancelled then Some (Some KErrContext, s)
  else if decide (tenantID = "" ∨ agentID = "") then Some (Some KErrIdentity, s)
  else match ValidateKey key with
  | Some e => Some (Some e, s)
  | None =>
  match ValidateValueSize value (maxValueSize s) with
  | Some e => Some (Some e, s)
  | None =>
  match loadLocked tenantID agentID s with
  | inl e => Some (Some e, s)
  | inr data =>
      let m := default ∅ data in
      if decide (m !! key = None ∧ maxKeysPerAgent s <= Z.of_nat (size m)) then Some (Some ErrMaxKeysExceeded, s)
      else match data with
           | None => None
           | Some m => Some (persistLocked fault tenantID agentID (Some (<[key := value]> m)) s)
           end
  end
  end
  end.

Definition Delete (cancelled fault : bool) (tenantID agentID key : string) (s : fileKVStore) :
    option KVError * fileKVStore :=
  if cancelled then (Some KErrContext, s)
  else match ValidateKey key with
       | Some e => (Some e, s)
       | None => match loadLocked tenantID agentID s with
                 | inl e => (Some e, s)
                 | inr data => persistLocked fault tenantID agentID (delete key <$> data) s
                 end
       end.

Class KeyRange := kv_range : gmap string string → list (string * string).

Definition ListKeys `{KeyRange, SliceSort} (cancelled : bool) (tenantID agentID : string) (s : fileKVStore) :
    KVError + list string :=
  if cancelled then inl KErrContext
  else if decide (tenantID = "" ∨ agentID = "") then inr []
  else match loadLocked tenantID agentID s with
       | inl e => inl e
       | inr data => inr (sortSlice String.le (kv_range (default ∅ data)).*1)
       end.

(** ** What it promises: a bounded map per agent *)

Inductive KVOp :=
  | OpGet (t a k : string)
  | OpSet (fault : bool) (t a k v : string)
  | OpDelete (fault : bool) (t a k : string).

(** The panic of a step is an answer of its own. *)
Definition kvStep (op : KVOp) (s : fileKVStore) : option (KVError + option string) * fileKVStore :=
  let unit_answer (e : option KVError) : KVError + option string := match e with Some e => inl e | None => inr None end in
  match op with
  | OpGet t a k => (Some (Get false t a k s), s)
  | OpSet f t a k v => match Set_ false f t a k v s with
                       | None => (None, s)
                       | Some (e, s') => (Some (unit_answer e), s')
                       end
  | OpDelete f t a k => let '(e, s') := Delete false f t a k s in (Some (unit_answer e), s')
  end.

Abbreviation KVMaps := (gmap (string * string) (gmap string string)) (only parsing).

Definition written (fault : bool) : option (KVError + option string) :=
  Some (if fault then inl KErrWrite else inr None).

Definition specStep (maxValue maxKeys : Z) (op : KVOp) (m : KVMaps) : option (KVError + option string) * KVMaps :=
  match op with
  | OpGet t a k =>
      (Some (match ValidateKey k with Some e => inl e | None => inr (go_get ∅ m (t, a) !! k) end), m)
  | OpSet f t a k v =>
      match ValidateKey k, ValidateValueSize v maxValue with
      | Some e, _ | None, Some e => (Some (inl e), m)
      | None, None =>
          let data := go_get ∅ m (t, a) in
          if decide (data !! k = None ∧ maxKeys <= Z.of_nat (size data)) then (Some (inl ErrMaxKeysExceeded), m)
          else (written f, if f then m else <[(t, a) := <[k := v]> data]> m)
      end
  | OpDelete f t a k =>
      match ValidateKey k with
      | Some e => (Some (inl e), m)
      | None => (written f, if f then m else <[(t, a) := delete k (go_get ∅ m (t, a))]> m)
      end
  end.

Definition opOk (op : KVOp) : Prop :=
  match op with OpGet t a _ | OpSet _ t a _ _ | OpDelete _ t a _ => component t = true ∧ component a = true end.

Section kv.
Context (d : string) (ds : list string) (Hds : Forall (λ c, component c = true) (d :: ds)).
Context (maxValue maxKeys : Z) (Hkeys : 0 < maxKeys).

Record kvRel (s : fileKVStore) (m : KVMaps) : Prop := {
  kv_dir : kvDir s = String.concat "/" (d :: ds);
  kv_max : maxValueSize s = maxValue ∧ maxKeysPerAgent s = maxKeys;
  kv_files t a : component t = true → component a = true →
    loadLocked t a s = inr (Some (go_get ∅ m (t, a)));
  kv_bounds ta data : m !! ta = Some data → Z.of_nat (size data) <= maxKeys ∧
    map_Forall (λ k v, ValidateKey k = None ∧ Z.of_nat (String.length v) <= maxValue) data
}.

Lemma filePath_inj t a t' a' s :
  kvDir s = String.concat "/" (d :: ds) →
  component t = true → component a = true → component t' = true → component a' = true →
  filePath t a s = filePath t' a' s → t = t' ∧ a = a'.
Proof.
  intros Hd Ht Ha Ht' Ha'. unfold filePath. rewrite Hd.
  assert (∀ t a, component t = true → component a = true →
    Forall (λ c, component c = true) ((d :: ds) ++ [t; a +:+ ".json"])) as Hok.
  { intros. apply Forall_app. split; [done|]. repeat constructor; [done|]. by apply component_json. }
  rewrite !(Join_below d ds) by (by apply Hok).
  intros Heq%concat_components_inj; [|done|done|by apply Hok..].
  apply app_inj_1 in Heq as [_ Heq]; [|done]. injection Heq as -> Heq%string_app_inj_r. done.
Qed.

Lemma go_get_bounds s m ta : kvRel s m → Z.of_nat (size (go_get ∅ m ta)) <= maxKeys ∧
  map_Forall (λ k v, ValidateKey k = None ∧ Z.of_nat (String.length v) <= maxValue) (go_get ∅ m ta).
Proof.
  intros Hrel. unfold go_get. destruct (m !! ta) as [data|] eqn:E; cbn; [by eapply kv_bounds|].
  split; [rewrite map_size_empty; lia|apply map_Forall_empty].
Qed.

(** Writing the file of an agent. *)
Lemma kv_write s m t a data :
  kvRel s m → component t = true → component a = true → Z.of_nat (size data) <= maxKeys →
  map_Forall (λ k v, ValidateKey k = None ∧ Z.of_nat (String.length v) <= maxValue) data →
  kvRel (persistLocked false t a (Some data) s).2 (<[(t, a) := data]> m).
Proof.
  intros [Hd [Hmv Hmk] Hf Hb] Ht Ha Hsz Hall. split; [done|done| |].
  - intros t' a' Ht' Ha'. unfold loadLocked. cbn [persistLocked snd kvDisk filePath kvDir].
    rewrite go_get_insert. case_decide as Heq.
    + injection Heq as <- <-. unfold filePath. cbn [kvDir]. by rewrite lookup_insert_eq.
    + rewrite lookup_insert_ne; [by apply Hf|]. intros Hp. apply (filePath_inj _ _ _ _ s) in Hp as [-> ->]; done.
  - intros ta data'. rewrite lookup_insert_Some. intros [[_ <-]|[_ Hm]]; [done|]. by eapply Hb.
Qed.

Lemma kvStep_sim op s m :
  opOk op → kvRel s m →
  (kvStep op s).1 = (specStep maxValue maxKeys op m).1 ∧ kvRel (kvStep op s).2 (specStep maxValue maxKeys op m).2.
Proof.
  intros Hop Hrel. pose proof Hrel as [Hd [Hmv Hmk] Hf Hb].
  destruct op as [t a k|f t a k v|f t a k]; destruct Hop as [Ht Ha]; cbn [kvStep specStep].
  - unfold Get. split; [|done]. destruct (ValidateKey k); [done|]. by rewrite (Hf t a).
  - unfold Set_. rewrite decide_False by (apply component_spec in Ht, Ha; tauto).
    destruct (ValidateKey k) as [e|] eqn:Hk; [done|]. rewrite Hmv.
    destruct (ValidateValueSize v maxValue) as [e|] eqn:Hv; [done|]. rewrite (Hf t a) by done.
    rewrite Hmk. set (data := go_get ∅ m (t, a)).
    change (default ∅ (Some data)) with data. case_decide as Hfull; [done|].
    destruct f; [done|]. split; [done|]. destruct (go_get_bounds s m (t, a) Hrel) as [Hsz Hall].
    apply kv_write; [done..| |].
    + destruct (data !! k) as [x|] eqn:E; [rewrite map_size_insert_Some by (by rewrite E); done|].
      rewrite map_size_insert_None by done. assert (¬ maxKeys <= Z.of_nat (size data)) by tauto. lia.
    + apply map_Forall_insert_2; [|done]. split; [done|]. unfold ValidateValueSize in Hv. case_bool_decide; [done|lia].
  - unfold Delete. destruct (ValidateKey k) as [e|] eqn:Hk; [done|]. rewrite (Hf t a) by done.
    destruct f; [done|]. split; [done|]. destruct (go_get_bounds s m (t, a) Hrel) as [Hsz Hall].
    apply kv_write; [done..| |by apply map_Forall_delete].
    pose proof (map_subseteq_size _ _ (delete_subseteq (go_get ∅ m (t, a)) k)). lia.
Qed.

(** The key-value store is a bounded map per agent: for every history of reads,
    writes and deletions with agents named by single path elements, it answers as
    plain maps do and never panics; a failed write changes nothing; and no agent
    ever has more than the configured number of keys, an invalid key, or a value
    over the configured size. *)
Theorem kv_store_refines_maps (ops : list KVOp) :
  Forall opOk ops →
  let s0 := {| kvDir := String.concat "/" (d :: ds); maxValueSize := maxValue; maxKeysPerAgent := maxKeys; kvDisk := ∅ |} in
  let '(answers, s) := trace kvStep s0 ops in
  let '(expected, m) := trace (specStep maxValue maxKeys) ∅ ops in
  answers = expected ∧ Forall is_Some answers ∧
  ∀ t a, component t = true → component a = true →
    ∃ data, loadLocked t a s = inr (Some data) ∧ data = go_get ∅ m (t, a) ∧ Z.of_nat (size data) <= maxKeys ∧
      map_Forall (λ k v, ValidateKey k = None ∧ Z.of_nat (String.length v) <= maxValue) data.
Proof.
  intros Hops. cbv zeta. set (s0 := {| kvDir := _ |}).
  assert (kvRel s0 ∅) as H0.
  { split; [done|done| |]; intros *; [by cbn|]. intros Hm. by apply lookup_empty_Some in Hm. }
  rewrite Forall_forall in Hops.
  destruct (trace_sim kvStep (specStep maxValue maxKeys) kvRel ops s0 ∅) as [Hans Hrel]; [|done|].
  { intros op s m Hin Hr. apply kvStep_sim; auto. }
  assert (∀ ops m, Forall is_Some (trace (specStep maxValue maxKeys) m ops).1) as Hsome.
  { clear. intros ops. induction ops as [|op ops IH]; intros m; [constructor|]. rewrite trace_cons_answers.
    constructor; [|apply IH]. destruct op; cbn; unfold written; repeat case_match; eauto. }
  specialize (Hsome ops ∅).
  destruct (trace kvStep s0 ops) as [answers s], (trace (specStep maxValue maxKeys) ∅ ops) as [expected m].
  cbn [fst snd] in *. subst expected. split_and!; [done|done|].
  intros t a Ht Ha. destruct (go_get_bounds s m (t, a) Hrel) as [Hsz Hall].
  exists (go_get ∅ m (t, a)). split_and!; [by eapply kv_files|done|done|done].
Qed.

End kv.


Definition sample_kv_ops : list KVOp :=
  [OpSet false "acme" "bot" "color" "red"; OpSet false "acme" "bot" "size" "10"; OpSet false "acme" "bot" "shape" "round";
   OpSet true "acme" "bot" "color" "blue"; OpGet "acme" "bot" "color"; OpDelete false "acme" "bot" "color";
   OpGet "acme" "bot" "color"; OpGet "acme" "cat" "size"; OpGet "acme" "bot" "a/b"].

Lemma kv_store_refines_maps_witness :
  (trace (specStep 100 2) ∅ sample_kv_ops).1 =
    [Some (inr None); Some (inr None); Some (inl ErrMaxKeysExceeded); Some (inl KErrWrite); Some (inr (Some "red"));
     Some (inr None); Some (inr None); Some (inr None); Some (inl ErrInvalidKey)] ∧
  let s0 := {| kvDir := "data/kv"; maxValueSize := 100; maxKeysPerAgent := 2; kvDisk := ∅ |} in
  let '(answers, s) := trace kvStep s0 sample_kv_ops in
  let '(expected, m) := trace (specStep 100 2) ∅ sample_kv_ops in
  answers = expected ∧ Forall is_Some answers ∧
  ∀ t a, component t = true → component a = true →
    ∃ data, loadLocked t a s = inr (Some data) ∧ data = go_get ∅ m (t, a) ∧ Z.of_nat (size data) <= 2 ∧
      map_Forall (λ k v, ValidateKey k = None ∧ Z.of_nat (String.length v) <= 100) data.
Proof.
  split; [vm_compute; reflexivity|].
  apply (kv_store_refines_maps "data" ["kv"] ltac:(repeat constructor) 100 2 ltac:(lia) sample_kv_ops).
  unfold sample_kv_ops. repeat apply Forall_cons_2; try apply Forall_nil_2; split; vm_compute; reflexivity.
Defined.

(** ** Tenants *)

Module Tenants.

Record TokenBudget := { MaxTokensPerHour : Z; MaxTokensPerDay : Z }.
Record PIIPolicy := { PIIMode : string; PIIPatterns : list string }.
Record TenantPolicy := {
  AllowedModels : list string; DeniedModels : list string; PolicyBudget : option TokenBudget; PolicyPII : option PIIPolicy
}.

(** The JSON objects are nil or a map; their values are only carried, as text. *)
Record Tenant := {
  TenantID : string; Name : string; Status : string; PlanTier : string;
  Entitlements : option (gmap string string); Quotas : option (gmap string string);
  Metadata : option (gmap string string); Policy : option TenantPolicy;
  CreatedAt : string; UpdatedAt : string
}.

Inductive TenantError := ErrInvalidTenant | ErrTenantExists | ErrNotFound | ErrDefaultTenant.

Record Store := { tenants : gmap string Tenant; defaults : gset string }.

Definition NewStore : Store := {| tenants := ∅; defaults := ∅ |}.

Definition EnsureDefault (now id : string) (s : Store) : Store :=
  if decide (id = "") then s
  else if decide (is_Some (tenants s !! id)) then {| tenants := tenants s; defaults := {[id]} ∪ defaults s |}
  else
    let t := {| TenantID := id; Name := "default tenant"; Status := "active"; PlanTier := "default";
                Entitlements := None; Quotas := None; Metadata := None; Policy := None;
                CreatedAt := now; UpdatedAt := now |} in
    {| tenants := <[id := t]> (tenants s); defaults := {[id]} ∪ defaults s |}.

Definition Create (now : string) (t : Tenant) (s : Store) : option TenantError * Store :=
  if decide (TenantID t = "") then (Some ErrInvalidTenant, s)
  else
    let t' := {| TenantID := TenantID t; Name := Name t;
                 Status := if decide (Status t = "") then "active" else Status t; PlanTier := PlanTier t;
                 Entitlements := Entitlements t; Quotas := Quotas t; Metadata := Metadata t; Policy := Policy t;
                 CreatedAt := if decide (CreatedAt t = "") then now else CreatedAt t; UpdatedAt := now |} in
    if decide (is_Some (tenants s !! TenantID t)) then (Some ErrTenantExists, s)
    else (None, {| tenants := <[TenantID t := t']> (tenants s); defaults := defaults s |}).

Definition orString (new old : string) : string := if decide (new ≠ "") then new else old.
Definition orSome {A} (new old : option A) : option A := match new with Some _ => new | None => old end.

Definition Update (now id : string) (update : Tenant) (s : Store) : (TenantError + Tenant) * Store :=
  if decide (id = "") then (inl ErrInvalidTenant, s)
  else match tenants s !! id with
  | None => (inl ErrNotFound, s)
  | Some cur =>
      let cur' := {| TenantID := TenantID cur; Name := orString (Name update) (Name cur);
                     Status := orString (Status update) (Status cur);
                     PlanTier := orString (PlanTier update) (PlanTier cur);
                     Entitlements := orSome (Entitlements update) (Entitlements cur);
                     Quotas := orSome (Quotas update) (Quotas cur);
                     Metadata := orSome (Metadata update) (Metadata cur);
                     Policy := orSome (Policy update) (Policy cur);
                     CreatedAt := CreatedAt cur; UpdatedAt := now |} in
      (inr cur', {| tenants := <[id := cur']> (tenants s); defaults := defaults s |})
  end.

Definition DeleteTenant (id : string) (s : Store) : (TenantError + Tenant) * Store :=
  if decide (id = "") then (inl ErrInvalidTenant, s)
  else match tenants s !! id with
  | None => (inl ErrNotFound, s)
  | Some cur =>
      if decide (id ∈ defaults s) then (inl ErrDefaultTenant, s)
      else (inr cur, {| tenants := delete id (tenants s); defaults := defaults s |})
  end.

Definition GetTenant (id : string) (s : Store) : option Tenant :=
  if decide (id = "") then None else tenants s !! id.

Class TenantRange := tenant_range : gmap string Tenant → list (string * Tenant).

Definition ListTenants `{TenantRange} (s : Store) : list Tenant := (tenant_range (tenants s)).*2.

Inductive TenantOp :=
  | OpEnsure (now id : string)
  | OpCreate (now : string) (t : Tenant)
  | OpUpdate (now id : string) (update : Tenant)
  | OpDelete (id : string).

Definition tenantStep (op : TenantOp) (s : Store) : Store :=
  match op with
  | OpEnsure now id => EnsureDefault now id s
  | OpCreate now t => (Create now t s).2
  | OpUpdate now id u => (Update now id u s).2
  | OpDelete id => (DeleteTenant id s).2
  end.

(** Each entry is filed under its own id, and the seeded tenants are present. *)
Record tenantsOk (s : Store) : Prop := {
  ok_keyed id t : tenants s !! id = Some t → TenantID t = id ∧ id ≠ "";
  ok_defaults id : id ∈ defaults s → is_Some (tenants s !! id)
}.

Lemma tenantsOk_insert s id t defs :
  tenantsOk s → TenantID t = id → id ≠ "" → (∀ i, i ∈ defs → i = id ∨ i ∈ defaults s) →
  tenantsOk {| tenants := <[id := t]> (tenants s); defaults := defs |}.
Proof.
  intros [Hk Hd] Ht Hid Hdefs. split; cbn.
  - intros i x. rewrite lookup_insert_Some. intros [[<- <-]|[_ Hx]]; [done|eauto].
  - intros i Hi. apply lookup_insert_is_Some'. destruct (Hdefs i Hi); auto.
Qed.

Lemma tenantStep_ok op s : tenantsOk s → tenantsOk (tenantStep op s) ∧ defaults s ⊆ defaults (tenantStep op s).
Proof.
  intros Hok. destruct op as [now id|now t|now id u|id]; cbn [tenantStep].
  - unfold EnsureDefault. repeat case_decide; [done| |]; split; try set_solver.
    + pose proof Hok as [Hk Hd]. split; [done|]. cbn. intros i [->%elem_of_singleton|Hi]%elem_of_union; auto.
    + apply tenantsOk_insert; set_solver.
  - unfold Create. case_decide; [done|]. destruct (decide (is_Some (tenants s !! TenantID t))); [done|].
    cbn [snd defaults]. split; [|done]. apply tenantsOk_insert; auto.
  - unfold Update. case_decide; [done|]. destruct (tenants s !! id) as [cur|] eqn:Hcur; [|done]. cbn. split; [|done].
    apply tenantsOk_insert; auto. by apply Hok in Hcur as [].
  - unfold DeleteTenant. case_decide; [done|]. destruct (tenants s !! id) as [cur|] eqn:Hcur; [|done].
    case_decide; [done|]. cbn. split; [|done]. pose proof Hok as [Hk Hd]. split; cbn.
    + intros i x [_ Hx]%lookup_delete_Some. eauto.
    + intros i Hi. rewrite lookup_delete_ne by (intros ->; done). auto.
Qed.

Lemma tenantSteps_ok ops s :
  tenantsOk s → tenantsOk (foldl (flip tenantStep) s ops) ∧ defaults s ⊆ defaults (foldl (flip tenantStep) s ops).
Proof.
  revert s. induction ops as [|op ops IH]; intros s Hok; [done|]. cbn [foldl].
  destruct (tenantStep_ok op s Hok) as [Hok' Hd]. destruct (IH _ Hok') as [? ?]. split; [done|]. etrans; eauto.
Qed.

(** Tenants keep their identity: after any history of operations every stored
    tenant is filed under its own non-empty id and listed once, a seeded tenant is
    never lost, and an update changes neither the id nor the creation time. *)
Theorem tenants_keep_identity `{TenantRange, !GoRange tenant_range} (ops : list TenantOp) (id : string) :
  let s := foldl (flip tenantStep) NewStore ops in
  NoDup (TenantID <$> ListTenants s) ∧
  (∀ t, t ∈ ListTenants s ↔ GetTenant (TenantID t) s = Some t) ∧
  (id ∈ defaults s → ∀ later, is_Some (GetTenant id (foldl (flip tenantStep) s later))) ∧
  (∀ now u t s', Update now id u s = (inr t, s') →
     ∃ old, GetTenant id s = Some old ∧ GetTenant id s' = Some t ∧ TenantID t = id ∧ CreatedAt t = CreatedAt old).
Proof.
  cbv zeta. assert (tenantsOk NewStore) as H0 by (split; cbn; [by intros ?? []%lookup_empty_Some|set_solver]).
  destruct (tenantSteps_ok ops NewStore H0) as [Hok _]. set (s := foldl _ NewStore ops) in *.
  assert (∀ i, i ∉ dom (tenants s) ∨ i ≠ "") as Hne.
  { intros i. destruct (tenants s !! i) eqn:E; [right; by apply Hok in E as []|left; by apply not_elem_of_dom]. }
  split_and!.
  - replace (TenantID <$> ListTenants s) with ((tenant_range (tenants s)).*1); [apply NoDup_range_fst, _|].
    unfold ListTenants. rewrite <-list_fmap_compose. apply list_fmap_ext. intros i [k t] Hi%list_elem_of_lookup_2.
    apply (elem_of_range tenant_range), Hok in Hi. cbn. by destruct Hi.
  - intros t. unfold ListTenants, GetTenant. rewrite list_elem_of_fmap. split.
    + intros ([k x] & -> & Hi). apply (elem_of_range tenant_range) in Hi. cbn.
      pose proof (ok_keyed _ Hok _ _ Hi) as [-> Hk]. by rewrite decide_False.
    + case_decide; [done|]. intros Ht. exists (TenantID t, t). split; [done|]. by apply (elem_of_range tenant_range).
  - intros Hid later. destruct (tenantSteps_ok later s Hok) as [Hok' Hsub].
    destruct (ok_defaults _ Hok' id) as [t Ht]; [set_solver|]. unfold GetTenant.
    pose proof (ok_keyed _ Hok' _ _ Ht) as [_ ?]. rewrite decide_False by done. eauto.
  - intros now u t s'. unfold Update, GetTenant. case_decide; [done|].
    destruct (tenants s !! id) as [cur|] eqn:Hcur; [|done]. intros [= <- <-]. exists cur. cbn.
    rewrite lookup_insert_eq. split_and!; [done..| |done]. by apply Hok in Hcur as [].
Qed.

Definition allTenants : TenantRange := map_to_list.

Definition blank (id name : string) : Tenant := {|
  TenantID := id; Name := name; Status := ""; PlanTier := ""; Entitlements := None; Quotas := None; Metadata := None;
  Policy := None; CreatedAt := ""; UpdatedAt := ""
|}.

Definition sample_tenant_ops : list TenantOp :=
  [OpEnsure "t0" "main"; OpCreate "t1" (blank "acme" "Acme"); OpUpdate "t2" "acme" (blank "other" "New"); OpDelete "main"].

Lemma tenants_keep_identity_witness :
  let s := foldl (flip tenantStep) NewStore sample_tenant_ops in
  Name <$> GetTenant "acme" s = Some "New" ∧
  ∀ later, is_Some (GetTenant "main" (foldl (flip tenantStep) s later)).
Proof.
  cbv zeta. split; [vm_compute; reflexivity|].
  apply (@tenants_keep_identity allTenants GoRange_map_to_list sample_tenant_ops "main").
  apply (bool_decide_unpack _). vm_compute. exact I.
Defined.

End Tenants.
