(* ===== verification/AgentServer.v ===== *)
(** * AgentServer: the other handlers of the orchestrator (agentorchestrator/server.go)

    The routes below /v1/agents/ and /v1/runs/ with their role checks, and the
    handlers of agents, versions, key-value data, memory, events, tenants, API
    keys and members.  The run handlers themselves are those of RunServer.

    A request carries its method, path, query, identity and clock readings, and
    its body already decoded as each kind of request ([None] when that decoding
    fails).  [rqFault] says whether the one write a request makes to the agent,
    key-value or memory store fails.  Audit entries, metrics and response headers
    are output only. *)
From S2P Require Import Prelude GoTime GoPath GoStrings Types Quota RunStore Events Chat Executor RunServer.
From S2P Require Import Access AgentStore KVStore.

#[local] Open Scope go_scope.

(** ** Requests, answers and state *)

Record AgentCreateRequest := { cAgentID : string; cName : string; cDescription : string; cConfig : option AgentConfig }.
Record AgentUpdateRequest := { uName : string; uDescription : string; uConfig : option AgentConfig }.
Record KeyRequest := { kqName : string; kqRole : string; kqExpiresInDays : option Z }.
Record MemberRequest := { mqPrincipal : string; mqRole : string }.

(** The body of a key-value write: unreadable, not JSON, or its value. *)
Inductive ValueBody := BodyUnreadable | BodyGarbled | BodyValue (v : string).

Record Request := {
  rqMethod : string;
  rqPath : string;
  rqQuery : string → string;
  rqLastEventID : string;
  rqAuth : AuthContext;
  rqCancelled : bool;
  rqFault : bool;
  rqNow : string;
  rqNowOf : string → string;
  rqClockQPS : Time;
  rqClockBudget : Time;
  rqClock : Time;
  rqFreshID : string;
  rqRaw : option (list ascii);
  rqIDRaw : option (list ascii);
  rqSalt : string;
  asAgentCreate : option AgentCreateRequest;
  asAgentUpdate : option AgentUpdateRequest;
  asRollback : option string;
  asRun : option RunCreateRequest;
  asBatch : option (list BatchItem);
  asValue : ValueBody;
  asTenant : option Tenants.Tenant;
  asKey : option KeyRequest;
  asMember : option MemberRequest
}.

Inductive Answer :=
  | EError (status : Z) (code : string) (retryable : bool)
  | EPanic
  | EAgent (status : Z) (a : Agent)
  | EAgents (l : list Agent) (hasMore : bool)
  | ENoContent
  | EVersions (l : list AgentVersion) (hasMore : bool)
  | ERun (r : Response)
  | EEvents (l : list Event)
  | EStreamDone
  | EStream (replay : list Event) (ch : nat)
  | ECleared
  | EKeys (l : list string)
  | EValue (key value : string)
  | EKey (key : string)
  | EDeleted (key : string)
  | ETenants (l : list Tenants.Tenant)
  | ETenant (status : Z) (t : Tenants.Tenant)
  | EAPIKeys (l : list APIKeyRecord) (hasMore : bool)
  | ENewKey (g : GeneratedKey) (rec : APIKeyRecord)
  | ERevoked (keyID : string)
  | EMember (tenantID principalID role : string).

Definition denied (d : Denial) : Answer := EError (dStatus d) (dCode d) false.

Record Api {B St : Type} := {
  apRuns : Server B St;
  apAgents : fileAgentStore;
  apVersions : versionStore;
  apMembers : option MemberStore;
  apTenants : Tenants.Store;
  apKV : option fileKVStore;
  apKVMaxValueSize : Z;
  apMemory : option fileMemoryStore;
  apKeys : option APIKeyStore;
  apSinks : gmap string EventSink;
  apLog : option fileEventLogStore
}.
Arguments Api : clear implicits.

(** [strconv.Atoi] with its error dropped: zero on a syntax error, the nearest
    integer on a range error. *)
Fixpoint scanUint (acc : Z) (s : string) : Z :=
  match s with
  | EmptyString => acc
  | String c s' =>
      match digit_of c with
      | None => 0
      | Some d => if bool_decide (2 ^ 64 <= acc * 10 + d) then 2 ^ 64 - 1 else scanUint (acc * 10 + d) s'
      end
  end.

Definition atoiValue (s : string) : Z :=
  match s with
  | String "-" s' => Z.max (- 2 ^ 63) (- scanUint 0 s')
  | String "+" s' => Z.min (2 ^ 63 - 1) (scanUint 0 s')
  | _ => Z.min (2 ^ 63 - 1) (scanUint 0 s)
  end.

(** The limit parameter of a listing. *)
Definition limitParam (def : Z) (v : string) : Z :=
  let limit := match Atoi v with Some n => if bool_decide (0 < n) then n else def | None => def end in
  if bool_decide (200 < limit) then 200 else limit.

Section handlers.
Context {B St : Type} `{QuotaBackend B} `{UsageRecorder St} `{RunRange} `{SliceSort}.
Context `{AgentRange} `{KeyRange} `{KeyScan} `{Bcrypt} `{Tenants.TenantRange}.

Abbreviation Api' := (Api B St) (only parsing).

Definition setServer (r : Server B St) (s : Api') : Api' :=
  {| apRuns := r; apAgents := apAgents s; apVersions := apVersions s; apMembers := apMembers s; apTenants := apTenants s;
     apKV := apKV s; apKVMaxValueSize := apKVMaxValueSize s; apMemory := apMemory s; apKeys := apKeys s;
     apSinks := apSinks s; apLog := apLog s |}.

Definition setAgents (a : fileAgentStore) (v : versionStore) (s : Api') : Api' :=
  {| apRuns := apRuns s; apAgents := a; apVersions := v; apMembers := apMembers s; apTenants := apTenants s;
     apKV := apKV s; apKVMaxValueSize := apKVMaxValueSize s; apMemory := apMemory s; apKeys := apKeys s;
     apSinks := apSinks s; apLog := apLog s |}.

Definition setMembers (m : option MemberStore) (s : Api') : Api' :=
  {| apRuns := apRuns s; apAgents := apAgents s; apVersions := apVersions s; apMembers := m; apTenants := apTenants s;
     apKV := apKV s; apKVMaxValueSize := apKVMaxValueSize s; apMemory := apMemory s; apKeys := apKeys s;
     apSinks := apSinks s; apLog := apLog s |}.

Definition setTenants (t : Tenants.Store) (s : Api') : Api' :=
  {| apRuns := apRuns s; apAgents := apAgents s; apVersions := apVersions s; apMembers := apMembers s; apTenants := t;
     apKV := apKV s; apKVMaxValueSize := apKVMaxValueSize s; apMemory := apMemory s; apKeys := apKeys s;
     apSinks := apSinks s; apLog := apLog s |}.

Definition setData (kv : option fileKVStore) (mem : option fileMemoryStore) (s : Api') : Api' :=
  {| apRuns := apRuns s; apAgents := apAgents s; apVersions := apVersions s; apMembers := apMembers s;
     apTenants := apTenants s; apKV := kv; apKVMaxValueSize := apKVMaxValueSize s; apMemory := mem; apKeys := apKeys s;
     apSinks := apSinks s; apLog := apLog s |}.

Definition setKeys (k : option APIKeyStore) (s : Api') : Api' :=
  {| apRuns := apRuns s; apAgents := apAgents s; apVersions := apVersions s; apMembers := apMembers s;
     apTenants := apTenants s; apKV := apKV s; apKVMaxValueSize := apKVMaxValueSize s; apMemory := apMemory s; apKeys := k;
     apSinks := apSinks s; apLog := apLog s |}.

Definition setSinks (m : gmap string EventSink) (s : Api') : Api' :=
  {| apRuns := apRuns s; apAgents := apAgents s; apVersions := apVersions s; apMembers := apMembers s;
     apTenants := apTenants s; apKV := apKV s; apKVMaxValueSize := apKVMaxValueSize s; apMemory := apMemory s;
     apKeys := apKeys s; apSinks := m; apLog := apLog s |}.

(** The run handlers see the agents of the store; a failing lookup finds none. *)
Definition runServer (cancelled : bool) (s : Api') : Server B St :=
  let r := apRuns s in
  {| sRuns := sRuns r; sLimiter := sLimiter r; sBudget := sBudget r; sExecutor := sExecutor r;
     sAgents t a := match GetAgent cancelled t a (apAgents s) with inr found => found | inl _ => None end;
     sFaults := sFaults r |}.

Definition onRuns (rq : Request) (f : Server B St → Response * Server B St) (s : Api') : Answer * Api' :=
  let '(r, s') := f (runServer (rqCancelled rq) s) in (ERun r, setServer s' s).

Definition tenantsExists (tenantID : string) (s : Api') : bool :=
  if decide (tenantID = "") then false else bool_decide (is_Some (Tenants.GetTenant tenantID (apTenants s))).

(** The check refuses exactly when the middleware answers 403. *)
Definition requireRole (env : Environ) (role : string) (rq : Request) (s : Api') : bool * Api' :=
  let '(r, m) := RBACMiddleware env role (rqAuth rq) (apMembers s) in
  (match r with inl d => negb (bool_decide (dStatus d = 403)) | inr _ => true end, setMembers m s).

Definition forbidden : Answer := EError 403 "forbidden" false.
Definition notAllowed : Answer := EError 405 "method_not_allowed" false.
Definition notFound : Answer := EError 404 "not_found" false.

Definition withRoleDo (env : Environ) (role : string) (rq : Request) (f : Api' → Answer * Api') (s : Api') : Answer * Api' :=
  guard! s ← requireRole env role rq s else (forbidden, s) ;; f s.

(** ** Agents *)

Definition agentIDLe (a b : Agent) : Prop := String.le (AgentID_ a) (AgentID_ b).

#[global] Instance agentIDLe_dec a b : Decision (agentIDLe a b).
Proof. unfold agentIDLe. apply _. Defined.

Fixpoint skipAgents (after : string) (l : list Agent) : list Agent :=
  match l with
  | [] => []
  | a :: l' => if decide (String.le (AgentID_ a) after) then skipAgents after l' else l
  end.

Definition handleAgentList (rq : Request) (tenantID : string) (s : Api') : Answer :=
  let limit := limitParam 50 (rqQuery rq "limit") in
  let after := rqQuery rq "after" in
  match ListAgents (rqCancelled rq) tenantID (apAgents s) with
  | inl _ => EError 500 "agent_list_failed" true
  | inr l =>
      let l := sortSlice agentIDLe l in
      let l := if decide (after = "") then l else skipAgents after l in
      EAgents (take (Z.to_nat limit) l) (bool_decide (limit < Z.of_nat (length l)))
  end.

Definition handleAgentGet (rq : Request) (tenantID agentID : string) (s : Api') : Answer :=
  match GetAgent (rqCancelled rq) tenantID agentID (apAgents s) with
  | inl _ => EError 500 "agent_lookup_failed" true
  | inr None => notFound
  | inr (Some a) => EAgent 200 a
  end.

Definition idChar (c : ascii) : bool :=
  let n := nat_of_ascii c in
  bool_decide ((97 ≤ n ≤ 122)%nat ∨ (65 ≤ n ≤ 90)%nat ∨ (48 ≤ n ≤ 57)%nat ∨ n = 95%nat ∨ n = 45%nat).

Definition validAgentID (id : string) : bool :=
  bool_decide (3 ≤ String.length id ≤ 64)%nat && stringForall idChar id.

Definition badName (name : string) : bool := bool_decide (name = "" ∨ (256 < String.length name)%nat).

Definition handleAgentCreate (rq : Request) (tenantID : string) (s : Api') : Answer * Api' :=
  match asAgentCreate rq with
  | None => (EError 400 "invalid_json" false, s)
  | Some req =>
      if bool_decide (cAgentID req = "") || negb (validAgentID (cAgentID req)) then (EError 400 "invalid_request" false, s)
      else if badName (cName req) then (EError 400 "invalid_request" false, s)
      else
        let agent := {| AgentID_ := cAgentID req; AgentTenant := tenantID; AName := cName req;
                        Description := cDescription req; AVersion := "1"; AStatus := "active"; Config := cConfig req;
                        ACreatedAt := rqNow rq; AUpdatedAt := rqNow rq |} in
        match CreateAgent (rqCancelled rq) (rqFault rq) agent (apAgents s) with
        | (Some ErrAgentExists, st) => (EError 409 "conflict" false, setAgents st (apVersions s) s)
        | (Some _, st) => (EError 500 "agent_create_failed" true, setAgents st (apVersions s) s)
        | (None, st) =>
            let vs := (CreateSnapshot (rqCancelled rq) (rqNow rq) tenantID (AgentID_ agent) "v1"
                         (PrincipalID (rqAuth rq)) (marshalConfig (Config agent)) (apVersions s)).2 in
            (EAgent 201 agent, setAgents st vs s)
        end
  end.

(** Save the agent and record its configuration as the next snapshot. *)
Definition saveAndSnapshot (rq : Request) (tenantID : string) (agent : Agent) (config : RawConfig) (s : Api') :
    Answer * Api' :=
  match SaveAgent (rqCancelled rq) (rqFault rq) agent (apAgents s) with
  | (Some _, st) => (EError 500 "agent_update_failed" true, setAgents st (apVersions s) s)
  | (None, st) =>
      (EAgent 200 agent,
       setAgents st (snapshotNext (rqCancelled rq) (rqNow rq) tenantID (AgentID_ agent) (PrincipalID (rqAuth rq)) config
                       (apVersions s)) s)
  end.

Definition bumpVersion (v : string) : string := pretty (int64_wrap (atoiValue v + 1)).

Definition handleAgentUpdate (rq : Request) (tenantID agentID : string) (s : Api') : Answer * Api' :=
  match GetAgent (rqCancelled rq) tenantID agentID (apAgents s) with
  | inl _ => (EError 500 "agent_lookup_failed" true, s)
  | inr None => (notFound, s)
  | inr (Some agent) =>
      match asAgentUpdate rq with
      | None => (EError 400 "invalid_json" false, s)
      | Some req =>
          if badName (uName req) then (EError 400 "invalid_request" false, s)
          else
            let agent' := {| AgentID_ := AgentID_ agent; AgentTenant := AgentTenant agent; AName := uName req;
                             Description := uDescription req; AVersion := bumpVersion (AVersion agent);
                             AStatus := AStatus agent; Config := uConfig req; ACreatedAt := ACreatedAt agent;
                             AUpdatedAt := rqNow rq |} in
            saveAndSnapshot rq tenantID agent' (marshalConfig (Config agent')) s
      end
  end.

Definition handleAgentDelete (rq : Request) (tenantID agentID : string) (s : Api') : Answer * Api' :=
  match DeleteAgent (rqCancelled rq) (rqFault rq) tenantID agentID (apAgents s) with
  | (Some ErrAgentNotFound, st) => (notFound, setAgents st (apVersions s) s)
  | (Some _, st) => (EError 500 "agent_delete_failed" true, setAgents st (apVersions s) s)
  | (None, st) => (ENoContent, setAgents st (apVersions s) s)
  end.

Definition handleAgentVersions (rq : Request) (tenantID agentID : string) (s : Api') : Answer :=
  match GetAgent (rqCancelled rq) tenantID agentID (apAgents s) with
  | inl _ => EError 500 "agent_lookup_failed" true
  | inr None => notFound
  | inr (Some _) =>
      let limit := limitParam 20 (rqQuery rq "limit") in
      let afterID := match Atoi (rqQuery rq "after") with
                     | Some n => if bool_decide (0 < n) then n else 0
                     | None => 0
                     end in
      match ListVersions (rqCancelled rq) tenantID agentID limit afterID (apVersions s) with
      | inl _ => EError 500 "version_list_failed" true
      | inr (l, hasMore) => EVersions l hasMore
      end
  end.

(** The configuration of a snapshot; [None] when it does not decode. *)
Definition snapshotConfig (c : RawConfig) : option (option AgentConfig) :=
  match c with CfgNull => Some None | CfgJSON c => Some (Some c) | CfgGarbled => None end.

Definition handleAgentRollback (rq : Request) (tenantID agentID : string) (s : Api') : Answer * Api' :=
  match GetAgent (rqCancelled rq) tenantID agentID (apAgents s) with
  | inl _ => (EError 500 "agent_lookup_failed" true, s)
  | inr None => (notFound, s)
  | inr (Some agent) =>
  match asRollback rq with
  | None => (EError 400 "invalid_json" false, s)
  | Some version =>
  if decide (version = "") then (EError 400 "invalid_request" false, s)
  else
  match GetVersion (rqCancelled rq) tenantID agentID version (apVersions s) with
  | inl _ => (EError 500 "version_lookup_failed" true, s)
  | inr None => (EError 404 "version_not_found" false, s)
  | inr (Some snapshot) =>
  match ListByAgent (rqCancelled rq) tenantID agentID 100 "" (sRuns (apRuns s)) with
  | inl _ => (EError 500 "run_check_failed" true, s)
  | inr rs =>
  if existsb active rs then (EError 409 "active_runs" false, s)
  else
  match snapshotConfig (vConfig snapshot) with
  | None => (EError 500 "config_parse_failed" true, s)
  | Some cfg =>
      let agent' := {| AgentID_ := AgentID_ agent; AgentTenant := AgentTenant agent; AName := AName agent;
                       Description := Description agent; AVersion := bumpVersion (AVersion agent);
                       AStatus := AStatus agent; Config := cfg; ACreatedAt := ACreatedAt agent;
                       AUpdatedAt := rqNow rq |} in
      match SaveAgent (rqCancelled rq) (rqFault rq) agent' (apAgents s) with
      | (Some _, st) => (EError 500 "agent_update_failed" true, setAgents st (apVersions s) s)
      | (None, st) =>
          (EAgent 200 agent',
           setAgents st (snapshotNext (rqCancelled rq) (rqNow rq) tenantID agentID (PrincipalID (rqAuth rq))
                           (vConfig snapshot) (apVersions s)) s)
      end
  end
  end
  end
  end
  end.

(** ** Conversation memory and key-value data *)

Definition handleMemoryClear (rq : Request) (tenantID agentID : string) (s : Api') : Answer * Api' :=
  match apMemory s with
  | None => (EError 501 "not_implemented" false, s)
  | Some mem =>
      match Clear (rqCancelled rq) (rqFault rq) tenantID agentID mem with
      | (Some _, mem') => (EError 500 "memory_clear_failed" true, setData (apKV s) (Some mem') s)
      | (None, mem') => (ECleared, setData (apKV s) (Some mem') s)
      end
  end.

Definition kvPut (rq : Request) (tenantID agentID key : string) (kv : fileKVStore) (s : Api') : Answer * Api' :=
  match asValue rq with
  | BodyUnreadable => (EError 400 "read_failed" false, s)
  | BodyGarbled => (EError 400 "invalid_json" false, s)
  | BodyValue value =>
      match ValidateValueSize value (apKVMaxValueSize s) with
      | Some _ => (EError 400 "value_too_large" false, s)
      | None =>
          match KVStore.Set_ (rqCancelled rq) (rqFault rq) tenantID agentID key value kv with
          | None => (EPanic, s)
          | Some (Some ErrMaxKeysExceeded, kv') => (EError 400 "max_keys_exceeded" false, setData (Some kv') (apMemory s) s)
          | Some (Some _, kv') => (EError 500 "kv_set_failed" true, setData (Some kv') (apMemory s) s)
          | Some (None, kv') => (EKey key, setData (Some kv') (apMemory s) s)
          end
      end
  end.

Definition handleKV (rq : Request) (tenantID agentID : string) (subParts : list string) (s : Api') : Answer * Api' :=
  match apKV s with
  | None => (EError 501 "not_implemented" false, s)
  | Some kv =>
  match subParts with
  | [] =>
      if decide (rqMethod rq ≠ "GET") then (notAllowed, s)
      else match KVStore.ListKeys (rqCancelled rq) tenantID agentID kv with
           | inl _ => (EError 500 "kv_list_failed" true, s)
           | inr keys => (EKeys keys, s)
           end
  | key :: _ =>
      match KVStore.ValidateKey key with
      | Some _ => (EError 400 "invalid_key" false, s)
      | None =>
          if decide (rqMethod rq = "GET") then
            match KVStore.Get (rqCancelled rq) tenantID agentID key kv with
            | inl _ => (EError 500 "kv_get_failed" true, s)
            | inr None => (notFound, s)
            | inr (Some v) => (EValue key v, s)
            end
          else if decide (rqMethod rq = "PUT") then kvPut rq tenantID agentID key kv s
          else if decide (rqMethod rq = "DELETE") then
            match KVStore.Delete (rqCancelled rq) (rqFault rq) tenantID agentID key kv with
            | (Some _, kv') => (EError 500 "kv_delete_failed" true, setData (Some kv') (apMemory s) s)
            | (None, kv') => (EDeleted key, setData (Some kv') (apMemory s) s)
            end
          else (notAllowed, s)
      end
  end
  end.

(** ** Runs: lookup, events and streams *)

Definition lookupRun (rq : Request) (tenantID runID : string) (f : Run → Api' → Answer * Api') (s : Api') : Answer * Api' :=
  let '(g, r) := storeGet (rqCancelled rq) tenantID runID (apRuns s) in
  let s := setServer r s in
  match g with
  | inl _ => (EError 500 "run_lookup_failed" true, s)
  | inr None => (notFound, s)
  | inr (Some run) => f run s
  end.

(** The executor's sink of a run. *)
Definition sinkOf (runID : string) (s : Api') : option EventSink :=
  g ← sExecutor (apRuns s);
  if decide (runID ∈ eventSinks g) then apSinks s !! runID else None.

Definition syntheticEvent (evtID now : string) (run : Run) : Event := {|
  EventID := evtID; Sequence := 1; ETime := now; EType := "agentos.run.step.completed"; ETenantID := TenantID run;
  EAgentID := AgentID run; ERunID := RunID run; StepID := "step_1"; Traceparent := traceparent;
  Payload := [("status", AStr "ok")]
|}.

Definition handleEvents (rq : Request) (tenantID runID : string) (s : Api') : Answer * Api' :=
  if decide (rqMethod rq ≠ "GET") then (notAllowed, s)
  else lookupRun rq tenantID runID (λ run s,
    let afterSequence := default 0 (Atoi (rqLastEventID rq)) in
    let envs := match sinkOf runID s with
                | Some sink => if bool_decide (0 < afterSequence) then EventsFromSequence afterSequence sink else Events_ sink
                | None => []
                end in
    let envs := match envs, sExecutor (apRuns s), apLog s with
                | [], Some _, Some log => QueryFromSequence tenantID runID afterSequence log
                | _, _, _ => envs
                end in
    let envs := match envs with
                | [] => if bool_decide (afterSequence = 0) then [syntheticEvent (rqFreshID rq) (rqNow rq) run] else []
                | _ => envs
                end in
    (EEvents envs, s)) s.

(** The stream up to its subscription; the events that follow are those the
    channel receives. *)
Definition handleStream (rq : Request) (tenantID runID : string) (s : Api') : Answer * Api' :=
  if decide (rqMethod rq ≠ "GET") then (notAllowed, s)
  else lookupRun rq tenantID runID (λ run s,
    if bool_decide (RStatus run ∈ ["completed"; "failed"; "canceled"]) then (EStreamDone, s)
    else match sinkOf runID s with
         | None => (notFound, s)
         | Some sink =>
             let fromSequence := default 0 (Atoi (rqQuery rq "from_sequence")) in
             let '(ch, sink') := Subscribe sink in
             (EStream (streamReplay fromSequence sink) ch, setSinks (<[runID := sink']> (apSinks s)) s)
         end) s.

(** ** Routes *)

Definition withTenant (env : Environ) (rq : Request) (f : string → Api' → Answer * Api') (s : Api') : Answer * Api' :=
  match ResolveTenantHTTP env (rqAuth rq) with
  | inl d => (denied d, s)
  | inr tenantID => if negb (tenantsExists tenantID s) then (EError 403 "tenant_unknown" false, s) else f tenantID s
  end.

Definition reading (f : Api' → Answer) (s : Api') : Answer * Api' := (f s, s).

(** What is left of the path, without the slashes at either end. *)
Definition pathBelow (prefix path : string) : string := trimChar "/" (TrimPrefix path prefix).

Definition routeAgentPart (env : Environ) (rq : Request) (tenantID agentID part : string) (s : Api') : Answer * Api' :=
  let on m p := bool_decide (part = p ∧ rqMethod rq = m) in
  if on "GET" "versions" then withRoleDo env "viewer" rq (reading (handleAgentVersions rq tenantID agentID)) s
  else if on "POST" "rollback" then withRoleDo env "developer" rq (handleAgentRollback rq tenantID agentID) s
  else if on "POST" "runs:batch" then
    withRoleDo env "developer" rq (onRuns rq (handleRunBatch (rqCancelled rq) tenantID agentID (asBatch rq))) s
  else if decide (part = "runs") then
    if decide (rqMethod rq = "GET") then
      withRoleDo env "viewer" rq (reading (λ s, ERun (handleRunList (rqCancelled rq) (rqQuery rq "limit") (rqQuery rq "after")
        (rqQuery rq "status") tenantID agentID (runServer (rqCancelled rq) s)))) s
    else if decide (rqMethod rq = "POST") then
      withRoleDo env "developer" rq (onRuns rq (handleRunCreate (rqCancelled rq) (rqClockQPS rq) (rqClockBudget rq)
        (rqNow rq) (rqFreshID rq) tenantID agentID (asRun rq))) s
    else (notAllowed, s)
  else if on "DELETE" "memory" then handleMemoryClear rq tenantID agentID s
  else if decide (part = "kv") then handleKV rq tenantID agentID [] s
  else (notFound, s).

Definition handleAgents (env : Environ) (rq : Request) : Api' → Answer * Api' :=
  withTenant env rq (λ tenantID s,
    let path := pathBelow "/v1/agents/" (rqPath rq) in
    let method m := bool_decide (rqMethod rq = m) in
    if decide (path = "") then
      if method "GET" then withRoleDo env "viewer" rq (reading (handleAgentList rq tenantID)) s
      else if method "POST" then withRoleDo env "developer" rq (handleAgentCreate rq tenantID) s
      else (notAllowed, s)
    else
      match splitChar "/" path with
      | [agentID] =>
          if method "GET" then withRoleDo env "viewer" rq (reading (handleAgentGet rq tenantID agentID)) s
          else if method "PUT" then withRoleDo env "developer" rq (handleAgentUpdate rq tenantID agentID) s
          else if method "DELETE" then withRoleDo env "developer" rq (handleAgentDelete rq tenantID agentID) s
          else (notAllowed, s)
      | [agentID; part] => routeAgentPart env rq tenantID agentID part s
      | agentID :: part :: subParts =>
          if decide (part = "kv") then handleKV rq tenantID agentID subParts s else (notFound, s)
      | [] => (notFound, s)
      end).

Definition handleRuns (env : Environ) (rq : Request) : Api' → Answer * Api' :=
  withTenant env rq (λ tenantID s,
    let parts := splitChar "/" (pathBelow "/v1/runs/" (rqPath rq)) in
    let runID := default "" (head parts) in
    let isPost := bool_decide (rqMethod rq = "POST") in
    if decide (runID = "") then (notFound, s)
    else if HasSuffix runID ":cancel" then
      withRoleDo env "developer" rq (onRuns rq (handleCancel env isPost (rqCancelled rq) (rqNowOf rq) tenantID
        (takeBytes (String.length runID - 7) runID))) s
    else
      match parts with
      | [_; part] =>
          if decide (part = "retry") then
            if negb isPost then (notAllowed, s)
            else withRoleDo env "developer" rq
                   (onRuns rq (handleRunRetry (rqCancelled rq) (rqNow rq) (rqFreshID rq) tenantID runID)) s
          else if decide (part = "events") then withRoleDo env "viewer" rq (handleEvents rq tenantID runID) s
          else if decide (part = "stream") then withRoleDo env "viewer" rq (handleStream rq tenantID runID) s
          else (notAllowed, s)
      | [_] =>
          if decide (rqMethod rq = "GET") then
            withRoleDo env "viewer" rq (lookupRun rq tenantID runID (λ run s, (ERun (RRun 200 run), s))) s
          else (notAllowed, s)
      | _ => (notAllowed, s)
      end).

(** ** Tenants, API keys and members *)

Definition handleTenants (rq : Request) (s : Api') : Answer * Api' :=
  if negb (hasScope (Scopes (rqAuth rq)) "tenants:admin") then (forbidden, s)
  else
    let path := pathBelow "/v1/admin/tenants" (rqPath rq) in
    let method m := bool_decide (rqMethod rq = m) in
    let failed (e : Tenants.TenantError) :=
      match e with
      | Tenants.ErrNotFound => notFound
      | _ => EError 400 "invalid_request" false
      end in
    if decide (path = "") then
      if method "GET" then (ETenants (Tenants.ListTenants (apTenants s)), s)
      else if method "POST" then
        match asTenant rq with
        | None => (EError 400 "invalid_json" false, s)
        | Some t =>
            match Tenants.Create (rqNow rq) t (apTenants s) with
            | (Some Tenants.ErrTenantExists, ts) => (EError 409 "conflict" false, setTenants ts s)
            | (Some _, ts) => (EError 400 "invalid_request" false, setTenants ts s)
            | (None, ts) => (ETenant 201 t, setTenants ts s)
            end
        end
      else (notAllowed, s)
    else if method "GET" then
      match Tenants.GetTenant path (apTenants s) with
      | Some t => (ETenant 200 t, s)
      | None => (notFound, s)
      end
    else if method "PUT" || method "PATCH" then
      match asTenant rq with
      | None => (EError 400 "invalid_json" false, s)
      | Some t =>
          match Tenants.Update (rqNow rq) path t (apTenants s) with
          | (inl e, ts) => (failed e, setTenants ts s)
          | (inr t', ts) => (ETenant 200 t', setTenants ts s)
          end
      end
    else if method "DELETE" then
      match Tenants.DeleteTenant path (apTenants s) with
      | (inl e, ts) => (failed e, setTenants ts s)
      | (inr _, ts) => (EDeleted path, setTenants ts s)
      end
    else (notAllowed, s).

Fixpoint skipKeys (after : string) (l : list APIKeyRecord) : list APIKeyRecord :=
  match l with
  | [] => []
  | k :: l' => if decide (String.le (KeyID k) after) then skipKeys after l' else l
  end.

Definition handleAPIKeyList (rq : Request) (tenantID : string) (s : Api') : Answer * Api' :=
  let limit := limitParam 50 (rqQuery rq "limit") in
  let after := rqQuery rq "after" in
  match apKeys s with
  | None => (EAPIKeys [] false, s)
  | Some store =>
      match Access.ListKeys tenantID store with
      | (inl _, store') => (EError 500 "apikey_list_failed" true, setKeys (Some store') s)
      | (inr keys, store') =>
          let keys := if decide (after = "") then keys else skipKeys after keys in
          (EAPIKeys (take (Z.to_nat limit) keys) (bool_decide (limit < Z.of_nat (length keys))), setKeys (Some store') s)
      end
  end.

Definition handleAPIKeyCreate (env : Environ) (rq : Request) (tenantID : string) : Api' → Answer * Api' :=
  withRoleDo env "admin" rq (λ s,
    match apKeys s with
    | None => (EError 501 "not_implemented" false, s)
    | Some store =>
        match asKey rq with
        | None => (EError 400 "invalid_json" false, s)
        | Some req =>
            let name := if decide (kqName req = "") then "unnamed" else kqName req in
            let role := if decide (kqRole req = "") then "developer" else kqRole req in
            if decide (role ∉ ["owner"; "admin"; "developer"; "viewer"]) then (EError 400 "invalid_role" false, s)
            else
              match GenerateKey (rqRaw rq) (rqIDRaw rq) (rqSalt rq) with
              | None => (EError 500 "key_generation_failed" true, s)
              | Some g =>
                  let expires := match kqExpiresInDays req with
                                 | Some d => if bool_decide (0 < d) then Some (rqClock rq + d * (24 * Hour)) else None
                                 | None => None
                                 end in
                  let rec := keyRecord tenantID (PrincipalID (rqAuth rq)) name role (rqClock rq) expires g in
                  match CreateKey rec store with
                  | (Some _, store') => (EError 500 "key_create_failed" true, setKeys (Some store') s)
                  | (None, store') => (ENewKey g rec, setKeys (Some store') s)
                  end
              end
        end
    end).

Definition handleAPIKeyRevoke (env : Environ) (rq : Request) (tenantID keyID : string) : Api' → Answer * Api' :=
  withRoleDo env "admin" rq (λ s,
    match apKeys s with
    | None => (EError 501 "not_implemented" false, s)
    | Some store =>
        match Revoke (rqClock rq) tenantID keyID store with
        | (Some ErrNotFound, store') => (notFound, setKeys (Some store') s)
        | (Some _, store') => (EError 500 "key_revoke_failed" true, setKeys (Some store') s)
        | (None, store') => (ERevoked keyID, setKeys (Some store') s)
        end
    end).

Definition handleAPIKeys (env : Environ) (rq : Request) (s : Api') : Answer * Api' :=
  match ResolveTenantHTTP env (rqAuth rq) with
  | inl d => (denied d, s)
  | inr tenantID =>
      let keyID := pathBelow "/v1/tenants/api-keys" (rqPath rq) in
      if decide (rqMethod rq = "GET" ∧ keyID = "") then handleAPIKeyList rq tenantID s
      else if decide (rqMethod rq = "POST" ∧ keyID = "") then handleAPIKeyCreate env rq tenantID s
      else if decide (rqMethod rq = "DELETE" ∧ keyID ≠ "") then handleAPIKeyRevoke env rq tenantID keyID s
      else (notAllowed, s)
  end.

(** The member handlers work on the table the role checks read. *)
Definition handleMembers (env : Environ) (rq : Request) (s : Api') : Answer * Api' :=
  match ResolveTenantHTTP env (rqAuth rq) with
  | inl d => (denied d, s)
  | inr tenantID =>
      withRoleDo env "owner" rq (λ s,
        match apMembers s with
        | None => (EError 501 "not_implemented" false, s)
        | Some ms =>
            let path := pathBelow "/v1/tenants/members" (rqPath rq) in
            if decide (rqMethod rq = "POST") then
              match asMember rq with
              | None => (EError 400 "invalid_json" false, s)
              | Some req =>
                  if decide (mqPrincipal req = "" ∨ mqRole req = "") then (EError 400 "missing_field" false, s)
                  else if decide (mqRole req ∉ ["owner"; "admin"; "developer"; "viewer"])
                  then (EError 400 "invalid_role" false, s)
                  else
                    match SetRole tenantID (mqPrincipal req) (mqRole req) ms with
                    | (Some _, ms') => (EError 500 "internal" true, setMembers (Some ms') s)
                    | (None, ms') => (EMember tenantID (mqPrincipal req) (mqRole req), setMembers (Some ms') s)
                    end
              end
            else if decide (rqMethod rq = "DELETE") then
              if decide (path = "") then (EError 400 "missing_member_id" false, s)
              else
                match DeleteMember tenantID path ms with
                | (Some ErrNotFound, ms') => (notFound, setMembers (Some ms') s)
                | (Some _, ms') => (EError 500 "internal" true, setMembers (Some ms') s)
                | (None, ms') => (EDeleted path, setMembers (Some ms') s)
                end
            else (notAllowed, s)
        end) s
  end.

End handlers.

(** ** Role checks *)

(** The middleware only refuses with 403, so the check is its verdict. *)
Definition granted {B St} (env : Environ) (role : string) (rq : Request) (s : Api B St) : bool :=
  match (RBACMiddleware env role (rqAuth rq) (apMembers s)).1 with inr _ => true | inl _ => false end.

Lemma requireRole_granted {B St} env role rq (s : Api B St) :
  requireRole env role rq s =
    (granted env role rq s, setMembers (RBACMiddleware env role (rqAuth rq) (apMembers s)).2 s).
Proof.
  unfold requireRole, granted, RBACMiddleware.
  repeat case_match; simplify_eq; cbn; try done.
Qed.

Lemma withRoleDo_cases {B St} env role rq f (s : Api B St) (P : Answer * Api B St → Prop) :
  let s1 := setMembers (RBACMiddleware env role (rqAuth rq) (apMembers s)).2 s in
  (granted env role rq s = false → P (forbidden, s1)) → (granted env role rq s = true → P (f s1)) →
  P (withRoleDo env role rq f s).
Proof.
  cbv zeta. unfold withRoleDo. rewrite requireRole_granted. destruct (granted env role rq s); cbn; auto.
Qed.

(** ** Agents stay with their tenant *)

Section agents.
Context {B St : Type} `{QuotaBackend B} `{UsageRecorder St} `{RunRange} `{SliceSort}.
Context `{AgentRange} `{KeyRange}.
Context (d : string) (ds : list string) (Hds : Forall (λ c, component c = true) (d :: ds)).

Abbreviation Api' := (Api B St) (only parsing).

(** From [s] to [s'] only agents of tenant [t] change, and without the role
    nothing but key-value data, memory and members. *)
Definition onlyTenant (t : string) (dev : bool) (s s' : Api') : Prop :=
  ∀ m, storeRel d ds (apAgents s) m →
  ∃ m', storeRel d ds (apAgents s') m' ∧ (∀ t' a, t' ≠ t → m' !! (t', a) = m !! (t', a)) ∧
    (dev = false → m' = m ∧ apVersions s' = apVersions s ∧ apRuns s' = apRuns s).

Lemma onlyTenant_same t dev (s s' : Api') :
  apAgents s' = apAgents s → (dev = false → apVersions s' = apVersions s ∧ apRuns s' = apRuns s) → onlyTenant t dev s s'.
Proof. intros Ha Hd m Hm. exists m. rewrite Ha. naive_solver. Qed.

Lemma onlyTenant_put t (s : Api') a vs fault e st :
  persistAgent fault a (putAgent a (apAgents s)) = (e, st) →
  AgentTenant a = t → component t = true → component (AgentID_ a) = true →
  onlyTenant t true s (setAgents st vs s).
Proof.
  intros Hp <- Ht Ha m Hm. exists (<[(AgentTenant a, AgentID_ a) := a]> m).
  pose proof (rel_put d ds _ _ a Hm Ht Ha) as Hput. split_and!; [| |done].
  - unfold persistAgent in Hp. destruct fault; injection Hp as <- <-; [done|]. by apply (rel_disk d ds _ _ _ Hput).
  - intros t' a' Hne. rewrite lookup_insert_ne; [done|]. congruence.
Qed.

Lemma validAgentID_component id : validAgentID id = true → component id = true.
Proof.
  unfold validAgentID. rewrite andb_true_iff, bool_decide_eq_true. intros [Hlen Hall].
  assert (∀ c, idChar c = true → c ≠ "/"%char ∧ c ≠ "."%char) as Hc.
  { intros c. unfold idChar. rewrite bool_decide_eq_true. intros Hn. split; intros ->; vm_compute in Hn; lia. }
  apply component_spec. split_and!.
  - clear Hlen. induction id as [|c id IH]; [done|]. cbn in Hall |- *. apply andb_true_iff in Hall as [Hc1 Hc2].
    destruct (Hc c Hc1) as [Hs _]. rewrite IH by done. by rewrite bool_decide_eq_false_2.
  - intros ->. cbn in Hlen. lia.
  - intros ->. cbn in Hlen. lia.
  - intros ->. cbn in Hlen. lia.
Qed.

(** The stored agent of a name is the tenant's own. *)
Lemma GetAgent_own c t a st m x :
  storeRel d ds st m → component t = true → component a = true → GetAgent c t a st = inr (Some x) →
  AgentTenant x = t ∧ AgentID_ x = a.
Proof.
  intros Hrel Ht Ha. unfold GetAgent. destruct c; [done|].
  case_decide as Hne; [done|]. rewrite (rel_lookup d ds st m) by done. intros [= Hm].
  by apply (rel_keyed _ _ _ _ Hrel) in Hm as (-> & -> & _).
Qed.

Lemma onlyTenant_create rq t (s : Api') :
  component t = true → onlyTenant t true s (handleAgentCreate rq t s).2.
Proof.
  intros Ht. unfold handleAgentCreate. destruct (asAgentCreate rq) as [req|]; [|by apply onlyTenant_same].
  destruct (bool_decide (cAgentID req = "") || negb (validAgentID (cAgentID req))) eqn:Hid; [by apply onlyTenant_same|].
  apply orb_false_iff in Hid as [_ Hid%negb_false_iff%validAgentID_component].
  destruct (badName (cName req)); [by apply onlyTenant_same|].
  unfold CreateAgent, validateAgent. set (a := {| AgentID_ := _ |}).
  destruct (rqCancelled rq); [by apply onlyTenant_same|].
  case_decide; [by apply onlyTenant_same|]. case_decide; [by apply onlyTenant_same|].
  destruct (persistAgent (rqFault rq) a (putAgent a (apAgents s))) as [[e|] st] eqn:Hp.
  - destruct e; by apply (onlyTenant_put t s a _ _ _ _ Hp).
  - by apply (onlyTenant_put t s a _ _ _ _ Hp).
Qed.

Lemma onlyTenant_save c f t (s : Api') a vs e st :
  SaveAgent c f a (apAgents s) = (e, st) → AgentTenant a = t → component t = true → component (AgentID_ a) = true →
  onlyTenant t true s (setAgents st vs s).
Proof.
  intros Hs Ha Ht Hid. unfold SaveAgent, validateAgent in Hs.
  destruct c; [injection Hs as <- <-; by apply onlyTenant_same|].
  case_decide; [injection Hs as <- <-; by apply onlyTenant_same|]. by eapply onlyTenant_put.
Qed.

Lemma onlyTenant_update rq t id (s : Api') :
  component t = true → component id = true → onlyTenant t true s (handleAgentUpdate rq t id s).2.
Proof.
  intros Ht Hid m Hm. unfold handleAgentUpdate.
  destruct (GetAgent _ t id _) as [e|[x|]] eqn:Hx; [by apply onlyTenant_same| |by apply onlyTenant_same].
  destruct (asAgentUpdate rq) as [req|]; [|by apply onlyTenant_same].
  destruct (badName (uName req)); [by apply onlyTenant_same|].
  destruct (GetAgent_own _ _ _ _ _ _ Hm Ht Hid Hx) as [Hxt Hxi].
  unfold saveAndSnapshot. set (a := {| AgentID_ := _ |}).
  assert (component (AgentID_ a) = true) as Ha by (cbn; by rewrite Hxi).
  destruct (SaveAgent _ _ a _) as [[e|] st] eqn:Hs; by apply (onlyTenant_save _ _ t s a _ _ _ Hs Hxt Ht Ha).
Qed.

Lemma onlyTenant_rollback rq t id (s : Api') :
  component t = true → component id = true → onlyTenant t true s (handleAgentRollback rq t id s).2.
Proof.
  intros Ht Hid m Hm. unfold handleAgentRollback.
  destruct (GetAgent _ t id _) as [e|[x|]] eqn:Hx; [by apply onlyTenant_same| |by apply onlyTenant_same].
  destruct (asRollback rq) as [v|]; [|by apply onlyTenant_same]. case_decide; [by apply onlyTenant_same|].
  destruct (GetVersion _ t id v _) as [e|[snap|]]; [by apply onlyTenant_same| |by apply onlyTenant_same].
  destruct (ListByAgent _ _ _ _ _ _) as [e|rs]; [by apply onlyTenant_same|].
  destruct (existsb active rs); [by apply onlyTenant_same|].
  destruct (snapshotConfig (vConfig snap)) as [cfg|]; [|by apply onlyTenant_same].
  destruct (GetAgent_own _ _ _ _ _ _ Hm Ht Hid Hx) as [Hxt Hxi].
  set (a := {| AgentID_ := _ |}).
  assert (component (AgentID_ a) = true) as Ha by (cbn; by rewrite Hxi).
  destruct (SaveAgent _ _ a _) as [[e|] st] eqn:Hs; by apply (onlyTenant_save _ _ t s a _ _ _ Hs Hxt Ht Ha).
Qed.

Lemma onlyTenant_delete rq t id (s : Api') :
  component t = true → component id = true → onlyTenant t true s (handleAgentDelete rq t id s).2.
Proof.
  intros Ht Hid. unfold handleAgentDelete.
  assert (∀ st e, DeleteAgent (rqCancelled rq) (rqFault rq) t id (apAgents s) = (e, st) →
    onlyTenant t true s (setAgents st (apVersions s) s)) as Hdel.
  { intros st e. unfold DeleteAgent.
    destruct (rqCancelled rq); [intros [= <- <-]; by apply onlyTenant_same|].
    case_decide; [intros [= <- <-]; by apply onlyTenant_same|].
    destruct (agents (apAgents s) !! agentStorageKey t id) eqn:Hx; [|intros [= <- <-]; by apply onlyTenant_same].
    intros Hst m Hm. exists (delete (t, id) m). split_and!; [| |done].
    - destruct (rqFault rq); injection Hst as <- <-; by apply (rel_delete d ds).
    - intros t' a' Hne. apply lookup_delete_ne. congruence. }
  destruct (DeleteAgent _ _ t id _) as [[e|] st] eqn:Hd; [destruct e|]; by eapply Hdel.
Qed.

Lemma onlyTenant_members t dev m (s s' : Api') : onlyTenant t dev (setMembers m s) s' → onlyTenant t dev s s'.
Proof. intros Hs. exact Hs. Qed.

(** A route behind the developer role, and one behind any other. *)
Lemma onlyTenant_developer env rq t f (s : Api') :
  (∀ s1, onlyTenant t true s1 (f s1).2) →
  onlyTenant t (granted env "developer" rq s) s (withRoleDo env "developer" rq f s).2.
Proof.
  intros Hf. apply withRoleDo_cases; intros ->; [by apply onlyTenant_same|]. eapply onlyTenant_members, Hf.
Qed.

Lemma onlyTenant_reading env role rq t dev f (s : Api') :
  onlyTenant t dev s (withRoleDo env role rq (reading f) s).2.
Proof. apply withRoleDo_cases; intros _; by apply onlyTenant_same. Qed.

Lemma onlyTenant_runs rq t f (s : Api') : onlyTenant t true s (onRuns rq f s).2.
Proof. unfold onRuns. destruct (f _). by apply onlyTenant_same. Qed.

Lemma onlyTenant_kv rq t t' a parts dev (s : Api') : onlyTenant t dev s (handleKV rq t' a parts s).2.
Proof.
  unfold handleKV, kvPut. destruct (apKV s) as [kv|]; [|by apply onlyTenant_same].
  repeat case_match; by apply onlyTenant_same.
Qed.

Lemma onlyTenant_part env rq t id part (s : Api') :
  component t = true → (rqMethod rq ≠ "CONNECT" → component id = true) →
  onlyTenant t (granted env "developer" rq s) s (routeAgentPart env rq t id part s).2.
Proof.
  intros Ht Hid. unfold routeAgentPart.
  case_bool_decide; [apply onlyTenant_reading|].
  case_bool_decide as Hm; [destruct Hm as [_ Hm]; apply onlyTenant_developer; intros; apply onlyTenant_rollback; [done|apply Hid; congruence]|].
  case_bool_decide; [apply onlyTenant_developer; intros; apply onlyTenant_runs|].
  case_decide; [case_decide; [apply onlyTenant_reading|]; case_decide; [|by apply onlyTenant_same];
    apply onlyTenant_developer; intros; apply onlyTenant_runs|].
  case_bool_decide; [|case_decide; [apply onlyTenant_kv|by apply onlyTenant_same]].
  unfold handleMemoryClear. repeat case_match; by apply onlyTenant_same.
Qed.

(** What the router passes on below a pattern: it answers paths with an empty, [.] or [..]
    element by a redirection, but for the method CONNECT; a last slash stays. *)
Definition routed (pattern path : string) : Prop :=
  ∃ cs, Forall (λ c, component c = true) cs ∧
    (path = pattern +:+ String.concat "/" cs ∨ cs ≠ [] ∧ path = pattern +:+ String.concat "/" cs +:+ "/").

Lemma splitChar_slash s : splitChar "/" s = splitSlash s.
Proof. induction s as [|c s IH]; [done|]. cbn. by rewrite IH. Qed.

Lemma component_ends c : component c = true →
  (∃ x s, c = String x s ∧ x ≠ "/"%char) ∧ ∃ u x, c = u +:+ String x "" ∧ x ≠ "/"%char.
Proof.
  intros (Hns & Hne & _)%component_spec. destruct c as [|x s]; [done|]. split.
  - exists x, s. split; [done|]. cbn in Hns. apply andb_true_iff in Hns as [Hx _]. by rewrite negb_true_iff, bool_decide_eq_false in Hx.
  - clear Hne. revert x Hns. induction s as [|y s IH]; intros x; cbn; intros [Hx Hs]%andb_true_iff.
    + exists "", x. split; [done|]. by rewrite negb_true_iff, bool_decide_eq_false in Hx.
    + destruct (IH y Hs) as (u & z & Hu & Hz). exists (String x u), z. cbn. by rewrite Hu.
Qed.

Lemma concat_ends c cs : Forall (λ c, component c = true) (c :: cs) →
  (∃ x s, String.concat "/" (c :: cs) = String x s ∧ x ≠ "/"%char) ∧
  ∃ u x, String.concat "/" (c :: cs) = u +:+ String x "" ∧ x ≠ "/"%char.
Proof.
  revert c. induction cs as [|c' cs IH]; intros c [Hc Hcs]%Forall_cons; [by apply component_ends|].
  change (String.concat "/" (c :: c' :: cs)) with (c +:+ String "/" (String.concat "/" (c' :: cs))).
  destruct (component_ends c Hc) as [(x & s & -> & Hx) _]. destruct (IH c' Hcs) as [_ (u & y & -> & Hy)]. split.
  - eexists x, _. split; [reflexivity|done].
  - exists (String x s +:+ String "/" u), y. split; [|done]. by rewrite <- (string_app_assoc (String x s)).
Qed.

(** The handler takes the elements of the path apart again. *)
Lemma routed_elements pattern path : routed pattern path →
  pathBelow pattern path = "" ∨ Forall (λ c, component c = true) (splitChar "/" (pathBelow pattern path)).
Proof.
  intros (cs & Hcs & Hp). destruct cs as [|c cs].
  { left. destruct Hp as [-> |[? _]]; [|done]. cbn. rewrite string_app_nil_r. unfold pathBelow, TrimPrefix.
    pose proof (HasPrefix_app pattern "") as Hpa. pose proof (dropBytes_app pattern "") as Hpb. rewrite string_app_nil_r in Hpa, Hpb. by rewrite Hpa, Hpb. }
  right. destruct (concat_ends c cs Hcs) as [(x & s & Hx & Hxs) (u & y & Hu & Hy)].
  assert (pathBelow pattern path = String.concat "/" (c :: cs)) as ->.
  { unfold pathBelow, TrimPrefix, trimChar, trimRightChar. destruct Hp as [-> |[_ ->]]; rewrite HasPrefix_app, dropBytes_app.
    - rewrite Hx at 1. cbn [trimLeftChar]. rewrite bool_decide_eq_false_2 by done. rewrite <- Hx, Hu.
      apply trimRightBy_app; [by rewrite bool_decide_eq_false_2|done].
    - rewrite Hx at 1. rewrite string_app_cons. cbn [trimLeftChar]. rewrite bool_decide_eq_false_2 by done.
      rewrite <- string_app_cons, <- Hx, Hu, <- string_app_assoc. apply trimRightBy_app; [by rewrite bool_decide_eq_false_2|done]. }
  rewrite splitChar_slash, splitSlash_concat; [done|done|]. eapply Forall_impl; [exact Hcs|]. by intros ? [? _]%component_spec.
Qed.


(** ** Rolling back *)

(** The snapshots of an agent are those of the configurations, labelled in order. *)
Definition history (t id : string) (cfgs : list (option AgentConfig)) (vs : versionStore) : Prop :=
  (λ v, (vVersion v, vConfig v)) <$> go_get [] (versions vs) (agentVersionKey t id) =
    imap (λ i c, ("v" +:+ pretty (Z.of_nat i + 1), marshalConfig c)) cfgs.

Lemma history_length t id cfgs vs :
  history t id cfgs vs → length (go_get [] (versions vs) (agentVersionKey t id)) = length cfgs.
Proof. intros Hh. apply (f_equal length) in Hh. by rewrite length_fmap, length_imap in Hh. Qed.

Lemma history_snoc t id cfgs vs now by_ cfg :
  t ≠ "" → id ≠ "" → history t id cfgs vs → (length cfgs < 1000)%nat →
  history t id (cfgs ++ [cfg]) (snapshotNext false now t id by_ (marshalConfig cfg) vs).
Proof.
  intros Ht Hid Hh Hlen. unfold history.
  destruct (snapshotNext_versions now t id by_ (marshalConfig cfg) vs Ht Hid) as (v & Hc & Hv & ->).
  rewrite (history_length _ _ _ _ Hh) in *.
  replace (length cfgs + 1 - Z.to_nat maxVersionsPerAgent)%nat with 0%nat by (unfold maxVersionsPerAgent; lia).
  rewrite drop_0, fmap_app, imap_app, Hh. cbn. by rewrite Hc, Hv, Nat.add_0_r.
Qed.

Lemma label_inj (i j : nat) :
  "v" +:+ pretty (Z.of_nat i + 1) = "v" +:+ pretty (Z.of_nat j + 1) → i = j.
Proof. intros Heq. injection Heq as Heq. rewrite !string_app_nil in Heq. apply (inj pretty) in Heq. lia. Qed.

Lemma GetVersion_history t id cfgs vs (k : nat) cfg :
  t ≠ "" → id ≠ "" → history t id cfgs vs → cfgs !! k = Some cfg →
  ∃ v, GetVersion false t id ("v" +:+ pretty (Z.of_nat k + 1)) vs = inr (Some v) ∧ vConfig v = marshalConfig cfg.
Proof.
  intros Ht Hid Hh Hk. unfold GetVersion. rewrite decide_False by (intros [?|[?|Hx]]; [done..|by inversion Hx]).
  set (l := go_get [] (versions vs) (agentVersionKey t id)) in *.
  assert (∀ i v, l !! i = Some v → ∃ c, cfgs !! i = Some c ∧
    vVersion v = "v" +:+ pretty (Z.of_nat i + 1) ∧ vConfig v = marshalConfig c) as Hl.
  { intros i v Hi. apply (f_equal (.!! i)) in Hh. rewrite list_lookup_fmap in Hh. fold l in Hh.
    rewrite Hi, list_lookup_imap in Hh. destruct (cfgs !! i) as [c|]; cbn in Hh; [|done]. injection Hh as -> ->. eauto. }
  destruct (lookup_lt_is_Some_2 l k) as [v Hv].
  { unfold l. rewrite (history_length _ _ _ _ Hh). by apply lookup_lt_Some in Hk. }
  destruct (Hl k v Hv) as (c & Hc & Hvv & Hvc).
  destruct (filter (λ v, vVersion v = "v" +:+ pretty (Z.of_nat k + 1)) (reverse l)) as [|w ws] eqn:Hf.
  - apply (f_equal (v ∈.)) in Hf. exfalso. apply (not_elem_of_nil v). rewrite <-Hf.
    apply list_elem_of_filter. split; [done|]. apply elem_of_reverse. by eapply list_elem_of_lookup_2.
  - exists w. split; [done|]. assert (w ∈ w :: ws) as Hw by left. rewrite <-Hf in Hw.
    apply list_elem_of_filter in Hw as [Hwv Hwl]. rewrite elem_of_reverse in Hwl.
    apply list_elem_of_lookup_1 in Hwl as [j Hj].
    destruct (Hl j w Hj) as (c' & Hc' & Hjv & ->). rewrite Hjv in Hwv. apply label_inj in Hwv as ->. congruence.
Qed.

(** A request whose writes succeed. *)
Definition calm (rq : Request) : Prop := rqCancelled rq = false ∧ rqFault rq = false.

Definition goodUpdate (rq : Request) : Prop :=
  calm rq ∧ ∃ req, asAgentUpdate rq = Some req ∧ badName (uName req) = false.

Definition newConfig (rq : Request) : option AgentConfig := asAgentUpdate rq ≫= uConfig.

Definition updateAll (t id : string) (rqs : list Request) (s : Api') : Api' :=
  foldl (λ s rq, (handleAgentUpdate rq t id s).2) s rqs.

Lemma GetAgent_present t a st x : t ≠ "" → a ≠ "" → agents st !! agentStorageKey t a = Some x → GetAgent false t a st = inr (Some x).
Proof. intros Ht Ha Hx. unfold GetAgent. rewrite decide_False by tauto. by rewrite Hx. Qed.

Lemma SaveAgent_calm x st :
  AgentTenant x ≠ "" → AgentID_ x ≠ "" →
  ∃ st', SaveAgent false false x st = (None, st') ∧
    agents st' !! agentStorageKey (AgentTenant x) (AgentID_ x) = Some x.
Proof.
  intros Ht Ha. unfold SaveAgent, validateAgent. rewrite decide_False by tauto. eexists. split; [done|].
  cbn. apply lookup_insert_eq.
Qed.

(** The agent is stored, with the history of the configurations. *)
Record hasHistory (t id : string) (cfgs : list (option AgentConfig)) (rs : fileRunStore) (s : Api') : Prop := {
  hh_history : history t id cfgs (apVersions s);
  hh_agent : ∃ x, agents (apAgents s) !! agentStorageKey t id = Some x ∧ AgentTenant x = t ∧ AgentID_ x = id;
  hh_runs : sRuns (apRuns s) = rs
}.

Lemma hasHistory_update t id cfgs rs rq (s : Api') :
  t ≠ "" → id ≠ "" → hasHistory t id cfgs rs s → goodUpdate rq → (length cfgs < 1000)%nat →
  hasHistory t id (cfgs ++ [newConfig rq]) rs (handleAgentUpdate rq t id s).2.
Proof.
  intros Ht Hid [Hh (x & Hx & Hxt & Hxi) Hr] [[Hc Hf] (req & Hreq & Hname)] Hlen.
  unfold handleAgentUpdate, newConfig. rewrite Hc, (GetAgent_present t id _ x), Hreq, Hname by done. cbn [mbind option_bind].
  unfold saveAndSnapshot. rewrite Hc, Hf. set (a := {| AgentID_ := _ |}).
  destruct (SaveAgent_calm a (apAgents s)) as (st' & -> & Ha); [cbn; congruence..|].
  assert (AgentID_ a = id) as Hai by done. rewrite Hai.
  split; cbn [setAgents apVersions apAgents apRuns snd]; [by apply history_snoc| |done].
  exists a. cbn in Ha |- *. by rewrite Hxt, Hxi in Ha.
Qed.

Lemma hasHistory_updates t id rs rqs cfgs (s : Api') :
  t ≠ "" → id ≠ "" → hasHistory t id cfgs rs s → Forall goodUpdate rqs → (length cfgs + length rqs <= 1000)%nat →
  hasHistory t id (cfgs ++ (newConfig <$> rqs)) rs (updateAll t id rqs s).
Proof.
  intros Ht Hid Hs Hrqs. revert cfgs s Hs.
  induction Hrqs as [|rq rqs Hrq Hrqs IH]; intros cfgs s Hs Hlen; cbn; [by rewrite app_nil_r|].
  cbn [length] in Hlen. rewrite (cons_middle (newConfig rq)), app_assoc.
  apply IH; [|rewrite length_app; cbn [length]; lia]. apply hasHistory_update; [done..|lia].
Qed.

(** A rollback undoes configuration changes: when an agent has been created and
    then updated fewer than 1000 times, rolling back to the label of any of these
    steps, while none of the agent's hundred latest runs is active, answers with
    the agent under exactly the configuration of that step and its current name,
    and stores it. *)
Theorem rollback_restores (create : Request) (updates : list Request) (rb : Request) (req : AgentCreateRequest)
    (t id : string) (rs : list Run) (k : nat) (cfg : option AgentConfig) (s : Api') :
  component t = true → cAgentID req = id → asAgentCreate create = Some req → calm create → validAgentID id = true →
  badName (cName req) = false → agents (apAgents s) !! agentStorageKey t id = None →
  versions (apVersions s) !! agentVersionKey t id = None →
  Forall goodUpdate updates → (length updates < 1000)%nat →
  (cConfig req :: (newConfig <$> updates)) !! k = Some cfg →
  calm rb → asRollback rb = Some ("v" +:+ pretty (Z.of_nat k + 1)) →
  ListByAgent false t id 100 "" (sRuns (apRuns s)) = inr rs → existsb active rs = false →
  let s2 := updateAll t id updates (handleAgentCreate create t s).2 in
  ∃ x a s3, GetAgent false t id (apAgents s2) = inr (Some x) ∧
    handleAgentRollback rb t id s2 = (EAgent 200 a, s3) ∧ Config a = cfg ∧ AName a = AName x ∧
    GetAgent false t id (apAgents s3) = inr (Some a).
Proof.
  intros Ht <- Hreq [Hc Hf] Hvalid Hname Hnew Hnover Hups Hlen Hk [Hrc Hrf] Hrb Hrs Hact. cbv zeta.
  set (id := cAgentID req) in *.
  assert (t ≠ "" ∧ id ≠ "") as [Htne Hidne].
  { apply validAgentID_component, component_spec in Hvalid. apply component_spec in Ht. tauto. }
  assert (hasHistory t id [cConfig req] (sRuns (apRuns s)) (handleAgentCreate create t s).2) as Hcreated.
  { unfold handleAgentCreate. rewrite Hreq. fold id. rewrite bool_decide_eq_false_2, Hvalid, Hname by done. cbn [orb negb].
    unfold CreateAgent, validateAgent, CreateSnapshot. rewrite Hc, Hf.
    cbn [AgentTenant AgentID_]. rewrite decide_False by tauto. rewrite Hnew, decide_False by (by intros [? ?]).
    cbn [persistAgent]. rewrite decide_False by (intros [?|[?|?]]; done).
    split; cbn [setAgents apVersions apAgents apRuns snd]; [| |done].
    - unfold history. cbn [versions]. rewrite go_get_insert, decide_True by done. unfold go_get. rewrite Hnover. done.
    - cbn. rewrite lookup_insert_eq. eauto. }
  pose proof (hasHistory_updates t id _ updates _ _ Htne Hidne Hcreated Hups) as [Hh (x & Hx & Hxt & Hxi) Hr];
    [cbn [length]; lia|].
  set (s2 := updateAll t id updates _) in *.
  exists x. pose proof (GetAgent_present t id _ x Htne Hidne Hx) as Hget.
  destruct (GetVersion_history t id _ _ k cfg Htne Hidne Hh Hk) as (v & Hv & Hvc).
  unfold handleAgentRollback. rewrite Hrc, Hget, Hrb. rewrite decide_False by (by inversion 1).
  rewrite Hv, Hr, Hrs, Hact, Hvc.
  replace (snapshotConfig (marshalConfig cfg)) with (Some cfg) by (by destruct cfg).
  rewrite Hrf. set (a := {| AgentID_ := _ |}).
  destruct (SaveAgent_calm a (apAgents s2)) as (st' & -> & Ha); [cbn; congruence..|].
  exists a. eexists. split_and!; [done|done|done|done|]. cbn [setAgents apAgents]. apply GetAgent_present; [done..|].
  cbn in Ha. by rewrite Hxt, Hxi in Ha.
Qed.

End agents.

(** ** Paging through the agents *)

#[global] Instance agentIDLe_trans : Transitive agentIDLe.
Proof. intros a b c Hab Hbc. unfold agentIDLe in *. by etrans. Qed.

#[global] Instance agentIDLe_total : Total agentIDLe.
Proof. intros a b. unfold agentIDLe. apply (total String.le). Qed.

Section paging.
Context {B St : Type} `{SliceSort, !SliceSortLaws}.
Context (d : string) (ds : list string).

(** A client reads page after page, starting each after the last agent it saw;
    every answer may visit the store in another order. *)
Fixpoint agentPages (rq : string → Request) (t : string) (s : Api B St) (orders : list AgentRange) (after : string) : list Agent :=
  match orders with
  | [] => []
  | o :: orders' =>
      match @handleAgentList B St _ o (rq after) t s with
      | EAgents l hasMore =>
          l ++ (if hasMore then agentPages rq t s orders' (default "" (AgentID_ <$> list.last l)) else [])
      | _ => []
      end
  end.

Lemma skipAgents_app after l1 l2 :
  Forall (λ a, String.le (AgentID_ a) after) l1 → Forall (λ a, ¬ String.le (AgentID_ a) after) l2 →
  skipAgents after (l1 ++ l2) = l2.
Proof.
  intros H1 H2. induction H1 as [|a l1 Ha _ IH]; cbn; [|by rewrite decide_True].
  destruct H2 as [|a l2 Ha _]; cbn; [done|]. by rewrite decide_False.
Qed.

(** In a sorted list of distinct agents, the cursor of an agent skips exactly
    what comes up to it. *)
Lemma skipAgents_sorted l1 x l2 :
  StronglySorted agentIDLe (l1 ++ x :: l2) → NoDup (AgentID_ <$> (l1 ++ x :: l2)) →
  skipAgents (AgentID_ x) (l1 ++ x :: l2) = l2.
Proof.
  intros Hs Hnd. rewrite (cons_middle x), app_assoc in Hs |- *. apply skipAgents_app.
  - apply Forall_app. split; [|by repeat constructor]. rewrite <-app_assoc in Hs. apply Forall_forall. intros a Ha.
    apply (StronglySorted_app_1_elem_of agentIDLe l1 (x :: l2) a x Hs Ha). left.
  - apply Forall_forall. intros a Ha Hle. rewrite fmap_app, fmap_cons in Hnd.
    apply NoDup_app in Hnd as (_ & _ & [Hn _]%NoDup_cons). apply Hn.
    assert (agentIDLe x a) as Hxa. { apply (StronglySorted_app_1_elem_of agentIDLe (l1 ++ [x]) l2); [done|set_solver|done]. }
    replace (AgentID_ x) with (AgentID_ a); [by apply list_elem_of_fmap_2|]. by apply (anti_symm String.le).
Qed.

(** The agents of a tenant in order of their names. *)
Record tenantAgents (t : string) (s : Api B St) (l : list Agent) : Prop := {
  ta_sorted : StronglySorted agentIDLe l;
  ta_nodup : NoDup (AgentID_ <$> l);
  ta_list (o : AgentRange) : GoRange (@agent_range o) →
    ∃ l', @ListAgents o false t (apAgents s) = inr l' ∧ sortSlice agentIDLe l' = l
}.

Lemma tenantAgents_exists t s m (o0 : AgentRange) :
  GoRange (@agent_range o0) → t ≠ "" → storeRel d ds (apAgents s) m →
  ∃ l, tenantAgents t s l ∧ ∀ x, x ∈ l ↔ ∃ a, m !! (t, a) = Some x.
Proof.
  intros Ho0 Ht Hrel. destruct (@ListAgents_rel d ds o0 Ho0 _ _ t Ht Hrel) as (l0 & Hl0 & Hnd0 & Hin0).
  assert (∀ x y, (∃ a, m !! (t, a) = Some x) → (∃ a, m !! (t, a) = Some y) → AgentID_ x = AgentID_ y → x = y) as Hinj.
  { intros x y [a Hx] [b Hy] Heq. pose proof (rel_keyed _ _ _ _ Hrel _ _ _ Hx) as (_ & <- & _).
    pose proof (rel_keyed _ _ _ _ Hrel _ _ _ Hy) as (_ & <- & _). congruence. }
  exists (sortSlice agentIDLe l0). split; [split|].
  - apply sort_sorted; apply _.
  - rewrite (sort_perm agentIDLe l0). apply NoDup_fmap_2_strong; [|done]. intros x y Hx%Hin0 Hy%Hin0. by apply Hinj.
  - intros o Ho. destruct (@ListAgents_rel d ds o Ho _ _ t Ht Hrel) as (l' & Hl' & Hnd' & Hin'). exists l'. split; [done|].
    apply (StronglySorted_unique_strong agentIDLe).
    + intros x y Hx Hy Hxy Hyx. rewrite (sort_perm agentIDLe l') in Hx. rewrite (sort_perm agentIDLe l0) in Hy.
      apply Hinj; [by apply Hin'|by apply Hin0|]. by apply (anti_symm String.le).
    + apply sort_sorted; apply _.
    + apply sort_sorted; apply _.
    + rewrite !(sort_perm agentIDLe). apply NoDup_Permutation; [done..|]. intros x. by rewrite Hin', Hin0.
  - intros x. rewrite (sort_perm agentIDLe l0). apply Hin0.
Qed.

(** The pages from the cursor [after] on are the agents past it. *)
Lemma agentPages_suffix rq t s n orders l1 l2 :
  (∀ after, rqCancelled (rq after) = false ∧ Atoi (rqQuery (rq after) "limit") = Some n ∧
            rqQuery (rq after) "after" = after) →
  1 <= n <= 200 → tenantAgents t s (l1 ++ l2) → Forall (λ a, AgentID_ a ≠ "") (l1 ++ l2) →
  Forall (λ o : AgentRange, GoRange (@agent_range o)) orders → (length l2 < length orders)%nat →
  agentPages rq t s orders (default "" (AgentID_ <$> list.last l1)) = l2.
Proof.
  intros Hrq Hn Hta Hne Hos. revert l1 l2 Hta Hne. induction Hos as [|o orders Ho Hos IH]; intros l1 l2 Hta Hne Hlen; [cbn in Hlen; lia|].
  cbn [agentPages]. unfold handleAgentList. destruct (Hrq (default "" (AgentID_ <$> list.last l1))) as (-> & Hlim & ->).
  pose proof Hta as [Hs Hnd Hl]. destruct (Hl o Ho) as (l' & -> & ->).
  unfold limitParam. rewrite Hlim, (bool_decide_eq_true_2 (0 < n)), (bool_decide_eq_false_2 (200 < n)) by lia.
  assert ((if decide (default "" (AgentID_ <$> list.last l1) = "") then l1 ++ l2
           else skipAgents (default "" (AgentID_ <$> list.last l1)) (l1 ++ l2)) = l2) as ->.
  { destruct l1 as [|x l1 _] using rev_ind; [done|]. rewrite last_snoc. cbn [fmap option_fmap option_map default from_option].
    rewrite decide_False; cycle 1.
    { rewrite Forall_app in Hne. destruct Hne as [Hne _]. rewrite Forall_app, Forall_singleton in Hne. tauto. }
    rewrite <-app_assoc in Hs, Hnd |- *. by apply skipAgents_sorted. }
  case_bool_decide as Hmore; [|by rewrite app_nil_r, take_ge by lia].
  rewrite <-(take_drop (Z.to_nat n) l2) at 3. f_equal.
  rewrite <-(take_drop (Z.to_nat n) l2), app_assoc in Hta, Hne.
  assert (0 < length (take (Z.to_nat n) l2))%nat as Hpos by (rewrite length_take; lia).
  specialize (IH (l1 ++ take (Z.to_nat n) l2) (drop (Z.to_nat n) l2) Hta Hne).
  rewrite last_app in IH. destruct (list.last (take (Z.to_nat n) l2)) eqn:Hlast;
    [|apply last_None in Hlast; rewrite Hlast in Hpos; cbn in Hpos; lia].
  apply IH. rewrite length_drop. cbn [length] in Hlen. lia.
Qed.

(** Reading the agents of a tenant page by page, each request naming the last
    agent of the page before, gives every agent of the tenant exactly once, in the
    order of the names and no other: for every page size from 1 to 200 and
    whatever order the store visits its map in. *)
Theorem agent_paging_complete (rq : string → Request) (t : string) (n : Z) (orders : list AgentRange) (s : Api B St)
    (m : gmap (string * string) Agent) :
  storeRel d ds (apAgents s) m → t ≠ "" →
  (∀ after, rqCancelled (rq after) = false ∧ Atoi (rqQuery (rq after) "limit") = Some n ∧
            rqQuery (rq after) "after" = after) →
  1 <= n <= 200 → Forall (λ o : AgentRange, GoRange (@agent_range o)) orders → (size m < length orders)%nat →
  let l := agentPages rq t s orders "" in
  StronglySorted agentIDLe l ∧ NoDup l ∧ ∀ x, x ∈ l ↔ ∃ a, m !! (t, a) = Some x.
Proof.
  intros Hrel Ht Hrq Hn Hos Hlen. cbv zeta.
  destruct orders as [|o0 orders]; [cbn in Hlen; lia|]. pose proof Hos as [Ho0 _]%Forall_cons.
  destruct (tenantAgents_exists t s m o0 Ho0 Ht Hrel) as (l & Hta & Hin).
  assert (∀ x, x ∈ l → m !! (t, AgentID_ x) = Some x ∧ AgentID_ x ≠ "") as Hm.
  { intros x [a Hx]%Hin. pose proof (rel_keyed _ _ _ _ Hrel _ _ _ Hx) as (_ & -> & _ & ?%component_nonempty). done. }
  assert (NoDup l) as Hnd by (eapply NoDup_fmap_1, ta_nodup, Hta).
  assert (length l ≤ size m)%nat as Hle.
  { rewrite <-(length_fmap (λ x, ((t, AgentID_ x), x)) l), <-length_map_to_list. apply submseteq_length, NoDup_submseteq.
    - apply NoDup_fmap_2; [by intros ? ? [=]|done].
    - intros k (x & -> & Hx)%list_elem_of_fmap. apply elem_of_map_to_list. by apply Hm. }
  pose proof (agentPages_suffix rq t s n (o0 :: orders) [] l Hrq Hn Hta) as Hp. cbn [list.last fmap option_fmap option_map default from_option] in Hp.
  rewrite Hp; [|apply Forall_forall; intros x Hx; by apply Hm|done|lia].
  split_and!; [apply Hta|done|done].
Qed.

End paging.

(** ** Witnesses *)

#[local] Instance sample_run_range : RunRange := map_to_list.
#[local] Instance sample_agent_range : AgentRange := map_to_list.
#[local] Instance sample_key_range : KeyRange := map_to_list.
#[local] Instance sample_sort : SliceSort := mergeSlice.
#[local] Instance sample_scan : KeyScan := map_to_list.
#[local] Instance sample_bcrypt : Bcrypt := plainBcrypt.
#[local] Instance sample_tenants : Tenants.TenantRange := map_to_list.

Definition backwardAgents : AgentRange := λ m, rev (map_to_list m).

Definition mkRequest (method path : string) (query : string → string) (ac : AuthContext) (c : option AgentCreateRequest)
    (u : option AgentUpdateRequest) (rb : option string) (v : ValueBody) (k : option KeyRequest) : Request := {|
  rqMethod := method; rqPath := path; rqQuery := query; rqLastEventID := ""; rqAuth := ac; rqCancelled := false;
  rqFault := false; rqNow := "t1"; rqNowOf := λ _, "t1"; rqClockQPS := 0; rqClockBudget := 0; rqClock := 0;
  rqFreshID := "r1"; rqRaw := Some sample_raw; rqIDRaw := Some ["001"%char]; rqSalt := "salt"; asAgentCreate := c;
  asAgentUpdate := u; asRollback := rb; asRun := None; asBatch := None; asValue := v; asTenant := None; asKey := k;
  asMember := None
|}.

Definition principal (name : string) (scopes : string) : AuthContext :=
  FromRequest (λ k, if decide (k = "X-Tenant-Id") then "acme" else if decide (k = "X-Principal-Id") then name
                    else if decide (k = "X-Scopes") then scopes else "").

Definition sample_api (agents : list Agent) : Api (MemoryBackend Q) Empty_set := {|
  apRuns := sample_server;
  apAgents := foldl (λ st a, (SaveAgent false false a st).2) (emptyAgentStore "data" ["agents"]) agents;
  apVersions := NewMemoryAgentVersionStore;
  apMembers := Some {| mRows := {[("acme", "ann") := "admin"; ("acme", "vic") := "viewer"]}; mFaults := [] |};
  apTenants := Tenants.EnsureDefault "t0" "acme" Tenants.NewStore;
  apKV := Some (NewFileKVStore "data/kv" 0 0 ∅); apKVMaxValueSize := 65536; apMemory := None;
  apKeys := Some {| kRows := ∅; kFaults := [] |}; apSinks := ∅; apLog := None
|}.

Definition no_query : string → string := λ _, "".

Definition create_bot : Request :=
  mkRequest "POST" "/v1/agents/" no_query (principal "ann" "")
    (Some {| cAgentID := "bot"; cName := "Bot"; cDescription := ""; cConfig := None |}) None None BodyGarbled None.

Lemma sample_api_rel : storeRel "data" ["agents"] (apAgents (sample_api [])) ∅.
Proof. apply emptyAgentStore_rel. Qed.


Definition update_bot (name : string) (cfg : option AgentConfig) : Request :=
  mkRequest "PUT" "/v1/agents/bot" no_query (principal "ann" "") None
    (Some {| uName := name; uDescription := ""; uConfig := cfg |}) None BodyGarbled None.

Definition rollback_bot (v : string) : Request :=
  mkRequest "POST" "/v1/agents/bot/rollback" no_query (principal "ann" "") None None (Some v) BodyGarbled None.

Definition sample_config : AgentConfig :=
  {| SystemPrompt := "be brief"; ModelID := "m1"; ToolNames := []; CfgMaxSteps := 3; CfgTimeoutMs := 0 |}.

Lemma rollback_restores_witness :
  let s2 := updateAll "acme" "bot" [update_bot "B2" (Some sample_config); update_bot "B3" None]
    (handleAgentCreate create_bot "acme" (sample_api [])).2 in
  ∃ x a s3, GetAgent false "acme" "bot" (apAgents s2) = inr (Some x) ∧
    handleAgentRollback (rollback_bot "v2") "acme" "bot" s2 = (EAgent 200 a, s3) ∧ Config a = Some sample_config ∧
    AName a = AName x ∧ GetAgent false "acme" "bot" (apAgents s3) = inr (Some a).
Proof.
  apply (rollback_restores create_bot [update_bot "B2" (Some sample_config); update_bot "B3" None] (rollback_bot "v2")
    {| cAgentID := "bot"; cName := "Bot"; cDescription := ""; cConfig := None |} "acme" "bot" [] 1 (Some sample_config)
    (sample_api [])); try (vm_compute; reflexivity).
  - split; reflexivity.
  - repeat constructor; eexists; (split; [reflexivity|vm_compute; reflexivity]).
  - cbn. lia.
  - split; reflexivity.
Defined.

(** A tenant can be registered under any name, and the keys of agents are joined and cleaned
    like paths: under the name x/../acme the first principal deletes an agent of acme. *)
Definition foreign_delete (ac : AuthContext) : Request :=
  mkRequest "DELETE" "/v1/agents/cat" no_query ac None None None BodyGarbled None.

Example registered_name_reaches_others :
  let api := sample_api [bareAgent "acme" "cat"] in
  let '(answer, tenants) := Tenants.Create "t2" {|
    Tenants.TenantID := "x/../acme"; Tenants.Name := ""; Tenants.Status := ""; Tenants.PlanTier := ""; Tenants.Entitlements := None;
    Tenants.Quotas := None; Tenants.Metadata := None; Tenants.Policy := None; Tenants.CreatedAt := ""; Tenants.UpdatedAt := "" |} (apTenants api) in
  answer = None ∧
  let ac := FromRequest (λ k, if decide (k = "X-Tenant-Id") then "x/../acme" else if decide (k = "X-Principal-Id") then "eve" else "") in
  GetAgent false "acme" "cat" (apAgents api) = inr (Some (bareAgent "acme" "cat")) ∧
  GetAgent false "acme" "cat" (apAgents (handleAgents no_env (foreign_delete ac) (setTenants tenants api)).2) = inr None.
Proof. vm_compute. auto. Qed.

Definition list_request (after : string) : Request :=
  mkRequest "GET" "/v1/agents/" (λ k, if decide (k = "limit") then "2" else if decide (k = "after") then after else "")
    (principal "vic" "") None None None BodyGarbled None.

Definition three_agents : list Agent := [bareAgent "acme" "cat"; bareAgent "acme" "ant"; bareAgent "acme" "bee"].

Lemma three_agents_rel : storeRel "data" ["agents"] (apAgents (sample_api three_agents))
  (foldl (λ m a, <[(AgentTenant a, AgentID_ a) := a]> m) ∅ three_agents).
Proof.
  unfold three_agents. cbn [foldl sample_api apAgents].
  do 3 (match goal with |- storeRel ?d ?ds (SaveAgent false false ?a ?st).2 (<[_:=_]> ?m) =>
    apply (rel_disk d ds (putAgent a st)), rel_put; [|vm_compute; reflexivity..] end).
  apply emptyAgentStore_rel.
Qed.

Lemma agent_paging_complete_witness :
  (AgentID_ <$> agentPages list_request "acme" (sample_api three_agents)
     [sample_agent_range; backwardAgents; sample_agent_range; backwardAgents] "") = ["ant"; "bee"; "cat"] ∧
  NoDup (agentPages list_request "acme" (sample_api three_agents)
     [sample_agent_range; backwardAgents; sample_agent_range; backwardAgents] "").
Proof.
  split; [vm_compute; reflexivity|].
  apply (@agent_paging_complete _ _ mergeSlice mergeSlice_laws "data" ["agents"] list_request "acme" 2
    [sample_agent_range; backwardAgents; sample_agent_range; backwardAgents] _ _ three_agents_rel); [done| |lia| |].
  - intros after. split_and!; [done|vm_compute; reflexivity|reflexivity].
  - repeat constructor; try apply GoRange_map_to_list; apply GoRange_rev.
  - vm_compute. lia.
Defined.

(** A principal without any role writes key-value data of an agent. *)
Definition put_color : Request :=
  mkRequest "PUT" "/v1/agents/bot/kv/color" no_query (principal "eve" "") None None None (BodyValue "red") None.

Example kv_write_without_role :
  granted no_env "viewer" put_color (sample_api []) = false ∧
  (handleAgents no_env put_color (sample_api [])).1 = EKey "color".
Proof. vm_compute. auto. Qed.

(** An administrator of the tenant issues a key with the role of an owner. *)
Definition owner_key : Request :=
  mkRequest "POST" "/v1/tenants/api-keys" no_query (principal "ann" "") None None None BodyGarbled
    (Some {| kqName := ""; kqRole := "owner"; kqExpiresInDays := None |}).

Example admin_issues_owner_key :
  granted no_env "owner" owner_key (sample_api []) = false ∧
  match (handleAPIKeys no_env owner_key (sample_api [])).1 with ENewKey _ rec => KRole rec = "owner" | _ => False end.
Proof. vm_compute. auto. Qed.

(** A header of the client alone opens the administration of tenants. *)
Example scope_header_is_trusted :
  (handleTenants (mkRequest "GET" "/v1/admin/tenants" no_query (principal "eve" "tenants:admin") None None None BodyGarbled None)
     (sample_api [])).1 = ETenants (Tenants.ListTenants (apTenants (sample_api []))).
Proof. vm_compute. reflexivity. Qed.

(** Deleting an agent keeps its snapshots: an agent created later under the same
    name can be rolled back to the configuration of the deleted one. *)
Example deleted_history_returns :
  let s1 := updateAll "acme" "bot" [update_bot "B2" (Some sample_config)]
    (handleAgentCreate create_bot "acme" (sample_api [])).2 in
  let s2 := (handleAgentDelete (rollback_bot "") "acme" "bot" s1).2 in
  let s3 := (handleAgentCreate create_bot "acme" s2).2 in
  match (handleAgentRollback (rollback_bot "v2") "acme" "bot" s3).1 with
  | EAgent 200 a => Config a = Some sample_config
  | _ => False
  end.
Proof. vm_compute. reflexivity. Qed.

(** Pages of API keys are cut by name although the rows come newest first: after
    the page that ends with "kb", the older key "ka" is never listed. *)
Definition key_row (id : string) (created : Time) : APIKeyRecord := {|
  KeyID := id; KTenantID := "acme"; KeyHash := ""; KeyPrefix := id; KName := ""; KRole := "viewer"; CreatedBy := "";
  KCreatedAt := created; ExpiresAt := None; RevokedAt := None
|}.

Definition key_page (after : string) : Answer :=
  (handleAPIKeyList (mkRequest "GET" "/v1/tenants/api-keys"
     (λ k, if decide (k = "limit") then "1" else if decide (k = "after") then after else "") (principal "ann" "")
     None None None BodyGarbled None) "acme"
     (setKeys (Some {| kRows := {["kb" := key_row "kb" 2; "ka" := key_row "ka" 1]}; kFaults := [] |}) (sample_api []))).1.

Example key_page_skips :
  match key_page "", key_page "kb" with
  | EAPIKeys [k] true, EAPIKeys [] false => KeyID k = "kb"
  | _, _ => False
  end.
Proof. vm_compute. reflexivity. Qed.

Example version_numbers :
  bumpVersion "1" = "2" ∧ bumpVersion "beta" = "1" ∧ bumpVersion "9223372036854775807" = "-9223372036854775808".
Proof. vm_compute. auto. Qed.
