(* ===== verification/MathEval.v ===== *)
(** * MathEval: the arithmetic tool (internal/tools/math_eval.go)

    A recursive-descent parser that computes while it reads.  The parser's
    position is the list of bytes still to read; positions in error messages are
    given as the number of bytes left.  The recursion is bounded by fuel, and
    [evalExpr] gives enough of it ([math_eval_total]).

    Numbers are those of an abstract [Float64]: the operations of Go's [float64],
    of [strconv.ParseFloat] and of the [math] package the tool calls.  The theorems
    hold for any of them. *)
From S2P Require Import Prelude GoStrings.

(** ** Numbers *)

Inductive Fn1 := Sqrt | Abs | Floor | Ceil | Round | Log | Log10.
Inductive Fn2 := Pow | Min | Max.

Class Float64 (F : Type) := {
  fadd : F → F → F;
  fsub : F → F → F;
  fmul : F → F → F;
  fdiv : F → F → F;
  fmod : F → F → F;
  fneg : F → F;
  fisZero : F → bool;
  fPi : F;
  fE : F;
  math1 : Fn1 → F → F;
  math2 : Fn2 → F → F → F;
  ParseFloat : string → option F
}.

(** ** Bytes *)

Abbreviation bytesOf := Stdlib.Strings.String.list_ascii_of_string (only parsing).
Abbreviation textOf := Stdlib.Strings.String.string_of_list_ascii (only parsing).

(** [unicode.IsSpace], [IsLetter] and [IsDigit] of a byte taken as a rune. *)
Definition isSpace (c : ascii) : bool :=
  let n := nat_of_ascii c in bool_decide ((9 ≤ n ≤ 13) ∨ n = 32 ∨ n = 133 ∨ n = 160)%nat.

Definition isLetter (c : ascii) : bool :=
  let n := nat_of_ascii c in
  bool_decide ((65 ≤ n ≤ 90) ∨ (97 ≤ n ≤ 122) ∨ n = 170 ∨ n = 181 ∨ n = 186 ∨
    (192 ≤ n ≤ 214) ∨ (216 ≤ n ≤ 246) ∨ (248 ≤ n ≤ 255))%nat.

Definition isDigit (c : ascii) : bool := let n := nat_of_ascii c in bool_decide (48 ≤ n ≤ 57)%nat.

(** [for p.pos < len(p.input) && f(p.input[p.pos]) { p.pos++ }] *)
Fixpoint skipWhile (f : ascii → bool) (s : list ascii) : list ascii :=
  match s with
  | [] => []
  | c :: s' => if f c then skipWhile f s' else s
  end.

Definition skipWhitespace : list ascii → list ascii := skipWhile isSpace.

Definition skipSign (s : list ascii) : list ascii :=
  match s with
  | c :: s' => if decide (c = "+" ∨ c = "-")%char then s' else s
  | [] => []
  end.

(** The fractional part of a number, and whether it has a digit. *)
Definition skipFraction (s : list ascii) : list ascii * bool :=
  match s with
  | c :: r => if decide (c = "."%char)
              then (skipWhile isDigit r, bool_decide (length (skipWhile isDigit r) < length r)%nat)
              else (s, false)
  | [] => ([], false)
  end.

Definition skipExponent (s : list ascii) : list ascii :=
  match s with
  | c :: r => if decide (c = "e" ∨ c = "E")%char then skipWhile isDigit (skipSign r) else s
  | [] => []
  end.

(** What was read between two positions. *)
Definition between (s s' : list ascii) : list ascii := take (length s - length s') s.

(** ** The parser *)

Inductive MathError :=
  | EFuel
  | EEnd
  | EUnexpected (left : nat)
  | EParen
  | EIdentifier
  | EDivZero
  | EModZero
  | EArity
  | EFunction
  | EArgsEnd
  | EArgsSep
  | ENumber (left : nat)
  | ERange.

Notation "'try!' p ← e ;; k" := (match e with inl err => inl err | inr p => k end)
  (at level 200, p pattern, e at level 99, k at level 200, right associativity).

Section parser.
Context {F : Type} `{Float64 F}.

Abbreviation Result := (MathError + F * list ascii)%type (only parsing).

Definition parseNumber (s : list ascii) : Result :=
  let start := skipWhitespace s in
  let s1 := skipSign start in
  let s2 := skipWhile isDigit s1 in
  let '(s3, frac) := skipFraction s2 in
  let hasDigit := bool_decide (length s2 < length s1)%nat || frac in
  let s4 := skipExponent s3 in
  if negb hasDigit then inl (ENumber (length start))
  else match ParseFloat (textOf (between start s4)) with
       | Some v => inr (v, s4)
       | None => inl ERange
       end.

Definition fn1 (name : string) : option Fn1 :=
  if decide (name = "sqrt") then Some Sqrt else if decide (name = "abs") then Some Abs
  else if decide (name = "floor") then Some Floor else if decide (name = "ceil") then Some Ceil
  else if decide (name = "round") then Some Round else if decide (name = "log") then Some Log
  else if decide (name = "log10") then Some Log10 else None.

Definition fn2 (name : string) : option Fn2 :=
  if decide (name = "pow") then Some Pow else if decide (name = "min") then Some Min
  else if decide (name = "max") then Some Max else None.

Definition applyFunc (name : string) (args : list F) : MathError + F :=
  match fn1 name, fn2 name with
  | Some f, _ => match args with [x] => inr (math1 f x) | _ => inl EArity end
  | None, Some f => match args with [x; y] => inr (math2 f x y) | _ => inl EArity end
  | None, None => inl EFunction
  end.

Definition divide (x y : F) : MathError + F := if fisZero y then inl EDivZero else inr (fdiv x y).
Definition modulo (x y : F) : MathError + F := if fisZero y then inl EModZero else inr (fmod x y).

Definition opAddSub (c : ascii) : option (F → F → MathError + F) :=
  if decide (c = "+"%char) then Some (λ x y, inr (fadd x y))
  else if decide (c = "-"%char) then Some (λ x y, inr (fsub x y)) else None.

Definition opMulDiv (c : ascii) : option (F → F → MathError + F) :=
  if decide (c = "*"%char) then Some (λ x y, inr (fmul x y))
  else if decide (c = "/"%char) then Some divide
  else if decide (c = "%"%char) then Some modulo else None.

Fixpoint parseAddSub (fuel : nat) (s : list ascii) : Result :=
  match fuel with
  | O => inl EFuel
  | S n => try! (lhs, s) ← parseMulDiv n s ;; addSubLoop n lhs s
  end
with addSubLoop (fuel : nat) (lhs : F) (s : list ascii) : Result :=
  match fuel with
  | O => inl EFuel
  | S n =>
      match skipWhitespace s with
      | [] => inr (lhs, [])
      | c :: s' =>
          match opAddSub c with
          | None => inr (lhs, c :: s')
          | Some op => try! (rhs, s) ← parseMulDiv n s' ;; try! v ← op lhs rhs ;; addSubLoop n v s
          end
      end
  end
with parseMulDiv (fuel : nat) (s : list ascii) : Result :=
  match fuel with
  | O => inl EFuel
  | S n => try! (lhs, s) ← parseUnary n s ;; mulDivLoop n lhs s
  end
with mulDivLoop (fuel : nat) (lhs : F) (s : list ascii) : Result :=
  match fuel with
  | O => inl EFuel
  | S n =>
      match skipWhitespace s with
      | [] => inr (lhs, [])
      | c :: s' =>
          match opMulDiv c with
          | None => inr (lhs, c :: s')
          | Some op => try! (rhs, s) ← parseUnary n s' ;; try! v ← op lhs rhs ;; mulDivLoop n v s
          end
      end
  end
with parseUnary (fuel : nat) (s : list ascii) : Result :=
  match fuel with
  | O => inl EFuel
  | S n =>
      match skipWhitespace s with
      | [] => parsePrimary n []
      | c :: s' =>
          if decide (c = "-"%char) then try! (v, s) ← parsePrimary n s' ;; inr (fneg v, s)
          else if decide (c = "+"%char) then parsePrimary n s'
          else parsePrimary n (c :: s')
      end
  end
with parsePrimary (fuel : nat) (s : list ascii) : Result :=
  match fuel with
  | O => inl EFuel
  | S n =>
      match skipWhitespace s with
      | [] => inl EEnd
      | c :: s' =>
          if decide (c = "("%char) then
            try! (v, s) ← parseAddSub n s' ;;
            match skipWhitespace s with
            | c :: s => if decide (c = ")"%char) then inr (v, s) else inl EParen
            | [] => inl EParen
            end
          else if isLetter c then parseFunc n (c :: s')
          else parseNumber (c :: s')
      end
  end
with parseFunc (fuel : nat) (start : list ascii) : Result :=
  match fuel with
  | O => inl EFuel
  | S n =>
      let s := skipWhile (λ c, isLetter c || isDigit c) start in
      let name := ToLower (textOf (between start s)) in
      if decide (name = "pi") then inr (fPi, s)
      else if decide (name = "e") then inr (fE, s)
      else
        match skipWhitespace s with
        | c :: s =>
            if decide (c = "("%char) then try! (args, s) ← parseArgs n s ;; try! v ← applyFunc name args ;; inr (v, s)
            else inl EIdentifier
        | [] => inl EIdentifier
        end
  end
with parseArgs (fuel : nat) (s : list ascii) : MathError + list F * list ascii :=
  match fuel with
  | O => inl EFuel
  | S n =>
      match skipWhitespace s with
      | c :: s' => if decide (c = ")"%char) then inr ([], s') else argsLoop n [] (c :: s')
      | [] => argsLoop n [] []
      end
  end
with argsLoop (fuel : nat) (args : list F) (s : list ascii) : MathError + list F * list ascii :=
  match fuel with
  | O => inl EFuel
  | S n =>
      try! (v, s) ← parseAddSub n s ;;
      match skipWhitespace s with
      | [] => inl EArgsEnd
      | c :: s =>
          if decide (c = ")"%char) then inr (args ++ [v], s)
          else if decide (c = ","%char) then argsLoop n (args ++ [v]) s
          else inl EArgsSep
      end
  end.

Definition parseExpr : nat → list ascii → Result := parseAddSub.

Definition evalExpr (expr : string) : MathError + F :=
  let input := bytesOf (TrimSpace expr) in
  try! (result, s) ← parseExpr (8 * length input + 8) input ;;
  match skipWhitespace s with
  | [] => inr result
  | s => inl (EUnexpected (length s))
  end.

(** [Execute]: the tool's input decoded, [None] when it is not JSON. *)
Inductive ToolError := TInvalidInput | TRequired | TEvaluation (e : MathError).

Definition Execute (input : option string) : ToolError + string * F :=
  match input with
  | None => inl TInvalidInput
  | Some expression =>
      if decide (expression = "") then inl TRequired
      else match evalExpr expression with
           | inl e => inl (TEvaluation e)
           | inr v => inr (expression, v)
           end
  end.

End parser.

(** ** Enough fuel *)

Lemma skipWhile_length f s : (length (skipWhile f s) ≤ length s)%nat.
Proof. induction s as [|c s IH]; cbn; [lia|]. case_match; cbn; lia. Qed.

Lemma skipWhile_cons f s c s' : skipWhile f s = c :: s' → (length s' < length s)%nat ∧ f c = false.
Proof.
  intros Hs. split; [pose proof (skipWhile_length f s) as Hl; rewrite Hs in Hl; cbn in Hl; lia|].
  induction s as [|x s IH]; cbn in Hs; [done|]. case_match; [auto|]. by simplify_eq.
Qed.

Lemma skipSign_length s : (length (skipSign s) ≤ length s)%nat.
Proof. destruct s; cbn; [lia|]. case_match; cbn; lia. Qed.

Section fuel.
Context {F : Type} `{Float64 F}.

Lemma skipFraction_length s :
  (length (skipFraction s).1 ≤ length s)%nat ∧ ((skipFraction s).2 = true → (length (skipFraction s).1 < length s)%nat).
Proof.
  destruct s as [|c r]; cbn; [done|]. case_decide; cbn; [|done].
  pose proof (skipWhile_length isDigit r). split; [lia|]. rewrite bool_decide_eq_true. lia.
Qed.

Lemma skipExponent_length s : (length (skipExponent s) ≤ length s)%nat.
Proof.
  destruct s as [|c r]; cbn; [done|]. case_decide; cbn; [|done].
  pose proof (skipWhile_length isDigit (skipSign r)). pose proof (skipSign_length r). lia.
Qed.

Lemma parseNumber_shorter (s : list ascii) (v : F) s' : parseNumber s = inr (v, s') → (length s' < length s)%nat.
Proof.
  unfold parseNumber, skipWhitespace. pose proof (skipWhile_length isSpace s).
  set (start := skipWhile isSpace s) in *. pose proof (skipSign_length start).
  set (s1 := skipSign start) in *. pose proof (skipWhile_length isDigit s1). set (s2 := skipWhile isDigit s1) in *.
  pose proof (skipFraction_length s2) as [Hf Hf']. destruct (skipFraction s2) as [s3 frac]. cbn [fst snd] in *.
  pose proof (skipExponent_length s3).
  destruct (bool_decide (length s2 < length s1)%nat || frac) eqn:Hd; cbn [negb]; [|done].
  destruct (ParseFloat _); [|done]. intros [= _ <-].
  apply orb_true_iff in Hd. rewrite bool_decide_eq_true in Hd. destruct Hd as [?|?%Hf']; lia.
Qed.

(** What a successful call leaves to read. *)
Record shorter (n : nat) : Prop := {
  sh_addsub s (v : F) s' : parseAddSub n s = inr (v, s') → (length s' < length s)%nat;
  sh_addloop l s (v : F) s' : addSubLoop n l s = inr (v, s') → (length s' ≤ length s)%nat;
  sh_muldiv s (v : F) s' : parseMulDiv n s = inr (v, s') → (length s' < length s)%nat;
  sh_mulloop l s (v : F) s' : mulDivLoop n l s = inr (v, s') → (length s' ≤ length s)%nat;
  sh_unary s (v : F) s' : parseUnary n s = inr (v, s') → (length s' < length s)%nat;
  sh_primary s (v : F) s' : parsePrimary n s = inr (v, s') → (length s' < length s)%nat;
  sh_func s (v : F) s' : parseFunc n s = inr (v, s') → (∃ c r, s = c :: r ∧ isLetter c = true) → (length s' < length s)%nat;
  sh_args s (vs : list F) s' : parseArgs n s = inr (vs, s') → (length s' < length s)%nat;
  sh_argsloop l s (vs : list F) s' : argsLoop n l s = inr (vs, s') → (length s' < length s)%nat
}.

Lemma skipWhitespace_cases s : (skipWhitespace s = []) ∨ ∃ c s', skipWhitespace s = c :: s' ∧ (length s' < length s)%nat.
Proof.
  destruct (skipWhitespace s) as [|c s'] eqn:Hs; [by left|right]. exists c, s'. split; [done|].
  by apply skipWhile_cons in Hs as [? _].
Qed.

Lemma parse_shorter n : shorter n.
Proof.
  induction n as [|n [Has Hal Hmd Hml Hun Hpr Hfn Har Hlo]]; [split; simpl; congruence|]. split.
  - intros s v s'. simpl. destruct (parseMulDiv n s) as [?|[l s1]] eqn:E; [done|]. intros Hl%Hal. apply Hmd in E. lia.
  - intros l s v s'. simpl. destruct (skipWhitespace_cases s) as [->|(c & r & -> & Hr)]; [intros [= _ <-]; cbn; lia|].
    destruct (opAddSub c) as [op|]; [|intros [= _ <-]; cbn; lia].
    destruct (parseMulDiv n r) as [?|[x s1]] eqn:E; [done|]. destruct (op l x); [done|].
    intros Hl%Hal. apply Hmd in E. lia.
  - intros s v s'. simpl. destruct (parseUnary n s) as [?|[l s1]] eqn:E; [done|]. intros Hl%Hml. apply Hun in E. lia.
  - intros l s v s'. simpl. destruct (skipWhitespace_cases s) as [->|(c & r & -> & Hr)]; [intros [= _ <-]; cbn; lia|].
    destruct (opMulDiv c) as [op|]; [|intros [= _ <-]; cbn; lia].
    destruct (parseUnary n r) as [?|[x s1]] eqn:E; [done|]. destruct (op l x); [done|].
    intros Hl%Hml. apply Hun in E. lia.
  - intros s v s'. simpl. destruct (skipWhitespace_cases s) as [->|(c & r & -> & Hr)]; [intros Hp%Hpr; cbn in Hp; lia|].
    case_decide; [destruct (parsePrimary n r) as [?|[x s1]] eqn:E; [done|]; intros [= _ <-]; apply Hpr in E; lia|].
    case_decide; intros Hp%Hpr; cbn in Hp; lia.
  - intros s v s'. simpl. destruct (skipWhitespace_cases s) as [->|(c & r & -> & Hr)]; [done|].
    case_decide.
    { destruct (parseAddSub n r) as [?|[x s1]] eqn:E; [done|]. apply Has in E.
      destruct (skipWhitespace_cases s1) as [->|(c' & r' & -> & Hr')]; [done|].
      case_decide; [intros [= _ <-]; lia|done]. }
    destruct (isLetter c) eqn:Hc; [intros Hp%Hfn; [cbn in Hp; lia|eauto]|].
    intros Hp%parseNumber_shorter. cbn in Hp. lia.
  - intros s v s' Hs (c & r & -> & Hc). simpl in Hs. rewrite Hc in Hs. simpl in Hs.
    pose proof (skipWhile_length (λ c, isLetter c || isDigit c) r) as Hl.
    repeat (case_decide; [injection Hs as _ <-; cbn; lia|]).
    destruct (skipWhitespace_cases (skipWhile (λ c, isLetter c || isDigit c) r)) as [E|(c' & r' & E & Hr')];
      rewrite E in Hs; [done|].
    case_decide; [|done].
    destruct (parseArgs n r') as [?|[x s1]] eqn:Ea; [done|]. apply Har in Ea. destruct (applyFunc _ _); [done|].
    injection Hs as _ <-. cbn. lia.
  - intros s vs s'. simpl. destruct (skipWhitespace_cases s) as [->|(c' & r' & -> & Hr')].
    { intros Hl%Hlo. cbn in Hl. lia. }
    case_decide; [intros [= _ <-]; lia|]. intros Hl%Hlo. cbn in Hl. lia.
  - intros l s vs s'. simpl. destruct (parseAddSub n s) as [?|[x s1]] eqn:E; [done|]. apply Has in E.
    destruct (skipWhitespace_cases s1) as [->|(c' & r' & -> & Hr')]; [done|].
    case_decide; [intros [= _ <-]; lia|]. case_decide; [|done]. intros Hl%Hlo. lia.
Qed.

(** The errors of a call with [L] bytes to read: none for want of fuel, and no
    position outside of these bytes. *)
Definition okError (L : nat) (e : MathError) : Prop :=
  match e with
  | EFuel | EUnexpected _ => False
  | ENumber k => (k ≤ L)%nat
  | _ => True
  end.

Definition safe {A} (L : nat) (r : MathError + A) : Prop := ∀ e, r = inl e → okError L e.

Lemma safe_inr {A} L (a : A) : safe L (inr a).
Proof. by intros e. Qed.

Lemma safe_weaken {A B} L L' (r : MathError + A) e : safe L' r → (L' ≤ L)%nat → r = inl e → safe L (inl e : MathError + B).
Proof. intros Hr Hle He e' [= <-]. apply Hr in He. destruct e; cbn in *; try done. lia. Qed.

Lemma safe_le {A} L L' (r : MathError + A) : safe L' r → (L' ≤ L)%nat → safe L r.
Proof. intros Hr Hle e ->. eapply (safe_weaken (B := A)); eauto. Qed.

Lemma parseNumber_safe (s : list ascii) : safe (length s) (parseNumber (F := F) s).
Proof.
  unfold parseNumber, skipWhitespace. pose proof (skipWhile_length isSpace s).
  repeat case_match; intros e [= <-]; cbn; (done || lia).
Qed.

Lemma opAddSub_safe L c op (x y : F) : opAddSub c = Some op → safe L (op x y).
Proof. unfold opAddSub. intros. repeat case_decide; simplify_eq; by intros e. Qed.

Lemma opMulDiv_safe L c op (x y : F) : opMulDiv c = Some op → safe L (op x y).
Proof.
  unfold opMulDiv, divide, modulo. intros. repeat case_decide; simplify_eq; intros e; try done;
    destruct (fisZero y); intros [= <-]; done.
Qed.

Lemma applyFunc_safe L name (args : list F) : safe L (applyFunc name args).
Proof. unfold applyFunc. intros e. repeat case_match; intros [= <-]; done. Qed.

(** A call with enough fuel for what it has to read fails only in these ways. *)
Record fuelled (n : nat) : Prop := {
  fu_addsub (s : list ascii) : (8 * length s + 5 ≤ n)%nat → safe (length s) (parseAddSub (F := F) n s);
  fu_addloop (l : F) s : (8 * length s + 1 ≤ n)%nat → safe (length s) (addSubLoop n l s);
  fu_muldiv (s : list ascii) : (8 * length s + 4 ≤ n)%nat → safe (length s) (parseMulDiv (F := F) n s);
  fu_mulloop (l : F) s : (8 * length s + 1 ≤ n)%nat → safe (length s) (mulDivLoop n l s);
  fu_unary (s : list ascii) : (8 * length s + 3 ≤ n)%nat → safe (length s) (parseUnary (F := F) n s);
  fu_primary (s : list ascii) : (8 * length s + 2 ≤ n)%nat → safe (length s) (parsePrimary (F := F) n s);
  fu_func (s : list ascii) : (8 * length s + 1 ≤ n)%nat → safe (length s) (parseFunc (F := F) n s);
  fu_args (s : list ascii) : (8 * length s + 7 ≤ n)%nat → safe (length s) (parseArgs (F := F) n s);
  fu_argsloop (l : list F) s : (8 * length s + 6 ≤ n)%nat → safe (length s) (argsLoop n l s)
}.

(** Splits on the answer of a call whose errors are safe. *)
Ltac safe_call Hcall :=
  let E := fresh "E" in let Hsafe := fresh in
  match type of Hcall with
  | _ → safe _ ?call =>
      assert (Hsafe := Hcall ltac:(lia)); destruct call as [?|[? ?]] eqn:E;
        [eapply safe_weaken; [exact Hsafe|lia|reflexivity]|clear Hsafe]
  end.

Lemma parse_fuelled n : fuelled n.
Proof.
  induction n as [|n [Has Hal Hmd Hml Hun Hpr Hfn Har Hlo]]; [split; intros; lia|].
  pose proof (parse_shorter n) as [Sas Sal Smd Sml Sun Spr Sfn Sar Slo]. split.
  - intros s Hn. simpl. safe_call (Hmd s). apply Smd in E. eapply safe_le; [apply Hal|]; lia.
  - intros l s Hn. simpl. destruct (skipWhitespace_cases s) as [->|(c & r & -> & Hr)]; [apply safe_inr|].
    destruct (opAddSub c) as [op|] eqn:Eo; [|apply safe_inr]. safe_call (Hmd r). apply Smd in E.
    pose proof (opAddSub_safe (length s) c op l f Eo) as Ho.
    destruct (op l f); [eapply safe_weaken; eauto|]. eapply safe_le; [apply Hal|]; lia.
  - intros s Hn. simpl. safe_call (Hun s). apply Sun in E. eapply safe_le; [apply Hml|]; lia.
  - intros l s Hn. simpl. destruct (skipWhitespace_cases s) as [->|(c & r & -> & Hr)]; [apply safe_inr|].
    destruct (opMulDiv c) as [op|] eqn:Eo; [|apply safe_inr]. safe_call (Hun r). apply Sun in E.
    pose proof (opMulDiv_safe (length s) c op l f Eo) as Ho.
    destruct (op l f); [eapply safe_weaken; eauto|]. eapply safe_le; [apply Hml|]; lia.
  - intros s Hn. simpl. destruct (skipWhitespace_cases s) as [->|(c & r & -> & Hr)].
    { eapply safe_le; [apply Hpr|]; cbn; lia. }
    case_decide; [safe_call (Hpr r); apply safe_inr|]. case_decide; (eapply safe_le; [apply Hpr|]; cbn [length]; lia).
  - intros s Hn. simpl. destruct (skipWhitespace_cases s) as [->|(c & r & -> & Hr)]; [by intros e [= <-]|].
    case_decide.
    { safe_call (Has r). repeat case_match; (apply safe_inr || by intros e [= <-]). }
    destruct (isLetter c); [eapply safe_le; [apply Hfn|]; cbn [length]; lia|].
    eapply safe_le; [apply parseNumber_safe|]. cbn [length]. lia.
  - intros s Hn. simpl. repeat (case_decide; [apply safe_inr|]).
    pose proof (skipWhile_length (λ c, isLetter c || isDigit c) s).
    destruct (skipWhitespace_cases (skipWhile (λ c, isLetter c || isDigit c) s)) as [->|(c' & r' & -> & Hr')];
      [by intros e [= <-]|].
    case_decide; [|by intros e [= <-]]. safe_call (Har r').
    match goal with |- context [applyFunc ?name ?args] =>
      pose proof (applyFunc_safe (length s) name args) as Ha; destruct (applyFunc name args) end;
      [by eapply safe_weaken|apply safe_inr].
  - intros s Hn. simpl. destruct (skipWhitespace_cases s) as [->|(c' & r' & -> & Hr')].
    { eapply safe_le; [apply Hlo|]; cbn; lia. }
    case_decide; [apply safe_inr|]. eapply safe_le; [apply Hlo|]; cbn [length]; lia.
  - intros l s Hn. simpl. safe_call (Has s). apply Sas in E.
    match goal with |- context [skipWhitespace ?s1] =>
      destruct (skipWhitespace_cases s1) as [->|(c' & r' & -> & Hr')] end; [by intros e [= <-]|].
    case_decide; [apply safe_inr|]. case_decide; [|by intros e [= <-]]. eapply safe_le; [apply Hlo|]; lia.
Qed.

(** More fuel does not change an answer. *)
Record monotone (n m : nat) : Prop := {
  mo_addsub (s : list ascii) : parseAddSub (F := F) n s ≠ inl EFuel → parseAddSub (F := F) m s = parseAddSub n s;
  mo_addloop (l : F) s : addSubLoop n l s ≠ inl EFuel → addSubLoop m l s = addSubLoop n l s;
  mo_muldiv (s : list ascii) : parseMulDiv (F := F) n s ≠ inl EFuel → parseMulDiv (F := F) m s = parseMulDiv n s;
  mo_mulloop (l : F) s : mulDivLoop n l s ≠ inl EFuel → mulDivLoop m l s = mulDivLoop n l s;
  mo_unary (s : list ascii) : parseUnary (F := F) n s ≠ inl EFuel → parseUnary (F := F) m s = parseUnary n s;
  mo_primary (s : list ascii) : parsePrimary (F := F) n s ≠ inl EFuel → parsePrimary (F := F) m s = parsePrimary n s;
  mo_func (s : list ascii) : parseFunc (F := F) n s ≠ inl EFuel → parseFunc (F := F) m s = parseFunc n s;
  mo_args (s : list ascii) : parseArgs (F := F) n s ≠ inl EFuel → parseArgs (F := F) m s = parseArgs n s;
  mo_argsloop (l : list F) s : argsLoop n l s ≠ inl EFuel → argsLoop m l s = argsLoop n l s
}.

(** Replaces the first call of the larger computation, which [IH] equates with the
    same call of the smaller one, and splits on its answer. *)
Ltac mono_call IH call Hne :=
  let E := fresh in
  rewrite IH by (intros E; rewrite E in Hne; congruence);
  destruct call as [?|[??]]; [done|].

Lemma parse_monotone n m : (n ≤ m)%nat → monotone n m.
Proof.
  revert m. induction n as [|n IH]; intros m Hle; [split; intros; by simpl in *|].
  destruct m as [|m]; [lia|]. destruct (IH m) as [Has Hal Hmd Hml Hun Hpr Hfn Har Hlo]; [lia|]. clear IH Hle. split.
  - intros s Hne. simpl in *. mono_call (Hmd s) (parseMulDiv (F := F) n s) Hne. by apply Hal.
  - intros l s Hne. simpl in *. destruct (skipWhitespace s) as [|c r]; [done|].
    destruct (opAddSub c) as [op|]; [|done]. mono_call (Hmd r) (parseMulDiv (F := F) n r) Hne.
    destruct (op l _); [done|]. by apply Hal.
  - intros s Hne. simpl in *. mono_call (Hun s) (parseUnary (F := F) n s) Hne. by apply Hml.
  - intros l s Hne. simpl in *. destruct (skipWhitespace s) as [|c r]; [done|].
    destruct (opMulDiv c) as [op|]; [|done]. mono_call (Hun r) (parseUnary (F := F) n r) Hne.
    destruct (op l _); [done|]. by apply Hml.
  - intros s Hne. simpl in *. destruct (skipWhitespace s) as [|c r]; [by apply Hpr|].
    case_decide; [by mono_call (Hpr r) (parsePrimary (F := F) n r) Hne|]. case_decide; by apply Hpr.
  - intros s Hne. simpl in *. destruct (skipWhitespace s) as [|c r]; [done|].
    case_decide; [by mono_call (Has r) (parseAddSub (F := F) n r) Hne|]. destruct (isLetter c); [by apply Hfn|done].
  - intros s Hne. simpl in *. repeat (case_decide; [done|]).
    destruct (skipWhitespace _) as [|c r]; [done|]. case_decide; [|done].
    by mono_call (Har r) (parseArgs (F := F) n r) Hne.
  - intros s Hne. simpl in *. destruct (skipWhitespace s) as [|c r]; [by apply Hlo|].
    case_decide; [done|]. by apply Hlo.
  - intros l s Hne. simpl in *. mono_call (Has s) (parseAddSub (F := F) n s) Hne.
    destruct (skipWhitespace _) as [|c r]; [done|]. repeat (case_decide; [done|]). case_decide; [|done]. by apply Hlo.
Qed.

End fuel.

(** Evaluation always ends with an answer: for every input text the tool's
    evaluator returns a number or one of its own errors (the recursion is never
    deeper than eight times the length of the text plus eight), and a position it
    reports in an error lies within the text. *)
Theorem math_eval_total {F} `{Float64 F} (expr : string) :
  evalExpr (F := F) expr ≠ inl EFuel ∧
  ∀ left, evalExpr (F := F) expr = inl (EUnexpected left) ∨ evalExpr (F := F) expr = inl (ENumber left) →
    (left ≤ String.length (TrimSpace expr))%nat.
Proof.
  unfold evalExpr, parseExpr. set (input := bytesOf (TrimSpace expr)).
  assert (length input = String.length (TrimSpace expr)) as Hlen.
  { unfold input. induction (TrimSpace expr); cbn; congruence. }
  rewrite <-Hlen. pose proof (fu_addsub (F := F) _ (parse_fuelled (8 * length input + 8)) input ltac:(lia)) as Hsafe.
  pose proof (sh_addsub (F := F) _ (parse_shorter (8 * length input + 8)) input) as Hsh.
  destruct (parseAddSub (8 * length input + 8) input) as [e|[v s]].
  - specialize (Hsafe e eq_refl). split; [by intros [= ->]|]. intros left [[= ->]|[= ->]]; [done|]. exact Hsafe.
  - specialize (Hsh v s eq_refl). pose proof (skipWhile_length isSpace s). unfold skipWhitespace in *.
    destruct (skipWhile isSpace s) as [|c r]; (split; [done|]); intros left [Hl|Hl]; simplify_eq; cbn in *; lia.
Qed.

(** ** The language of the tool

    Expressions as trees, what they mean, and their text with any spacing [sp]
    and parentheses only where precedence and left association need them. *)

Inductive AddOp := Plus | Minus.
Inductive MulOp := Times | Over | Mod.

Inductive Expr :=
  | Num (lit : list ascii)
  | ConstPi
  | ConstE
  | Neg (e : Expr)
  | Add (op : AddOp) (a b : Expr)
  | Mul (op : MulOp) (a b : Expr)
  | Call1 (f : Fn1) (a : Expr)
  | Call2 (f : Fn2) (a b : Expr).

Definition name1 (f : Fn1) : list ascii :=
  bytesOf match f with
  | Sqrt => "sqrt" | Abs => "abs" | Floor => "floor" | Ceil => "ceil" | Round => "round" | Log => "log" | Log10 => "log10"
  end.

Definition name2 (f : Fn2) : list ascii := bytesOf match f with Pow => "pow" | Min => "min" | Max => "max" end.

Definition addChar (op : AddOp) : ascii := match op with Plus => "+" | Minus => "-" end.
Definition mulChar (op : MulOp) : ascii := match op with Times => "*" | Over => "/" | Mod => "%" end.

Section language.
Context {F : Type} `{Float64 F}.

Definition addVal (op : AddOp) (x y : F) : F := match op with Plus => fadd x y | Minus => fsub x y end.

Definition mulVal (op : MulOp) (x y : F) : MathError + F :=
  match op with Times => inr (fmul x y) | Over => divide x y | Mod => modulo x y end.

Fixpoint eval (e : Expr) : MathError + F :=
  match e with
  | Num lit => match ParseFloat (textOf lit) with Some v => inr v | None => inl ERange end
  | ConstPi => inr fPi
  | ConstE => inr fE
  | Neg e => try! v ← eval e ;; inr (fneg v)
  | Add op a b => try! x ← eval a ;; try! y ← eval b ;; inr (addVal op x y)
  | Mul op a b => try! x ← eval a ;; try! y ← eval b ;; mulVal op x y
  | Call1 f a => try! x ← eval a ;; inr (math1 f x)
  | Call2 f a b => try! x ← eval a ;; try! y ← eval b ;; inr (math2 f x y)
  end.

(** A numeral: digits, and perhaps a point with more digits. *)
Definition isNumeral (lit : list ascii) : bool :=
  bool_decide (length (skipWhile isDigit lit) < length lit)%nat &&
  match skipWhile isDigit lit with
  | [] => true
  | c :: d => bool_decide (c = "."%char) && forallb isDigit d
  end.

Fixpoint numerals (e : Expr) : Prop :=
  match e with
  | Num lit => isNumeral lit = true
  | ConstPi | ConstE => True
  | Neg a | Call1 _ a => numerals a
  | Add _ a b | Mul _ a b | Call2 _ a b => numerals a ∧ numerals b
  end.

Context (sp : list ascii) (Hsp : Forall (λ c, isSpace c = true) sp).

Definition paren (b : bool) (s : list ascii) : list ascii :=
  if b then "("%char :: sp ++ s ++ sp ++ [")"%char] else s.

(** Levels: sum, product, sign, primary. *)
Fixpoint print (lvl : nat) (e : Expr) : list ascii :=
  match e with
  | Num lit => lit
  | ConstPi => bytesOf "pi"
  | ConstE => bytesOf "e"
  | Neg a => paren (bool_decide (2 < lvl)%nat) ("-"%char :: sp ++ print 3 a)
  | Add op a b => paren (bool_decide (0 < lvl)%nat) (print 0 a ++ sp ++ addChar op :: sp ++ print 1 b)
  | Mul op a b => paren (bool_decide (1 < lvl)%nat) (print 1 a ++ sp ++ mulChar op :: sp ++ print 2 b)
  | Call1 f a => name1 f ++ "("%char :: sp ++ print 0 a ++ sp ++ [")"%char]
  | Call2 f a b => name2 f ++ "("%char :: sp ++ print 0 a ++ sp ++ ","%char :: sp ++ print 0 b ++ sp ++ [")"%char]
  end.

(** *** Answers with enough fuel *)

Definition ev {A} (f : nat → A) (r : A) : Prop := ∃ N, ∀ n, (N ≤ n)%nat → f n = r.

Lemma ev_const {A} (r : A) : ev (λ _, r) r.
Proof. by exists 0%nat. Qed.

Lemma ev_S {A} (f : nat → A) r : ev (λ n, f (S n)) r → ev f r.
Proof. intros [N HN]. exists (S N). intros [|n] Hn; [lia|]. apply HN. lia. Qed.

Lemma ev_ext {A} (f g : nat → A) r : (∀ n, f n = g n) → ev g r → ev f r.
Proof. intros Hfg [N HN]. exists N. intros n Hn. rewrite Hfg. auto. Qed.

Lemma ev_error {A B} (f : nat → MathError + A) (k : nat → A → MathError + B) e :
  ev f (inl e) → ev (λ n, match f n with inl err => inl err | inr a => k n a end) (inl e).
Proof. intros [N HN]. exists N. intros n Hn. by rewrite HN. Qed.

Lemma ev_then {A B} (f : nat → MathError + A) (k : nat → A → MathError + B) a r :
  ev f (inr a) → ev (λ n, k n a) r → ev (λ n, match f n with inl err => inl err | inr a => k n a end) r.
Proof. intros [N HN] [M HM]. exists (N + M)%nat. intros n Hn. rewrite HN by lia. apply HM. lia. Qed.

Definition answer (e : Expr) (k : F → MathError + F * list ascii) : MathError + F * list ascii :=
  match eval e with inl err => inl err | inr v => k v end.

(** A call that parses the text of [e] and goes on with its value. *)
Lemma ev_answer (f : nat → MathError + F * list ascii) (g : nat → F → list ascii → MathError + F * list ascii) e k rest :
  ev f (answer e (λ v, inr (v, rest))) → (∀ v, eval e = inr v → ev (λ n, g n v rest) (k v)) →
  ev (λ n, match f n with inl err => inl err | inr (v, s) => g n v s end) (answer e k).
Proof.
  unfold answer. intros Hf Hg. destruct (eval e) as [err|v].
  - destruct Hf as [N HN]. exists N. intros n Hn. by rewrite HN.
  - destruct Hf as [N HN]. destruct (Hg v eq_refl) as [M HM]. exists (N + M)%nat. intros n Hn. rewrite HN by lia. apply HM. lia.
Qed.

(** *** Spaces and heads *)

Lemma skipWhile_app f w s : Forall (λ c, f c = true) w → skipWhile f (w ++ s) = skipWhile f s.
Proof. induction 1 as [|c w Hc _ IH]; cbn; [done|]. by rewrite Hc. Qed.

Lemma skipWhile_stop f c s : f c = false → skipWhile f (c :: s) = c :: s.
Proof. intros Hc. cbn. by rewrite Hc. Qed.

Lemma skip_spaces w c s : Forall (λ c, isSpace c = true) w → isSpace c = false → skipWhitespace (w ++ c :: s) = c :: s.
Proof. intros Hw Hc. unfold skipWhitespace. rewrite skipWhile_app by done. by apply skipWhile_stop. Qed.

Lemma skipWhitespace_idemp s : skipWhitespace (skipWhitespace s) = skipWhitespace s.
Proof.
  unfold skipWhitespace. destruct (skipWhile isSpace s) as [|c r] eqn:Hs; [done|].
  apply skipWhile_stop. by apply skipWhile_cons in Hs as [_ ?].
Qed.

(** The bytes after which a numeral or a name ends. *)
Definition stops (s : list ascii) : Prop :=
  match s with [] => True | c :: _ => isLetter c = false ∧ isDigit c = false ∧ c ≠ "."%char end.

(** No multiplication sign follows. *)
Definition noMul (s : list ascii) : Prop :=
  match skipWhitespace s with [] => True | c :: _ => c ∉ ["*"; "/"; "%"]%char end.

Lemma isSpace_stops c : isSpace c = true → isLetter c = false ∧ isDigit c = false ∧ c ≠ "."%char.
Proof.
  unfold isSpace, isLetter, isDigit. rewrite bool_decide_eq_true, !bool_decide_eq_false. intros Hc.
  split_and!; [lia|lia|]. intros ->. vm_compute in Hc. lia.
Qed.

Lemma stops_spaces w c s :
  Forall (λ c, isSpace c = true) w → isLetter c = false ∧ isDigit c = false ∧ c ≠ "."%char → stops (w ++ c :: s).
Proof. intros [|x w' Hx _] Hc; [done|]. by apply isSpace_stops. Qed.

Lemma noMul_spaces w c s :
  Forall (λ c, isSpace c = true) w → isSpace c = false → c ∉ ["*"; "/"; "%"]%char → noMul (w ++ c :: s).
Proof. intros Hw Hc Hn. unfold noMul. by rewrite skip_spaces. Qed.

(** The first byte of a primary expression, and of any. *)
Definition primaryHead (c : ascii) : Prop := isDigit c = true ∨ isLetter c = true ∨ c = "("%char.

Lemma primaryHead_not c : primaryHead c → isSpace c = false ∧ c ∉ ["+"; "-"; ")"]%char.
Proof.
  intros Hc. split.
  - destruct Hc as [Hc|[Hc| ->]]; [| |done]; destruct (isSpace c) eqn:E; try done;
      apply isSpace_stops in E as (? & ? & _); congruence.
  - intros Hin. assert (c = "+"%char ∨ c = "-"%char ∨ c = ")"%char) as Hcs by set_solver. clear Hin.
    destruct Hcs as [->|[->| ->]]; vm_compute in Hc; naive_solver.
Qed.

Lemma isNumeral_head lit : isNumeral lit = true → ∃ c r, lit = c :: r ∧ isDigit c = true.
Proof.
  unfold isNumeral. rewrite andb_true_iff, bool_decide_eq_true. intros [Hl _]. destruct lit as [|c r]; cbn in Hl; [lia|].
  destruct (isDigit c) eqn:Hc; [eauto|cbn in Hl; lia].
Qed.

Lemma print_primary_head e : numerals e → ∃ c r, print 3 e = c :: r ∧ primaryHead c.
Proof.
  unfold primaryHead.
  destruct e as [lit| | |a|op a b|op a b|f a|f a b]; cbn; intros Hw; try (eexists _, _; split; [done|by auto]).
  - destruct (isNumeral_head lit Hw) as (c & r & -> & Hc). eauto.
  - destruct f; eexists _, _; (split; [reflexivity|auto]).
  - destruct f; eexists _, _; (split; [reflexivity|auto]).
Qed.

Lemma print_head lvl e : numerals e → ∃ c r, print lvl e = c :: r ∧ isSpace c = false ∧ c ≠ ")"%char.
Proof.
  revert lvl. induction e as [lit| | |a IH|op a IHa b IHb|op a IHa b IHb|f a IH|f a IHa b IHb]; intros lvl Hw; cbn in Hw |- *.
  - destruct (isNumeral_head lit Hw) as (c & r & -> & Hc). eexists _, _. split; [done|].
    destruct (primaryHead_not c) as [? Hn]; [by left|]. set_solver.
  - eexists _, _. split; [done|]. done.
  - eexists _, _. split; [done|]. done.
  - unfold paren. case_match; eexists _, _; (split; [done|]); done.
  - destruct Hw as [Ha Hb]. unfold paren. case_match; [eexists _, _; split; [done|]; done|].
    destruct (IHa 0%nat Ha) as (c & r & -> & Hc). eexists _, _. split; [done|]. done.
  - destruct Hw as [Ha Hb]. unfold paren. case_match; [eexists _, _; split; [done|]; done|].
    destruct (IHa 1%nat Ha) as (c & r & -> & Hc). eexists _, _. split; [done|]. done.
  - destruct f; eexists _, _; (split; [reflexivity|done]).
  - destruct f; eexists _, _; (split; [reflexivity|done]).
Qed.

(** *** What each level of the parser does with its text *)

Definition primaryOk (e : Expr) : Prop := ∀ w rest, Forall (λ c, isSpace c = true) w → stops rest →
  ev (λ n, parsePrimary n (w ++ print 3 e ++ rest)) (answer e (λ v, inr (v, rest))).

Definition unaryOk (e : Expr) : Prop := ∀ w rest, Forall (λ c, isSpace c = true) w → stops rest →
  ev (λ n, parseUnary n (w ++ print 2 e ++ rest)) (answer e (λ v, inr (v, rest))).

Definition mulOk (e : Expr) : Prop := ∀ w rest k, Forall (λ c, isSpace c = true) w → stops rest →
  (∀ v, ev (λ n, mulDivLoop n v rest) (k v)) → ev (λ n, parseMulDiv n (w ++ print 1 e ++ rest)) (answer e k).

Definition addOk (e : Expr) : Prop := ∀ w rest k, Forall (λ c, isSpace c = true) w → stops rest → noMul rest →
  (∀ v, ev (λ n, addSubLoop n v rest) (k v)) → ev (λ n, parseAddSub n (w ++ print 0 e ++ rest)) (answer e k).

Lemma unary_of_primary e : numerals e → print 2 e = print 3 e → primaryOk e → unaryOk e.
Proof.
  intros Hw Heq Hp w rest Hsw Hst. apply ev_S. simpl. rewrite Heq.
  destruct (print_primary_head e Hw) as (c & r & Hpr & [Hs Hn]%primaryHead_not).
  specialize (Hp [] rest ltac:(constructor) Hst). rewrite Hpr in Hp |- *. cbn [app] in Hp |- *.
  rewrite skip_spaces by done. destruct (decide (c = "-"%char)); [set_solver|].
  destruct (decide (c = "+"%char)); [set_solver|]. exact Hp.
Qed.

Lemma mul_of_unary e : print 1 e = print 2 e → unaryOk e → mulOk e.
Proof.
  intros Heq Hu w rest k Hw Hst Hk. apply ev_S. simpl. rewrite Heq.
  apply (ev_answer (λ n, parseUnary n (w ++ print 2 e ++ rest)) (λ n v s, mulDivLoop n v s) e k rest); [by apply Hu|].
  intros v _. apply Hk.
Qed.

Lemma mulDivLoop_stop v rest : noMul rest → ev (λ n, mulDivLoop n v rest) (inr (v, skipWhitespace rest)).
Proof.
  intros Hn. apply ev_S. simpl. unfold noMul in Hn. destruct (skipWhitespace rest) as [|c r]; [apply ev_const|].
  unfold opMulDiv. rewrite !decide_False by set_solver. apply ev_const.
Qed.

Lemma addSubLoop_skip n v s : addSubLoop n v (skipWhitespace s) = addSubLoop n v s.
Proof. destruct n; [done|]. simpl. by rewrite skipWhitespace_idemp. Qed.

Lemma add_of_mul e : print 0 e = print 1 e → mulOk e → addOk e.
Proof.
  intros Heq Hm w rest k Hw Hst Hn Hk. apply ev_S. simpl. rewrite Heq.
  apply (ev_answer (λ n, parseMulDiv n (w ++ print 1 e ++ rest)) (λ n v s, addSubLoop n v s) e k (skipWhitespace rest)).
  - apply Hm; [done..|]. intros v. by apply mulDivLoop_stop.
  - intros v _. eapply ev_ext; [intros n; apply addSubLoop_skip|apply Hk].
Qed.

(** A closing byte ends the sum before it. *)
Lemma addOk_close e w c rest :
  addOk e → Forall (λ c, isSpace c = true) w → c = ")"%char ∨ c = ","%char →
  ev (λ n, parseAddSub n (w ++ print 0 e ++ sp ++ c :: rest)) (answer e (λ v, inr (v, c :: rest))).
Proof.
  intros Ha Hw Hc. apply Ha; [done| | |].
  - apply stops_spaces; [done|]. by destruct Hc as [-> | ->].
  - apply noMul_spaces; [done|by destruct Hc as [-> | ->]|]. destruct Hc as [-> | ->]; set_solver.
  - intros v. apply ev_S. simpl. rewrite skip_spaces by (done || by destruct Hc as [-> | ->]).
    assert (opAddSub (F := F) c = None) as -> by (by destruct Hc as [-> | ->]). apply ev_const.
Qed.

Lemma primary_of_add e : print 3 e = paren true (print 0 e) → addOk e → primaryOk e.
Proof.
  intros Heq Ha w rest Hw Hst. apply ev_S. simpl. rewrite Heq. unfold paren. cbn [app].
  rewrite skip_spaces by done. destruct (decide ("("%char = "("%char)) as [_|]; [|done].
  rewrite <-!app_assoc. cbn [app].
  apply (ev_answer (λ n, parseAddSub n (sp ++ print 0 e ++ sp ++ ")"%char :: rest))
    (λ n v s, match skipWhitespace s with
              | c :: s => if decide (c = ")"%char) then inr (v, s) else inl EParen
              | [] => inl EParen end) e _ (")"%char :: rest)); [by apply addOk_close; auto|].
  intros v _. apply ev_const.
Qed.

(** *** Numerals, names and arguments *)

Lemma between_app (s t : list ascii) : between (s ++ t) t = s.
Proof. unfold between. rewrite length_app, Nat.add_sub. by rewrite take_app_length. Qed.

Lemma skipWhile_all f s t :
  forallb f s = true → (match t with [] => True | c :: _ => f c = false end) → skipWhile f (s ++ t) = t.
Proof.
  intros Hs Ht. induction s as [|c s IH]; cbn in *.
  - destruct t; [done|]. by apply skipWhile_stop.
  - apply andb_true_iff in Hs as [-> Hs]. auto.
Qed.

Lemma skipWhile_split f s : ∃ p, s = p ++ skipWhile f s ∧ forallb f p = true.
Proof.
  induction s as [|c s (p & Hp & Hf)]; [by exists []|]. cbn. destruct (f c) eqn:Hc; [|by exists []].
  exists (c :: p). cbn. rewrite <-Hp, Hc. done.
Qed.

Lemma parseNumber_numeral lit rest :
  isNumeral lit = true → stops rest →
  parseNumber (F := F) (lit ++ rest) = match ParseFloat (textOf lit) with Some v => inr (v, rest) | None => inl ERange end.
Proof.
  intros Hlit Hst. destruct (isNumeral_head lit Hlit) as (c & r & Hr & Hc).
  destruct (primaryHead_not c) as [Hs Hn]; [by left|].
  assert (match rest with [] => True | c :: _ => isDigit c = false end) as Hdig by (destruct rest; [done|]; apply Hst).
  assert (skipExponent rest = rest) as Hexp.
  { destruct rest as [|x rest]; [done|]. cbn. rewrite decide_False; [done|].
    destruct Hst as (Hl & _). intros [-> | ->]; vm_compute in Hl; done. }
  assert (∃ frac, skipFraction (skipWhile isDigit (lit ++ rest)) = (rest, frac) ∧
    (length (skipWhile isDigit (lit ++ rest)) < length (lit ++ rest))%nat) as (frac & Hfrac & Hlen).
  { destruct (skipWhile_split isDigit lit) as (p & Hp & Hpd). unfold isNumeral in Hlit.
    destruct (skipWhile isDigit lit) as [|x d] eqn:Hd.
    - rewrite app_nil_r in Hp. subst p. rewrite (skipWhile_all isDigit lit rest) by done.
      exists false. split; [destruct rest as [|x rest]; [done|]; cbn; rewrite decide_False; [done|apply Hst]|].
      rewrite length_app, Hr. cbn. lia.
    - apply andb_true_iff in Hlit as [Hl Hlit]. apply andb_true_iff in Hlit as [Hx Hd'].
      apply bool_decide_eq_true in Hx as ->. apply bool_decide_eq_true in Hl.
      rewrite Hp, <-app_assoc. rewrite (skipWhile_all isDigit p) by done. cbn [app skipFraction].
      rewrite decide_True by done. rewrite (skipWhile_all isDigit d) by done. eexists. split; [done|].
      rewrite length_app. rewrite Hp, length_app in Hl. cbn in *. rewrite length_app. lia. }
  unfold parseNumber. replace (skipWhitespace (lit ++ rest)) with (lit ++ rest)
    by (rewrite Hr; symmetry; by apply skipWhile_stop).
  assert (skipSign (lit ++ rest) = lit ++ rest) as ->.
  { rewrite Hr. cbn. rewrite decide_False; [done|]. intros [-> | ->]; set_solver. }
  rewrite Hfrac, Hexp, bool_decide_eq_true_2 by done. cbn [orb negb]. by rewrite between_app.
Qed.

(** A name is read up to the byte that ends it. *)
Lemma name_read name rest :
  forallb (λ c, isLetter c || isDigit c) name = true → (match rest with [] => True | c :: _ => isLetter c || isDigit c = false end) →
  skipWhile (λ c, isLetter c || isDigit c) (name ++ rest) = rest ∧
  between (name ++ rest) (skipWhile (λ c, isLetter c || isDigit c) (name ++ rest)) = name.
Proof. intros Hn Hr. rewrite skipWhile_all by done. by rewrite between_app. Qed.

Lemma stops_name rest : stops rest → match rest with [] => True | c :: _ => isLetter c || isDigit c = false end.
Proof. destruct rest; [done|]. by intros (-> & -> & _). Qed.

Lemma isLetter_head c : isLetter c = true → isSpace c = false ∧ c ≠ "("%char.
Proof.
  intros Hc. split; [destruct (isSpace c) eqn:E; [apply isSpace_stops in E as (? & _); congruence|done]|].
  intros ->. done.
Qed.

Lemma parsePrimary_name n w c s :
  Forall (λ c, isSpace c = true) w → isLetter c = true → parsePrimary (F := F) (S n) (w ++ c :: s) = parseFunc n (c :: s).
Proof.
  intros Hw Hc. destruct (isLetter_head c Hc) as [Hs Hp]. simpl. rewrite skip_spaces by done.
  by rewrite decide_False, Hc by done.
Qed.

Lemma parseFunc_name n name rest :
  forallb (λ c, isLetter c || isDigit c) name = true → (match rest with [] => True | c :: _ => isLetter c || isDigit c = false end) →
  parseFunc (F := F) (S n) (name ++ rest) =
    let nm := ToLower (textOf name) in
    if decide (nm = "pi") then inr (fPi, rest)
    else if decide (nm = "e") then inr (fE, rest)
    else
      match skipWhitespace rest with
      | c :: s =>
          if decide (c = "("%char) then try! (args, s) ← parseArgs n s ;; try! v ← applyFunc nm args ;; inr (v, s)
          else inl EIdentifier
      | [] => inl EIdentifier
      end.
Proof. intros Hn Hr. destruct (name_read name rest Hn Hr) as [Hsk Hbt]. simpl. by rewrite Hbt, Hsk. Qed.

(** The text of a name from its first letter. *)
Lemma primary_name w name rest r :
  Forall (λ c, isSpace c = true) w → (∃ c s, name = c :: s ∧ isLetter c = true) →
  ev (λ n, parseFunc (F := F) n (name ++ rest)) r → ev (λ n, parsePrimary n (w ++ name ++ rest)) r.
Proof.
  intros Hw (c & s & -> & Hc) Hr. apply ev_S. eapply ev_ext; [|exact Hr]. intros n. cbn [app]. by apply parsePrimary_name.
Qed.

Lemma const_ok e name v :
  print 3 e = bytesOf name → eval e = inr v → name = "pi" ∧ v = fPi ∨ name = "e" ∧ v = fE → primaryOk e.
Proof.
  intros Hpr Hev Hn w rest Hw Hst. unfold answer. rewrite Hev, Hpr. apply primary_name; [done| |].
  { destruct Hn as [[-> _]|[-> _]]; eexists _, _; done. }
  apply ev_S. eapply ev_ext.
  { intros n. apply parseFunc_name; [by destruct Hn as [[-> _]|[-> _]]|by apply stops_name]. }
  destruct Hn as [[-> ->]|[-> ->]]; exists 0%nat; intros n _; reflexivity.
Qed.

(** *** Calls *)

(** The text of a call reaches the arguments after the parenthesis. *)
Lemma call_args w name rest :
  Forall (λ c, isSpace c = true) w → (∃ c s, name = c :: s ∧ isLetter c = true) →
  forallb (λ c, isLetter c || isDigit c) name = true → ToLower (textOf name) = textOf name →
  textOf name ≠ "pi" → textOf name ≠ "e" → ∀ r,
  ev (λ n, try! (args, s) ← parseArgs n rest ;; try! v ← applyFunc (textOf name) args ;; inr (v, s)) r →
  ev (λ n, parsePrimary (F := F) n (w ++ name ++ "("%char :: rest)) r.
Proof.
  intros Hw Hh Hn Hl Hpi He r Hr. apply primary_name; [done..|]. apply ev_S.
  eapply ev_ext; [intros n; by apply parseFunc_name|]. cbv zeta. rewrite Hl.
  destruct (decide (textOf name = "pi")); [done|]. destruct (decide (textOf name = "e")); [done|]. exact Hr.
Qed.

Lemma args_start (e : Expr) rest r :
  numerals e → ev (λ n, argsLoop (F := F) n [] (print 0 e ++ rest)) r → ev (λ n, parseArgs n (sp ++ print 0 e ++ rest)) r.
Proof.
  intros Hw Hr. destruct (print_head 0 e Hw) as (c & s & Hp & Hs & Hc). rewrite Hp in *. apply ev_S.
  eapply ev_ext; [|exact Hr]. intros n. cbn [app]. simpl. rewrite skip_spaces by done. by rewrite decide_False.
Qed.

(** One argument and the byte after it. *)
Lemma args_one e w c args rest (r : F → MathError + list F * list ascii) :
  addOk e → Forall (λ c, isSpace c = true) w → c = ")"%char ∨ c = ","%char →
  (∀ v, ev (λ n, if decide (c = ")"%char) then inr (args ++ [v], rest) else argsLoop n (args ++ [v]) rest) (r v)) →
  ev (λ n, argsLoop n args (w ++ print 0 e ++ sp ++ c :: rest)) (match eval e with inl err => inl err | inr v => r v end).
Proof.
  intros Ha Hw Hc Hr. apply ev_S. simpl. pose proof (addOk_close e w c rest Ha Hw Hc) as Hp. unfold answer in Hp.
  destruct (eval e) as [err|v]; [by apply (ev_error _ (λ n '(v, s), _) err)|].
  refine (ev_then _ (λ n '(v, s), _) (v, c :: rest) _ Hp _).
  destruct (Hr v) as [N HN]. exists N. intros n Hle. rewrite <-(HN n Hle).
  assert (skipWhitespace (c :: rest) = c :: rest) as -> by (apply skipWhile_stop; by destruct Hc as [-> | ->]).
  case_decide; [done|]. by rewrite decide_True by (by destruct Hc).
Qed.

Lemma call1_ok f a : numerals a → addOk a → primaryOk (Call1 f a).
Proof.
  intros Hw Ha w rest Hsw Hst. cbn [print]. rewrite <-app_assoc. cbn [app]. rewrite <-!app_assoc. cbn [app].
  apply call_args; [done|by destruct f; eexists _, _|by destruct f..|].
  unfold answer. cbn [eval].
  pose proof (args_start a (sp ++ ")"%char :: rest) _ Hw
    (args_one a [] ")"%char [] rest (λ v, inr ([v], rest)) Ha ltac:(constructor) (or_introl eq_refl)
      (λ v, ev_const _))) as Hargs.
  destruct (eval a) as [err|v]; [by apply (ev_error _ (λ n '(args, s), _) err)|].
  refine (ev_then _ (λ n '(args, s), _) ([v], rest) _ Hargs _). destruct f; apply ev_const.
Qed.

Lemma call2_ok f a b : numerals a → numerals b → addOk a → addOk b → primaryOk (Call2 f a b).
Proof.
  intros Hwa Hwb Ha Hb w rest Hsw Hst. cbn [print].
  rewrite <-app_assoc. cbn [app]. rewrite <-!app_assoc. cbn [app]. rewrite <-!app_assoc. cbn [app].
  apply call_args; [done|by destruct f; eexists _, _|by destruct f..|].
  unfold answer. cbn [eval].
  assert (∀ v, ev (λ n, argsLoop n [v] (sp ++ print 0 b ++ sp ++ ")"%char :: rest))
    (match eval b with inl err => inl err | inr v' => inr ([v; v'], rest) end)) as Hsecond.
  { intros v. by apply (args_one b sp ")"%char [v] rest (λ v', inr ([v; v'], rest)) Hb Hsp (or_introl eq_refl) (λ v', ev_const _)). }
  pose proof (args_start a (sp ++ ","%char :: sp ++ print 0 b ++ sp ++ ")"%char :: rest) _ Hwa
    (args_one a [] ","%char [] _ _ Ha ltac:(constructor) (or_intror eq_refl) Hsecond)) as Hargs.
  destruct (eval a) as [err|v]; [by apply (ev_error _ (λ n '(args, s), _) err)|].
  destruct (eval b) as [err|v']; [by apply (ev_error _ (λ n '(args, s), _) err)|].
  refine (ev_then _ (λ n '(args, s), _) ([v; v'], rest) _ Hargs _). destruct f; apply ev_const.
Qed.

(** *** Operators *)

Lemma add_ok op a b : addOk a → mulOk b → addOk (Add op a b).
Proof.
  intros Ha Hb w rest k Hw Hst Hn Hk. cbn [print paren]. rewrite bool_decide_eq_false_2 by lia. cbn [paren].
  rewrite <-!app_assoc. cbn [app]. rewrite <-!app_assoc.
  replace (answer (Add op a b) k) with (answer a (λ x, answer b (λ y, k (addVal op x y))))
    by (unfold answer; cbn [eval]; destruct (eval a); [done|]; by destruct (eval b)).
  assert (isSpace (addChar op) = false) as Hs by (by destruct op).
  apply Ha; [done|apply stops_spaces; [done|by destruct op]|apply noMul_spaces; [done..|destruct op; set_solver]|].
  intros x. apply ev_S. simpl. rewrite skip_spaces by done.
  assert (opAddSub (F := F) (addChar op) = Some (λ x y, inr (addVal op x y))) as -> by (by destruct op).
  apply (ev_answer (λ n, parseMulDiv n (sp ++ print 1 b ++ rest))
    (λ n y s, addSubLoop n (addVal op x y) s) b _ (skipWhitespace rest)).
  - apply Hb; [done..|]. intros v. by apply mulDivLoop_stop.
  - intros y _. eapply ev_ext; [intros n; apply addSubLoop_skip|apply Hk].
Qed.

Lemma mul_ok op a b : mulOk a → unaryOk b → mulOk (Mul op a b).
Proof.
  intros Ha Hb w rest k Hw Hst Hk. cbn [print paren]. rewrite bool_decide_eq_false_2 by lia. cbn [paren].
  rewrite <-!app_assoc. cbn [app]. rewrite <-!app_assoc.
  replace (answer (Mul op a b) k) with
    (answer a (λ x, answer b (λ y, match mulVal op x y with inl err => inl err | inr v => k v end)))
    by (unfold answer; cbn [eval]; destruct (eval a); [done|]; by destruct (eval b)).
  assert (isSpace (mulChar op) = false) as Hs by (by destruct op).
  apply Ha; [done|apply stops_spaces; [done|by destruct op]|].
  intros x. apply ev_S. simpl. rewrite skip_spaces by done.
  assert (opMulDiv (F := F) (mulChar op) = Some (mulVal op)) as -> by (by destruct op).
  apply (ev_answer (λ n, parseUnary n (sp ++ print 2 b ++ rest))
    (λ n y s, match mulVal op x y with inl err => inl err | inr v => mulDivLoop n v s end) b _ rest); [by apply Hb|].
  intros y _. destruct (mulVal op x y); [apply ev_const|apply Hk].
Qed.

Lemma neg_ok a : primaryOk a → unaryOk (Neg a).
Proof.
  intros Ha w rest Hw Hst. cbn [print paren]. rewrite bool_decide_eq_false_2 by lia. cbn [paren app].
  rewrite <-!app_assoc. apply ev_S. simpl. rewrite skip_spaces by done. destruct (decide ("-"%char = "-"%char)) as [_|]; [|done].
  replace (answer (Neg a) (λ v, inr (v, rest))) with (answer a (λ v, inr (fneg v, rest)))
    by (unfold answer; cbn [eval]; by destruct (eval a)).
  apply (ev_answer (λ n, parsePrimary n (sp ++ print 3 a ++ rest)) (λ n v s, inr (fneg v, s)) a _ rest); [by apply Ha|].
  intros v _. apply ev_const.
Qed.

Lemma num_ok lit : isNumeral lit = true → primaryOk (Num lit).
Proof.
  intros Hlit w rest Hw Hst. cbn [print]. destruct (isNumeral_head lit Hlit) as (c & r & Hr & Hc).
  pose proof (parseNumber_numeral lit rest Hlit Hst) as Hnum. rewrite Hr in Hnum |- *. cbn [app] in *.
  destruct (primaryHead_not c) as [Hs Hn]; [by left|]. apply ev_S. simpl. rewrite skip_spaces by done.
  destruct (decide (c = "("%char)) as [->|_]; [done|].
  replace (isLetter c) with false by
    (unfold isDigit, isLetter in *; apply bool_decide_eq_true in Hc; symmetry; apply bool_decide_eq_false; lia).
  rewrite Hnum. unfold answer. cbn [eval]. destruct (ParseFloat _); apply ev_const.
Qed.

(** Every level reads the text of every expression. *)
Lemma print_ok e : numerals e → primaryOk e ∧ unaryOk e ∧ mulOk e ∧ addOk e.
Proof.
  assert (∀ e, numerals e → print 2 e = print 3 e → print 1 e = print 2 e → print 0 e = print 1 e → primaryOk e →
    primaryOk e ∧ unaryOk e ∧ mulOk e ∧ addOk e) as Hatom.
  { intros e' Hw H23 H12 H01 Hp. pose proof (unary_of_primary e' Hw H23 Hp) as Hu. pose proof (mul_of_unary e' H12 Hu) as Hm.
    split_and!; [done..|]. by apply add_of_mul. }
  induction e as [lit| | |a IH|op a IHa b IHb|op a IHa b IHb|f a IH|f a IHa b IHb]; intros Hw.
  - apply Hatom; [done..|]. by apply num_ok.
  - apply Hatom; [done..|]. apply (const_ok ConstPi "pi" fPi); auto.
  - apply Hatom; [done..|]. apply (const_ok ConstE "e" fE); auto.
  - destruct (IH Hw) as (Hp & _). pose proof (neg_ok a Hp) as Hu. pose proof (mul_of_unary (Neg a) eq_refl Hu) as Hm.
    pose proof (add_of_mul (Neg a) eq_refl Hm) as Hadd. split_and!; [|done..]. by apply primary_of_add.
  - destruct Hw as [Hwa Hwb]. destruct (IHa Hwa) as (_ & _ & _ & Ha). destruct (IHb Hwb) as (_ & _ & Hb & _).
    pose proof (add_ok op a b Ha Hb) as Hadd. pose proof (primary_of_add (Add op a b) eq_refl Hadd) as Hp.
    pose proof (unary_of_primary (Add op a b) (conj Hwa Hwb) eq_refl Hp) as Hu.
    split_and!; [done..| |done]. by apply mul_of_unary.
  - destruct Hw as [Hwa Hwb]. destruct (IHa Hwa) as (_ & _ & Ha & _). destruct (IHb Hwb) as (_ & Hb & _ & _).
    pose proof (mul_ok op a b Ha Hb) as Hm. pose proof (add_of_mul (Mul op a b) eq_refl Hm) as Hadd.
    pose proof (primary_of_add (Mul op a b) eq_refl Hadd) as Hp. split_and!; [done| |done..].
    by apply (unary_of_primary (Mul op a b) (conj Hwa Hwb) eq_refl).
  - apply Hatom; [done..|]. apply call1_ok; [done|]. by apply IH.
  - destruct Hw as [Hwa Hwb]. apply Hatom; [done..|]. apply call2_ok; [done..|by apply IHa|by apply IHb].
Qed.

End language.

(** C30. The evaluator computes what the expression means: for every expression tree,
    printed with any spacing and only the parentheses that precedence and left
    association require, evaluating the text (surrounded by any white space) gives
    exactly the value or the error of the tree evaluated from left to right. *)
Theorem math_eval_correct {F} `{Float64 F} (sp : list ascii) (e : Expr) (expr : string) :
  Forall (λ c, isSpace c = true) sp → numerals e → TrimSpace expr = textOf (print sp 0 e) →
  evalExpr (F := F) expr = eval e.
Proof.
  intros Hsp Hw Htrim. unfold evalExpr, parseExpr. rewrite Htrim.
  rewrite Stdlib.Strings.String.list_ascii_of_string_of_list_ascii. set (input := print sp 0 e).
  destruct (print_ok (F := F) sp Hsp e Hw) as (_ & _ & _ & Hadd).
  destruct (Hadd [] [] (λ v, inr (v, [])) ltac:(constructor) I I) as [N HN].
  { intros v. apply ev_S. exists 0%nat. by intros n _. }
  rewrite app_nil_r in HN. cbn [app] in HN. fold input in HN.
  pose proof (fu_addsub (F := F) _ (parse_fuelled (8 * length input + 8)) input ltac:(lia)) as Hsafe.
  rewrite <-(mo_addsub (F := F) _ _ (parse_monotone (8 * length input + 8) (N + (8 * length input + 8)) ltac:(lia)) input).
  - rewrite HN by lia. unfold answer. by destruct (eval e).
  - intros Hf. by apply Hsafe in Hf.
Qed.

(** ** Witnesses *)

(** Numbers as the terms that compute them. *)
Inductive Term :=
  | TNum (s : string) | TPi | TE | TNeg (t : Term) | TAdd (a b : Term) | TSub (a b : Term) | TMul (a b : Term)
  | TDiv (a b : Term) | TMod (a b : Term) | TFn1 (f : Fn1) (a : Term) | TFn2 (f : Fn2) (a b : Term).

#[local] Instance terms : Float64 Term := {|
  fadd := TAdd; fsub := TSub; fmul := TMul; fdiv := TDiv; fmod := TMod; fneg := TNeg;
  fisZero t := match t with TNum s => bool_decide (s = "0") | _ => false end;
  fPi := TPi; fE := TE; math1 := TFn1; math2 := TFn2; ParseFloat s := Some (TNum s)
|}.

Definition one : Expr := Num (bytesOf "1").
Definition half : Expr := Num (bytesOf "0.5").

Definition sample_expr : Expr :=
  Add Minus (Add Plus one (Mul Times half (Add Plus one ConstPi))) (Neg (Call2 Max (Call1 Sqrt ConstE) (Mul Mod one half))).

Lemma math_eval_correct_witness :
  textOf (print [" "%char] 0 sample_expr) = "1 + 0.5 * ( 1 + pi ) - - max( sqrt( e ) , 1 % 0.5 )" ∧
  evalExpr (F := Term) "  1 + 0.5 * ( 1 + pi ) - - max( sqrt( e ) , 1 % 0.5 ) " = eval sample_expr.
Proof.
  split; [vm_compute; reflexivity|].
  apply (math_eval_correct [" "%char] sample_expr); [repeat constructor|vm_compute; auto|vm_compute; reflexivity].
Defined.

Example math_eval_values :
  evalExpr (F := Term) "1/0" = inl EDivZero ∧ evalExpr (F := Term) "2 3" = inl (EUnexpected 1) ∧
  evalExpr (F := Term) "1-2-3" = inr (TSub (TSub (TNum "1") (TNum "2")) (TNum "3")) ∧
  evalExpr (F := Term) "2 - -3" = inr (TSub (TNum "2") (TNeg (TNum "3"))) ∧
  evalExpr (F := Term) "---3" = inl (ENumber 3) ∧ evalExpr (F := Term) "--3" = inr (TNeg (TNum "-3")) ∧
  evalExpr (F := Term) "SQRT(4)" = inr (TFn1 Sqrt (TNum "4")) ∧ evalExpr (F := Term) "pow(2)" = inl EArity.
Proof. vm_compute. split_and!; reflexivity. Qed.
