(* ===== verification/NetGuard.v ===== *)
(** * NetGuard: the network guards and the URL fetcher

    Models internal/ssrf/ssrf.go, internal/httpfetch/fetcher.go,
    internal/validate/validators.go and mcp/tools/http.go, with what they use of
    packages net and net/http: the text and byte forms of addresses, networks,
    and the client's loop over redirects.

    The outside is a [World]: the resolver, the dialer and the servers, whose
    answers may differ from one query to the next (so a name may resolve to a
    public address when it is checked and to a private one when it is dialled).
    The state [Net] counts the queries and logs the connections made. *)
From S2P Require Import Prelude GoStrings GoRegexp.

(** ** Package net: addresses *)

Abbreviation IP := (list Z) (only parsing).

Definition v4InV6Prefix : IP := replicate 10 0 ++ [255; 255].

Definition To4 (ip : IP) : option IP :=
  if bool_decide (length ip = 4%nat) then Some ip
  else if bool_decide (length ip = 16%nat ∧ take 12 ip = v4InV6Prefix) then Some (drop 12 ip)
  else None.

Definition As16 (ip : IP) : IP := if bool_decide (length ip = 4%nat) then v4InV6Prefix ++ ip else ip.

Definition IPv6loopback : IP := replicate 15 0 ++ [1].
Definition IPv6unspecified : IP := replicate 16 0.

Definition IsLoopback (ip : IP) : bool :=
  match To4 ip with
  | Some ip4 => bool_decide (head ip4 = Some 127)
  | None => bool_decide (ip = IPv6loopback)
  end.

(** One decimal field of a dotted address: no leading zero, at most 255. *)
Definition parseOctet (s : string) : option Z :=
  match s with
  | "" => None
  | String "0" (String _ _) => None
  | _ => z ← parse_digits 0 s; if bool_decide (z <= 255) then Some z else None
  end.

Definition parseIPv4 (s : string) : option IP :=
  fs ← mapM parseOctet (splitChar "." s);
  if bool_decide (length fs = 4%nat) then Some fs else None.

Definition hexVal (c : ascii) : option Z :=
  let n := Z.of_nat (nat_of_ascii c) in
  if bool_decide (48 <= n <= 57) then Some (n - 48)
  else if bool_decide (97 <= n <= 102) then Some (n - 87)
  else if bool_decide (65 <= n <= 70) then Some (n - 55)
  else None.

(** The hexadecimal digits at the front: how many (at most four), their value,
    what is left. *)
Fixpoint scanHex (n : nat) (acc : Z) (s : string) : option (nat * Z * string) :=
  match s with
  | "" => Some (n, acc, s)
  | String c s' =>
    match hexVal c with
    | Some d => if bool_decide (3 < n)%nat then None else scanHex (S n) (acc * 16 + d) s'
    | None => Some (n, acc, s)
    end
  end.

(** The loop over groups: [rounds] is how many more fit, [bs] the bytes read and
    [ell] where the ellipsis was. *)
Fixpoint groups6 (rounds : nat) (bs : IP) (ell : option nat) (s : string) : option (IP * option nat * string) :=
  match rounds with
  | O => Some (bs, ell, s)
  | S rounds =>
    '(off, acc, rest) ← scanHex 0 0 s;
    if bool_decide (off = 0%nat) then None else
    let bs' := bs ++ [Z.shiftr acc 8; acc mod 256] in
    match rest with
    | "" => Some (bs', ell, "")
    | String "." _ =>
      if bool_decide (ell = None ∧ length bs ≠ 12%nat) then None
      else if bool_decide (16 < length bs + 4)%nat then None
      else f ← parseIPv4 s; Some (bs ++ f, ell, "")
    | String ":" "" => None
    | String ":" (String ":" s2) =>
      match ell with
      | Some _ => None
      | None => if bool_decide (s2 = "") then Some (bs', Some (length bs'), "")
                else groups6 rounds bs' (Some (length bs')) s2
      end
    | String ":" s1 => groups6 rounds bs' ell s1
    | _ => None
    end
  end.

Definition expand6 (bs : IP) (ell : option nat) : option IP :=
  if bool_decide (length bs < 16)%nat then
    e ← ell; Some (take e bs ++ replicate (16 - length bs) 0 ++ drop e bs)
  else match ell with Some _ => None | None => Some bs end.

Definition parseIPv6 (s : string) : option IP :=
  match s with
  | String ":" (String ":" "") => Some IPv6unspecified
  | String ":" (String ":" s2) =>
    '(bs, ell, rest) ← groups6 8 [] (Some 0%nat) s2;
    if bool_decide (rest = "") then expand6 bs ell else None
  | _ =>
    '(bs, ell, rest) ← groups6 8 [] None s;
    if bool_decide (rest = "") then expand6 bs ell else None
  end.

Fixpoint firstOf (p : ascii → bool) (s : string) : option ascii :=
  match s with
  | "" => None
  | String c s => if p c then Some c else firstOf p s
  end.

(** [netip.ParseAddr] without a zone: four or sixteen bytes. *)
Definition ParseAddr (s : string) : option IP :=
  match firstOf (λ c, bool_decide (c = "." ∨ c = ":" ∨ c = "%")%char) s with
  | Some "."%char => parseIPv4 s
  | Some ":"%char => if firstOf (λ c, bool_decide (c = "%"%char)) s then None else parseIPv6 s
  | _ => None
  end.

(** [net.ParseIP]: always the sixteen-byte form. *)
Definition ParseIP (s : string) : option IP := As16 <$> ParseAddr s.

(** ** Package net: networks *)

Record IPNet := { netIP : IP; netMask : IP }.

Fixpoint CIDRMask (l : nat) (ones : Z) : IP :=
  match l with
  | O => []
  | S l => if bool_decide (8 <= ones) then 255 :: CIDRMask l (ones - 8)
           else (255 - Z.shiftr 255 ones) :: CIDRMask l 0
  end.

Definition maskBytes (ip mask : IP) : IP := zip_with Z.land ip mask.

Definition Contains (n : IPNet) (ip : IP) : bool :=
  let ip := default ip (To4 ip) in
  bool_decide (length ip = length (netIP n) ∧ maskBytes (netIP n) (netMask n) = maskBytes ip (netMask n)).

Fixpoint cutSlash (s : string) : option (string * string) :=
  match s with
  | "" => None
  | String "/" t => Some ("", t)
  | String c s => '(a, b) ← cutSlash s; Some (String c a, b)
  end.

Definition ParseCIDR (s : string) : option IPNet :=
  '(addr, mask) ← cutSlash s;
  ip ← ParseAddr addr;
  n ← parse_uint mask;
  if bool_decide (n <= 8 * Z.of_nat (length ip)) then
    let m := CIDRMask (length ip) n in Some {| netIP := maskBytes ip m; netMask := m |}
  else None.

(** ** internal/ssrf *)

(** [None] is the panic of the package's initialisation. *)
Definition mustParseCIDR (s : string) : option IPNet := ParseCIDR s.

Definition PrivateRangeTexts : list string := [
  "0.0.0.0/8"; "10.0.0.0/8"; "100.64.0.0/10"; "127.0.0.0/8"; "169.254.0.0/16"; "172.16.0.0/12";
  "192.168.0.0/16"; "::1/128"; "fc00::/7"; "fe80::/10"].

Definition PrivateRanges : list IPNet := default [] (mapM mustParseCIDR PrivateRangeTexts).

Definition IsPrivateIP (ip : IP) : bool :=
  let ip := default ip (To4 ip) in existsb (λ r, Contains r ip) PrivateRanges.

Definition octet (b : Z) : Prop := 0 <= b < 256.

(** ** The outside *)

(** A parsed URL, as much of it as the code looks at. *)
Record URL := { Scheme : string; Hostname : string; Port : string; Rest : string }.

Abbreviation Headers := (gmap string string) (only parsing).

Record Request := { rMethod : string; rURL : URL; rHeader : Headers; rBody : string }.

(** A response; [rBroken] tells that reading fails where the body ends. *)
Record Response := {
  StatusCode : Z; Location : string; ContentType : string; respHeader : Headers; respBody : string; rBroken : bool
}.

Inductive NetError :=
  | ErrDNS (host : string)
  | ErrNoRecords (host : string)
  | ErrPrivate (host : string) (ip : IP)
  | ErrDialTarget
  | ErrConnect
  | ErrTransport
  | ErrRedirectURL
  | ErrTooManyRedirects (n : nat)
  | ErrNilURL
  | ErrScheme (scheme : string)
  | ErrNoHost
  | ErrBlocklisted (host : string)
  | ErrNotAllowlisted (host : string)
  | ErrInvalidURL
  | ErrMethod
  | ErrNewRequest
  | ErrRead.

(** What the outside answers at the n-th query: the resolver ([None] is an
    error), whether a connection to an address succeeds, the address the dialer
    picks when it resolves a name itself, and the server's answer. *)
Record World := {
  LookupIPAddr : nat → string → option (list IP);
  reachable : nat → IP → string → bool;
  dialHost : nat → string → string → option IP;
  serve : nat → IP → string → Request → option Response
}.

Record Connection := { connIP : IP; connPort : string; connReq : Request }.

Record Net := { queries : nat; connections : list Connection }.

Definition tick (n : Net) : Net := {| queries := S (queries n); connections := connections n |}.

(** ** internal/ssrf: resolution *)

Section resolver.
Context (w : World).

Definition ResolveHost (host : string) (n : Net) : (NetError + list IP) * Net :=
  match ParseIP host with
  | Some ip => (inr [ip], n)
  | None =>
    match LookupIPAddr w (queries n) host with
    | None => (inl (ErrDNS host), tick n)
    | Some [] => (inl (ErrNoRecords host), tick n)
    | Some ips => (inr ips, tick n)
    end
  end.

(** The first address a check refuses. *)
Definition refused (allowLoopback : bool) (ips : list IP) : option IP :=
  List.find (λ ip, negb (allowLoopback && IsLoopback ip) && IsPrivateIP ip) ips.

Definition RejectPrivateIPs (host : string) (allowLoopback : bool) (n : Net) : option NetError * Net :=
  match ResolveHost host n with
  | (inl err, n') => (Some err, n')
  | (inr ips, n') => (ErrPrivate host <$> refused allowLoopback ips, n')
  end.

(** A dialer that connects to the address it is given ([ResolveHost] never answers an
    empty list, so its callers may take the first address). *)
Definition dialIP (ip : IP) (port : string) (n : Net) : (NetError + (IP * string)) * Net :=
  (if reachable w (queries n) ip port then inr (ip, port) else inl ErrConnect, tick n).

Definition dialName (host port : string) (n : Net) : (NetError + (IP * string)) * Net :=
  (match dialHost w (queries n) host port with Some ip => inr (ip, port) | None => inl ErrConnect end, tick n).
End resolver.

(** ** Package net/http: the client *)

(** [NewRequest] refuses a method that is no token. *)
Definition tokenChar (c : ascii) : bool :=
  let n := nat_of_ascii c in
  bool_decide ((48 ≤ n ≤ 57) ∨ (65 ≤ n ≤ 90) ∨ (97 ≤ n ≤ 122)
               ∨ n ∈ [33; 35; 36; 37; 38; 39; 42; 43; 45; 46; 94; 95; 96; 124; 126])%nat.

Definition validMethod (m : string) : bool := negb (bool_decide (m = "")) && stringForall tokenChar m.

(** What the code uses of the standard library and cannot observe: URL parsing,
    the dial address of a URL ([None] when it cannot be split), the canonical
    form of header names, which headers the transport accepts, and which headers
    follow a redirect. *)
Class HTTP := {
  urlParse : string → option URL;
  urlResolve : URL → string → option URL;
  dialAddr : URL → option (string * string);
  CanonicalHeader : string → string;
  headersOK : Headers → bool;
  redirectHeaders : URL → URL → Headers → Headers;
  jsonIndent : string → option string
}.

Record Client := {
  DialContext : World → option (string * string) → Net → (NetError + (IP * string)) * Net;
  CheckRedirect : World → URL → list URL → Net → option NetError * Net
}.

Section client.
Context `{HTTP} (w : World).

Definition NewRequest (method raw body : string) : option Request :=
  let method := if bool_decide (method = "") then "GET" else method in
  if validMethod method then u ← urlParse raw; Some {| rMethod := method; rURL := u; rHeader := ∅; rBody := body |}
  else None.

Definition headerSet (k v : string) (r : Request) : Request := {|
  rMethod := rMethod r; rURL := rURL r; rHeader := <[CanonicalHeader k := v]> (rHeader r); rBody := rBody r
|}.

Definition headerSetAll (hs : list (string * string)) (r : Request) : Request :=
  foldl (λ r kv, headerSet kv.1 kv.2 r) r hs.

(** One round trip: the transport checks the request, dials and asks the server. *)
Definition send (c : Client) (r : Request) (n : Net) : (NetError + Response) * Net :=
  if bool_decide (Scheme (rURL r) ∉ ["http"; "https"]) || bool_decide (Hostname (rURL r) = "")
     || negb (headersOK (rHeader r))
  then (inl ErrTransport, n)
  else match DialContext c w (dialAddr (rURL r)) n with
       | (inl err, n') => (inl err, n')
       | (inr (ip, port), n') =>
         let n'' := {| queries := S (queries n');
                       connections := connections n' ++ [{| connIP := ip; connPort := port; connReq := r |}] |} in
         (match serve w (queries n') ip port r with Some resp => inr resp | None => inl ErrTransport end, n'')
       end.

(** [redirectBehavior]: the method to go on with, and whether the body goes along. *)
Definition redirectBehavior (method : string) (status : Z) : option (string * bool) :=
  if bool_decide (status ∈ [301; 302; 303]) then
    Some (if bool_decide (method = "GET" ∨ method = "HEAD") then method else "GET", false)
  else if bool_decide (status ∈ [307; 308]) then Some (method, true)
  else None.

(** [Client.Do] from the request [r] after the requests [via]; [None] when the fuel
    is spent. *)
Fixpoint Do (fuel : nat) (c : Client) (ireq : Request) (via : list URL) (r : Request) (n : Net)
  : option ((NetError + Response) * Net) :=
  match fuel with
  | O => None
  | S fuel =>
    match send c r n with
    | (inl err, n') => Some (inl err, n')
    | (inr resp, n') =>
      match redirectBehavior (rMethod r) (StatusCode resp) with
      | None => Some (inr resp, n')
      | Some (method, includeBody) =>
        if bool_decide (Location resp = "") then Some (inr resp, n') else
        match urlResolve (rURL r) (Location resp) with
        | None => Some (inl ErrRedirectURL, n')
        | Some u =>
          let via' := via ++ [rURL r] in
          match CheckRedirect c w u via' n' with
          | (Some err, n'') => Some (inl err, n'')
          | (None, n'') =>
            Do fuel c ireq via' {| rMethod := method; rURL := u;
                                   rHeader := redirectHeaders (rURL ireq) u (rHeader ireq);
                                   rBody := if includeBody then rBody ireq else "" |} n''
          end
        end
      end
    end
  end.

(** [io.ReadAll] of an [io.LimitReader]. *)
Definition readLimited (limit : Z) (resp : Response) : option string :=
  if bool_decide (limit <= 0) then Some ""
  else if rBroken resp && bool_decide (Z.of_nat (String.length (respBody resp)) < limit) then None
  else Some (takeBytes (Z.to_nat limit) (respBody resp)).
End client.

(** ** internal/httpfetch *)

Definition DefaultMaxSize : Z := 10 * 1024 * 1024.
Definition DefaultTimeout : Duration := 30 * Second.
Definition maxRedirects : nat := 5.

Record FetchResult := { frURL : string; frStatus : Z; frContentType : string; frBody : string; BytesFetched : Z }.
Record PingResult := { prURL : string; prStatus : Z; LatencyMs : Z }.

Record HTTPFetcher := {
  allowlist : list string; blocklist : list string; maxSize : Z; timeout : Duration; skipSSRF : bool;
  skipTLSVerify : bool
}.

Inductive FetchOption :=
  | WithAllowlist (domains : list string)
  | WithBlocklist (domains : list string)
  | WithMaxSize (n : Z)
  | WithTimeout (d : Duration)
  | WithSkipSSRF
  | WithSkipTLSVerify.

Definition applyFetchOption (f : HTTPFetcher) (o : FetchOption) : HTTPFetcher :=
  match o with
  | WithAllowlist l => {| allowlist := l; blocklist := blocklist f; maxSize := maxSize f; timeout := timeout f;
                          skipSSRF := skipSSRF f; skipTLSVerify := skipTLSVerify f |}
  | WithBlocklist l => {| allowlist := allowlist f; blocklist := l; maxSize := maxSize f; timeout := timeout f;
                          skipSSRF := skipSSRF f; skipTLSVerify := skipTLSVerify f |}
  | WithMaxSize n => {| allowlist := allowlist f; blocklist := blocklist f; maxSize := n; timeout := timeout f;
                        skipSSRF := skipSSRF f; skipTLSVerify := skipTLSVerify f |}
  | WithTimeout d => {| allowlist := allowlist f; blocklist := blocklist f; maxSize := maxSize f; timeout := d;
                        skipSSRF := skipSSRF f; skipTLSVerify := skipTLSVerify f |}
  | WithSkipSSRF => {| allowlist := allowlist f; blocklist := blocklist f; maxSize := maxSize f; timeout := timeout f;
                       skipSSRF := true; skipTLSVerify := skipTLSVerify f |}
  | WithSkipTLSVerify => {| allowlist := allowlist f; blocklist := blocklist f; maxSize := maxSize f;
                            timeout := timeout f; skipSSRF := skipSSRF f; skipTLSVerify := true |}
  end.

Definition NewHTTPFetcher (opts : list FetchOption) : HTTPFetcher :=
  foldl applyFetchOption
    {| allowlist := []; blocklist := []; maxSize := DefaultMaxSize; timeout := DefaultTimeout;
       skipSSRF := false; skipTLSVerify := false |} opts.

Definition rejectPrivateIP (w : World) (host : string) (n : Net) : option NetError * Net :=
  RejectPrivateIPs w host false n.

Definition checkDomainFilters (f : HTTPFetcher) (host : string) : option NetError :=
  let host := ToLower host in
  if existsb (λ b, bool_decide (ToLower b = host)) (blocklist f) then Some (ErrBlocklisted host)
  else match allowlist f with
       | [] => None
       | _ => if existsb (λ a, bool_decide (ToLower a = host)) (allowlist f) then None
              else Some (ErrNotAllowlisted host)
       end.

Definition validateURL (f : HTTPFetcher) (w : World) (parsed : option URL) (n : Net) : option NetError * Net :=
  match parsed with
  | None => (Some ErrNilURL, n)
  | Some u =>
    if bool_decide (Scheme u ≠ "http" ∧ Scheme u ≠ "https") then (Some (ErrScheme (Scheme u)), n)
    else if bool_decide (Hostname u = "") then (Some ErrNoHost, n)
    else match (if skipSSRF f then (None, n) else rejectPrivateIP w (Hostname u) n) with
         | (Some err, n') => (Some err, n')
         | (None, n') => (checkDomainFilters f (Hostname u), n')
         end
  end.

Definition safeDialContext (f : HTTPFetcher) (w : World) (addr : option (string * string)) (n : Net)
  : (NetError + (IP * string)) * Net :=
  match addr with
  | None => (inl ErrDialTarget, n)
  | Some (host, port) =>
    if skipSSRF f then dialName w host port n
    else match ResolveHost w host n with
         | (inl err, n') => (inl err, n')
         | (inr ips, n') =>
           match refused false ips with
           | Some ip => (inl (ErrPrivate host ip), n')
           | None => match ips with
                     | [] => (inl ErrDialTarget, n')
                     | ip :: _ => dialIP w ip port n'
                     end
           end
         end
  end.

Definition checkRedirect (f : HTTPFetcher) (w : World) (u : URL) (via : list URL) (n : Net) : option NetError * Net :=
  if bool_decide (maxRedirects <= length via)%nat then (Some (ErrTooManyRedirects maxRedirects), n)
  else validateURL f w (Some u) n.

Definition clientOf (f : HTTPFetcher) : Client :=
  {| DialContext := safeDialContext f; CheckRedirect := checkRedirect f |}.

(** *** Bodies *)

(** A case-insensitive literal: the letter s has a third form in Unicode. *)
Definition upperAscii (c : ascii) : ascii :=
  if inRange "a" "z" c then ascii_of_nat (nat_of_ascii c - 32) else c.

Definition foldedChar (c : ascii) : re :=
  let both := Lit (λ x, bool_decide (x = c ∨ x = upperAscii c)) in
  if bool_decide (c = "s"%char) then Alt both (Cat (chr (ascii_of_nat 197)) (chr (ascii_of_nat 191))) else both.

Fixpoint folded (s : string) : re :=
  match s with "" => Eps | String c "" => foldedChar c | String c s => Cat (foldedChar c) (folded s) end.

Definition notGt (c : ascii) : bool := negb (bool_decide (c = ">"%char)).
Definition quoteChar : ascii := ascii_of_nat 34.
Definition notQuote (c : ascii) : bool := negb (bool_decide (c = quoteChar)).
Definition attrs : re := Star true (Lit notGt).

Fixpoint seqs (rs : list re) : re := match rs with [] => Eps | [r] => r | r :: rs => Cat r (seqs rs) end.

Definition reBlock (tag : string) : re :=
  seqs [folded ("<" +:+ tag); attrs; chr ">"; Star false (Lit anyByte); folded ("</" +:+ tag +:+ ">")].
Definition reScript : re := reBlock "script".
Definition reStyle : re := reBlock "style".
Definition reComment : re := seqs [word "<!--"; Star false (Lit anyByte); word "-->"].
Definition reElement (tag : string) : re :=
  seqs [folded ("<" +:+ tag); attrs; chr ">"; Cap 1 (Star false (Lit notNewline)); folded ("</" +:+ tag +:+ ">")].
Definition reLink : re :=
  seqs [folded "<a"; Plus (Lit notGt); folded "href="; chr quoteChar; Cap 1 (Star true (Lit notQuote)); chr quoteChar;
        attrs; chr ">"; Cap 2 (Star false (Lit notNewline)); folded "</a>"].
Definition reParagraph : re := seqs [chr "<"; Opt (chr "/"); folded "p"; attrs; chr ">"].
Definition reBr : re := seqs [folded "<br"; Star true (Lit spaceClass); Opt (chr "/"); chr ">"].
Definition reTag : re := seqs [chr "<"; Plus (Lit notGt); chr ">"].
Definition reMultiNL : re := AtLeast 3 (chr newline).
Definition reEntity : re :=
  seqs [chr "&"; Cap 1 (Alt (word "amp") (Alt (word "lt") (Alt (word "gt") (Alt (word "quot") (Alt (word "apos") (word "nbsp"))))));
        chr ";"].

Definition decodeEntity (entity : string) : string :=
  if bool_decide (entity = "&amp;") then "&"
  else if bool_decide (entity = "&lt;") then "<"
  else if bool_decide (entity = "&gt;") then ">"
  else if bool_decide (entity = "&quot;") then String quoteChar ""
  else if bool_decide (entity = "&apos;") then "'"
  else if bool_decide (entity = "&nbsp;") then " "
  else entity.

Definition nl : string := String newline "".

Definition heading (marks : string) (tag : string) (s : string) : string :=
  ReplaceAll (reElement tag) (λ _ g, nl +:+ marks +:+ " " +:+ groupOf 1 g +:+ nl) s.

Definition htmlToMarkdown (html : string) : string :=
  let s := ReplaceAll reScript (λ _ _, "") html in
  let s := ReplaceAll reStyle (λ _ _, "") s in
  let s := ReplaceAll reComment (λ _ _, "") s in
  let s := heading "#" "h1" s in
  let s := heading "##" "h2" s in
  let s := heading "###" "h3" s in
  let s := heading "####" "h4" s in
  let s := heading "#####" "h5" s in
  let s := heading "######" "h6" s in
  let s := ReplaceAll reLink (λ _ g, "[" +:+ groupOf 2 g +:+ "](" +:+ groupOf 1 g +:+ ")") s in
  let s := ReplaceAll (reElement "li") (λ _ g, nl +:+ "- " +:+ groupOf 1 g) s in
  let s := ReplaceAll reParagraph (λ _ _, nl) s in
  let s := ReplaceAll reBr (λ _ _, nl) s in
  let s := ReplaceAll reTag (λ _ _, "") s in
  let s := ReplaceAll reEntity (λ t _, decodeEntity t) s in
  let s := ReplaceAll reMultiNL (λ _ _, nl +:+ nl) s in
  TrimSpace s.

(** *** Requests *)

(** How a call ends: with an answer, in a panic, or beyond the model's fuel. *)
Inductive Outcome (A : Type) := Returns (r : NetError + A) | Panics | Unfinished.
Arguments Returns {A} r.
Arguments Panics {A}.
Arguments Unfinished {A}.

(** [strings.ToUpper], as far as a result can be an ASCII text: two letters beyond
    ASCII have an ASCII upper case. *)
Fixpoint ToUpper (s : string) : string :=
  match s with
  | String c ((String d s') as t) =>
    if bool_decide (nat_of_ascii c = 197 ∧ nat_of_ascii d = 191)%nat then String "S" (ToUpper s')
    else if bool_decide (nat_of_ascii c = 196 ∧ nat_of_ascii d = 177)%nat then String "I" (ToUpper s')
    else String (upperAscii c) (ToUpper t)
  | String c "" => String (upperAscii c) ""
  | "" => ""
  end.

Definition allowedMethods : list string := ["GET"; "POST"; "PUT"; "DELETE"; "PATCH"; "HEAD"; "OPTIONS"].

Definition methodAllowsBody (method : string) : bool := bool_decide (method ∈ ["POST"; "PUT"; "PATCH"]).

(** [strings.Contains]. *)
Fixpoint containsText (s sub : string) : bool :=
  HasPrefix s sub || match s with "" => false | String _ s => containsText s sub end.

(** The redirects the fetcher follows are fewer than this. *)
Definition fetchFuel : nat := S maxRedirects.

Section fetcher.
Context `{HTTP} (w : World) (f : HTTPFetcher).

Definition prettyPrintJSON (s : string) : string := default s (jsonIndent s).

Definition transformBody (contentType body : string) : string :=
  if containsText contentType "text/html" then htmlToMarkdown body
  else if containsText contentType "application/json" then prettyPrintJSON body
  else body.

(** What Fetch and Request do with the response. *)
Definition finishFetch (rawURL : string) (resp : Response) : Outcome FetchResult :=
  match readLimited (int64_wrap (maxSize f + 1)) resp with
  | None => Returns (inl ErrRead)
  | Some body =>
    let truncated := bool_decide (maxSize f < Z.of_nat (String.length body)) in
    if truncated && bool_decide (maxSize f < 0) then Panics else
    let body := if truncated then takeBytes (Z.to_nat (maxSize f)) body else body in
    let bodyStr := transformBody (ContentType resp) body in
    Returns (inr {| frURL := rawURL; frStatus := StatusCode resp; frContentType := ContentType resp;
                    frBody := if truncated then bodyStr +:+ nl +:+ "[truncated]" else bodyStr;
                    BytesFetched := Z.of_nat (String.length body) |})
  end.

(** Sending a checked request and handing the response on. *)
Definition doRequest {A} (req : option Request) (n : Net) (k : Response → Net → Outcome A) : Outcome A * Net :=
  match req with
  | None => (Returns (inl ErrNewRequest), n)
  | Some req =>
    match Do w fetchFuel (clientOf f) req [] req n with
    | None => (Unfinished, n)
    | Some (inl err, n') => (Returns (inl err), n')
    | Some (inr resp, n') => (k resp n', n')
    end
  end.

Definition withURL {A} (rawURL : string) (n : Net) (k : Net → Outcome A * Net) : Outcome A * Net :=
  match urlParse rawURL with
  | None => (Returns (inl ErrInvalidURL), n)
  | Some u =>
    match validateURL f w (Some u) n with
    | (Some err, n') => (Returns (inl err), n')
    | (None, n') => k n'
    end
  end.

Definition Fetch (rawURL : string) (n : Net) : Outcome FetchResult * Net :=
  withURL rawURL n (λ n',
    doRequest (headerSet "User-Agent" "AgentOS-FetchURL/1.0" <$> NewRequest "GET" rawURL "") n'
      (λ resp _, finishFetch rawURL resp)).

(** [headers] in the order the map is visited. *)
Definition RequestURL (method rawURL : string) (headers : list (string * string)) (body : string) (n : Net)
  : Outcome FetchResult * Net :=
  let method := ToUpper method in
  if bool_decide (method ∉ allowedMethods) then (Returns (inl ErrMethod), n)
  else withURL rawURL n (λ n',
    doRequest ((λ r, headerSetAll headers (headerSet "User-Agent" "AgentOS-HTTPRequest/1.0" r)) <$>
               NewRequest method rawURL (if methodAllowsBody method then body else "")) n'
      (λ resp _, finishFetch rawURL resp)).

(** [elapsed] is the time between the two clock readings. *)
Definition Ping (rawURL : string) (elapsed : Duration) (n : Net) : Outcome PingResult * Net :=
  withURL rawURL n (λ n',
    doRequest (headerSet "User-Agent" "AgentOS-Ping/1.0" <$> NewRequest "HEAD" rawURL "") n'
      (λ resp _, Returns (inr {| prURL := rawURL; prStatus := StatusCode resp; LatencyMs := Z.quot elapsed Millisecond |}))).

(** *** The MCP tools of mcp/tools/http.go *)

Inductive HttpToolError := BadParameters | MissingURL | MissingMethod | FetchFailed (e : NetError).

Inductive ToolOutcome (A : Type) := ToolReturns (r : HttpToolError + A) | ToolPanics | ToolUnfinished.
Arguments ToolReturns {A} r.
Arguments ToolPanics {A}.
Arguments ToolUnfinished {A}.

Definition wrapOutcome {A} (o : Outcome A) : ToolOutcome A :=
  match o with
  | Returns (inl e) => ToolReturns (inl (FetchFailed e))
  | Returns (inr a) => ToolReturns (inr a)
  | Panics => ToolPanics
  | Unfinished => ToolUnfinished
  end.

(** [params] is [None] when the parameters do not decode. *)
Definition fetchURLHandler (params : option string) (n : Net) : ToolOutcome FetchResult * Net :=
  match params with
  | None => (ToolReturns (inl BadParameters), n)
  | Some url => if bool_decide (url = "") then (ToolReturns (inl MissingURL), n)
                else prod_map wrapOutcome id (Fetch url n)
  end.

Record httpRequestInput := { hriURL : string; hriMethod : string; hriHeaders : list (string * string); hriBody : string }.

Definition httpRequestHandler (params : option httpRequestInput) (n : Net) : ToolOutcome FetchResult * Net :=
  match params with
  | None => (ToolReturns (inl BadParameters), n)
  | Some i =>
    if bool_decide (hriURL i = "") then (ToolReturns (inl MissingURL), n)
    else if bool_decide (hriMethod i = "") then (ToolReturns (inl MissingMethod), n)
    else prod_map wrapOutcome id (RequestURL (hriMethod i) (hriURL i) (hriHeaders i) (hriBody i) n)
  end.

Definition pingURLHandler (params : option string) (elapsed : Duration) (n : Net) : ToolOutcome PingResult * Net :=
  match params with
  | None => (ToolReturns (inl BadParameters), n)
  | Some url => if bool_decide (url = "") then (ToolReturns (inl MissingURL), n)
                else prod_map wrapOutcome id (Ping url elapsed n)
  end.
End fetcher.

(** ** The private ranges *)

Lemma octet_all (P : Z → bool) b : forallb P (seqZ 0 256) = true → octet b → P b = true.
Proof.
  intros HP Hb. rewrite forallb_forall in HP. apply HP. apply list_elem_of_In, elem_of_seqZ. unfold octet in Hb. lia.
Qed.

(** A byte under the masks that occur, as a range. *)
Lemma mask_range m v lo hi b :
  forallb (λ b, eqb (bool_decide (Z.land b m = v)) (bool_decide (lo <= b < hi))) (seqZ 0 256) = true →
  octet b → Z.land b m = v ↔ lo <= b < hi.
Proof.
  intros HP Hb. pose proof (octet_all _ _ HP Hb) as H. apply eqb_prop in H.
  split; intros Hx; [apply (bool_decide_eq_true_1 _) | apply (bool_decide_eq_true_1 _)].
  - by rewrite <- H, bool_decide_true.
  - by rewrite H, bool_decide_true.
Qed.

Definition private4 (a b : Z) : Prop :=
  a = 0 ∨ a = 10 ∨ a = 127 ∨ (a = 100 ∧ 64 <= b < 128) ∨ (a = 169 ∧ b = 254) ∨ (a = 172 ∧ 16 <= b < 32)
  ∨ (a = 192 ∧ b = 168).

Definition private6 (ip : IP) : Prop :=
  ip = IPv6loopback ∨ (∃ a b rest, ip = a :: b :: rest ∧ (252 <= a < 254 ∨ (a = 254 ∧ 128 <= b < 192))).

Lemma land_255 b : octet b → Z.land b 255 = b.
Proof. intros Hb. change 255 with (Z.ones 8). rewrite Z.land_ones by lia. apply Z.mod_small. exact Hb. Qed.

(** Evaluates the bitwise conjunctions of numerals. *)
Ltac land_consts :=
  repeat match goal with
  | |- context [Z.land ?x ?y] =>
    let v := eval vm_compute in (Z.land x y) in
    match v with Z0 => change (Z.land x y) with v | Zpos _ => change (Z.land x y) with v end
  end.

Lemma mask_10 b : octet b → Z.land b 192 = 64 ↔ 64 <= b < 128.
Proof. apply mask_range. vm_compute. reflexivity. Qed.
Lemma mask_12 b : octet b → Z.land b 240 = 16 ↔ 16 <= b < 32.
Proof. apply mask_range. vm_compute. reflexivity. Qed.
Lemma mask_7 b : octet b → Z.land b 254 = 252 ↔ 252 <= b < 254.
Proof. apply mask_range. vm_compute. reflexivity. Qed.
Lemma mask_v6_10 b : octet b → Z.land b 192 = 128 ↔ 128 <= b < 192.
Proof. apply mask_range. vm_compute. reflexivity. Qed.

(** An address as the guard compares it. *)
Definition normal (ip : IP) : IP := default ip (To4 ip).

Lemma normal_idemp ip : normal (normal ip) = normal ip.
Proof.
  unfold normal, To4. case_bool_decide as H4; simpl; [by rewrite bool_decide_true|].
  case_bool_decide as H16; simpl.
  - destruct H16 as [Hl _]. rewrite bool_decide_true; [done|]. rewrite length_drop. lia.
  - rewrite bool_decide_false by done. by rewrite bool_decide_false.
Qed.

Lemma Contains_normal n ip : Contains n (normal ip) = bool_decide
  (length (normal ip) = length (netIP n) ∧ maskBytes (netIP n) (netMask n) = maskBytes (normal ip) (netMask n)).
Proof. unfold Contains. fold (normal (normal ip)). by rewrite normal_idemp. Qed.

(** The network holds the (normal) address. *)
Definition inNet (ip : IP) (r : IPNet) : Prop :=
  length ip = length (netIP r) ∧ maskBytes (netIP r) (netMask r) = maskBytes ip (netMask r).

Lemma IsPrivateIP_Exists ip : IsPrivateIP ip = true ↔ Exists (inNet (normal ip)) PrivateRanges.
Proof.
  unfold IsPrivateIP. fold (normal ip). rewrite existsb_exists, Exists_exists.
  split; intros (r & Hr & H); exists r; rewrite ?list_elem_of_In, ?Contains_normal, ?bool_decide_eq_true in *; auto.
Qed.

Lemma PrivateRanges_value : PrivateRanges =
  let v4 a b m m' := {| netIP := [a; b; 0; 0]; netMask := [m; m'; 0; 0] |} in
  let v6 a b m m' := {| netIP := a :: b :: replicate 14 0; netMask := m :: m' :: replicate 14 0 |} in
  [v4 0 0 255 0; v4 10 0 255 0; v4 100 64 255 192; v4 127 0 255 0; v4 169 254 255 255; v4 172 16 255 240;
   v4 192 168 255 255; {| netIP := IPv6loopback; netMask := replicate 16 255 |}; v6 252 0 254 0; v6 254 128 255 192].
Proof. vm_compute. reflexivity. Qed.


Lemma inNet_44 a b c d x y m m' :
  inNet [a; b; c; d] {| netIP := [x; y; 0; 0]; netMask := [m; m'; 0; 0] |} ↔ Z.land x m = Z.land a m ∧ Z.land y m' = Z.land b m'.
Proof.
  unfold inNet, maskBytes. simpl. rewrite !Z.land_0_r. split; [intros [_ H]; by simplify_eq|].
  intros [-> ->]. done.
Qed.

Lemma IsPrivateIP_4 a b c d ip : normal ip = [a; b; c; d] → octet a → octet b →
  IsPrivateIP ip = true ↔ private4 a b.
Proof.
  intros Hn Ha Hb. rewrite IsPrivateIP_Exists, Hn, PrivateRanges_value. cbv zeta.
  rewrite !Exists_cons, Exists_nil, !inNet_44, !Z.land_0_r, !(land_255 a), !(land_255 b) by done.
  unfold private4. rewrite <- (mask_10 b), <- (mask_12 b) by done.
  assert (H6 : ∀ r, length (netIP r) = 16%nat → inNet [a; b; c; d] r ↔ False).
  { intros r Hr. unfold inNet. rewrite Hr. simpl. lia. }
  rewrite !H6 by done. land_consts. lia.
Qed.

Lemma inNet_66 a b rest x y m m' : length rest = 14%nat →
  inNet (a :: b :: rest) {| netIP := x :: y :: replicate 14 0; netMask := m :: m' :: replicate 14 0 |}
  ↔ Z.land x m = Z.land a m ∧ Z.land y m' = Z.land b m'.
Proof.
  intros Hl. unfold inNet, maskBytes. cbn [zip_with netIP netMask length].
  assert (Hz : ∀ l : list Z, zip_with Z.land l (replicate (length l) 0) = replicate (length l) 0).
  { induction l as [|z l IH]; simpl; [done|]. by rewrite Z.land_0_r, IH. }
  pose proof (Hz rest) as H2. rewrite Hl in *. rewrite H2. rewrite (Hz (replicate 14 0) : zip_with Z.land (replicate 14 0) (replicate 14 0) = replicate 14 0).
  split; [intros [_ H]; by simplify_eq|]. by intros [-> ->].
Qed.

Lemma mask_all ip : Forall octet ip → maskBytes ip (replicate (length ip) 255) = ip.
Proof. induction 1 as [|b ip Hb _ IH]; [done|]. simpl. unfold maskBytes in *. simpl. by rewrite IH, land_255. Qed.

Lemma IsPrivateIP_6 ip : normal ip = ip → length ip = 16%nat → Forall octet ip →
  IsPrivateIP ip = true ↔ private6 ip.
Proof.
  intros Hn Hl Ho. rewrite IsPrivateIP_Exists, Hn, PrivateRanges_value. cbv zeta.
  assert (H4 : ∀ r, length (netIP r) = 4%nat → inNet ip r ↔ False).
  { intros r Hr. unfold inNet. rewrite Hr, Hl. lia. }
  rewrite !Exists_cons, Exists_nil, !H4 by done.
  assert (H1 : inNet ip {| netIP := IPv6loopback; netMask := replicate 16 255 |} ↔ ip = IPv6loopback).
  { unfold inNet. cbn [netIP netMask]. pose proof (mask_all ip Ho) as Hm. rewrite Hl in Hm. rewrite Hm.
    change (maskBytes IPv6loopback (replicate 16 255)) with IPv6loopback. rewrite Hl. split; [naive_solver|].
    intros ->. done. }
  rewrite H1. destruct ip as [|a [|b rest]]; [done..|]. apply Forall_cons in Ho as [Ha Ho]. apply Forall_cons in Ho as [Hb Ho].
  rewrite !inNet_66 by (simpl in Hl; lia). rewrite !Z.land_0_r, !(land_255 a) by done.
  assert (HP : private6 (a :: b :: rest) ↔ a :: b :: rest = IPv6loopback ∨ (252 <= a < 254 ∨ (a = 254 ∧ 128 <= b < 192))).
  { unfold private6. split; [|naive_solver]. intros [?|(x & y & r & [= <- <- <-] & ?)]; auto. }
  rewrite HP, <- (mask_7 a), <- (mask_v6_10 b) by done.
  land_consts.
  assert (∀ x y : Z, x = y ↔ y = x) as Hs by done. rewrite (Hs 252), (Hs 254), (Hs 128). naive_solver.
Qed.

(** The guard's address test, computed from the text of its ten networks by masks,
    is exactly this set of ranges: for an IPv4 address in either of its forms the ranges
    0/8, 10/8, 100.64/10, 127/8, 169.254/16, 172.16/12 and 192.168/16, for any other IPv6
    address ::1, fc00::/7 and fe80::/10. *)
Theorem private_ip_exact :
  (∀ a b c d, Forall octet [a; b; c; d] →
     (IsPrivateIP [a; b; c; d] = true ↔ private4 a b) ∧
     (IsPrivateIP (As16 [a; b; c; d]) = true ↔ private4 a b)) ∧
  (∀ ip, length ip = 16%nat → To4 ip = None → Forall octet ip → (IsPrivateIP ip = true ↔ private6 ip)).
Proof.
  split.
  - intros a b c d HF. apply Forall_cons in HF as [Ha HF]. apply Forall_cons in HF as [Hb _].
    split; apply (IsPrivateIP_4 a b c d); done.
  - intros ip Hl Hn Ho. apply IsPrivateIP_6; [|done..]. unfold normal. by rewrite Hn.
Qed.

(** ** What the client connects to *)

(** A client whose dialer reaches only addresses of [P], whose redirects go only to
    URLs of [Q], and which follows fewer than [M] of them. *)
Record Guarded (c : Client) (P : IP → Prop) (Q : URL → Prop) (M : nat) : Prop := {
  dial_guarded w a n r n' : DialContext c w a n = (r, n') →
    connections n' = connections n ∧ ∀ ip port, r = inr (ip, port) → P ip;
  redirect_guarded w u via n r n' : CheckRedirect c w u via n = (r, n') →
    connections n' = connections n ∧ (r = None → Q u ∧ (length via < M)%nat)
}.

Definition within (P : IP → Prop) (Q : URL → Prop) (k : Connection) : Prop := P (connIP k) ∧ Q (rURL (connReq k)).

Section guarded.
Context `{HTTP} (w : World) (c : Client) (P : IP → Prop) (Q : URL → Prop) (M : nat) (HG : Guarded c P Q M).

Lemma send_guarded r n res n' : Q (rURL r) → send w c r n = (res, n') →
  ∃ new, connections n' = connections n ++ new ∧ Forall (within P Q) new ∧ (length new ≤ 1)%nat.
Proof.
  intros HQ. unfold send. destruct (_ || _).
  { intros [= <- <-]. exists []. rewrite app_nil_r. split_and!; [done|constructor|simpl; lia]. }
  destruct (DialContext c w (dialAddr (rURL r)) n) as [[err|[ip port]] n1] eqn:E; intros [= <- <-];
    apply (dial_guarded _ _ _ _ HG) in E as [Hc HP].
  - exists []. rewrite Hc, app_nil_r. split_and!; [done|constructor|simpl; lia].
  - simpl. eexists. rewrite Hc. split; [reflexivity|]. split; [|simpl; lia].
    constructor; [|constructor]. split; simpl; eauto.
Qed.

Lemma Do_guarded fuel ireq via r n :
  Q (rURL r) → (0 < M)%nat → (length via < M)%nat → (M ≤ length via + fuel)%nat →
  ∃ res n' new, Do w fuel c ireq via r n = Some (res, n') ∧ connections n' = connections n ++ new ∧
    Forall (within P Q) new ∧ (length new ≤ M - length via)%nat.
Proof.
  revert via r n. induction fuel as [|fuel IH]; intros via r n HQ HM Hv Hf; [lia|]. cbn [Do].
  destruct (send w c r n) as [res1 n1] eqn:E. apply send_guarded in E as (new1 & Hc1 & Hw1 & Hl1); [|done].
  assert (Hdone : ∀ res : NetError + Response, ∃ res' n' new, Some (res, n1) = Some (res', n') ∧
            connections n' = connections n ++ new ∧ Forall (within P Q) new ∧ (length new ≤ M - length via)%nat).
  { intros res. exists res, n1, new1. split_and!; auto; lia. }
  destruct res1 as [err|resp]; [apply Hdone|].
  destruct (redirectBehavior _ _) as [[m ib]|]; [|apply Hdone].
  case_bool_decide; [apply Hdone|]. destruct (urlResolve _ _) as [u|]; [|apply Hdone].
  destruct (CheckRedirect c w u (via ++ [rURL r]) n1) as [[err|] n2] eqn:Er;
    apply (redirect_guarded _ _ _ _ HG) in Er as [Hc2 HQ2].
  - exists (inl err), n2, new1. rewrite Hc2. split_and!; auto; lia.
  - destruct (HQ2 eq_refl) as [HQu Hlt]. rewrite length_app in Hlt. simpl in Hlt.
    match goal with |- context [Do w fuel c ireq _ ?r2 n2] =>
      destruct (IH (via ++ [rURL r]) r2 n2) as (res & n' & new2 & HD & Hc3 & Hw3 & Hl3) end;
      [done|done|rewrite length_app; simpl; lia..|].
    exists res, n', (new1 ++ new2). rewrite length_app in *. simpl in *.
    split; [exact HD|]. rewrite Hc3, Hc2, Hc1, app_assoc. split_and!; auto using Forall_app_2. lia.
Qed.
End guarded.

(** ** The fetcher is guarded *)

Lemma ResolveHost_log w host n r n' : ResolveHost w host n = (r, n') → connections n' = connections n.
Proof. unfold ResolveHost. repeat case_match; by intros [= <- <-]. Qed.

Lemma ResolveHost_some w host n ips n' : ResolveHost w host n = (inr ips, n') → ips ≠ [].
Proof. unfold ResolveHost. repeat case_match; by intros [= <- <-]. Qed.

Lemma refused_None lo ips : refused lo ips = None ↔
  Forall (λ ip, IsPrivateIP ip = true → lo = true ∧ IsLoopback ip = true) ips.
Proof.
  induction ips as [|ip ips IH]; simpl; [by split|]. rewrite Forall_cons, <- IH.
  destruct lo, (IsLoopback ip), (IsPrivateIP ip); simpl; naive_solver.
Qed.

Lemma RejectPrivateIPs_log w host lo n r n' : RejectPrivateIPs w host lo n = (r, n') → connections n' = connections n.
Proof.
  unfold RejectPrivateIPs. destruct (ResolveHost w host n) as [[e|ips] n1] eqn:E;
    intros [= <- <-]; by eapply ResolveHost_log.
Qed.

Lemma validateURL_log f w u n r n' : validateURL f w u n = (r, n') → connections n' = connections n.
Proof.
  unfold validateURL. destruct u as [u|]; [|by intros [= <- <-]].
  case_bool_decide; [by intros [= <- <-]|]. case_bool_decide; [by intros [= <- <-]|].
  destruct (skipSSRF f); [by intros [= <- <-]|]. unfold rejectPrivateIP.
  destruct (RejectPrivateIPs w (Hostname u) false n) as [[e|] n1] eqn:E; intros [= <- <-];
    by eapply RejectPrivateIPs_log.
Qed.

(** The URLs a fetcher may ask: web URLs of a host its lists allow. *)
Definition sameDomain (host d : string) : Prop := ToLower d = ToLower host.

Definition allowedURL (f : HTTPFetcher) (u : URL) : Prop :=
  (Scheme u = "http" ∨ Scheme u = "https") ∧ Hostname u ≠ "" ∧ Forall (λ b, ¬ sameDomain (Hostname u) b) (blocklist f) ∧
  (allowlist f = [] ∨ Exists (sameDomain (Hostname u)) (allowlist f)).

Lemma existsb_domain host l : existsb (λ b, bool_decide (ToLower b = ToLower host)) l = true ↔ Exists (sameDomain host) l.
Proof.
  rewrite existsb_exists, Exists_exists. unfold sameDomain.
  split; intros (x & ? & H); exists x; rewrite list_elem_of_In, bool_decide_eq_true in *; auto.
Qed.

Lemma checkDomainFilters_None f host : checkDomainFilters f host = None ↔
  Forall (λ b, ¬ sameDomain host b) (blocklist f) ∧ (allowlist f = [] ∨ Exists (sameDomain host) (allowlist f)).
Proof.
  unfold checkDomainFilters. rewrite <- (existsb_domain host (allowlist f)).
  pose proof (existsb_domain host (blocklist f)) as Hb. destruct (existsb _ (blocklist f)).
  - split; [done|]. intros [HF _]. apply Forall_Exists_neg in HF. naive_solver.
  - assert (Hn : Forall (λ b, ¬ sameDomain host b) (blocklist f)) by (apply Forall_Exists_neg; naive_solver).
    destruct (allowlist f) as [|a l]; [naive_solver|]. destruct (existsb _ (a :: l)); naive_solver.
Qed.

Lemma validateURL_allowed f w u n n' : validateURL f w (Some u) n = (None, n') → allowedURL f u.
Proof.
  unfold validateURL. case_bool_decide as Hs; [done|]. case_bool_decide as Hh; [done|].
  destruct (if skipSSRF f then _ else _) as [[e|] n1]; [done|].
  intros [= H _]. apply checkDomainFilters_None in H as [H1 H2]. split_and!; auto.
  destruct (decide (Scheme u = "http")); [by left|]. right. destruct (decide (Scheme u = "https")); [done|]. tauto.
Qed.

Definition publicIP (f : HTTPFetcher) (ip : IP) : Prop := skipSSRF f = false → IsPrivateIP ip = false.

Lemma safeDialContext_guarded f w a n r n' : safeDialContext f w a n = (r, n') →
  connections n' = connections n ∧ ∀ ip port, r = inr (ip, port) → publicIP f ip.
Proof.
  unfold safeDialContext, publicIP. destruct a as [[host port]|]; [|by intros [= <- <-]].
  destruct (skipSSRF f). { unfold dialName. intros [= <- <-]. by split. }
  destruct (ResolveHost w host n) as [[e|ips] n1] eqn:E; [intros [= <- <-]; by eapply ResolveHost_log in E|].
  apply ResolveHost_log in E. destruct (refused false ips) eqn:Er; [by intros [= <- <-]|].
  destruct ips as [|ip ips]; [by intros [= <- <-]|]. unfold dialIP. intros [= <- <-]. split; [done|].
  intros ip' port' H _. apply refused_None in Er. apply Forall_cons in Er as [Hip _].
  destruct (reachable _ _ _ _); simplify_eq. destruct (IsPrivateIP ip'); [by destruct Hip|done].
Qed.

Lemma clientOf_guarded f : Guarded (clientOf f) (publicIP f) (allowedURL f) maxRedirects.
Proof.
  split; simpl.
  - intros. by eapply safeDialContext_guarded.
  - intros w u via n r n'. unfold checkRedirect. case_bool_decide as Hm; [by intros [= <- <-]|].
    intros Hv. split; [by eapply validateURL_log|]. intros ->. split; [by eapply validateURL_allowed|lia].
Qed.

(** What a call may have done to the log. *)
Definition contained (f : HTTPFetcher) (n n' : Net) : Prop := ∃ new,
  connections n' = connections n ++ new ∧ (length new ≤ maxRedirects)%nat ∧
  Forall (λ k, publicIP f (connIP k) ∧ allowedURL f (rURL (connReq k))) new.

Lemma contained_refl f n n' : connections n' = connections n → contained f n n'.
Proof. intros Hc. exists []. rewrite Hc, app_nil_r. split_and!; [done|unfold maxRedirects; simpl; lia|constructor]. Qed.

Section contained.
Context `{HTTP} (w : World) (f : HTTPFetcher).

Lemma NewRequest_URL method raw body r u : NewRequest method raw body = Some r → urlParse raw = Some u → rURL r = u.
Proof. unfold NewRequest. intros Hr Hu. rewrite Hu in Hr. destruct (validMethod _); by simplify_eq/=. Qed.

Lemma headerSetAll_URL hs r : rURL (headerSetAll hs r) = rURL r.
Proof. unfold headerSetAll. revert r. induction hs as [|h hs IH]; intros r; simpl; [done|]. by rewrite IH. Qed.

(** A checked call: it ends, within the log's bounds. *)
Lemma withURL_contained {A} raw n (req : option Request) (k : Response → Net → Outcome A) o n' :
  (∀ r u, req = Some r → urlParse raw = Some u → rURL r = u) → (∀ resp n, k resp n ≠ Unfinished) →
  withURL w f raw n (λ n1, doRequest w f req n1 k) = (o, n') → o ≠ Unfinished ∧ contained f n n'.
Proof.
  intros Hreq Hk. unfold withURL. destruct (urlParse raw) as [u|] eqn:Eu.
  2: { intros [= <- <-]. auto using contained_refl. }
  destruct (validateURL f w (Some u) n) as [[e|] n1] eqn:Ev.
  { intros [= <- <-]. split; [done|]. apply contained_refl. by eapply validateURL_log. }
  unfold doRequest. destruct req as [r|].
  2: { intros [= <- <-]. split; [done|]. apply contained_refl. by eapply validateURL_log. }
  pose proof (validateURL_log _ _ _ _ _ _ Ev) as Hc. apply validateURL_allowed in Ev. rewrite <- (Hreq r u eq_refl eq_refl) in Ev.
  destruct (Do_guarded w _ _ _ _ (clientOf_guarded f) fetchFuel r [] r n1 Ev)
    as (res & n2 & new & HD & Hc2 & Hw & Hl); [unfold fetchFuel, maxRedirects; simpl; lia..|].
  rewrite HD. intros Ho. split; [destruct res; by simplify_eq|].
  exists new. assert (n' = n2) as -> by (destruct res; congruence). rewrite Hc2, Hc. split_and!; auto.
Qed.

Lemma finishFetch_ends raw resp : finishFetch f raw resp ≠ Unfinished.
Proof. unfold finishFetch. repeat case_match; done. Qed.
End contained.

(** C1. Whatever the resolver and the servers answer, even differently each time, and
    however they redirect: a fetch, a request or a ping ends after at most five
    connections, each of them to an address outside the private ranges (unless the
    guard is switched off) and for a web URL whose host is on no blocklist and, if
    there is an allowlist, on it. *)
Theorem fetch_contained `{HTTP} (w : World) (f : HTTPFetcher) (raw : string) (n : Net) :
  (let '(o, n') := Fetch w f raw n in o ≠ Unfinished ∧ contained f n n') ∧
  (∀ method headers body, let '(o, n') := RequestURL w f method raw headers body n in o ≠ Unfinished ∧ contained f n n') ∧
  (∀ elapsed, let '(o, n') := Ping w f raw elapsed n in o ≠ Unfinished ∧ contained f n n').
Proof.
  split_and!.
  - destruct (Fetch w f raw n) as [o n'] eqn:E. eapply withURL_contained in E; [done| |auto using finishFetch_ends].
    intros r u (r' & Hr & ->)%fmap_Some Hu. simpl. by eapply NewRequest_URL.
  - intros method headers body. destruct (RequestURL w f method raw headers body n) as [o n'] eqn:E.
    unfold RequestURL in E. case_bool_decide; [simplify_eq; auto using contained_refl|].
    eapply withURL_contained in E; [done| |auto using finishFetch_ends].
    intros r u (r' & Hr & ->)%fmap_Some Hu. rewrite headerSetAll_URL. simpl. by eapply NewRequest_URL.
  - intros elapsed. destruct (Ping w f raw elapsed n) as [o n'] eqn:E. eapply withURL_contained in E; [done| |done].
    intros r u (r' & Hr & ->)%fmap_Some Hu. simpl. by eapply NewRequest_URL.
Qed.

(** ** What a fetch answers *)

(** A fetch never holds more than the configured size: for every limit an int64
    reader can count past, the answer carries the first [maxSize] bytes of the body,
    converted by content type, with a marker exactly when bytes were cut, and a body
    that breaks off within the limit is an error. *)
Theorem fetch_body_exact `{HTTP} (f : HTTPFetcher) (raw : string) (resp : Response) :
  0 <= maxSize f < 2 ^ 63 - 1 →
  let len := Z.of_nat (String.length (respBody resp)) in
  finishFetch f raw resp =
    if rBroken resp && bool_decide (len <= maxSize f) then Returns (inl ErrRead)
    else let kept := takeBytes (Z.to_nat (maxSize f)) (respBody resp) in
         let text := transformBody (ContentType resp) kept in
         Returns (inr {| frURL := raw; frStatus := StatusCode resp; frContentType := ContentType resp;
                         frBody := if bool_decide (maxSize f < len) then text +:+ nl +:+ "[truncated]" else text;
                         BytesFetched := len `min` maxSize f |}).
Proof.
  intros Hm len. unfold finishFetch, readLimited. rewrite int64_wrap_id by (unfold in_int64; lia).
  rewrite (bool_decide_false (maxSize f + 1 <= 0)) by lia. fold len.
  rewrite (bool_decide_ext (len < maxSize f + 1) (len <= maxSize f)) by lia.
  destruct (rBroken resp && _); [done|]. cbv zeta.
  rewrite (bool_decide_false (maxSize f < 0)), andb_false_r by lia.
  destruct (decide (len <= maxSize f)) as [Hl|Hl].
  - rewrite takeBytes_all by lia. fold len. rewrite bool_decide_false by lia. rewrite takeBytes_all by lia.
    fold len. rewrite Z.min_l by lia. done.
  - rewrite takeBytes_length by lia. rewrite bool_decide_true by lia.
    rewrite takeBytes_takeBytes by lia. rewrite takeBytes_length by lia.
    rewrite (bool_decide_true (maxSize f < len)), Z.min_r by lia. by rewrite Z2Nat.id by lia.
Qed.

(** The largest limit overflows the reader's and the body is lost; a negative limit
    panics. *)
Lemma fetch_limit_extremes `{HTTP} (f : HTTPFetcher) raw resp :
  (maxSize f = 2 ^ 63 - 1 → ∃ r, finishFetch f raw resp = Returns (inr r) ∧ BytesFetched r = 0) ∧
  (- 2 ^ 63 <= maxSize f < 0 → finishFetch f raw resp = Panics).
Proof.
  unfold finishFetch, readLimited. split; intros Hm.
  - rewrite Hm. change (int64_wrap (2 ^ 63 - 1 + 1)) with (- 2 ^ 63). simpl. eauto.
  - rewrite int64_wrap_id by (unfold in_int64; lia). rewrite bool_decide_true by lia. cbn [String.length Z.of_nat].
    by rewrite !bool_decide_true by lia.
Qed.

(** ** What the guard lets through *)

(** The unspecified IPv6 address, which a dialer takes as the local machine, is in
    none of the ranges: the default fetcher accepts and dials it. *)
Theorem unspecified_not_guarded w n port : reachable w (queries n) IPv6unspecified port = true →
  let f := NewHTTPFetcher [] in
  IsPrivateIP IPv6unspecified = false ∧
  (∀ rest, validateURL f w (Some {| Scheme := "http"; Hostname := "::"; Port := port; Rest := rest |}) n = (None, n)) ∧
  fst (safeDialContext f w (Some ("::", port)) n) = inr (IPv6unspecified, port).
Proof. intros Hr f. split_and!; [reflexivity..|]. change (fst (dialIP w IPv6unspecified port n) = inr (IPv6unspecified, port)). unfold dialIP. by rewrite Hr. Qed.

(** A blocked domain passes the filter when it is written with its final dot. *)
Theorem blocklist_misses_final_dot :
  let f := NewHTTPFetcher [WithBlocklist ["evil.example"]] in
  checkDomainFilters f "EVIL.example" = Some (ErrBlocklisted "evil.example") ∧ checkDomainFilters f "evil.example." = None.
Proof. split; reflexivity. Qed.

(** ** internal/validate *)

Definition idChar (c : ascii) : bool := alnum c || bool_decide (c = "_"%char).
Definition idDashChar (c : ascii) : bool := idChar c || bool_decide (c = "-"%char).
Definition hexChar (c : ascii) : bool := digit c || inRange "a" "f" c || inRange "A" "F" c.

Definition tenantIDPattern : re := Cat BeginText (Cat (word "tnt_") (Cat (Between 1 60 (Lit idChar)) EndText)).
Definition agentIDPattern : re := Cat BeginText (Cat (Between 1 128 (Lit idDashChar)) EndText).
Definition hexes (n : nat) : re := Times n (Lit hexChar).
Definition uuidPattern : re :=
  Cat BeginText (seqs [hexes 8; chr "-"; hexes 4; chr "-"; hexes 4; chr "-"; hexes 4; chr "-"; hexes 12; EndText]).
Definition runIDPattern : re := Cat BeginText (Cat (word "run_") (Cat (Between 1 128 (Lit idDashChar)) EndText)).

Inductive ValidationError := InvalidTenantID (id : string) | InvalidAgentID (id : string) | InvalidRunID (id : string) | RequestTooLarge (n : Z).

Definition TenantID (id : string) : option ValidationError :=
  if MatchString tenantIDPattern id then None else Some (InvalidTenantID id).
Definition AgentID (id : string) : option ValidationError :=
  if MatchString agentIDPattern id then None else Some (InvalidAgentID id).
Definition RunID (id : string) : option ValidationError :=
  if MatchString uuidPattern id || MatchString runIDPattern id then None else Some (InvalidRunID id).

(** A body still to be read: the pieces it arrives in. *)
Inductive ReadError := EOF | TooLarge.

Definition bodyRead (m : Z) (chunks : list string) : string * option ReadError * list string :=
  match chunks with
  | [] => ("", Some EOF, [])
  | c :: cs => if bool_decide (Z.of_nat (String.length c) <= m) then (c, None, cs)
               else (takeBytes (Z.to_nat m) c, None, dropBytes (Z.to_nat m) c :: cs)
  end.

(** The first read of [http.MaxBytesReader] into a buffer of [m] bytes. *)
Definition maxBytesRead (limit m : Z) (chunks : list string) : Z * option ReadError * list string :=
  if bool_decide (m = 0) then (0, None, chunks) else
  let m := if bool_decide (limit < m - 1) then limit + 1 else m in
  let '(data, err, rest) := bodyRead m chunks in
  let n := Z.of_nat (String.length data) in
  if bool_decide (n <= limit) then (n, err, rest) else (limit, Some TooLarge, rest).

(** The verdict and what the next reader of the body finds; [None] is the panic of
    a negative buffer. *)
Definition RequestBody (chunks : list string) (maxBytes : Z) : option (option ValidationError * list string) :=
  if bool_decide (maxBytes + 1 < 0) then None else
  let '(n, err, rest) := maxBytesRead (Z.max maxBytes 0) (maxBytes + 1) chunks in
  Some (match err with
        | Some TooLarge => Some (RequestTooLarge maxBytes)
        | Some EOF => None
        | None => if bool_decide (maxBytes < n) then Some (RequestTooLarge maxBytes) else None
        end, rest).

Lemma advance_end s : after (advance (after s) s) = "".
Proof. simpl. pose proof (dropBytes_app (after s) "") as Hd. by rewrite string_app_nil_r in Hd. Qed.

Lemma reads_to_end t n m s : (n ≤ m)%nat →
  (∃ q, Match (Cat (Between n m (Lit t)) EndText) s q) ↔ (n ≤ String.length (after s) ≤ m)%nat ∧ stringForall t (after s) = true.
Proof.
  intros Hle. setoid_rewrite Match_Cat. setoid_rewrite Match_EndText. setoid_rewrite (Match_Between t n m _ _ Hle). split.
  - intros (q & x & (w & Hl & Hs & Hf & _) & -> & He). unfold starts in Hs. rewrite He, string_app_nil_r in Hs. by subst.
  - intros [Hl Hf]. exists (advance (after s) s), (advance (after s) s). split.
    + exists (after s). split; [done|]. unfold Reads, starts. by rewrite advance_end, string_app_nil_r.
    + by rewrite advance_end.
Qed.

Lemma anchored_word p t n m id : (n ≤ m)%nat →
  MatchString (Cat BeginText (Cat (word p) (Cat (Between n m (Lit t)) EndText))) id = true ↔
  ∃ w, id = p +:+ w ∧ (n ≤ String.length w ≤ m)%nat ∧ stringForall t w = true.
Proof.
  intros Hle. rewrite MatchString_anchored. split.
  - intros (q & (x & Hw & Hr)%Match_Cat). apply Match_word in Hw as (Hs & _). unfold starts in Hs. simpl in Hs.
    exists (after x). split; [done|]. apply (reads_to_end t n m x Hle). eauto.
  - intros (w & -> & Hl & Hf). destruct (proj2 (reads_to_end t n m (advance p (atStart (p +:+ w))) Hle)) as [q Hq].
    { simpl. by rewrite dropBytes_app. }
    exists q. apply Match_Cat. exists (advance p (atStart (p +:+ w))). split; [|done].
    apply Match_word. unfold starts. simpl. by rewrite dropBytes_app.
Qed.

(** The five groups of a UUID. *)
Definition isUUID (id : string) : Prop := ∃ a b c d e,
  id = a +:+ "-" +:+ b +:+ "-" +:+ c +:+ "-" +:+ d +:+ "-" +:+ e ∧
  String.length a = 8%nat ∧ String.length b = 4%nat ∧ String.length c = 4%nat ∧ String.length d = 4%nat ∧
  String.length e = 12%nat ∧ Forall (λ g, stringForall hexChar g = true) [a; b; c; d; e].

(** Reading a counted group and then the rest. *)
Lemma group_then t n r p :
  (∃ q, Match (Cat (Times n (Lit t)) r) p q) ↔
  ∃ w s, after p = w +:+ s ∧ String.length w = n ∧ stringForall t w = true ∧
         ∃ q, Match r {| before := lastByte (before p) w; after := s; caps := caps p |} q.
Proof.
  setoid_rewrite Match_Cat. setoid_rewrite Match_Times. split.
  - intros (q & x & (w & Hl & Hs & Hf & Hb & Hc) & HM). exists w, (after x). destruct x; simpl in *. subst. eauto 10.
  - intros (w & s & Hs & Hl & Hf & q & HM). exists q. eexists. split; [|exact HM]. exists w. by split_and!.
Qed.

Lemma dash_then c r p :
  (∃ q, Match (Cat (chr c) r) p q) ↔ ∃ s, after p = String c s ∧ ∃ q, Match r {| before := Some c; after := s; caps := caps p |} q.
Proof.
  setoid_rewrite Match_Cat. change (chr c) with (word (String c "")). setoid_rewrite Match_word. unfold starts. simpl. split.
  - intros (q & x & (Hs & Hb & Hc) & HM). destruct x; simpl in *. subst. rewrite string_app_cons, string_app_nil in Hs. eauto.
  - intros (s & Hs & q & HM). exists q. eexists. split; [|exact HM]. simpl. by rewrite string_app_cons, string_app_nil.
Qed.

Lemma uuid_exact id : MatchString uuidPattern id = true ↔ isUUID id.
Proof.
  unfold uuidPattern, hexes. rewrite MatchString_anchored. cbn [seqs]. unfold isUUID. rewrite group_then. setoid_rewrite dash_then.
  setoid_rewrite group_then. setoid_rewrite dash_then. setoid_rewrite group_then. setoid_rewrite dash_then.
  setoid_rewrite group_then. setoid_rewrite dash_then. setoid_rewrite group_then. setoid_rewrite Match_EndText. simpl. split.
  - intros (a & s & -> & La & Fa & s1 & -> & b & s2 & -> & Lb & Fb & s3 & -> & c & s4 & -> & Lc & Fc & s5 & -> &
            d & s6 & -> & Ld & Fd & s7 & -> & e & s8 & -> & Le & Fe & q & _ & ->).
    exists a, b, c, d, e. rewrite string_app_nil_r. split_and!; try done. by repeat constructor.
  - intros (a & b & c & d & e & -> & La & Lb & Lc & Ld & Le & HF).
    repeat (apply Forall_cons in HF as [? HF]).
    exists a; eexists; split; [reflexivity|]; split; [done|]; split; [done|].
    eexists; split; [reflexivity|]. exists b; eexists; split; [reflexivity|]; split; [done|]; split; [done|].
    eexists; split; [reflexivity|]. exists c; eexists; split; [reflexivity|]; split; [done|]; split; [done|].
    eexists; split; [reflexivity|]. exists d; eexists; split; [reflexivity|]; split; [done|]; split; [done|].
    eexists; split; [reflexivity|]. exists e, ""; rewrite string_app_nil_r. by eauto 10.
Qed.

Lemma anchored_class t n m id : (n ≤ m)%nat →
  MatchString (Cat BeginText (Cat (Between n m (Lit t)) EndText)) id = true ↔
  (n ≤ String.length id ≤ m)%nat ∧ stringForall t id = true.
Proof. intros Hle. rewrite MatchString_anchored. apply (reads_to_end t n m (atStart id) Hle). Qed.

(** The identifier validators accept exactly their documented forms: a tenant is
    tnt_ and 1 to 60 letters, digits or underscores; an agent 1 to 128 of those or
    dashes; a run a UUID or run_ and 1 to 128 of those.  Nothing may precede or
    follow, a final newline included. *)
Theorem validators_exact (id : string) :
  (TenantID id = None ↔ ∃ w, id = "tnt_" +:+ w ∧ (1 ≤ String.length w ≤ 60)%nat ∧ stringForall idChar w = true) ∧
  (AgentID id = None ↔ (1 ≤ String.length id ≤ 128)%nat ∧ stringForall idDashChar id = true) ∧
  (RunID id = None ↔ isUUID id ∨
     ∃ w, id = "run_" +:+ w ∧ (1 ≤ String.length w ≤ 128)%nat ∧ stringForall idDashChar w = true).
Proof.
  unfold TenantID, AgentID, RunID, tenantIDPattern, agentIDPattern, runIDPattern.
  rewrite <- (anchored_word "tnt_" idChar 1 60 id), <- (anchored_word "run_" idDashChar 1 128 id),
    <- (anchored_class idDashChar 1 128 id), <- uuid_exact by lia.
  split_and!; [by destruct (MatchString _ _)..|].
  rewrite <- orb_true_iff. by destruct (_ || _).
Qed.

(** The body check looks at the first piece of the body only, and takes it away: a
    longer body that arrives in pieces is accepted, and what the check read is not
    there for the next reader. *)
Theorem request_body_reads_one_piece (c : string) (cs : list string) (maxBytes : Z) :
  0 <= maxBytes → Z.of_nat (String.length c) <= maxBytes → RequestBody (c :: cs) maxBytes = Some (None, cs).
Proof.
  intros H0 Hc. unfold RequestBody, maxBytesRead, bodyRead.
  rewrite (bool_decide_false (maxBytes + 1 < 0)), (bool_decide_false (maxBytes + 1 = 0)), Z.max_l by lia.
  rewrite (bool_decide_false (maxBytes < maxBytes + 1 - 1)) by lia. rewrite bool_decide_true by lia.
  rewrite bool_decide_true by lia. by rewrite bool_decide_false by lia.
Qed.

(** *** Witness *)

Lemma fetch_body_exact_witness :
  let http : HTTP := {| urlParse _ := None; urlResolve _ _ := None; dialAddr _ := None; CanonicalHeader k := k;
                        headersOK _ := true; redirectHeaders _ _ h := h; jsonIndent _ := None |} in
  finishFetch (NewHTTPFetcher [WithMaxSize 3]) "u"
    {| StatusCode := 200; Location := ""; ContentType := "text/plain"; respHeader := ∅; respBody := "abcdef"; rBroken := true |}
  = Returns (inr {| frURL := "u"; frStatus := 200; frContentType := "text/plain"; frBody := "abc" +:+ nl +:+ "[truncated]";
                    BytesFetched := 3 |}).
Proof.
  intros http. rewrite (@fetch_body_exact http (NewHTTPFetcher [WithMaxSize 3])); [reflexivity|].
  vm_compute. split; congruence.
Defined.
