(* ===== verification/FileTools.v ===== *)
(** * FileTools: the sandboxed file tools

    Models internal/tools/file_read.go and file_write.go over a file system with
    directories, files and symbolic links, and what they use of packages os and
    path/filepath: the resolution of paths ([EvalSymlinks], at most 255 links),
    [MkdirAll] and opening for reading and writing.  The file system refuses
    nothing for lack of permission or space.  The base directory is rooted. *)
From S2P Require Import Prelude GoPath GoStrings GoRegexp.

(** ** A file system *)

Inductive Node := Dir | File (content : string) | Link (target : string).

#[global] Instance Node_eq_dec : EqDecision Node.
Proof. solve_decision. Defined.

(** From absolute paths, as lists of names, to what is there; the root is there always. *)
Abbreviation FS := (gmap (list string) Node) (only parsing).

Definition at_ (fs : FS) (p : list string) : option Node := match p with [] => Some Dir | _ => fs !! p end.

Definition pathNames (p : string) : list string := filter (λ c, c ≠ "" ∧ c ≠ ".") (splitSlash p).

Definition isRooted (p : string) : bool := HasPrefix p "/".

Definition pathText (p : list string) : string := String "/" (String.concat "/" p).

Definition parentOf (p : list string) : list string := reverse (tail (reverse p)).

(** Following a path from a directory: [links] more links may be followed, and the
    last name need not exist when [mayMiss].  The answer holds no link. *)
Fixpoint walk (fs : FS) (mayMiss : bool) (links : nat) : list string → list string → option (list string) :=
  fix go (cur todo : list string) {struct todo} : option (list string) :=
    match todo with
    | [] => Some cur
    | c :: rest =>
      if bool_decide (c = "..") then go (parentOf cur) rest else
      match at_ fs (cur ++ [c]) with
      | None => if mayMiss && bool_decide (rest = []) then Some (cur ++ [c]) else None
      | Some Dir => go (cur ++ [c]) rest
      | Some (File _) => if bool_decide (rest = []) then Some (cur ++ [c]) else None
      | Some (Link target) =>
        match links with
        | O => None
        | S links => walk fs mayMiss links (if isRooted target then [] else cur) (pathNames target ++ rest)
        end
      end
    end.

Definition maxLinks : nat := 255.

(** The links the kernel follows. *)
Definition kernelLinks : nat := 40.

(** [filepath.EvalSymlinks] of a rooted path. *)
Definition EvalSymlinks (fs : FS) (p : string) : option string := pathText <$> walk fs false maxLinks [] (pathNames p).

(** The place a rooted path names for the kernel. *)
Definition locate (fs : FS) (mayMiss : bool) (p : string) : option (list string) :=
  walk fs mayMiss kernelLinks [] (pathNames p).

(** [os.MkdirAll]: makes the directories that are missing; a file, or a link that leads
    to none, on the way is an error. *)
Fixpoint mkdirs (fs : FS) (cur todo : list string) : option FS :=
  match todo with
  | [] => Some fs
  | c :: rest =>
    if bool_decide (c = "..") then mkdirs fs (parentOf cur) rest else
    match at_ fs (cur ++ [c]) with
    | None => mkdirs (<[cur ++ [c] := Dir]> fs) (cur ++ [c]) rest
    | Some Dir => mkdirs fs (cur ++ [c]) rest
    | Some (File _) => None
    | Some (Link _) =>
      match walk fs false kernelLinks cur [c] with
      | Some cur' => match at_ fs cur' with Some Dir => mkdirs fs cur' rest | _ => None end
      | None => None
      end
    end
  end.

Definition MkdirAll (fs : FS) (p : string) : option FS := mkdirs fs [] (pathNames p).

(** [filepath.Dir] and [filepath.Base] of a clean rooted path. *)
Definition DirOf (p : string) : string := pathText (parentOf (pathNames p)).
Definition BaseOf (p : string) : string := default "/" (head (reverse (pathNames p))).

(** Writing at a path, the file made when it is missing; a directory is an error. *)
Definition writeFile (fs : FS) (p : string) (append : bool) (content : string) : option FS :=
  l ← locate fs true p;
  match at_ fs l with
  | Some (File old) => Some (<[l := File (if append then old +:+ content else content)]> fs)
  | None => Some (<[l := File content]> fs)
  | _ => None
  end.

(** ** safePath *)

Inductive FileError :=
  | ErrBaseDir
  | ErrOutside
  | ErrResolve
  | ErrSymlinkOutside
  | ErrBadInput
  | ErrPathRequired
  | ErrContentTooLong
  | ErrMkdir
  | ErrOpen
  | ErrReadFile.

Definition allowedBaseDir (env : Environ) : string :=
  let dir := env "AGENTOS_TOOL_FILE_BASE_DIR" in if bool_decide (dir = "") then "/tmp/agentos-sandbox" else dir.

Definition safePath (base : string) (fs : FS) (requestedPath : string) (requireExists : bool)
  : (FileError + string) * FS :=
  match MkdirAll fs base with
  | None => (inl ErrBaseDir, fs)
  | Some fs =>
    (match EvalSymlinks fs base with
     | None => inl ErrBaseDir
     | Some realBase =>
       let cleaned := Clean requestedPath in
       let abs := if isRooted cleaned then cleaned else Join [base; cleaned] in
       if negb (HasPrefix abs base) then inl ErrOutside else
       match EvalSymlinks fs abs with
       | Some resolved => if HasPrefix resolved realBase then inr resolved else inl ErrSymlinkOutside
       | None =>
         if requireExists then inl ErrResolve else
         match EvalSymlinks fs (DirOf abs) with
         | None => inr abs
         | Some parentResolved =>
           let resolvedViaParent := Join [parentResolved; BaseOf abs] in
           if HasPrefix resolvedViaParent realBase then inr resolvedViaParent else inl ErrSymlinkOutside
         end
       end
     end, fs)
  end.

(** ** base64 *)

Definition b64char (n : Z) : ascii :=
  ascii_of_nat (Z.to_nat (if bool_decide (n < 26) then n + 65
                          else if bool_decide (n < 52) then n + 71
                          else if bool_decide (n < 62) then n - 4
                          else if bool_decide (n = 62) then 43 else 47)).

Definition byteZ (c : ascii) : Z := Z.of_nat (nat_of_ascii c).

Fixpoint base64 (s : string) : string :=
  match s with
  | "" => ""
  | String a "" =>
    let n := Z.shiftl (byteZ a) 16 in
    String (b64char (Z.shiftr n 18)) (String (b64char (Z.land (Z.shiftr n 12) 63)) "==")
  | String a (String b "") =>
    let n := Z.shiftl (byteZ a) 16 + Z.shiftl (byteZ b) 8 in
    String (b64char (Z.shiftr n 18)) (String (b64char (Z.land (Z.shiftr n 12) 63))
      (String (b64char (Z.land (Z.shiftr n 6) 63)) "="))
  | String a (String b (String c s)) =>
    let n := Z.shiftl (byteZ a) 16 + Z.shiftl (byteZ b) 8 + byteZ c in
    String (b64char (Z.shiftr n 18)) (String (b64char (Z.land (Z.shiftr n 12) 63))
      (String (b64char (Z.land (Z.shiftr n 6) 63)) (String (b64char (Z.land n 63)) (base64 s))))
  end.

(** ** The tools *)

Definition fileReadMaxSize : Z := 1024 * 1024.
Definition fileWriteMaxSize : Z := 1024 * 1024.

Record fileReadInput := { friPath : string; friEncoding : string }.
Record fileReadOutput := { froPath : string; froSize : Z; froContent : string }.

(** [input] is [None] when it does not decode. *)
Definition FileRead (base : string) (input : option fileReadInput) (fs : FS) : (FileError + fileReadOutput) * FS :=
  match input with
  | None => (inl ErrBadInput, fs)
  | Some i =>
    if bool_decide (friPath i = "") then (inl ErrPathRequired, fs) else
    match safePath base fs (friPath i) true with
    | (inl err, fs) => (inl err, fs)
    | (inr abs, fs) =>
      (match locate fs false abs with
       | None => inl ErrOpen
       | Some l =>
         match at_ fs l with
         | Some (File content) =>
           let data := takeBytes (Z.to_nat fileReadMaxSize) content in
           inr {| froPath := friPath i; froSize := Z.of_nat (String.length data);
                  froContent := if bool_decide (friEncoding i = "base64") then base64 data else data |}
         | _ => inl ErrReadFile
         end
       end, fs)
    end
  end.

Record fileWriteInput := { fwiPath : string; fwiContent : string; fwiMode : string }.
Record fileWriteOutput := { fwoPath : string; bytesWritten : Z; fwoMode : string }.

Definition FileWrite (base : string) (input : option fileWriteInput) (fs : FS) : (FileError + fileWriteOutput) * FS :=
  match input with
  | None => (inl ErrBadInput, fs)
  | Some i =>
    if bool_decide (fwiPath i = "") then (inl ErrPathRequired, fs)
    else if bool_decide (fileWriteMaxSize < Z.of_nat (String.length (fwiContent i))) then (inl ErrContentTooLong, fs)
    else
      let mode := if bool_decide (fwiMode i = "") then "overwrite" else fwiMode i in
      match safePath base fs (fwiPath i) false with
      | (inl err, fs) => (inl err, fs)
      | (inr abs, fs) =>
        match MkdirAll fs (DirOf abs) with
        | None => (inl ErrMkdir, fs)
        | Some fs =>
          match writeFile fs abs (bool_decide (mode = "append")) (fwiContent i) with
          | None => (inl ErrOpen, fs)
          | Some fs => (inr {| fwoPath := fwiPath i; bytesWritten := Z.of_nat (String.length (fwiContent i)); fwoMode := mode |}, fs)
          end
        end
      end
  end.

(** ** Paths and names *)

Definition names (p : list string) : Prop := Forall (λ c, component c = true) p.

(** A step of a path: a name or the way up. *)
Definition stepName (c : string) : Prop := c = ".." ∨ component c = true.

Lemma parentOf_snoc p c : parentOf (p ++ [c]) = p.
Proof. unfold parentOf. rewrite reverse_snoc. simpl. apply reverse_involutive. Qed.

Lemma snoc_cases (p : list string) : p = [] ∨ ∃ q c, p = q ++ [c].
Proof. destruct p as [|c q _] using rev_ind; eauto. Qed.

Lemma names_parentOf p : names p → names (parentOf p).
Proof.
  destruct (snoc_cases p) as [-> | (q & c & ->)]; [done|]. rewrite parentOf_snoc. intros H.
  by apply Forall_app in H as [H _].
Qed.

Lemma names_snoc p c : names (p ++ [c]) ↔ names p ∧ component c = true.
Proof. unfold names. rewrite Forall_app, Forall_singleton. done. Qed.

Lemma splitSlash_names s : Forall (λ c, noSlash c = true) (splitSlash s).
Proof.
  induction s as [|c s IH]; simpl; [by repeat constructor|]. case_decide as Hc; [by constructor|].
  assert (Hn : negb (bool_decide (c = "/"%char)) = true) by (by rewrite bool_decide_false).
  destruct (splitSlash s) as [|x xs]; [by repeat constructor; simpl; rewrite Hn|].
  apply Forall_cons in IH as [Hx Hxs]. constructor; [|done]. simpl. by rewrite Hn, Hx.
Qed.

Lemma pathNames_steps p : Forall stepName (pathNames p).
Proof.
  apply Forall_forall. intros c [[H1 H2] Hc]%list_elem_of_filter.
  pose proof (splitSlash_names p) as Hs. rewrite Forall_forall in Hs. specialize (Hs c Hc).
  destruct (decide (c = "..")); [by left|right]. by apply component_spec.
Qed.

Lemma names_steps p : names p → Forall stepName p.
Proof. intros H. eapply Forall_impl; [exact H|]. intros c Hc. by right. Qed.

Lemma pathNames_pathText p : names p → pathNames (pathText p) = p.
Proof.
  intros Hn. unfold pathNames, pathText. cbn [splitSlash]. rewrite decide_True by done.
  rewrite filter_cons_False by naive_solver. destruct p as [|c p]; [done|].
  rewrite splitSlash_concat; [|done|].
  - apply filter_all. eapply Forall_impl; [exact Hn|]. intros x (_ & ? & ? & _)%component_spec. done.
  - eapply Forall_impl; [exact Hn|]. intros x (? & _)%component_spec. done.
Qed.

(** ** Well-formed file systems *)

(** Everything has a proper path and lies in a directory. *)
Definition wfFS (fs : FS) : Prop := ∀ p n, fs !! p = Some n → p ≠ [] ∧ names p ∧ at_ fs (parentOf p) = Some Dir.

#[global] Instance wfFS_dec fs : Decision (wfFS fs).
Proof. unfold wfFS, names. apply map_Forall_dec. intros. apply _. Defined.

Lemma at_snoc fs p c : at_ fs (p ++ [c]) = fs !! (p ++ [c]).
Proof. by destruct p. Qed.

Lemma at_parent fs p n : wfFS fs → at_ fs p = Some n → at_ fs (parentOf p) = Some Dir.
Proof. intros Hwf Hp. destruct p as [|c p]; [done|]. by destruct (Hwf _ _ Hp) as (_ & _ & ?). Qed.

Lemma at_names fs p n : wfFS fs → at_ fs p = Some n → names p.
Proof. intros Hwf Hp. destruct p as [|c p]; [constructor|]. by destruct (Hwf _ _ Hp) as (_ & ? & _). Qed.

Lemma at_above fs a b n : wfFS fs → at_ fs (a ++ b) = Some n → b ≠ [] → at_ fs a = Some Dir.
Proof.
  intros Hwf. revert n. induction b as [|c b IH] using rev_ind; intros n Hp Hb; [done|].
  rewrite app_assoc in Hp. apply at_parent in Hp; [|done]. rewrite parentOf_snoc in Hp.
  destruct b; [by rewrite app_nil_r in Hp|]. by eapply IH.
Qed.

(** [fs'] holds what [fs] holds, files possibly with another content. *)
Definition sameKind (n n' : Node) : Prop :=
  match n, n' with File _, File _ => True | _, _ => n = n' end.

Definition grows (fs fs' : FS) : Prop := ∀ p n, fs !! p = Some n → ∃ n', fs' !! p = Some n' ∧ sameKind n n'.

Lemma sameKind_refl n : sameKind n n.
Proof. by destruct n. Qed.

Lemma grows_refl fs : grows fs fs.
Proof. intros p n Hp. exists n. auto using sameKind_refl. Qed.

Lemma grows_trans fs1 fs2 fs3 : grows fs1 fs2 → grows fs2 fs3 → grows fs1 fs3.
Proof.
  intros H1 H2 p n Hp. destruct (H1 p n Hp) as (n' & Hp' & Hk). destruct (H2 p n' Hp') as (n'' & Hp'' & Hk').
  exists n''. split; [done|]. destruct n, n', n''; simpl in *; simplify_eq; done.
Qed.

Lemma grows_at fs fs' p n : grows fs fs' → at_ fs p = Some n → ∃ n', at_ fs' p = Some n' ∧ sameKind n n'.
Proof. intros Hg Hp. destruct p as [|c p]; [simpl in *; simplify_eq; by exists Dir|]. by apply Hg. Qed.

Lemma grows_new fs p n : at_ fs p = None → grows fs (<[p := n]> fs).
Proof.
  intros Hn q m Hq. destruct (decide (q = p)) as [-> |Hne].
  - destruct p as [|c p]; [done|]. simpl in Hn. congruence.
  - exists m. rewrite lookup_insert_ne by done. auto using sameKind_refl.
Qed.

Lemma at_insert fs p n : p ≠ [] → at_ (<[p := n]> fs) p = Some n.
Proof. destruct p; [done|]. intros _. simpl. by rewrite lookup_insert_eq. Qed.

Lemma at_insert_ne fs p q n : p ≠ q → at_ (<[p := n]> fs) q = at_ fs q.
Proof. destruct q; [done|]. intros ?. simpl. by rewrite lookup_insert_ne. Qed.

Lemma parentOf_ne p : p ≠ [] → parentOf p ≠ p.
Proof.
  intros Hp. destruct (snoc_cases p) as [-> | (q & c & ->)]; [done|]. rewrite parentOf_snoc.
  intros H%(f_equal length). rewrite length_app in H. simpl in H. lia.
Qed.

(** Something new in a directory, or a file in place of a file. *)
Lemma wfFS_insert fs p n :
  wfFS fs → p ≠ [] → names p → at_ fs (parentOf p) = Some Dir →
  (at_ fs p = None ∨ ∃ c, at_ fs p = Some (File c)) → wfFS (<[p := n]> fs).
Proof.
  intros Hwf Hne Hn Hd Hp q m Hq. destruct (decide (q = p)) as [-> |Hqp].
  - split_and!; try done. rewrite at_insert_ne; [done|]. intros Heq. by apply (parentOf_ne p).
  - rewrite lookup_insert_ne in Hq by done. destruct (Hwf q m Hq) as (H1 & H2 & H3). split_and!; try done.
    rewrite at_insert_ne; [done|]. intros Heq. rewrite <- Heq in H3. destruct Hp as [Hp|[c Hp]]; congruence.
Qed.

(** ** What a walk finds *)

Definition noLink (n : Node) : Prop := match n with Link _ => False | _ => True end.

(** Where a walk can end. *)
Definition found (fs : FS) (mayMiss : bool) (l : list string) : Prop :=
  names l ∧ match at_ fs l with
            | Some n => noLink n
            | None => mayMiss = true ∧ l ≠ [] ∧ at_ fs (parentOf l) = Some Dir
            end.

Lemma walk_unfold fs mm links cur todo : walk fs mm links cur todo =
  match todo with
  | [] => Some cur
  | c :: rest =>
    if bool_decide (c = "..") then walk fs mm links (parentOf cur) rest else
    match at_ fs (cur ++ [c]) with
    | None => if mm && bool_decide (rest = []) then Some (cur ++ [c]) else None
    | Some Dir => walk fs mm links (cur ++ [c]) rest
    | Some (File _) => if bool_decide (rest = []) then Some (cur ++ [c]) else None
    | Some (Link target) =>
      match links with
      | O => None
      | S links => walk fs mm links (if isRooted target then [] else cur) (pathNames target ++ rest)
      end
    end
  end.
Proof. by destruct links, todo. Qed.

(** Induction along a walk: over the links left, then the names left. *)
Lemma walk_ind (R : nat → list string → list string → Prop) :
  (∀ links cur todo, (∀ links' cur' todo', (links' < links)%nat → R links' cur' todo') →
     (∀ cur' rest c, todo = c :: rest → R links cur' rest) → R links cur todo) →
  ∀ links cur todo, R links cur todo.
Proof.
  intros Hstep links. induction (lt_wf links) as [links _ IHl]. intros cur todo. revert cur.
  induction todo as [|c rest IHt]; intros cur; apply Hstep; auto; naive_solver.
Qed.

Lemma walk_found fs mm : wfFS fs → ∀ links cur todo l,
  at_ fs cur = Some Dir → Forall stepName todo → walk fs mm links cur todo = Some l → found fs mm l.
Proof.
  intros Hwf. apply (walk_ind (λ links cur todo, ∀ l, at_ fs cur = Some Dir → Forall stepName todo →
    walk fs mm links cur todo = Some l → found fs mm l)).
  intros links cur todo IHl IHt l Hc Ht. rewrite walk_unfold. destruct todo as [|c rest].
  { intros [= <-]. split; [by eapply at_names|]. by rewrite Hc. }
  apply Forall_cons in Ht as [Hs Ht]. case_bool_decide as Hup.
  { apply (IHt _ _ _ eq_refl); [by eapply at_parent|done]. }
  destruct Hs as [? |Hs]; [done|].
  assert (Hn : names (cur ++ [c])) by (apply names_snoc; eauto using at_names).
  destruct (at_ fs (cur ++ [c])) as [[|content|target]|] eqn:E.
  - by apply (IHt _ _ _ eq_refl).
  - case_bool_decide; [|done]. intros [= <-]. split; [done|]. by rewrite E.
  - destruct links as [|links]; [done|]. apply IHl; [lia| |].
    + by case_match.
    + apply Forall_app. split; [apply pathNames_steps|done].
  - destruct mm; [|done]. simpl. case_bool_decide; [|done]. intros [= <-]. split; [done|]. rewrite E, parentOf_snoc.
    split_and!; [done| |done]. by destruct cur.
Qed.

(** A path without links leads to itself. *)
Lemma walk_straight fs mm links cur rest n :
  wfFS fs → at_ fs (cur ++ rest) = Some n → noLink n → names rest → walk fs mm links cur rest = Some (cur ++ rest).
Proof.
  intros Hwf. revert cur. induction rest as [|c rest IH]; intros cur Hn Hl Hr; rewrite walk_unfold.
  { by rewrite app_nil_r. }
  apply Forall_cons in Hr as [Hc Hr]. apply component_spec in Hc as (_ & _ & _ & Hup). rewrite bool_decide_false by done.
  replace (cur ++ c :: rest) with ((cur ++ [c]) ++ rest) in * by (by rewrite <- app_assoc).
  destruct rest as [|c' rest].
  - rewrite app_nil_r in *. rewrite Hn. destruct n as [|content|target]; [by rewrite walk_unfold| |done].
    by rewrite bool_decide_true.
  - rewrite (at_above fs (cur ++ [c]) (c' :: rest) n) by done. by apply IH.
Qed.

(** ** What making directories changes *)

Definition addsDirs (fs fs' : FS) : Prop := fs ⊆ fs' ∧ ∀ p n, fs' !! p = Some n → fs !! p = Some n ∨ n = Dir.

Lemma addsDirs_refl fs : addsDirs fs fs.
Proof. split; [done|]. auto. Qed.

Lemma addsDirs_trans fs1 fs2 fs3 : addsDirs fs1 fs2 → addsDirs fs2 fs3 → addsDirs fs1 fs3.
Proof.
  intros [H1 N1] [H2 N2]. split; [by etrans|]. intros p n Hp. destruct (N2 p n Hp) as [Hp2|]; [|auto].
  by apply N1.
Qed.

Lemma addsDirs_grows fs fs' : addsDirs fs fs' → grows fs fs'.
Proof. intros [Hs _] p n Hp. exists n. split; [by eapply lookup_weaken|apply sameKind_refl]. Qed.

Lemma addsDirs_at fs fs' p n : addsDirs fs fs' → at_ fs p = Some n → at_ fs' p = Some n.
Proof. intros [Hs _] Hp. destruct p; [done|]. by eapply lookup_weaken. Qed.

Lemma mkdirs_spec fs cur todo fs' :
  wfFS fs → at_ fs cur = Some Dir → Forall stepName todo → mkdirs fs cur todo = Some fs' →
  wfFS fs' ∧ addsDirs fs fs'.
Proof.
  revert fs cur. induction todo as [|c rest IH]; intros fs cur Hwf Hc Ht; cbn [mkdirs].
  { intros [= <-]. auto using addsDirs_refl. }
  apply Forall_cons in Ht as [Hs Ht]. case_bool_decide as Hup; [by apply IH; [|eapply at_parent|]|].
  destruct Hs as [? |Hs]; [done|].
  assert (Hn : names (cur ++ [c])) by (apply names_snoc; eauto using at_names).
  destruct (at_ fs (cur ++ [c])) as [[|content|target]|] eqn:E; [by apply IH|done| |].
  - destruct (walk fs false kernelLinks cur [c]) as [cur'|]; [|done].
    destruct (at_ fs cur') as [[| |]|] eqn:E'; [|done..]. by apply IH.
  - intros Hm. assert (Hne : cur ++ [c] ≠ []) by (by destruct cur).
    apply IH in Hm as [Hwf' Ha]; [split; [done|]|..|done].
    + eapply addsDirs_trans; [|exact Ha]. split.
      * apply insert_subseteq. by rewrite at_snoc in E.
      * intros p n. destruct (decide (p = cur ++ [c])) as [-> |Hp];
          [rewrite lookup_insert_eq; intros [= <-]; auto|rewrite lookup_insert_ne by done; auto].
    + apply wfFS_insert; try done; [by rewrite parentOf_snoc|by left].
    + by apply at_insert.
Qed.

Lemma MkdirAll_spec fs p fs' : wfFS fs → MkdirAll fs p = Some fs' → wfFS fs' ∧ addsDirs fs fs'.
Proof. intros Hwf. apply mkdirs_spec; [done|done|apply pathNames_steps]. Qed.

(** ** What writing changes *)

Lemma writeFile_spec fs p app content fs' : wfFS fs → writeFile fs p app content = Some fs' →
  ∃ l, locate fs true p = Some l ∧ l ≠ [] ∧ wfFS fs' ∧ grows fs fs' ∧
    fs' = <[l := File (if app then match fs !! l with Some (File old) => old +:+ content | _ => content end else content)]> fs ∧
    (fs !! l = None ∨ ∃ old, fs !! l = Some (File old)).
Proof.
  intros Hwf. unfold writeFile. destruct (locate fs true p) as [l|] eqn:El; [|done]. simpl.
  pose proof El as [Hn Hf]%(walk_found fs true Hwf); [|done|apply pathNames_steps].
  destruct (at_ fs l) as [[|old|]|] eqn:E; [done| |done|].
  - intros [= <-]. assert (Hne : l ≠ []) by (by intros ->). assert (Hl : fs !! l = Some (File old)) by (by destruct l).
    exists l. rewrite Hl. split_and!; eauto.
    + apply wfFS_insert; eauto using at_parent.
    + intros q n Hq. destruct (decide (q = l)) as [-> |Hql].
      * rewrite lookup_insert_eq. eexists. split; [reflexivity|]. by simplify_eq.
      * rewrite lookup_insert_ne by done. eauto using sameKind_refl.
  - intros [= <-]. destruct Hf as (_ & Hne & Hd). assert (Hl : fs !! l = None) by (by destruct l).
    exists l. rewrite Hl. split_and!; try done; [apply wfFS_insert; auto|by apply grows_new| |by left].
    by destruct app.
Qed.

(** ** Being under a directory, in the text of paths *)

(** In a directory of the same parent whose name begins like the last name of [d]. *)
Definition inSibling (d l : list string) : Prop := ∃ par n suf rest,
  d = par ++ [n] ∧ l = par ++ (n +:+ suf) :: rest ∧ suf ≠ "".

Definition under (d l : list string) : Prop := d `prefix_of` l ∨ inSibling d l.

Definition slashOrEnd (t : string) : Prop := t = "" ∨ ∃ t', t = String "/" t'.

Lemma noSlash_cons c s : noSlash (String c s) = true ↔ c ≠ "/"%char ∧ noSlash s = true.
Proof. simpl. rewrite andb_true_iff, negb_true_iff, bool_decide_eq_false. done. Qed.

Lemma name_extends n x s t : noSlash n = true → slashOrEnd t → x +:+ t = n +:+ s → ∃ suf, x = n +:+ suf.
Proof.
  revert x. induction n as [|c n IH]; intros x Hn Ht Heq; [by exists x|]. apply noSlash_cons in Hn as [Hc Hn].
  rewrite string_app_cons in Heq. destruct x as [|d x].
  - rewrite string_app_nil in Heq. destruct Ht as [-> |[t' ->]]; congruence.
  - rewrite string_app_cons in Heq. simplify_eq. destruct (IH x Hn Ht) as [suf ->]; [done|].
    exists suf. by rewrite string_app_cons.
Qed.

Lemma name_same n x s t : noSlash n = true → noSlash x = true → slashOrEnd t → x +:+ t = n +:+ String "/" s →
  x = n ∧ t = String "/" s.
Proof.
  revert x. induction n as [|c n IH]; intros x Hn Hx Ht Heq.
  - rewrite string_app_nil in Heq. destruct x as [|d x]; [by rewrite string_app_nil in Heq|].
    rewrite string_app_cons in Heq. apply noSlash_cons in Hx as [Hd _]. congruence.
  - apply noSlash_cons in Hn as [Hc Hn]. rewrite string_app_cons in Heq. destruct x as [|d x].
    + rewrite string_app_nil in Heq. destruct Ht as [-> |[t' ->]]; congruence.
    + apply noSlash_cons in Hx as [_ Hx]. rewrite string_app_cons in Heq. simplify_eq.
      destruct (IH x Hn Hx Ht) as [-> ->]; done.
Qed.

Lemma concat_head x rest : ∃ t, String.concat "/" (x :: rest) = x +:+ t ∧ slashOrEnd t.
Proof.
  destruct rest as [|y rest].
  - exists "". split; [by rewrite string_app_nil_r|by left].
  - eexists. split; [reflexivity|]. right. by eexists.
Qed.

Lemma prefix_under d l s : names d → names l → d ≠ [] → String.concat "/" l = String.concat "/" d +:+ s → under d l.
Proof.
  intros Hd Hl Hne. revert l Hl. induction d as [|n d IH]; intros l Hl Heq; [done|].
  apply Forall_cons in Hd as [Hn Hd]. apply component_spec in Hn as (Hns & Hn0 & _).
  destruct l as [|x rest].
  { destruct n as [|c n]; [done|]. destruct (concat_head (String c n) d) as (t & Ht & _). rewrite Ht in Heq. by rewrite !string_app_cons in Heq. }
  apply Forall_cons in Hl as [Hx Hl]. apply component_spec in Hx as (Hxs & _).
  destruct (concat_head x rest) as (t & Ht & Hte). rewrite Ht in Heq. destruct d as [|n2 d].
  - destruct (name_extends n x s t Hns Hte Heq) as [suf ->]. destruct (decide (suf = "")) as [-> |Hsuf].
    + left. rewrite string_app_nil_r. by exists rest.
    + right. by exists [], n, suf, rest.
  - rewrite concat_cons, <- string_app_assoc, string_app_cons in Heq.
    destruct (name_same n x _ t Hns Hxs Hte Heq) as [-> ->]. destruct rest as [|y rest].
    { rewrite <- (string_app_nil_r n) in Ht at 1. simpl in Ht. exfalso. clear -Ht. induction n; simplify_eq/=; auto. }
    rewrite concat_cons in Ht. assert (Hc : String.concat "/" (y :: rest) = String.concat "/" (n2 :: d) +:+ s).
    { clear -Ht. induction n; simplify_eq/=; auto. }
    destruct (IH Hd ltac:(done) (y :: rest) Hl Hc) as [[r Hr]|(par & m & suf & r & Hpar & Hr & Hs)].
    + left. exists r. by rewrite Hr.
    + right. exists (n :: par), m, suf, r. rewrite Hpar, Hr. done.
Qed.

Lemma HasPrefix_under d l : names d → names l → HasPrefix (pathText l) (pathText d) = true → under d l.
Proof.
  intros Hd Hl H. destruct (decide (d = [])) as [-> |Hne]; [left; by exists l|].
  apply HasPrefix_split in H. unfold pathText in H. rewrite string_app_cons in H. simplify_eq.
  by eapply prefix_under.
Qed.

(** ** Resolved paths *)

Lemma EvalSymlinks_found fs p t : wfFS fs → EvalSymlinks fs p = Some t →
  ∃ l n, t = pathText l ∧ names l ∧ at_ fs l = Some n ∧ noLink n.
Proof.
  intros Hwf. unfold EvalSymlinks. intros (l & Hw & ->)%fmap_Some.
  apply walk_found in Hw as [Hn Hf]; [|done|done|apply pathNames_steps].
  destruct (at_ fs l) as [n|] eqn:E; [eauto 10|]. by destruct Hf.
Qed.

Lemma locate_pathText fs mm l n : wfFS fs → at_ fs l = Some n → noLink n → locate fs mm (pathText l) = Some l.
Proof.
  intros Hwf Hl Hn. pose proof (at_names _ _ _ Hwf Hl). unfold locate. rewrite pathNames_pathText by done.
  by eapply (walk_straight fs mm kernelLinks []).
Qed.

Lemma EvalSymlinks_pathText fs l n : wfFS fs → at_ fs l = Some n → noLink n → EvalSymlinks fs (pathText l) = Some (pathText l).
Proof.
  intros Hwf Hl Hn. pose proof (at_names _ _ _ Hwf Hl). unfold EvalSymlinks. rewrite pathNames_pathText by done.
  by rewrite (walk_straight fs false maxLinks [] l n).
Qed.

(** ** Reading *)

Lemma fileReadMaxSize_pos : 0 <= fileReadMaxSize.
Proof. done. Qed.

#[local] Opaque fileReadMaxSize.

Lemma safePath_read base fs req r fs' : wfFS fs → safePath base fs req true = (r, fs') →
  wfFS fs' ∧ addsDirs fs fs' ∧ ∀ t, r = inr t → ∃ d l n,
    EvalSymlinks fs' base = Some (pathText d) ∧ names d ∧ t = pathText l ∧ at_ fs' l = Some n ∧ noLink n ∧ under d l.
Proof.
  intros Hwf. unfold safePath. destruct (MkdirAll fs base) as [fs1|] eqn:Em.
  2: { intros [= <- <-]. split_and!; [done|apply addsDirs_refl|done]. }
  apply MkdirAll_spec in Em as [Hwf1 Ha]; [|done].
  match goal with |- (?x, _) = _ → _ => set (v := x) end. intros [= <- <-]. split_and!; [done|done|].
  intros t. subst v. destruct (EvalSymlinks fs1 base) as [rb|] eqn:Eb; [|done].
  set (abs := if isRooted _ then _ else _). destruct (negb _); [done|].
  destruct (EvalSymlinks fs1 abs) as [rs|] eqn:Er; [|done]. destruct (HasPrefix rs rb) eqn:Hp; [|done].
  intros [= <-]. apply EvalSymlinks_found in Eb as (d & nd & -> & Hd & _); [|done].
  apply EvalSymlinks_found in Er as (l & n & -> & Hl & Hal & Hnl); [|done].
  exists d, l, n. split_and!; auto using HasPrefix_under.
Qed.

(** A read changes nothing but missing directories of the base, and what it returns
    is the first megabyte of a file whose real path, every link resolved, lies under
    the real base directory, or in a sibling directory whose name extends the base's
    (the guard compares texts). *)
Theorem file_read_contained (base : string) (i : fileReadInput) (fs fs' : FS) (r : FileError + fileReadOutput) :
  wfFS fs → FileRead base (Some i) fs = (r, fs') →
  wfFS fs' ∧ addsDirs fs fs' ∧
  ∀ o, r = inr o → ∃ d l content,
    EvalSymlinks fs' base = Some (pathText d) ∧ under d l ∧ fs' !! l = Some (File content) ∧
    froSize o = Z.of_nat (String.length content) `min` fileReadMaxSize ∧
    froContent o = let data := takeBytes (Z.to_nat fileReadMaxSize) content in
                   if bool_decide (friEncoding i = "base64") then base64 data else data.
Proof.
  intros Hwf. unfold FileRead. case_bool_decide.
  { intros [= <- <-]. split_and!; [done|apply addsDirs_refl|done]. }
  destruct (safePath base fs (friPath i) true) as [r1 fs1] eqn:E.
  apply safePath_read in E as (Hwf1 & Ha & Ht); [|done]. destruct r1 as [err|t].
  - intros [= <- <-]. done.
  - destruct (Ht t eq_refl) as (d & l & n & Hb & Hd & -> & Hl & Hn & Hu). rewrite (locate_pathText _ _ _ _ Hwf1 Hl Hn), Hl.
    match goal with |- (?x, _) = _ → _ => set (v := x) end. intros [= <- <-]. split_and!; [done|done|]. intros o. subst v.
    destruct n as [|content|]; [done| |done]. intros [= <-]. exists d, l, content. cbn [froSize froContent].
    split; [done|]. split; [done|]. split; [by destruct l|]. split; [|reflexivity].
    generalize fileReadMaxSize_pos. generalize fileReadMaxSize.
    intros z Hz. rewrite <- (Z2Nat.id z) at 2 by done. generalize (Z.to_nat z). intros m.
    destruct (decide (m ≤ String.length content)%nat).
    + rewrite takeBytes_length by done. lia.
    + rewrite takeBytes_all by lia. lia.
Qed.

(** ** Clean rooted paths *)

Lemma foldl_cleanStep_rooted cs out : Forall (λ c, noSlash c = true) cs → names out →
  names (foldl (cleanStep true) out cs).
Proof.
  revert out. induction cs as [|c cs IH]; intros out Hc Ho; [done|]. apply Forall_cons in Hc as [Hc Hcs]. simpl.
  apply IH; [done|]. unfold cleanStep. case_decide as H1; [done|]. case_decide as H2.
  - destruct out as [|x rest]; [done|]. apply Forall_cons in Ho as [Hx Hr]. apply component_spec in Hx as (_ & _ & _ & Hx).
    by rewrite decide_False.
  - constructor; [|done]. apply component_spec. tauto.
Qed.

Lemma isRooted_cons p : isRooted p = true → ∃ s, p = String "/" s.
Proof. intros Hp%HasPrefix_split. rewrite Hp. eexists. by rewrite string_app_cons, string_app_nil. Qed.

Lemma isRooted_slash s : isRooted (String "/" s) = true.
Proof. pose proof (HasPrefix_app "/" s) as Hx. by rewrite string_app_cons, string_app_nil in Hx. Qed.

Lemma Clean_rooted p : isRooted p = true → ∃ l, names l ∧ Clean p = pathText l.
Proof.
  intros [s ->]%isRooted_cons. exists (reverse (foldl (cleanStep true) [] (splitSlash (String "/" s)))).
  split; [|reflexivity]. unfold names. rewrite Forall_reverse. apply foldl_cleanStep_rooted; [apply splitSlash_names|constructor].
Qed.

Lemma foldl_cleanStep_steps cs out : Forall (λ c, noSlash c = true) cs → Forall stepName out →
  Forall stepName (foldl (cleanStep false) out cs).
Proof.
  revert out. induction cs as [|c cs IH]; intros out Hc Ho; [done|]. apply Forall_cons in Hc as [Hc Hcs]. simpl.
  apply IH; [done|]. unfold cleanStep. case_decide as H1; [done|]. case_decide as H2.
  - destruct out as [|x rest]; [repeat constructor|]. case_decide; [constructor; [by left|done]|]. by apply Forall_cons in Ho as [_ ?].
  - constructor; [|done]. right. apply component_spec. tauto.
Qed.

Lemma stepName_head x t : stepName x → isRooted (x +:+ t) = false.
Proof.
  intros [-> |(Hs & Hn & _)%component_spec]; [done|]. destruct x as [|c x]; [done|].
  apply noSlash_cons in Hs as [Hc _]. rewrite string_app_cons.
  destruct (isRooted (String c (x +:+ t))) eqn:E; [|done]. apply isRooted_cons in E as [s E]. congruence.
Qed.

Lemma Clean_relative p : isRooted p = false → isRooted (Clean p) = false.
Proof.
  intros Hp. unfold Clean. case_decide; [done|].
  replace (match p with String "/" _ => true | _ => false end) with false.
  2: { destruct p as [|c p]; [done|]. assert (Hc : c ≠ "/"%char).
       { intros ->. pose proof (HasPrefix_app "/" p) as Hx. rewrite string_app_cons, string_app_nil in Hx.
         unfold isRooted in Hp. congruence. }
       by destruct c as [[] [] [] [] [] [] [] []]. }
  pose proof (foldl_cleanStep_steps (splitSlash p) [] (splitSlash_names p) ltac:(constructor)) as Hs.
  rewrite <- Forall_reverse in Hs. revert Hs. generalize (reverse (foldl (cleanStep false) [] (splitSlash p))).
  intros [|x l] Hs; [done|]. apply Forall_cons in Hs as [Hx _]. destruct (concat_head x l) as (t & -> & _).
  case_decide; [done|]. by apply stepName_head.
Qed.

Lemma foldl_cleanStep_names cs out : names cs → foldl (cleanStep true) out cs = reverse cs ++ out.
Proof.
  intros Hcs. revert out. induction Hcs as [|c cs Hc Hcs IH]; intros out; [done|]. simpl.
  apply component_spec in Hc as (_ & ? & ? & ?). unfold cleanStep at 2. rewrite decide_False by tauto.
  rewrite decide_False by done. by rewrite IH, reverse_cons, <- app_assoc.
Qed.

Lemma Clean_pathText l : names l → Clean (pathText l) = pathText l.
Proof.
  intros Hl. unfold Clean, pathText. rewrite decide_False by done. f_equal. f_equal.
  cbn [splitSlash]. rewrite decide_True by done. cbn [foldl]. unfold cleanStep at 2. rewrite decide_True by tauto.
  destruct l as [|c l]; [done|]. rewrite splitSlash_concat; [|done|].
  - by rewrite foldl_cleanStep_names, app_nil_r, reverse_involutive.
  - eapply Forall_impl; [exact Hl|]. intros x (? & _)%component_spec. done.
Qed.

Lemma pathText_snoc d c : d ≠ [] → pathText d +:+ String "/" c = pathText (d ++ [c]).
Proof.
  intros Hd. unfold pathText. rewrite string_app_cons. f_equal. destruct d as [|x d]; [done|].
  rewrite <- concat_concat. reflexivity.
Qed.

Lemma Join_pathText d c : names d → component c = true → Join [pathText d; c] = pathText (d ++ [c]).
Proof.
  intros Hd Hc. assert (Hj : Join [pathText d; c] = Clean (pathText d +:+ String "/" c)) by reflexivity. rewrite Hj.
  destruct d as [|x d].
  - change (pathText [] +:+ String "/" c) with (String "/" (String "/" c)). unfold Clean. rewrite decide_False by done.
    apply component_spec in Hc as (Hs & ? & ? & ?).
    assert (Hsp : splitSlash (String "/" (String "/" c)) = [""; ""; c]).
    { cbn [splitSlash]. rewrite !decide_True by done. by rewrite splitSlash_noSlash. }
    assert (Hempty : ∀ out, cleanStep true out "" = out).
    { intros out. unfold cleanStep. by rewrite decide_True by tauto. }
    rewrite Hsp. cbn [foldl]. rewrite !Hempty. unfold cleanStep. rewrite decide_False by tauto.
    by rewrite decide_False.
  - rewrite pathText_snoc by done. apply Clean_pathText. by apply names_snoc.
Qed.

(** The absolute path the tools look at. *)
Definition absPath (base req : string) : string :=
  let cleaned := Clean req in if isRooted cleaned then cleaned else Join [base; cleaned].

Lemma absPath_names base req : isRooted base = true → ∃ l, names l ∧ absPath base req = pathText l.
Proof.
  intros Hb. unfold absPath. destruct (isRooted (Clean req)) eqn:Hr.
  - destruct (isRooted req) eqn:Hq; [by apply Clean_rooted|]. apply Clean_relative in Hq. congruence.
  - apply isRooted_cons in Hb as [s ->].
    change (Join [String "/" s; Clean req]) with (Clean (String "/" (s +:+ String "/" (Clean req)))).
    apply Clean_rooted, isRooted_slash.
Qed.

(** ** File systems without links *)

Definition linkFree (fs : FS) : Prop := ∀ p n, fs !! p = Some n → noLink n.

#[global] Instance linkFree_dec fs : Decision (linkFree fs).
Proof. unfold linkFree. apply map_Forall_dec. intros _ [| |]; apply _. Defined.

Lemma linkFree_at fs p n : linkFree fs → at_ fs p = Some n → noLink n.
Proof. intros Hf Hp. destruct p; [by simplify_eq/=|]. by eapply Hf. Qed.

Lemma linkFree_addsDirs fs fs' : addsDirs fs fs' → linkFree fs → linkFree fs'.
Proof. intros [_ Hn] Hf p n Hp. destruct (Hn p n Hp) as [? | ->]; [by eapply Hf|done]. Qed.

Lemma walk_linkFree fs mm links cur todo l :
  linkFree fs → names todo → walk fs mm links cur todo = Some l → l = cur ++ todo.
Proof.
  intros Hf. revert cur. induction todo as [|c rest IH]; intros cur Ht; rewrite walk_unfold.
  { intros [= <-]. by rewrite app_nil_r. }
  apply Forall_cons in Ht as [Hc Ht]. apply component_spec in Hc as (_ & _ & _ & Hup). rewrite bool_decide_false by done.
  destruct (at_ fs (cur ++ [c])) as [[|content|target]|] eqn:E.
  - intros Hw%IH; [|done]. by rewrite Hw, <- app_assoc.
  - case_bool_decide; [|done]. intros [= <-]. by subst.
  - by apply (linkFree_at fs) in E.
  - destruct mm; [|done]. simpl. case_bool_decide; [|done]. intros [= <-]. by subst.
Qed.

Lemma EvalSymlinks_linkFree fs l t : linkFree fs → names l → EvalSymlinks fs (pathText l) = Some t → t = pathText l.
Proof.
  intros Hf Hl. unfold EvalSymlinks. rewrite pathNames_pathText by done.
  intros (x & Hw%walk_linkFree & ->)%fmap_Some; [|done..]. by subst.
Qed.

(** Without links the path a write uses is the cleaned path itself, below the base. *)
Lemma safePath_write_linkFree b fs req t fs' :
  wfFS fs → linkFree fs → names b → safePath (pathText b) fs req false = (inr t, fs') →
  wfFS fs' ∧ addsDirs fs fs' ∧ MkdirAll fs (pathText b) = Some fs' ∧
  ∃ l, names l ∧ absPath (pathText b) req = pathText l ∧ t = pathText l ∧ HasPrefix (pathText l) (pathText b) = true.
Proof.
  intros Hwf Hf Hb. unfold safePath. destruct (MkdirAll fs (pathText b)) as [fs1|] eqn:Em; [|done].
  pose proof Em as [Hwf1 Ha]%MkdirAll_spec; [|done]. pose proof (linkFree_addsDirs _ _ Ha Hf) as Hf1.
  fold (absPath (pathText b) req). destruct (absPath_names (pathText b) req (isRooted_slash _)) as (l & Hl & Habs). rewrite Habs.
  match goal with |- (?x, _) = _ → _ => set (v := x) end. intros [= Hv <-]. split_and!; [done|done|done|].
  exists l. split; [done|]. split; [done|]. subst v. destruct (EvalSymlinks fs1 (pathText b)) as [rb|] eqn:Eb; [|done].
  apply EvalSymlinks_linkFree in Eb as ->; [|done..]. destruct (HasPrefix (pathText l) (pathText b)) eqn:Hp; [|done]. cbn [negb] in Hv.
  split; [|done]. destruct (EvalSymlinks fs1 (pathText l)) as [rs|] eqn:Er.
  { apply EvalSymlinks_linkFree in Er as ->; [|done..]. rewrite Hp in Hv. congruence. }
  destruct (EvalSymlinks fs1 (DirOf (pathText l))) as [pr|] eqn:Ep; [|congruence].
  unfold DirOf, BaseOf in *. rewrite pathNames_pathText in * by done.
  destruct (snoc_cases l) as [-> | (q & c & ->)]; [done|].
  rewrite parentOf_snoc in Ep. apply names_snoc in Hl as [Hq Hc]. apply EvalSymlinks_linkFree in Ep as ->; [|done..].
  rewrite reverse_snoc in Hv. change (default "/" (head (c :: reverse q))) with c in Hv.
  rewrite Join_pathText in Hv by done. rewrite Hp in Hv. congruence.
Qed.

Lemma mkdirs_done fs cur todo : linkFree fs → wfFS fs → names todo → at_ fs (cur ++ todo) = Some Dir →
  mkdirs fs cur todo = Some fs.
Proof.
  intros Hf Hwf. revert cur. induction todo as [|c rest IH]; intros cur Ht Hd; [done|]. cbn [mkdirs].
  apply Forall_cons in Ht as [Hc Ht]. apply component_spec in Hc as (_ & _ & _ & Hup). rewrite bool_decide_false by done.
  replace (cur ++ c :: rest) with ((cur ++ [c]) ++ rest) in Hd by (by rewrite <- app_assoc).
  assert (at_ fs (cur ++ [c]) = Some Dir) as ->.
  { destruct rest; [by rewrite app_nil_r in Hd|]. by eapply at_above. }
  by apply IH.
Qed.

Lemma mkdirs_made fs cur todo fs' : linkFree fs → wfFS fs → at_ fs cur = Some Dir → names todo →
  mkdirs fs cur todo = Some fs' → at_ fs' (cur ++ todo) = Some Dir.
Proof.
  intros Hf. revert fs cur Hf. induction todo as [|c rest IH]; intros fs cur Hf Hwf Hcur Ht; cbn [mkdirs].
  { intros [= <-]. by rewrite app_nil_r. }
  apply Forall_cons in Ht as [Hc Ht]. pose proof Hc as (_ & _ & _ & Hup)%component_spec. rewrite bool_decide_false by done.
  replace (cur ++ c :: rest) with ((cur ++ [c]) ++ rest) by (by rewrite <- app_assoc).
  destruct (at_ fs (cur ++ [c])) as [[|content|target]|] eqn:E; [by apply IH|done|by apply (linkFree_at fs) in E|].
  assert (Hne : cur ++ [c] ≠ []) by (by destruct cur). apply IH; [|apply wfFS_insert|by apply at_insert|]; try done.
  - intros p n. destruct (decide (p = cur ++ [c])) as [-> |Hp].
    + rewrite lookup_insert_eq. by intros [= <-].
    + rewrite lookup_insert_ne by done. apply Hf.
  - apply names_snoc. eauto using at_names.
  - by rewrite parentOf_snoc.
  - by left.
Qed.

Lemma MkdirAll_done fs l : linkFree fs → wfFS fs → names l → at_ fs l = Some Dir → MkdirAll fs (pathText l) = Some fs.
Proof. intros Hf Hwf Hl Hd. unfold MkdirAll. rewrite pathNames_pathText by done. by apply mkdirs_done. Qed.

Lemma MkdirAll_made fs l fs' : linkFree fs → wfFS fs → names l → MkdirAll fs (pathText l) = Some fs' → at_ fs' l = Some Dir.
Proof. intros Hf Hwf Hl. unfold MkdirAll. rewrite pathNames_pathText by done. by apply (mkdirs_made fs [] l fs'). Qed.

(** A successful write where there are no links: the directories made, and the one
    file changed. *)
Lemma FileWrite_linkFree b fs i o fs' :
  wfFS fs → linkFree fs → names b → FileWrite (pathText b) (Some i) fs = (inr o, fs') →
  ∃ l fs2, names l ∧ absPath (pathText b) (fwiPath i) = pathText l ∧ HasPrefix (pathText l) (pathText b) = true ∧
    fwiPath i ≠ "" ∧ wfFS fs2 ∧ linkFree fs2 ∧ addsDirs fs fs2 ∧ at_ fs2 b = Some Dir ∧ wfFS fs' ∧ l ≠ [] ∧
    fs' = <[l := File (if bool_decide (fwiMode i = "append")
                       then match fs !! l with Some (File old) => old +:+ fwiContent i | _ => fwiContent i end
                       else fwiContent i)]> fs2 ∧
    (fs2 !! l = None ∨ ∃ old, fs2 !! l = Some (File old)) ∧ bytesWritten o = Z.of_nat (String.length (fwiContent i)).
Proof.
  intros Hwf Hf Hb. unfold FileWrite. case_bool_decide as Hp; [done|]. case_bool_decide; [done|].
  destruct (safePath (pathText b) fs (fwiPath i) false) as [[err|t] fs1] eqn:E; [done|].
  apply safePath_write_linkFree in E as (Hwf1 & Ha1 & Hm & l & Hl & Habs & -> & Hpre); [|done..].
  pose proof (linkFree_addsDirs _ _ Ha1 Hf) as Hf1. pose proof (MkdirAll_made fs b fs1 Hf Hwf Hb Hm) as Hbd.
  destruct (MkdirAll fs1 (DirOf (pathText l))) as [fs2|] eqn:Em; [|done].
  apply MkdirAll_spec in Em as [Hwf2 Ha2]; [|done]. pose proof (linkFree_addsDirs _ _ Ha2 Hf1) as Hf2.
  destruct (writeFile _ _ _ _) as [fs3|] eqn:Ew; [|done]. apply writeFile_spec in Ew as (x & Hx & Hne & Hwf3 & _ & -> & Hold); [|done].
  unfold locate in Hx. rewrite pathNames_pathText in Hx by done. apply walk_linkFree in Hx as ->; [|done..].
  intros [= <- <-]. exists l, fs2. split_and!; try done; eauto using addsDirs_trans, addsDirs_at.
  assert (bool_decide ((if bool_decide (fwiMode i = "") then "overwrite" else fwiMode i) = "append") = bool_decide (fwiMode i = "append")) as ->.
  { destruct (decide (fwiMode i = "")) as [He|He]; [rewrite He; reflexivity|by rewrite (bool_decide_false _ He)]. }
  pose proof (addsDirs_trans _ _ _ Ha1 Ha2) as [Hsub Hnew]. simpl in Hold. destruct (fs !! l) as [n|] eqn:El.
  - by rewrite (lookup_weaken _ _ _ _ El Hsub).
  - destruct Hold as [-> |[old Ho]]; [done|]. destruct (Hnew l _ Ho); simplify_eq.
Qed.

(** C25. Where the file system has no links, a write followed by a read of the same
    path reads back the first megabyte of what the file then holds, which is what was
    written, or in append mode what was there followed by what was written: all of it when
    it fits, and nothing of what was appended when the file already had a megabyte.  The
    write changed that one file, below the base or in a sibling whose name extends it, and
    made directories. *)
Theorem file_write_read (b : list string) (fs fs' : FS) (i : fileWriteInput) (o : fileWriteOutput) :
  wfFS fs → linkFree fs → names b → FileWrite (pathText b) (Some i) fs = (inr o, fs') →
  ∃ l fs2, under b l ∧ addsDirs fs fs2 ∧
    let content := if bool_decide (fwiMode i = "append")
                   then match fs !! l with Some (File old) => old +:+ fwiContent i | _ => fwiContent i end
                   else fwiContent i in
    fs' = <[l := File content]> fs2 ∧
    let data := takeBytes (Z.to_nat fileReadMaxSize) content in
    ∀ enc, FileRead (pathText b) (Some {| friPath := fwiPath i; friEncoding := enc |}) fs' =
      (inr {| froPath := fwiPath i; froSize := Z.of_nat (String.length data);
              froContent := if bool_decide (enc = "base64") then base64 data else data |}, fs').
Proof.
  intros Hwf Hf Hb Hw. apply FileWrite_linkFree in Hw as (l & fs2 & Hl & Habs & Hpre & Hp & Hwf2 & Hf2 & Ha & Hbd & Hwf' & Hne & Hfs' & Hold & _);
    [|done..].
  exists l, fs2. split; [by apply HasPrefix_under|]. split; [done|]. cbv zeta. split; [done|]. intros enc.
  remember (if bool_decide (fwiMode i = "append") then _ else _) as content eqn:Econtent. clear Econtent.
  assert (Hal : at_ fs' l = Some (File content)) by (rewrite Hfs'; by apply at_insert).
  assert (Hbl : at_ fs' b = Some Dir).
  { rewrite Hfs'. rewrite at_insert_ne; [done|]. intros ->. destruct b; [done|]. simpl in Hbd. naive_solver. }
  assert (Hf' : linkFree fs').
  { rewrite Hfs'. intros p n. destruct (decide (p = l)) as [-> |Hpl]; [rewrite lookup_insert_eq; by intros [= <-]|].
    rewrite lookup_insert_ne by done. apply Hf2. }
  unfold FileRead. cbn [friPath friEncoding]. rewrite bool_decide_false by done. unfold safePath.
  rewrite MkdirAll_done by done. rewrite (EvalSymlinks_pathText fs' b Dir) by done.
  fold (absPath (pathText b) (fwiPath i)). rewrite Habs, Hpre. cbn [negb].
  rewrite (EvalSymlinks_pathText fs' l (File content)) by done. rewrite Hpre.
  by rewrite (locate_pathText fs' false l (File content)), Hal.
Qed.

(** ** Neither tool removes anything *)

Lemma safePath_fs base fs req ex r fs' : wfFS fs → safePath base fs req ex = (r, fs') → wfFS fs' ∧ addsDirs fs fs'.
Proof.
  intros Hwf. unfold safePath. destruct (MkdirAll fs base) as [fs1|] eqn:Em; intros [= _ <-]; auto using addsDirs_refl.
  by apply MkdirAll_spec in Em.
Qed.

Lemma FileRead_keeps base input fs r fs' : wfFS fs → FileRead base input fs = (r, fs') → wfFS fs' ∧ grows fs fs'.
Proof.
  intros Hwf. unfold FileRead. destruct input as [i|]; [|intros [= _ <-]; auto using grows_refl].
  case_bool_decide; [intros [= _ <-]; auto using grows_refl|].
  destruct (safePath base fs (friPath i) true) as [x fs1] eqn:E. apply safePath_fs in E as [Hwf1 Ha]; [|done].
  destruct x; intros [= _ <-]; auto using addsDirs_grows.
Qed.

Lemma FileWrite_keeps base input fs r fs' : wfFS fs → FileWrite base input fs = (r, fs') → wfFS fs' ∧ grows fs fs'.
Proof.
  intros Hwf. unfold FileWrite. destruct input as [i|]; [|intros [= _ <-]; auto using grows_refl].
  case_bool_decide; [intros [= _ <-]; auto using grows_refl|]. case_bool_decide; [intros [= _ <-]; auto using grows_refl|].
  destruct (safePath base fs (fwiPath i) false) as [x fs1] eqn:E. apply safePath_fs in E as [Hwf1 Ha]; [|done].
  destruct x as [e|t]; [intros [= _ <-]; auto using addsDirs_grows|].
  destruct (MkdirAll fs1 (DirOf t)) as [fs2|] eqn:Em; [|intros [= _ <-]; auto using addsDirs_grows].
  apply MkdirAll_spec in Em as [Hwf2 Ha2]; [|done]. pose proof (addsDirs_trans _ _ _ Ha Ha2) as Ha'.
  destruct (writeFile _ _ _ _) as [fs3|] eqn:Ew; [|intros [= _ <-]; auto using addsDirs_grows].
  apply writeFile_spec in Ew as (l & _ & _ & Hwf3 & Hg & _); [|done]. intros [= _ <-].
  split; [done|]. eapply grows_trans; [by apply addsDirs_grows|done].
Qed.

(** ** The two ways out *)

(** A directory beside the base whose name extends the base's is readable. *)
Theorem sibling_is_readable :
  let fs : FS := {[ ["tmp"] := Dir; ["tmp"; "agentos-sandbox-keys"] := Dir;
                    ["tmp"; "agentos-sandbox-keys"; "id"] := File "secret" ]} in
  wfFS fs ∧
  fst (FileRead "/tmp/agentos-sandbox" (Some {| friPath := "/tmp/agentos-sandbox-keys/id"; friEncoding := "" |}) fs) =
    inr {| froPath := "/tmp/agentos-sandbox-keys/id"; froSize := 6; froContent := "secret" |}.
Proof.
  split; [apply (bool_decide_eq_true_1 _)|]; vm_compute; reflexivity.
Qed.

(** A link inside the base leads a write out of it when the directory to write in does
    not exist yet, or when the link itself leads to no file: the resolved path is then
    not checked. *)
Theorem write_follows_links_out :
  let fs : FS := {[ ["tmp"] := Dir; ["tmp"; "agentos-sandbox"] := Dir; ["etc"] := Dir;
                    ["tmp"; "agentos-sandbox"; "out"] := Link "/etc"; ["tmp"; "agentos-sandbox"; "new"] := Link "/etc/cron" ]} in
  let write p := snd (FileWrite "/tmp/agentos-sandbox" (Some {| fwiPath := p; fwiContent := "x"; fwiMode := "" |}) fs) in
  write "out/d/f" !! ["etc"; "d"; "f"] = Some (File "x") ∧ write "new" !! ["etc"; "cron"] = Some (File "x") ∧
  fst (FileWrite "/tmp/agentos-sandbox" (Some {| fwiPath := "out/f"; fwiContent := "x"; fwiMode := "" |}) fs) = inl ErrSymlinkOutside.
Proof. vm_compute. auto. Qed.

(** *** Witnesses *)

Definition demoFS : FS := {[ ["tmp"] := Dir; ["tmp"; "box"] := Dir; ["tmp"; "box"; "a"] := File "one" ]}.

Lemma demoFS_wf : wfFS demoFS.
Proof. apply (bool_decide_eq_true_1 _). vm_compute. reflexivity. Qed.

Lemma demoFS_linkFree : linkFree demoFS.
Proof. apply (bool_decide_eq_true_1 _). vm_compute. reflexivity. Qed.

Definition demoRead : fileReadInput := {| friPath := "a"; friEncoding := "base64" |}.
Definition demoWrite : fileWriteInput := {| fwiPath := "a"; fwiContent := "two"; fwiMode := "append" |}.

Lemma file_read_contained_witness : ∃ d l content,
  EvalSymlinks demoFS "/tmp/box" = Some (pathText d) ∧ under d l ∧ demoFS !! l = Some (File content).
Proof.
  assert (E : FileRead "/tmp/box" (Some demoRead) demoFS = (inr {| froPath := "a"; froSize := 3; froContent := "b25l" |}, demoFS))
    by (vm_compute; reflexivity).
  destruct (file_read_contained "/tmp/box" demoRead demoFS demoFS _ demoFS_wf E) as (_ & _ & H).
  destruct (H _ eq_refl) as (d & l & content & H1 & H2 & H3 & _). exists d, l, content. auto.
Defined.

Lemma file_write_read_witness : ∃ l fs2, under ["tmp"; "box"] l ∧ addsDirs demoFS fs2 ∧
  snd (FileWrite (pathText ["tmp"; "box"]) (Some demoWrite) demoFS) = <[l := File "onetwo"]> fs2.
Proof.
  assert (Hb : names ["tmp"; "box"]) by (repeat constructor).
  assert (E : FileWrite (pathText ["tmp"; "box"]) (Some demoWrite) demoFS =
    (inr {| fwoPath := "a"; bytesWritten := 3; fwoMode := "append" |}, <[["tmp"; "box"; "a"] := File "onetwo"]> demoFS))
    by (vm_compute; reflexivity).
  destruct (file_write_read ["tmp"; "box"] demoFS _ demoWrite _ demoFS_wf demoFS_linkFree Hb E) as (l & fs2 & Hu & Ha & Hfs & _).
  exists ["tmp"; "box"; "a"], demoFS. rewrite E. split; [left; by exists ["a"]|]. split; [apply addsDirs_refl|reflexivity].
Defined.
