(* ===== verification/Tools.v ===== *)
(** * Tools: the built-in tools, their registry and the custom webhook tools

    Models internal/tools (registry.go, types.go, http_fetch.go, json_extract.go,
    text_summarize.go, shell_exec.go, regex_match.go, agent_invoke.go,
    webhook_tool.go; the file tools are in FileTools, the expression evaluator in
    MathEval) and how the executor chooses a run's tools
    (agentorchestrator/agent_loop.go).

    A tool's input is a JSON text, decoded by the functions of [Codec].  What a
    tool asks the outside is an argument: the network ([World]), the file system,
    the commands that run, the agent runner.  The state [ToolState] logs the
    connections made and the commands run. *)
From S2P Require Import Prelude GoTime GoPath GoStrings MathEval GoRegexp NetGuard FileTools.

(** ** Inputs and outputs *)

Record httpFetchInput := { hfURL : string; hfMethod : string; hfHeaders : list (string * string); hfBody : string }.
Record jsonExtractInput := { jeJSON : string; jePath : string }.
Record textSummarizeInput := { tsText : string; tsMaxChars : Z }.
Record shellExecInput := { seCommand : string; seTimeoutSeconds : Z }.
Record regexMatchInput := { rmPattern : string; rmText : string; rmMaxMatches : Z }.
Record agentInvokeInput := { aiAgentID : string; aiInput : string }.

Record regexMatchResult := { FullMatch : string; Groups : list string; Start : Z; End_ : Z }.

(** A compiled pattern: how many groups it names (the whole match included) and
    where it matches, at most so many times. *)
Record Regexp := { SubexpNames : nat; FindAllSubmatchIndex : string → Z → list (list Z) }.

Inductive ToolOut (F : Type) :=
  | OutText (s : string)
  | OutValue (v : any)
  | OutHTTP (status : Z) (headers : gmap string string) (body : string)
  | OutShell (exitCode : Z) (stdout stderr : string)
  | OutRead (o : fileReadOutput)
  | OutWrite (o : fileWriteOutput)
  | OutMatches (pattern : string) (matches : list regexMatchResult)
  | OutMath (expression : string) (result : F)
  | OutEmpty
  | OutInvoke (parentRunID agentID output status error : string).
Arguments OutText {F} s.
Arguments OutValue {F} v.
Arguments OutHTTP {F} status headers body.
Arguments OutShell {F} exitCode stdout stderr.
Arguments OutRead {F} o.
Arguments OutWrite {F} o.
Arguments OutMatches {F} pattern matches.
Arguments OutMath {F} expression result.
Arguments OutEmpty {F}.
Arguments OutInvoke {F} parentRunID agentID output status error.

Inductive ToolFail :=
  | FInvalidInput
  | FRequired (field : string)
  | FInvalidJSON
  | FKeyMissing (key : string)
  | FBadIndex (part : string)
  | FIndexRange (idx len : Z)
  | FCannotTraverse (part : string)
  | FCommand
  | FEmptyCommand
  | FNotAllowed (name : string)
  | FTimedOut (d : Duration)
  | FCommandFailed
  | FPattern
  | FMath (e : MathError)
  | FFile (e : FileError)
  | FNet (e : NetError)
  | FURL
  | FDepth (current max : Z)
  | FNoRunner
  | FParentCancelled.

(** Decoding of each tool's input and of any JSON text, encoding, and whether a number
    can be encoded (infinities and NaN cannot). *)
Class Codec (F : Type) := {
  decHTTP : string → option httpFetchInput;
  decExtract : string → option jsonExtractInput;
  decTruncate : string → option textSummarizeInput;
  decShell : string → option shellExecInput;
  decRead : string → option fileReadInput;
  decWrite : string → option fileWriteInput;
  decRegex : string → option regexMatchInput;
  decMath : string → option string;
  decInvoke : string → option agentInvokeInput;
  decJSON : string → option any;
  encJSON : any → string;
  encodable : F → bool
}.

(** ** json_extract *)

Definition extractStep (current : any) (part : string) : ToolFail + any :=
  match current with
  | AMap m => match any_get part m with Some v => inr v | None => inl (FKeyMissing part) end
  | AList l =>
    match Atoi part with
    | None => inl (FBadIndex part)
    | Some idx =>
      if bool_decide (idx < 0 ∨ Z.of_nat (length l) <= idx) then inl (FIndexRange idx (Z.of_nat (length l)))
      else match l !! Z.to_nat idx with Some v => inr v | None => inl (FIndexRange idx (Z.of_nat (length l))) end
    end
  | _ => inl (FCannotTraverse part)
  end.

Fixpoint extractPath (current : any) (parts : list string) : ToolFail + any :=
  match parts with
  | [] => inr current
  | part :: parts =>
    match extractStep current part with inl err => inl err | inr v => extractPath v parts end
  end.

Section tools.
Context {F : Type} `{Codec F} `{Float64 F} `{HTTP}.

Definition JSONExtract (input : string) : ToolFail + ToolOut F :=
  match decExtract input with
  | None => inl FInvalidInput
  | Some i =>
    if bool_decide (jeJSON i = "") then inl (FRequired "json")
    else if bool_decide (jePath i = "") then inl (FRequired "path")
    else match decJSON (jeJSON i) with
         | None => inl FInvalidJSON
         | Some data =>
           match extractPath data (splitChar "." (jePath i)) with inl err => inl err | inr v => inr (OutValue v) end
         end
  end.

(** ** text_truncate *)

Definition truncationMark : string := "... [truncated]".

Definition TextTruncate (input : string) : ToolFail + ToolOut F :=
  match decTruncate input with
  | None => inl FInvalidInput
  | Some i =>
    let maxChars := if bool_decide (tsMaxChars i <= 0) then 1000 else tsMaxChars i in
    if bool_decide (Z.of_nat (String.length (tsText i)) <= maxChars) then inr (OutText (tsText i))
    else inr (OutText (takeBytes (Z.to_nat maxChars) (tsText i) +:+ truncationMark))
  end.

(** ** regex_match *)

Definition regexMaxMatches : Z := 100.

(** [s[a:b]]; [None] is the panic of a bad range. *)
Definition slice (s : string) (a b : Z) : option string :=
  if bool_decide (0 <= a <= b ∧ b <= Z.of_nat (String.length s))
  then Some (takeBytes (Z.to_nat (b - a)) (dropBytes (Z.to_nat a) s)) else None.

(** The groups [i], [i + 1], ... of a match, while the pattern names them and there
    are positions for them. *)
Fixpoint groupsFrom (text : string) (idx : list Z) (i more : nat) : option (list string) :=
  match more with
  | O => Some []
  | S more =>
    match idx !! (2 * i)%nat, idx !! (2 * i + 1)%nat with
    | Some a, Some b =>
      g ← (if bool_decide (0 <= a) then slice text a b else Some "");
      gs ← groupsFrom text idx (S i) more;
      Some (g :: gs)
    | _, _ => Some []
    end
  end.

Definition matchResult (text : string) (nNames : nat) (idx : list Z) : option (list regexMatchResult) :=
  match idx with
  | a :: b :: _ =>
    full ← slice text a b;
    gs ← groupsFrom text idx 1 (nNames - 1);
    Some [{| FullMatch := full; Groups := gs; Start := a; End_ := b |}]
  | _ => Some []
  end.

(** [None] is a panic. *)
Definition RegexMatch (compile : string → option Regexp) (input : string) : option (ToolFail + ToolOut F) :=
  match decRegex input with
  | None => Some (inl FInvalidInput)
  | Some i =>
    if bool_decide (rmPattern i = "") then Some (inl (FRequired "pattern"))
    else if bool_decide (rmText i = "") then Some (inl (FRequired "text"))
    else
      let n := if bool_decide (rmMaxMatches i <= 0) then regexMaxMatches else rmMaxMatches i in
      match compile (rmPattern i) with
      | None => Some (inl FPattern)
      | Some re =>
        rs ← mapM (matchResult (rmText i) (SubexpNames re)) (FindAllSubmatchIndex re (rmText i) n);
        Some (inr (OutMatches (rmPattern i) (concat rs)))
      end
  end.

(** ** math_eval *)

Definition MathEvalExecute (input : string) : ToolFail + ToolOut F :=
  match decMath input with
  | None => inl FInvalidInput
  | Some expression =>
    if bool_decide (expression = "") then inl (FRequired "expression")
    else match evalExpr expression with
         | inl err => inl (FMath err)
         | inr v => inr (if encodable v then OutMath expression v else OutEmpty)
         end
  end.

(** ** shell_exec *)

Definition shellMaxOutput : Z := 64 * 1024.
Definition shellDefaultTimeout : Duration := 30 * Second.

Definition defaultDeniedCommands : list string :=
  ["rm"; "rmdir"; "mkfs"; "dd"; "shutdown"; "reboot"; "halt"; "poweroff"; "chmod"; "chown"; "mount"; "umount"; "kill";
   "killall"; "pkill"].

Definition shellExecAllowedCommands : list string :=
  ["basename"; "cat"; "cut"; "date"; "df"; "dirname"; "du"; "echo"; "false"; "file"; "free"; "grep"; "head"; "id"; "ls";
   "printf"; "ps"; "pwd"; "readlink"; "realpath"; "rg"; "sort"; "ss"; "stat"; "tail"; "tr"; "true"; "uname"; "uniq";
   "uptime"; "wc"; "whereis"; "which"; "whoami"].

Definition truncateStr (s : string) (max : Z) : string :=
  if bool_decide (Z.of_nat (String.length s) <= max) then s else takeBytes (Z.to_nat max) s +:+ truncationMark.

(** How a command ends: with an exit code, by its deadline, or not at all. *)
Inductive CmdResult := Exited (code : Z) (stdout stderr : string) | DeadlineHit | CouldNotRun.

Definition shellTimeout (seconds : Z) : Duration :=
  if bool_decide (0 < seconds) then
    let t := int64_wrap (seconds * Second) in if bool_decide (120 * Second < t) then 120 * Second else t
  else shellDefaultTimeout.

(** [shlex] splits the command (a third-party package); [run] is the outside. The
    second result is the command run, if any. *)
Definition ShellExec (shlex : string → option (list string)) (run : list string → Duration → CmdResult) (input : string)
  : (ToolFail + ToolOut F) * option (list string) :=
  match decShell input with
  | None => (inl FInvalidInput, None)
  | Some i =>
    if bool_decide (seCommand i = "") then (inl (FRequired "command"), None) else
    match shlex (seCommand i) with
    | None => (inl FCommand, None)
    | Some [] => (inl FEmptyCommand, None)
    | Some (cmd :: args) =>
      let baseName := pathBase cmd in
      if bool_decide (baseName ∈ defaultDeniedCommands) then (inl (FNotAllowed baseName), None)
      else if bool_decide (baseName ∉ shellExecAllowedCommands) then (inl (FNotAllowed baseName), None)
      else
        let timeout := shellTimeout (seTimeoutSeconds i) in
        (match run (cmd :: args) timeout with
         | Exited code out err => inr (OutShell code (truncateStr out shellMaxOutput) (truncateStr err shellMaxOutput))
         | DeadlineHit => inl (FTimedOut timeout)
         | CouldNotRun => inl FCommandFailed
         end, Some (cmd :: args))
    end
  end.

(** ** http_fetch *)

Definition maxBodyBytes : Z := 32 * 1024.
Definition httpFetchMaxRedirect : nat := 5.

Definition validateFetchTarget (w : World) (parsed : option URL) (allowLoopback : bool) (n : Net) : option NetError * Net :=
  match parsed with
  | None => (Some ErrNilURL, n)
  | Some u =>
    if bool_decide (Scheme u ≠ "http" ∧ Scheme u ≠ "https") then (Some (ErrScheme (Scheme u)), n)
    else if bool_decide (Hostname u = "") then (Some ErrNoHost, n)
    else RejectPrivateIPs w (Hostname u) allowLoopback n
  end.

(** The dialer of http_fetch and of the webhook tools. *)
Definition toolDialContext (allowLoopback : bool) (w : World) (addr : option (string * string)) (n : Net)
  : (NetError + (IP * string)) * Net :=
  match addr with
  | None => (inl ErrDialTarget, n)
  | Some (host, port) =>
    match ResolveHost w host n with
    | (inl err, n') => (inl err, n')
    | (inr ips, n') =>
      match refused allowLoopback ips with
      | Some ip => (inl (ErrPrivate host ip), n')
      | None => match ips with
                | [] => (inl ErrDialTarget, n')
                | ip :: _ => dialIP w ip port n'
                end
      end
    end
  end.

Definition httpFetchCheckRedirect (allowLoopback : bool) (w : World) (u : URL) (via : list URL) (n : Net)
  : option NetError * Net :=
  if bool_decide (httpFetchMaxRedirect <= length via)%nat then (Some (ErrTooManyRedirects httpFetchMaxRedirect), n)
  else validateFetchTarget w (Some u) allowLoopback n.

Definition httpFetchClient (allowLoopback : bool) : Client :=
  {| DialContext := toolDialContext allowLoopback; CheckRedirect := httpFetchCheckRedirect allowLoopback |}.

(** The first [maxBodyBytes] of a response. *)
Definition cutBody (resp : Response) : option string :=
  takeBytes (Z.to_nat maxBodyBytes) <$> readLimited (maxBodyBytes + 1) resp.

(** [None] when the fuel is spent. *)
Definition HTTPFetch (allowLoopback : bool) (w : World) (input : string) (n : Net) : option ((ToolFail + ToolOut F) * Net) :=
  match decHTTP input with
  | None => Some (inl FInvalidInput, n)
  | Some i =>
    if bool_decide (hfURL i = "") then Some (inl (FRequired "url"), n) else
    let method := if bool_decide (hfMethod i = "") then "GET" else hfMethod i in
    match urlParse (hfURL i) with
    | None => Some (inl FURL, n)
    | Some u =>
      match validateFetchTarget w (Some u) allowLoopback n with
      | (Some err, n') => Some (inl (FNet err), n')
      | (None, n') =>
        match headerSetAll (hfHeaders i) <$> NewRequest method (hfURL i) (hfBody i) with
        | None => Some (inl FInvalidInput, n')
        | Some req =>
          match Do w (S httpFetchMaxRedirect) (httpFetchClient allowLoopback) req [] req n' with
          | None => None
          | Some (inl err, n'') => Some (inl (FNet err), n'')
          | Some (inr resp, n'') =>
            Some (match cutBody resp with
                  | None => inl (FNet ErrRead)
                  | Some body => inr (OutHTTP (StatusCode resp) (respHeader resp) body)
                  end, n'')
          end
        end
      end
    end
  end.

(** ** Webhook tools *)

Record CustomTool := {
  ctName : string; ctDescription : string; ctInputSchema : option any; ctWebhookURL : string;
  ctHeaders : list (string * string); ctTimeoutMs : Z
}.

Record WebhookTool := {
  whName : string; whDescription : string; whInputSchema : option any; whURL : string;
  whHeaders : list (string * string); whTimeout : Duration; whAllowLoopback : bool
}.

Definition NewWebhookTool (ct : CustomTool) : WebhookTool := {|
  whName := ctName ct; whDescription := ctDescription ct; whInputSchema := ctInputSchema ct; whURL := ctWebhookURL ct;
  whHeaders := ctHeaders ct;
  whTimeout := if bool_decide (0 < ctTimeoutMs ct) then int64_wrap (ctTimeoutMs ct * Millisecond) else 30 * Second;
  whAllowLoopback := false
|}.

Definition webhookSchema (t : WebhookTool) : any :=
  default (AMap [("type", AStr "object"); ("properties", AMap [])]) (whInputSchema t).

(** A client without a redirect policy of its own follows ten. *)
Definition defaultMaxRedirects : nat := 10.

Definition defaultCheckRedirect (w : World) (u : URL) (via : list URL) (n : Net) : option NetError * Net :=
  (if bool_decide (defaultMaxRedirects <= length via)%nat then Some (ErrTooManyRedirects defaultMaxRedirects) else None, n).

Definition webhookClient (t : WebhookTool) : Client :=
  {| DialContext := toolDialContext (whAllowLoopback t); CheckRedirect := defaultCheckRedirect |}.

Definition webhookArgs (input : string) : any :=
  if bool_decide (input = "") then ANil else default (AStr input) (decJSON input).

Definition WebhookExecute (t : WebhookTool) (w : World) (input : string) (n : Net) : option ((ToolFail + ToolOut F) * Net) :=
  match urlParse (whURL t) with
  | None => Some (inl FURL, n)
  | Some u =>
    if bool_decide (Scheme u ≠ "http" ∧ Scheme u ≠ "https") then Some (inl (FNet (ErrScheme (Scheme u))), n) else
    match NewRequest "POST" (whURL t) (encJSON (AMap [("input", webhookArgs input)])) with
    | None => Some (inl FURL, n)
    | Some r =>
      let req := headerSetAll (whHeaders t) (headerSet "Content-Type" "application/json" r) in
      match Do w (S defaultMaxRedirects) (webhookClient t) req [] req n with
      | None => None
      | Some (inl err, n') => Some (inl (FNet err), n')
      | Some (inr resp, n') =>
        Some (match cutBody resp with None => inl (FNet ErrRead) | Some body => inr (OutText body) end, n')
      end
    end
  end.

(** ** agent_invoke *)

Record Ctx := { hasDeadline : bool; delegationDepth : Z }.

Definition DefaultMaxDelegationDepth : Z := 5.

Definition maxDelegationDepth (env : Environ) : Z := envInt env "AGENTOS_MAX_DELEGATION_DEPTH" DefaultMaxDelegationDepth.

Definition WithDelegationDepth (ctx : Ctx) (depth : Z) : Ctx := {| hasDeadline := hasDeadline ctx; delegationDepth := depth |}.

Record AgentInvokeTool := { ParentRunID : string; invTenantID : string; CorrelationID : string }.

(** The runner starts a child run and waits for it: the context, the agent, the
    input, then whatever state it works on. *)
Definition AgentRunner (S : Type) : Type := Ctx → string → string → string → string → string → S → (string + string) * S.

(** [cancelled] tells whether the parent's context has ended by the time the runner
    fails. *)
Definition AgentInvoke {S} (env : Environ) (t : AgentInvokeTool) (runner : option (AgentRunner S)) (cancelled : bool) (ctx : Ctx)
  (input : string) (s : S) : (ToolFail + ToolOut F) * S :=
  match decInvoke input with
  | None => (inl FInvalidInput, s)
  | Some i =>
    if bool_decide (aiAgentID i = "") then (inl (FRequired "agent_id"), s)
    else if bool_decide (aiInput i = "") then (inl (FRequired "input"), s)
    else
      let currentDepth := delegationDepth ctx in
      let maxDepth := maxDelegationDepth env in
      if bool_decide (maxDepth <= currentDepth) then (inl (FDepth currentDepth maxDepth), s)
      else match runner with
           | None => (inl FNoRunner, s)
           | Some run =>
             let '(res, s') := run (WithDelegationDepth ctx (currentDepth + 1)) (aiAgentID i) (aiInput i) (ParentRunID t)
                                 (invTenantID t) (CorrelationID t) s in
             (match res with
              | inl err => if cancelled then inl FParentCancelled
                           else inr (OutInvoke (ParentRunID t) (aiAgentID i) "" "failed" err)
              | inr out => inr (OutInvoke (ParentRunID t) (aiAgentID i) out "completed" "")
              end, s')
           end
  end.
End tools.

(** ** The registry *)

Inductive Tool :=
  | HTTPFetchTool (allowLoopback : bool)
  | JSONExtractTool
  | TextTruncateTool
  | ShellExecTool
  | FileReadTool
  | FileWriteTool
  | RegexMatchTool
  | MathEvalTool
  | InvokeTool (t : AgentInvokeTool)
  | Webhook (t : WebhookTool).

Definition toolName (t : Tool) : string :=
  match t with
  | HTTPFetchTool _ => "http_fetch"
  | JSONExtractTool => "json_extract"
  | TextTruncateTool => "text_truncate"
  | ShellExecTool => "shell_exec"
  | FileReadTool => "file_read"
  | FileWriteTool => "file_write"
  | RegexMatchTool => "regex_match"
  | MathEvalTool => "math_eval"
  | InvokeTool _ => "agent_invoke"
  | Webhook t => whName t
  end.

Definition toolDescription (t : Tool) : string :=
  match t with
  | HTTPFetchTool _ => "Fetch a URL over HTTP/HTTPS. Returns status, headers, and body (truncated to 32KB)."
  | JSONExtractTool => "Extract a value from a JSON string using a dot-separated path (e.g. 'field.subfield.0')."
  | TextTruncateTool => "Truncate text to a maximum number of characters, appending a truncation marker if needed."
  | ShellExecTool =>
    "Execute a limited diagnostic command and return its stdout/stderr. Shell interpretation and destructive commands are blocked."
  | FileReadTool => "Read a file from the sandbox directory. Returns text content or base64-encoded binary. Limited to 1MB."
  | FileWriteTool => "Write content to a file in the sandbox directory. Supports overwrite and append modes. Limited to 1MB."
  | RegexMatchTool => "Apply a regular expression pattern to input text. Returns all matches with groups and positions."
  | MathEvalTool =>
    "Evaluate a mathematical expression safely. Supports +, -, *, /, %, parentheses, and functions (sqrt, abs, floor, ceil, round, log, log10, pow, min, max)."
  | InvokeTool _ => "Delegate a task to another agent. The child run inherits tenant and correlation context from the parent."
  | Webhook t => whDescription t
  end.

Definition field (name type description : string) (more : list (string * any)) : string * any :=
  (name, AMap ([("type", AStr type); ("description", AStr description)] ++ more)).

Definition objectSchema (fields : list (string * any)) (required : list string) : any :=
  AMap [("type", AStr "object"); ("properties", AMap fields); ("required", AList (AStr <$> required))].

Definition pathField : string * any := field "path" "string" "File path (relative to sandbox or absolute within sandbox)" [].

Definition toolSchema (t : Tool) : any :=
  match t with
  | HTTPFetchTool _ =>
    objectSchema [field "url" "string" "The URL to fetch" [];
                  field "method" "string" "HTTP method (GET, POST, etc.)" [("default", AStr "GET")];
                  field "headers" "object" "Request headers" []; field "body" "string" "Request body" []] ["url"]
  | JSONExtractTool =>
    objectSchema [field "json" "string" "The JSON string to extract from" [];
                  field "path" "string" "Dot-separated path (e.g. 'data.items.0.name')" []] ["json"; "path"]
  | TextTruncateTool =>
    objectSchema [field "text" "string" "The text to truncate" [];
                  field "max_chars" "integer" "Maximum number of characters" [("default", AInt 1000)]] ["text"]
  | ShellExecTool =>
    objectSchema [field "command" "string" "A command plus arguments. Shell operators and interpreters are not supported." [];
                  field "timeout_seconds" "integer" "Timeout in seconds (default 30, max 120)" []] ["command"]
  | FileReadTool =>
    objectSchema [pathField; field "encoding" "string" "Output encoding: 'text' (default) or 'base64'" [("default", AStr "text")]]
      ["path"]
  | FileWriteTool =>
    objectSchema [pathField; field "content" "string" "Content to write" [];
                  field "mode" "string" "Write mode: 'overwrite' (default) or 'append'" [("default", AStr "overwrite")]]
      ["path"; "content"]
  | RegexMatchTool =>
    objectSchema [field "pattern" "string" "Regular expression pattern (Go/RE2 syntax)" []; field "text" "string" "Text to search" [];
                  field "max_matches" "integer" "Maximum matches to return (default 100)" []] ["pattern"; "text"]
  | MathEvalTool => objectSchema [field "expression" "string" "Mathematical expression to evaluate" []] ["expression"]
  | InvokeTool _ =>
    objectSchema [field "agent_id" "string" "The ID of the agent to invoke" [];
                  field "input" "string" "The input text to pass to the agent" []] ["agent_id"; "input"]
  | Webhook t => webhookSchema t
  end.

Record ToolDef := { tdType : string; tdName : string; tdDescription : string; tdParameters : any }.

Definition toolDef (t : Tool) : ToolDef :=
  {| tdType := "function"; tdName := toolName t; tdDescription := toolDescription t; tdParameters := toolSchema t |}.

Abbreviation Registry := (gmap string Tool) (only parsing).

Definition Register (t : Tool) (r : Registry) : Registry := <[toolName t := t]> r.

Definition zeroInvoke : AgentInvokeTool := {| ParentRunID := ""; invTenantID := ""; CorrelationID := "" |}.

Definition builtinTools : list Tool :=
  [HTTPFetchTool false; JSONExtractTool; TextTruncateTool; ShellExecTool; FileReadTool; FileWriteTool; RegexMatchTool;
   MathEvalTool; InvokeTool zeroInvoke].

Definition NewRegistry : Registry := foldl (λ r t, Register t r) ∅ builtinTools.

Definition Get (r : Registry) (name : string) : option Tool := r !! name.

(** [rng] is the order the registry is visited in. *)
Definition GetToolDefs (rng : Registry → list (string * Tool)) (r : Registry) (names : list string) : list ToolDef :=
  match names with
  | [] => toolDef ∘ snd <$> rng r
  | _ => omap (λ name, toolDef <$> r !! name) names
  end.

(** The first name that collides, or the clone with the custom tools, the last of
    those of one name. *)
Fixpoint registerCustom (builtin clone : Registry) (cts : list CustomTool) : string + Registry :=
  match cts with
  | [] => inr clone
  | ct :: cts =>
    if bool_decide (is_Some (builtin !! ctName ct)) then inl (ctName ct)
    else registerCustom builtin (<[ctName ct := Webhook (NewWebhookTool ct)]> clone) cts
  end.

Definition RegisterCustomTools (r : Registry) (cts : list CustomTool) : string + Registry := registerCustom r r cts.

(** *** Execution *)

(** What a tool may use of the outside; [oExpired] and [oCancelled] tell whether the
    context has ended by its deadline, or at all, when a tool fails. *)
Record Outside (S : Type) := {
  oEnv : Environ;
  oWorld : World;
  oShlex : string → option (list string);
  oRun : list string → Duration → CmdResult;
  oCompile : string → option Regexp;
  oRunner : option (AgentRunner S);
  oExpired : bool;
  oCancelled : bool
}.
Arguments oEnv {S} _.
Arguments oWorld {S} _.
Arguments oShlex {S} _.
Arguments oRun {S} _.
Arguments oCompile {S} _.
Arguments oRunner {S} _.
Arguments oExpired {S} _.
Arguments oCancelled {S} _.

Record ToolState (S : Type) := {
  stFS : gmap (list string) Node; stNet : Net; stCommands : list (list string); stRunner : S
}.
Arguments stFS {S} _.
Arguments stNet {S} _.
Arguments stCommands {S} _.
Arguments stRunner {S} _.

Inductive RegistryAnswer (F : Type) :=
  | UnknownTool (name : string)
  | ToolTimeout (name : string)
  | ToolError_ (e : ToolFail)
  | ToolResult (o : ToolOut F).
Arguments UnknownTool {F} name.
Arguments ToolTimeout {F} name.
Arguments ToolError_ {F} e.
Arguments ToolResult {F} o.

Section registry.
Context {F : Type} `{Codec F} `{Float64 F} `{HTTP} {S : Type}.

Definition withNet (s : ToolState S) (n : Net) : ToolState S :=
  {| stFS := stFS s; stNet := n; stCommands := stCommands s; stRunner := stRunner s |}.
Definition withFS (s : ToolState S) (fs : gmap (list string) Node) : ToolState S :=
  {| stFS := fs; stNet := stNet s; stCommands := stCommands s; stRunner := stRunner s |}.
Definition withCommand (s : ToolState S) (c : option (list string)) : ToolState S :=
  {| stFS := stFS s; stNet := stNet s; stCommands := stCommands s ++ option_list c; stRunner := stRunner s |}.
Definition withRunner (s : ToolState S) (x : S) : ToolState S :=
  {| stFS := stFS s; stNet := stNet s; stCommands := stCommands s; stRunner := x |}.

Definition mapFile {A} (f : A → ToolOut F) (r : FileError + A) : ToolFail + ToolOut F :=
  match r with inl e => inl (FFile e) | inr a => inr (f a) end.

(** [Tool.Execute]; [None] is a panic or spent fuel. *)
Definition execTool (o : Outside S) (t : Tool) (ctx : Ctx) (input : string) (s : ToolState S)
  : option ((ToolFail + ToolOut F) * ToolState S) :=
  match t with
  | HTTPFetchTool lo => '(r, n) ← HTTPFetch lo (oWorld o) input (stNet s); Some (r, withNet s n)
  | JSONExtractTool => Some (JSONExtract input, s)
  | TextTruncateTool => Some (TextTruncate input, s)
  | ShellExecTool => let '(r, c) := ShellExec (oShlex o) (oRun o) input in Some (r, withCommand s c)
  | FileReadTool => let '(r, fs) := FileRead (allowedBaseDir (oEnv o)) (decRead input) (stFS s) in
                    Some (mapFile OutRead r, withFS s fs)
  | FileWriteTool => let '(r, fs) := FileWrite (allowedBaseDir (oEnv o)) (decWrite input) (stFS s) in
                     Some (mapFile OutWrite r, withFS s fs)
  | RegexMatchTool => r ← RegexMatch (oCompile o) input; Some (r, s)
  | MathEvalTool => Some (MathEvalExecute input, s)
  | InvokeTool t => let '(r, x) := AgentInvoke (oEnv o) t (oRunner o) (oCancelled o) ctx input (stRunner s) in
                    Some (r, withRunner s x)
  | Webhook t => '(r, n) ← WebhookExecute t (oWorld o) input (stNet s); Some (r, withNet s n)
  end.

(** A context without a deadline gets one of thirty seconds. *)
Definition withDefaultTimeout (ctx : Ctx) : Ctx := {| hasDeadline := true; delegationDepth := delegationDepth ctx |}.

Definition RegistryExecute (o : Outside S) (r : Registry) (ctx : Ctx) (name arguments : string) (s : ToolState S)
  : option (RegistryAnswer F * ToolState S) :=
  match r !! name with
  | None => Some (UnknownTool name, s)
  | Some tool =>
    '(res, s') ← execTool o tool (withDefaultTimeout ctx) arguments s;
    Some (match res with
          | inl err => if oExpired o then ToolTimeout name else ToolError_ err
          | inr out => ToolResult out
          end, s')
  end.
End registry.

(** *** The executor's choice (loadAgentToolsAndDefs, toolDefsForModelRegistry) *)

Record ToolConfig := { cfgTools : list string; cfgCustomTools : list CustomTool }.

Definition loadAgentToolsAndDefs (rng : Registry → list (string * Tool)) (base : Registry) (config : option ToolConfig)
  : Registry * list ToolDef :=
  let agentTools := match config with Some c => cfgTools c | None => [] end in
  let reg := match config with
             | Some c => match cfgCustomTools c with
                         | [] => base
                         | cts => match RegisterCustomTools base cts with inl _ => base | inr clone => clone end
                         end
             | None => base
             end in
  (reg, GetToolDefs rng reg agentTools).

(** ** json_extract finds what the path names *)

(** What lies at a path: through the keys of objects and the positions of arrays. *)
Inductive At : any → list string → any → Prop :=
  | AtHere v : At v [] v
  | AtKey m k v parts x : any_get k m = Some v → At v parts x → At (AMap m) (k :: parts) x
  | AtIndex l part i v parts x : Atoi part = Some (Z.of_nat i) → l !! i = Some v → At v parts x → At (AList l) (part :: parts) x.

#[export] Hint Constructors At : tools.

Lemma extractStep_At current part v : extractStep current part = inr v ↔ At current [part] v.
Proof.
  split.
  - destruct current as [|b|q|z|s|l|m]; simpl; try done.
    + destruct (Atoi part) as [idx|] eqn:E; [|done]. case_bool_decide as Hr; [done|].
      destruct (l !! Z.to_nat idx) as [x|] eqn:El; [|done]. intros [= <-]. eapply AtIndex; [|exact El|constructor].
      rewrite E. f_equal. lia.
    + destruct (any_get part m) as [x|] eqn:E; [|done]. intros [= <-]. eauto with tools.
  - intros HA. inversion HA as [|m k x parts y Hg HA'|l p i x parts y Hi Hl HA']; simplify_eq; inversion HA'; simplify_eq; simpl.
    + by rewrite Hg.
    + rewrite Hi. pose proof (lookup_lt_Some _ _ _ Hl). rewrite bool_decide_false by lia. by rewrite Nat2Z.id, Hl.
Qed.

Lemma At_cons current part parts v : At current (part :: parts) v ↔ ∃ x, At current [part] x ∧ At x parts v.
Proof.
  split.
  - inversion 1; simplify_eq; eexists; split; eauto with tools.
  - intros (x & H1 & H2). inversion H1 as [|? ? ? ? ? ? H3|? ? ? ? ? ? ? ? H3]; simplify_eq; inversion H3; simplify_eq; eauto with tools.
Qed.

Lemma extractPath_At parts : ∀ current v, extractPath current parts = inr v ↔ At current parts v.
Proof.
  induction parts as [|part parts IH]; intros current v; simpl.
  - split; [intros [= <-]; constructor|]. by inversion 1.
  - rewrite At_cons. destruct (extractStep current part) as [err|x] eqn:E.
    + split; [done|]. intros (x & Hx & _). apply extractStep_At in Hx. congruence.
    + rewrite IH. pose proof (proj1 (extractStep_At _ _ _) E) as Ex. split; [eauto|]. intros (y & Hy & HA). apply extractStep_At in Hy. rewrite E in Hy. by simplify_eq.
Qed.

(** json_extract answers exactly the value the dot path leads to: it succeeds, with
    that value, if and only if every part is a key of an object or an in-range
    position of an array; otherwise it answers an error. *)
Theorem json_extract_exact {F} `{Codec F} (input : string) (i : jsonExtractInput) (data : any) :
  decExtract input = Some i → jeJSON i ≠ "" → jePath i ≠ "" → decJSON (jeJSON i) = Some data →
  (∀ v, JSONExtract input = inr (OutValue (F := F) v) ↔ At data (splitChar "." (jePath i)) v) ∧
  ((¬ ∃ v, At data (splitChar "." (jePath i)) v) → ∃ err, JSONExtract (F := F) input = inl err).
Proof.
  intros Hi Hj Hp Hd. unfold JSONExtract. rewrite Hi, !bool_decide_false, Hd by done.
  setoid_rewrite <- extractPath_At. destruct (extractPath data _) as [err|v]; split; intros; eauto.
  - by split.
  - split; intros ?; by simplify_eq.
  - naive_solver.
Qed.

(** ** Texts are cut where they should be *)

(** Truncation: a text within the limit is returned as it is; a longer one as its
    first bytes up to the limit and the marker, so that no answer is longer than the
    limit and the marker together; a limit that is not positive counts as 1000. *)
Theorem text_truncate_exact {F} `{Codec F} (input : string) (i : textSummarizeInput) :
  decTruncate input = Some i →
  let limit := if bool_decide (tsMaxChars i <= 0) then 1000 else tsMaxChars i in
  ∃ s, TextTruncate input = inr (OutText (F := F) s) ∧
    (Z.of_nat (String.length (tsText i)) <= limit → s = tsText i) ∧
    (limit < Z.of_nat (String.length (tsText i)) →
       ∃ cut rest, tsText i = cut +:+ rest ∧ Z.of_nat (String.length cut) = limit ∧ s = cut +:+ truncationMark).
Proof.
  intros Hi limit. unfold TextTruncate. rewrite Hi. fold limit. cbv zeta.
  assert (0 < limit) by (unfold limit; case_bool_decide; lia).
  case_bool_decide as Hl; eexists; (split; [reflexivity|]); split; try lia; [done|].
  intros _. exists (takeBytes (Z.to_nat limit) (tsText i)), (dropBytes (Z.to_nat limit) (tsText i)).
  rewrite take_drop_bytes, takeBytes_length by lia. split_and!; [done|lia|done].
Qed.

(** ** regex_match stays within the text *)

(** What package regexp documents of positions: pairs, in range or absent, the whole
    match present, no more matches than asked for. *)
Definition lawful (re : Regexp) : Prop := ∀ text n, 0 < n →
  (Z.of_nat (length (FindAllSubmatchIndex re text n)) <= n) ∧
  Forall (λ idx, length idx = (2 * SubexpNames re)%nat ∧ (0 < SubexpNames re)%nat ∧
    ∀ i a b, idx !! (2 * i)%nat = Some a → idx !! (2 * i + 1)%nat = Some b →
      0 <= a <= b ∧ b <= Z.of_nat (String.length text) ∨ (i ≠ 0%nat ∧ a < 0)) (FindAllSubmatchIndex re text n).

Lemma slice_Some s a b : 0 <= a <= b → b <= Z.of_nat (String.length s) → is_Some (slice s a b).
Proof. intros. unfold slice. rewrite bool_decide_true by lia. eauto. Qed.

Lemma groupsFrom_Some text idx i more :
  (∀ i a b, idx !! (2 * i)%nat = Some a → idx !! (2 * i + 1)%nat = Some b →
     0 <= a <= b ∧ b <= Z.of_nat (String.length text) ∨ (i ≠ 0%nat ∧ a < 0)) → is_Some (groupsFrom text idx i more).
Proof.
  intros Hi. revert i. induction more as [|more IH]; intros i; cbn [groupsFrom]; [eauto|].
  destruct (idx !! (2 * i)%nat) as [a|] eqn:Ea; [|eauto]. destruct (idx !! (2 * i + 1)%nat) as [b|] eqn:Eb; [|eauto].
  destruct (IH (Datatypes.S i)) as [gs ->].
  assert (is_Some (if bool_decide (0 <= a) then slice text a b else Some "")) as [g ->].
  { case_bool_decide; [|eauto]. destruct (Hi i a b Ea Eb) as [[? ?]|[? ?]]; [by apply slice_Some|lia]. }
  simpl. eauto.
Qed.

Lemma matchResult_Some re text n idx : lawful re → 0 < n → idx ∈ FindAllSubmatchIndex re text n →
  ∃ r, matchResult text (SubexpNames re) idx = Some [r].
Proof.
  intros HL Hn Hin. destruct (HL text n Hn) as [_ HF]. rewrite Forall_forall in HF.
  destruct (HF idx Hin) as (Hlen & Hpos & Hi). destruct idx as [|a [|b idx]]; [simpl in Hlen; lia..|].
  unfold matchResult. destruct (Hi 0%nat a b eq_refl eq_refl) as [[? ?]|[? ?]]; [|done].
  destruct (slice_Some text a b) as [full ->]; [done..|].
  destruct (groupsFrom_Some text (a :: b :: idx) 1 (SubexpNames re - 1) Hi) as [gs Hgs]. cbn [mbind option_bind]. rewrite Hgs.
  simpl. eauto.
Qed.

Lemma matchResults_Some re text n l : lawful re → 0 < n → (∀ idx, idx ∈ l → idx ∈ FindAllSubmatchIndex re text n) →
  ∃ rs, mapM (matchResult text (SubexpNames re)) l = Some rs ∧ length (concat rs) = length l.
Proof.
  intros HL Hn. induction l as [|idx l IH]; intros Hl; [by exists []|].
  destruct (matchResult_Some re text n idx HL Hn) as [r Hr]; [apply Hl; set_solver|].
  destruct IH as (rs & Hrs & Hlen); [set_solver|]. exists ([r] :: rs). cbn [mapM]. rewrite Hr. simpl. rewrite Hrs. simpl.
  split; [done|]. by rewrite Hlen.
Qed.

Lemma RegexMatch_total {F} `{Codec F} (compile : string → option Regexp) input :
  (∀ p re, compile p = Some re → lawful re) →
  ∃ r, RegexMatch (F := F) compile input = Some r ∧
    ∀ p ms, r = inr (OutMatches p ms) → ∃ i, decRegex input = Some i ∧
      Z.of_nat (length ms) <= (if bool_decide (rmMaxMatches i <= 0) then regexMaxMatches else rmMaxMatches i).
Proof.
  intros HL. unfold RegexMatch. destruct (decRegex input) as [i|]; [|eexists; split; [reflexivity|done]].
  case_bool_decide; [eexists; split; [reflexivity|done]|]. case_bool_decide; [eexists; split; [reflexivity|done]|].
  set (n := if bool_decide (rmMaxMatches i <= 0) then regexMaxMatches else rmMaxMatches i).
  assert (Hn : 0 < n) by (unfold n, regexMaxMatches; case_bool_decide; lia).
  destruct (compile (rmPattern i)) as [re|] eqn:E; [|eexists; split; [reflexivity|done]].
  specialize (HL _ _ E). destruct (matchResults_Some re (rmText i) n _ HL Hn (λ _ H, H)) as (rs & -> & Hlen).
  eexists. split; [reflexivity|]. intros p ms [= _ <-]. exists i. split; [done|]. fold n. rewrite Hlen.
  by apply (HL (rmText i) n Hn).
Qed.

(** ** The tools' connections *)

Definition publicOrLoopback (lo : bool) (ip : IP) : Prop := IsPrivateIP ip = true → lo = true ∧ IsLoopback ip = true.

Definition webURL (u : URL) : Prop := (Scheme u = "http" ∨ Scheme u = "https") ∧ Hostname u ≠ "".

Lemma toolDialContext_guarded lo w a n r n' : toolDialContext lo w a n = (r, n') →
  connections n' = connections n ∧ ∀ ip port, r = inr (ip, port) → publicOrLoopback lo ip.
Proof.
  unfold toolDialContext. destruct a as [[host port]|]; [|by intros [= <- <-]].
  destruct (ResolveHost w host n) as [[e|ips] n1] eqn:E; [intros [= <- <-]; by eapply ResolveHost_log in E|].
  apply ResolveHost_log in E. destruct (refused lo ips) eqn:Er; [by intros [= <- <-]|].
  destruct ips as [|ip ips]; [by intros [= <- <-]|]. unfold dialIP. intros [= <- <-]. split; [done|].
  intros ip' port' Hip. apply refused_None in Er. apply Forall_cons in Er as [Hp _].
  destruct (reachable _ _ _ _); by simplify_eq.
Qed.

Lemma validateFetchTarget_spec w u lo n r n' : validateFetchTarget w (Some u) lo n = (r, n') →
  connections n' = connections n ∧ (r = None → webURL u).
Proof.
  unfold validateFetchTarget. case_bool_decide as Hs; [by intros [= <- <-]|]. case_bool_decide as Hh; [by intros [= <- <-]|].
  intros E. split; [by eapply RejectPrivateIPs_log|]. intros _. split; [|done].
  destruct (decide (Scheme u = "http")); [by left|]. right. destruct (decide (Scheme u = "https")); [done|]. tauto.
Qed.

Lemma httpFetchClient_guarded lo : Guarded (httpFetchClient lo) (publicOrLoopback lo) webURL httpFetchMaxRedirect.
Proof.
  split; simpl.
  - intros. by eapply toolDialContext_guarded.
  - intros w u via n r n'. unfold httpFetchCheckRedirect. case_bool_decide as Hm; [by intros [= <- <-]|].
    intros Hv%validateFetchTarget_spec. split; [tauto|]. intros ->. split; [tauto|lia].
Qed.

Lemma webhookClient_guarded t : Guarded (webhookClient t) (publicOrLoopback (whAllowLoopback t)) (λ _, True) defaultMaxRedirects.
Proof.
  split; simpl.
  - intros. by eapply toolDialContext_guarded.
  - intros w u via n r n'. unfold defaultCheckRedirect. intros [= <- <-]. split; [done|]. case_bool_decide; [done|]. split; [done|lia].
Qed.

(** The log has grown by at most [m] connections, none to a private address (but
    loopback ones when [lo]). *)
Definition boundedLog (lo : bool) (m : nat) (n n' : Net) : Prop := ∃ new,
  connections n' = connections n ++ new ∧ (length new ≤ m)%nat ∧ Forall (λ k, publicOrLoopback lo (connIP k)) new.

Lemma boundedLog_same lo m n n' : connections n' = connections n → boundedLog lo m n n'.
Proof. intros Hc. exists []. rewrite Hc, app_nil_r. split_and!; [done|simpl; lia|constructor]. Qed.

Lemma boundedLog_weaken lo m m' n n' : (m ≤ m')%nat → boundedLog lo m n n' → boundedLog lo m' n n'.
Proof. intros Hm (new & H1 & H2 & H3). exists new. split_and!; try done. lia. Qed.

Section nets.
Context {F : Type} `{Codec F} `{HTTP}.

Lemma Do_bounded w c lo Q M req n :
  Guarded c (publicOrLoopback lo) Q M → Q (rURL req) → (0 < M)%nat →
  ∃ res n', Do w (Datatypes.S M) c req [] req n = Some (res, n') ∧ boundedLog lo M n n'.
Proof.
  intros HG HQ HM. destruct (Do_guarded w c _ Q M HG (Datatypes.S M) req [] req n HQ HM) as (res & n' & new & HD & Hc & Hw & Hl);
    [simpl; lia..|].
  exists res, n'. split; [done|]. exists new. split_and!; [done|simpl in Hl; lia|].
  eapply Forall_impl; [exact Hw|]. by intros k [? _].
Qed.

Lemma HTTPFetch_bounded lo w input n : ∃ r n', HTTPFetch (F := F) lo w input n = Some (r, n') ∧ boundedLog lo httpFetchMaxRedirect n n'.
Proof.
  unfold HTTPFetch. destruct (decHTTP input) as [i|]; [|eauto using boundedLog_same].
  case_bool_decide; [eauto using boundedLog_same|]. destruct (urlParse (hfURL i)) as [u|] eqn:Eu; [|eauto using boundedLog_same].
  destruct (validateFetchTarget w (Some u) lo n) as [v n1] eqn:Ev. apply validateFetchTarget_spec in Ev as [Hc Hv].
  destruct v as [err|]; [eauto using boundedLog_same|]. destruct (headerSetAll _ <$> _) as [req|] eqn:Er; [|eauto using boundedLog_same].
  apply fmap_Some in Er as (r0 & Hr0 & ->).
  destruct (Do_bounded w (httpFetchClient lo) lo webURL httpFetchMaxRedirect (headerSetAll (hfHeaders i) r0) n1) as (res & n2 & HD & new & Hn & Hl & Hw);
    [apply httpFetchClient_guarded| |unfold httpFetchMaxRedirect; lia|].
  { rewrite headerSetAll_URL, (NewRequest_URL _ _ _ _ _ Hr0 Eu). by apply Hv. }
  rewrite HD. destruct res; eexists _, n2; (split; [reflexivity|]); exists new; rewrite Hn, Hc; auto.
Qed.

Lemma WebhookExecute_bounded t w input n :
  ∃ r n', WebhookExecute (F := F) t w input n = Some (r, n') ∧ boundedLog (whAllowLoopback t) defaultMaxRedirects n n'.
Proof.
  unfold WebhookExecute. destruct (urlParse (whURL t)) as [u|]; [|eauto using boundedLog_same].
  case_bool_decide; [eauto using boundedLog_same|]. destruct (NewRequest _ _ _) as [r0|]; [|eauto using boundedLog_same].
  match goal with |- context [Do w _ _ ?req [] _ n] =>
    destruct (Do_bounded w (webhookClient t) (whAllowLoopback t) (λ _, True) defaultMaxRedirects req n) as (res & n2 & HD & HB);
      [apply webhookClient_guarded|done|unfold defaultMaxRedirects; lia|] end.
  rewrite HD. destruct res; eauto.
Qed.
End nets.

(** ** Registering custom tools *)

Lemma registerCustom_spec builtin clone cts reg : registerCustom builtin clone cts = inr reg →
  Forall (λ ct, builtin !! ctName ct = None) cts ∧
  ∀ name, reg !! name = match List.find (λ ct, bool_decide (ctName ct = name)) (reverse cts) with
                        | Some ct => Some (Webhook (NewWebhookTool ct))
                        | None => clone !! name
                        end.
Proof.
  revert clone. induction cts as [|ct cts IH]; intros clone; simpl; [intros [= <-]; by split|].
  case_bool_decide as Hb; [done|]. intros HR. apply IH in HR as [HF HL]. split.
  { constructor; [|done]. by apply eq_None_not_Some. }
  intros name. rewrite HL, reverse_cons. clear. induction (reverse cts) as [|x l IHl]; simpl.
  - case_bool_decide as E; [subst; by rewrite lookup_insert_eq|by rewrite lookup_insert_ne].
  - by case_bool_decide.
Qed.

Lemma registerCustom_inl builtin clone cts name : registerCustom builtin clone cts = inl name →
  ∃ ct, ct ∈ cts ∧ ctName ct = name ∧ is_Some (builtin !! name).
Proof.
  revert clone. induction cts as [|ct cts IH]; intros clone; simpl; [done|]. case_bool_decide as Hb.
  - intros [= <-]. exists ct. split; [set_solver|done].
  - intros (x & ? & ?)%IH. exists x. split; [set_solver|done].
Qed.

(** Custom tools never take a built-in tool's place: registration succeeds exactly
    when no custom name is in the registry; the clone then answers the registry's own
    names as before and each custom name by its last definition; the registry itself
    is untouched (the clone is a new map), and a refusal names a colliding tool. *)
Theorem custom_tools_never_shadow (r : Registry) (cts : list CustomTool) :
  match RegisterCustomTools r cts with
  | inr clone =>
      Forall (λ ct, r !! ctName ct = None) cts ∧ r ⊆ clone ∧
      (∀ name t, clone !! name = Some t → r !! name = Some t ∨
         ∃ ct, ct ∈ cts ∧ ctName ct = name ∧ t = Webhook (NewWebhookTool ct)) ∧
      (∀ ct pre post, cts = pre ++ ct :: post → Forall (λ c, ctName c ≠ ctName ct) post →
         clone !! ctName ct = Some (Webhook (NewWebhookTool ct)))
  | inl name => ∃ ct, ct ∈ cts ∧ ctName ct = name ∧ is_Some (r !! name)
  end.
Proof.
  destruct (RegisterCustomTools r cts) as [name|clone] eqn:E; [by eapply registerCustom_inl|].
  apply registerCustom_spec in E as [HF HL]. split_and!; [done| | |].
  - apply map_subseteq_spec. intros name t Ht. rewrite HL.
    destruct (List.find _ _) as [ct|] eqn:Ef; [|done]. apply find_some in Ef as [Hin Hn].
    apply list_elem_of_In in Hin. rewrite elem_of_reverse in Hin. apply bool_decide_eq_true in Hn. rewrite Forall_forall in HF.
    specialize (HF ct Hin). congruence.
  - intros name t. rewrite HL. destruct (List.find _ _) as [ct|] eqn:Ef; [|by left]. intros [= <-]. right.
    apply find_some in Ef as [Hin Hn]. apply list_elem_of_In in Hin. rewrite elem_of_reverse in Hin. apply bool_decide_eq_true in Hn. eauto.
  - intros ct pre post -> Hpost. rewrite HL, reverse_app, reverse_cons, <- app_assoc. clear -Hpost.
    apply Forall_reverse in Hpost. induction Hpost as [|x l Hx _ IH]; simpl; [by rewrite bool_decide_true|].
    by rewrite bool_decide_false.
Qed.

Lemma NewRegistry_tools name t : NewRegistry !! name = Some t → t ∈ builtinTools ∧ toolName t = name.
Proof.
  unfold NewRegistry. simpl. unfold Register. simpl.
  repeat (rewrite lookup_insert_Some; intros [[<- <-]|[_ H]]; [split; [set_solver|done]|revert H]). done.
Qed.

(** ** What an execution may do *)

Section safety.
Context {F : Type} `{Codec F} `{Float64 F} `{HTTP} {S : Type}.

(** A command whose program's last name is on the list. *)
Definition listedCommand (c : list string) : Prop :=
  ∃ cmd args, c = cmd :: args ∧ pathBase cmd ∈ shellExecAllowedCommands ∧ pathBase cmd ∉ defaultDeniedCommands.

Lemma ShellExec_listed shlex run input : Forall listedCommand (option_list (snd (ShellExec (F := F) shlex run input))).
Proof.
  unfold ShellExec. destruct (decShell input) as [i|]; [|constructor]. case_bool_decide; [constructor|].
  destruct (shlex (seCommand i)) as [[|cmd args]|]; [constructor| |constructor].
  case_bool_decide as Hd; [constructor|]. case_bool_decide as Ha; [constructor|].
  constructor; [|constructor]. exists cmd, args. split_and!; [done| |done]. destruct (decide (pathBase cmd ∈ shellExecAllowedCommands)); done.
Qed.

(** One step of the tools' state: at most ten connections and one command more, files
    only added or rewritten. *)
Definition safeStep (s s' : ToolState S) : Prop :=
  boundedLog false defaultMaxRedirects (stNet s) (stNet s') ∧
  (∃ new, stCommands s' = stCommands s ++ new ∧ (length new ≤ 1)%nat ∧ Forall listedCommand new) ∧
  (wfFS (stFS s) → wfFS (stFS s') ∧ grows (stFS s) (stFS s')).

Lemma safeStep_net s n : boundedLog false defaultMaxRedirects (stNet s) n → safeStep s (withNet s n).
Proof.
  intros Hb. split_and!; [done| |]; simpl.
  - exists []. rewrite app_nil_r. split_and!; [done|simpl; lia|constructor].
  - auto using grows_refl.
Qed.

Lemma safeStep_refl s : safeStep s s.
Proof. destruct s. apply (safeStep_net {| stFS := _; stNet := _; stCommands := _; stRunner := _ |}), boundedLog_same. done. Qed.

(** The tools of a run's registry: none may reach loopback addresses. *)
Definition runTool (t : Tool) : Prop :=
  match t with HTTPFetchTool lo => lo = false | Webhook t => whAllowLoopback t = false | _ => True end.

Lemma execTool_safe (o : Outside S) t ctx input s :
  (∀ p re, oCompile o p = Some re → lawful re) → runTool t →
  ∃ r s', execTool (F := F) o t ctx input s = Some (r, s') ∧ safeStep s s'.
Proof.
  intros HL Ht. destruct t as [lo| | | | | | | |t|t]; simpl in *.
  - destruct (HTTPFetch_bounded (F := F) lo (oWorld o) input (stNet s)) as (r & n & -> & Hb). subst lo. simpl.
    eexists _, _. split; [reflexivity|]. apply safeStep_net. eapply boundedLog_weaken; [|exact Hb]. unfold httpFetchMaxRedirect, defaultMaxRedirects. lia.
  - eauto using safeStep_refl.
  - eauto using safeStep_refl.
  - pose proof (ShellExec_listed (oShlex o) (oRun o) input) as Hc.
    destruct (ShellExec (F := F) (oShlex o) (oRun o) input) as [r c]. eexists _, _. split; [reflexivity|].
    split_and!; simpl; [by apply boundedLog_same| |auto using grows_refl].
    exists (option_list c). split_and!; [done|destruct c; simpl; lia|done].
  - destruct (FileRead _ (decRead input) (stFS s)) as [r fs] eqn:E. eexists _, _. split; [reflexivity|].
    split_and!; simpl; [by apply boundedLog_same|exists []; rewrite app_nil_r; split_and!; [done|simpl; lia|constructor]|].
    intros Hwf. by eapply FileRead_keeps.
  - destruct (FileWrite _ (decWrite input) (stFS s)) as [r fs] eqn:E. eexists _, _. split; [reflexivity|].
    split_and!; simpl; [by apply boundedLog_same|exists []; rewrite app_nil_r; split_and!; [done|simpl; lia|constructor]|].
    intros Hwf. by eapply FileWrite_keeps.
  - destruct (RegexMatch_total (F := F) (oCompile o) input HL) as (r & -> & _). simpl. eauto using safeStep_refl.
  - eauto using safeStep_refl.
  - destruct (AgentInvoke _ _ _ _ _ _ _) as [r x]. eexists _, _. split; [reflexivity|]. destruct (safeStep_refl s) as (J1 & J2 & J3). by split_and!.
  - destruct (WebhookExecute_bounded (F := F) t (oWorld o) input (stNet s)) as (r & n & -> & Hb). rewrite Ht in Hb. simpl.
    eauto using safeStep_net.
Qed.
End safety.

Lemma loadAgentTools_runTool rng config name t :
  fst (loadAgentToolsAndDefs rng NewRegistry config) !! name = Some t → runTool t.
Proof.
  assert (HN : NewRegistry !! name = Some t → runTool t).
  { intros [Hin _]%NewRegistry_tools. unfold builtinTools in Hin. repeat (apply elem_of_cons in Hin as [-> |Hin]; [done|]). by apply elem_of_nil in Hin. }
  unfold loadAgentToolsAndDefs. simpl. destruct config as [[names cts]|]; [|exact HN]. simpl. destruct cts as [|ct cts]; [exact HN|].
  destruct (RegisterCustomTools NewRegistry (ct :: cts)) as [e|clone] eqn:E; [exact HN|].
  apply registerCustom_spec in E as [_ HL]. rewrite HL. destruct (List.find _ _); [|exact HN]. by intros [= <-].
Qed.

(** C6. Whatever tool a run's model asks for, with whatever arguments, and whatever the
    outside does: the registry answers (it neither panics nor runs on), an unknown
    name changes nothing, and an execution makes at most ten connections, none to an
    address of the private ranges, runs at most one command, whose program's last name
    is on the list of allowed commands, and removes no file. *)
Theorem tool_execution_safe {F} `{Codec F} `{Float64 F} `{HTTP} {S} (rng : Registry → list (string * Tool))
  (config : option ToolConfig) (o : Outside S) (ctx : Ctx) (name arguments : string) (s : ToolState S) :
  (∀ p re, oCompile o p = Some re → lawful re) →
  let reg := fst (loadAgentToolsAndDefs rng NewRegistry config) in
  ∃ a s', RegistryExecute (F := F) o reg ctx name arguments s = Some (a, s') ∧ safeStep s s' ∧
    (reg !! name = None → a = UnknownTool name ∧ s' = s).
Proof.
  intros HL reg. unfold RegistryExecute. destruct (reg !! name) as [t|] eqn:E.
  - apply loadAgentTools_runTool in E. destruct (execTool_safe (F := F) o t (withDefaultTimeout ctx) arguments s HL E) as (r & s' & -> & Hs).
    simpl. eexists _, s'. split; [reflexivity|]. by split.
  - eexists _, s. split; [reflexivity|]. split; [apply safeStep_refl|done].
Qed.

(** ** Delegation is bounded *)

(** Agents calling agents: the inputs a run passes to agent_invoke, each with the run
    that call would start. *)
Inductive CallTree := Calls (kids : list (string * CallTree)).

Section delegation.
Context {F : Type} `{Codec F} (env : Environ) (t : AgentInvokeTool).

(** A runner that makes the calls of a run in the context it was given, and logs for
    every run how many delegations really lie above it ([level]), whatever its context
    says. *)
Fixpoint runTree (level : Z) (tree : CallTree) (ctx : Ctx) (_ _ _ _ _ : string) (log : list Z) : (string + string) * list Z :=
  match tree with
  | Calls kids =>
    (inr "", (fix go (kids : list (string * CallTree)) (log : list Z) : list Z :=
                match kids with
                | [] => log
                | (input, sub) :: kids => go kids (snd (AgentInvoke (F := F) env t (Some (runTree (level + 1) sub)) false ctx input log))
                end) kids (log ++ [level]))
  end.

Definition depthsBetween (lo hi : Z) (log log' : list Z) : Prop := ∃ new, log' = log ++ new ∧ Forall (λ d, lo <= d <= hi) new.

Lemma depthsBetween_refl lo hi log : depthsBetween lo hi log log.
Proof. exists []. rewrite app_nil_r. split; [done|constructor]. Qed.

Lemma depthsBetween_trans lo hi l1 l2 l3 : depthsBetween lo hi l1 l2 → depthsBetween lo hi l2 l3 → depthsBetween lo hi l1 l3.
Proof. intros (n1 & -> & H1) (n2 & -> & H2). exists (n1 ++ n2). rewrite app_assoc. split; [done|by apply Forall_app_2]. Qed.

Lemma depthsBetween_weaken lo lo' hi l1 l2 : lo <= lo' → depthsBetween lo' hi l1 l2 → depthsBetween lo hi l1 l2.
Proof. intros Hle (n & -> & Hn). exists n. split; [done|]. eapply Forall_impl; [exact Hn|]. simpl. lia. Qed.

Lemma AgentInvoke_bounded (run : AgentRunner (list Z)) ctx input log :
  (∀ ctx' a b c d e log, delegationDepth ctx' = delegationDepth ctx + 1 → delegationDepth ctx' <= maxDelegationDepth env →
     depthsBetween (delegationDepth ctx + 1) (maxDelegationDepth env) log (snd (run ctx' a b c d e log))) →
  depthsBetween (delegationDepth ctx) (maxDelegationDepth env) log (snd (AgentInvoke (F := F) env t (Some run) false ctx input log)).
Proof.
  intros Hrun. unfold AgentInvoke. destruct (decInvoke input) as [i|]; [|apply depthsBetween_refl].
  case_bool_decide; [apply depthsBetween_refl|]. case_bool_decide; [apply depthsBetween_refl|].
  case_bool_decide as Hd; [apply depthsBetween_refl|].
  match goal with |- context [run ?c ?a ?b ?d ?e ?f log] => specialize (Hrun c a b d e f log); destruct (run c a b d e f log) as [res log'] end.
  simpl in *. eapply depthsBetween_weaken; [|apply Hrun]; lia.
Qed.

Lemma runTree_bounded : ∀ tree ctx a b c d e log, delegationDepth ctx <= maxDelegationDepth env →
  depthsBetween (delegationDepth ctx) (maxDelegationDepth env) log (snd (runTree (delegationDepth ctx) tree ctx a b c d e log)).
Proof.
  fix IH 1. intros [kids] ctx a b c d e log Hd. simpl. eapply depthsBetween_trans.
  { exists [delegationDepth ctx]. split; [reflexivity|]. constructor; [lia|constructor]. }
  generalize (log ++ [delegationDepth ctx]). induction kids as [|[input sub] kids IHk]; intros log'; [apply depthsBetween_refl|].
  eapply depthsBetween_trans; [apply (AgentInvoke_bounded (runTree (delegationDepth ctx + 1) sub) ctx input log')|apply IHk].
  intros ctx' a' b' c' d' e' log1 <- Hd'. by apply IH.
Qed.
End delegation.

Lemma maxDelegationDepth_pos env : 0 < maxDelegationDepth env.
Proof.
  unfold maxDelegationDepth, envInt, DefaultMaxDelegationDepth. case_decide; [lia|]. destruct (Atoi _); [|lia].
  case_bool_decide; lia.
Qed.

(** Delegation ends: however agents call one another through agent_invoke, no run
    has more delegations above it than the configured limit (which is positive, 5 by
    default). *)
Theorem delegation_bounded {F} `{Codec F} (env : Environ) (t : AgentInvokeTool) (tree : CallTree) (ctx : Ctx) (agent input : string) :
  delegationDepth ctx = 0 →
  let log := snd (runTree (F := F) env t 0 tree ctx agent input (ParentRunID t) (invTenantID t) (CorrelationID t) []) in
  0 < maxDelegationDepth env ∧ Forall (λ level, 0 <= level <= maxDelegationDepth env) log.
Proof.
  intros Hd log. pose proof (maxDelegationDepth_pos env). split; [done|].
  destruct (runTree_bounded (F := F) env t tree ctx agent input (ParentRunID t) (invTenantID t) (CorrelationID t) []) as (new & Hl & HF); [lia|].
  rewrite Hd in Hl, HF. unfold log. by rewrite Hl.
Qed.

(** ** Time limits *)

(** The time a command may take never exceeds two minutes; while the product fits
    an int64 it is the number of seconds asked for, cut at two minutes, and thirty
    seconds when none is asked for; beyond that the product wraps and can be negative,
    an already expired limit. *)
Theorem shell_timeout_bounds :
  (∀ s, shellTimeout s <= 120 * Second) ∧
  (∀ s, 0 < s <= 9223372036 → shellTimeout s = Z.min s 120 * Second) ∧
  (∀ s, s <= 0 → shellTimeout s = 30 * Second) ∧
  shellTimeout 9223372037 < 0.
Proof.
  unfold shellTimeout, shellDefaultTimeout, Second. split_and!.
  - intros s. case_bool_decide; [|lia]. cbv zeta. case_bool_decide; lia.
  - intros s Hs. rewrite bool_decide_true by lia. cbv zeta. rewrite int64_wrap_id by (unfold in_int64; lia). case_bool_decide; lia.
  - intros s Hs. by rewrite bool_decide_false by lia.
  - vm_compute. reflexivity.
Qed.

(** ** What the guards miss *)

(** The command list is checked against the last name of the program only: a program of
    that name in any directory runs, one the file tool wrote included. *)
Theorem shell_runs_any_path {F} `{Codec F} shlex run input i args :
  decShell input = Some i → seCommand i ≠ "" → shlex (seCommand i) = Some ("/tmp/agentos-sandbox/cat" :: args) →
  snd (ShellExec (F := F) shlex run input) = Some ("/tmp/agentos-sandbox/cat" :: args).
Proof. intros Hi Hc Hs. unfold ShellExec. rewrite Hi, bool_decide_false, Hs by done. reflexivity. Qed.

(** The list of tools an agent is configured with restricts what its model is told of,
    not what it can run. *)
Theorem tool_list_not_enforced rng :
  let '(reg, defs) := loadAgentToolsAndDefs rng NewRegistry (Some {| cfgTools := ["math_eval"]; cfgCustomTools := [] |}) in
  map tdName defs = ["math_eval"] ∧ reg !! "shell_exec" = Some ShellExecTool.
Proof. split; reflexivity. Qed.

(** Without a runner, which the program never sets, agent_invoke cannot start a run. *)
Theorem agent_invoke_needs_runner {F} `{Codec F} {S} env t cancelled ctx input i (s : S) :
  decInvoke input = Some i → aiAgentID i ≠ "" → aiInput i ≠ "" → delegationDepth ctx < maxDelegationDepth env →
  AgentInvoke (F := F) env t None cancelled ctx input s = (inl FNoRunner, s).
Proof.
  intros Hi Ha Hn Hd. unfold AgentInvoke. rewrite Hi, !bool_decide_false by done. by rewrite bool_decide_false by lia.
Qed.

(** *** Witnesses *)

(** A codec that reads every text as one fixed input. *)
Definition demoCodec : Codec unit := {|
  decHTTP _ := Some {| hfURL := "http://example.org/"; hfMethod := ""; hfHeaders := []; hfBody := "" |};
  decExtract _ := Some {| jeJSON := "x"; jePath := "items.1" |};
  decTruncate _ := Some {| tsText := "abcdef"; tsMaxChars := 4 |};
  decShell _ := Some {| seCommand := "ls"; seTimeoutSeconds := 5 |};
  decRead _ := None; decWrite _ := None;
  decRegex _ := Some {| rmPattern := "b"; rmText := "abc"; rmMaxMatches := 0 |};
  decMath _ := None;
  decInvoke _ := Some {| aiAgentID := "helper"; aiInput := "go" |};
  decJSON _ := Some (AMap [("items", AList [AStr "a"; AStr "b"])]);
  encJSON _ := "{}"; encodable _ := true
|}.

Lemma json_extract_exact_witness : JSONExtract (H := demoCodec) "in" = inr (OutValue (AStr "b")).
Proof.
  destruct (@json_extract_exact unit demoCodec "in" {| jeJSON := "x"; jePath := "items.1" |}
              (AMap [("items", AList [AStr "a"; AStr "b"])])) as [Hv _]; [reflexivity|done|done|reflexivity|].
  apply Hv. eapply AtKey; [reflexivity|]. eapply (AtIndex _ _ 1); [reflexivity|reflexivity|constructor].
Defined.

Lemma text_truncate_exact_witness : ∃ s, TextTruncate (H := demoCodec) "in" = inr (OutText s) ∧ s = "abcd... [truncated]".
Proof.
  destruct (@text_truncate_exact unit demoCodec "in" {| tsText := "abcdef"; tsMaxChars := 4 |} eq_refl) as (s & Hs & _ & Hcut).
  exists s. split; [exact Hs|]. destruct (Hcut ltac:(vm_compute; reflexivity)) as (cut & rest & _ & _ & _).
  vm_compute in Hs. by inversion Hs.
Defined.

Definition rootCtx : Ctx := {| hasDeadline := false; delegationDepth := 0 |}.

(** A run that calls itself seven levels deep. *)
Fixpoint deepCalls (n : nat) : CallTree := match n with O => Calls [] | S n => Calls [("in", deepCalls n)] end.

Lemma delegation_bounded_witness :
  let log := snd (runTree (H := demoCodec) (λ _, "") zeroInvoke 0 (deepCalls 7) rootCtx "a" "i" "" "" "" []) in
  Forall (λ d, 0 <= d <= maxDelegationDepth (λ _, "")) log ∧ log = [0; 1; 2; 3; 4; 5].
Proof.
  split; [|vm_compute; reflexivity].
  exact (proj2 (@delegation_bounded unit demoCodec (λ _, "") zeroInvoke (deepCalls 7) rootCtx "a" "i" eq_refl)).
Defined.

Definition demoFloat : Float64 unit := {|
  fadd _ _ := tt; fsub _ _ := tt; fmul _ _ := tt; fdiv _ _ := tt; fmod _ _ := tt; fneg _ := tt; fisZero _ := false;
  fPi := tt; fE := tt; math1 _ _ := tt; math2 _ _ _ := tt; ParseFloat _ := Some tt
|}.

(** Every text is the URL of one site, which redirects to itself. *)
Definition demoURL : URL := {| Scheme := "http"; Hostname := "example.org"; Port := ""; Rest := "/" |}.

Definition demoHTTP : HTTP := {|
  urlParse _ := Some demoURL; urlResolve _ _ := Some demoURL; dialAddr u := Some (Hostname u, "80"); CanonicalHeader k := k;
  headersOK _ := true; redirectHeaders _ _ h := h; jsonIndent _ := None
|}.

Definition demoWorld : World := {|
  LookupIPAddr _ _ := Some [[93; 184; 216; 34]]; reachable _ _ _ := true; dialHost _ _ _ := None;
  serve _ _ _ _ := Some {| StatusCode := 302; Location := "/"; ContentType := ""; respHeader := ∅; respBody := ""; rBroken := false |}
|}.

Definition demoOutside : Outside unit := {|
  oEnv _ := ""; oWorld := demoWorld; oShlex c := Some [c]; oRun _ _ := Exited 0 "out" "";
  oCompile _ := Some {| SubexpNames := 1; FindAllSubmatchIndex _ _ := [] |}; oRunner := None; oExpired := false; oCancelled := false
|}.

Definition demoState : ToolState unit :=
  {| stFS := ∅; stNet := {| queries := 0; connections := [] |}; stCommands := []; stRunner := tt |}.

(** The site is asked five times, then the redirects are refused. *)
Lemma tool_execution_safe_witness : ∃ a s',
  RegistryExecute (H := demoCodec) (H0 := demoFloat) (H1 := demoHTTP) demoOutside NewRegistry rootCtx "http_fetch" "in" demoState = Some (a, s') ∧
  safeStep demoState s' ∧ length (connections (stNet s')) = 5%nat ∧ a = ToolError_ (FNet (ErrTooManyRedirects 5)).
Proof.
  destruct (@tool_execution_safe unit demoCodec demoFloat demoHTTP unit map_to_list None demoOutside rootCtx "http_fetch" "in" demoState)
    as (a & s' & HE & Hs & _).
  - intros p re [= <-] text n Hn. simpl. split; [lia|constructor].
  - exists a, s'. split; [exact HE|]. split; [exact Hs|]. vm_compute in HE. by inversion HE.
Defined.
