(* ===== verification/Pii.v ===== *)
(** * Pii: detection and redaction of personal data, and the audit scrubber

    Models internal/pii (patterns.go, detector.go, redactor.go),
    internal/audit/scrubber.go and the scan of internal/compliance/pii_scan.go.
    The patterns are regular expressions of GoRegexp; positions are byte offsets.
    [sort.Slice] is any lawful sort. *)
From S2P Require Import Prelude GoTime GoPath GoStrings GoRegexp.

(** ** Patterns *)

Record PatternDef := { PName : string; Regex : re; Placeholder : string; Priority : Z; Validate : option (string → bool) }.

Definition PatternEmail : string := "email".
Definition PatternPhone : string := "phone".
Definition PatternSSN : string := "ssn".
Definition PatternCreditCard : string := "credit_card".
Definition PatternIPAddress : string := "ip_address".

Definition emailLocal (c : ascii) : bool := alnum c || bool_decide (c ∈ ["."; "_"; "%"; "+"; "-"])%char.
Definition emailHost (c : ascii) : bool := alnum c || bool_decide (c ∈ ["."; "-"])%char.

Fixpoint cats (rs : list re) : re := match rs with [] => Eps | [r] => r | r :: rs => Cat r (cats rs) end.

Definition digits_ (n : nat) : re := Times n (Lit digit).
Definition phoneSep : re := Opt (Lit (λ c, bool_decide (c = "-" ∨ c = ".")%char)).
Definition cardSep : re := Opt (Lit (λ c, spaceClass c || bool_decide (c = "-"%char))).

Definition emailRegex : re :=
  cats [Plus (Lit emailLocal); chr "@"; Plus (Lit emailHost); chr "."; AtLeast 2 (Lit alpha)].
Definition phoneRegex : re := cats [WordB; digits_ 3; phoneSep; digits_ 3; phoneSep; digits_ 4; WordB].
Definition ssnRegex : re := cats [WordB; digits_ 3; chr "-"; digits_ 2; chr "-"; digits_ 4; WordB].
Definition cardRegex : re :=
  cats [WordB; digits_ 4; cardSep; digits_ 4; cardSep; digits_ 4; cardSep; Between 1 7 (Lit digit); WordB].
Definition octetRegex : re :=
  Alt (Cat (word "25") (Lit (inRange "0" "5")))
    (Alt (cats [chr "2"; Lit (inRange "0" "4"); Lit digit])
       (cats [Opt (Lit (inRange "0" "1")); Lit digit; Opt (Lit digit)])).
Definition ipRegex : re := cats [WordB; Times 3 (Cat octetRegex (chr ".")); octetRegex; WordB].

(** The Luhn check on the digits of a text, 13 to 19 of them. *)
Fixpoint digitsOf (s : string) : list Z :=
  match s with
  | "" => []
  | String c s => match digit_of c with Some d => d :: digitsOf s | None => digitsOf s end
  end.

(** Over the digits from the last one on. *)
Fixpoint luhnSum (alt : bool) (ds : list Z) : Z :=
  match ds with
  | [] => 0
  | d :: ds => (if alt then let e := d * 2 in if bool_decide (9 < e) then e - 9 else e else d) + luhnSum (negb alt) ds
  end.

Definition luhnValid (s : string) : bool :=
  let ds := digitsOf s in
  if bool_decide (length ds < 13 ∨ 19 < length ds)%nat then false
  else bool_decide (luhnSum false (reverse ds) mod 10 = 0).

Definition builtinPatterns (name : string) : option PatternDef :=
  if bool_decide (name = PatternEmail) then
    Some {| PName := PatternEmail; Regex := emailRegex; Placeholder := "[EMAIL]"; Priority := 3; Validate := None |}
  else if bool_decide (name = PatternPhone) then
    Some {| PName := PatternPhone; Regex := phoneRegex; Placeholder := "[PHONE]"; Priority := 4; Validate := None |}
  else if bool_decide (name = PatternSSN) then
    Some {| PName := PatternSSN; Regex := ssnRegex; Placeholder := "[SSN]"; Priority := 1; Validate := None |}
  else if bool_decide (name = PatternCreditCard) then
    Some {| PName := PatternCreditCard; Regex := cardRegex; Placeholder := "[CREDIT_CARD]"; Priority := 2;
            Validate := Some luhnValid |}
  else if bool_decide (name = PatternIPAddress) then
    Some {| PName := PatternIPAddress; Regex := ipRegex; Placeholder := "[IP_ADDRESS]"; Priority := 5; Validate := None |}
  else None.

Definition patternOrder : list string := [PatternSSN; PatternCreditCard; PatternEmail; PatternPhone; PatternIPAddress].

(** ** The detector *)

Record Detection := { DPattern : string; DMatch : string; DStart : nat; DEnd : nat }.

#[global] Instance Detection_eq_dec : EqDecision Detection.
Proof. solve_decision. Defined.

(** The enabled patterns, in order of priority. *)
Definition NewDetector (patterns : list string) : list PatternDef :=
  match patterns with
  | [] => omap builtinPatterns patternOrder
  | _ => omap builtinPatterns (filter (λ name, name ∈ patterns) patternOrder)
  end.

Definition spanSet (a b : nat) : gset nat := list_to_set (seq a (b - a)).

(** [text[a:b]] for a span of the text. *)
Definition textAt (text : string) (a b : nat) : string := takeBytes (b - a) (dropBytes a text).

Definition valid (p : PatternDef) (s : string) : bool := match Validate p with Some f => f s | None => true end.

(** One match of a pattern: skipped when a byte of it is claimed or when it is not
    valid, else claimed and recorded. *)
Definition scanMatch (text : string) (p : PatternDef) (st : gset nat * list Detection) (loc : nat * nat)
  : gset nat * list Detection :=
  let '(claimed, results) := st in
  let '(a, b) := loc in
  if bool_decide (spanSet a b ## claimed) then
    if valid p (textAt text a b) then
      (claimed ∪ spanSet a b, results ++ [{| DPattern := PName p; DMatch := textAt text a b; DStart := a; DEnd := b |}])
    else st
  else st.

Definition scanPattern (text : string) (st : gset nat * list Detection) (p : PatternDef) : gset nat * list Detection :=
  foldl (scanMatch text p) st (FindAllStringIndex (Regex p) text).

Definition startLe (d e : Detection) : Prop := (DStart d ≤ DStart e)%nat.

#[global] Instance startLe_dec d e : base.Decision (startLe d e).
Proof. unfold startLe. apply _. Defined.
#[global] Instance startLe_trans : Transitive startLe.
Proof. intros x y z. unfold startLe. lia. Qed.
#[global] Instance startLe_total : Total startLe.
Proof. intros x y. unfold startLe. lia. Qed.

Section detector.
Context `{SliceSort}.

Definition scanAll (d : list PatternDef) (text : string) : list Detection := snd (foldl (scanPattern text) (∅, []) d).

Definition Scan (d : list PatternDef) (text : string) : list Detection :=
  if bool_decide (text = "") then [] else sortSlice startLe (scanAll d text).

(** ** The redactor *)

Definition placeholderOf (name : string) : string :=
  if bool_decide (name = PatternEmail) then "[EMAIL]"
  else if bool_decide (name = PatternPhone) then "[PHONE]"
  else if bool_decide (name = PatternSSN) then "[SSN]"
  else if bool_decide (name = PatternCreditCard) then "[CREDIT_CARD]"
  else if bool_decide (name = PatternIPAddress) then "[IP_ADDRESS]"
  else "[PII]".

Definition priorityOf (name : string) : Z := match builtinPatterns name with Some p => Priority p | None => 999 end.

Definition spanLen (d : Detection) : nat := DEnd d - DStart d.

(** By start, then longer first, then by priority. *)
Definition overlapLe (d e : Detection) : Prop :=
  (DStart d < DStart e)%nat ∨ (DStart d = DStart e ∧
    ((spanLen e < spanLen d)%nat ∨ (spanLen d = spanLen e ∧ priorityOf (DPattern d) <= priorityOf (DPattern e)))).

#[global] Instance overlapLe_dec d e : base.Decision (overlapLe d e).
Proof. unfold overlapLe. apply _. Defined.

Fixpoint keepApart (lastEnd : nat) (ds : list Detection) : list Detection :=
  match ds with
  | [] => []
  | d :: ds => if bool_decide (lastEnd ≤ DStart d)%nat then d :: keepApart (DEnd d) ds else keepApart lastEnd ds
  end.

Definition resolveOverlaps (ds : list Detection) : list Detection :=
  if bool_decide (length ds ≤ 1)%nat then ds else keepApart 0 (sortSlice overlapLe ds).

Definition replaceAt (result : string) (d : Detection) : string :=
  takeBytes (DStart d) result +:+ placeholderOf (DPattern d) +:+ dropBytes (DEnd d) result.

Definition startGe (d e : Detection) : Prop := (DStart e ≤ DStart d)%nat.

#[global] Instance startGe_dec d e : base.Decision (startGe d e).
Proof. unfold startGe. apply _. Defined.

Definition Redact (text : string) (ds : list Detection) : string :=
  if bool_decide (ds = []) then text else foldl replaceAt text (sortSlice startGe (resolveOverlaps ds)).

(** ** The audit scrubber *)

Definition redacted : string := "[REDACTED]".

Definition sensitiveKeys : list string := ["password"; "secret"; "token"; "api_key"; "apikey"; "authorization"].

Definition isSensitive (key : string) : bool := bool_decide (ToLower key ∈ sensitiveKeys).

(** A map's entries; lists are left as they are. *)
Fixpoint scrubValue (v : any) : any :=
  match v with
  | AMap m => AMap ((fix go (m : list (string * any)) : list (string * any) :=
                       match m with
                       | [] => []
                       | (k, v) :: m => (k, if isSensitive k then AStr redacted else scrubValue v) :: go m
                       end) m)
  | AStr s => let ds := Scan (NewDetector []) s in AStr (if bool_decide (ds = []) then s else Redact s ds)
  | _ => v
  end.

Definition Scrub (detail : list (string * any)) : list (string * any) :=
  match scrubValue (AMap detail) with AMap m => m | _ => [] end.

(** The first value of a header is what [Get] answers; its name is canonical. *)
Definition ScrubHeaders (headers : gmap string (list string)) : gmap string (list string) :=
  match headers !! "Authorization" with
  | Some (v :: _) => if bool_decide (v = "") then headers else <["Authorization" := [redacted]]> headers
  | _ => headers
  end.

(** ** The compliance scan *)

(** [encode] is the JSON of a value that is no text ([None] when it cannot be encoded). *)
Definition extractText (encode : any → option string) (v : any) : string :=
  match v with
  | AStr s => s
  | AFloat _ | ABool _ | ANil => ""
  | _ => default "" (encode v)
  end.

Record PIILocation := { EventIndex : Z; Field_ : string; PIIType : string }.

Definition scanField (encode : any → option string) (i : nat) (field : string * any) : list PIILocation :=
  let text := extractText encode field.2 in
  if bool_decide (text = "") then []
  else (λ det, {| EventIndex := Z.of_nat i; Field_ := field.1; PIIType := DPattern det |}) <$> Scan (NewDetector []) text.

(** The payloads of a run's events, each in the order its map is visited. *)
Definition scanEvents (encode : any → option string) (payloads : list (list (string * any))) : list PIILocation :=
  concat (imap (λ i payload, payload ≫= scanField encode i) payloads).

Inductive PIIResponse := PIIError (status : Z) (code : string) | PIILocations (l : list PIILocation).

(** [load] answers the payloads of the events of a tenant's run ([None] is an error). *)
Definition PIIScanHandler (encode : any → option string) (load : string → string → option (list (list (string * any))))
  (method runID tenantHeader : string) : PIIResponse :=
  if bool_decide (method ≠ "GET") then PIIError 405 "method_not_allowed"
  else if bool_decide (runID = "") then PIIError 400 "missing_run_id"
  else match load tenantHeader runID with
       | None => PIIError 500 "internal"
       | Some payloads => PIILocations (scanEvents encode payloads)
       end.
End detector.

(** ** Spans *)

Definition spanOK (text : string) (d : Detection) : Prop := (DStart d < DEnd d ≤ String.length text)%nat.

Definition Apart (d e : Detection) : Prop := (DEnd d ≤ DStart e ∨ DEnd e ≤ DStart d)%nat.
Definition Before (d e : Detection) : Prop := (DEnd d ≤ DStart e)%nat.

Lemma elem_of_spanSet i a b : i ∈ spanSet a b ↔ (a ≤ i < b)%nat.
Proof. unfold spanSet. rewrite elem_of_list_to_set, elem_of_seq. lia. Qed.

Lemma spanSet_disjoint a b c e : (a < b)%nat → (c < e)%nat → spanSet a b ## spanSet c e ↔ (b ≤ c ∨ e ≤ a)%nat.
Proof.
  intros Hab Hce. rewrite elem_of_disjoint. setoid_rewrite elem_of_spanSet. split; [|lia].
  intros Hd. destruct (decide (b ≤ c)%nat); [by left|]. destruct (decide (e ≤ a)%nat); [by right|].
  exfalso. apply (Hd (Nat.max a c)); lia.
Qed.

Lemma StronglySorted_perm {A} (R : A → A → Prop) l l' :
  (∀ x y, R x y → R y x) → l ≡ₚ l' → StronglySorted R l → StronglySorted R l'.
Proof.
  intros HR HP. induction HP as [|x l l' HP IH|x y l|l1 l2 l3 _ IH1 _ IH2]; intros Hs; auto.
  - apply StronglySorted_inv in Hs as [Hs Hf]. constructor; [auto|]. by rewrite <- HP.
  - apply StronglySorted_inv in Hs as [Hs Hf]. apply StronglySorted_inv in Hs as [Hs Hg]. apply Forall_cons in Hf as [Hxy Hf].
    repeat constructor; auto.
Qed.

(** ** What the scan finds *)

(** A detection is a valid match of one of the patterns. *)
Definition found (ps : list PatternDef) (text : string) (d : Detection) : Prop := ∃ p,
  p ∈ ps ∧ DPattern d = PName p ∧ (DStart d, DEnd d) ∈ FindAllStringIndex (Regex p) text ∧
  DMatch d = textAt text (DStart d) (DEnd d) ∧ valid p (DMatch d) = true.

(** The bytes claimed are those of the detections, which are apart. *)
Record scanInv (ps : list PatternDef) (text : string) (st : gset nat * list Detection) : Prop := {
  inv_claimed i : i ∈ st.1 ↔ ∃ d, d ∈ st.2 ∧ (DStart d ≤ i < DEnd d)%nat;
  inv_apart : StronglySorted Apart st.2;
  inv_spans : Forall (spanOK text) st.2;
  inv_found : Forall (found ps text) st.2
}.

Lemma FindAll_span r text a b : (a, b) ∈ FindAllStringIndex r text → (a < b ≤ String.length text)%nat.
Proof.
  intros Hin. pose proof (FindAllStringIndex_within r text) as HF. rewrite Forall_forall in HF.
  destruct (HF _ Hin) as (_ & ? & ?). simpl in *. lia.
Qed.

Lemma scanMatch_inv ps text p st loc :
  p ∈ ps → loc ∈ FindAllStringIndex (Regex p) text → scanInv ps text st → scanInv ps text (scanMatch text p st loc).
Proof.
  intros Hp Hl HI. destruct st as [claimed results], loc as [a b]. unfold scanMatch.
  case_bool_decide as Hd; [|done]. destruct (valid p (textAt text a b)) eqn:Hv; [|done].
  pose proof (FindAll_span _ _ _ _ Hl) as Hab. destruct HI as [Hc Ha Hs Hf]. simpl in *.
  set (det := {| DPattern := PName p; DMatch := textAt text a b; DStart := a; DEnd := b |}). split; simpl.
  - intros i. rewrite elem_of_union, Hc, elem_of_spanSet. setoid_rewrite elem_of_app. setoid_rewrite list_elem_of_singleton. split.
    + intros [(d & ? & ?)|?]; [eauto|]. exists det. simpl. auto.
    + intros (d & [? | ->] & ?); [eauto|]. simpl in *. auto.
  - apply StronglySorted_app. split_and!; [|done|repeat constructor].
    intros x y Hx ->%list_elem_of_singleton. rewrite Forall_forall in Hs. specialize (Hs x Hx). unfold spanOK, Apart in *. simpl.
    apply (spanSet_disjoint (DStart x) (DEnd x) a b); [lia|lia|]. apply elem_of_disjoint. intros i Hi1 Hi2.
    rewrite elem_of_disjoint in Hd. apply (Hd i); [done|]. apply Hc. exists x. split; [done|]. by apply elem_of_spanSet.
  - apply Forall_app_2; [done|]. repeat constructor; simpl; lia.
  - apply Forall_app_2; [done|]. constructor; [|constructor]. exists p. by split_and!.
Qed.

Lemma scanMatches_inv ps text p locs st :
  p ∈ ps → (∀ l, l ∈ locs → l ∈ FindAllStringIndex (Regex p) text) → scanInv ps text st →
  scanInv ps text (foldl (scanMatch text p) st locs).
Proof.
  intros Hp. revert st. induction locs as [|l locs IH]; intros st Hl HI; [done|]. simpl.
  apply IH; [set_solver|]. apply scanMatch_inv; [done|set_solver|done].
Qed.

Lemma scan_inv ps text qs st : (∀ q, q ∈ qs → q ∈ ps) → scanInv ps text st → scanInv ps text (foldl (scanPattern text) st qs).
Proof.
  revert st. induction qs as [|q qs IH]; intros st Hq HI; [done|]. simpl. apply IH; [set_solver|].
  apply scanMatches_inv; [set_solver|done|done].
Qed.

Lemma scanInv_empty ps text : scanInv ps text (∅, []).
Proof. split; simpl; try constructor; set_solver. Qed.

(** Nothing claimed is given up. *)
Lemma scanMatch_mono text p st loc d : d ∈ st.2 → d ∈ (scanMatch text p st loc).2.
Proof. destruct st as [c r], loc as [a b]. unfold scanMatch. repeat case_match; set_solver. Qed.

Lemma scanMatches_mono text p locs st d : d ∈ st.2 → d ∈ (foldl (scanMatch text p) st locs).2.
Proof. revert st. induction locs as [|l locs IH]; intros st Hd; [done|]. apply IH. by apply scanMatch_mono. Qed.

Lemma scan_mono text qs st d : d ∈ st.2 → d ∈ (foldl (scanPattern text) st qs).2.
Proof. revert st. induction qs as [|q qs IH]; intros st Hd; [done|]. apply IH. by apply scanMatches_mono. Qed.

(** A match that is tried is invalid, or overlaps a detection afterwards. *)
Definition overlaps (loc : nat * nat) (d : Detection) : Prop := (DStart d < loc.2 ∧ loc.1 < DEnd d)%nat.

Lemma scanMatch_tried ps text p st loc :
  scanInv ps text st → loc ∈ FindAllStringIndex (Regex p) text → valid p (textAt text loc.1 loc.2) = true →
  ∃ d, d ∈ (scanMatch text p st loc).2 ∧ overlaps loc d.
Proof.
  intros HI Hl Hv. destruct st as [claimed results], loc as [a b]. pose proof (FindAll_span _ _ _ _ Hl) as Hab.
  unfold scanMatch, overlaps. simpl in *. case_bool_decide as Hd.
  - rewrite Hv. eexists. simpl. split; [apply elem_of_app; right; apply list_elem_of_singleton; reflexivity|]. simpl. lia.
  - assert (∃ i, i ∈ spanSet a b ∧ i ∈ claimed) as (i & Hi & Hc).
    { destruct (set_choose_or_empty (spanSet a b ∩ claimed)) as [[i Hi]|Hn].
      - exists i. set_solver.
      - exfalso. apply Hd. set_solver. }
    apply (inv_claimed _ _ _ HI) in Hc as (d & Hd1 & Hd2). apply elem_of_spanSet in Hi. exists d. simpl in *. split; [done|lia].
Qed.

Lemma scanMatches_tried ps text p locs st loc :
  scanInv ps text st → p ∈ ps → (∀ l, l ∈ locs → l ∈ FindAllStringIndex (Regex p) text) → loc ∈ locs →
  valid p (textAt text loc.1 loc.2) = true → ∃ d, d ∈ (foldl (scanMatch text p) st locs).2 ∧ overlaps loc d.
Proof.
  revert st. induction locs as [|l locs IH]; intros st HI Hp Hl Hin Hv; [set_solver|]. simpl.
  apply elem_of_cons in Hin as [-> |Hin].
  - destruct (scanMatch_tried ps text p st l) as (d & Hd & Ho); [done|set_solver|done|]. exists d. split; [|done].
    by apply scanMatches_mono.
  - apply IH; [|done|set_solver|done|done]. apply scanMatch_inv; [done|set_solver|done].
Qed.

(** ** Sorted detections *)

Lemma Apart_sym d e : Apart d e → Apart e d.
Proof. unfold Apart. lia. Qed.

(** In the order of their starts, spans that are apart come one before the other. *)
Lemma Before_sorted text l : Forall (spanOK text) l → StronglySorted Apart l → StronglySorted startLe l → StronglySorted Before l.
Proof.
  intros Hs. induction Hs as [|d l Hd Hs IH]; intros Ha Hl; [constructor|].
  apply StronglySorted_inv in Ha as [Ha Hfa]. apply StronglySorted_inv in Hl as [Hl Hfl]. constructor; [auto|].
  rewrite Forall_forall in *. intros e He. specialize (Hfa e He). specialize (Hfl e He). specialize (Hs e He).
  unfold Apart, startLe, Before, spanOK in *. lia.
Qed.

(** There is only one such order. *)
Lemma Before_unique text l l' : Forall (spanOK text) l → l ≡ₚ l' → StronglySorted Before l → StronglySorted Before l' → l = l'.
Proof.
  intros Hs HP Hl Hl'. apply (StronglySorted_unique_strong Before); [|done..].
  intros x y Hx Hy Hxy Hyx. rewrite <- HP in Hy. rewrite Forall_forall in Hs. pose proof (Hs x Hx). pose proof (Hs y Hy).
  unfold Before, spanOK in *. lia.
Qed.

#[global] Instance overlapLe_trans : Transitive overlapLe.
Proof. intros x y z. unfold overlapLe. lia. Qed.
#[global] Instance overlapLe_total : Total overlapLe.
Proof. intros x y. unfold overlapLe. lia. Qed.
#[global] Instance startGe_trans : Transitive startGe.
Proof. intros x y z. unfold startGe. lia. Qed.
#[global] Instance startGe_total : Total startGe.
Proof. intros x y. unfold startGe. lia. Qed.

Lemma Before_Apart l : StronglySorted Before l → StronglySorted Apart l.
Proof.
  induction 1 as [|d l Hl IH Hf]; constructor; [done|]. eapply Forall_impl; [exact Hf|]. intros e He. by left.
Qed.

Lemma StronglySorted_weaken {A} (R R' : A → A → Prop) l : (∀ x y, R x y → R' x y) → StronglySorted R l → StronglySorted R' l.
Proof. intros HR. induction 1 as [|d l Hl IH Hf]; constructor; [done|]. eapply Forall_impl; eauto. Qed.

Lemma keepApart_all pos l : StronglySorted Before l → Forall (λ d, pos ≤ DStart d)%nat l → keepApart pos l = l.
Proof.
  intros Hl. revert pos. induction Hl as [|d l Hl IH Hf]; intros pos Hp; [done|]. simpl. apply Forall_cons in Hp as [Hd Hp].
  rewrite bool_decide_true by done. f_equal. apply IH. exact Hf.
Qed.

Section sorted.
Context `{SliceSortLaws} (text : string).

(** A lawful sort by starts puts spans that are apart in their order. *)
Lemma sort_Before R `{!∀ x y, base.Decision (R x y), !Transitive R, !Total R} l :
  (∀ x y, R x y → startLe x y) → Forall (spanOK text) l → StronglySorted Apart l → StronglySorted Before (sortSlice R l).
Proof.
  intros HR Hs Ha. apply (Before_sorted text).
  - rewrite sort_perm. exact Hs.
  - eapply StronglySorted_perm; [apply Apart_sym|symmetry; apply sort_perm|done].
  - eapply StronglySorted_weaken; [exact HR|]. exact (sort_sorted R l).
Qed.

Lemma resolveOverlaps_apart l : Forall (spanOK text) l → StronglySorted Before l → resolveOverlaps l = l.
Proof.
  intros Hs Hl. unfold resolveOverlaps. case_bool_decide; [done|].
  assert (sortSlice overlapLe l = l) as ->.
  { symmetry. apply (Before_unique text); [done|symmetry; apply sort_perm|done|].
    refine (sort_Before overlapLe l _ Hs (Before_Apart l Hl)). intros x y. unfold overlapLe, startLe. lia. }
  apply keepApart_all; [done|]. apply Forall_forall. lia.
Qed.

Lemma sort_reverse l : Forall (spanOK text) l → StronglySorted Before l → sortSlice startGe l = reverse l.
Proof.
  intros Hs Hl. apply (inj reverse). rewrite reverse_involutive. symmetry. apply (Before_unique text); [done| |done|].
  - rewrite reverse_Permutation. symmetry. apply sort_perm.
  - apply (Before_sorted text).
    + by rewrite reverse_Permutation, sort_perm.
    + eapply StronglySorted_perm; [apply Apart_sym| |by apply Before_Apart]. rewrite reverse_Permutation. symmetry. apply sort_perm.
    + assert (Hg : StronglySorted startGe (sortSlice startGe l)) by exact (sort_sorted startGe l). clear -Hg.
      induction Hg as [|x k Hk IH Hf]; [constructor|]. rewrite reverse_cons. apply StronglySorted_app. split_and!; [|done|repeat constructor].
      intros y z Hy ->%list_elem_of_singleton. rewrite elem_of_reverse in Hy. rewrite Forall_forall in Hf. by apply Hf in Hy.
Qed.

(** *** The text with its detections replaced, from left to right *)

Fixpoint weave (pos : nat) (ds : list Detection) : string :=
  match ds with
  | [] => dropBytes pos text
  | d :: ds => textAt text pos (DStart d) +:+ placeholderOf (DPattern d) +:+ weave (DEnd d) ds
  end.

Lemma take_textAt a b : (a ≤ b)%nat → takeBytes a text +:+ textAt text a b = takeBytes b text.
Proof.
  unfold textAt. revert a b. induction text as [|c s IH]; intros [|a] b Hle.
  - by rewrite Nat.sub_0_r.
  - destruct b as [|b]; [done|]. simpl. by destruct (b - a)%nat.
  - by rewrite Nat.sub_0_r.
  - destruct b as [|b]; [lia|]. simpl. rewrite string_app_cons. f_equal. apply IH. lia.
Qed.

Lemma takeBytes_app_le n s t : (n ≤ String.length s)%nat → takeBytes n (s +:+ t) = takeBytes n s.
Proof.
  revert n. induction s as [|c s IH]; intros [|n] Hn; simpl in Hn; try lia.
  - by destruct t.
  - by rewrite string_app_cons.
  - rewrite string_app_cons. simpl. f_equal. apply IH. lia.
Qed.

Lemma foldr_replace ds pos : StronglySorted Before ds → Forall (spanOK text) ds → Forall (λ d, pos ≤ DStart d)%nat ds →
  (pos ≤ String.length text)%nat →
  foldr (λ d t, replaceAt t d) text ds = takeBytes pos text +:+ weave pos ds.
Proof.
  intros Hs. revert pos. induction Hs as [|d ds Hs IH Hf]; intros pos Ho Hp Hlen; simpl.
  { by rewrite take_drop_bytes. }
  apply Forall_cons in Ho as [Hd Ho]. apply Forall_cons in Hp as [Hpd Hp]. unfold spanOK in Hd.
  rewrite (IH (DEnd d)) by (done || lia). unfold replaceAt.
  assert (Hl : String.length (takeBytes (DEnd d) text) = DEnd d) by (apply takeBytes_length; lia).
  rewrite takeBytes_app_le by lia. rewrite takeBytes_takeBytes by lia.
  assert (Hd' : dropBytes (DEnd d) (takeBytes (DEnd d) text +:+ weave (DEnd d) ds) = weave (DEnd d) ds).
  { rewrite <- Hl at 1. apply dropBytes_app. }
  rewrite Hd', <- (take_textAt pos (DStart d)) by done. by rewrite <- string_app_assoc.
Qed.

Lemma Redact_weave ds : StronglySorted Before ds → Forall (spanOK text) ds → Redact text ds = weave 0 ds.
Proof.
  intros Hs Ho. unfold Redact. case_bool_decide as He; [subst; simpl; by destruct text|].
  rewrite resolveOverlaps_apart by done. rewrite sort_reverse by done.
  assert (Hfold : ∀ t, foldl replaceAt t (reverse ds) = foldr (λ d t, replaceAt t d) t ds).
  { clear. induction ds as [|d ds IH]; intros t; [done|]. rewrite reverse_cons, foldl_app, IH. done. }
  rewrite Hfold. rewrite (foldr_replace ds 0); [|done|done|apply Forall_forall; lia|lia]. by destruct text.
Qed.
End sorted.

(** ** The detector and the redactor together *)

Section correct.
Context `{SliceSortLaws}.

Lemma scanAll_inv ps text : scanInv ps text (foldl (scanPattern text) (∅, []) ps).
Proof. apply scan_inv; [done|apply scanInv_empty]. Qed.

Lemma Scan_Before ps text : StronglySorted Before (Scan ps text) ∧ Forall (spanOK text) (Scan ps text) ∧ Forall (found ps text) (Scan ps text).
Proof.
  unfold Scan. case_bool_decide; [split_and!; constructor|]. destruct (scanAll_inv ps text) as [_ Ha Hs Hf].
  split_and!.
  - by apply (sort_Before text startLe).
  - rewrite sort_perm. exact Hs.
  - rewrite sort_perm. exact Hf.
Qed.

Lemma elem_of_Scan ps text d : text ≠ "" → d ∈ Scan ps text ↔ d ∈ scanAll ps text.
Proof. intros Ht. unfold Scan. rewrite bool_decide_false by done. by rewrite sort_perm. Qed.

(** C26. For every text and every choice of patterns, the detections are matches of enabled
    patterns that pass the pattern's check, in the order of the text and apart from one
    another; and every such match is among them or overlaps one of a pattern of at
    least its priority, so nothing is missed but what is reported otherwise. *)
Theorem pii_scan_exact (ps : list PatternDef) (text : string) :
  StronglySorted Before (Scan ps text) ∧
  (∀ d, d ∈ Scan ps text → spanOK text d ∧ found ps text d) ∧
  (∀ pre p post loc, ps = pre ++ p :: post → loc ∈ FindAllStringIndex (Regex p) text → valid p (textAt text loc.1 loc.2) = true →
     ∃ d, d ∈ Scan ps text ∧ overlaps loc d ∧ found (pre ++ [p]) text d).
Proof.
  destruct (Scan_Before ps text) as (Hb & Hs & Hf). split_and!; [done| |].
  { intros d Hd. rewrite Forall_forall in Hs, Hf. auto. }
  intros pre p post loc Hps Hl Hv.
  assert (Ht : text ≠ "") by (intros ->; destruct loc; apply FindAll_span in Hl; simpl in Hl; lia).
  pose proof (scan_inv (pre ++ [p]) text pre (∅, []) ltac:(set_solver) (scanInv_empty _ _)) as Hpre.
  destruct (scanMatches_tried (pre ++ [p]) text p (FindAllStringIndex (Regex p) text) _ loc Hpre ltac:(set_solver) (λ _ H, H) Hl Hv)
    as (d & Hd & Ho).
  assert (Hin : d ∈ (foldl (scanPattern text) (∅, []) (pre ++ [p])).2) by (by rewrite foldl_app).
  pose proof (inv_found _ _ _ (scanAll_inv (pre ++ [p]) text)) as Hfound. rewrite Forall_forall in Hfound.
  exists d. split_and!; [|done|by apply Hfound]. apply elem_of_Scan; [done|]. unfold scanAll.
  rewrite Hps. replace (pre ++ p :: post) with ((pre ++ [p]) ++ post) by (by rewrite <- app_assoc).
  rewrite foldl_app. by apply scan_mono.
Qed.

(** C27. Redacting the detections of a text, which replaces them from the last to the
    first in place, is writing the text from left to right with a placeholder for each
    detection and every other byte as it was. *)
Theorem pii_redact_exact (ps : list PatternDef) (text : string) :
  Redact text (Scan ps text) = weave text 0 (Scan ps text).
Proof. destruct (Scan_Before ps text) as (Hb & Hs & _). by apply Redact_weave. Qed.
End correct.

(** ** The scrubber *)

(** The value at a path through maps. *)
Fixpoint mapPath (v : any) (path : list string) : option any :=
  match path with
  | [] => Some v
  | k :: path => match v with AMap m => x ← any_get k m; mapPath x path | _ => None end
  end.

Section scrub.
Context `{SliceSort}.

Lemma any_get_scrub m k : match scrubValue (AMap m) with AMap m' => any_get k m' | _ => None end
  = (λ v, if isSensitive k then AStr redacted else scrubValue v) <$> any_get k m.
Proof. simpl. induction m as [|[k' v] m IH]; [done|]. simpl. case_decide as E; [by subst|]. apply IH. Qed.

Lemma mapPath_scrub v path k x : mapPath (scrubValue v) (path ++ [k]) = Some x → isSensitive k = true → x = AStr redacted.
Proof.
  revert v. induction path as [|k' path IH]; intros v Hx Hk.
  - destruct v as [|b|q|z|s|l|m]; try done. pose proof (any_get_scrub m k) as Hg. rewrite Hk in Hg.
    cbn [app mapPath] in Hx. destruct (scrubValue (AMap m)) as [| | | | | |m'] eqn:E; try done.
    destruct (any_get k m') as [y|]; [|done]. simpl in Hx. destruct (any_get k m); by simplify_eq/=.
  - destruct v as [|b|q|z|s|l|m]; try done. pose proof (any_get_scrub m k') as Hg.
    cbn [app mapPath] in Hx. destruct (scrubValue (AMap m)) as [| | | | | |m'] eqn:E; try done.
    destruct (any_get k' m') as [y|]; [|done]. simpl in Hx. destruct (any_get k' m) as [v|]; [|done]. simpl in Hg. simplify_eq.
    destruct (isSensitive k') eqn:Hk'; [|by eapply IH]. destruct path; done.
Qed.

Lemma Scrub_value m : scrubValue (AMap m) = AMap (Scrub m).
Proof. reflexivity. Qed.

(** In what the scrubber returns, every value under a sensitive key, in whatever case
    and however deep in nested maps, is the redaction mark; the keys are those of the
    original, and a text elsewhere in the maps is the original with its personal data
    replaced. *)
Theorem scrub_hides (m : list (string * any)) :
  (∀ path k x, mapPath (AMap (Scrub m)) (path ++ [k]) = Some x → isSensitive k = true → x = AStr redacted) ∧
  (Scrub m).*1 = m.*1 ∧
  (∀ k s, any_get k m = Some (AStr s) → isSensitive k = false →
     any_get k (Scrub m) = Some (AStr (Redact s (Scan (NewDetector []) s)))).
Proof.
  rewrite <- Scrub_value. split_and!.
  - intros path k x. apply mapPath_scrub.
  - unfold Scrub. simpl. induction m as [|[k v] m IH]; [done|]. simpl. f_equal. exact IH.
  - intros k s Hk Hs. pose proof (any_get_scrub m k) as Hg. rewrite Scrub_value, Hk, Hs in Hg. rewrite Hg. simpl. f_equal. f_equal.
    case_bool_decide as E; [|done]. by rewrite E.
Qed.
End scrub.

(** Lists are not looked into: a secret in a map in a list stays. *)
Theorem scrub_misses_lists `{SliceSort} : Scrub [("users", AList [AMap [("password", AStr "hunter2")]])] =
  [("users", AList [AMap [("password", AStr "hunter2")]])].
Proof. reflexivity. Qed.

(** The comment of [Redact] lets the longer of two overlapping detections win; the one
    that starts first does. *)
Theorem redact_prefers_the_first `{SliceSortLaws} :
  let short := {| DPattern := "ssn"; DMatch := "ab"; DStart := 0; DEnd := 2 |} in
  let long := {| DPattern := "email"; DMatch := "bcdef"; DStart := 1; DEnd := 6 |} in
  resolveOverlaps [short; long] = [short].
Proof.
  intros short long. unfold resolveOverlaps. rewrite bool_decide_false by (simpl; lia).
  assert (Hs : sortSlice overlapLe [short; long] = [short; long]).
  { pose proof (sort_perm overlapLe [short; long]) as HP. pose proof (sort_sorted overlapLe [short; long]) as HS.
    symmetry in HP. apply Permutation_length_2_inv in HP as [-> | HP]; [done|]. rewrite HP in HS.
    apply StronglySorted_inv in HS as [_ HF]. apply Forall_cons in HF as [HF _]. unfold overlapLe in HF. simpl in HF. lia. }
  by rewrite Hs.
Qed.

(** One mistyped digit never leaves a card number valid: doubling with the fold of two
    digits is one to one on the digits. *)
Lemma luhn_digit_inj alt d e rest : 0 ≤ d ≤ 9 → 0 ≤ e ≤ 9 →
  luhnSum alt (d :: rest) mod 10 = luhnSum alt (e :: rest) mod 10 → d = e.
Proof.
  intros Hd He Hm. cbn [luhnSum] in Hm.
  assert (Hi : ∀ x y z, 0 ≤ x ≤ 9 → 0 ≤ y ≤ 9 → (x + z) mod 10 = (y + z) mod 10 → x = y)
    by (intros x y z Hx Hy Hxy; Z.to_euclidean_division_equations; lia).
  destruct alt; [|by eapply Hi]. cbv zeta in Hm.
  repeat case_bool_decide; apply Hi in Hm; lia.
Qed.

Theorem luhn_detects_one_digit pre d e post : 0 ≤ d ≤ 9 → 0 ≤ e ≤ 9 → d ≠ e →
  luhnSum false (pre ++ d :: post) mod 10 = 0 → luhnSum false (pre ++ e :: post) mod 10 ≠ 0.
Proof.
  intros Hd He Hne H1 H2. apply Hne. generalize dependent false.
  enough (∀ b, luhnSum b (pre ++ d :: post) mod 10 = luhnSum b (pre ++ e :: post) mod 10 → d = e) as Hx
    by (intros b H1 H2; apply (Hx b); by rewrite H1, H2).
  induction pre as [|x pre IH]; intros b Hb; [by eapply luhn_digit_inj|].
  apply (IH (negb b)). cbn [app luhnSum] in Hb. revert Hb. generalize (luhnSum (negb b) (pre ++ d :: post)).
  generalize (luhnSum (negb b) (pre ++ e :: post)). intros u v Hb. Z.to_euclidean_division_equations. lia.
Qed.

(** ** Witnesses *)

Definition sample_text : string := "mail a.b@example.org or call 555-123-4567 today".

Lemma pii_scan_exact_witness :
  ∃ d, d ∈ @Scan mergeSlice (NewDetector []) sample_text ∧ overlaps (29, 41)%nat d.
Proof.
  destruct (@pii_scan_exact mergeSlice mergeSlice_laws (NewDetector []) sample_text) as (_ & _ & Hx).
  pose (p := default {| PName := ""; Regex := Eps; Placeholder := ""; Priority := 0; Validate := None |} (builtinPatterns PatternPhone)).
  destruct (Hx (take 3 (NewDetector [])) p (drop 4 (NewDetector [])) (29, 41)%nat) as (d & Hd & Ho & _).
  - reflexivity.
  - assert (HE : FindAllStringIndex (Regex p) sample_text = [(29, 41)%nat]) by (vm_compute; reflexivity).
    rewrite HE. left.
  - vm_compute. reflexivity.
  - exists d. split; [exact Hd|exact Ho].
Defined.

Lemma pii_redact_exact_witness :
  @Redact mergeSlice sample_text (@Scan mergeSlice (NewDetector []) sample_text) = "mail [EMAIL] or call [PHONE] today".
Proof.
  rewrite (@pii_redact_exact mergeSlice mergeSlice_laws (NewDetector []) sample_text). vm_compute. reflexivity.
Defined.
