(* ===== verification/Sql.v ===== *)
(** * Rows of the Postgres tables and batched deletes

    The statements the repository sends are text; what is modelled is their effect on
    rows.  A table maps the place of a row ([ctid]) to its columns.  Which rows a
    [LIMIT] without an order takes is the server's choice, and any statement may fail:
    both are a [Postgres], queried with the number of the statement, so that they may
    differ from one statement to the next.  A statement is atomic.  Used by [Lifecycle]
    (retention) and [Tenancy] (deletion of a tenant's data). *)
From S2P Require Import Prelude.

Inductive Col := CText (s : string) | CTime (t : Time).

#[global] Instance Col_eq_dec : EqDecision Col.
Proof. solve_decision. Defined.

Abbreviation Row := (gmap string Col).
Abbreviation Table := (gmap nat (gmap string Col)).

Record DB := { dbTables : gmap string Table; dbQueries : nat }.

(** A statement is executed, refused (connection, time limit, lock) with no effect, or
    executed without its row count becoming known. *)
Inductive ExecFault := Executed | Refused | Uncounted.

Class Postgres := {
  outcome : nat → ExecFault;
  pick : nat → nat → gset nat → gset nat
}.

(** [LIMIT n] takes [n] of the candidates, or all when there are fewer. *)
Class PickLaws `{Postgres} := {
  pick_subset k n s : pick k n s ⊆ s;
  pick_size k n s : size (pick k n s) = Nat.min n (size s)
}.

Inductive ExecResult := ExecFailed | RowsUnknown | RowsAffected (n : nat).

Section sql.
Context `{Postgres}.

Definition matching (P : Row → bool) (t : Table) : Table := filter (λ kv, P kv.2 = true) t.

(** [DELETE FROM name WHERE ctid IN (SELECT ctid FROM name WHERE P LIMIT limit)]. *)
Definition execDelete (name : string) (P : Row → bool) (limit : nat) (db : DB) : ExecResult * DB :=
  let k := dbQueries db in
  let with_ tables := {| dbTables := tables; dbQueries := S k |} in
  match outcome k, dbTables db !! name with
  | Refused, _ | _, None => (ExecFailed, with_ (dbTables db))
  | o, Some t =>
      let s := pick k limit (dom (matching P t)) in
      (match o with Uncounted => RowsUnknown | _ => RowsAffected (size s) end,
       with_ (<[name := filter (λ kv, kv.1 ∉ s) t]> (dbTables db)))
  end.

(** The loops around such a statement: repeat while [more] of the row count, adding the
    counts up.  [None] is a loop that has not ended. *)
Fixpoint deleteLoop (more : nat → bool) (name : string) (P : Row → bool) (limit fuel : nat) (total : Z) (db : DB) :
    option (option Z * Z * DB) :=
  match fuel with
  | O => None
  | S fuel =>
      match execDelete name P limit db with
      | (RowsAffected n, db') =>
          let total' := total + Z.of_nat n in
          if more n then deleteLoop more name P limit fuel total' db' else Some (Some total', total', db')
      | (_, db') => Some (None, total, db')
      end
  end.
End sql.

(** ** What a loop of deletes does *)

Lemma filter_not_in_delete (s : gset nat) (t : Table) : filter (λ kv, kv.1 ∉ s) t ⊆ t.
Proof. apply map_filter_subseteq. Qed.

Lemma matching_split P (t : Table) (s : gset nat) : s ⊆ dom (matching P t) →
  matching P (filter (λ kv, kv.1 ∉ s) t) = filter (λ kv, kv.1 ∉ s) (matching P t) ∧
  size (matching P t) = (size s + size (matching P (filter (λ kv, kv.1 ∉ s) t)))%nat.
Proof.
  intros Hs.
  assert (HE : matching P (filter (λ kv, kv.1 ∉ s) t) = filter (λ kv, kv.1 ∉ s) (matching P t)).
  { unfold matching. apply map_eq. intros i. apply option_eq. intros x. rewrite !map_lookup_filter_Some. simpl. tauto. }
  split; [done|]. rewrite HE, <- !(size_dom (D:=gset nat)).
  assert (HD : dom (filter (λ kv, kv.1 ∉ s) (matching P t)) = (dom (matching P t) ∖ s : gset nat)); [|rewrite HD].
  - apply set_eq. intros i. rewrite elem_of_difference, !elem_of_dom. unfold is_Some.
    split.
    + intros [x [Hx Hn]%map_lookup_filter_Some]. eauto.
    + intros [[x Hx] Hn]. exists x. by apply map_lookup_filter_Some.
  - rewrite size_difference by done. pose proof (subseteq_size _ _ Hs). lia.
Qed.

(** The rows lost between two states of a table satisfied the condition. *)
Definition lostOnly (P : Row → bool) (t t' : Table) : Prop :=
  t' ⊆ t ∧ ∀ i row, t !! i = Some row → t' !! i = None → P row = true.

Lemma lostOnly_refl P t : lostOnly P t t.
Proof. split; [done|]. intros i row H1 H2. congruence. Qed.

Lemma lostOnly_trans P t1 t2 t3 : lostOnly P t1 t2 → lostOnly P t2 t3 → lostOnly P t1 t3.
Proof.
  intros [H12 L12] [H23 L23]. split; [by trans t2|]. intros i row H1 H3.
  destruct (t2 !! i) as [row'|] eqn:E; [|by eapply L12].
  pose proof (lookup_weaken _ _ _ _ E H12). simplify_eq. by eapply L23.
Qed.

Lemma lostOnly_filter P (t : Table) (s : gset nat) : s ⊆ dom (matching P t) → lostOnly P t (filter (λ kv, kv.1 ∉ s) t).
Proof.
  intros Hs. split; [apply filter_not_in_delete|]. intros i row Hi Hn.
  apply map_lookup_filter_None in Hn as [?|Hn]; [congruence|]. specialize (Hn _ Hi). simpl in Hn.
  assert (His : i ∈ s) by (destruct (decide (i ∈ s)); tauto).
  apply Hs, elem_of_dom in His as [x Hx]. unfold matching in Hx. apply map_lookup_filter_Some in Hx as [Hx HP].
  by simplify_eq.
Qed.

Definition kept (P : Row → bool) (t : Table) : Table := filter (λ kv, P kv.2 = false) t.

Lemma lostOnly_none P (t : Table) t' : lostOnly P t t' → matching P t' = ∅ → t' = kept P t.
Proof.
  intros [Hs HL] Hm. apply map_eq. intros i. apply option_eq. intros row. unfold kept. rewrite map_lookup_filter_Some.
  split.
  - intros Hi. split; [by eapply lookup_weaken|]. simpl.
    destruct (P row) eqn:E; [|done]. exfalso.
    assert (HX : matching P t' !! i = Some row) by (apply map_lookup_filter_Some; done).
    rewrite Hm in HX. done.
  - intros [Hi HP]. simpl in HP. destruct (t' !! i) as [r'|] eqn:E; [f_equal; by eapply lookup_weaken in E; [|exact Hs]; simplify_eq|].
    specialize (HL _ _ Hi E). congruence.
Qed.

(** One of the tables is now [t], the others are as they were. *)
Definition setsTable (name : string) (t : Table) (db db' : DB) : Prop := dbTables db' = <[name := t]> (dbTables db).

Lemma size_matching P (t : Table) : (size (matching P t) ≤ size t)%nat.
Proof. apply map_subseteq_size, map_filter_subseteq. Qed.

Lemma kept_none (t : Table) : kept (λ _, false) t = t.
Proof. unfold kept. apply map_filter_id. done. Qed.

(** Every table lost only rows [E] selects for it, and no table came or went. *)
Definition purged (E : string → Row → bool) (db db' : DB) : Prop :=
  ∀ name, match dbTables db !! name, dbTables db' !! name with
          | Some t, Some t' => lostOnly (E name) t t'
          | None, None => True
          | _, _ => False
          end.

Lemma purged_refl E db db' : dbTables db' = dbTables db → purged E db db'.
Proof. intros HE name. rewrite HE. destruct (dbTables db !! name); [apply lostOnly_refl|done]. Qed.

Lemma purged_trans E db1 db2 db3 : purged E db1 db2 → purged E db2 db3 → purged E db1 db3.
Proof.
  intros H12 H23 name. specialize (H12 name). specialize (H23 name).
  destruct (dbTables db1 !! name), (dbTables db2 !! name), (dbTables db3 !! name); try done. by eapply lostOnly_trans.
Qed.

Lemma purged_set E name t t' db db' :
  dbTables db !! name = Some t → setsTable name t' db db' → lostOnly (E name) t t' → purged E db db'.
Proof.
  intros Ht Hs HL n. rewrite Hs. destruct (decide (n = name)) as [->|Hn].
  - by rewrite Ht, lookup_insert_eq.
  - rewrite lookup_insert_ne by done. destruct (dbTables db !! n); [apply lostOnly_refl|done].
Qed.

Lemma setsTable_lookup name t db db' n : setsTable name t db db' → n ≠ name → dbTables db' !! n = dbTables db !! n.
Proof. intros Hs Hn. rewrite Hs. by rewrite lookup_insert_ne. Qed.

Lemma setsTable_is_Some name t db db' n : setsTable name t db db' → is_Some (dbTables db !! n) → is_Some (dbTables db' !! n).
Proof. intros Hs Hn. rewrite Hs. destruct (decide (n = name)) as [->|]; [rewrite lookup_insert_eq; eauto|by rewrite lookup_insert_ne]. Qed.

Section loop.
Context `{PickLaws} (more : nat → bool) (limit : nat).
Context (more_pos : ∀ n, more n = true → (0 < n)%nat) (more_stop : ∀ n, more n = false → (n < limit)%nat).

Lemma deleteLoop_spec name P fuel total db t :
  dbTables db !! name = Some t → (size (matching P t) < fuel)%nat →
  ∃ r n db' t', deleteLoop more name P limit fuel total db = Some (r, n, db') ∧ setsTable name t' db db' ∧ lostOnly P t t' ∧
    (∀ z, r = Some z → z = total + Z.of_nat (size (matching P t)) ∧ t' = kept P t) ∧
    ((∀ k, outcome k = Executed) → is_Some r ∧ (dbQueries db' ≤ dbQueries db + S (size (matching P t)))%nat).
Proof.
  revert total db t. induction fuel as [|fuel IH]; intros total db t Ht Hf; [lia|].
  cbn [deleteLoop]. unfold execDelete. rewrite Ht.
  assert (Hrefl : setsTable name t db {| dbTables := dbTables db; dbQueries := S (dbQueries db) |})
    by (unfold setsTable; simpl; by rewrite insert_id).
  set (s := pick (dbQueries db) limit (dom (matching P t))).
  pose proof (pick_subset (dbQueries db) limit (dom (matching P t))) as Hs. fold s in Hs.
  pose proof (pick_size (dbQueries db) limit (dom (matching P t))) as Hz. fold s in Hz. rewrite size_dom in Hz.
  destruct (matching_split P t s Hs) as [_ Hsz]. pose proof (lostOnly_filter P t s Hs) as HL.
  set (t1 := filter (λ kv, kv.1 ∉ s) t) in *.
  destruct (outcome (dbQueries db)) eqn:Ho.
  - destruct (more (size s)) eqn:Em.
    + apply more_pos in Em.
      destruct (IH (total + Z.of_nat (size s)) {| dbTables := <[name := t1]> (dbTables db); dbQueries := S (dbQueries db) |} t1)
        as (r & n & db' & t' & -> & Hset & HL' & Hr & Hok); [simpl; by simplify_map_eq|lia|].
      exists r, n, db', t'. split_and!; [done| |by eapply lostOnly_trans| |].
      * unfold setsTable in *. rewrite Hset. simpl. by rewrite insert_insert_eq.
      * intros z Hz'. destruct (Hr z Hz') as [-> ->]. split; [lia|]. apply lostOnly_none; [by eapply lostOnly_trans|].
        unfold matching, kept. apply map_eq. intros i. rewrite lookup_empty. apply map_lookup_filter_None. right.
        intros x [_ Hx]%map_lookup_filter_Some. simpl in *. congruence.
      * intros Hall. destruct (Hok Hall) as [? Hq]. split; [done|]. simpl in Hq. lia.
    + apply more_stop in Em. eexists _, _, _, t1. split_and!; [reflexivity|done|done| |].
      * intros z [= <-]. assert (size (matching P t1) = 0)%nat as Hzero by lia.
        split; [lia|]. apply lostOnly_none; [done|]. by apply map_size_empty_inv.
      * intros _. split; [by eexists|]. simpl. lia.
  - eexists _, _, _, t. split_and!; [reflexivity|done|apply lostOnly_refl|done|]. intros Hall. congruence.
  - eexists _, _, _, t1. split_and!; [reflexivity|done|done|done|]. intros Hall. congruence.
Qed.

(** A loop over one table, present or not. *)
Lemma loop_table name P (E : string → Row → bool) db : E name = P →
  ∃ r n db', deleteLoop more name P limit (S (size (default ∅ (dbTables db !! name)))) 0 db = Some (r, n, db') ∧ purged E db db' ∧
    (∀ z, r = Some z → ∃ t, dbTables db !! name = Some t ∧ z = Z.of_nat (size (matching P t)) ∧ setsTable name (kept P t) db db') ∧
    ((∀ k, outcome k = Executed) → is_Some (dbTables db !! name) → is_Some r).
Proof.
  intros HE. destruct (dbTables db !! name) as [t|] eqn:Ht.
  - destruct (deleteLoop_spec name P (S (size t)) 0 db t Ht) as (r & n & db' & t' & HD & Hset & HL & Hr & Hok);
      [pose proof (size_matching P t); lia|].
    exists r, n, db'. split_and!; [done|by eapply purged_set; subst P| |].
    + intros z Hz. destruct (Hr z Hz) as [-> ->]. eauto.
    + intros Hall _. by destruct (Hok Hall).
  - assert (Hd : execDelete name P limit db = (ExecFailed, {| dbTables := dbTables db; dbQueries := S (dbQueries db) |})).
    { unfold execDelete. rewrite Ht. by destruct (outcome (dbQueries db)). }
    eexists _, _, _. split_and!; [cbn [deleteLoop]; rewrite Hd; reflexivity|by apply purged_refl|done|].
    intros _ [? [=]].
Qed.
End loop.

(** A server that takes the rows of a batch in order and never fails. *)
Definition plainPostgres : Postgres := {| outcome := λ _, Executed; pick := λ _ n s, list_to_set (take n (elements s)) |}.

Lemma plainPostgres_laws : @PickLaws plainPostgres.
Proof.
  split; intros k n s; cbn [pick plainPostgres].
  - intros i Hi%elem_of_list_to_set. apply elem_of_elements. rewrite <- (take_drop n (elements s)). apply elem_of_app. by left.
  - rewrite size_list_to_set; [|eapply sublist_NoDup; [apply (NoDup_elements s)|apply sublist_take]]. rewrite length_take. done.
Qed.
