(* ===== verification/Lifecycle.v ===== *)
(** * Retention (internal/lifecycle: purge.go, admin_handler.go)

    The purge of old runs, events, audit entries and usage records: the retention times
    from the environment, the cutoffs in 64-bit durations, the batched deletes over the
    tables of [Sql], the daily loop and the admin handler of the orchestrator. *)
From S2P Require Import Prelude GoPath GoStrings GoCalendar Access Sql.

(** ** Configuration *)

Record PurgeConfig := {
  RetentionRunsDays : Z;
  RetentionEventsDays : Z;
  RetentionAuditDays : Z;
  RetentionUsageDays : Z
}.

Record PurgeResult := { DeletedRuns : Z; DeletedEvents : Z; DeletedAudit : Z; DeletedUsage : Z }.

Definition batchSize : nat := 1000.

Definition envIntWithMinDefault (env : Environ) (key : string) (defaultVal minVal : Z) : Z :=
  if bool_decide (env key = "") then defaultVal
  else match Atoi (env key) with
       | None => defaultVal
       | Some val => if bool_decide (val < minVal) then minVal else val
       end.

Definition LoadPurgeConfig (env : Environ) : PurgeConfig := {|
  RetentionRunsDays := envIntWithMinDefault env "AGENTOS_RETENTION_RUNS_DAYS" 90 7;
  RetentionEventsDays := envIntWithMinDefault env "AGENTOS_RETENTION_EVENTS_DAYS" 30 7;
  RetentionAuditDays := envIntWithMinDefault env "AGENTOS_RETENTION_AUDIT_DAYS" 365 90;
  RetentionUsageDays := envIntWithMinDefault env "AGENTOS_RETENTION_USAGE_DAYS" 730 90
|}.

(** [now.Add(-time.Duration(days) * 24 * time.Hour)]: the products wrap at 64 bits. *)
Definition cutoff (now : Time) (days : Z) : Time :=
  now + int64_wrap (int64_wrap (int64_wrap (- days) * 24) * Hour).

(** ** The conditions of the deletes *)

Definition terminalStatuses : list string := ["completed"; "failed"; "canceled"].

(** The column of a run is text and is compared with the text of the cutoff. *)
Definition runExpired (cutoffStr : string) (row : Row) : bool :=
  match row !! "created_at", row !! "status" with
  | Some (CText at_), Some (CText status) =>
      bool_decide (String.compare at_ cutoffStr = Lt) && bool_decide (status ∈ terminalStatuses)
  | _, _ => false
  end.

Definition stampExpired (tsColumn : string) (cut : Time) (row : Row) : bool :=
  match row !! tsColumn with Some (CTime t) => bool_decide (t < cut) | _ => false end.

(** ** A purge *)

Section purge.
Context `{Postgres}.

(** One more round than the table has rows. *)
Definition rounds (name : string) (db : DB) : nat := S (size (default ∅ (dbTables db !! name))).

(** Go on while a batch was full. *)
Definition fullBatch (n : nat) : bool := negb (bool_decide (n < batchSize)%nat).

Definition batchDeleteRuns (cut : Time) (db : DB) : option (option Z * Z * DB) :=
  deleteLoop fullBatch "runs" (runExpired (formatRFC3339 cut)) batchSize (rounds "runs" db) 0 db.

Definition batchDeleteByTimestamp (table tsColumn : string) (cut : Time) (db : DB) : option (option Z * Z * DB) :=
  deleteLoop fullBatch table (stampExpired tsColumn cut) batchSize (rounds table db) 0 db.

Definition zeroResult : PurgeResult := {| DeletedRuns := 0; DeletedEvents := 0; DeletedAudit := 0; DeletedUsage := 0 |}.

(** The counts so far, the name of the step that failed, and the database. *)
Definition RunPurgeNow (now : Time) (cfg : PurgeConfig) (db : DB) : option (PurgeResult * option string * DB) :=
  '(runs, _, db) ← batchDeleteRuns (cutoff now (RetentionRunsDays cfg)) db;
  match runs with
  | None => Some (zeroResult, Some "purge runs", db)
  | Some runs =>
  '(events, _, db) ← batchDeleteByTimestamp "event_log" "created_at" (cutoff now (RetentionEventsDays cfg)) db;
  match events with
  | None => Some ({| DeletedRuns := runs; DeletedEvents := 0; DeletedAudit := 0; DeletedUsage := 0 |}, Some "purge events", db)
  | Some events =>
  '(audit, _, db) ← batchDeleteByTimestamp "audit_events" "created_at" (cutoff now (RetentionAuditDays cfg)) db;
  match audit with
  | None => Some ({| DeletedRuns := runs; DeletedEvents := events; DeletedAudit := 0; DeletedUsage := 0 |}, Some "purge audit", db)
  | Some audit =>
  '(usage, _, db) ← batchDeleteByTimestamp "usage_records" "recorded_at" (cutoff now (RetentionUsageDays cfg)) db;
  match usage with
  | None => Some ({| DeletedRuns := runs; DeletedEvents := events; DeletedAudit := audit; DeletedUsage := 0 |}, Some "purge usage", db)
  | Some usage =>
      Some ({| DeletedRuns := runs; DeletedEvents := events; DeletedAudit := audit; DeletedUsage := usage |}, None, db)
  end end end end.

(** The loop purges at the start and at each tick until it is stopped, whatever fails. *)
Definition StartPurgeLoop (cfg : PurgeConfig) (start : Time) (ticks : list Time) (db : DB) : option DB :=
  foldl (λ d now, db ← d; '(_, _, db') ← RunPurgeNow now cfg db; Some db') (Some db) (start :: ticks).

Inductive PurgeAnswer := PurgeError (status : Z) (code : string) (retryable : bool) | PurgeDone (r : PurgeResult).

Definition AdminPurgeHandler (cfg : PurgeConfig) (method : string) (now : Time) (db : DB) : option (PurgeAnswer * DB) :=
  if bool_decide (method ≠ "POST") then Some (PurgeError 405 "method_not_allowed" false, db)
  else '(r, err, db') ← RunPurgeNow now cfg db;
    Some (match err with Some _ => PurgeError 500 "purge_failed" true | None => PurgeDone r end, db').

(** The orchestrator's route; the handler is there with a Postgres backend. *)
Definition handleAdminPurge (cfg : option PurgeConfig) (ac : AuthContext) (method : string) (now : Time) (db : DB) :
    option (PurgeAnswer * DB) :=
  if negb (hasScope (Scopes ac) "tenants:admin") then Some (PurgeError 403 "forbidden" false, db)
  else match cfg with
       | None => Some (PurgeError 501 "not_implemented" false, db)
       | Some cfg => AdminPurgeHandler cfg method now db
       end.
End purge.

(** ** What a purge removes *)

(** Per table, the rows a purge is for. *)
Definition expiredRow (now : Time) (cfg : PurgeConfig) (name : string) : Row → bool :=
  if bool_decide (name = "runs") then runExpired (formatRFC3339 (cutoff now (RetentionRunsDays cfg)))
  else if bool_decide (name = "event_log") then stampExpired "created_at" (cutoff now (RetentionEventsDays cfg))
  else if bool_decide (name = "audit_events") then stampExpired "created_at" (cutoff now (RetentionAuditDays cfg))
  else if bool_decide (name = "usage_records") then stampExpired "recorded_at" (cutoff now (RetentionUsageDays cfg))
  else λ _, false.

Definition purgedTables : list string := ["runs"; "event_log"; "audit_events"; "usage_records"].

Section sound.
Context `{PickLaws}.

(** A purge of one table, present or not. *)
Lemma purge_table name P (E : string → Row → bool) db : E name = P →
  ∃ r n db', deleteLoop fullBatch name P batchSize (rounds name db) 0 db = Some (r, n, db') ∧ purged E db db' ∧
    (∀ z, r = Some z → ∃ t, dbTables db !! name = Some t ∧ z = Z.of_nat (size (matching P t)) ∧ setsTable name (kept P t) db db') ∧
    ((∀ k, outcome k = Executed) → is_Some (dbTables db !! name) → is_Some r).
Proof.
  apply (loop_table fullBatch batchSize); unfold fullBatch; intros n Hn.
  - apply negb_true_iff, bool_decide_eq_false in Hn. unfold batchSize in Hn. lia.
  - by apply negb_false_iff, bool_decide_eq_true in Hn.
Qed.

Definition countExpired (E : string → Row → bool) (db : DB) (name : string) : Z :=
  Z.of_nat (size (matching (E name) (default ∅ (dbTables db !! name)))).

(** A table done: the count and the rows are those of the database before the purge. *)
Definition tableDone (E : string → Row → bool) (db db1 db2 : DB) (name : string) (z : Z) : Prop :=
  ∃ t, dbTables db1 !! name = Some t ∧ z = Z.of_nat (size (matching (E name) t)) ∧ setsTable name (kept (E name) t) db1 db2.

Lemma tables_done E db0 db1 db2 db3 db4 zs :
  (∀ name, name ∉ purgedTables → E name = λ _, false) →
  tableDone E db0 db0 db1 "runs" zs.1.1.1 → tableDone E db0 db1 db2 "event_log" zs.1.1.2 →
  tableDone E db0 db2 db3 "audit_events" zs.1.2 → tableDone E db0 db3 db4 "usage_records" zs.2 →
  (∀ name t, dbTables db0 !! name = Some t → dbTables db4 !! name = Some (kept (E name) t)) ∧
  zs = (countExpired E db0 "runs", countExpired E db0 "event_log", countExpired E db0 "audit_events", countExpired E db0 "usage_records").
Proof.
  destruct zs as [[[z1 z2] z3] z4]. simpl.
  intros HE (t1 & H1 & -> & S1) (t2 & H2 & -> & S2) (t3 & H3 & -> & S3) (t4 & H4 & -> & S4).
  unfold setsTable in *. rewrite S1 in H2, S2. rewrite S2 in H3, S3. rewrite S3 in H4, S4.
  rewrite lookup_insert_ne in H2 by done. rewrite !lookup_insert_ne in H3 by done. rewrite !lookup_insert_ne in H4 by done.
  unfold countExpired. rewrite H1, H2, H3, H4. split; [|done].
  intros name t Ht. rewrite S4.
  destruct (decide (name ∈ purgedTables)) as [Hin|Hout].
  - unfold purgedTables in Hin. set_unfold in Hin. destruct_or!; subst name; simplify_map_eq; done.
  - rewrite !lookup_insert_ne by (intros <-; apply Hout; unfold purgedTables; set_solver). rewrite HE by done. by rewrite kept_none.
Qed.

Lemma expiredRow_other now cfg name : name ∉ purgedTables → expiredRow now cfg name = λ _, false.
Proof.
  intros Hn. unfold expiredRow. by rewrite !bool_decide_false by (intros ->; apply Hn; unfold purgedTables; set_solver).
Qed.

(** C14. Whatever statements the database refuses and whatever rows a batch takes, a purge
    ends; what is gone are rows of the four tables that ended (runs) and are older than
    their retention, no row is changed and no other table is touched; a purge that
    reports success removed all of them and reports their numbers; and it succeeds when
    no statement fails. *)
Theorem purge_sound (now : Time) (cfg : PurgeConfig) (db : DB) :
  let E := expiredRow now cfg in
  ∃ r err db', RunPurgeNow now cfg db = Some (r, err, db') ∧ purged E db db' ∧
    (err = None →
       r = {| DeletedRuns := countExpired E db "runs"; DeletedEvents := countExpired E db "event_log";
              DeletedAudit := countExpired E db "audit_events"; DeletedUsage := countExpired E db "usage_records" |} ∧
       ∀ name t, dbTables db !! name = Some t → dbTables db' !! name = Some (kept (E name) t)) ∧
    ((∀ k, outcome k = Executed) → (∀ name, name ∈ purgedTables → is_Some (dbTables db !! name)) → err = None).
Proof.
  intros E. unfold RunPurgeNow, batchDeleteRuns, batchDeleteByTimestamp.
  change (runExpired _) with (E "runs"). change (stampExpired _ (cutoff _ (RetentionEventsDays _))) with (E "event_log").
  change (stampExpired _ (cutoff _ (RetentionAuditDays _))) with (E "audit_events").
  change (stampExpired _ (cutoff _ (RetentionUsageDays _))) with (E "usage_records").
  destruct (purge_table "runs" _ E db (eq_refl (E "runs"))) as (r1 & n1 & db1 & -> & P1 & D1 & O1).
  change (mbind ?f (Some ?x)) with (f x). cbv beta iota.
  destruct r1 as [z1|];
    [|eexists _, _, _; split_and!; [reflexivity|done|done|]; intros Ho Ht; destruct (O1 Ho (Ht "runs" ltac:(unfold purgedTables; set_solver))) as [? [=]]].
  destruct (D1 z1 eq_refl) as (t1 & T1).
  destruct (purge_table "event_log" _ E db1 (eq_refl (E "event_log"))) as (r2 & n2 & db2 & -> & P2 & D2 & O2).
  change (mbind ?f (Some ?x)) with (f x). cbv beta iota. pose proof (purged_trans _ _ _ _ P1 P2) as P12.
  destruct r2 as [z2|].
  2: { eexists _, _, _; split_and!; [reflexivity|done|done|]. intros Ho Ht. destruct T1 as (_ & _ & S1).
       destruct (O2 Ho (setsTable_is_Some _ _ _ _ _ S1 (Ht "event_log" ltac:(unfold purgedTables; set_solver)))) as [? [=]]. }
  destruct (D2 z2 eq_refl) as (t2 & T2).
  destruct (purge_table "audit_events" _ E db2 (eq_refl (E "audit_events"))) as (r3 & n3 & db3 & -> & P3 & D3 & O3).
  change (mbind ?f (Some ?x)) with (f x). cbv beta iota. pose proof (purged_trans _ _ _ _ P12 P3) as P13.
  destruct r3 as [z3|].
  2: { eexists _, _, _; split_and!; [reflexivity|done|done|]. intros Ho Ht. destruct T1 as (_ & _ & S1), T2 as (_ & _ & S2).
       destruct (O3 Ho (setsTable_is_Some _ _ _ _ _ S2 (setsTable_is_Some _ _ _ _ _ S1 (Ht "audit_events" ltac:(unfold purgedTables; set_solver))))) as [? [=]]. }
  destruct (D3 z3 eq_refl) as (t3 & T3).
  destruct (purge_table "usage_records" _ E db3 (eq_refl (E "usage_records"))) as (r4 & n4 & db4 & -> & P4 & D4 & O4).
  change (mbind ?f (Some ?x)) with (f x). cbv beta iota. pose proof (purged_trans _ _ _ _ P13 P4) as P14.
  destruct r4 as [z4|].
  2: { eexists _, _, _; split_and!; [reflexivity|done|done|]. intros Ho Ht. destruct T1 as (_ & _ & S1), T2 as (_ & _ & S2), T3 as (_ & _ & S3).
       destruct (O4 Ho (setsTable_is_Some _ _ _ _ _ S3 (setsTable_is_Some _ _ _ _ _ S2 (setsTable_is_Some _ _ _ _ _ S1 (Ht "usage_records" ltac:(unfold purgedTables; set_solver)))))) as [? [=]]. }
  destruct (D4 z4 eq_refl) as (t4 & T4).
  destruct (tables_done E db db1 db2 db3 db4 (z1, z2, z3, z4)) as [Hk Hz];
    [apply expiredRow_other|by exists t1|by exists t2|by exists t3|by exists t4|]. injection Hz as -> -> -> ->.
  eexists _, _, _. split_and!; [reflexivity|done|done|done].
Qed.
End sound.

Lemma purged_mono (E E' : string → Row → bool) db db' : (∀ n row, E n row = true → E' n row = true) → purged E db db' → purged E' db db'.
Proof.
  intros HE HP name. specialize (HP name). destruct (dbTables db !! name), (dbTables db' !! name); try done.
  destruct HP as [Hs HL]. split; [done|]. eauto.
Qed.

(** The daily loop: however many ticks and faults, it goes on, and a row is only lost when
    it had expired at one of the passes. *)
Theorem purge_loop_sound `{PickLaws} cfg start ticks db :
  ∃ db', StartPurgeLoop cfg start ticks db = Some db' ∧
    purged (λ name row, existsb (λ now, expiredRow now cfg name row) (start :: ticks)) db db'.
Proof.
  unfold StartPurgeLoop. generalize (start :: ticks) as nows. clear start ticks. intros nows. revert db.
  induction nows as [|now nows IH] using rev_ind; intros db; [exists db; split; [done|by apply purged_refl]|].
  rewrite foldl_app. destruct (IH db) as (db1 & -> & HP). cbn [foldl].
  destruct (purge_sound now cfg db1) as (r & err & db2 & HR & HP2 & _). exists db2.
  change (mbind ?f (Some ?x)) with (f x). cbv beta. rewrite HR. split; [done|].
  eapply purged_trans; (eapply purged_mono; [|eassumption]); intros n row Hx; cbv beta; rewrite existsb_app; simpl in *.
  - by rewrite Hx.
  - rewrite Hx. apply orb_true_r.
Qed.

(** ** The cutoffs *)

(** 106751 days are the longest duration that fits 64 bits of nanoseconds. *)
Lemma cutoff_exact now days : 0 <= days <= 106751 → cutoff now days = now - days * Day.
Proof.
  intros Hd. unfold cutoff. rewrite (int64_wrap_id (- days)), (int64_wrap_id (- days * 24)), int64_wrap_id;
    unfold in_int64, Day, Hour, Minute, Second in *; lia.
Qed.

Lemma envInt_min env key def min : min <= def → min <= envIntWithMinDefault env key def min.
Proof.
  intros Hm. unfold envIntWithMinDefault. case_bool_decide; [done|]. destruct (Atoi (env key)); [|done].
  case_bool_decide; lia.
Qed.

Definition representable (cfg : PurgeConfig) : Prop :=
  RetentionRunsDays cfg <= 106751 ∧ RetentionEventsDays cfg <= 106751 ∧ RetentionAuditDays cfg <= 106751 ∧
  RetentionUsageDays cfg <= 106751.

Lemma stampExpired_age col now days row t : 0 <= days <= 106751 →
  stampExpired col (cutoff now days) row = true → row !! col = Some (CTime t) → t < now - days * Day.
Proof. intros Hd HE Hc. unfold stampExpired in HE. rewrite Hc, cutoff_exact in HE by done. by apply bool_decide_eq_true in HE. Qed.

(** Runs carry their time as text; comparing the texts is comparing the seconds. *)
Lemma runExpired_exact now days row t status : 0 <= days <= 106751 → inYears t → inYears (now - days * Day) →
  row !! "created_at" = Some (CText (formatRFC3339 t)) → row !! "status" = Some (CText status) →
  runExpired (formatRFC3339 (cutoff now days)) row = true ↔ t / Second < (now - days * Day) / Second ∧ status ∈ terminalStatuses.
Proof.
  intros Hd Ht Hn Hc Hs. unfold runExpired. rewrite Hc, Hs, cutoff_exact, formatRFC3339_compare by done.
  rewrite andb_true_iff, !bool_decide_eq_true, Z.compare_lt_iff. done.
Qed.

(** C38. With the settings read from the environment, whatever they are as long as the
    durations fit (106751 days), nothing younger than the documented minimum is removed:
    no event and no ended run of the last seven days, no audit entry and no usage record
    of the last ninety; and a run that has not ended is never removed. *)
Theorem retention_respected (env : Environ) (now : Time) (row : Row) (t : Time) :
  let cfg := LoadPurgeConfig env in
  representable cfg → inYears t → inYears (now - RetentionRunsDays cfg * Day) →
  (row !! "created_at" = Some (CTime t) → expiredRow now cfg "event_log" row = true → t < now - 7 * Day) ∧
  (row !! "created_at" = Some (CTime t) → expiredRow now cfg "audit_events" row = true → t < now - 90 * Day) ∧
  (row !! "recorded_at" = Some (CTime t) → expiredRow now cfg "usage_records" row = true → t < now - 90 * Day) ∧
  (row !! "created_at" = Some (CText (formatRFC3339 t)) → expiredRow now cfg "runs" row = true →
     t < now - 7 * Day ∧ ∃ status, row !! "status" = Some (CText status) ∧ status ∈ terminalStatuses).
Proof.
  intros cfg (Hr & He & Ha & Hu) Ht Hn.
  pose proof (envInt_min env "AGENTOS_RETENTION_RUNS_DAYS" 90 7 ltac:(lia)) as Mr.
  pose proof (envInt_min env "AGENTOS_RETENTION_EVENTS_DAYS" 30 7 ltac:(lia)) as Me.
  pose proof (envInt_min env "AGENTOS_RETENTION_AUDIT_DAYS" 365 90 ltac:(lia)) as Ma.
  pose proof (envInt_min env "AGENTOS_RETENTION_USAGE_DAYS" 730 90 ltac:(lia)) as Mu.
  change (7 <= RetentionRunsDays cfg) in Mr. change (7 <= RetentionEventsDays cfg) in Me.
  change (90 <= RetentionAuditDays cfg) in Ma. change (90 <= RetentionUsageDays cfg) in Mu.
  assert (0 < Day) by done. change (expiredRow now cfg "runs" row) with (runExpired (formatRFC3339 (cutoff now (RetentionRunsDays cfg))) row).
  clearbody cfg. split_and!; intros Hc HE.
  { apply (stampExpired_age "created_at" now (RetentionEventsDays cfg) row t) in HE; [nia|lia|done]. }
  { apply (stampExpired_age "created_at" now (RetentionAuditDays cfg) row t) in HE; [nia|lia|done]. }
  { apply (stampExpired_age "recorded_at" now (RetentionUsageDays cfg) row t) in HE; [nia|lia|done]. }
  destruct (row !! "status") as [[status|]|] eqn:Es; try (unfold runExpired in HE; rewrite Hc, Es in HE; done).
  destruct (proj1 (runExpired_exact now (RetentionRunsDays cfg) row t status ltac:(lia) Ht Hn Hc Es) HE) as [Hlt Hst].
  split; [|eauto]. enough (t < now - RetentionRunsDays cfg * Day) by nia.
  destruct (Z.lt_ge_cases t (now - RetentionRunsDays cfg * Day)) as [|Hge]; [done|].
  apply (Z.div_le_mono _ _ Second) in Hge; [lia|done].
Qed.

(** A longer retention overflows: asked to keep events for 200000 days, the purge removes
    every event there is, and those of the coming 36 years. *)
Theorem long_retention_purges_everything (now t : Time) (row : Row) (env : Environ) :
  env "AGENTOS_RETENTION_EVENTS_DAYS" = "200000" → row !! "created_at" = Some (CTime t) → t < now + 13500 * Day →
  expiredRow now (LoadPurgeConfig env) "event_log" row = true.
Proof.
  intros He Hc Ht. change (stampExpired "created_at" (cutoff now (RetentionEventsDays (LoadPurgeConfig env))) row = true).
  unfold stampExpired. rewrite Hc. apply bool_decide_eq_true. unfold LoadPurgeConfig. cbn [RetentionEventsDays].
  unfold envIntWithMinDefault. rewrite He.
  assert (HX : cutoff now 200000 = now + 1166744073709551616) by (unfold cutoff; f_equal; vm_compute; reflexivity).
  change (t < cutoff now 200000). rewrite HX. unfold Day, Hour, Minute, Second in Ht. lia.
Qed.

(** ** Witnesses *)

Definition sample_now : Time := 63844799345 * Second.
Definition event_row (t : Time) : Row := {["tenant_id" := CText "acme"; "created_at" := CTime t]}.
Definition run_row (t : Time) (status : string) : Row :=
  {["tenant_id" := CText "acme"; "created_at" := CText (formatRFC3339 t); "status" := CText status]}.

Definition sample_tables : DB := {|
  dbTables := {[
    "runs" := {[1%nat := run_row (sample_now - 91 * Day) "completed"; 2%nat := run_row (sample_now - 91 * Day) "running"]};
    "event_log" := {[4%nat := event_row (sample_now - 31 * Day); 5%nat := event_row (sample_now - 29 * Day)]};
    "audit_events" := ∅; "usage_records" := ∅]};
  dbQueries := 0 |}.

Lemma purge_sound_witness :
  ∃ db', @RunPurgeNow plainPostgres sample_now (LoadPurgeConfig no_env) sample_tables =
      Some ({| DeletedRuns := 1; DeletedEvents := 1; DeletedAudit := 0; DeletedUsage := 0 |}, None, db') ∧
    dbTables db' !! "event_log" = Some {[5%nat := event_row (sample_now - 29 * Day)]}.
Proof.
  destruct (@purge_sound plainPostgres plainPostgres_laws sample_now (LoadPurgeConfig no_env) sample_tables)
    as (r & err & db' & HR & _ & Hd & Ho).
  assert (err = None) as ->.
  { apply Ho; [done|]. intros name Hn%list_elem_of_In.
    assert (HF : forallb (λ n, bool_decide (is_Some (dbTables sample_tables !! n))) purgedTables = true) by (vm_compute; reflexivity).
    rewrite forallb_forall in HF. exact (proj1 (bool_decide_eq_true _) (HF _ Hn)). }
  destruct (Hd eq_refl) as [-> Hk]. exists db'. split.
  - rewrite HR. f_equal.
  - assert (HT : dbTables sample_tables !! "event_log" =
      Some {[4%nat := event_row (sample_now - 31 * Day); 5%nat := event_row (sample_now - 29 * Day)]}) by (vm_compute; reflexivity).
    rewrite (Hk "event_log" _ HT). vm_compute. reflexivity.
Defined.

Lemma retention_respected_witness :
  representable (LoadPurgeConfig no_env) ∧
  (expiredRow sample_now (LoadPurgeConfig no_env) "event_log" (event_row (sample_now - 31 * Day)) = true →
   sample_now - 31 * Day < sample_now - 7 * Day).
Proof.
  split; [vm_compute; intuition congruence|].
  apply (retention_respected no_env sample_now (event_row (sample_now - 31 * Day)) (sample_now - 31 * Day));
    [vm_compute; intuition congruence|vm_compute; intuition congruence|vm_compute; intuition congruence|reflexivity].
Defined.
