(* ===== verification/Tenancy.v ===== *)
(** * Tenants in Postgres, their deletion, and data requests

    internal/storage/postgres/tenant_store.go (the store and the removal of a tenant's
    rows), internal/tenants/api.go and delete.go (the handlers over it) and
    internal/compliance/delete.go and export.go (a tenant's own data requests) with their
    routes in agentorchestrator/server.go.  Rows and faults are those of [Sql]; the table
    of tenants is a map by its primary key. *)
From S2P Require Import Prelude GoPath GoStrings GoCalendar Access Sql.

(** ** Data *)

Record Tenant := {
  TenantID : string;
  Name : string;
  Slug : string;
  Plan : string;
  CreatedAt : Time;
  UpdatedAt : Time;
  DeletedAt : option Time
}.

Record TenantUpdate := { NewName : option string; NewPlan : option string }.

Record TenantMember := {
  MTenantID : string;
  MPrincipalID : string;
  MRole : string;
  MCreatedAt : Time;
  MUpdatedAt : Time
}.

Inductive StoreError := ErrTenantNotFound | ErrSlugConflict | ErrStore.

#[global] Instance StoreError_eq_dec : EqDecision StoreError.
Proof. solve_decision. Defined.

(** The other tables, and the table of tenants. *)
Record TenantDB := { base_ : DB; rows : gmap string Tenant }.

Definition queries (s : TenantDB) : nat := dbQueries (base_ s).

Definition asked (s : TenantDB) : TenantDB :=
  {| base_ := {| dbTables := dbTables (base_ s); dbQueries := S (queries s) |}; rows := rows s |}.

Definition setRows (r : gmap string Tenant) (s : TenantDB) : TenantDB := {| base_ := base_ s; rows := r |}.
Definition setBase (d : DB) (s : TenantDB) : TenantDB := {| base_ := d; rows := rows s |}.

(** The zero [time.Time] is the origin of [Time]. *)
Definition orNow (t now : Time) : Time := if bool_decide (t = 0) then now else t.

(** ** Recognising a unique violation *)

Fixpoint searchString (s sub : string) : bool :=
  String.prefix sub s || match s with EmptyString => false | String _ s' => searchString s' sub end.

Definition contains (s substr : string) : bool :=
  bool_decide (String.length substr ≤ String.length s)%nat && searchString s substr.

Definition isUniqueViolation (err : string) : bool := contains err "duplicate key" || contains err "23505".

(** What the server answers to a row that is there already. *)
Definition duplicateError : string := "pq: duplicate key value violates unique constraint".

(** ** The store *)

Section store.
Context `{Postgres} (refusal : nat → string) `{SliceSort}.

Definition slugTaken (slug : string) (r : gmap string Tenant) : Prop := ∃ id t, r !! id = Some t ∧ Slug t = slug.

#[global] Instance slugTaken_dec slug r : base.Decision (slugTaken slug r).
Proof.
  refine (cast_if (decide (Exists (λ kv : string * Tenant, Slug kv.2 = slug) (map_to_list r)))); rewrite Exists_exists in *.
  - destruct e as ([id t] & Hin & Hs). exists id, t. by rewrite elem_of_map_to_list in Hin.
  - intros (id & t & Hl & Hs). apply n. exists (id, t). by rewrite elem_of_map_to_list.
Defined.

(** [Create], at the time [now]. *)
Definition Create (now : Time) (tenant : Tenant) (s : TenantDB) : option StoreError * TenantDB :=
  let created := orNow (CreatedAt tenant) now in
  let row := {| TenantID := TenantID tenant; Name := Name tenant; Slug := Slug tenant; Plan := Plan tenant;
                CreatedAt := created; UpdatedAt := orNow (UpdatedAt tenant) created; DeletedAt := None |} in
  let failed err := if isUniqueViolation err then ErrSlugConflict else ErrStore in
  match outcome (queries s) with
  | Refused => (Some (failed (refusal (queries s))), asked s)
  | _ =>
      if decide (is_Some (rows s !! TenantID tenant) ∨ slugTaken (Slug tenant) (rows s)) then (Some (failed duplicateError), asked s)
      else (None, setRows (<[TenantID tenant := row]> (rows s)) (asked s))
  end.

Definition live (tenantID : string) (s : TenantDB) : option Tenant :=
  t ← rows s !! tenantID; if DeletedAt t is Some _ then None else Some t.

Definition Get (tenantID : string) (s : TenantDB) : (StoreError + Tenant) * TenantDB :=
  if bool_decide (tenantID = "") then (inl ErrTenantNotFound, s)
  else match outcome (queries s) with
       | Refused => (inl ErrStore, asked s)
       | _ => (match live tenantID s with Some t => inr t | None => inl ErrTenantNotFound end, asked s)
       end.

(** [UPDATE tenants SET ... WHERE tenant_id = $1 AND deleted_at IS NULL]. *)
Definition updateLive (f : Tenant → Tenant) (tenantID : string) (s : TenantDB) : option StoreError * TenantDB :=
  if bool_decide (tenantID = "") then (Some ErrTenantNotFound, s)
  else match outcome (queries s), live tenantID s with
       | Refused, _ | Uncounted, None => (Some ErrStore, asked s)
       | Uncounted, Some t => (Some ErrStore, setRows (<[tenantID := f t]> (rows s)) (asked s))
       | Executed, None => (Some ErrTenantNotFound, asked s)
       | Executed, Some t => (None, setRows (<[tenantID := f t]> (rows s)) (asked s))
       end.

Definition Update (now : Time) (tenantID : string) (u : TenantUpdate) : TenantDB → option StoreError * TenantDB :=
  updateLive (λ t, {| TenantID := TenantID t; Name := default (Name t) (NewName u); Slug := Slug t; Plan := default (Plan t) (NewPlan u);
                      CreatedAt := CreatedAt t; UpdatedAt := now; DeletedAt := DeletedAt t |}) tenantID.

Definition Delete (now : Time) (tenantID : string) : TenantDB → option StoreError * TenantDB :=
  updateLive (λ t, {| TenantID := TenantID t; Name := Name t; Slug := Slug t; Plan := Plan t;
                      CreatedAt := CreatedAt t; UpdatedAt := UpdatedAt t; DeletedAt := Some now |}) tenantID.

Definition newestTenant (a b : Tenant) : Prop := CreatedAt b <= CreatedAt a.

#[global] Instance newestTenant_dec a b : base.Decision (newestTenant a b).
Proof. unfold newestTenant. apply _. Defined.

Definition List_ (s : TenantDB) : (StoreError + list Tenant) * TenantDB :=
  match outcome (queries s) with
  | Refused => (inl ErrStore, asked s)
  | _ => (inr (take 1000 (sortSlice newestTenant (filter (λ t, DeletedAt t = None) (map_to_list (rows s)).*2))), asked s)
  end.

(** The roles the table's check constraint accepts are those of [ValidRole]. *)
Definition memberKey (tenantID principalID : string) (row : Row) : Prop :=
  row !! "tenant_id" = Some (CText tenantID) ∧ row !! "principal_id" = Some (CText principalID).

#[global] Instance memberKey_dec t p row : base.Decision (memberKey t p row).
Proof. unfold memberKey. apply _. Defined.

Definition memberRow (m : TenantMember) (created updated : Time) : Row :=
  {["tenant_id" := CText (MTenantID m); "principal_id" := CText (MPrincipalID m); "role" := CText (MRole m);
    "created_at" := CTime created; "updated_at" := CTime updated]}.

(** Insert, or update the role of the row with the same key. *)
Definition AddMember (now : Time) (m : TenantMember) (s : TenantDB) : option StoreError * TenantDB :=
  let created := orNow (MCreatedAt m) now in
  let updated := orNow (MUpdatedAt m) created in
  match outcome (queries s), dbTables (base_ s) !! "tenant_members" with
  | Refused, _ | _, None => (Some ErrStore, asked s)
  | _, Some t =>
      if negb (ValidRole (MRole m)) then (Some ErrStore, asked s)
      else
        let t' := match head (map_to_list (filter (λ kv, memberKey (MTenantID m) (MPrincipalID m) kv.2) t)) with
                  | Some (i, row) => <[i := <["role" := CText (MRole m)]> (<["updated_at" := CTime updated]> row)]> t
                  | None => <[fresh (dom t) := memberRow m created updated]> t
                  end in
        (None, setBase {| dbTables := <["tenant_members" := t']> (dbTables (base_ s)); dbQueries := S (queries s) |} s)
  end.

(** ** Removing a tenant's rows *)

Definition tenantDataTables : list string :=
  ["runs"; "agents"; "audit_events"; "usage_records"; "conversation_memory"; "kv_store"; "event_log"; "api_keys"; "tenant_members"].

Definition ofTenant (tenantID : string) (row : Row) : bool := bool_decide (row !! "tenant_id" = Some (CText tenantID)).

(** Until a batch of a table is empty, one table after the other. *)
Definition notEmpty (n : nat) : bool := negb (bool_decide (n = 0%nat)).

Fixpoint deleteTables (tenantID : string) (tables : list string) (d : DB) : option (option string * DB) :=
  match tables with
  | [] => Some (None, d)
  | table :: tables =>
      '(r, _, d) ← deleteLoop notEmpty table (ofTenant tenantID) 1000 (S (size (default ∅ (dbTables d !! table)))) 0 d;
      if r is Some _ then deleteTables tenantID tables d else Some (Some table, d)
  end.

(** The error is the table it stopped at. *)
Definition DeleteAllData (tenantID : string) (s : TenantDB) : option (option string * TenantDB) :=
  '(err, d) ← deleteTables tenantID tenantDataTables (base_ s);
  let s := setBase d s in
  match err with
  | Some table => Some (Some table, s)
  | None =>
      match outcome (queries s) with
      | Refused => Some (Some "tenants", asked s)
      | _ => Some (None, setRows (delete tenantID (rows s)) (asked s))
      end
  end.
End store.

(** ** The tenant handlers (internal/tenants) *)

Record createRequest := { rqName : string; rqSlug : string; rqPlan : string }.

(** What the handlers read of a request: the authenticated identity when there is one,
    the path, a header, the correlation id and the body each of them decodes. *)
Record TRequest := {
  tAuth : option AuthContext;
  tPath : string;
  tConfirm : string;
  tCID : string;
  tCreate : option createRequest;
  tUpdate : option TenantUpdate;
  tRandom : list ascii;
  tNow : Time
}.

Record tenantResponse := {
  rsTenantID : string; rsName : string; rsSlug : string; rsPlan : string;
  rsCreatedAt : string; rsUpdatedAt : string; rsDeletedAt : option string
}.

Definition toResponse (t : Tenant) : tenantResponse := {|
  rsTenantID := TenantID t; rsName := Name t; rsSlug := Slug t; rsPlan := Plan t;
  rsCreatedAt := formatRFC3339 (CreatedAt t); rsUpdatedAt := formatRFC3339 (UpdatedAt t);
  rsDeletedAt := formatRFC3339 <$> DeletedAt t
|}.

Inductive TAnswer :=
  | TError (status : Z) (code : string) (retryable : bool)
  | TTenant (status : Z) (r : tenantResponse)
  | TScheduled (tenantID : string).

Definition extractTenantID (path : string) : string :=
  match splitChar "/" (TrimPrefix path "/") with
  | "v1" :: "tenants" :: id :: _ => id
  | _ => ""
  end.

(** The first [n] hex digits of enough random bytes. *)
Definition randomHex (raw : list ascii) (n : nat) : string := takeBytes n (EncodeToString raw).

Record AuditEntry := {
  aTime : string; aTenantID : string; aPrincipalID : string; aAction : string; aResource : string;
  aOutcome : string; aCID : string; aError : option string (* the table the error is about *)
}.

Section handlers.
Context `{Postgres} (refusal : nat → string).

Definition principalOf (ac : AuthContext) : string := if bool_decide (PrincipalID ac = "") then "system" else PrincipalID ac.

Definition getAnswer (status : Z) (notFound : TAnswer) (r : StoreError + Tenant) : TAnswer :=
  match r with
  | inr t => TTenant status (toResponse t)
  | inl ErrTenantNotFound => notFound
  | inl _ => TError 500 "internal" true
  end.

Definition HandleCreate (r : TRequest) (s : TenantDB) : TAnswer * TenantDB :=
  match tAuth r with
  | None => (TError 401 "unauthorized" false, s)
  | Some ac =>
      match tCreate r with
      | None => (TError 400 "invalid_json" false, s)
      | Some req =>
          let name := TrimSpace (rqName req) in
          let slug := TrimSpace (rqSlug req) in
          let plan := TrimSpace (rqPlan req) in
          if bool_decide (name = "") then (TError 400 "missing_field" false, s)
          else if bool_decide (slug = "") then (TError 400 "missing_field" false, s)
          else
            let plan := if bool_decide (plan = "") then "starter" else plan in
            let tenantID := "tnt_" +:+ slug +:+ "_" +:+ randomHex (tRandom r) 8 in
            let tenant := {| TenantID := tenantID; Name := name; Slug := slug; Plan := plan;
                             CreatedAt := tNow r; UpdatedAt := tNow r; DeletedAt := None |} in
            match Create refusal (tNow r) tenant s with
            | (Some ErrSlugConflict, s) => (TError 409 "slug_conflict" false, s)
            | (Some _, s) => (TError 500 "internal" true, s)
            | (None, s) =>
                let '(_, s) := AddMember (tNow r) {| MTenantID := tenantID; MPrincipalID := principalOf ac; MRole := "owner";
                                                     MCreatedAt := tNow r; MUpdatedAt := tNow r |} s in
                (TTenant 201 (toResponse tenant), s)
            end
      end
  end.

Definition HandleGet (r : TRequest) (s : TenantDB) : TAnswer * TenantDB :=
  match tAuth r with
  | None => (TError 401 "unauthorized" false, s)
  | Some _ =>
      let tenantID := extractTenantID (tPath r) in
      if bool_decide (tenantID = "") then (TError 400 "missing_field" false, s)
      else let '(res, s) := Get tenantID s in (getAnswer 200 (TError 404 "not_found" false) res, s)
  end.

Definition HandleUpdate (r : TRequest) (s : TenantDB) : TAnswer * TenantDB :=
  match tAuth r with
  | None => (TError 401 "unauthorized" false, s)
  | Some _ =>
      let tenantID := extractTenantID (tPath r) in
      if bool_decide (tenantID = "") then (TError 400 "missing_field" false, s)
      else match tUpdate r with
      | None => (TError 400 "invalid_json" false, s)
      | Some body =>
          match Update (tNow r) tenantID body s with
          | (Some ErrTenantNotFound, s) => (TError 404 "not_found" false, s)
          | (Some _, s) => (TError 500 "internal" true, s)
          | (None, s) => let '(res, s) := Get tenantID s in (getAnswer 200 (TError 500 "internal" true) res, s)
          end
      end
  end.

(** The deletion: the answer, the store, the audit entries written, and the background
    deletion that was started (there is one with a database). *)
Definition HandleDelete (hasAudit hasDB : bool) (r : TRequest) (s : TenantDB) :
    TAnswer * TenantDB * list AuditEntry * option (string * string * string) :=
  match tAuth r with
  | None => (TError 401 "unauthorized" false, s, [], None)
  | Some ac =>
      let tenantID := extractTenantID (tPath r) in
      if bool_decide (tenantID = "") then (TError 400 "missing_field" false, s, [], None)
      else if bool_decide (TrimSpace (tConfirm r) ≠ "DELETE " +:+ tenantID) then (TError 400 "confirmation_required" false, s, [], None)
      else match Get tenantID s with
      | (inl ErrTenantNotFound, s) => (TError 404 "not_found" false, s, [], None)
      | (inl _, s) => (TError 500 "internal" true, s, [], None)
      | (inr _, s) =>
          match Delete (tNow r) tenantID s with
          | (Some ErrTenantNotFound, s) => (TError 404 "not_found" false, s, [], None)
          | (Some _, s) => (TError 500 "internal" true, s, [], None)
          | (None, s) =>
              (TScheduled tenantID, s,
               if hasAudit then [{| aTime := formatRFC3339 (tNow r); aTenantID := "system"; aPrincipalID := principalOf ac;
                                    aAction := "tenant.delete.scheduled"; aResource := tenantID; aOutcome := "accepted";
                                    aCID := tCID r; aError := None |}] else [],
               if hasDB then Some (tenantID, principalOf ac, tCID r) else None)
          end
      end
  end.

(** The background deletion; its time limit is one of the reasons a statement fails. *)
Definition runAsyncDeletion (hasAudit : bool) (now : Time) (job : string * string * string) (s : TenantDB) :
    option (TenantDB * list AuditEntry) :=
  let '(tenantID, principalID, cid) := job in
  '(err, s) ← DeleteAllData tenantID s;
  let entry action outcome_ e := {| aTime := formatRFC3339 now; aTenantID := "system"; aPrincipalID := principalID; aAction := action;
                                    aResource := tenantID; aOutcome := outcome_; aCID := cid; aError := e |} in
  Some (s, if hasAudit then [match err with
                             | Some table => entry "tenant.delete.failed" "error" (Some table)
                             | None => entry "tenant.delete.completed" "success" None
                             end] else []).
End handlers.

(** ** Deleting a tenant removes that tenant *)

Definition tenantRows (T : list string) (id : string) (name : string) (row : Row) : bool :=
  bool_decide (name ∈ T) && ofTenant id row.

Section deletion.
Context `{PickLaws} (refusal : nat → string).

Lemma table_loop id T name d : name ∈ T →
  ∃ r n d', deleteLoop notEmpty name (ofTenant id) 1000 (S (size (default ∅ (dbTables d !! name)))) 0 d = Some (r, n, d') ∧
    purged (tenantRows T id) d d' ∧
    (∀ z, r = Some z → ∃ t, dbTables d !! name = Some t ∧ z = Z.of_nat (size (matching (ofTenant id) t)) ∧
                            setsTable name (kept (ofTenant id) t) d d') ∧
    ((∀ k, outcome k = Executed) → is_Some (dbTables d !! name) → is_Some r).
Proof.
  intros Hin. destruct (loop_table notEmpty 1000) with (name := name) (P := tenantRows T id name) (E := tenantRows T id) (db := d)
    as (r & n & d' & HD & HR); [| |done|].
  - unfold notEmpty. intros n Hn%negb_true_iff%bool_decide_eq_false. lia.
  - unfold notEmpty. intros n Hn%negb_false_iff%bool_decide_eq_true. lia.
  - unfold tenantRows in HD, HR at 2 3. rewrite bool_decide_true in HD, HR by done. by exists r, n, d'.
Qed.

Lemma deleteTables_spec id T tables d : NoDup tables → (∀ n, n ∈ tables → n ∈ T) →
  ∃ err d', deleteTables id tables d = Some (err, d') ∧ purged (tenantRows T id) d d' ∧
    (err = None → ∀ name t, dbTables d !! name = Some t →
       dbTables d' !! name = Some (if decide (name ∈ tables) then kept (ofTenant id) t else t)) ∧
    ((∀ k, outcome k = Executed) → (∀ n, n ∈ tables → is_Some (dbTables d !! n)) → err = None).
Proof.
  revert d. induction tables as [|table tables IH]; intros d Hnd Hsub.
  { eexists _, _. split_and!; [reflexivity|by apply purged_refl|done|done]. }
  apply NoDup_cons in Hnd as [Hni Hnd]. cbn [deleteTables].
  destruct (table_loop id T table d) as (r & n & d1 & -> & P1 & D1 & O1); [apply Hsub; by left|].
  change (mbind ?f (Some ?x)) with (f x). cbv beta iota. destruct r as [z|].
  2: { eexists _, _. split_and!; [reflexivity|done|done|]. intros Ho Hp. destruct (O1 Ho (Hp table ltac:(by left))) as [? [=]]. }
  destruct (D1 z eq_refl) as (t1 & Ht1 & _ & S1).
  destruct (IH d1 Hnd) as (err & d' & -> & P2 & D2 & O2); [intros; apply Hsub; by right|].
  eexists _, _. split_and!; [reflexivity|by eapply purged_trans| |].
  - intros -> name t Hn. destruct (decide (name = table)) as [->|Hne].
    + rewrite Ht1 in Hn. injection Hn as <-. rewrite (D2 eq_refl table (kept (ofTenant id) t1)); [|rewrite S1; by rewrite lookup_insert_eq].
      rewrite (decide_False (P := table ∈ tables)) by done. by rewrite decide_True by left.
    + rewrite (D2 eq_refl name t); [|by rewrite (setsTable_lookup _ _ _ _ _ S1)].
      f_equal. destruct (decide (name ∈ tables)); [by rewrite decide_True by (by right)|].
      rewrite decide_False; [done|]. by rewrite not_elem_of_cons.
  - intros Ho Hp. apply O2; [done|]. intros n' Hn'. eapply setsTable_is_Some; [exact S1|]. apply Hp. by right.
Qed.

Lemma DeleteAllData_spec id (s : TenantDB) :
  ∃ err s', DeleteAllData id s = Some (err, s') ∧ purged (tenantRows tenantDataTables id) (base_ s) (base_ s') ∧
    (err ≠ None → rows s' = rows s) ∧
    (err = None → rows s' = delete id (rows s) ∧ ∀ name t, dbTables (base_ s) !! name = Some t →
       dbTables (base_ s') !! name = Some (if decide (name ∈ tenantDataTables) then kept (ofTenant id) t else t)) ∧
    ((∀ k, outcome k = Executed) → (∀ n, n ∈ tenantDataTables → is_Some (dbTables (base_ s) !! n)) → err = None).
Proof.
  unfold DeleteAllData.
  destruct (deleteTables_spec id tenantDataTables tenantDataTables (base_ s)) as (err & d & -> & HP & HD & HO);
    [by apply (bool_decide_unpack _)|done|].
  change (mbind ?f (Some ?x)) with (f x). cbv beta iota zeta. destruct err as [table|].
  - eexists _, _. split_and!; [reflexivity|done|done|done|done].
  - destruct (outcome _) eqn:Eo; eexists _, _; (split_and!; [reflexivity|done| | |]); simpl; try done; try (intros; by auto).
    intros Hall. congruence.
Qed.

Lemma HandleDelete_scheduled ha hd r s id s1 log job : HandleDelete ha hd r s = (TScheduled id, s1, log, job) →
  dbTables (base_ s1) = dbTables (base_ s) ∧ id = extractTenantID (tPath r) ∧
  (∃ t, live id s = Some t ∧ ∃ t', DeletedAt t' = Some (tNow r) ∧ rows s1 = <[id := t']> (rows s)) ∧
  (hd = true → ∃ p c, job = Some (id, p, c)).
Proof.
  unfold HandleDelete. destruct (tAuth r) as [ac|]; [|done]. case_bool_decide as Hid; [done|]. case_bool_decide; [done|].
  unfold Get. rewrite bool_decide_false by done.
  destruct (outcome (queries s)) eqn:Eo; [|done|];
    (destruct (live (extractTenantID (tPath r)) s) as [t|] eqn:El; [|done]; unfold Delete, updateLive;
     rewrite bool_decide_false by done; change (live ?i (asked s)) with (live i s); rewrite El;
     destruct (outcome (queries (asked s))); try done; intros [= <- <- <- <-]; simpl; split_and!; try done;
     [exists t; split; [done|]; eexists; split; [|reflexivity]; done|intros ->; by eexists _, _]).
Qed.

(** C10. Once the deletion of a tenant is accepted, the tenant is no longer found; the
    background removal ends, whatever statements fail and whatever rows a batch takes,
    and takes rows of that tenant alone, from the nine tables it is for; no other tenant
    changes; and when no statement fails none of the tenant's rows is left in those
    tables and its record is gone. *)
Theorem tenant_deletion_exact (ha hd : bool) (r : TRequest) (s : TenantDB) (id : string) (s1 : TenantDB)
    (log : list AuditEntry) (p c : string) (now : Time) :
  HandleDelete ha hd r s = (TScheduled id, s1, log, Some (id, p, c)) →
  live id s1 = None ∧
  ∃ s2 log2, runAsyncDeletion ha now (id, p, c) s1 = Some (s2, log2) ∧
    purged (tenantRows tenantDataTables id) (base_ s) (base_ s2) ∧
    live id s2 = None ∧ (∀ id', id' ≠ id → rows s2 !! id' = rows s !! id') ∧
    ((∀ k, outcome k = Executed) → (∀ n, n ∈ tenantDataTables → is_Some (dbTables (base_ s) !! n)) →
       rows s2 = delete id (rows s) ∧
       ∀ name t, dbTables (base_ s) !! name = Some t →
         dbTables (base_ s2) !! name = Some (if decide (name ∈ tenantDataTables) then kept (ofTenant id) t else t)).
Proof.
  intros HD. apply HandleDelete_scheduled in HD as (Hb & _ & (t & _ & t' & Hdel & Hr1) & _).
  assert (HL1 : live id s1 = None) by (unfold live; rewrite Hr1, lookup_insert_eq; simpl; by rewrite Hdel).
  split; [done|]. unfold runAsyncDeletion.
  destruct (DeleteAllData_spec id s1) as (err & s2 & -> & HP & Herr & Hok & Hall). change (mbind ?f (Some ?x)) with (f x). cbv beta iota zeta.
  assert (Hrows : rows s2 = rows s1 ∨ rows s2 = delete id (rows s1)).
  { destruct err; [left; by apply Herr|right; by apply Hok]. }
  eexists s2, _. split_and!; [reflexivity| | | |].
  - intros name. specialize (HP name). by rewrite Hb in HP.
  - destruct Hrows as [Hr|Hr]; unfold live; rewrite Hr; [exact HL1|by rewrite lookup_delete_eq].
  - intros id' Hne. destruct Hrows as [Hr|Hr]; rewrite Hr; [|rewrite lookup_delete_ne by done]; by rewrite Hr1, lookup_insert_ne.
  - intros Ho Hp. rewrite Hb in *. destruct (Hok (Hall Ho Hp)) as [Hr Hk]. split; [|done].
    rewrite Hr, Hr1. by rewrite delete_insert_eq.
Qed.
End deletion.

(** The tables with a [tenant_id] column that the deletion is not for (migrations 3 to 9)
    keep the deleted tenant's rows. *)
Definition forgottenTables : list string :=
  ["agent_versions"; "agent_clearance"; "agent_decisions"; "agent_memory"; "knowledge_documents"; "elevation_requests"; "managed_agents"].

Theorem deletion_forgets_tables `{PickLaws} id s err s' name : DeleteAllData id s = Some (err, s') → name ∈ forgottenTables →
  dbTables (base_ s') !! name = dbTables (base_ s) !! name.
Proof.
  intros HD Hin. destruct (DeleteAllData_spec id s) as (e & s2 & HD' & HP & _). rewrite HD in HD'. injection HD' as <- <-.
  specialize (HP name).
  assert (Hni : name ∉ tenantDataTables).
  { intros Hn. assert (HF : forallb (λ n, bool_decide (n ∉ tenantDataTables)) forgottenTables = true) by (vm_compute; reflexivity).
    rewrite forallb_forall in HF. apply list_elem_of_In, HF, bool_decide_eq_true in Hin. done. }
  destruct (dbTables (base_ s) !! name) as [t|], (dbTables (base_ s') !! name) as [t'|]; try done. f_equal. destruct HP as [Hs HL].
  apply map_eq. intros i. destruct (t !! i) as [row|] eqn:Et.
  - destruct (t' !! i) as [row'|] eqn:Et'; [by eapply lookup_weaken in Et'; [|exact Hs]; simplify_eq|].
    specialize (HL i row Et Et'). unfold tenantRows in HL. by rewrite bool_decide_false in HL.
  - destruct (t' !! i) as [row'|] eqn:Et'; [by eapply lookup_weaken in Et'; [|exact Hs]; simplify_eq|done].
Qed.

(** Who asks does not matter: any authenticated principal of any tenant deletes any
    tenant whose name it puts into the confirmation header. *)
Definition withAuth (ac : AuthContext) (r : TRequest) : TRequest := {|
  tAuth := Some ac; tPath := tPath r; tConfirm := tConfirm r; tCID := tCID r; tCreate := tCreate r; tUpdate := tUpdate r;
  tRandom := tRandom r; tNow := tNow r |}.

Theorem deletion_ignores_the_caller `{Postgres} ac ac' hd r s :
  (HandleDelete false hd (withAuth ac r) s).1 = (HandleDelete false hd (withAuth ac' r) s).1.
Proof.
  unfold HandleDelete, withAuth. cbn [tAuth tPath tConfirm tNow tCID]. repeat case_bool_decide; try done.
  destruct (Get _ _) as [[[]|] s1]; try done. by destruct (Delete _ _ s1) as [[[]|] s2].
Qed.

(** ** The records stay consistent *)

Inductive TenantOp :=
  | OpCreate (r : TRequest) | OpGet (r : TRequest) | OpUpdate (r : TRequest) | OpDelete (r : TRequest)
  | OpPurge (job : string * string * string) (now : Time).

Definition tenantStep `{Postgres} (refusal : nat → string) (s : TenantDB) (op : TenantOp) : TenantDB :=
  match op with
  | OpCreate r => (HandleCreate refusal r s).2
  | OpGet r => (HandleGet r s).2
  | OpUpdate r => (HandleUpdate r s).2
  | OpDelete r => (HandleDelete true true r s).1.1.2
  | OpPurge job now => from_option fst s (runAsyncDeletion true now job s)
  end.

(** Rows are kept under their own id and no two share a slug, deleted ones included. *)
Definition tenantsOk (r : gmap string Tenant) : Prop :=
  (∀ id t, r !! id = Some t → TenantID t = id) ∧
  (∀ id id' t t', r !! id = Some t → r !! id' = Some t' → Slug t = Slug t' → id = id').

Lemma tenantsOk_update (r : gmap string Tenant) id t t' : r !! id = Some t → TenantID t' = TenantID t → Slug t' = Slug t →
  tenantsOk r → tenantsOk (<[id := t']> r).
Proof.
  intros Ht Hid Hsl [HI HS]. split.
  - intros i x. rewrite lookup_insert_Some. intros [[<- <-]|[_ Hx]]; [rewrite Hid; by apply HI|by apply HI].
  - intros i j x y. rewrite !lookup_insert_Some.
    intros [[<- <-]|[Hi Hx]] [[<- <-]|[Hj Hy]] E; [done| | |by eapply HS].
    + eapply HS; [exact Ht|exact Hy|congruence].
    + eapply HS; [exact Hx|exact Ht|congruence].
Qed.

Lemma tenantDB_insert_ok (r : gmap string Tenant) t : r !! TenantID t = None → ¬ slugTaken (Slug t) r → tenantsOk r →
  tenantsOk (<[TenantID t := t]> r).
Proof.
  intros Hn Hsl [HI HS]. split.
  - intros i x. rewrite lookup_insert_Some. intros [[<- <-]|[_ Hx]]; [done|by apply HI].
  - intros i j x y. rewrite !lookup_insert_Some. unfold slugTaken in Hsl.
    intros [[<- <-]|[Hi Hx]] [[<- <-]|[Hj Hy]] E; [done| | |by eapply HS]; exfalso; apply Hsl; eauto.
Qed.

Lemma tenantsOk_delete (r : gmap string Tenant) id : tenantsOk r → tenantsOk (delete id r).
Proof. intros [HI HS]. split; [intros i x [_ Hx]%lookup_delete_Some; eauto|intros i j x y [_ Hx]%lookup_delete_Some [_ Hy]%lookup_delete_Some; eauto]. Qed.

Section records.
Context `{Postgres} (refusal : nat → string).

Lemma updateLive_ok f id (s : TenantDB) : (∀ t, TenantID (f t) = TenantID t ∧ Slug (f t) = Slug t) →
  tenantsOk (rows s) → tenantsOk (rows (updateLive f id s).2).
Proof.
  intros Hf HI. unfold updateLive. case_bool_decide; [done|]. destruct (live id s) as [t|] eqn:El; [|by destruct (outcome _)].
  assert (Hl : rows s !! id = Some t) by (unfold live in El; destruct (rows s !! id) as [x|]; [|done]; simpl in El; destruct (DeletedAt x); by simplify_eq).
  destruct (Hf t). destruct (outcome _); [|done|]; by eapply tenantsOk_update.
Qed.

Lemma Update_ok now id u (s : TenantDB) : tenantsOk (rows s) → tenantsOk (rows (Update now id u s).2).
Proof. by apply updateLive_ok. Qed.

Lemma Delete_ok now id (s : TenantDB) : tenantsOk (rows s) → tenantsOk (rows (Delete now id s).2).
Proof. by apply updateLive_ok. Qed.

Lemma Create_ok now t (s : TenantDB) : tenantsOk (rows s) → tenantsOk (rows (Create refusal now t s).2).
Proof.
  intros HI. unfold Create. destruct (outcome _); [|done|]; (destruct (decide _) as [|Hn]; [done|]);
    apply (tenantDB_insert_ok (rows s) {| TenantID := TenantID t |}); try done; try (by intros ?; apply Hn; right);
    (destruct (rows s !! _) eqn:E; [exfalso; apply Hn; left; eauto|done]).
Qed.

Lemma AddMember_rows now m (s : TenantDB) : rows (AddMember now m s).2 = rows s.
Proof. unfold AddMember. destruct (outcome (queries s)), (dbTables (base_ s) !! "tenant_members"); try done; by case_match. Qed.

Lemma Get_rows id (s : TenantDB) : rows (Get id s).2 = rows s.
Proof. unfold Get. case_bool_decide; [done|]. by destruct (outcome _). Qed.

Lemma DeleteAllData_rows id (s : TenantDB) : match DeleteAllData id s with
  | Some (_, s') => rows s' = rows s ∨ rows s' = delete id (rows s) | None => True end.
Proof.
  unfold DeleteAllData. destruct (deleteTables _ _ _) as [[[] d]|]; [by left| |done]. cbn [mbind option_bind].
  destruct (outcome _); simpl; auto.
Qed.

(** Through any history of tenant requests and background deletions, on any
    pattern of database faults, every record stays under its own id and no two share a
    slug. *)
Theorem tenant_records_consistent (s : TenantDB) (ops : list TenantOp) :
  tenantsOk (rows s) → tenantsOk (rows (foldl (tenantStep refusal) s ops)).
Proof.
  revert s. induction ops as [|op ops IH]; intros s HI; [done|]. simpl. apply IH. destruct op as [r|r|r|r|[[id p] c] now]; simpl.
  - unfold HandleCreate. destruct (tAuth r) as [ac|]; [|done]. destruct (tCreate r) as [req|]; [|done].
    cbv zeta. do 2 (case_bool_decide; [done|]).
    match goal with |- context [Create refusal ?n ?t s] => pose proof (Create_ok n t s HI) as Hc; destruct (Create refusal n t s) as [[[]|] s1] end;
      simpl in Hc; try done.
    match goal with |- context [AddMember ?n ?m s1] => pose proof (AddMember_rows n m s1) as Ha; destruct (AddMember n m s1) as [e s2] end.
    simpl in *. by rewrite Ha.
  - unfold HandleGet. destruct (tAuth r); [|done]. cbv zeta. case_bool_decide; [done|].
    pose proof (Get_rows (extractTenantID (tPath r)) s) as Hg. destruct (Get _ s). simpl in *. by rewrite Hg.
  - unfold HandleUpdate. destruct (tAuth r); [|done]. cbv zeta. case_bool_decide; [done|]. destruct (tUpdate r) as [b|]; [|done].
    pose proof (Update_ok (tNow r) (extractTenantID (tPath r)) b s HI) as Hu. destruct (Update _ _ _ s) as [[[]|] s1]; simpl in *; try done.
    pose proof (Get_rows (extractTenantID (tPath r)) s1) as Hg. destruct (Get _ s1). simpl in *. by rewrite Hg.
  - unfold HandleDelete. destruct (tAuth r); [|done]. cbv zeta. do 2 (case_bool_decide; [done|]).
    pose proof (Get_rows (extractTenantID (tPath r)) s) as Hg. destruct (Get _ s) as [[[]|] s1]; simpl in *; rewrite <- Hg in HI; try done.
    pose proof (Delete_ok (tNow r) (extractTenantID (tPath r)) s1 HI) as Hu. by destruct (Delete _ _ s1) as [[[]|] s2].
  - pose proof (DeleteAllData_rows id s) as Hd. destruct (DeleteAllData id s) as [[e s1]|]; simpl; [|done].
    destruct Hd as [-> | ->]; [done|by apply tenantsOk_delete].
Qed.
End records.

(** ** Witnesses *)

Definition no_refusal (k : nat) : string := "".

Definition tenant_request (path confirm : string) (c : option createRequest) (now : Time) : TRequest := {|
  tAuth := Some zeroAuth; tPath := path; tConfirm := confirm; tCID := "c1"; tCreate := c; tUpdate := None;
  tRandom := ["000"; "017"; "034"; "051"]%char; tNow := now |}.

Definition kv_row (tenant key : string) : Row := {["tenant_id" := CText tenant; "key" := CText key]}.

Definition empty_tables : gmap string Table := list_to_map ((λ n, (n, ∅)) <$> tenantDataTables).

Definition sample_tenants : TenantDB :=
  (HandleCreate (H := plainPostgres) no_refusal
     (tenant_request "/v1/tenants" "" (Some {| rqName := "Acme"; rqSlug := "acme"; rqPlan := "" |}) 5)
     {| base_ := {| dbTables := <["kv_store" := {[1%nat := kv_row "tnt_acme_00112233" "k"; 2%nat := kv_row "tnt_other" "k"]}]> empty_tables;
                    dbQueries := 0 |}; rows := ∅ |}).2.

Definition delete_acme : TRequest := tenant_request "/v1/tenants/tnt_acme_00112233" "DELETE tnt_acme_00112233" None 9.

Lemma tenant_deletion_exact_witness :
  ∃ s1 log s2 log2, HandleDelete (H := plainPostgres) true true delete_acme sample_tenants
      = (TScheduled "tnt_acme_00112233", s1, log, Some ("tnt_acme_00112233", "system", "c1")) ∧
    runAsyncDeletion (H := plainPostgres) true 10 ("tnt_acme_00112233", "system", "c1") s1 = Some (s2, log2) ∧
    rows s2 = delete "tnt_acme_00112233" (rows sample_tenants).
Proof.
  destruct (HandleDelete (H := plainPostgres) true true delete_acme sample_tenants) as [[[a s1] log] job] eqn:E.
  assert (Ha : (HandleDelete (H := plainPostgres) true true delete_acme sample_tenants).1.1.1 = TScheduled "tnt_acme_00112233") by (vm_compute; reflexivity).
  assert (Hj : (HandleDelete (H := plainPostgres) true true delete_acme sample_tenants).2 = Some ("tnt_acme_00112233", "system", "c1"))
    by (vm_compute; reflexivity).
  rewrite E in Ha, Hj. simpl in Ha, Hj. subst a job.
  destruct (@tenant_deletion_exact plainPostgres plainPostgres_laws true true delete_acme sample_tenants _ s1 log "system" "c1" 10 E)
    as (_ & s2 & log2 & HR & _ & _ & _ & Hall).
  exists s1, log, s2, log2. split_and!; [reflexivity|exact HR|]. apply Hall; [reflexivity|].
  intros n Hn%list_elem_of_In.
  assert (HF : forallb (λ n, bool_decide (is_Some (dbTables (base_ sample_tenants) !! n))) tenantDataTables = true) by (vm_compute; reflexivity).
  rewrite forallb_forall in HF. exact (proj1 (bool_decide_eq_true _) (HF _ Hn)).
Defined.

Lemma tenant_records_consistent_witness :
  tenantsOk (rows (foldl (tenantStep (H := plainPostgres) no_refusal) sample_tenants [OpDelete delete_acme])).
Proof.
  apply (@tenant_records_consistent plainPostgres no_refusal).
  apply (@tenant_records_consistent plainPostgres no_refusal {| base_ := {| dbTables := <["kv_store" := {[1%nat := kv_row "tnt_acme_00112233" "k"; 2%nat := kv_row "tnt_other" "k"]}]> empty_tables;
                    dbQueries := 0 |}; rows := ∅ |}
     [OpCreate (tenant_request "/v1/tenants" "" (Some {| rqName := "Acme"; rqSlug := "acme"; rqPlan := "" |}) 5)]).
  split; [intros id t Ht; simpl in Ht; by rewrite lookup_empty in Ht|intros id id' t t' Ht; simpl in Ht; by rewrite lookup_empty in Ht].
Defined.
