(* ===== verification/Compliance.v ===== *)
(** * Data export and deletion requests (internal/compliance: export.go, delete.go)

    A tenant's owner asks for its data to be exported or deleted; the work runs in the
    background.  Export jobs are shared objects: the store keeps pointers to them and the
    background export changes them even after the store has dropped them, so they live
    in a heap.  The steps of a history are the requests and the background exports, in
    any order.  What collects the data is not part of the repository and is an argument. *)
From S2P Require Import Prelude GoPath GoStrings GoCalendar Access.

(** ** Export jobs *)

Inductive JobStatus := Pending | Complete | Expired.

#[global] Instance JobStatus_eq_dec : EqDecision JobStatus.
Proof. solve_decision. Defined.

(** The expiry is kept as the time its RFC 3339 text says: a whole second. *)
Record ExportJob := {
  JobID : string;
  JTenantID : string;
  status : JobStatus;
  CreatedAt : Time;
  ExpiresAt : Time;
  filePath : string
}.

Definition SetStatus (st : JobStatus) (j : ExportJob) : ExportJob :=
  {| JobID := JobID j; JTenantID := JTenantID j; status := st; CreatedAt := CreatedAt j; ExpiresAt := ExpiresAt j; filePath := filePath j |}.

Definition SetFilePath (p : string) (j : ExportJob) : ExportJob :=
  {| JobID := JobID j; JTenantID := JTenantID j; status := status j; CreatedAt := CreatedAt j; ExpiresAt := ExpiresAt j; filePath := p |}.

(** ** The store of jobs *)

Record ExportJobStore := { jobs : gmap string nat; order : list string; maxJobs : Z }.

Definition NewExportJobStore (max : Z) : ExportJobStore :=
  {| jobs := ∅; order := []; maxJobs := if bool_decide (max <= 0) then 100 else max |}.

(** The loop that drops the oldest while the store is full. *)
Fixpoint evict (max : Z) (o : list string) (m : gmap string nat) : gmap string nat * list string :=
  if bool_decide (Z.of_nat (length o) < max) then (m, o)
  else match o with
       | oldest :: o' => evict max o' (delete oldest m)
       | [] => (m, [])
       end.

Definition Add (id : string) (job : nat) (s : ExportJobStore) : ExportJobStore :=
  let '(m, o) := evict (maxJobs s) (order s) (jobs s) in
  {| jobs := <[id := job]> m; order := o ++ [id]; maxJobs := maxJobs s |}.

Definition GetJob (id : string) (s : ExportJobStore) : option nat := jobs s !! id.
Definition Len (s : ExportJobStore) : Z := Z.of_nat (size (jobs s)).

(** ** The handlers *)

Record ExportHandler := { jobStore : ExportJobStore; collects : bool; exportDir : string }.

Definition NewExportHandler (env : Environ) (store : ExportJobStore) (collects : bool) : ExportHandler := {|
  jobStore := store; collects := collects;
  exportDir := if bool_decide (env "AGENTOS_EXPORT_DIR" = "") then "data/exports/" else env "AGENTOS_EXPORT_DIR"
|}.

(** The handler, the jobs, the background exports still to run, and the files. *)
Record Exports := { handler : ExportHandler; heap : list ExportJob; running : list nat; files : gmap string string }.

Definition setStore (st : ExportJobStore) (s : Exports) : Exports := {|
  handler := {| jobStore := st; collects := collects (handler s); exportDir := exportDir (handler s) |};
  heap := heap s; running := running s; files := files s |}.

Definition setJob (p : nat) (f : ExportJob → ExportJob) (s : Exports) : Exports :=
  {| handler := handler s; heap := alter f p (heap s); running := running s; files := files s |}.

Record CRequest := { cMethod : string; cAuth : option AuthContext; cPath : string; cQuery : string; cConfirm : string; cNow : Time; cFresh : string }.

Inductive CAnswer :=
  | CError (st : Z) (code : string) (retryable : bool)
  | CAccepted (id : string)
  | CStatus (id : string) (st : JobStatus) (url : option string).

(** The role the handlers go by is the subject type of the request; none counts as owner. *)
Definition ownerByType (ac : AuthContext) : bool :=
  HasPermission (if bool_decide (SubjectType ac = "") then "owner" else SubjectType ac) "owner".

Definition exportDays : Duration := 7 * 24 * Hour.

Definition HandleCreate (env : Environ) (r : CRequest) (s : Exports) : CAnswer * Exports :=
  if bool_decide (cMethod r ≠ "POST") then (CError 405 "method_not_allowed" false, s)
  else match cAuth r with
  | None => (CError 401 "unauthorized" false, s)
  | Some ac =>
      if negb (ownerByType ac) then (CError 403 "forbidden" false, s)
      else match RequireTenant env ac with
      | inl _ => (CError 400 "invalid_tenant" false, s)
      | inr tenantID =>
          let p := length (heap s) in
          let job := {| JobID := cFresh r; JTenantID := tenantID; status := Pending; CreatedAt := cNow r / Second * Second;
                        ExpiresAt := (cNow r + exportDays) / Second * Second; filePath := "" |} in
          let s := setStore (Add (cFresh r) p (jobStore (handler s))) s in
          (CAccepted (cFresh r), {| handler := handler s; heap := heap s ++ [job]; running := p :: running s; files := files s |})
      end
  end.

Definition HandleStatus (r : CRequest) (s : Exports) : CAnswer * Exports :=
  if bool_decide (cMethod r ≠ "GET") then (CError 405 "method_not_allowed" false, s)
  else
    let jobID := if bool_decide (cQuery r = "") then pathBase (cPath r) else cQuery r in
    if bool_decide (jobID = "" ∨ jobID = "." ∨ jobID = "/") then (CError 400 "missing_job_id" false, s)
    else match (p ← GetJob jobID (jobStore (handler s)); j ← heap s !! p; Some (p, j)) with
    | None => (CError 404 "not_found" false, s)
    | Some (p, j) =>
        let late := bool_decide (status j = Complete ∧ ExpiresAt j < cNow r) in
        let st := if late then Expired else status j in
        (CStatus (JobID j) st (if bool_decide (st = Complete ∧ filePath j ≠ "") then Some (filePath j) else None),
         if late then setJob p (SetStatus Expired) s else s)
    end.

(** What can go wrong on the disk: no directory, no file, or a file that takes only
    some of the bytes. *)
Inductive DiskFault := DiskOK | NoDirectory | NoFile | Short (n : nat).

(** The file an export of the job leaves, when it leaves one; [collect] gives the encoded
    data.  A file that could not be written to the end counts as well. *)
Definition exportedFile (h : ExportHandler) (collect : string → option string) (disk : DiskFault) (job : ExportJob) :
    option (string * string) :=
  if negb (collects h) then None
  else text ← collect (JTenantID job);
    let fPath := Join [exportDir h; JobID job +:+ ".json"] in
    match disk with
    | NoDirectory | NoFile => None
    | DiskOK => Some (fPath, text)
    | Short n => Some (fPath, takeBytes n text)
    end.

(** The background export of the job at [p]; the job is complete however it went. *)
Definition runExport (collect : string → option string) (disk : DiskFault) (p : nat) (s : Exports) : Exports :=
  match heap s !! p with
  | None => s
  | Some job =>
      match exportedFile (handler s) collect disk job with
      | None => setJob p (SetStatus Complete) s
      | Some (fPath, content) =>
          setJob p (SetStatus Complete ∘ SetFilePath fPath)
            {| handler := handler s; heap := heap s; running := running s; files := <[fPath := content]> (files s) |}
      end
  end.

(** The routes of the orchestrator (the handlers are always configured there). *)
Definition handleDataExport (env : Environ) (r : CRequest) (s : Exports) : CAnswer * Exports :=
  if bool_decide (cMethod r = "POST") then HandleCreate env r s
  else if bool_decide (cMethod r = "GET") then HandleStatus r s
  else (CError 405 "method_not_allowed" false, s).

(** ** Deletion requests *)

Inductive DAnswer := DError (st : Z) (code : string) | DAccepted (tenantID : string).

(** The answer and the background deletion it starts. *)
Definition DeleteServe (env : Environ) (r : CRequest) : DAnswer * option (string * string) :=
  if bool_decide (cMethod r ≠ "POST") then (DError 405 "method_not_allowed", None)
  else match cAuth r with
  | None => (DError 401 "unauthorized", None)
  | Some ac =>
      if negb (ownerByType ac) then (DError 403 "forbidden", None)
      else match RequireTenant env ac with
      | inl _ => (DError 400 "invalid_tenant", None)
      | inr tenantID =>
          if bool_decide (TrimSpace (cConfirm r) ≠ "DELETE " +:+ tenantID) then (DError 400 "confirmation_required", None)
          else (DAccepted tenantID, Some (tenantID, PrincipalID ac))
      end
  end.

(** The background deletion over a world [W]: with a deleter and with an auditor, or
    without; a deletion that fails is not recorded. *)
Definition runDeletion {W} (deleter : option (string → W → bool * W)) (auditor : option (string → string → W → W))
    (job : string * string) (w : W) : W :=
  let '(tenantID, actor) := job in
  let '(ok, w) := match deleter with Some del => del tenantID w | None => (true, w) end in
  if ok then match auditor with Some log => log tenantID actor w | None => w end else w.

(** A request and the deletion it starts, with the deleter and the auditor the server
    configures its handler with: none. *)
Definition handleDataDelete {W} (env : Environ) (r : CRequest) (w : W) : DAnswer * W :=
  let '(a, job) := DeleteServe env r in
  (a, match job with Some j => runDeletion None None j w | None => w end).

(** ** The store is a window on the last jobs *)

(** The abstract store: the last [n] of the jobs added, the [p]-th under its id. *)
Definition addAll (n : Z) (ids : list string) : ExportJobStore :=
  foldl (λ s ip, Add ip.2 ip.1 s) (NewExportJobStore n) (imap (λ i id, (i, id)) ids).

Lemma addAll_snoc n ids id : addAll n (ids ++ [id]) = Add id (length ids) (addAll n ids).
Proof. unfold addAll. rewrite imap_app, foldl_app. simpl. by rewrite Nat.add_0_r. Qed.

Lemma evict_fits max o m : Z.of_nat (length o) < max → evict max o m = (m, o).
Proof. intros Hl. destruct o; cbn [evict]; by rewrite bool_decide_true. Qed.

(** A store that is never over-full loses one job at most. *)
Lemma evict_full max x o m : Z.of_nat (length o) < max → max <= Z.of_nat (length (x :: o)) → evict max (x :: o) m = (delete x m, o).
Proof. intros Ho Hx. cbn [evict]. rewrite bool_decide_false by lia. by apply evict_fits. Qed.

Record windowOf (n : nat) (ids : list string) (s : ExportJobStore) : Prop := {
  win_max : maxJobs s = Z.of_nat n;
  win_order : order s = drop (length ids - n) ids;
  win_jobs id p : jobs s !! id = Some p ↔ ids !! p = Some id ∧ (length ids - n ≤ p)%nat
}.

Section window.
Context (n : nat) (ids : list string) (id : string) (s : ExportJobStore).
Context (Hn : (0 < n)%nat) (Hnd : NoDup (ids ++ [id])) (Hw : windowOf n ids s).

Lemma snoc_new p : (ids ++ [id]) !! p = Some id ↔ p = length ids.
Proof.
  split; [|intros ->; by apply list_lookup_middle].
  intros Hp. eapply NoDup_lookup; [exact Hnd|exact Hp|]. by apply list_lookup_middle.
Qed.

Lemma snoc_old p x : x ≠ id → (ids ++ [id]) !! p = Some x ↔ ids !! p = Some x.
Proof.
  intros Hx. rewrite lookup_app_Some. split; [|auto]. intros [?|[_ Hp]]; [done|].
  apply list_lookup_singleton_Some in Hp as [_ ->]. done.
Qed.

Lemma window_fits : (length ids < n)%nat → windowOf n (ids ++ [id]) (Add id (length ids) s).
Proof using All.
  intros Hlt. destruct Hw as [Hmax Hord Hjobs]. unfold Add. rewrite Hmax, evict_fits by (rewrite Hord, length_drop; lia).
  split; cbn [maxJobs order jobs]; [done| |].
  - rewrite Hord, length_app. simpl. replace (length ids + 1 - n)%nat with 0%nat by lia. by replace (length ids - n)%nat with 0%nat by lia.
  - intros i p. rewrite lookup_insert_Some, Hjobs, length_app. simpl.
    destruct (decide (i = id)) as [->|Hi]; [rewrite snoc_new|rewrite snoc_old by done]; naive_solver lia.
Qed.

Lemma window_full : (n ≤ length ids)%nat → windowOf n (ids ++ [id]) (Add id (length ids) s).
Proof using All.
  intros Hge. destruct Hw as [Hmax Hord Hjobs]. unfold Add. rewrite Hmax.
  destruct (lookup_lt_is_Some_2 ids (length ids - n)) as [x Hx]; [lia|].
  rewrite Hord, (drop_S _ _ _ Hx), evict_full by (simpl; rewrite length_drop; lia).
  assert (Hndi : NoDup ids) by (by apply NoDup_app in Hnd as [? _]).
  split; cbn [maxJobs order jobs]; [done| |].
  - rewrite length_app. simpl. rewrite drop_app_le by lia. f_equal. f_equal. lia.
  - intros i p. rewrite lookup_insert_Some, lookup_delete_Some, Hjobs, length_app. simpl.
    destruct (decide (i = id)) as [->|Hi]; [rewrite snoc_new; naive_solver lia|]. rewrite snoc_old by done.
    assert (Hxi : ids !! p = Some i → x = i ↔ p = (length ids - n)%nat).
    { intros Hpi. split; [intros <-; by eapply NoDup_lookup|intros ->; congruence]. }
    split; [intros [[? _]|(_ & Hxn & Hpi & Hle)]; [congruence|]|intros [Hpi Hle]; right]; specialize (Hxi Hpi).
    + split; [done|]. destruct (decide (p = length ids - n)%nat); [naive_solver|lia].
    + split_and!; [congruence| |done|lia]. intros E%Hxi. lia.
Qed.
End window.

(** However many exports are asked for, the store is the window of the last [n]: it
    finds exactly the last [n] jobs by their ids, in order, and holds no others. *)
Theorem export_store_window (n : Z) (ids : list string) : 0 < n → NoDup ids →
  let s := addAll n ids in
  order s = drop (length ids - Z.to_nat n) ids ∧
  (∀ id p, GetJob id s = Some p ↔ ids !! p = Some id ∧ (length ids - Z.to_nat n ≤ p)%nat) ∧
  Len s = Z.min n (Z.of_nat (length ids)).
Proof.
  intros Hn Hnd s.
  assert (HW : windowOf (Z.to_nat n) ids s).
  { subst s. induction ids as [|id ids IH] using rev_ind.
    - split; simpl; [rewrite bool_decide_false by lia; lia|done|]. intros id p. rewrite lookup_empty, lookup_nil. naive_solver.
    - rewrite addAll_snoc. pose proof Hnd as [Hnd' _]%NoDup_app. specialize (IH Hnd').
      destruct (decide (length ids < Z.to_nat n)%nat); [apply window_fits|apply window_full]; (done || lia). }
  destruct HW as [Hm Ho Hj]. split_and!; [done|done|]. unfold Len.
  assert (HD : dom (jobs s) = list_to_set (order s)).
  { apply set_eq. intros id. rewrite elem_of_dom, elem_of_list_to_set, Ho, list_elem_of_lookup. unfold is_Some. setoid_rewrite Hj.
    setoid_rewrite lookup_drop. split.
    - intros (p & Hp & Hle). exists (p - (length ids - Z.to_nat n))%nat. by rewrite Nat.add_comm, Nat.sub_add.
    - intros (i & Hi). eexists. split; [exact Hi|lia]. }
  rewrite <- size_dom, HD, size_list_to_set, Ho, length_drop; [lia|].
  rewrite Ho. eapply sublist_NoDup; [exact Hnd|apply sublist_drop].
Qed.

(** ** Histories of exports *)

Definition without (p : nat) (s : Exports) : Exports :=
  {| handler := handler s; heap := heap s; running := filter (λ q, q ≠ p) (running s); files := files s |}.

(** A request is served, or one of the background exports runs. *)
Inductive ExportStep (env : Environ) : Exports → Exports → Prop :=
  | step_request r s : ExportStep env s (handleDataExport env r s).2
  | step_export collect disk p s : p ∈ running s → ExportStep env s (runExport collect disk p (without p s)).

Definition rank (st : JobStatus) : nat := match st with Pending => 0 | Complete => 1 | Expired => 2 end.

Definition exportFile (s : Exports) (j : ExportJob) : string := Join [exportDir (handler s); JobID j +:+ ".json"].

Record exportsOk (s : Exports) : Prop := {
  ok_running p : p ∈ running s → ∃ j, heap s !! p = Some j ∧ status j = Pending;
  ok_file p j : heap s !! p = Some j → filePath j ≠ "" → filePath j = exportFile s j ∧ is_Some (files s !! filePath j)
}.

(** A later state of a job. *)
Definition later (j j' : ExportJob) : Prop :=
  JobID j' = JobID j ∧ JTenantID j' = JTenantID j ∧ ExpiresAt j' = ExpiresAt j ∧ (rank (status j) ≤ rank (status j'))%nat.

Definition progressed (s s' : Exports) : Prop := ∀ p j, heap s !! p = Some j → ∃ j', heap s' !! p = Some j' ∧ later j j'.

Lemma later_refl j : later j j.
Proof. done. Qed.

Lemma progressed_trans s1 s2 s3 : progressed s1 s2 → progressed s2 s3 → progressed s1 s3.
Proof.
  intros H12 H23 p j Hj. destruct (H12 p j Hj) as (j2 & H2 & L2), (H23 p j2 H2) as (j3 & H3 & L3). exists j3. split; [done|].
  unfold later in *. intuition (congruence || lia).
Qed.

Lemma progressed_alter s s' p f : heap s' = alter f p (heap s) → (∀ j, heap s !! p = Some j → later j (f j)) → progressed s s'.
Proof.
  intros Hh Hf q j Hj. rewrite Hh. destruct (decide (q = p)) as [->|Hne].
  - rewrite list_lookup_alter_eq, Hj. eauto.
  - rewrite list_lookup_alter_ne by done. eauto using later_refl.
Qed.

Lemma exportedFile_path h collect disk j path content :
  exportedFile h collect disk j = Some (path, content) → path = Join [exportDir h; JobID j +:+ ".json"].
Proof.
  unfold exportedFile. destruct (collects h); [|done]. simpl. destruct (collect (JTenantID j)); [|done]. simpl.
  destruct disk; intros [=]; done.
Qed.

(** A change of one job that is not running keeps the invariant. *)
Lemma exportsOk_alter s p f fs : exportsOk s → p ∉ running s → files s ⊆ fs ∨ dom (files s) ⊆ dom fs →
  (∀ j, JobID (f j) = JobID j) →
  (∀ j, heap s !! p = Some j → filePath (f j) = filePath j ∨ filePath (f j) = exportFile s j ∧ is_Some (fs !! exportFile s j)) →
  exportsOk {| handler := handler s; heap := alter f p (heap s); running := running s; files := fs |}.
Proof.
  intros [HR HF] Hp Hfs Hid Hf.
  assert (Hin : ∀ k, is_Some (files s !! k) → is_Some (fs !! k)).
  { intros k Hk. destruct Hfs as [Hs|Hs]; [destruct Hk as [x Hx]; exists x; by eapply lookup_weaken|].
    apply elem_of_dom, Hs, elem_of_dom. by apply elem_of_dom, elem_of_dom. }
  split; cbn [running heap files handler].
  - intros q Hq. destruct (HR q Hq) as (j & Hj & Hs). exists j. split; [|done]. rewrite list_lookup_alter_ne; [done|]. by intros ->.
  - intros q j Hj Hne. destruct (decide (q = p)) as [->|Hqp].
    + rewrite list_lookup_alter_eq in Hj. apply fmap_Some in Hj as (j0 & Hj0 & ->). unfold exportFile in *. cbn [handler] in *. rewrite Hid.
      destruct (Hf j0 Hj0) as [E|[E Hx]]; rewrite E in *; [|done]. destruct (HF p j0 Hj0 Hne). auto.
    + rewrite list_lookup_alter_ne in Hj by done. destruct (HF q j Hj Hne). auto.
Qed.

Lemma exportsOk_without s p : exportsOk s → exportsOk (without p s) ∧ p ∉ running (without p s).
Proof.
  intros [HR HF]. split; [split; [intros q [_ Hq]%list_elem_of_filter; auto|exact HF]|]. cbn. by intros [? _]%list_elem_of_filter.
Qed.

Lemma runExport_ok collect disk p s j : exportsOk s → p ∉ running s → heap s !! p = Some j → status j = Pending →
  exportsOk (runExport collect disk p s) ∧ progressed s (runExport collect disk p s).
Proof.
  intros HI Hp Hj Hst. unfold runExport. rewrite Hj. destruct (exportedFile _ _ _ _) as [[path content]|] eqn:E.
  - apply exportedFile_path in E as ->. unfold setJob. cbn [handler heap running files]. split; [apply (exportsOk_alter s p (SetStatus Complete ∘ SetFilePath _))|]; try done.
    + right. rewrite dom_insert. set_solver.
    + intros j' Hj'. simplify_eq. right. split; [done|]. rewrite lookup_insert_eq. eauto.
    + eapply progressed_alter; [reflexivity|]. intros j' Hj'. simplify_eq. unfold later. rewrite Hst. simpl. auto with lia.
  - split; [apply exportsOk_alter; auto|]. eapply progressed_alter; [reflexivity|]. intros j' Hj'. simplify_eq.
    unfold later. rewrite Hst. simpl. auto with lia.
Qed.

Lemma HandleCreate_ok env r s : exportsOk s → exportsOk (HandleCreate env r s).2 ∧ progressed s (HandleCreate env r s).2.
Proof.
  intros HI. assert (Hid : progressed s s) by (intros p j Hj; eauto using later_refl).
  unfold HandleCreate. case_bool_decide; [done|]. destruct (cAuth r) as [ac|]; [|done]. destruct (ownerByType ac); [|done]. simpl.
  destruct (RequireTenant env ac) as [|t]; [done|]. destruct HI as [HR HF]. split; [split|]; cbn.
  - intros p [->|Hp]%elem_of_cons; [rewrite list_lookup_middle by done; eauto|].
    destruct (HR p Hp) as (j & Hj & Hs). exists j. split; [by apply lookup_app_l_Some|done].
  - intros p j [Hj|[_ Hj]]%lookup_app_Some Hne; [by apply (HF p j)|]. by apply list_lookup_singleton_Some in Hj as [_ <-].
  - intros p j Hj. exists j. split; [by apply lookup_app_l_Some|apply later_refl].
Qed.

Lemma HandleStatus_ok r s : exportsOk s → exportsOk (HandleStatus r s).2 ∧ progressed s (HandleStatus r s).2.
Proof.
  intros HI. assert (Hid : progressed s s) by (intros p j Hj; eauto using later_refl).
  unfold HandleStatus. case_bool_decide; [done|]. cbv zeta.
  generalize (if bool_decide (cQuery r = "") then pathBase (cPath r) else cQuery r) as jobID. intros jobID. case_bool_decide; [done|].
  destruct (GetJob _ _ ≫= _) as [[p j]|] eqn:E; [|done].
  apply bind_Some in E as (p' & _ & E). apply bind_Some in E as (j' & Hj & [= -> ->]). cbn [snd].
  case_bool_decide as Hl; [|done]. destruct Hl as [Hst _].
  assert (Hp : p ∉ running s) by (intros Hp; apply (ok_running s HI) in Hp as (j' & Hj' & Hs'); congruence).
  split; [apply exportsOk_alter; auto|]. eapply progressed_alter; [reflexivity|]. intros j' Hj'. simplify_eq.
  unfold later. rewrite Hst. simpl. auto with lia.
Qed.

(** C37. In every history of export requests, status requests and background exports,
    in any order and with any failures, a job keeps its id, tenant and expiry and its
    status only moves forward, from pending to complete to expired; and the path a job
    shows is that of its own file, which was made. *)
Theorem export_jobs_progress (env : Environ) (s s' : Exports) :
  exportsOk s → rtc (ExportStep env) s s' → exportsOk s' ∧ progressed s s'.
Proof.
  intros HI Hr. revert HI. induction Hr as [s|s1 s2 s3 Hs _ IH]; intros HI.
  { split; [done|]. intros p j Hj; eauto using later_refl. }
  enough (exportsOk s2 ∧ progressed s1 s2) as [H2 P2] by (destruct (IH H2); split; [done|by eapply progressed_trans]).
  destruct Hs as [r s|collect disk p s Hp].
  - unfold handleDataExport. case_bool_decide; [by apply HandleCreate_ok|]. case_bool_decide; [by apply HandleStatus_ok|].
    split; [done|]. intros p j Hj; eauto using later_refl.
  - destruct (ok_running s HI p Hp) as (j & Hj & Hst). destruct (exportsOk_without s p HI) as [HI' Hp'].
    by apply (runExport_ok collect disk p (without p s) j).
Qed.

(** ** An export from request to download *)

Lemma Join_nonempty a b : b ≠ "" → Join [a; b] ≠ "".
Proof.
  intros Hb. cbn [Join]. assert (HC : ∀ p, Clean p ≠ "").
  { intros p. unfold Clean. destruct (decide (p = "")); [done|]. destruct (match p with String "/" _ => true | _ => false end); [done|].
    cbv zeta. by destruct (decide (_ = "")). }
  destruct (decide (a = "")); [rewrite decide_False by done|]; apply HC.
Qed.

(** An owner's request is answered with a job; once its export has run undisturbed,
    the status of the job is complete, with the path of a file that holds the data of
    the owner's tenant, until seven days (to the second) after the request, and expired
    and without a path from then on. *)
Theorem export_delivers (env : Environ) (r q : CRequest) (s : Exports) (ac : AuthContext) (t text : string)
    (collect : string → option string) :
  cMethod r = "POST" → cAuth r = Some ac → ownerByType ac = true → RequireTenant env ac = inr t →
  collects (handler s) = true → collect t = Some text → cFresh r ≠ "" → cFresh r ≠ "." → cFresh r ≠ "/" →
  cMethod q = "GET" → cQuery q = cFresh r →
  let s1 := (handleDataExport env r s).2 in
  let p := length (heap s) in
  let s2 := runExport collect DiskOK p (without p s1) in
  (handleDataExport env r s).1 = CAccepted (cFresh r) ∧ p ∈ running s1 ∧
  if bool_decide (cNow q <= (cNow r + exportDays) / Second * Second)
  then ∃ path, (handleDataExport env q s2).1 = CStatus (cFresh r) Complete (Some path) ∧ files s2 !! path = Some text
  else (handleDataExport env q s2).1 = CStatus (cFresh r) Expired None.
Proof.
  intros Hm Ha Ho Ht Hc Hx N1 N2 N3 Hq Hi s1 p s2.
  assert (HE : handleDataExport env r s = HandleCreate env r s) by (unfold handleDataExport; by rewrite bool_decide_true).
  unfold HandleCreate in HE. rewrite bool_decide_false in HE by (intros Hn; by apply Hn). rewrite Ha, Ho, Ht in HE. cbn in HE.
  set (job := {| JobID := cFresh r; JTenantID := t; status := Pending; CreatedAt := cNow r / Second * Second;
                 ExpiresAt := (cNow r + exportDays) / Second * Second; filePath := "" |}) in HE.
  set (path := Join [exportDir (handler s); cFresh r +:+ ".json"]).
  assert (Hpath : path ≠ "") by (apply Join_nonempty; by destruct (cFresh r)).
  assert (Hp : heap s1 !! p = Some job) by (subst s1; rewrite HE; cbn; by apply list_lookup_middle).
  assert (Hdone : heap s2 !! p = Some (SetStatus Complete (SetFilePath path job)) ∧ files s2 !! path = Some text ∧
                  GetJob (cFresh r) (jobStore (handler s2)) = Some p).
  { subst s2. unfold runExport. cbn [without heap]. rewrite Hp. unfold exportedFile.
    replace (collects (handler (without p s1))) with true by (subst s1; rewrite HE; cbn; done).
    cbn [negb JTenantID job]. rewrite Hx. cbn [mbind option_bind setJob heap files handler without].
    rewrite list_lookup_alter_eq, Hp. replace (Join _) with path by (subst s1; by rewrite HE).
    rewrite lookup_insert_eq. split_and!; [done|done|]. subst s1. rewrite HE. cbn. unfold GetJob, Add. cbn.
    destruct (evict _ _ _). cbn. by rewrite lookup_insert_eq. }
  destruct Hdone as (Hh & Hf & Hg). clearbody path s2. split; [by rewrite HE|]. split; [subst s1; rewrite HE; cbn; by left|].
  assert (HS : handleDataExport env q s2 = HandleStatus q s2).
  { unfold handleDataExport. rewrite bool_decide_false by congruence. by rewrite bool_decide_true. }
  rewrite HS. unfold HandleStatus. rewrite (bool_decide_false (cMethod q ≠ "GET")) by (intros Hn; by apply Hn). rewrite Hi.
  rewrite (bool_decide_false (cFresh r = "")) by done. cbv zeta. rewrite (bool_decide_false (cFresh r = "" ∨ cFresh r = "." ∨ cFresh r = "/")) by tauto.
  rewrite Hg. cbn. rewrite Hh. cbn.
  destruct (decide (cNow q <= (cNow r + exportDays) / Second * Second)) as [Hlate|Hlate];
    [rewrite (bool_decide_true (cNow q <= _)) by done|rewrite (bool_decide_false (cNow q <= _)) by done].
  - rewrite (bool_decide_false (Complete = Complete ∧ (cNow r + exportDays) / Second * Second < cNow q)) by lia.
    rewrite bool_decide_true by done. eauto.
  - rewrite (bool_decide_true (Complete = Complete ∧ (cNow r + exportDays) / Second * Second < cNow q)) by (split; [done|lia]).
    by rewrite bool_decide_false by (by intros []).
Qed.

(** ** What the requests do not do *)

(** An export whose data could not be collected is reported as complete. *)
Theorem failed_export_is_complete collect disk p s j : heap s !! p = Some j → collect (JTenantID j) = None →
  heap (runExport collect disk p s) !! p = Some (SetStatus Complete j) ∧ files (runExport collect disk p s) = files s.
Proof.
  intros Hj Hc. unfold runExport, exportedFile. rewrite Hj, Hc. destruct (collects (handler s)); cbn; rewrite list_lookup_alter_eq, Hj; done.
Qed.

(** The server configures its export handler without a collector: no export writes a file. *)
Theorem server_exports_nothing env collect disk p s : handler s = NewExportHandler env (jobStore (handler s)) false →
  files (runExport collect disk p s) = files s.
Proof. intros Hh. unfold runExport, exportedFile. destruct (heap s !! p); [|done]. by rewrite Hh. Qed.

(** Whoever knows a job's id reads its status and path, of whatever tenant. *)
Theorem export_status_ignores_the_caller (m path query confirm fresh : string) (now : Time) (ac ac' : option AuthContext) (s : Exports) :
  let r a := {| cMethod := m; cAuth := a; cPath := path; cQuery := query; cConfirm := confirm; cNow := now; cFresh := fresh |} in
  HandleStatus (r ac) s = HandleStatus (r ac') s.
Proof. done. Qed.

(** A deletion request is accepted, and nothing is deleted or recorded. *)
Theorem data_delete_deletes_nothing {W} env r (w : W) : (handleDataDelete env r w).2 = w.
Proof.
  unfold handleDataDelete, DeleteServe. case_bool_decide; [done|]. destruct (cAuth r) as [ac|]; [|done].
  destruct (ownerByType ac); [|done]. simpl. destruct (RequireTenant env ac); [done|]. by case_bool_decide.
Qed.

(** The owner of both requests is whoever says so in a header, and a header that names a
    kind of subject locks a real owner out. *)
Theorem owner_is_a_header (h : Header) :
  (TrimSpace (h "X-Subject-Type") = "owner" ∨ TrimSpace (h "X-Subject-Type") = "" → ownerByType (FromRequest h) = true) ∧
  (TrimSpace (h "X-Subject-Type") = "user" → ∀ role, ownerByType (withRole role (FromRequest h)) = false).
Proof.
  unfold ownerByType, FromRequest, withRole. cbn [SubjectType]. split; [intros [-> | ->]; reflexivity|intros -> role; reflexivity].
Qed.

(** ** Witnesses *)

Definition owner_auth : AuthContext :=
  {| ATenantID := "acme"; PrincipalID := "ann"; Scopes := []; SubjectType := "owner"; APIKeyID := ""; ARole := ""; BearerToken := "";
     TokenTenantID := ""; TokenPrincipalID := ""; Validated := false |}.

Definition export_request (m query : string) (now : Time) : CRequest :=
  {| cMethod := m; cAuth := Some owner_auth; cPath := "/v1/tenants/data-export"; cQuery := query; cConfirm := ""; cNow := now; cFresh := "exp_1" |}.

Definition no_exports : Exports :=
  {| handler := NewExportHandler no_env (NewExportJobStore 100) true; heap := []; running := []; files := ∅ |}.

Lemma export_store_window_witness : GetJob "b" (addAll 2 ["a"; "b"; "c"]) = Some 1%nat ∧ GetJob "a" (addAll 2 ["a"; "b"; "c"]) = None.
Proof.
  destruct (export_store_window 2 ["a"; "b"; "c"]) as (_ & Hg & _); [lia|apply (bool_decide_unpack _); vm_compute; exact I|].
  split; [apply Hg; simpl; auto with lia|]. destruct (GetJob "a" _) as [p|] eqn:E; [|done]. apply Hg in E as [E Hle].
  destruct p as [|[|[|p]]]; vm_compute in E, Hle; congruence || lia.
Defined.

Lemma export_jobs_progress_witness :
  exportsOk (handleDataExport no_env (export_request "POST" "" 0) no_exports).2.
Proof.
  apply (export_jobs_progress no_env no_exports); [split; [intros p Hp; by apply not_elem_of_nil in Hp|intros p j Hj; by destruct p]|].
  eapply rtc_l; [apply step_request|apply rtc_refl].
Defined.

Lemma export_delivers_witness :
  ∃ path, (handleDataExport no_env (export_request "GET" "exp_1" (6 * Day))
            (runExport (λ _, Some "{}") DiskOK 0 (without 0 (handleDataExport no_env (export_request "POST" "" 0) no_exports).2))).1
          = CStatus "exp_1" Complete (Some path).
Proof.
  destruct (export_delivers no_env (export_request "POST" "" 0) (export_request "GET" "exp_1" (6 * Day)) no_exports owner_auth "acme" "{}" (λ _, Some "{}"))
    as (_ & _ & Hx); try reflexivity; try discriminate.
  destruct Hx as (path & Hs & _). exists path. exact Hs.
Defined.
