(* ===== verification/McpStores.v ===== *)
(** * McpStores: the stores behind the MCP tools

    Clearance tiers (mcp/clearance_store.go and the Postgres table of
    internal/storage/postgres/clearance.go), elevation requests (clearance.go),
    the audit log of decisions (mcp/tools/auditstore.go) and the manager of
    spawned agents (internal/agents/manager.go).  Every store is guarded by a
    mutex, so a method is one step; fresh identifiers and clock readings are
    arguments. *)
From S2P Require Import Prelude GoStrings Access.

(** ** Clearance tiers *)

Definition ClearancePublic : Z := 0.
Definition ClearanceInternal : Z := 1.
Definition ClearanceExecute : Z := 2.
Definition ClearanceAdmin : Z := 3.
Definition ClearanceSuperAdmin : Z := 4.

Inductive ClearanceError :=
  | ErrAgentIDEmpty | ErrTenantIDEmpty | ErrAgentUnknown (agentID : string) | ErrClearanceDB.

(** The interface: [fault] says whether a query to the outside fails. *)
Class ClearanceStore (S : Type) := GetClearance : bool → string → S → ClearanceError + Z.

(** What the clients rely on: an agent without a name has no clearance. *)
Class ClearanceStoreLaws (S : Type) `{ClearanceStore S} : Prop :=
  clearance_needs_name fault s : ∃ e, GetClearance fault "" s = inl e.

Record InMemoryClearanceStore := { tiers : gmap string Z; defaultTier : Z; failClosed : bool }.

Inductive ClearanceOption := WithDefaultTier (tier : Z) | WithAgents (agents : gmap string Z).

Definition applyOption (s : InMemoryClearanceStore) (o : ClearanceOption) : InMemoryClearanceStore :=
  match o with
  | WithDefaultTier tier => {| tiers := tiers s; defaultTier := tier; failClosed := false |}
  | WithAgents agents => {| tiers := agents ∪ tiers s; defaultTier := defaultTier s; failClosed := failClosed s |}
  end.

Definition NewInMemoryClearanceStore (opts : list ClearanceOption) : InMemoryClearanceStore :=
  foldl applyOption {| tiers := ∅; defaultTier := 0; failClosed := true |} opts.

Definition GetClearance_memory (fault : bool) (agentID : string) (s : InMemoryClearanceStore) : ClearanceError + Z :=
  if decide (agentID = "") then inl ErrAgentIDEmpty
  else match tiers s !! agentID with
       | Some tier => inr tier
       | None => if failClosed s then inl (ErrAgentUnknown agentID) else inr (defaultTier s)
       end.

Definition SetClearance_memory (agentID : string) (tier : Z) (s : InMemoryClearanceStore) :
    option ClearanceError * InMemoryClearanceStore :=
  if decide (agentID = "") then (Some ErrAgentIDEmpty, s)
  else (None, {| tiers := <[agentID := tier]> (tiers s); defaultTier := defaultTier s; failClosed := failClosed s |}).

(** The table agent_clearance: tenant, tier, creation and last update. *)
Record ClearanceRow := { crTenantID : string; crTier : Z; crCreatedAt : Time; crUpdatedAt : Time }.
Record PostgresClearanceStore := { crRows : gmap string ClearanceRow }.

Definition GetClearance_postgres (fault : bool) (agentID : string) (s : PostgresClearanceStore) : ClearanceError + Z :=
  if decide (agentID = "") then inl ErrAgentIDEmpty
  else if fault then inl ErrClearanceDB
  else match crRows s !! agentID with
       | None => inl (ErrAgentUnknown agentID)
       | Some row => inr (crTier row)
       end.

Definition SetClearance_postgres (fault : bool) (now : Time) (agentID tenantID : string) (tier : Z)
    (s : PostgresClearanceStore) : option ClearanceError * PostgresClearanceStore :=
  if decide (agentID = "") then (Some ErrAgentIDEmpty, s)
  else if decide (tenantID = "") then (Some ErrTenantIDEmpty, s)
  else if fault then (Some ErrClearanceDB, s)
  else
    let created := match crRows s !! agentID with Some row => crCreatedAt row | None => now end in
    (None, {| crRows := <[agentID := {| crTenantID := tenantID; crTier := tier;
                                        crCreatedAt := created; crUpdatedAt := now |}]> (crRows s) |}).

#[global] Instance ClearanceStore_memory : ClearanceStore InMemoryClearanceStore := GetClearance_memory.
#[global] Instance ClearanceStore_postgres : ClearanceStore PostgresClearanceStore := GetClearance_postgres.

#[global] Instance ClearanceStoreLaws_memory : ClearanceStoreLaws InMemoryClearanceStore.
Proof. intros fault s. by eexists. Qed.

#[global] Instance ClearanceStoreLaws_postgres : ClearanceStoreLaws PostgresClearanceStore.
Proof. intros fault s. by eexists. Qed.

(** ** Elevation requests *)

Record ElevationRequest := {
  eID : string;
  eAgentID : string;
  eTenantID : string;
  eRequestedTier : Z;
  eReason : string;
  eStatus : string;
  eApprovedAt : option Time;
  eExpiresAt : option Time;
  eCreatedAt : Time
}.

Inductive ElevationError :=
  | ElevationAgentEmpty | ElevationTenantEmpty | ElevationTierRange (tier : Z) | ElevationReasonEmpty
  | ElevationRandom | ElevationIDEmpty | ElevationDuration | ElevationNotFound (requestID : string).

Abbreviation ElevationStore := (gmap string ElevationRequest).

(** [fresh]: the identifier drawn, or [None] when the random source fails. *)
Definition RequestElevation (fresh : option string) (now : Time) (agentID tenantID : string) (requestedTier : Z)
    (reason : string) (s : ElevationStore) : (ElevationError + string) * ElevationStore :=
  if decide (agentID = "") then (inl ElevationAgentEmpty, s)
  else if decide (tenantID = "") then (inl ElevationTenantEmpty, s)
  else if decide (requestedTier < 0 ∨ 4 < requestedTier) then (inl (ElevationTierRange requestedTier), s)
  else if decide (reason = "") then (inl ElevationReasonEmpty, s)
  else match fresh with
       | None => (inl ElevationRandom, s)
       | Some id =>
           (inr id, <[id := {| eID := id; eAgentID := agentID; eTenantID := tenantID;
                               eRequestedTier := requestedTier; eReason := reason; eStatus := "pending";
                               eApprovedAt := None; eExpiresAt := None; eCreatedAt := now |}]> s)
       end.

Definition GetElevationStatus (requestID : string) (s : ElevationStore) : ElevationError + ElevationRequest :=
  if decide (requestID = "") then inl ElevationIDEmpty
  else match s !! requestID with
       | None => inl (ElevationNotFound requestID)
       | Some req => inr req
       end.

Definition ApproveElevation (now : Time) (requestID : string) (duration : Duration) (s : ElevationStore) :
    option ElevationError * ElevationStore :=
  if decide (requestID = "") then (Some ElevationIDEmpty, s)
  else if decide (duration <= 0) then (Some ElevationDuration, s)
  else match s !! requestID with
       | None => (Some (ElevationNotFound requestID), s)
       | Some r =>
           (None, <[requestID := {| eID := eID r; eAgentID := eAgentID r; eTenantID := eTenantID r;
                                    eRequestedTier := eRequestedTier r; eReason := eReason r; eStatus := "approved";
                                    eApprovedAt := Some now; eExpiresAt := Some (now + duration);
                                    eCreatedAt := eCreatedAt r |}]> s)
       end.

Definition DenyElevation (requestID : string) (s : ElevationStore) : option ElevationError * ElevationStore :=
  if decide (requestID = "") then (Some ElevationIDEmpty, s)
  else match s !! requestID with
       | None => (Some (ElevationNotFound requestID), s)
       | Some r =>
           (None, <[requestID := {| eID := eID r; eAgentID := eAgentID r; eTenantID := eTenantID r;
                                    eRequestedTier := eRequestedTier r; eReason := eReason r; eStatus := "denied";
                                    eApprovedAt := eApprovedAt r; eExpiresAt := eExpiresAt r;
                                    eCreatedAt := eCreatedAt r |}]> s)
       end.

(** ** The audit log of decisions *)

Record DecisionEntry := {
  deID : string; deAgentID : string; deTenantID : string; deDecision : string; deReasoning : string; deCreatedAt : Time
}.

Record AuditEntry := {
  aeID : string; aeAgentID : string; aeTenantID : string; aeAction : string; aeDetail : string; aeCreatedAt : Time
}.

Record AuditFilter := { fAgentID : string; fTenantID : string; fLimit : Z }.

(** Entries in the order they were logged. *)
Record InMemoryAuditStore := { entries : list AuditEntry; maxSize : Z }.

Definition NewInMemoryAuditStore (maxSize : Z) : InMemoryAuditStore :=
  {| entries := []; maxSize := if decide (maxSize <= 0) then 10000 else maxSize |}.

Definition auditEntry (e : DecisionEntry) : AuditEntry := {|
  aeID := deID e; aeAgentID := deAgentID e; aeTenantID := deTenantID e;
  aeAction := "decision: " +:+ deDecision e; aeDetail := deReasoning e; aeCreatedAt := deCreatedAt e
|}.

Definition LogDecision (s : InMemoryAuditStore) (e : DecisionEntry) : InMemoryAuditStore :=
  let es := entries s ++ [auditEntry e] in
  {| entries := if decide (maxSize s < Z.of_nat (length es)) then drop (length es - Z.to_nat (maxSize s)) es else es;
     maxSize := maxSize s |}.

Definition auditMatches (f : AuditFilter) (e : AuditEntry) : bool :=
  negb (negb (bool_decide (fAgentID f = "")) && negb (EqualFold (aeAgentID e) (fAgentID f))) &&
  negb (negb (bool_decide (fTenantID f = "")) && negb (EqualFold (aeTenantID e) (fTenantID f))).

(** The loop of [Read], over the entries from the newest to the oldest. *)
Fixpoint readLoop (f : AuditFilter) (limit : Z) (newestFirst : list AuditEntry) (results : list AuditEntry) :
    list AuditEntry :=
  match newestFirst with
  | [] => results
  | e :: es =>
      if decide (Z.of_nat (length results) < limit) then
        readLoop f limit es (if auditMatches f e then results ++ [e] else results)
      else results
  end.

Definition auditLimit (limit : Z) : Z := if decide (limit <= 0) then 50 else limit.

Definition Read (f : AuditFilter) (s : InMemoryAuditStore) : list AuditEntry :=
  readLoop f (auditLimit (fLimit f)) (reverse (entries s)) [].

(** ** Spawned agents *)

Inductive AgentStatus := AgentStatusCreated | AgentStatusRunning | AgentStatusCompleted | AgentStatusFailed.

#[global] Instance AgentStatus_eq_dec : EqDecision AgentStatus.
Proof. solve_decision. Defined.

Record Message := { msgID : string; msgFromID : string; msgToID : string; msgContent : string; msgCreatedAt : Time }.

Record Agent := {
  agID : string;
  agParentID : string;
  agTenantID : string;
  agDirective : string;
  agAllowedTools : list string;
  agStatus : AgentStatus;
  agMessages : list Message;
  agCreatedAt : Time;
  agUpdatedAt : Time
}.

Record AgentManager := {
  managed : gmap string Agent;
  childrenByParent : gmap string (gset string);
  maxConcurrentPerParent : Z
}.

Inductive ManagerError :=
  | ParentEmpty | TenantEmpty | DirectiveEmpty | ParentNotFound (parentID : string)
  | ParentFailed (parentID : string) | TenantMismatch | TooManyAgents
  | FromEmpty | ToEmpty | MessageEmpty | SenderNotFound (fromID : string) | RecipientNotFound (toID : string)
  | CrossTenant | StatusIDEmpty | AgentNotFound (agentID : string).

Definition DefaultMaxConcurrentAgents : Z := 10.

Definition NewInMemoryAgentManager (maxConcurrent : Z) : AgentManager :=
  {| managed := ∅; childrenByParent := ∅;
     maxConcurrentPerParent := if decide (maxConcurrent <= 0) then DefaultMaxConcurrentAgents else maxConcurrent |}.

Definition SeedAgent (a : Agent) (m : AgentManager) : AgentManager :=
  {| managed := <[agID a := a]> (managed m); childrenByParent := childrenByParent m;
     maxConcurrentPerParent := maxConcurrentPerParent m |}.

Definition active (m : AgentManager) (childID : string) : bool :=
  match managed m !! childID with
  | Some child => bool_decide (agStatus child = AgentStatusCreated ∨ agStatus child = AgentStatusRunning)
  | None => false
  end.

Definition activeCount (m : AgentManager) (parentID : string) : Z :=
  Z.of_nat (size (filter (λ c, active m c = true) (go_get ∅ (childrenByParent m) parentID))).

Definition SpawnAgent (freshID : string) (now : Time) (parentID tenantID directive : string) (tools : list string)
    (m : AgentManager) : (ManagerError + Agent) * AgentManager :=
  if decide (parentID = "") then (inl ParentEmpty, m)
  else if decide (tenantID = "") then (inl TenantEmpty, m)
  else if decide (directive = "") then (inl DirectiveEmpty, m)
  else match managed m !! parentID with
  | None => (inl (ParentNotFound parentID), m)
  | Some parent =>
      if decide (agStatus parent = AgentStatusFailed) then (inl (ParentFailed parentID), m)
      else if decide (agTenantID parent ≠ tenantID) then (inl TenantMismatch, m)
      else if decide (maxConcurrentPerParent m <= activeCount m parentID) then (inl TooManyAgents, m)
      else
        let agent := {| agID := freshID; agParentID := parentID; agTenantID := tenantID; agDirective := directive;
                        agAllowedTools := tools; agStatus := AgentStatusCreated; agMessages := [];
                        agCreatedAt := now; agUpdatedAt := now |} in
        (inr agent,
         {| managed := <[freshID := agent]> (managed m);
            childrenByParent :=
              <[parentID := {[freshID]} ∪ go_get ∅ (childrenByParent m) parentID]> (childrenByParent m);
            maxConcurrentPerParent := maxConcurrentPerParent m |})
  end.

Definition SendMessage (freshID : string) (now : Time) (fromID toID message : string) (m : AgentManager) :
    option ManagerError * AgentManager :=
  if decide (fromID = "") then (Some FromEmpty, m)
  else if decide (toID = "") then (Some ToEmpty, m)
  else if decide (message = "") then (Some MessageEmpty, m)
  else match managed m !! fromID with
  | None => (Some (SenderNotFound fromID), m)
  | Some from =>
      match managed m !! toID with
      | None => (Some (RecipientNotFound toID), m)
      | Some to =>
          if decide (agTenantID from ≠ agTenantID to) then (Some CrossTenant, m)
          else
            let msg := {| msgID := freshID; msgFromID := fromID; msgToID := toID; msgContent := message;
                          msgCreatedAt := now |} in
            (None,
             {| managed :=
                  <[toID := {| agID := agID to; agParentID := agParentID to; agTenantID := agTenantID to;
                               agDirective := agDirective to; agAllowedTools := agAllowedTools to;
                               agStatus := agStatus to; agMessages := agMessages to ++ [msg];
                               agCreatedAt := agCreatedAt to; agUpdatedAt := now |}]> (managed m);
                childrenByParent := childrenByParent m;
                maxConcurrentPerParent := maxConcurrentPerParent m |})
      end
  end.

Definition GetStatus (agentID : string) (m : AgentManager) : ManagerError + Agent :=
  if decide (agentID = "") then inl StatusIDEmpty
  else match managed m !! agentID with
       | None => inl (AgentNotFound agentID)
       | Some agent => inr agent
       end.

(** ** Histories *)

Inductive ManagerOp :=
  | OpSpawn (freshID : string) (now : Time) (parentID tenantID directive : string) (tools : list string)
  | OpSend (freshID : string) (now : Time) (fromID toID message : string).

Definition managerStep (m : AgentManager) (op : ManagerOp) : AgentManager :=
  match op with
  | OpSpawn freshID now p t d tools => (SpawnAgent freshID now p t d tools m).2
  | OpSend freshID now f t msg => (SendMessage freshID now f t msg m).2
  end.

(** The identifiers drawn for new agents. *)
Definition drawnIDs (ops : list ManagerOp) : list string :=
  omap (λ op, match op with OpSpawn freshID _ _ _ _ _ => Some freshID | OpSend _ _ _ _ _ => None end) ops.

(** What [SeedAgent] alone can build: root agents without children or mail. *)
Record seeded (m : AgentManager) : Prop := {
  seeded_keys id a : managed m !! id = Some a → agID a = id ∧ agMessages a = [];
  seeded_children : childrenByParent m = ∅;
  seeded_limit : 0 <= maxConcurrentPerParent m
}.

Record managerOk (m : AgentManager) : Prop := {
  mok_keys id a : managed m !! id = Some a → agID a = id;
  mok_children p c : c ∈ go_get ∅ (childrenByParent m) p →
    ∃ pa ca, managed m !! p = Some pa ∧ managed m !! c = Some ca ∧
      agParentID ca = p ∧ agTenantID ca = agTenantID pa ∧ agStatus ca = AgentStatusCreated;
  mok_limit p : Z.of_nat (size (go_get ∅ (childrenByParent m) p)) <= maxConcurrentPerParent m;
  mok_messages id a msg : managed m !! id = Some a → msg ∈ agMessages a →
    msgToID msg = id ∧ ∃ f, managed m !! msgFromID msg = Some f ∧ agTenantID f = agTenantID a
}.

Lemma seeded_ok m : seeded m → managerOk m.
Proof.
  intros [Hk Hc Hl]. split.
  - intros id a Ha. by destruct (Hk id a Ha).
  - intros p c. rewrite Hc. unfold go_get. rewrite lookup_empty. set_solver.
  - intros p. rewrite Hc. unfold go_get. rewrite lookup_empty. done.
  - intros id a msg Ha. destruct (Hk id a Ha) as [_ ->]. set_solver.
Qed.

(** As every child stays "created", all children of a parent are active. *)
Lemma active_all m p : managerOk m → activeCount m p = Z.of_nat (size (go_get ∅ (childrenByParent m) p)).
Proof.
  intros Hok. unfold activeCount. f_equal. f_equal. apply set_eq. intros c. rewrite elem_of_filter. split; [tauto|].
  intros Hc. split; [|done]. destruct (mok_children m Hok p c Hc) as (pa & ca & _ & Hca & _ & _ & Hs).
  unfold active. rewrite Hca. apply bool_decide_eq_true. by left.
Qed.

Lemma SpawnAgent_ok freshID now p t d tools m :
  managerOk m → managed m !! freshID = None → managerOk (SpawnAgent freshID now p t d tools m).2.
Proof.
  intros Hok Hfresh. unfold SpawnAgent.
  destruct (decide (p = "")), (decide (t = "")), (decide (d = "")); try done.
  destruct (managed m !! p) as [pa|] eqn:Hp; [|done].
  destruct (decide (agStatus pa = AgentStatusFailed)); [done|].
  destruct (decide (agTenantID pa ≠ t)) as [|Ht]; [done|]. apply dec_stable in Ht.
  destruct (decide _) as [|Hlim]; [done|]. rewrite active_all in Hlim by done.
  assert (p ≠ freshID) as Hpf by congruence. cbn [snd].
  split; cbn [managed childrenByParent maxConcurrentPerParent].
  - intros id a. rewrite lookup_insert. case_decide as Hd; [by intros [= <-]|]. apply (mok_keys m Hok).
  - intros p' c. rewrite go_get_insert. intros Hc.
    assert (c = freshID ∧ p' = p ∨ c ∈ go_get ∅ (childrenByParent m) p') as [[-> ->]|Hold]
      by (revert Hc; case_decide; set_solver).
    + exists pa. eexists. rewrite lookup_insert_ne by done. rewrite lookup_insert_eq. split_and!; done.
    + destruct (mok_children m Hok p' c Hold) as (pa' & ca & Hpa' & Hca & Hrest).
      exists pa', ca. rewrite !lookup_insert_ne by congruence. done.
  - intros p'. rewrite go_get_insert. case_decide; subst; [|apply (mok_limit m Hok)].
    rewrite size_union, size_singleton; [lia|]. apply disjoint_singleton_l. intros Hin.
    destruct (mok_children m Hok p' freshID Hin) as (? & ? & _ & ? & _). congruence.
  - intros id a msg Ha Hin. rewrite lookup_insert in Ha. case_decide; simplify_eq/=; [set_solver|].
    destruct (mok_messages m Hok id a msg Ha Hin) as (Hto & f & Hf & Htf). split; [done|].
    exists f. rewrite lookup_insert_ne; [done|congruence].
Qed.

Lemma SendMessage_ok freshID now f t msg m : managerOk m → managerOk (SendMessage freshID now f t msg m).2.
Proof.
  intros Hok. unfold SendMessage.
  destruct (decide (f = "")), (decide (t = "")), (decide (msg = "")); try done.
  destruct (managed m !! f) as [fa|] eqn:Hf; [|done].
  destruct (managed m !! t) as [ta|] eqn:Ht; [|done].
  destruct (decide _) as [|Heq]; [done|]. apply dec_stable in Heq. cbn [snd].
  set (ta' := {| agID := agID ta |}).
  (* the delivery replaces an agent by one with the same identity *)
  assert (∀ id a, managed m !! id = Some a → ∃ a', <[t := ta']> (managed m) !! id = Some a' ∧
            agParentID a' = agParentID a ∧ agTenantID a' = agTenantID a ∧ agStatus a' = agStatus a) as Hup.
  { intros id a Ha. destruct (decide (t = id)) as [<-|].
    - exists ta'. rewrite lookup_insert_eq. simplify_eq. done.
    - exists a. by rewrite lookup_insert_ne. }
  split; cbn [managed childrenByParent maxConcurrentPerParent].
  - intros id a. rewrite lookup_insert. case_decide; [|apply (mok_keys m Hok)].
    intros [= <-]. subst. apply (mok_keys m Hok _ _ Ht).
  - intros p c Hc. destruct (mok_children m Hok p c Hc) as (pa & ca & Hpa & Hca & H1 & H2 & H3).
    destruct (Hup p pa Hpa) as (pa' & Hpa' & _ & Htp & _), (Hup c ca Hca) as (ca' & Hca' & Hpc & Htc & Hsc).
    exists pa', ca'. split_and!; congruence.
  - apply (mok_limit m Hok).
  - intros id a x Ha Hin. rewrite lookup_insert in Ha. case_decide as Hd; simplify_eq/=.
    + apply elem_of_app in Hin as [Hin|[->|[]%not_elem_of_nil]%elem_of_cons].
      * destruct (mok_messages m Hok _ _ _ Ht Hin) as (Hto & g & Hg & Htg). split; [done|].
        destruct (Hup _ _ Hg) as (g' & Hg' & _ & Htg' & _). exists g'. split; [done|]. simpl. congruence.
      * simpl. split; [done|]. destruct (Hup _ _ Hf) as (g' & Hg' & _ & Htg' & _). exists g'. split; [done|]. congruence.
    + destruct (mok_messages m Hok _ _ _ Ha Hin) as (Hto & g & Hg & Htg). split; [done|].
      destruct (Hup _ _ Hg) as (g' & Hg' & _ & Htg' & _). exists g'. split; [done|]. congruence.
Qed.

Lemma managerStep_dom m op id :
  managed m !! id = None → (∀ i, i ∈ drawnIDs [op] → i ≠ id) → managed (managerStep m op) !! id = None.
Proof.
  intros Hid Hne. destruct op as [i now p t d tools|i now f t msg]; simpl.
  - unfold SpawnAgent. repeat case_match; try done. simpl. rewrite lookup_insert_ne; [done|]. apply Hne. simpl. set_solver.
  - unfold SendMessage. repeat case_match; try done. simpl. rewrite lookup_insert_ne; [done|]. congruence.
Qed.

Lemma manager_history_ok m ops :
  managerOk m → NoDup (drawnIDs ops) → (∀ i, i ∈ drawnIDs ops → managed m !! i = None) →
  managerOk (exec managerStep m ops).
Proof.
  revert m. induction ops as [|op ops IH]; intros m Hok Hnd Hfresh; [done|]. simpl.
  assert (∀ i, i ∈ drawnIDs ops → managed (managerStep m op) !! i = None) as Hrest.
  { intros i Hi. apply managerStep_dom.
    - apply Hfresh. unfold drawnIDs. simpl. destruct op; [by apply elem_of_cons; right|done].
    - intros j Hj <-. destruct op; simpl in Hj, Hnd; [|set_solver].
      apply elem_of_cons in Hj as [->|Hj]; [|set_solver]. by apply NoDup_cons in Hnd as [? _]. }
  apply IH; [|destruct op; simpl in Hnd; [by apply NoDup_cons in Hnd as [_ ?]|done]|done].
  destruct op as [i now p t d tools|]; [apply SpawnAgent_ok|apply SendMessage_ok]; try done.
  apply Hfresh. simpl. apply elem_of_cons. by left.
Qed.

(** ** The audit log as a window over the history *)

Definition lastN {A} (n : nat) (l : list A) : list A := drop (length l - n) l.

Lemma lastN_app_drop {A} (n : nat) (l : list A) (x : A) :
  (0 < n)%nat →
  let es := lastN n l ++ [x] in
  (if decide (Z.of_nat n < Z.of_nat (length es)) then drop (length es - n) es else es) = lastN n (l ++ [x]).
Proof.
  intros Hn. cbv zeta. unfold lastN. rewrite !length_app, length_drop. cbn [length].
  case_decide as Hd.
  - rewrite (drop_app_le (drop _ l)), drop_drop, (drop_app_le l) by (rewrite ?length_drop; lia). f_equal. f_equal. lia.
  - rewrite (drop_app_le l) by lia. f_equal. f_equal. lia.
Qed.

Lemma entries_history n ds s0 :
  0 < maxSize s0 → entries s0 = lastN (Z.to_nat (maxSize s0)) n →
  entries (exec LogDecision s0 ds) = lastN (Z.to_nat (maxSize s0)) (n ++ (auditEntry <$> ds)) ∧
  maxSize (exec LogDecision s0 ds) = maxSize s0.
Proof.
  revert n s0. induction ds as [|d ds IH]; intros n s0 Hpos He.
  - simpl. by rewrite app_nil_r.
  - simpl. destruct (IH (n ++ [auditEntry d]) (LogDecision s0 d)) as [-> ->]; [done|..].
    + unfold LogDecision. simpl. rewrite <-lastN_app_drop, <-He by lia. by rewrite Z2Nat.id by lia.
    + simpl. by rewrite <-app_assoc.
Qed.

Lemma readLoop_spec f limit es results :
  0 <= limit → Z.of_nat (length results) <= limit →
  readLoop f limit es results = take (Z.to_nat limit) (results ++ filter (λ e, auditMatches f e = true) es).
Proof.
  intros Hl. revert results. induction es as [|e es IH]; intros results Hr; simpl.
  - rewrite filter_nil, app_nil_r, take_ge; [done|lia].
  - case_decide as Hd.
    + rewrite IH by (destruct (auditMatches f e); rewrite ?length_app; simpl; lia).
      rewrite filter_cons. destruct (auditMatches f e); case_decide; try done. by rewrite <-app_assoc.
    + rewrite take_app_le, take_ge by lia. done.
Qed.

(** ** Properties *)

(** The audit log: after any sequence of decisions, reading with a filter
    returns the newest matching entries of the last [maxSize] decisions, newest
    first, up to the limit (50 when none is given), and nothing else. *)
Theorem audit_read_exact n f ds :
  let N := if decide (n <= 0) then 10000 else n in
  Read f (exec LogDecision (NewInMemoryAuditStore n) ds) =
  take (Z.to_nat (auditLimit (fLimit f)))
    (filter (λ e, auditMatches f e = true) (reverse (lastN (Z.to_nat N) (auditEntry <$> ds)))).
Proof.
  intros N. unfold Read.
  destruct (entries_history [] ds (NewInMemoryAuditStore n)) as [-> _].
  - simpl. case_decide; lia.
  - done.
  - rewrite readLoop_spec; simpl.
    + done.
    + unfold auditLimit. case_decide; lia.
    + unfold auditLimit. case_decide; lia.
Qed.

(** Spawned agents stay within their tenant: from any set of seeded agents,
    after every interleaving of spawns and messages, each child belongs to the
    tenant of its parent, no parent ever has more children than the limit, and
    every message an agent holds was sent by an agent of its own tenant.
    Without a seeded agent nothing can ever be spawned. *)
Theorem agent_tree_isolated m ops :
  seeded m → NoDup (drawnIDs ops) → (∀ i, i ∈ drawnIDs ops → managed m !! i = None) →
  managerOk (exec managerStep m ops) ∧ (managed m = ∅ → exec managerStep m ops = m).
Proof.
  intros Hs Hnd Hfresh. split; [apply manager_history_ok; [by apply seeded_ok|done..]|].
  intros He. clear -He. induction ops as [|op ops IH]; [done|].
  assert (managerStep m op = m) as Hm; [|simpl; by rewrite Hm].
  destruct op as [i now p t d tools|i now f t msg]; simpl.
  - unfold SpawnAgent. rewrite He, lookup_empty. by repeat case_decide.
  - unfold SendMessage. rewrite He, lookup_empty. by repeat case_decide.
Qed.

(** ** Witnesses and examples *)

Definition rootAgent (id tenant : string) : Agent := {|
  agID := id; agParentID := ""; agTenantID := tenant; agDirective := "root"; agAllowedTools := [];
  agStatus := AgentStatusRunning; agMessages := []; agCreatedAt := 0; agUpdatedAt := 0
|}.

Definition sample_manager : AgentManager :=
  SeedAgent (rootAgent "r2" "globex") (SeedAgent (rootAgent "r1" "acme") (NewInMemoryAgentManager 2)).

Definition sample_manager_ops : list ManagerOp :=
  [OpSpawn "c1" 1 "r1" "acme" "d" []; OpSpawn "c2" 2 "r1" "globex" "d" []; OpSend "m1" 3 "c1" "r1" "hi";
   OpSend "m2" 4 "r2" "c1" "hi"; OpSpawn "c3" 5 "r1" "acme" "d" []; OpSpawn "c4" 6 "r1" "acme" "d" []].

Lemma agent_tree_isolated_witness :
  managerOk (exec managerStep sample_manager sample_manager_ops) ∧
  (length ∘ agMessages <$> managed (exec managerStep sample_manager sample_manager_ops) !! "r1") = Some 1%nat ∧
  managed (exec managerStep sample_manager sample_manager_ops) !! "c4" = None.
Proof.
  split; [|split; reflexivity].
  apply (agent_tree_isolated sample_manager sample_manager_ops).
  - split.
    + intros id a. unfold sample_manager, SeedAgent. simpl. rewrite !lookup_insert, lookup_empty.
      repeat case_decide; intros [= <-]; by subst.
    + done.
    + vm_compute. discriminate.
  - apply (bool_decide_unpack _). vm_compute. exact I.
  - intros i Hi. assert (i = "c1" ∨ i = "c2" ∨ i = "c3" ∨ i = "c4") as [->|[->|[->| ->]]] by (simpl in Hi; set_solver); reflexivity.
Defined.

(** A child never leaves the state "created", so the limit on concurrent
    children is a limit on all children a parent ever has. *)
Example third_child_refused :
  (SpawnAgent "c9" 1000000 "r1" "acme" "d" [] (exec managerStep sample_manager sample_manager_ops)).1 = inl TooManyAgents.
Proof. reflexivity. Qed.

(** A denied request can still be approved, and approval changes no tier: the
    clearance table is a separate store. *)
Example denied_then_approved :
  let s := (RequestElevation (Some "e1") 1 "bot" "acme" 3 "deploy" ∅).2 in
  let s := (DenyElevation "e1" s).2 in
  let s := (ApproveElevation 2 "e1" Hour s).2 in
  match GetElevationStatus "e1" s with
  | inr r => eStatus r = "approved" ∧ eExpiresAt r = Some (2 + Hour)
  | inl _ => False
  end.
Proof. split; reflexivity. Qed.
