(* ===== verification/Mcp.v ===== *)
(** * Mcp: the MCP server (mcp/) and its in-process tools (mcp/tools/)

    The JSON-RPC server with its handshake, identity headers, clearance check
    and governance check (server.go, auth.go, governance_middleware.go), the tool
    registry (registry.go), and the tools that work on the server's own stores:
    the dynamic tools (dynamic.go), the governance tools (governance.go), the
    agent tools (agents.go) and the audit log (observe.go).  The other tools talk
    to services outside; [extCall] gives their outcome.

    The arguments of a call arrive as JSON.  [RawMessage] carries what each
    decoder makes of the text ([None] when it fails), and the nested text of a
    [params] member; [Nil] is the absent message.  The list of the tools whose
    handlers run during a request is part of the result. *)
From S2P Require Import Prelude GoTime GoPath GoStrings Access Governance McpStores.

#[local] Open Scope go_scope.

(** ** Arguments, results and errors *)

Record Decodings := {
  dToolName : option string;               (* {tool_name}, also with params *)
  dSpawn : option (string * list string);  (* {directive, allowed_tools} *)
  dMessage : option (string * string);     (* {agent_id, message} *)
  dAgent : option string;                  (* {agent_id} *)
  dLog : option (string * string);         (* {decision, reasoning} *)
  dElevation : option (string * Z);        (* {reason, requested_tier} *)
  dRequest : option string;                (* {request_id} *)
  dAudit : option AuditFilter;             (* {agent_id, tenant_id, limit} *)
  dArgs : list (string * any)              (* as an object, empty if it is none *)
}.

Inductive RawMessage := Nil | Raw (d : Decodings) (params : RawMessage).

Definition decode {A} (field : Decodings → option A) (p : RawMessage) : option A :=
  match p with Nil => None | Raw d _ => field d end.

Record MCPAuthContext := { mAgentID : string; mTenantID : string }.

(** Why [AuthorizeToolCall] refuses. *)
Inductive AuthDenial :=
  | MissingContext | MissingIdentity | LookupFailed (e : ClearanceError) | TierTooLow (tier required : Z).

Record discoveredTool := { dtName : string; dtDescription : string; dtMinClearance : Z; dtStatic : bool }.
Record capabilityCategory := { ccCategory : string; ccCount : Z; ccActive : bool }.

Inductive CheckReason := ReasonNotFound (name : string) | ReasonDenied (why : AuthDenial) | ReasonSufficient.

Inductive ToolResult :=
  | Discovered (tools : list discoveredTool)
  | ToolSchema (name description schema : string)
  | Capabilities (categories : list capabilityCategory)
  | CheckedAuth (authorized : bool) (reason : CheckReason)
  | DecisionLogged (id : string)
  | ElevationRequested (id : string)
  | ElevationStatus (id status : string) (approvedTier : option Z) (expiresAt : option Time)
  | Spawned (agentID parentID tenantID : string) (status : AgentStatus) (directive : string)
  | Delivered (toAgentID : string)
  | StatusOf (agent : Agent)
  | AuditLog (entries : list AuditEntry)
  | ExternalResult (text : string)
  | NotEncodable.

Inductive ToolError :=
  | InvalidParameters | Required (field : string) | ToolNotFound (name : string) | MissingAuthContext
  | Insufficient (tool : string) (why : AuthDenial) | ClearanceLookup (e : ClearanceError)
  | NoEntryID | TierOutOfRange (tier : Z) | ElevationFailed (e : ElevationError)
  | SpawnFailed (e : ManagerError) | SendFailed (e : ManagerError) | StatusFailed (e : ManagerError)
  | GovernanceDenied (reason : string) | ExternalError (text : string) | MarshalFailed.

(** The outcome of a tool that calls the outside; a result may be one that
    cannot be encoded. *)
Inductive ExtOutcome := ExtError (text : string) | ExtResult (text : string) | ExtGarbled.

(** The handlers: invoke_tool, which runs another tool, and the others, the ones
    that call the outside among them. *)
Inductive LeafHandler :=
  | DiscoverTools | GetToolSchema | ListCapabilities
  | CheckAuthorization | LogDecisionTool | RequestElevationTool | CheckElevationStatus
  | SpawnAgentTool | MessageAgentTool | GetAgentStatus | GetAuditLog
  | External.

Inductive ToolHandler := InvokeTool | Leaf (h : LeafHandler).

Record Tool := {
  tName : string;
  tDescription : string;
  tInputSchema : string;
  tHandler : ToolHandler;
  tMinClearance : Z;
  tStatic : bool;
  tCategory : string
}.

(** ** The registry (registry.go) *)

Abbreviation ToolRegistry := (gmap string Tool).

Inductive RegistryError := NameEmpty | NoHandler (name : string) | AlreadyRegistered (name : string) | NotRegistered (name : string).

Definition NewToolRegistry : ToolRegistry := ∅.

(** [nilHandler]: the Handler field of the argument is nil. *)
Definition RegisterTool (nilHandler : bool) (t : Tool) (r : ToolRegistry) : option RegistryError * ToolRegistry :=
  if decide (tName t = "") then (Some NameEmpty, r)
  else if nilHandler then (Some (NoHandler (tName t)), r)
  else match r !! tName t with
       | Some _ => (Some (AlreadyRegistered (tName t)), r)
       | None => (None, <[tName t := t]> r)
       end.

Definition Unregister (name : string) (r : ToolRegistry) : option RegistryError * ToolRegistry :=
  match r !! name with
  | None => (Some (NotRegistered name), r)
  | Some _ => (None, delete name r)
  end.

Definition GetTool (name : string) (r : ToolRegistry) : option Tool := r !! name.

(** [List] visits the map in any order. *)
Class ToolRange := tool_range : ToolRegistry → list (string * Tool).
Class ToolRangeLaws `{ToolRange} : Prop := tool_range_perm : GoRange tool_range.

Definition ListTools `{ToolRange} (r : ToolRegistry) : list Tool := (tool_range r).*2.

(** A sequence of registrations that stops at the first error. *)
Fixpoint registerTools (ts : list Tool) (r : ToolRegistry) : option RegistryError * ToolRegistry :=
  match ts with
  | [] => (None, r)
  | t :: ts' =>
      match RegisterTool false t r with
      | (Some e, r') => (Some e, r')
      | (None, r') => registerTools ts' r'
      end
  end.

Definition staticTool (name description schema : string) (clearance : Z) (category : string) (h : ToolHandler) : Tool := {|
  tName := name; tDescription := description; tInputSchema := schema; tHandler := h;
  tMinClearance := clearance; tStatic := true; tCategory := category
|}.

Section registration.
Context (descr schema : string → string).

Definition internalTool (name : string) (clearance : Z) (category : string) (h : ToolHandler) : Tool :=
  staticTool name (descr name) (schema name) clearance category h.

Definition RegisterDynamicTools (r : ToolRegistry) : option RegistryError * ToolRegistry :=
  registerTools
    [internalTool "discover_tools" ClearancePublic "" (Leaf DiscoverTools);
     internalTool "get_tool_schema" ClearancePublic "" (Leaf GetToolSchema);
     internalTool "invoke_tool" ClearanceInternal "" InvokeTool;
     internalTool "list_capabilities" ClearancePublic "" (Leaf ListCapabilities)] r.

(** The elevation tools come only with an elevation store. *)
Definition RegisterGovernanceTools (hasElevation : bool) (r : ToolRegistry) : option RegistryError * ToolRegistry :=
  registerTools
    ([internalTool "check_authorization" ClearancePublic "" (Leaf CheckAuthorization);
      internalTool "log_decision" ClearancePublic "" (Leaf LogDecisionTool)] ++
     if hasElevation then
       [internalTool "request_elevation" ClearancePublic "" (Leaf RequestElevationTool);
        internalTool "check_elevation_status" ClearancePublic "" (Leaf CheckElevationStatus)]
     else []) r.

Definition RegisterAgentTools (r : ToolRegistry) : option RegistryError * ToolRegistry :=
  registerTools
    [internalTool "spawn_agent" ClearanceExecute "" (Leaf SpawnAgentTool);
     internalTool "message_agent" ClearanceExecute "" (Leaf MessageAgentTool);
     internalTool "get_agent_status" ClearanceInternal "" (Leaf GetAgentStatus)] r.

End registration.

(** ** Capability categories (dynamic.go) *)

Definition knownCategories : list string :=
  ["chat"; "health"; "governance"; "sandbox"; "http"; "memory"; "knowledge"; "observe"; "facets"; "dynamic"].

Definition toolCategoryMap : gmap string string := list_to_map [
  ("chat_completion", "chat"); ("list_models", "chat"); ("get_active_model", "chat"); ("get_health", "health");
  ("check_authorization", "governance"); ("log_decision", "governance"); ("execute_code", "sandbox");
  ("fetch_url", "http"); ("http_request", "http"); ("ping_url", "http"); ("memory_store", "memory");
  ("memory_recall", "memory"); ("index_document", "knowledge"); ("search_knowledge", "knowledge");
  ("query_metrics", "observe"); ("get_alerts", "observe"); ("get_container_status", "observe");
  ("get_audit_log", "observe"); ("classify_prompt", "facets"); ("list_facets", "facets");
  ("register_facet", "facets"); ("unregister_facet", "facets"); ("discover_tools", "dynamic");
  ("get_tool_schema", "dynamic"); ("invoke_tool", "dynamic"); ("list_capabilities", "dynamic")].

Definition capabilityOf (name : string) : string := default "other" (toolCategoryMap !! name).

Definition countCategory (counts : gmap string Z) (t : Tool) : gmap string Z :=
  let cat := capabilityOf (tName t) in <[cat := go_get 0 counts cat + 1]> counts.

Definition listCapabilities (allTools : list Tool) : list capabilityCategory :=
  let counts := foldl countCategory ∅ allTools in
  let entry cat := {| ccCategory := cat; ccCount := go_get 0 counts cat;
                      ccActive := bool_decide (0 < go_get 0 counts cat) |} in
  (entry <$> knownCategories) ++
  (let other := go_get 0 counts "other" in
   if decide (0 < other) then [{| ccCategory := "other"; ccCount := other; ccActive := true |}] else []).

(** ** Authorization (auth.go) *)

Section authorize.
Context {S : Type} `{ClearanceStore S}.

(** [None]: the call is authorized. *)
Definition AuthorizeToolCall (fault : bool) (ctx : option MCPAuthContext) (tool : Tool) (store : S) : option AuthDenial :=
  match ctx with
  | None => Some MissingContext
  | Some ac =>
      if decide (mAgentID ac = "") then Some MissingIdentity
      else match GetClearance fault (mAgentID ac) store with
           | inl e => Some (LookupFailed e)
           | inr tier =>
               if decide (tier < tMinClearance tool) then Some (TierTooLow tier (tMinClearance tool)) else None
           end
  end.

End authorize.

(** ** The tools *)

(** What the tools work on. *)
Record Stores {S : Type} := {
  registry : ToolRegistry;
  clearance : S;
  audit : InMemoryAuditStore;
  elevations : ElevationStore;
  manager : AgentManager
}.
Arguments Stores : clear implicits.

(** The outside during one call: whether the clearance lookup of each nesting
    level fails, the identifiers drawn, the clock. *)
Record CallInputs := {
  ciFault : nat → bool;
  ciUUID : option string;
  ciAgentID : string;
  ciMessageID : string;
  ciNow : Time
}.

Section handlers.
Context {S : Type} `{ClearanceStore S} `{ToolRange} `{SliceSort}.
Context (extCall : string → RawMessage → ExtOutcome) (inp : CallInputs) (ctx : option MCPAuthContext).

Definition Answer : Type := (ToolError + ToolResult) * Stores S.

Definition toolNameLe (a b : discoveredTool) : Prop := String.le (dtName a) (dtName b).

#[local] Instance toolNameLe_dec a b : base.Decision (toolNameLe a b).
Proof. unfold toolNameLe. apply _. Defined.

Definition discovered (t : Tool) : discoveredTool :=
  {| dtName := tName t; dtDescription := tDescription t; dtMinClearance := tMinClearance t; dtStatic := tStatic t |}.

Definition makeDiscoverToolsHandler (fault : bool) (w : Stores S) : Answer :=
  match ctx with
  | None => (inl MissingAuthContext, w)
  | Some ac =>
      match GetClearance fault (mAgentID ac) (clearance w) with
      | inl e => (inl (ClearanceLookup e), w)
      | inr tier =>
          let visible := discovered <$> filter (λ t, tMinClearance t <= tier) (ListTools (registry w)) in
          (inr (Discovered (sortSlice toolNameLe visible)), w)
      end
  end.

Definition makeGetToolSchemaHandler (params : RawMessage) (w : Stores S) : Answer :=
  match decode dToolName params with
  | None => (inl InvalidParameters, w)
  | Some name =>
      if decide (name = "") then (inl (Required "tool_name"), w)
      else match GetTool name (registry w) with
           | None => (inl (ToolNotFound name), w)
           | Some t => (inr (ToolSchema (tName t) (tDescription t) (tInputSchema t)), w)
           end
  end.

Definition makeListCapabilitiesHandler (w : Stores S) : Answer :=
  (inr (Capabilities (listCapabilities (ListTools (registry w)))), w).

Definition makeCheckAuthHandler (fault : bool) (params : RawMessage) (w : Stores S) : Answer :=
  match decode dToolName params with
  | None => (inl InvalidParameters, w)
  | Some name =>
      if decide (name = "") then (inl (Required "tool_name"), w)
      else match GetTool name (registry w) with
           | None => (inr (CheckedAuth false (ReasonNotFound name)), w)
           | Some t =>
               match AuthorizeToolCall fault ctx t (clearance w) with
               | Some why => (inr (CheckedAuth false (ReasonDenied why)), w)
               | None => (inr (CheckedAuth true ReasonSufficient), w)
               end
           end
  end.

Definition setAudit (a : InMemoryAuditStore) (w : Stores S) : Stores S :=
  {| registry := registry w; clearance := clearance w; audit := a; elevations := elevations w; manager := manager w |}.
Definition setElevations (e : ElevationStore) (w : Stores S) : Stores S :=
  {| registry := registry w; clearance := clearance w; audit := audit w; elevations := e; manager := manager w |}.
Definition setManager (m : AgentManager) (w : Stores S) : Stores S :=
  {| registry := registry w; clearance := clearance w; audit := audit w; elevations := elevations w; manager := m |}.

Definition makeLogDecisionHandler (params : RawMessage) (w : Stores S) : Answer :=
  match decode dLog params with
  | None => (inl InvalidParameters, w)
  | Some (decision, reasoning) =>
      if decide (decision = "") then (inl (Required "decision"), w)
      else if decide (reasoning = "") then (inl (Required "reasoning"), w)
      else match ctx with
           | None => (inl MissingAuthContext, w)
           | Some ac =>
               match ciUUID inp with
               | None => (inl NoEntryID, w)
               | Some id =>
                   let entry := {| deID := id; deAgentID := mAgentID ac; deTenantID := mTenantID ac;
                                   deDecision := decision; deReasoning := reasoning; deCreatedAt := ciNow inp |} in
                   (inr (DecisionLogged id), setAudit (LogDecision (audit w) entry) w)
               end
           end
  end.

Definition makeRequestElevationHandler (params : RawMessage) (w : Stores S) : Answer :=
  match decode dElevation params with
  | None => (inl InvalidParameters, w)
  | Some (reason, tier) =>
      if decide (reason = "") then (inl (Required "reason"), w)
      else if decide (tier < 0 ∨ 4 < tier) then (inl (TierOutOfRange tier), w)
      else match ctx with
           | None => (inl MissingAuthContext, w)
           | Some ac =>
               match RequestElevation (ciUUID inp) (ciNow inp) (mAgentID ac) (mTenantID ac) tier reason (elevations w) with
               | (inl e, _) => (inl (ElevationFailed e), w)
               | (inr id, es) => (inr (ElevationRequested id), setElevations es w)
               end
           end
  end.

Definition makeCheckElevationStatusHandler (params : RawMessage) (w : Stores S) : Answer :=
  match decode dRequest params with
  | None => (inl InvalidParameters, w)
  | Some requestID =>
      if decide (requestID = "") then (inl (Required "request_id"), w)
      else match GetElevationStatus requestID (elevations w) with
           | inl e => (inl (ElevationFailed e), w)
           | inr r =>
               let approved := bool_decide (eStatus r = "approved") in
               (inr (ElevationStatus (eID r) (eStatus r) (if approved then Some (eRequestedTier r) else None)
                       (if approved then eExpiresAt r else None)), w)
           end
  end.

Definition makeSpawnAgentHandler (params : RawMessage) (w : Stores S) : Answer :=
  match decode dSpawn params with
  | None => (inl InvalidParameters, w)
  | Some (directive, tools) =>
      if decide (directive = "") then (inl (Required "directive"), w)
      else match ctx with
           | None => (inl MissingAuthContext, w)
           | Some ac =>
               match SpawnAgent (ciAgentID inp) (ciNow inp) (mAgentID ac) (mTenantID ac) directive tools (manager w) with
               | (inl e, _) => (inl (SpawnFailed e), w)
               | (inr a, m) =>
                   (inr (Spawned (agID a) (agParentID a) (agTenantID a) (agStatus a) (agDirective a)), setManager m w)
               end
           end
  end.

Definition makeMessageAgentHandler (params : RawMessage) (w : Stores S) : Answer :=
  match decode dMessage params with
  | None => (inl InvalidParameters, w)
  | Some (agentID, message) =>
      if decide (agentID = "") then (inl (Required "agent_id"), w)
      else if decide (message = "") then (inl (Required "message"), w)
      else match ctx with
           | None => (inl MissingAuthContext, w)
           | Some ac =>
               match SendMessage (ciMessageID inp) (ciNow inp) (mAgentID ac) agentID message (manager w) with
               | (Some e, _) => (inl (SendFailed e), w)
               | (None, m) => (inr (Delivered agentID), setManager m w)
               end
           end
  end.

Definition makeGetAgentStatusHandler (params : RawMessage) (w : Stores S) : Answer :=
  match decode dAgent params with
  | None => (inl InvalidParameters, w)
  | Some agentID =>
      if decide (agentID = "") then (inl (Required "agent_id"), w)
      else match ctx with
           | None => (inl MissingAuthContext, w)
           | Some _ =>
               match GetStatus agentID (manager w) with
               | inl e => (inl (StatusFailed e), w)
               | inr a => (inr (StatusOf a), w)
               end
           end
  end.

Definition makeGetAuditLogHandler (params : RawMessage) (w : Stores S) : Answer :=
  let filter := match params with
                | Nil => Some {| fAgentID := ""; fTenantID := ""; fLimit := 0 |}
                | Raw d _ => dAudit d
                end in
  match filter with
  | None => (inl InvalidParameters, w)
  | Some f =>
      let f := {| fAgentID := fAgentID f; fTenantID := fTenantID f; fLimit := auditLimit (fLimit f) |} in
      (inr (AuditLog (Read f (audit w))), w)
  end.

Definition externalHandler (name : string) (params : RawMessage) (w : Stores S) : Answer :=
  (match extCall name params with
   | ExtError text => inl (ExternalError text)
   | ExtResult text => inr (ExternalResult text)
   | ExtGarbled => inr NotEncodable
   end, w).

(** Every handler but invoke_tool. *)
Definition leafHandler (h : LeafHandler) (fault : bool) (name : string) (params : RawMessage) (w : Stores S) : Answer :=
  match h with
  | DiscoverTools => makeDiscoverToolsHandler fault w
  | GetToolSchema => makeGetToolSchemaHandler params w
  | ListCapabilities => makeListCapabilitiesHandler w
  | CheckAuthorization => makeCheckAuthHandler fault params w
  | LogDecisionTool => makeLogDecisionHandler params w
  | RequestElevationTool => makeRequestElevationHandler params w
  | CheckElevationStatus => makeCheckElevationStatusHandler params w
  | SpawnAgentTool => makeSpawnAgentHandler params w
  | MessageAgentTool => makeMessageAgentHandler params w
  | GetAgentStatus => makeGetAgentStatusHandler params w
  | GetAuditLog => makeGetAuditLogHandler params w
  | External => externalHandler name params w
  end.

(** A tool's handler runs; invoke_tool looks its target up, authorizes the caller
    for it, and runs the target's handler on the nested message.  The third
    component lists the tools that were run by the way. *)
Fixpoint runHandler (depth : nat) (tool : Tool) (params : RawMessage) (w : Stores S) {struct params} :
    Answer * list string :=
  match tHandler tool with
  | InvokeTool =>
      match params with
      | Nil => ((inl InvalidParameters, w), [])
      | Raw d inner =>
          match dToolName d with
          | None => ((inl InvalidParameters, w), [])
          | Some name =>
              if decide (name = "") then ((inl (Required "tool_name"), w), [])
              else match GetTool name (registry w) with
                   | None => ((inl (ToolNotFound name), w), [])
                   | Some target =>
                       match AuthorizeToolCall (ciFault inp (1 + depth)) ctx target (clearance w) with
                       | Some why => ((inl (Insufficient name why), w), [])
                       | None =>
                           let '(a, calls) := runHandler (1 + depth) target inner w in (a, name :: calls)
                       end
                   end
          end
      end
  | Leaf h => (leafHandler h (ciFault inp (1 + depth)) (tName tool) params w, [])
  end.

End handlers.

(** ** The server (server.go) *)

Definition ProtocolVersion : string := "2024-11-05".
Definition ServerName : string := "agentos-mcp".

Definition CodeParseError : Z := -32700.
Definition CodeInvalidRequest : Z := -32600.
Definition CodeMethodNotFound : Z := -32601.
Definition CodeInvalidParams : Z := -32602.
Definition CodeInternalError : Z := -32603.

(** A request body: unreadable (or too long), not JSON, or an envelope.  The
    parameters of a tools/call are a name and arguments, if they decode. *)
Inductive Body :=
  | BodyUnreadable | BodyNotJSON
  | Envelope (jsonrpc id method : string) (params : option (string * RawMessage)).

Record HTTPRequest := {
  hrMethod : string;
  hrHeader : Header;
  hrAuth : AuthContext;
  hrBody : Body;
  hrInputs : CallInputs;
  hrGovNow : Time
}.

Inductive RPCReason :=
  | OnlyPOST | BodyFailed | InvalidJSON | WrongVersion | UnknownMethod (method : string) | NotInitialized
  | UnvalidatedIdentity | BadCallParams | NoSuchTool (name : string) | NoAuthorization
  | Unauthorized (why : AuthDenial) | GovernanceRefused (reason : option Reason).

Record ToolDefinition := { tdName : string; tdDescription : string; tdInputSchema : string }.

Inductive RPCResult :=
  | InitializeResult (protocolVersion name version : string)
  | ToolsListResult (tools : list ToolDefinition)
  | ToolCallResult (r : ToolError + ToolResult).

Inductive Response :=
  | Result_ (id : string) (r : RPCResult)
  | Error_ (id : option string) (code : Z) (reason : RPCReason).

Record Server {S R L C : Type} := {
  stores : Stores S;
  authStore : option S;
  engine : option (Engine R L C);
  version : string;
  initialized : bool
}.
Arguments Server : clear implicits.

Definition NewServer {S R L C : Type} (version : string) (stores : Stores S) (authStore : option S)
    (engine : option (Engine R L C)) : Server S R L C :=
  {| stores := stores; authStore := authStore; engine := engine; version := version; initialized := false |}.

(** The identity headers count only with a validated credential or in dev mode;
    [inl tt]: they are present and do not count. *)
Definition mcpIdentity (env : Environ) (ac : AuthContext) (h : Header) : unit + option MCPAuthContext :=
  if Validated ac || DevMode env then
    inr (if decide (h "X-Agent-ID" ≠ "") then Some {| mAgentID := h "X-Agent-ID"; mTenantID := h "X-Tenant-ID" |}
         else if decide (h "X-Tenant-ID" ≠ "") then Some {| mAgentID := h "X-Tenant-ID"; mTenantID := h "X-Tenant-ID" |}
         else None)
  else if decide (h "X-Agent-ID" ≠ "" ∨ h "X-Tenant-ID" ≠ "") then inl tt
  else inr None.

(** [GetMCPAuth]: the zero identity when the context has none. *)
Definition agentOf (ctx : option MCPAuthContext) : string := match ctx with Some ac => mAgentID ac | None => "" end.

Definition governanceCategory (tool : Tool) : string :=
  if decide (tCategory tool = "observe") then CategoryObserve else CategoryAction.

(** The arguments as the governance engine sees them. *)
Definition govArgs (arguments : RawMessage) : list (string * any) :=
  match arguments with Nil => [] | Raw d _ => dArgs d end.

Definition succeeded (r : ToolError + ToolResult) : bool := match r with inl _ => false | inr _ => true end.

(** The encoding of a handler's result. *)
Definition encodeResult (r : ToolError + ToolResult) : ToolError + ToolResult :=
  match r with inr NotEncodable => inl MarshalFailed | _ => r end.

Section server.
Context {S R L C : Type} `{ClearanceStore S} `{ToolRange} `{SliceSort}.
Context `{RateLimiter R} `{LoopDetector L} `{CircuitBreakerTracker C}.
Context (extCall : string → RawMessage → ExtOutcome) (env : Environ).
Implicit Types s : Server S R L C.

Definition setInitialized s : Server S R L C :=
  {| stores := stores s; authStore := authStore s; engine := engine s; version := version s; initialized := true |}.
Definition setEngine (e : option (Engine R L C)) s : Server S R L C :=
  {| stores := stores s; authStore := authStore s; engine := e; version := version s; initialized := initialized s |}.
Definition setStores (w : Stores S) s : Server S R L C :=
  {| stores := w; authStore := authStore s; engine := engine s; version := version s; initialized := initialized s |}.

Definition handleInitialize (id : string) s : Response * Server S R L C :=
  (Result_ id (InitializeResult ProtocolVersion ServerName (version s)), setInitialized s).

Definition handleToolsList (id : string) s : Response * Server S R L C :=
  if negb (initialized s) then (Error_ (Some id) CodeInvalidRequest NotInitialized, s)
  else
    let def t := {| tdName := tName t; tdDescription := tDescription t; tdInputSchema := tInputSchema t |} in
    (Result_ id (ToolsListResult (def <$> ListTools (registry (stores s)))), s).

(** The governance check: the refusal, if any, and the engine afterwards.  The
    engine's check itself never fails. *)
Definition governCall (now : Time) (agentID : string) (tool : Tool) (name : string) (arguments : RawMessage)
    (e : option (Engine R L C)) : option (option Reason) * option (Engine R L C) :=
  match e with
  | None => (None, None)
  | Some e =>
      let '(d, e') := EngineCheck now agentID name (govArgs arguments) (Some (governanceCategory tool)) e in
      (match dVerdict d with Deny => Some (dReason d) | Allow => None end, Some e')
  end.

Definition handleToolsCall (rq : HTTPRequest) (id : string) (params : option (string * RawMessage)) s :
    Response * Server S R L C * list string :=
  let refuse code reason s := ((Error_ (Some id) code reason, s), []) in
  if negb (initialized s) then refuse CodeInvalidRequest NotInitialized s
  else match mcpIdentity env (hrAuth rq) (hrHeader rq) with
  | inl _ => refuse CodeInvalidRequest UnvalidatedIdentity s
  | inr ctx =>
      match params with
      | None => refuse CodeInvalidParams BadCallParams s
      | Some (name, arguments) =>
          match GetTool name (registry (stores s)) with
          | None => refuse CodeInvalidParams (NoSuchTool name) s
          | Some tool =>
              match authStore s with
              | None => refuse CodeInternalError NoAuthorization s
              | Some store =>
                  match AuthorizeToolCall (ciFault (hrInputs rq) 0) ctx tool store with
                  | Some why => refuse CodeInvalidRequest (Unauthorized why) s
                  | None =>
                      match governCall (hrGovNow rq) (agentOf ctx) tool name arguments (engine s) with
                      | (Some reason, e) => refuse CodeInvalidRequest (GovernanceRefused reason) (setEngine e s)
                      | (None, e) =>
                          let '((r, w), calls) := runHandler extCall (hrInputs rq) ctx 0 tool arguments (stores s) in
                          let e := RecordResult (agentOf ctx) (succeeded r) <$> e in
                          ((Result_ id (ToolCallResult (encodeResult r)), setStores w (setEngine e s)), name :: calls)
                      end
                  end
              end
          end
      end
  end.

Definition handleRPC (rq : HTTPRequest) s : Response * Server S R L C * list string :=
  if decide (hrMethod rq ≠ "POST") then ((Error_ None CodeInvalidRequest OnlyPOST, s), [])
  else match hrBody rq with
  | BodyUnreadable => ((Error_ None CodeParseError BodyFailed, s), [])
  | BodyNotJSON => ((Error_ None CodeParseError InvalidJSON, s), [])
  | Envelope jsonrpc id method params =>
      if decide (jsonrpc ≠ "2.0") then ((Error_ (Some id) CodeInvalidRequest WrongVersion, s), [])
      else if decide (method = "initialize") then (handleInitialize id s, [])
      else if decide (method = "tools/list") then (handleToolsList id s, [])
      else if decide (method = "tools/call") then handleToolsCall rq id params s
      else ((Error_ (Some id) CodeMethodNotFound (UnknownMethod method), s), [])
  end.

(** Requests in sequence: the tools each of them ran. *)
Definition rpcStep (rq : HTTPRequest) s : list string * Server S R L C :=
  let '((_, s'), calls) := handleRPC rq s in (calls, s').

End server.

(** ** Middleware (auth.go, governance_middleware.go)

    Wrappers around a handler, which is any function of the state [W]; the
    engine is threaded beside it. *)
Section middleware.
Context {S R L C W A : Type} `{ClearanceStore S} `{RateLimiter R} `{LoopDetector L} `{CircuitBreakerTracker C}.

Inductive MiddlewareError := Refused (why : AuthDenial) | NoContext | NoAgent | NoToolName | DeniedBy (reason : option Reason) | HandlerError (e : A).

Definition AuthMiddleware {B} (fault : bool) (store : S) (tool : Tool) (handler : W → (A + B) * W)
    (ctx : option MCPAuthContext) (w : W) : (MiddlewareError + B) * W :=
  match AuthorizeToolCall fault ctx tool store with
  | Some why => (inl (Refused why), w)
  | None => let '(r, w') := handler w in (match r with inl e => inl (HandlerError e) | inr b => inr b end, w')
  end.

Definition GovernanceMiddleware {B} (now : Time) (toolName : string) (handler : W → (A + B) * W)
    (ctx : option MCPAuthContext) (params : RawMessage) (w : W) (e : Engine R L C) :
    (MiddlewareError + B) * W * Engine R L C :=
  match ctx with
  | None => (inl NoContext, w, e)
  | Some ac =>
      if decide (mAgentID ac = "") then (inl NoAgent, w, e)
      else if decide (toolName = "") then (inl NoToolName, w, e)
      else
        let '(d, e) := EngineCheck now (mAgentID ac) toolName (govArgs params) None e in
        match dVerdict d with
        | Deny => (inl (DeniedBy (dReason d)), w, e)
        | Allow =>
            let '(r, w') := handler w in
            (match r with inl x => inl (HandlerError x) | inr b => inr b end, w',
             RecordResult (mAgentID ac) (match r with inl _ => false | inr _ => true end) e)
        end
  end.

End middleware.

(** ** Wiring (cmd/agentos/main.go) *)

(** The tier of a clearance string of governance.yml. *)
Definition tierOf (clearance : string) : Z :=
  if decide (clearance = "execute") then ClearanceExecute
  else if decide (clearance = "admin") then ClearanceAdmin
  else ClearanceInternal.

(** The clearance store of the orchestrator: a default tier, and the agents of
    governance.yml when it loads. *)
Definition seedClearance (rng : gmap string AgentPolicy → list (string * AgentPolicy)) (c : option GovernanceConfig) :
    InMemoryClearanceStore :=
  let s := NewInMemoryClearanceStore [WithDefaultTier ClearanceInternal] in
  match c with
  | None => s
  | Some c =>
      foldl (λ s '(name, agent), (SetClearance_memory name (tierOf (Clearance agent)) s).2) s (rng (Agents c))
  end.

(** ** Lemmas *)

(** Tools are filed under their own, nonempty name. *)
Definition registryOk (r : ToolRegistry) : Prop := ∀ n t, r !! n = Some t → tName t = n ∧ n ≠ "".

Lemma registryOk_register r nh t : registryOk r → registryOk (RegisterTool nh t r).2.
Proof.
  intros Hok. unfold RegisterTool. case_decide; [done|]. destruct nh; [done|]. case_match; [done|].
  intros n u. simpl. rewrite lookup_insert. case_decide; [|apply Hok]. intros [= <-]. by subst.
Qed.

Lemma registryOk_tools ts r : registryOk r → registryOk (registerTools ts r).2.
Proof.
  revert r. induction ts as [|t ts IH]; intros r Hok; [done|]. simpl.
  pose proof (registryOk_register r false t Hok) as H1. destruct (RegisterTool false t r) as [[e|] r']; [done|].
  by apply IH.
Qed.

#[global] Instance tool_range_GoRange `{ToolRangeLaws} : GoRange tool_range := tool_range_perm.

Lemma elem_of_ListTools `{ToolRangeLaws} r t : t ∈ ListTools r ↔ ∃ n, r !! n = Some t.
Proof.
  unfold ListTools. rewrite list_elem_of_fmap. split.
  - intros ([n t'] & -> & Hin). apply (elem_of_range tool_range) in Hin. by exists n.
  - intros [n Hn]. exists (n, t). split; [done|]. by apply (elem_of_range tool_range).
Qed.

Section auth_lemmas.
Context {S : Type} `{ClearanceStore S}.

Lemma AuthorizeToolCall_None fault ctx tool store :
  AuthorizeToolCall fault ctx tool store = None ↔
  ∃ ac tier, ctx = Some ac ∧ mAgentID ac ≠ "" ∧ GetClearance fault (mAgentID ac) store = inr tier ∧
             tMinClearance tool <= tier.
Proof.
  unfold AuthorizeToolCall. split.
  - destruct ctx as [ac|]; [|done]. case_decide; [done|].
    destruct (GetClearance fault (mAgentID ac) store) as [|tier] eqn:E; [done|]. case_decide; [done|].
    intros _. exists ac, tier. split_and!; try done. lia.
  - intros (ac & tier & -> & Hne & Hg & Hle). rewrite decide_False by done. rewrite Hg, decide_False by lia. done.
Qed.

End auth_lemmas.

Section handler_lemmas.
Context {S : Type} `{ClearanceStore S} `{ToolRange} `{SliceSort}.
Context (extCall : string → RawMessage → ExtOutcome) (inp : CallInputs) (ctx : option MCPAuthContext).
Implicit Types w : Stores S.

Lemma leafHandler_keeps h fault name params w :
  let w' := (leafHandler extCall inp ctx h fault name params w).2 in
  registry w' = registry w ∧ clearance w' = clearance w.
Proof.
  cbv zeta.
  destruct h; simpl; unfold makeDiscoverToolsHandler, makeGetToolSchemaHandler, makeCheckAuthHandler,
    makeLogDecisionHandler, makeRequestElevationHandler, makeCheckElevationStatusHandler, makeSpawnAgentHandler,
    makeMessageAgentHandler, makeGetAgentStatusHandler, makeGetAuditLogHandler; repeat case_match; done.
Qed.

(** Some clearance lookup of this call found the agent's tier high enough. *)
Definition cleared (store : S) (tool : Tool) : Prop :=
  ∃ ac k tier, ctx = Some ac ∧ mAgentID ac ≠ "" ∧
    GetClearance (ciFault inp k) (mAgentID ac) store = inr tier ∧ tMinClearance tool <= tier.

Definition clearedCall w (name : string) : Prop := ∃ tool, registry w !! name = Some tool ∧ cleared (clearance w) tool.

Lemma runHandler_safe params depth tool w :
  let '((r, w'), calls) := runHandler extCall inp ctx depth tool params w in
  registry w' = registry w ∧ clearance w' = clearance w ∧ Forall (clearedCall w) calls.
Proof.
  revert depth tool w. induction params as [|d inner IH]; intros depth tool w; simpl.
  - destruct (tHandler tool) as [|h]; [done|].
    pose proof (leafHandler_keeps h (ciFault inp (1 + depth)) (tName tool) Nil w) as Hk.
    destruct (leafHandler _ _ _ _ _ _ _ _). by destruct Hk.
  - destruct (tHandler tool) as [|h].
    + destruct (dToolName d) as [name|]; [|done]. case_decide; [done|].
      destruct (GetTool name (registry w)) as [target|] eqn:Ht; [|done].
      destruct (AuthorizeToolCall _ _ _ _) eqn:Ea; [done|]. specialize (IH (1 + depth)%nat target w). simpl in IH.
      destruct (runHandler _ _ _ _ _ _ _) as [[r w'] calls]. destruct IH as (-> & -> & Hc). split_and!; try done.
      constructor; [|done]. exists target. split; [done|].
      apply AuthorizeToolCall_None in Ea as (ac & tier & Hctx & Hne & Hg & Hle). by exists ac, (1 + depth)%nat, tier.
    + pose proof (leafHandler_keeps h (ciFault inp (1 + depth)) (tName tool) (Raw d inner) w) as Hk.
      destruct (leafHandler _ _ _ _ _ _ _ _). by destruct Hk.
Qed.

End handler_lemmas.

Lemma mcpIdentity_validated env ac h c :
  mcpIdentity env ac h = inr (Some c) → (Validated ac = true ∨ DevMode env = true) ∧ mAgentID c ≠ "".
Proof.
  unfold mcpIdentity. destruct (Validated ac || DevMode env) eqn:E; [|by case_decide].
  apply orb_true_iff in E. intros Hc. split; [done|]. repeat case_decide; by simplify_eq/=.
Qed.

Section server_lemmas.
Context {S R L C : Type} `{ClearanceStore S} `{ToolRange} `{SliceSort}.
Context `{RateLimiter R} `{LoopDetector L} `{CircuitBreakerTracker C}.
Context (extCall : string → RawMessage → ExtOutcome) (env : Environ).
Implicit Types s : Server S R L C.

(** What a request that ran the tool [t] first went through. *)
Record governedCall (rq : HTTPRequest) (s s' : Server S R L C) (resp : Response) (t : string) (calls : list string) : Prop := {
  gc_initialized : initialized s = true;
  gc_trusted : Validated (hrAuth rq) = true ∨ DevMode env = true;
  gc_call : ∃ id arguments ac tool r,
    hrBody rq = Envelope "2.0" id "tools/call" (Some (t, arguments)) ∧
    mcpIdentity env (hrAuth rq) (hrHeader rq) = inr (Some ac) ∧ mAgentID ac ≠ "" ∧
    registry (stores s) !! t = Some tool ∧
    Forall (clearedCall (hrInputs rq) (Some ac) (stores s)) calls ∧
    resp = Result_ id (ToolCallResult (encodeResult r)) ∧
    match engine s with
    | None => engine s' = None
    | Some e =>
        let '(d, e') := EngineCheck (hrGovNow rq) (mAgentID ac) t (govArgs arguments)
                          (Some (governanceCategory tool)) e in
        dVerdict d = Allow ∧ engine s' = Some (RecordResult (mAgentID ac) (succeeded r) e')
    end
}.

Definition rpcSafe (rq : HTTPRequest) (s s' : Server S R L C) (resp : Response) (calls : list string) : Prop :=
  registry (stores s') = registry (stores s) ∧ clearance (stores s') = clearance (stores s) ∧
  authStore s' = authStore s ∧
  match calls with
  | [] => stores s' = stores s
  | t :: _ => governedCall rq s s' resp t calls
  end.

Lemma handleToolsCall_safe rq id params s :
  authStore s = Some (clearance (stores s)) → hrBody rq = Envelope "2.0" id "tools/call" params →
  let '((resp, s'), calls) := handleToolsCall extCall env rq id params s in rpcSafe rq s s' resp calls.
Proof.
  intros Hw Hb. unfold handleToolsCall. destruct (initialized s) eqn:Hi; [|done]. cbn [negb].
  destruct (mcpIdentity env (hrAuth rq) (hrHeader rq)) as [|ctx] eqn:Hid; [done|].
  destruct params as [[name arguments]|]; [|done].
  destruct (GetTool name (registry (stores s))) as [tool|] eqn:Ht; [|done]. rewrite Hw.
  destruct (AuthorizeToolCall _ ctx tool _) eqn:Ha; [done|].
  apply AuthorizeToolCall_None in Ha as (ac & tier & -> & Hne & Hg & Hle).
  destruct (mcpIdentity_validated _ _ _ _ Hid) as [Htrust _].
  pose proof (runHandler_safe extCall (hrInputs rq) (Some ac) arguments 0 tool (stores s)) as Hrun.
  destruct (runHandler _ _ _ _ _ _ _) as [[r w] calls]. destruct Hrun as (Hr & Hc & Hcalls).
  assert (clearedCall (hrInputs rq) (Some ac) (stores s) name) as Hfirst
    by (exists tool; split; [done|]; by exists ac, 0%nat, tier).
  unfold governCall. destruct (engine s) as [e|] eqn:He; cbn [agentOf].
  - destruct (EngineCheck _ _ _ _ _ e) as [d e'] eqn:Hd. destruct (dVerdict d) eqn:Hv.
    + split_and!; try done. split; try done. exists id, arguments, ac, tool, r.
      rewrite He, Hd, Hv. split_and!; try done. by constructor.
    + split_and!; done.
  - split_and!; try done. split; try done. exists id, arguments, ac, tool, r.
    rewrite He. split_and!; try done. by constructor.
Qed.

Lemma handleRPC_safe rq s :
  authStore s = Some (clearance (stores s)) →
  let '((resp, s'), calls) := handleRPC extCall env rq s in rpcSafe rq s s' resp calls.
Proof.
  intros Hw. unfold handleRPC. case_decide; [done|].
  destruct (hrBody rq) as [| |jsonrpc id method params] eqn:Hb; [done..|].
  destruct (decide (jsonrpc ≠ "2.0")) as [|Hj]; [done|]. apply dec_stable in Hj as ->.
  destruct (decide (method = "initialize")); [done|].
  destruct (decide (method = "tools/list")).
  { unfold handleToolsList. by destruct (negb (initialized s)). }
  destruct (decide (method = "tools/call")) as [->|]; [|done].
  by apply handleToolsCall_safe.
Qed.

End server_lemmas.

(** Counting the tools of each category. *)
Definition inCategory (cat : string) (ts : list Tool) : Z :=
  Z.of_nat (length (filter (λ t, capabilityOf (tName t) = cat) ts)).

Lemma countCategory_foldl ts counts cat :
  go_get 0 (foldl countCategory counts ts) cat = go_get 0 counts cat + inCategory cat ts.
Proof.
  revert counts. induction ts as [|t ts IH]; intros counts; simpl; [unfold inCategory; simpl; lia|].
  rewrite IH. unfold countCategory at 1. rewrite go_get_insert. unfold inCategory. rewrite filter_cons.
  case_decide; subst; simpl; lia.
Qed.

Lemma capabilityOf_known name : capabilityOf name ∈ "other" :: knownCategories.
Proof.
  unfold capabilityOf. destruct (toolCategoryMap !! name) as [cat|] eqn:E; [|by left]. right. simpl.
  assert (map_Forall (λ _ c, c ∈ knownCategories) toolCategoryMap) as Hall
    by (apply (bool_decide_unpack _); vm_compute; exact I).
  exact (Hall _ _ E).
Qed.

(** Splitting a list by a value among distinct ones keeps its length. *)
Lemma sum_inCategory cats ts :
  NoDup cats → Forall (λ t, capabilityOf (tName t) ∈ cats) ts →
  foldr Z.add 0 ((λ c, inCategory c ts) <$> cats) = Z.of_nat (length ts).
Proof.
  intros Hnd Hts. induction Hts as [|t ts Ht Hts IH].
  - clear. induction cats as [|c cats IH]; [done|]. cbn. exact IH.
  - cbn [length]. rewrite Nat2Z.inj_succ, <-IH. clear IH Hts. revert Ht.
    induction Hnd as [|c cats Hc Hnd IH]; [by intros ?%not_elem_of_nil|].
    intros Ht. rewrite !fmap_cons. cbn [foldr]. unfold inCategory at 1 3. rewrite filter_cons. case_decide as Hd.
    + assert (foldr Z.add 0 ((λ c0, inCategory c0 (t :: ts)) <$> cats) = foldr Z.add 0 ((λ c0, inCategory c0 ts) <$> cats)) as ->.
      { f_equal. apply list_fmap_ext. intros i x Hx. unfold inCategory. rewrite filter_cons_False; [done|].
        intros Hd'. apply Hc. rewrite <-Hd, Hd'. by eapply list_elem_of_lookup_2. }
      cbn [length]. lia.
    + rewrite IH by (apply elem_of_cons in Ht as [|]; [congruence|done]). lia.
Qed.

Lemma seedClearance_tier rng `{!GoRange rng} c fault a :
  a ≠ "" →
  GetClearance fault a (seedClearance rng c) =
  inr (match c ≫= λ c, Agents c !! a with Some p => tierOf (Clearance p) | None => ClearanceInternal end).
Proof.
  intros Ha. destruct c as [c|].
  2: { unfold GetClearance, ClearanceStore_memory, GetClearance_memory. by rewrite decide_False. }
  simpl.
  set (s0 := NewInMemoryClearanceStore _).
  assert (∀ l s, failClosed s = false → defaultTier s = ClearanceInternal → NoDup l.*1 →
    let s' := foldl (λ s '(name, agent), (SetClearance_memory name (tierOf (Clearance agent)) s).2) s l in
    failClosed s' = false ∧ defaultTier s' = ClearanceInternal ∧
    tiers s' !! a = match list_to_map (M := gmap _ _) l !! a with
                    | Some p => Some (tierOf (Clearance p)) | None => tiers s !! a end) as Hfold.
  { induction l as [|[n p] l IH]; intros s Hf Hdef Hnd; [done|]. simpl in Hnd. apply NoDup_cons in Hnd as [Hn Hnd].
    cbn [foldl]. destruct (IH (SetClearance_memory n (tierOf (Clearance p)) s).2) as (H1 & H2 & H3); [..|done|].
    1,2: unfold SetClearance_memory; by case_decide.
    split_and!; try done. rewrite H3. simpl. rewrite lookup_insert. case_decide as Hd; subst.
    - rewrite not_elem_of_list_to_map_1 by done. unfold SetClearance_memory. rewrite decide_False by done. simpl.
      by rewrite lookup_insert_eq.
    - unfold SetClearance_memory. case_decide; simpl; [done|]. by rewrite lookup_insert_ne. }
  destruct (Hfold (rng (Agents c)) s0) as (Hf & Hd & Ht); [done|done|apply NoDup_range_fst; apply _|].
  rewrite list_to_map_range in Ht by apply _. unfold GetClearance, ClearanceStore_memory, GetClearance_memory.
  rewrite decide_False by done. rewrite Ht, Hf, Hd. by destruct (Agents c !! a).
Qed.

Section histories.
Context {S R L C : Type} `{ClearanceStore S} `{ToolRange} `{SliceSort}.
Context `{RateLimiter R} `{LoopDetector L} `{CircuitBreakerTracker C}.
Context (extCall : string → RawMessage → ExtOutcome) (env : Environ).
Implicit Types s : Server S R L C.

Definition wired (s0 s : Server S R L C) : Prop :=
  authStore s = Some (clearance (stores s)) ∧ registry (stores s) = registry (stores s0) ∧
  clearance (stores s) = clearance (stores s0).

Lemma history_wired rqs s :
  authStore s = Some (clearance (stores s)) → wired s (trace (rpcStep extCall env) s rqs).2.
Proof.
  intros Hw. apply (trace_invariant _ (wired s)); [|done]. intros rq s1 _ (Ha & Hr & Hc). unfold rpcStep.
  pose proof (handleRPC_safe extCall env rq s1 Ha) as Hs. destruct (handleRPC extCall env rq s1) as [[resp s2] calls].
  destruct Hs as (Hr' & Hc' & Ha' & _). simpl. split_and!; congruence.
Qed.

(** A request without a trusted identity runs nothing and touches no store. *)
Lemma handleRPC_untrusted rq s :
  DevMode env = false → Validated (hrAuth rq) = false →
  let '((_, s'), calls) := handleRPC extCall env rq s in calls = [] ∧ stores s' = stores s ∧ engine s' = engine s.
Proof.
  intros Hdev Hval. unfold handleRPC. case_decide; [done|]. destruct (hrBody rq) as [| |j id method params]; [done..|].
  case_decide; [done|]. case_decide; [by split_and!|]. case_decide.
  { unfold handleToolsList. by destruct (negb (initialized s)). }
  case_decide; [|done].
  unfold handleToolsCall, mcpIdentity. rewrite Hdev, Hval. destruct (initialized s); [|done]. simpl.
  case_decide; [done|]. destruct params as [[name arguments]|]; [|done].
  destruct (GetTool name _); [|done]. by destruct (authStore s).
Qed.

End histories.

(** ** Properties *)

(** C5. A tool runs only after every check, and the outcome is counted once.
    After any history of requests, whatever the trackers, the clearance store
    and the outside do: when a request runs tools, the server had been
    initialized, the caller's identity came with a validated credential or in
    dev mode, the named tool is the first to run, every tool that runs (nested
    ones too) is registered and within the caller's clearance tier, the
    governance engine allowed the named tool, and exactly one result is recorded
    for the caller; a request that runs nothing leaves the stores alone.  No
    request changes the registry or the clearance tiers. *)
Theorem mcp_call_safe {S R L C} `{ClearanceStore S} `{ToolRange} `{SliceSort}
    `{RateLimiter R} `{LoopDetector L} `{CircuitBreakerTracker C} extCall env rqs rq (s : Server S R L C) :
  authStore s = Some (clearance (stores s)) →
  let s1 := (trace (rpcStep extCall env) s rqs).2 in
  let '((resp, s2), calls) := handleRPC extCall env rq s1 in
  rpcSafe env rq s1 s2 resp calls ∧
  registry (stores s2) = registry (stores s) ∧ clearance (stores s2) = clearance (stores s).
Proof.
  intros Hw s1. destruct (history_wired extCall env rqs s Hw) as (Ha & Hr & Hc). fold s1 in Ha, Hr, Hc.
  pose proof (handleRPC_safe extCall env rq s1 Ha) as Hs. destruct (handleRPC _ _ _ _) as [[resp s2] calls].
  split; [done|]. destruct Hs as (Hr' & Hc' & _). split; congruence.
Qed.

(** With the tiers the orchestrator seeds, an agent never runs a tool above
    the tier governance.yml gives it, directly or through invoke_tool; an agent
    the file does not name stays at the internal tier. *)
Theorem mcp_tier_confined {R L C} `{ToolRange} `{SliceSort}
    `{RateLimiter R} `{LoopDetector L} `{CircuitBreakerTracker C} rng `{!GoRange rng} extCall env c rqs rq
    (s : Server InMemoryClearanceStore R L C) :
  clearance (stores s) = seedClearance rng c → authStore s = Some (clearance (stores s)) →
  let '((_, _), calls) := handleRPC extCall env rq (trace (rpcStep extCall env) s rqs).2 in
  ∀ t, t ∈ calls → ∃ ac tool,
    mcpIdentity env (hrAuth rq) (hrHeader rq) = inr (Some ac) ∧ registry (stores s) !! t = Some tool ∧
    tMinClearance tool <=
      match c ≫= λ c, Agents c !! mAgentID ac with Some p => tierOf (Clearance p) | None => ClearanceInternal end.
Proof.
  intros Hcl Hw. destruct (history_wired extCall env rqs s Hw) as (Ha & Hr & Hc).
  pose proof (handleRPC_safe extCall env rq _ Ha) as Hs. destruct (handleRPC _ _ _ _) as [[resp s2] calls].
  intros t Ht. destruct Hs as (_ & _ & _ & Hcalls). destruct calls as [|t0 calls]; [set_solver|].
  destruct Hcalls as [_ _ (id & args & ac & tool0 & r & _ & Hid & Hne & _ & Hall & _)].
  rewrite Forall_forall in Hall. destruct (Hall t Ht) as (tool & Htool & ac' & k & tier & [= <-] & _ & Hg & Hle).
  exists ac, tool. split_and!; [done|congruence|]. rewrite Hc, Hcl, seedClearance_tier in Hg by done. by simplify_eq.
Qed.

(** Without a validated credential and outside dev mode, no sequence of
    requests runs any tool, and neither the stores nor the governance engine
    change: forged identity headers achieve nothing. *)
Theorem mcp_locked_without_credentials {S R L C} `{ClearanceStore S} `{ToolRange} `{SliceSort}
    `{RateLimiter R} `{LoopDetector L} `{CircuitBreakerTracker C} extCall env rqs (s : Server S R L C) :
  DevMode env = false → Forall (λ rq, Validated (hrAuth rq) = false) rqs →
  Forall (λ calls, calls = []) (trace (rpcStep extCall env) s rqs).1 ∧
  stores (trace (rpcStep extCall env) s rqs).2 = stores s ∧
  engine (trace (rpcStep extCall env) s rqs).2 = engine s.
Proof.
  intros Hdev Hrqs. revert s. induction Hrqs as [|rq rqs Hrq Hrqs IH]; intros s; [by split_and!|].
  rewrite trace_cons_answers, trace_cons. pose proof (handleRPC_untrusted extCall env rq s Hdev Hrq) as Hun.
  assert (∃ s', rpcStep extCall env rq s = ([], s') ∧ stores s' = stores s ∧ engine s' = engine s) as (s' & -> & Hst & He).
  { unfold rpcStep. destruct (handleRPC extCall env rq s) as [[resp s'] calls]. destruct Hun as (-> & Hst & He). by exists s'. }
  cbn [fst snd]. destruct (IH s') as (Hf & -> & ->). split_and!; try done. by constructor.
Qed.

(** Discovery and authorization agree: whatever the store, discover_tools
    lists a tool exactly when check_authorization says the caller may use it,
    and lists the tools by name. *)
Theorem discover_matches_authorization {S} `{ClearanceStoreLaws S} `{ToolRangeLaws} `{SliceSortLaws}
    fault ctx name d inner (w : Stores S) :
  registryOk (registry w) → dToolName d = Some name → name ≠ "" →
  ((makeCheckAuthHandler ctx fault (Raw d inner) w).1 = inr (CheckedAuth true ReasonSufficient) ↔
   ∃ tools, (makeDiscoverToolsHandler ctx fault w).1 = inr (Discovered tools) ∧ name ∈ dtName <$> tools) ∧
  ∀ tools, (makeDiscoverToolsHandler ctx fault w).1 = inr (Discovered tools) → StronglySorted toolNameLe tools.
Proof.
  intros Hok Hd Hname. split.
  - unfold makeCheckAuthHandler, makeDiscoverToolsHandler. simpl. rewrite Hd, decide_False by done. unfold GetTool. split.
    + destruct (registry w !! name) as [t|] eqn:Ht; [|done].
      destruct (AuthorizeToolCall fault ctx t (clearance w)) eqn:Ha; [done|]. intros _.
      apply AuthorizeToolCall_None in Ha as (ac & tier & -> & Hne & -> & Hle). eexists. split; [done|].
      rewrite sort_perm, list_elem_of_fmap. exists (discovered t). split; [simpl; by destruct (Hok _ _ Ht)|].
      apply list_elem_of_fmap. exists t. split; [done|]. apply list_elem_of_filter. split; [done|].
      apply elem_of_ListTools. by exists name.
    + intros (tools & Heq & Hin). destruct ctx as [ac|]; [|done].
      destruct (decide (mAgentID ac = "")) as [He|Hne].
      { rewrite He in Heq. destruct (clearance_needs_name fault (clearance w)) as [e Hg]. by rewrite Hg in Heq. }
      destruct (GetClearance fault (mAgentID ac) (clearance w)) as [|tier] eqn:Hg; [done|]. injection Heq as <-.
      rewrite sort_perm in Hin. apply list_elem_of_fmap in Hin as (dt & -> & Hdt).
      apply list_elem_of_fmap in Hdt as (t & -> & [Hle Ht]%list_elem_of_filter).
      apply elem_of_ListTools in Ht as [n Ht]. cbn [discovered dtName] in *.
      destruct (Hok _ _ Ht) as [-> _]. rewrite Ht.
      assert (AuthorizeToolCall fault (Some ac) t (clearance w) = None) as ->; [|done].
      apply AuthorizeToolCall_None. by exists ac, tier.
  - intros tools. unfold makeDiscoverToolsHandler. destruct ctx as [ac|]; [|done].
    destruct (GetClearance _ _ _); [done|]. intros [= <-]. apply sort_sorted.
    + intros ? ? ?. unfold toolNameLe. apply (transitivity (R := String.le)).
    + intros x y. unfold toolNameLe. apply (total String.le).
Qed.

(** The capability summary counts every registered tool exactly once. *)
Theorem capabilities_count_every_tool ts :
  foldr Z.add 0 (ccCount <$> listCapabilities ts) = Z.of_nat (length ts).
Proof.
  unfold listCapabilities. cbv zeta. rewrite countCategory_foldl.
  rewrite <-(sum_inCategory ("other" :: knownCategories) ts).
  - rewrite fmap_app, foldr_app, <-list_fmap_compose, fmap_cons. cbn [foldr]. unfold compose. cbn [ccCount].
    assert (∀ l : list string, ∀ z, foldr Z.add z ((λ c, go_get 0 (foldl countCategory ∅ ts) c) <$> l) =
              z + foldr Z.add 0 ((λ c, inCategory c ts) <$> l)) as Hl.
    { intros l z. induction l as [|c l IH]; [simpl; lia|]. rewrite !fmap_cons. cbn [foldr].
      rewrite IH, countCategory_foldl. unfold go_get. rewrite lookup_empty. simpl. lia. }
    rewrite Hl. f_equal. change (go_get 0 (∅ : gmap string Z) "other") with 0. rewrite Z.add_0_l.
    case_decide; simpl; [lia|]. unfold inCategory in *. lia.
  - apply (bool_decide_unpack _). vm_compute. exact I.
  - apply Forall_forall. intros t _. apply capabilityOf_known.
Qed.

(** ** Witnesses and examples *)

#[local] Instance sample_tool_range : ToolRange := map_to_list.
#[local] Instance sample_tool_range_laws : ToolRangeLaws.
Proof. unfold ToolRangeLaws, tool_range, sample_tool_range. apply _. Qed.
#[local] Existing Instance mergeSlice.
#[local] Existing Instance mergeSlice_laws.
#[local] Instance sample_buckets : BucketRange := map_to_list.

Definition sampleTools : list Tool :=
  [staticTool "memory_store" "" "" ClearanceInternal "" (Leaf External);
   staticTool "execute_shell" "" "" ClearanceAdmin "" (Leaf External)].

Definition sampleRegistry : ToolRegistry :=
  (registerTools sampleTools
     (RegisterGovernanceTools (λ n, n) (λ n, n) true (RegisterDynamicTools (λ n, n) (λ n, n) NewToolRegistry).2).2).2.

Definition samplePolicy : GovernanceConfig := {|
  Version := "1"; Framework := "x";
  Agents := {["bot" := {| Role := "worker"; Description := ""; Clearance := "internal"; Auth := "" |}]};
  Behavior := {|
    RateLimits := ∅;
    LoopDetection := {| MaxAttemptsPerTarget := 0; Window := ""; OnTrigger := "" |};
    CircuitBreaker := {| ConsecutiveFailures := 0; CBAction := ""; Notify := ""; AutoUnfreeze := false |}
  |};
  Segments := {["bot" := {| AllowedActions := ["invoke_tool"; "log_decision"]; DeniedActions := ["memory_store"];
                            ProtectedTargets := []; ProtectedGate := ""; Scope := "" |}]}
|}.

Definition sampleServer : Server InMemoryClearanceStore InMemoryRateLimiter InMemoryLoopDetector InMemoryCircuitBreaker :=
  let c := seedClearance map_to_list (Some samplePolicy) in
  NewServer "v1"
    {| registry := sampleRegistry; clearance := c; audit := NewInMemoryAuditStore 100; elevations := ∅;
       manager := NewInMemoryAgentManager 10 |} (Some c) (Some (NewEngineFromConfig samplePolicy)).

Definition noDecodings (name : option string) : Decodings := {|
  dToolName := name; dSpawn := None; dMessage := None; dAgent := None; dLog := Some ("ship it", "tests pass");
  dElevation := None; dRequest := None; dAudit := None; dArgs := []
|}.

Definition sampleInputs : CallInputs :=
  {| ciFault := λ _, false; ciUUID := Some "u1"; ciAgentID := "agent_1"; ciMessageID := "msg_1"; ciNow := 5 |}.

Definition keyAuth (validated : bool) : AuthContext := {|
  ATenantID := "acme"; PrincipalID := "p"; Scopes := []; SubjectType := ""; APIKeyID := "k"; ARole := "admin";
  BearerToken := ""; TokenTenantID := "acme"; TokenPrincipalID := ""; Validated := validated
|}.

Definition agentHeader (agent tenant : string) : Header :=
  λ k, if decide (k = "X-Agent-ID") then agent else if decide (k = "X-Tenant-ID") then tenant else "".

Definition rpc (validated : bool) (method : string) (params : option (string * RawMessage)) : HTTPRequest := {|
  hrMethod := "POST"; hrHeader := agentHeader "bot" "acme"; hrAuth := keyAuth validated;
  hrBody := Envelope "2.0" "1" method params; hrInputs := sampleInputs; hrGovNow := 5
|}.

Definition storeMemory : RawMessage := Raw (noDecodings None) Nil.
Definition viaInvoke : RawMessage := Raw (noDecodings (Some "memory_store")) storeMemory.
Definition echo (name : string) (p : RawMessage) : ExtOutcome := ExtResult name.

Lemma mcp_call_safe_witness :
  let h := rpcStep echo (λ _, "") in
  (trace h sampleServer [rpc true "initialize" None; rpc true "tools/call" (Some ("log_decision", storeMemory))]).1
    = [[]; ["log_decision"]] ∧
  registry (stores (handleRPC echo (λ _, "") (rpc true "tools/call" (Some ("log_decision", storeMemory)))
    (trace h sampleServer [rpc true "initialize" None]).2).1.2) = sampleRegistry.
Proof.
  cbv zeta. split; [vm_compute; reflexivity|].
  pose proof (mcp_call_safe echo (λ _, "") [rpc true "initialize" None]
    (rpc true "tools/call" (Some ("log_decision", storeMemory))) sampleServer eq_refl) as H. cbv zeta in H.
  destruct (handleRPC _ _ _ _) as [[resp s2] calls]. apply H.
Defined.

Lemma mcp_tier_confined_witness :
  let s := (trace (rpcStep echo (λ _, "")) sampleServer [rpc true "initialize" None]).2 in
  (handleRPC echo (λ _, "") (rpc true "tools/call" (Some ("invoke_tool", viaInvoke))) s).2 = ["invoke_tool"; "memory_store"] ∧
  ∀ t, t ∈ (handleRPC echo (λ _, "") (rpc true "tools/call" (Some ("invoke_tool", viaInvoke))) s).2 → t ≠ "execute_shell".
Proof.
  cbv zeta. split; [vm_compute; reflexivity|].
  pose proof (mcp_tier_confined map_to_list echo (λ _, "") (Some samplePolicy) [rpc true "initialize" None]
    (rpc true "tools/call" (Some ("invoke_tool", viaInvoke))) sampleServer eq_refl eq_refl) as H.
  destruct (handleRPC _ _ _ _) as [[resp s2] calls]. intros t Ht ->.
  destruct (H _ Ht) as (ac & tool & Hid & Ht' & Hle).
  vm_compute in Hid. injection Hid as <-. vm_compute in Ht'. injection Ht' as <-. vm_compute in Hle. contradiction.
Defined.

Lemma mcp_locked_without_credentials_witness :
  Forall (λ calls, calls = []) (trace (rpcStep echo (λ _, "")) sampleServer
    [rpc false "initialize" None; rpc false "tools/call" (Some ("log_decision", storeMemory))]).1.
Proof.
  apply (mcp_locked_without_credentials echo (λ _, "")
    [rpc false "initialize" None; rpc false "tools/call" (Some ("log_decision", storeMemory))] sampleServer).
  - reflexivity.
  - repeat constructor.
Defined.

Lemma sampleRegistry_ok : registryOk sampleRegistry.
Proof. do 3 apply registryOk_tools. intros n t. unfold NewToolRegistry. by rewrite lookup_empty. Qed.

Lemma discover_matches_authorization_witness :
  let ctx := Some {| mAgentID := "bot"; mTenantID := "acme" |} in
  ∃ tools, (makeDiscoverToolsHandler ctx false (stores sampleServer)).1 = inr (Discovered tools) ∧
           "memory_store" ∈ dtName <$> tools.
Proof.
  intros ctx.
  apply (discover_matches_authorization false ctx "memory_store" (noDecodings (Some "memory_store")) Nil
    (stores sampleServer)); [exact sampleRegistry_ok|reflexivity|discriminate|vm_compute; reflexivity].
Defined.

(** The governance engine is asked about invoke_tool only: the segment denies
    memory_store, and a direct call is refused, but invoke_tool runs it. *)
Example invoke_tool_bypasses_segments :
  let s := (trace (rpcStep echo (λ _, "")) sampleServer [rpc true "initialize" None]).2 in
  let direct := handleRPC echo (λ _, "") (rpc true "tools/call" (Some ("memory_store", storeMemory))) s in
  let nested := handleRPC echo (λ _, "") (rpc true "tools/call" (Some ("invoke_tool", viaInvoke))) s in
  direct.1.1 = Error_ (Some "1") CodeInvalidRequest (GovernanceRefused (Some (RExplicitlyDenied "memory_store" "bot"))) ∧
  nested.1.1 = Result_ "1" (ToolCallResult (inr (ExternalResult "memory_store"))) ∧
  nested.2 = ["invoke_tool"; "memory_store"].
Proof. vm_compute. split_and!; reflexivity. Qed.

(** A validated credential of one tenant may name an agent of another: the
    headers are not compared with the credential. *)
Example headers_not_bound_to_credential :
  mcpIdentity (λ _, "") (keyAuth true) (agentHeader "auditor" "globex") =
  inr (Some {| mAgentID := "auditor"; mTenantID := "globex" |}).
Proof. reflexivity. Qed.
