(* ===== verification/ModelPolicy.v ===== *)
(** * ModelPolicy: policy, usage metering and the invoke handler (modelpolicy/)

    policy.go decides whether a tenant may use a model, usage.go meters tokens
    per tenant, hour and day and checks budgets, providers.go keeps the models
    and has the stub provider, server.go puts them together.  The iteration
    orders of maps are arguments; audit entries and metrics are output only. *)
From S2P Require Import Prelude GoTime GoPath GoStrings GoCalendar Types Quota Chat Access KVStore.

(** ** Policy (policy.go) *)

Record ModelInvokeRequest := {
  Operation : string;
  ModelID : string;
  Input : option (list (string * any));
  Options : list (string * any)
}.

Record PolicyCheckRequest := { Action : string }.

Inductive PolicyReason :=
  | OptionDeny | OperationBlocked | ScopeMissing (scope : string) | TenantMissing
  | ModelDenied (modelID : string) | ModelNotAllowed (modelID : string) | ExplicitDenyAction | PolicyAllow.

(** [true]: allow. *)
Definition Verdict_ : Type := bool * list PolicyReason.

Definition hasScope (scopes : list string) (target : string) : bool :=
  existsb (λ s, EqualFold (TrimSpace s) target) scopes.

Definition containsModel (l : list string) (modelID : string) : bool :=
  existsb (λ m, EqualFold m modelID) l.

Definition denyReasons (req : ModelInvokeRequest) : list PolicyReason :=
  (match any_get "deny" (Options req) with Some (ABool true) => [OptionDeny] | _ => [] end) ++
  (if EqualFold (Operation req) "deny" || EqualFold (Operation req) "block" then [OperationBlocked] else []).

Definition lacksScope (ac : AuthContext) (scope : string) : bool :=
  negb (bool_decide (Scopes ac = [])) && negb (hasScope (Scopes ac) scope).

Definition Evaluate (tenantID : string) (ac : AuthContext) (req : ModelInvokeRequest)
    (policy : option Tenants.TenantPolicy) : Verdict_ :=
  if decide (denyReasons req ≠ []) then (false, denyReasons req)
  else if lacksScope ac "models:invoke" then (false, [ScopeMissing "models:invoke"])
  else if decide (tenantID = "") then (false, [TenantMissing])
  else match policy with
  | None => (true, [PolicyAllow])
  | Some p =>
      if negb (bool_decide (Tenants.DeniedModels p = [])) && containsModel (Tenants.DeniedModels p) (ModelID req)
      then (false, [ModelDenied (ModelID req)])
      else if negb (bool_decide (Tenants.AllowedModels p = [])) && negb (containsModel (Tenants.AllowedModels p) (ModelID req))
      then (false, [ModelNotAllowed (ModelID req)])
      else (true, [PolicyAllow])
  end.

Definition EvaluatePolicyCheck (tenantID : string) (ac : AuthContext) (req : PolicyCheckRequest) : Verdict_ :=
  if decide (tenantID = "") then (false, [TenantMissing])
  else if EqualFold (Action req) "deny" then (false, [ExplicitDenyAction])
  else if lacksScope ac "policy:check" then (false, [ScopeMissing "policy:check"])
  else (true, [PolicyAllow]).

(** ** Usage (usage.go) *)

Definition maxHourlyBuckets : Z := 5000.
Definition maxDailyBuckets : Z := 5000.
Definition maxTenants : Z := 10000.
Definition hourlyTTL : Duration := 48 * Hour.
Definition dailyTTL : Duration := 90 * 24 * Hour.
Definition usageSweepEvery : Z := 100.

Record usageMeter := {
  perTenant : gmap string (gmap string Z);
  hourlyUsage : gmap string Z;
  dailyUsage : gmap string Z;
  recordCount : Z
}.

Definition newUsageMeter : usageMeter :=
  {| perTenant := ∅; hourlyUsage := ∅; dailyUsage := ∅; recordCount := 0 |}.

Definition toInt (v : any) : option Z :=
  match v with
  | AInt z => Some z
  | AFloat q => Some (ftrunc q)
  | _ => None
  end.

Definition hourKey (tenantID : string) (now : Time) : string := tenantID +:+ ":" +:+ formatHour now.
Definition dayKey (tenantID : string) (now : Time) : string := tenantID +:+ ":" +:+ formatDay now.

(** Keep a key unless its last [n] bytes sort before the cutoff. *)
Definition keepKey (n : nat) (cutoff : string) (k : string) : bool :=
  if decide (n ≤ String.length k)%nat then
    bool_decide (String.le cutoff (dropBytes (String.length k - n) k))
  else true.

Definition sweepLocked (now : Time) (m : usageMeter) : usageMeter :=
  let hourCutoff := formatHour (now - hourlyTTL) in
  let dayCutoff := formatDay (now - dailyTTL) in
  {| perTenant := perTenant m;
     hourlyUsage := filter (λ kv, keepKey 13 hourCutoff kv.1 = true) (hourlyUsage m);
     dailyUsage := filter (λ kv, keepKey 10 dayCutoff kv.1 = true) (dailyUsage m);
     recordCount := recordCount m |}.

(** The eviction loop, over the keys in the order they are visited. *)
Fixpoint evictKeys {V} (cap : Z) (ks : list string) (m : gmap string V) : gmap string V :=
  match ks with
  | [] => m
  | k :: ks' =>
      let m' := delete k m in
      if decide (Z.of_nat (size m') <= cap) then m' else evictKeys cap ks' m'
  end.

(** The orders in which the maps are visited. *)
Class UsageRange := {
  tenant_order : gmap string (gmap string Z) → list (string * gmap string Z);
  usage_order : gmap string Z → list (string * Z)
}.

Definition evictPerTenantLocked `{UsageRange} (m : gmap string (gmap string Z)) : gmap string (gmap string Z) :=
  evictKeys maxTenants (tenant_order m).*1 m.

Definition evictMapLocked `{UsageRange} (cap : Z) (m : gmap string Z) : gmap string Z :=
  evictKeys cap (usage_order m).*1 m.

(** One entry of a usage report: added to the tenant's counters; the total of
    tokens is remembered. *)
Definition addUsage (acc : gmap string Z * Z) (kv : string * any) : gmap string Z * Z :=
  match toInt kv.2 with
  | None => acc
  | Some iv => (<[kv.1 := go_get 0 acc.1 kv.1 + iv]> acc.1, if decide (kv.1 = "total_tokens") then iv else acc.2)
  end.

Definition addTo (key : string) (n : Z) (m : gmap string Z) : gmap string Z := <[key := go_get 0 m key + n]> m.

Definition RecordUsage `{UsageRange} (sweepNow now : Time) (tenantID : string) (usage : option (list (string * any)))
    (m : usageMeter) : usageMeter :=
  match usage with
  | None => m
  | Some usage =>
      if decide (tenantID = "") then m
      else
        let m := {| perTenant := perTenant m; hourlyUsage := hourlyUsage m; dailyUsage := dailyUsage m;
                    recordCount := recordCount m + 1 |} in
        let m := if decide (recordCount m mod usageSweepEvery = 0) then sweepLocked sweepNow m else m in
        let '(dst, totalTokens) := foldl addUsage (go_get ∅ (perTenant m) tenantID, 0) usage in
        let pt := <[tenantID := dst]> (perTenant m) in
        let hu := if decide (0 < totalTokens) then addTo (hourKey tenantID now) totalTokens (hourlyUsage m) else hourlyUsage m in
        let du := if decide (0 < totalTokens) then addTo (dayKey tenantID now) totalTokens (dailyUsage m) else dailyUsage m in
        {| perTenant := if decide (maxTenants < Z.of_nat (size pt)) then evictPerTenantLocked pt else pt;
           hourlyUsage := if decide (maxHourlyBuckets < Z.of_nat (size hu)) then evictMapLocked maxHourlyBuckets hu else hu;
           dailyUsage := if decide (maxDailyBuckets < Z.of_nat (size du)) then evictMapLocked maxDailyBuckets du else du;
           recordCount := recordCount m |}
  end.

Inductive BudgetReason := HourlyExceeded | DailyExceeded.

(** [None]: within the budget. *)
Definition CheckBudget (now : Time) (tenantID : string) (budget : option Tenants.TokenBudget) (m : usageMeter) :
    option BudgetReason :=
  match budget with
  | None => None
  | Some b =>
      if decide (Tenants.MaxTokensPerHour b <= 0 ∧ Tenants.MaxTokensPerDay b <= 0) then None
      else if decide (0 < Tenants.MaxTokensPerHour b ∧
                      Tenants.MaxTokensPerHour b <= go_get 0 (hourlyUsage m) (hourKey tenantID now)) then Some HourlyExceeded
      else if decide (0 < Tenants.MaxTokensPerDay b ∧
                      Tenants.MaxTokensPerDay b <= go_get 0 (dailyUsage m) (dayKey tenantID now)) then Some DailyExceeded
      else None
  end.

Definition GetUsage (now : Time) (tenantID : string) (m : usageMeter) : Z * Z :=
  (go_get 0 (hourlyUsage m) (hourKey tenantID now), go_get 0 (dailyUsage m) (dayKey tenantID now)).

(** ** Providers (providers.go) *)

Record Model := { mModelID : string; mProvider : string; mDisplayName : string }.

(** The stub, or a provider outside, whose answers are inputs. *)
Inductive Provider := StubProvider | Upstream (name : string).

Record providerEntry := { peModel : Model; peImpl : Provider; peDefaults : bool }.

Abbreviation Registry := (gmap string providerEntry).

Definition register (model : Model) (impl : Provider) (defaults : bool) (r : Registry) : Registry :=
  <[mModelID model := {| peModel := model; peImpl := impl; peDefaults := defaults |}]> r.

Definition newRegistry : Registry :=
  register {| mModelID := "local-stub-llm"; mProvider := "stub"; mDisplayName := "Local Stub LLM" |} StubProvider true ∅.

Class ModelRange := model_order : Registry → list (string * providerEntry).

Definition Models `{ModelRange} (r : Registry) : list Model := peModel <$> (model_order r).*2.

Definition Resolve `{ModelRange} (modelID : string) (r : Registry) : option (Provider * Model) :=
  match r !! modelID with
  | Some entry => Some (peImpl entry, peModel entry)
  | None =>
      match list_find (λ kv, peDefaults kv.2 = true) (model_order r) with
      | Some (_, (_, entry)) => Some (peImpl entry, peModel entry)
      | None => None
      end
  end.

Definition tokenEstimateFromInput (input : option (list (string * any))) : Z :=
  match input with
  | None => 8
  | Some i =>
      match any_get "text" i with
      | Some (AStr txt) => let n := EstimateTokens txt in if decide (n = 0) then 8 else n
      | _ => 12
      end
  end.

Definition Output : Type := list (string * any).

(** [ts]: the time of the answer, as text. *)
Definition stubInvoke (ts : string) (req : ModelInvokeRequest) : Output * list (string * any) :=
  let text := match any_get "text" (default [] (Input req)) with
              | Some (AStr t) => if decide (TrimSpace t ≠ "") then "stub: " +:+ t else "stub response"
              | _ => "stub response"
              end in
  ([("type", AStr "text"); ("text", AStr text);
    ("echo", match Input req with Some i => AMap i | None => ANil end); ("ts", AStr ts)],
   [("prompt_tokens", AInt (tokenEstimateFromInput (Input req))); ("completion_tokens", AInt 32);
    ("total_tokens", AInt (tokenEstimateFromInput (Input req) + 32)); ("model_id", AStr (ModelID req));
    ("provider", AStr "stub"); ("timestamp", AStr ts)]).

(** ** The server (server.go) *)

Record InvokeRequest := {
  ivMethod : string;
  ivAuth : AuthContext;
  ivBody : option ModelInvokeRequest;
  ivClockQPS : Time;
  ivClockBudget : Time;
  ivClockSweep : Time;
  ivClockRecord : Time;
  ivTimestamp : string;
  ivUpstream : option (Output * option (list (string * any)))
}.

Inductive Reply :=
  | Failure_ (status : Z) (code : string) (reasons : list PolicyReason) (budget : option BudgetReason)
  | Answered (output : Output) (usage : option (list (string * any)))
  | Decided (allow : bool) (reasons : list PolicyReason)
  | ModelList (models : list Model).

Definition failure (status : Z) (code : string) : Reply := Failure_ status code [] None.

Record PolicyServer {B : Type} := {
  limiter : Limiter B;
  providers : Registry;
  usage : usageMeter;
  tenantStore : Tenants.Store
}.
Arguments PolicyServer : clear implicits.

Section server.
Context {B : Type} `{QuotaBackend B} `{UsageRange} `{ModelRange} (env : Environ).
Implicit Types s : PolicyServer B.

Definition setLimiter (l : Limiter B) s : PolicyServer B :=
  {| limiter := l; providers := providers s; usage := usage s; tenantStore := tenantStore s |}.
Definition setUsage (u : usageMeter) s : PolicyServer B :=
  {| limiter := limiter s; providers := providers s; usage := u; tenantStore := tenantStore s |}.

Definition handleModels (method : string) s : Reply :=
  if decide (method ≠ "GET") then failure 405 "method_not_allowed" else ModelList (Models (providers s)).

Definition policyFor (tenantID : string) s : option Tenants.TenantPolicy :=
  Tenants.GetTenant tenantID (tenantStore s) ≫= Tenants.Policy.

Definition Invoke (rq : InvokeRequest) (req : ModelInvokeRequest) (p : Provider) :
    option (Output * option (list (string * any))) :=
  match p with
  | StubProvider => let '(out, us) := stubInvoke (ivTimestamp rq) req in Some (out, Some us)
  | Upstream _ => ivUpstream rq
  end.

(** The third component is the call to a provider the request led to. *)
Definition handleInvoke (rq : InvokeRequest) s : Reply * PolicyServer B * option (string * Model) :=
  if decide (ivMethod rq ≠ "POST") then (failure 405 "method_not_allowed", s, None)
  else match ResolveTenantHTTP env (ivAuth rq) with
  | inl d => (failure (dStatus d) (dCode d), s, None)
  | inr tenantID =>
      let '(ok, l) := limAllowQPS (ivClockQPS rq) tenantID (limiter s) in
      let s := setLimiter l s in
      if negb ok then (failure 429 "quota_exceeded", s, None)
      else match ivBody rq with
      | None => (failure 400 "invalid_json", s, None)
      | Some req =>
          let policy := policyFor tenantID s in
          let '(allow, reasons) := Evaluate tenantID (ivAuth rq) req policy in
          if negb allow then (Failure_ 403 "policy_blocked" reasons None, s, None)
          else match policy ≫= λ p, CheckBudget (ivClockBudget rq) tenantID (Tenants.PolicyBudget p) (usage s) with
          | Some why => (Failure_ 403 "policy_blocked" [] (Some why), s, None)
          | None =>
              match Resolve (ModelID req) (providers s) with
              | None => (failure 404 "model_not_found", s, None)
              | Some (prov, model) =>
                  match Invoke rq req prov with
                  | None => (failure 502 "provider_error", s, Some (tenantID, model))
                  | Some (out, us) =>
                      (Answered out us,
                       setUsage (RecordUsage (ivClockSweep rq) (ivClockRecord rq) tenantID us (usage s)) s,
                       Some (tenantID, model))
                  end
              end
          end
      end
  end.

Definition handlePolicyCheck (method : string) (ac : AuthContext) (body : option PolicyCheckRequest) : Reply :=
  if decide (method ≠ "POST") then failure 405 "method_not_allowed"
  else match ResolveTenantHTTP env ac with
  | inl d => failure (dStatus d) (dCode d)
  | inr tenantID =>
      match body with
      | None => failure 400 "invalid_json"
      | Some req => let '(allow, reasons) := EvaluatePolicyCheck tenantID ac req in Decided allow reasons
      end
  end.

End server.

(** ** Histories of the meter *)

Record UsageOp := { uSweep : Time; uNow : Time; uTenant : string; uUsage : option (list (string * any)) }.

Definition usageStep `{UsageRange} (m : usageMeter) (op : UsageOp) : usageMeter :=
  RecordUsage (uSweep op) (uNow op) (uTenant op) (uUsage op) m.

(** The tokens of a report that count against a budget. *)
Definition tokens (op : UsageOp) : Z :=
  match uUsage op with
  | None => 0
  | Some us => if decide (uTenant op = "") then 0 else Z.max 0 (foldl addUsage (∅, 0) us).2
  end.

(** Tokens of a tenant in the unit of time (an hour, a day) of [t]. *)
Definition spent (unit : Duration) (tenant : string) (t : Time) (ops : list UsageOp) : Z :=
  foldr (λ op n, (if decide (uTenant op = tenant ∧ uNow op / unit = t / unit) then tokens op else 0) + n) 0 ops.

(** Clock readings of the reports never run backwards, up to the time [t]. *)
Fixpoint readings_ok (t0 : Time) (ops : list UsageOp) (t : Time) : Prop :=
  match ops with
  | [] => t0 <= t
  | op :: ops' => t0 <= uSweep op ∧ uSweep op <= uNow op ∧ readings_ok (uNow op) ops' t
  end.

(** Times at least [dailyTTL] after the first, before the year 10000. *)
Definition metered (t : Time) : Prop := dailyTTL <= t < endOfYears * Day.

#[global] Instance metered_dec t : Decision (metered t).
Proof. unfold metered. apply _. Defined.

Lemma metered_inYears t d : metered t → 0 <= d <= dailyTTL → inYears (t - d).
Proof. unfold metered, inYears. lia. Qed.

Lemma addUsage_total us dst dst' z : (foldl addUsage (dst, z) us).2 = (foldl addUsage (dst', z) us).2.
Proof.
  revert dst dst' z. induction us as [|[k v] us IH]; intros dst dst' z; [done|]. simpl. unfold addUsage at 2 4. simpl.
  destruct (toInt v); apply IH.
Qed.

Lemma spent_snoc unit tenant t ops op :
  spent unit tenant t (ops ++ [op]) =
  spent unit tenant t ops + (if decide (uTenant op = tenant ∧ uNow op / unit = t / unit) then tokens op else 0).
Proof. unfold spent. induction ops as [|o ops IH]; simpl in *; [lia|]. rewrite IH. lia. Qed.

Lemma readings_last t0 ops t : readings_ok t0 ops t → t0 <= t.
Proof. revert t0. induction ops as [|op ops IH]; intros t0; simpl; [done|]. intros (? & ? & Hr). apply IH in Hr. lia. Qed.

(** *** One map of buckets, by hour or by day *)
Section buckets.
Context (fmt : Time → string) (unit ttl : Duration) (n : nat) (cap : Z).
Context (fmt_length : ∀ t, String.length (fmt t) = n).
Context (fmt_le : ∀ t t', inYears t → inYears t' → String.le (fmt t) (fmt t') ↔ t / unit <= t' / unit).
Context (unit_pos : 0 < unit) (ttl_ok : 0 <= ttl <= dailyTTL).

Definition key (tenant : string) (t : Time) : string := tenant +:+ ":" +:+ fmt t.

Lemma fmt_eq t t' : inYears t → inYears t' → fmt t = fmt t' ↔ t / unit = t' / unit.
Proof.
  intros Ht Ht'. split.
  - intros Heq. assert (String.le (fmt t) (fmt t') ∧ String.le (fmt t') (fmt t)) as [H1 H2] by (by rewrite Heq).
    apply fmt_le in H1, H2; try done. lia.
  - intros Heq. apply (anti_symm String.le); apply fmt_le; try done; lia.
Qed.

Lemma key_eq tenant t tenant' t' :
  inYears t → inYears t' → key tenant t = key tenant' t' ↔ tenant = tenant' ∧ t / unit = t' / unit.
Proof.
  intros Ht Ht'. rewrite <-fmt_eq by done. unfold key. split; [|by intros [-> ->]].
  intros [-> Heq]%string_app_inj_len; [|rewrite !string_length_app, !fmt_length; done].
  split; [done|]. by injection Heq.
Qed.

Lemma keepKey_key cutoff tenant t :
  inYears cutoff → inYears t → keepKey n (fmt cutoff) (key tenant t) = true ↔ cutoff / unit <= t / unit.
Proof.
  intros Hc Ht. unfold keepKey, key. rewrite string_app_assoc.
  rewrite decide_True by (rewrite string_length_app, fmt_length; lia).
  replace n with (String.length (fmt t)) by done. by rewrite dropBytes_app_len, bool_decide_eq_true, fmt_le.
Qed.

Definition keysOf (ops : list UsageOp) : gset string := list_to_set ((λ op, key (uTenant op) (uNow op)) <$> ops).

(** The buckets of the last [ttl] are exact; there are no foreign keys. *)
Record bucketsOk (t0 : Time) (past : list UsageOp) (m : gmap string Z) : Prop := {
  bok_exact tenant u : inYears u → (t0 - ttl) / unit <= u / unit → go_get 0 m (key tenant u) = spent unit tenant u past;
  bok_keys k : is_Some (m !! k) → k ∈ keysOf past
}.

Lemma bucketsOk_later t0 t1 past m : t0 <= t1 → bucketsOk t0 past m → bucketsOk t1 past m.
Proof.
  intros Ht [He Hk]. split; [|done]. intros tenant u Hu Hc. apply He; [done|].
  pose proof (Z.div_le_mono (t0 - ttl) (t1 - ttl) unit). lia.
Qed.

Lemma bucketsOk_sweep t past m :
  metered t → bucketsOk t past m → bucketsOk t past (filter (λ kv, keepKey n (fmt (t - ttl)) kv.1 = true) m).
Proof.
  intros Ht [He Hk]. split.
  - intros tenant u Hu Hc. rewrite <-(He tenant u Hu Hc). unfold go_get.
    assert (keepKey n (fmt (t - ttl)) (key tenant u) = true) as Hkeep
      by (apply keepKey_key; [by apply metered_inYears|done|done]).
    destruct (m !! key tenant u) as [v|] eqn:Hm; simpl.
    + rewrite (map_lookup_filter_Some_2 _ _ _ v); done.
    + rewrite map_lookup_filter_None_2; [done|]. by left.
  - intros k [v Hv]. apply map_lookup_filter_Some in Hv as [Hv _]. apply Hk. by exists v.
Qed.

Lemma bucketsOk_add t past m op :
  metered (uNow op) → bucketsOk t past m →
  bucketsOk t (past ++ [op]) (if decide (0 < tokens op) then addTo (key (uTenant op) (uNow op)) (tokens op) m else m).
Proof.
  intros Hn [He Hk]. pose proof (metered_inYears (uNow op) 0 Hn) as Hy. rewrite Z.sub_0_r in Hy.
  assert (0 <= tokens op) as Hpos by (unfold tokens; repeat case_match; lia). split.
  - intros tenant u Hu Hc. rewrite spent_snoc, <-(He tenant u Hu Hc).
    destruct (decide (0 < tokens op)) as [Ht|Ht].
    + unfold addTo. rewrite go_get_insert. destruct (decide (key _ _ = _)) as [Heq|Hne].
      * apply key_eq in Heq; [|apply Hy; unfold dailyTTL; done|done]. by rewrite decide_True, <-(proj2 (key_eq _ _ _ _ (Hy ltac:(done)) Hu) Heq).
      * rewrite decide_False; [lia|]. intros Hd. apply Hne, key_eq; [apply Hy; done|done|done].
    + case_decide; lia.
  - intros k Hin. unfold keysOf. rewrite fmap_app, list_to_set_app. apply elem_of_union.
    destruct (decide (0 < tokens op)); [|left; by apply Hk].
    unfold addTo in Hin. apply lookup_insert_is_Some in Hin as [<-|[_ Hin]]; [right; set_solver|left; by apply Hk].
Qed.

Lemma bucketsOk_size t past m : bucketsOk t past m → (size m ≤ size (keysOf past))%nat.
Proof.
  intros [_ Hk]. rewrite <-size_dom. apply subseteq_size. intros k Hin. apply Hk. by apply elem_of_dom.
Qed.

End buckets.

Abbreviation hoursOk := (bucketsOk formatHour Hour hourlyTTL).
Abbreviation daysOk := (bucketsOk formatDay Day dailyTTL).

Definition meterOk (t0 : Time) (past : list UsageOp) (m : usageMeter) : Prop :=
  hoursOk t0 past (hourlyUsage m) ∧ daysOk t0 past (dailyUsage m).

(** The history stays within the caps of the two maps. *)
Definition withinCaps (ops : list UsageOp) : Prop :=
  Z.of_nat (size (keysOf formatHour ops)) <= maxHourlyBuckets ∧
  Z.of_nat (size (keysOf formatDay ops)) <= maxDailyBuckets.

#[global] Instance withinCaps_dec ops : Decision (withinCaps ops).
Proof. unfold withinCaps. apply _. Defined.

Lemma withinCaps_prefix ops ops' : withinCaps (ops ++ ops') → withinCaps ops.
Proof.
  unfold withinCaps. intros [Hh Hd].
  assert (∀ fmt, (size (keysOf fmt ops) ≤ size (keysOf fmt (ops ++ ops')))%nat) as Hle.
  { intros fmt. apply subseteq_size. unfold keysOf. rewrite fmap_app, list_to_set_app. apply union_subseteq_l. }
  pose proof (Hle formatHour). pose proof (Hle formatDay). lia.
Qed.

Lemma meterOk_new t0 : meterOk t0 [] newUsageMeter.
Proof.
  split; split; simpl.
  - done.
  - intros k [v Hv]. by rewrite lookup_empty in Hv.
  - done.
  - intros k [v Hv]. by rewrite lookup_empty in Hv.
Qed.

Lemma meterOk_later t0 t1 past m : t0 <= t1 → meterOk t0 past m → meterOk t1 past m.
Proof. intros Ht [Hh Hd]. split; eapply bucketsOk_later; done. Qed.

Lemma meterOk_sweep t past m : metered t → meterOk t past m → meterOk t past (sweepLocked t m).
Proof.
  intros Ht [Hh Hd]. split; simpl; (eapply bucketsOk_sweep; [..|exact Ht|done]);
    first [apply formatHour_length|apply formatDay_length|apply formatHour_le|apply formatDay_le|done].
Qed.

Lemma meterOk_add t past m op :
  metered (uNow op) → meterOk t past m →
  meterOk t (past ++ [op])
    {| perTenant := perTenant m;
       hourlyUsage := if decide (0 < tokens op) then addTo (hourKey (uTenant op) (uNow op)) (tokens op) (hourlyUsage m) else hourlyUsage m;
       dailyUsage := if decide (0 < tokens op) then addTo (dayKey (uTenant op) (uNow op)) (tokens op) (dailyUsage m) else dailyUsage m;
       recordCount := recordCount m |}.
Proof.
  intros Ht [Hh Hd]. split; simpl; (eapply bucketsOk_add; [..|exact Ht|done]);
    first [apply formatHour_length|apply formatDay_length|apply formatHour_le|apply formatDay_le|done].
Qed.

(** A report leaves the two maps as they are, but for the sweep, the addition
    and an eviction above the cap. *)
Lemma usageStep_maps `{UsageRange} m op :
  let m1 := if decide ((recordCount m + 1) mod usageSweepEvery = 0) then sweepLocked (uSweep op) m else m in
  let hu := if decide (0 < tokens op) then addTo (hourKey (uTenant op) (uNow op)) (tokens op) (hourlyUsage m1) else hourlyUsage m1 in
  let du := if decide (0 < tokens op) then addTo (dayKey (uTenant op) (uNow op)) (tokens op) (dailyUsage m1) else dailyUsage m1 in
  (usageStep m op = m ∧ tokens op = 0) ∨
  (hourlyUsage (usageStep m op) = (if decide (maxHourlyBuckets < Z.of_nat (size hu)) then evictMapLocked maxHourlyBuckets hu else hu) ∧
   dailyUsage (usageStep m op) = (if decide (maxDailyBuckets < Z.of_nat (size du)) then evictMapLocked maxDailyBuckets du else du)).
Proof.
  cbv zeta. unfold usageStep, RecordUsage, tokens. destruct (uUsage op) as [us|]; [|by left].
  destruct (decide (uTenant op = "")); [by left|]. right. cbn [recordCount].
  set (m1 := if decide _ then sweepLocked _ _ else _).
  assert (hourlyUsage m1 = hourlyUsage (if decide ((recordCount m + 1) mod usageSweepEvery = 0) then sweepLocked (uSweep op) m else m) ∧
          dailyUsage m1 = dailyUsage (if decide ((recordCount m + 1) mod usageSweepEvery = 0) then sweepLocked (uSweep op) m else m)) as [Hh Hd]
    by (unfold m1; by case_decide).
  rewrite <-Hh, <-Hd. clearbody m1.
  pose proof (addUsage_total us (go_get ∅ (perTenant m1) (uTenant op)) ∅ 0) as Htot.
  destruct (foldl addUsage (go_get ∅ (perTenant m1) (uTenant op), 0) us) as [dst total]. simpl in Htot. rewrite <-Htot.
  cbn [hourlyUsage dailyUsage].
  destruct (decide (0 < total)).
  - rewrite (Z.max_r 0 total) by lia. by destruct (decide (0 < total)).
  - rewrite (Z.max_l 0 total) by lia. by destruct (decide (0 < 0)).
Qed.

Lemma usageStep_ok `{UsageRange} t0 past m op :
  meterOk t0 past m → t0 <= uSweep op → uSweep op <= uNow op → metered (uSweep op) → metered (uNow op) →
  withinCaps (past ++ [op]) → meterOk (uNow op) (past ++ [op]) (usageStep m op).
Proof.
  intros Hok H0 H1 Hs Hn [Hch Hcd].
  apply (meterOk_later (uSweep op)); [done|]. apply (meterOk_later _ (uSweep op)) in Hok; [|done].
  destruct (usageStep_maps m op) as [[-> Htok]|[Hh Hd]].
  - pose proof (meterOk_add (uSweep op) past m op Hn Hok) as Ha. rewrite Htok in Ha. by rewrite !decide_False in Ha.
  - set (m1 := if decide _ then sweepLocked _ m else m) in *.
    assert (meterOk (uSweep op) past m1) as Hok1
      by (clear Hh Hd; unfold m1; case_decide; [by apply meterOk_sweep|done]).
    destruct (meterOk_add (uSweep op) past m1 op Hn Hok1) as [Hah Had]. simpl in Hah, Had.
    pose proof (bucketsOk_size _ _ _ _ _ _ Hah). pose proof (bucketsOk_size _ _ _ _ _ _ Had).
    rewrite decide_False in Hh by lia. rewrite decide_False in Hd by lia. split; by rewrite ?Hh, ?Hd.
Qed.

Lemma meter_history `{UsageRange} t0 past m ops t :
  meterOk t0 past m → readings_ok t0 ops t → Forall (λ op, metered (uSweep op) ∧ metered (uNow op)) ops →
  withinCaps (past ++ ops) → meterOk t (past ++ ops) (exec usageStep m ops).
Proof.
  revert t0 past m. induction ops as [|op ops IH]; intros t0 past m Hok Hr Hm Hc.
  - rewrite app_nil_r. simpl in *. by apply (meterOk_later t0).
  - destruct Hr as (H0 & H1 & Hr). apply Forall_cons in Hm as [[Hs Hn] Hm].
    rewrite cons_middle, app_assoc in Hc |- *. cbn [exec foldl].
    apply (IH (uNow op)); [|done..]. apply (usageStep_ok t0); try done. by eapply withinCaps_prefix.
Qed.

(** Histories that start with an empty meter. *)
Definition meterHistory (ops : list UsageOp) (now : Time) : Prop :=
  readings_ok dailyTTL ops now ∧ Forall (λ op, metered (uSweep op) ∧ metered (uNow op)) ops ∧
  withinCaps ops ∧ metered now.

Lemma GetUsage_exact `{UsageRange} ops now tenant :
  meterHistory ops now →
  GetUsage now tenant (exec usageStep newUsageMeter ops) = (spent Hour tenant now ops, spent Day tenant now ops).
Proof.
  intros (Hr & Hm & Hc & Hn).
  destruct (meter_history dailyTTL [] newUsageMeter ops now (meterOk_new _) Hr Hm Hc) as [Hh Hd].
  pose proof (metered_inYears now 0 Hn) as Hy. rewrite Z.sub_0_r in Hy. specialize (Hy ltac:(done)).
  unfold GetUsage. f_equal.
  - apply (bok_exact _ _ _ _ _ _ Hh tenant now Hy). apply Z.div_le_mono; [done|]. assert (0 <= hourlyTTL) by done. lia.
  - apply (bok_exact _ _ _ _ _ _ Hd tenant now Hy). apply Z.div_le_mono; [done|]. assert (0 <= dailyTTL) by done. lia.
Qed.

(** The budget a tenant still has: neither limit is used up. *)
Definition withinBudget (tenant : string) (now : Time) (ops : list UsageOp) (b : Tenants.TokenBudget) : Prop :=
  (0 < Tenants.MaxTokensPerHour b → spent Hour tenant now ops < Tenants.MaxTokensPerHour b) ∧
  (0 < Tenants.MaxTokensPerDay b → spent Day tenant now ops < Tenants.MaxTokensPerDay b).

Lemma CheckBudget_exact `{UsageRange} ops now tenant b :
  meterHistory ops now →
  CheckBudget now tenant (Some b) (exec usageStep newUsageMeter ops) = None ↔ withinBudget tenant now ops b.
Proof.
  intros Hm. pose proof (GetUsage_exact ops now tenant Hm) as Hu. unfold GetUsage in Hu. injection Hu as Hh Hd.
  unfold CheckBudget, withinBudget. rewrite Hh, Hd.
  repeat case_decide; split; try done; intros; try lia; split; lia.
Qed.

(** What must hold for a call to a provider on behalf of a tenant. *)
Definition mayInvoke {B} `{QuotaBackend B} (env : Environ) (ops : list UsageOp) (rq : InvokeRequest) (s : PolicyServer B)
    (tenant : string) : Prop :=
  ResolveTenantHTTP env (ivAuth rq) = inr tenant ∧
  (limAllowQPS (ivClockQPS rq) tenant (limiter s)).1 = true ∧
  ∃ req, ivBody rq = Some req ∧ denyReasons req = [] ∧ lacksScope (ivAuth rq) "models:invoke" = false ∧
    ∀ p, policyFor tenant s = Some p →
      containsModel (Tenants.DeniedModels p) (ModelID req) = false ∧
      (Tenants.AllowedModels p ≠ [] → containsModel (Tenants.AllowedModels p) (ModelID req) = true) ∧
      ∀ b, Tenants.PolicyBudget p = Some b → withinBudget tenant (ivClockBudget rq) ops b.

Lemma Evaluate_allow tenant ac req policy reasons :
  Evaluate tenant ac req policy = (true, reasons) →
  denyReasons req = [] ∧ lacksScope ac "models:invoke" = false ∧
  ∀ p, policy = Some p →
    containsModel (Tenants.DeniedModels p) (ModelID req) = false ∧
    (Tenants.AllowedModels p ≠ [] → containsModel (Tenants.AllowedModels p) (ModelID req) = true).
Proof.
  unfold Evaluate. destruct (decide (denyReasons req ≠ [])) as [|Hdeny]; [done|]. apply dec_stable in Hdeny.
  destruct (lacksScope ac "models:invoke"); [done|]. destruct (decide (tenant = "")); [done|].
  intros He. split_and!; try done. intros p ->.
  destruct (containsModel (Tenants.DeniedModels p) (ModelID req)) eqn:Hden; [by destruct (Tenants.DeniedModels p)|].
  rewrite andb_false_r in He. split; [done|]. intros Hne. rewrite bool_decide_false in He by done. simpl in He.
  by destruct (containsModel (Tenants.AllowedModels p) (ModelID req)).
Qed.

(** ** Properties *)

(** The meter counts exactly: after any history of usage reports (of any
    shape, for any tenants, with sweeps in between) within the caps of its maps,
    the usage of a tenant in the current hour and day is the sum of the token
    totals reported for it in that hour and day, and a budget check passes
    exactly when neither limit is used up. *)
Theorem usage_meter_exact `{UsageRange} ops now tenant b :
  meterHistory ops now →
  let m := exec usageStep newUsageMeter ops in
  GetUsage now tenant m = (spent Hour tenant now ops, spent Day tenant now ops) ∧
  (CheckBudget now tenant (Some b) m = None ↔ withinBudget tenant now ops b).
Proof. intros Hm m. split; [by apply GetUsage_exact|by apply CheckBudget_exact]. Qed.

(** A request reaches a model provider only when the tenant is known and
    within its rate, nothing in the request asks for a denial, the caller's
    scopes (if it has any) include models:invoke, the model asked for is not
    denied and is allowed where there is an allow list, and the tenant's token
    budgets for the current hour and day are not used up; usage is recorded
    exactly for the answered requests, under that tenant. *)
Theorem invoke_sound {B} `{QuotaBackend B} `{UsageRange} `{ModelRange} env ops rq (s : PolicyServer B) :
  usage s = exec usageStep newUsageMeter ops → meterHistory ops (ivClockBudget rq) →
  let '(reply, s', call) := handleInvoke env rq s in
  (∀ tenant model, call = Some (tenant, model) → mayInvoke env ops rq s tenant) ∧
  match reply, call with
  | Answered _ us, Some (tenant, _) =>
      usage s' = exec usageStep newUsageMeter
        (ops ++ [{| uSweep := ivClockSweep rq; uNow := ivClockRecord rq; uTenant := tenant; uUsage := us |}])
  | _, _ => usage s' = usage s
  end.
Proof.
  intros Hu Hm. unfold handleInvoke. destruct (decide (ivMethod rq ≠ "POST")); [done|].
  destruct (ResolveTenantHTTP env (ivAuth rq)) as [d|t] eqn:Ht; [done|].
  destruct (limAllowQPS (ivClockQPS rq) t (limiter s)) as [ok l] eqn:Hq. destruct ok; [|done].
  destruct (ivBody rq) as [req|] eqn:Hb; [|done]. change (policyFor t (setLimiter l s)) with (policyFor t s). cbn [negb usage setLimiter].
  destruct (Evaluate t (ivAuth rq) req (policyFor t s)) as [[|] reasons] eqn:He; [|done]. cbn [negb].
  destruct (policyFor t s ≫= _) as [why|] eqn:Hbud; [done|].
  destruct (Resolve (ModelID req) (providers (setLimiter l s))) as [[prov model]|]; [|done].
  assert (mayInvoke env ops rq s t) as Hcall.
  { apply Evaluate_allow in He as (Hdeny & Hsc & Hp). split; [done|]. split; [by rewrite Hq|]. exists req.
    split_and!; try done. intros p Hpol. destruct (Hp p Hpol) as [Hden Hall]. split_and!; try done.
    intros b Hb'. rewrite Hpol in Hbud. simpl in Hbud. rewrite Hb', Hu in Hbud. by apply CheckBudget_exact in Hbud. }
  destruct (Invoke rq req prov) as [[out us]|]; (split; [by intros ? ? [= <- <-]|]); [|done].
  simpl. by rewrite exec_app, Hu.
Qed.

(** ** Witnesses and examples *)

#[local] Instance sample_usage_range : UsageRange := {| tenant_order := map_to_list; usage_order := map_to_list |}.
#[local] Instance sample_model_range : ModelRange := map_to_list.

Definition noon : Time := 63844804800 * Second.

Definition report (t : Time) (tenant : string) (n : Z) : UsageOp :=
  {| uSweep := t; uNow := t; uTenant := tenant; uUsage := Some [("model_id", AStr "m"); ("total_tokens", AInt n)] |}.

Definition sample_reports : list UsageOp := [report noon "acme" 700; report noon "globex" 50; report (noon + Minute) "acme" 400].

Definition sample_budget : Tenants.TokenBudget := {| Tenants.MaxTokensPerHour := 1000; Tenants.MaxTokensPerDay := 0 |}.

Lemma sample_history t : noon + Minute <= t → metered t → meterHistory sample_reports t.
Proof.
  intros Ht Hm. split_and!; [|apply (bool_decide_unpack _); vm_compute; exact I..|done].
  simpl. split_and!; try (vm_compute; congruence). done.
Qed.

Lemma usage_meter_exact_witness :
  GetUsage (noon + 2 * Minute) "acme" (exec usageStep newUsageMeter sample_reports) = (1100, 1100) ∧
  CheckBudget (noon + 2 * Minute) "acme" (Some sample_budget) (exec usageStep newUsageMeter sample_reports) ≠ None.
Proof.
  destruct (usage_meter_exact sample_reports (noon + 2 * Minute) "acme" sample_budget) as [-> Hb].
  - apply sample_history; [by vm_compute|]. apply (bool_decide_unpack _). vm_compute. exact I.
  - split; [vm_compute; reflexivity|]. rewrite Hb. intros [Hh _]. specialize (Hh eq_refl). vm_compute in Hh. discriminate.
Defined.

Definition sample_policy : Tenants.TenantPolicy := {|
  Tenants.AllowedModels := []; Tenants.DeniedModels := ["local-stub-llm"];
  Tenants.PolicyBudget := Some sample_budget; Tenants.PolicyPII := None
|}.

Definition sample_server (reports : list UsageOp) : PolicyServer (MemoryBackend Q) := {|
  limiter := {| backend := NewMemoryBackend; qps := 20; maxConcurrent := 999999 |};
  providers := newRegistry;
  usage := exec usageStep newUsageMeter reports;
  tenantStore := {| Tenants.tenants :=
    {["acme" := {| Tenants.TenantID := "acme"; Tenants.Name := ""; Tenants.Status := "active"; Tenants.PlanTier := "";
                   Tenants.Entitlements := None; Tenants.Quotas := None; Tenants.Metadata := None;
                   Tenants.Policy := Some sample_policy; Tenants.CreatedAt := ""; Tenants.UpdatedAt := "" |}]};
    Tenants.defaults := ∅ |}
|}.

Definition ask (tenant model : string) (t : Time) : InvokeRequest := {|
  ivMethod := "POST";
  ivAuth := {| ATenantID := tenant; PrincipalID := "p"; Scopes := []; SubjectType := ""; APIKeyID := ""; ARole := "";
               BearerToken := ""; TokenTenantID := ""; TokenPrincipalID := ""; Validated := false |};
  ivBody := Some {| Operation := "chat"; ModelID := model; Input := Some [("text", AStr "hello")]; Options := [] |};
  ivClockQPS := t; ivClockBudget := t; ivClockSweep := t; ivClockRecord := t; ivTimestamp := "now"; ivUpstream := None
|}.

Lemma invoke_sound_witness :
  let rq := ask "acme" "other" noon in
  (handleInvoke (λ _, "") rq (sample_server [])).2 ≠ None ∧
  ∀ tenant model, (handleInvoke (λ _, "") rq (sample_server [])).2 = Some (tenant, model) →
    withinBudget tenant noon [] sample_budget.
Proof.
  intros rq. split; [vm_compute; discriminate|]. intros tenant model Hc.
  assert (meterHistory [] noon) as Hm
    by (split_and!; [by vm_compute|constructor|apply (bool_decide_unpack _); vm_compute; exact I|apply (bool_decide_unpack _); vm_compute; exact I]).
  pose proof (invoke_sound (λ _, "") [] rq (sample_server []) eq_refl Hm) as Hs.
  destruct (handleInvoke (λ _, "") rq (sample_server [])) as [[reply s'] call]. simpl in Hc. subst call.
  destruct Hs as [Hs _]. destruct (Hs tenant model eq_refl) as (Ht & _ & req & Hb & _ & _ & Hp).
  vm_compute in Ht. injection Ht as <-. by apply (Hp sample_policy).
Defined.

(** The lists name the model asked for, but an unknown model falls back to the
    default one: a denied model answers under another name. *)
Example denied_model_by_fallback :
  (handleInvoke (λ _, "") (ask "acme" "local-stub-llm" noon) (sample_server [])).1.1 =
    Failure_ 403 "policy_blocked" [ModelDenied "local-stub-llm"] None ∧
  mModelID ∘ snd <$> (handleInvoke (λ _, "") (ask "acme" "other" noon) (sample_server [])).2 = Some "local-stub-llm".
Proof. vm_compute. split; reflexivity. Qed.

(** Check and report are separate steps: two calls in flight both pass the check
    of a budget that only one of them fits in. *)
Example concurrent_calls_overspend :
  let m0 := newUsageMeter in
  let m2 := exec usageStep m0 [report noon "acme" 1000; report noon "acme" 1000] in
  CheckBudget noon "acme" (Some sample_budget) m0 = None ∧ (GetUsage noon "acme" m2).1 = 2 * Tenants.MaxTokensPerHour sample_budget.
Proof. vm_compute. split; reflexivity. Qed.

(** Above the cap the first key visited goes, whichever it is: the bucket of the
    current hour may be dropped and its budget starts afresh. *)
Example eviction_forgets_current_hour :
  let full : gmap string Z := {["a:2024-02-29-11" := 5; "b:2024-02-29-12" := 900]} in
  evictKeys 1 ["b:2024-02-29-12"; "a:2024-02-29-11"] full = {["a:2024-02-29-11" := 5]}.
Proof. vm_compute. reflexivity. Qed.
