(* ===== verification/Intent.v ===== *)
(** * Intent: routing by intent (agentorchestrator/router.go, intent_config.go, composer.go)

    The router asks a classifier for a label of the user's prompt, the label
    selects an intent, and the composer applies the intent's configuration to a
    copy of the chat request: temperature, token limit, thinking, context from
    the knowledge base, system prompt.

    The classifier and the knowledge base are services outside: what they answer
    is an input ([ClassifierAnswer], [KBAnswer]).  Texts of errors are
    constructors. *)
From Stdlib Require Import SpecFloat.
From S2P Require Import Prelude GoTime GoPath GoStrings Types Chat Access.

(** ** Requests (modelpolicy/chat.go) *)

Record ToolDef := { tdType : string; tdName : string; tdDescription : string; tdParameters : any }.

Record ChatRequest {F : Type} := {
  rqModel : string;
  rqMessages : list ChatMessage;
  rqTools : list ToolDef;
  rqMaxTokens : Z;
  rqTemperature : option F;
  rqStream : bool;
  rqExtra : option (gmap string any)
}.
Arguments ChatRequest : clear implicits.

(** ** Configuration (intent_config.go) *)

Inductive IntentName := IntentCode | IntentReasoning | IntentOps | IntentSearch | IntentAgent | IntentGeneral.

Definition intentText (i : IntentName) : string :=
  match i with
  | IntentCode => "code" | IntentReasoning => "reasoning" | IntentOps => "ops"
  | IntentSearch => "search" | IntentAgent => "agent" | IntentGeneral => "general"
  end.

Definition knownIntents : list IntentName :=
  [IntentCode; IntentReasoning; IntentOps; IntentSearch; IntentAgent; IntentGeneral].

Record IntentDefaults {F : Type} := {
  dTemperature : option F;
  dMaxTokensMult : F;
  dEnableThinking : bool;
  dKBSearchEnabled : bool;
  dKBSearchLimit : Z
}.
Arguments IntentDefaults : clear implicits.

Record IntentDef {F : Type} := {
  SystemPrompt : string;
  Temperature : option F;
  MaxTokensMult : option F;
  EnableThinking : option bool;
  KBSearchEnabled : option bool;
  KBSearchLimit : option Z;
  KBScope : string;
  Destination : string
}.
Arguments IntentDef : clear implicits.

(** The file may define intents under any name. *)
Record IntentConfig {F : Type} := {
  IVersion : string;
  Defaults : IntentDefaults F;
  Intents : gmap string (IntentDef F)
}.
Arguments IntentConfig : clear implicits.

Section config.
Context {F : Type} `{GoFloat F}.

Definition zeroDef (destination : string) : IntentDef F := {|
  SystemPrompt := ""; Temperature := None; MaxTokensMult := None; EnableThinking := None; KBSearchEnabled := None;
  KBSearchLimit := None; KBScope := ""; Destination := destination
|}.

Definition orDefault {A} (x : option A) (d : A) : option A := match x with Some _ => x | None => Some d end.

Definition ResolvedIntent (cfg : IntentConfig F) (name : IntentName) : IntentDef F :=
  match Intents cfg !! intentText name with
  | None => zeroDef "model"
  | Some def => {|
      SystemPrompt := SystemPrompt def;
      Temperature := match Temperature def with Some t => Some t | None => dTemperature (Defaults cfg) end;
      MaxTokensMult := orDefault (MaxTokensMult def) (dMaxTokensMult (Defaults cfg));
      EnableThinking := orDefault (EnableThinking def) (dEnableThinking (Defaults cfg));
      KBSearchEnabled := orDefault (KBSearchEnabled def) (dKBSearchEnabled (Defaults cfg));
      KBSearchLimit := orDefault (KBSearchLimit def) (dKBSearchLimit (Defaults cfg));
      KBScope := KBScope def;
      Destination := if decide (Destination def = "") then "model" else Destination def
    |}
  end.

(** Comparisons that are right for NaN too, which is neither below one nor above
    zero: [x <= 0] and [x != 1.0]. *)
Definition notPositive (x : F) : bool := fltb x (fofZ 1) && negb (fltb (fofZ 0) x).
Definition notOne (x : F) : bool :=
  fltb x (fofZ 1) || fltb (fofZ 1) x || (negb (fltb x (fofZ 1)) && negb (fltb (fofZ 0) x)).

Inductive IntentConfigError :=
  | MissingVersion | NoIntents | MissingIntent (name : IntentName)
  | BadTemperature (name : string) | BadMultiplier (name : string) | BadDestination (name destination : string).

Definition checkDef (name : string) (def : IntentDef F) : option IntentConfigError :=
  match Temperature def with
  | Some t => if fltb t (fofZ 0) || fltb (fofZ 2) t then Some (BadTemperature name) else None
  | None => None
  end ∪
  match MaxTokensMult def with
  | Some m => if notPositive m then Some (BadMultiplier name) else None
  | None => None
  end ∪
  if decide (Destination def ≠ "" ∧ Destination def ≠ "model" ∧ Destination def ≠ "agent")
  then Some (BadDestination name (Destination def)) else None.

(** The first error; [rng] is the order the intents are visited in. *)
Definition validateIntentConfig (rng : gmap string (IntentDef F) → list (string * IntentDef F)) (cfg : IntentConfig F) :
    option IntentConfigError :=
  if decide (IVersion cfg = "") then Some MissingVersion
  else if decide (size (Intents cfg) = 0%nat) then Some NoIntents
  else match list_find (λ name, Intents cfg !! intentText name = None) knownIntents with
  | Some (_, name) => Some (MissingIntent name)
  | None => head (omap (λ kv, checkDef kv.1 kv.2) (rng (Intents cfg)))
  end.

End config.

(** ** The router (router.go) *)

Record RouterConfig := { REnabled : bool; ClassifierURL : string }.

Definition envOr (env : Environ) (key fallback : string) : string :=
  if decide (env key ≠ "") then env key else fallback.

(** Lower case against ASCII words: besides the ASCII letters, the dotted capital
    I (two bytes) and the Kelvin sign (three bytes) become ASCII letters. *)
Fixpoint lowerFrom (skip : nat) (s : string) : string :=
  match s with
  | EmptyString => EmptyString
  | String c0 s1 =>
      match skip with
      | S k => lowerFrom k s1
      | O =>
          match s1 with
          | String c1 s2 =>
              if bool_decide (nat_of_ascii c0 = 196 ∧ nat_of_ascii c1 = 176)%nat then String "i" (lowerFrom 1 s1)
              else match s2 with
                   | String c2 _ =>
                       if bool_decide (nat_of_ascii c0 = 226 ∧ nat_of_ascii c1 = 132 ∧ nat_of_ascii c2 = 170)%nat
                       then String "k" (lowerFrom 2 s1)
                       else String (lowerAscii c0) (lowerFrom 0 s1)
                   | EmptyString => String (lowerAscii c0) (lowerFrom 0 s1)
                   end
          | EmptyString => String (lowerAscii c0) (lowerFrom 0 s1)
          end
      end
  end.

Definition lower (s : string) : string := lowerFrom 0 s.

Definition LoadRouterConfig (env : Environ) : RouterConfig := {|
  REnabled := if decide (env "ROUTER_ENABLED" ≠ "") then
                EqualFold (env "ROUTER_ENABLED") "true" || bool_decide (env "ROUTER_ENABLED" = "1")
              else true;
  ClassifierURL := envOr env "AGENTOS_CLASSIFIER_URL" "http://localhost:8002/v1/chat/completions"
|}.

Inductive ClassifierLabel := LabelCode | LabelReasoning | LabelOps | LabelSearch | LabelAgent | LabelGeneral.

#[global] Instance ClassifierLabel_eq_dec : EqDecision ClassifierLabel.
Proof. solve_decision. Defined.

Definition parseLabel (s : string) : ClassifierLabel :=
  let s := TrimSpace (lower s) in
  if decide (s = "code") then LabelCode
  else if decide (s = "reasoning" ∨ s = "r") then LabelReasoning
  else if decide (s = "ops") then LabelOps
  else if decide (s = "search") then LabelSearch
  else if decide (s = "agent") then LabelAgent
  else LabelGeneral.

Definition labelToIntent (l : ClassifierLabel) : IntentName :=
  match l with
  | LabelCode => IntentCode | LabelReasoning => IntentReasoning | LabelOps => IntentOps
  | LabelSearch => IntentSearch | LabelAgent => IntentAgent | LabelGeneral => IntentGeneral
  end.

Inductive RoutingError :=
  | RouterDisabled | RequestError | Unreachable | BadStatus (code : Z) | ReadError | DecodeError.

Record RoutingDecision := {
  rdLabel : ClassifierLabel;
  rdIntent : IntentName;
  rdDestination : string;
  rdEnableThinking : bool;
  rdLatency : Duration;
  rdFallback : bool;
  rdError : option RoutingError
}.

(** What the classifier answers: a failure on the way, or a status with a body;
    a decoded body has its choices and perhaps a message. *)
Inductive ClassifierBody := BodyCut | BodyBad | BodyOK (choices : list string) (message : option string).
Inductive ClassifierAnswer := AnswerNoRequest | AnswerUnreachable | Answer (status : Z) (body : ClassifierBody).

Definition fallbackDecision (latency : Duration) (e : RoutingError) : RoutingDecision := {|
  rdLabel := LabelGeneral; rdIntent := IntentGeneral; rdDestination := "general"; rdEnableThinking := false;
  rdLatency := latency; rdFallback := true; rdError := Some e
|}.

Definition Classify (cfg : RouterConfig) (answer : ClassifierAnswer) (elapsed : Duration) : RoutingDecision :=
  if decide (REnabled cfg = false ∨ ClassifierURL cfg = "") then fallbackDecision 0 RouterDisabled
  else match answer with
  | AnswerNoRequest => fallbackDecision elapsed RequestError
  | AnswerUnreachable => fallbackDecision elapsed Unreachable
  | Answer status body =>
      if decide (status ≠ 200) then fallbackDecision elapsed (BadStatus status)
      else match body with
      | BodyCut => fallbackDecision elapsed ReadError
      | BodyBad => fallbackDecision elapsed DecodeError
      | BodyOK choices message =>
          let content := match choices with
                         | c :: _ => c
                         | [] => default "" message
                         end in
          let label := parseLabel (TrimSpace (lower content)) in
          let intent := labelToIntent label in
          {| rdLabel := label; rdIntent := intent; rdDestination := intentText intent;
             rdEnableThinking := bool_decide (label = LabelReasoning); rdLatency := elapsed;
             rdFallback := false; rdError := None |}
      end
  end.

(** ** The composer (composer.go) *)

Record SearchResult := { srSource : string; srContent : string; srSnippet : string }.

(** The knowledge base's answer to a search: an error or the results. *)
Definition KBAnswer : Type := option (list SearchResult).

Definition newline : string := String (ascii_of_nat 10) "".

Definition snippetOf (r : SearchResult) : string :=
  let snippet := TrimSpace (srSnippet r) in
  let snippet := if decide (snippet = "") then TrimSpace (srContent r) else snippet in
  if decide (500 < String.length snippet)%nat then takeBytes 500 snippet +:+ "..." else snippet.

Fixpoint kbLines (i : Z) (results : list SearchResult) : string :=
  match results with
  | [] => ""
  | r :: rs =>
      "[" +:+ pretty i +:+ "] " +:+ srSource r +:+ newline +:+ snippetOf r +:+ newline +:+ newline +:+ kbLines (i + 1) rs
  end.

Definition kbText (results : list SearchResult) : string :=
  "[Knowledge Base Context]" +:+ newline +:+ kbLines 1 results +:+ "[End Knowledge Base Context]".

(** The text of the context and the number of results. *)
Definition searchKB (answer : KBAnswer) : string * Z :=
  match answer with
  | None => ("", 0)
  | Some [] => ("", 0)
  | Some results => (kbText results, Z.of_nat (length results))
  end.

Definition prependSystemMessage (msgs : list ChatMessage) (content : string) : list ChatMessage :=
  {| MRole := "system"; Content := AStr content; ToolCalls := []; ToolCallID := ""; MName := "" |} :: msgs.

(** The text of the last message of the user. *)
Fixpoint lastUserMsg (newestFirst : list ChatMessage) : string :=
  match newestFirst with
  | [] => ""
  | m :: ms => if decide (MRole m = "user") then MessageText m else lastUserMsg ms
  end.

Record ComposeResult {F : Type} := {
  crRequest : ChatRequest F;
  crIntentName : IntentName;
  crKBResultCount : Z;
  crIsAgentDispatch : bool
}.
Arguments ComposeResult : clear implicits.

Section composer.
Context {F : Type} `{GoFloat F}.

Definition thinkingKwargs (b : bool) : any := AMap [("enable_thinking", ABool b)].

(** [hasKB]: a knowledge base client is configured; [kb] answers its searches,
    by query and limit. *)
Definition Compose (cfg : IntentConfig F) (hasKB : bool) (kb : string → Z → KBAnswer) (decision : RoutingDecision)
    (req : ChatRequest F) : ComposeResult F :=
  let intent := rdIntent decision in
  let def := ResolvedIntent cfg intent in
  if decide (Destination def = "agent") then
    {| crRequest := req; crIntentName := intent; crKBResultCount := 0; crIsAgentDispatch := true |}
  else
    let temperature := match Temperature def with Some t => Some t | None => rqTemperature req end in
    let maxTokens := match MaxTokensMult def with
                     | Some m => if notOne m && bool_decide (0 < rqMaxTokens req)
                                 then ftrunc (fmul (fofZ (rqMaxTokens req)) m) else rqMaxTokens req
                     | None => rqMaxTokens req
                     end in
    let thinking := match EnableThinking def with Some b => b | None => false end in
    let extra := <["chat_template_kwargs" := thinkingKwargs thinking]> (default ∅ (rqExtra req)) in
    let '(msgs, count) :=
      match KBSearchEnabled def with
      | Some true =>
          let userPrompt := lastUserMsg (reverse (rqMessages req)) in
          if hasKB && negb (bool_decide (userPrompt = "")) then
            let '(text, count) := searchKB (kb userPrompt (default 5 (KBSearchLimit def))) in
            (if decide (text = "") then rqMessages req else prependSystemMessage (rqMessages req) text, count)
          else (rqMessages req, 0)
      | _ => (rqMessages req, 0)
      end in
    let msgs := if decide (SystemPrompt def = "") then msgs else prependSystemMessage msgs (SystemPrompt def) in
    {| crRequest := {| rqModel := rqModel req; rqMessages := msgs; rqTools := rqTools req; rqMaxTokens := maxTokens;
                       rqTemperature := temperature; rqStream := rqStream req; rqExtra := Some extra |};
       crIntentName := intent; crKBResultCount := count; crIsAgentDispatch := false |}.

End composer.

(** ** Lemmas *)

Definition isSystem (m : ChatMessage) : Prop := MRole m = "system".

(** The number that a float64 is; an infinity and NaN are none. *)
Definition floatValue (x : spec_float) : option Q :=
  match x with
  | S754_zero _ => Some 0%Q
  | S754_finite s m e => Some ((if s then -1 else 1) * inject_Z (Zpos m) * Qpower 2 e)%Q
  | _ => None
  end.

(** What YAML decodes into: the numbers of the format, not every mantissa and exponent. *)
Definition isFloat64 (x : spec_float) : Prop := SpecFloat.valid_binary 53 1024 x = true.

Lemma canonical_finite s m e : isFloat64 (S754_finite s m e) → Zpos m < 2 ^ 53 ∧ (-1074 < e → 2 ^ 52 <= Zpos m).
Proof.
  unfold isFloat64. cbn [SpecFloat.valid_binary]. unfold SpecFloat.bounded, SpecFloat.canonical_mantissa. intros [Hc _]%andb_true_iff.
  apply Zeq_bool_eq in Hc. unfold SpecFloat.fexp, SpecFloat.emin in Hc.
  assert (HD : 2 ^ (Zpos (SpecFloat.digits2_pos m) - 1) <= Zpos m < 2 ^ Zpos (SpecFloat.digits2_pos m)).
  { clear. induction m as [m IH|m IH|]; cbn [SpecFloat.digits2_pos]; [| |done]; rewrite Pos2Z.inj_succ;
      replace (Z.succ (Zpos (SpecFloat.digits2_pos m)) - 1) with (Zpos (SpecFloat.digits2_pos m) - 1 + 1) by lia;
      rewrite <- Z.add_1_r, !Z.pow_add_r by lia; lia. }
  split; [|intros He].
  - eapply Z.lt_le_trans; [apply HD|]. apply Z.pow_le_mono_r; lia.
  - transitivity (2 ^ (Zpos (SpecFloat.digits2_pos m) - 1)); [|apply HD]. apply Z.pow_le_mono_r; lia.
Qed.

Lemma Qpower_2_pos e : (0 < Qpower 2 e)%Q.
Proof. by apply Qpower_0_lt. Qed.

(** A positive number is at most 2 when its parts say so. *)
Lemma finite_le_2 m e : isFloat64 (S754_finite false m e) →
  fltb (fofZ 2) (S754_finite false m e) = false ↔ (inject_Z (Zpos m) * Qpower 2 e <= 2)%Q.
Proof.
  intros Hv. destruct (canonical_finite _ _ _ Hv) as [Hm Hc]. cbn [fltb fofZ GoFloat_b64].
  change (b64_of_Z 2) with (S754_finite false 4503599627370496 (-51)). cbn [SFltb SFcompare].
  assert (HQ : ∀ k, (inject_Z (Zpos m) * Qpower 2 e <= 2)%Q ↔ (inject_Z (Zpos m) * Qpower 2 (e + k) <= Qpower 2 (k + 1))%Q).
  { intros k. rewrite !Qpower_plus by done. change (Qpower 2 1) with (2%Q). rewrite Qmult_assoc. rewrite (Qmult_comm (Qpower 2 k) 2).
    symmetry. apply Qmult_le_r, Qpower_2_pos. }
  assert (HZ : ∀ n, 0 <= n → Qpower 2 n == inject_Z (2 ^ n)) by (intros n Hn; by rewrite Zpower_Qpower).
  destruct (Z.compare_spec (-51) e) as [<-|He|He].
  - rewrite (HQ 51). change (-51 + 51) with 0. rewrite (HZ 0), (HZ (51 + 1)), <- inject_Z_mult, <- Zle_Qle by lia.
    change (2 ^ 0) with 1. change (2 ^ (51 + 1)) with 4503599627370496. 
    change (Pos.compare_cont Eq 4503599627370496 m) with (4503599627370496 ?= m)%positive. rewrite Z.mul_1_r.
    change 4503599627370496 with (Zpos 4503599627370496). generalize 4503599627370496%positive. intros K.
    destruct (Pos.compare_spec K m) as [Heq|Hlt|Hgt]; (split; [intros H0|intros H0]); first [lia|done].
  - split; [done|]. rewrite (HQ 51), (HZ (e + 51)), (HZ (51 + 1)), <- inject_Z_mult, <- Zle_Qle by lia. intros Hle.
    assert (2 <= 2 ^ (e + 51)) by (change 2 with (2 ^ 1) at 1; apply Z.pow_le_mono_r; lia). specialize (Hc ltac:(lia)). nia.
  - split; [intros _|done]. rewrite (HQ (- e)), (HZ (e + - e)), (HZ (- e + 1)), <- inject_Z_mult, <- Zle_Qle by lia.
    replace (e + - e) with 0 by lia. assert (2 ^ 53 <= 2 ^ (- e + 1)) by (apply Z.pow_le_mono_r; lia). lia.
Qed.

(** What the validation lets through: the comparisons are false of NaN. *)
Definition goodTemperature (t : spec_float) : Prop := t = S754_nan ∨ ∃ q, floatValue t = Some q ∧ (0 <= q)%Q ∧ (q <= 2)%Q.
Definition goodMultiplier (m : spec_float) : Prop := m = S754_nan ∨ m = S754_infinity false ∨ ∃ q, floatValue m = Some q ∧ (0 < q)%Q.

Definition goodDef (def : IntentDef spec_float) : Prop :=
  (∀ t, Temperature def = Some t → goodTemperature t) ∧
  (∀ m, MaxTokensMult def = Some m → goodMultiplier m) ∧
  Destination def ∈ [""; "model"; "agent"].

(** Its numbers are of the format. *)
Definition floatsOf (def : IntentDef spec_float) : Prop :=
  (∀ t, Temperature def = Some t → isFloat64 t) ∧ (∀ m, MaxTokensMult def = Some m → isFloat64 m).

Lemma finite_pos m e : (0 < inject_Z (Zpos m) * Qpower 2 e)%Q.
Proof. apply Qmult_lt_0_compat; [done|apply Qpower_2_pos]. Qed.

Lemma finite_neg m e : (-1 * inject_Z (Zpos m) * Qpower 2 e < 0)%Q.
Proof.
  pose proof (finite_pos m e) as HP. apply Qopp_lt_compat in HP. eapply Qle_lt_trans; [|exact HP]. apply Qle_lteq. right. ring.
Qed.

Lemma goodTemperature_iff t : isFloat64 t → (fltb t (fofZ 0) || fltb (fofZ 2) t) = false ↔ goodTemperature t.
Proof.
  intros Hv. unfold goodTemperature. destruct t as [s|s| |s m e].
  - replace (fltb (S754_zero s) (fofZ 0) || fltb (fofZ 2) (S754_zero s)) with false by by destruct s. split; [|done]. intros _. right. by exists 0%Q.
  - split; [by destruct s|]. intros [[=]|(q & [=] & _)].
  - split; [by left|done].
  - destruct s; cbn [floatValue].
    + split; [done|]. intros [[=]|(q & [= <-] & H0 & _)]. exfalso. eapply Qlt_not_le; [apply finite_neg|exact H0].
    + change (fltb (S754_finite false m e) (fofZ 0)) with false. cbn [orb]. rewrite finite_le_2 by done. split.
      * intros Hle. right. eexists. split; [reflexivity|]. rewrite Qmult_1_l. split; [apply Qlt_le_weak, finite_pos|done].
      * intros [[=]|(q & [= <-] & _ & H2)]. by rewrite Qmult_1_l in H2.
Qed.

Lemma goodMultiplier_iff m : notPositive m = false ↔ goodMultiplier m.
Proof.
  unfold goodMultiplier, notPositive. change (fofZ (F := spec_float) 1) with (S754_finite false 4503599627370496 (-52)).
  change (fofZ (F := spec_float) 0) with (S754_zero false). destruct m as [s|s| |s m e].
  - split; [by destruct s|]. intros [[=]|[[=]|(q & [= <-] & Hq)]]. done.
  - destruct s; (split; [try done; by auto|]); [|done]. intros [[=]|[[=]|(q & [=] & _)]].
  - split; [by left|done].
  - destruct s; cbn [floatValue].
    + split; [done|]. intros [[=]|[[=]|(q & [= <-] & Hq)]]. exfalso. eapply Qlt_not_le; [exact Hq|]. apply Qlt_le_weak, finite_neg.
    + change (fltb (S754_zero false) (S754_finite false m e)) with true. rewrite andb_false_r. split; [|done]. intros _. right. right.
      eexists. split; [reflexivity|]. rewrite Qmult_1_l. apply finite_pos.
Qed.

Lemma checkDef_None name (def : IntentDef spec_float) : floatsOf def → checkDef name def = None ↔ goodDef def.
Proof.
  intros [Hft Hfm]. unfold checkDef, goodDef. rewrite !union_None.
  assert (HT : (match Temperature def with
           | Some t => if fltb t (fofZ 0) || fltb (fofZ 2) t then Some (BadTemperature name) else None
           | None => None end = None) ↔ ∀ t, Temperature def = Some t → goodTemperature t).
  { destruct (Temperature def) as [t|]; [|done]. pose proof (goodTemperature_iff t (Hft t eq_refl)) as Hi.
    destruct (_ || _); naive_solver. }
  assert (HM : (match MaxTokensMult def with
           | Some m => if notPositive m then Some (BadMultiplier name) else None
           | None => None end = None) ↔ ∀ m, MaxTokensMult def = Some m → goodMultiplier m).
  { destruct (MaxTokensMult def) as [m|]; [|done]. pose proof (goodMultiplier_iff m) as Hi. destruct (notPositive m); naive_solver. }
  rewrite HT, HM.
  assert ((if decide (Destination def ≠ "" ∧ Destination def ≠ "model" ∧ Destination def ≠ "agent")
           then Some (BadDestination name (Destination def)) else None) = None ↔
          Destination def ∈ [""; "model"; "agent"]) as ->; [|tauto].
  rewrite !elem_of_cons, elem_of_nil. case_decide as Hd; [split; [done|tauto]|split; [|done]].
  intros _. destruct (decide (Destination def = "")); [tauto|]. destruct (decide (Destination def = "model")); [tauto|].
  destruct (decide (Destination def = "agent")); tauto.
Qed.

Lemma head_omap_None {A B} (f : A → option B) (l : list A) : head (omap f l) = None ↔ ∀ x, x ∈ l → f x = None.
Proof.
  induction l as [|x l IH]; simpl.
  - split; [intros _ x Hx; set_solver|done].
  - destruct (f x) as [y|] eqn:E; simpl.
    + split; [done|]. intros Hx. specialize (Hx x ltac:(set_solver)). congruence.
    + rewrite IH. split; [intros Hl y [->|Hy]%elem_of_cons; auto|]. intros Hl y Hy. apply Hl. set_solver.
Qed.

Lemma knownIntents_all i : i ∈ knownIntents.
Proof. destruct i; unfold knownIntents; set_solver. Qed.

(** Composing only puts system messages in front of the conversation. *)
Lemma Compose_prefix {F} `{GoFloat F} (cfg : IntentConfig F) hasKB kb d (req : ChatRequest F) :
  ∃ pre, rqMessages (crRequest (Compose cfg hasKB kb d req)) = pre ++ rqMessages req ∧ (length pre ≤ 2)%nat ∧ Forall isSystem pre.
Proof.
  unfold Compose. set (def := ResolvedIntent cfg (rdIntent d)).
  assert (∃ pre, rqMessages req = pre ++ rqMessages req ∧ (length pre ≤ 1)%nat ∧ Forall isSystem pre) as Hnil
    by (exists []; split_and!; [done|simpl; lia|constructor]).
  destruct (decide (Destination def = "agent")); [exists []; split_and!; [done|simpl; lia|constructor]|].
  set (kbpart := match KBSearchEnabled def with Some true => _ | _ => _ end).
  assert (∃ pre, kbpart.1 = pre ++ rqMessages req ∧ (length pre ≤ 1)%nat ∧ Forall isSystem pre) as (pre & Hpre & Hlen & Hsys).
  { unfold kbpart. destruct (KBSearchEnabled def) as [[|]|]; [|done..].
    destruct (hasKB && _); [|done]. destruct (searchKB _) as [text count]. simpl.
    case_decide; [done|]. eexists [_]. split; [done|]. split; [done|]. by repeat constructor. }
  destruct kbpart as [msgs count]. simpl in Hpre. subst msgs. cbn.
  case_decide; [exists pre; split_and!; [done|lia|done]|].
  eexists (_ :: pre). split; [done|]. split; [simpl; lia|]. by constructor.
Qed.

Lemma Compose_suffix {F} `{GoFloat F} (cfg : IntentConfig F) hasKB kb d (req : ChatRequest F) :
  ∃ pre, rqMessages (crRequest (Compose cfg hasKB kb d req)) = pre ++ rqMessages req ∧ Forall isSystem pre.
Proof. destruct (Compose_prefix cfg hasKB kb d req) as (pre & ? & _ & ?). by exists pre. Qed.

(** ** Properties *)

(** C40. The validation of intent-router.yml, whose numbers are float64 values, accepts
    exactly the files that have a version, define all six intents, and whose definitions
    have known destinations, temperatures that are numbers within [0, 2] or NaN, and
    multipliers that are positive (which infinity is) or NaN, whatever the order the
    definitions are visited in; in an accepted file every intent resolves to the model or
    to the agent. *)
Theorem intent_config_exact rng `{!GoRange rng} (cfg : IntentConfig spec_float) :
  map_Forall (λ _, floatsOf) (Intents cfg) →
  (validateIntentConfig rng cfg = None ↔
     IVersion cfg ≠ "" ∧ (∀ i, is_Some (Intents cfg !! intentText i)) ∧ map_Forall (λ _, goodDef) (Intents cfg)) ∧
  (validateIntentConfig rng cfg = None → ∀ i, Destination (ResolvedIntent cfg i) ∈ ["model"; "agent"]).
Proof.
  intros Hfloats. assert (validateIntentConfig rng cfg = None ↔
     IVersion cfg ≠ "" ∧ (∀ i, is_Some (Intents cfg !! intentText i)) ∧ map_Forall (λ _, goodDef) (Intents cfg)) as Hiff.
  { unfold validateIntentConfig. destruct (decide (IVersion cfg = "")); [split; [done|tauto]|].
    destruct (decide (size (Intents cfg) = 0%nat)) as [Hs|_].
    { split; [done|]. intros (_ & Hk & _). apply map_size_empty_inv in Hs. rewrite Hs in Hk.
      destruct (Hk IntentCode) as [? Hn]. by rewrite lookup_empty in Hn. }
    destruct (list_find _ knownIntents) as [[j name]|] eqn:Hf.
    { apply list_find_Some in Hf as (_ & Hn & _). split; [done|]. intros (_ & Hk & _).
      destruct (Hk name) as [? Hk']. congruence. }
    apply list_find_None in Hf. rewrite Forall_forall in Hf. rewrite head_omap_None. split.
    - intros Hall. split_and!; [done| |].
      + intros i. apply not_eq_None_Some. apply Hf, knownIntents_all.
      + intros k def Hd. apply (checkDef_None k _ (Hfloats _ _ Hd)). apply (Hall (k, def)). by apply (elem_of_range rng).
    - intros (_ & _ & Hall) [k def] Hin. apply (elem_of_range rng) in Hin. apply checkDef_None; [exact (Hfloats _ _ Hin)|exact (Hall _ _ Hin)]. }
  split; [done|]. intros Hv. apply Hiff in Hv as (_ & Hk & Hall). intros i. destruct (Hk i) as [def Hd].
  unfold ResolvedIntent. rewrite Hd. simpl. destruct (Hall _ _ Hd) as (_ & _ & Hdest). case_decide; set_solver.
Qed.

(** Whatever the classifier and the knowledge base answer, and for every
    configuration, composing a request only ever puts at most two system messages
    in front of the messages: the conversation itself, the model, the tools, the
    streaming flag and every other extra field are those of the request; the
    thinking flag, the temperature and the token limit are the ones the intent
    resolves to.  A request for an agent is passed on untouched, and a failed
    classification is routed as general. *)
Theorem compose_exact {F} `{GoFloat F} (cfg : IntentConfig F) hasKB kb rc answer elapsed (req : ChatRequest F) :
  let d := Classify rc answer elapsed in
  let def := ResolvedIntent cfg (rdIntent d) in
  let r := Compose cfg hasKB kb d req in
  crIntentName r = rdIntent d ∧ rdDestination d = intentText (rdIntent d) ∧
  (rdFallback d = true → rdIntent d = IntentGeneral) ∧
  (Destination def = "agent" → crIsAgentDispatch r = true ∧ crRequest r = req) ∧
  (Destination def ≠ "agent" → crIsAgentDispatch r = false ∧
     (∃ pre, rqMessages (crRequest r) = pre ++ rqMessages req ∧ (length pre ≤ 2)%nat ∧ Forall isSystem pre) ∧
     rqModel (crRequest r) = rqModel req ∧ rqTools (crRequest r) = rqTools req ∧
     rqStream (crRequest r) = rqStream req ∧
     rqTemperature (crRequest r) = union (Temperature def) (rqTemperature req) ∧
     (rqMaxTokens req <= 0 → rqMaxTokens (crRequest r) = rqMaxTokens req) ∧
     ∃ extra, rqExtra (crRequest r) = Some extra ∧
       extra !! "chat_template_kwargs" = Some (thinkingKwargs (default false (EnableThinking def))) ∧
       ∀ k, k ≠ "chat_template_kwargs" → extra !! k = default ∅ (rqExtra req) !! k).
Proof.
  intros d def r. assert (rdDestination d = intentText (rdIntent d) ∧ (rdFallback d = true → rdIntent d = IntentGeneral)) as [Hd1 Hd2].
  { unfold d, Classify. case_decide; [done|]. destruct answer as [| |status body]; try done. case_decide; [done|]. by destruct body. }
  split; [unfold r, Compose; fold def; repeat case_match; done|]. split; [done|]. split; [done|].
  pose proof (Compose_prefix cfg hasKB kb d req) as Hpre. fold r in Hpre. revert Hpre.
  unfold r, Compose. fold def. destruct (decide (Destination def = "agent")) as [Ha|Ha]; [by split|].
  set (kbpart := match KBSearchEnabled def with Some true => _ | _ => _ end). destruct kbpart as [msgs count]. cbn.
  intros Hpre. split; [done|]. intros _. split_and!; try done.
  - unfold union, option_union, option_union_with. by destruct (Temperature def), (rqTemperature req).
  - intros Hle. destruct (MaxTokensMult def) as [mm|]; [|done]. rewrite bool_decide_false by lia. by rewrite andb_false_r.
  - eexists. split; [done|]. split; [rewrite lookup_insert_eq; by destruct (EnableThinking def)|].
    intros k Hk. by rewrite lookup_insert_ne.
Qed.

(** ** Witnesses and examples *)

Definition plainDef : IntentDef Q := zeroDef "".

Definition sample_intents : IntentConfig Q := {|
  IVersion := "3.1";
  Defaults := {| dTemperature := None; dMaxTokensMult := 0%Q; dEnableThinking := false; dKBSearchEnabled := false; dKBSearchLimit := 5 |};
  Intents := list_to_map ((λ i, (intentText i, plainDef)) <$> knownIntents)
|}.

(** A file with these numbers for the intent code. *)
Definition numbered (temperature multiplier : spec_float) : IntentConfig spec_float :=
  let plain := zeroDef "" in
  {| IVersion := "3.1";
     Defaults := {| dTemperature := None; dMaxTokensMult := fofZ 1; dEnableThinking := false; dKBSearchEnabled := false; dKBSearchLimit := 5 |};
     Intents := <["code" := {| SystemPrompt := ""; Temperature := Some temperature; MaxTokensMult := Some multiplier; EnableThinking := None;
                               KBSearchEnabled := None; KBSearchLimit := None; KBScope := ""; Destination := "agent" |}]>
                (list_to_map ((λ i, (intentText i, plain)) <$> knownIntents)) |}.

Lemma numbered_floats t m : isFloat64 t → isFloat64 m → map_Forall (λ _, floatsOf) (Intents (numbered t m)).
Proof.
  intros Ht Hm. apply map_Forall_insert_2; [by split; intros ? [= <-]|]. intros k def Hk%elem_of_list_to_map_2.
  apply list_elem_of_fmap in Hk as (i & [= -> ->] & _). by split.
Qed.

Lemma intent_config_exact_witness :
  (validateIntentConfig map_to_list (numbered (fofZ 2) fquarter) = None ∧
   Destination (ResolvedIntent (numbered (fofZ 2) fquarter) IntentCode) ∈ ["model"; "agent"]) ∧
  ¬ goodTemperature (fofZ 3).
Proof.
  split.
  - split; [vm_compute; reflexivity|]. apply (intent_config_exact map_to_list (numbered (fofZ 2) fquarter)); [by apply numbered_floats|vm_compute; reflexivity].
  - intros Hg. rewrite <- goodTemperature_iff in Hg by done. vm_compute in Hg. done.
Defined.

(** YAML's [.nan] is accepted as a temperature and as a multiplier. *)
Example nan_accepted : validateIntentConfig map_to_list (numbered S754_nan S754_nan) = None ∧
  validateIntentConfig map_to_list (numbered (S754_infinity false) (fofZ 1)) = Some (BadTemperature "code").
Proof. vm_compute. split; reflexivity. Qed.

Definition sample_chat : ChatRequest Q := {|
  rqModel := "m"; rqMessages := [textMessage "user" "hi"]; rqTools := []; rqMaxTokens := 800; rqTemperature := None;
  rqStream := false; rqExtra := None
|}.

(** A file without a default multiplier passes the validation; the multiplier is
    then zero, and every intent without its own turns a token limit into none. *)
Example missing_default_multiplier :
  validateIntentConfig map_to_list sample_intents = None ∧
  rqMaxTokens (crRequest (Compose sample_intents false (λ _ _, None)
    (Classify {| REnabled := true; ClassifierURL := "u" |} (Answer 200 (BodyOK [" Ops "] None)) 1) sample_chat)) = 0.
Proof. vm_compute. split; reflexivity. Qed.

Example labels :
  parseLabel " R" = LabelReasoning ∧ parseLabel "code." = LabelGeneral ∧
  rdIntent (Classify {| REnabled := true; ClassifierURL := "u" |} (Answer 200 (BodyOK [] (Some "AGENT"))) 1) = IntentAgent.
Proof. vm_compute. split_and!; reflexivity. Qed.
