(* ===== verification/ChatServer.v ===== *)
(** * ChatServer: the OpenAI-compatible endpoint (agentorchestrator/openai_compat.go)

    The validation of multipart content (internal/multimodal/content.go) and the
    handler of /v1/chat/completions: concurrency slots, token budget, content
    checks, routing by intent, the model call and the answer, whole or streamed.

    Many requests are in flight at once.  A request is two steps: [startChat] up
    to the model call, holding a slot of the semaphore, and a finishing step with
    the model's answer, which gives the slot back; the steps of other requests
    come in between.  What encoding/json makes of a message's content is
    [decodeContent]; metrics and audit entries are output only. *)
From S2P Require Import Prelude GoTime GoPath GoStrings Types Chat Quota Access Intent.

(** ** Multipart content (internal/multimodal/content.go) *)

Definition MaxImageParts : Z := 8.

Record ImageURL := { imURL : string; imDetail : string }.

Record ContentPart := { cpType : string; cpText : string; cpImageURL : option ImageURL }.

(** A string, or an array of parts. *)
Inductive MessageContent := ContentText (text : string) | ContentMultipart (parts : list ContentPart).

Definition AsText (c : MessageContent) : string :=
  match c with
  | ContentText text => text
  | ContentMultipart parts =>
      foldl (λ b p, if decide (cpType p = "text") then (if decide (b = "") then b else b +:+ " ") +:+ cpText p else b) "" parts
  end.

Definition IsMultipart (c : MessageContent) : bool :=
  match c with ContentText _ => false | ContentMultipart _ => true end.

Definition HasImage (c : MessageContent) : bool :=
  match c with
  | ContentText _ => false
  | ContentMultipart parts => existsb (λ p, bool_decide (cpType p = "image_url")) parts
  end.

Definition Parts (c : MessageContent) : list ContentPart :=
  match c with ContentText _ => [] | ContentMultipart parts => parts end.

Inductive ContentError :=
  | EmptyURL (i : Z) | DataURL (i : Z) | FileURL (i : Z) | UnknownScheme (i : Z) | TooManyImages
  | TypeRequired (i : Z) | UnsupportedType (i : Z) (ty : string).

Definition checkURL (i : Z) (u : string) : option ContentError :=
  let l := lower u in
  if HasPrefix l "https://" || HasPrefix l "http://" then None
  else if HasPrefix l "data:" then Some (DataURL i)
  else if HasPrefix l "file:" then Some (FileURL i)
  else Some (UnknownScheme i).

Fixpoint validateParts (i imageCount : Z) (parts : list ContentPart) : option ContentError :=
  match parts with
  | [] => None
  | p :: ps =>
      if decide (cpType p = "text") then validateParts (i + 1) imageCount ps
      else if decide (cpType p = "image_url") then
        match cpImageURL p with
        | None => Some (EmptyURL i)
        | Some im =>
            if decide (imURL im = "") then Some (EmptyURL i)
            else match checkURL i (imURL im) with
            | Some e => Some e
            | None =>
                if decide (MaxImageParts < imageCount + 1) then Some TooManyImages
                else validateParts (i + 1) (imageCount + 1) ps
            end
        end
      else if decide (cpType p = "") then Some (TypeRequired i)
      else Some (UnsupportedType i (cpType p))
  end.

Definition ValidateContent (c : MessageContent) : option ContentError :=
  match c with
  | ContentText _ => None
  | ContentMultipart parts => validateParts 0 0 parts
  end.

(** ** Inspecting a request *)

Definition chatMultimodalScope : string := "chat:multimodal".

Definition containsScope (scopes : list string) (want : string) : bool := bool_decide (want ∈ scopes).

Definition imageParts (c : MessageContent) : list ContentPart :=
  filter (λ p, cpType p = "image_url" ∧ is_Some (cpImageURL p)) (Parts c).

Section inspect.
Context (decodeContent : any → option MessageContent).

(** The content of a message that must be looked at, [None] for a string or an
    absent one. *)
Definition complexContent (m : ChatMessage) : option any :=
  match Content m with AStr _ => None | ANil => None | c => Some c end.

Inductive InspectError := BadContent (message : Z) | InvalidPart (message : Z) (e : ContentError).

(** The number of image parts, or the first error. *)
Fixpoint inspectFrom (i : Z) (msgs : list ChatMessage) : InspectError + Z :=
  match msgs with
  | [] => inr 0
  | m :: ms =>
      match complexContent m with
      | None => inspectFrom (i + 1) ms
      | Some raw =>
          match decodeContent raw with
          | None => inl (BadContent i)
          | Some c =>
              if negb (IsMultipart c) then inspectFrom (i + 1) ms
              else match ValidateContent c with
              | Some e => inl (InvalidPart i e)
              | None =>
                  match inspectFrom (i + 1) ms with
                  | inl e => inl e
                  | inr n => inr (Z.of_nat (length (imageParts c)) + n)
                  end
              end
          end
      end
  end.

Definition inspectChatMessages (msgs : list ChatMessage) : InspectError + Z := inspectFrom 0 msgs.

End inspect.

(** Unlike the composer's, this one skips user messages without text. *)
Fixpoint lastUserMessage (newestFirst : list ChatMessage) : string :=
  match newestFirst with
  | [] => ""
  | m :: ms =>
      if decide (MRole m = "user" ∧ MessageText m ≠ "") then MessageText m else lastUserMessage ms
  end.

(** ** Answers *)

Record Completion := { cmModel : string; cmChoices : list (Z * ChatChoice); cmUsage : ChatUsage }.

Record Choice := { chIndex : Z; chMessage : ChatMessage; chFinish : string }.

(** A streamed event: a chunk, or the end mark. *)
Record Chunk := {
  ckIndex : Z; ckRole : string; ckContent : string; ckFinish : option string; ckUsage : option ChatUsage
}.
Inductive SSE := SSEChunk (model : string) (choices : list Chunk) | SSEDone.

Inductive ChatReply :=
  | CError (status : Z) (code : string)
  | CCompletion (model : string) (choices : list Choice) (usage : ChatUsage)
  | CStream (events : list SSE)
  | CAgentDispatch (intent : IntentName).

(** The index a choice is answered under: its own, or its position. *)
Fixpoint indexedFrom (i : Z) (choices : list (Z * ChatChoice)) : list (Z * ChatChoice) :=
  match choices with
  | [] => []
  | (idx, c) :: cs => ((if decide (idx = 0 ∧ i ≠ 0) then i else idx), c) :: indexedFrom (i + 1) cs
  end.

(** ** The handler *)

Record ChatServer {St F : Type} := {
  slots : option (Z * Z);              (* capacity and slots in use *)
  budget : option (TokenBudget St);
  routerCfg : RouterConfig;
  composer : option (IntentConfig F);
  hasKB : bool;
  defaultModel : string;
  providerName : string;
  canStream : bool
}.
Arguments ChatServer : clear implicits.

Record ChatHTTP {F : Type} := {
  chMethod : string;
  chAuth : AuthContext;
  chBody : option (ChatRequest F);
  chNow : Time;
  chClassifier : ClassifierAnswer;
  chElapsed : Duration;
  chKB : string → Z → KBAnswer
}.
Arguments ChatHTTP : clear implicits.

Section handler.
Context {St F : Type} `{UsageRecorder St} `{GoFloat F}.
Context (decodeContent : any → option MessageContent).
Implicit Types s : ChatServer St F.

Definition setSlots (x : option (Z * Z)) s : ChatServer St F :=
  {| slots := x; budget := budget s; routerCfg := routerCfg s; composer := composer s; hasKB := hasKB s;
     defaultModel := defaultModel s; providerName := providerName s; canStream := canStream s |}.
Definition setBudget (b : option (TokenBudget St)) s : ChatServer St F :=
  {| slots := slots s; budget := b; routerCfg := routerCfg s; composer := composer s; hasKB := hasKB s;
     defaultModel := defaultModel s; providerName := providerName s; canStream := canStream s |}.

Definition acquire s : bool * ChatServer St F :=
  match slots s with
  | None => (true, s)
  | Some (cap, used) => if decide (used < cap) then (true, setSlots (Some (cap, used + 1)) s) else (false, s)
  end.

Definition release s : ChatServer St F :=
  match slots s with
  | None => s
  | Some (cap, used) => setSlots (Some (cap, used - 1)) s
  end.

Definition checkBudget (now : Time) (tenantID : string) s : bool * ChatServer St F :=
  match budget s with
  | None => (true, s)
  | Some tb => let '(ok, tb) := Check now tenantID tb in (ok, setBudget (Some tb) s)
  end.

Definition recordBudget (now now' : Time) (tenantID : string) (n : Z) s : ChatServer St F :=
  match budget s with
  | None => s
  | Some tb => setBudget (Some (Record_ now now' tenantID n tb).2) s
  end.

Definition withExtra (req : ChatRequest F) (thinking : bool) : ChatRequest F := {|
  rqModel := rqModel req; rqMessages := rqMessages req; rqTools := rqTools req; rqMaxTokens := rqMaxTokens req;
  rqTemperature := rqTemperature req; rqStream := rqStream req;
  rqExtra := Some {["chat_template_kwargs" := thinkingKwargs thinking]}
|}.

Definition withModel (req : ChatRequest F) (model : string) : ChatRequest F := {|
  rqModel := model; rqMessages := rqMessages req; rqTools := rqTools req; rqMaxTokens := rqMaxTokens req;
  rqTemperature := rqTemperature req; rqStream := rqStream req; rqExtra := rqExtra req
|}.

(** The routing of a request: the request to send, or the dispatch to an agent. *)
Definition routeChat (rq : ChatHTTP F) (hasVision : bool) (req : ChatRequest F) s : IntentName + ChatRequest F :=
  if hasVision then inr req
  else if negb (REnabled (routerCfg s)) then inr req
  else if decide (lastUserMessage (reverse (rqMessages req)) = "") then inr req
  else
    let d := Classify (routerCfg s) (chClassifier rq) (chElapsed rq) in
    match composer s with
    | Some cfg =>
        let cr := Compose cfg (hasKB s) (chKB rq) d req in
        if crIsAgentDispatch cr then inl (rdIntent d) else inr (crRequest cr)
    | None => inr (withExtra req (bool_decide (rdLabel d = LabelReasoning)))
    end.

(** Up to the model call.  [inl]: the request is answered, and its slot, if it
    held one, is free again; [inr]: the request goes to the model. *)
Definition startChat (rq : ChatHTTP F) s : (ChatReply + (string * ChatRequest F)) * ChatServer St F :=
  let fail status code s := (inl (CError status code), s) in
  if decide (chMethod rq ≠ "POST") then fail 405 "method_not_allowed" s
  else
    let tenantID := ATenantID (chAuth rq) in
    if decide (tenantID = "") then fail 401 "unauthorized" s
    else
      let '(ok, s) := acquire s in
      if negb ok then fail 429 "quota_exceeded" s
      else
        let '(ok, s) := checkBudget (chNow rq) tenantID s in
        if negb ok then fail 429 "token_budget_exceeded" (release s)
        else match chBody rq with
        | None => fail 400 "invalid_json" (release s)
        | Some req =>
            let req := if decide (rqModel req = "") then withModel req (defaultModel s) else req in
            match inspectChatMessages decodeContent (rqMessages req) with
            | inl _ => fail 400 "invalid_content" (release s)
            | inr imageCount =>
                let hasVision := bool_decide (0 < imageCount) in
                if hasVision && bool_decide (providerName s = "anthropic") then
                  fail 400 "unsupported_for_provider" (release s)
                else if hasVision && negb (containsScope (Scopes (chAuth rq)) chatMultimodalScope) then
                  fail 403 "scope_missing" (release s)
                else match routeChat rq hasVision req s with
                | inl intent => (inl (CAgentDispatch intent), release s)
                | inr req => (inr (tenantID, req), s)
                end
            end
        end.

(** The answer of a model call that is not streamed. *)
Definition finishWhole (now now' : Time) (tenantID : string) (answer : option Completion) s : ChatReply * ChatServer St F :=
  match answer with
  | None => (CError 502 "model_error", release s)
  | Some c =>
      (CCompletion (cmModel c)
         ((λ ic, {| chIndex := ic.1; chMessage := Message ic.2; chFinish := FinishReason ic.2 |}) <$> indexedFrom 0 (cmChoices c))
         (cmUsage c),
       release (recordBudget now now' tenantID (TotalTokens (cmUsage c)) s))
  end.

(** A streamed answer of a provider that cannot stream: one chunk and the end. *)
Definition finishWrapped (now now' : Time) (tenantID : string) (answer : option Completion) s : ChatReply * ChatServer St F :=
  match answer with
  | None => (CError 502 "model_error", release s)
  | Some c =>
      (CStream
         [SSEChunk (cmModel c)
            ((λ ic, {| ckIndex := ic.1; ckRole := MRole (Message ic.2); ckContent := MessageText (Message ic.2);
                       ckFinish := Some (FinishReason ic.2); ckUsage := None |}) <$> indexedFrom 0 (cmChoices c));
          SSEDone],
       release (recordBudget now now' tenantID (TotalTokens (cmUsage c)) s))
  end.

(** The loop over the chunks of a stream, each with its choice index. *)
Fixpoint streamLoop (clock : nat → Time) (n : nat) (tenantID model : string) (first : bool) (chunks : list (Z * StreamChunk)) s :
    list SSE * ChatServer St F :=
  match chunks with
  | [] => ([SSEDone], s)
  | (idx, sc) :: cs =>
      match ChunkErr sc with
      | Some _ => ([], s)
      | None =>
          let chunk := {| ckIndex := idx; ckRole := if first then "assistant" else ""; ckContent := Delta sc;
                          ckFinish := if decide (ChunkFinish sc = "") then None else Some (ChunkFinish sc);
                          ckUsage := ChunkUsage sc |} in
          let s := match ChunkUsage sc with
                   | Some u => recordBudget (clock (2 * n)%nat) (clock (2 * n + 1)%nat) tenantID (TotalTokens u) s
                   | None => s
                   end in
          let '(out, s) := streamLoop clock (Datatypes.S n) tenantID model false cs s in
          (SSEChunk model [chunk] :: out, s)
      end
  end.

(** [None]: opening the stream failed. *)
Definition finishStream (clock : nat → Time) (tenantID model : string) (answer : option (list (Z * StreamChunk))) s :
    ChatReply * ChatServer St F :=
  match answer with
  | None => (CError 502 "model_error", release s)
  | Some chunks =>
      let '(out, s) := streamLoop clock 0 tenantID model true chunks s in (CStream out, release s)
  end.

End handler.

(** ** Models (handleModels, handleModelByID)

    [upstream] is the status of the proxied answer; [None] without an upstream or
    when it cannot be reached. *)
Inductive ModelReply := MError (status : Z) (code : string) | MProxied (status : Z) | MStatic (ids : list string).

Definition handleModels (method : string) (upstream : option Z) (defaultModel : string) : ModelReply :=
  if decide (method ≠ "GET") then MError 405 "method_not_allowed"
  else if decide (upstream = Some 200) then MProxied 200
  else MStatic [defaultModel].

Definition handleModelByID (method path : string) (upstream : option Z) (defaultModel : string) : ModelReply :=
  if decide (method ≠ "GET") then MError 405 "method_not_allowed"
  else
    let modelID := trimChar "/" (TrimPrefix path "/v1/models/") in
    if decide (modelID = "") then MError 400 "invalid_request"
    else match upstream with
    | Some status => MProxied status
    | None => if decide (modelID ≠ defaultModel) then MError 404 "model_not_found" else MStatic [modelID]
    end.

(** ** Requests in flight *)

Record ModelAnswer := { maWhole : option Completion; maStream : option (list (Z * StreamChunk)) }.

Section system.
Context {St F : Type} `{UsageRecorder St} `{GoFloat F}.
Context (decodeContent : any → option MessageContent).

Definition finishChat (clock : nat → Time) (p : string * ChatRequest F) (a : ModelAnswer) (s : ChatServer St F) :
    ChatReply * ChatServer St F :=
  let '(tenantID, req) := p in
  if rqStream req then
    if canStream s then finishStream clock tenantID (rqModel req) (maStream a) s
    else finishWrapped (clock 0%nat) (clock 1%nat) tenantID (maWhole a) s
  else finishWhole (clock 0%nat) (clock 1%nat) tenantID (maWhole a) s.

(** The server and the requests waiting for the model. *)
Record ChatSystem := { chat : ChatServer St F; inFlight : list (string * ChatRequest F) }.

Inductive ChatOp :=
  | OpStart (rq : ChatHTTP F)
  | OpFinish (i : nat) (clock : nat → Time) (a : ModelAnswer).

Definition chatStep (y : ChatSystem) (op : ChatOp) : ChatSystem :=
  match op with
  | OpStart rq =>
      match startChat decodeContent rq (chat y) with
      | (inl _, s) => {| chat := s; inFlight := inFlight y |}
      | (inr p, s) => {| chat := s; inFlight := inFlight y ++ [p] |}
      end
  | OpFinish i clock a =>
      match inFlight y !! i with
      | None => y
      | Some p => {| chat := (finishChat clock p a (chat y)).2; inFlight := delete i (inFlight y) |}
      end
  end.

End system.
Arguments ChatSystem : clear implicits.
Arguments ChatOp : clear implicits.

(** ** Lemmas *)

Definition webURL (u : string) : Prop := HasPrefix (lower u) "https://" = true ∨ HasPrefix (lower u) "http://" = true.

Definition goodPart (p : ContentPart) : Prop :=
  cpType p = "text" ∨ (cpType p = "image_url" ∧ ∃ im, cpImageURL p = Some im ∧ imURL im ≠ "" ∧ webURL (imURL im)).

Definition imageCount (parts : list ContentPart) : Z := Z.of_nat (length (filter (λ p, cpType p = "image_url") parts)).

Lemma checkURL_None i u : checkURL i u = None ↔ webURL u.
Proof.
  unfold checkURL, webURL. rewrite <-orb_true_iff. cbv zeta. destruct (_ || _); [done|].
  split; [|done]. by repeat case_match.
Qed.

Lemma validateParts_None i n parts :
  0 <= n <= MaxImageParts →
  validateParts i n parts = None ↔ Forall goodPart parts ∧ n + imageCount parts <= MaxImageParts.
Proof.
  revert i n. induction parts as [|p ps IH]; intros i n Hn.
  - unfold imageCount. simpl. split; [|done]. intros _. split; [constructor|lia].
  - cbn [validateParts]. rewrite Forall_cons. unfold imageCount, goodPart. rewrite filter_cons.
    destruct (decide (cpType p = "text")) as [Ht|Ht].
    { rewrite IH by lia. rewrite decide_False by (by rewrite Ht). tauto. }
    destruct (decide (cpType p = "image_url")) as [Hi|Hi].
    + destruct (cpImageURL p) as [im|]; [|split; [done|]; intros [[[|(_ & ? & [=] & _)] _] _]; done].
      destruct (decide (imURL im = "")) as [He|He].
      { split; [done|]. intros [[[|(_ & im' & [= <-] & Hne & _)] _] _]; done. }
      destruct (checkURL i (imURL im)) as [e|] eqn:Hu.
      { split; [done|]. intros [[[|(_ & im' & [= <-] & _ & Hw)] _] _]; [done|]. apply (checkURL_None i) in Hw. congruence. }
      apply checkURL_None in Hu. cbn [length]. rewrite Nat2Z.inj_succ.
      destruct (decide (MaxImageParts < n + 1)) as [Hm|Hm].
      { split; [done|]. intros [_ Hle]. lia. }
      rewrite IH by lia. unfold imageCount. split.
      * intros [Hf Hle]. split; [split; [right; split; [done|]; by exists im|done]|lia].
      * intros [[_ Hf] Hle]. split; [done|lia].
    + split; [destruct (decide (cpType p = "")); done|]. intros [[[|[]] _] _]; done.
Qed.

Section inspect_lemmas.
Context (decodeContent : any → option MessageContent).

(** What every message has to satisfy. *)
Definition goodMessage (m : ChatMessage) : Prop :=
  ∀ raw, complexContent m = Some raw →
    ∃ c, decodeContent raw = Some c ∧ Forall goodPart (Parts c) ∧ imageCount (Parts c) <= MaxImageParts.

(** The images a message carries. *)
Definition imagesOf (m : ChatMessage) : Z :=
  match complexContent m ≫= decodeContent with Some c => imageCount (Parts c) | None => 0 end.

Lemma imageParts_good c : Forall goodPart (Parts c) → Z.of_nat (length (imageParts c)) = imageCount (Parts c).
Proof.
  intros Hg. unfold imageParts, imageCount. f_equal. f_equal. induction Hg as [|p ps Hp Hps IH]; [done|].
  rewrite !filter_cons. destruct (decide (cpType p = "image_url")) as [Hi|Hi].
  - rewrite decide_True; [by rewrite IH|]. split; [done|]. destruct Hp as [Ht|(_ & im & -> & _)]; [congruence|done].
  - rewrite decide_False by tauto. done.
Qed.

Lemma inspect_exact i msgs n :
  inspectFrom decodeContent i msgs = inr n ↔ Forall goodMessage msgs ∧ n = foldr (λ m k, imagesOf m + k) 0 msgs.
Proof.
  revert i n. induction msgs as [|m ms IH]; intros i n.
  - simpl. split; [intros [= <-]; split; [constructor|done]|by intros [_ ->]].
  - cbn [inspectFrom foldr]. rewrite Forall_cons. unfold imagesOf at 1, goodMessage at 1.
    destruct (complexContent m) as [raw|]; simpl.
    2: { rewrite IH. split; [intros [? ->]; split_and!; [by intros ? [=]|done|lia]|]. intros [[_ ?] ->]. split; [done|lia]. }
    destruct (decodeContent raw) as [c|] eqn:Ed.
    2: { split; [done|]. intros [[Hm _] _]. destruct (Hm raw eq_refl) as (? & ? & _). congruence. }
    destruct c as [text|parts]; simpl.
    + rewrite IH. split.
      * intros [? ->]. split_and!; [|done|done]. intros ? [= <-]. eexists. split; [done|]. simpl. split; [constructor|done].
      * intros [[_ ?] ->]. split; [done|]. unfold imageCount. simpl. lia.
    + pose proof (validateParts_None 0 0 parts ltac:(done)) as Hv. destruct (validateParts 0 0 parts) as [e|].
      * split; [done|]. intros [[Hm _] _]. destruct (Hm raw eq_refl) as (c & Hc' & Hc). rewrite Ed in Hc'. injection Hc' as <-. by apply Hv in Hc.
      * destruct Hv as [Hv _]. destruct (Hv eq_refl) as [Hg Hle]. pose proof (imageParts_good (ContentMultipart parts) Hg) as Hip.
        destruct (inspectFrom decodeContent (i + 1) ms) as [e|k] eqn:Ei.
        { split; [done|]. intros [[_ Hms] ->]. pose proof (proj2 (IH (i + 1) _) (conj Hms eq_refl)). congruence. }
        destruct (proj1 (IH (i + 1) k) Ei) as [Hms ->]. simpl in Hip. rewrite Hip. split.
        { intros [= <-]. split_and!; try done. intros ? [= <-]. exists (ContentMultipart parts). done. }
        { intros [_ ->]. done. }
Qed.

End inspect_lemmas.

Section system_lemmas.
Context {St F : Type} `{UsageRecorder St} `{GoFloat F}.
Context (decodeContent : any → option MessageContent).
Implicit Types s : ChatServer St F.

Definition slotTaken (x : option (Z * Z)) : option (Z * Z) := (λ cu, (cu.1, cu.2 + 1)) <$> x.
Definition slotFreed (x : option (Z * Z)) : option (Z * Z) := (λ cu, (cu.1, cu.2 - 1)) <$> x.

Lemma slots_release s : slots (release s) = slotFreed (slots s).
Proof. unfold release. destruct (slots s) as [[cap used]|] eqn:Hs; [done|]. by rewrite Hs. Qed.

Lemma freed_taken x : slotFreed (slotTaken x) = x.
Proof. destruct x as [[cap used]|]; [|done]. simpl. by rewrite Z.add_simpl_r. Qed.

Lemma slots_acquire s :
  match acquire s with
  | (false, s') => s' = s
  | (true, s') => slots s' = slotTaken (slots s) ∧ budget s' = budget s ∧ ∀ cap used, slots s = Some (cap, used) → used < cap
  end.
Proof.
  unfold acquire. destruct (slots s) as [[cap used]|] eqn:Hs.
  - destruct (decide (used < cap)); [|done]. split; [done|]. split; [done|]. by intros ? ? [= <- <-].
  - split; [by rewrite Hs|]. split; [done|]. done.
Qed.

Lemma checkBudget_keeps now t s :
  slots (checkBudget now t s).2 = slots s ∧ providerName (checkBudget now t s).2 = providerName s.
Proof. unfold checkBudget. destruct (budget s) as [tb|]; [|done]. by destruct (Check now t tb). Qed.

Lemma acquire_keeps s : providerName (acquire s).2 = providerName s.
Proof. unfold acquire. destruct (slots s) as [[cap used]|]; [case_decide|]; done. Qed.

Lemma recordBudget_slots now now' t n s : slots (recordBudget now now' t n s) = slots s.
Proof. unfold recordBudget. by destruct (budget s). Qed.

Lemma streamLoop_slots clock n t model first chunks s : slots (streamLoop clock n t model first chunks s).2 = slots s.
Proof.
  revert n first s. induction chunks as [|[idx sc] cs IH]; intros n first s; [done|]. simpl.
  destruct (ChunkErr sc); [done|].
  set (s1 := match ChunkUsage sc with Some u => _ | None => _ end).
  specialize (IH (Datatypes.S n) false s1). destruct (streamLoop _ _ _ _ _ _ _). simpl in *. rewrite IH.
  unfold s1. destruct (ChunkUsage sc); [apply recordBudget_slots|done].
Qed.

Lemma finishChat_slots clock p a s : slots (finishChat clock p a s).2 = slotFreed (slots s).
Proof.
  destruct p as [t req]. unfold finishChat, finishStream, finishWrapped, finishWhole.
  destruct (rqStream req), (canStream s); [destruct (maStream a) as [chunks|]|destruct (maWhole a)..]; simpl;
    rewrite ?slots_release, ?recordBudget_slots; try done.
  pose proof (streamLoop_slots clock 0 t (rqModel req) true chunks s) as Hs. destruct (streamLoop _ _ _ _ _ _ _).
  simpl in *. by rewrite slots_release, Hs.
Qed.

(** What a request that reaches the model has passed. *)
Definition passedGates (rq : ChatHTTP F) s (tenant : string) (sent : ChatRequest F) : Prop :=
  chMethod rq = "POST" ∧ tenant = ATenantID (chAuth rq) ∧ tenant ≠ "" ∧
  (∀ cap used, slots s = Some (cap, used) → used < cap) ∧
  (∀ tb, budget s = Some tb → (Check (chNow rq) tenant tb).1 = true) ∧
  ∃ req, chBody rq = Some req ∧ Forall (goodMessage decodeContent) (rqMessages req) ∧
    (Exists (λ m, 0 < imagesOf decodeContent m) (rqMessages req) →
       providerName s ≠ "anthropic" ∧ chatMultimodalScope ∈ Scopes (chAuth rq) ∧ rqMessages sent = rqMessages req) ∧
    ∃ pre, rqMessages sent = pre ++ rqMessages req ∧ Forall isSystem pre.

Lemma routeChat_suffix rq vision req s sent :
  routeChat rq vision req s = inr sent →
  (vision = true → sent = req) ∧ ∃ pre, rqMessages sent = pre ++ rqMessages req ∧ Forall isSystem pre.
Proof.
  unfold routeChat. destruct vision; [intros [= <-]; split; [done|by exists []]|].
  destruct (negb (REnabled (routerCfg s))); [intros [= <-]; split; [done|by exists []]|].
  case_decide; [intros [= <-]; split; [done|by exists []]|].
  destruct (composer s) as [cfg|]; [|intros [= <-]; split; [done|by exists []]].
  destruct (crIsAgentDispatch _) eqn:Hd; [done|]. intros [= <-]. split; [done|].
  apply Compose_suffix.
Qed.

Lemma images_positive msgs :
  Exists (λ m, 0 < imagesOf decodeContent m) msgs ↔ 0 < foldr (λ m k, imagesOf decodeContent m + k) 0 msgs.
Proof.
  assert (∀ m, 0 <= imagesOf decodeContent m) as Hpos
    by (intros m; unfold imagesOf, imageCount; destruct (_ ≫= _); lia).
  assert (∀ ms, 0 <= foldr (λ m k, imagesOf decodeContent m + k) 0 ms) as Hsum
    by (induction ms as [|m ms IH]; simpl; [done|]; specialize (Hpos m); lia).
  induction msgs as [|m ms IH]; [rewrite Exists_nil; simpl; lia|]. rewrite Exists_cons, IH. simpl.
  specialize (Hpos m). specialize (Hsum ms). lia.
Qed.

Lemma startChat_cases rq s :
  match startChat decodeContent rq s with
  | (inl _, s') => slots s' = slots s
  | (inr (tenant, sent), s') => slots s' = slotTaken (slots s) ∧ passedGates rq s tenant sent
  end.
Proof.
  unfold startChat. destruct (decide (chMethod rq ≠ "POST")) as [|Hp]; [done|]. apply dec_stable in Hp.
  destruct (decide (ATenantID (chAuth rq) = "")) as [|Hten]; [done|].
  pose proof (slots_acquire s) as Ha. pose proof (acquire_keeps s) as Hprov. destruct (acquire s) as [[|] s1]; [|by subst]. cbn [negb].
  destruct Ha as (Ha & Hb & Hfree). simpl in Hprov.
  pose proof (checkBudget_keeps (chNow rq) (ATenantID (chAuth rq)) s1) as [Hcs Hcp].
  assert ((checkBudget (chNow rq) (ATenantID (chAuth rq)) s1).1 = true →
    ∀ tb, budget s = Some tb → (Check (chNow rq) (ATenantID (chAuth rq)) tb).1 = true) as Hbud.
  { unfold checkBudget. rewrite Hb. intros Hok tb Htb. rewrite Htb in Hok. by destruct (Check _ _ _). }
  destruct (checkBudget _ _ s1) as [ok s2]. simpl in Hcs, Hcp, Hbud.
  assert (slots (release s2) = slots s) as Hrel by (by rewrite slots_release, Hcs, Ha, freed_taken).
  destruct ok; [|done]. cbn [negb]. destruct (chBody rq) as [req0|] eqn:Hbody; [|done].
  set (req := if decide (rqModel req0 = "") then _ else req0).
  assert (rqMessages req = rqMessages req0) as Hmsgs by (unfold req; by case_decide).
  destruct (inspectChatMessages decodeContent (rqMessages req)) as [|n] eqn:Hi; [done|].
  apply inspect_exact in Hi as [Hgood Hn]. rewrite Hmsgs in Hgood, Hn.
  destruct (bool_decide (0 < n) && bool_decide (providerName s2 = "anthropic")) eqn:Hanth; [done|].
  destruct (bool_decide (0 < n) && negb _) eqn:Hscope; [done|].
  destruct (routeChat rq _ req s2) as [|sent] eqn:Hroute; [done|].
  apply routeChat_suffix in Hroute as [Hvis Hpre]. rewrite Hmsgs in Hpre.
  split; [congruence|]. split_and!; try done; [by apply Hbud|]. exists req0. split_and!; try done.
  rewrite images_positive, <-Hn. intros Hpos. rewrite bool_decide_true in Hanth, Hscope, Hvis by done. simpl in Hanth, Hscope.
  rewrite (Hvis eq_refl). split_and!; [|by apply negb_false_iff, bool_decide_eq_true in Hscope|done].
  apply bool_decide_eq_false in Hanth. congruence.
Qed.

Lemma delete_length {A} i (l : list A) x : l !! i = Some x → Z.of_nat (length (delete i l)) = Z.of_nat (length l) - 1.
Proof. intros Hx. pose proof (lookup_lt_Some _ _ _ Hx). rewrite length_delete by done. lia. Qed.

End system_lemmas.

(** The chunks of a stream up to its first error. *)
Fixpoint beforeError (chunks : list (Z * StreamChunk)) : list (Z * StreamChunk) :=
  match chunks with
  | [] => []
  | c :: cs => match ChunkErr c.2 with Some _ => [] | None => c :: beforeError cs end
  end.

Definition broken (chunks : list (Z * StreamChunk)) : bool :=
  existsb (λ c, bool_decide (is_Some (ChunkErr c.2))) chunks.

(** The event of the [i]th chunk; only the first of all carries the role. *)
Definition relayed (model : string) (first : bool) (i : nat) (c : Z * StreamChunk) : SSE :=
  SSEChunk model
    [{| ckIndex := c.1; ckRole := if decide (i = 0%nat) then (if first then "assistant" else "") else "";
        ckContent := Delta c.2;
        ckFinish := if decide (ChunkFinish c.2 = "") then None else Some (ChunkFinish c.2);
        ckUsage := ChunkUsage c.2 |}].

Lemma streamLoop_out {St F} `{UsageRecorder St} clock n tenant model first chunks (s : ChatServer St F) :
  (streamLoop clock n tenant model first chunks s).1 =
  imap (relayed model first) (beforeError chunks) ++ (if broken chunks then [] else [SSEDone]).
Proof.
  revert n first s. induction chunks as [|[idx sc] cs IH]; intros n first s; [done|].
  cbn [streamLoop beforeError broken existsb snd].
  destruct (ChunkErr sc) eqn:He; [done|]. rewrite bool_decide_false by (by intros [? [=]]). cbn [orb].
  set (s1 := match ChunkUsage sc with Some u => _ | None => s end).
  specialize (IH (Datatypes.S n) false s1).
  destruct (streamLoop _ (Datatypes.S n) _ _ _ _ _) as [out s2]. cbn [fst] in *. subst out. rewrite imap_cons. cbn [app].
  f_equal. f_equal. apply imap_ext. intros i x _. unfold relayed. simpl. by destruct (decide (i = 0%nat)).
Qed.

(** ** Properties *)

(** The validation of multipart content accepts exactly the messages whose
    parts are texts and images with an http or https address, with at most eight
    images. *)
Theorem validate_content_exact parts :
  ValidateContent (ContentMultipart parts) = None ↔ Forall goodPart parts ∧ imageCount parts <= MaxImageParts.
Proof. simpl. rewrite validateParts_None by done. done. Qed.

(** C31. However the requests interleave, the slots in use are exactly the requests
    in flight, and there are never more of them than the semaphore has: every
    path through the handler, with its errors, dispatches and broken streams,
    gives back exactly the slot it took. *)
Theorem chat_slots_exact {St F} `{UsageRecorder St} `{GoFloat F} decodeContent cap ops (s : ChatServer St F) :
  slots s = Some (cap, 0) → 0 <= cap →
  let y := exec (chatStep decodeContent) {| chat := s; inFlight := [] |} ops in
  slots (chat y) = Some (cap, Z.of_nat (length (inFlight y))) ∧ Z.of_nat (length (inFlight y)) <= cap.
Proof.
  intros Hs Hcap. apply (exec_invariant _ (λ y : ChatSystem St F,
    slots (chat y) = Some (cap, Z.of_nat (length (inFlight y))) ∧ Z.of_nat (length (inFlight y)) <= cap)); [done|].
  intros y op [Hy Hle] _. destruct op as [rq|i clock a]; simpl.
  - pose proof (startChat_cases decodeContent rq (chat y)) as Hc.
    destruct (startChat decodeContent rq (chat y)) as [[r|[tenant sent]] s']; simpl; [split; congruence|].
    destruct Hc as (Hslot & _ & _ & _ & Hfree & _). specialize (Hfree _ _ Hy).
    rewrite Hslot, Hy, length_app. simpl. split; [do 2 f_equal|]; lia.
  - destruct (inFlight y !! i) as [p|] eqn:Hi; [|done]. simpl. rewrite finishChat_slots, Hy, (delete_length i _ p Hi).
    simpl. split; [done|lia].
Qed.

(** A chat request reaches the model only past every gate: a POST of a named
    tenant, a free slot, an unspent token budget, a readable body whose multipart
    contents are all valid, and, if it carries images, the multimodal scope and a
    provider that takes them; the model sees the client's conversation unchanged,
    after system messages only. *)
Theorem chat_gates {St F} `{UsageRecorder St} `{GoFloat F} decodeContent rq (s s' : ChatServer St F) tenant sent :
  startChat decodeContent rq s = (inr (tenant, sent), s') →
  passedGates decodeContent rq s tenant sent ∧ slots s' = slotTaken (slots s).
Proof. intros Hst. pose proof (startChat_cases decodeContent rq s) as Hc. rewrite Hst in Hc. tauto. Qed.

(** A stream is relayed exactly: one event per chunk up to the first error,
    in order and with its text, the role on the first one only, and the end mark
    exactly when no chunk failed. *)
Theorem stream_relayed_exactly {St F} `{UsageRecorder St} `{GoFloat F} clock tenant model chunks (s : ChatServer St F) :
  (finishStream clock tenant model (Some chunks) s).1 =
  CStream (imap (relayed model true) (beforeError chunks) ++ (if broken chunks then [] else [SSEDone])).
Proof.
  unfold finishStream. pose proof (streamLoop_out clock 0 tenant model true chunks s) as Hloop.
  destruct (streamLoop _ _ _ _ _ _ _). simpl in *. by subst.
Qed.

(** ** Witnesses and examples *)

#[local] Instance noStore : UsageRecorder unit :=
  {| usageRecord _ _ _ s := (true, s); Quota.hourlyUsage _ _ _ := None |}.

Definition sampleServer (cap : Z) : ChatServer unit Q := {|
  slots := Some (cap, 0); budget := Some (NewTokenBudget 1000);
  routerCfg := {| REnabled := true; ClassifierURL := "u" |}; composer := Some sample_intents; hasKB := false;
  defaultModel := "m"; providerName := "openai"; canStream := true
|}.

Definition chatRequest (tenant : string) (stream : bool) : ChatHTTP Q := {|
  chMethod := "POST";
  chAuth := {| ATenantID := tenant; PrincipalID := ""; Scopes := []; SubjectType := ""; APIKeyID := ""; ARole := "";
               BearerToken := ""; TokenTenantID := ""; TokenPrincipalID := ""; Validated := false |};
  chBody := Some {| rqModel := ""; rqMessages := [textMessage "user" "hi"]; rqTools := []; rqMaxTokens := 0;
                    rqTemperature := None; rqStream := stream; rqExtra := None |};
  chNow := 5; chClassifier := AnswerUnreachable; chElapsed := 1; chKB := λ _ _, None
|}.

Definition sampleChunk (text finish : string) (u : option ChatUsage) (e : option string) : Z * StreamChunk :=
  (0, {| Delta := text; ChunkToolCalls := []; ChunkFinish := finish; ChunkUsage := u; ChunkErr := e |}).

Definition sampleOps : list (ChatOp Q) :=
  [OpStart (chatRequest "acme" true); OpStart (chatRequest "acme" false); OpStart (chatRequest "globex" false);
   OpFinish 0 (λ _, 6) {| maWhole := None; maStream := Some [sampleChunk "a" "" None None; sampleChunk "" "" None (Some "reset")] |};
   OpStart (chatRequest "" false)].

Lemma chat_slots_exact_witness :
  let y := exec (chatStep (λ _, None)) {| chat := sampleServer 2; inFlight := [] |} sampleOps in
  length (inFlight y) = 1%nat ∧ slots (chat y) = Some (2, Z.of_nat (length (inFlight y))).
Proof.
  intros y. split; [vm_compute; reflexivity|].
  apply (chat_slots_exact (λ _, None) 2 sampleOps (sampleServer 2)); [reflexivity|lia].
Defined.

Lemma chat_gates_witness :
  ∃ sent s', startChat (λ _, None) (chatRequest "acme" false) (sampleServer 2) = (inr ("acme", sent), s') ∧
             passedGates (λ _, None) (chatRequest "acme" false) (sampleServer 2) "acme" sent.
Proof.
  eexists _, _. split; [reflexivity|].
  refine (proj1 (chat_gates (λ _, None) (chatRequest "acme" false) (sampleServer 2) _ "acme" _ _)). reflexivity.
Defined.

(** A usage report in every chunk is charged every time. *)
Example cumulative_usage_charged_twice :
  let u := Some {| PromptTokens := 10; CompletionTokens := 5; TotalTokens := 15 |} in
  let s := (finishStream (λ _, 6) "acme" "m" (Some [sampleChunk "a" "" u None; sampleChunk "b" "stop" u None]) (sampleServer 2)).2 in
  option_map (λ tb, wtokens <$> windows tb !! "acme") (budget s) = Some (Some 30).
Proof. vm_compute. reflexivity. Qed.
