(* ===== verification/Providers.v ===== *)
(** * Model providers (modelpolicy/anthropic_provider.go, openai_provider.go, defaultmodel.go)

    The translation of chat requests into the requests of the two services and of their
    answers back, the reading of their event streams line by line, the errors their HTTP
    statuses become, and the choice of the default model.  What the network answers is an
    input.  Encoding and decoding of JSON are arguments ([Json], [SSEJson]); decoding a
    record gives its fields or fails.  The retries around a call are [Resilience]. *)
From S2P Require Import Prelude GoTime GoPath GoStrings Types Resilience Chat.

(** ** Requests and answers *)

(** A tool definition; its parameters are a JSON schema. *)
Record ToolDef := { DName : string; DDescription : string; DParameters : any }.

Record ChatRequest := {
  Model : string;
  Messages : list ChatMessage;
  RTools : list ToolDef;
  MaxTokens : Z;
  Stream : bool;
  Extra : list (string * any)
}.

(** A [ChatResponse] with the model it names, and a [StreamChunk] with its choice. *)
Record ProviderResponse := { RModel : string; RBody : ChatResponse }.
Record ProviderChunk := { CIndex : Z; CBody : StreamChunk }.

(** What an HTTP request leads to: no answer, or a status, a Retry-After header and a body
    that ends, or breaks off. *)
Inductive HTTPResult :=
  | NoAnswer (err : string)
  | Answered (status : Z) (retryAfter : string) (body : string) (readError : option string).

Class Json := { marshal : any → option string; unmarshal : string → option any }.

Definition errorChunk (e : string) : ProviderChunk :=
  {| CIndex := 0; CBody := {| Delta := ""; ChunkToolCalls := []; ChunkFinish := ""; ChunkUsage := None; ChunkErr := Some e |} |}.

(** ** Errors (mapHTTPError) *)

Definition errorBody (statusText : Z → string) (status : Z) (body : string) : string :=
  let msg := takeBytes 4096 body in if bool_decide (msg = "") then statusText status else msg.

Definition openaiHTTPError (statusText : Z → string) (status : Z) (retryAfter body : string) : ProviderError :=
  let limited := bool_decide (status = 429) in
  Build_ProviderError status (if limited then "rate_limited" else "provider_error") (errorBody statusText status body)
    (if limited then retryAfter else "").

Definition anthropicHTTPError (statusText : Z → string) (status : Z) (retryAfter body : string) : ProviderError :=
  Build_ProviderError status
    (if bool_decide (status = 429) then "rate_limited" else if bool_decide (status = 400) then "invalid_request" else "provider_error")
    (errorBody statusText status body) (if bool_decide (status = 429) then retryAfter else "").

(** ** Lines of a body (bufio.Scanner) *)

Definition dropCR (l : string) : string := if HasSuffix l (String "013" "") then takeBytes (String.length l - 1) l else l.

(** A line has to fit the scanner's buffer of 64 KiB with its end. *)
Definition tooLong (l : string) : bool := bool_decide (65535 < Z.of_nat (String.length l)).

(** The lines up to the end, or up to one that is too long. *)
Fixpoint takeLines (ls : list string) : list string * bool :=
  match ls with
  | [] => ([], false)
  | [l] => if bool_decide (l = "") then ([], false) else if tooLong l then ([], true) else ([dropCR l], false)
  | l :: ls => if tooLong l then ([], true) else let '(rest, long) := takeLines ls in (dropCR l :: rest, long)
  end.

(** The lines and the error the scanner stops with. *)
Definition scan (body : string) (readError : option string) : list string * option string :=
  let '(ls, long) := takeLines (splitChar "010" body) in
  (ls, if long then Some "bufio.Scanner: token too long" else readError).

(** [step] reads a line in a state: the chunks it sends, and the next state or the end.
    The context may be done before any line. *)
Fixpoint readLines {St} (step : St → string → list ProviderChunk * option St) (ctxDone : nat → bool) (k : nat) (err : option string)
    (st : St) (ls : list string) : list ProviderChunk :=
  match ls with
  | [] => match err with Some e => [errorChunk ("provider_error: stream read error: " +:+ e)] | None => [] end
  | l :: ls =>
      if ctxDone k then [errorChunk "context canceled"]
      else let '(out, next) := step st l in
        out ++ match next with Some st => readLines step ctxDone (S k) err st ls | None => [] end
  end.

(** ** Anthropic *)

Inductive anthropicContentBlock :=
  | TextBlock (text : string)
  | ToolUse (id name : string) (input : any)
  | ToolResult (toolUseID content : string)
  | OtherBlock (type : string).

Inductive anthropicContent := PlainText (s : string) | Blocks (bs : list anthropicContentBlock).

Record anthropicMessage := { AMRole : string; AMContent : anthropicContent }.

Record anthropicTool := { ATName : string; ATDescription : string; ATSchema : any }.

Record anthropicRequest := {
  AModel : string;
  AMessages : list anthropicMessage;
  System : string;
  AMaxTokens : Z;
  ATools : list anthropicTool;
  AStream : bool
}.

Record anthropicUsage := { InputTokens : Z; OutputTokens : Z }.

Record anthropicResponse := { AID : string; AContent : list anthropicContentBlock; StopReason : string; AUsage : anthropicUsage }.

Record anthropicProvider := { aBaseURL : string; aAPIKey : string; aDefaultModel : string }.

Definition newAnthropicProvider (baseURL apiKey defaultModel : string) : anthropicProvider := {|
  aBaseURL := trimRightChar "/" baseURL; aAPIKey := apiKey;
  aDefaultModel := if bool_decide (defaultModel = "") then "claude-sonnet-4-20250514" else defaultModel |}.

(** Content that is neither absent nor a text. *)
Definition hasMultipart (req : ChatRequest) : bool :=
  existsb (λ m, match Content m with AStr _ | ANil => false | _ => true end) (Messages req).

Section anthropic.
Context `{Json}.

Definition toolUseBlock (tc : ToolCall) : anthropicContentBlock :=
  ToolUse (TCID tc) (FName (Function_ tc)) (default ANil (unmarshal (Arguments_ (Function_ tc)))).

(** A message that is not a system message. *)
Definition convertMessage (msg : ChatMessage) : anthropicMessage :=
  let msgText := MessageText msg in
  if bool_decide (MRole msg = "tool") then {| AMRole := "user"; AMContent := Blocks [ToolResult (ToolCallID msg) msgText] |}
  else if bool_decide (MRole msg = "assistant" ∧ ToolCalls msg ≠ []) then
    {| AMRole := "assistant";
       AMContent := Blocks ((if bool_decide (msgText = "") then [] else [TextBlock msgText]) ++ (toolUseBlock <$> ToolCalls msg)) |}
  else {| AMRole := MRole msg; AMContent := PlainText msgText |}.

(** The loop over the messages: a system message replaces the system text. *)
Definition addMessage (st : string * list anthropicMessage) (msg : ChatMessage) : string * list anthropicMessage :=
  if bool_decide (MRole msg = "system") then (MessageText msg, st.2) else (st.1, st.2 ++ [convertMessage msg]).

Definition buildRequest (p : anthropicProvider) (req : ChatRequest) : anthropicRequest :=
  let '(sys, msgs) := foldl addMessage ("", []) (Messages req) in
  {| AModel := if bool_decide (Model req = "") then aDefaultModel p else Model req;
     AMessages := msgs; System := sys;
     AMaxTokens := if bool_decide (MaxTokens req = 0) then 4096 else MaxTokens req;
     ATools := (λ t, {| ATName := DName t; ATDescription := DDescription t; ATSchema := DParameters t |}) <$> RTools req;
     AStream := false |}.

Definition setStream (b : bool) (r : anthropicRequest) : anthropicRequest :=
  {| AModel := AModel r; AMessages := AMessages r; System := System r; AMaxTokens := AMaxTokens r; ATools := ATools r; AStream := b |}.

Definition functionCall (id name args : string) : ToolCall :=
  {| TCID := id; TCType := "function"; Function_ := {| FName := name; Arguments_ := args |} |}.

Definition blockText (b : anthropicContentBlock) : string := match b with TextBlock t => t | _ => "" end.

Definition blockCall (b : anthropicContentBlock) : option ToolCall :=
  match b with ToolUse id name input => Some (functionCall id name (default "{}" (marshal input))) | _ => None end.

Definition usageOf (u : anthropicUsage) : ChatUsage :=
  {| PromptTokens := InputTokens u; CompletionTokens := OutputTokens u; TotalTokens := int64_wrap (InputTokens u + OutputTokens u) |}.

Definition mapResponse (resp : anthropicResponse) : ProviderResponse :=
  let '(content, toolCalls) :=
    foldl (λ st b, (st.1 +:+ blockText b, st.2 ++ option_list (blockCall b))) ("", []) (AContent resp) in
  {| RModel := AID resp;
     RBody := {| Choices := [{| Message := {| MRole := "assistant"; Content := AStr content; ToolCalls := toolCalls; ToolCallID := ""; MName := "" |};
                                FinishReason := if bool_decide (StopReason resp = "tool_use") then "tool_calls" else "stop" |}];
                 Usage := usageOf (AUsage resp) |} |}.
End anthropic.

(** The request that goes out, and what came back. *)
Record Sent {R} := { sURL : string; sHeaders : list (string * string); sBody : R }.
Arguments Sent : clear implicits.

Definition anthropicHeaders (p : anthropicProvider) : list (string * string) :=
  [("Content-Type", "application/json"); ("x-api-key", aAPIKey p); ("anthropic-version", "2023-06-01")].

Definition errMultipart : CallError := EOther "anthropic provider does not support multipart content in v11.1".

(** The parts of a call that are the library's: whether the request can be encoded and its
    URL used, the name of a status, and the decoding of an answer. *)
Class Transport (Resp : Type) := { usable : string → bool; statusText : Z → string; decodeBody : string → option Resp }.

Definition anthropicCall `{Json, Transport anthropicResponse} (stream : bool) (p : anthropicProvider) (encodes : bool) (req : ChatRequest)
    (answer : Sent anthropicRequest → HTTPResult) : CallError + (string * option string) :=
  if hasMultipart req then inl errMultipart
  else if negb encodes then inl (EOther "provider_error: failed to marshal request")
  else
    let url := aBaseURL p +:+ "/v1/messages" in
    if negb (usable url) then inl (EOther "provider_error: failed to create request")
    else match answer {| sURL := url; sHeaders := anthropicHeaders p; sBody := setStream stream (buildRequest p req) |} with
    | NoAnswer e => inl (EOther ("provider_error: request failed: " +:+ e))
    | Answered status ra body re =>
        if bool_decide (status ≠ 200) then inl (EProvider (anthropicHTTPError statusText status ra body)) else inr (body, re)
    end.

Definition anthropicChatComplete `{Json, Transport anthropicResponse} (p : anthropicProvider) (encodes : bool) (req : ChatRequest)
    (answer : Sent anthropicRequest → HTTPResult) : CallError + ProviderResponse :=
  match anthropicCall false p encodes req answer with
  | inl e => inl e
  | inr (body, _) => match decodeBody body with
                     | Some resp => inr (mapResponse resp)
                     | None => inl (EOther "provider_error: failed to decode response")
                     end
  end.

(** *** Its event stream *)

Inductive anthropicDelta := TextDelta (text : string) | InputJSONDelta (partial : string) | OtherDelta.

(** Decoding of the data of an event: its type, and the fields of each type of event. *)
Class SSEJson := {
  eventType : string → option string;
  blockStart : string → option anthropicContentBlock;
  blockDelta : string → option anthropicDelta;
  messageDelta : string → option (string * option anthropicUsage)
}.

Record pendingToolUse := { puID : string; puName : string; puArgs : string }.

Definition chunk (delta : string) (calls : list ToolCall) (finish : string) (u : option ChatUsage) : ProviderChunk :=
  {| CIndex := 0; CBody := {| Delta := delta; ChunkToolCalls := calls; ChunkFinish := finish; ChunkUsage := u; ChunkErr := None |} |}.

(** The last pending call takes more of its arguments. *)
Definition extendLast (partial : string) (tus : list pendingToolUse) : list pendingToolUse :=
  match reverse tus with
  | [] => []
  | tu :: before => reverse before ++ [{| puID := puID tu; puName := puName tu; puArgs := puArgs tu +:+ partial |}]
  end.

Definition pendingCall (tu : pendingToolUse) : ToolCall := functionCall (puID tu) (puName tu) (puArgs tu).

Definition readAnthropicLine `{SSEJson} (tus : list pendingToolUse) (line : string) : list ProviderChunk * option (list pendingToolUse) :=
  if negb (HasPrefix line "data: ") then ([], Some tus)
  else
    let data := TrimPrefix line "data: " in
    match eventType data with
    | None => ([], Some tus)
    | Some ty =>
        if bool_decide (ty = "content_block_start") then
          ([], Some (match blockStart data with
                     | Some (ToolUse id name _) => tus ++ [{| puID := id; puName := name; puArgs := "" |}]
                     | _ => tus
                     end))
        else if bool_decide (ty = "content_block_delta") then
          match blockDelta data with
          | Some (TextDelta text) => ([chunk text [] "" None], Some tus)
          | Some (InputJSONDelta partial) => ([], Some (extendLast partial tus))
          | _ => ([], Some tus)
          end
        else if bool_decide (ty = "message_delta") then
          match messageDelta data with
          | None => ([], Some tus)
          | Some (stop, usage) =>
              let u := usageOf <$> usage in
              if bool_decide (stop = "end_turn") then ([chunk "" [] "stop" u], Some tus)
              else if bool_decide (stop = "tool_use") then ([chunk "" (pendingCall <$> tus) "tool_calls" u], Some [])
              else ([chunk "" [] "" u], Some tus)
          end
        else if bool_decide (ty = "message_stop") then ([], None)
        else ([], Some tus)
    end.

Definition readAnthropicSSE `{SSEJson} (ctxDone : nat → bool) (body : string) (readError : option string) : list ProviderChunk :=
  let '(ls, err) := scan body readError in readLines readAnthropicLine ctxDone 0 err [] ls.

Definition anthropicChatCompleteStream `{Json, Transport anthropicResponse, SSEJson} (p : anthropicProvider) (encodes : bool) (req : ChatRequest)
    (answer : Sent anthropicRequest → HTTPResult) (ctxDone : nat → bool) : CallError + list ProviderChunk :=
  match anthropicCall true p encodes req answer with
  | inl e => inl e
  | inr (body, readError) => inr (readAnthropicSSE ctxDone body readError)
  end.

(** ** OpenAI *)

Record openaiProvider := { oBaseURL : string; oAPIKey : string }.

Definition newOpenAIProvider (baseURL apiKey : string) : openaiProvider :=
  {| oBaseURL := trimRightChar "/" baseURL; oAPIKey := apiKey |}.

Record sseChunkChoice := { scIndex : Z; scContent : string; scToolCalls : list ToolCall; scFinish : option string }.
Record sseChunkResponse := { scChoices : list sseChunkChoice; scUsage : option ChatUsage }.

(** The fields of a request as JSON, and the ones of [Extra] put over them. *)
Definition overwrite (m : list (string * any)) (kv : string * any) : list (string * any) :=
  filter (λ x, x.1 ≠ kv.1) m ++ [kv].

Definition marshalChatRequest (fields : ChatRequest → list (string * any)) (req : ChatRequest) : list (string * any) :=
  foldl overwrite (fields req) (Extra req).

Definition withStream (b : bool) (req : ChatRequest) : ChatRequest :=
  {| Model := Model req; Messages := Messages req; RTools := RTools req; MaxTokens := MaxTokens req; Stream := b; Extra := Extra req |}.

Definition openaiHeaders (p : openaiProvider) : list (string * string) :=
  [("Content-Type", "application/json"); ("Authorization", "Bearer " +:+ oAPIKey p)].

Definition openaiCall `{Transport ProviderResponse} (fields : ChatRequest → list (string * any)) (stream : bool) (p : openaiProvider)
    (encodes : bool) (req : ChatRequest) (answer : Sent (list (string * any)) → HTTPResult) : CallError + (string * option string) :=
  if negb encodes then inl (EOther "provider_error: failed to marshal request")
  else
    let url := oBaseURL p +:+ "/chat/completions" in
    if negb (usable url) then inl (EOther "provider_error: failed to create request")
    else match answer {| sURL := url; sHeaders := openaiHeaders p; sBody := marshalChatRequest fields (withStream stream req) |} with
    | NoAnswer e => inl (EOther ("provider_error: request failed: " +:+ e))
    | Answered status ra body re =>
        if bool_decide (status ≠ 200) then inl (EProvider (openaiHTTPError statusText status ra body)) else inr (body, re)
    end.

Definition openaiChatComplete `{Transport ProviderResponse} (fields : ChatRequest → list (string * any)) (p : openaiProvider) (encodes : bool)
    (req : ChatRequest) (answer : Sent (list (string * any)) → HTTPResult) : CallError + ProviderResponse :=
  match openaiCall fields false p encodes req answer with
  | inl e => inl e
  | inr (body, _) => match decodeBody body with
                     | Some resp => inr resp
                     | None => inl (EOther "provider_error: failed to decode response")
                     end
  end.

Definition translateChunk (c : sseChunkResponse) : ProviderChunk :=
  match scChoices c with
  | [] => chunk "" [] "" (scUsage c)
  | ch :: _ => {| CIndex := scIndex ch;
                  CBody := {| Delta := scContent ch; ChunkToolCalls := scToolCalls ch; ChunkFinish := default "" (scFinish ch);
                              ChunkUsage := scUsage c; ChunkErr := None |} |}
  end.

Definition readOpenAILine (decode : string → option sseChunkResponse) (st : unit) (line : string) : list ProviderChunk * option unit :=
  if negb (HasPrefix line "data: ") then ([], Some tt)
  else
    let data := TrimPrefix line "data: " in
    if bool_decide (data = "[DONE]") then ([], None)
    else match decode data with
         | None => ([errorChunk "provider_error: failed to parse SSE chunk"], None)
         | Some c => ([translateChunk c], Some tt)
         end.

Definition readSSE (decode : string → option sseChunkResponse) (ctxDone : nat → bool) (body : string) (readError : option string) :
    list ProviderChunk :=
  let '(ls, err) := scan body readError in readLines (readOpenAILine decode) ctxDone 0 err tt ls.

Definition openaiChatCompleteStream `{Transport ProviderResponse} (fields : ChatRequest → list (string * any))
    (decode : string → option sseChunkResponse) (p : openaiProvider) (encodes : bool) (req : ChatRequest)
    (answer : Sent (list (string * any)) → HTTPResult) (ctxDone : nat → bool) : CallError + list ProviderChunk :=
  match openaiCall fields true p encodes req answer with
  | inl e => inl e
  | inr (body, readError) => inr (readSSE decode ctxDone body readError)
  end.

Definition estimateTokensFromChat (req : ChatRequest) : Z :=
  foldl (λ total msg, int64_wrap (total + int64_wrap (EstimateTokens (MessageText msg) + 4))) 0 (Messages req).

(** *** The stub provider, and the choice of a provider (providers.go) *)

Definition estimateTokensFromChatReq (req : ChatRequest) : Z := estimateTokensFromChat req.

Definition stubChatComplete (req : ChatRequest) : ProviderResponse :=
  let text := match head (reverse (Messages req)) with
              | Some lastMsg => if bool_decide (TrimSpace (MessageText lastMsg) ≠ "") then "stub: " +:+ MessageText lastMsg else "stub response"
              | None => "stub response"
              end in
  let promptTokens := estimateTokensFromChatReq req in
  {| RModel := Model req;
     RBody := {| Choices := [{| Message := textMessage "assistant" text; FinishReason := "stop" |}];
                 Usage := {| PromptTokens := promptTokens; CompletionTokens := 32; TotalTokens := int64_wrap (promptTokens + 32) |} |} |}.

Definition stubChatCompleteStream (req : ChatRequest) : list ProviderChunk :=
  let resp := stubChatComplete req in
  match Choices (RBody resp) with
  | [] => []
  | c :: _ => [chunk (MessageText (Message c)) [] (FinishReason c) (Some (Usage (RBody resp)))]
  end.

Inductive ProviderKind := OpenAI (p : openaiProvider) | Anthropic (p : anthropicProvider) | Stub.

(** The provider, and whether it is wrapped with retries and a circuit breaker. *)
Definition newProvider (provider baseURL apiKey defaultModel : string) : option (ProviderKind * bool) :=
  if bool_decide (provider = "openai") then Some (OpenAI (newOpenAIProvider baseURL apiKey), true)
  else if bool_decide (provider = "anthropic") then Some (Anthropic (newAnthropicProvider baseURL apiKey defaultModel), true)
  else if bool_decide (provider = "stub") then Some (Stub, false)
  else None.

(** The older interface, the same for both providers but for what it returns besides. *)
Definition invokeRequest (modelID : string) (input : list (string * any)) : ChatRequest := {|
  Model := modelID; Messages := [textMessage "user" (default "" (any_string "text" input))]; RTools := []; MaxTokens := 0; Stream := false; Extra := [] |}.

Definition invokeText (resp : ProviderResponse) : string :=
  match Choices (RBody resp) with [] => "" | c :: _ => MessageText (Message c) end.

Definition invokeUsage (modelID provider now : string) (resp : ProviderResponse) : list (string * any) :=
  let u := Usage (RBody resp) in
  [("prompt_tokens", AInt (PromptTokens u)); ("completion_tokens", AInt (CompletionTokens u)); ("total_tokens", AInt (TotalTokens u));
   ("model_id", AStr modelID); ("provider", AStr provider); ("timestamp", AStr now)].

Definition anthropicInvoke `{Json, Transport anthropicResponse} (p : anthropicProvider) (encodes : bool) (now modelID : string)
    (input : list (string * any)) (answer : Sent anthropicRequest → HTTPResult) : CallError + (list (string * any) * list (string * any)) :=
  match anthropicChatComplete p encodes (invokeRequest modelID input) answer with
  | inl e => inl e
  | inr resp => inr ([("type", AStr "text"); ("text", AStr (invokeText resp)); ("ts", AStr now)], invokeUsage modelID "anthropic" now resp)
  end.

Definition openaiInvoke `{Transport ProviderResponse} (fields : ChatRequest → list (string * any)) (p : openaiProvider) (encodes : bool)
    (now modelID : string) (input : list (string * any)) (answer : Sent (list (string * any)) → HTTPResult) :
    CallError + (list (string * any) * list (string * any)) :=
  match openaiChatComplete fields p encodes (invokeRequest modelID input) answer with
  | inl e => inl e
  | inr resp => inr ([("type", AStr "text"); ("text", AStr (invokeText resp)); ("echo", AMap input); ("ts", AStr now)],
                     invokeUsage modelID "openai" now resp)
  end.

(** ** The default model *)

Inductive ModelQuery := ModelIDs (ids : list string) | BadStatus (code : Z) | QueryFailed (why : string).

Inductive ResolveError := ErrEmptyModelList | ErrQuery (q : ModelQuery) | ErrCancelled | ErrNoBaseURL | ErrExhausted (last : option ModelQuery).

(** One query: the first id, trimmed. *)
Definition QueryFirstModelID (q : ModelQuery) : ResolveError + string :=
  match q with
  | ModelIDs [] => inl ErrEmptyModelList
  | ModelIDs (id :: _) => if bool_decide (TrimSpace id = "") then inl ErrEmptyModelList else inr (TrimSpace id)
  | q => inl (ErrQuery q)
  end.

Definition defaultResolveBackoffs : list Duration :=
  [1 * Second; 1 * Second; 2 * Second; 2 * Second; 4 * Second; 4 * Second; 8 * Second; 8 * Second].
Definition defaultResolveDeadline : Duration := 30 * Second.
Definition defaultResolveAttemptTimeout : Duration := 3 * Second.

(** One round of the loop: the time since the start, what the query gives, and whether
    the context is done after it or ends the wait. *)
Record Round := { elapsed : Duration; queried : ModelQuery; cancelledAfter : bool; cancelledWait : bool }.

(** The answer and the times waited. *)
Fixpoint resolveWithBackoffs (rounds : nat → Round) (deadline : Duration) (attempt : nat) (last : option ModelQuery) (backoffs : list Duration) :
    (ResolveError + string) * list Duration :=
  match backoffs with
  | [] => (inl (ErrExhausted last), [])
  | b :: rest =>
      let r := rounds attempt in
      if bool_decide (0 < deadline ∧ deadline <= elapsed r) then (inl (ErrExhausted last), [])
      else match QueryFirstModelID (queried r) with
           | inr id => (inr id, [])
           | inl ErrEmptyModelList => (inl ErrEmptyModelList, [])
           | inl _ =>
               if cancelledAfter r then (inl ErrCancelled, [])
               else if cancelledWait r then (inl ErrCancelled, [b])
               else let '(res, waits) := resolveWithBackoffs rounds deadline (S attempt) (Some (queried r)) rest in (res, b :: waits)
           end
  end.

Definition ResolveDefaultModel (provider baseURL defaultModel : string) (rounds : nat → Round) : (ResolveError + string) * list Duration :=
  if bool_decide (TrimSpace defaultModel ≠ "") then (inr (TrimSpace defaultModel), [])
  else if bool_decide (provider ≠ "openai") then (inr "", [])
  else if bool_decide (TrimSpace baseURL = "") then (inl ErrNoBaseURL, [])
  else resolveWithBackoffs rounds defaultResolveDeadline 0 None defaultResolveBackoffs.

(** ** What a line means *)

(** The events of a stream that matter, and the rest. *)
Inductive Ev :=
  | EQuiet
  | EStart (id name : string)
  | EText (s : string)
  | EJson (s : string)
  | EFinish (stop : string) (u : option anthropicUsage)
  | EStop.

Definition evStep (tus : list pendingToolUse) (e : Ev) : list ProviderChunk * option (list pendingToolUse) :=
  match e with
  | EQuiet => ([], Some tus)
  | EStart id name => ([], Some (tus ++ [{| puID := id; puName := name; puArgs := "" |}]))
  | EText s => ([chunk s [] "" None], Some tus)
  | EJson s => ([], Some (extendLast s tus))
  | EFinish stop u =>
      if bool_decide (stop = "end_turn") then ([chunk "" [] "stop" (usageOf <$> u)], Some tus)
      else if bool_decide (stop = "tool_use") then ([chunk "" (pendingCall <$> tus) "tool_calls" (usageOf <$> u)], Some [])
      else ([chunk "" [] "" (usageOf <$> u)], Some tus)
  | EStop => ([], None)
  end.

Definition lineEvent `{SSEJson} (line : string) : Ev :=
  if negb (HasPrefix line "data: ") then EQuiet
  else
    let data := TrimPrefix line "data: " in
    match eventType data with
    | None => EQuiet
    | Some ty =>
        if bool_decide (ty = "content_block_start") then
          match blockStart data with Some (ToolUse id name _) => EStart id name | _ => EQuiet end
        else if bool_decide (ty = "content_block_delta") then
          match blockDelta data with Some (TextDelta s) => EText s | Some (InputJSONDelta s) => EJson s | _ => EQuiet end
        else if bool_decide (ty = "message_delta") then
          match messageDelta data with Some (stop, u) => EFinish stop u | None => EQuiet end
        else if bool_decide (ty = "message_stop") then EStop
        else EQuiet
    end.

Section streams.
Context `{SSEJson}.

Lemma readLine_event tus line : readAnthropicLine tus line = evStep tus (lineEvent line).
Proof.
  unfold readAnthropicLine, lineEvent. destruct (HasPrefix line "data: "); [|done]. simpl.
  destruct (eventType _) as [ty|]; [|done]. case_bool_decide; [by destruct (blockStart _) as [[]|]|].
  case_bool_decide; [by destruct (blockDelta _) as [[]|]|]. case_bool_decide; [by destruct (messageDelta _) as [[]|]|].
  by case_bool_decide.
Qed.

(** Running the events, as the reader does when nothing interrupts it. *)
Fixpoint runEvents (tus : list pendingToolUse) (es : list Ev) : list ProviderChunk :=
  match es with
  | [] => []
  | e :: es => let '(out, next) := evStep tus e in out ++ match next with Some tus => runEvents tus es | None => [] end
  end.

Lemma readLines_events k tus ls : readLines readAnthropicLine (λ _, false) k None tus ls = runEvents tus (lineEvent <$> ls).
Proof.
  revert k tus. induction ls as [|l ls IH]; intros k tus; [done|]. cbn [readLines fmap list_fmap runEvents]. rewrite readLine_event.
  destruct (evStep tus (lineEvent l)) as [out [tus'|]]; [|done]. by rewrite IH.
Qed.

#[global] Instance Ev_quiet_dec (e : Ev) : base.Decision (e ≠ EQuiet).
Proof. destruct e; first [by left | by right; intros Hx; apply Hx]. Defined.

Lemma runEvents_quiet tus es : runEvents tus es = runEvents tus (filter (λ e, e ≠ EQuiet) es).
Proof.
  revert tus. induction es as [|e es IH]; intros tus; [done|]. rewrite filter_cons. destruct (decide (e ≠ EQuiet)) as [Hn|Hq].
  - cbn [runEvents]. destruct (evStep tus e) as [out [tus'|]]; [|done]. by rewrite IH.
  - destruct e; try (exfalso; by apply Hq). simpl. apply IH.
Qed.

(** ** A stream spells an answer *)

Definition concatS (ss : list string) : string := foldr String.append "" ss.

(** The text of a call's input; a call without arguments is streamed without any. *)
Definition inputText `{Json} (input : any) (text : string) : Prop := unmarshal text = Some input ∨ text = "" ∧ input = AMap [].

(** The events a block of an answer is streamed as; the deltas are any pieces of it. *)
Inductive spells `{Json} : anthropicContentBlock → list Ev → Prop :=
  | spells_text pieces : spells (TextBlock (concatS pieces)) (EText <$> pieces)
  | spells_call id name input parts : inputText input (concatS parts) →
      spells (ToolUse id name input) (EStart id name :: (EJson <$> parts))
  | spells_other ty : spells (OtherBlock ty) [].

Definition callsOf `{Json} (bs : list anthropicContentBlock) : list ToolCall := omap blockCall bs.

(** One call in a whole answer and in a streamed one: the first has its input written anew, the
    second as it was sent. *)
Definition sameCall `{Json} (whole streamed : ToolCall) : Prop :=
  ∃ id name input text, inputText input text ∧ whole = functionCall id name (default "{}" (marshal input)) ∧ streamed = functionCall id name text.

Lemma runEvents_text tus pieces es : runEvents tus ((EText <$> pieces) ++ es) = ((λ s, chunk s [] "" None) <$> pieces) ++ runEvents tus es.
Proof. induction pieces as [|s pieces IH]; [done|]. cbn [fmap list_fmap app runEvents evStep]. by rewrite IH. Qed.

Lemma extendLast_snoc tus tu s : extendLast s (tus ++ [tu]) = tus ++ [{| puID := puID tu; puName := puName tu; puArgs := puArgs tu +:+ s |}].
Proof. unfold extendLast. by rewrite reverse_snoc, reverse_involutive. Qed.

Lemma runEvents_json tus id name acc parts es :
  runEvents (tus ++ [{| puID := id; puName := name; puArgs := acc |}]) ((EJson <$> parts) ++ es) =
  runEvents (tus ++ [{| puID := id; puName := name; puArgs := acc +:+ concatS parts |}]) es.
Proof.
  revert acc. induction parts as [|s parts IH]; intros acc; [by rewrite string_app_nil_r|].
  cbn [fmap list_fmap app runEvents evStep]. rewrite extendLast_snoc. cbn [puID puName puArgs app]. rewrite IH.
  unfold concatS. cbn [foldr]. by rewrite string_app_assoc.
Qed.

(** The text chunks of a list of blocks, streamed. *)
Inductive textChunks : list anthropicContentBlock → list ProviderChunk → Prop :=
  | tc_nil : textChunks [] []
  | tc_text pieces bs cs : textChunks bs cs → textChunks (TextBlock (concatS pieces) :: bs) (((λ s, chunk s [] "" None) <$> pieces) ++ cs)
  | tc_skip b bs cs : blockText b = "" → textChunks bs cs → textChunks (b :: bs) cs.

Lemma runEvents_blocks `{Json} bs ess tus tail : Forall2 spells bs ess →
  ∃ cs tus' streamed, textChunks bs cs ∧ pendingCall <$> tus' = (pendingCall <$> tus) ++ streamed ∧ Forall2 sameCall (callsOf bs) streamed ∧
    runEvents tus (concat ess ++ tail) = cs ++ runEvents tus' tail.
Proof.
  intros HF. revert tus. induction HF as [|b es bs ess Hb _ IH]; intros tus; [exists [], tus, []; rewrite app_nil_r; split_and!; [constructor|done|constructor|done]|].
  destruct Hb as [pieces|id name input parts Hm|ty]; cbn [concat]; rewrite <- app_assoc.
  - destruct (IH tus) as (cs & tus' & st & Hc & Ht & Hs & HR). exists (((λ s, chunk s [] "" None) <$> pieces) ++ cs), tus', st.
    split_and!; [by constructor|done|exact Hs|]. by rewrite runEvents_text, HR, app_assoc.
  - destruct (IH (tus ++ [{| puID := id; puName := name; puArgs := concatS parts |}])) as (cs & tus' & st & Hc & Ht & Hs & HR).
    exists cs, tus', (functionCall id name (concatS parts) :: st). split_and!; [by apply tc_skip| | |].
    + by rewrite Ht, fmap_app, <- app_assoc.
    + unfold callsOf in *. cbn [omap list_omap blockCall]. constructor; [|exact Hs]. by exists id, name, input, (concatS parts).
    + cbn [app runEvents evStep]. rewrite runEvents_json, string_app_nil. exact HR.
  - destruct (IH tus) as (cs & tus' & st & Hc & Ht & Hs & HR). exists cs, tus', st. split_and!; [by apply tc_skip|done|exact Hs|exact HR].
Qed.
End streams.

Lemma concatS_app l l' : concatS (l ++ l') = concatS l +:+ concatS l'.
Proof. induction l as [|s l IH]; [done|]. unfold concatS in *. simpl. by rewrite IH, string_app_assoc. Qed.

Definition deltas (cs : list ProviderChunk) : list string := (Delta ∘ CBody) <$> cs.

(** A chunk that is only text. *)
Definition textOnly (c : ProviderChunk) : Prop := c = chunk (Delta (CBody c)) [] "" None.

Lemma textChunks_text bs cs : textChunks bs cs → concatS (deltas cs) = concatS (blockText <$> bs) ∧ Forall textOnly cs.
Proof.
  induction 1 as [|pieces bs cs _ [IH HF]|b bs cs Hb _ [IH HF]]; [done| |].
  - unfold deltas in *. rewrite fmap_app, concatS_app, IH. split.
    + change (concatS (blockText <$> TextBlock (concatS pieces) :: bs)) with (concatS pieces +:+ concatS (blockText <$> bs)).
      f_equal. f_equal. rewrite <- list_fmap_compose. apply list_fmap_id.
    + apply Forall_app. split; [|done]. apply Forall_fmap, Forall_true. done.
  - split; [|done]. rewrite IH. unfold concatS. simpl. by rewrite Hb.
Qed.

Lemma mapResponse_parts `{Json} bs t tcs :
  foldl (λ st b, (st.1 +:+ blockText b, st.2 ++ option_list (blockCall b))) (t, tcs) bs = (t +:+ concatS (blockText <$> bs), tcs ++ callsOf bs).
Proof.
  revert t tcs. induction bs as [|b bs IH]; intros t tcs; cbn [foldl]; [by rewrite string_app_nil_r, app_nil_r|].
  rewrite IH. unfold concatS, callsOf. cbn [fst snd fmap list_fmap foldr omap list_omap]. rewrite string_app_assoc, <- app_assoc.
  f_equal. destruct (blockCall b); done.
Qed.

Definition answerText `{Json} (resp : anthropicResponse) : string := concatS (blockText <$> AContent resp).

Lemma mapResponse_eq `{Json} resp : mapResponse resp =
  {| RModel := AID resp;
     RBody := {| Choices := [{| Message := {| MRole := "assistant"; Content := AStr (answerText resp); ToolCalls := callsOf (AContent resp); ToolCallID := ""; MName := "" |};
                                FinishReason := if bool_decide (StopReason resp = "tool_use") then "tool_calls" else "stop" |}];
                 Usage := usageOf (AUsage resp) |} |}.
Proof. unfold mapResponse. by rewrite mapResponse_parts. Qed.


(** A call without arguments: whole it has the text of an empty object, streamed no text. *)
Lemma streamed_call_without_arguments `{Json} id name : marshal (AMap []) = Some "{}" →
  blockCall (ToolUse id name (AMap [])) = Some (functionCall id name "{}") ∧
  evStep [{| puID := id; puName := name; puArgs := "" |}] (EFinish "tool_use" None) = ([chunk "" [functionCall id name ""] "tool_calls" None], Some []).
Proof. intros Hm. cbn [blockCall]. by rewrite Hm. Qed.

(** ** Requests *)

Lemma foldl_addMessage `{Json} msgs sys out :
  foldl addMessage (sys, out) msgs =
  (foldl (λ s m, if bool_decide (MRole m = "system") then MessageText m else s) sys msgs,
   out ++ (convertMessage <$> filter (λ m, MRole m ≠ "system") msgs)).
Proof.
  revert sys out. induction msgs as [|m msgs IH]; intros sys out; cbn [foldl]; [by rewrite app_nil_r|].
  unfold addMessage at 2. rewrite filter_cons. case_bool_decide as Hs; [rewrite decide_False by (intros Hn; by apply Hn)|rewrite decide_True by done]; rewrite IH; simpl.
  - done.
  - by rewrite <- app_assoc.
Qed.

(** The input of every call of an answer survives being written and read. *)
Definition readable `{Json} (resp : anthropicResponse) : Prop :=
  ∀ id name input, ToolUse id name input ∈ AContent resp → ∃ s, marshal input = Some s ∧ unmarshal s = Some input.

Definition isCall (b : anthropicContentBlock) : Prop := match b with ToolUse _ _ _ => True | _ => False end.
#[global] Instance isCall_dec b : base.Decision (isCall b).
Proof. destruct b; apply _. Defined.

Lemma toolUse_roundtrip `{Json} bs :
  (∀ id name input, ToolUse id name input ∈ bs → ∃ s, marshal input = Some s ∧ unmarshal s = Some input) →
  toolUseBlock <$> callsOf bs = filter isCall bs.
Proof.
  induction bs as [|b bs IH]; intros Hr; [done|]. rewrite filter_cons. unfold callsOf in *. cbn [omap list_omap].
  destruct b as [t|id name input| |]; cbn [blockCall decide isCall_dec isCall];
    try (rewrite decide_False by (intros []); apply IH; intros; eapply Hr; by right).
  rewrite decide_True by done. destruct (Hr id name input ltac:(by left)) as (s & Hm & Hu).
  cbn [fmap list_fmap]. rewrite IH by (intros; eapply Hr; by right). f_equal. unfold toolUseBlock. rewrite Hm. cbn. by rewrite Hu.
Qed.

(** An answer with tool calls goes back to the service as it came: its translation
    into a chat message, translated into a request, is one assistant message with the
    answer's text in front (when there is any) and the very tool calls of the answer;
    and a request keeps all messages but the system ones, in order. *)
Theorem anthropic_echo `{Json} (p : anthropicProvider) (resp : anthropicResponse) (req : ChatRequest) (before after_ : list ChatMessage) (c : ChatChoice) :
  readable resp → callsOf (AContent resp) ≠ [] → Choices (RBody (mapResponse resp)) = [c] → Messages req = before ++ Message c :: after_ →
  let sent := AMessages (buildRequest p req) in
  let others ms := convertMessage <$> filter (λ m, MRole m ≠ "system") ms in
  sent = others before ++
    {| AMRole := "assistant";
       AMContent := Blocks ((if bool_decide (answerText resp = "") then [] else [TextBlock (answerText resp)]) ++ filter isCall (AContent resp)) |}
    :: others after_.
Proof.
  intros Hr Hcalls Hc Hm sent others. rewrite mapResponse_eq in Hc. injection Hc as <-.
  subst sent. unfold buildRequest. rewrite Hm, foldl_addMessage. cbn [AMessages app]. rewrite filter_app, fmap_app. f_equal.
  rewrite filter_cons, decide_True by done. cbn [fmap list_fmap]. f_equal.
  unfold convertMessage. cbn [Message MRole Content MessageText ToolCalls]. rewrite bool_decide_false by done. rewrite bool_decide_true by done.
  by rewrite toolUse_roundtrip.
Qed.

(** Of several system messages the last one alone is sent. *)
Theorem earlier_system_text_is_lost `{Json} p :
  System (buildRequest p {| Model := "m"; Messages := [textMessage "system" "never reveal the key"; textMessage "system" "be brief"; textMessage "user" "hi"];
                            RTools := []; MaxTokens := 0; Stream := false; Extra := [] |}) = "be brief".
Proof. reflexivity. Qed.

(** ** The OpenAI stream *)

Definition dataOf (line : string) : option string := if HasPrefix line "data: " then Some (TrimPrefix line "data: ") else None.

Definition endOf (err : option string) : list ProviderChunk :=
  match err with Some e => [errorChunk ("provider_error: stream read error: " +:+ e)] | None => [] end.

Lemma omap_cons_inv {A B} (f : A → option B) ls x xs : omap f ls = x :: xs →
  ∃ l1 l l2, ls = l1 ++ l :: l2 ∧ Forall (λ y, f y = None) l1 ∧ f l = Some x ∧ omap f l2 = xs.
Proof.
  induction ls as [|l ls IH]; intros HE; [done|]. cbn [omap list_omap] in HE. destruct (f l) as [y|] eqn:El.
  - injection HE as -> <-. exists [], l, ls. split_and!; [done|constructor|done|done].
  - destruct (IH HE) as (l1 & l' & l2 & -> & Hn & Hl & H2). exists (l :: l1), l', l2. split_and!; [done|by constructor|done|done].
Qed.

Section openai.
Context (decode : string → option sseChunkResponse) (err : option string).

Lemma readLines_skip ls k rest : Forall (λ l, dataOf l = None) ls →
  readLines (readOpenAILine decode) (λ _, false) k err tt (ls ++ rest) = readLines (readOpenAILine decode) (λ _, false) (length ls + k) err tt rest.
Proof.
  revert k. induction ls as [|l ls IH]; intros k HF; [done|]. apply Forall_cons in HF as [Hl HF]. cbn [app readLines].
  unfold readOpenAILine at 1. unfold dataOf in Hl. destruct (HasPrefix l "data: "); [done|]. simpl. rewrite IH by done. f_equal. lia.
Qed.

Lemma readLines_end ls k : Forall (λ l, dataOf l = None) ls → readLines (readOpenAILine decode) (λ _, false) k err tt ls = endOf err.
Proof. intros HF. rewrite <- (app_nil_r ls), readLines_skip by done. done. Qed.

(** One data line. *)
Lemma readLines_data l d ls k : dataOf l = Some d →
  readLines (readOpenAILine decode) (λ _, false) k err tt (l :: ls) =
  if bool_decide (d = "[DONE]") then []
  else match decode d with
       | None => [errorChunk "provider_error: failed to parse SSE chunk"]
       | Some c => translateChunk c :: readLines (readOpenAILine decode) (λ _, false) (S k) err tt ls
       end.
Proof.
  unfold dataOf. intros Hl. cbn [readLines]. unfold readOpenAILine at 1. destruct (HasPrefix l "data: "); [|done]. injection Hl as ->. simpl.
  case_bool_decide; [done|]. by destruct (decode d).
Qed.

Lemma readLines_good ls k ds cs rest : omap dataOf ls = ds ++ rest → Forall (λ d, d ≠ "[DONE]") ds → Forall2 (λ d c, decode d = Some c) ds cs →
  ∃ k' ls', omap dataOf ls' = rest ∧
    readLines (readOpenAILine decode) (λ _, false) k err tt ls = (translateChunk <$> cs) ++ readLines (readOpenAILine decode) (λ _, false) k' err tt ls'.
Proof.
  intros Hd Hn HF. revert ls k Hd Hn. induction HF as [|d c ds cs Hdc _ IH]; intros ls k Hd Hn; [by exists k, ls|].
  apply omap_cons_inv in Hd as (l1 & l & l2 & -> & Hl1 & Hl & Hrest). apply Forall_cons in Hn as [Hnd Hn].
  rewrite readLines_skip by done. rewrite (readLines_data _ _ _ _ Hl), bool_decide_false, Hdc by done.
  destruct (IH l2 (S (length l1 + k)) Hrest Hn) as (k' & ls' & Ho & HR). exists k', ls'. split; [done|]. rewrite HR. done.
Qed.
End openai.

(** A stream of the other service is read chunk for chunk: its data lines up to the
    end mark or to one that does not decode become chunks in their order, other lines
    are skipped; the end mark ends the stream whatever follows, a line that does not
    decode ends it with an error, and without either the end of the body does, with an
    error when the reading failed. *)
Theorem openai_stream_exact (decode : string → option sseChunkResponse) (body : string) (readError : option string)
    (ls ds rest : list string) (cs : list sseChunkResponse) (err : option string) :
  scan body readError = (ls, err) → omap dataOf ls = ds ++ rest →
  Forall (λ d, d ≠ "[DONE]") ds → Forall2 (λ d c, decode d = Some c) ds cs →
  let out := readSSE decode (λ _, false) body readError in
  (rest = [] → out = (translateChunk <$> cs) ++ endOf err) ∧
  (∀ more, rest = "[DONE]" :: more → out = translateChunk <$> cs) ∧
  (∀ d more, rest = d :: more → d ≠ "[DONE]" → decode d = None →
     out = (translateChunk <$> cs) ++ [errorChunk "provider_error: failed to parse SSE chunk"]).
Proof.
  intros Hs Hd Hn HF out. subst out. unfold readSSE. rewrite Hs.
  destruct (readLines_good decode err ls 0 ds cs rest Hd Hn HF) as (k & ls' & Ho & ->). split_and!.
  - intros ->. f_equal. apply readLines_end. clear - Ho. induction ls' as [|l ls' IH]; [constructor|].
    cbn [omap list_omap] in Ho. destruct (dataOf l) eqn:E; [done|]. constructor; auto.
  - intros more ->. apply omap_cons_inv in Ho as (l1 & l & l2 & -> & Hl1 & Hl & _). rewrite readLines_skip, (readLines_data _ _ _ _ _ _ Hl) by done.
    rewrite bool_decide_true by done. by rewrite app_nil_r.
  - intros d more -> Hnd Hdec. apply omap_cons_inv in Ho as (l1 & l & l2 & -> & Hl1 & Hl & _).
    rewrite readLines_skip, (readLines_data _ _ _ _ _ _ Hl), bool_decide_false, Hdec by done. done.
Qed.

(** ** Errors and retries *)

(** C39. Which failures of a call are tried again: an HTTP answer other than 200 exactly when
    its status is 429 or at least 500, by the same rule for both services, and with the
    service's Retry-After on 429 alone; and a request without an answer always. *)
Theorem provider_errors_retried `{Json, Transport anthropicResponse, TO : Transport ProviderResponse} (p : anthropicProvider) (o : openaiProvider)
    (fields : ChatRequest → list (string * any)) (req : ChatRequest) (status : Z) (ra body : string) (re : option string) :
  hasMultipart req = false → usable (Transport := H0) (aBaseURL p +:+ "/v1/messages") = true →
  usable (Transport := TO) (oBaseURL o +:+ "/chat/completions") = true → status ≠ 200 →
  ∃ ea eo, anthropicChatComplete p true req (λ _, Answered status ra body re) = inl ea ∧
    openaiChatComplete fields o true req (λ _, Answered status ra body re) = inl eo ∧
    (isRetryable (Some ea) = true ↔ status = 429 ∨ 500 <= status) ∧ isRetryable (Some eo) = isRetryable (Some ea) ∧
    retryAfterDuration (Some ea) = retryAfterDuration (Some eo) ∧ (status ≠ 429 → retryAfterDuration (Some ea) = 0) ∧
    (∀ e, ∃ ea eo, anthropicChatComplete p true req (λ _, NoAnswer e) = inl ea ∧ openaiChatComplete fields o true req (λ _, NoAnswer e) = inl eo ∧
       isRetryable (Some ea) = true ∧ isRetryable (Some eo) = true).
Proof.
  intros Hm Ha Ho Hs. unfold anthropicChatComplete, openaiChatComplete, anthropicCall, openaiCall. rewrite Hm, Ha, Ho. cbn [negb].
  rewrite bool_decide_true by done. eexists _, _. split_and!; [reflexivity|reflexivity| |done| | |by intros e; eexists _, _].
  - unfold isRetryable, anthropicHTTPError. cbn [StatusCode]. case_bool_decide; [intuition|]. rewrite bool_decide_eq_true. intuition lia.
  - done.
  - intros Hn. unfold retryAfterDuration, anthropicHTTPError. cbn [RetryAfter]. rewrite (bool_decide_false (status = 429)) by done. done.
Qed.

(** A request the Anthropic provider refuses for good is tried again nevertheless, and
    counted as a failure of the provider. *)
Theorem multipart_error_is_retried `{Json, Transport anthropicResponse} p enc req answer : hasMultipart req = true →
  anthropicChatComplete p enc req answer = inl errMultipart ∧ isRetryable (Some errMultipart) = true.
Proof. intros Hm. unfold anthropicChatComplete, anthropicCall. by rewrite Hm. Qed.

(** An answer cut off at the token limit is reported as stopped; streamed, it has no
    finish reason at all. *)
Theorem truncation_is_not_reported `{Json} resp tus u : StopReason resp = "max_tokens" →
  (∃ c, Choices (RBody (mapResponse resp)) = [c] ∧ FinishReason c = "stop") ∧
  evStep tus (EFinish "max_tokens" u) = ([chunk "" [] "" (usageOf <$> u)], Some tus).
Proof. intros Hs. rewrite mapResponse_eq. split; [|reflexivity]. eexists. split; [reflexivity|]. simpl. by rewrite Hs. Qed.

(** The model an answer names is the id of the message. *)
Theorem anthropic_model_is_message_id `{Json} resp : RModel (mapResponse resp) = AID resp.
Proof. by rewrite mapResponse_eq. Qed.

(** A line of 64 KiB ends a stream with an error. *)
Theorem long_line_ends_stream decode ctxDone (l rest : string) : splitChar "010" l = [l] → 65535 < Z.of_nat (String.length l) →
  readSSE decode ctxDone (l +:+ String "010" rest) None = [errorChunk "provider_error: stream read error: bufio.Scanner: token too long"].
Proof.
  intros Hl Hlen. unfold readSSE, scan.
  assert (HS : splitChar "010" (l +:+ String "010" rest) = l :: splitChar "010" rest).
  { clear Hlen. induction l as [|c l IH]; [done|]. rewrite string_app_cons. cbn [splitChar] in Hl |- *.
    destruct (decide (c = "010"%char)); [by destruct (splitChar "010" l)|].
    destruct (splitChar "010" l) as [|w ws] eqn:E; [destruct l; cbn [splitChar] in E; [done|repeat case_decide; by destruct (splitChar _ l)]|].
    injection Hl as -> ->. by rewrite IH. }
  rewrite HS. cbn [takeLines]. destruct (splitChar "010" rest) as [|r rs] eqn:E.
  { destruct rest; cbn [splitChar] in E; [done|case_decide; [done|by destruct (splitChar "010" rest)]]. }
  assert (HT : tooLong l = true) by (unfold tooLong; by apply bool_decide_eq_true). by rewrite HT.
Qed.

(** ** Resolving the default model *)

Definition total (ds : list Duration) : Duration := foldr Z.add 0 ds.

Lemma resolve_spec rounds deadline backoffs attempt last res waits :
  resolveWithBackoffs rounds deadline attempt last backoffs = (res, waits) →
  waits `prefix_of` backoffs ∧
  (∀ id, res = inr id → ∃ k, (attempt ≤ k < attempt + length backoffs)%nat ∧ QueryFirstModelID (queried (rounds k)) = inr id ∧
     ∀ j, (attempt ≤ j < k)%nat → ∃ e, QueryFirstModelID (queried (rounds j)) = inl e).
Proof.
  revert attempt last waits. induction backoffs as [|b rest IH]; intros attempt last waits; cbn [resolveWithBackoffs].
  { intros [= <- <-]. done. }
  case_bool_decide; [intros [= <- <-]; split; [apply prefix_nil|done]|].
  destruct (QueryFirstModelID (queried (rounds attempt))) as [e|id] eqn:Eq.
  - assert (Hgo : ∀ w, (let '(r, ws) := resolveWithBackoffs rounds deadline (S attempt) (Some (queried (rounds attempt))) rest in (r, b :: ws)) = (res, w) →
      w `prefix_of` b :: rest ∧ ∀ id, res = inr id → ∃ k, (attempt ≤ k < attempt + length (b :: rest))%nat ∧
        QueryFirstModelID (queried (rounds k)) = inr id ∧ ∀ j, (attempt ≤ j < k)%nat → ∃ e, QueryFirstModelID (queried (rounds j)) = inl e).
    { intros w Hw. destruct (resolveWithBackoffs _ _ _ _ rest) as [r ws] eqn:ER. injection Hw as <- <-. destruct (IH _ _ _ ER) as [Hp Hid].
      split; [by apply prefix_cons|]. intros id ->. destruct (Hid id eq_refl) as (k & Hk & Hq & Hj). exists k. simpl. split_and!; [lia|lia|done|].
      intros j Hjk. destruct (decide (j = attempt)) as [->|]; [eauto|apply Hj; lia]. }
    destruct e; try (destruct (cancelledAfter (rounds attempt)); [intros [= <- <-]; split; [apply prefix_nil|done]|];
      destruct (cancelledWait (rounds attempt)); [intros [= <- <-]; split; [by exists rest|done]|apply Hgo]).
    intros [= <- <-]. split; [apply prefix_nil|done].
  - intros [= <- <-]. split; [apply prefix_nil|]. intros id' [= <-]. exists attempt. simpl. split_and!; [lia|lia|done|]. intros j Hj. lia.
Qed.

Lemma prefix_total ws ds : ws `prefix_of` ds → Forall (Z.le 0) ds → total ws <= total ds ∧ (length ws ≤ length ds)%nat.
Proof.
  intros [k ->] HF. apply Forall_app in HF as [_ HF]. rewrite length_app. split; [|lia].
  assert (0 <= total k) by (induction HF; unfold total in *; simpl; lia).
  induction ws as [|w ws IH]; unfold total in *; simpl; lia.
Qed.

(** However the upstream behaves, choosing the default model ends after at most eight
    queries and thirty seconds of waiting; a configured model is taken without a query,
    and a model that is returned otherwise is the first one the first good answer lists. *)
Theorem resolve_default_bounded (provider baseURL defaultModel : string) (rounds : nat → Round) (res : ResolveError + string) (waits : list Duration) :
  ResolveDefaultModel provider baseURL defaultModel rounds = (res, waits) →
  (length waits ≤ 8)%nat ∧ total waits <= 30 * Second ∧
  (TrimSpace defaultModel ≠ "" → res = inr (TrimSpace defaultModel) ∧ waits = []) ∧
  (TrimSpace defaultModel = "" → provider = "openai" → ∀ id, res = inr id →
     id ≠ "" ∧ ∃ k, (k < 8)%nat ∧ QueryFirstModelID (queried (rounds k)) = inr id ∧
       ∀ j, (j < k)%nat → ∃ e, QueryFirstModelID (queried (rounds j)) = inl e).
Proof.
  unfold ResolveDefaultModel. intros HR.
  destruct (decide (TrimSpace defaultModel = "")) as [Hd|Hd].
  2: { rewrite bool_decide_true in HR by done. injection HR as <- <-. simpl. split_and!; [lia|done|done|done]. }
  rewrite bool_decide_false in HR by (intros Hn; by apply Hn). case_bool_decide as Hp.
  { injection HR as <- <-. simpl. split_and!; [lia|done|done|done]. }
  case_bool_decide; [injection HR as <- <-; simpl; split_and!; [lia|done|done|done]|].
  apply resolve_spec in HR as [Hpre Hid]. apply prefix_total in Hpre as [Ht Hlen]; [|repeat constructor; done].
  split_and!; [exact Hlen|exact Ht|done|]. intros _ _ id Hr. destruct (Hid id Hr) as (k & Hk & Hq & Hj). split.
  - unfold QueryFirstModelID in Hq. destruct (queried (rounds k)) as [[|x xs]| |]; try done. case_bool_decide; [done|]. injection Hq as <-. done.
  - exists k. split_and!; [simpl in Hk; lia|done|]. intros j Hjk. apply Hj. lia.
Qed.

(** ** Witnesses *)

#[local] Instance plain_json : Json := {| marshal := λ v, match v with AStr s => Some s | _ => None end; unmarshal := λ s, Some (AStr s) |}.

(** Events spelled as a word and its text. *)
#[local] Instance plain_sse : SSEJson := {|
  eventType := λ d, if HasPrefix d "S" then Some "content_block_start" else if HasPrefix d "T" then Some "content_block_delta"
                    else if HasPrefix d "J" then Some "content_block_delta" else if HasPrefix d "F" then Some "message_delta"
                    else if HasPrefix d "X" then Some "message_stop" else None;
  blockStart := λ d, Some (ToolUse (dropBytes 1 d) "lookup" ANil);
  blockDelta := λ d, Some (if HasPrefix d "T" then TextDelta (dropBytes 1 d) else InputJSONDelta (dropBytes 1 d));
  messageDelta := λ d, Some (dropBytes 1 d, Some {| InputTokens := 3; OutputTokens := 4 |})
|}.

Definition lines (ls : list string) : string := foldr (λ l s, l +:+ String "010" s) "" ls.

Definition sample_answer : anthropicResponse := {|
  AID := "msg_1"; AContent := [TextBlock "Let me look"; ToolUse "t1" "lookup" (AStr "q=7")]; StopReason := "tool_use";
  AUsage := {| InputTokens := 3; OutputTokens := 4 |} |}.

Definition sample_body : string :=
  lines ["event: ping"; "data: TLet me"; ""; "data: T look"; "data: St1"; "data: Jq="; "data: J7"; "data: Ftool_use"; "data: X"; "data: Tmore"].


Definition sample_provider : anthropicProvider := newAnthropicProvider "https://api" "k" "".

Lemma anthropic_echo_witness :
  AMessages (buildRequest sample_provider {| Model := ""; Messages := [textMessage "system" "s"; {| MRole := "assistant"; Content := AStr "Let me look";
      ToolCalls := [functionCall "t1" "lookup" "q=7"]; ToolCallID := ""; MName := "" |}]; RTools := []; MaxTokens := 0; Stream := false; Extra := [] |}) =
  [{| AMRole := "assistant"; AMContent := Blocks [TextBlock "Let me look"; ToolUse "t1" "lookup" (AStr "q=7")] |}].
Proof.
  apply (anthropic_echo sample_provider sample_answer _ [textMessage "system" "s"] []
    {| Message := {| MRole := "assistant"; Content := AStr "Let me look"; ToolCalls := [functionCall "t1" "lookup" "q=7"]; ToolCallID := ""; MName := "" |};
       FinishReason := "tool_calls" |}).
  - intros id name input Hin. cbn [AContent sample_answer] in Hin. rewrite !elem_of_cons in Hin.
    destruct Hin as [[=]|[[= -> -> ->]|Hin]]; [by exists "q=7"|by apply not_elem_of_nil in Hin].
  - discriminate.
  - reflexivity.
  - reflexivity.
Defined.

Definition one_chunk (d : string) : option sseChunkResponse :=
  if HasPrefix d "{" then Some {| scChoices := [{| scIndex := 0; scContent := d; scToolCalls := []; scFinish := None |}]; scUsage := None |} else None.

Lemma openai_stream_exact_witness :
  readSSE one_chunk (λ _, false) (lines ["data: {a"; ": keep"; "data: {b"; "data: [DONE]"; "data: x"]) None = [chunk "{a" [] "" None; chunk "{b" [] "" None].
Proof.
  apply (openai_stream_exact one_chunk (lines ["data: {a"; ": keep"; "data: {b"; "data: [DONE]"; "data: x"]) None
    ["data: {a"; ": keep"; "data: {b"; "data: [DONE]"; "data: x"] ["{a"; "{b"] ["[DONE]"; "x"]
    [{| scChoices := [{| scIndex := 0; scContent := "{a"; scToolCalls := []; scFinish := None |}]; scUsage := None |};
     {| scChoices := [{| scIndex := 0; scContent := "{b"; scToolCalls := []; scFinish := None |}]; scUsage := None |}] None) with (more := ["x"]).
  - vm_compute. reflexivity.
  - vm_compute. reflexivity.
  - repeat constructor; discriminate.
  - repeat constructor.
  - reflexivity.
Defined.

#[local] Instance plain_transport {R} : Transport R := {| usable := λ _, true; statusText := λ _, "status"; decodeBody := λ _, None |}.

Lemma provider_errors_retried_witness :
  ∃ e, anthropicChatComplete sample_provider true (invokeRequest "m" []) (λ _, Answered 503 "" "" None) = inl e ∧ isRetryable (Some e) = true.
Proof.
  destruct (provider_errors_retried sample_provider (newOpenAIProvider "https://o" "k") (λ _, []) (invokeRequest "m" []) 503 "" "" None)
    as (e & _ & HE & _ & Hr & _); [reflexivity|reflexivity|reflexivity|lia|].
  exists e. split; [exact HE|]. apply Hr. right. lia.
Defined.

Lemma resolve_default_bounded_witness :
  ∃ res waits, ResolveDefaultModel "openai" "http://h/v1" "" (λ k, {| elapsed := 0; queried := if bool_decide (k = 2%nat) then ModelIDs ["a"] else BadStatus 503;
    cancelledAfter := false; cancelledWait := false |}) = (res, waits) ∧ total waits <= 30 * Second ∧ res = inr "a".
Proof.
  eexists _, _. split; [vm_compute; reflexivity|]. split; [|reflexivity].
  apply (resolve_default_bounded "openai" "http://h/v1" "" (λ k, {| elapsed := 0; queried := if bool_decide (k = 2%nat) then ModelIDs ["a"] else BadStatus 503;
    cancelledAfter := false; cancelledWait := false |}) (inr "a")). vm_compute. reflexivity.
Defined.
