(* ===== verification/PgStores.v ===== *)
(** * Key-value data and conversation memory in Postgres, and encryption at rest

    internal/crypto/encrypt.go, internal/storage/postgres/kv_store.go and
    memory_store.go.  The rows of a table are a map by their key, or a list in the order
    of insertion.  AES-GCM is an argument ([Aead]) with the laws of authenticated
    encryption; base64 is written out.  The theorems compare these stores with the file
    stores of [KVStore] and [Chat]. *)
From S2P Require Import Prelude GoTime GoPath GoStrings Types.
From S2P Require Chat.
From S2P Require Import KVStore.

(** ** Base64 (encoding/base64, the standard alphabet with padding) *)

Definition b64Char (n : Z) : ascii :=
  ascii_of_nat (Z.to_nat (if bool_decide (n < 26) then 65 + n else if bool_decide (n < 52) then 71 + n
                          else if bool_decide (n < 62) then n - 4 else if bool_decide (n = 62) then 43 else 47)).

Definition b64Value (c : ascii) : option Z :=
  let n := Z.of_nat (nat_of_ascii c) in
  if bool_decide (65 <= n <= 90) then Some (n - 65) else if bool_decide (97 <= n <= 122) then Some (n - 71)
  else if bool_decide (48 <= n <= 57) then Some (n + 4) else if bool_decide (n = 43) then Some 62
  else if bool_decide (n = 47) then Some 63 else None.

Definition byteZ (c : ascii) : Z := Z.of_nat (nat_of_ascii c).
Definition zByte (z : Z) : ascii := ascii_of_nat (Z.to_nat z).

Fixpoint b64Encode (s : string) : string :=
  match s with
  | "" => ""
  | String a "" => String (b64Char (byteZ a / 4)) (String (b64Char (byteZ a mod 4 * 16)) "==")
  | String a (String b "") =>
      String (b64Char (byteZ a / 4)) (String (b64Char (byteZ a mod 4 * 16 + byteZ b / 16)) (String (b64Char (byteZ b mod 16 * 4)) "="))
  | String a (String b (String c s)) =>
      String (b64Char (byteZ a / 4)) (String (b64Char (byteZ a mod 4 * 16 + byteZ b / 16))
        (String (b64Char (byteZ b mod 16 * 4 + byteZ c / 64)) (String (b64Char (byteZ c mod 64)) (b64Encode s))))
  end.

(** Decoding, four characters at a time; padding ends the text. *)
Fixpoint b64Quads (s : string) : option string :=
  match s with
  | "" => Some ""
  | String a (String b (String c (String d s))) =>
      va ← b64Value a; vb ← b64Value b;
      if bool_decide (c = "="%char) then
        if bool_decide (d = "="%char ∧ s = "") then Some (String (zByte (va * 4 + vb / 16)) "") else None
      else
        vc ← b64Value c;
        if bool_decide (d = "="%char) then
          if bool_decide (s = "") then Some (String (zByte (va * 4 + vb / 16)) (String (zByte (vb mod 16 * 16 + vc / 4)) "")) else None
        else
          vd ← b64Value d; rest ← b64Quads s;
          Some (String (zByte (va * 4 + vb / 16)) (String (zByte (vb mod 16 * 16 + vc / 4)) (String (zByte (vc mod 4 * 64 + vd)) rest)))
  | _ => None
  end.

Fixpoint dropNewlines (s : string) : string :=
  match s with
  | "" => ""
  | String c s => if bool_decide (c = "010"%char ∨ c = "013"%char) then dropNewlines s else String c (dropNewlines s)
  end.

Definition b64Decode (s : string) : option string := b64Quads (dropNewlines s).

(** Every sextet has a character that is neither padding nor a line break. *)
Lemma b64Char_spec n : 0 <= n < 64 → b64Value (b64Char n) = Some n ∧ b64Char n ≠ "="%char ∧ b64Char n ≠ "010"%char ∧ b64Char n ≠ "013"%char.
Proof.
  intros Hn.
  assert (HF : forallb (λ i, bool_decide (b64Value (b64Char (Z.of_nat i)) = Some (Z.of_nat i) ∧ b64Char (Z.of_nat i) ≠ "="%char ∧
    b64Char (Z.of_nat i) ≠ "010"%char ∧ b64Char (Z.of_nat i) ≠ "013"%char)) (seq 0 64) = true) by (vm_compute; reflexivity).
  rewrite forallb_forall in HF. specialize (HF (Z.to_nat n)). rewrite Z2Nat.id in HF by lia.
  apply (bool_decide_eq_true_1 _), HF, in_seq. lia.
Qed.

Lemma byteZ_range c : 0 <= byteZ c < 256.
Proof. unfold byteZ. pose proof (nat_ascii_bounded c). lia. Qed.

Lemma zByte_byteZ c z : z = byteZ c → zByte z = c.
Proof. intros ->. unfold zByte, byteZ. by rewrite Nat2Z.id, ascii_nat_embedding. Qed.

(** Induction on three bytes at a time. *)
Lemma string_ind3 (P : string → Prop) : P "" → (∀ a, P (String a "")) → (∀ a b, P (String a (String b ""))) →
  (∀ a b c s, P s → P (String a (String b (String c s)))) → ∀ s, P s.
Proof.
  intros P0 P1 P2 P3 s. remember (String.length s) as n eqn:Hn. revert s Hn. induction n as [n IH] using lt_wf_ind. intros s Hn.
  destruct s as [|a [|b [|c s]]]; auto. apply P3. eapply IH; [|reflexivity]. subst n. simpl. lia.
Qed.

Lemma dropNewlines_b64 n s : 0 <= n < 64 → dropNewlines (String (b64Char n) s) = String (b64Char n) (dropNewlines s).
Proof. intros Hn. destruct (b64Char_spec n Hn) as (_ & _ & H1 & H2). cbn [dropNewlines]. by rewrite bool_decide_false by tauto. Qed.

Lemma b64_roundtrip s : b64Decode (b64Encode s) = Some s.
Proof.
  unfold b64Decode. induction s as [|a|a b|a b c s IH] using string_ind3; [done| | |]; cbn [b64Encode].
  - pose proof (byteZ_range a) as Ba. assert (0 <= byteZ a / 4 < 64 ∧ 0 <= byteZ a mod 4 * 16 < 64) as [H1 H2] by (Z.to_euclidean_division_equations; lia).
    rewrite !dropNewlines_b64 by done. cbn [b64Quads dropNewlines]. change (dropNewlines "==") with "==". cbn [b64Quads].
    rewrite (proj1 (b64Char_spec _ H1)), (proj1 (b64Char_spec _ H2)). cbn. f_equal. f_equal. apply zByte_byteZ. Z.to_euclidean_division_equations. lia.
  - pose proof (byteZ_range a) as Ba. pose proof (byteZ_range b) as Bb.
    assert (0 <= byteZ a / 4 < 64 ∧ 0 <= byteZ a mod 4 * 16 + byteZ b / 16 < 64 ∧ 0 <= byteZ b mod 16 * 4 < 64) as (H1 & H2 & H3)
      by (Z.to_euclidean_division_equations; lia).
    rewrite !dropNewlines_b64 by done. change (dropNewlines "=") with "=". cbn [b64Quads].
    destruct (b64Char_spec _ H3) as (HV & Hne & _).
    rewrite (proj1 (b64Char_spec _ H1)), (proj1 (b64Char_spec _ H2)). cbn [mbind option_bind]. rewrite bool_decide_false, HV by done. cbn. f_equal.
    f_equal; [|f_equal]; apply zByte_byteZ; Z.to_euclidean_division_equations; lia.
  - pose proof (byteZ_range a) as Ba. pose proof (byteZ_range b) as Bb. pose proof (byteZ_range c) as Bc.
    assert (0 <= byteZ a / 4 < 64 ∧ 0 <= byteZ a mod 4 * 16 + byteZ b / 16 < 64 ∧ 0 <= byteZ b mod 16 * 4 + byteZ c / 64 < 64 ∧ 0 <= byteZ c mod 64 < 64)
      as (H1 & H2 & H3 & H4) by (Z.to_euclidean_division_equations; lia).
    rewrite !dropNewlines_b64 by done. cbn [b64Quads].
    destruct (b64Char_spec _ H3) as (HV & Hne & _), (b64Char_spec _ H4) as (HV4 & Hne4 & _).
    rewrite (proj1 (b64Char_spec _ H1)), (proj1 (b64Char_spec _ H2)). cbn [mbind option_bind]. rewrite bool_decide_false, HV by done. cbn [mbind option_bind].
    rewrite bool_decide_false, HV4, IH by done. cbn [mbind option_bind]. f_equal.
    f_equal; [|f_equal; [|f_equal]]; apply zByte_byteZ; Z.to_euclidean_division_equations; lia.
Qed.

(** ** Encryption (internal/crypto) *)

(** Keys of 32 bytes; [open] answers nothing when the text, the key or the additional
    data are not those of the sealing. *)
Class Aead := { seal : string → string → string → string → string; open_ : string → string → string → string → option string }.

Class AeadLaws `{Aead} := { open_seal k n p d : open_ k n (seal k n p d) d = Some p }.

Definition nonceLen : nat := 12.
Definition keyLen : nat := 32.

Record Encryptor := { current : string; previous : option string }.

Inductive CryptoError := ErrNoCurrent | ErrBase64 | ErrKeyLength.

Definition aeadFromBase64 (encoded : string) : CryptoError + string :=
  match b64Decode encoded with
  | None => inl ErrBase64
  | Some raw => if bool_decide (String.length raw ≠ keyLen) then inl ErrKeyLength else inr raw
  end.

(** No keys, no encryptor. *)
Definition NewEncryptor (keyBase64 prevKeyBase64 : string) : CryptoError + option Encryptor :=
  if bool_decide (keyBase64 = "" ∧ prevKeyBase64 = "") then inr None
  else if bool_decide (keyBase64 = "") then inl ErrNoCurrent
  else match aeadFromBase64 keyBase64 with
  | inl e => inl e
  | inr key =>
      if bool_decide (prevKeyBase64 = "") then inr (Some {| current := key; previous := None |})
      else match aeadFromBase64 prevKeyBase64 with
           | inl e => inl e
           | inr prev => inr (Some {| current := key; previous := Some prev |})
           end
  end.

Section crypto.
Context `{Aead}.

(** [nonce] is what the random source gives, or its failure. *)
Definition Encrypt (e : option Encryptor) (nonce : option string) (plaintext aad : string) : option string :=
  match e with
  | None => Some plaintext
  | Some e => n ← nonce; Some (n +:+ seal (current e) n plaintext aad)
  end.

Definition Decrypt (e : option Encryptor) (ciphertext aad : string) : option string :=
  match e with
  | None => Some ciphertext
  | Some e =>
      if bool_decide (String.length ciphertext < nonceLen)%nat then None
      else
        let n := takeBytes nonceLen ciphertext in
        let data := dropBytes nonceLen ciphertext in
        match open_ (current e) n data aad with
        | Some p => Some p
        | None => prev ← previous e; open_ prev n data aad
        end
  end.
End crypto.

(** ** The key-value store *)

Record PgKV := { pgRows : gmap (string * string * string) string; pgMaxValue : Z; pgMaxKeys : Z; pgEnc : option Encryptor }.

Definition NewKVStoreFromDB (maxValueSize maxKeysPerAgent : Z) : PgKV := {|
  pgRows := ∅; pgMaxValue := if bool_decide (maxValueSize <= 0) then 65536 else maxValueSize;
  pgMaxKeys := if bool_decide (maxKeysPerAgent <= 0) then 1000 else maxKeysPerAgent; pgEnc := None |}.

Definition setPgRows (r : gmap (string * string * string) string) (s : PgKV) : PgKV :=
  {| pgRows := r; pgMaxValue := pgMaxValue s; pgMaxKeys := pgMaxKeys s; pgEnc := pgEnc s |}.

(** The texts that a column of type TEXT, and a parameter of a statement, can hold: the
    database refuses a byte 0 and what is not in its encoding, an extension of ASCII. *)
Class PgText := columnText : string → bool.

Class PgTextLaws `{PgText} := {
  ascii_text s : stringForall (λ c, bool_decide (1 ≤ nat_of_ascii c < 128)%nat) s = true → columnText s = true;
  nul_refused s t : columnText (s +:+ String "000" t) = false
}.

(** The statements of an operation, each of which the database may fail. *)
Inductive PgStmt := StSelect | StBegin | StExists | StCount | StUpsert | StCommit | StDelete.

#[global] Instance PgStmt_eq_dec : EqDecision PgStmt.
Proof. solve_decision. Defined.

(** A statement is also refused for its parameters. *)
Definition refused `{PgText} (fails : PgStmt → bool) (st : PgStmt) (params : list string) : bool :=
  fails st || negb (forallb columnText params).

Section kv.
Context `{Aead, PgText}.

(** What a stored text reads as. *)
Definition readValue (enc : option Encryptor) (tenantID value : string) : string :=
  match enc with
  | None => value
  | Some _ => match b64Decode value with
              | None => value
              | Some decoded => default value (Decrypt enc decoded tenantID)
              end
  end.

Definition PgGet (fails : PgStmt → bool) (tenantID agentID key : string) (s : PgKV) : KVError + option string :=
  match ValidateKey key with
  | Some e => inl e
  | None => if refused fails StSelect [tenantID; agentID; key] then inl KErrRead
            else inr (readValue (pgEnc s) tenantID <$> pgRows s !! (tenantID, agentID, key))
  end.

Definition keysOf (tenantID agentID : string) (r : gmap (string * string * string) string) : gmap (string * string * string) string :=
  filter (λ kv, kv.1.1 = (tenantID, agentID)) r.

(** Within the transaction, a new key is counted against the limit. *)
Definition setChecks (fails : PgStmt → bool) (tenantID agentID key : string) (s : PgKV) : option KVError :=
  if refused fails StExists [tenantID; agentID; key] then Some KErrRead
  else if decide (is_Some (pgRows s !! (tenantID, agentID, key))) then None
  else if refused fails StCount [tenantID; agentID] then Some KErrRead
  else if bool_decide (pgMaxKeys s <= Z.of_nat (size (keysOf tenantID agentID (pgRows s)))) then Some ErrMaxKeysExceeded else None.

Definition storeValue (nonce : option string) (tenantID value : string) (s : PgKV) : option string :=
  match pgEnc s with
  | None => Some value
  | Some _ => b64Encode <$> Encrypt (pgEnc s) nonce value tenantID
  end.

(** A transaction whose commit fails is taken to have changed nothing. *)
Definition PgSet (fails : PgStmt → bool) (nonce : option string) (tenantID agentID key value : string) (s : PgKV) : option KVError * PgKV :=
  if decide (tenantID = "" ∨ agentID = "") then (Some KErrIdentity, s)
  else match ValidateKey key, ValidateValueSize value (pgMaxValue s) with
  | Some e, _ | None, Some e => (Some e, s)
  | None, None =>
      if fails StBegin then (Some KErrRead, s)
      else match setChecks fails tenantID agentID key s with
      | Some e => (Some e, s)
      | None =>
          match storeValue nonce tenantID value s with
          | None => (Some KErrWrite, s)
          | Some text => if refused fails StUpsert [tenantID; agentID; key; text] || fails StCommit then (Some KErrWrite, s)
                         else (None, setPgRows (<[(tenantID, agentID, key) := text]> (pgRows s)) s)
          end
      end
  end.

Definition PgDelete (fails : PgStmt → bool) (tenantID agentID key : string) (s : PgKV) : option KVError * PgKV :=
  match ValidateKey key with
  | Some e => (Some e, s)
  | None => if refused fails StDelete [tenantID; agentID; key] then (Some KErrWrite, s)
            else (None, setPgRows (delete (tenantID, agentID, key) (pgRows s)) s)
  end.

(** Sorted as bytes: the database's collation is taken to be C. *)
Definition PgListKeys `{SliceSort} (fails : PgStmt → bool) (tenantID agentID : string) (s : PgKV) : KVError + list string :=
  if decide (tenantID = "" ∨ agentID = "") then inr []
  else if refused fails StSelect [tenantID; agentID] then inl KErrRead
  else inr (sortSlice String.le ((λ kv, kv.1.2) <$> map_to_list (keysOf tenantID agentID (pgRows s)))).
End kv.

(** ** The two key-value stores agree *)

(** A call: the operation, the nonce that the random source gives (or its failure), and
    the statements that the database fails. *)
Record PgCall := { pcOp : KVOp; pcNonce : option string; pcFails : PgStmt → bool }.

Definition pgKvStep `{Aead, PgText} (c : PgCall) (s : PgKV) : option (KVError + option string) * PgKV :=
  let unit_answer (e : option KVError) : KVError + option string := match e with Some e => inl e | None => inr None end in
  match pcOp c with
  | OpGet t a k => (Some (PgGet (pcFails c) t a k s), s)
  | OpSet _ t a k v => let '(e, s') := PgSet (pcFails c) (pcNonce c) t a k v s in (Some (unit_answer e), s')
  | OpDelete _ t a k => let '(e, s') := PgDelete (pcFails c) t a k s in (Some (unit_answer e), s')
  end.

(** What is promised: the bounded maps of the file store, except that an operation whose
    reading fails answers so, and one whose writing fails is a failed write. *)
Definition wellFormed (maxValue : Z) (op : KVOp) : bool :=
  match op with
  | OpGet _ _ k | OpDelete _ _ _ k => bool_decide (ValidateKey k = None)
  | OpSet _ _ _ k v => bool_decide (ValidateKey k = None ∧ ValidateValueSize v maxValue = None)
  end.

Definition readingFails (c : PgCall) (m : KVMaps) : bool :=
  match pcOp c with
  | OpGet _ _ _ => pcFails c StSelect
  | OpSet _ t a k _ => pcFails c StBegin || pcFails c StExists || (bool_decide (go_get ∅ m (t, a) !! k = None) && pcFails c StCount)
  | OpDelete _ _ _ _ => false
  end.

(** Without encryption the value itself has to be storable as text; with it, only the
    random source can fail. *)
Definition writingFails `{PgText} (encrypted : bool) (c : PgCall) : bool :=
  match pcOp c with
  | OpGet _ _ _ => false
  | OpSet _ _ _ _ v => pcFails c StUpsert || pcFails c StCommit ||
                       (if encrypted then bool_decide (pcNonce c = None) else negb (columnText v))
  | OpDelete _ _ _ _ => pcFails c StDelete
  end.

Definition withFault (fault : bool) (op : KVOp) : KVOp :=
  match op with OpGet t a k => OpGet t a k | OpSet _ t a k v => OpSet fault t a k v | OpDelete _ t a k => OpDelete fault t a k end.

Definition promised `{PgText} (encrypted : bool) (maxValue maxKeys : Z) (c : PgCall) (m : KVMaps) : option (KVError + option string) * KVMaps :=
  if wellFormed maxValue (pcOp c) && readingFails c m then (Some (inl KErrRead), m)
  else specStep maxValue maxKeys (withFault (writingFails encrypted c) (pcOp c)) m.

(** Names are single path elements that the database can hold; nonces have their length. *)
Definition callOk `{PgText} (c : PgCall) : Prop :=
  opOk (pcOp c) ∧ (∀ n, pcNonce c = Some n → String.length n = nonceLen) ∧
  match pcOp c with OpGet t a _ | OpSet _ t a _ _ | OpDelete _ t a _ => columnText t = true ∧ columnText a = true end.

Section agree.
Context `{AeadLaws, PgTextLaws}.

Lemma Decrypt_Encrypt e n p d : String.length n = nonceLen → ∀ c, Encrypt (Some e) (Some n) p d = Some c → Decrypt (Some e) c d = Some p.
Proof.
  intros Hn c. unfold Encrypt. cbn [mbind option_bind]. intros [= <-]. unfold Decrypt.
  rewrite string_length_app, bool_decide_false by (rewrite Hn; lia).
  rewrite <- Hn, takeBytes_app, dropBytes_app. by rewrite open_seal.
Qed.

Lemma read_stored (s : PgKV) n t v : String.length n = nonceLen → ∃ text, storeValue (Some n) t v s = Some text ∧ readValue (pgEnc s) t text = v.
Proof.
  intros Hn. unfold storeValue, readValue. destruct (pgEnc s) as [e|] eqn:Ee; [|by exists v].
  destruct (Encrypt (Some e) (Some n) v t) as [c|] eqn:Ec; [|done]. exists (b64Encode c). split; [done|].
  rewrite b64_roundtrip. by rewrite (Decrypt_Encrypt _ _ _ _ Hn _ Ec).
Qed.

Record pgRel (maxValue maxKeys : Z) (s : PgKV) (m : gmap (string * string) (gmap string string)) : Prop := {
  rel_value : pgMaxValue s = maxValue;
  rel_keys : pgMaxKeys s = maxKeys;
  rel_rows t a k : readValue (pgEnc s) t <$> pgRows s !! (t, a, k) = go_get ∅ m (t, a) !! k
}.

Lemma size_kmap {A} (f : string → string * string * string) `{!Inj (=) (=) f} (m : gmap string A) :
  size (kmap f m : gmap (string * string * string) A) = size m.
Proof.
  induction m as [|i x m Hi IH] using map_ind; [by rewrite kmap_empty, !map_size_empty|].
  rewrite kmap_insert, !map_size_insert_None, IH by (done || by rewrite lookup_kmap). done.
Qed.

Lemma keysOf_size maxValue maxKeys s m t a : pgRel maxValue maxKeys s m → size (keysOf t a (pgRows s)) = size (go_get ∅ m (t, a)).
Proof.
  intros [_ _ Hr]. rewrite <- (size_kmap (λ k, (t, a, k)) (go_get ∅ m (t, a))), <- !(size_dom (D:=gset _)). f_equal.
  apply set_eq. intros [[t' a'] k]. rewrite !elem_of_dom. unfold keysOf. split.
  - intros [x [Hx E]%map_lookup_filter_Some]. simpl in E. injection E as -> ->.
    rewrite lookup_kmap by apply _. rewrite <- Hr, Hx. by eexists.
  - intros [x Hx]. apply lookup_kmap_Some in Hx as (k' & [= -> -> ->] & Hk); [|apply _]. rewrite <- Hr in Hk.
    apply fmap_Some in Hk as (y & Hy & _). exists y. by apply map_lookup_filter_Some.
Qed.

Lemma pgRel_insert maxValue maxKeys s m t a k v text : pgRel maxValue maxKeys s m → readValue (pgEnc s) t text = v →
  pgRel maxValue maxKeys (setPgRows (<[(t, a, k) := text]> (pgRows s)) s) (<[(t, a) := <[k := v]> (go_get ∅ m (t, a))]> m).
Proof.
  intros [Hv Hk Hr] Ht. split; [done|done|]. intros t' a' k'. cbn [setPgRows pgEnc pgRows]. rewrite go_get_insert.
  case_decide as E; [injection E as <- <-|].
  - destruct (decide (k' = k)) as [->|Hne]; [by rewrite !lookup_insert_eq, <- Ht|]. rewrite !lookup_insert_ne by congruence. apply Hr.
  - rewrite lookup_insert_ne by congruence. apply Hr.
Qed.

Lemma pgRel_delete maxValue maxKeys s m t a k : pgRel maxValue maxKeys s m →
  pgRel maxValue maxKeys (setPgRows (delete (t, a, k) (pgRows s)) s) (<[(t, a) := delete k (go_get ∅ m (t, a))]> m).
Proof.
  intros [Hv Hk Hr]. split; [done|done|]. intros t' a' k'. cbn [setPgRows pgEnc pgRows]. rewrite go_get_insert.
  case_decide as E; [injection E as <- <-|].
  - destruct (decide (k' = k)) as [->|Hne]; [by rewrite !lookup_delete_eq|]. rewrite !lookup_delete_ne by congruence. apply Hr.
  - rewrite lookup_delete_ne by congruence. apply Hr.
Qed.

(** Valid keys and encoded values are ASCII. *)
Lemma key_text k : ValidateKey k = None → columnText k = true.
Proof.
  unfold ValidateKey. case_decide; [done|]. case_bool_decide; [done|]. destruct (stringForall keyChar k) eqn:E; [|done]. intros _.
  apply ascii_text. eapply stringForall_impl; [|exact E]. intros c. unfold keyChar. cbv zeta. intros Hc%bool_decide_eq_true.
  apply bool_decide_eq_true. lia.
Qed.

Lemma b64_text s : columnText (b64Encode s) = true.
Proof.
  apply ascii_text. set (p := λ c : ascii, bool_decide (1 ≤ nat_of_ascii c < 128)%nat).
  assert (HC : ∀ n, 0 <= n < 64 → p (b64Char n) = true).
  { intros n Hn. assert (HF : forallb (λ i, p (b64Char (Z.of_nat i))) (seq 0 64) = true) by (vm_compute; reflexivity).
    rewrite forallb_forall in HF. specialize (HF (Z.to_nat n)). rewrite Z2Nat.id in HF by lia. apply HF, in_seq. lia. }
  induction s as [|a|a b|a b c s IH] using string_ind3; [done| | |]; cbn [b64Encode stringForall].
  - pose proof (byteZ_range a). rewrite !HC by (Z.to_euclidean_division_equations; lia). done.
  - pose proof (byteZ_range a). pose proof (byteZ_range b). rewrite !HC by (Z.to_euclidean_division_equations; lia). done.
  - pose proof (byteZ_range a). pose proof (byteZ_range b). pose proof (byteZ_range c).
    rewrite !HC by (Z.to_euclidean_division_equations; lia). by rewrite IH.
Qed.

Lemma refused_ok fails st params : Forall (λ p, columnText p = true) params → refused fails st params = fails st.
Proof.
  intros HF. unfold refused. replace (forallb columnText params) with true; [by rewrite orb_false_r|]. symmetry.
  induction HF as [|p params Hp _ IH]; [done|]. cbn [forallb]. by rewrite Hp.
Qed.

(** What the writing of a value comes to. *)
Lemma store_text (s : PgKV) c t v : (∀ n, pcNonce c = Some n → String.length n = nonceLen) →
  let encrypted := bool_decide (is_Some (pgEnc s)) in
  match storeValue (pcNonce c) t v s with
  | None => encrypted = true ∧ pcNonce c = None
  | Some text => (if encrypted then bool_decide (pcNonce c = None) else negb (columnText v)) = negb (columnText text) ∧ readValue (pgEnc s) t text = v
  end.
Proof.
  intros Hn. cbv zeta. destruct (pcNonce c) as [n|] eqn:En.
  - destruct (read_stored s n t v (Hn n eq_refl)) as (text & Hs & Hr). rewrite Hs. split; [|done]. unfold storeValue in Hs.
    destruct (pgEnc s) as [e|]; [|by injection Hs as ->]. destruct (Encrypt _ _ _ _); [|done]. injection Hs as <-. by rewrite b64_text.
  - unfold storeValue. destruct (pgEnc s) as [e|] eqn:Ee; [done|]. unfold readValue. done.
Qed.

Lemma setChecks_sim maxValue maxKeys s m t a k fails : pgRel maxValue maxKeys s m → columnText t = true → columnText a = true → ValidateKey k = None →
  setChecks fails t a k s =
  if fails StExists || (bool_decide (go_get ∅ m (t, a) !! k = None) && fails StCount) then Some KErrRead
  else if decide (go_get ∅ m (t, a) !! k = None ∧ maxKeys <= Z.of_nat (size (go_get ∅ m (t, a)))) then Some ErrMaxKeysExceeded else None.
Proof.
  intros HR Ht Ha Hkey. pose proof HR as [_ Hk Hr]. unfold setChecks. rewrite !refused_ok by (repeat constructor; auto using key_text).
  rewrite (keysOf_size _ _ _ _ t a HR), Hk. specialize (Hr t a k). destruct (fails StExists); [done|]. cbn [orb].
  destruct (pgRows s !! (t, a, k)) as [x|]; cbn [fmap option_fmap option_map] in Hr; rewrite <- Hr.
  - rewrite decide_True by eauto. rewrite bool_decide_false, decide_False by naive_solver. done.
  - rewrite decide_False by (by intros [? [=]]). rewrite (bool_decide_true (None = None)) by done. cbn [andb]. destruct (fails StCount); [done|].
    case_bool_decide; [by rewrite decide_True|by rewrite decide_False by tauto].
Qed.

Lemma pgKvStep_sim maxValue maxKeys enc c s m : callOk c → pgEnc s = enc → pgRel maxValue maxKeys s m →
  let '(answer, s') := pgKvStep c s in let '(expected, m') := promised (bool_decide (is_Some enc)) maxValue maxKeys c m in
  answer = expected ∧ pgEnc s' = enc ∧ pgRel maxValue maxKeys s' m'.
Proof.
  intros (Hop & Hn & Htext) <- HR. pose proof HR as [Hv Hk Hr].
  unfold pgKvStep, promised, wellFormed, readingFails, writingFails. destruct (pcOp c) as [t a k|f t a k v|f t a k]; destruct Hop as [Ht Ha], Htext as [Htt Hta];
    cbn [withFault specStep].
  - unfold PgGet. destruct (ValidateKey k) eqn:Ek; [by rewrite bool_decide_false|]. rewrite bool_decide_true, refused_ok by (repeat constructor; auto using key_text).
    cbn [andb]. destruct (pcFails c StSelect); [done|]. by rewrite Hr.
  - unfold PgSet. rewrite decide_False by (apply component_spec in Ht, Ha; tauto). rewrite Hv.
    destruct (ValidateKey k) as [e|] eqn:Ek; [by rewrite bool_decide_false by naive_solver|].
    destruct (ValidateValueSize v maxValue) as [e|] eqn:Ev; [by rewrite bool_decide_false by naive_solver|].
    rewrite bool_decide_true by done. cbn [andb]. rewrite (setChecks_sim maxValue maxKeys s m) by done.
    destruct (pcFails c StBegin); [done|]. cbn [orb]. destruct (pcFails c StExists || _); [done|].
    destruct (decide (go_get ∅ m (t, a) !! k = None ∧ _)); [done|]. pose proof (store_text s c t v Hn) as HS. cbv zeta in HS.
    destruct (storeValue (pcNonce c) t v s) as [text|].
    + destruct HS as [-> Hread]. unfold refused. cbn [forallb]. rewrite Htt, Hta, (key_text k) by done. cbn [andb]. rewrite andb_true_r.
      destruct (pcFails c StUpsert), (columnText text), (pcFails c StCommit); try done. cbn. split_and!; [done..|]. by apply pgRel_insert.
    + destruct HS as [-> HN]. rewrite (bool_decide_true (pcNonce c = None)) by done. rewrite !orb_true_r. done.
  - unfold PgDelete. destruct (ValidateKey k) eqn:Ek; [by rewrite bool_decide_false|]. rewrite andb_false_r, refused_ok by (repeat constructor; auto using key_text).
    destruct (pcFails c StDelete); [done|]. split_and!; [done..|]. by apply pgRel_delete.
Qed.

(** Where nothing that reads fails, the promise is that of the file store. *)
Lemma promised_file encrypted maxValue maxKeys calls m :
  Forall (λ c, ∀ st, st ∈ [StSelect; StBegin; StExists; StCount] → pcFails c st = false) calls →
  trace (promised encrypted maxValue maxKeys) m calls =
  trace (specStep maxValue maxKeys) m ((λ c, withFault (writingFails encrypted c) (pcOp c)) <$> calls).
Proof.
  intros HF. revert m. induction HF as [|c calls Hc _ IH]; intros m; [done|]. cbn [fmap list_fmap trace].
  assert (HP : promised encrypted maxValue maxKeys c m = specStep maxValue maxKeys (withFault (writingFails encrypted c) (pcOp c)) m); [|by rewrite HP; destruct (specStep _ _ _ _); rewrite IH].
  unfold promised. replace (readingFails c m) with false; [by rewrite andb_false_r|]. unfold readingFails.
  rewrite !Hc by set_solver. destruct (pcOp c); [done| |done]. by rewrite andb_false_r.
Qed.

(** C28. The two key-value stores are interchangeable, with or without encryption and
    whatever the nonces (of twelve bytes), for agents named by single path elements that are text: after any
    history of reads, writes and deletions in which the database fails any statements,
    the store in Postgres has answered what is promised, and every value it holds reads as
    the bounded maps have it.  The promise is the bounded maps of the file store, an
    operation of which a reading statement fails answering an error and changing nothing,
    and one of which a writing statement fails, or whose value is no text (without
    encryption), being a failed write.  So where no reading statement fails the answers
    are those of the file store with the same writes failing. *)
Theorem kv_backends_agree (maxValue maxKeys : Z) (enc : option Encryptor) (calls : list PgCall) (d : string) :
  Forall callOk calls → component d = true → 0 < maxKeys →
  let encrypted := bool_decide (is_Some enc) in
  let s0 := {| pgRows := ∅; pgMaxValue := maxValue; pgMaxKeys := maxKeys; pgEnc := enc |} in
  let f0 := {| kvDir := d; maxValueSize := maxValue; maxKeysPerAgent := maxKeys; kvDisk := ∅ |} in
  let '(answers, s) := trace pgKvStep s0 calls in
  let '(expected, m) := trace (promised encrypted maxValue maxKeys) ∅ calls in
  answers = expected ∧ (∀ t a k, readValue (pgEnc s) t <$> pgRows s !! (t, a, k) = go_get ∅ m (t, a) !! k) ∧
  (Forall (λ c, ∀ st, st ∈ [StSelect; StBegin; StExists; StCount] → pcFails c st = false) calls →
   answers = (trace kvStep f0 ((λ c, withFault (writingFails encrypted c) (pcOp c)) <$> calls)).1).
Proof.
  intros Hcalls Hd Hpos. cbv zeta. set (s0 := {| pgRows := ∅ |}). set (encrypted := bool_decide _).
  destruct (trace_sim pgKvStep (promised encrypted maxValue maxKeys) (λ s m, pgEnc s = enc ∧ pgRel maxValue maxKeys s m) calls s0 ∅) as [H1' [_ H2']].
  { intros c s m Hin [He HR]. rewrite Forall_forall in Hcalls. pose proof (pgKvStep_sim _ _ enc c s m (Hcalls _ Hin) He HR) as HS.
    unfold encrypted. destruct (pgKvStep c s), (promised _ _ _ c m). done. }
  { split; [done|]. split; [done|done|]. intros t a k. simpl. by rewrite lookup_empty. }
  assert (Hfile : Forall opOk ((λ c, withFault (writingFails encrypted c) (pcOp c)) <$> calls)).
  { apply Forall_fmap, (Forall_impl _ _ _ Hcalls). intros c [Hop _]. unfold compose. by destruct (pcOp c). }
  pose proof (kv_store_refines_maps d [] ltac:(by repeat constructor) maxValue maxKeys Hpos _ Hfile) as HF. cbv zeta in HF.
  change (String.concat "/" [d]) with d in HF. destruct (trace kvStep _ _) as [fanswers fs]. 
  pose proof (promised_file encrypted maxValue maxKeys calls ∅) as HP.
  destruct (trace pgKvStep _ calls) as [answers s], (trace (promised _ _ _) ∅ calls) as [expected m]. cbn [fst snd] in *. split_and!; [done|apply H2'|].
  intros Hreads. rewrite <- (HP Hreads) in HF. destruct HF as [-> _]. done.
Qed.

(** Rotating the key loses nothing: what was encrypted under a key is read back, for
    the same tenant, by an encryptor that has that key as its current or its previous
    one, provided another current key does not open it. *)
Theorem key_rotation (old_ : Encryptor) (newKey n p tenant c : string) :
  String.length n = nonceLen → Encrypt (Some old_) (Some n) p tenant = Some c →
  Decrypt (Some old_) c tenant = Some p ∧
  (open_ newKey n (seal (current old_) n p tenant) tenant = None →
     Decrypt (Some {| current := newKey; previous := Some (current old_) |}) c tenant = Some p).
Proof.
  intros Hn HE. split; [by eapply Decrypt_Encrypt|]. intros Hx. unfold Encrypt in HE. cbn [mbind option_bind] in HE. injection HE as <-.
  unfold Decrypt. cbn [current previous]. rewrite string_length_app, bool_decide_false by (rewrite Hn; lia).
  rewrite <- Hn, takeBytes_app, dropBytes_app. rewrite Hx. cbn [mbind option_bind]. apply open_seal.
Qed.

(** An encryptor made from the texts of keys has those keys. *)
Theorem encryptor_keys key prev : String.length key = keyLen → String.length prev = keyLen →
  NewEncryptor (b64Encode key) "" = inr (Some {| current := key; previous := None |}) ∧
  NewEncryptor (b64Encode key) (b64Encode prev) = inr (Some {| current := key; previous := Some prev |}).
Proof.
  intros Hk Hp. assert (HE : ∀ x, String.length x = keyLen → b64Encode x ≠ "") by (intros [|a [|b [|c x]]] Hx; done).
  unfold NewEncryptor, aeadFromBase64. rewrite !b64_roundtrip. rewrite !(bool_decide_false (_ ∧ _)) by (intros [E _]; by apply HE in E).
  rewrite !(bool_decide_false (b64Encode key = "")) by (by apply HE). rewrite (bool_decide_false (String.length key ≠ keyLen)) by (rewrite Hk; auto).
  rewrite bool_decide_true by done. rewrite (bool_decide_false (b64Encode prev = "")) by (by apply HE).
  rewrite (bool_decide_false (String.length prev ≠ keyLen)) by (rewrite Hp; auto). done.
Qed.
End agree.

(** The check of the number of keys and the write are two statements, and transactions of
    the default isolation do not see each other: two writers that both pass the check
    exceed the limit. *)
Theorem kv_limit_races : ∃ (s : PgKV) (s' : PgKV),
  @setChecks (λ _, true) (λ _, false) "t" "a" "x" s = None ∧ @setChecks (λ _, true) (λ _, false) "t" "a" "y" s = None ∧ pgMaxKeys s = 1 ∧
  s' = setPgRows (<[("t", "a", "y") := "1"]> (<[("t", "a", "x") := "1"]> (pgRows s))) s ∧ size (keysOf "t" "a" (pgRows s')) = 2%nat.
Proof. exists {| pgRows := ∅; pgMaxValue := 10; pgMaxKeys := 1; pgEnc := None |}. eexists. split_and!; [vm_compute; reflexivity..|]. vm_compute. reflexivity. Qed.

(** ** The conversation memory *)

Module Memory.
Import Chat.

(** What a column of type JSONB gives back for the JSON text of tool calls, or that it
    refuses the text. *)
Class PgJsonb := jsonbColumn : RawToolCalls → option RawToolCalls.

(** The columns of a message; its name has none. [RAt] is the time the transaction began. *)
Record MemRow := { RTenant : string; RAgent : string; RMsg : StoredMessage; RAt : Time; RID : nat }.

Record PgMemory := { memRows : list MemRow; nextID : nat }.

Section store.
Context `{PgText, PgJsonb}.

(** No tool calls are NULL, an empty id too, which is read as empty. *)
Definition toolColumn (t : RawToolCalls) : option RawToolCalls :=
  match t with RawNone => Some RawNone | t => jsonbColumn t end.

(** What the columns hold of a message, or that one of them refuses it. *)
Definition insertMessage (m : StoredMessage) : option StoredMessage :=
  if forallb columnText [SRole m; SContent m; SToolCallID m] then
    tc ← toolColumn (SToolCalls m);
    Some {| SRole := SRole m; SContent := SContent m; SToolCallID := SToolCallID m; SToolCalls := tc; SName := "" |}
  else None.

Definition newRows (now : Time) (tenantID agentID : string) (messages : list StoredMessage) (s : PgMemory) : list MemRow :=
  imap (λ i m, {| RTenant := tenantID; RAgent := agentID; RMsg := m; RAt := now; RID := nextID s + i |}) messages.

(** One transaction: all messages, or none.  The ids of a transaction that is rolled back
    are not counted: only their order is seen. *)
Definition PgAppend (fault : bool) (now : Time) (tenantID agentID : string) (messages : list StoredMessage) (s : PgMemory) : option MemError * PgMemory :=
  if decide (tenantID = "" ∨ agentID = "") then (Some MemRequired, s)
  else if decide (messages = []) then (None, s)
  else match mapM insertMessage messages with
  | None => (Some MemWrite, s)
  | Some rows =>
      if fault || negb (forallb columnText [tenantID; agentID]) then (Some MemWrite, s)
      else (None, {| memRows := memRows s ++ newRows now tenantID agentID rows s; nextID := nextID s + length rows |})
  end.

Definition newerRow (x y : MemRow) : Prop := RAt y < RAt x ∨ RAt y = RAt x ∧ (RID y ≤ RID x)%nat.
#[global] Instance newerRow_dec x y : base.Decision (newerRow x y).
Proof. unfold newerRow. apply _. Defined.

Definition ofAgent (tenantID agentID : string) (r : MemRow) : Prop := RTenant r = tenantID ∧ RAgent r = agentID.
#[global] Instance ofAgent_dec t a r : base.Decision (ofAgent t a r).
Proof. unfold ofAgent. apply _. Defined.

(** The newest rows, turned round, then trimmed. *)
Definition PgGetRecent `{SliceSort} (fault : bool) (tenantID agentID : string) (maxMessages maxTokens : Z) (s : PgMemory) :
    MemError + list StoredMessage :=
  if decide (tenantID = "" ∨ agentID = "") then inr []
  else if fault || negb (forallb columnText [tenantID; agentID]) then inl MemRead
  else
    let limit := if bool_decide (maxMessages <= 0) then 1000 else maxMessages in
    let msgs := reverse (RMsg <$> take (Z.to_nat limit) (sortSlice newerRow (filter (ofAgent tenantID agentID) (memRows s)))) in
    inr (if bool_decide (0 < maxTokens) then trimByTokens msgs maxTokens else msgs).

Definition PgClear (fault : bool) (tenantID agentID : string) (s : PgMemory) : option MemError * PgMemory :=
  if decide (tenantID = "" ∨ agentID = "") then (Some MemRequired, s)
  else if fault || negb (forallb columnText [tenantID; agentID]) then (Some MemWrite, s)
  else (None, {| memRows := filter (λ r, ¬ ofAgent tenantID agentID r) (memRows s); nextID := nextID s |}).
End store.

(** *** Agreement with the file store *)

Inductive MemOp :=
  | MAppend (fault : bool) (t a : string) (ms : list StoredMessage) (now : Time)
  | MClear (fault : bool) (t a : string).

Definition memStep `{PgText, PgJsonb} (s : PgMemory) (op : MemOp) : PgMemory :=
  match op with MAppend f t a ms now => (PgAppend f now t a ms s).2 | MClear f t a => (PgClear f t a s).2 end.

(** What the table gives back for a message that it takes: no name, and the tool calls as
    their column has them. *)
Definition inserted `{PgJsonb} (m : StoredMessage) : StoredMessage :=
  {| SRole := SRole m; SContent := SContent m; SToolCallID := SToolCallID m;
     SToolCalls := default (SToolCalls m) (toolColumn (SToolCalls m)); SName := "" |}.

(** What is stored for an agent, as a list. *)
Definition conversation (t a : string) (conv : list StoredMessage) (op : MemOp) : list StoredMessage :=
  match op with
  | MAppend false t' a' ms _ => if decide (t' = t ∧ a' = a) then conv ++ ms else conv
  | MClear false t' a' => if decide (t' = t ∧ a' = a) then [] else conv
  | _ => conv
  end.

Definition opTime (op : MemOp) : option Time := match op with MAppend _ _ _ _ now => Some now | MClear _ _ _ => None end.

(** Rows in the order of the table are in the order of their times and ids. *)
Record memOk (now : Time) (s : PgMemory) : Prop := {
  mem_sorted : StronglySorted (flip newerRow) (memRows s);
  mem_last r : r ∈ memRows s → RAt r <= now ∧ (RID r < nextID s)%nat;
  mem_ids : NoDup (RID <$> memRows s)
}.

Lemma newRows_sorted now t a ms s : StronglySorted (flip newerRow) (newRows now t a ms s).
Proof.
  unfold newRows. generalize (nextID s) as k. intros k. revert k. induction ms as [|m ms IH]; intros k; [constructor|].
  rewrite imap_cons. constructor.
  - specialize (IH (S k)). erewrite imap_ext; [exact IH|]. intros i x _. simpl. f_equal. lia.
  - apply Forall_forall. intros r Hr. apply elem_of_lookup_imap in Hr as (i & x & -> & _). unfold flip, newerRow. simpl. right. split; [done|lia].
Qed.

Lemma newRows_ids now t a ms s : RID <$> newRows now t a ms s = seq (nextID s) (length ms).
Proof.
  unfold newRows. generalize (nextID s) as k. induction ms as [|m ms IH]; intros k; [done|]. rewrite imap_cons. cbn [fmap list_fmap length seq RID].
  f_equal; [lia|]. rewrite <- IH. f_equal. apply imap_ext. intros i x _. simpl. f_equal. lia.
Qed.
(** Clocks do not run backwards. *)
Fixpoint timesFrom (now : Time) (ops : list MemOp) : Prop :=
  match ops with
  | [] => True
  | MAppend _ _ _ _ at_ :: ops => now <= at_ ∧ timesFrom at_ ops
  | MClear _ _ _ :: ops => timesFrom now ops
  end.

Lemma StronglySorted_filter {A} (R : relation A) (P : A → Prop) `{∀ x, base.Decision (P x)} l :
  StronglySorted R l → StronglySorted R (filter P l).
Proof.
  induction 1 as [|x l Hl IH Hx]; [constructor|]. rewrite filter_cons. destruct (decide (P x)); [|done].
  constructor; [done|]. apply Forall_forall. intros y Hy. rewrite Forall_forall in Hx. apply Hx. by apply list_elem_of_filter in Hy as [_ Hy].
Qed.

Lemma StronglySorted_reverse {A} (R : relation A) l : StronglySorted (flip R) l → StronglySorted R (reverse l).
Proof.
  induction 1 as [|x l Hl IH Hx]; [rewrite reverse_nil; constructor|]. rewrite reverse_cons. apply StronglySorted_app_2; [|done|repeat constructor].
  intros y z Hy Hz. apply list_elem_of_singleton in Hz as ->. rewrite Forall_forall in Hx. apply Hx. by apply elem_of_reverse.
Qed.

Lemma newRows_in now t a ms s r : r ∈ newRows now t a ms s → RAt r = now ∧ (nextID s ≤ RID r < nextID s + length ms)%nat ∧ ofAgent t a r.
Proof. intros (i & x & -> & Hx)%elem_of_lookup_imap. apply lookup_lt_Some in Hx. simpl. split_and!; [done|lia|lia|done]. Qed.

Lemma append_ok now now' t a ms s : memOk now s → now <= now' →
  memOk now' {| memRows := memRows s ++ newRows now' t a ms s; nextID := nextID s + length ms |}.
Proof.
  intros [Hs Hl Hi] Hle. split; cbn [memRows nextID].
  - apply StronglySorted_app_2; [|done|apply newRows_sorted]. intros x y [Hx Hx2]%Hl (Hy & Hy2 & _)%newRows_in.
    unfold flip, newerRow. destruct (decide (RAt x = RAt y)); [right|left]; [split; [done|lia]|lia].
  - intros r [Hr|Hr]%elem_of_app; [apply Hl in Hr as [??]|apply newRows_in in Hr as (? & ? & _)]; lia.
  - rewrite fmap_app, newRows_ids. apply NoDup_app. split_and!; [done| |apply NoDup_seq].
    intros n (r & -> & Hr)%list_elem_of_fmap Hn. apply Hl in Hr as [_ Hr]. apply elem_of_seq in Hn. lia.
Qed.

Lemma clear_ok now (P : MemRow → Prop) `{∀ r, base.Decision (P r)} s : memOk now s → memOk now {| memRows := filter P (memRows s); nextID := nextID s |}.
Proof.
  intros [Hs Hl Hi]. split; cbn [memRows nextID]; [by apply StronglySorted_filter| |].
  - intros r [_ Hr]%list_elem_of_filter. by apply Hl.
  - clear Hs Hl. induction (memRows s) as [|r rs IH]; [done|]. cbn [fmap list_fmap] in Hi. apply NoDup_cons in Hi as [Hn Hi]. rewrite filter_cons.
    destruct (decide (P r)); [|by apply IH]. cbn [fmap list_fmap]. apply NoDup_cons. split; [|by apply IH].
    intros (x & Hx & Hin)%list_elem_of_fmap. apply Hn. apply list_elem_of_fmap. exists x. split; [done|]. by apply list_elem_of_filter in Hin as [_ ?].
Qed.

(** The rows of an agent, in the order of the table, are its conversation. *)
Definition holds `{PgText, PgJsonb} (t a : string) (conv : list StoredMessage) (s : PgMemory) : Prop :=
  RMsg <$> filter (ofAgent t a) (memRows s) = inserted <$> conv.

(** Agents are named by single path elements that are text, and the columns take the messages. *)
Definition memOpOk `{PgText, PgJsonb} (op : MemOp) : Prop :=
  match op with MAppend _ t a _ _ | MClear _ t a => (component t = true ∧ component a = true) ∧ columnText t = true ∧ columnText a = true end ∧
  match op with MAppend _ _ _ ms _ => Forall (λ m, is_Some (insertMessage m)) ms | MClear _ _ _ => True end.

Lemma mapM_inserted `{PgText, PgJsonb} ms : Forall (λ m, is_Some (insertMessage m)) ms → mapM insertMessage ms = Some (inserted <$> ms).
Proof.
  intros HF. apply mapM_Some. induction HF as [|m ms [x Hx] _ IH]; constructor; [|done]. unfold insertMessage in *.
  destruct (forallb _ _); [|done]. unfold inserted. by destruct (toolColumn _).
Qed.

Lemma filter_newRows now t a t' a' ms s :
  RMsg <$> filter (ofAgent t a) (newRows now t' a' ms s) = if decide (t' = t ∧ a' = a) then ms else [].
Proof.
  assert (HM : RMsg <$> newRows now t' a' ms s = ms).
  { unfold newRows. rewrite fmap_imap. generalize (nextID s). induction ms as [|m ms IH]; intros k; [done|]. rewrite imap_cons. cbn [fmap list_fmap].
    f_equal. etrans; [|apply (IH (S k))]. apply imap_ext. intros i x _. simpl. done. }
  assert (HA : Forall (ofAgent t' a') (newRows now t' a' ms s)) by (apply Forall_forall; by intros r (_ & _ & ?)%newRows_in).
  revert HM HA. generalize (newRows now t' a' ms s). intros rs0 <- HA. induction HA as [|r rs [HrT HrA] _ IH]; [by destruct (decide _)|]. rewrite filter_cons.
  destruct (decide (t' = t ∧ a' = a)) as [[-> ->]|Hn].
  - rewrite decide_True by done. cbn [fmap list_fmap]. by rewrite IH.
  - rewrite decide_False; [done|]. intros [HT HA]. apply Hn. split; congruence.
Qed.

Lemma memStep_sim `{PgText, PgJsonb} now t a conv s op : t ≠ "" → a ≠ "" → memOpOk op → memOk now s → holds t a conv s → timesFrom now [op] →
  memOk (default now (opTime op)) (memStep s op) ∧ holds t a (conversation t a conv op) (memStep s op).
Proof.
  intros Ht Ha [Hop Hms] Hok Hh Htime. destruct op as [f t' a' ms now'|f t' a']; destruct Hop as [_ [Htt Hta]]; cbn [opTime default timesFrom memStep conversation] in *.
  - assert (Hw : memOk now' s). { destruct Hok as [Hs Hl Hi]. split; [done| |done]. intros r [??]%Hl. lia. }
    unfold PgAppend. destruct (decide (t' = "" ∨ a' = "")) as [He|He].
    { split; [done|]. destruct f; [done|]. rewrite decide_False by (intros [-> ->]; tauto). done. }
    destruct (decide (ms = [])) as [->|]; [split; [done|]; destruct f; [done|]; rewrite app_nil_r; by destruct (decide _)|].
    rewrite (mapM_inserted _ Hms). cbn [forallb]. rewrite Htt, Hta. destruct f; [done|]. cbn [orb andb negb].
    split; [by eapply append_ok|]. unfold holds. cbn [snd memRows]. rewrite filter_app, fmap_app, filter_newRows, Hh.
    destruct (decide _); [by rewrite fmap_app|by rewrite app_nil_r].
  - unfold PgClear. destruct (decide (t' = "" ∨ a' = "")) as [He|He].
    { split; [done|]. destruct f; [done|]. rewrite decide_False by (intros [-> ->]; tauto). done. }
    cbn [forallb]. rewrite Htt, Hta. destruct f; [done|]. cbn [orb andb negb]. split; [by apply clear_ok|]. unfold holds in *. cbn [snd memRows]. rewrite list_filter_filter.
    destruct (decide (t' = t ∧ a' = a)) as [[-> ->]|Hn].
    + assert (HE : filter (λ r, ofAgent t a r ∧ ¬ ofAgent t a r) (memRows s) = []); [|by rewrite HE]. clear. induction (memRows s) as [|r rs IH]; [done|]. rewrite filter_cons, IH. by rewrite decide_False by tauto.
    + rewrite (list_filter_iff _ (ofAgent t a)); [done|]. intros r. unfold ofAgent. split; [tauto|]. intros [<- <-]. split; [done|]. intros [??]. apply Hn. done.
Qed.

(** The same history in the file store. *)
Definition fileStep (f : fileMemoryStore) (op : MemOp) : fileMemoryStore :=
  match op with
  | MAppend fault t a ms _ => (Chat.Append false fault t a ms f).2
  | MClear fault t a => (Chat.Clear false fault t a f).2
  end.

Section agree.
Context `{PgText, PgJsonb} (d : string) (ds : list string) (Hds : Forall (λ c, component c = true) (d :: ds)).

Definition fileOk (t a : string) (conv : list StoredMessage) (f : fileMemoryStore) : Prop :=
  dataDir f = String.concat "/" (d :: ds) ∧ Chat.loadLocked t a f = inr conv.

Lemma memPath_inj t a t' a' f : dataDir f = String.concat "/" (d :: ds) →
  component t = true → component a = true → component t' = true → component a' = true →
  Chat.filePath t a f = Chat.filePath t' a' f → t = t' ∧ a = a'.
Proof.
  intros Hf. apply (KVStore.filePath_inj d ds Hds t a t' a' {| kvDir := dataDir f; maxValueSize := 0; maxKeysPerAgent := 0; kvDisk := ∅ |} Hf).
Qed.

Lemma fileStep_sim t a conv f op : component t = true → component a = true → memOpOk op → fileOk t a conv f →
  (∀ t a, component t = true → component a = true → ∃ conv, Chat.loadLocked t a f = inr conv) →
  fileOk t a (conversation t a conv op) (fileStep f op) ∧
  (∀ t a, component t = true → component a = true → ∃ conv, Chat.loadLocked t a (fileStep f op) = inr conv).
Proof.
  intros Ht Ha Hop [Hd Hl] Hall. destruct op as [fl t' a' ms now|fl t' a']; destruct Hop as [[[Ht' Ha'] _] _]; cbn [fileStep conversation].
  - unfold Chat.Append. rewrite (decide_False (P := t' = "" ∨ a' = "")) by (apply component_spec in Ht', Ha'; tauto).
    destruct (Hall t' a' Ht' Ha') as [conv' Hl']. rewrite Hl'. destruct fl; [done|]. cbn [snd].
    assert (HL : ∀ t1 a1, component t1 = true → component a1 = true → Chat.loadLocked t1 a1
      {| dataDir := dataDir f; memFiles := <[Chat.filePath t' a' f := MemMessages (conv' ++ ms)]> (memFiles f) |} =
      if decide (t' = t1 ∧ a' = a1) then inr (conv' ++ ms) else Chat.loadLocked t1 a1 f).
    { intros t1 a1 H1 H2. unfold Chat.loadLocked. change (Chat.filePath t1 a1 _) with (Chat.filePath t1 a1 f). cbn [memFiles].
      case_decide as He; [destruct He as [-> ->]; by rewrite lookup_insert_eq|]. rewrite lookup_insert_ne; [done|].
      intros Hp. apply He. by apply (memPath_inj _ _ _ _ f). }
    split; [split; [done|]|intros t1 a1 H1 H2]; rewrite HL by done.
    + destruct (decide _) as [[-> ->]|]; [|done]. congruence.
    + destruct (decide _); [by eexists|by apply Hall].
  - unfold Chat.Clear. rewrite (decide_False (P := t' = "" ∨ a' = "")) by (apply component_spec in Ht', Ha'; tauto).
    destruct (memFiles f !! Chat.filePath t' a' f) as [content|] eqn:Hc; cbn [snd].
    2:{ split; [|done]. split; [done|]. destruct fl; [done|]. case_decide as He; [|done]. destruct He as [-> ->].
        unfold Chat.loadLocked in *. by rewrite Hc. }
    destruct fl; [done|].
    assert (HL : ∀ t1 a1, component t1 = true → component a1 = true → Chat.loadLocked t1 a1
      {| dataDir := dataDir f; memFiles := delete (Chat.filePath t' a' f) (memFiles f) |} =
      if decide (t' = t1 ∧ a' = a1) then inr [] else Chat.loadLocked t1 a1 f).
    { intros t1 a1 H1 H2. unfold Chat.loadLocked. change (Chat.filePath t1 a1 _) with (Chat.filePath t1 a1 f). cbn [memFiles].
      case_decide as He; [destruct He as [-> ->]; by rewrite lookup_delete_eq|]. rewrite lookup_delete_ne; [done|].
      intros Hp. apply He. by apply (memPath_inj _ _ _ _ f). }
    split; [split; [done|]|intros t1 a1 H1 H2]; cbn [snd]; rewrite HL by done.
    + by destruct (decide _).
    + destruct (decide _); [by eexists|by apply Hall].
Qed.

Lemma tokensOf_inserted ms : tokensOf (inserted <$> ms) = tokensOf ms.
Proof. induction ms as [|m ms IH]; [done|]. cbn [fmap list_fmap]. unfold tokensOf in *. cbn [foldr]. by rewrite IH. Qed.

Lemma trim_inserted ms n : trimByTokens (inserted <$> ms) n = inserted <$> trimByTokens ms n.
Proof.
  unfold trimByTokens. rewrite tokensOf_inserted. generalize (tokensOf ms). induction ms as [|m ms IH]; intros k; [done|].
  cbn [fmap list_fmap trimLoop]. destruct (bool_decide _); [|done]. apply IH.
Qed.

(** Sorting newest first turns the rows of the table round. *)
Lemma newest_first `{SliceSort, !SliceSortLaws} now t a s : memOk now s →
  sortSlice newerRow (filter (ofAgent t a) (memRows s)) = reverse (filter (ofAgent t a) (memRows s)).
Proof.
  intros [Hs _ Hi]. apply (StronglySorted_unique_strong newerRow).
  - intros x y Hx Hy Hxy Hyx. rewrite sort_perm in Hx. rewrite elem_of_reverse in Hy.
    apply list_elem_of_filter in Hx as [_ Hx], Hy as [_ Hy].
    assert (Hid : RID x = RID y) by (unfold newerRow in *; lia). clear -Hi Hx Hy Hid.
    apply list_elem_of_lookup in Hx as [i Hx], Hy as [j Hy].
    assert (i = j) as ->; [|congruence]. eapply (NoDup_lookup _ _ _ (RID x) Hi); rewrite list_lookup_fmap; [by rewrite Hx|by rewrite Hy, Hid].
  - apply sort_sorted.
    + intros x y z. unfold newerRow. lia.
    + intros x y. unfold newerRow. lia.
  - apply StronglySorted_reverse. by apply StronglySorted_filter.
  - rewrite sort_perm. by rewrite reverse_Permutation.
Qed.
Lemma histories `{SliceSort, !SliceSortLaws} t a ops : component t = true → component a = true → Forall memOpOk ops →
  ∀ now conv s f, memOk now s → holds t a conv s → fileOk t a conv f → timesFrom now ops →
  (∀ t a, component t = true → component a = true → ∃ conv, Chat.loadLocked t a f = inr conv) →
  (∃ now, memOk now (foldl memStep s ops)) ∧ holds t a (foldl (conversation t a) conv ops) (foldl memStep s ops) ∧
  fileOk t a (foldl (conversation t a) conv ops) (foldl fileStep f ops).
Proof.
  intros Ht Ha Hops. induction Hops as [|op ops Hop _ IH]; intros now conv s f Hok Hh Hf Htimes Hall; [split; [by eexists|done]|].
  cbn [foldl]. assert (Hne : t ≠ "" ∧ a ≠ "") by (apply component_spec in Ht, Ha; tauto).
  destruct (memStep_sim now t a conv s op (proj1 Hne) (proj2 Hne) Hop Hok Hh) as [Hok' Hh']; [by destruct op; cbn in *; tauto|].
  destruct (fileStep_sim t a conv f op Ht Ha Hop Hf Hall) as [Hf' Hall'].
  apply (IH _ _ _ _ Hok' Hh' Hf'); [|done]. by destruct op; cbn in *; tauto.
Qed.

(** C29. The two conversation memories are interchangeable for agents named by single path
    elements that are text: after any history of appends and clears of messages that the
    columns of the table take (texts without a byte 0 in the database's encoding, tool
    calls that its JSON column accepts), with any failures and a clock that does not run
    backwards, the store in Postgres answers the messages that the file store answers,
    each as the columns give it back: without its name, and with its tool calls as the
    JSON column has them.  The window of messages is positive, or at most a thousand
    messages are stored; any window of tokens is allowed. *)
Theorem memory_backends_agree `{SliceSort, !SliceSortLaws} t a ops maxMessages maxTokens now :
  component t = true → component a = true → columnText t = true → columnText a = true → Forall memOpOk ops → timesFrom now ops →
  0 < maxMessages ∨ (length (foldl (conversation t a) [] ops) ≤ 1000)%nat →
  let pg := foldl memStep {| memRows := []; nextID := 1 |} ops in
  let file := foldl fileStep {| dataDir := String.concat "/" (d :: ds); memFiles := ∅ |} ops in
  ∃ recent, GetRecent false t a maxMessages maxTokens file = inr recent ∧
    PgGetRecent false t a maxMessages maxTokens pg =
      inr ((λ m, {| SRole := SRole m; SContent := SContent m; SToolCallID := SToolCallID m;
                    SToolCalls := default (SToolCalls m) (toolColumn (SToolCalls m)); SName := "" |}) <$> recent).
Proof.
  intros Ht Ha Htt Hta Hops Htimes Hmax. cbv zeta.
  destruct (histories t a ops Ht Ha Hops now [] {| memRows := []; nextID := 1 |}
    {| dataDir := String.concat "/" (d :: ds); memFiles := ∅ |}) as ([now' Hok] & Hh & Hf); try done.
  { split; [constructor|by intros r ?%not_elem_of_nil|constructor]. }
  { intros t' a' _ _. exists []. done. }
  set (conv := foldl (conversation t a) [] ops) in *. unfold PgGetRecent, GetRecent.
  rewrite !(decide_False (P := t = "" ∨ a = "")) by (apply component_spec in Ht, Ha; tauto).
  destruct Hf as [_ ->]. eexists. split; [reflexivity|].
  cbn [forallb]. rewrite Htt, Hta. cbn [orb andb negb]. rewrite (newest_first now') by done. unfold holds in Hh.
  set (rows := filter (ofAgent t a) (memRows (foldl memStep _ ops))) in *.
  assert (Hlen : length rows = length conv) by (rewrite <- (length_fmap RMsg rows), Hh; apply length_fmap).
  assert (HW : reverse (RMsg <$> take (Z.to_nat (if bool_decide (maxMessages <= 0) then 1000 else maxMessages)) (reverse rows)) =
    inserted <$> (if bool_decide (0 < maxMessages < Z.of_nat (length conv)) then drop (length conv - Z.to_nat maxMessages) conv else conv)).
  { rewrite take_reverse, fmap_reverse, reverse_involutive, fmap_drop, Hh, <- fmap_drop, Hlen.
    destruct (decide (maxMessages <= 0)); [rewrite (bool_decide_true (maxMessages <= 0)) by done|rewrite (bool_decide_false (maxMessages <= 0)) by done].
    - rewrite bool_decide_false by lia. replace (length conv - Z.to_nat 1000)%nat with 0%nat by lia. done.
    - case_bool_decide; [done|]. replace (length conv - Z.to_nat maxMessages)%nat with 0%nat by lia. done. }
  rewrite HW. destruct (bool_decide (0 < maxTokens)); [f_equal; apply trim_inserted|done].
Qed.
End agree.
End Memory.

(** ** Witnesses *)

(** A cipher that satisfies the laws, for the witnesses only: the sealed text names its
    key, nonce and data. *)
Definition plainAead : Aead := {|
  seal k n p d := (k +:+ n +:+ d) +:+ p;
  open_ k n c d := if HasPrefix c (k +:+ n +:+ d) then Some (dropBytes (String.length (k +:+ n +:+ d)) c) else None
|}.

Lemma plainAead_laws : @AeadLaws plainAead.
Proof. split. intros k n p d. cbn [open_ seal plainAead]. by rewrite HasPrefix_app, dropBytes_app. Qed.

Definition sample_key (c : ascii) : string := String.string_of_list_ascii (replicate keyLen c).
(** Texts without a byte 0, as a database that does not look at the encoding takes them. *)
Definition noNul : PgText := λ s, stringForall (λ c, bool_decide (nat_of_ascii c ≠ 0)%nat) s.

Lemma noNul_laws : @PgTextLaws noNul.
Proof.
  split.
  - intros s. apply stringForall_impl. intros c Hc%bool_decide_eq_true. apply bool_decide_eq_true. lia.
  - intros s t. unfold columnText, noNul. rewrite stringForall_app. cbn. by rewrite andb_false_r.
Qed.

Definition fine : PgStmt → bool := λ _, false.
Definition failing (st : PgStmt) : PgStmt → bool := λ st', bool_decide (st' = st).

Definition sample_calls : list PgCall := [
  {| pcOp := OpSet false "acme" "bot" "colour" "blue"; pcNonce := Some "nonce-000001"; pcFails := fine |};
  {| pcOp := OpSet false "acme" "bot" "shape" "round"; pcNonce := Some "nonce-000002"; pcFails := fine |};
  {| pcOp := OpSet false "acme" "bot" "colour" "red"; pcNonce := Some "nonce-000003"; pcFails := failing StCommit |};
  {| pcOp := OpSet false "acme" "bot" "colour" "red"; pcNonce := None; pcFails := fine |};
  {| pcOp := OpGet "acme" "bot" "colour"; pcNonce := None; pcFails := fine |};
  {| pcOp := OpDelete false "acme" "bot" "shape"; pcNonce := None; pcFails := fine |}].

Definition failing_calls : list PgCall := [
  {| pcOp := OpGet "acme" "bot" "colour"; pcNonce := None; pcFails := failing StSelect |};
  {| pcOp := OpSet false "acme" "bot" "shape" "round"; pcNonce := Some "nonce-000004"; pcFails := failing StCount |}].

Definition sample_encryptor : option Encryptor := Some {| current := sample_key "k"; previous := None |}.

Lemma kv_backends_agree_witness :
  let s0 := {| pgRows := ∅; pgMaxValue := 100; pgMaxKeys := 1; pgEnc := sample_encryptor |} in
  (trace (@pgKvStep plainAead noNul) s0 (sample_calls ++ failing_calls)).1 =
    [Some (inr None); Some (inl ErrMaxKeysExceeded); Some (inl KErrWrite); Some (inl KErrWrite); Some (inr (Some "blue")); Some (inr None);
     Some (inl KErrRead); Some (inl KErrRead)] ∧
  (trace (@pgKvStep plainAead noNul) s0 sample_calls).1 =
    (trace kvStep {| kvDir := "kv"; maxValueSize := 100; maxKeysPerAgent := 1; kvDisk := ∅ |}
       ((λ c, withFault (@writingFails noNul true c) (pcOp c)) <$> sample_calls)).1.
Proof.
  assert (HC : ∀ c, c ∈ sample_calls ++ failing_calls → @callOk noNul c).
  { intros c Hc. repeat (apply elem_of_cons in Hc as [->|Hc]; [split_and!; try done; intros n [= <-]; reflexivity|]). by apply not_elem_of_nil in Hc. }
  cbv zeta. split.
  - pose proof (@kv_backends_agree plainAead plainAead_laws noNul noNul_laws 100 1 sample_encryptor (sample_calls ++ failing_calls) "kv") as HK.
    cbv zeta in HK. match goal with |- _ = ?l =>
      assert (HE : (trace (@promised noNul (bool_decide (is_Some sample_encryptor)) 100 1) ∅ (sample_calls ++ failing_calls)).1 = l) by (vm_compute; reflexivity) end.
    destruct (trace (@pgKvStep plainAead noNul) _ _) as [answers s], (trace (@promised noNul _ 100 1) _ _) as [expected m].
    cbn [fst] in *. rewrite <- HE. by apply HK; [apply Forall_forall|..].
  - pose proof (@kv_backends_agree plainAead plainAead_laws noNul noNul_laws 100 1 sample_encryptor sample_calls "kv") as HK.
    cbv zeta in HK. destruct (trace (@pgKvStep plainAead noNul) _ _) as [answers s], (trace (@promised noNul _ 100 1) _ _) as [expected m].
    cbn [fst]. apply HK; [|done|done|].
    + apply Forall_forall. intros c Hc. apply HC. apply elem_of_app. by left.
    + apply Forall_forall. intros c Hc st Hst. repeat (apply elem_of_cons in Hc as [->|Hc]; [by set_unfold in Hst; naive_solver|]). by apply not_elem_of_nil in Hc.
Defined.

(** Without encryption a value with a byte 0 is refused, which the file store keeps. *)
Example nul_values_differ : let op := OpSet false "acme" "bot" "blob" (String "000" "") in
  (@pgKvStep plainAead noNul {| pcOp := op; pcNonce := None; pcFails := fine |}
     {| pgRows := ∅; pgMaxValue := 100; pgMaxKeys := 1; pgEnc := None |}).1 = Some (inl KErrWrite) ∧
  (kvStep op {| kvDir := "kv"; maxValueSize := 100; maxKeysPerAgent := 1; kvDisk := ∅ |}).1 = Some (inr None).
Proof. vm_compute. done. Qed.

Lemma key_rotation_witness :
  @Decrypt plainAead (Some {| current := sample_key "n"; previous := Some (sample_key "o") |})
    ("nonce-000001" +:+ (sample_key "o" +:+ "nonce-000001" +:+ "acme") +:+ "secret") "acme" = Some "secret".
Proof.
  apply (@key_rotation plainAead plainAead_laws {| current := sample_key "o"; previous := None |} (sample_key "n") "nonce-000001");
    vm_compute; reflexivity.
Defined.

Definition sample_history : list Memory.MemOp := [
  Memory.MAppend false "acme" "bot" [Chat.stored "user" "hi"; Chat.stored "assistant" "hello"] 10;
  Memory.MAppend false "acme" "other" [Chat.stored "user" "who"] 10; Memory.MClear true "acme" "bot";
  Memory.MAppend false "acme" "bot" [Chat.stored "user" "bye"] 20].

(** A column that takes what decodes as tool calls, unchanged. *)
Definition decodesJsonb : Memory.PgJsonb := λ t, match t with Chat.RawGarbled => None | t => Some t end.

Lemma memory_backends_agree_witness : ∃ recent,
  Chat.GetRecent false "acme" "bot" 2 100
    (foldl Memory.fileStep {| Chat.dataDir := "data"; Chat.memFiles := ∅ |} sample_history) = inr recent ∧
  recent = [Chat.stored "assistant" "hello"; Chat.stored "user" "bye"] ∧
  @Memory.PgGetRecent noNul mergeSlice false "acme" "bot" 2 100
    (foldl (@Memory.memStep noNul decodesJsonb) {| Memory.memRows := []; Memory.nextID := 1 |} sample_history) = inr recent.
Proof.
  destruct (@Memory.memory_backends_agree noNul decodesJsonb "data" [] ltac:(repeat constructor) mergeSlice mergeSlice_laws "acme" "bot" sample_history 2 100 0)
    as (recent & H1 & H2); [reflexivity|reflexivity|reflexivity|reflexivity|by repeat (constructor; eauto)|cbn; lia|left; lia|].
  exists recent. assert (HE : recent = [Chat.stored "assistant" "hello"; Chat.stored "user" "bye"]).
  { clear H2. match type of H1 with ?x = _ => assert (HE : x = inr [Chat.stored "assistant" "hello"; Chat.stored "user" "bye"]) by (vm_compute; reflexivity) end.
    rewrite HE in H1. by injection H1 as <-. }
  split; [exact H1|]. split; [exact HE|]. subst recent. exact H2.
Defined.

(** A message with a byte 0 is refused, with all that are appended with it, where the file
    store keeps them. *)
Example nul_messages_differ : let op := Memory.MAppend false "acme" "bot" [Chat.stored "user" (String "000" "")] 10 in
  Memory.memRows (@Memory.memStep noNul decodesJsonb {| Memory.memRows := []; Memory.nextID := 1 |} op) = [] ∧
  Chat.GetRecent false "acme" "bot" 10 0 (Memory.fileStep {| Chat.dataDir := "data"; Chat.memFiles := ∅ |} op) = inr [Chat.stored "user" (String "000" "")].
Proof. vm_compute. done. Qed.
