(* ===== verification/AgentMemory.v ===== *)
(** * What agents remember: the table agent_memory and the MCP tools over it

    internal/storage/postgres/agentmemory.go and mcp/tools/memory.go.  The rows are a map
    by their primary key; [LIKE] is written out on bytes (UTF-8 text); the database's
    [lower] and [similarity] are arguments.  Instants are those of the columns, sizes
    far below 2^63.  The theorems: agents do not see or disturb one another, the quota
    holds, what is recalled is what was stored last, and what a thread returns. *)
From S2P Require Import Prelude GoTime GoPath GoStrings.
From S2P Require McpStores Mcp.
From Stdlib Require Import QArith.Qcanon.
Open Scope Z_scope.

(** ** Patterns *)

Inductive LikeElem := LLit (c : ascii) | LOne | LMany.

(** A backslash takes the next character literally.  One at the end would be an error;
    every pattern of this file ends in a percent sign. *)
Fixpoint parseLike (p : string) : list LikeElem :=
  match p with
  | "" => []
  | String "\" (String c p) => LLit c :: parseLike p
  | String "%" p => LMany :: parseLike p
  | String "_" p => LOne :: parseLike p
  | String c p => LLit c :: parseLike p
  end.

Definition continuation (c : ascii) : bool :=
  let n := Z.of_nat (nat_of_ascii c) in bool_decide (128 <= n < 192).

Fixpoint dropContinuation (s : string) : string :=
  match s with
  | String c s' => if continuation c then dropContinuation s' else s
  | "" => ""
  end.

(** [%] is tried at every character, [_] takes one. *)
Fixpoint likeMatch (p : list LikeElem) : string → bool :=
  match p with
  | [] => λ t, bool_decide (t = "")
  | LLit c :: p => λ t, match t with String d t => bool_decide (c = d) && likeMatch p t | "" => false end
  | LOne :: p => λ t, match t with String _ t => likeMatch p (dropContinuation t) | "" => false end
  | LMany :: p => fix any (t : string) : bool :=
      match t with
      | "" => likeMatch p ""
      | String c t' => (negb (continuation c) && likeMatch p t) || any t'
      end
  end.

Definition like (pattern t : string) : bool := likeMatch (parseLike pattern) t.

Class Lower := lower : string → string.

Definition ilike `{Lower} (pattern t : string) : bool := like (lower pattern) (lower t).

Class Similarity := similarity : string → string → Qc.

(** ** The store *)

Definition DefaultMemoryQuotaBytes : Z := 100 * 1024 * 1024.

Record MemoryEntry := {
  Key : string; Value : string; Metadata : option (gmap string string);
  CreatedAt : Time; ExpiresAt : option Time; SizeBytes : Z
}.

(** The columns besides the primary key (agent_id, tenant_id, key). *)
Record MemoryRow := {
  rowValue : string; rowMetadata : option (gmap string string); rowSize : Z;
  rowCreated : Time; rowUpdated : Time; rowExpires : option Time
}.

Abbreviation MemoryTable := (gmap (string * string * string) MemoryRow).

Record PostgresAgentMemoryStore := { db : MemoryTable; quota : Z }.

Definition NewPostgresAgentMemoryStore (db : MemoryTable) (quota : Z) : PostgresAgentMemoryStore :=
  {| db := db; quota := if bool_decide (quota <= 0) then DefaultMemoryQuotaBytes else quota |}.

Inductive MemoryError :=
  | FieldEmpty (field : string) | CheckQuota | CheckExisting | QuotaExceeded (used new limit : Z) | UpsertFailed
  | ReadFailed | DeleteFailed.

(** Which statement of an operation fails. *)
Inductive Fault := Fine | FirstFails | SecondFails | WriteFails.

#[global] Instance Fault_eq_dec : EqDecision Fault.
Proof. solve_decision. Defined.

(** The checks at the head of every operation. *)
Fixpoint emptyField (fields : list (string * string)) : option MemoryError :=
  match fields with
  | [] => None
  | (name, v) :: fields => if decide (v = "") then Some (FieldEmpty name) else emptyField fields
  end.

Definition namespace (agentID tenantID : string) : MemoryTable → MemoryTable :=
  filter (λ kv, kv.1.1 = (agentID, tenantID)).

Definition usage (rows : MemoryTable) : Z := foldr Z.add 0 ((λ kv, rowSize kv.2) <$> map_to_list rows).

Definition GetUsage (fault : Fault) (agentID tenantID : string) (s : PostgresAgentMemoryStore) : MemoryError + Z :=
  match emptyField [("agent_id", agentID); ("tenant_id", tenantID)] with
  | Some e => inl e
  | None => if decide (fault = FirstFails) then inl ReadFailed else inr (usage (namespace agentID tenantID (db s)))
  end.

Definition setDB (d : MemoryTable) (s : PostgresAgentMemoryStore) : PostgresAgentMemoryStore := {| db := d; quota := quota s |}.

(** [size_bytes] is a 32-bit column. *)
Definition Store (fault : Fault) (now : Time) (agentID tenantID key value : string) (ttl : Z)
    (metadata : option (gmap string string)) (s : PostgresAgentMemoryStore) : option MemoryError * PostgresAgentMemoryStore :=
  match emptyField [("agent_id", agentID); ("tenant_id", tenantID); ("key", key)] with
  | Some e => (Some e, s)
  | None =>
      let sizeBytes := Z.of_nat (String.length value) in
      match GetUsage fault agentID tenantID s with
      | inl _ => (Some CheckQuota, s)
      | inr currentUsage =>
          if decide (fault = SecondFails) then (Some CheckExisting, s)
          else
            let existing := db s !! (agentID, tenantID, key) in
            let existingSize := match existing with Some row => rowSize row | None => 0 end in
            let netUsage := currentUsage - existingSize + sizeBytes in
            if bool_decide (quota s < netUsage) then (Some (QuotaExceeded (currentUsage - existingSize) sizeBytes (quota s)), s)
            else
              let expiresAt := if bool_decide (0 < ttl) then Some (now + ttl) else None in
              if decide (fault = WriteFails ∨ 2 ^ 31 <= sizeBytes) then (Some UpsertFailed, s)
              else (None, setDB (<[(agentID, tenantID, key) := {|
                      rowValue := value; rowMetadata := metadata; rowSize := sizeBytes;
                      rowCreated := match existing with Some row => rowCreated row | None => now end;
                      rowUpdated := now; rowExpires := expiresAt |}]> (db s)) s)
      end
  end.

Definition entryOf (key : string) (row : MemoryRow) : MemoryEntry := {|
  Key := key; Value := rowValue row; Metadata := rowMetadata row; CreatedAt := rowCreated row;
  ExpiresAt := rowExpires row; SizeBytes := rowSize row
|}.

Definition Recall (fault : Fault) (now : Time) (agentID tenantID key : string) (s : PostgresAgentMemoryStore) :
    MemoryError + option MemoryEntry :=
  match emptyField [("agent_id", agentID); ("tenant_id", tenantID); ("key", key)] with
  | Some e => inl e
  | None =>
      if decide (fault = FirstFails) then inl ReadFailed
      else match db s !! (agentID, tenantID, key) with
      | None => inr None
      | Some row =>
          match rowExpires row with
          | Some e => if bool_decide (e < now) then inr None else inr (Some (entryOf key row))
          | None => inr (Some (entryOf key row))
          end
      end
  end.

(** [expires_at IS NULL OR expires_at > NOW()]. *)
Definition live (now : Time) (row : MemoryRow) : bool :=
  match rowExpires row with None => true | Some e => bool_decide (now < e) end.

Definition capped (def limit : Z) : nat :=
  let limit := if bool_decide (limit <= 0) then def else limit in Z.to_nat (if bool_decide (100 < limit) then 100 else limit).

(** A query on the rows of an agent: a condition, an order, a limit. *)
Definition selectRows `{SliceSort} (now : Time) (rows : MemoryTable) (cond : string → MemoryRow → bool)
    (R : relation (string * MemoryRow)) `{∀ x y, Decision (R x y)} (limit : nat) : list MemoryEntry :=
  (λ kr, entryOf kr.1 kr.2) <$>
    take limit (sortSlice R ((λ kv, (kv.1.2, kv.2)) <$> map_to_list (filter (λ kv, live now kv.2 && cond kv.1.2 kv.2 = true) rows))).

Definition recentlyUpdated (x y : string * MemoryRow) : Prop := rowUpdated y.2 <= rowUpdated x.2.
Definition createdFirst (x y : string * MemoryRow) : Prop := rowCreated x.2 <= rowCreated y.2.

#[global] Instance recentlyUpdated_dec x y : Decision (recentlyUpdated x y).
Proof. unfold recentlyUpdated. apply _. Defined.

#[global] Instance createdFirst_dec x y : Decision (createdFirst x y).
Proof. unfold createdFirst. apply _. Defined.

Definition Search `{SliceSort, Lower} (fault : Fault) (now : Time) (agentID tenantID query : string) (limit : Z)
    (s : PostgresAgentMemoryStore) : MemoryError + list MemoryEntry :=
  match emptyField [("agent_id", agentID); ("tenant_id", tenantID); ("query", query)] with
  | Some e => inl e
  | None =>
      let pattern := "%" +:+ query +:+ "%" in
      if decide (fault = FirstFails) then inl ReadFailed
      else inr (selectRows now (namespace agentID tenantID (db s)) (λ key row, ilike pattern key || ilike pattern (rowValue row))
                  recentlyUpdated (capped 10 limit))
  end.

Definition GetThread `{SliceSort} (fault : Fault) (now : Time) (agentID tenantID threadID : string) (limit : Z)
    (s : PostgresAgentMemoryStore) : MemoryError + list MemoryEntry :=
  match emptyField [("agent_id", agentID); ("tenant_id", tenantID); ("thread_id", threadID)] with
  | Some e => inl e
  | None =>
      let prefix := "thread:" +:+ threadID +:+ ":%" in
      if decide (fault = FirstFails) then inl ReadFailed
      else inr (selectRows now (namespace agentID tenantID (db s)) (λ key _, like prefix key) createdFirst (capped 50 limit))
  end.

Definition score `{Similarity} (query key : string) (row : MemoryRow) : Qc :=
  let a := similarity key query in let b := similarity (rowValue row) query in if decide (a <= b)%Qc then b else a.

Definition moreSimilar `{Similarity} (query : string) (x y : string * MemoryRow) : Prop :=
  (score query y.1 y.2 <= score query x.1 x.2)%Qc.

#[global] Instance moreSimilar_dec `{Similarity} query x y : Decision (moreSimilar query x y).
Proof. unfold moreSimilar. apply _. Defined.

Definition threshold : Qc := Q2Qc (1 # 10).

Definition SemanticSearch `{SliceSort, Similarity} (fault : Fault) (now : Time) (agentID tenantID query : string) (limit : Z)
    (s : PostgresAgentMemoryStore) : MemoryError + list MemoryEntry :=
  match emptyField [("agent_id", agentID); ("tenant_id", tenantID); ("query", query)] with
  | Some e => inl e
  | None =>
      if decide (fault = FirstFails) then inl ReadFailed
      else inr (selectRows now (namespace agentID tenantID (db s))
                  (λ key row, bool_decide (threshold < similarity key query)%Qc || bool_decide (threshold < similarity (rowValue row) query)%Qc)
                  (moreSimilar query) (capped 10 limit))
  end.

Definition Delete (fault : Fault) (agentID tenantID key : string) (s : PostgresAgentMemoryStore) :
    option MemoryError * PostgresAgentMemoryStore :=
  match emptyField [("agent_id", agentID); ("tenant_id", tenantID); ("key", key)] with
  | Some e => (Some e, s)
  | None => if decide (fault = Fine) then (None, setDB (delete (agentID, tenantID, key) (db s)) s) else (Some DeleteFailed, s)
  end.

(** ** The tools (mcp/tools/memory.go) *)

Record memoryStoreInput := {
  inKey : string; inValue : string; inTTLSeconds : option Z; inMetadata : option (gmap string string)
}.
Record memoryRecallInput := {
  reKey : option string; reQuery : option string; reLimit : option Z; reSemantic : option bool
}.
Record getThreadInput := { thID : string; thLimit : option Z }.

Inductive ToolAnswer :=
  | MemStored (key : string) (size : Z) | Recalled (entries : list MemoryEntry) | ThreadMessages (id : string) (entries : list MemoryEntry).

Inductive ToolFailure :=
  | InvalidParameters | Missing (field : string) | NeedsKeyOrQuery | MissingAuthContext | Failed (e : MemoryError).

(** [time.Duration(n) * time.Second] in 64 bits. *)
Definition ttlOf (seconds : option Z) : Z :=
  match seconds with Some n => if bool_decide (0 < n) then int64_wrap (n * Second) else 0 | None => 0 end.

Definition present (v : option string) : bool := match v with Some v => bool_decide (v ≠ "") | None => false end.

Definition limitOf (def : Z) (limit : option Z) : Z :=
  match limit with Some n => if bool_decide (0 < n) then n else def | None => def end.

(** The parameters as decoded, or [None] when they do not decode. *)
Definition memoryStoreHandler (ctx : option Mcp.MCPAuthContext) (fault : Fault) (now : Time) (params : option memoryStoreInput)
    (s : PostgresAgentMemoryStore) : (ToolFailure + ToolAnswer) * PostgresAgentMemoryStore :=
  match params with
  | None => (inl InvalidParameters, s)
  | Some input =>
      if decide (inKey input = "") then (inl (Missing "key"), s)
      else if decide (inValue input = "") then (inl (Missing "value"), s)
      else match ctx with
      | None => (inl MissingAuthContext, s)
      | Some ac =>
          match Store fault now (Mcp.mAgentID ac) (Mcp.mTenantID ac) (inKey input) (inValue input)
                  (ttlOf (inTTLSeconds input)) (inMetadata input) s with
          | (Some e, s) => (inl (Failed e), s)
          | (None, s) => (inr (MemStored (inKey input) (Z.of_nat (String.length (inValue input)))), s)
          end
      end
  end.

Section tools.
Context `{SliceSort, Lower, Similarity}.

Definition memoryRecallHandler (ctx : option Mcp.MCPAuthContext) (fault : Fault) (now : Time) (params : option memoryRecallInput)
    (s : PostgresAgentMemoryStore) : ToolFailure + ToolAnswer :=
  match params with
  | None => inl InvalidParameters
  | Some input =>
      let hasKey := present (reKey input) in
      let hasQuery := present (reQuery input) in
      if negb hasKey && negb hasQuery then inl NeedsKeyOrQuery
      else match ctx with
      | None => inl MissingAuthContext
      | Some ac =>
          let limit := limitOf 10 (reLimit input) in
          let entries :=
            if hasKey then
              match Recall fault now (Mcp.mAgentID ac) (Mcp.mTenantID ac) (default "" (reKey input)) s with
              | inl e => inl e
              | inr entry => inr (option_list entry)
              end
            else if default false (reSemantic input) then
              SemanticSearch fault now (Mcp.mAgentID ac) (Mcp.mTenantID ac) (default "" (reQuery input)) limit s
            else Search fault now (Mcp.mAgentID ac) (Mcp.mTenantID ac) (default "" (reQuery input)) limit s
          in
          match entries with inl e => inl (Failed e) | inr entries => inr (Recalled entries) end
      end
  end.

Definition getThreadHandler (ctx : option Mcp.MCPAuthContext) (fault : Fault) (now : Time) (params : option getThreadInput)
    (s : PostgresAgentMemoryStore) : ToolFailure + ToolAnswer :=
  match params with
  | None => inl InvalidParameters
  | Some input =>
      if decide (thID input = "") then inl (Missing "thread_id")
      else match ctx with
      | None => inl MissingAuthContext
      | Some ac =>
          match GetThread fault now (Mcp.mAgentID ac) (Mcp.mTenantID ac) (thID input) (limitOf 50 (thLimit input)) s with
          | inl e => inl (Failed e)
          | inr entries => inr (ThreadMessages (thID input) entries)
          end
      end
  end.

(** A call of one of the three tools by whoever the context names. *)
Inductive MemoryCall := CallStore (i : option memoryStoreInput) | CallRecall (i : option memoryRecallInput) | CallThread (i : option getThreadInput).

Record Call := { caller : option Mcp.MCPAuthContext; callFault : Fault; callTime : Time; call : MemoryCall }.

Definition memoryTool (c : Call) (s : PostgresAgentMemoryStore) : (ToolFailure + ToolAnswer) * PostgresAgentMemoryStore :=
  match call c with
  | CallStore i => memoryStoreHandler (caller c) (callFault c) (callTime c) i s
  | CallRecall i => (memoryRecallHandler (caller c) (callFault c) (callTime c) i s, s)
  | CallThread i => (getThreadHandler (caller c) (callFault c) (callTime c) i s, s)
  end.
End tools.

(** ** Lemmas *)

#[global] Instance MCPAuthContext_eq_dec : EqDecision Mcp.MCPAuthContext.
Proof. solve_decision. Defined.

Lemma namespace_lookup a t k d : namespace a t d !! (a, t, k) = d !! (a, t, k).
Proof. unfold namespace. destruct (d !! (a, t, k)) as [row|] eqn:E; [by apply map_lookup_filter_Some|apply map_lookup_filter_None; by left]. Qed.

Lemma namespace_insert a t a' t' k row d :
  namespace a t (<[(a', t', k) := row]> d) = if decide ((a', t') = (a, t)) then <[(a', t', k) := row]> (namespace a t d) else namespace a t d.
Proof.
  unfold namespace. case_decide as He; [by apply map_filter_insert_True|]. rewrite map_filter_insert_False by done.
  apply map_filter_delete_not. intros y _ ?. by apply He.
Qed.

Lemma usage_insert rows ak row :
  usage (<[ak := row]> rows) = usage rows - match rows !! ak with Some r => rowSize r | None => 0 end + rowSize row.
Proof.
  assert (HN : ∀ m : MemoryTable, m !! ak = None → usage (<[ak := row]> m) = usage m + rowSize row).
  { intros m Hm. unfold usage. rewrite (foldr_permutation_proper' eq Z.add 0 _ ((λ kv, rowSize kv.2) <$> (ak, row) :: map_to_list m)).
    - cbn [fmap list_fmap foldr snd]. lia.
    - apply fmap_Permutation. by apply map_to_list_insert. }
  destruct (rows !! ak) as [r|] eqn:E; [|rewrite HN by done; lia].
  rewrite <- (insert_delete_id rows ak r) at 2 by done. rewrite <- insert_delete_eq. rewrite HN by apply lookup_delete_eq.
  unfold usage at 2. rewrite (foldr_permutation_proper' eq Z.add 0 _ ((λ kv, rowSize kv.2) <$> (ak, r) :: map_to_list (delete ak rows))).
  - cbn [fmap list_fmap foldr snd]. unfold usage. lia.
  - apply fmap_Permutation. apply map_to_list_insert, lookup_delete_eq.
Qed.

(** What a store does to the rows of an agent, given those rows alone. *)
Lemma Store_frame f now a t k v ttl m s a' t' : (a', t') ≠ (a, t) →
  namespace a' t' (db (Store f now a t k v ttl m s).2) = namespace a' t' (db s).
Proof.
  intros Hne. unfold Store. destruct (emptyField _); [done|]. cbv zeta. destruct (GetUsage _ _ _ _); [done|].
  destruct (decide _); [done|]. destruct (bool_decide _); [done|]. destruct (decide _); [done|].
  cbn [snd db setDB]. rewrite namespace_insert. rewrite decide_False; [done|]. congruence.
Qed.

Lemma Store_view f now a t k v ttl m s s' : namespace a t (db s) = namespace a t (db s') → quota s = quota s' →
  (Store f now a t k v ttl m s).1 = (Store f now a t k v ttl m s').1 ∧
  namespace a t (db (Store f now a t k v ttl m s).2) = namespace a t (db (Store f now a t k v ttl m s').2).
Proof.
  intros Hv Hq. assert (HK : db s !! (a, t, k) = db s' !! (a, t, k)) by (by rewrite <- (namespace_lookup a t k (db s)), <- (namespace_lookup a t k (db s')), Hv).
  unfold Store, GetUsage. destruct (emptyField [("agent_id", a); ("tenant_id", t); ("key", k)]); [done|]. destruct (emptyField _); [done|].
  cbv zeta. rewrite Hv, Hq, HK. destruct (decide (f = FirstFails)); [done|]. destruct (decide (f = SecondFails)); [done|].
  destruct (bool_decide _); [done|]. destruct (decide (f = WriteFails ∨ _)); [done|]. split; [done|].
  cbn [snd db setDB]. rewrite !namespace_insert, !decide_True by done. by rewrite Hv.
Qed.

Lemma Store_quota f now a t k v ttl m s : quota (Store f now a t k v ttl m s).2 = quota s.
Proof. unfold Store. repeat first [case_match | case_decide | case_bool_decide | done]. Qed.

Section history.
Context `{SliceSort, Lower, Similarity}.

Lemma memoryTool_other c ac s : caller c ≠ Some ac →
  namespace (Mcp.mAgentID ac) (Mcp.mTenantID ac) (db (memoryTool c s).2) = namespace (Mcp.mAgentID ac) (Mcp.mTenantID ac) (db s) ∧
  quota (memoryTool c s).2 = quota s.
Proof.
  intros Hc. destruct c as [ctx f now [[i|]|i|i]]; cbn [memoryTool call caller] in *; try done. unfold memoryStoreHandler. cbn [caller callFault callTime].
  destruct (decide _); [done|]. destruct (decide _); [done|]. destruct ctx as [ac'|]; [|done].
  match goal with |- context [Store ?f ?n ?a ?t ?k ?v ?ttl ?m s] =>
    pose proof (Store_frame f n a t k v ttl m s (Mcp.mAgentID ac) (Mcp.mTenantID ac)) as HF; pose proof (Store_quota f n a t k v ttl m s) as HQ;
    destruct (Store f n a t k v ttl m s) as [[e|] s'] end; cbn in *; (split; [|done]); apply HF; destruct ac, ac'; cbn; congruence.
Qed.

Lemma memoryTool_own c ac s s' : caller c = Some ac → quota s = quota s' →
  namespace (Mcp.mAgentID ac) (Mcp.mTenantID ac) (db s) = namespace (Mcp.mAgentID ac) (Mcp.mTenantID ac) (db s') →
  (memoryTool c s).1 = (memoryTool c s').1 ∧ quota (memoryTool c s).2 = quota (memoryTool c s').2 ∧
  namespace (Mcp.mAgentID ac) (Mcp.mTenantID ac) (db (memoryTool c s).2) = namespace (Mcp.mAgentID ac) (Mcp.mTenantID ac) (db (memoryTool c s').2).
Proof.
  intros Hc Hq Hv. destruct c as [ctx f now [[i|]|[i|]|[i|]]]; cbn [memoryTool call caller callFault callTime] in *; subst ctx; try done.
  - unfold memoryStoreHandler. destruct (decide _); [done|]. destruct (decide _); [done|].
    match goal with |- context [Store ?f ?n ?a ?t ?k ?v ?ttl ?m s] =>
      pose proof (Store_view f n a t k v ttl m s s' Hv Hq) as HF; pose proof (Store_quota f n a t k v ttl m s) as HQ; pose proof (Store_quota f n a t k v ttl m s') as HQ';
      destruct (Store f n a t k v ttl m s) as [e1 s1], (Store f n a t k v ttl m s') as [e2 s2] end.
    cbn [fst snd] in HF, HQ, HQ'. destruct HF as [-> HF]. destruct e2; cbn [fst snd]; (split; [done|]); (split; [congruence|done]).
  - split; [|done]. unfold memoryRecallHandler, Recall, SemanticSearch, Search. rewrite Hv. cbn [fst].
    rewrite <- (namespace_lookup _ _ _ (db s)), <- (namespace_lookup _ _ _ (db s')), Hv. done.
  - split; [|done]. unfold getThreadHandler, GetThread. by rewrite Hv.
Qed.

(** The answers that one identity gets in a history. *)
Definition answersTo (ac : Mcp.MCPAuthContext) (s : PostgresAgentMemoryStore) (calls : list Call) : list (ToolFailure + ToolAnswer) :=
  (filter (λ ca, caller ca.1 = Some ac) (zip calls (trace memoryTool s calls).1)).*2.

(** Agents do not see one another's memories: in every history of calls, the answers an
    identity (an agent of a tenant) gets to its stores, recalls, searches and threads are
    those it would get if nobody else had ever called. *)
Theorem memories_isolated (ac : Mcp.MCPAuthContext) (s : PostgresAgentMemoryStore) (calls : list Call) :
  answersTo ac s calls = (trace memoryTool s (filter (λ c, caller c = Some ac) calls)).1.
Proof.
  assert (HG : ∀ s', quota s = quota s' → namespace (Mcp.mAgentID ac) (Mcp.mTenantID ac) (db s) = namespace (Mcp.mAgentID ac) (Mcp.mTenantID ac) (db s') →
    answersTo ac s calls = (trace memoryTool s' (filter (λ c, caller c = Some ac) calls)).1); [|by apply HG].
  unfold answersTo. revert s. induction calls as [|c calls IH]; intros s s' Hq Hv; [done|]. rewrite trace_cons_answers. cbn [zip zip_with].
  rewrite !filter_cons. cbn [fst]. destruct (decide (caller c = Some ac)) as [Hc|Hc].
  - rewrite trace_cons_answers. destruct (memoryTool_own c ac s s' Hc Hq Hv) as (Ha & Hq' & Hv'). cbn [fmap list_fmap snd]. rewrite Ha. f_equal. by apply IH.
  - destruct (memoryTool_other c ac s Hc) as [Hv' Hq']. apply IH; congruence.
Qed.

(** *** The quota *)

Record memoryOk (s : PostgresAgentMemoryStore) : Prop := {
  ok_sizes key row : db s !! key = Some row → rowSize row = Z.of_nat (String.length (rowValue row)) ∧ rowSize row < 2 ^ 31;
  ok_quota a t : usage (namespace a t (db s)) <= quota s
}.

Lemma Store_ok f now a t k v ttl m s : memoryOk s → memoryOk (Store f now a t k v ttl m s).2.
Proof.
  intros [Hs Hq]. unfold Store, GetUsage. destruct (emptyField _); [done|]. destruct (emptyField _); [done|]. cbv zeta.
  destruct (decide (f = FirstFails)); [done|]. destruct (decide (f = SecondFails)); [done|]. case_bool_decide as Hle; [done|].
  destruct (decide (f = WriteFails ∨ _)) as [|Hf]; [done|]. cbn [snd]. split; cbn [db setDB quota].
  - intros key row. rewrite lookup_insert_Some. intros [[_ <-]|[_ Hr]]; [|by apply (Hs key)]. cbn [rowSize rowValue]. split; [done|]. lia.
  - intros a' t'. rewrite namespace_insert. case_decide as He; [|done]. injection He as <- <-. rewrite usage_insert, namespace_lookup. cbn [rowSize]. lia.
Qed.

Lemma memoryTool_ok c s : memoryOk s → memoryOk (memoryTool c s).2.
Proof.
  intros Hok. destruct c as [ctx f now [[i|]|i|i]]; cbn [memoryTool call]; try done. unfold memoryStoreHandler. cbn [caller callFault callTime].
  destruct (decide _); [done|]. destruct (decide _); [done|]. destruct ctx as [ac|]; [|done].
  match goal with |- context [Store ?f ?n ?a ?t ?k ?v ?ttl ?m s] => pose proof (Store_ok f n a t k v ttl m s Hok) as HO; destruct (Store f n a t k v ttl m s) as [[]] end; exact HO.
Qed.

Lemma memoryOk_empty q : memoryOk (NewPostgresAgentMemoryStore ∅ q).
Proof.
  split; [done|]. intros a t. unfold namespace, NewPostgresAgentMemoryStore. cbn [db quota]. rewrite map_filter_empty. unfold usage. rewrite map_to_list_empty. cbn.
  unfold DefaultMemoryQuotaBytes. case_bool_decide; lia.
Qed.

(** The quota of an agent: after any history of calls the bytes of its values are within
    it, the recorded sizes are those of the values, and a store without a failing statement is
    refused for the quota exactly when the new value in place of the old one does not fit. *)
Theorem memory_quota_exact (q : Z) (calls : list Call) (ac : Mcp.MCPAuthContext) (now : Time) (i : memoryStoreInput) :
  Mcp.mAgentID ac ≠ "" → Mcp.mTenantID ac ≠ "" → inKey i ≠ "" → inValue i ≠ "" → Z.of_nat (String.length (inValue i)) < 2 ^ 31 →
  let s := (trace memoryTool (NewPostgresAgentMemoryStore ∅ q) calls).2 in
  let rows := namespace (Mcp.mAgentID ac) (Mcp.mTenantID ac) (db s) in
  let used := usage (delete (Mcp.mAgentID ac, Mcp.mTenantID ac, inKey i) rows) in
  let size := Z.of_nat (String.length (inValue i)) in
  memoryOk s ∧
  (memoryTool {| caller := Some ac; callFault := Fine; callTime := now; call := CallStore (Some i) |} s).1 =
    if bool_decide (used + size <= quota s) then inr (MemStored (inKey i) size) else inl (Failed (QuotaExceeded used size (quota s))).
Proof.
  intros Ha Ht Hk Hv Hlt s rows used size. assert (Hok : memoryOk s).
  { apply trace_invariant; [|apply memoryOk_empty]. intros c s' _. apply memoryTool_ok. }
  split; [done|]. cbn [memoryTool call caller callFault callTime]. unfold memoryStoreHandler, Store, GetUsage, emptyField.
  do 7 rewrite decide_False by done. cbv zeta. rewrite !decide_False by done.
  assert (HU : used = usage rows - match db s !! (Mcp.mAgentID ac, Mcp.mTenantID ac, inKey i) with Some r => rowSize r | None => 0 end).
  { unfold used. rewrite <- (namespace_lookup _ _ _ (db s)). fold rows. destruct (rows !! _) as [r|] eqn:E; [|rewrite delete_id by done; lia].
    pose proof (usage_insert (delete (Mcp.mAgentID ac, Mcp.mTenantID ac, inKey i) rows) (Mcp.mAgentID ac, Mcp.mTenantID ac, inKey i) r) as HI.
    rewrite insert_delete_eq, insert_id, lookup_delete_eq in HI by done. lia. }
  fold rows. rewrite <- HU. fold size. destruct (decide (used + size <= quota s)).
  - rewrite (bool_decide_false (quota s < _)), (bool_decide_true (_ <= quota s)) by lia. rewrite decide_False by (intros [?|?]; [done|lia]). done.
  - rewrite (bool_decide_true (quota s < _)), (bool_decide_false (_ <= quota s)) by lia. done.
Qed.

(** *** Recalling *)

(** What an identity's acknowledged stores of a key leave, whether or not it has expired:
    the last value, and the time of the first. *)
Definition remember (ac : Mcp.MCPAuthContext) (key : string) (e : option MemoryEntry) (ca : Call * (ToolFailure + ToolAnswer)) : option MemoryEntry :=
  match call ca.1, ca.2 with
  | CallStore (Some i), inr _ =>
      if decide (caller ca.1 = Some ac ∧ inKey i = key) then
        let ttl := ttlOf (inTTLSeconds i) in
        Some {| Key := key; Value := inValue i; Metadata := inMetadata i;
                CreatedAt := match e with Some e => CreatedAt e | None => callTime ca.1 end;
                ExpiresAt := if bool_decide (0 < ttl) then Some (callTime ca.1 + ttl) else None;
                SizeBytes := Z.of_nat (String.length (inValue i)) |}
      else e
  | _, _ => e
  end.

Lemma memoryTool_remember c ac key s :
  entryOf key <$> db (memoryTool c s).2 !! (Mcp.mAgentID ac, Mcp.mTenantID ac, key) =
  remember ac key (entryOf key <$> db s !! (Mcp.mAgentID ac, Mcp.mTenantID ac, key)) (c, (memoryTool c s).1).
Proof.
  destruct c as [ctx f now [[i|]|i|i]]; unfold remember; cbn [memoryTool call fst snd caller callTime]; try done.
  unfold memoryStoreHandler. cbn [caller callFault callTime].
  destruct (decide (inKey i = "")); [done|]. destruct (decide _); [done|]. destruct ctx as [ac'|]; [|done].
  unfold Store, GetUsage. destruct (emptyField _); [done|]. destruct (emptyField _); [done|]. cbv zeta.
  destruct (decide (f = FirstFails)); [done|]. destruct (decide (f = SecondFails)); [done|]. destruct (bool_decide (quota s < _)); [done|].
  destruct (decide (f = WriteFails ∨ _)); [done|]. cbn [fst snd db setDB].
  destruct (decide (Some ac' = Some ac ∧ inKey i = key)) as [[He <-]|Hn].
  - injection He as ->. rewrite lookup_insert_eq. cbn [fmap option_fmap option_map]. unfold entryOf. cbn [rowValue rowMetadata rowCreated rowExpires rowSize].
    do 2 f_equal. by destruct (db s !! _).
  - rewrite lookup_insert_ne; [done|]. intros He. apply Hn. destruct ac, ac'. cbn in *. split; congruence.
Qed.

(** What is recalled is what was stored last: after any history of calls by anyone, an
    exact recall that reaches the database answers the last acknowledged value of that key
    by that same identity, with the time of its first store, unless its time to live is
    over by then; nothing else makes a memory appear or vanish. *)
Theorem memory_recall_exact (q : Z) (calls : list Call) (ac : Mcp.MCPAuthContext) (key : string) (now : Time) (i : memoryRecallInput) :
  Mcp.mAgentID ac ≠ "" → Mcp.mTenantID ac ≠ "" → key ≠ "" → reKey i = Some key →
  let '(answers, s) := trace memoryTool (NewPostgresAgentMemoryStore ∅ q) calls in
  let stored := foldl (remember ac key) None (zip calls answers) in
  let alive e := match ExpiresAt e with Some t => bool_decide (now <= t) | None => true end in
  (memoryTool {| caller := Some ac; callFault := Fine; callTime := now; call := CallRecall (Some i) |} s).1 =
    inr (Recalled (match stored with Some e => if alive e then [e] else [] | None => [] end)).
Proof.
  intros Ha Ht Hk Hi.
  assert (HG : ∀ calls s, entryOf key <$> db (trace memoryTool s calls).2 !! (Mcp.mAgentID ac, Mcp.mTenantID ac, key) =
    foldl (remember ac key) (entryOf key <$> db s !! (Mcp.mAgentID ac, Mcp.mTenantID ac, key)) (zip calls (trace memoryTool s calls).1)).
  { clear -H. intros cs. induction cs as [|c cs IH]; intros s; [done|]. rewrite trace_cons, trace_cons_answers. cbn [zip zip_with foldl].
    rewrite IH. f_equal. apply memoryTool_remember. }
  specialize (HG calls (NewPostgresAgentMemoryStore ∅ q)). destruct (trace memoryTool _ calls) as [answers s]. cbn [fst snd] in HG.
  cbv zeta. cbn [memoryTool call caller callFault callTime fst]. unfold memoryRecallHandler, present. rewrite Hi.
  rewrite (bool_decide_true (key ≠ "")) by done. cbn [negb andb default]. unfold Recall, emptyField. do 4 rewrite decide_False by done.
  cbn [db NewPostgresAgentMemoryStore] in HG. rewrite lookup_empty in HG. cbn [fmap option_fmap option_map] in HG.
  rewrite <- HG. destruct (db s !! _) as [row|]; [|done]. cbn [fmap option_fmap option_map entryOf ExpiresAt].
  destruct (rowExpires row) as [e|]; [|done]. destruct (decide (e < now)).
  - rewrite (bool_decide_true (e < now)), (bool_decide_false (now <= e)) by lia. done.
  - rewrite (bool_decide_false (e < now)), (bool_decide_true (now <= e)) by lia. done.
Qed.

(** *** Threads and searches *)

Definition plainChar (c : ascii) : bool := bool_decide (c ≠ "\"%char ∧ c ≠ "%"%char ∧ c ≠ "_"%char).

Fixpoint literals (s : string) : list LikeElem := match s with "" => [] | String c s => LLit c :: literals s end.

Lemma parseLike_plain s t : stringForall plainChar s = true → parseLike (s +:+ t) = literals s ++ parseLike t.
Proof.
  induction s as [|c s IH]; intros Hs; [done|]. cbn [stringForall] in Hs. apply andb_true_iff in Hs as [Hc Hs]. rewrite string_app_cons. cbn [literals app].
  rewrite <- IH by done. apply bool_decide_eq_true_1 in Hc as (Hc1 & Hc2 & Hc3). destruct c as [[] [] [] [] [] [] [] []]; try done; tauto.
Qed.

Lemma likeMatch_any t : likeMatch [LMany] t = true.
Proof. induction t as [|c t IH]; [done|]. cbn in *. rewrite IH. by rewrite orb_true_r. Qed.

Lemma likeMatch_literals s p t : likeMatch (literals s ++ p) t = HasPrefix t s && likeMatch p (dropBytes (String.length s) t).
Proof.
  unfold HasPrefix. revert t. induction s as [|c s IH]; intros t; [by destruct t|]. destruct t as [|d t]; [done|].
  cbn [literals app likeMatch String.prefix dropBytes String.length]. rewrite IH. case_bool_decide as Hc.
  - subst d. destruct (ascii_dec c c); [done|congruence].
  - destruct (ascii_dec c d); [congruence|done].
Qed.

(** A pattern without special characters and a percent sign is a prefix. *)
Lemma like_prefix s t : stringForall plainChar s = true → like (s +:+ "%") t = HasPrefix t s.
Proof. intros Hs. unfold like. rewrite parseLike_plain by done. cbn [parseLike]. by rewrite likeMatch_literals, likeMatch_any, andb_true_r. Qed.

(** The first rows of a query, in its order. *)
Lemma selectRows_spec `{!SliceSortLaws} now rows cond R `{∀ x y, Decision (R x y)} `{!Transitive R, !Total R} limit :
  ∃ l, selectRows now rows cond R limit = (λ kr, entryOf kr.1 kr.2) <$> take limit l ∧ StronglySorted R l ∧
    ∀ k r, (k, r) ∈ l ↔ ∃ ak, ak.2 = k ∧ rows !! ak = Some r ∧ live now r = true ∧ cond k r = true.
Proof.
  unfold selectRows. eexists. split; [reflexivity|]. split; [by apply sort_sorted|]. intros k r. rewrite sort_perm, list_elem_of_fmap. split.
  - intros ([ak r'] & He & Hin). injection He as -> ->. rewrite elem_of_map_to_list, map_lookup_filter_Some in Hin. destruct Hin as [Hr Hb].
    apply andb_true_iff in Hb as [? ?]. by exists ak.
  - intros (ak & <- & Hr & Hl & Hc). exists (ak, r). split; [done|]. rewrite elem_of_map_to_list, map_lookup_filter_Some. cbn [snd fst]. by rewrite Hl, Hc.
Qed.

#[local] Instance createdFirst_trans : Transitive createdFirst.
Proof. unfold createdFirst. intros x y z. lia. Qed.
#[local] Instance createdFirst_total : Total createdFirst.
Proof. unfold createdFirst. intros x y. lia. Qed.

(** A thread: for an identifier without pattern characters get_thread answers, oldest
    first, the first [limit] (at most a hundred, fifty unless asked otherwise) of exactly the
    live memories of the calling identity whose keys begin with the thread's prefix. *)
Theorem thread_exact `{!SliceSortLaws} (s : PostgresAgentMemoryStore) (ac : Mcp.MCPAuthContext) (now : Time) (i : getThreadInput) :
  Mcp.mAgentID ac ≠ "" → Mcp.mTenantID ac ≠ "" → thID i ≠ "" → stringForall plainChar (thID i) = true →
  ∃ l, (memoryTool {| caller := Some ac; callFault := Fine; callTime := now; call := CallThread (Some i) |} s).1 =
      inr (ThreadMessages (thID i) ((λ kr, entryOf kr.1 kr.2) <$> take (capped 50 (limitOf 50 (thLimit i))) l)) ∧
    StronglySorted createdFirst l ∧ (capped 50 (limitOf 50 (thLimit i)) ≤ 100)%nat ∧
    ∀ k row, (k, row) ∈ l ↔ db s !! (Mcp.mAgentID ac, Mcp.mTenantID ac, k) = Some row ∧
      match rowExpires row with Some e => now < e | None => True end ∧ HasPrefix k ("thread:" +:+ thID i +:+ ":") = true.
Proof.
  intros Ha Ht Hi Hp.
  destruct (selectRows_spec now (namespace (Mcp.mAgentID ac) (Mcp.mTenantID ac) (db s)) (λ key _, like ("thread:" +:+ thID i +:+ ":%") key) createdFirst
    (capped 50 (limitOf 50 (thLimit i)))) as (l & HE & HS & HL).
  exists l. split_and!; [|done| |].
  - cbn [memoryTool call caller callFault callTime fst]. unfold getThreadHandler. rewrite decide_False by done. unfold GetThread, emptyField.
    do 4 rewrite decide_False by done. cbv zeta. by rewrite HE.
  - unfold capped. repeat case_bool_decide; lia.
  - intros k row. rewrite HL.
    assert (HLike : like ("thread:" +:+ thID i +:+ ":%") k = HasPrefix k ("thread:" +:+ thID i +:+ ":")).
    { replace ("thread:" +:+ thID i +:+ ":%") with (("thread:" +:+ thID i +:+ ":") +:+ "%") by (by rewrite <- !string_app_assoc).
      apply like_prefix. rewrite !stringForall_app, Hp. done. }
    rewrite HLike. unfold live, namespace. split.
    + intros ([[a t] k'] & <- & Hr0 & Hl & Hk). rewrite map_lookup_filter_Some in Hr0. destruct Hr0 as [Hr Hns]. cbn in Hns. injection Hns as -> ->. cbn [snd] in *. split_and!; [done| |done].
      destruct (rowExpires row); [exact (bool_decide_eq_true_1 _ Hl)|done].
    + intros (Hr & Hl & Hk). exists (Mcp.mAgentID ac, Mcp.mTenantID ac, k). split_and!; [done|by rewrite map_lookup_filter_Some| |done]. destruct (rowExpires row); [exact (bool_decide_eq_true_2 _ Hl)|done].
Qed.

#[local] Instance recentlyUpdated_trans : Transitive recentlyUpdated.
Proof. unfold recentlyUpdated. intros x y z. lia. Qed.
#[local] Instance recentlyUpdated_total : Total recentlyUpdated.
Proof. unfold recentlyUpdated. intros x y. lia. Qed.

(** A pattern between two percent signs is found anywhere. *)
Lemma like_contains q t : stringForall plainChar q = true → (∀ c q', q = String c q' → continuation c = false) → q ≠ "" →
  like ("%" +:+ q +:+ "%") t = true ↔ ∃ a b, t = a +:+ q +:+ b.
Proof.
  intros Hq Hc Hne. unfold like. change (parseLike ("%" +:+ q +:+ "%")) with (LMany :: parseLike (q +:+ "%")). rewrite parseLike_plain by done. cbn [parseLike].
  assert (HM : ∀ t, likeMatch (literals q ++ [LMany]) t = HasPrefix t q) by (intros u; by rewrite likeMatch_literals, likeMatch_any, andb_true_r).
  induction t as [|c t IH].
  - cbn [likeMatch]. rewrite HM. split.
    + intros Hp. apply HasPrefix_split in Hp. exists "". eexists. exact Hp.
    + intros (a & b & He). destruct a; [|done]. destruct q; done.
  - change (likeMatch (LMany :: literals q ++ [LMany]) (String c t)) with
      ((negb (continuation c) && likeMatch (literals q ++ [LMany]) (String c t)) || likeMatch (LMany :: literals q ++ [LMany]) t).
    rewrite orb_true_iff, IH, HM, andb_true_iff. split.
    + intros [[_ Hp]|(a & b & ->)]; [|by exists (String c a), b]. apply HasPrefix_split in Hp. exists "". by eexists.
    + intros ([|d a] & b & He); [left|right].
      * rewrite He. change ("" +:+ q +:+ b) with (q +:+ b). rewrite HasPrefix_app. destruct q as [|c' q']; [done|]. injection He as -> _. by rewrite (Hc c' q').
      * injection He as _ ->. by exists a, b.
Qed.

(** What a search relies on: [lower] works character by character and makes no pattern
    characters. *)
Class LowerLaws : Prop := {
  lower_app a b : lower (a +:+ b) = lower a +:+ lower b;
  lower_percent : lower "%" = "%";
  lower_plain q : stringForall plainChar q = true → stringForall plainChar (lower q) = true
}.

(** A search: for a text without pattern characters memory_recall answers, last updated
    first, the first [limit] (at most a hundred) of exactly the live memories of the calling
    identity that contain it in their key or value, whatever its case. *)
Theorem search_exact `{!SliceSortLaws, !LowerLaws} (s : PostgresAgentMemoryStore) (ac : Mcp.MCPAuthContext) (now : Time) (i : memoryRecallInput) (query : string) :
  Mcp.mAgentID ac ≠ "" → Mcp.mTenantID ac ≠ "" → reKey i = None → reQuery i = Some query → default false (reSemantic i) = false →
  stringForall plainChar query = true → (∀ c q, lower query = String c q → continuation c = false) → query ≠ "" → lower query ≠ "" →
  ∃ l, (memoryTool {| caller := Some ac; callFault := Fine; callTime := now; call := CallRecall (Some i) |} s).1 =
      inr (Recalled ((λ kr, entryOf kr.1 kr.2) <$> take (capped 10 (limitOf 10 (reLimit i))) l)) ∧
    StronglySorted recentlyUpdated l ∧ (capped 10 (limitOf 10 (reLimit i)) ≤ 100)%nat ∧
    ∀ k row, (k, row) ∈ l ↔ db s !! (Mcp.mAgentID ac, Mcp.mTenantID ac, k) = Some row ∧ live now row = true ∧
      ((∃ a b, lower k = a +:+ lower query +:+ b) ∨ ∃ a b, lower (rowValue row) = a +:+ lower query +:+ b).
Proof.
  intros Ha Ht Hk Hq Hsem Hp Hc Hne Hne'. set (pattern := "%" +:+ query +:+ "%").
  destruct (selectRows_spec now (namespace (Mcp.mAgentID ac) (Mcp.mTenantID ac) (db s)) (λ key row, ilike pattern key || ilike pattern (rowValue row)) recentlyUpdated
    (capped 10 (limitOf 10 (reLimit i)))) as (l & HE & HS & HL).
  exists l. split_and!; [|done| |].
  - cbn [memoryTool call caller callFault callTime fst]. unfold memoryRecallHandler, present. rewrite Hk, Hq, Hsem, bool_decide_true by done.
    cbn [negb andb default]. unfold Search, emptyField. do 4 rewrite decide_False by done. cbv zeta. cbn [id]. unfold pattern in HE. unfold id. by rewrite HE.
  - unfold capped. repeat case_bool_decide; lia.
  - intros k row. rewrite HL.
    assert (HI : ∀ text, ilike pattern text = true ↔ ∃ a b, lower text = a +:+ lower query +:+ b).
    { intros text. unfold ilike, pattern. rewrite !lower_app, lower_percent. by apply like_contains; [apply lower_plain| |]. }
    rewrite <- !HI, <- orb_true_iff. unfold namespace. split.
    + intros ([[a t] k'] & <- & Hr0 & Hl & Hk'). rewrite map_lookup_filter_Some in Hr0. destruct Hr0 as [Hr Hns]. cbn in Hns. injection Hns as -> ->. done.
    + intros (Hr & Hl & Hk'). exists (Mcp.mAgentID ac, Mcp.mTenantID ac, k). split_and!; [done|by rewrite map_lookup_filter_Some|done|done].
Qed.
End history.

(** ** What the tools do not do *)

Definition demoSort : SliceSort := mergeSlice.
Definition demoLower : Lower := ToLower.
Definition demoSimilarity : Similarity := λ a b, if decide (a = b) then 1%Qc else 0%Qc.
Definition demoTool := @memoryTool demoSort demoLower demoSimilarity.

Definition bot : Mcp.MCPAuthContext := {| Mcp.mAgentID := "bot"; Mcp.mTenantID := "acme" |}.
Definition rival : Mcp.MCPAuthContext := {| Mcp.mAgentID := "rival"; Mcp.mTenantID := "acme" |}.

Definition storeCall (ac : Mcp.MCPAuthContext) (now : Time) (key value : string) (ttl : option Z) : Call := {|
  caller := Some ac; callFault := Fine; callTime := now;
  call := CallStore (Some {| inKey := key; inValue := value; inTTLSeconds := ttl; inMetadata := None |})
|}.
Definition recallCall (ac : Mcp.MCPAuthContext) (now : Time) (key : string) : Call := {|
  caller := Some ac; callFault := Fine; callTime := now;
  call := CallRecall (Some {| reKey := Some key; reQuery := None; reLimit := None; reSemantic := None |})
|}.
Definition threadCall (ac : Mcp.MCPAuthContext) (now : Time) (id : string) : Call := {|
  caller := Some ac; callFault := Fine; callTime := now; call := CallThread (Some {| thID := id; thLimit := None |})
|}.

Definition keysIn (a : ToolFailure + ToolAnswer) : list string :=
  match a with inr (ThreadMessages _ es) | inr (Recalled es) => Key <$> es | _ => [] end.

Definition demoCalls : list Call :=
  [storeCall bot 1 "thread:a_1:2" "later" None; storeCall rival 1 "thread:a_1:1" "theirs" None; storeCall bot 2 "thread:ab1:1" "another thread" None;
   storeCall bot 3 "note" "Call Alice" (Some 5); storeCall bot 4 "note" "Call Bob" None; recallCall bot 9 "note"].

Definition demoStore : PostgresAgentMemoryStore := (trace demoTool (NewPostgresAgentMemoryStore ∅ 1000) demoCalls).2.

(** The thread's identifier goes into the pattern as it is: an underscore stands for any
    character, so one thread shows the messages of another. *)
Theorem thread_ids_are_patterns : keysIn (demoTool (threadCall bot 9 "a_1") demoStore).1 = ["thread:a_1:2"; "thread:ab1:1"].
Proof. vm_compute. reflexivity. Qed.

(** An expired memory is not answered and not removed: it counts against the quota until its
    own key is stored again. *)
Theorem expired_memories_count :
  let s := (demoTool (storeCall bot 0 "a" "12345678" (Some 1)) (NewPostgresAgentMemoryStore ∅ 10)).2 in
  keysIn (demoTool (recallCall bot (10 * Second) "a") s).1 = [] ∧
  (demoTool (storeCall bot (10 * Second) "b" "12345678" None) s).1 = inl (Failed (QuotaExceeded 8 8 10)).
Proof. vm_compute. split; reflexivity. Qed.

(** The time to live is multiplied out in 64 bits: a request for three hundred years is kept
    for ever, one for somewhat less than six hundred is gone within a second. *)
Theorem long_ttl_wraps : ttlOf (Some 9223372037) < 0 ∧ 0 < ttlOf (Some 18446744074) < Second.
Proof. vm_compute. repeat split; reflexivity. Qed.

(** ** Witnesses *)

Lemma memories_isolated_witness : answersTo (H := demoSort) (H0 := demoLower) (H1 := demoSimilarity) bot (NewPostgresAgentMemoryStore ∅ 1000) demoCalls =
  (trace demoTool (NewPostgresAgentMemoryStore ∅ 1000) (filter (λ c, caller c = Some bot) demoCalls)).1.
Proof. apply (@memories_isolated demoSort demoLower demoSimilarity). Defined.

Lemma memory_quota_exact_witness :
  (demoTool (storeCall bot 10 "note" "Call Bob and Carol" None) demoStore).1 = inr (MemStored "note" 18).
Proof.
  refine (eq_trans (proj2 (@memory_quota_exact demoSort demoLower demoSimilarity 1000 demoCalls bot 10
    {| inKey := "note"; inValue := "Call Bob and Carol"; inTTLSeconds := None; inMetadata := None |} _ _ _ _ _)) _); vm_compute; try done; reflexivity.
Defined.

Lemma memory_recall_exact_witness : ∃ e, (demoTool (recallCall bot 100 "note") demoStore).1 = inr (Recalled [e]) ∧ Value e = "Call Bob" ∧ CreatedAt e = 3.
Proof.
  pose proof (@memory_recall_exact demoSort demoLower demoSimilarity 1000 demoCalls bot "note" 100
    {| reKey := Some "note"; reQuery := None; reLimit := None; reSemantic := None |} ltac:(done) ltac:(done) ltac:(done) eq_refl) as HR.
  unfold demoStore, demoTool. destruct (trace (@memoryTool _ _ _) _ demoCalls) as [answers s] eqn:E. vm_compute in E. injection E as <- <-.
  eexists. split; [exact HR|]. split; vm_compute; reflexivity.
Defined.

Lemma thread_exact_witness : ∃ l, (demoTool (threadCall bot 9 "ab1") demoStore).1 = inr (ThreadMessages "ab1" ((λ kr, entryOf kr.1 kr.2) <$> take 50 l)) ∧
  StronglySorted createdFirst l.
Proof.
  destruct (@thread_exact demoSort demoLower demoSimilarity mergeSlice_laws demoStore bot 9 {| thID := "ab1"; thLimit := None |})
    as (l & HE & HS & _); [done..|]. exists l. split; [|exact HS]. change 50%nat with (capped 50 (limitOf 50 None)). exact HE.
Defined.

Lemma demoLower_laws : @LowerLaws demoLower.
Proof.
  split; unfold lower, demoLower.
  - intros a b. induction a as [|c a IH]; [done|]. rewrite string_app_cons. cbn [ToLower]. by rewrite IH.
  - done.
  - intros q. induction q as [|c q IH]; [done|]. cbn [ToLower stringForall]. rewrite !andb_true_iff. intros [Hc Hq]. split; [|by apply IH].
    revert Hc. destruct c as [[] [] [] [] [] [] [] []]; vm_compute; done.
Qed.

Lemma search_exact_witness : ∃ l, (demoTool {| caller := Some bot; callFault := Fine; callTime := 9;
    call := CallRecall (Some {| reKey := None; reQuery := Some "BOB"; reLimit := None; reSemantic := None |}) |} demoStore).1 =
  inr (Recalled ((λ kr, entryOf kr.1 kr.2) <$> take 10 l)) ∧ StronglySorted recentlyUpdated l.
Proof.
  destruct (@search_exact demoSort demoLower demoSimilarity mergeSlice_laws demoLower_laws demoStore bot 9
    {| reKey := None; reQuery := Some "BOB"; reLimit := None; reSemantic := None |} "BOB") as (l & HE & HS & _);
    [done|done|reflexivity|reflexivity|reflexivity|reflexivity|intros c q Hcq; by injection Hcq as <- _|done|done|].
  exists l. split; [|exact HS]. change 10%nat with (capped 10 (limitOf 10 None)). exact HE.
Defined.
