(* ===== verification/PgRuns.v ===== *)
(** * Runs and agents in Postgres

    internal/storage/postgres/run_store.go and agent_store.go.  The rows are maps by their
    unique keys.  JSON encoding of options, outputs, errors and configurations is taken to
    lose nothing by itself; what is written for an absent value is modelled as the code
    writes it.  The theorems compare these stores with the file stores of [RunStore] and
    [AgentStore]: they agree but for what a row does not hold. *)
From S2P Require Import Prelude GoTime GoPath Types RunStore.
From S2P Require Chat AgentStore.

(** ** Columns *)

(** A value passed as [any]: no value, or a pointer, which may be nil. *)
Inductive Boxed (A : Type) := NilInterface | Pointer (p : option A).
Arguments NilInterface {A}.
Arguments Pointer {A} p.

(** A column of type JSONB. *)
Inductive JsonCol (A : Type) := JsonNull | JsonObject (a : A).
Arguments JsonNull {A}.
Arguments JsonObject {A} a.

(** [None] is SQL's NULL; a nil pointer is encoded as the text null. *)
Definition marshalNullable {A} (v : Boxed A) : option (JsonCol A) :=
  match v with
  | NilInterface => None
  | Pointer None => Some JsonNull
  | Pointer (Some a) => Some (JsonObject a)
  end.

(** A fresh zero value is pointed to, then the text is decoded into it; null changes
    nothing. *)
Definition unmarshalColumn {A} (zero : A) (c : option (JsonCol A)) : option A :=
  match c with
  | None => None
  | Some JsonNull => Some zero
  | Some (JsonObject a) => Some a
  end.

Definition zeroOutput : RunOutput := {| OutputType := ""; OutputText := ""; Artifacts := [] |}.
Definition zeroError : RunError := {| ErrCode := ""; ErrMessage := ""; ErrDetails := [] |}.

(** The columns of the table runs besides its key (tenant_id, run_id). *)
Record RunRow := {
  cAgentID : string; cStatus : string; cCreatedAt : string; cStartedAt : string; cCompletedAt : string; cEventsURL : string;
  cRunOptions : RunOptions; cOutput : option (JsonCol RunOutput); cError : option (JsonCol RunError); cIdempotencyKey : string;
  cRetryOf : string; cParentRunID : string
}.

Abbreviation RunRows := (gmap (string * string) RunRow).

Inductive PgError := PgFailed | PgUniqueViolation | PgAgentNotFound.

#[global] Instance PgError_eq_dec : EqDecision PgError.
Proof. solve_decision. Defined.

(** ** The run store *)

(** The statements name neither retry_of nor parent_run_id: a new row has their default. *)
Definition insertedRow (run : Run) : RunRow := {|
  cAgentID := AgentID run; cStatus := RStatus run; cCreatedAt := RCreatedAt run; cStartedAt := StartedAt run;
  cCompletedAt := CompletedAt run; cEventsURL := EventsURL run; cRunOptions := Options run;
  cOutput := marshalNullable (Pointer (Output run)); cError := marshalNullable (Pointer (Error_ run));
  cIdempotencyKey := IdempotencyKey run; cRetryOf := ""; cParentRunID := ""
|}.

(** [ON CONFLICT ... DO UPDATE] leaves those two columns alone. *)
Definition updatedRow (old : option RunRow) (run : Run) : RunRow :=
  let row := insertedRow run in
  match old with
  | None => row
  | Some old => {|
      cAgentID := cAgentID row; cStatus := cStatus row; cCreatedAt := cCreatedAt row; cStartedAt := cStartedAt row;
      cCompletedAt := cCompletedAt row; cEventsURL := cEventsURL row; cRunOptions := cRunOptions row; cOutput := cOutput row;
      cError := cError row; cIdempotencyKey := cIdempotencyKey row; cRetryOf := cRetryOf old; cParentRunID := cParentRunID old |}
  end.

(** The unique index over non-empty idempotency keys: another row of the tenant has it. *)
Definition idempotencyTaken (run : Run) (rows : RunRows) : Prop :=
  IdempotencyKey run ≠ "" ∧
  filter (λ kv, kv.1.1 = TenantID run ∧ kv.1.2 ≠ RunID run ∧ cIdempotencyKey kv.2 = IdempotencyKey run) rows ≠ ∅.

#[global] Instance idempotencyTaken_dec run rows : Decision (idempotencyTaken run rows).
Proof. unfold idempotencyTaken. apply _. Defined.

Definition PgCreateRun (fault : bool) (run : Run) (rows : RunRows) : option PgError * RunRows :=
  if fault then (Some PgFailed, rows)
  else if decide (is_Some (rows !! (TenantID run, RunID run)) ∨ idempotencyTaken run rows) then (Some PgUniqueViolation, rows)
  else (None, <[(TenantID run, RunID run) := insertedRow run]> rows).

Definition PgSaveRun (fault : bool) (run : Run) (rows : RunRows) : option PgError * RunRows :=
  if fault then (Some PgFailed, rows)
  else if decide (idempotencyTaken run rows) then (Some PgUniqueViolation, rows)
  else (None, <[(TenantID run, RunID run) := updatedRow (rows !! (TenantID run, RunID run)) run]> rows).

Definition scanRun (key : string * string) (row : RunRow) : Run := {|
  TenantID := key.1; AgentID := cAgentID row; RunID := key.2; RStatus := cStatus row; RCreatedAt := cCreatedAt row;
  StartedAt := cStartedAt row; CompletedAt := cCompletedAt row; EventsURL := cEventsURL row; Input := Input zeroRun;
  Options := cRunOptions row; Output := unmarshalColumn zeroOutput (cOutput row); Error_ := unmarshalColumn zeroError (cError row);
  IdempotencyKey := cIdempotencyKey row; RetryOf := ""; ParentRunID := ""
|}.

Definition PgGetRun (fault : bool) (tenantID runID : string) (rows : RunRows) : PgError + option Run :=
  if decide (tenantID = "" ∨ runID = "") then inr None
  else if fault then inl PgFailed
  else inr (scanRun (tenantID, runID) <$> rows !! (tenantID, runID)).

Definition selectRuns (P : (string * string) * RunRow → Prop) `{∀ kv, Decision (P kv)} (rows : RunRows) : list Run :=
  (λ kv, scanRun kv.1 kv.2) <$> map_to_list (filter P rows).

Definition PgGetByIdempotencyKey (fault : bool) (tenantID idempotencyKey : string) (rows : RunRows) : PgError + option Run :=
  if decide (tenantID = "" ∨ idempotencyKey = "") then inr None
  else if fault then inl PgFailed
  else inr (head (selectRuns (λ kv, kv.1.1 = tenantID ∧ cIdempotencyKey kv.2 = idempotencyKey) rows)).

Definition defaultListLimit : nat := 1000.

Section queries.
Context `{SliceSort}.

(** [ORDER BY created_at DESC]: the column is text. *)
Definition PgListRuns (fault : bool) (tenantID : string) (rows : RunRows) : PgError + list Run :=
  if decide (tenantID = "") then inr []
  else if fault then inl PgFailed
  else inr (take defaultListLimit (sortSlice newer (selectRuns (λ kv, kv.1.1 = tenantID) rows))).

(** The cursor is a row of any agent of the tenant; a comparison with the answer of a
    subquery without rows holds for no row. *)
Definition PgListByAgent (fault : bool) (tenantID agentID : string) (limit : Z) (afterRunID : string) (rows : RunRows) : PgError + list Run :=
  if decide (tenantID = "" ∨ agentID = "") then inr []
  else if fault then inl PgFailed
  else
    let n := Z.to_nat (clampLimit limit) in
    if decide (afterRunID = "") then
      inr (take n (sortSlice newer (selectRuns (λ kv, kv.1.1 = tenantID ∧ cAgentID kv.2 = agentID) rows)))
    else match rows !! (tenantID, afterRunID) with
         | None => inr []
         | Some cursor =>
             inr (take n (sortSlice newer (selectRuns (λ kv, kv.1.1 = tenantID ∧ cAgentID kv.2 = agentID ∧
                                                       String.compare (cCreatedAt kv.2) (cCreatedAt cursor) = Lt) rows)))
         end.

Definition PgListChildRuns (fault : bool) (tenantID parentRunID : string) (rows : RunRows) : PgError + list Run :=
  if decide (tenantID = "" ∨ parentRunID = "") then inr []
  else if fault then inl PgFailed
  else inr (sortSlice newer (selectRuns (λ kv, kv.1.1 = tenantID ∧ (cRetryOf kv.2 = parentRunID ∨ cParentRunID kv.2 = parentRunID)) rows)).
End queries.

(** ** The agent store *)

(** The columns besides the key (tenant_id, agent_id). *)
Record AgentRow := {
  aName : string; aDescription : string; aVersion : string; aStatus : string; aConfig : option Chat.AgentConfig;
  aCreatedAt : string; aUpdatedAt : string
}.

Abbreviation AgentRows := (gmap (string * string) AgentRow).

(** Every field is left out when it is zero: such a configuration is encoded as {}. *)
Definition emptyConfig (c : Chat.AgentConfig) : Prop :=
  Chat.SystemPrompt c = "" ∧ Chat.ModelID c = "" ∧ Chat.ToolNames c = [] ∧ Chat.CfgMaxSteps c = 0 ∧ Chat.CfgTimeoutMs c = 0.

#[global] Instance emptyConfig_dec c : Decision (emptyConfig c).
Proof. unfold emptyConfig. apply _. Defined.

(** The column; [None] is the text {}. *)
Definition marshalConfig (cfg : option Chat.AgentConfig) : option Chat.AgentConfig :=
  match cfg with Some c => if decide (emptyConfig c) then None else Some c | None => None end.

Definition unmarshalConfig (col : option Chat.AgentConfig) : option Chat.AgentConfig := col.

Definition agentRow (a : Chat.Agent) : AgentRow := {|
  aName := Chat.AName a; aDescription := Chat.Description a; aVersion := Chat.AVersion a; aStatus := Chat.AStatus a;
  aConfig := marshalConfig (Chat.Config a); aCreatedAt := Chat.ACreatedAt a; aUpdatedAt := Chat.AUpdatedAt a
|}.

Definition scanAgent (key : string * string) (row : AgentRow) : Chat.Agent := {|
  Chat.AgentID_ := key.2; Chat.AgentTenant := key.1; Chat.AName := aName row; Chat.Description := aDescription row;
  Chat.AVersion := aVersion row; Chat.AStatus := aStatus row; Chat.Config := unmarshalConfig (aConfig row);
  Chat.ACreatedAt := aCreatedAt row; Chat.AUpdatedAt := aUpdatedAt row
|}.

Definition PgCreateAgent (fault : bool) (a : Chat.Agent) (rows : AgentRows) : option PgError * AgentRows :=
  if fault then (Some PgFailed, rows)
  else if decide (is_Some (rows !! (Chat.AgentTenant a, Chat.AgentID_ a))) then (Some PgUniqueViolation, rows)
  else (None, <[(Chat.AgentTenant a, Chat.AgentID_ a) := agentRow a]> rows).

Definition PgGetAgent (fault : bool) (tenantID agentID : string) (rows : AgentRows) : PgError + option Chat.Agent :=
  if decide (tenantID = "" ∨ agentID = "") then inr None
  else if fault then inl PgFailed
  else inr (scanAgent (tenantID, agentID) <$> rows !! (tenantID, agentID)).

Definition agentsByTime (a b : Chat.Agent) : Prop := String.le (Chat.ACreatedAt b) (Chat.ACreatedAt a).

#[global] Instance agentsByTime_dec a b : Decision (agentsByTime a b).
Proof. unfold agentsByTime. apply _. Defined.

Definition PgListAgents `{SliceSort} (fault : bool) (tenantID : string) (rows : AgentRows) : PgError + list Chat.Agent :=
  if decide (tenantID = "") then inr []
  else if fault then inl PgFailed
  else inr (sortSlice agentsByTime ((λ kv, scanAgent kv.1 kv.2) <$> map_to_list (filter (λ kv, kv.1.1 = tenantID) rows))).

Definition PgSaveAgent (fault : bool) (a : Chat.Agent) (rows : AgentRows) : option PgError * AgentRows :=
  if fault then (Some PgFailed, rows) else (None, <[(Chat.AgentTenant a, Chat.AgentID_ a) := agentRow a]> rows).

Definition PgDeleteAgent (fault : bool) (tenantID agentID : string) (rows : AgentRows) : option PgError * AgentRows :=
  if fault then (Some PgFailed, rows)
  else match rows !! (tenantID, agentID) with
       | None => (Some PgAgentNotFound, rows)
       | Some _ => (None, delete (tenantID, agentID) rows)
       end.

(** ** What a row keeps *)

(** A run as it is read back: without its input and its relations, and with an output and
    an error even when it has none. *)
Definition pgView (run : Run) : Run := {|
  TenantID := TenantID run; AgentID := AgentID run; RunID := RunID run; RStatus := RStatus run; RCreatedAt := RCreatedAt run;
  StartedAt := StartedAt run; CompletedAt := CompletedAt run; EventsURL := EventsURL run; Input := Input zeroRun;
  Options := Options run; Output := Some (default zeroOutput (Output run)); Error_ := Some (default zeroError (Error_ run));
  IdempotencyKey := IdempotencyKey run; RetryOf := ""; ParentRunID := ""
|}.

Lemma scan_inserted run : scanRun (TenantID run, RunID run) (insertedRow run) = pgView run.
Proof. unfold scanRun, insertedRow, pgView. cbn. by destruct (Output run), (Error_ run). Qed.

Definition agentView (a : Chat.Agent) : Chat.Agent := {|
  Chat.AgentID_ := Chat.AgentID_ a; Chat.AgentTenant := Chat.AgentTenant a; Chat.AName := Chat.AName a;
  Chat.Description := Chat.Description a; Chat.AVersion := Chat.AVersion a; Chat.AStatus := Chat.AStatus a;
  Chat.Config := marshalConfig (Chat.Config a); Chat.ACreatedAt := Chat.ACreatedAt a; Chat.AUpdatedAt := Chat.AUpdatedAt a
|}.

(** ** Agents *)

Definition pgAgentStep (op : AgentStore.AgentOp) (rows : AgentRows) : (PgError + option Chat.Agent) * AgentRows :=
  let unit_ (e : option PgError) : PgError + option Chat.Agent := match e with Some e => inl e | None => inr None end in
  match op with
  | AgentStore.OpCreate c f a => let '(e, rows) := PgCreateAgent (c || f) a rows in (unit_ e, rows)
  | AgentStore.OpGet c t a => (PgGetAgent c t a rows, rows)
  | AgentStore.OpSave c f a => let '(e, rows) := PgSaveAgent (c || f) a rows in (unit_ e, rows)
  | AgentStore.OpDelete c f t a => let '(e, rows) := PgDeleteAgent (c || f) t a rows in (unit_ e, rows)
  end.

(** The answer of the file store, as Postgres gives it. *)
Definition pgAgentAnswer (r : AgentStore.AgentError + option Chat.Agent) : PgError + option Chat.Agent :=
  match r with
  | inl AgentStore.ErrAgentExists => inl PgUniqueViolation
  | inl AgentStore.ErrAgentNotFound => inl PgAgentNotFound
  | inl _ => inl PgFailed
  | inr a => inr (agentView <$> a)
  end.

Definition opUndisturbed (op : AgentStore.AgentOp) : Prop :=
  match op with
  | AgentStore.OpCreate c f _ | AgentStore.OpSave c f _ | AgentStore.OpDelete c f _ _ => c = false ∧ f = false
  | AgentStore.OpGet c _ _ => c = false
  end.

Section agents.
Context (d : string) (ds : list string) (Hds : Forall (λ c, component c = true) (d :: ds)).

Definition emptyFileAgents : AgentStore.fileAgentStore :=
  {| AgentStore.adir := String.concat "/" (d :: ds); AgentStore.agents := ∅; AgentStore.adisk := ∅ |}.

Definition agentRows (m : gmap (string * string) Chat.Agent) : AgentRows := agentRow <$> m.

Lemma pgAgentStep_map op m : AgentStore.opOk op → opUndisturbed op → (∀ t a x, m !! (t, a) = Some x → Chat.AgentTenant x = t ∧ Chat.AgentID_ x = a) →
  (pgAgentStep op (agentRows m)).1 = pgAgentAnswer (AgentStore.mapStep op m).1 ∧
  (pgAgentStep op (agentRows m)).2 = agentRows (AgentStore.mapStep op m).2.
Proof.
  intros [Ht Ha] Hu Hk. apply AgentStore.component_nonempty in Ht, Ha. unfold agentRows.
  destruct op as [c f a|c t a|c f a|c f t a]; cbn in Ht, Ha, Hu; [destruct Hu as [-> ->]|subst c|destruct Hu as [-> ->]..]; cbn [pgAgentStep AgentStore.mapStep orb].
  - unfold PgCreateAgent. rewrite lookup_fmap. destruct (m !! (Chat.AgentTenant a, Chat.AgentID_ a)) as [x|] eqn:E; cbn [fmap option_fmap option_map].
    + by rewrite decide_True by eauto.
    + rewrite decide_False by (by intros [? ?]). split; [done|]. cbn [snd]. by rewrite fmap_insert.
  - unfold PgGetAgent. rewrite decide_False by tauto. rewrite lookup_fmap. split; [|done]. cbn [fst pgAgentAnswer].
    destruct (m !! (t, a)) as [x|] eqn:E; [|done]. destruct (Hk _ _ _ E) as [<- <-]. done.
  - unfold PgSaveAgent. cbn [fst snd]. by rewrite fmap_insert.
  - unfold PgDeleteAgent. rewrite lookup_fmap. destruct (m !! (t, a)) as [x|] eqn:E; cbn [fmap option_fmap option_map fst snd]; [|done].
    by rewrite fmap_delete.
Qed.

(** The two agent stores are interchangeable: in every history of creations, reads,
    updates and deletions of agents named by single path elements, when nothing fails, the
    store in Postgres answers what the file store answers; only a configuration without
    content is read back as none, and a second creation is refused with an error of the
    database instead of the store's own. *)
Theorem agent_backends_agree (ops : list AgentStore.AgentOp) :
  Forall (λ op, AgentStore.opOk op ∧ opUndisturbed op) ops →
  (trace pgAgentStep ∅ ops).1 = pgAgentAnswer <$> (trace AgentStore.agentStep emptyFileAgents ops).1.
Proof.
  intros Hops.
  assert (HG : ∀ s m, AgentStore.storeRel d ds s m → (trace pgAgentStep (agentRows m) ops).1 = pgAgentAnswer <$> (trace AgentStore.agentStep s ops).1).
  2:{ change (∅ : AgentRows) with (agentRows ∅) || (replace (∅ : AgentRows) with (agentRows ∅) by apply fmap_empty). apply (HG emptyFileAgents ∅). split; [done| |]; intros *; [|by rewrite lookup_empty]. cbn. rewrite lookup_empty. split; [done|].
      intros (? & ? & _ & HX). by rewrite lookup_empty in HX. }
  induction Hops as [|op ops [Hok Hu] _ IH]; intros s m Hrel; [done|]. rewrite !trace_cons_answers. cbn [fmap list_fmap].
  destruct (AgentStore.agentStep_sim d ds Hds op s m Hok Hrel) as (Ha & Hrel' & _).
  destruct (pgAgentStep_map op m Hok Hu) as [Hp Hp2]. { intros t a x Hx. destruct (AgentStore.rel_keyed _ _ _ _ Hrel _ _ _ Hx) as (? & ? & _). done. }
  rewrite Hp, Ha, Hp2. f_equal. by apply IH.
Qed.
End agents.

(** ** Runs *)

Definition pgRunStep (op : StoreOp) (rows : RunRows) : (PgError + option Run) * RunRows :=
  let unit_ (e : option PgError) : PgError + option Run := match e with Some e => inl e | None => inr None end in
  match op with
  | SCreate c f run => let '(e, rows) := PgCreateRun (c || f) run rows in (unit_ e, rows)
  | SSave c f run => let '(e, rows) := PgSaveRun (c || f) run rows in (unit_ e, rows)
  | SGet c t r => (PgGetRun c t r rows, rows)
  end.

Definition pgRunAnswer (r : StoreError + option Run) : PgError + option Run :=
  match r with inl ErrRunExists => inl PgUniqueViolation | inl _ => inl PgFailed | inr run => inr (pgView <$> run) end.

Definition opRun (op : StoreOp) : option Run := match op with SCreate _ _ run | SSave _ _ run => Some run | SGet _ _ _ => None end.

Definition runNamed (run : Run) : Prop := component (TenantID run) = true ∧ component (RunID run) = true.

Definition storeOpOk (op : StoreOp) : Prop :=
  match op with
  | SCreate c f run | SSave c f run => c = false ∧ f = false ∧ runNamed run
  | SGet c t r => c = false ∧ component t = true ∧ component r = true
  end.

(** Within a tenant an idempotency key belongs to one run. *)
Definition keysOwned (rs : list Run) : Prop :=
  ∀ r r', r ∈ rs → r' ∈ rs → TenantID r = TenantID r' → IdempotencyKey r = IdempotencyKey r' → IdempotencyKey r ≠ "" → RunID r = RunID r'.

Record runsRel (all : list Run) (n : nat) (s : fileRunStore) (rows : RunRows) : Prop := {
  rel_rows t r : component t = true → component r = true → rows !! (t, r) = insertedRow <$> runs s !! storageKey t r;
  rel_named k row : rows !! k = Some row → ∃ run, run ∈ all ∧ runNamed run ∧ k = (TenantID run, RunID run) ∧ row = insertedRow run;
  rel_file k run : runs s !! k = Some run → run ∈ all ∧ runNamed run ∧ k = storageKey (TenantID run) (RunID run);
  rel_size : (size (runs s) ≤ n)%nat
}.

Lemma updatedRow_inserted all n s rows run : runsRel all n s rows → updatedRow (rows !! (TenantID run, RunID run)) run = insertedRow run.
Proof.
  intros Hrel. destruct (rows !! _) as [old|] eqn:E; [|done]. destruct (rel_named _ _ _ _ Hrel _ _ E) as (old' & _ & _ & _ & ->). done.
Qed.

Lemma not_taken all n s rows run : runsRel all n s rows → keysOwned all → run ∈ all → ¬ idempotencyTaken run rows.
Proof.
  intros Hrel Ho Hin [Hne Hf]. apply Hf. apply map_empty. intros k. apply map_lookup_filter_None. right. intros row Hrow (Ht & Hr & Hi). cbn [fst snd] in *.
  destruct (rel_named _ _ _ _ Hrel _ _ Hrow) as (run' & Hin' & _ & -> & ->). cbn in Ht, Hr, Hi. apply Hr. apply Ho; congruence.
Qed.

Lemma rel_write all n s rows run : runsRel all n s rows → run ∈ all → runNamed run → (n < Z.to_nat maxRunsInRunStore)%nat →
  runsRel all (S n) (putRun false (storageKey (TenantID run) (RunID run)) run s).2 (<[(TenantID run, RunID run) := insertedRow run]> rows).
Proof.
  intros [Hr Hn Hf Hs] Hin Hnm Hlt.
  assert (HP : runs (putRun false (storageKey (TenantID run) (RunID run)) run s).2 = <[storageKey (TenantID run) (RunID run) := run]> (runs s)).
  { unfold putRun, evictLocked. cbn [persistLocked]. cbn [runs touchOrderLocked setRun runOrder].
    assert (HE : ∀ order, evictLoop (<[storageKey (TenantID run) (RunID run) := run]> (runs s)) order = (<[storageKey (TenantID run) (RunID run) := run]> (runs s), order)).
    { intros order. destruct order as [|k order]; [done|]. cbn [evictLoop]. rewrite bool_decide_false; [done|].
      rewrite map_size_insert. destruct (runs s !! _); cbn; lia. }
    by rewrite HE. }
  split.
  - intros t r Ht Hrr. rewrite HP. destruct (decide ((t, r) = (TenantID run, RunID run))) as [He|Hne].
    + injection He as -> ->. by rewrite !lookup_insert_eq.
    + rewrite !lookup_insert_ne; [by apply Hr| |congruence]. intros Hk. apply Hne. destruct Hnm.
      apply storageKey_inj in Hk as [-> ->]; done.
  - intros k row. rewrite lookup_insert_Some. intros [[<- <-]|[_ Hk]]; [by exists run|by apply Hn].
  - intros k r. rewrite HP, lookup_insert_Some. intros [[<- <-]|[_ Hk]]; [done|by apply Hf].
  - rewrite HP. rewrite map_size_insert. destruct (runs s !! _); cbn; lia.
Qed.

Lemma pgRunStep_sim all n op s rows : runsRel all n s rows → (∀ run, opRun op = Some run → ¬ idempotencyTaken run rows) → storeOpOk op → (∀ run, opRun op = Some run → run ∈ all) →
  (n < Z.to_nat maxRunsInRunStore)%nat →
  (pgRunStep op rows).1 = pgRunAnswer (storeStep op s).1 ∧ runsRel all (S n) (storeStep op s).2 (pgRunStep op rows).2.
Proof.
  intros Hrel Ho Hok Hin Hlt. assert (Hw : runsRel all (S n) s rows) by (destruct Hrel; split; [done..|lia]).
  destruct op as [c f run|c f run|c t r]; cbn [pgRunStep storeStep opRun] in *.
  - destruct Hok as (-> & -> & Ht & Hr). specialize (Hin run eq_refl). unfold PgCreateRun, Create. cbn [orb].
    replace (validateRun run) with (@None StoreError) by (unfold validateRun; rewrite decide_False; [done|apply component_spec in Ht, Hr; tauto]).
    pose proof (rel_rows _ _ _ _ Hrel _ _ Ht Hr) as Hk. destruct (runs s !! storageKey (TenantID run) (RunID run)) as [old|] eqn:E.
    + rewrite decide_True by (left; rewrite Hk; by eexists). done.
    + rewrite decide_False; [split; [done|by apply rel_write]|]. intros [[x Hx]|Htk]; [by rewrite Hk in Hx|by eapply Ho].
  - destruct Hok as (-> & -> & Ht & Hr). specialize (Hin run eq_refl). unfold PgSaveRun, Save. cbn [orb].
    replace (validateRun run) with (@None StoreError) by (unfold validateRun; rewrite decide_False; [done|apply component_spec in Ht, Hr; tauto]).
    rewrite decide_False by (by apply Ho). rewrite (updatedRow_inserted all n s) by done. split; [done|by apply rel_write].
  - destruct Hok as (-> & Ht & Hr). unfold PgGetRun, Get. rewrite !decide_False by (apply component_spec in Ht, Hr; tauto). rewrite (rel_rows _ _ _ _ Hrel) by done.
    destruct (runs s !! storageKey t r) as [run|] eqn:E; [|done]. cbn [fst snd fmap option_fmap option_map pgRunAnswer].
    destruct (rel_file _ _ _ _ Hrel _ _ E) as (_ & [Ht' Hr'] & Hk). apply storageKey_inj in Hk as [-> ->]; [|done..].
    rewrite scan_inserted. split; [done|]. by destruct Hw.
Qed.

Lemma pgRun_histories all ops : keysOwned all → Forall storeOpOk ops → (∀ op run, op ∈ ops → opRun op = Some run → run ∈ all) →
  ∀ n s rows, runsRel all n s rows → (n + length ops ≤ Z.to_nat maxRunsInRunStore)%nat →
  (trace pgRunStep rows ops).1 = pgRunAnswer <$> (trace storeStep s ops).1 ∧
  runsRel all (n + length ops) (trace storeStep s ops).2 (trace pgRunStep rows ops).2.
Proof.
  intros Ho Hops. induction Hops as [|op ops Hop _ IH]; intros Hin n s rows Hrel Hn; cbn [length] in *; [by rewrite Nat.add_0_r|].
  destruct (pgRunStep_sim all n op s rows Hrel ltac:(intros run Hr; eapply not_taken; [done|done|by eapply Hin; [left|]]) Hop) as [Ha Hrel']; [intros run; apply Hin; left|lia|].
  rewrite !trace_cons_answers, !trace_cons. cbn [fmap list_fmap].
  destruct (IH ltac:(intros op' run ?; apply Hin; by right) (S n) _ _ Hrel') as [Ht Hrel'']; [lia|].
  rewrite Ha, Ht. split; [done|]. by replace (n + S (length ops))%nat with (S n + length ops)%nat by lia.
Qed.

Lemma emptyRuns_rel all : runsRel all 0 emptyStore ∅.
Proof. split; intros *; cbn; rewrite ?lookup_empty; done. Qed.

(** The file store with the one rule that only the table has: within a tenant, a write that
    would give a run the idempotency key of another run is refused. *)
Definition keyOfAnother (run : Run) (s : fileRunStore) : Prop :=
  IdempotencyKey run ≠ "" ∧
  filter (λ kv, TenantID kv.2 = TenantID run ∧ RunID kv.2 ≠ RunID run ∧ IdempotencyKey kv.2 = IdempotencyKey run) (runs s) ≠ ∅.

#[global] Instance keyOfAnother_dec run s : Decision (keyOfAnother run s).
Proof. unfold keyOfAnother. apply _. Defined.

Definition uniqueStep (op : StoreOp) (s : fileRunStore) : (PgError + option Run) * fileRunStore :=
  if from_option (λ run, bool_decide (keyOfAnother run s)) false (opRun op) then (inl PgUniqueViolation, s)
  else (pgRunAnswer (storeStep op s).1, (storeStep op s).2).

Lemma filter_nonempty {K V} `{Countable K} (P : K * V → Prop) `{∀ kv, Decision (P kv)} (m : gmap K V) :
  filter P m ≠ ∅ ↔ ∃ k v, m !! k = Some v ∧ P (k, v).
Proof.
  split.
  - intros (k & v & Hk)%map_choose. rewrite map_lookup_filter_Some in Hk. by exists k, v.
  - intros (k & v & Hk & HP) He. assert (filter P m !! k = Some v) as Hx by by apply map_lookup_filter_Some. by rewrite He in Hx.
Qed.

Lemma taken_keyOfAnother all n s rows run : runsRel all n s rows → idempotencyTaken run rows ↔ keyOfAnother run s.
Proof.
  intros Hrel. unfold idempotencyTaken, keyOfAnother. rewrite !filter_nonempty. apply and_iff_compat_l. split.
  - intros (k & row & Hk & Ht & Hr & Hi). destruct (rel_named _ _ _ _ Hrel _ _ Hk) as (old & _ & [Hnt Hnr] & -> & ->). cbn in Ht, Hr, Hi.
    pose proof (rel_rows _ _ _ _ Hrel _ _ Hnt Hnr) as Hrow. rewrite Hk in Hrow. destruct (runs s !! _) as [old'|] eqn:E; [|done].
    cbn in Hrow. injection Hrow as _ _ _ _ _ _ _ _ _ Hkey. destruct (rel_file _ _ _ _ Hrel _ _ E) as (_ & [Hnt' Hnr'] & Heq).
    apply storageKey_inj in Heq as [Ht' Hr']; [|done..]. exists (storageKey (TenantID old) (RunID old)), old'. cbn. split; [done|]. split_and!; congruence.
  - intros (k & old & Hk & Ht & Hr & Hi). destruct (rel_file _ _ _ _ Hrel _ _ Hk) as (_ & [Hnt Hnr] & ->).
    exists (TenantID old, RunID old), (insertedRow old). split; [|done]. by rewrite (rel_rows _ _ _ _ Hrel), Hk by done.
Qed.

Lemma uniqueStep_sim all n op s rows : runsRel all n s rows → storeOpOk op → (∀ run, opRun op = Some run → run ∈ all) →
  (n < Z.to_nat maxRunsInRunStore)%nat →
  (pgRunStep op rows).1 = (uniqueStep op s).1 ∧ runsRel all (S n) (uniqueStep op s).2 (pgRunStep op rows).2.
Proof.
  intros Hrel Hok Hin Hlt. unfold uniqueStep. destruct (from_option _ false (opRun op)) eqn:Ht; cbn [fst snd].
  - destruct op as [c f run|c f run|c t r]; cbn [opRun from_option] in Ht; [| |done]; apply bool_decide_eq_true_1 in Ht; apply (taken_keyOfAnother _ _ _ rows _ Hrel) in Ht;
      destruct Hok as (-> & -> & _); cbn [pgRunStep]; unfold PgCreateRun, PgSaveRun; cbn [orb]; rewrite decide_True by tauto;
      (split; [done|destruct Hrel; split; [done|done|done|lia]]).
  - apply pgRunStep_sim; [done| |done..]. intros run Hr Htk. rewrite Hr in Ht. cbn in Ht. apply bool_decide_eq_false_1 in Ht. apply Ht. by apply (taken_keyOfAnother _ _ _ rows _ Hrel).
Qed.

Lemma unique_histories all ops : Forall storeOpOk ops → (∀ op run, op ∈ ops → opRun op = Some run → run ∈ all) →
  ∀ n s rows, runsRel all n s rows → (n + length ops ≤ Z.to_nat maxRunsInRunStore)%nat →
  (trace pgRunStep rows ops).1 = (trace uniqueStep s ops).1.
Proof.
  intros Hops. induction Hops as [|op ops Hop _ IH]; intros Hin n s rows Hrel Hn; cbn [length] in *; [done|].
  destruct (uniqueStep_sim all n op s rows Hrel Hop) as [Ha Hrel']; [intros run; apply Hin; left|lia|].
  rewrite !trace_cons_answers, Ha. f_equal. apply (IH ltac:(intros op' run ?; apply Hin; by right) (S n) _ _ Hrel'). lia.
Qed.


(** *** Listing *)

Lemma selectRuns_elem (P : (string * string) * RunRow → Prop) `{∀ kv, Decision (P kv)} rows run :
  run ∈ selectRuns P rows ↔ ∃ k row, rows !! k = Some row ∧ P (k, row) ∧ run = scanRun k row.
Proof.
  unfold selectRuns. rewrite list_elem_of_fmap. split.
  - intros ([k row] & -> & Hkv%elem_of_map_to_list). rewrite map_lookup_filter_Some in Hkv. exists k, row. tauto.
  - intros (k & row & Hk & HP & ->). exists (k, row). split; [done|]. apply elem_of_map_to_list. by rewrite map_lookup_filter_Some.
Qed.

Lemma selectRuns_NoDup (P : (string * string) * RunRow → Prop) `{∀ kv, Decision (P kv)} rows : NoDup (selectRuns P rows).
Proof.
  unfold selectRuns. apply (NoDup_fmap_2_strong _); [|apply NoDup_map_to_list].
  intros [[t r] row] [[t' r'] row'] H1%elem_of_map_to_list H2%elem_of_map_to_list Heq.
  injection Heq as -> _ -> _ _ _ _ _ _ _ _ _. congruence.
Qed.

Lemma newer_pgView a b : newer (pgView a) (pgView b) ↔ newer a b.
Proof. done. Qed.

Section listing.
Context `{SliceSort, !SliceSortLaws}.

#[local] Existing Instances newer_trans newer_total.

(** When the times tell runs apart there is one sorted order. *)
Lemma sort_runs_unique l l' : NoDup (RCreatedAt <$> l') → StronglySorted newer l' → l ≡ₚ l' → sortSlice newer l = l'.
Proof.
  intros Hd Hs HP. apply (StronglySorted_unique_strong newer); [|apply sort_sorted; apply _|done|by rewrite sort_perm].
  intros x y Hx Hy Hxy Hyx. rewrite sort_perm, HP in Hx. apply (NoDup_fmap_elem RCreatedAt _ _ _ Hd); [done..|]. by apply (anti_symm String.le).
Qed.

Lemma sorted_fmap_pgView l : StronglySorted newer l → StronglySorted newer (pgView <$> l).
Proof. induction 1 as [|x l Hl IH Hx]; [constructor|]. cbn [fmap list_fmap]. constructor; [done|]. apply Forall_fmap. eapply Forall_impl; [exact Hx|]. done. Qed.

Lemma string_lt_iff x y : String.compare x y = Lt ↔ String.le x y ∧ x ≠ y.
Proof.
  unfold String.le, String.leb. destruct (String.compare x y) eqn:E; split.
  - done.
  - intros [_ Hne]. by apply String.compare_eq_iff in E.
  - intros _. split; [done|]. intros ->. assert (String.compare y y = Eq) as Hr; [|congruence].
    clear E. induction y as [|c y IH]; [done|]. cbn. unfold Ascii.compare. by rewrite N.compare_refl.
  - done.
  - done.
  - intros [Hf _]. done.
Qed.

(** In a strictly falling order what is older than an element is what follows it. *)
Lemma older_is_rest done_ r rest : StronglySorted newer (done_ ++ r :: rest) → NoDup (RCreatedAt <$> done_ ++ r :: rest) →
  filter (λ x, String.compare (RCreatedAt x) (RCreatedAt r) = Lt) (done_ ++ r :: rest) = rest.
Proof.
  intros Hs Hd. rewrite filter_app, filter_cons.
  rewrite fmap_app, fmap_cons in Hd. apply NoDup_app in Hd as (_ & Hd1 & Hd2). apply NoDup_cons in Hd2 as [Hr Hd2].
  apply StronglySorted_app in Hs as (Hcross & _ & Hs). apply StronglySorted_cons in Hs as [Hr' _].
  rewrite (decide_False (P := String.compare (RCreatedAt r) (RCreatedAt r) = Lt)) by (by intros [_ ?]%string_lt_iff).
  assert (HA : filter (λ x, String.compare (RCreatedAt x) (RCreatedAt r) = Lt) done_ = []).
  { destruct (filter _ done_) as [|x l] eqn:E; [done|]. assert (Hx : x ∈ x :: l) by left. rewrite <- E in Hx.
    apply list_elem_of_filter in Hx as [[Hle Hne]%string_lt_iff Hx]. destruct Hne. apply (anti_symm String.le); [done|]. apply (Hcross x r Hx). left. }
  rewrite HA. cbn [app]. apply filter_all. rewrite Forall_forall in Hr' |- *. intros x Hx. apply string_lt_iff. split; [by apply Hr'|].
  intros He. apply Hr. rewrite <- He. by apply list_elem_of_fmap_2.
Qed.

Lemma file_run `{!RunRange, !GoRange run_range} all n s rows r : runsRel all n s rows →
  r ∈ (run_range (runs s)).*2 ↔ runs s !! storageKey (TenantID r) (RunID r) = Some r.
Proof.
  intros Hrel. rewrite list_elem_of_fmap. split.
  - intros ([k r'] & -> & Hk). apply (elem_of_range run_range) in Hk. destruct (rel_file _ _ _ _ Hrel _ _ Hk) as (_ & _ & Hkk). cbn [snd]. by rewrite <- Hkk.
  - intros Hk. exists (storageKey (TenantID r) (RunID r), r). split; [done|]. by apply (elem_of_range run_range).
Qed.

(** The runs of an agent as the database and as the file store select them. *)
Lemma selected_runs `{!RunRange, !GoRange run_range} all n s rows tenant agent : runsRel all n s rows → component tenant = true →
  selectRuns (λ kv, kv.1.1 = tenant ∧ cAgentID kv.2 = agent) rows ≡ₚ
  pgView <$> filter (λ r, TenantID r = tenant ∧ AgentID r = agent) (run_range (runs s)).*2.
Proof.
  intros Hrel Ht.
  assert (HIn := λ r, file_run all n s rows r Hrel).
  apply NoDup_Permutation; [apply selectRuns_NoDup| |].
  - apply (NoDup_fmap_2_strong _).
    + intros x y [_ Hx]%list_elem_of_filter [_ Hy]%list_elem_of_filter Heq. apply HIn in Hx, Hy.
      injection Heq as Ht1 _ Hr1 _ _ _ _ _ _ _ _ _. rewrite Ht1, Hr1 in Hx. congruence.
    + apply NoDup_filter. apply (NoDup_fmap_2_strong _); [|eapply NoDup_fmap_1, (NoDup_range_fst run_range)].
      intros [k x] [k' x'] Hx Hx' Heq. cbn in Heq. subst x'. apply (elem_of_range run_range) in Hx, Hx'.
      destruct (rel_file _ _ _ _ Hrel _ _ Hx) as (_ & _ & ->), (rel_file _ _ _ _ Hrel _ _ Hx') as (_ & _ & ->). done.
  - intros x. rewrite selectRuns_elem, list_elem_of_fmap. split.
    + intros (k & row & Hk & [Hkt Hka] & ->). destruct (rel_named _ _ _ _ Hrel _ _ Hk) as (run & _ & [Hc1 Hc2] & -> & ->). cbn [fst snd] in Hkt, Hka.
      rewrite (rel_rows _ _ _ _ Hrel) in Hk by done. destruct (runs s !! storageKey (TenantID run) (RunID run)) as [run'|] eqn:E; [|done].
      destruct (rel_file _ _ _ _ Hrel _ _ E) as (_ & [? ?] & Hsk). apply storageKey_inj in Hsk as [HT HR]; [|done..].
      cbn [fmap option_fmap option_map] in Hk. assert (HI : insertedRow run' = insertedRow run) by congruence. exists run'.
      rewrite <- HI, HT, HR. split; [apply scan_inserted|]. apply list_elem_of_filter. split; [|apply HIn; by rewrite <- HT, <- HR].
      split; [congruence|]. rewrite <- Hka. exact (f_equal cAgentID HI).
    + intros (run & -> & [[<- <-] Hr]%list_elem_of_filter). apply HIn in Hr. destruct (rel_file _ _ _ _ Hrel _ _ Hr) as (_ & [? ?] & _).
      exists (TenantID run, RunID run), (insertedRow run). rewrite (rel_rows _ _ _ _ Hrel), Hr by done. split_and!; [done|done|done|by rewrite scan_inserted].
Qed.

Lemma filter_pgView at_ (l : list Run) : filter (λ x, String.compare (RCreatedAt x) at_ = Lt) (pgView <$> l) = pgView <$> filter (λ x, String.compare (RCreatedAt x) at_ = Lt) l.
Proof. induction l as [|x l IH]; [done|]. cbn [fmap list_fmap]. rewrite !filter_cons, IH. cbn [RCreatedAt pgView]. by destruct (decide _). Qed.

Lemma selectRuns_older rows tenant agent at_ :
  selectRuns (λ kv, kv.1.1 = tenant ∧ cAgentID kv.2 = agent ∧ String.compare (cCreatedAt kv.2) at_ = Lt) rows ≡ₚ
  filter (λ x, String.compare (RCreatedAt x) at_ = Lt) (selectRuns (λ kv, kv.1.1 = tenant ∧ cAgentID kv.2 = agent) rows).
Proof.
  apply NoDup_Permutation; [apply selectRuns_NoDup|apply NoDup_filter, selectRuns_NoDup|]. intros x. rewrite list_elem_of_filter, !selectRuns_elem. split.
  - intros (k & row & Hk & (HT & HA & HL) & ->). split; [exact HL|]. by exists k, row.
  - intros (HL & k & row & Hk & [HT HA] & ->). by exists k, row.
Qed.

(** Pages agree too: after such a history, when the creation times of an agent's runs are
    different, each page of its runs, from the start or after one of its runs, is in
    Postgres the page of the file store. *)
Theorem run_pages_agree `{!RunRange, !GoRange run_range} (ops : list StoreOp) (tenant agent cursor : string) (limit : Z) :
  Forall storeOpOk ops → keysOwned (omap opRun ops) → (length ops ≤ Z.to_nat maxRunsInRunStore)%nat →
  component tenant = true → agent ≠ "" →
  let s := (trace storeStep emptyStore ops).2 in
  let mine := filter (λ r, TenantID r = tenant ∧ AgentID r = agent) (run_range (runs s)).*2 in
  NoDup (RCreatedAt <$> mine) → cursor = "" ∨ cursor ∈ RunID <$> mine →
  ∃ page, ListByAgent false tenant agent limit cursor s = inr page ∧
    PgListByAgent false tenant agent limit cursor (trace pgRunStep ∅ ops).2 = inr (pgView <$> page).
Proof.
  intros Hops Ho Hn Ht Ha s mine Hd Hcur.
  destruct (pgRun_histories (omap opRun ops) ops Ho Hops) with (n := 0%nat) (s := emptyStore) (rows := ∅ : RunRows) as [_ Hrel]; [|apply emptyRuns_rel|done|].
  { intros op run Hop Hr. apply list_elem_of_omap. by exists op. }
  fold s in Hrel. set (rows := (trace pgRunStep ∅ ops).2) in *. cbn [Nat.add] in Hrel.
  assert (Htn : tenant ≠ "") by (apply component_spec in Ht; tauto).
  unfold ListByAgent, PgListByAgent. rewrite !(decide_False (P := tenant = "" ∨ agent = "")) by tauto. cbv zeta. fold mine.
  set (sorted := sortSlice newer mine).
  assert (HP : sorted ≡ₚ mine) by apply sort_perm. assert (HS : StronglySorted newer sorted) by (apply sort_sorted; apply _).
  assert (HD : NoDup (RCreatedAt <$> sorted)) by (by rewrite HP).
  destruct (decide (cursor = "")) as [->|Hc].
  - exists (take (Z.to_nat (clampLimit limit)) sorted). split; [done|]. f_equal. rewrite fmap_take. f_equal.
    apply sort_runs_unique; [by rewrite <- list_fmap_compose|by apply sorted_fmap_pgView|]. rewrite (selected_runs _ _ s) by done. by rewrite HP.
  - destruct Hcur as [|Hcur]; [done|]. rewrite <- HP in Hcur. apply list_elem_of_fmap in Hcur as (r & -> & Hr).
    apply list_elem_of_split in Hr as (done_ & rest & Hsplit).
    assert (Hin : r ∈ mine) by (rewrite <- HP, Hsplit; set_solver). pose proof Hin as [[HT HA] Hin']%list_elem_of_filter.
    assert (Hids : NoDup (RunID <$> sorted)).
    { rewrite HP. assert (mine ≡ₚ agentRuns tenant agent s) as ->; [unfold mine, agentRuns; by rewrite (range_perm (runs s))|].
      apply agentRuns_ids; [done|apply keyed_history]. }
    rewrite Hsplit, afterCursor_split by (rewrite <- ?Hsplit; done). exists (take (Z.to_nat (clampLimit limit)) rest). split; [done|].
    apply (file_run _ _ _ _ _ Hrel) in Hin'. destruct (rel_file _ _ _ _ Hrel _ _ Hin') as (_ & [_ Hrc] & _).
    assert (HK : rows !! (tenant, RunID r) = Some (insertedRow r)) by (by rewrite (rel_rows _ _ _ _ Hrel) by done; rewrite <- HT, Hin').
    rewrite HK. f_equal. rewrite fmap_take. f_equal. rewrite Hsplit in HS, HD.
    assert (StronglySorted newer rest ∧ NoDup (RCreatedAt <$> rest)) as [HS' HD'].
    { apply StronglySorted_app in HS as (_ & _ & HS). apply StronglySorted_cons in HS as [_ HS]. rewrite fmap_app, fmap_cons in HD. apply NoDup_app in HD as (_ & _ & HD). apply NoDup_cons in HD as [_ HD]. done. }
    apply sort_runs_unique; [by rewrite <- list_fmap_compose|by apply sorted_fmap_pgView|].
    rewrite selectRuns_older, (selected_runs _ _ s) by done. fold mine. rewrite <- HP, filter_pgView, Hsplit.
    cbn [cCreatedAt insertedRow]. by rewrite older_is_rest.
Qed.
End listing.

(** ** What is lost *)

(** The columns that relate runs are never written, so no run has children: cancelling a run
    does not reach the runs it started, and the retries of a run are not found. *)
Theorem pg_children_unknown `{SliceSort, !SliceSortLaws} (ops : list StoreOp) tenant parent :
  parent ≠ "" → PgListChildRuns false tenant parent (trace pgRunStep ∅ ops).2 = inr [].
Proof.
  intros Hp. unfold PgListChildRuns. destruct (decide (tenant = "" ∨ parent = "")); [done|].
  assert (HI : map_Forall (λ _ row, cRetryOf row = "" ∧ cParentRunID row = "") (trace pgRunStep ∅ ops).2).
  { apply trace_invariant; [|apply map_Forall_empty]. intros op rows _ HF. destruct op as [c f run|c f run|c t r]; cbn [pgRunStep]; [| |done].
    - unfold PgCreateRun. destruct (c || f); [done|]. destruct (decide _); [done|]. by apply map_Forall_insert_2.
    - unfold PgSaveRun. destruct (c || f); [done|]. destruct (decide _); [done|]. apply map_Forall_insert_2; [|done].
      destruct (rows !! (TenantID run, RunID run)) as [old|] eqn:E; [|done]. exact (HF _ _ E). }
  assert (HE : selectRuns (λ kv, kv.1.1 = tenant ∧ (cRetryOf kv.2 = parent ∨ cParentRunID kv.2 = parent)) (trace pgRunStep ∅ ops).2 = []).
  { destruct (selectRuns _ _) as [|x l] eqn:E; [done|]. assert (Hx : x ∈ x :: l) by left. rewrite <- E in Hx. apply selectRuns_elem in Hx as (k & row & Hk & [_ Hc] & _).
    destruct (HI _ _ Hk) as [HR HP]. cbn in Hc. rewrite HR, HP in Hc. by destruct Hc as [Hc|Hc]; rewrite <- Hc in Hp. }
  rewrite HE. f_equal. apply Permutation_nil_r. by rewrite sort_perm.
Qed.

Definition sample_run (id created : string) (error : option RunError) : Run := {|
  TenantID := "acme"; AgentID := "bot"; RunID := id; RStatus := "completed"; RCreatedAt := created; StartedAt := ""; CompletedAt := "";
  EventsURL := ""; Input := {| InputType := "text"; InputText := "hello" |};
  Options := {| Priority := "normal"; TimeoutMs := 1000; MaxSteps := 3; StreamEvents := false |};
  Output := None; Error_ := error; IdempotencyKey := ""; RetryOf := "r0"; ParentRunID := ""
|}.

(** A run without an error is read back with an empty one, and without its input. *)
Theorem pg_runs_gain_errors : ∃ run,
  (trace pgRunStep ∅ [SCreate false false (sample_run "r1" "2025-01-01T00:00:00Z" None); SGet false "acme" "r1"]).1 = [inr None; inr (Some run)] ∧
  Error_ run = Some zeroError ∧ InputText (Input run) = "" ∧ RetryOf run = "".
Proof. exists (pgView (sample_run "r1" "2025-01-01T00:00:00Z" None)). split; [vm_compute; reflexivity|done]. Qed.

(** Runs created in the same second as the cursor are on no later page. *)
Theorem pg_pages_skip_ties :
  let rows := (trace pgRunStep ∅ [SCreate false false (sample_run "r1" "2025-01-01T00:00:00Z" None);
                                  SCreate false false (sample_run "r2" "2025-01-01T00:00:00Z" None)]).2 in
  ∃ id, RunID <$> (default [] (match @PgListByAgent mergeSlice false "acme" "bot" 1 "" rows with inr p => Some p | _ => None end)) = [id] ∧
    @PgListByAgent mergeSlice false "acme" "bot" 1 id rows = inr [].
Proof. exists "r1". split; vm_compute; reflexivity. Qed.

(** ** Witnesses *)

Definition sample_agent (cfg : option Chat.AgentConfig) : Chat.Agent := {|
  Chat.AgentID_ := "bot"; Chat.AgentTenant := "acme"; Chat.AName := "Bot"; Chat.Description := ""; Chat.AVersion := "1"; Chat.AStatus := "active";
  Chat.Config := cfg; Chat.ACreatedAt := "t"; Chat.AUpdatedAt := "t"
|}.

Definition sample_agent_ops : list AgentStore.AgentOp := [
  AgentStore.OpCreate false false (sample_agent None); AgentStore.OpCreate false false (sample_agent None); AgentStore.OpGet false "acme" "bot";
  AgentStore.OpDelete false false "acme" "bot"; AgentStore.OpDelete false false "acme" "bot"].

Lemma agent_backends_agree_witness :
  (trace pgAgentStep ∅ sample_agent_ops).1 = pgAgentAnswer <$> (trace AgentStore.agentStep (emptyFileAgents "data" ["agents"]) sample_agent_ops).1 ∧
  (trace pgAgentStep ∅ sample_agent_ops).1 = [inr None; inl PgUniqueViolation; inr (Some (sample_agent None)); inr None; inl PgAgentNotFound].
Proof. split; [|vm_compute; reflexivity]. apply agent_backends_agree; repeat constructor. Defined.

Definition sample_run_ops : list StoreOp := [
  SCreate false false (sample_run "r1" "2025-01-01T00:00:00Z" None); SCreate false false (sample_run "r2" "2025-01-01T00:00:01Z" None);
  SCreate false false (sample_run "r1" "2025-01-01T00:00:02Z" None); SSave false false (sample_run "r1" "2025-01-01T00:00:03Z" (Some zeroError));
  SGet false "acme" "r1"; SGet false "acme" "r9"].

Lemma sample_keysOwned : keysOwned (omap opRun sample_run_ops).
Proof.
  assert (HF : Forall (λ r, IdempotencyKey r = "") (omap opRun sample_run_ops)) by (repeat constructor).
  rewrite Forall_forall in HF. intros r r' Hr Hr' _ _ Hne. destruct Hne. by apply HF.
Qed.

(** A run with an idempotency key, another run with the same one, and one of another tenant. *)
Definition keyed_run (tenant id : string) : Run := {|
  TenantID := tenant; AgentID := "bot"; RunID := id; RStatus := "queued"; RCreatedAt := "t"; StartedAt := ""; CompletedAt := "";
  EventsURL := ""; Input := {| InputType := "text"; InputText := "" |};
  Options := {| Priority := "normal"; TimeoutMs := 1000; MaxSteps := 3; StreamEvents := false |};
  Output := None; Error_ := Some zeroError; IdempotencyKey := "k"; RetryOf := ""; ParentRunID := ""
|}.

Definition keyed_run_ops : list StoreOp :=
  sample_run_ops ++ [SCreate false false (keyed_run "acme" "r3"); SCreate false false (keyed_run "acme" "r4"); SSave false false (keyed_run "acme" "r3");
                     SCreate false false (keyed_run "zeta" "r5"); SGet false "acme" "r4"].


(** The file store takes both runs. *)
Example file_store_shares_keys :
  (trace storeStep emptyStore [SCreate false false (keyed_run "acme" "r3"); SCreate false false (keyed_run "acme" "r4")]).1 = [inr None; inr None].
Proof. vm_compute. reflexivity. Qed.

Definition listRange : RunRange := map_to_list.

Lemma run_pages_agree_witness : ∃ page,
  @ListByAgent listRange mergeSlice false "acme" "bot" 10 "r1" (trace storeStep emptyStore sample_run_ops).2 = inr page ∧
  @PgListByAgent mergeSlice false "acme" "bot" 10 "r1" (trace pgRunStep ∅ sample_run_ops).2 = inr (pgView <$> page).
Proof.
  apply (@run_pages_agree mergeSlice mergeSlice_laws listRange); [apply GoRange_map_to_list|repeat constructor|apply sample_keysOwned| |done|done| |].
  - apply Nat.leb_le. vm_compute. reflexivity.
  - apply (bool_decide_eq_true_1 _). vm_compute. reflexivity.
  - right. apply (bool_decide_eq_true_1 _). vm_compute. reflexivity.
Defined.
