(* ===== verification/Migration.v ===== *)
(** * Moving to Postgres: the schema's migrations and the copy of the file stores

    internal/storage/postgres/migrations.go ([Migrate]) and
    internal/storage/migrate_storage.go (the StorageMigrator of the command
    migrate-storage).  The effect of a migration's SQL and the checksum are arguments.  The
    migrator is written against an interface of its target ([Target], with [TargetLaws]);
    the stores of [PgRuns] and [PgStores] implement it.  The theorems: every migration's SQL
    takes effect exactly once and in order whatever fails; the copy never overwrites, is
    complete when it reports no error, and a repetition changes nothing. *)
From S2P Require Import Prelude GoTime GoPath GoStrings Types.
From S2P Require Chat Events RunStore AgentStore KVStore PgStores PgRuns.

(** ** The schema *)

Module Schema.

Record migration := { Version : Z; Description : string; SQL : string }.

Section schema.
Context {D : Type} (run : string → D → option D) (checksum : string → string).

(** The database: the table schema_migrations with the checksum of each applied version,
    when it exists, and everything else. *)
Record Database := { applied : option (gmap Z string); content : D; statements : nat }.

Inductive MigrateError :=
  | BootstrapFailed | VersionQueryFailed | ChecksumQueryFailed | BeginFailed (v : Z) | ApplyFailed (v : Z) | RecordFailed (v : Z) | CommitFailed (v : Z).

(** [fails k]: the statement with number [k] fails, whatever it is. *)
Context (fails : nat → bool).

Definition tick (d : Database) : bool * Database :=
  (fails (statements d), {| applied := applied d; content := content d; statements := S (statements d) |}).

Definition currentVersion (table : gmap Z string) : Z := foldr Z.max 0 (map_to_list table).*1.

(** One migration in its transaction: its SQL, its record, the commit; anything that fails
    rolls back.  The record is a row with a unique version. *)
Definition applyOne (m : migration) (d : Database) : option MigrateError * Database :=
  let '(f, d) := tick d in
  if f then (Some (BeginFailed (Version m)), d) else
  let '(f, d) := tick d in
  match (if f then None else run (SQL m) (content d)), applied d with
  | None, _ => (Some (ApplyFailed (Version m)), d)
  | Some content', table =>
      let '(f, d) := tick d in
      match table with
      | None => (Some (RecordFailed (Version m)), d)
      | Some table =>
          if f || bool_decide (is_Some (table !! Version m)) then (Some (RecordFailed (Version m)), d) else
          let '(f, d) := tick d in
          if f then (Some (CommitFailed (Version m)), d)
          else (None, {| applied := Some (<[Version m := checksum (SQL m)]> table); content := content'; statements := statements d |})
      end
  end.

Fixpoint applyPending (current : Z) (ms : list migration) (d : Database) : option MigrateError * Database :=
  match ms with
  | [] => (None, d)
  | m :: ms =>
      if bool_decide (Version m <= current) then applyPending current ms d
      else match applyOne m d with
           | (Some e, d) => (Some e, d)
           | (None, d) => applyPending current ms d
           end
  end.

(** A checksum that differs is only logged. *)
Definition Migrate (dryRun : bool) (ms : list migration) (d : Database) : option MigrateError * Database :=
  if dryRun then (None, d) else
  let '(f, d) := tick d in
  if f then (Some BootstrapFailed, d) else
  let table := default ∅ (applied d) in
  let d := {| applied := Some table; content := content d; statements := statements d |} in
  let '(f, d) := tick d in
  if f then (Some VersionQueryFailed, d) else
  let '(f, d) := tick d in
  if f then (Some ChecksumQueryFailed, d) else applyPending (currentVersion table) ms d.

(** *** Exactly once, in order *)

(** The versions of the list are positive and rising. *)
Definition numbered (ms : list migration) : Prop :=
  StronglySorted Z.lt (Version <$> ms) ∧ Forall (λ m, 0 < Version m) ms.

Fixpoint runAll (ms : list migration) (c : D) : option D :=
  match ms with [] => Some c | m :: ms => c ← run (SQL m) c; runAll ms c end.

(** The database holds the effects of the first [n] migrations on the first content. *)
Record upTo (ms : list migration) (c0 : D) (n : nat) (d : Database) : Prop := {
  up_content : runAll (take n ms) c0 = Some (content d);
  up_applied : default ∅ (applied d) = list_to_map ((λ m, (Version m, checksum (SQL m))) <$> take n ms);
  up_len : (n ≤ length ms)%nat
}.

Lemma runAll_snoc ms m c : runAll (ms ++ [m]) c = c ← runAll ms c; run (SQL m) c.
Proof.
  revert c. induction ms as [|x ms IH]; intros c; cbn [app runAll].
  - cbn. by destruct (run (SQL m) c).
  - destruct (run (SQL x) c); [apply IH|done].
Qed.

Lemma currentVersion_spec table : (∀ v, is_Some (table !! v) → v <= currentVersion table) ∧
  (currentVersion table = 0 ∨ is_Some (table !! currentVersion table)) ∧ 0 <= currentVersion table.
Proof.
  unfold currentVersion.
  assert (HM : ∀ v, is_Some (table !! v) ↔ v ∈ (map_to_list table).*1).
  { intros v. rewrite list_elem_of_fmap. split.
    - intros [c Hc]. exists (v, c). split; [done|]. by apply elem_of_map_to_list.
    - intros ([v' c] & -> & Hc). apply elem_of_map_to_list in Hc. by exists c. }
  setoid_rewrite HM. clear HM. induction (map_to_list table).*1 as [|v vs IH]; [split_and!; [by intros v ?%not_elem_of_nil|by left|done]|]. cbn [foldr].
  destruct IH as (H1 & H2 & H3). split_and!.
  - intros v' Hv. apply elem_of_cons in Hv as [->|Hv]; [apply Z.le_max_l|]. transitivity (foldr Z.max 0 vs); [by apply H1|apply Z.le_max_r].
  - destruct (Z.max_spec v (foldr Z.max 0 vs)) as [[_ ->]|[? ->]]; [|right; by left]. destruct H2 as [->|H2]; [by left|right; by right].
  - lia.
Qed.

Lemma rising_lookup l : StronglySorted Z.lt l → ∀ i j a b, l !! i = Some a → l !! j = Some b → (i < j)%nat → a < b.
Proof.
  induction 1 as [|x l Hl IH Hx]; intros [|i] [|j] a b Hi Hj Hij; try done; try lia; cbn in Hi, Hj.
  - injection Hi as <-. rewrite Forall_forall in Hx. apply Hx. by eapply list_elem_of_lookup_2.
  - by apply (IH i j); [..|lia].
Qed.

Lemma numbered_snoc ms n m : numbered ms → ms !! n = Some m → ∀ k x, ms !! k = Some x → (Version x <= Version m ↔ (k ≤ n)%nat).
Proof.
  intros [Hs _] Hn k x Hk. assert (Hlt : ∀ i j a b, ms !! i = Some a → ms !! j = Some b → (i < j)%nat → Version a < Version b).
  { intros i j a b Hi Hj Hij. apply (f_equal (fmap Version)) in Hi, Hj. rewrite <- !list_lookup_fmap in Hi, Hj.
    by apply (rising_lookup (Version <$> ms) Hs i j). }
  split.
  - intros Hle. destruct (decide (k ≤ n)%nat); [done|]. specialize (Hlt n k m x Hn Hk). lia.
  - intros Hle. destruct (decide (k = n)) as [->|]; [simplify_eq; lia|]. specialize (Hlt k n x m Hk Hn). lia.
Qed.
End schema.
End Schema.
Module SchemaFacts.
Import Schema.

(** [registeredMigrations]; the text of each is an argument. *)
Definition registeredMigrations (sql : Z → string) : list migration :=
  (λ vd, {| Version := vd.1; Description := vd.2; SQL := sql vd.1 |}) <$> [
    (1, "Base tables: runs, agents, audit_events, usage_records, conversation_memory, kv_store, event_log");
    (2, "v1.06 additions: tenants, tenant_members, api_keys, usage_records columns, parent_run_id");
    (3, "v1.07: agent_versions history table, runs.retry_of column"); (4, "v1.075: internal job queue table");
    (5, "v2.0: agent_clearance and agent_decisions tables for MCP governance");
    (6, "v2.0 #7: agent_memory table for memory_store/memory_recall MCP tools");
    (7, "v2.1 #9: knowledge_documents table for full-text search MCP tools");
    (8, "v2.3 #16: elevation_requests table for clearance elevation workflow");
    (9, "v2.3 #15: managed_agents and agent_messages tables for spawn/message MCP tools");
    (10, "v2.4 #18: pg_trgm extension and trigram indexes for semantic memory search")].

Section facts.
Context {D : Type} (run : string → D → option D) (checksum : string → string) (fails : nat → bool).
Context (ms : list migration) (Hms : numbered ms) (c0 : D).

Abbreviation upTo := (upTo run checksum ms c0).

Lemma table_versions n v : (n ≤ length ms)%nat →
  is_Some ((list_to_map ((λ m, (Version m, checksum (SQL m))) <$> take n ms) : gmap Z string) !! v) ↔ ∃ i x, (i < n)%nat ∧ ms !! i = Some x ∧ Version x = v.
Proof.
  intros Hn. split.
  - intros [c Hc]. apply elem_of_list_to_map_2, list_elem_of_fmap in Hc as (x & Hx & Hin). injection Hx as -> ->.
    apply list_elem_of_lookup in Hin as [i Hi]. apply lookup_take_Some in Hi as [Hi Hlt]. by exists i, x.
  - intros (i & x & Hi & Hx & <-). destruct (list_to_map _ !! Version x) eqn:E; [by eexists|]. apply not_elem_of_list_to_map_2 in E. destruct E.
    apply list_elem_of_fmap. exists (Version x, checksum (SQL x)). split; [done|]. apply list_elem_of_fmap. exists x. split; [done|].
    apply list_elem_of_lookup. exists i. apply lookup_take_Some. done.
Qed.

(** The versions up to the current one are those of the applied migrations. *)
Lemma pending_spec n d : upTo n d → ∀ k m, ms !! k = Some m → Version m <= currentVersion (default ∅ (applied d)) ↔ (k < n)%nat.
Proof.
  intros [_ Ha Hn] k m Hk. rewrite Ha. destruct (currentVersion_spec (list_to_map ((λ m, (Version m, checksum (SQL m))) <$> take n ms))) as (Hmax & Hin & _).
  split.
  - intros Hle. destruct Hms as [_ Hpos]. rewrite Forall_lookup in Hpos. specialize (Hpos _ _ Hk).
    destruct Hin as [H0|Hin]; [lia|]. apply table_versions in Hin as (i & x & Hi & Hx & Hv); [|done].
    rewrite <- Hv in Hle. apply (numbered_snoc ms i x Hms Hx k m Hk) in Hle. lia.
  - intros Hlt. apply Hmax. apply table_versions; [done|]. by exists k, m.
Qed.

Lemma applyOne_up n d m : upTo n d → is_Some (applied d) → ms !! n = Some m →
  let '(e, d') := applyOne run checksum fails m d in upTo (match e with None => S n | Some _ => n end) d' ∧ is_Some (applied d').
Proof.
  intros [Hc Ha Hn] [table Ht] Hm.
  assert (HK : ∀ k, upTo n {| applied := Some table; content := content d; statements := k |}) by (intros k; split; cbn; [done|by rewrite <- Ha, Ht|done]).
  unfold applyOne, tick. cbn [applied content statements]. rewrite Ht. destruct (fails (statements d)); [split; [apply HK|by eexists]|].
  destruct (if fails (S (statements d)) then None else run (SQL m) (content d)) as [c'|] eqn:Er; [|split; [apply HK|by eexists]].
  destruct (fails (S (S (statements d))) || _) eqn:Ef; [split; [apply HK|by eexists]|].
  destruct (fails (S (S (S (statements d))))); [split; [apply HK|by eexists]|].
  split; [|by eexists]. destruct (fails (S (statements d))); [done|]. pose proof (lookup_lt_Some _ _ _ Hm) as Hlt. split; cbn [applied content default id]; [| |lia].
  - rewrite (take_S_r _ _ m) by done. rewrite runAll_snoc, Hc. cbn. by rewrite Er.
  - rewrite (take_S_r _ _ m), fmap_app, list_to_map_app by done. cbn [fmap list_fmap list_to_map].
    rewrite Ht in Ha. cbn in Ha. rewrite Ha. rewrite insert_union_singleton_r; [done|].
    apply not_elem_of_list_to_map_1. intros Hin. apply orb_false_iff in Ef as [_ Ef]. apply bool_decide_eq_false_1 in Ef. apply Ef. rewrite Ha.
    destruct (list_to_map _ !! _) eqn:E; [by eexists|]. apply not_elem_of_list_to_map_2 in E. done.
Qed.

Lemma applyPending_up n0 current : (∀ k m, ms !! k = Some m → Version m <= current ↔ (k < n0)%nat) →
  ∀ j d, (j ≤ length ms)%nat → upTo (Nat.max j n0) d → is_Some (applied d) →
  let '(e, d') := applyPending run checksum fails current (drop j ms) d in
  ∃ n, upTo n d' ∧ (Nat.max j n0 ≤ n)%nat ∧ (e = None → n = length ms).
Proof.
  intros Hcur j. remember (length ms - j)%nat as left_ eqn:Hl. revert j Hl. induction left_ as [|left_ IH]; intros j Hl d Hj Hup Hs.
  - rewrite drop_ge by lia. exists (Nat.max j n0). split_and!; [done|lia|]. intros _. pose proof (up_len _ _ _ _ _ _ Hup). lia.
  - destruct (lookup_lt_is_Some_2 ms j) as [m Hm]; [lia|]. rewrite (drop_S ms m j) by done. cbn [applyPending].
    specialize (Hcur j m Hm). destruct (decide (Version m <= current)).
    + rewrite bool_decide_true by done. assert (j < n0)%nat by tauto. specialize (IH (S j) ltac:(lia) d ltac:(lia)).
      replace (Nat.max (S j) n0) with (Nat.max j n0) in IH by lia. by apply IH.
    + rewrite bool_decide_false by done. assert (¬ (j < n0)%nat) by tauto. replace (Nat.max j n0) with j in * by lia.
      pose proof (applyOne_up j d m Hup Hs Hm) as HA. destruct (applyOne run checksum fails m d) as [[e|] d']; destruct HA as [Hup' Hs'].
      * exists j. split_and!; [done|lia|done].
      * specialize (IH (S j) ltac:(lia) d' ltac:(lia)). replace (Nat.max (S j) n0) with (S j) in IH by lia. specialize (IH Hup' Hs').
        destruct (applyPending _ _ _ _ _ _) as [e d'']. destruct IH as (n' & ? & ? & ?). exists n'. split_and!; [done|lia|done].
Qed.

Lemma Migrate_up n dry d : upTo n d →
  let '(e, d') := Migrate run checksum fails dry ms d in ∃ n', upTo n' d' ∧ (n ≤ n')%nat ∧ (e = None → dry = false → n' = length ms).
Proof.
  intros Hup. unfold Migrate, tick. destruct dry; [by exists n|].
  assert (HK : ∀ table k, table = default ∅ (applied d) → upTo n {| applied := Some table; content := content d; statements := k |}).
  { intros table k ->. destruct Hup. by split. }
  destruct (fails (statements d)). { exists n. split_and!; [|lia|done]. destruct Hup. by split. }
  cbn [statements applied content]. destruct (fails _); [exists n; split_and!; [by apply HK|lia|done]|]. cbn [statements applied content].
  destruct (fails _); [exists n; split_and!; [by apply HK|lia|done]|]. cbn [statements applied content].
  pose proof (applyPending_up n (currentVersion (default ∅ (applied d))) (pending_spec n d Hup) 0) as HP.
  specialize (HP {| applied := Some (default ∅ (applied d)); content := content d; statements := S (S (S (statements d))) |} ltac:(lia)).
  rewrite drop_0 in HP. specialize (HP ltac:(by apply HK) ltac:(by eexists)).
  destruct (applyPending _ _ _ _ _ _) as [e d']. destruct HP as (n' & H1 & H2 & H3). exists n'. split_and!; [done|lia|by intros ? _; apply H3].
Qed.

(** C12. The schema's migrations take effect exactly once and in order: after any number of
    starts, dry or not, whichever statements fail, the database is what the first so many
    migrations make of the first content, recorded under their versions; a start that
    reports success has applied them all. *)
Theorem migrations_exactly_once (attempts : list bool) :
  let '(answers, d) := trace (λ dry, Migrate run checksum fails dry ms) {| applied := None; content := c0; statements := 0 |} attempts in
  ∃ n, upTo n d ∧ (∀ i, attempts !! i = Some false → answers !! i = Some None → n = length ms).
Proof.
  assert (HG : ∀ attempts n d, upTo n d → ∃ n', upTo n' (trace (λ dry, Migrate run checksum fails dry ms) d attempts).2 ∧ (n ≤ n')%nat ∧
    ∀ i, attempts !! i = Some false → (trace (λ dry, Migrate run checksum fails dry ms) d attempts).1 !! i = Some None → n' = length ms).
  { clear attempts. induction attempts as [|dry attempts IH]; intros n d Hup; [by exists n|]. rewrite trace_cons, trace_cons_answers.
    pose proof (Migrate_up n dry d Hup) as HM. destruct (Migrate run checksum fails dry ms d) as [e d']. destruct HM as (n1 & Hup1 & Hle & Hall).
    destruct (IH n1 d' Hup1) as (n2 & Hup2 & Hle2 & Hall2). exists n2. cbn [fst snd]. split_and!; [done|lia|].
    intros [|i] Hi Ha; cbn in Hi, Ha; [|by apply (Hall2 i)]. injection Hi as ->. injection Ha as ->. pose proof (up_len _ _ _ _ _ _ Hup2). specialize (Hall eq_refl eq_refl). lia. }
  destruct (HG attempts 0%nat {| applied := None; content := c0; statements := 0 |}) as (n & Hup & _ & Hall); [split; [done|done|lia]|].
  destruct (trace _ _ attempts) as [answers d]. exists n. split; [exact Hup|exact Hall].
Qed.
End facts.

Lemma registered_numbered sql : numbered (registeredMigrations sql).
Proof. split; repeat (constructor; cbn); lia. Qed.

Definition logSQL (sql : string) (log : list string) : option (list string) := Some (log ++ [sql]).

Definition sqlName (v : Z) : string := String (Ascii.ascii_of_nat (64 + Z.to_nat v)) "".

(** Two starts, the first of which loses its connection in the second migration. *)
Lemma migrations_exactly_once_witness :
  let '(answers, d) := trace (λ dry, Migrate logSQL id (λ k, bool_decide (k = 9)%nat) dry (registeredMigrations sqlName))
    {| applied := None; content := []; statements := 0 |} [false; false] in
  answers = [Some (RecordFailed 2); None] ∧ upTo logSQL id (registeredMigrations sqlName) [] 10 d ∧
  content d = ["A"; "B"; "C"; "D"; "E"; "F"; "G"; "H"; "I"; "J"].
Proof.
  pose proof (migrations_exactly_once logSQL id (λ k, bool_decide (k = 9)%nat) (registeredMigrations sqlName) (registered_numbered sqlName) [] [false; false]) as HM.
  match type of HM with let '(_, _) := ?t in _ =>
    assert (HA : (t.1, content t.2) = ([Some (RecordFailed 2); None], ["A"; "B"; "C"; "D"; "E"; "F"; "G"; "H"; "I"; "J"])) by (vm_compute; reflexivity);
    destruct t as [answers d] end.
  injection HA as -> HC. destruct HM as (n & Hup & Hn). specialize (Hn 1%nat eq_refl eq_refl). cbn in Hn. subst n. done.
Defined.
End SchemaFacts.

(** ** The copy of the file stores *)

Record MigrationResult := { Agents : Z; Runs : Z; Memory : Z; KV : Z; EventsN : Z; Skipped : Z; Errors : list string }.

Definition noResult : MigrationResult := {| Agents := 0; Runs := 0; Memory := 0; KV := 0; EventsN := 0; Skipped := 0; Errors := [] |}.

(** What a directory listing finds: names, and whether each is a directory. *)
Inductive Dir := DirMissing | DirBroken | Entries (entries : list (string * bool)).

(** The file stores, as far as the migrator reads them. *)
Record Source := {
  readDir : string → Dir;
  listAgents : string → option (list Chat.Agent);
  listRuns : string → option (list Run);
  readMemory : string → string → option (list Chat.StoredMessage);
  listKeys : string → string → option (list string);
  readKV : string → string → string → option (option string);
  readEvents : string → string → option (list Event)
}.

(** The stores that are written.  A read answers whether there is something, or fails; a
    write may fail because the record exists. *)
Inductive WriteFault := RecordExists | WriteFailed.

Class Target (T : Type) := {
  hasAgent : string → string → T → option bool * T;
  createAgent : Chat.Agent → T → option WriteFault * T;
  hasRun : string → string → T → option bool * T;
  createRun : Run → T → option WriteFault * T;
  hasMemory : string → string → T → option bool * T;
  appendMemory : string → string → list Chat.StoredMessage → T → option WriteFault * T;
  hasKV : string → string → string → T → option bool * T;
  setKV : string → string → string → string → T → option WriteFault * T;
  hasEvents : string → string → T → option bool * T;
  appendEvent : Event → T → option WriteFault * T
}.

Record Paths := { AgentDir : string; MemoryDir : string; KVDir : string; EventDir : string }.

Section migrator.
Context {T : Type} `{Target T} (src : Source) (paths : Paths) (dryRun : bool).

(** The state of a migration; [deadline] is the number of checks of the context that still
    find it alive, [None] when it has no end. *)
Record St := { target : T; res : MigrationResult; deadline : option nat }.

Definition setTarget (t : T) (s : St) : St := {| target := t; res := res s; deadline := deadline s |}.

Definition add (f : MigrationResult → MigrationResult) (s : St) : St :=
  {| target := target s; res := f (res s); deadline := deadline s |}.

Definition failed (e : string) (r : MigrationResult) : MigrationResult :=
  {| Agents := Agents r; Runs := Runs r; Memory := Memory r; KV := KV r; EventsN := EventsN r; Skipped := Skipped r; Errors := Errors r ++ [e] |}.
Definition skipped (r : MigrationResult) : MigrationResult :=
  {| Agents := Agents r; Runs := Runs r; Memory := Memory r; KV := KV r; EventsN := EventsN r; Skipped := Skipped r + 1; Errors := Errors r |}.
Definition oneAgent (r : MigrationResult) : MigrationResult :=
  {| Agents := Agents r + 1; Runs := Runs r; Memory := Memory r; KV := KV r; EventsN := EventsN r; Skipped := Skipped r; Errors := Errors r |}.
Definition oneRun (r : MigrationResult) : MigrationResult :=
  {| Agents := Agents r; Runs := Runs r + 1; Memory := Memory r; KV := KV r; EventsN := EventsN r; Skipped := Skipped r; Errors := Errors r |}.
Definition oneMemory (r : MigrationResult) : MigrationResult :=
  {| Agents := Agents r; Runs := Runs r; Memory := Memory r + 1; KV := KV r; EventsN := EventsN r; Skipped := Skipped r; Errors := Errors r |}.
Definition oneKV (r : MigrationResult) : MigrationResult :=
  {| Agents := Agents r; Runs := Runs r; Memory := Memory r; KV := KV r + 1; EventsN := EventsN r; Skipped := Skipped r; Errors := Errors r |}.
Definition moreEvents (n : Z) (r : MigrationResult) : MigrationResult :=
  {| Agents := Agents r; Runs := Runs r; Memory := Memory r; KV := KV r; EventsN := EventsN r + n; Skipped := Skipped r; Errors := Errors r |}.

(** A question to the target; the second result is the state after it. *)
Definition ask (q : T → option bool * T) (s : St) : option bool * St :=
  let '(a, t) := q (target s) in (a, setTarget t s).

Definition write (w : T → option WriteFault * T) (s : St) : option WriteFault * St :=
  let '(e, t) := w (target s) in (e, setTarget t s).

(** The common course of a record: skip what is there, count in a dry run, else write. *)
Definition copyOne (q : T → option bool * T) (w : T → option WriteFault * T) (existsIsSkip : bool) (what : string)
    (count : MigrationResult → MigrationResult) (s : St) : St :=
  match ask q s with
  | (None, s) => add (failed ("check " +:+ what)) s
  | (Some true, s) => add skipped s
  | (Some false, s) =>
      if dryRun then add count s
      else match write w s with
           | (Some RecordExists, s) => if existsIsSkip then add skipped s else add (failed ("write " +:+ what)) s
           | (Some WriteFailed, s) => add (failed ("write " +:+ what)) s
           | (None, s) => add count s
           end
  end.

Definition migrateOneAgent (a : Chat.Agent) : St → St :=
  copyOne (hasAgent (Chat.AgentTenant a) (Chat.AgentID_ a)) (createAgent a) true "agent" oneAgent.

Definition migrateOneRun (r : Run) : St → St :=
  copyOne (hasRun (TenantID r) (RunID r)) (createRun r) true "run" oneRun.

Definition migrateOneMemory (tenantID agentID : string) (s : St) : St :=
  match readMemory src tenantID agentID with
  | None => add (failed "read memory") s
  | Some [] => s
  | Some msgs => copyOne (hasMemory tenantID agentID) (appendMemory tenantID agentID msgs) false "memory" oneMemory s
  end.

(** The keys of an agent one after the other; the counter is added to the result at the
    end of the loop, which comes to the same. *)
Definition migrateKey (tenantID agentID key : string) (s : St) : St :=
  match readKV src tenantID agentID key with
  | None => add (failed "read kv") s
  | Some None => s
  | Some (Some val) => copyOne (hasKV tenantID agentID key) (setKV tenantID agentID key val) false "kv" oneKV s
  end.

Definition migrateOneKV (tenantID agentID : string) (s : St) : St :=
  match listKeys src tenantID agentID with
  | None => add (failed "list kv keys") s
  | Some keys => foldl (λ s k, migrateKey tenantID agentID k s) s keys
  end.

(** Each event on its own; a failure is noted and the next one is tried. *)
Definition appendOne (e : Event) (s : St) : St :=
  match write (appendEvent e) s with
  | (Some _, s) => add (failed "write event") s
  | (None, s) => add (moreEvents 1) s
  end.

Definition migrateOneEventRun (tenantID runID : string) (s : St) : St :=
  match readEvents src tenantID runID with
  | None => add (failed "read events") s
  | Some [] => s
  | Some events =>
      match ask (hasEvents tenantID runID) s with
      | (None, s) => add (failed "check events") s
      | (Some true, s) => add skipped s
      | (Some false, s) =>
          if dryRun then add (moreEvents (Z.of_nat (length events))) s
          else foldl (λ s e, appendOne e s) s events
      end
  end.

(** [ctx.Err()] before each record; the loop and its callers' loops end when it is set. *)
Definition alive (s : St) : bool * St :=
  match deadline s with
  | None => (true, s)
  | Some O => (false, s)
  | Some (S n) => (true, {| target := target s; res := res s; deadline := Some n |})
  end.

(** The flag says that the context was found done. *)
Fixpoint each {A} (step : A → St → St) (xs : list A) (s : St) : bool * St :=
  match xs with
  | [] => (false, s)
  | x :: xs =>
      match alive s with
      | (false, s) => (true, add (failed "context cancelled") s)
      | (true, s) => each step xs (step x s)
      end
  end.

(** The tenants of one kind of record: a listing that fails is noted. *)
Fixpoint perTenant {A} (what : string) (list_ : string → option (list A)) (step : A → St → St) (tenantIDs : list string) (s : St) : St :=
  match tenantIDs with
  | [] => s
  | tid :: tids =>
      match list_ tid with
      | None => perTenant what list_ step tids (add (failed what) s)
      | Some xs => match each step xs s with
                   | (true, s) => s
                   | (false, s) => perTenant what list_ step tids s
                   end
      end
  end.

Definition discoverTenants : option (list string) :=
  if decide (AgentDir paths = "") then Some []
  else match readDir src (AgentDir paths) with
       | DirMissing => Some []
       | DirBroken => None
       | Entries es => Some ((filter (λ e, e.2 = true) es).*1)
       end.

(** The pairs of {tenantID}/{id}.json below a directory; a tenant's directory that cannot be
    read is passed over. *)
Definition pairsOf (dir tenantID : string) : list (string * string) :=
  match readDir src (Join [dir; tenantID]) with
  | Entries es => (λ e, (tenantID, takeBytes (String.length e.1 - 5) e.1)) <$> filter (λ e, e.2 = false ∧ HasSuffix e.1 ".json" = true) es
  | _ => []
  end.

Definition discoverPairs (dir : string) : option (list (string * string)) :=
  match readDir src dir with
  | DirMissing => Some []
  | DirBroken => None
  | Entries es => Some (mjoin ((λ e, pairsOf dir e.1) <$> filter (λ e, e.2 = true) es))
  end.

Definition perPair (what dir : string) (step : string → string → St → St) (s : St) : St :=
  if decide (dir = "") then s
  else match discoverPairs dir with
       | None => add (failed what) s
       | Some pairs => (each (λ p, step p.1 p.2) pairs s).2
       end.

Definition migrateAgents : list string → St → St := perTenant "list agents" (listAgents src) migrateOneAgent.

Definition migrateRuns : list string → St → St := perTenant "list runs" (listRuns src) migrateOneRun.

Definition migrateMemory : St → St := perPair "discover memory pairs" (MemoryDir paths) migrateOneMemory.

Definition migrateKV : St → St := perPair "discover kv pairs" (KVDir paths) migrateOneKV.

Definition migrateEvents : St → St := perPair "discover event pairs" (EventDir paths) migrateOneEventRun.

(** [Migrate]; [None] is an error instead of a result. *)
Definition Migrate (t : T) (until : option nat) : option (MigrationResult * T) :=
  match alive {| target := t; res := noResult; deadline := until |} with
  | (false, _) => None
  | (true, s) =>
      match discoverTenants with
      | None => None
      | Some tenantIDs =>
          let s := migrateAgents tenantIDs s in
          let s := migrateRuns tenantIDs s in
          let s := migrateMemory s in
          let s := migrateKV s in
          let s := migrateEvents s in
          Some (res s, target s)
      end
  end.
End migrator.

(** ** What the migrator relies on *)

(** The records of a target, all kinds in one name space. *)
Inductive Key := KAgent (t a : string) | KRun (t r : string) | KMemory (t a : string) | KKV (t a k : string) | KEvents (t r : string).

#[global] Instance Key_eq_dec : EqDecision Key.
Proof. solve_decision. Defined.

Inductive Stored :=
  | SAgent (a : Chat.Agent) | SRun (r : Run) | SMemory (ms : list Chat.StoredMessage) | SKV (v : string) | SEvents (es : list Event).

(** What the target holds, and what it keeps of a record that it is given. *)
Class TargetView (T : Type) := {
  view : T → Key → option Stored;
  keepAgent : Chat.Agent → Chat.Agent; keepRun : Run → Run;
  keepMemory : list Chat.StoredMessage → list Chat.StoredMessage; keepEvent : Event → Event
}.

Section laws.
Context {T : Type} `{Target T, TargetView T}.

Definition sameView (t t' : T) : Prop := ∀ k, view t' k = view t k.

(** A question that is answered tells whether the record is there, and changes nothing. *)
Definition asks (q : T → option bool * T) (k : Key) : Prop :=
  ∀ t, sameView t (q t).2 ∧ match (q t).1 with Some b => b = true ↔ is_Some (view t k) | None => True end.

(** A write of a record that is not there puts it there, or fails and changes nothing; it does
    not say that the record exists. *)
Definition writes (w : T → option WriteFault * T) (k : Key) (v : Stored) : Prop :=
  ∀ t, view t k = None →
    match (w t).1 with
    | None => ∀ k', view (w t).2 k' = if decide (k' = k) then Some v else view t k'
    | Some WriteFailed => sameView t (w t).2
    | Some RecordExists => False
    end.

Definition eventsOf (s : option Stored) : list Event := match s with Some (SEvents es) => es | _ => [] end.

Class TargetLaws : Prop := {
  law_hasAgent t a : asks (hasAgent t a) (KAgent t a);
  law_createAgent a : writes (createAgent a) (KAgent (Chat.AgentTenant a) (Chat.AgentID_ a)) (SAgent (keepAgent a));
  law_hasRun t r : asks (hasRun t r) (KRun t r);
  law_createRun r : writes (createRun r) (KRun (TenantID r) (RunID r)) (SRun (keepRun r));
  law_hasMemory t a : asks (hasMemory t a) (KMemory t a);
  law_appendMemory t a ms : ms ≠ [] → writes (appendMemory t a ms) (KMemory t a) (SMemory (keepMemory ms));
  law_hasKV t a k : asks (hasKV t a k) (KKV t a k);
  law_setKV t a k v : writes (setKV t a k v) (KKV t a k) (SKV v);
  law_hasEvents t r : asks (hasEvents t r) (KEvents t r);
  law_appendEvent e t : match (appendEvent e t).1 with
    | None => ∀ k', view (appendEvent e t).2 k' =
        if decide (k' = KEvents (ETenantID e) (ERunID e)) then Some (SEvents (eventsOf (view t k') ++ [keepEvent e])) else view t k'
    | Some _ => sameView t (appendEvent e t).2
    end
}.
End laws.

(** ** Properties of the copy *)

Section facts.
Context {T : Type} `{Target T, TargetView T, !TargetLaws} (src : Source) (paths : Paths).

(** A file of events holds events of its run. *)
Context (filed : ∀ t r es e, readEvents src t r = Some es → e ∈ es → ETenantID e = t ∧ ERunID e = r).

(** On disk: [root] has a directory for the tenant, and that directory a file {id}.json. *)
Definition tenantDir (root tid : string) : Prop := root ≠ "" ∧ ∃ es, readDir src root = Entries es ∧ (tid, true) ∈ es.

Definition pairOf (root tid id : string) : Prop :=
  tenantDir root tid ∧ ∃ fs, readDir src (Join [root; tid]) = Entries fs ∧ (id +:+ ".json", false) ∈ fs.

(** A record of the source, as the target keeps it: the agents and the runs of the tenants
    that have a directory of agents, and what the stores read of the agents and runs that
    have a file in the directories of memory, keys and events. *)
Inductive inSource : Key → Stored → Prop :=
  | src_agent tid xs a : tenantDir (AgentDir paths) tid → listAgents src tid = Some xs → a ∈ xs →
      inSource (KAgent (Chat.AgentTenant a) (Chat.AgentID_ a)) (SAgent (keepAgent a))
  | src_run tid xs r : tenantDir (AgentDir paths) tid → listRuns src tid = Some xs → r ∈ xs →
      inSource (KRun (TenantID r) (RunID r)) (SRun (keepRun r))
  | src_memory t a ms : pairOf (MemoryDir paths) t a → readMemory src t a = Some ms → ms ≠ [] → inSource (KMemory t a) (SMemory (keepMemory ms))
  | src_kv t a ks k v : pairOf (KVDir paths) t a → listKeys src t a = Some ks → k ∈ ks → readKV src t a k = Some (Some v) → inSource (KKV t a k) (SKV v)
  | src_events t r es : pairOf (EventDir paths) t r → readEvents src t r = Some es → es ≠ [] → inSource (KEvents t r) (SEvents (keepEvent <$> es)).

(** The migrator finds these directories and files, and no others. *)
Lemma discovered_tenants tids tid : discoverTenants src paths = Some tids → tid ∈ tids ↔ tenantDir (AgentDir paths) tid.
Proof.
  unfold discoverTenants, tenantDir. case_decide as He; [intros [= <-]; split; [by intros ?%not_elem_of_nil|by intros [? _]]|].
  destruct (readDir src (AgentDir paths)) as [| |es]; intros [= <-].
  - split; [by intros ?%not_elem_of_nil|by intros (_ & ? & ? & _)].
  - rewrite list_elem_of_fmap. split.
    + intros ([t d] & -> & [Hd Hin]%list_elem_of_filter). cbn in *. subst d. eauto.
    + intros (_ & es' & [= <-] & Hin). exists (tid, true). split; [done|]. by apply list_elem_of_filter.
Qed.

Lemma json_suffix s : HasSuffix s ".json" = true → takeBytes (String.length s - 5) s +:+ ".json" = s.
Proof.
  unfold HasSuffix. intros [Hl Hd]%andb_true_iff. apply bool_decide_eq_true in Hd. transitivity (takeBytes (String.length s - 5) s +:+ dropBytes (String.length s - 5) s); [by rewrite <- Hd at 1|].
  clear. generalize (String.length s - 5)%nat. induction s as [|c s IH]; intros [|n]; [done..|]. cbn [takeBytes dropBytes]. by rewrite string_app_cons, IH.
Qed.

Lemma discovered_pairs root ps t a : root ≠ "" → discoverPairs src root = Some ps → (t, a) ∈ ps ↔ pairOf root t a.
Proof.
  intros Hne. unfold discoverPairs, pairOf, tenantDir. destruct (readDir src root) as [| |es] eqn:Er; [|done|]; intros [= <-].
  - split; [by intros ?%not_elem_of_nil|by intros ((_ & ? & ? & _) & _)].
  - rewrite list_elem_of_join. split.
    + intros (l & Hl & ([t' d] & -> & [Hd Hin]%list_elem_of_filter)%list_elem_of_fmap). cbn in *. subst d. unfold pairsOf in Hl.
      destruct (readDir src (Join [root; t'])) as [| |fs] eqn:Ef; [by apply not_elem_of_nil in Hl..|].
      apply list_elem_of_fmap in Hl as ([n d] & [= -> ->] & [[Hd Hs] Hn]%list_elem_of_filter). cbn in *. subst d. split; [eauto|]. exists fs. split; [done|].
      by rewrite json_suffix.
    + intros ((_ & es' & [= <-] & Hin) & fs & Hf & Hn). exists (pairsOf src root t). split.
      * unfold pairsOf. rewrite Hf. apply list_elem_of_fmap. exists (a +:+ ".json", false). cbn. split.
        { f_equal. rewrite string_length_app. cbn. replace (String.length a + 5 - 5)%nat with (String.length a) by lia. by rewrite takeBytes_app. }
        apply list_elem_of_filter. split; [split; [done|]|done]. apply HasSuffix_app.
      * apply list_elem_of_fmap. exists (t, true). split; [done|]. by apply list_elem_of_filter.
Qed.

(** Some of the events of a run of the source. *)
Definition partOf (k : Key) (v : Stored) : Prop :=
  inSource k v ∨ ∃ es l, inSource k (SEvents (keepEvent <$> es)) ∧ l `sublist_of` es ∧ v = SEvents (keepEvent <$> l).

(** A step of a migration: what was there stays, what is new is from the source, and whole
    unless an error was noted; errors are never taken back. *)
Record grows (s s' : St) : Prop := {
  grow_errors : Errors (res s) `prefix_of` Errors (res s');
  grow_kept k v : view (target s) k = Some v → view (target s') k = Some v;
  grow_new k v : view (target s') k = Some v → view (target s) k = Some v ∨ partOf k v ∧ (Errors (res s') = [] → inSource k v)
}.

#[export] Instance grows_preorder : PreOrder grows.
Proof.
  split.
  - intros s. split; [done|done|by left].
  - intros s1 s2 s3 [E1 K1 N1] [E2 K2 N2]. split; [by etrans|auto|]. intros k v Hv. destruct (N2 k v Hv) as [Hv2|]; [|by right].
    destruct (N1 k v Hv2) as [|[Hp Hw]]; [by left|right]. split; [done|]. intros HE. apply Hw. rewrite HE in E2. by apply prefix_nil_inv in E2.
Qed.

(** What every part of a migration has, when it holds of noting an error, of a check of the
    context and of each single record. *)
Class Carried (R : St (T:=T) → St → Prop) := {
  carried_preorder :: PreOrder R;
  carried_failed e s : R s (add (failed e) s);
  carried_alive s : R s (alive s).2
}.

Lemma each_carried {A} R `{!Carried R} (step : A → St → St) xs s : (∀ x s, x ∈ xs → R s (step x s)) → R s (each step xs s).2.
Proof.
  revert s. induction xs as [|x xs IH]; intros s Hs; [done|]. cbn. pose proof (carried_alive (R := R) s) as Ha.
  destruct (alive s) as [[] s1]; cbn in Ha |- *.
  - etrans; [exact Ha|]. etrans; [apply Hs; left|]. apply IH. intros y s' Hy. apply Hs. by right.
  - etrans; [exact Ha|apply carried_failed].
Qed.

Lemma perTenant_carried {A} R `{!Carried R} what (list_ : string → option (list A)) step tids s :
  (∀ tid xs x s, tid ∈ tids → list_ tid = Some xs → x ∈ xs → R s (step x s)) → R s (perTenant what list_ step tids s).
Proof.
  revert s. induction tids as [|tid tids IH]; intros s Hs; [done|]. cbn.
  assert (∀ s, R s (perTenant what list_ step tids s)) as IH' by (intros s'; apply IH; intros tid' xs x s'' Ht; apply Hs; by right).
  destruct (list_ tid) as [xs|] eqn:El.
  - pose proof (each_carried R step xs s (λ x s' Hx, Hs tid xs x s' (list_elem_of_here _ _) El Hx)) as He.
    destruct (each step xs s) as [[] s']; cbn in He; [done|]. etrans; [exact He|apply IH'].
  - etrans; [apply carried_failed|apply IH'].
Qed.

Lemma perPair_carried R `{!Carried R} what dir step s :
  (∀ t a s, pairOf dir t a → R s (step t a s)) → R s (perPair src what dir step s).
Proof.
  intros Hs. unfold perPair. destruct (decide (dir = "")) as [|Hd]; [done|]. destruct (discoverPairs src dir) as [ps|] eqn:Ed; [|apply carried_failed].
  apply each_carried; first done. intros [t a] s' Hp. apply Hs. by apply (discovered_pairs dir ps).
Qed.

(** The records of the source one by one, in the terms of [inSource]. *)
Definition agentOf (a : Chat.Agent) : Prop := ∃ tid xs, tenantDir (AgentDir paths) tid ∧ listAgents src tid = Some xs ∧ a ∈ xs.
Definition runOf (r : Run) : Prop := ∃ tid xs, tenantDir (AgentDir paths) tid ∧ listRuns src tid = Some xs ∧ r ∈ xs.

Lemma Migrate_carried R `{!Carried R} dryRun t until r t' :
  (∀ a s, agentOf a → R s (migrateOneAgent dryRun a s)) →
  (∀ r s, runOf r → R s (migrateOneRun dryRun r s)) →
  (∀ t a s, pairOf (MemoryDir paths) t a → R s (migrateOneMemory src dryRun t a s)) →
  (∀ t a s, pairOf (KVDir paths) t a → R s (migrateOneKV src dryRun t a s)) →
  (∀ t r s, pairOf (EventDir paths) t r → R s (migrateOneEventRun src dryRun t r s)) →
  Migrate src paths dryRun t until = Some (r, t') →
  ∃ s', R {| target := t; res := noResult; deadline := until |} s' ∧ res s' = r ∧ target s' = t'.
Proof.
  intros Hag Hru Hme Hkv Hev. unfold Migrate, migrateAgents, migrateRuns, migrateMemory, migrateKV, migrateEvents. pose proof (carried_alive (R := R) {| target := t; res := noResult; deadline := until |}) as Ha.
  destruct (alive _) as [[] s]; [cbn in Ha|done]. destruct (discoverTenants src paths) as [tids|] eqn:Et; [|done]. intros [= <- <-].
  eexists. split; [|split; reflexivity]. etrans; [exact Ha|]. cbn zeta.
  etrans; [|apply (perPair_carried R); exact Hev]. etrans; [|apply (perPair_carried R); exact Hkv]. etrans; [|apply (perPair_carried R); exact Hme].
  etrans; [|apply (perTenant_carried R)]; [|by intros tid xs x s1 Hin%(discovered_tenants _ _ Et) ??; apply Hru; exists tid, xs].
  apply (perTenant_carried R). by intros tid xs x s1 Hin%(discovered_tenants _ _ Et) ??; apply Hag; exists tid, xs.
Qed.

(** *** One record *)

(** A step that leaves the records alone and takes no error back. *)
Lemma grows_same (s s' : St (T:=T)) : sameView (target s) (target s') → Errors (res s) `prefix_of` Errors (res s') → grows s s'.
Proof. intros Hv He. split; [done|intros k v; by rewrite Hv|intros k v; rewrite Hv; by left]. Qed.

(** A step that puts one record of the source where there was none. *)
Lemma grows_put (s s' : St (T:=T)) k v : inSource k v → view (target s) k = None → Errors (res s) `prefix_of` Errors (res s') →
  (∀ k', view (target s') k' = if decide (k' = k) then Some v else view (target s) k') → grows s s'.
Proof.
  intros Hs Hn He Hv. split; [done| |].
  - intros k' v' Hk. rewrite Hv. destruct (decide (k' = k)) as [->|]; [|done]. by rewrite Hn in Hk.
  - intros k' v'. rewrite Hv. destruct (decide (k' = k)) as [->|]; [|by left]. intros [= <-]. right. split; [by left|done].
Qed.

#[export] Instance grows_carried : Carried grows.
Proof.
  split; [apply _| |].
  - intros e s. apply grows_same; [done|]. cbn. by apply prefix_app_r.
  - intros s. apply grows_same; [by unfold alive; destruct (deadline s) as [[]|]|by unfold alive; destruct (deadline s) as [[]|]].
Qed.

Lemma ask_step q k s : asks q k → ∃ a s1, ask q s = (a, s1) ∧ sameView (target s) (target s1) ∧ res s1 = res s ∧
  match a with Some true => is_Some (view (target s) k) | Some false => view (target s) k = None | None => True end.
Proof.
  intros Hq. unfold ask. destruct (Hq (target s)) as [Hv Ha]. destruct (q (target s)) as [a t]. exists a, (setTarget t s). do 3 (split; [done|]).
  destruct a as [[]|]; [by apply Ha| |done]. apply eq_None_not_Some. intros Hs. by apply Ha in Hs.
Qed.

Lemma write_step w k v s : writes w k v → view (target s) k = None →
  match write w s with
  | (None, s1) => res s1 = res s ∧ ∀ k', view (target s1) k' = if decide (k' = k) then Some v else view (target s) k'
  | (Some WriteFailed, s1) => res s1 = res s ∧ sameView (target s) (target s1)
  | (Some RecordExists, _) => False
  end.
Proof.
  intros Hw Hn. unfold write. specialize (Hw (target s) Hn). destruct (w (target s)) as [[[]|] t]; cbn in *; done.
Qed.

(** A count is not an error. *)
Definition counts (f : MigrationResult → MigrationResult) : Prop := ∀ r, Errors (f r) = Errors r.

Lemma copyOne_facts dryRun q w existsIsSkip what count k v s :
  asks q k → writes w k v → counts count →
  let s' := copyOne dryRun q w existsIsSkip what count s in
  Errors (res s) `prefix_of` Errors (res s') ∧
  (sameView (target s) (target s') ∧ (Errors (res s') = [] → dryRun = false → is_Some (view (target s) k)) ∨
   dryRun = false ∧ view (target s) k = None ∧ ∀ k', view (target s') k' = if decide (k' = k) then Some v else view (target s) k').
Proof.
  intros Hq Hw Hc. unfold copyOne. destruct (ask_step q k s Hq) as (a & s1 & -> & Hv & Hr & Hn). destruct a as [[]|]; cbn -[write].
  - rewrite Hr. split; [done|]. left. split; [done|]. done.
  - destruct dryRun; cbn -[write]. { rewrite Hc, Hr. split; [done|]. left. by split. }
    pose proof (write_step w k v s1 Hw ltac:(by rewrite Hv)) as Hs. destruct (write w s1) as [[[]|] s2]; [done| |]; destruct Hs as [Hr2 Hs2]; cbn.
    + rewrite Hr2, Hr. split; [by apply prefix_app_r|]. left. split; [intros k'; by rewrite Hs2, Hv|]. by intros []%app_nil.
    + rewrite Hc, Hr2, Hr. split; [done|]. right. split; [done|]. split; [done|]. intros k'. rewrite Hs2. by rewrite Hv.
  - rewrite Hr. split; [by apply prefix_app_r|]. left. split; [done|]. by intros []%app_nil.
Qed.

Lemma copyOne_grows dryRun q w b what count k v s : asks q k → writes w k v → counts count → inSource k v →
  grows s (copyOne dryRun q w b what count s).
Proof.
  intros Hq Hw Hc Hs. destruct (copyOne_facts dryRun q w b what count k v s Hq Hw Hc) as [He [[Hv _]|(_ & Hn & Hv)]].
  - by apply grows_same.
  - by eapply grows_put.
Qed.

Lemma copyOne_done q w b what count k v s : asks q k → writes w k v → counts count →
  Errors (res (copyOne false q w b what count s)) = [] → is_Some (view (target (copyOne false q w b what count s)) k).
Proof.
  intros Hq Hw Hc He. destruct (copyOne_facts false q w b what count k v s Hq Hw Hc) as [_ [[Hv Hd]|(_ & Hn & Hv)]]; rewrite Hv.
  - auto.
  - rewrite decide_True by done. eauto.
Qed.

(** The events of a run, one after the other. *)
Lemma appendOne_all t r es s : (∀ e, e ∈ es → ETenantID e = t ∧ ERunID e = r) →
  let s' := foldl (λ s e, appendOne e s) s es in
  Errors (res s) `prefix_of` Errors (res s') ∧
  ∃ l, l `sublist_of` es ∧ (Errors (res s') = [] → l = es) ∧
    ∀ k, view (target s') k = if decide (k = KEvents t r ∧ l ≠ []) then Some (SEvents (eventsOf (view (target s) k) ++ (keepEvent <$> l))) else view (target s) k.
Proof.
  revert s. induction es as [|e es IH]; intros s Hes; cbn.
  - split; [done|]. exists []. split; [done|]. split; [done|]. intros k. by rewrite decide_False by naive_solver.
  - destruct (IH (appendOne e s)) as (Hp & l & Hl & Hw & Hv); [intros; apply Hes; by right|]. destruct (Hes e) as [Ht Hr]; [left|].
    revert Hp Hv. set (s' := foldl _ _ _) in *. unfold appendOne, write. pose proof (law_appendEvent e (target s)) as Ha. rewrite Ht, Hr in Ha.
    destruct (appendEvent e (target s)) as [[f|] t1]; cbn in *; intros Hp Hv.
    + split; [etrans; [|exact Hp]; by apply prefix_app_r|]. exists l. split; [by constructor|]. split.
      * intros HE. rewrite HE in Hp. apply prefix_nil_inv in Hp. by apply app_nil in Hp as [_ ?].
      * intros k. rewrite Hv, Ha. done.
    + split; [done|]. exists (e :: l). split; [by constructor|]. split; [intros HE; by rewrite (Hw HE)|].
      intros k. rewrite Hv, !Ha. destruct (decide (k = KEvents t r)) as [->|Hk]; [|by rewrite !decide_False by naive_solver].
      rewrite (decide_True (P := _ ∧ e :: l ≠ [])) by done. destruct l as [|e' l].
      * by rewrite decide_False by naive_solver.
      * rewrite decide_True by done. cbn. by rewrite <- app_assoc.
Qed.

Lemma foldl_carried {A} R `{!Carried R} (step : A → St → St) xs s : (∀ x s, x ∈ xs → R s (step x s)) → R s (foldl (λ s x, step x s) s xs).
Proof.
  revert s. induction xs as [|x xs IH]; intros s Hs; [done|]. cbn. etrans; [apply (Hs x); left|]. apply IH. intros y s' Hy. apply Hs. by right.
Qed.

Definition keyOf (t a k : string) : Prop := pairOf (KVDir paths) t a ∧ ∃ ks, listKeys src t a = Some ks ∧ k ∈ ks.

Lemma migrateOneKV_carried R `{!Carried R} dryRun t a s : (∀ k s, keyOf t a k → R s (migrateKey src dryRun t a k s)) →
  pairOf (KVDir paths) t a → R s (migrateOneKV src dryRun t a s).
Proof.
  intros Hk Hp. unfold migrateOneKV. destruct (listKeys src t a) as [ks|] eqn:El; [|apply carried_failed].
  apply (foldl_carried R (λ k, migrateKey src dryRun t a k)). intros k s' Hin. apply Hk. split; [done|]. by exists ks.
Qed.

(** Two records of the target that differ in kind or name are different keys; here each kind
    of record keeps to [grows]. *)
Lemma agent_source a : agentOf a → inSource (KAgent (Chat.AgentTenant a) (Chat.AgentID_ a)) (SAgent (keepAgent a)).
Proof. intros (tid & xs & ? & ? & ?). by eapply src_agent. Qed.

Lemma run_source r : runOf r → inSource (KRun (TenantID r) (RunID r)) (SRun (keepRun r)).
Proof. intros (tid & xs & ? & ? & ?). by eapply src_run. Qed.

Lemma agent_grows dryRun a s : agentOf a → grows s (migrateOneAgent dryRun a s).
Proof. intros Ha. eapply copyOne_grows; [apply law_hasAgent|apply law_createAgent|done|by apply agent_source]. Qed.

Lemma run_grows dryRun r s : runOf r → grows s (migrateOneRun dryRun r s).
Proof. intros Hr. eapply copyOne_grows; [apply law_hasRun|apply law_createRun|done|by apply run_source]. Qed.

Lemma memory_grows dryRun t a s : pairOf (MemoryDir paths) t a → grows s (migrateOneMemory src dryRun t a s).
Proof.
  intros Hp. unfold migrateOneMemory. destruct (readMemory src t a) as [[|m ms]|] eqn:Em; [done| |apply (carried_failed (R := grows))].
  eapply copyOne_grows; [apply law_hasMemory|by apply law_appendMemory|done|by eapply src_memory].
Qed.

Lemma key_grows dryRun t a k s : keyOf t a k → grows s (migrateKey src dryRun t a k s).
Proof.
  intros [Hp (ks & Hks & Hk)]. unfold migrateKey. destruct (readKV src t a k) as [[v|]|] eqn:Ek; [|done|apply (carried_failed (R := grows))].
  eapply copyOne_grows; [apply law_hasKV|apply law_setKV|done|by eapply src_kv].
Qed.

Lemma events_facts dryRun t r s : pairOf (EventDir paths) t r →
  let s' := migrateOneEventRun src dryRun t r s in
  grows s s' ∧ (dryRun = false → Errors (res s') = [] → ∀ v, inSource (KEvents t r) v → is_Some (view (target s') (KEvents t r))).
Proof.
  intros Hp. cbn zeta. unfold migrateOneEventRun. destruct (readEvents src t r) as [es|] eqn:Ee.
  2: { split; [apply (carried_failed (R := grows))|]. cbn. by intros _ []%app_nil. }
  destruct (decide (es = [])) as [->|Hne]. { split; [done|]. intros _ _ v Hs. inversion Hs; simplify_eq. }
  assert (∀ {A} (x y : A), match es with [] => x | _ => y end = y) as -> by (by destruct es).
  destruct (ask_step (hasEvents t r) (KEvents t r) s (law_hasEvents t r)) as (a & s1 & -> & Hv & Hr & Hn). destruct a as [[]|].
  - split; [by apply grows_same; [|cbn; rewrite Hr]|]. intros _ _ v _. cbn. by rewrite Hv.
  - destruct dryRun. { split; [by apply grows_same; [|cbn; rewrite Hr]|done]. }
    destruct (appendOne_all t r es s1) as (Hpre & l & Hl & Hw & Hs); [intros e; by apply filed|]. cbn zeta in *.
    set (s' := foldl _ s1 es) in *. assert (inSource (KEvents t r) (SEvents (keepEvent <$> es))) as Hsrc by by eapply src_events.
    split; [split|].
    + by rewrite <- Hr.
    + intros k v Hk. rewrite Hs, Hv. destruct (decide (k = KEvents t r ∧ l ≠ [])) as [[-> _]|]; [by rewrite Hn in Hk|done].
    + intros k v. rewrite Hs, Hv. destruct (decide (k = KEvents t r ∧ l ≠ [])) as [[-> Hl0]|]; [|by left]. rewrite Hn. intros [= <-]. right.
      split; [right; by exists es, l|]. intros HE. by rewrite (Hw HE).
    + intros _ HE v _. rewrite Hs, (Hw HE), decide_True by done. eauto.
  - split; [apply grows_same; [done|cbn; rewrite Hr; by apply prefix_app_r]|]. cbn. by intros _ []%app_nil.
Qed.

Lemma events_grows dryRun t r s : pairOf (EventDir paths) t r → grows s (migrateOneEventRun src dryRun t r s).
Proof. intros Hp. by apply events_facts. Qed.

Lemma Migrate_grows dryRun t until r t' : Migrate src paths dryRun t until = Some (r, t') →
  ∃ s', grows {| target := t; res := noResult; deadline := until |} s' ∧ res s' = r ∧ target s' = t'.
Proof.
  apply (Migrate_carried grows); [apply agent_grows|apply run_grows|apply memory_grows| |apply events_grows].
  intros t1 a s Hp. apply (migrateOneKV_carried grows); [|done]. intros k s'. apply key_grows.
Qed.

(** *** Nothing is left out *)

Definition stored (k : Key) (s : St) : Prop := is_Some (view (target s) k).

Lemma stored_grows k s s' : grows s s' → stored k s → stored k s'.
Proof. intros [_ Hk _] [v Hv]. exists v. auto. Qed.

Lemma grows_clean (s s' : St (T:=T)) : grows s s' → Errors (res s') = [] → Errors (res s) = [].
Proof. intros [He _ _] HE. rewrite HE in He. by apply prefix_nil_inv in He. Qed.

(** A loop that goes over all its records without an error has stored each of them. *)
Lemma each_done {A} (step : A → St → St) (D : A → St → Prop) xs s :
  (∀ x s, x ∈ xs → grows s (step x s) ∧ (Errors (res (step x s)) = [] → D x (step x s))) → (∀ x s s', grows s s' → D x s → D x s') →
  Errors (res (each step xs s).2) = [] → (each step xs s).1 = false ∧ ∀ x, x ∈ xs → D x (each step xs s).2.
Proof.
  intros Hs HD. revert s Hs. induction xs as [|x xs IH]; intros s Hs; cbn; [intros _; split; [done|by intros x ?%elem_of_nil]|].
  destruct (alive s) as [[] s1]; cbn; [|by intros []%app_nil]. intros HE.
  destruct (Hs x s1 (list_elem_of_here _ _)) as [Hg Hd]. destruct (IH (step x s1)) as [Hf Hall]; [intros y s' Hy; apply Hs; by right|done|].
  split; [done|]. intros y [->|Hy]%elem_of_cons; [|by apply Hall].
  assert (grows (step x s1) (each step xs (step x s1)).2) as Hg2 by (apply each_carried; [apply _|]; intros z s' Hz; apply Hs; by right).
  eapply HD; [exact Hg2|]. apply Hd. by eapply grows_clean.
Qed.

Lemma perTenant_done {A} what (list_ : string → option (list A)) step (D : A → St → Prop) tids s :
  (∀ tid xs x s, tid ∈ tids → list_ tid = Some xs → x ∈ xs → grows s (step x s) ∧ (Errors (res (step x s)) = [] → D x (step x s))) →
  (∀ x s s', grows s s' → D x s → D x s') →
  Errors (res (perTenant what list_ step tids s)) = [] → ∀ tid xs x, tid ∈ tids → list_ tid = Some xs → x ∈ xs → D x (perTenant what list_ step tids s).
Proof.
  intros Hs HD. revert s Hs. induction tids as [|tid tids IH]; intros s Hs HE tid' xs' x; [by intros ?%elem_of_nil|]. cbn in HE |- *.
  assert (∀ s, grows s (perTenant what list_ step tids s)) as Hg.
  { intros s'. apply (perTenant_carried grows). intros tid1 xs x1 s1 Ht. by apply (Hs tid1 xs); right. }
  assert (∀ s, Errors (res (perTenant what list_ step tids s)) = [] → tid' ∈ tids → list_ tid' = Some xs' → x ∈ xs' → D x (perTenant what list_ step tids s)) as IH'.
  { intros s' HE' Ht Hl. apply (IH s') with (xs := xs') (tid := tid'); [|done..]. intros tid1 xs x1 s1 Ht1. by apply (Hs tid1 xs); right. }
  destruct (list_ tid) as [xs|] eqn:El.
  - pose proof (each_done step D xs s (λ x s', Hs tid xs x s' (list_elem_of_here _ _) El) HD) as Hx.
    destruct (each step xs s) as [f s1]; cbn in Hx. destruct f. { by destruct (Hx HE). }
    intros [->|Ht]%elem_of_cons Hl Hin; [|by apply IH']. assert (xs' = xs) as -> by congruence. eapply HD; [apply Hg|]. apply Hx; [|done].
    by eapply grows_clean, HE.
  - intros [->|Ht]%elem_of_cons Hl Hin; [congruence|]. by apply IH'.
Qed.

Lemma perPair_done what dir step (D : string → string → St → Prop) s :
  (∀ t a s, pairOf dir t a → grows s (step t a s) ∧ (Errors (res (step t a s)) = [] → D t a (step t a s))) → (∀ t a s s', grows s s' → D t a s → D t a s') →
  Errors (res (perPair src what dir step s)) = [] → ∀ t a, pairOf dir t a → D t a (perPair src what dir step s).
Proof.
  intros Hs HD. unfold perPair. intros HE t a Hp. assert (Hd : dir ≠ "") by apply Hp. rewrite decide_False in HE |- * by done.
  destruct (discoverPairs src dir) as [ps|] eqn:Hps; [|by apply app_nil in HE as [_ ?]].
  destruct (each_done (λ p, step p.1 p.2) (λ p, D p.1 p.2) ps s) as [_ Hall]; [|by intros ????; apply HD|done|by apply (Hall (t, a)), (discovered_pairs dir ps)].
  intros [t1 a1] s1 Hp1. apply Hs. by apply (discovered_pairs dir ps).
Qed.

Lemma foldl_done {A} (step : A → St → St) (D : A → St → Prop) xs s :
  (∀ x s, x ∈ xs → grows s (step x s) ∧ (Errors (res (step x s)) = [] → D x (step x s))) → (∀ x s s', grows s s' → D x s → D x s') →
  Errors (res (foldl (λ s x, step x s) s xs)) = [] → ∀ x, x ∈ xs → D x (foldl (λ s x, step x s) s xs).
Proof.
  intros Hs HD. revert s. induction xs as [|x xs IH]; intros s HE y; cbn in *; [by intros ?%elem_of_nil|].
  intros [->|Hy]%elem_of_cons; [|apply IH; [intros z s' Hz; apply Hs; by right|done..]].
  assert (grows (step x s) (foldl (λ s x, step x s) (step x s) xs)) as Hg by (apply (foldl_carried grows); intros z s' Hz; apply Hs; by right).
  eapply HD; [exact Hg|]. apply Hs; [left|]. by eapply grows_clean.
Qed.

(** Each kind of record is stored when no error is noted. *)
Lemma agent_done a s : Errors (res (migrateOneAgent false a s)) = [] → stored (KAgent (Chat.AgentTenant a) (Chat.AgentID_ a)) (migrateOneAgent false a s).
Proof. eapply copyOne_done; [apply law_hasAgent|apply law_createAgent|done]. Qed.

Lemma run_done r s : Errors (res (migrateOneRun false r s)) = [] → stored (KRun (TenantID r) (RunID r)) (migrateOneRun false r s).
Proof. eapply copyOne_done; [apply law_hasRun|apply law_createRun|done]. Qed.

Lemma memory_done t a s : Errors (res (migrateOneMemory src false t a s)) = [] →
  ∀ ms, readMemory src t a = Some ms → ms ≠ [] → stored (KMemory t a) (migrateOneMemory src false t a s).
Proof.
  unfold migrateOneMemory. intros HE ms Hm Hne. rewrite Hm in HE |- *. destruct ms as [|m ms]; [done|].
  revert HE. eapply copyOne_done; [apply law_hasMemory|by apply law_appendMemory|done].
Qed.

Lemma key_done t a k s : Errors (res (migrateKey src false t a k s)) = [] →
  ∀ v, readKV src t a k = Some (Some v) → stored (KKV t a k) (migrateKey src false t a k s).
Proof.
  unfold migrateKey. intros HE v Hv. rewrite Hv in HE |- *. revert HE. eapply copyOne_done; [apply law_hasKV|apply law_setKV|done].
Qed.

Lemma kv_done t a s : pairOf (KVDir paths) t a → Errors (res (migrateOneKV src false t a s)) = [] →
  ∀ ks k v, listKeys src t a = Some ks → k ∈ ks → readKV src t a k = Some (Some v) → stored (KKV t a k) (migrateOneKV src false t a s).
Proof.
  intros Hp HE ks k v Hks Hk Hv. unfold migrateOneKV in *. rewrite Hks in HE |- *.
  apply (foldl_done (λ k, migrateKey src false t a k) (λ k s, ∀ v, readKV src t a k = Some (Some v) → stored (KKV t a k) s) ks) with (x := k) (v := v); [| |done..].
  - intros x s' Hx. split; [apply key_grows; split; [done|by exists ks]|apply key_done].
  - intros x s1 s2 Hg Hd w Hw. eapply stored_grows; eauto.
Qed.

Lemma phases_grow dryRun (tids : list string) : discoverTenants src paths = Some tids →
  (∀ s, grows s (perTenant "list agents" (listAgents src) (migrateOneAgent dryRun) tids s)) ∧
  (∀ s, grows s (perTenant "list runs" (listRuns src) (migrateOneRun dryRun) tids s)) ∧
  (∀ s, grows s (perPair src "discover memory pairs" (MemoryDir paths) (migrateOneMemory src dryRun) s)) ∧
  (∀ s, grows s (perPair src "discover kv pairs" (KVDir paths) (migrateOneKV src dryRun) s)) ∧
  (∀ s, grows s (perPair src "discover event pairs" (EventDir paths) (migrateOneEventRun src dryRun) s)).
Proof.
  intros Ht. split_and!.
  all: intros s; first [apply (perTenant_carried grows)|apply (perPair_carried grows)]; intros ? ? ? ?.
  - intros Hin%(discovered_tenants _ _ Ht) ??. apply agent_grows. by do 2 eexists.
  - intros Hin%(discovered_tenants _ _ Ht) ??. apply run_grows. by do 2 eexists.
  - by apply memory_grows.
  - apply (migrateOneKV_carried grows); [intros; by apply key_grows|done].
  - by apply events_grows.
Qed.

(** Every record of the source is there after a migration without an error. *)
Lemma Migrate_done t until r t' : Migrate src paths false t until = Some (r, t') → Errors r = [] →
  ∀ k v, inSource k v → is_Some (view t' k).
Proof.
  unfold Migrate, migrateAgents, migrateRuns, migrateMemory, migrateKV, migrateEvents. destruct (alive _) as [[] s0]; [|done]. destruct (discoverTenants src paths) as [tids|] eqn:Et; [|done].
  destruct (phases_grow false tids Et) as (G1 & G2 & G3 & G4 & G5). cbn zeta. set (s1 := perTenant "list agents" _ _ _ s0).
  set (s2 := perTenant "list runs" _ _ _ s1). set (s3 := perPair _ _ (MemoryDir paths) _ s2). set (s4 := perPair _ _ (KVDir paths) _ s3). set (s5 := perPair _ _ _ _ s4).
  intros [= <- <-] H5. specialize (G1 s0). specialize (G2 s1). specialize (G3 s2). specialize (G4 s3). specialize (G5 s4).
  pose proof (grows_clean _ _ G5 H5) as H4. pose proof (grows_clean _ _ G4 H4) as H3. pose proof (grows_clean _ _ G3 H3) as H2'. pose proof (grows_clean _ _ G2 H2') as H1'.
  intros k v Hs. change (stored k s5). destruct Hs as [tid xs a Ht Hl Ha|tid xs a Ht Hl Ha|t1 a ms Hp Hm Hne|t1 a ks k v Hp Hks Hk Hv|t1 r1 es Hp He Hne].
  - apply (discovered_tenants _ _ Et) in Ht. do 4 (eapply stored_grows; [eassumption|]). eapply (perTenant_done _ _ _ (λ a s, stored (KAgent (Chat.AgentTenant a) (Chat.AgentID_ a)) s)); [| |done..].
    + intros. split; [apply agent_grows; do 2 eexists; split; [by apply (discovered_tenants _ _ Et)|done]|apply agent_done].
    + intros ???. apply stored_grows.
  - apply (discovered_tenants _ _ Et) in Ht. do 3 (eapply stored_grows; [eassumption|]). eapply (perTenant_done _ _ _ (λ a s, stored (KRun (TenantID a) (RunID a)) s)); [| |done..].
    + intros. split; [apply run_grows; do 2 eexists; split; [by apply (discovered_tenants _ _ Et)|done]|apply run_done].
    + intros ???. apply stored_grows.
  - do 2 (eapply stored_grows; [eassumption|]). eapply (perPair_done _ _ _ (λ t a s, ∀ ms, readMemory src t a = Some ms → ms ≠ [] → stored (KMemory t a) s)); [| |exact H3|exact Hp|done..].
    + intros. split; [by apply memory_grows|apply memory_done].
    + intros ????? Hst ???. eapply stored_grows; eauto.
  - eapply stored_grows; [eassumption|]. eapply (perPair_done _ _ _ (λ t a s, ∀ ks k v, listKeys src t a = Some ks → k ∈ ks → readKV src t a k = Some (Some v) → stored (KKV t a k) s)); [| |exact H4|exact Hp|done..].
    + intros. split; [|by apply kv_done]. apply (migrateOneKV_carried grows); [intros; by apply key_grows|done].
    + intros ????? Hst ??????. eapply stored_grows; eauto.
  - eapply (perPair_done _ _ _ (λ t r s, ∀ v, inSource (KEvents t r) v → stored (KEvents t r) s)); [| |exact H5|exact Hp|by eapply src_events].
    + intros t2 r2 s Hp2. destruct (events_facts false t2 r2 s Hp2) as [Hg Hd2]. split; [done|]. intros HE v. by apply Hd2.
    + intros ????? Hst ??. eapply stored_grows; eauto.
Qed.

(** *** A second migration *)

Definition complete (t : T) : Prop := ∀ k v, inSource k v → is_Some (view t k).

Definition noCounts (r r' : MigrationResult) : Prop :=
  Agents r' = Agents r ∧ Runs r' = Runs r ∧ Memory r' = Memory r ∧ KV r' = KV r ∧ EventsN r' = EventsN r.

(** Where every record of the source is stored, nothing is written or counted. *)
Definition idle (s s' : St) : Prop := complete (target s) → sameView (target s) (target s') ∧ noCounts (res s) (res s').

#[export] Instance idle_carried : Carried idle.
Proof.
  split.
  - split; [done|]. intros s1 s2 s3 H12 H23 Hc. destruct (H12 Hc) as [V1 C1]. destruct H23 as [V2 C2].
    + intros k v Hk. rewrite V1. by apply (Hc k v).
    + split; [intros k; by rewrite V2, V1|]. unfold noCounts in *. naive_solver congruence.
  - done.
  - intros s _. unfold alive. by destruct (deadline s) as [[]|].
Qed.

Lemma copyOne_idle dryRun q w b what count k v s : asks q k → inSource k v → idle s (copyOne dryRun q w b what count s).
Proof.
  intros Hq Hs Hc. destruct (Hc k v Hs) as [v' Hv]. unfold copyOne. destruct (ask_step q k s Hq) as (a & s1 & -> & Hv1 & Hr & Ha).
  destruct a as [[]|]; cbn; [|congruence|]; split; try done; by rewrite Hr.
Qed.

Lemma Migrate_idle dryRun t until r t' : complete t → Migrate src paths dryRun t until = Some (r, t') → sameView t t' ∧ noCounts noResult r.
Proof.
  intros Hc Hm. destruct (Migrate_carried idle dryRun t until r t') as (s' & Hi & <- & <-); [..|exact Hm|by apply Hi].
  - intros a s Ha. eapply copyOne_idle; [apply law_hasAgent|by apply agent_source].
  - intros a s Ha. eapply copyOne_idle; [apply law_hasRun|by apply run_source].
  - intros t1 a s Hp. unfold migrateOneMemory. destruct (readMemory src t1 a) as [[|m ms]|] eqn:Em; [done| |by split].
    eapply copyOne_idle; [apply law_hasMemory|by eapply src_memory].
  - intros t1 a s Hp. apply (migrateOneKV_carried idle); [|done]. intros k s' [Hp1 (ks & Hks & Hk)]. unfold migrateKey.
    destruct (readKV src t1 a k) as [[v|]|] eqn:Ek; [|done|by split]. eapply copyOne_idle; [apply law_hasKV|by eapply src_kv].
  - intros t1 r1 s Hp. unfold migrateOneEventRun. destruct (readEvents src t1 r1) as [[|e es]|] eqn:Ee; [done| |by split].
    intros Hc'. destruct (Hc' (KEvents t1 r1) (SEvents (keepEvent <$> e :: es))) as [v' Hv]; [by eapply src_events|].
    destruct (ask_step (hasEvents t1 r1) (KEvents t1 r1) s (law_hasEvents t1 r1)) as (a & s1 & -> & Hv1 & Hr & Ha).
    destruct a as [[]|]; cbn; [|congruence|]; split; try done; by rewrite Hr.
Qed.

(** C23. A migration is a copy, whatever fails on either side and whenever its context ends: a
    record the target had keeps its value, and a new one is a record of the source, or some of
    the events of one of its runs.  When no error is noted the copy is whole: every record of
    the source is in the target, each new one as the target keeps that record, and migrating
    once more writes nothing and counts nothing, even if it is cut short or fails itself.  The
    records of the source ([inSource]) are the agents and runs of the tenants that have a
    directory of agents, and what the stores read for the files {tenant}/{id}.json of memory,
    keys and events in directories that can be read; the events read for a run are taken to
    be of that run, and the target to keep the laws above ([TargetLaws]).  Left behind, without an error, are the
    runs of other tenants ([runs_without_agents_left_out]), directories of tenants that
    cannot be read, and events that the event log does not answer
    ([fresh_log_migrates_no_events]). *)
Theorem migration_copies t until r t' (Hm : Migrate src paths false t until = Some (r, t')) :
  (∀ k v, view t k = Some v → view t' k = Some v) ∧
  (∀ k v, view t' k = Some v → view t k = Some v ∨ partOf k v) ∧
  (Errors r = [] →
    (∀ k v, view t' k = Some v → view t k = Some v ∨ inSource k v) ∧ complete t' ∧
    ∀ dryRun until' r' t'', Migrate src paths dryRun t' until' = Some (r', t'') → sameView t' t'' ∧ noCounts noResult r').
Proof.
  destruct (Migrate_grows false t until r t' Hm) as (s' & [_ Hk Hn] & <- & <-). cbn in *.
  split; [done|]. split; [intros k v Hv; destruct (Hn k v Hv) as [|[]]; auto|]. intros HE.
  assert (complete (target s')) as Hc by (intros k v; by eapply Migrate_done).
  split; [intros k v Hv; destruct (Hn k v Hv) as [|[]]; auto|]. split; [done|]. intros d u r' t''. by apply Migrate_idle.
Qed.

(** A dry run only asks. *)
Lemma copyOne_dry q w b what count k s : asks q k → sameView (target s) (target (copyOne true q w b what count s)).
Proof.
  intros Hq. unfold copyOne. destruct (ask_step q k s Hq) as (a & s1 & -> & Hv & _ & _). by destruct a as [[]|].
Qed.

Definition untouched (s s' : St) : Prop := sameView (target s) (target s').

#[export] Instance untouched_carried : Carried untouched.
Proof.
  split; [split; [done|intros s1 s2 s3 H12 H23 k; by rewrite H23, H12]|done|]. intros s. unfold alive. by destruct (deadline s) as [[]|].
Qed.

(** A dry run changes no record of the target, whatever fails. *)
Theorem dry_run_writes_nothing t until r t' (Hm : Migrate src paths true t until = Some (r, t')) : sameView t t'.
Proof.
  destruct (Migrate_carried untouched true t until r t') as (s' & Hi & <- & <-); [..|exact Hm|done].
  - intros a s _. eapply copyOne_dry, law_hasAgent.
  - intros a s _. eapply copyOne_dry, law_hasRun.
  - intros t1 a s _. unfold migrateOneMemory. destruct (readMemory src t1 a) as [[|m ms]|]; [done|eapply copyOne_dry, law_hasMemory|done].
  - intros t1 a s Hp. apply (migrateOneKV_carried untouched); [|done]. intros k s' _. unfold migrateKey.
    destruct (readKV src t1 a k) as [[v|]|]; [eapply copyOne_dry, law_hasKV|done|done].
  - intros t1 r1 s _. unfold migrateOneEventRun. destruct (readEvents src t1 r1) as [[|e es]|]; [done| |done].
    destruct (ask_step (hasEvents t1 r1) (KEvents t1 r1) s (law_hasEvents t1 r1)) as (a & s1 & -> & Hv & _ & _). by destruct a as [[]|].
Qed.
End facts.

(** ** A target to try it on *)

(** A target that keeps its records in a list; each operation uses up one of the faults. *)
Record ListTarget := { held : list (Key * Stored); faults : list bool }.

Definition heldAt (l : list (Key * Stored)) (k : Key) : option Stored := snd <$> List.find (λ p, bool_decide (p.1 = k)) l.

Definition faulty {A} (broken : A) (op : list (Key * Stored) → A * list (Key * Stored)) (t : ListTarget) : A * ListTarget :=
  match faults t with
  | true :: fs => (broken, {| held := held t; faults := fs |})
  | fs => let '(a, l) := op (held t) in (a, {| held := l; faults := tail fs |})
  end.

Definition hasKey (k : Key) : ListTarget → option bool * ListTarget := faulty None (λ l, (Some (bool_decide (is_Some (heldAt l k))), l)).

Definition putKey (k : Key) (v : Stored) : ListTarget → option WriteFault * ListTarget :=
  faulty (Some WriteFailed) (λ l, if decide (is_Some (heldAt l k)) then (Some RecordExists, l) else (None, (k, v) :: l)).

Definition putEvent (e : Event) : ListTarget → option WriteFault * ListTarget :=
  let k := KEvents (ETenantID e) (ERunID e) in faulty (Some WriteFailed) (λ l, (None, (k, SEvents (eventsOf (heldAt l k) ++ [e])) :: l)).

#[export] Instance listTarget : Target ListTarget := {|
  hasAgent t a := hasKey (KAgent t a); createAgent a := putKey (KAgent (Chat.AgentTenant a) (Chat.AgentID_ a)) (SAgent a);
  hasRun t r := hasKey (KRun t r); createRun r := putKey (KRun (TenantID r) (RunID r)) (SRun r);
  hasMemory t a := hasKey (KMemory t a); appendMemory t a ms := putKey (KMemory t a) (SMemory ms);
  hasKV t a k := hasKey (KKV t a k); setKV t a k v := putKey (KKV t a k) (SKV v);
  hasEvents t r := hasKey (KEvents t r); appendEvent := putEvent
|}.

#[export] Instance listTargetView : TargetView ListTarget := {|
  view t := heldAt (held t); keepAgent := id; keepRun := id; keepMemory := id; keepEvent := id
|}.

Lemma heldAt_cons k v l k' : heldAt ((k, v) :: l) k' = if decide (k' = k) then Some v else heldAt l k'.
Proof.
  unfold heldAt. cbn. destruct (decide (k' = k)) as [->|]; [by rewrite bool_decide_true|]. by rewrite bool_decide_false by done.
Qed.

Lemma hasKey_asks k : asks (hasKey k) k.
Proof. intros t. unfold hasKey, faulty. destruct (faults t) as [|[] fs]; cbn; (split; [done|]); try done; by rewrite bool_decide_eq_true. Qed.

Lemma putKey_writes k v : writes (putKey k v) k v.
Proof.
  intros t Hn. unfold putKey, faulty, view in *. cbn in *. destruct (faults t) as [|[] fs]; [|done|].
  all: rewrite decide_False by (rewrite Hn; by intros []); cbn; intros k'; apply heldAt_cons.
Qed.

Lemma putEvent_appends e t : match (putEvent e t).1 with
  | None => ∀ k', view (putEvent e t).2 k' =
      if decide (k' = KEvents (ETenantID e) (ERunID e)) then Some (SEvents (eventsOf (view t k') ++ [e])) else view t k'
  | Some _ => sameView t (putEvent e t).2
  end.
Proof.
  unfold putEvent, faulty. destruct (faults t) as [|[] fs]; cbn -[heldAt]; [|done|].
  all: intros k'; rewrite heldAt_cons; destruct (decide _) as [->|]; done.
Qed.

#[export] Instance listTargetLaws : TargetLaws (T := ListTarget).
Proof. split; intros; try apply hasKey_asks; try apply putKey_writes. apply putEvent_appends. Qed.

Definition sample_source : Source := {|
  readDir d := if decide (d ∈ ["agents"; "memory"; "kv"; "log"]) then Entries [("acme", true); ("notes.txt", false)]
               else if decide (d = "log/acme") then Entries [("a.json", false)] else Entries [("bot.json", false); ("bot.tmp", false)];
  listAgents t := Some [Chat.bareAgent t "bot"; Chat.bareAgent t "bob"];
  listRuns t := Some [RunStore.sample_run "r1" "t1"];
  readMemory t a := Some [Chat.stored "user" "hello"];
  listKeys t a := Some ["colour"; "size"];
  readKV t a k := Some (if decide (k = "colour") then Some "red" else Some "7");
  readEvents t r := if decide (t = "acme" ∧ r = "a") then Some [Events.sample_event "a" 1; Events.sample_event "a" 2] else Some []
|}.

Definition sample_paths : Paths := {| AgentDir := "agents"; MemoryDir := "memory"; KVDir := "kv"; EventDir := "log" |}.

Lemma sample_filed t r es e : readEvents sample_source t r = Some es → e ∈ es → ETenantID e = t ∧ ERunID e = r.
Proof.
  cbn. destruct (decide _) as [[-> ->]|]; intros [= <-]; [|by intros ?%elem_of_nil]. intros [->|[->|Hin]%elem_of_cons]%elem_of_cons; [done..|].
  by apply elem_of_nil in Hin.
Qed.

(** A target that has one agent already, and one that breaks in the middle. *)
Definition has_bob : ListTarget := {| held := [(KAgent "acme" "bob", SAgent (Chat.bareAgent "acme" "bob"))]; faults := [] |}.

Definition migrated (t : ListTarget) : MigrationResult * ListTarget :=
  default (noResult, t) (Migrate sample_source sample_paths false t None).

Lemma migration_copies_witness :
  (migrated has_bob).1 = {| Agents := 1; Runs := 1; Memory := 1; KV := 2; EventsN := 2; Skipped := 1; Errors := [] |} ∧
  complete sample_source sample_paths (migrated has_bob).2 ∧
  (migrated (migrated has_bob).2).1 = {| Agents := 0; Runs := 0; Memory := 0; KV := 0; EventsN := 0; Skipped := 7; Errors := [] |}.
Proof.
  assert (Hr : (migrated has_bob).1 = {| Agents := 1; Runs := 1; Memory := 1; KV := 2; EventsN := 2; Skipped := 1; Errors := [] |}) by (vm_compute; reflexivity).
  assert (Hm : Migrate sample_source sample_paths false has_bob None = Some ((migrated has_bob).1, (migrated has_bob).2)) by (vm_compute; reflexivity).
  split; [exact Hr|]. split; [|vm_compute; reflexivity].
  destruct (migration_copies sample_source sample_paths sample_filed has_bob None _ _ Hm) as (_ & _ & HE).
  apply HE. rewrite Hr. reflexivity.
Defined.

Lemma dry_run_writes_nothing_witness : ∃ r t', Migrate sample_source sample_paths true has_bob None = Some (r, t') ∧
  Agents r = 1 ∧ Skipped r = 1 ∧ sameView has_bob t'.
Proof.
  set (m := default (noResult, has_bob) (Migrate sample_source sample_paths true has_bob None)). exists m.1, m.2.
  assert (Hm : Migrate sample_source sample_paths true has_bob None = Some (m.1, m.2)) by (vm_compute; reflexivity).
  split; [exact Hm|]. split; [vm_compute; reflexivity|]. split; [vm_compute; reflexivity|].
  exact (dry_run_writes_nothing sample_source sample_paths has_bob None m.1 m.2 Hm).
Defined.

(** *** What is left behind *)

(** The command opens the file event log anew, and the log answers from its memory: whatever
    is on disk, no event is migrated. *)
Lemma fresh_log_migrates_no_events {T} `{Target T} (src : Source) dryRun files t r (s : St (T:=T)) :
  (∀ t r, readEvents src t r = Some (Events.QueryFromSequence t r 0 (Events.NewFileEventLogStore files))) →
  migrateOneEventRun src dryRun t r s = s.
Proof. intros Hs. unfold migrateOneEventRun. rewrite Hs. done. Qed.

Lemma fresh_log_migrates_no_events_witness : ∀ s : St (T:=ListTarget),
  migrateOneEventRun {| readDir := readDir sample_source; listAgents := listAgents sample_source; listRuns := listRuns sample_source;
    readMemory := readMemory sample_source; listKeys := listKeys sample_source; readKV := readKV sample_source;
    readEvents := λ t r, Some (Events.QueryFromSequence t r 0 (Events.NewFileEventLogStore {["acme/a" := [Events.sample_event "a" 1]]})) |}
    false "acme" "a" s = s.
Proof. intros s. apply (fresh_log_migrates_no_events _ _ {["acme/a" := [Events.sample_event "a" 1]]}). done. Defined.

(** A run of which one event could not be written is taken for migrated by the next
    migration: the missing event stays missing. *)
Lemma partial_events_stay_partial :
  let broken := migrated {| held := []; faults := repeat false 13 ++ [true] |} in
  let again := migrated broken.2 in
  Errors broken.1 = ["write event"] ∧ Errors again.1 = [] ∧ EventsN again.1 = 0 ∧
  view again.2 (KEvents "acme" "a") = Some (SEvents [Events.sample_event "a" 2]).
Proof. vm_compute. split_and!; reflexivity. Qed.

(** Runs are looked for below the agents' tenants: those of a tenant without an agent
    directory are left out, without an error. *)
Lemma runs_without_agents_left_out :
  let src := {| readDir := λ d, if decide (d = "agents") then DirMissing else Entries []; listAgents := listAgents sample_source;
    listRuns := listRuns sample_source; readMemory := readMemory sample_source; listKeys := listKeys sample_source;
    readKV := readKV sample_source; readEvents := readEvents sample_source |} in
  Migrate src sample_paths false {| held := []; faults := [] |} None = Some (noResult, {| held := []; faults := [] |}).
Proof. vm_compute. reflexivity. Qed.
