(* ===== verification/GoText.v ===== *)
(** * GoText: substrings (package strings)

    [strings.Index], [Contains], [Cut], [Count] and [Replace] with a limit of one, on
    bytes, with the lemmas their users share. *)
From S2P Require Import Prelude GoStrings.

#[local] Open Scope nat_scope.

(** [strings.Index]: the first position where [sub] begins, [None] for -1. *)
Fixpoint Index (s sub : string) : option nat :=
  if String.prefix sub s then Some 0
  else match s with
       | EmptyString => None
       | String _ s' => S <$> Index s' sub
       end.

Definition strContains (s sub : string) : bool := bool_decide (is_Some (Index s sub)).

(** [strings.Replace] with n = 1. *)
Definition ReplaceOnce (s old new : string) : string :=
  match Index s old with
  | None => s
  | Some i => takeBytes i s +:+ new +:+ dropBytes (i + String.length old) s
  end.

(** [strings.Count] of a single byte. *)
Fixpoint CountByte (s : string) (b : ascii) : nat :=
  match s with
  | EmptyString => 0
  | String c s' => (if decide (c = b) then 1 else 0) + CountByte s' b
  end.

(** [strings.Cut]. *)
Definition Cut (s sep : string) : option (string * string) :=
  match Index s sep with
  | None => None
  | Some i => Some (takeBytes i s, dropBytes (i + String.length sep) s)
  end.

(** What follows the last [b], the whole text if there is none. *)
Fixpoint afterLast (b : ascii) (s : string) : string :=
  match s with
  | EmptyString => EmptyString
  | String c s' => if decide (c = b) then afterLast b s' else if strContains s' (String b "") then afterLast b s' else String c s'
  end.

(** ** Lemmas *)

Lemma prefix_HasPrefix p s : String.prefix p s = true ↔ ∃ t, s = p +:+ t.
Proof.
  split.
  - intros Hp. exists (dropBytes (String.length p) s). by apply HasPrefix_split.
  - intros [t ->]. by apply (HasPrefix_app p t).
Qed.

Lemma takeBytes_dropBytes n s : takeBytes n s +:+ dropBytes n s = s.
Proof. revert n. induction s as [|c s IH]; intros [|n]; try done. cbn. by rewrite string_app_cons, IH. Qed.

(** The position of the first occurrence, as a split of the text. *)
Lemma Index_Some s sub i : Index s sub = Some i →
  s = takeBytes i s +:+ sub +:+ dropBytes (i + String.length sub) s ∧ String.length (takeBytes i s) = i.
Proof.
  revert i. induction s as [|c s IH]; intros i; cbn [Index].
  - destruct (String.prefix sub "") eqn:Ep; [|done]. intros [= <-]. split; [|done].
    cbn [takeBytes Nat.add]. rewrite string_app_nil. by apply HasPrefix_split.
  - destruct (String.prefix sub (String c s)) eqn:Ep.
    + intros [= <-]. split; [|done]. cbn [takeBytes Nat.add]. rewrite string_app_nil. by apply HasPrefix_split.
    + destruct (Index s sub) as [j|]; cbn; [|done]. intros [= <-]. destruct (IH j eq_refl) as [Hs Hl]. cbn. rewrite Hl. split; [|done].
      rewrite string_app_cons. f_equal. exact Hs.
Qed.

Lemma Index_None s sub : Index s sub = None → ∀ a b, s ≠ a +:+ sub +:+ b.
Proof.
  induction s as [|c s IH]; cbn [Index]; destruct (String.prefix sub _) eqn:Ep; try done.
  - intros _ [|x a] b; [|by rewrite string_app_cons]. rewrite string_app_nil. intros Hs. assert (String.prefix sub "" = true) by (apply prefix_HasPrefix; eauto). congruence.
  - destruct (Index s sub); [done|]. intros _ [|x a] b; [rewrite string_app_nil|rewrite string_app_cons].
    + intros Hs. assert (String.prefix sub (String c s) = true) by (apply prefix_HasPrefix; eauto). congruence.
    + intros [= _ ->]. by eapply IH.
Qed.

Lemma strContains_spec s sub : strContains s sub = true ↔ ∃ a b, s = a +:+ sub +:+ b.
Proof.
  unfold strContains. rewrite bool_decide_eq_true. split.
  - intros [i Hi]. apply Index_Some in Hi as [Hs _]. eauto.
  - intros (a & b & ->). destruct (Index _ sub) eqn:E; [eauto|]. by eapply Index_None in E.
Qed.

(** [Index] finds the first occurrence. *)
Lemma Index_first s sub i j : Index s sub = Some i → j < i → String.prefix sub (dropBytes j s) = false.
Proof.
  revert i j. induction s as [|c s IH]; intros i j; cbn [Index]; destruct (String.prefix sub _) eqn:Ep; try done; [intros [= <-]; lia..|].
  destruct (Index s sub) as [k|] eqn:Ei; cbn; [|done]. intros [= <-] Hj. destruct j as [|j]; [done|]. cbn. apply (IH k); [done|lia].
Qed.

Lemma Index_occurs s sub i : Index s sub = Some i → String.prefix sub (dropBytes i s) = true.
Proof.
  revert i. induction s as [|c s IH]; intros i; cbn [Index]; destruct (String.prefix sub _) eqn:Ep; try done; [by intros [= <-]..|].
  destruct (Index s sub) as [k|]; cbn; [|done]. intros [= <-]. by apply IH.
Qed.

Lemma Index_None_occurs s sub j : Index s sub = None → String.prefix sub (dropBytes j s) = false.
Proof.
  intros Hi. destruct (String.prefix sub (dropBytes j s)) eqn:E; [|done]. apply prefix_HasPrefix in E as [t Ht].
  destruct (Index_None _ _ Hi (takeBytes j s) t). by rewrite <- Ht, takeBytes_dropBytes.
Qed.

Lemma dropBytes_add i j s : dropBytes i (dropBytes j s) = dropBytes (j + i) s.
Proof. revert i j. induction s as [|c s IH]; intros i [|j]; try done; [by destruct i|]. cbn. apply IH. Qed.

Lemma get_app_length a c s : String.get (String.length a) (a +:+ String c s) = Some c.
Proof. induction a as [|x a IH]; [done|]. by rewrite string_app_cons. Qed.

Lemma string_snoc_inv (s : string) : s = "" ∨ ∃ t c, s = t +:+ String c "".
Proof.
  induction s as [|c s [->|(t & d & ->)]]; [by left|right; by exists "", c|]. right. exists (String c t), d. by rewrite string_app_cons.
Qed.

Lemma length_takeBytes n s : n ≤ String.length s → String.length (takeBytes n s) = n.
Proof. revert n. induction s as [|c s IH]; intros [|n] Hn; cbn in *; try lia. f_equal. apply IH. lia. Qed.

Lemma length_dropBytes n s : String.length (dropBytes n s) = String.length s - n.
Proof. revert n. induction s as [|c s IH]; intros [|n]; cbn; try done. Qed.

(** [Cut] at a single byte. *)
Lemma Cut_char_cons d s c : Cut (String d s) (String c "") =
  if decide (c = d) then Some ("", s) else match Cut s (String c "") with Some (a, b) => Some (String d a, b) | None => None end.
Proof.
  unfold Cut. cbn [Index String.prefix]. destruct (decide (c = d)) as [->|Hn].
  - destruct (ascii_dec d d); [by destruct s|done].
  - destruct (ascii_dec c d); [done|]. by destruct (Index s (String c "")).
Qed.

Lemma Cut_char_Some s c a b : Cut s (String c "") = Some (a, b) ↔ s = a +:+ String c b ∧ ∀ x y, a ≠ x +:+ String c y.
Proof.
  revert a b. induction s as [|d s IH]; intros a b.
  { split; [done|]. intros [He _]. by destruct a. }
  rewrite Cut_char_cons. destruct (decide (c = d)) as [->|Hn].
  - split; [intros [= <- <-]; split; [done|]; intros [|? ?]; by rewrite ?string_app_cons|]. intros [He Hx]. destruct a as [|e a]; [by injection He as <-|].
    rewrite string_app_cons in He. injection He as -> _. by destruct (Hx "" a).
  - destruct (Cut s (String c "")) as [[a' b']|] eqn:Ec.
    + assert (∀ b'' a'', Some (a', b') = Some (a'', b'') ↔ s = a'' +:+ String c b'' ∧ ∀ x y, a'' ≠ x +:+ String c y) as IH' by (intros; apply IH).
      split.
      * intros [= <- <-]. destruct (IH' b' a') as [H1 _]. destruct (H1 eq_refl) as [-> Hx]. rewrite string_app_cons. split; [done|].
        intros [|e x] y; [by rewrite string_app_nil; intros [= -> _]|]. rewrite string_app_cons. intros [= _ Hy]. by apply (Hx x y).
      * intros [He Hx]. destruct a as [|e a]; [by injection He as -> _|]. rewrite string_app_cons in He. injection He as <- He.
        destruct (IH' b a) as [_ H2]. enough (Some (a', b') = Some (a, b)) as [= -> ->] by done. apply H2. split; [done|].
        intros x y ->. apply (Hx (String d x) y). by rewrite string_app_cons.
    + split; [done|]. intros [He Hx]. destruct a as [|e a]; [by injection He as -> _|]. rewrite string_app_cons in He. injection He as <- He.
      enough (None = Some (a, b)) by done. apply IH. split; [done|]. intros x y ->. apply (Hx (String d x) y). by rewrite string_app_cons.
Qed.
