(* ===== verification/Sandbox.v ===== *)
(** * Sandbox: untrusted code in throw-away containers

    internal/sandbox/executor.go ([DockerExecutor]: create, start, wait, kill, logs,
    remove) and mcp/tools/sandbox.go (execute_code, execute_shell).  The Docker daemon is
    outside: an argument that answers each request, after some time, from the requests so
    far.  An execution returns its result and the requests it has sent; its caller's context
    stays alive. *)
From S2P Require Import Prelude GoTime GoStrings GoText.

(** ** Languages *)

Record langConfig := { Image : string; Cmd : list string }.

Definition SupportedLanguages : gmap string langConfig := list_to_map [
  ("python", {| Image := "python:3.12-slim"; Cmd := ["python3"; "-c"] |});
  ("javascript", {| Image := "node:22-slim"; Cmd := ["node"; "-e"] |});
  ("go", {| Image := "golang:1.22-alpine"; Cmd := ["sh"; "-c"; "cat > /tmp/main.go && go run /tmp/main.go"] |});
  ("bash", {| Image := "alpine:latest"; Cmd := ["sh"; "-c"] |})].

Definition nl : string := String "010" "".

Definition goCommand (code : string) : string :=
  "cat > /tmp/main.go << 'GOEOF'" +:+ nl +:+ code +:+ nl +:+ "GOEOF" +:+ nl +:+ "go run /tmp/main.go".

Definition buildCommand (lang : langConfig) (code : string) : list string :=
  match Cmd lang with
  | [c0; c1; c2] =>
      if decide (c0 = "sh" ∧ c1 = "-c") then
        if strContains c2 "go run" then ["sh"; "-c"; goCommand code] else ["sh"; "-c"; code]
      else [c0; c1; c2; code]
  | cmd => cmd ++ [code]
  end.

(** ** The stream of a container's output *)

(** The size in the header of a frame, big-endian. *)
Definition frameSize (b4 b5 b6 b7 : ascii) : Z :=
  let z c := Z.of_nat (nat_of_ascii c) in
  Z.lor (Z.lor (Z.lor (Z.shiftl (z b4) 24) (Z.shiftl (z b5) 16)) (Z.shiftl (z b6) 8)) (z b7).

(** [demuxDockerStream]; every round consumes at least eight bytes, so the length is enough. *)
Fixpoint demuxFrom (fuel : nat) (data stdout stderr : list ascii) : list ascii * list ascii :=
  match fuel, data with
  | S fuel, streamType :: _ :: _ :: _ :: b4 :: b5 :: b6 :: b7 :: data =>
      let size := Z.to_nat (Z.min (frameSize b4 b5 b6 b7) (Z.of_nat (length data))) in
      let payload := take size data in
      demuxFrom fuel (drop size data)
        (if decide (streamType = "001"%char) then stdout ++ payload else stdout)
        (if decide (streamType = "002"%char) then stderr ++ payload else stderr)
  | _, _ => (stdout, stderr)
  end.

Definition demuxDockerStream (data : list ascii) : list ascii * list ascii := demuxFrom (length data) data [] [].

(** ** The daemon *)

Record containerCreateBody := {
  cbImage : string; cbCmd : list string; WorkingDir : string; NetworkDisabled : bool; Labels : list (string * string);
  CMemory : Z; NanoCPUs : Z; ReadonlyRootfs : bool; Tmpfs : list (string * string); NetworkMode : string
}.

Inductive Request :=
  | CreateReq (name : string) (body : containerCreateBody)
  | StartReq (id : string) | WaitReq (id : string) | KillReq (id : string) | LogsReq (id : string) | RemoveReq (id : string).

(** No answer, or a status, the further time until the body has been read, and what the body
    decodes to: a container's id, an exit code, the bytes of a log that can be read. *)
Inductive Reply := Lost | Reply_ (status : Z) (body : Duration) (id : option string) (exit : option Z) (raw : option (list ascii)).

Inductive APIError := BuildRequest | CallFailed | UnexpectedStatus (status : Z) | DecodeFailed | ReadLogsFailed.

Inductive ExecError :=
  | EmptyCode | UnsupportedLanguage (language : string) | EmptyCommand
  | CreateFailed (e : APIError) | StartFailed (e : APIError) | WaitFailed (e : APIError) | LogsFailed (e : APIError).

Record ExecResult := { Stdout : list ascii; Stderr : list ascii; ExitCode : Z; TimedOut : bool; ExDuration : Duration }.

Section executor.
(** The daemon, the addresses a request can be made of, and the random part of a name. *)
Context (daemon : list Request → Duration * Reply) (requestable : string → bool).

Definition Sent : Type := list Request.

(** A request about a container: none if no address can be made of its id. *)
Definition call (id : string) (r : Request) (sent : Sent) : option (Duration * Reply) * Sent :=
  if requestable id then (Some (daemon (sent ++ [r])), sent ++ [r]) else (None, sent).

(** The calls that only look at the status, with the time they take. *)
Definition statusCall (good : list Z) (id : string) (r : Request) (sent : Sent) : (option APIError * Duration) * Sent :=
  match call id r sent with
  | (None, sent) => ((Some BuildRequest, 0), sent)
  | (Some (took, Lost), sent) => ((Some CallFailed, took), sent)
  | (Some (took, Reply_ status _ _ _ _), sent) => ((if decide (status ∈ good) then None else Some (UnexpectedStatus status), took), sent)
  end.

Definition startContainer (id : string) : Sent → (option APIError * Duration) * Sent := statusCall [204; 304] id (StartReq id).

Definition killContainer (id : string) : Sent → (option APIError * Duration) * Sent := statusCall [204; 404] id (KillReq id).

Definition removeContainer (id : string) : Sent → (option APIError * Duration) * Sent := statusCall [204; 404] id (RemoveReq id).

Definition createBody (image : string) (cmd : list string) : containerCreateBody := {|
  cbImage := image; cbCmd := cmd; WorkingDir := "/sandbox"; NetworkDisabled := true; Labels := [("nexixai.role", "sandbox")];
  CMemory := 512 * 1024 * 1024; NanoCPUs := 1000000000; ReadonlyRootfs := true;
  Tmpfs := [("/tmp", "size=64m"); ("/sandbox", "size=64m")]; NetworkMode := "none"
|}.

Definition containerNamePrefix : string := "agentos-sandbox-".

Definition createContainer (random image : string) (cmd : list string) (sent : Sent) : (APIError + string) * Sent :=
  let r := CreateReq (containerNamePrefix +:+ random) (createBody image cmd) in
  match (daemon (sent ++ [r])).2 with
  | Lost => (inl CallFailed, sent ++ [r])
  | Reply_ status _ id _ _ =>
      if decide (status ≠ 201) then (inl (UnexpectedStatus status), sent ++ [r])
      else match id with None => (inl DecodeFailed, sent ++ [r]) | Some id => (inr id, sent ++ [r]) end
  end.

(** Whether the wait timed out, the exit code, and how long it took.  The time limit also
    ends the reading of an answer that has begun, and that is an error. *)
Definition waitContainer (id : string) (timeout : Duration) (sent : Sent) : (APIError + (bool * Z * Duration)) * Sent :=
  match call id (WaitReq id) sent with
  | (None, sent) => (inl BuildRequest, sent)
  | (Some (took, reply), sent) =>
      if decide (timeout <= took) then (inr (true, -1, timeout), sent)
      else match reply with
      | Lost => (inl CallFailed, sent)
      | Reply_ status body _ exit _ =>
          if decide (status ≠ 200) then (inl (UnexpectedStatus status), sent)
          else if decide (timeout <= took + body) then (inl DecodeFailed, sent)
          else match exit with None => (inl DecodeFailed, sent) | Some code => (inr (false, code, took + body), sent) end
      end
  end.

Definition getLogs (id : string) (sent : Sent) : (APIError + (list ascii * list ascii)) * Sent :=
  match call id (LogsReq id) sent with
  | (None, sent) => (inl BuildRequest, sent)
  | (Some (_, Lost), sent) => (inl CallFailed, sent)
  | (Some (_, Reply_ status _ _ _ raw), sent) =>
      if decide (status ≠ 200) then (inl (UnexpectedStatus status), sent)
      else match raw with None => (inl ReadLogsFailed, sent) | Some data => (inr (demuxDockerStream data), sent) end
  end.

(** Start, wait, perhaps kill, and read the output. *)
Definition runContainer (id : string) (timeout : Duration) (sent : Sent) : (ExecError + ExecResult) * Sent :=
  match startContainer id sent with
  | ((Some e, _), sent) => (inl (StartFailed e), sent)
  | ((None, started), sent) =>
      match waitContainer id timeout sent with
      | (inl e, sent) => (inl (WaitFailed e), sent)
      | (inr (timedOut, exitCode, waited), sent) =>
          let sent := if timedOut then (killContainer id sent).2 else sent in
          match getLogs id sent with
          | (inl e, sent) => (inl (LogsFailed e), sent)
          | (inr (stdout, stderr), sent) =>
              (inr {| Stdout := stdout; Stderr := stderr; ExitCode := exitCode; TimedOut := timedOut; ExDuration := started + waited |}, sent)
          end
      end
  end.

(** The deferred removal comes last on every path. *)
Definition executeInContainer (id : string) (timeout : Duration) (sent : Sent) : (ExecError + ExecResult) * Sent :=
  let '(r, sent) := runContainer id timeout sent in (r, (removeContainer id sent).2).

Definition Execute (random language code : string) (timeout : Duration) (sent : Sent) : (ExecError + ExecResult) * Sent :=
  if decide (code = "") then (inl EmptyCode, sent)
  else match SupportedLanguages !! language with
  | None => (inl (UnsupportedLanguage language), sent)
  | Some lang =>
      match createContainer random (Image lang) (buildCommand lang code) sent with
      | (inl e, sent) => (inl (CreateFailed e), sent)
      | (inr id, sent) => executeInContainer id timeout sent
      end
  end.

Definition shellImage : string := "ubuntu:24.04".

Definition ExecuteShell (random command : string) (timeout : Duration) (sent : Sent) : (ExecError + ExecResult) * Sent :=
  if decide (command = "") then (inl EmptyCommand, sent)
  else match createContainer random shellImage ["bash"; "-c"; command] sent with
  | (inl e, sent) => (inl (CreateFailed e), sent)
  | (inr id, sent) => executeInContainer id timeout sent
  end.
End executor.

(** ** The tools (mcp/tools/sandbox.go) *)

Definition defaultTimeoutSeconds : Z := 30.
Definition maxTimeoutSeconds : Z := 300.

Record executeCodeInput := { Language : string; Code : string; CTimeout : option Z }.
Record executeShellInput := { Command : string; STimeout : option Z }.

(** Milliseconds of [Duration]. *)
Record executeOutput := { oStdout : list ascii; oStderr : list ascii; oExitCode : Z; oTimedOut : bool; oDurationMs : Z }.

Inductive SandboxToolError :=
  | InvalidParameters | LanguageRequired | CodeRequired | CommandRequired | TimeoutTooShort | TimeoutTooLong | ExecutionFailed (e : ExecError).

Definition timeoutOf (asked : option Z) : SandboxToolError + Z :=
  match asked with
  | None => inr defaultTimeoutSeconds
  | Some n => if decide (n < 1) then inl TimeoutTooShort else if decide (maxTimeoutSeconds < n) then inl TimeoutTooLong else inr n
  end.

Definition outputOf (r : ExecResult) : executeOutput := {|
  oStdout := Stdout r; oStderr := Stderr r; oExitCode := ExitCode r; oTimedOut := TimedOut r; oDurationMs := Z.quot (ExDuration r) Millisecond
|}.

(** An executor, as the tools use it. *)
Class SandboxExecutor (W : Type) := {
  execute : string → string → Duration → W → (ExecError + ExecResult) * W;
  executeShell : string → Duration → W → (ExecError + ExecResult) * W
}.

#[export] Instance DockerExecutor daemon requestable random : SandboxExecutor Sent := {|
  execute := Execute daemon requestable random; executeShell := ExecuteShell daemon requestable random
|}.

Section tools.
Context {W : Type} `{SandboxExecutor W}.

Definition executeCodeHandler (params : option executeCodeInput) (w : W) : (SandboxToolError + executeOutput) * W :=
  match params with
  | None => (inl InvalidParameters, w)
  | Some input =>
      if decide (Language input = "") then (inl LanguageRequired, w)
      else if decide (Code input = "") then (inl CodeRequired, w)
      else match timeoutOf (CTimeout input) with
      | inl e => (inl e, w)
      | inr timeoutSec =>
          match execute (Language input) (Code input) (int64_wrap (timeoutSec * Second)) w with
          | (inl e, w) => (inl (ExecutionFailed e), w)
          | (inr r, w) => (inr (outputOf r), w)
          end
      end
  end.

Definition executeShellHandler (params : option executeShellInput) (w : W) : (SandboxToolError + executeOutput) * W :=
  match params with
  | None => (inl InvalidParameters, w)
  | Some input =>
      if decide (Command input = "") then (inl CommandRequired, w)
      else match timeoutOf (STimeout input) with
      | inl e => (inl e, w)
      | inr timeoutSec =>
          match executeShell (Command input) (int64_wrap (timeoutSec * Second)) w with
          | (inl e, w) => (inl (ExecutionFailed e), w)
          | (inr r, w) => (inr (outputOf r), w)
          end
      end
  end.
End tools.

(** ** The output *)

(** A frame as the daemon writes it. *)
Definition bigEndian4 (n : Z) : list ascii :=
  (λ k, ascii_of_nat (Z.to_nat (Z.shiftr n k mod 256))) <$> [24; 16; 8; 0].

Definition frame (f : ascii * list ascii) : list ascii :=
  f.1 :: "000"%char :: "000"%char :: "000"%char :: bigEndian4 (Z.of_nat (length f.2)) ++ f.2.

Definition framed (fs : list (ascii * list ascii)) : list ascii := mjoin (frame <$> fs).

Definition goodFrames (fs : list (ascii * list ascii)) : Prop := Forall (λ f, Z.of_nat (length f.2) < 2 ^ 32) fs.

(** What was written to one of the streams. *)
Definition written (k : ascii) (fs : list (ascii * list ascii)) : list ascii := mjoin ((filter (λ f, f.1 = k) fs).*2).

Lemma lor_shift a b k : 0 <= b < 2 ^ k → 0 <= k → Z.lor (Z.shiftl a k) b = a * 2 ^ k + b.
Proof.
  intros Hb Hk. rewrite Z.shiftl_mul_pow2 by done. symmetry. apply Z.add_nocarry_lor, Z.bits_inj'. intros n Hn.
  rewrite Z.land_spec, Z.bits_0. destruct (decide (n < k)); [by rewrite Z.mul_pow2_bits_low by lia|].
  destruct (decide (b = 0)) as [->|]; [by rewrite Z.bits_0, andb_false_r|]. rewrite (Z.bits_above_log2 b n), andb_false_r; [done|lia|].
  apply Z.log2_lt_pow2; [lia|]. apply Z.lt_le_trans with (2 ^ k); [lia|]. apply Z.pow_le_mono_r; lia.
Qed.

Lemma lor_bytes a b c d : 0 <= b < 256 → 0 <= c < 256 → 0 <= d < 256 →
  Z.lor (Z.lor (Z.lor (Z.shiftl a 24) (Z.shiftl b 16)) (Z.shiftl c 8)) d = a * 16777216 + b * 65536 + c * 256 + d.
Proof.
  intros Hb Hc Hd. pose proof (λ a b k, lor_shift a b k) as L.
  rewrite (L a (Z.shiftl b 16) 24) by (rewrite ?Z.shiftl_mul_pow2; lia).
  replace (a * 2 ^ 24 + Z.shiftl b 16) with (Z.shiftl (a * 256 + b) 16) by (rewrite !Z.shiftl_mul_pow2 by lia; lia).
  rewrite (L _ (Z.shiftl c 8) 16) by (rewrite ?Z.shiftl_mul_pow2; lia).
  replace ((a * 256 + b) * 2 ^ 16 + Z.shiftl c 8) with (Z.shiftl ((a * 256 + b) * 256 + c) 8) by (rewrite !Z.shiftl_mul_pow2 by lia; lia).
  rewrite (L _ d 8) by lia. lia.
Qed.

Lemma byte_of n : 0 <= n < 256 → Z.of_nat (nat_of_ascii (ascii_of_nat (Z.to_nat n))) = n.
Proof. intros. rewrite nat_ascii_embedding by lia. lia. Qed.

Lemma frameSize_bigEndian n b4 b5 b6 b7 : 0 <= n < 2 ^ 32 → bigEndian4 n = [b4; b5; b6; b7] → frameSize b4 b5 b6 b7 = n.
Proof.
  intros Hn. unfold bigEndian4. cbn. intros [= <- <- <- <-]. unfold frameSize. cbv zeta.
  assert (∀ k, 0 <= Z.shiftr n k mod 256 < 256) as Hb by (intros; apply Z.mod_pos_bound; lia).
  rewrite !byte_of by apply Hb. rewrite !Z.shiftr_div_pow2 by lia. change (n / 2 ^ 0) with (n / 1). rewrite Z.div_1_r.
  set (q1 := n / 2 ^ 8). set (q2 := n / 2 ^ 16). set (q3 := n / 2 ^ 24).
  assert (q2 = q1 / 256 ∧ q3 = q2 / 256 ∧ q3 mod 256 = q3) as (E2 & E3 & E4).
  { subst q1 q2 q3. rewrite !Z.div_div by lia. split_and!; [done|done|]. apply Z.mod_small. split; [apply Z.div_pos; lia|apply Z.div_lt_upper_bound; lia]. }
  pose proof (Z.div_mod n 256 ltac:(lia)) as D1. pose proof (Z.div_mod q1 256 ltac:(lia)) as D2. pose proof (Z.div_mod q2 256 ltac:(lia)) as D3.
  change (n / 256) with q1 in D1. rewrite <- E2 in D2. rewrite <- E3 in D3.
  assert (∀ m, 0 <= m mod 256 < 256) as Hm by (intros; apply Z.mod_pos_bound; lia).
  pose proof (Hm n). pose proof (Hm q1). pose proof (Hm q2). rewrite E4, lor_bytes by done. lia.
Qed.

Lemma demuxFrom_acc fuel data a b :
  demuxFrom fuel data a b = (a ++ (demuxFrom fuel data [] []).1, b ++ (demuxFrom fuel data [] []).2).
Proof.
  revert data a b. induction fuel as [|fuel IH]; intros data a b; [cbn; by rewrite !app_nil_r|].
  do 8 (destruct data as [|? data]; [cbn; by rewrite !app_nil_r|]). cbn -[take drop].
  rewrite IH. set (p := take _ _). rewrite (IH _ (if decide _ then p else [])). cbn -[take drop].
  f_equal; destruct (decide _); by rewrite ?app_nil_r, <- ?app_assoc.
Qed.

Lemma demuxFrom_step fuel t x y z b4 b5 b6 b7 data a b :
  demuxFrom (S fuel) (t :: x :: y :: z :: b4 :: b5 :: b6 :: b7 :: data) a b =
  let size := Z.to_nat (Z.min (frameSize b4 b5 b6 b7) (Z.of_nat (length data))) in
  demuxFrom fuel (drop size data) (if decide (t = "001"%char) then a ++ take size data else a)
    (if decide (t = "002"%char) then b ++ take size data else b).
Proof. done. Qed.

(** More rounds than bytes change nothing. *)
Lemma demuxFrom_fuel fuel fuel' data a b : (length data ≤ fuel)%nat → (length data ≤ fuel')%nat → demuxFrom fuel data a b = demuxFrom fuel' data a b.
Proof.
  revert fuel' data a b. induction fuel as [|fuel IH]; intros [|fuel'] data a b; [done|destruct data; cbn; [done|lia]..|].
  do 8 (destruct data as [|? data]; [done|]). cbn -[take drop]. intros. apply IH; rewrite length_drop; lia.
Qed.

Definition outOf (k : ascii) (f : ascii * list ascii) : list ascii := if decide (f.1 = k) then f.2 else [].

Lemma written_cons k f fs : written k (f :: fs) = outOf k f ++ written k fs.
Proof. unfold written, outOf. rewrite filter_cons. by destruct (decide (f.1 = k)). Qed.

Lemma bigEndian4_four n : ∃ b4 b5 b6 b7, bigEndian4 n = [b4; b5; b6; b7].
Proof. by do 4 eexists. Qed.

(** A header whose payload is as long as it says, or cut short. *)
Lemma demux_frame t n payload rest : Z.of_nat n < 2 ^ 32 → (length payload = n ∨ (length payload ≤ n)%nat ∧ rest = []) →
  let data := t :: "000"%char :: "000"%char :: "000"%char :: bigEndian4 (Z.of_nat n) ++ payload ++ rest in
  demuxDockerStream data = (outOf "001" (t, payload) ++ (demuxDockerStream rest).1, outOf "002" (t, payload) ++ (demuxDockerStream rest).2).
Proof.
  intros Hn Hl. cbv zeta. destruct (bigEndian4_four (Z.of_nat n)) as (b4 & b5 & b6 & b7 & Hb). rewrite Hb.
  unfold demuxDockerStream. cbn [app length]. rewrite demuxFrom_step, (frameSize_bigEndian (Z.of_nat n)) by (done || lia). cbv zeta.
  assert (take (Z.to_nat (Z.min (Z.of_nat n) (Z.of_nat (length (payload ++ rest))))) (payload ++ rest) = payload ∧
    drop (Z.to_nat (Z.min (Z.of_nat n) (Z.of_nat (length (payload ++ rest))))) (payload ++ rest) = rest) as [-> ->].
  { rewrite length_app. destruct Hl as [Hl|[Hl ->]].
    - replace (Z.to_nat _) with (length payload) by lia. by rewrite take_app_length, drop_app_length.
    - rewrite app_nil_r. replace (Z.to_nat _) with (length payload) by (cbn [length]; lia). by rewrite firstn_all, drop_all. }
  rewrite demuxFrom_acc. unfold outOf. cbn [fst snd].
  rewrite (demuxFrom_fuel _ (length rest) rest) by (rewrite ?length_app; lia). f_equal.
Qed.

Lemma framed_cons f fs : framed (f :: fs) = frame f ++ framed fs.
Proof. done. Qed.

Lemma demux_framed fs rest : goodFrames fs →
  demuxDockerStream (framed fs ++ rest) = (written "001" fs ++ (demuxDockerStream rest).1, written "002" fs ++ (demuxDockerStream rest).2).
Proof.
  induction 1 as [|[t p] fs Hf Hfs IH]; [apply surjective_pairing|].
  rewrite framed_cons, !written_cons, <- app_assoc. unfold frame. cbn [fst snd app]. rewrite <- (app_assoc (bigEndian4 _)).
  rewrite (demux_frame t (length p) p) by (first [exact Hf|by left]). by rewrite IH, <- !app_assoc.
Qed.

Lemma demux_short data : (length data < 8)%nat → demuxDockerStream data = ([], []).
Proof. intros Hl. unfold demuxDockerStream. do 8 (destruct data as [|? data]; [done|]). cbn in Hl. lia. Qed.

(** The frames of which the first [n] bytes of the stream bring something, with what they
    bring of the payload. *)
Fixpoint arrived (n : nat) (fs : list (ascii * list ascii)) : list (ascii * list ascii) :=
  match fs with
  | [] => []
  | f :: fs => (f.1, take (n - 8) f.2) :: arrived (n - 8 - length f.2) fs
  end.

Lemma written_arrived_short k n fs : (n < 8)%nat → written k (arrived n fs) = [].
Proof.
  revert n. induction fs as [|f fs IH]; intros n Hn; [done|]. cbn [arrived]. rewrite written_cons, IH by lia.
  replace (n - 8)%nat with 0%nat by lia. unfold outOf. cbn. by destruct (decide _).
Qed.

Lemma length_frame f : length (frame f) = (8 + length f.2)%nat.
Proof. done. Qed.

Lemma frame_cut t p m : (8 ≤ m)%nat → take m (frame (t, p)) =
  t :: "000"%char :: "000"%char :: "000"%char :: bigEndian4 (Z.of_nat (length p)) ++ take (m - 8) p ++ [].
Proof.
  intros Hm. unfold frame. cbn [fst snd]. destruct (bigEndian4_four (Z.of_nat (length p))) as (b4 & b5 & b6 & b7 & ->). rewrite app_nil_r.
  do 8 (destruct m as [|m]; [lia|]). cbn. by rewrite Nat.sub_0_r.
Qed.

Lemma demux_arrived n fs : goodFrames fs →
  demuxDockerStream (take n (framed fs)) = (written "001" (arrived n fs), written "002" (arrived n fs)).
Proof.
  intros Hfs. revert n. induction Hfs as [|[t p] fs Hf Hfs IH]; intros n; [by destruct n|].
  rewrite framed_cons. destruct (decide (n < 8)%nat) as [Hn|Hn].
  { rewrite !written_arrived_short, demux_short by (done || rewrite length_take; lia). done. }
  cbn [arrived fst snd]. rewrite !written_cons. destruct (decide (length (frame (t, p)) ≤ n)%nat) as [Hl|Hl]; rewrite length_frame in Hl; cbn [snd] in Hl.
  - rewrite take_app_ge by (rewrite length_frame; done). rewrite length_frame. cbn [snd]. rewrite (take_ge p) by lia.
    unfold frame. cbn [fst snd app]. rewrite <- (app_assoc (bigEndian4 _)). rewrite (demux_frame t (length p) p) by (first [exact Hf|by left]).
    rewrite IH. by replace (n - 8 - length p)%nat with (n - (8 + length p))%nat by lia.
  - rewrite take_app_le by (rewrite length_frame; cbn; lia). rewrite frame_cut by lia.
    rewrite demux_frame by (first [exact Hf|right; split; [rewrite length_take; lia|done]]).
    rewrite (demux_short []), !written_arrived_short by (cbn; lia). done.
Qed.

(** The output of a container is what it wrote: the daemon's stream of frames is taken
    apart into exactly the bytes of standard output and of standard error in their order, and
    a stream that breaks off anywhere, inside a header too, into what had arrived of each. *)
Theorem container_output_exact fs n (Hfs : goodFrames fs) :
  demuxDockerStream (framed fs) = (written "001" fs, written "002" fs) ∧
  demuxDockerStream (take n (framed fs)) = (written "001" (arrived n fs), written "002" (arrived n fs)).
Proof.
  split; [|by apply demux_arrived].
  pose proof (demux_framed fs [] Hfs) as HD. rewrite (demux_short []) in HD by (cbn; lia). by rewrite !app_nil_r in HD.
Qed.

(** ** The life of a container *)

Definition confined (r : Request) : Prop :=
  match r with
  | CreateReq name b =>
      HasPrefix name containerNamePrefix = true ∧ NetworkDisabled b = true ∧ NetworkMode b = "none" ∧ ReadonlyRootfs b = true ∧
      Tmpfs b = [("/tmp", "size=64m"); ("/sandbox", "size=64m")] ∧ CMemory b = 536870912 ∧ NanoCPUs b = 1000000000
  | _ => True
  end.

Section lifecycle.
Context (daemon : list Request → Duration * Reply) (requestable : string → bool).

(** The daemon's identifiers can stand in an address. *)
Definition goodIds : Prop := ∀ h took status body id exit raw, daemon h = (took, Reply_ status body (Some id) exit raw) → requestable id = true.

(** An answer in time, and one that comes to nothing in time: none, a wrong status, or a body
    that is not read before the limit or not understood. *)
Definition waitEnded (timeout : Duration) (answer : Duration * Reply) (code : Z) (waited : Duration) : Prop :=
  ∃ took body i r, answer = (took, Reply_ 200 body i (Some code) r) ∧ waited = took + body ∧ took < timeout ∧ waited < timeout.
Definition waitBroken (timeout : Duration) (answer : Duration * Reply) : Prop :=
  answer.1 < timeout ∧ ∀ code waited, ¬ waitEnded timeout answer code waited.

(** An answer with the output. *)
Definition logsRead (answer : Duration * Reply) (raw : list ascii) : Prop := ∃ took body i x, answer = (took, Reply_ 200 body i x (Some raw)).

Definition started (answer : Duration * Reply) : Prop := ∃ took s body i x r, answer = (took, Reply_ s body i x r) ∧ s ∈ [204; 304].

Definition outcome (raw : list ascii) (code : Z) (timedOut : bool) (took : Duration) : ExecResult :=
  {| Stdout := (demuxDockerStream raw).1; Stderr := (demuxDockerStream raw).2; ExitCode := code; TimedOut := timedOut; ExDuration := took |}.

(** The requests about a container between its creation and its removal, and the result
    they come to; [before] are the requests up to the creation. *)
Inductive ran (id : string) (timeout : Duration) (before : Sent) : list Request → ExecError + ExecResult → Prop :=
  | ran_not_started e : ¬ started (daemon (before ++ [StartReq id])) → ran id timeout before [StartReq id] (inl (StartFailed e))
  | ran_not_waited e :
      started (daemon (before ++ [StartReq id])) → waitBroken timeout (daemon (before ++ [StartReq id; WaitReq id])) →
      ran id timeout before [StartReq id; WaitReq id] (inl (WaitFailed e))
  | ran_finished code waited r :
      started (daemon (before ++ [StartReq id])) → waitEnded timeout (daemon (before ++ [StartReq id; WaitReq id])) code waited →
      (∀ raw, logsRead (daemon (before ++ [StartReq id; WaitReq id; LogsReq id])) raw →
         r = inr (outcome raw code false ((daemon (before ++ [StartReq id])).1 + waited))) →
      ((∀ raw, ¬ logsRead (daemon (before ++ [StartReq id; WaitReq id; LogsReq id])) raw) → ∃ e, r = inl (LogsFailed e)) →
      ran id timeout before [StartReq id; WaitReq id; LogsReq id] r
  | ran_killed r :
      started (daemon (before ++ [StartReq id])) → timeout <= (daemon (before ++ [StartReq id; WaitReq id])).1 →
      (∀ raw, logsRead (daemon (before ++ [StartReq id; WaitReq id; KillReq id; LogsReq id])) raw →
         r = inr (outcome raw (-1) true ((daemon (before ++ [StartReq id])).1 + timeout))) →
      ((∀ raw, ¬ logsRead (daemon (before ++ [StartReq id; WaitReq id; KillReq id; LogsReq id])) raw) → ∃ e, r = inl (LogsFailed e)) →
      ran id timeout before [StartReq id; WaitReq id; KillReq id; LogsReq id] r.

Lemma call_sent id r sent : requestable id = true → call daemon requestable id r sent = (Some (daemon (sent ++ [r])), sent ++ [r]).
Proof. unfold call. by intros ->. Qed.

Lemma statusCall_sent good id r sent : requestable id = true →
  ∃ e, statusCall daemon requestable good id r sent = ((e, (daemon (sent ++ [r])).1), sent ++ [r]) ∧
    (e = None ↔ ∃ took s b i x w, daemon (sent ++ [r]) = (took, Reply_ s b i x w) ∧ s ∈ good).
Proof.
  intros Hq. unfold statusCall. rewrite call_sent by done. destruct (daemon (sent ++ [r])) as [took [|s b i x w]].
  - exists (Some CallFailed). split; [done|]. split; [done|]. by intros (? & ? & ? & ? & ? & ? & [=] & _).
  - eexists. split; [reflexivity|]. destruct (decide (s ∈ good)) as [Hs|Hs].
    + split; [intros _; by exists took, s, b, i, x, w|done].
    + split; [done|]. intros (? & ? & ? & ? & ? & ? & [= -> -> -> -> -> ->] & ?). done.
Qed.

(** What reading the output comes to. *)
Lemma getLogs_read id sent (f : (list ascii * list ascii) → ExecError + ExecResult) : requestable id = true →
  ∃ r, (match getLogs daemon requestable id sent with
        | (inl e, sent) => (inl (LogsFailed e), sent)
        | (inr o, sent) => (f o, sent)
        end) = (r, sent ++ [LogsReq id]) ∧
    (∀ raw, logsRead (daemon (sent ++ [LogsReq id])) raw → r = f (demuxDockerStream raw)) ∧
    ((∀ raw, ¬ logsRead (daemon (sent ++ [LogsReq id])) raw) → ∃ e, r = inl (LogsFailed e)).
Proof.
  intros Hq. unfold getLogs, logsRead. rewrite call_sent by done. destruct (daemon (sent ++ [LogsReq id])) as [t [|s b i x raw]].
  - eexists. split; [reflexivity|]. split; [by intros raw (? & ? & ? & ? & [=])|eauto].
  - destruct (decide (s ≠ 200)) as [Hs| ->%dec_stable].
    + eexists. split; [reflexivity|]. split; [|eauto]. intros raw' (? & ? & ? & ? & [=]). congruence.
    + destruct raw as [raw|]; eexists; (split; [reflexivity|]); split; [|intros Hn; exfalso; eapply Hn; eauto 10| |eauto].
      * intros raw' (? & ? & ? & ? & [= _ _ _ _ ->]). done.
      * intros raw' (? & ? & ? & ? & [=]).
Qed.

Lemma waitContainer_ended id timeout sent : requestable id = true →
  let answer := daemon (sent ++ [WaitReq id]) in
  ∃ r, waitContainer daemon requestable id timeout sent = (r, sent ++ [WaitReq id]) ∧
    match r with
    | inl _ => waitBroken timeout answer
    | inr (true, code, waited) => timeout <= answer.1 ∧ code = -1 ∧ waited = timeout
    | inr (false, code, waited) => waitEnded timeout answer code waited
    end.
Proof.
  intros Hq. cbv zeta. unfold waitContainer. rewrite call_sent by done. destruct (daemon (sent ++ [WaitReq id])) as [took reply].
  destruct (decide (timeout <= took)) as [Ht|Ht]; [by eexists|]. unfold waitBroken, waitEnded. cbn [fst].
  destruct reply as [|s b i x w]; [eexists; split; [reflexivity|]; split; [lia|]; by intros ? ? (? & ? & ? & ? & [=] & _)|].
  destruct (decide (s ≠ 200)) as [Hs| ->%dec_stable]; [eexists; split; [reflexivity|]; split; [lia|]; intros ? ? (? & ? & ? & ? & [=] & _); congruence|].
  destruct (decide (timeout <= took + b)) as [Hb|Hb]; [eexists; split; [reflexivity|]; split; [lia|]; intros ? ? (? & ? & ? & ? & [= -> -> _ _ _] & -> & _ & ?); lia|].
  destruct x as [code|]; [|eexists; split; [reflexivity|]; split; [lia|]; by intros ? ? (? & ? & ? & ? & [=] & _)].
  eexists. split; [reflexivity|]. exists took, b, i, w. split_and!; [done|done|lia..].
Qed.

Lemma runContainer_ran id timeout sent : requestable id = true →
  ∃ r during, runContainer daemon requestable id timeout sent = (r, sent ++ during) ∧ ran id timeout sent during r.
Proof.
  intros Hq. unfold runContainer, startContainer. destruct (statusCall_sent [204; 304] id (StartReq id) sent Hq) as (e & -> & Hs).
  destruct e as [e|]; [do 2 eexists; split; [reflexivity|]; constructor; intros Hst; by apply Hs in Hst|]. pose proof (proj1 Hs eq_refl) as Hst. clear Hs.
  destruct (waitContainer_ended id timeout (sent ++ [StartReq id]) Hq) as (w & -> & Hw). rewrite <- app_assoc in Hw |- *. cbn [app] in Hw |- *.
  destruct w as [e|[[[] code] waited]]; [do 2 eexists; split; [reflexivity|by constructor]| |].
  - destruct Hw as (Ht & -> & ->). unfold killContainer. destruct (statusCall_sent [204; 404] id (KillReq id) (sent ++ [StartReq id; WaitReq id]) Hq) as (e & -> & _). cbn [snd].
    rewrite <- app_assoc. cbn [app].
    destruct (getLogs_read id (sent ++ [StartReq id; WaitReq id; KillReq id]) (λ o, inr {| Stdout := o.1; Stderr := o.2; ExitCode := -1; TimedOut := true; ExDuration := (daemon (sent ++ [StartReq id])).1 + timeout |}) Hq) as (r & Hr & Hread & Hnot).
    rewrite <- app_assoc in Hr, Hread, Hnot. cbn [app] in Hr, Hread, Hnot. exists r. eexists. split; [|by eapply ran_killed].
    rewrite <- Hr. by destruct (getLogs daemon requestable id _) as [[|[]] ?].
  - destruct (getLogs_read id (sent ++ [StartReq id; WaitReq id]) (λ o, inr {| Stdout := o.1; Stderr := o.2; ExitCode := code; TimedOut := false; ExDuration := (daemon (sent ++ [StartReq id])).1 + waited |}) Hq) as (r & Hr & Hread & Hnot).
    rewrite <- app_assoc in Hr, Hread, Hnot. cbn [app] in Hr, Hread, Hnot. exists r. eexists. split; [|by eapply ran_finished].
    rewrite <- Hr. by destruct (getLogs daemon requestable id _) as [[|[]] ?].
Qed.

(** How an execution of [cmd] in [image] ends: after a creation that
    failed, or with the whole life of one container that ends in its removal. *)
Inductive executed (image : string) (cmd : list string) (timeout : Duration) (sent : Sent) : list Request → ExecError + ExecResult → Prop :=
  | exec_not_created name e :
      (∀ took body id exit raw, daemon (sent ++ [CreateReq name (createBody image cmd)]) ≠ (took, Reply_ 201 body (Some id) exit raw)) →
      executed image cmd timeout sent [CreateReq name (createBody image cmd)] (inl (CreateFailed e))
  | exec_ran name id during r took body exit raw :
      daemon (sent ++ [CreateReq name (createBody image cmd)]) = (took, Reply_ 201 body (Some id) exit raw) →
      ran id timeout (sent ++ [CreateReq name (createBody image cmd)]) during r →
      executed image cmd timeout sent (CreateReq name (createBody image cmd) :: during ++ [RemoveReq id]) r.

Lemma create_executed (random image : string) cmd timeout sent : goodIds →
  let '(r, sent') := match createContainer daemon random image cmd sent with
                     | (inl e, s) => (inl (CreateFailed e), s)
                     | (inr id, s) => executeInContainer daemon requestable id timeout s
                     end in
  ∃ calls, sent' = sent ++ calls ∧ executed image cmd timeout sent calls r ∧ Forall confined calls.
Proof.
  intros Hids. unfold createContainer. set (c := CreateReq (containerNamePrefix +:+ random) (createBody image cmd)).
  assert (confined c) as Hc by (split; [apply HasPrefix_app|done]).
  assert (∀ e, (∀ took body id exit raw, daemon (sent ++ [c]) ≠ (took, Reply_ 201 body (Some id) exit raw)) →
    ∃ calls, sent ++ [c] = sent ++ calls ∧ executed image cmd timeout sent calls (inl (CreateFailed e)) ∧ Forall confined calls) as Hfail
    by (intros e Hn; exists [c]; split; [done|]; split; [exact (exec_not_created _ _ _ _ (containerNamePrefix +:+ random) e Hn)|by apply Forall_singleton]).
  destruct (daemon (sent ++ [c])) as [took [|s b id x w]] eqn:D; cbn [snd]; [by apply Hfail|].
  destruct (decide (s ≠ 201)) as [Hs| ->%dec_stable]; [apply Hfail; intros ? ? ? ? ? [=]; congruence|]. destruct id as [id|]; [|by apply Hfail].
  pose proof (Hids _ _ _ _ _ _ _ D) as Hq. unfold executeInContainer. destruct (runContainer_ran id timeout (sent ++ [c]) Hq) as (r & during & -> & Hr).
  unfold removeContainer. destruct (statusCall_sent [204; 404] id (RemoveReq id) ((sent ++ [c]) ++ during) Hq) as (e & -> & _). cbn [snd].
  exists (c :: during ++ [RemoveReq id]). split_and!; [by rewrite <- !app_assoc|by eapply exec_ran|].
  constructor; [done|]. apply Forall_app. split; [|by apply Forall_singleton]. clear -Hr. destruct Hr; repeat (apply Forall_cons; split); done.
Qed.

End lifecycle.

(** A container that was created but not told of is not removed. *)
Lemma untold_container_stays daemon requestable random code timeout took exit raw :
  code ≠ "" → (∀ h, daemon h = (took, Reply_ 201 0 None exit raw)) →
  ∃ c, Execute daemon requestable random "python" code timeout [] = (inl (CreateFailed DecodeFailed), [c]) ∧ ∀ id, c ≠ RemoveReq id.
Proof.
  intros Hc Hd. unfold Execute. rewrite decide_False by done.
  assert (SupportedLanguages !! "python" = Some {| Image := "python:3.12-slim"; Cmd := ["python3"; "-c"] |}) as -> by (vm_compute; reflexivity). unfold createContainer. rewrite Hd. cbn. by eexists.
Qed.

(** A daemon that begins its answer to the wait at once and completes it when the container
    ends: an execution that is over its time is an error, neither killed nor reported as timed
    out. *)
Lemma early_answer_hides_timeout daemon requestable id timeout sent took1 s1 b1 i1 x1 r1 took body i x r :
  requestable id = true → daemon (sent ++ [StartReq id]) = (took1, Reply_ s1 b1 i1 x1 r1) → s1 ∈ [204; 304] →
  daemon (sent ++ [StartReq id; WaitReq id]) = (took, Reply_ 200 body i x r) → took < timeout <= took + body →
  runContainer daemon requestable id timeout sent = (inl (WaitFailed DecodeFailed), sent ++ [StartReq id; WaitReq id]).
Proof.
  intros Hq D1 Hs D2 Ht. unfold runContainer, startContainer, statusCall, waitContainer, call. rewrite Hq, D1, decide_True by done.
  rewrite <- app_assoc. cbn [app]. rewrite D2, decide_False by lia. rewrite (decide_False (P := 200 ≠ 200)) by tauto. by rewrite decide_True by lia.
Qed.

(** ** The tools *)

Lemma timeoutOf_exact asked :
  if decide (1 <= default 30 asked <= 300) then timeoutOf asked = inr (default 30 asked) else ∃ e, timeoutOf asked = inl e.
Proof.
  destruct asked as [n|]; cbn; [|done]. unfold maxTimeoutSeconds. repeat case_decide; eauto; lia.
Qed.

Section tool_lemmas.
Context {W : Type} `{SandboxExecutor W}.

(** The tools pass a program or a command on unchanged, with a time limit between one
    second and five minutes that is the one asked for; anything else is refused before the
    executor is called, and what the executor answers comes back unchanged. *)
Theorem sandbox_tools_exact p q (w : W) :
  match p with
  | Some i =>
      if decide (Language i ≠ "" ∧ Code i ≠ "" ∧ 1 <= default 30 (CTimeout i) <= 300) then
        executeCodeHandler p w = let '(r, w') := execute (Language i) (Code i) (default 30 (CTimeout i) * Second) w in
                                 (match r with inl e => inl (ExecutionFailed e) | inr r => inr (outputOf r) end, w')
      else ∃ e, executeCodeHandler p w = (inl e, w)
  | None => executeCodeHandler p w = (inl InvalidParameters, w)
  end ∧
  match q with
  | Some i =>
      if decide (Command i ≠ "" ∧ 1 <= default 30 (STimeout i) <= 300) then
        executeShellHandler q w = let '(r, w') := executeShell (Command i) (default 30 (STimeout i) * Second) w in
                                  (match r with inl e => inl (ExecutionFailed e) | inr r => inr (outputOf r) end, w')
      else ∃ e, executeShellHandler q w = (inl e, w)
  | None => executeShellHandler q w = (inl InvalidParameters, w)
  end.
Proof.
  split; [destruct p as [i|]|destruct q as [i|]]; try done; cbn -[int64_wrap].
  - pose proof (timeoutOf_exact (CTimeout i)) as Ht. destruct (decide (Language i = "")) as [|Hl]; [rewrite decide_False by naive_solver; eauto|].
    destruct (decide (Code i = "")) as [|Hc]; [rewrite decide_False by naive_solver; eauto|]. destruct (decide (1 <= default 30 (CTimeout i) <= 300)) as [Hr|Hr].
    + rewrite decide_True by done. rewrite Ht, int64_wrap_id by (unfold in_int64, Second; lia). by destruct (execute _ _ _ w) as [[] ?].
    + rewrite decide_False by tauto. destruct Ht as [e ->]. eauto.
  - pose proof (timeoutOf_exact (STimeout i)) as Ht. destruct (decide (Command i = "")) as [|Hl]; [rewrite decide_False by naive_solver; eauto|].
    destruct (decide (1 <= default 30 (STimeout i) <= 300)) as [Hr|Hr].
    + rewrite decide_True by done. rewrite Ht, int64_wrap_id by (unfold in_int64, Second; lia). by destruct (executeShell _ _ w) as [[] ?].
    + rewrite decide_False by tauto. destruct Ht as [e ->]. eauto.
Qed.
End tool_lemmas.

(** ** Trying it *)

Definition sample_output : list (ascii * list ascii) := [("001"%char, ["h"; "i"]%char); ("002"%char, ["!"%char]); ("001"%char, ["010"%char])].

Definition sample_daemon (slow : bool) (h : list Request) : Duration * Reply :=
  match last h with
  | Some (CreateReq _ _) => (Millisecond, Reply_ 201 0 (Some "c1") None None)
  | Some (StartReq _) => (2 * Millisecond, Reply_ 204 0 None None None)
  | Some (WaitReq _) => (if slow then Hour else 4 * Millisecond, Reply_ 200 Millisecond None (Some 0) None)
  | Some (LogsReq _) => (Millisecond, Reply_ 200 Millisecond None None (Some (framed sample_output)))
  | _ => (Millisecond, Reply_ 204 0 None None None)
  end.

Lemma container_output_exact_witness :
  demuxDockerStream (framed sample_output) = (["h"; "i"; "010"]%char, ["!"]%char) ∧
  demuxDockerStream (take 20 (framed sample_output)) = (["h"; "i"]%char, ["!"]%char).
Proof.
  assert (Hg : goodFrames sample_output) by (repeat constructor).
  split; [exact (proj1 (container_output_exact sample_output 20 Hg))|].
  exact (proj2 (container_output_exact sample_output 20 Hg)).
Defined.


Example long_timeout_refused :
  executeCodeHandler (W := Sent) (H := DockerExecutor (sample_daemon false) (λ _, true) "00") (Some {| Language := "bash"; Code := "echo hi"; CTimeout := Some 301 |}) [] = (inl TimeoutTooLong, []).
Proof. vm_compute. reflexivity. Qed.
