(* ===== verification/McpChat.v ===== *)
(** * McpChat: the chat tools of the MCP server (mcp/tools/chat.go)

    chat_completion with its content checks, clearance gate, classification, composition and
    the call to the model, and the tools that read and change the shared default model and
    thinking mode.  Multipart content is that of [ChatServer], whose text the file repeats.

    A call of chat_completion reads the shared state three times; other calls may change it
    in between, so each read has a state of its own.  A call returns its answer and what it
    has done outside, in order ([Effect]). *)
From S2P Require Import Prelude GoTime GoStrings GoText Types Chat Access Intent.
From S2P Require Import McpStores.
From S2P Require Mcp.
From S2P Require Import ChatServer.

(** ** Content *)

Definition chatMaxImageParts : Z := 8.

Definition validateContent (c : MessageContent) : option ContentError := ValidateContent c.

Record chatMessage := { cmRole : string; cmContent : MessageContent }.

Record chatCompletionArgs {F : Type} := { caModel : string; caMessages : list chatMessage; caMaxTokens : Z; caTemperature : option F }.
Arguments chatCompletionArgs : clear implicits.

(** ** State and configuration *)

Record chatToolsState := { defaultModel : string; thinkingModeOverride : option bool }.

Definition SwapModel (newModel : string) (s : chatToolsState) : string * chatToolsState :=
  (defaultModel s, {| defaultModel := newModel; thinkingModeOverride := thinkingModeOverride s |}).

Definition thinkingModeString (v : option bool) : string :=
  match v with None => "classifier" | Some true => "true" | Some false => "false" end.

Definition SetThinkingMode (enabled : bool) (s : chatToolsState) : string * chatToolsState :=
  (thinkingModeString (thinkingModeOverride s), {| defaultModel := defaultModel s; thinkingModeOverride := Some enabled |}).

(** A composer is its intents and whether it has a knowledge base. *)
Record ChatToolsConfig {S F : Type} := {
  cBaseURL : string; cAPIKey : string; cDefaultModel : string;
  cRouter : RouterConfig;
  cComposer : option (IntentConfig F * bool);
  cAudit : bool;
  ChatAuditImageHash : bool;
  cClearance : option S
}.
Arguments ChatToolsConfig : clear implicits.

Definition chatMultimodalMinClearance : Z := ClearanceExecute.

(** ** Calls *)

(** What is posted to the model: the messages that composition puts in front have any
    content, the caller's their own. *)
Inductive OutContent := OutAny (c : any) | OutOwn (c : MessageContent).

Record ChatBody {F : Type} := {
  bModel : string; bMessages : list (string * OutContent); bStream : bool; bExtra : gmap string any;
  bMaxTokens : option Z; bTemperature : option F
}.
Arguments ChatBody : clear implicits.

Inductive Effect {F : Type} :=
  | Audited (tenant : string) (images : Z) (refs : list string) (hashed : bool)
  | AskedClassifier (prompt : string)
  | Posted (url : string) (key : option string) (body : ChatBody F).
Arguments Effect : clear implicits.

(** No request can be made of the address, no answer, or a status and the body, which may
    break off. *)
Inductive Upstream := UpBadURL | UpUnreachable | UpAnswer (status : Z) (body : option string).

Inductive ChatToolError :=
  | BadArguments | NoMessages | BadMessage (i : nat) (e : ContentError) | NoCaller | ClearanceLookup (e : ClearanceError) | ClearanceTooLow (tier : Z)
  | NoModel | NoBaseURL | RequestNotMade | ModelUnreachable | ReadFailed | ModelStatus (status : Z) (body : string) | NotJSON
  | EmptyModelName.

Inductive ChatToolAnswer := AgentDispatch (intent : string) | RawAnswer (v : any) | TextAnswer (fields : list (string * string)).

Record ChatCall {F : Type} := {
  ccParams : option (chatCompletionArgs F);
  ccAuth : option Mcp.MCPAuthContext;
  ccFault : bool;
  ccClassifier : string → ClassifierAnswer * Duration;
  ccKB : string → string → Z → KBAnswer;
  ccUpstream : Upstream
}.
Arguments ChatCall : clear implicits.

Section chat.
Context {S F : Type} `{ClearanceStore S} `{GoFloat F}.
(** SHA-256 in hexadecimal, and decoding JSON into [any]. *)
Context (sha256hex : string → string) (unmarshal : string → option any).

Definition imageRefForAudit (url : string) (hashMode : bool) : string :=
  if hashMode then "sha256:" +:+ sha256hex url else url.

(** The first message whose content is refused. *)
Fixpoint firstBad (i : nat) (ms : list chatMessage) : option ChatToolError :=
  match ms with
  | [] => None
  | m :: ms => match validateContent (cmContent m) with Some e => Some (BadMessage i e) | None => firstBad (i + 1) ms end
  end.

Definition anyImage (ms : list chatMessage) : bool := existsb (λ m, HasImage (cmContent m)) ms.

(** The addresses of the image parts of the messages that have an image. *)
Definition imageURLs (ms : list chatMessage) : list string :=
  ms ≫= λ m, if HasImage (cmContent m) then omap (λ p, if decide (cpType p = "image_url") then imURL <$> cpImageURL p else None) (Parts (cmContent m)) else [].

(** The clearance gate of messages with images. *)
Definition multimodalGate (cfg : ChatToolsConfig S F) (fault : bool) (agentID : string) : option ChatToolError :=
  match cClearance cfg with
  | None => None
  | Some store =>
      if decide (agentID = "") then Some NoCaller
      else match GetClearance fault agentID store with
      | inl e => Some (ClearanceLookup e)
      | inr tier => if decide (tier < chatMultimodalMinClearance) then Some (ClearanceTooLow tier) else None
      end
  end.

(** The text of the last message of the user that has one. *)
Fixpoint lastPrompt (newestFirst : list chatMessage) : string :=
  match newestFirst with
  | [] => ""
  | m :: ms => if decide (cmRole m = "user" ∧ AsText (cmContent m) ≠ "") then AsText (cmContent m) else lastPrompt ms
  end.

Definition bypassDecision : RoutingDecision := {|
  rdLabel := LabelGeneral; rdIntent := IntentGeneral; rdDestination := "model"; rdEnableThinking := false; rdLatency := 0;
  rdFallback := false; rdError := None
|}.

Definition routeMessages (cfg : ChatToolsConfig S F) (classifier : string → ClassifierAnswer * Duration) (ms : list chatMessage) :
    RoutingDecision * list (Effect F) :=
  if anyImage ms then (bypassDecision, [])
  else let prompt := lastPrompt (reverse ms) in
       let '(answer, elapsed) := classifier prompt in (Classify (cRouter cfg) answer elapsed, [AskedClassifier prompt]).

Definition flatRequest (model : string) (args : chatCompletionArgs F) : ChatRequest F := {|
  rqModel := model; rqMessages := (λ m, textMessage (cmRole m) (AsText (cmContent m))) <$> caMessages args; rqTools := [];
  rqMaxTokens := if decide (0 < caMaxTokens args) then caMaxTokens args else 0; rqTemperature := caTemperature args; rqStream := false; rqExtra := None
|}.

(** The composed messages; the last ones are the caller's own, with their own content. *)
Definition outMessages (composed : list ChatMessage) (own : list chatMessage) : list (string * OutContent) :=
  let preludeN := if decide (length composed < length own)%nat then length composed else (length composed - length own)%nat in
  imap (λ i m, (MRole m, if decide (i < preludeN)%nat then OutAny (Content m)
                         else match own !! (i - preludeN)%nat with Some o => OutOwn (cmContent o) | None => OutAny ANil end)) composed.

(** The body, or the intent of a request for an agent. *)
Definition buildBody (cfg : ChatToolsConfig S F) (model tenantID : string) (args : chatCompletionArgs F) (kb : string → string → Z → KBAnswer)
    (decision : RoutingDecision) (st1 st2 : chatToolsState) : IntentName + ChatBody F :=
  match cComposer cfg with
  | Some (intents, hasKB) =>
      let cr := Compose intents hasKB (kb tenantID) decision (flatRequest model args) in
      if crIsAgentDispatch cr then inl (rdIntent decision)
      else
        let extra := rqExtra (crRequest cr) in
        let extra := match thinkingModeOverride st2 with
                     | Some b => Some (<["chat_template_kwargs" := thinkingKwargs b]> (default ∅ extra))
                     | None => extra
                     end in
        inr {| bModel := rqModel (crRequest cr); bMessages := outMessages (rqMessages (crRequest cr)) (caMessages args); bStream := false;
               bExtra := default ∅ extra;
               bMaxTokens := if decide (0 < rqMaxTokens (crRequest cr)) then Some (rqMaxTokens (crRequest cr)) else None;
               bTemperature := rqTemperature (crRequest cr) |}
  | None =>
      let enableThinking := default (rdEnableThinking decision) (thinkingModeOverride st1) in
      inr {| bModel := model; bMessages := (λ m, (cmRole m, OutOwn (cmContent m))) <$> caMessages args; bStream := false;
             bExtra := {["chat_template_kwargs" := thinkingKwargs enableThinking]};
             bMaxTokens := if decide (0 < caMaxTokens args) then Some (caMaxTokens args) else None; bTemperature := caTemperature args |}
  end.

(** At most a mebibyte of the answer is read. *)
Definition readAnswer (up : Upstream) : ChatToolError + ChatToolAnswer :=
  match up with
  | UpBadURL => inl RequestNotMade
  | UpUnreachable => inl ModelUnreachable
  | UpAnswer _ None => inl ReadFailed
  | UpAnswer status (Some body) =>
      let body := takeBytes 1048576 body in
      if decide (status ≠ 200) then inl (ModelStatus status body)
      else match unmarshal body with None => inl NotJSON | Some v => inr (RawAnswer v) end
  end.

Definition keyOf (apiKey : string) : option string := if decide (apiKey = "") then None else Some ("Bearer " +:+ apiKey).

Definition postChat (cfg : ChatToolsConfig S F) (up : Upstream) (body : ChatBody F) : (ChatToolError + ChatToolAnswer) * list (Effect F) :=
  let baseURL := trimRightChar "/" (cBaseURL cfg) in
  if decide (baseURL = "") then (inl NoBaseURL, [])
  else (readAnswer up, match up with UpBadURL => [] | _ => [Posted (baseURL +:+ "/chat/completions") (keyOf (cAPIKey cfg)) body] end).

(** [chatCompletionHandler]; [st0] is read for the default model, [st1] and [st2] for the
    thinking mode. *)
Definition chatCompletion (cfg : ChatToolsConfig S F) (st0 st1 st2 : chatToolsState) (c : ChatCall F) :
    (ChatToolError + ChatToolAnswer) * list (Effect F) :=
  match ccParams c with
  | None => (inl BadArguments, [])
  | Some args =>
      let ms := caMessages args in
      if decide (ms = []) then (inl NoMessages, [])
      else match firstBad 0 ms with
      | Some e => (inl e, [])
      | None =>
          let tenantID := match ccAuth c with Some ac => Mcp.mTenantID ac | None => "" end in
          let agentID := match ccAuth c with Some ac => Mcp.mAgentID ac | None => "" end in
          let multimodal := anyImage ms in
          match (if multimodal then multimodalGate cfg (ccFault c) agentID else None) with
          | Some e => (inl e, [])
          | None =>
              let urls := imageURLs ms in
              let audit := if multimodal && cAudit cfg then
                             [Audited tenantID (Z.of_nat (length urls)) ((λ u, imageRefForAudit u (ChatAuditImageHash cfg)) <$> urls) (ChatAuditImageHash cfg)]
                           else [] in
              let model := if decide (caModel args = "") then defaultModel st0 else caModel args in
              if decide (model = "") then (inl NoModel, audit)
              else
                let '(decision, asked) := routeMessages cfg (ccClassifier c) ms in
                match buildBody cfg model tenantID args (ccKB c) decision st1 st2 with
                | inl intent => (inr (AgentDispatch (intentText intent)), audit ++ asked)
                | inr body => let '(r, posted) := postChat cfg (ccUpstream c) body in (r, audit ++ asked ++ posted)
                end
          end
      end
  end.

(** ** The other tools *)

(** The request to /models is the whole effect. *)
Definition listModels (cfg : ChatToolsConfig S F) (up : Upstream) : (ChatToolError + ChatToolAnswer) * list (string * option string) :=
  let baseURL := trimRightChar "/" (cBaseURL cfg) in
  if decide (baseURL = "") then (inl NoBaseURL, [])
  else (readAnswer up, match up with UpBadURL => [] | _ => [(baseURL +:+ "/models", keyOf (cAPIKey cfg))] end).

Definition getActiveModel (st : chatToolsState) : ChatToolError + ChatToolAnswer :=
  if decide (defaultModel st = "") then inl NoModel else inr (TextAnswer [("model", defaultModel st)]).

Definition swapModel (params : option string) (st : chatToolsState) : (ChatToolError + ChatToolAnswer) * chatToolsState :=
  match params with
  | None => (inl BadArguments, st)
  | Some name =>
      if decide (TrimSpace name = "") then (inl EmptyModelName, st)
      else let '(previous, st) := SwapModel name st in
           (inr (TextAnswer [("previous_model", previous); ("new_model", name); ("status", "ok")]), st)
  end.

Definition getRoutingConfig (cfg : ChatToolsConfig S F) (st : chatToolsState) : ChatToolAnswer :=
  TextAnswer [("classifier_url", ClassifierURL (cRouter cfg)); ("model_base_url", cBaseURL cfg); ("default_model", defaultModel st);
              ("router_enabled", if REnabled (cRouter cfg) then "true" else "false"); ("thinking_mode", thinkingModeString (thinkingModeOverride st))].

Definition setThinkingMode (params : option bool) (st : chatToolsState) : (ChatToolError + ChatToolAnswer) * chatToolsState :=
  match params with
  | None => (inl BadArguments, st)
  | Some enabled =>
      let '(previous, st) := SetThinkingMode enabled st in
      (inr (TextAnswer [("mode", if enabled then "true" else "false"); ("previous_mode", previous)]), st)
  end.

Definition initialState (cfg : ChatToolsConfig S F) : chatToolsState := {| defaultModel := cDefaultModel cfg; thinkingModeOverride := None |}.

(** Every history of the tools; a completion names the states it reads by how many of the
    calls before it had taken effect. *)
Inductive ChatToolOp := SwapOp (params : option string) | ThinkOp (params : option bool) | ActiveOp | ConfigOp.

Definition chatToolStep (cfg : ChatToolsConfig S F) (op : ChatToolOp) (st : chatToolsState) : (ChatToolError + ChatToolAnswer) * chatToolsState :=
  match op with
  | SwapOp p => swapModel p st
  | ThinkOp p => setThinkingMode p st
  | ActiveOp => (getActiveModel st, st)
  | ConfigOp => (inr (getRoutingConfig cfg st), st)
  end.
End chat.

(** ** Lemmas *)

Definition goodContent (c : MessageContent) : Prop :=
  match c with ContentText _ => True | ContentMultipart parts => Forall goodPart parts ∧ imageCount parts <= chatMaxImageParts end.

Lemma validateContent_None c : validateContent c = None ↔ goodContent c.
Proof.
  destruct c as [|parts]; [done|]. unfold validateContent, ValidateContent. rewrite (validateParts_None 0 0) by (unfold MaxImageParts; lia). done.
Qed.

Lemma firstBad_None i ms : firstBad i ms = None ↔ ∀ m, m ∈ ms → goodContent (cmContent m).
Proof.
  revert i. induction ms as [|m ms IH]; intros i; [split; [|done]; intros _ m ?%elem_of_nil; done|]. cbn [firstBad].
  destruct (validateContent (cmContent m)) as [e|] eqn:Ev.
  - split; [done|]. intros Hall. assert (validateContent (cmContent m) = None) by (apply validateContent_None, Hall; left). congruence.
  - apply validateContent_None in Ev. rewrite IH. split; [by intros Hall m' [->|]%elem_of_cons; auto|]. intros Hall m' ?. apply Hall. by right.
Qed.

Lemma imap_ext_in {A B} (f g : nat → A → B) l : (∀ i x, l !! i = Some x → f i x = g i x) → imap f l = imap g l.
Proof. intros Hfg. apply list_eq. intros i. rewrite !list_lookup_imap. destruct (l !! i) eqn:E; [|done]. cbn. f_equal. by apply Hfg. Qed.

(** The caller's messages are posted with their own content behind the composed ones. *)
Lemma outMessages_app pre own :
  outMessages (pre ++ ((λ m, textMessage (cmRole m) (AsText (cmContent m))) <$> own)) own =
  ((λ m, (MRole m, OutAny (Content m))) <$> pre) ++ ((λ m, (cmRole m, OutOwn (cmContent m))) <$> own).
Proof.
  unfold outMessages. rewrite length_app, length_fmap, decide_False by lia. replace (length pre + length own - length own)%nat with (length pre) by lia.
  rewrite imap_app. f_equal.
  - rewrite <- (imap_const _ pre). apply imap_ext_in. intros i x Hi. apply lookup_lt_Some in Hi. by rewrite decide_True.
  - rewrite imap_fmap, <- (imap_const (λ m, (cmRole m, OutOwn (cmContent m))) own). apply imap_ext_in. intros i x Hi. cbn. rewrite decide_False by lia.
    replace (length pre + i - length pre)%nat with i by lia. by rewrite Hi.
Qed.

Section facts.
Context {S F : Type} `{ClearanceStore S} `{GoFloat F} (sha256hex : string → string) (unmarshal : string → option any).

(** The messages a body carries: at most two system messages, then the caller's. *)
Definition carries (composed : bool) (own : list chatMessage) (b : ChatBody F) : Prop :=
  ∃ pre, bMessages b = pre ++ ((λ m, (cmRole m, OutOwn (cmContent m))) <$> own) ∧ Forall (λ p, p.1 = "system") pre ∧ (length pre ≤ 2)%nat ∧
    (composed = false → pre = []).

(** The thinking flag that a body carries. *)
Definition thinkingOf (cfg : ChatToolsConfig S F) (decision : RoutingDecision) (st1 st2 : chatToolsState) : bool :=
  match cComposer cfg with
  | Some (intents, _) => default (default false (EnableThinking (ResolvedIntent intents (rdIntent decision)))) (thinkingModeOverride st2)
  | None => default (rdEnableThinking decision) (thinkingModeOverride st1)
  end.

Lemma buildBody_spec (cfg : ChatToolsConfig S F) model tenantID args kb decision st1 st2 b :
  buildBody cfg model tenantID args kb decision st1 st2 = inr b →
  bModel b = model ∧ bStream b = false ∧ carries (bool_decide (is_Some (cComposer cfg))) (caMessages args) b ∧
  bExtra b !! "chat_template_kwargs" = Some (thinkingKwargs (thinkingOf cfg decision st1 st2)).
Proof.
  unfold buildBody, thinkingOf. destruct (cComposer cfg) as [[intents hasKB]|]; [|intros [= <-]; cbn].
  2: { split_and!; [done..| |by rewrite lookup_singleton_eq]. exists []. split_and!; [done|constructor|cbn; lia|done]. }
  pose proof (Compose_prefix intents hasKB (kb tenantID) decision (flatRequest model args)) as (pre & Hm & Hl & Hs).
  set (cr := Compose _ _ _ _ _) in *. destruct (crIsAgentDispatch cr) eqn:Ea; [done|]. intros [= <-]. cbn.
  assert (rqModel (crRequest cr) = model ∧ ∃ e, rqExtra (crRequest cr) = Some e ∧
    e !! "chat_template_kwargs" = Some (thinkingKwargs (default false (EnableThinking (ResolvedIntent intents (rdIntent decision)))))) as (-> & e & -> & He).
  { subst cr. revert Ea. unfold Compose. destruct (decide _); [done|]. set (k := match KBSearchEnabled _ with Some true => _ | _ => _ end). destruct k. cbn.
    intros _. split; [done|]. eexists. split; [done|]. rewrite lookup_insert_eq. by destruct (EnableThinking _). }
  split_and!; [done..| |].
  - exists ((λ m, (MRole m, OutAny (Content m))) <$> pre). cbn. rewrite Hm. cbn. rewrite outMessages_app. split_and!; [done| |by rewrite length_fmap|done].
    apply Forall_fmap. by eapply Forall_impl.
  - destruct (thinkingModeOverride st2); cbn; [by rewrite lookup_insert_eq|done].
Qed.

(** The caller is identified and of the required tier, when clearances are kept. *)
Definition clearedFor (cfg : ChatToolsConfig S F) (c : ChatCall F) : Prop :=
  ∀ store, cClearance cfg = Some store → ∃ ac tier, ccAuth c = Some ac ∧ Mcp.mAgentID ac ≠ "" ∧
    GetClearance (ccFault c) (Mcp.mAgentID ac) store = inr tier ∧ ClearanceExecute <= tier.

Lemma multimodalGate_None (cfg : ChatToolsConfig S F) c :
  multimodalGate cfg (ccFault c) (match ccAuth c with Some ac => Mcp.mAgentID ac | None => "" end) = None → clearedFor cfg c.
Proof.
  unfold multimodalGate, clearedFor. destruct (cClearance cfg) as [store|]; [|done]. intros Hg store' [= <-].
  destruct (ccAuth c) as [ac|]; cbn in Hg; [|done]. destruct (decide (Mcp.mAgentID ac = "")); [done|].
  destruct (GetClearance _ _ store) as [|tier] eqn:Eg; [done|]. destruct (decide _); [done|]. exists ac, tier. split_and!; [done..|]. unfold chatMultimodalMinClearance in *. lia.
Qed.

Lemma postChat_answer (cfg : ChatToolsConfig S F) up b v :
  (postChat unmarshal cfg up b).1 = inr (RawAnswer v) → Exists (λ e : Effect F, match e with Posted _ _ _ => true | _ => false end = true) (postChat unmarshal cfg up b).2.
Proof. unfold postChat. destruct (decide _); [done|]. cbn. destruct up; [done|done|]. intros _. by apply Exists_cons_hd. Qed.

(** What holds of each effect of a call. *)
Definition effectOk (cfg : ChatToolsConfig S F) (st0 st1 st2 : chatToolsState) (c : ChatCall F) (args : chatCompletionArgs F) (e : Effect F) : Prop :=
  match e with
  | Audited tenant n refs hashed =>
      cAudit cfg = true ∧ anyImage (caMessages args) = true ∧ tenant = match ccAuth c with Some ac => Mcp.mTenantID ac | None => "" end ∧
      hashed = ChatAuditImageHash cfg ∧ n = Z.of_nat (length refs) ∧
      refs = (λ u, imageRefForAudit sha256hex u hashed) <$> imageURLs (caMessages args)
  | AskedClassifier prompt => anyImage (caMessages args) = false ∧ prompt = lastPrompt (reverse (caMessages args))
  | Posted url key b =>
      url = trimRightChar "/" (cBaseURL cfg) +:+ "/chat/completions" ∧ key = keyOf (cAPIKey cfg) ∧
      bModel b = (if decide (caModel args = "") then defaultModel st0 else caModel args) ∧ bModel b ≠ "" ∧ bStream b = false ∧
      carries (bool_decide (is_Some (cComposer cfg))) (caMessages args) b ∧
      ∃ decision, decision = (if anyImage (caMessages args) then bypassDecision
        else let '(a, t) := ccClassifier c (lastPrompt (reverse (caMessages args))) in Classify (cRouter cfg) a t) ∧
        bExtra b !! "chat_template_kwargs" = Some (thinkingKwargs (thinkingOf cfg decision st1 st2))
  end.

Lemma routeMessages_spec (cfg : ChatToolsConfig S F) classifier ms : ∃ d asked, routeMessages cfg classifier ms = (d, asked) ∧
  d = (if anyImage ms then bypassDecision else let '(a, t) := classifier (lastPrompt (reverse ms)) in Classify (cRouter cfg) a t) ∧
  asked = if anyImage ms then ([] : list (Effect F)) else [AskedClassifier (lastPrompt (reverse ms))].
Proof. unfold routeMessages. destruct (anyImage ms); [eauto|]. destruct (classifier _). eauto. Qed.

Definition isPosted (e : Effect F) : bool := match e with Posted _ _ _ => true | _ => false end.

Lemma postChat_spec (cfg : ChatToolsConfig S F) up b : ∃ r posted, postChat unmarshal cfg up b = (r, posted) ∧
  (posted = [] ∨ posted = [Posted (trimRightChar "/" (cBaseURL cfg) +:+ "/chat/completions") (keyOf (cAPIKey cfg)) b]).
Proof. unfold postChat. destruct (decide _); [eauto|]. do 2 eexists. split; [done|]. destruct up; auto. Qed.

(** A call that answers [r] and has done [fx]. *)
Record callOk (cfg : ChatToolsConfig S F) (st0 st1 st2 : chatToolsState) (c : ChatCall F) (r : ChatToolError + ChatToolAnswer) (fx : list (Effect F)) : Prop := {
  call_checked : fx ≠ [] → ∃ args, ccParams c = Some args ∧ caMessages args ≠ [] ∧ (∀ m, m ∈ caMessages args → goodContent (cmContent m)) ∧
    (anyImage (caMessages args) = true → clearedFor cfg c) ∧ Forall (effectOk cfg st0 st1 st2 c args) fx ∧
    (anyImage (caMessages args) = true → cAudit cfg = true → ∃ t n refs h, head fx = Some (Audited t n refs h));
  call_last : ∃ before after, fx = before ++ after ∧ Forall (λ e, isPosted e = false) before ∧ (length after ≤ 1)%nat;
  call_posted v : r = inr (RawAnswer v) → Exists (λ e, isPosted e = true) fx
}.

Lemma callOk_refused (cfg : ChatToolsConfig S F) st0 st1 st2 c e : callOk cfg st0 st1 st2 c (inl e) [].
Proof. split; [done| |done]. exists [], []. split_and!; [done|constructor|cbn; lia]. Qed.

(** C24. Whatever a caller sends and the services answer, chat_completion posts at most one
    request, to the configured model and last of all, and only if every message's content is
    valid (web addresses, at most eight images) and, if there is an image, the caller has the
    tier for it and the classifier is not asked.  The request has the chosen model, the
    messages unchanged behind at most two system messages, and the thinking flag of the
    override or else of the routing; and every accepted request with images is in the audit
    log with its images before it is posted. *)
Theorem chat_tool_contained (cfg : ChatToolsConfig S F) st0 st1 st2 (c : ChatCall F) :
  let '(r, fx) := chatCompletion sha256hex unmarshal cfg st0 st1 st2 c in callOk cfg st0 st1 st2 c r fx.
Proof.
  unfold chatCompletion. destruct (ccParams c) as [args|] eqn:Hp; [|apply callOk_refused].
  destruct (decide (caMessages args = [])) as [|Hne]; [apply callOk_refused|].
  destruct (firstBad 0 (caMessages args)) as [e|] eqn:Hf; [apply callOk_refused|]. rewrite firstBad_None in Hf.
  cbv zeta. set (gate := if anyImage (caMessages args) then _ else None). destruct gate as [e|] eqn:Hg; [apply callOk_refused|].
  assert (anyImage (caMessages args) = true → clearedFor cfg c) as Hcl by (intros Ha; subst gate; rewrite Ha in Hg; by apply multimodalGate_None).
  set (audit := if anyImage (caMessages args) && cAudit cfg then _ else []).
  assert (Forall (effectOk cfg st0 st1 st2 c args) audit ∧ Forall (λ e, isPosted e = false) audit ∧
    (anyImage (caMessages args) = true → cAudit cfg = true → ∀ l, ∃ t n refs h, head (audit ++ l) = Some (Audited t n refs h))) as (Ha1 & Ha2 & Ha3).
  { subst audit. destruct (anyImage (caMessages args) && cAudit cfg) eqn:Eb.
    - apply andb_true_iff in Eb as [Ei Ec]. split_and!; [|by repeat constructor|by intros; do 4 eexists].
      apply Forall_singleton. cbn. by rewrite length_fmap.
    - split_and!; [constructor..|]. intros Ei Ec. by rewrite Ei, Ec in Eb. }
  assert (∀ r l, Forall (effectOk cfg st0 st1 st2 c args) l → (∃ b a, l = b ++ a ∧ Forall (λ e, isPosted e = false) b ∧ (length a ≤ 1)%nat) →
    (∀ v, r = inr (RawAnswer v) → Exists (λ e, isPosted e = true) l) → callOk cfg st0 st1 st2 c r (audit ++ l)) as Hdone.
  { intros r l Hl (b & a & -> & Hb & Hla) Hr. split.
    - intros _. exists args. split_and!; try done; [by apply Forall_app|intros; by apply Ha3].
    - exists (audit ++ b), a. split_and!; [by rewrite app_assoc|by apply Forall_app|done].
    - intros v Hv. apply Exists_app. right. by eapply Hr. }
  assert (∃ b a : list (Effect F), [] = b ++ a ∧ Forall (λ e, isPosted e = false) b ∧ (length a ≤ 1)%nat) as Hnil
    by (exists [], []; split_and!; [done|constructor|cbn; lia]).
  set (model := if decide (caModel args = "") then _ else _). destruct (decide (model = "")) as [|Hmo].
  { rewrite <- (app_nil_r audit). by apply Hdone; [constructor| |]. }
  destruct (routeMessages_spec cfg (ccClassifier c) (caMessages args)) as (d & asked & -> & Hd & Hasked).
  assert (Forall (effectOk cfg st0 st1 st2 c args) asked ∧ Forall (λ e, isPosted e = false) asked) as [Hk1 Hk2].
  { subst asked. destruct (anyImage (caMessages args)) eqn:Ei; [by split|]. split; apply Forall_singleton; [by split|done]. }
  set (bd := buildBody _ _ _ _ _ _ _ _). destruct bd as [intent|b] eqn:Hb.
  { apply Hdone; [done| |done]. exists asked, []. split_and!; [by rewrite app_nil_r|done|cbn; lia]. }
  apply buildBody_spec in Hb as (B1 & B2 & B3 & B4).
  pose proof (postChat_spec cfg (ccUpstream c) b) as (r & posted & Hpc & Hpo).
  pose proof (postChat_answer cfg (ccUpstream c) b) as Hans. rewrite Hpc in Hans |- *. cbn in Hans.
  apply Hdone.
  - apply Forall_app. split; [done|]. destruct Hpo as [->| ->]; [constructor|]. apply Forall_singleton. cbn. split_and!; try done.
    + by rewrite B1.
    + by exists d.
  - exists asked, posted. split_and!; [done..|]. destruct Hpo as [->| ->]; cbn; lia.
  - intros v Hv. apply Exists_app. right. by eapply Hans.
Qed.

(** The model and the mode after a history. *)
Definition acceptedModel (op : ChatToolOp) : option string :=
  match op with SwapOp (Some n) => if decide (TrimSpace n = "") then None else Some n | _ => None end.

Definition stateAfter (s0 : chatToolsState) (ops : list ChatToolOp) : chatToolsState := {|
  defaultModel := default (defaultModel s0) (last (omap acceptedModel ops));
  thinkingModeOverride := match last (omap (λ op, match op with ThinkOp p => p | _ => None end) ops) with Some b => Some b | None => thinkingModeOverride s0 end
|}.

Lemma stateAfter_cons s0 op ops (cfg : ChatToolsConfig S F) : stateAfter s0 (op :: ops) = stateAfter (chatToolStep cfg op s0).2 ops.
Proof.
  assert (∀ (A : Type) (x : A) l d, default d (last (x :: l)) = default x (last l)) as HL by (intros A x l d; rewrite last_cons; by destruct (last l)).
  destruct op as [[n|]|[b|]| |]; try done; unfold stateAfter; cbn.
  - unfold swapModel. destruct (decide (TrimSpace n = "")) as [|Hn]; [done|]. cbn. f_equal. by rewrite HL.
  - f_equal. rewrite last_cons. by destruct (last _).
Qed.

(** The default model and the thinking mode are shared by all callers and exact: in every
    history each call is answered from the last accepted model name and the last mode set
    before it, the configured ones at first; once a mode is set, no call gives the decision
    back to the classifier. *)
Theorem chat_state_exact (cfg : ChatToolsConfig S F) ops :
  let '(answers, st) := trace (chatToolStep cfg) (initialState cfg) ops in
  st = stateAfter (initialState cfg) ops ∧
  (∀ i op, ops !! i = Some op → answers !! i = Some (chatToolStep cfg op (stateAfter (initialState cfg) (take i ops))).1) ∧
  (∀ i b, ops !! i = Some (ThinkOp (Some b)) → thinkingModeOverride st ≠ None).
Proof.
  generalize (initialState cfg). induction ops as [|op ops IH]; intros s0; [by destruct s0|]. cbn [trace]. rewrite (surjective_pairing (chatToolStep cfg op s0)). specialize (IH (chatToolStep cfg op s0).2).
  destruct (trace (chatToolStep cfg) (chatToolStep cfg op s0).2 ops) as [answers st]. destruct IH as (-> & Ha & Ht).
  split; [by rewrite stateAfter_cons with (cfg := cfg)|]. split.
  - intros [|i] op' Hi; [injection Hi as ->; by destruct s0|]. change (ops !! i = Some op') in Hi.
    change (answers !! i = Some (chatToolStep cfg op' (stateAfter s0 (op :: take i ops))).1). rewrite (Ha _ _ Hi). by rewrite stateAfter_cons with (cfg := cfg).
  - intros i b Hi. rewrite <- stateAfter_cons. unfold stateAfter. cbn [thinkingModeOverride].
    assert (last (omap (λ op, match op with ThinkOp p => p | _ => None end) (op :: ops)) ≠ None) as Hl.
    { rewrite last_None. intros He. assert (b ∈ omap (λ op, match op with ThinkOp p => p | _ => None end) (op :: ops)) as Hin
        by (apply list_elem_of_omap; exists (ThinkOp (Some b)); split; [by eapply list_elem_of_lookup_2|done]). rewrite He in Hin. by apply elem_of_nil in Hin. }
    by destruct (last _).
Qed.
End facts.

(** ** Trying it *)

Definition sample_chat_config (gate : bool) : ChatToolsConfig InMemoryClearanceStore Q := {|
  cBaseURL := "http://model/v1/"; cAPIKey := "k"; cDefaultModel := "qwen"; cRouter := {| REnabled := true; ClassifierURL := "http://c" |};
  cComposer := None; cAudit := gate; ChatAuditImageHash := true;
  cClearance := if gate then Some (NewInMemoryClearanceStore [WithDefaultTier ClearanceInternal]) else None
|}.

Definition image_message : chatMessage := {|
  cmRole := "user"; cmContent := ContentMultipart [
    {| cpType := "text"; cpText := "what is this?"; cpImageURL := None |};
    {| cpType := "image_url"; cpText := ""; cpImageURL := Some {| imURL := "HTTPS://x/y.png"; imDetail := "" |} |}]
|}.

Definition sample_call (ms : list chatMessage) (auth : option Mcp.MCPAuthContext) : ChatCall Q := {|
  ccParams := Some {| caModel := ""; caMessages := ms; caMaxTokens := 0; caTemperature := None |}; ccAuth := auth; ccFault := false;
  ccClassifier := λ _, (Answer 200 (BodyOK ["reasoning"] None), 0); ccKB := λ _ _ _, None; ccUpstream := UpAnswer 200 (Some "{}")
|}.

Definition sample_state : chatToolsState := {| defaultModel := "qwen"; thinkingModeOverride := None |}.

Definition run_sample (gate : bool) (ms : list chatMessage) (auth : option Mcp.MCPAuthContext) :=
  chatCompletion (λ u, u) (λ s, Some (AStr s)) (sample_chat_config gate) sample_state sample_state sample_state (sample_call ms auth).

(** The command registers the chat tools without a clearance store and without an audit
    log: a caller without an identity sends images to the model, unseen, which the same
    tools refuse when they have the store. *)
Lemma unwired_gate_lets_images_through :
  (run_sample true [image_message] None).1 = inl NoCaller ∧
  (run_sample true [image_message] (Some {| Mcp.mAgentID := "bot"; Mcp.mTenantID := "acme" |})).1 = inl (ClearanceTooLow 1) ∧
  ∃ b, (run_sample false [image_message] None).2 = [Posted "http://model/v1/chat/completions" (Some "Bearer k") b] ∧
    bMessages b = [("user", OutOwn (cmContent image_message))].
Proof. vm_compute. split; [done|]. split; [done|]. eexists. done. Qed.

(** A text message is classified, and the classifier's verdict sets the thinking flag. *)
Example reasoning_thinks : ∃ b,
  (run_sample true [{| cmRole := "user"; cmContent := ContentText "prove it" |}] None).2 =
    [AskedClassifier "prove it"; Posted "http://model/v1/chat/completions" (Some "Bearer k") b] ∧
  bExtra b !! "chat_template_kwargs" = Some (thinkingKwargs true).
Proof. eexists. split; [vm_compute; reflexivity|]. vm_compute. reflexivity. Qed.
