(* ===== verification/Facets.v ===== *)
(** * Facets: the dimensions of prompt classification

    mcp/facets/registry.go ([FacetRegistry]) and mcp/tools/facets.go: classify_prompt with
    its keyword rules, list_facets, register_facet and unregister_facet.  The registry's
    mutex makes each operation one step. *)
From S2P Require Import Prelude GoTime GoPath GoStrings GoText Intent.

(** ** The registry *)

Record Facet := { FName : string; FDescription : string; FValues : list string; Dynamic : bool }.

Abbreviation FacetRegistry := (gmap string Facet).

Definition defaultFacets : list Facet := [
  {| FName := "task"; FDescription := "Primary task type inferred from the prompt.";
     FValues := ["code"; "reasoning"; "factual"; "creative"; "analysis"]; Dynamic := false |};
  {| FName := "complexity"; FDescription := "Estimated prompt complexity."; FValues := ["low"; "medium"; "high"]; Dynamic := false |};
  {| FName := "thinking"; FDescription := "Whether extended thinking / chain-of-thought is recommended.";
     FValues := ["true"; "false"]; Dynamic := false |}].

Definition NewFacetRegistry : FacetRegistry := foldl (λ r f, <[FName f := f]> r) ∅ defaultFacets.

Inductive FacetError :=
  | FacetNameEmpty | FacetRegistered (name : string) | FacetNotFound (name : string)
  | InvalidArguments | PromptEmpty | NameEmpty | DescriptionEmpty | ValuesEmpty.

Definition Register (f : Facet) (r : FacetRegistry) : option FacetError * FacetRegistry :=
  if decide (FName f = "") then (Some FacetNameEmpty, r)
  else match r !! FName f with
       | Some _ => (Some (FacetRegistered (FName f)), r)
       | None => (None, <[FName f := f]> r)
       end.

Definition Unregister (name : string) (r : FacetRegistry) : option FacetError * FacetRegistry :=
  match r !! name with
  | None => (Some (FacetNotFound name), r)
  | Some _ => (None, delete name r)
  end.

Definition Get (name : string) (r : FacetRegistry) : option Facet := r !! name.

Definition facetNameLe (a b : Facet) : Prop := String.le (FName a) (FName b).

#[global] Instance facetNameLe_dec a b : Decision (facetNameLe a b).
Proof. unfold facetNameLe. apply _. Defined.

#[global] Instance facetNameLe_trans : Transitive facetNameLe.
Proof. intros a b c. unfold facetNameLe. by etrans. Qed.

#[global] Instance facetNameLe_total : Total facetNameLe.
Proof. intros a b. unfold facetNameLe. apply (total String.le). Qed.

(** The order in which a map is visited. *)
Class FacetRange := facet_range : FacetRegistry → list (string * Facet).
Class FacetRangeLaws `{FacetRange} : Prop := facet_range_perm : GoRange facet_range.

#[global] Instance facet_range_go `{FacetRangeLaws} : GoRange facet_range.
Proof. apply facet_range_perm. Qed.

Definition List_ `{FacetRange, SliceSort} (r : FacetRegistry) : list Facet := sortSlice facetNameLe (facet_range r).*2.

(** ** Keywords *)

Definition isWordChar (b : ascii) : bool :=
  let n := nat_of_ascii b in
  bool_decide ((97 ≤ n ≤ 122) ∨ (65 ≤ n ≤ 90) ∨ (48 ≤ n ≤ 57) ∨ n = 95)%nat.

(** The character at a position is absent or not part of a word. *)
Definition noWordAt (text : string) (i : nat) : bool := match String.get i text with Some c => negb (isWordChar c) | None => true end.

(** Every round begins behind the last occurrence, so one round for each position and one
    more is enough. *)
Fixpoint containsWordFrom (fuel : nat) (text word : string) (idx : nat) : bool :=
  match fuel with
  | O => false
  | S fuel =>
      match Index (dropBytes idx text) word with
      | None => false
      | Some i =>
          let start := (idx + i)%nat in
          let end_ := (start + String.length word)%nat in
          let leftOK := bool_decide (start = 0%nat) || noWordAt text (start - 1) in
          let rightOK := bool_decide (end_ = String.length text) || noWordAt text end_ in
          if leftOK && rightOK then true else containsWordFrom fuel text word (start + 1)
      end
  end.

Definition containsWord (text word : string) : bool := containsWordFrom (S (String.length text)) text word 0.

Definition codeKeywords : list string :=
  ["func"; "function"; "def"; "class"; "import"; "code"; "implement"; "refactor"; "debug"; "compile";
   "program"; "script"; "api"; "endpoint"; "http"; "package"; "module"; "library"].

Definition creativeKeywords : list string :=
  ["write a story"; "write a poem"; "creative"; "imagine"; "fiction"; "compose"; "brainstorm"].

Definition analysisKeywords : list string :=
  ["analyze"; "analyse"; "compare"; "evaluate"; "assess"; "trade-off"; "tradeoff"; "pros and cons"; "advantages"].

Definition inferTask (label : ClassifierLabel) (prompt : string) : string :=
  let l := lower prompt in
  if decide (label = LabelReasoning) then "reasoning"
  else if existsb (containsWord l) codeKeywords then "code"
  else if existsb (strContains l) creativeKeywords then "creative"
  else if existsb (strContains l) analysisKeywords then "analysis"
  else "factual".

Definition inferComplexity (prompt : string) : string :=
  let length := String.length prompt in
  let questionMarks := CountByte prompt "?" in
  let newlines := CountByte prompt "010" in
  if bool_decide (3 ≤ questionMarks ∨ 5 ≤ newlines ∨ 500 < length)%nat then "high"
  else if bool_decide (100 < length ∨ 2 ≤ questionMarks ∨ 2 ≤ newlines)%nat then "medium"
  else "low".

Definition inferThinking (label : ClassifierLabel) : string := if decide (label = LabelReasoning) then "true" else "false".

(** ** The tools *)

Record registerFacetArgs := { raName : string; raDescription : string; raValues : list string }.

Inductive FacetCall :=
  | ClassifyPrompt (prompt : option string) (answer : ClassifierAnswer) (elapsed : Duration)
  | ListFacets
  | RegisterFacet (args : option registerFacetArgs)
  | UnregisterFacet (name : option string).

Inductive FacetAnswer := Classified (task complexity thinking : string) | Listed (facets : list Facet) | Registered (name : string) | Unregistered (name : string).

Definition classifyPrompt (classifierURL : string) (prompt : option string) (answer : ClassifierAnswer) (elapsed : Duration) : FacetError + FacetAnswer :=
  match prompt with
  | None => inl InvalidArguments
  | Some prompt =>
      if decide (TrimSpace prompt = "") then inl PromptEmpty
      else
        let cfg := {| REnabled := negb (bool_decide (classifierURL = "")); ClassifierURL := classifierURL |} in
        let label := rdLabel (Classify cfg answer elapsed) in
        inr (Classified (inferTask label prompt) (inferComplexity prompt) (inferThinking label))
  end.

Definition registerFacet (args : option registerFacetArgs) (r : FacetRegistry) : (FacetError + FacetAnswer) * FacetRegistry :=
  match args with
  | None => (inl InvalidArguments, r)
  | Some a =>
      if decide (TrimSpace (raName a) = "") then (inl NameEmpty, r)
      else if decide (TrimSpace (raDescription a) = "") then (inl DescriptionEmpty, r)
      else if decide (raValues a = []) then (inl ValuesEmpty, r)
      else match Register {| FName := raName a; FDescription := raDescription a; FValues := raValues a; Dynamic := true |} r with
           | (Some e, r) => (inl e, r)
           | (None, r) => (inr (Registered (raName a)), r)
           end
  end.

Definition unregisterFacet (name : option string) (r : FacetRegistry) : (FacetError + FacetAnswer) * FacetRegistry :=
  match name with
  | None => (inl InvalidArguments, r)
  | Some name =>
      if decide (TrimSpace name = "") then (inl NameEmpty, r)
      else match Unregister name r with
           | (Some e, r) => (inl e, r)
           | (None, r) => (inr (Unregistered name), r)
           end
  end.

Definition facetStep `{FacetRange, SliceSort} (classifierURL : string) (op : FacetCall) (r : FacetRegistry) : (FacetError + FacetAnswer) * FacetRegistry :=
  match op with
  | ClassifyPrompt p a t => (classifyPrompt classifierURL p a t, r)
  | ListFacets => (inr (Listed (List_ r)), r)
  | RegisterFacet a => registerFacet a r
  | UnregisterFacet n => unregisterFacet n r
  end.

(** ** Lemmas *)

(** Where a word ends on the left, and on the right. *)
Definition boundaryL (a : string) : Prop := ∀ a' c, a = a' +:+ String c "" → isWordChar c = false.
Definition boundaryR (b : string) : Prop := ∀ c b', b = String c b' → isWordChar c = false.

Lemma boundaryL_at a s : boundaryL a ↔ bool_decide (String.length a = 0%nat) || noWordAt (a +:+ s) (String.length a - 1) = true.
Proof.
  destruct (string_snoc_inv a) as [->|(t & c & ->)].
  - split; [done|]. intros _ a' c Ha. apply (f_equal String.length) in Ha. rewrite string_length_app in Ha. cbn in Ha. lia.
  - rewrite string_length_app. cbn [String.length]. rewrite bool_decide_false by lia. cbn [orb]. unfold noWordAt.
    replace (String.length t + 1 - 1)%nat with (String.length t) by lia.
    rewrite <- string_app_assoc, string_app_cons, get_app_length, negb_true_iff. split.
    + intros Hb. by apply (Hb t).
    + intros Hc a' c' Heq. apply string_app_inj_len in Heq as [_ [= <-]]; done.
Qed.

Lemma boundaryR_at p b : boundaryR b ↔ bool_decide (String.length p = String.length (p +:+ b)) || noWordAt (p +:+ b) (String.length p) = true.
Proof.
  destruct b as [|c b].
  - rewrite string_app_nil_r, bool_decide_true by done. split; [done|]. intros _ c b [=].
  - rewrite string_length_app. cbn [String.length]. rewrite bool_decide_false by lia. cbn [orb]. unfold noWordAt. rewrite get_app_length, negb_true_iff.
    split; [intros Hb; by apply (Hb c b)|]. intros Hc c' b' [= <- <-]. done.
Qed.

(** An occurrence of the word at a position, with both boundaries. *)
Definition wordAt (text word : string) (p : nat) : bool :=
  String.prefix word (dropBytes p text) &&
  ((bool_decide (p = 0%nat) || noWordAt text (p - 1)) && (bool_decide (p + String.length word = String.length text)%nat || noWordAt text (p + String.length word))).

Lemma wordAt_spec text word : (∃ p, (p ≤ String.length text)%nat ∧ wordAt text word p = true) ↔
  ∃ a b, text = a +:+ word +:+ b ∧ boundaryL a ∧ boundaryR b.
Proof.
  split.
  - intros (p & Hp & Hw). unfold wordAt in Hw. rewrite !andb_true_iff in Hw. destruct Hw as (Ho & Hl & Hr). apply prefix_HasPrefix in Ho as [b Hb].
    pose proof (takeBytes_dropBytes p text) as Ht. rewrite Hb in Ht. pose proof (length_takeBytes p text Hp) as Hlen.
    exists (takeBytes p text), b. split; [done|]. split.
    + apply (boundaryL_at _ (word +:+ b)). by rewrite Hlen, Ht.
    + apply (boundaryR_at (takeBytes p text +:+ word)). rewrite string_length_app, Hlen, <- string_app_assoc, Ht. done.
  - intros (a & b & -> & Ha & Hb). exists (String.length a). split; [rewrite string_length_app; lia|]. unfold wordAt. rewrite !andb_true_iff. split_and!.
    + rewrite dropBytes_app. apply prefix_HasPrefix. eauto.
    + by apply boundaryL_at.
    + apply (boundaryR_at (a +:+ word)) in Hb. by rewrite string_length_app, <- string_app_assoc in Hb.
Qed.

Lemma containsWordFrom_spec fuel text word idx : word ≠ "" → (idx ≤ String.length text)%nat → (String.length text - idx < fuel)%nat →
  containsWordFrom fuel text word idx = true ↔ ∃ p, (idx ≤ p ≤ String.length text)%nat ∧ wordAt text word p = true.
Proof.
  intros Hne. revert idx. induction fuel as [|fuel IH]; intros idx Hidx Hf; [lia|]. cbn [containsWordFrom].
  destruct (Index (dropBytes idx text) word) as [i|] eqn:Ei.
  - pose proof (Index_occurs _ _ _ Ei) as Ho. rewrite dropBytes_add in Ho.
    assert (idx + i + String.length word ≤ String.length text)%nat as Hle.
    { apply prefix_HasPrefix in Ho as [t Ht]. apply (f_equal String.length) in Ht. rewrite length_dropBytes, string_length_app in Ht.
      assert (String.length word ≠ 0)%nat by (by destruct word). lia. }
    assert (0 < String.length word)%nat by (destruct word; [done|cbn; lia]).
    assert (∀ p, (idx ≤ p < idx + i)%nat → wordAt text word p = false) as Hbefore.
    { intros p Hp. unfold wordAt. replace p with (idx + (p - idx))%nat at 1 by lia. rewrite <- dropBytes_add.
      by rewrite (Index_first _ _ _ _ Ei) by lia. }
    set (ok := (bool_decide (idx + i = 0)%nat || _) && _). assert (wordAt text word (idx + i) = ok) as Hok by (unfold wordAt; by rewrite Ho).
    destruct ok.
    + split; [|done]. intros _. exists (idx + i)%nat. split; [lia|done].
    + rewrite IH by lia. split; intros (p & Hp & Hw); exists p; (split; [|done]); [lia|].
      destruct (decide (p < idx + i)%nat); [rewrite Hbefore in Hw by lia; done|]. destruct (decide (p = (idx + i)%nat)) as [->|]; [congruence|lia].
  - split; [done|]. intros (p & Hp & Hw). unfold wordAt in Hw. replace p with (idx + (p - idx))%nat in Hw at 1 by lia.
    rewrite <- dropBytes_add, (Index_None_occurs _ _ _ Ei) in Hw. done.
Qed.

Lemma containsWord_spec text word : word ≠ "" →
  containsWord text word = true ↔ ∃ a b, text = a +:+ word +:+ b ∧ boundaryL a ∧ boundaryR b.
Proof.
  intros Hne. unfold containsWord. rewrite containsWordFrom_spec by (done || lia). rewrite <- wordAt_spec.
  split; intros (p & Hp & Hw); exists p; (split; [lia|done]).
Qed.

(** ** Properties *)

(** The text has the word, bounded by characters that are not of a word. *)
Definition hasWord (text word : string) : Prop := ∃ a b, text = a +:+ word +:+ b ∧ boundaryL a ∧ boundaryR b.

Lemma existsb_words text ws : (∀ w, w ∈ ws → w ≠ "") → existsb (containsWord text) ws = true ↔ ∃ w, w ∈ ws ∧ hasWord text w.
Proof.
  intros Hne. rewrite existsb_exists. unfold hasWord. split; intros (w & Hin & Hw); exists w.
  - apply list_elem_of_In in Hin. split; [done|]. apply containsWord_spec; [by apply Hne|done].
  - split; [by apply list_elem_of_In|]. apply containsWord_spec; [by apply Hne|done].
Qed.

Lemma existsb_texts text ws : existsb (strContains text) ws = true ↔ ∃ w, w ∈ ws ∧ ∃ a b, text = a +:+ w +:+ b.
Proof.
  rewrite existsb_exists. split; intros (w & Hin & Hw); exists w; (split; [by apply list_elem_of_In|]); by apply strContains_spec.
Qed.

(** C34. The task of a prompt follows the classifier for reasoning and otherwise the prompt's
    words, whatever their case: code exactly when one of the code words stands in it as a
    whole word, else creative or analysis exactly when one of their phrases occurs; so no
    word inside another one decides (capital does not mean api). *)
Theorem task_exact label prompt :
  let l := lower prompt in
  let code := ∃ w, w ∈ codeKeywords ∧ hasWord l w in
  let creative := ∃ w, w ∈ creativeKeywords ∧ ∃ a b, l = a +:+ w +:+ b in
  let analysis := ∃ w, w ∈ analysisKeywords ∧ ∃ a b, l = a +:+ w +:+ b in
  (inferTask label prompt = "reasoning" ↔ label = LabelReasoning) ∧
  (inferTask label prompt = "code" ↔ label ≠ LabelReasoning ∧ code) ∧
  (inferTask label prompt = "creative" ↔ label ≠ LabelReasoning ∧ ¬ code ∧ creative) ∧
  (inferTask label prompt = "analysis" ↔ label ≠ LabelReasoning ∧ ¬ code ∧ ¬ creative ∧ analysis) ∧
  (inferTask label prompt = "factual" ↔ label ≠ LabelReasoning ∧ ¬ code ∧ ¬ creative ∧ ¬ analysis).
Proof.
  cbv zeta. assert (∀ w, w ∈ codeKeywords → w ≠ "") as Hne 
    by (assert (¬ ("" ∈ codeKeywords)) by (apply (bool_decide_eq_false_1 _); vm_compute; reflexivity); by intros w Hin ->).
  pose proof (existsb_words (lower prompt) codeKeywords Hne) as Hc. pose proof (existsb_texts (lower prompt) creativeKeywords) as Hr.
  pose proof (existsb_texts (lower prompt) analysisKeywords) as Ha. unfold inferTask. cbv zeta.
  destruct (decide (label = LabelReasoning)); [split_and!; naive_solver|].
  destruct (existsb (containsWord _) _), (existsb (strContains _) creativeKeywords), (existsb (strContains _) analysisKeywords); split_and!; naive_solver.
Qed.

(** One facet through a history. *)
Definition facetAfter (name : string) (cur : option Facet) (op : FacetCall) : option Facet :=
  match op with
  | RegisterFacet (Some a) =>
      if decide (raName a = name ∧ TrimSpace (raName a) ≠ "" ∧ TrimSpace (raDescription a) ≠ "" ∧ raValues a ≠ [] ∧ cur = None)
      then Some {| FName := raName a; FDescription := raDescription a; FValues := raValues a; Dynamic := true |} else cur
  | UnregisterFacet (Some m) => if decide (m = name ∧ TrimSpace m ≠ "") then None else cur
  | _ => cur
  end.

Definition registryOk (r : FacetRegistry) : Prop := ∀ n f, r !! n = Some f → FName f = n.

Section histories.
Context `{FacetRangeLaws, SliceSortLaws}.

Lemma facetStep_lookup url op r n : (facetStep url op r).2 !! n = facetAfter n (r !! n) op.
Proof.
  destruct op as [| |[a|]|[m|]]; try done; cbn [facetStep facetAfter].
  - unfold registerFacet. destruct (decide (TrimSpace (raName a) = "")) as [Hn|Hn]; [by rewrite decide_False by tauto|].
    destruct (decide (TrimSpace (raDescription a) = "")); [by rewrite decide_False by tauto|]. destruct (decide (raValues a = [])); [by rewrite decide_False by tauto|].
    unfold Register. cbn [FName]. destruct (decide (raName a = "")) as [He|He]; [by rewrite He in Hn|].
    destruct (r !! raName a) as [f|] eqn:Ef; cbn [snd].
    + rewrite decide_False; [done|]. intros (<- & _ & _ & _ & ?). congruence.
    + destruct (decide (raName a = n)) as [<-|Hne]; [rewrite lookup_insert_eq, decide_True by done; done|]. rewrite lookup_insert_ne, decide_False by tauto. done.
  - unfold unregisterFacet. destruct (decide (TrimSpace m = "")) as [Hn|Hn]; [by rewrite decide_False by tauto|].
    unfold Unregister. destruct (r !! m) as [f|] eqn:Ef; cbn [snd].
    + destruct (decide (m = n)) as [->|Hne]; [by rewrite lookup_delete_eq, decide_True|]. by rewrite lookup_delete_ne, decide_False by tauto.
    + destruct (decide (m = n ∧ TrimSpace m ≠ "")) as [[-> _]|]; [done|done].
Qed.

Lemma facetStep_ok url op r : registryOk r → registryOk (facetStep url op r).2.
Proof.
  intros Hok n f. rewrite facetStep_lookup. destruct op as [| |[a|]|[m|]]; cbn [facetAfter]; try apply Hok.
  - destruct (decide _) as [(<- & _)|]; [by intros [= <-]|apply Hok].
  - destruct (decide _); [done|apply Hok].
Qed.

(** After any history of the facet tools, a facet is registered exactly when its own
    registrations and removals say so, whatever happened to the others: the first accepted
    registration counts until the name is removed, and the three built-in facets are there
    from the start.  list_facets answers exactly the registered facets, each once, by name. *)
Theorem facets_exact url ops :
  let r := (trace (facetStep url) NewFacetRegistry ops).2 in
  (∀ n, r !! n = foldl (facetAfter n) (NewFacetRegistry !! n) ops) ∧
  StronglySorted facetNameLe (List_ r) ∧ NoDup (FName <$> List_ r) ∧ (∀ f, f ∈ List_ r ↔ r !! FName f = Some f).
Proof.
  cbv zeta. assert (registryOk NewFacetRegistry) as Hok0.
  { intros n f Hf. assert (map_Forall (λ n f, FName f = n) NewFacetRegistry) as HM by (apply (bool_decide_eq_true_1 _); vm_compute; reflexivity). by apply HM in Hf. }
  assert (registryOk (trace (facetStep url) NewFacetRegistry ops).2) as Hok by (apply trace_invariant; [intros; by apply facetStep_ok|done]).
  split.
  - intros n. generalize NewFacetRegistry. clear. induction ops as [|op ops IH]; intros r; [done|]. rewrite trace_cons. cbn [foldl]. by rewrite IH, facetStep_lookup.
  - set (r := (trace _ _ _).2) in *. unfold List_. split; [apply sort_sorted; apply _|]. split.
    + rewrite (fmap_Permutation FName _ _ (sort_perm facetNameLe _)). pose proof (facet_range_perm r) as Hp.
      rewrite (fmap_Permutation FName _ _ (fmap_Permutation snd _ _ Hp)). rewrite <- list_fmap_compose.
      rewrite (list_fmap_ext _ fst (map_to_list r)); [apply NoDup_fst_map_to_list|]. intros i [n f] Hi. cbn. apply Hok.
      apply elem_of_map_to_list. by eapply list_elem_of_lookup_2.
    + intros f. rewrite (sort_perm facetNameLe), list_elem_of_fmap. split.
      * intros ([n f'] & -> & Hin). cbn. apply (elem_of_range facet_range) in Hin. by rewrite (Hok _ _ Hin).
      * intros Hf. exists (FName f, f). split; [done|]. by apply (elem_of_range facet_range).
Qed.
End histories.

(** ** Trying it *)

#[local] Instance sample_range : FacetRange := map_to_list.
#[local] Instance sample_range_laws : FacetRangeLaws := GoRange_map_to_list.
#[local] Instance sample_facet_sort : SliceSort := mergeSlice.
#[local] Instance sample_facet_sort_laws : SliceSortLaws := mergeSlice_laws.

Definition sample_facet_calls : list FacetCall := [
  RegisterFacet (Some {| raName := "tone"; raDescription := "Tone"; raValues := ["dry"] |});
  RegisterFacet (Some {| raName := "tone"; raDescription := "Another"; raValues := ["wet"] |}); UnregisterFacet (Some "task"); ListFacets].

Lemma facets_exact_witness :
  FName <$> List_ (trace (facetStep "") NewFacetRegistry sample_facet_calls).2 = ["complexity"; "thinking"; "tone"] ∧
  NoDup (FName <$> List_ (trace (facetStep "") NewFacetRegistry sample_facet_calls).2).
Proof.
  split; [vm_compute; reflexivity|]. exact (proj1 (proj2 (proj2 (facets_exact "" sample_facet_calls)))).
Defined.

(** The classifier's other labels are not used, and only the three fixed facets are
    answered: a prompt classified as code without a code word is factual. *)
Lemma code_label_is_ignored :
  classifyPrompt "http://c" (Some "Fix the null pointer in auth") (Answer 200 (BodyOK ["code"] None)) 0 = inr (Classified "factual" "low" "false").
Proof. vm_compute. reflexivity. Qed.

Example capital_is_no_api : inferTask LabelGeneral "What is the capital of France?" = "factual" ∧ inferTask LabelGeneral "Call the API." = "code".
Proof. vm_compute. done. Qed.
