(* ===== verification/Knowledge.v ===== *)
(** * Knowledge: documents with full-text search

    internal/knowledge/store.go ([PostgresKnowledgeStore]), internal/kbclient/client.go
    ([KBClient], the same interface over HTTP) and mcp/tools/knowledge.go (index_document and
    search_knowledge).  Postgres's text search (what matches, the rank, the snippet) and the
    answers of the knowledge base service are arguments. *)
From S2P Require Import Prelude GoTime GoPath GoStrings.
From S2P Require Mcp.

(** ** Documents (internal/knowledge/store.go) *)

Record Document := {
  ID : string; DTenantID : string; Title : string; DContent : string; Source : string;
  DMetadata : option (gmap string string); CreatedAt : Time
}.

Record SearchResult := { Doc : Document; Rank : Q; Snippet : string }.

Inductive KnowledgeError := EmptyField (field : string) | QueryFailed | KBNotRequested | KBUnreachable | KBStatus (status : Z) | KBDecode.

(** An implementation of the store; the fault fails the call. *)
Class KnowledgeStore (S : Type) := {
  Index : bool → Time → Document → S → option KnowledgeError * S;
  Search : bool → string → string → Z → S → (KnowledgeError + list SearchResult) * S;
  Delete : bool → string → string → S → option KnowledgeError * S
}.

(** What Postgres makes of a query, a document and its text. *)
Class TextSearch := {
  matches : string → Document → bool;
  rankOf : string → Document → Q;
  headline : string → Document → string
}.

Record PostgresKnowledgeStore := { documents : gmap string Document }.

Fixpoint emptyOf (fields : list (string * string)) : option KnowledgeError :=
  match fields with
  | [] => None
  | (f, v) :: fields => if decide (v = "") then Some (EmptyField f) else emptyOf fields
  end.

(** A conflict on the id replaces every column, the tenant too. *)
Definition pgIndex (fault : bool) (now : Time) (doc : Document) (s : PostgresKnowledgeStore) : option KnowledgeError * PostgresKnowledgeStore :=
  match emptyOf [("id", ID doc); ("tenant_id", DTenantID doc); ("title", Title doc); ("content", DContent doc)] with
  | Some e => (Some e, s)
  | None =>
      if fault then (Some QueryFailed, s)
      else (None, {| documents := <[ID doc := {| ID := ID doc; DTenantID := DTenantID doc; Title := Title doc; DContent := DContent doc;
                       Source := Source doc; DMetadata := DMetadata doc; CreatedAt := now |}]> (documents s) |})
  end.

Definition maxLimit : Z := 100.

Definition searchLimit (limit : Z) : nat :=
  let limit := if decide (limit <= 0) then 10 else limit in Z.to_nat (if decide (maxLimit < limit) then maxLimit else limit).

Section postgres.
Context `{TextSearch, SliceSort}.

Definition higherRank (query : string) (a b : Document) : Prop := (rankOf query b <= rankOf query a)%Q.

#[global] Instance higherRank_dec query a b : Decision (higherRank query a b).
Proof. unfold higherRank. destruct (Qlt_le_dec (rankOf query a) (rankOf query b)) as [Hl|Hl]; [right; apply Qlt_not_le, Hl|by left]. Defined.

#[global] Instance higherRank_trans query : Transitive (higherRank query).
Proof. intros a b c Hab Hbc. unfold higherRank in *. eapply Qle_trans; eauto. Qed.

#[global] Instance higherRank_total query : Total (higherRank query).
Proof. intros a b. unfold higherRank. destruct (Qlt_le_dec (rankOf query a) (rankOf query b)); [right; by apply Qlt_le_weak|by left]. Qed.

Definition tenantDocs (tenantID : string) (s : PostgresKnowledgeStore) : gmap string Document :=
  filter (λ kv, DTenantID kv.2 = tenantID) (documents s).

Definition found (query : string) (docs : gmap string Document) : list Document :=
  sortSlice (higherRank query) (map_to_list (filter (λ kv, matches query kv.2 = true) docs)).*2.

Definition pgSearch (fault : bool) (tenantID query : string) (limit : Z) (s : PostgresKnowledgeStore) : KnowledgeError + list SearchResult :=
  if decide (tenantID = "") then inl (EmptyField "tenant_id")
  else if decide (query = "") then inr []
  else if fault then inl QueryFailed
  else inr ((λ d, {| Doc := d; Rank := rankOf query d; Snippet := headline query d |}) <$> take (searchLimit limit) (found query (tenantDocs tenantID s))).

Definition pgDelete (fault : bool) (tenantID docID : string) (s : PostgresKnowledgeStore) : option KnowledgeError * PostgresKnowledgeStore :=
  match emptyOf [("tenant_id", tenantID); ("doc_id", docID)] with
  | Some e => (Some e, s)
  | None => if fault then (Some QueryFailed, s)
            else (None, {| documents := filter (λ kv, ¬ (DTenantID kv.2 = tenantID ∧ kv.1 = docID)) (documents s) |})
  end.

#[global] Instance PostgresKnowledge : KnowledgeStore PostgresKnowledgeStore := {|
  Index := pgIndex; Search fault t q l s := (pgSearch fault t q l s, s); Delete := pgDelete
|}.
End postgres.

(** ** The tools (mcp/tools/knowledge.go) *)

Record indexDocumentInput := { inTitle : string; inContent : string; inSource : string; inMetadata : option (gmap string string) }.
Record searchKnowledgeInput := { inQuery : string; inLimit : option Z }.

Inductive KnowledgeToolError := InvalidParameters | FieldRequired (field : string) | MissingAuthContext | NoDocumentID | IndexFailed (e : KnowledgeError) | SearchFailed (e : KnowledgeError).

Inductive KnowledgeAnswer := Indexed (docID : string) | Found (results : list SearchResult) (count : Z).

Definition askedLimit (limit : option Z) : Z := match limit with Some n => if decide (0 < n) then n else 10 | None => 10 end.

Section tools.
Context {S : Type} `{KnowledgeStore S}.

(** [fresh] is the new identifier, unless the random source fails. *)
Definition indexDocumentHandler (ctx : option Mcp.MCPAuthContext) (fault : bool) (now : Time) (fresh : option string)
    (params : option indexDocumentInput) (s : S) : (KnowledgeToolError + KnowledgeAnswer) * S :=
  match params with
  | None => (inl InvalidParameters, s)
  | Some input =>
      if decide (inTitle input = "") then (inl (FieldRequired "title"), s)
      else if decide (inContent input = "") then (inl (FieldRequired "content"), s)
      else match ctx with
      | None => (inl MissingAuthContext, s)
      | Some ac =>
          match fresh with
          | None => (inl NoDocumentID, s)
          | Some docID =>
              let doc := {| ID := docID; DTenantID := Mcp.mTenantID ac; Title := inTitle input; DContent := inContent input;
                            Source := inSource input; DMetadata := inMetadata input; CreatedAt := 0 |} in
              match Index fault now doc s with
              | (Some e, s) => (inl (IndexFailed e), s)
              | (None, s) => (inr (Indexed docID), s)
              end
          end
      end
  end.

Definition searchKnowledgeHandler (ctx : option Mcp.MCPAuthContext) (fault : bool) (params : option searchKnowledgeInput) (s : S) :
    (KnowledgeToolError + KnowledgeAnswer) * S :=
  match params with
  | None => (inl InvalidParameters, s)
  | Some input =>
      if decide (inQuery input = "") then (inl (FieldRequired "query"), s)
      else match ctx with
      | None => (inl MissingAuthContext, s)
      | Some ac =>
          let limit := askedLimit (inLimit input) in
          match Search fault (Mcp.mTenantID ac) (inQuery input) limit s with
          | (inl e, s) => (inl (SearchFailed e), s)
          | (inr results, s) => (inr (Found results (Z.of_nat (length results))), s)
          end
      end
  end.

Inductive KnowledgeCall := CallIndex (fresh : option string) (i : option indexDocumentInput) | CallSearch (i : option searchKnowledgeInput).

Record KCall := { kcCaller : option Mcp.MCPAuthContext; kcFault : bool; kcTime : Time; kcCall : KnowledgeCall }.

Definition knowledgeTool (c : KCall) (s : S) : (KnowledgeToolError + KnowledgeAnswer) * S :=
  match kcCall c with
  | CallIndex fresh i => indexDocumentHandler (kcCaller c) (kcFault c) (kcTime c) fresh i s
  | CallSearch i => searchKnowledgeHandler (kcCaller c) (kcFault c) i s
  end.
End tools.

(** ** The client of the knowledge base service (internal/kbclient/client.go) *)

(** What [url.PathEscape] leaves as it is: letters, digits and - _ . ~ $ & + = : @ *)
Definition plainInPath (c : ascii) : bool :=
  let n := nat_of_ascii c in
  bool_decide ((97 ≤ n ≤ 122) ∨ (65 ≤ n ≤ 90) ∨ (48 ≤ n ≤ 57) ∨ n ∈ [45; 95; 46; 126; 36; 38; 43; 61; 58; 64])%nat.

Definition upperHex (n : nat) : ascii := ascii_of_nat (if decide (n < 10)%nat then 48 + n else 55 + n).

Fixpoint PathEscape (s : string) : string :=
  match s with
  | EmptyString => EmptyString
  | String c s =>
      if plainInPath c then String c (PathEscape s)
      else let n := nat_of_ascii c in String "%" (String (upperHex (n / 16)) (String (upperHex (n mod 16)) (PathEscape s)))
  end.

Record indexRequest := { irDoc : Document }.

Record KBRequest := { kbMethod : string; kbPath : string; kbQuery : list (string * string); kbHeaders : list (string * string); kbBody : option indexRequest }.

Record searchResultWire := { wID : string; Repo : string; WPath : string; WTitle : string; WSnippet : string; Score : Q }.

(** No request can be made, no answer, or a status and what the body decodes to. *)
Inductive KBReply := KBBadURL | KBNoAnswer | KBAnswered (status : Z) (wires : option (list searchResultWire)).

Record KBClient := { kbBaseURL : string; kbApiKey : string; service : list KBRequest → KBReply; kbSent : list KBRequest }.

Definition applyAuth (c : KBClient) : list (string * string) :=
  if decide (kbApiKey c = "") then [] else [("Authorization", "Bearer " +:+ kbApiKey c)].

Definition send (r : KBRequest) (c : KBClient) : KBReply * KBClient :=
  let c' := {| kbBaseURL := kbBaseURL c; kbApiKey := kbApiKey c; service := service c; kbSent := kbSent c ++ [r] |} in
  match service c (kbSent c') with KBBadURL => (KBBadURL, c) | reply => (reply, c') end.

Definition statusError (reply : KBReply) : option KnowledgeError :=
  match reply with
  | KBBadURL => Some KBNotRequested
  | KBNoAnswer => Some KBUnreachable
  | KBAnswered status _ => if decide (status < 200 ∨ 300 <= status) then Some (KBStatus status) else None
  end.

Definition kbIndex (doc : Document) (c : KBClient) : option KnowledgeError * KBClient :=
  let '(reply, c) := send {| kbMethod := "POST"; kbPath := kbBaseURL c +:+ "/v1/index"; kbQuery := [];
                             kbHeaders := ("Content-Type", "application/json") :: applyAuth c; kbBody := Some {| irDoc := doc |} |} c in
  (statusError reply, c).

(** The results have neither a tenant nor a time. *)
Definition fromWire (w : searchResultWire) : SearchResult := {|
  Doc := {| ID := wID w; DTenantID := ""; Title := WTitle w; DContent := ""; Source := Repo w +:+ "/" +:+ WPath w; DMetadata := None; CreatedAt := 0 |};
  Rank := Score w; Snippet := WSnippet w
|}.

Definition kbSearch (tenantID query : string) (limit : Z) (c : KBClient) : (KnowledgeError + list SearchResult) * KBClient :=
  let '(reply, c) := send {| kbMethod := "GET"; kbPath := kbBaseURL c +:+ "/v1/search";
                             kbQuery := [("limit", pretty limit); ("query", query); ("tenant_id", tenantID)]; kbHeaders := applyAuth c; kbBody := None |} c in
  (match statusError reply with
   | Some e => inl e
   | None => match reply with KBAnswered _ (Some wires) => inr (fromWire <$> wires) | _ => inl KBDecode end
   end, c).

Definition kbDelete (tenantID docID : string) (c : KBClient) : option KnowledgeError * KBClient :=
  let '(reply, c) := send {| kbMethod := "DELETE"; kbPath := kbBaseURL c +:+ "/v1/documents/" +:+ PathEscape docID; kbQuery := [];
                             kbHeaders := ("X-Tenant-ID", tenantID) :: applyAuth c; kbBody := None |} c in
  (statusError reply, c).

#[global] Instance KBKnowledge : KnowledgeStore KBClient := {| Index _ _ := kbIndex; Search _ := kbSearch; Delete _ := kbDelete |}.

(** ** Lemmas *)

Section postgres_facts.
Context `{TextSearch, !SliceSort, !SliceSortLaws}.

Definition callTenant (c : KCall) : option string := Mcp.mTenantID <$> kcCaller c.

(** Two stores that hold the same documents of a tenant. *)
Definition agree (t : string) (s s' : PostgresKnowledgeStore) : Prop := tenantDocs t s = tenantDocs t s'.

Lemma pgSearch_agree t s s' fault query limit : agree t s s' → pgSearch fault t query limit s = pgSearch fault t query limit s'.
Proof. unfold agree, pgSearch. by intros ->. Qed.

Lemma emptyOf_None fields : emptyOf fields = None ↔ Forall (λ fv, fv.2 ≠ "") fields.
Proof.
  induction fields as [|[f v] fields IH]; [done|]. cbn. rewrite Forall_cons. destruct (decide (v = "")) as [->|]; [naive_solver|]. rewrite IH. naive_solver.
Qed.

Lemma lookup_tenantDocs t s id d : tenantDocs t s !! id = Some d ↔ documents s !! id = Some d ∧ DTenantID d = t.
Proof. unfold tenantDocs. by rewrite map_lookup_filter_Some. Qed.

(** The new document of a call, when it is indexed. *)
Definition newID (c : KCall) : option string := match kcCall c with CallIndex fresh _ => fresh | CallSearch _ => None end.

Lemma tenantDocs_insert t s id d : documents s !! id = None →
  tenantDocs t {| documents := <[id := d]> (documents s) |} = if decide (DTenantID d = t) then <[id := d]> (tenantDocs t s) else tenantDocs t s.
Proof.
  intros Hn. unfold tenantDocs. cbn [documents]. case_decide as Hd.
  - by rewrite map_filter_insert_True.
  - rewrite map_filter_insert_False by done. by rewrite delete_id.
Qed.

(** A call with a new identifier changes the documents of its tenant alone, and as it would
    if the tenant were alone. *)
Lemma knowledgeTool_tenant t c s : (∀ id, newID c = Some id → documents s !! id = None) →
  callTenant c ≠ Some t → tenantDocs t (knowledgeTool c s).2 = tenantDocs t s.
Proof.
  intros Hf Hc. unfold knowledgeTool, newID, callTenant in *. destruct (kcCall c) as [fresh [i|]|[i|]]; try done.
  - cbn. destruct (decide (inTitle i = "")), (decide (inContent i = "")); try done.
    destruct (kcCaller c) as [ac|]; [|done]. cbn in Hc.
    destruct fresh as [id|]; [|done]. unfold pgIndex. destruct (emptyOf _); [done|]. destruct (kcFault c); [done|]. cbn.
    rewrite tenantDocs_insert by auto. rewrite decide_False; [done|]. cbn. congruence.
  - cbn. destruct (decide (inQuery i = "")); [done|]. destruct (kcCaller c); [|done]. by destruct (pgSearch _ _ _ _ _).
Qed.

Lemma knowledgeTool_agree t c s s' : agree t s s' → (∀ id, newID c = Some id → documents s !! id = None ∧ documents s' !! id = None) →
  callTenant c = Some t → (knowledgeTool c s).1 = (knowledgeTool c s').1 ∧ agree t (knowledgeTool c s).2 (knowledgeTool c s').2.
Proof.
  intros Ha Hf Hc. unfold knowledgeTool, newID, callTenant in *. destruct (kcCall c) as [fresh [i|]|[i|]]; try done.
  - cbn. destruct (decide (inTitle i = "")), (decide (inContent i = "")); try done.
    destruct (kcCaller c) as [ac|]; [|done]. cbn in Hc. injection Hc as Ht.
    destruct fresh as [id|]; [|done]. destruct (Hf id eq_refl) as [Hs Hs']. unfold pgIndex. destruct (emptyOf _); [done|]. destruct (kcFault c); [done|]. cbn.
    split; [done|]. unfold agree. rewrite !tenantDocs_insert by done. cbn. rewrite Ht, !decide_True by done. by rewrite (Ha : tenantDocs t s = tenantDocs t s').
  - cbn. destruct (decide (inQuery i = "")); [done|]. destruct (kcCaller c) as [ac|]; [|done]. cbn in Hc. injection Hc as Ht. rewrite Ht.
    rewrite (pgSearch_agree t s s') by done. by destruct (pgSearch _ _ _ _ _).
Qed.

Lemma knowledgeTool_ids c s id : documents (knowledgeTool c s).2 !! id ≠ None → documents s !! id ≠ None ∨ newID c = Some id.
Proof.
  unfold knowledgeTool, newID. destruct (kcCall c) as [fresh [i|]|[i|]]; try (by left).
  - cbn. destruct (decide (inTitle i = "")), (decide (inContent i = "")); try (by left). destruct (kcCaller c) as [ac|]; [|by left].
    destruct fresh as [id'|]; [|by left]. unfold pgIndex. destruct (emptyOf _); [by left|]. destruct (kcFault c); [by left|]. cbn.
    destruct (decide (id' = id)) as [->|]; [by right|]. rewrite lookup_insert_ne by done. by left.
  - cbn. destruct (decide (inQuery i = "")); [by left|]. destruct (kcCaller c); [|by left]. destruct (pgSearch _ _ _ _ _); by left.
Qed.

Definition freshCalls (calls : list KCall) : Prop := NoDup (omap newID calls).

(** Knowledge stays within the tenant: in every history of the tools with new
    identifiers, on Postgres, whatever fails, each answer to a tenant is the one it would
    have got if no other tenant had ever called. *)
Theorem knowledge_isolated t calls (Hfresh : freshCalls calls) :
  let answers := (trace knowledgeTool {| documents := ∅ |} calls).1 in
  let alone := (trace knowledgeTool {| documents := ∅ |} (filter (λ c, callTenant c = Some t) calls)).1 in
  omap (λ ca, if decide (callTenant ca.1 = Some t) then Some ca.2 else None) (zip calls answers) = alone.
Proof.
  cbv zeta. assert (∀ s s', agree t s s' → (∀ id, id ∈ omap newID calls → documents s !! id = None ∧ documents s' !! id = None) →
    omap (λ ca, if decide (callTenant ca.1 = Some t) then Some ca.2 else None) (zip calls (trace knowledgeTool s calls).1) =
    (trace knowledgeTool s' (filter (λ c, callTenant c = Some t) calls)).1) as HG; [|by apply HG].
  induction calls as [|c calls IH]; intros s s' Ha Hid; [done|]. rewrite trace_cons_answers. cbn [zip zip_with omap list_omap]. rewrite filter_cons.
  assert (NoDup (omap newID calls) ∧ ∀ id, newID c = Some id → id ∉ omap newID calls) as [Hnd Hnot].
  { unfold freshCalls in Hfresh. cbn in Hfresh. destruct (newID c) as [id|]; [apply NoDup_cons in Hfresh as [? ?]; split; [done|by intros ? [= <-]]|done]. }
  assert (∀ id, newID c = Some id → documents s !! id = None ∧ documents s' !! id = None) as Hc by (intros id Hi; apply Hid; cbn; rewrite Hi; left).
  assert (∀ id, id ∈ omap newID calls → documents s !! id = None ∧ documents s' !! id = None) as Hr by (intros id Hi; apply Hid; cbn; destruct (newID c); [by right|done]).
  assert (∀ s0, (∀ id, id ∈ omap newID calls → documents s0 !! id = None) → ∀ id, id ∈ omap newID calls → documents (knowledgeTool c s0).2 !! id = None) as Hkeep.
  { intros s0 Hs0 id Hi. destruct (documents (knowledgeTool c s0).2 !! id) eqn:E; [|done]. destruct (knowledgeTool_ids c s0 id) as [Hx|Hx]; [by rewrite E|..].
    - by rewrite Hs0 in Hx.
    - by destruct (Hnot _ Hx). }
  cbn [fst snd]. destruct (decide (callTenant c = Some t)) as [Ht|Ht].
  - rewrite trace_cons_answers. destruct (knowledgeTool_agree t c s s' Ha Hc Ht) as [-> Ha']. f_equal. apply IH; [done..|]. intros id Hi. split; apply Hkeep; try done; intros; by apply Hr.
  - apply IH; [done| |].
    + unfold agree. rewrite knowledgeTool_tenant; [done|intros id Hi; by apply Hc|done].
    + intros id Hi. split; [apply Hkeep; [intros; by apply Hr|done]|by apply Hr].
Qed.

(** A search answers the best documents: those of the caller's tenant that match, by
    falling rank, at most the limit (ten if none is asked, a hundred at most), and no match
    that is left out ranks above one that is returned. *)
Theorem knowledge_search_exact ac query limit (s : PostgresKnowledgeStore) (Hq : query ≠ "") (Ht : Mcp.mTenantID ac ≠ "") :
  ∃ results n, searchKnowledgeHandler (Some ac) false (Some {| inQuery := query; inLimit := limit |}) s = (inr (Found results n), s) ∧
    n = Z.of_nat (length results) ∧
    (length results ≤ Z.to_nat (Z.min 100 (askedLimit limit)))%nat ∧
    StronglySorted (λ a b, (Rank b <= Rank a)%Q) results ∧
    (∀ r, r ∈ results → ∃ id, documents s !! id = Some (Doc r) ∧ DTenantID (Doc r) = Mcp.mTenantID ac ∧ matches query (Doc r) = true ∧
       Rank r = rankOf query (Doc r) ∧ Snippet r = headline query (Doc r)) ∧
    (∀ id d, documents s !! id = Some d → DTenantID d = Mcp.mTenantID ac → matches query d = true → d ∈ (Doc <$> results) ∨
       (Z.of_nat (length results) = Z.min 100 (askedLimit limit) ∧
        ∀ r, r ∈ results → (rankOf query d <= Rank r)%Q)).
Proof.
  set (lim := askedLimit limit).
  assert (0 < lim) as Hlim by (unfold lim, askedLimit; destruct limit; [case_decide|]; lia).
  assert (searchLimit lim = Z.to_nat (Z.min 100 lim)) as Hsl by (unfold searchLimit, maxLimit; destruct (decide (lim <= 0)); [lia|]; destruct (decide (100 < lim)); lia).
  set (all := found query (tenantDocs (Mcp.mTenantID ac) s)).
  assert (∀ d, d ∈ all ↔ ∃ id, documents s !! id = Some d ∧ DTenantID d = Mcp.mTenantID ac ∧ matches query d = true) as Hall.
  { intros d. unfold all, found. rewrite (sort_perm (higherRank query)), list_elem_of_fmap. split.
    - intros ([id d'] & -> & Hin). exists id. apply elem_of_map_to_list, map_lookup_filter_Some in Hin as [Hin Hm]. apply lookup_tenantDocs in Hin as [??]. by split_and!.
    - intros (id & Hd & Hdt & Hm). exists (id, d). split; [done|]. apply elem_of_map_to_list, map_lookup_filter_Some. split; [|done]. by apply lookup_tenantDocs. }
  assert (StronglySorted (higherRank query) all) as Hsort by (unfold all, found; apply sort_sorted; apply _).
  set (top := take (searchLimit lim) all).
  assert (StronglySorted (higherRank query) (top ++ drop (searchLimit lim) all)) as Hsplit by (unfold top; by rewrite take_drop).
  exists ((λ d, {| Doc := d; Rank := rankOf query d; Snippet := headline query d |}) <$> top), (Z.of_nat (length top)).
  split. { cbn. rewrite decide_False by done. unfold pgSearch. rewrite !decide_False by done. fold lim. fold all. fold top. by rewrite length_fmap. }
  rewrite length_fmap. split; [done|]. split; [unfold top; rewrite length_take, <- Hsl; lia|]. split; [|split].
  - apply StronglySorted_app_1_l in Hsplit. clear -Hsplit. induction Hsplit as [|d l Hs IH Hf]; constructor; [done|]. apply Forall_fmap. eapply Forall_impl; [exact Hf|]. done.
  - intros r Hr. apply list_elem_of_fmap in Hr as (d & -> & Hin). cbn. assert (d ∈ all) as Hd by (eapply subseteq_take; exact Hin).
    apply Hall in Hd as (id & ? & ? & ?). exists id. by split_and!.
  - intros id d Hd Hdt Hm. assert (d ∈ all) as Hin by (apply Hall; by exists id). rewrite <- (take_drop (searchLimit lim) all) in Hin.
    apply elem_of_app in Hin as [Hin|Hin].
    + left. rewrite <- list_fmap_compose. apply list_elem_of_fmap. by exists d.
    + right. split.
      * assert (searchLimit lim < length all)%nat by (destruct (decide (searchLimit lim < length all)%nat); [done|]; rewrite drop_ge in Hin by lia; by apply elem_of_nil in Hin).
        unfold top. rewrite length_take. lia.
      * intros r Hr. apply list_elem_of_fmap in Hr as (d' & -> & Hin'). cbn. by eapply (StronglySorted_app_1_elem_of (higherRank query)).
Qed.
End postgres_facts.

(** ** The path of a deletion *)

Definition hexVal (c : ascii) : option nat :=
  let n := nat_of_ascii c in
  if decide (48 ≤ n ≤ 57)%nat then Some (n - 48)%nat else if decide (65 ≤ n ≤ 70)%nat then Some (n - 55)%nat else if decide (97 ≤ n ≤ 102)%nat then Some (n - 87)%nat else None.

(** [url.PathUnescape]. *)
Fixpoint PathUnescape (s : string) : option string :=
  match s with
  | EmptyString => Some EmptyString
  | String c s =>
      if decide (c = "%"%char) then
        match s with
        | String a (String b s) =>
            match hexVal a, hexVal b with Some x, Some y => String (ascii_of_nat (16 * x + y)) <$> PathUnescape s | _, _ => None end
        | _ => None
        end
      else String c <$> PathUnescape s
  end.

Lemma escape_byte c : plainInPath c = true ∧ c ≠ "%"%char ∨
  (hexVal (upperHex (nat_of_ascii c / 16)) = Some (nat_of_ascii c / 16)%nat ∧ hexVal (upperHex (nat_of_ascii c mod 16)) = Some (nat_of_ascii c mod 16)%nat ∧
   plainInPath (upperHex (nat_of_ascii c / 16)) = true ∧ plainInPath (upperHex (nat_of_ascii c mod 16)) = true ∧ plainInPath c = false).
Proof.
  assert (forallb (λ n, let c := ascii_of_nat n in
    (plainInPath c && negb (bool_decide (c = "%"%char))) ||
    (bool_decide (hexVal (upperHex (nat_of_ascii c / 16)) = Some (nat_of_ascii c / 16)%nat) && bool_decide (hexVal (upperHex (nat_of_ascii c mod 16)) = Some (nat_of_ascii c mod 16)%nat) &&
     plainInPath (upperHex (nat_of_ascii c / 16)) && plainInPath (upperHex (nat_of_ascii c mod 16)) && negb (plainInPath c))) (seq 0 256) = true) as HF by (vm_compute; reflexivity).
  rewrite forallb_forall in HF. specialize (HF (nat_of_ascii c)). rewrite ascii_nat_embedding in HF. cbv zeta in HF.
  rewrite orb_true_iff, !andb_true_iff, !bool_decide_eq_true, !negb_true_iff, bool_decide_eq_false in HF. destruct HF as [[]|[[[[]]]]]; [|by left|by right; split_and!].
  apply in_seq. pose proof (nat_ascii_bounded c). lia.
Qed.

(** A document's identifier stays one element of the path: escaping it leaves only
    letters, digits, percent signs and the harmless marks (no slash, question mark or
    number sign), and reading the element back gives the identifier. *)
Theorem path_escape_roundtrip s : PathUnescape (PathEscape s) = Some s ∧ stringForall (λ c, plainInPath c || bool_decide (c = "%"%char)) (PathEscape s) = true ∧
  ∀ a b, PathEscape s ≠ a +:+ "/" +:+ b.
Proof.
  assert (stringForall (λ c, plainInPath c || bool_decide (c = "%"%char)) (PathEscape s) = true) as Hall.
  { induction s as [|c s IH]; [done|]. cbn -[upperHex hexVal plainInPath Nat.div Nat.modulo ascii_of_nat nat_of_ascii Nat.mul Nat.add]. destruct (escape_byte c) as [[Hp _]|(_ & _ & H1 & H2 & Hp)]; rewrite Hp; cbn -[upperHex hexVal plainInPath Nat.div Nat.modulo ascii_of_nat nat_of_ascii Nat.mul Nat.add]; [by rewrite Hp|]. by rewrite H1, H2. }
  split; [|split; [done|]].
  - clear Hall. induction s as [|c s IH]; [done|]. cbn -[upperHex hexVal plainInPath Nat.div Nat.modulo ascii_of_nat nat_of_ascii Nat.mul Nat.add]. destruct (escape_byte c) as [[Hp Hc]|(H1 & H2 & _ & _ & Hp)]; rewrite Hp; cbn -[upperHex hexVal plainInPath Nat.div Nat.modulo ascii_of_nat nat_of_ascii Nat.mul Nat.add].
    + rewrite decide_False by done. by rewrite IH.
    + rewrite H1, H2, IH. cbn [fmap option_fmap option_map]. do 2 f_equal. rewrite <- Nat.div_mod by lia. apply ascii_nat_embedding.
  - intros a b He. rewrite He, stringForall_app, andb_true_iff in Hall. destruct Hall as [_ Hall]. done.
Qed.

(** ** Trying it *)

#[local] Instance sample_text : TextSearch := {|
  matches q d := bool_decide (Title d = q ∨ DContent d = q); rankOf q d := if decide (Title d = q) then 1%Q else (1 # 2); headline q d := DContent d
|}.
#[local] Instance sample_ksort : SliceSort := mergeSlice.
#[local] Instance sample_ksort_laws : SliceSortLaws := mergeSlice_laws.

Definition asTenant (t : string) (call : KnowledgeCall) : KCall :=
  {| kcCaller := Some {| Mcp.mAgentID := "bot"; Mcp.mTenantID := t |}; kcFault := false; kcTime := 5; kcCall := call |}.

Definition sample_kcalls : list KCall := [
  asTenant "acme" (CallIndex (Some "d1") (Some {| inTitle := "go"; inContent := "text"; inSource := ""; inMetadata := None |}));
  asTenant "evil" (CallIndex (Some "d2") (Some {| inTitle := "go"; inContent := "other"; inSource := ""; inMetadata := None |}));
  asTenant "acme" (CallSearch (Some {| inQuery := "go"; inLimit := None |}))].

Lemma knowledge_isolated_witness :
  omap (λ ca, if decide (callTenant ca.1 = Some "acme") then Some ca.2 else None) (zip sample_kcalls (trace knowledgeTool {| documents := ∅ |} sample_kcalls).1) =
  (trace knowledgeTool {| documents := ∅ |} (filter (λ c, callTenant c = Some "acme") sample_kcalls)).1.
Proof.
  apply (knowledge_isolated "acme" sample_kcalls). apply (bool_decide_eq_true_1 _). vm_compute. reflexivity.
Defined.

Lemma knowledge_search_exact_witness : ∃ results n,
  searchKnowledgeHandler (Some {| Mcp.mAgentID := "bot"; Mcp.mTenantID := "acme" |}) false (Some {| inQuery := "go"; inLimit := Some 500 |}) {| documents := ∅ |} =
    (inr (Found results n), {| documents := ∅ |}) ∧ n = Z.of_nat (length results).
Proof.
  destruct (knowledge_search_exact {| Mcp.mAgentID := "bot"; Mcp.mTenantID := "acme" |} "go" (Some 500) {| documents := ∅ |} ltac:(done) ltac:(done))
    as (results & n & He & Hn & _). exists results, n. split; [exact He|exact Hn].
Defined.

(** The store itself does not keep an identifier to its tenant: indexing takes over a
    document of another tenant, who loses it. *)
Lemma index_takes_over :
  let d1 := {| ID := "d1"; DTenantID := "acme"; Title := "go"; DContent := "text"; Source := ""; DMetadata := None; CreatedAt := 0 |} in
  let d2 := {| ID := "d1"; DTenantID := "evil"; Title := "x"; DContent := "y"; Source := ""; DMetadata := None; CreatedAt := 0 |} in
  let s := (pgIndex false 2 d2 (pgIndex false 1 d1 {| documents := ∅ |}).2).2 in
  (pgIndex false 2 d2 (pgIndex false 1 d1 {| documents := ∅ |}).2).1 = None ∧ pgSearch false "acme" "go" 10 s = inr [].
Proof. vm_compute. done. Qed.

(** The limit that the tools describe is Postgres's; the client that the command wires in
    passes any limit on. *)
Lemma kb_limit_is_not_capped base key svc :
  kbSent (searchKnowledgeHandler (Some {| Mcp.mAgentID := "bot"; Mcp.mTenantID := "acme" |}) false (Some {| inQuery := "go"; inLimit := Some 5000 |})
    {| kbBaseURL := base; kbApiKey := key; service := λ _, svc; kbSent := [] |}).2 =
  match svc with KBBadURL => [] | _ => [{| kbMethod := "GET"; kbPath := base +:+ "/v1/search"; kbQuery := [("limit", "5000"); ("query", "go"); ("tenant_id", "acme")];
    kbHeaders := if decide (key = "") then [] else [("Authorization", "Bearer " +:+ key)]; kbBody := None |}] end.
Proof. destruct svc as [| |status [w|]]; [done|done|cbn; by destruct (decide (_ ∨ _))..]. Qed.
