(* ===== verification/Observe.v ===== *)
(** * Observe: the tools that look at the system

    mcp/tools/observe.go (query_metrics, get_alerts, get_container_status,
    read_container_logs; get_audit_log is in [Mcp]), listenv.go, serveruptime.go and
    websearch.go, with internal/metrics/prometheus.go.  Prometheus, Portainer and SearXNG are
    outside: an argument answers the address that is asked for. *)
From S2P Require Import Prelude GoTime GoPath Knowledge GoStrings GoText GoCalendar Sandbox.

Abbreviation textOf := Stdlib.Strings.String.string_of_list_ascii (only parsing).

(** ** Answers over HTTP *)

(** No request can be made of the address, no answer, or a status and a body that can be read
    or not; what a body decodes to depends on who asks. *)
Inductive Fetched {B : Type} := BadAddress | NoAnswer | Got (status : Z) (body : option B).
Arguments Fetched : clear implicits.

Inductive ObserveError :=
  | InvalidArguments | MissingParameter (name : string) | NotConfigured
  | BuildFailed | RequestFailed | Unauthorized | StatusError (status : Z) | DecodeFailed | ContainerNotFound (name : string) | NoVariables | UnexpectedFormat | ParseFailed (s : string).

(** The body of an answer with status 200. *)
Definition expectOK {B} (f : Fetched B) : ObserveError + B :=
  match f with
  | BadAddress => inl BuildFailed
  | NoAnswer => inl RequestFailed
  | Got status body => if decide (status ≠ 200) then inl (StatusError status) else match body with Some b => inr b | None => inl DecodeFailed end
  end.

(** ** Prometheus (internal/metrics/prometheus.go) *)

(** What [url.QueryEscape] leaves as it is: letters, digits and - _ . ~ *)
Definition plainInQuery (c : ascii) : bool :=
  let n := nat_of_ascii c in bool_decide ((97 ≤ n ≤ 122) ∨ (65 ≤ n ≤ 90) ∨ (48 ≤ n ≤ 57) ∨ n ∈ [45; 95; 46; 126])%nat.

(** A blank becomes a plus sign. *)
Fixpoint QueryEscape (s : string) : string :=
  match s with
  | EmptyString => EmptyString
  | String c s =>
      if plainInQuery c then String c (QueryEscape s)
      else if decide (c = " "%char) then String "+" (QueryEscape s)
      else let n := nat_of_ascii c in String "%" (String (upperHex (n / 16)) (String (upperHex (n mod 16)) (QueryEscape s)))
  end.

Record QueryResult := { QStatus : string; QData : string }.
Record Alert := { AlName : string; AlState : string; AlLabels : gmap string string; AlValue : string; AlActiveAt : Time }.
Record alertEntry := { aeLabels : gmap string string; aeState : string; aeValue : string; aeActiveAt : Time }.

Section prometheus.
Context (baseURL : string) (queryAnswer : string → Fetched QueryResult) (alertsAnswer : string → Fetched (list alertEntry)).

Definition promQuery (promql : string) : ObserveError + QueryResult := expectOK (queryAnswer (baseURL +:+ "/api/v1/query?query=" +:+ QueryEscape promql)).

Definition alertOf (a : alertEntry) : Alert := {|
  AlName := default "" (aeLabels a !! "alertname"); AlState := aeState a; AlLabels := aeLabels a; AlValue := aeValue a; AlActiveAt := aeActiveAt a
|}.

Definition promAlerts : ObserveError + list Alert :=
  match expectOK (alertsAnswer (baseURL +:+ "/api/v1/alerts")) with inl e => inl e | inr l => inr (alertOf <$> l) end.

Definition queryMetricsHandler (query : option string) : ObserveError + QueryResult :=
  match query with
  | None => inl InvalidArguments
  | Some q => if decide (q = "") then inl (MissingParameter "query") else promQuery q
  end.
End prometheus.

Definition NewHTTPPrometheusClient (baseURL env : string) : string :=
  if decide (baseURL ≠ "") then baseURL else if decide (env ≠ "") then env else "http://localhost:9090".

(** ** Portainer *)

Record portainerContainer := {
  PID : string; Names : list string; PState : string; PStatus : string; PImage : string; PCreated : Z; Ports : string
}.

Record containerStatusResult := { crName : string; crState : string; crStatus : string; crImage : string; crCreated : string; crPorts : string }.

Record containerStatusArgs := { csName : string; csEndpoint : string }.
Inductive containerAnswer := EveryContainer (l : list containerStatusResult) | OneContainer (r : containerStatusResult).
Record readContainerLogsArgs := { clName : string; clTail : Z; clEndpoint : string }.
Record containerLogsResult := { lrName : string; Logs : string; Lines : Z; LTimestamp : string }.

(** [time.Unix(sec, 0).UTC().Format(time.RFC3339)]; the epoch is 62135596800 seconds after
    the zero time. *)
Definition unixText (sec : Z) : string := formatRFC3339 ((sec + 62135596800) * Second).

Definition statusOf (name : string) (c : portainerContainer) : containerStatusResult := {|
  crName := TrimPrefix name "/"; crState := PState c; crStatus := PStatus c; crImage := PImage c; crCreated := unixText (PCreated c); crPorts := Ports c
|}.

(** The first container that has the name, with or without a slash, and that name. *)
Fixpoint findContainer (wanted : string) (cs : list portainerContainer) : option (string * portainerContainer) :=
  match cs with
  | [] => None
  | c :: cs =>
      match list_find (λ n, n = "/" +:+ wanted ∨ n = wanted) (Names c) with
      | Some (_, n) => Some (n, c)
      | None => findContainer wanted cs
      end
  end.

(** The same loop for the identifier: it only stops at one that is not empty. *)
Fixpoint findContainerID (wanted : string) (cs : list portainerContainer) : string :=
  match cs with
  | [] => ""
  | c :: cs =>
      match list_find (λ n, n = "/" +:+ wanted ∨ n = wanted) (Names c) with
      | Some _ => if decide (PID c = "") then findContainerID wanted cs else PID c
      | None => findContainerID wanted cs
      end
  end.

Definition firstName (c : portainerContainer) : string := match Names c with n :: _ => n | [] => "" end.

(** [stripDockerLogHeaders]: the payloads of the frames; [raw] is cut down on the way, and what
    is left of it is returned when there were none. *)
Fixpoint stripFrom (fuel : nat) (raw sb : list ascii) : list ascii * list ascii :=
  match fuel, raw with
  | S fuel, _ :: _ :: _ :: _ :: b4 :: b5 :: b6 :: b7 :: raw =>
      let size := Z.to_nat (Z.min (frameSize b4 b5 b6 b7) (Z.of_nat (length raw))) in
      stripFrom fuel (drop size raw) (sb ++ take size raw)
  | _, _ => (sb, raw)
  end.

Definition stripDockerLogHeaders (raw : list ascii) : string :=
  let '(sb, rest) := stripFrom (length raw) raw [] in
  textOf (match sb with [] => rest | _ => sb end).

Section portainer.
Context (portainerURL portainerKey : string).
(** What Portainer answers for a list of containers, and for logs, with the key. *)
Context (listAnswer : string → Fetched (list portainerContainer)) (logsAnswer : string → Fetched (list ascii)) (now : Time).

Definition endpointOf (id : string) : string := if decide (id = "") then "3" else id.

Definition listURL (endpointID : string) : string :=
  trimRightChar "/" portainerURL +:+ "/endpoints/" +:+ endpointID +:+ "/docker/containers/json?all=true".

Definition logsURL (endpointID containerID : string) (tail : Z) : string :=
  trimRightChar "/" portainerURL +:+ "/endpoints/" +:+ endpointID +:+ "/docker/containers/" +:+ containerID +:+ "/logs?stdout=1&stderr=1&tail=" +:+ pretty tail +:+ "&timestamps=1".

Definition getContainerStatusHandler (params : option containerStatusArgs) : ObserveError + containerAnswer :=
  if decide (portainerKey = "") then inl NotConfigured
  else match params with
  | None => inl InvalidArguments
  | Some a =>
      match listAnswer (listURL (endpointOf (csEndpoint a))) with
      | Got 401 _ => inl Unauthorized
      | f =>
          match expectOK f with
          | inl e => inl e
          | inr cs =>
              if decide (csName a = "") then inr (EveryContainer ((λ c, statusOf (firstName c) c) <$> cs))
              else match findContainer (csName a) cs with
              | Some (n, c) => inr (OneContainer (statusOf n c))
              | None => inl (ContainerNotFound (csName a))
              end
          end
      end
  end.

Definition tailOf (tail : Z) : Z := let tail := if decide (tail <= 0) then 100 else tail in if decide (1000 < tail) then 1000 else tail.

Definition readContainerLogsHandler (params : option readContainerLogsArgs) : ObserveError + containerLogsResult :=
  if decide (portainerKey = "") then inl NotConfigured
  else match params with
  | None => inl InvalidArguments
  | Some a =>
      if decide (clName a = "") then inl (MissingParameter "container_name")
      else
        match expectOK (listAnswer (listURL (endpointOf (clEndpoint a)))) with
        | inl e => inl e
        | inr cs =>
            let containerID := findContainerID (clName a) cs in
            if decide (containerID = "") then inl (ContainerNotFound (clName a))
            else match expectOK (logsAnswer (logsURL (endpointOf (clEndpoint a)) containerID (tailOf (clTail a)))) with
            | inl e => inl e
            | inr raw =>
                let logs := stripDockerLogHeaders (take (1024 * 1024) raw) in
                inr {| lrName := clName a; Logs := logs; Lines := Z.of_nat (CountByte logs "010"); LTimestamp := formatRFC3339 now |}
            end
        end
  end.
End portainer.

(** ** The web (websearch.go) *)

Record webSearchInput := { wsQuery : string; wsMaxResults : option Z; wsCategories : string }.
Record webSearchResult := { wsTitle : string; wsURL : string; wsContent : string; wsEngine : string }.
Record webSearchOutput := { woResults : list webSearchResult; woQuery : string; woNumber : Z }.

Definition maxResultsOf (asked : option Z) : Z :=
  match asked with Some n => if decide (0 < n) then if decide (20 < n) then 20 else n else 5 | None => 5 end.

Definition searxngBase (env : string) : string := if decide (env = "") then "http://localhost:8888" else env.

(** The parameters in the order in which [Encode] writes them. *)
Definition searchParams (i : webSearchInput) : list (string * string) :=
  (if decide (wsCategories i = "") then [] else [("categories", wsCategories i)]) ++ [("format", "json"); ("q", wsQuery i)].

(** The loop over the results: it ends at the limit. *)
Fixpoint firstResults (i : Z) (maxResults : Z) (rs acc : list webSearchResult) : list webSearchResult :=
  match rs with
  | [] => acc
  | r :: rs => if decide (maxResults <= i) then acc else firstResults (i + 1) maxResults rs (acc ++ [r])
  end.

Definition webSearchHandler (env : string) (searxng : string → list (string * string) → Fetched (list webSearchResult)) (params : option webSearchInput) :
    ObserveError + webSearchOutput :=
  match params with
  | None => inl InvalidArguments
  | Some i =>
      if decide (wsQuery i = "") then inl (MissingParameter "query")
      else match expectOK (searxng (searxngBase env +:+ "/search") (searchParams i)) with
      | inl e => inl e
      | inr rs =>
          let results := firstResults 0 (maxResultsOf (wsMaxResults i)) rs [] in
          inr {| woResults := results; woQuery := wsQuery i; woNumber := Z.of_nat (length results) |}
      end
  end.

(** ** The machine (listenv.go, serveruptime.go) *)

Definition envName (pair : string) : option string :=
  match Cut pair "=" with Some (k, _) => if decide (k = "") then None else Some k | None => None end.

Definition listenvHandler `{SliceSort} (environ : list string) : ObserveError + (list string * Z) :=
  let names := sortSlice String.le (omap envName environ) in
  if decide (names = []) then inl NoVariables else inr (names, Z.of_nat (length names)).

(** [file] is what reading /proc/uptime gives; numbers are read by [strconv.ParseFloat]. *)
Definition serverUptimeHandler {F} (parseFloat : string → option F) (file : option string) : ObserveError + F :=
  match file with
  | None => inl RequestFailed
  | Some data =>
      match Fields data with
      | [] => inl UnexpectedFormat
      | f :: _ => match parseFloat f with None => inl (ParseFailed f) | Some uptime => inr uptime end
      end
  end.

(** ** The escaped query *)

Definition QueryUnescapeByte (c : ascii) : ascii := if decide (c = "+"%char) then " "%char else c.

(** [url.QueryUnescape]. *)
Fixpoint QueryUnescape (s : string) : option string :=
  match s with
  | EmptyString => Some EmptyString
  | String c s =>
      if decide (c = "%"%char) then
        match s with
        | String a (String b s) =>
            match hexVal a, hexVal b with Some x, Some y => String (ascii_of_nat (16 * x + y)) <$> QueryUnescape s | _, _ => None end
        | _ => None
        end
      else String (QueryUnescapeByte c) <$> QueryUnescape s
  end.

Definition inQuery (c : ascii) : bool := plainInQuery c || bool_decide (c = "%"%char) || bool_decide (c = "+"%char).

Lemma query_byte c : (plainInQuery c = true ∧ c ≠ "%"%char ∧ QueryUnescapeByte c = c) ∨ (c = " "%char ∧ plainInQuery c = false) ∨
  (hexVal (upperHex (nat_of_ascii c / 16)) = Some (nat_of_ascii c / 16)%nat ∧ hexVal (upperHex (nat_of_ascii c mod 16)) = Some (nat_of_ascii c mod 16)%nat ∧
   inQuery (upperHex (nat_of_ascii c / 16)) = true ∧ inQuery (upperHex (nat_of_ascii c mod 16)) = true ∧ plainInQuery c = false ∧ c ≠ " "%char).
Proof.
  assert (forallb (λ n, let c := ascii_of_nat n in
    (plainInQuery c && bool_decide (c ≠ "%"%char) && bool_decide (QueryUnescapeByte c = c)) || (bool_decide (c = " "%char) && negb (plainInQuery c)) ||
    (bool_decide (hexVal (upperHex (nat_of_ascii c / 16)) = Some (nat_of_ascii c / 16)%nat) && bool_decide (hexVal (upperHex (nat_of_ascii c mod 16)) = Some (nat_of_ascii c mod 16)%nat) &&
     inQuery (upperHex (nat_of_ascii c / 16)) && inQuery (upperHex (nat_of_ascii c mod 16)) && negb (plainInQuery c) && bool_decide (c ≠ " "%char))) (seq 0 256) = true) as HF by (vm_compute; reflexivity).
  rewrite forallb_forall in HF. specialize (HF (nat_of_ascii c)). rewrite ascii_nat_embedding in HF. cbv zeta in HF.
  rewrite !orb_true_iff, !andb_true_iff, !bool_decide_eq_true, !negb_true_iff in HF.
  destruct HF as [[[[]]|[]]|[[[[[]]]]]]; [apply in_seq; pose proof (nat_ascii_bounded c); lia|by left|by right; left|by right; right].
Qed.

Ltac query_cbn := cbn -[upperHex hexVal plainInQuery inQuery QueryUnescapeByte Nat.div Nat.modulo ascii_of_nat nat_of_ascii Nat.mul Nat.add].

(** A query reaches Prometheus as one parameter: escaping leaves only letters, digits and
    harmless marks (no ampersand, number sign or blank), and reading the parameter back gives
    the query. *)
Theorem query_escape_roundtrip s : QueryUnescape (QueryEscape s) = Some s ∧ stringForall inQuery (QueryEscape s) = true ∧
  ∀ a b, QueryEscape s ≠ a +:+ "&" +:+ b ∧ QueryEscape s ≠ a +:+ "#" +:+ b.
Proof.
  assert (stringForall inQuery (QueryEscape s) = true) as Hall.
  { induction s as [|c s IH]; [done|]. query_cbn. destruct (query_byte c) as [(Hp & _)|[[-> Hp]|(_ & _ & H1 & H2 & Hp & Hc)]]; rewrite Hp.
    - query_cbn. unfold inQuery at 1. by rewrite Hp.
    - exact IH.
    - rewrite decide_False by done. query_cbn. by rewrite H1, H2. }
  split; [|split; [done|]].
  - clear Hall. induction s as [|c s IH]; [done|]. query_cbn. destruct (query_byte c) as [(Hp & Hc & Hu)|[[-> Hp]|(H1 & H2 & _ & _ & Hp & Hc)]]; rewrite Hp.
    + query_cbn. rewrite decide_False by done. by rewrite Hu, IH.
    + query_cbn. rewrite decide_True by done. query_cbn. rewrite decide_False by done. by rewrite IH.
    + rewrite (decide_False (P := c = _)) by done. query_cbn. rewrite H1, H2, IH. cbn [fmap option_fmap option_map]. do 2 f_equal. rewrite <- Nat.div_mod by lia. apply ascii_nat_embedding.
  - intros a b. split; intros He; rewrite He, stringForall_app, andb_true_iff in Hall; by destruct Hall.
Qed.

(** ** Logs *)

Lemma stripFrom_frame fuel t p rest sb : Z.of_nat (length p) < 2 ^ 32 →
  stripFrom (S fuel) (frame (t, p) ++ rest) sb = stripFrom fuel rest (sb ++ p).
Proof.
  intros Hp. unfold frame. destruct (bigEndian4_four (Z.of_nat (length p))) as (b4 & b5 & b6 & b7 & Hb). cbn [fst snd]. rewrite Hb.
  cbn [app]. cbn -[take drop]. rewrite (frameSize_bigEndian (Z.of_nat (length p))) by (done || lia).
  replace (Z.to_nat _) with (length p) by (rewrite length_app; lia). by rewrite take_app_length, drop_app_length.
Qed.

Lemma stripFrom_framed fs fuel sb : goodFrames fs → (length (framed fs) ≤ fuel)%nat → stripFrom fuel (framed fs) sb = (sb ++ mjoin fs.*2, []).
Proof.
  intros Hfs. revert fuel sb. induction Hfs as [|[t p] fs Hf _ IH]; intros fuel sb Hl.
  { destruct fuel; cbn; by rewrite app_nil_r. }
  rewrite framed_cons in *. rewrite length_app, length_frame in Hl. cbn [snd] in Hl. destruct fuel as [|fuel]; [lia|].
  rewrite stripFrom_frame, IH by (exact Hf || lia). cbn. by rewrite app_assoc.
Qed.

Lemma strip_framed fs : goodFrames fs → stripDockerLogHeaders (framed fs) = textOf (mjoin fs.*2).
Proof.
  intros Hfs. unfold stripDockerLogHeaders. rewrite stripFrom_framed by done. cbn [app]. by destruct (mjoin _).
Qed.

(** The name of a container as it is asked for. *)
Definition hasName (wanted : string) (c : portainerContainer) : Prop := "/" +:+ wanted ∈ Names c ∨ wanted ∈ Names c.

#[global] Instance hasName_dec wanted c : Decision (hasName wanted c).
Proof. unfold hasName. apply _. Defined.

Lemma list_find_name wanted c : list_find (λ n, n = "/" +:+ wanted ∨ n = wanted) (Names c) = None ↔ ¬ hasName wanted c.
Proof.
  rewrite list_find_None, Forall_forall. unfold hasName. split.
  - intros Hall [Hin|Hin]; apply (Hall _ Hin); auto.
  - intros Hn n Hin [->| ->]; auto.
Qed.

(** The container chosen for its logs. *)
Definition chosenID (wanted : string) (cs : list portainerContainer) (id : string) : Prop :=
  ∃ before c after, cs = before ++ c :: after ∧ hasName wanted c ∧ PID c = id ∧ id ≠ "" ∧ Forall (λ c', hasName wanted c' → PID c' = "") before.

Lemma findContainerID_spec wanted cs id : id ≠ "" → findContainerID wanted cs = id ↔ chosenID wanted cs id.
Proof.
  intros Hid. induction cs as [|c cs IH]; cbn.
  - split; [by intros <-|]. intros (b & c & a & He & _). by destruct b.
  - assert (¬ (hasName wanted c ∧ PID c ≠ "") → chosenID wanted cs id ↔ chosenID wanted (c :: cs) id) as Hskip.
    { intros Hn. split.
      - intros (b & d & a & -> & Hd & Hi & _ & Hb). exists (c :: b), d, a. split_and!; try done. constructor; [|done]. intros Hc. destruct (decide (PID c = "")); [done|]. tauto.
      - intros ([|x b] & d & a & [= -> ->] & Hd & Hi & Hne & Hb); [subst; tauto|]. apply Forall_cons in Hb as [_ Hb]. by exists b, d, a. }
    destruct (list_find _ (Names c)) as [[i n]|] eqn:El.
    + assert (hasName wanted c) as Hc. { destruct (decide (hasName wanted c)); [done|]. apply list_find_name in n0. congruence. }
      destruct (decide (PID c = "")) as [He|He]; [rewrite IH; apply Hskip; tauto|]. split.
      * intros <-. by exists [], c, cs.
      * intros ([|x b] & d & a & [= -> ->] & Hd & Hi & Hne & Hb); [done|]. apply Forall_cons in Hb as [Hb _]. by destruct (He (Hb Hc)).
    + apply list_find_name in El. rewrite IH. apply Hskip. tauto.
Qed.

Lemma expectOK_inr {B} (f : Fetched B) b : expectOK f = inr b ↔ f = Got 200 (Some b).
Proof.
  split; [|by intros ->]. destruct f as [| |st body]; try done. cbn. destruct (decide (st ≠ 200)) as [|Hs]; [done|].
  destruct (dec_stable Hs). destruct body; [by intros [= ->]|done].
Qed.

Lemma tailOf_bounds n : 1 <= tailOf n <= 1000 ∧ (1 <= n <= 1000 → tailOf n = n).
Proof. unfold tailOf. cbv zeta. repeat destruct (decide _); lia. Qed.

(** A mebibyte. *)
Definition maxLogBytes : nat := 1024 * 1024.

(** Logs are given exactly when the list and the logs could be fetched and a container
    has the name and an identifier: those of the first such container, between one and a
    thousand lines as asked; of logs that came in frames within a mebibyte, exactly the
    payloads in their order, without headers, and the count of their line ends. *)
Theorem container_logs_exact portainerURL portainerKey listAnswer logsAnswer now params r :
  (readContainerLogsHandler portainerURL portainerKey listAnswer logsAnswer now params = inr r ↔
    ∃ a cs id raw, params = Some a ∧ portainerKey ≠ "" ∧ clName a ≠ "" ∧
      listAnswer (listURL portainerURL (endpointOf (clEndpoint a))) = Got 200 (Some cs) ∧ chosenID (clName a) cs id ∧
      logsAnswer (logsURL portainerURL (endpointOf (clEndpoint a)) id (tailOf (clTail a))) = Got 200 (Some raw) ∧
      r = {| lrName := clName a; Logs := stripDockerLogHeaders (take maxLogBytes raw);
             Lines := Z.of_nat (CountByte (stripDockerLogHeaders (take maxLogBytes raw)) "010"); LTimestamp := formatRFC3339 now |}) ∧
  (∀ n, 1 <= tailOf n <= 1000 ∧ (1 <= n <= 1000 → tailOf n = n)) ∧
  (∀ fs, goodFrames fs → (length (framed fs) ≤ maxLogBytes)%nat → stripDockerLogHeaders (take maxLogBytes (framed fs)) = textOf (mjoin fs.*2)).
Proof.
  split; [|split; [apply tailOf_bounds|intros fs Hfs Hl; rewrite firstn_all2 by done; by apply strip_framed]].
  unfold readContainerLogsHandler. change (1024 * 1024)%nat with maxLogBytes. generalize maxLogBytes. intros limit. split.
  - destruct (decide (portainerKey = "")); [done|]. destruct params as [a|]; [|done]. destruct (decide (clName a = "")); [done|].
    destruct (expectOK (listAnswer _)) as [|cs] eqn:El; [done|]. apply expectOK_inr in El. cbv zeta.
    destruct (decide (findContainerID (clName a) cs = "")) as [|Hid]; [done|]. destruct (expectOK (logsAnswer _)) as [|raw] eqn:Eg; [done|].
    apply expectOK_inr in Eg. intros [= <-]. exists a, cs, (findContainerID (clName a) cs), raw. split_and!; try done. by apply findContainerID_spec.
  - intros (a & cs & id & raw & -> & Hk & Hn & Hl & Hc & Hg & ->). rewrite !decide_False by done. rewrite Hl. cbn [expectOK]. rewrite decide_False by (intros Hx; by apply Hx).
    assert (id ≠ "") as Hid by (by destruct Hc as (? & ? & ? & _ & _ & _ & ? & _)). apply findContainerID_spec in Hc as ->; [|done]. cbv zeta. rewrite decide_False by done.
    by rewrite Hg.
Qed.

Lemma Z_take_drop_ge (n : Z) (l : list ascii) : Z.of_nat (length l) <= n → take (Z.to_nat (Z.min n (Z.of_nat (length l)))) l = l ∧ drop (Z.to_nat (Z.min n (Z.of_nat (length l)))) l = [].
Proof. intros Hn. replace (Z.to_nat _) with (length l) by lia. by rewrite firstn_all, drop_all. Qed.

(** The code means to return logs without headers as they are; the first eight bytes have
    been taken off before it looks.  (A letter as fifth byte announces at least half a
    gibibyte.) *)
Theorem plain_logs_lose_their_start raw rest b0 b1 b2 b3 b4 b5 b6 b7 :
  raw = [b0; b1; b2; b3; b4; b5; b6; b7] ++ rest → (32 ≤ nat_of_ascii b4)%nat → (length rest ≤ maxLogBytes)%nat → stripDockerLogHeaders raw = textOf rest.
Proof.
  intros -> Hb Hl. unfold stripDockerLogHeaders. cbn [app length]. cbn -[take drop frameSize].
  assert (Z.of_nat maxLogBytes = 1048576) as Hm by (unfold maxLogBytes; rewrite Nat2Z.inj_mul; reflexivity).
  assert (536870912 <= frameSize b4 b5 b6 b7) as Hs.
  { unfold frameSize. rewrite lor_bytes by (split; [lia|]; pose proof (λ c, nat_ascii_bounded c) as HB; pose proof (HB b5); pose proof (HB b6); pose proof (HB b7); lia). lia. }
  destruct (Z_take_drop_ge (frameSize b4 b5 b6 b7) rest) as [-> ->]; [lia|]. destruct (length rest); cbn; by destruct rest.
Qed.

(** The endpoint is put into the address as it is: it can lead the request, with the key, to
    another resource of Portainer. *)
Example endpoint_leads_elsewhere :
  listURL "https://portainer/api" (endpointOf "../users?x=") = "https://portainer/api/endpoints/../users?x=/docker/containers/json?all=true".
Proof. reflexivity. Qed.

(** The container whose status is given, and the name it is given with. *)
Definition chosenStatus (wanted : string) (cs : list portainerContainer) (r : containerStatusResult) : Prop :=
  ∃ before c after n, cs = before ++ c :: after ∧ Forall (λ c', ¬ hasName wanted c') before ∧ n ∈ Names c ∧ (n = "/" +:+ wanted ∨ n = wanted) ∧ r = statusOf n c.

Lemma findContainer_Some wanted cs n c : findContainer wanted cs = Some (n, c) → chosenStatus wanted cs (statusOf n c).
Proof.
  induction cs as [|d cs IH]; [done|]. cbn. destruct (list_find _ (Names d)) as [[i m]|] eqn:El.
  - intros [= -> ->]. apply list_find_Some in El as (Hi & Hm & _). apply list_elem_of_lookup_2 in Hi. by exists [], c, cs, n.
  - intros Hf. apply list_find_name in El. destruct (IH Hf) as (b & e & a & m & -> & Hb & Hm & Hn & ->). exists (d :: b), e, a, m. split_and!; try done. by constructor.
Qed.

Lemma findContainer_None wanted cs : findContainer wanted cs = None ↔ Forall (λ c, ¬ hasName wanted c) cs.
Proof.
  induction cs as [|d cs IH]; [done|]. cbn. rewrite Forall_cons, <- IH, <- list_find_name. destruct (list_find _ (Names d)) as [[i m]|]; [|tauto]. split; [done|by intros [? _]].
Qed.

(** The status of a named container is that of the first one in Portainer's list that has
    the name, with or without a slash; it is an error exactly when none has; without a name
    there is one status for each container, in the order of the list. *)
Theorem container_status_exact portainerURL portainerKey listAnswer a cs
    (Hkey : portainerKey ≠ "") (Hlist : listAnswer (listURL portainerURL (endpointOf (csEndpoint a))) = Got 200 (Some cs)) :
  match getContainerStatusHandler portainerURL portainerKey listAnswer (Some a) with
  | inr (EveryContainer l) => csName a = "" ∧ length l = length cs ∧ ∀ i c, cs !! i = Some c → l !! i = Some (statusOf (firstName c) c)
  | inr (OneContainer r) => csName a ≠ "" ∧ chosenStatus (csName a) cs r
  | inl e => csName a ≠ "" ∧ e = ContainerNotFound (csName a) ∧ Forall (λ c, ¬ hasName (csName a) c) cs
  end.
Proof.
  unfold getContainerStatusHandler. rewrite decide_False, Hlist by done. cbn [expectOK]. rewrite (decide_False (P := 200 ≠ 200)) by (intros Hx; by apply Hx).
  destruct (decide (csName a = "")) as [He|He].
  - split; [done|]. split; [by rewrite length_fmap|]. intros i c Hi. by rewrite list_lookup_fmap, Hi.
  - destruct (findContainer (csName a) cs) as [[n c]|] eqn:Ef.
    + split; [done|]. by apply findContainer_Some in Ef.
    + split_and!; try done. by apply findContainer_None.
Qed.

(** ** Names of variables *)

(** A variable is named by what stands before its first equals sign. *)
Lemma envName_spec pair k : envName pair = Some k ↔ k ≠ "" ∧ ∃ v, pair = k +:+ "=" +:+ v ∧ ∀ x y, k ≠ x +:+ String "=" y.
Proof.
  unfold envName. split.
  - destruct (Cut pair "=") as [[a b]|] eqn:Ec; [|done]. destruct (decide (a = "")); [done|]. intros [= ->]. apply Cut_char_Some in Ec as [-> Hx].
    split; [done|]. by exists b.
  - intros (Hk & v & -> & Hx). rewrite (proj2 (Cut_char_Some _ "=" k v)) by done. by rewrite decide_False.
Qed.

(** list_env answers the names of the variables in order, each as often as it is set, and
    nothing of their values: environments with the same names get the same answer. *)
Theorem list_env_exact `{SliceSort, !SliceSortLaws} environ :
  match listenvHandler environ with
  | inr (names, n) => StronglySorted String.le names ∧ names ≡ₚ omap envName environ ∧ n = Z.of_nat (length names) ∧ names ≠ []
  | inl e => e = NoVariables ∧ omap envName environ = []
  end ∧
  (∀ environ', envName <$> environ' = envName <$> environ → listenvHandler environ' = listenvHandler environ).
Proof.
  split.
  - unfold listenvHandler. cbv zeta. pose proof (sort_perm String.le (omap envName environ)) as Hp. pose proof (sort_sorted String.le (omap envName environ)) as Hs.
    destruct (decide _) as [He|He]; [|by split_and!]. split; [done|]. rewrite He in Hp. symmetry in Hp; by apply Permutation_nil_r in Hp.
  - intros environ' He. unfold listenvHandler. enough (omap envName environ' = omap envName environ) as -> by done.
    revert environ' He. induction environ as [|p l IH]; intros [|p' l'] He; try done. cbn in He. injection He as Hp Hl. cbn. rewrite Hp, (IH _ Hl). done.
Qed.

(** ** Web results *)

Lemma firstResults_take i m rs acc : firstResults i m rs acc = acc ++ take (Z.to_nat (m - i)) rs.
Proof.
  revert i acc. induction rs as [|r rs IH]; intros i acc; cbn; [by rewrite take_nil, app_nil_r|].
  destruct (decide (m <= i)) as [Hm|Hm]; [replace (Z.to_nat (m - i)) with 0%nat by lia; by rewrite app_nil_r|].
  rewrite IH. replace (Z.to_nat (m - i)) with (S (Z.to_nat (m - (i + 1)))) by lia. by rewrite <- app_assoc.
Qed.

(** A web search answers the first results of the engine, as many as asked for but between
    one and twenty (five without a wish), and says how many there are. *)
Theorem web_search_exact env searxng params out :
  webSearchHandler env searxng params = inr out ↔
  ∃ i rs, params = Some i ∧ wsQuery i ≠ "" ∧ searxng (searxngBase env +:+ "/search") (searchParams i) = Got 200 (Some rs) ∧
    woResults out = take (Z.to_nat (maxResultsOf (wsMaxResults i))) rs ∧ woQuery out = wsQuery i ∧
    woNumber out = Z.of_nat (length (woResults out)) ∧ 1 <= maxResultsOf (wsMaxResults i) <= 20.
Proof.
  unfold webSearchHandler. split.
  - destruct params as [i|]; [|done]. destruct (decide (wsQuery i = "")); [done|]. destruct (expectOK _) as [|rs] eqn:Ee; [done|]. apply expectOK_inr in Ee.
    cbv zeta. rewrite firstResults_take, Z.sub_0_r. intros [= <-]. exists i, rs. cbn. split_and!; try done;
      unfold maxResultsOf; destruct (wsMaxResults i); repeat destruct (decide _); lia.
  - intros (i & rs & -> & Hq & -> & Hr & Hwq & Hn & _). rewrite decide_False by done. cbn [expectOK]. rewrite decide_False by (intros Hx; by apply Hx).
    cbv zeta. rewrite firstResults_take, Z.sub_0_r. cbn [app]. destruct out. cbn in *. subst. done.
Qed.

(** ** Trying it *)

#[local] Instance observe_sort : SliceSort := mergeSlice.
#[local] Instance observe_sort_laws : SliceSortLaws := mergeSlice_laws.

Definition observed_container (id : string) (names : list string) : portainerContainer := {|
  PID := id; Names := names; PState := "running"; PStatus := "Up 2 hours"; PImage := "redis:7"; PCreated := 1709200000; Ports := "[]"
|}.

Definition observed_containers : list portainerContainer := [observed_container "" ["/cache"]; observed_container "b2" ["/web"; "/cache"]].

Definition observed_list (url : string) : Fetched (list portainerContainer) :=
  if decide (url = "https://p/api/endpoints/3/docker/containers/json?all=true") then Got 200 (Some observed_containers) else Got 404 None.

Lemma container_status_exact_witness :
  getContainerStatusHandler "https://p/api/" "key" observed_list (Some {| csName := "cache"; csEndpoint := "" |}) =
    inr (OneContainer {| crName := "cache"; crState := "running"; crStatus := "Up 2 hours"; crImage := "redis:7"; crCreated := "2024-02-29T09:46:40Z"; crPorts := "[]" |}) ∧
  chosenStatus "cache" observed_containers (statusOf "/cache" (observed_container "" ["/cache"])).
Proof.
  split; [by vm_compute|].
  destruct (container_status_exact "https://p/api/" "key" observed_list {| csName := "cache"; csEndpoint := "" |} observed_containers ltac:(done) ltac:(by vm_compute)) as [_ H].
  exact H.
Defined.

Example logs_of_second_container :
  readContainerLogsHandler "https://p/api/" "key" observed_list (λ url,
    if decide (url = "https://p/api/endpoints/3/docker/containers/b2/logs?stdout=1&stderr=1&tail=1000&timestamps=1")
    then Got 200 (Some (framed [("001"%char, ["a"; "010"]%char); ("002"%char, ["b"]%char)])) else NoAnswer) 0
    (Some {| clName := "cache"; clTail := 5000; clEndpoint := "" |}) =
  inr {| lrName := "cache"; Logs := "a" +:+ nl +:+ "b"; Lines := 1; LTimestamp := "0001-01-01T00:00:00Z" |}.
Proof. by vm_compute. Qed.

Lemma list_env_exact_witness :
  listenvHandler ["PATH=/bin"; "HOME=/root"; "=odd"; "none"] = inr (["HOME"; "PATH"], 2) ∧
  (∀ environ', envName <$> environ' = envName <$> ["PATH=/bin"; "HOME=/root"] → listenvHandler environ' = listenvHandler ["PATH=/bin"; "HOME=/root"]).
Proof. split; [by vm_compute|]. apply (list_env_exact ["PATH=/bin"; "HOME=/root"]). Defined.
