(* ===== verification/Delivery.v ===== *)
(** * Delivery: webhooks

    internal/webhook/dispatcher.go (the events of runs, directly or through the job queue of
    [Jobs]) and internal/usage/webhook.go (the usage event of a completed run).  The receiver
    is outside: it answers by the requests it has got so far.  Encoding an event, decoding
    it, the keyed hash, and which addresses a request can be made of are arguments. *)
From S2P Require Import Prelude GoTime Types Jobs.

Definition EventRunStarted : string := "run.started".
Definition EventRunCompleted : string := "run.completed".
Definition EventRunFailed : string := "run.failed".
Definition EventRunStep : string := "run.step".

Record WebhookEvent := {
  wEvent : string; wEventID : string; wTenantID : string; wRunID : string; wAgentID : string; wTimestamp : string; wData : gmap string any
}.

Record Dispatcher := { dURL : string; dSecret : string; dStepEvents : bool; dQueue : bool }.

Record PostRequest := { prURL : string; prSignature : option string; prBody : string }.

(** How a delivery ended, as it is logged. *)
Inductive Ended := Delivered | Exhausted | GivenUp.

(** What was sent to the receiver, oldest first, and how long was slept. *)
Record Wire := { sentPosts : list PostRequest; slept : Duration }.

Definition sleep (d : Duration) (w : Wire) : Wire := {| sentPosts := sentPosts w; slept := slept w + d |}.

(** The status of an answer, or none. *)
Definition success (reply : option Z) : Prop := match reply with Some st => 200 <= st < 300 | None => False end.

#[global] Instance success_dec reply : Decision (success reply).
Proof. destruct reply; cbn; apply _. Defined.

(** ** Addresses *)

(** [scheme] is what [url.Parse] makes of the address. *)
Definition validateWebhookURL (scheme : string → option string) (raw : string) : bool :=
  match scheme raw with None => false | Some s => bool_decide (s = "http" ∨ s = "https") end.

Definition New (scheme : string → option string) (rawURL secret : string) (stepEvents : bool) : option Dispatcher :=
  if decide (rawURL = "") then None
  else if validateWebhookURL scheme rawURL then Some {| dURL := rawURL; dSecret := secret; dStepEvents := stepEvents; dQueue := false |} else None.

Definition NewFromEnv (scheme : string → option string) (getenv : string → string) : option Dispatcher :=
  let url := getenv "AGENTOS_WEBHOOK_URL" in
  let url := if decide (url = "") then getenv "AGENTOS_USAGE_WEBHOOK_URL" else url in
  if decide (url = "") then None
  else if validateWebhookURL scheme url then
    Some {| dURL := url; dSecret := getenv "AGENTOS_WEBHOOK_SECRET"; dStepEvents := bool_decide (getenv "AGENTOS_WEBHOOK_STEP_EVENTS" = "true"); dQueue := false |}
  else None.

Definition WithQueue (d : option Dispatcher) : option Dispatcher :=
  (λ d, {| dURL := dURL d; dSecret := dSecret d; dStepEvents := dStepEvents d; dQueue := true |}) <$> d.

Section delivery.
Context (marshal : WebhookEvent → option string) (unmarshal : string → option WebhookEvent).
Context (hmacHex : string → string → string) (requestable : string → bool) (receiver : list PostRequest → option Z).

Definition Sign (secret body : string) : string := "sha256=" +:+ hmacHex secret body.

Definition post (r : PostRequest) (w : Wire) : option Z * Wire :=
  let sent := sentPosts w ++ [r] in (receiver sent, {| sentPosts := sent; slept := slept w |}).

Definition backoffs : list Duration := [0; 1 * Second; 5 * Second; 25 * Second].

(** The loop over the waiting times. *)
Fixpoint deliverLoop (d : Dispatcher) (body : string) (backoffs : list Duration) (w : Wire) : Ended * Wire :=
  match backoffs with
  | [] => (Exhausted, w)
  | b :: bs =>
      let w := if decide (0 < b) then sleep b w else w in
      if requestable (dURL d) then
        let req := {| prURL := dURL d; prSignature := if decide (dSecret d = "") then None else Some (Sign (dSecret d) body); prBody := body |} in
        let '(reply, w) := post req w in
        if decide (success reply) then (Delivered, w) else deliverLoop d body bs w
      else (GivenUp, w)
  end.

Definition deliver (d : Dispatcher) (evt : WebhookEvent) (w : Wire) : Ended * Wire :=
  match marshal evt with None => (GivenUp, w) | Some body => deliverLoop d body backoffs w end.

(** The error is that of decoding; how the delivery ended is dropped. *)
Definition DeliverJob (d : Dispatcher) (job : Job) (w : Wire) : option string * Wire :=
  match unmarshal (Payload job) with
  | None => (Some "unmarshal", w)
  | Some evt => (None, (deliver d evt w).2)
  end.

(** [Send]: what happens to the event: nothing, a job, or a delivery in the background. *)
Definition Send {Q} `{Queue Q} (d : option Dispatcher) (evt : WebhookEvent) (id : string) (now : Time) (q : Q) (w : Wire) : Q * Wire :=
  match d with
  | None => (q, w)
  | Some d =>
      if decide (wEvent evt = EventRunStep ∧ dStepEvents d = false) then (q, w)
      else if dQueue d then ((Enqueue id "webhook" (marshal evt) [] now q).2, w)
      else (q, (deliver d evt w).2)
  end.

(** ** The usage event (internal/usage/webhook.go) *)

Record WebhookConfig := { wcURL : string; wcTimeout : Duration }.

Record RunCompletedEvent := {
  rcTenantID : string; rcRunID : string; rcModel : string; rcInputTokens : Z; rcOutputTokens : Z; rcDurationMs : Z; rcTimestamp : string
}.

Definition usageBackoffs : list Duration := [1 * Second; 5 * Second; 25 * Second].

Inductive UsageEnded := UDisabled | UNotMarshalled | UDelivered | UExhausted | UCancelled.

(** [deliverWebhook]: a request that cannot be made is not sent. *)
Definition deliverWebhook (url body : string) (w : Wire) : bool * Wire :=
  if requestable url then
    let '(reply, w) := post {| prURL := url; prSignature := None; prBody := body |} w in (bool_decide (success reply), w)
  else (false, w).

(** The attempts; [cancelled] says at each wait whether the context ends before the time is over. *)
Fixpoint usageLoop (url body : string) (cancelled : list bool) (waits : list Duration) (w : Wire) : UsageEnded * Wire :=
  let '(ok, w) := deliverWebhook url body w in
  if ok then (UDelivered, w)
  else match waits with
  | [] => (UExhausted, w)
  | d :: waits =>
      match cancelled with
      | true :: _ => (UCancelled, w)
      | _ => usageLoop url body (tail cancelled) waits (sleep d w)
      end
  end.

Definition SendRunCompletedEvent (marshalUsage : RunCompletedEvent → option string) (cfg : WebhookConfig) (event : RunCompletedEvent) (cancelled : list bool) (w : Wire) :
    UsageEnded * Wire :=
  if decide (wcURL cfg = "") then (UDisabled, w)
  else match marshalUsage event with
  | None => (UNotMarshalled, w)
  | Some body => usageLoop (wcURL cfg) body cancelled usageBackoffs w
  end.

(** ** How a delivery goes *)

Definition sumDurations (l : list Duration) : Duration := foldr Z.add 0 l.

Lemma sum_take_cons n d l : sumDurations (take (S n) (d :: l)) = d + sumDurations (take n l).
Proof. done. Qed.

Lemma sum_take_0 l : sumDurations (take 0 l) = 0.
Proof. done. Qed.

(** The requests after [before]: [n] copies of one request, of which only the last may have
    been answered with a success. *)
Definition attempts (r : PostRequest) (before : list PostRequest) (n : nat) (last_ok : bool) : Prop :=
  ∀ k, (k < n)%nat → success (receiver (before ++ replicate (S k) r)) ↔ (S k = n ∧ last_ok = true).

Lemma attempts_cons r before n ok : ¬ success (receiver (before ++ [r])) → attempts r (before ++ [r]) (S n) ok → attempts r before (S (S n)) ok.
Proof.
  intros Hr Ha [|k] Hk; cbn [replicate].
  - split; [done|]. lia.
  - specialize (Ha k ltac:(lia)). rewrite <- app_assoc in Ha. cbn [app] in Ha. change (r :: replicate (S k) r) with (replicate (S (S k)) r) in *.
    rewrite Ha. split; intros [? ?]; split; (done || lia).
Qed.

Definition requestOf (d : Dispatcher) (body : string) : PostRequest :=
  {| prURL := dURL d; prSignature := if decide (dSecret d = "") then None else Some (Sign (dSecret d) body); prBody := body |}.

Lemma deliverLoop_spec d body bs w : requestable (dURL d) = true → Forall (λ b, 0 <= b) bs → bs ≠ [] →
  ∃ n, (1 ≤ n ≤ length bs)%nat ∧ sentPosts (deliverLoop d body bs w).2 = sentPosts w ++ replicate n (requestOf d body) ∧
    slept (deliverLoop d body bs w).2 = slept w + sumDurations (take n bs) ∧
    (((deliverLoop d body bs w).1 = Delivered ∧ attempts (requestOf d body) (sentPosts w) n true) ∨
     ((deliverLoop d body bs w).1 = Exhausted ∧ n = length bs ∧ attempts (requestOf d body) (sentPosts w) n false)).
Proof.
  intros Hreq Hpos Hne. revert w. induction Hpos as [|b bs Hb Hpos IH]; intros w; [done|]. cbn [deliverLoop]. rewrite Hreq. cbv zeta.
  set (w' := if decide (0 < b) then sleep b w else w).
  assert (sentPosts w' = sentPosts w ∧ slept w' = slept w + b) as [Hs Hsl] by (subst w'; destruct (decide _); cbn; split; done || lia).
  clearbody w'. fold (requestOf d body). unfold post. rewrite Hs. set (w'' := {| sentPosts := _; slept := slept w' |}).
  destruct (decide (success _)) as [Hok|Hok].
  - exists 1%nat. cbn [fst snd length]. split; [lia|]. subst w''. cbn -[take sumDurations Z.add]. split; [done|]. split; [rewrite ?sum_take_cons, sum_take_0; lia|]. left. split; [done|].
    intros k Hk. replace k with 0%nat by lia. by split.
  - destruct bs as [|b' bs'].
    + exists 1%nat. cbn -[take sumDurations Z.add]. split; [lia|]. split; [done|]. split; [rewrite sum_take_cons, sum_take_0; lia|]. right. split; [done|]. split; [done|]. intros k Hk. replace k with 0%nat by lia. cbn. split; [done|]. by intros [].
    + destruct (IH ltac:(done) w'') as (n & Hn & H1 & H2 & H3). exists (S n). cbn [length] in *. split; [lia|].
      rewrite H1, H2. subst w''. cbn [sentPosts slept] in *. rewrite <- app_assoc. split; [done|]. split; [rewrite sum_take_cons, Hsl; symmetry; apply Z.add_assoc|].
      destruct n as [|n]; [lia|]. destruct H3 as [[He Ha]|(He & Hl & Ha)]; [left|right]; split; [done| |done|]; [by apply attempts_cons|].
      split; [lia|]. by apply attempts_cons.
Qed.

Lemma usageLoop_spec url body cancelled ds w : requestable url = true → ∃ n, (n ≤ length ds)%nat ∧
  let r := {| prURL := url; prSignature := None; prBody := body |} in
  sentPosts (usageLoop url body cancelled ds w).2 = sentPosts w ++ replicate (S n) r ∧
  slept (usageLoop url body cancelled ds w).2 = slept w + sumDurations (take n ds) ∧
  match (usageLoop url body cancelled ds w).1 with
  | UDelivered => attempts r (sentPosts w) (S n) true
  | UExhausted => n = length ds ∧ attempts r (sentPosts w) (S n) false
  | UCancelled => cancelled !! n = Some true ∧ attempts r (sentPosts w) (S n) false
  | _ => False
  end.
Proof.
  intros Hreq. cbv zeta. set (r := {| prURL := url; prSignature := None; prBody := body |}). revert cancelled w.
  induction ds as [|d ds IH]; intros cancelled w; cbn [usageLoop]; unfold deliverWebhook; rewrite Hreq; unfold post; fold r; case_bool_decide as Hok.
  - exists 0%nat. cbn -[take sumDurations Z.add]. split; [lia|]. split; [done|]. split; [rewrite sum_take_0; lia|]. intros k Hk. replace k with 0%nat by lia. by split.
  - exists 0%nat. cbn -[take sumDurations Z.add]. split; [lia|]. split; [done|]. split; [rewrite sum_take_0; lia|]. split; [done|]. intros k Hk. replace k with 0%nat by lia. cbn. split; [done|]. by intros [].
  - exists 0%nat. cbn -[take sumDurations Z.add]. split; [lia|]. split; [done|]. split; [rewrite sum_take_0; lia|]. intros k Hk. replace k with 0%nat by lia. by split.
  - destruct cancelled as [|[] cancelled].
    2: { exists 0%nat. cbn -[take sumDurations Z.add]. split; [lia|]. split; [done|]. split; [rewrite sum_take_0; lia|]. split; [done|]. intros k Hk. replace k with 0%nat by lia. cbn. split; [done|]. by intros []. }
    1: destruct (IH [] (sleep d {| sentPosts := sentPosts w ++ [r]; slept := slept w |})) as (n & Hn & H1 & H2 & H3).
    2: destruct (IH cancelled (sleep d {| sentPosts := sentPosts w ++ [r]; slept := slept w |})) as (n & Hn & H1 & H2 & H3).
    all: exists (S n); cbn [length tail]; split; [lia|]; rewrite H1, H2; cbn [sentPosts slept sleep] in *; rewrite <- app_assoc;
      split; [done|]; split; [rewrite sum_take_cons; symmetry; apply Z.add_assoc|].
    all: destruct (usageLoop _ _ _ _ _).1; [done|done|by apply attempts_cons|..]; destruct H3 as [Hc H3]; (split; [|by apply attempts_cons]); [lia|done].
Qed.

(** A delivery sends between one and four copies of one signed request and stops at the
    first that is answered with a success, having slept the back-offs up to there (31 seconds
    for all four); it ends exhausted only after four requests without a success, and gives up
    without sending only when no request can be made. *)
Theorem webhook_delivery_exact d evt w :
  let '(ended, w') := deliver d evt w in
  match marshal evt with
  | Some body =>
      if requestable (dURL d) then
        ∃ n, (1 ≤ n ≤ 4)%nat ∧ sentPosts w' = sentPosts w ++ replicate n (requestOf d body) ∧
          slept w' = slept w + sumDurations (take n backoffs) ∧ slept w' <= slept w + 31 * Second ∧
          ((ended = Delivered ∧ attempts (requestOf d body) (sentPosts w) n true) ∨
           (ended = Exhausted ∧ n = 4%nat ∧ attempts (requestOf d body) (sentPosts w) n false))
      else ended = GivenUp ∧ w' = w
  | None => ended = GivenUp ∧ w' = w
  end.
Proof.
  unfold deliver. destruct (marshal evt) as [body|]; [|done]. destruct (requestable (dURL d)) eqn:Hr.
  - pose proof (deliverLoop_spec d body backoffs w Hr ltac:(repeat constructor; done) ltac:(done)) as (n & Hn & H1 & H2 & H3).
    destruct (deliverLoop d body backoffs w) as [ended w']. cbn [fst snd] in *. exists n. split_and!; try done; [apply Hn..|].
    rewrite H2. destruct Hn as [H0 H4]. cbn [length backoffs] in H4.
    destruct n as [|[|[|[|[|n]]]]]; try lia; apply Z.add_le_mono_l; by vm_compute.
  - unfold backoffs. cbn [deliverLoop]. rewrite Hr. by destruct (decide _).
Qed.

(** The usage event goes the same way: at most four requests, after the first a second,
    five and twenty-five seconds; between attempts it ends when the context does. *)
Theorem usage_event_delivery_exact marshalUsage cfg event cancelled w body
    (Hurl : wcURL cfg ≠ "") (Hbody : marshalUsage event = Some body) (Hreq : requestable (wcURL cfg) = true) :
  let '(ended, w') := SendRunCompletedEvent marshalUsage cfg event cancelled w in
  let r := {| prURL := wcURL cfg; prSignature := None; prBody := body |} in
  ∃ n, (n ≤ 3)%nat ∧ sentPosts w' = sentPosts w ++ replicate (S n) r ∧ slept w' = slept w + sumDurations (take n usageBackoffs) ∧
    match ended with
    | UDelivered => attempts r (sentPosts w) (S n) true
    | UExhausted => n = 3%nat ∧ attempts r (sentPosts w) (S n) false
    | UCancelled => cancelled !! n = Some true ∧ attempts r (sentPosts w) (S n) false
    | _ => False
    end.
Proof.
  unfold SendRunCompletedEvent. rewrite decide_False, Hbody by done.
  pose proof (usageLoop_spec (wcURL cfg) body cancelled usageBackoffs w Hreq) as (n & Hn & H1 & H2 & H3).
  destruct (usageLoop _ _ _ _ _) as [ended w']. exists n. by split_and!.
Qed.

(** A job whose event could not be delivered is reported as done (the comment of DeliverJob
    says that it returns an error when delivery fails). *)
Theorem undelivered_job_is_done d job w : is_Some (unmarshal (Payload job)) → (DeliverJob d job w).1 = None.
Proof. intros [evt He]. unfold DeliverJob. by rewrite He. Qed.
End delivery.

(** A dispatcher is made exactly for an address of the web schemes, from the environment
    with the usage address as a second choice; without one nothing is ever sent. *)
Theorem dispatcher_made scheme getenv :
  match NewFromEnv scheme getenv with
  | Some d => dURL d ≠ "" ∧ (dURL d = getenv "AGENTOS_WEBHOOK_URL" ∨ getenv "AGENTOS_WEBHOOK_URL" = "" ∧ dURL d = getenv "AGENTOS_USAGE_WEBHOOK_URL") ∧
      (scheme (dURL d) = Some "http" ∨ scheme (dURL d) = Some "https") ∧ dQueue d = false ∧
      New scheme (dURL d) (dSecret d) (dStepEvents d) = Some d
  | None => ∀ marshal hmacHex requestable receiver Q `(Queue Q) evt id now (q : Q) w,
      Send marshal hmacHex requestable receiver (NewFromEnv scheme getenv) evt id now q w = (q, w)
  end.
Proof.
  destruct (NewFromEnv scheme getenv) as [d|] eqn:Ed; [|done]. unfold NewFromEnv in Ed. cbv zeta in Ed.
  destruct (decide (getenv "AGENTOS_WEBHOOK_URL" = "")) as [He|He].
  all: destruct (decide (_ = "")) as [|Hn]; [done|]; destruct (validateWebhookURL scheme _) eqn:Ev; [|done]; injection Ed as <-; cbn [dURL dQueue dSecret dStepEvents].
  all: split; [done|]; split; [by auto|]; split; [|split; [done|unfold New; by rewrite decide_False, Ev by done]].
  all: unfold validateWebhookURL in Ev; destruct (scheme _) as [s|]; [|done]; apply bool_decide_eq_true_1 in Ev as [-> | ->]; auto.
Qed.

(** ** Trying it *)

Definition sample_wevent : WebhookEvent := {|
  wEvent := EventRunCompleted; wEventID := "e1"; wTenantID := "acme"; wRunID := "r1"; wAgentID := "bot"; wTimestamp := ""; wData := ∅
|}.

Definition sample_dispatcher : Dispatcher := {| dURL := "https://hooks/x"; dSecret := "s"; dStepEvents := false; dQueue := true |}.

(** A receiver that answers the third request. *)
Definition third_time (sent : list PostRequest) : option Z := if decide (length sent = 3)%nat then Some 204 else if decide (length sent = 1)%nat then None else Some 503.

Example delivered_at_third : deliver (λ _, Some "{}") (λ _ b, b) (λ _, true) third_time sample_dispatcher sample_wevent {| sentPosts := []; slept := 0 |} =
  (Delivered, {| sentPosts := replicate 3 {| prURL := "https://hooks/x"; prSignature := Some "sha256={}"; prBody := "{}" |}; slept := 6 * Second |}).
Proof. by vm_compute. Qed.

Lemma usage_event_delivery_exact_witness : ∃ n, (n ≤ 3)%nat ∧
  slept (SendRunCompletedEvent (λ _, true) third_time (λ _, Some "{}") {| wcURL := "https://hooks/u"; wcTimeout := 0 |}
    {| rcTenantID := "acme"; rcRunID := "r1"; rcModel := "m"; rcInputTokens := 1; rcOutputTokens := 2; rcDurationMs := 3; rcTimestamp := "" |} [] {| sentPosts := []; slept := 0 |}).2 =
  0 + sumDurations (take n usageBackoffs).
Proof.
  destruct (usage_event_delivery_exact (λ _, true) third_time (λ _, Some "{}") {| wcURL := "https://hooks/u"; wcTimeout := 0 |}
    {| rcTenantID := "acme"; rcRunID := "r1"; rcModel := "m"; rcInputTokens := 1; rcOutputTokens := 2; rcDurationMs := 3; rcTimestamp := "" |} [] {| sentPosts := []; slept := 0 |} "{}"
    ltac:(done) ltac:(done) ltac:(done)) as (n & Hn & _ & Hs & _).
  exists n. split; [exact Hn|exact Hs].
Defined.

(** The worker of the job queue takes the job of an event that no one received off the
    queue; a receiver in a private network is accepted as an address. *)
Example failed_delivery_completes_job :
  let q : MemoryQueue := (Enqueue "j1" "webhook" (Some "{}") [] 0 []).2 in
  let handlers : Handlers := λ _, Some (λ job, (DeliverJob (λ _, Some "{}") (λ _, Some sample_wevent) (λ _ b, b) (λ _, true) (λ _, None) sample_dispatcher job {| sentPosts := []; slept := 0 |}).1) in
  (deliver (λ _, Some "{}") (λ _ b, b) (λ _, true) (λ _, None) sample_dispatcher sample_wevent {| sentPosts := []; slept := 0 |}).1 = Exhausted ∧
  (Status <$> jobOf (poll handlers 1 2 q) "j1") = Some StatusCompleted ∧
  is_Some (New (λ u, Some "http") "http://169.254.169.254/latest" "" false).
Proof. split; [by vm_compute|]. split; [by vm_compute|]. eexists. by vm_compute. Qed.
