(* ===== verification/Health.v ===== *)
(** * Health: checks, probes and readiness

    internal/health/checker.go and gpu.go (the health and readiness endpoints of every
    service) and mcp/tools/health.go (the get_health tool).  What the probed services answer,
    and how long they take, is an argument. *)
From S2P Require Import Prelude GoTime GoStrings GoText GoCalendar Knowledge Observe.

Inductive HealthStatus := StatusHealthy | StatusDegraded | StatusUnhealthy.

#[global] Instance HealthStatus_eq_dec : EqDecision HealthStatus.
Proof. solve_decision. Defined.

(** Why a check is not healthy; the texts are built from these. *)
Inductive HealthReason := NoReason | CannotRequest | RequestError | ServerError (status : Z) | PingError
  | VRAMQueryFailed | VRAMHighUnknown | VRAMHighIdle | ServiceStarting.

Record CheckResult := { ckStatus : HealthStatus; LatencyMs : Z; ckReason : HealthReason }.

Record HealthResponse := { hrStatus : HealthStatus; hrVersion : string; hrChecks : gmap string CheckResult }.

(** A check runs against the outside [W]. *)
Record Check_ {W : Type} := { ckName : string; Required : bool; Fn : W → CheckResult }.
Arguments Check_ : clear implicits.

Record Checker {W : Type} := { version : string; checks : list (Check_ W); ready : bool }.
Arguments Checker : clear implicits.

Section checker.
Context {W : Type}.

Definition NewChecker (version : string) : Checker W := {| version := version; checks := []; ready := false |}.

Definition RegisterCheck (check : Check_ W) (c : Checker W) : Checker W :=
  {| version := version c; checks := checks c ++ [check]; ready := ready c |}.

Definition SetReady (r : bool) (c : Checker W) : Checker W := {| version := version c; checks := checks c; ready := r |}.

(** One round of the loop over the checks. *)
Definition addResult (w : W) (resp : HealthResponse) (ch : Check_ W) : HealthResponse :=
  let result := Fn ch w in
  {| hrStatus := if decide (ckStatus result ≠ StatusHealthy) then
                   if Required ch then StatusUnhealthy
                   else if decide (hrStatus resp = StatusHealthy) then StatusDegraded else hrStatus resp
                 else hrStatus resp;
     hrVersion := hrVersion resp; hrChecks := <[ckName ch := result]> (hrChecks resp) |}.

Definition Run (c : Checker W) (w : W) : HealthResponse :=
  foldl (addResult w) {| hrStatus := StatusHealthy; hrVersion := version c; hrChecks := ∅ |} (checks c).

Definition codeOf (s : HealthStatus) : Z := if decide (s = StatusUnhealthy) then 503 else 200.

(** A status code, with a body for GET. *)
Definition HealthHandler (c : Checker W) (method : string) (w : W) : Z * option HealthResponse :=
  if decide (method ≠ "GET") then (405, None) else let resp := Run c w in (codeOf (hrStatus resp), Some resp).

Definition ReadyHandler (c : Checker W) (method : string) (w : W) : Z * option HealthResponse :=
  if decide (method ≠ "GET") then (405, None)
  else if ready c then let resp := Run c w in (codeOf (hrStatus resp), Some resp)
  else (503, Some {| hrStatus := StatusUnhealthy; hrVersion := version c;
                     hrChecks := {["startup" := {| ckStatus := StatusUnhealthy; LatencyMs := 0; ckReason := ServiceStarting |}]} |}).
End checker.

(** ** The checks *)

(** What a probe of an address gives, in how many milliseconds. *)
Inductive Probe := ProbeBadURL | ProbeFailed (ms : Z) | ProbeStatus (ms status : Z).

Definition probed (p : Probe) : CheckResult :=
  match p with
  | ProbeBadURL => {| ckStatus := StatusUnhealthy; LatencyMs := 0; ckReason := CannotRequest |}
  | ProbeFailed ms => {| ckStatus := StatusUnhealthy; LatencyMs := ms; ckReason := RequestError |}
  | ProbeStatus ms status =>
      if decide (500 <= status) then {| ckStatus := StatusUnhealthy; LatencyMs := ms; ckReason := ServerError status |}
      else {| ckStatus := StatusHealthy; LatencyMs := ms; ckReason := NoReason |}
  end.

Definition ProviderCheck (name : string) (required : bool) (baseURL : string) : Check_ (string → Probe) :=
  {| ckName := name; Required := required; Fn := λ net : string → Probe, probed (net (baseURL +:+ "/models")) |}.

(** The outside is the database: whether the ping fails, and in how many milliseconds. *)
Definition DBCheck (name : string) (required : bool) : Check_ (bool * Z) :=
  {| ckName := name; Required := required;
     Fn := λ db : bool * Z, if db.1 then {| ckStatus := StatusUnhealthy; LatencyMs := db.2; ckReason := PingError |}
              else {| ckStatus := StatusHealthy; LatencyMs := db.2; ckReason := NoReason |} |}.

Record promQueryResponse := { pqStatus : string; pqValues : list (option string) }.

Section gpu.
(** Floating-point numbers: how they are read, and the two comparisons with 0.90 and 1. *)
Context {F : Type} (parseFloat : string → option F) (over90 lessThan1 : F → bool).

(** The value of the first result; [None] is any error. *)
Definition queryPrometheusScalar (net : string → Fetched promQueryResponse) (baseURL promql : string) : option F :=
  match expectOK (net (baseURL +:+ "/api/v1/query?query=" +:+ QueryEscape promql)) with
  | inl _ => None
  | inr r =>
      if decide (pqStatus r ≠ "success") then None
      else match pqValues r with
      | Some v :: _ => parseFloat v
      | _ => None
      end
  end.

Definition vramQuery : string := "avg(DCGM_FI_DEV_FB_USED / (DCGM_FI_DEV_FB_USED + DCGM_FI_DEV_FB_FREE))".
Definition activeQuery : string := "sum(vllm:num_requests_running) or vector(0)".

(** The outside is Prometheus and the latencies at the two points where they are taken. *)
Definition GPUVRAMCheck (name : string) (required : bool) (prometheusURL : string) : Check_ ((string → Fetched promQueryResponse) * (Z * Z)) :=
  {| ckName := name; Required := required;
     Fn := λ w : (string → Fetched promQueryResponse) * (Z * Z),
       match queryPrometheusScalar w.1 prometheusURL vramQuery with
       | None => {| ckStatus := StatusDegraded; LatencyMs := w.2.1; ckReason := VRAMQueryFailed |}
       | Some vramUtil =>
           match queryPrometheusScalar w.1 prometheusURL activeQuery with
           | None =>
               if over90 vramUtil then {| ckStatus := StatusDegraded; LatencyMs := w.2.2; ckReason := VRAMHighUnknown |}
               else {| ckStatus := StatusHealthy; LatencyMs := w.2.2; ckReason := NoReason |}
           | Some activeReqs =>
               if over90 vramUtil && lessThan1 activeReqs then {| ckStatus := StatusDegraded; LatencyMs := w.2.2; ckReason := VRAMHighIdle |}
               else {| ckStatus := StatusHealthy; LatencyMs := w.2.2; ckReason := NoReason |}
           end
       end |}.
End gpu.

(** ** The get_health tool (mcp/tools/health.go) *)

Record healthResponse := { hAgentOS : CheckResult; hVLLM : CheckResult; hClassifier : CheckResult; hTimestamp : string }.

(** The models endpoint next to the chat endpoint that is configured. *)
Definition classifierHealthURL (classifierURL : string) : string :=
  let suffix := "/v1/chat/completions" in
  let idx := Z.of_nat (String.length classifierURL) - Z.of_nat (String.length suffix) in
  if decide (0 < idx ∧ dropBytes (Z.to_nat idx) classifierURL = suffix) then takeBytes (Z.to_nat idx) classifierURL +:+ "/v1/models" else classifierURL.

Definition healthHandler (modelBaseURL classifierURL : string) (net : string → Probe) (now : Time) : healthResponse := {|
  hAgentOS := {| ckStatus := StatusHealthy; LatencyMs := 0; ckReason := NoReason |};
  hVLLM := probed (net (modelBaseURL +:+ "/models"));
  hClassifier := probed (net (classifierHealthURL classifierURL));
  hTimestamp := formatRFC3339 now
|}.

(** ** What they report *)

Section facts.
Context {W : Type}.

Definition failing (w : W) (ch : Check_ W) : Prop := ckStatus (Fn ch w) ≠ StatusHealthy.

#[local] Instance failing_dec w ch : Decision (failing w ch).
Proof. unfold failing. apply _. Defined.

(** The state of the loop after a list of checks. *)
Definition statusAfter (w : W) (s0 : HealthStatus) (cs : list (Check_ W)) : HealthStatus :=
  if decide (Exists (λ ch, Required ch = true ∧ failing w ch) cs) then StatusUnhealthy
  else if decide (s0 = StatusHealthy ∧ Exists (failing w) cs) then StatusDegraded else s0.

Lemma run_status w cs r : hrStatus (foldl (addResult w) r cs) = statusAfter w (hrStatus r) cs.
Proof.
  revert r. induction cs as [|ch cs IH]; intros r; cbn [foldl].
  - unfold statusAfter. rewrite decide_False by (rewrite Exists_nil; tauto). rewrite decide_False; [done|]. rewrite Exists_nil. tauto.
  - rewrite IH. unfold statusAfter, addResult. cbn [hrStatus]. fold (failing w ch).
    pose proof (Exists_cons (λ ch, Required ch = true ∧ failing w ch) ch cs) as H1. pose proof (Exists_cons (failing w) ch cs) as H2.
    destruct (decide (Exists _ (ch :: cs))) as [E1|E1], (decide (Exists (λ ch, Required ch = true ∧ failing w ch) cs)) as [E2|E2],
      (decide (failing w ch)) as [E3|E3], (Required ch) eqn:Eq, (hrStatus r) eqn:Er; try done; cbn; repeat (destruct (decide _) as [|]); try done; exfalso; intuition congruence.
Qed.

Lemma run_checks w cs r name : hrChecks (foldl (addResult w) r cs) !! name =
  match last (filter (λ ch : Check_ W, ckName ch = name) cs) with Some ch => Some (Fn ch w) | None => hrChecks r !! name end.
Proof.
  revert r. induction cs as [|ch cs IH] using rev_ind; intros r; [done|]. rewrite foldl_app, filter_app. cbn [foldl]. rewrite filter_cons, filter_nil.
  cbn [addResult hrChecks]. destruct (decide (ckName ch = name)) as [<-|Hn].
  - by rewrite lookup_insert_eq, last_snoc.
  - by rewrite lookup_insert_ne, app_nil_r, IH by done.
Qed.

(** The service is unhealthy exactly when a required check is not healthy, degraded
    exactly when only optional ones are not, healthy otherwise; each name has the result of
    the last check registered under it.  The endpoints answer 503 exactly for unhealthy, the
    readiness endpoint also, without running a check, until the service is ready. *)
Theorem health_status_exact (c : Checker W) (w : W) :
  let required := Exists (λ ch : Check_ W, Required ch = true ∧ failing w ch) (checks c) in
  let some := Exists (failing w) (checks c) in
  (hrStatus (Run c w) = StatusUnhealthy ↔ required) ∧ (hrStatus (Run c w) = StatusDegraded ↔ ¬ required ∧ some) ∧
  (hrStatus (Run c w) = StatusHealthy ↔ Forall (λ ch : Check_ W, ckStatus (Fn ch w) = StatusHealthy) (checks c)) ∧
  (∀ name, hrChecks (Run c w) !! name = (λ ch : Check_ W, Fn ch w) <$> last (filter (λ ch : Check_ W, ckName ch = name) (checks c))) ∧
  ((HealthHandler c "GET" w).1 = 503 ↔ required) ∧ ((HealthHandler c "GET" w).1 = 200 ↔ ¬ required) ∧
  ((ReadyHandler c "GET" w).1 = 503 ↔ ready c = false ∨ required) ∧ (ready c = false → (ReadyHandler c "GET" w) = (ReadyHandler (NewChecker (version c)) "GET" w)).
Proof.
  cbv zeta. unfold HealthHandler, ReadyHandler, codeOf. rewrite !(decide_False (P := "GET" ≠ "GET")) by (intros Hx; by apply Hx). cbv zeta. cbn [fst].
  assert (Forall (λ ch : Check_ W, ckStatus (Fn ch w) = StatusHealthy) (checks c) ↔ ¬ Exists (failing w) (checks c)) as Hall.
  { rewrite <- Forall_Exists_neg. apply Forall_iff. intros ch. unfold failing. split; [tauto|apply dec_stable]. }
  assert (Exists (λ ch : Check_ W, Required ch = true ∧ failing w ch) (checks c) → Exists (failing w) (checks c)) as Himp.
  { intros He. eapply Exists_impl; [exact He|]. cbn. tauto. }
  assert (hrStatus (Run c w) = statusAfter w StatusHealthy (checks c)) as Hs by apply run_status.
  assert (∀ name, hrChecks (Run c w) !! name = (λ ch : Check_ W, Fn ch w) <$> last (filter (λ ch : Check_ W, ckName ch = name) (checks c))) as Hc.
  { intros name. unfold Run. rewrite run_checks. cbn. rewrite lookup_empty. by destruct (last _). }
  rewrite Hall, Hs. unfold statusAfter. repeat (split; [exact Hc|] || split);
    repeat destruct (decide _); destruct (ready c); try done; try tauto; try (intros; lia).
  all: intros; naive_solver.
Qed.
End facts.

(** The GPU check is never unhealthy; it is healthy exactly when the utilisation is known
    and, if it is above ninety percent, requests are known to be running. *)
Theorem gpu_check_exact {F} (parseFloat : string → option F) over90 lessThan1 name required url w :
  let res := Fn (GPUVRAMCheck parseFloat over90 lessThan1 name required url) w in
  let vram := queryPrometheusScalar parseFloat w.1 url vramQuery in
  let active := queryPrometheusScalar parseFloat w.1 url activeQuery in
  ckStatus res ≠ StatusUnhealthy ∧
  (ckStatus res = StatusHealthy ↔ ∃ u, vram = Some u ∧ (over90 u = true → ∃ n, active = Some n ∧ lessThan1 n = false)).
Proof.
  cbn. destruct (queryPrometheusScalar parseFloat w.1 url vramQuery) as [u|]; [|split; [done|]; split; [done|]; by intros (? & ? & _)].
  destruct (queryPrometheusScalar parseFloat w.1 url activeQuery) as [n|]; destruct (over90 u) eqn:Eu; try destruct (lessThan1 n) eqn:En; cbn; (split; [done|]); split; try done.
  all: first [intros _; exists u; split; [done|]; intros; (congruence || by eauto) | intros (u' & [= <-] & Hx); destruct (Hx Eu) as (n' & Hn & Hl); congruence].
Qed.

(** get_health asks the models endpoint of the classifier: the address with its chat
    suffix replaced, any other address as it is. *)
Theorem classifier_probe_exact u :
  (∃ base, base ≠ "" ∧ u = base +:+ "/v1/chat/completions" ∧ classifierHealthURL u = base +:+ "/v1/models") ∨
  ((∀ base, base ≠ "" → u ≠ base +:+ "/v1/chat/completions") ∧ classifierHealthURL u = u).
Proof.
  unfold classifierHealthURL. cbv zeta. change (String.length "/v1/chat/completions") with 20%nat. destruct (decide _) as [[Hi Hd]|Hn]; [left|right].
  - exists (takeBytes (Z.to_nat (Z.of_nat (String.length u) - Z.of_nat 20)) u). split_and!; [|by rewrite <- Hd, takeBytes_dropBytes|done].
    intros He. apply (f_equal String.length) in He. rewrite length_takeBytes in He by lia. cbn in He. lia.
  - split; [|done]. intros base Hb ->. apply Hn. rewrite string_length_app. change (String.length "/v1/chat/completions") with 20%nat.
    assert (0 < String.length base)%nat by (destruct base; [done|cbn; lia]). split; [lia|].
    replace (Z.to_nat _) with (String.length base) by lia. apply dropBytes_app.
Qed.

Example classifier_probes : classifierHealthURL "http://c:8001/v1/chat/completions" = "http://c:8001/v1/models" ∧ classifierHealthURL "http://c:8001" = "http://c:8001".
Proof. by vm_compute. Qed.
