(* ===== verification/PgEvents.v ===== *)
(** * PgEvents: the event log in Postgres

    internal/storage/postgres/event_log_store.go: appending and querying, and the
    subscriptions that a listener on the notification channel serves.  The table is the list
    of its rows in the order of insertion, each as it reads back; a channel is that of
    [Events].  The listener is one goroutine: it takes a notification, queries, and then sends
    one event at a time while appends, subscriptions and readers go on; so a notification and
    each send are steps of their own.  A panic is the state [None]. *)
From S2P Require Import Prelude GoTime GoPath GoStrings GoText Types Events.

Definition maxSubscriptions : Z := 1000.

Record PgEventLog := {
  pRows : list Event;
  (** notifications that the listener has not taken *)
  pNotes : list string;
  pSubs : gmap string (list nat);
  pSubCount : Z;
  pChans : gmap nat chan;
  pNextChan : nat;
  pDropped : Z;
  (** the listener's own state: the last sequence of each key, the keys by age, what is still to be sent *)
  pLast : gmap string Z;
  pOrder : list string;
  pInflight : list (nat * Event)
}.

Definition NewPgEventLog : PgEventLog := {|
  pRows := []; pNotes := []; pSubs := ∅; pSubCount := 0; pChans := ∅; pNextChan := 0; pDropped := 0; pLast := ∅; pOrder := []; pInflight := []
|}.

Definition withTable (rows : list Event) (notes : list string) (s : PgEventLog) : PgEventLog := {|
  pRows := rows; pNotes := notes; pSubs := pSubs s; pSubCount := pSubCount s; pChans := pChans s; pNextChan := pNextChan s; pDropped := pDropped s;
  pLast := pLast s; pOrder := pOrder s; pInflight := pInflight s
|}.

Definition withSubs (subs : gmap string (list nat)) (count : Z) (chans : gmap nat chan) (next : nat) (s : PgEventLog) : PgEventLog := {|
  pRows := pRows s; pNotes := pNotes s; pSubs := subs; pSubCount := count; pChans := chans; pNextChan := next; pDropped := pDropped s;
  pLast := pLast s; pOrder := pOrder s; pInflight := pInflight s
|}.

Definition withListener (notes : list string) (last : gmap string Z) (order : list string) (inflight : list (nat * Event)) (s : PgEventLog) : PgEventLog := {|
  pRows := pRows s; pNotes := notes; pSubs := pSubs s; pSubCount := pSubCount s; pChans := pChans s; pNextChan := pNextChan s; pDropped := pDropped s;
  pLast := last; pOrder := order; pInflight := inflight
|}.

Definition withChans (chans : gmap nat chan) (dropped : Z) (inflight : list (nat * Event)) (s : PgEventLog) : PgEventLog := {|
  pRows := pRows s; pNotes := pNotes s; pSubs := pSubs s; pSubCount := pSubCount s; pChans := chans; pNextChan := pNextChan s; pDropped := dropped;
  pLast := pLast s; pOrder := pOrder s; pInflight := inflight
|}.

(** ** The table *)

(** What a row reads as: the time is that of the insertion, and the step and the trace of the
    event have no column. *)
Definition storedEvent (created : string) (e : Event) : Event := {|
  EventID := EventID e; Sequence := Sequence e; ETime := created; EType := EType e; ETenantID := ETenantID e; EAgentID := EAgentID e;
  ERunID := ERunID e; StepID := ""; Traceparent := ""; Payload := Payload e
|}.

Definition subKey (tenantID runID : string) : string := tenantID +:+ ":" +:+ runID.

(** [fault]: the insertion fails; [quiet]: the notification does.  The identifier of an event
    is unique. *)
Definition PgAppend (fault quiet : bool) (created : string) (e : Event) (s : PgEventLog) : bool * PgEventLog :=
  if fault || bool_decide (EventID e ∈ EventID <$> pRows s) then (false, s)
  else (true, withTable (pRows s ++ [storedEvent created e]) (pNotes s ++ if quiet then [] else [subKey (ETenantID e) (ERunID e)]) s).

Definition bySequence (a b : Event) : Prop := Sequence a <= Sequence b.

#[global] Instance bySequence_dec a b : Decision (bySequence a b).
Proof. unfold bySequence. apply _. Defined.
#[global] Instance bySequence_trans : Transitive bySequence.
Proof. unfold bySequence. intros a b c. lia. Qed.
#[global] Instance bySequence_total : Total bySequence.
Proof. unfold bySequence. intros a b. lia. Qed.

Definition PgQuery `{SliceSort} (tenantID runID : string) (afterSequence : Z) (s : PgEventLog) : list Event :=
  sortSlice bySequence (filter (λ e, ETenantID e = tenantID ∧ ERunID e = runID ∧ afterSequence < Sequence e) (pRows s)).

(** ** Subscriptions *)

Definition PgSubscribe (tenantID runID : string) (s : PgEventLog) : option nat * PgEventLog :=
  if decide (maxSubscriptions <= pSubCount s) then (None, s)
  else let key := subKey tenantID runID in
       let ch := pNextChan s in
       (Some ch, withSubs (<[key := go_get [] (pSubs s) key ++ [ch]]> (pSubs s)) (pSubCount s + 1)
                   (<[ch := {| buf := []; closed := false |}]> (pChans s)) (S ch) s).

(** The function that [Subscribe] returns. *)
Definition PgUnsubscribe (tenantID runID : string) (ch : nat) (s : PgEventLog) : option PgEventLog :=
  let key := subKey tenantID runID in
  let subs := go_get [] (pSubs s) key in
  match list_find (λ c, c = ch) subs with
  | Some (i, _) =>
      cs ← closeChan (pChans s) ch;
      let rest := take i subs ++ drop (S i) subs in
      Some (withSubs (if decide (rest = []) then delete key (pSubs s) else <[key := rest]> (pSubs s)) (pSubCount s - 1) cs (pNextChan s) s)
  | None => Some (withSubs (if decide (subs = []) then delete key (pSubs s) else pSubs s) (pSubCount s) (pChans s) (pNextChan s) s)
  end.

(** ** The listener *)

Definition splitSubKey (key : string) : string * string := default ("", "") (Cut key ":").

(** [fanOut] copies the channels of the key; the sends that follow. *)
Definition fanOut (key : string) (events : list Event) (s : PgEventLog) : list (nat * Event) :=
  go_get [] (pSubs s) key ≫= λ ch, (λ ev, (ch, ev)) <$> events.

(** The oldest keys go while there are as many as subscriptions can be. *)
Fixpoint evictKeys (order : list string) (last : gmap string Z) : list string * gmap string Z :=
  match order with
  | oldest :: rest => if decide (maxSubscriptions <= Z.of_nat (length order)) then evictKeys rest (delete oldest last) else (order, last)
  | [] => ([], last)
  end.

(** One notification; the listener does not take one before it has sent everything. *)
Definition takeNote `{SliceSort} (fault : bool) (s : PgEventLog) : PgEventLog :=
  match pInflight s, pNotes s with
  | [], key :: notes =>
      let '(tenantID, runID) := splitSubKey key in
      if decide (tenantID = "" ∨ runID = "") then withListener notes (pLast s) (pOrder s) [] s
      else if fault then withListener notes (pLast s) (pOrder s) [] s
      else
        let events := PgQuery tenantID runID (default 0 (pLast s !! key)) s in
        match last events with
        | None => withListener notes (pLast s) (pOrder s) [] s
        | Some newest =>
            let '(order, lastSeq) := match pLast s !! key with
                                     | Some _ => (pOrder s, pLast s)
                                     | None => let '(order, lastSeq) := evictKeys (pOrder s) (pLast s) in (order ++ [key], lastSeq)
                                     end in
            withListener notes (<[key := Sequence newest]> lastSeq) order (fanOut key events s) s
        end
  | _, _ => s
  end.

(** One send of the fan-out; sending on a closed channel panics. *)
Definition sendNext (s : PgEventLog) : option PgEventLog :=
  match pInflight s with
  | [] => Some s
  | (ch, ev) :: rest =>
      c ← pChans s !! ch;
      if closed c then None
      else if decide (Z.of_nat (length (buf c)) < subscriberBufSize)
      then Some (withChans (<[ch := {| buf := buf c ++ [ev]; closed := false |}]> (pChans s)) (pDropped s) rest s)
      else Some (withChans (pChans s) (pDropped s + 1) rest s)
  end.

Definition PgRecv (ch : nat) (s : PgEventLog) : Received * PgEventLog :=
  match pChans s !! ch with
  | None => (Blocks, s)
  | Some c =>
      match buf c with
      | e :: b => (Got e, withChans (<[ch := {| buf := b; closed := closed c |}]> (pChans s)) (pDropped s) (pInflight s) s)
      | [] => (if closed c then Closed else Blocks, s)
      end
  end.

(** ** Histories *)

Inductive PgEventOp :=
  | PAppend (fault quiet : bool) (created : string) (e : Event)
  | PSubscribe (tenantID runID : string)
  | PUnsubscribe (tenantID runID : string) (ch : nat)
  | PTake (fault : bool)
  | PSend
  | PRecv (ch : nat)
  (** the connection is lost: what was to be notified is not *)
  | PReconnect.

Definition pgEventStep `{SliceSort} (op : PgEventOp) (os : option PgEventLog) : Received * option PgEventLog :=
  match os with
  | None => (Blocks, None)
  | Some s =>
      match op with
      | PAppend f q c e => (Blocks, Some (PgAppend f q c e s).2)
      | PSubscribe t r => (Blocks, Some (PgSubscribe t r s).2)
      | PUnsubscribe t r ch => (Blocks, PgUnsubscribe t r ch s)
      | PTake f => (Blocks, Some (takeNote f s))
      | PSend => (Blocks, sendNext s)
      | PRecv ch => let '(a, s) := PgRecv ch s in (a, Some s)
      | PReconnect => (Blocks, Some (withListener [] (pLast s) (pOrder s) (pInflight s) s))
      end
  end.

(** What the reader of a channel has got, along with the state. *)
Definition watchStep `{SliceSort} (ch : nat) (gs : list Event * option PgEventLog) (op : PgEventOp) : list Event * option PgEventLog :=
  let '(a, os) := pgEventStep op gs.2 in
  (gs.1 ++ match op, a with PRecv ch', Got e => if decide (ch' = ch) then [e] else [] | _, _ => [] end, os).

(** ** The table and its queries *)

Definition ofRun (tenantID runID : string) (e : Event) : Prop := ETenantID e = tenantID ∧ ERunID e = runID.

#[global] Instance ofRun_dec t r e : Decision (ofRun t r e).
Proof. unfold ofRun. apply _. Defined.

Definition runRows (t r : string) (rows : list Event) : list Event := filter (ofRun t r) rows.

(** The events of a run have growing numbers, as a sink gives them. *)
Definition numbered (es : list Event) : Prop := StronglySorted (λ a b, Sequence a < Sequence b) es.

Lemma numbered_prefix l k : numbered (l ++ k) → numbered l.
Proof. unfold numbered. induction l as [|e l IH]; cbn; [constructor|]. intros [Hs Hf]%StronglySorted_inv. constructor; [by apply IH|]. by apply Forall_app in Hf as [? _]. Qed.

Lemma numbered_filter P `{∀ e : Event, Decision (P e)} l : numbered l → numbered (filter P l).
Proof.
  unfold numbered. induction 1 as [|e l Hs IH Hf]; [constructor|]. rewrite filter_cons. destruct (decide _); [|done]. constructor; [done|].
  rewrite Forall_forall in *. intros x Hx. apply list_elem_of_filter in Hx as [_ Hx]. by apply Hf.
Qed.

Lemma numbered_inj l x y : numbered l → x ∈ l → y ∈ l → Sequence x = Sequence y → x = y.
Proof.
  unfold numbered. induction 1 as [|e l Hs IH Hf]; [by intros ?%not_elem_of_nil|]. rewrite Forall_forall in Hf.
  intros [->|Hx]%elem_of_cons [->|Hy]%elem_of_cons He; [done|pose proof (Hf _ Hy)|pose proof (Hf _ Hx)|by apply IH]; cbn in *; lia.
Qed.

Lemma PgQuery_numbered `{SliceSort, !SliceSortLaws} t r a s :
  numbered (runRows t r (pRows s)) → PgQuery t r a s = filter (λ e, a < Sequence e) (runRows t r (pRows s)).
Proof.
  intros Hn. unfold PgQuery. set (l := filter _ (pRows s)).
  assert (l = filter (λ e, a < Sequence e) (runRows t r (pRows s))) as ->.
  { subst l. unfold runRows. rewrite list_filter_filter. apply list_filter_iff. unfold ofRun. intros; tauto. }
  apply (numbered_filter (λ e, a < Sequence e)) in Hn. set (k := filter _ _) in *.
  apply (StronglySorted_unique_strong bySequence); [|apply sort_sorted; apply _| |apply sort_perm].
  - intros x y Hx Hy. unfold bySequence. intros H1 H2. rewrite (sort_perm bySequence) in Hx.
    apply (numbered_inj k); try done. lia.
  - unfold numbered in Hn. induction Hn as [|e l' Hs IH Hf]; constructor; [done|]. eapply Forall_impl; [exact Hf|]. unfold bySequence. cbn. intros; lia.
Qed.

Lemma filter_ext_elem {A} (P Q : A → Prop) `{∀ x, Decision (P x), ∀ x, Decision (Q x)} (l : list A) : (∀ x, x ∈ l → P x ↔ Q x) → filter P l = filter Q l.
Proof.
  induction l as [|x l IH]; intros Hiff; [done|]. rewrite !filter_cons. pose proof (Hiff x ltac:(by left)).
  rewrite IH by (intros y Hy; apply Hiff; by right). destruct (decide (P x)), (decide (Q x)); done || tauto.
Qed.

Lemma runRows_app t r l k : runRows t r (l ++ k) = runRows t r l ++ runRows t r k.
Proof. apply filter_app. Qed.

(** Appends of events whose identifiers differ. *)
Lemma appended_rows (l : list (string * Event)) s : NoDup (EventID <$> (pRows s ++ l.*2)) →
  pRows (foldl (λ s x, (PgAppend false false x.1 x.2 s).2) s l) = pRows s ++ ((λ x, storedEvent x.1 x.2) <$> l).
Proof.
  revert s. induction l as [|[c e] l IH]; intros s Hd; [cbn; by rewrite app_nil_r|]. cbn [foldl fmap list_fmap].
  assert (EventID e ∉ EventID <$> pRows s) as Hn.
  { rewrite fmap_app in Hd. apply NoDup_app in Hd as (_ & Hd & _). intros Hin. apply (Hd _ Hin). by left. }
  assert (pRows (PgAppend false false (c, e).1 (c, e).2 s).2 = pRows s ++ [storedEvent c e]) as Hr.
  { unfold PgAppend. cbn. by rewrite bool_decide_false. }
  rewrite IH, Hr, <- app_assoc; [done|]. rewrite Hr, <- app_assoc. cbn. rewrite !fmap_app in *. exact Hd.
Qed.

(** An event without what the table does not keep. *)
Definition kept (e : Event) : Event := storedEvent "" e.

(** For runs whose events are numbered from one the two event logs agree: while the file
    log has no more runs than it caches and no other run shares the key, a query of Postgres
    answers the events that the file log answers, up to their times, steps and traces. *)
Theorem event_logs_agree `{SliceSort, !SliceSortLaws} (l : list (bool * (string * Event))) t r a
    (Hids : NoDup (EventID <$> l.*2.*2)) (Hnum : numbered (runRows t r l.*2.*2)) (Hpos : Forall (λ e, 0 < Sequence e) l.*2.*2) (Ha : 0 <= a)
    (Hkey : Forall (λ e, eventKey e = runKey t r → ofRun t r e) l.*2.*2)
    (Hcap : Z.of_nat (size (list_to_set ((λ e, eventKey e) <$> l.*2.*2) : gset string)) <= maxRunsInMemory) :
  ∃ file, foldl logStep (Some (NewFileEventLogStore ∅)) ((λ x, (x.1, x.2.2)) <$> l) = Some file ∧
    kept <$> PgQuery t r a (foldl (λ s x, (PgAppend false false x.1 x.2 s).2) NewPgEventLog l.*2) = kept <$> QueryFromSequence t r a file.
Proof.
  destruct (event_log_complete ((λ x, (x.1, x.2.2)) <$> l)) as (file & Hf & _ & Hq). exists file. split; [done|].
  assert (((λ x, (x.1, x.2.2)) <$> l).*2 = l.*2.*2) as Hl2 by (by rewrite <- !list_fmap_compose).
  destruct Hq as [Hq _]; [by rewrite <- list_fmap_compose; rewrite <- !list_fmap_compose in Hcap|]. specialize (Hq t r). rewrite Hl2 in Hq.
  assert (QueryFromSequence t r a file = filter (λ e, a < Sequence e) (runRows t r l.*2.*2)) as ->.
  { assert (go_get [] (logRuns file) (runKey t r) = runRows t r l.*2.*2) as Hg.
    { unfold QueryFromSequence in Hq. rewrite bool_decide_eq_true_2 in Hq by done. rewrite Hq. unfold runRows. rewrite Forall_forall in Hkey.
      apply filter_ext_elem. intros e Hin. split; [by apply Hkey|]. by intros [<- <-]. }
    unfold QueryFromSequence. rewrite Hg. case_bool_decide; [|done]. symmetry. apply filter_all. rewrite Forall_forall in *. intros e [_ He]%list_elem_of_filter. specialize (Hpos e He). lia. }
  rewrite PgQuery_numbered; rewrite appended_rows by done; cbn [pRows NewPgEventLog app]; [|revert Hnum]; rewrite <- !list_fmap_compose.
  - clear. induction l as [|[f [c e]] l IH]; [done|]. cbn [fmap list_fmap compose fst snd]. unfold runRows in *. rewrite !(filter_cons (ofRun t r)).
    change (ofRun t r (storedEvent c e)) with (ofRun t r e). destruct (decide (ofRun t r e)); [|exact IH]. rewrite !filter_cons. change (Sequence (storedEvent c e)) with (Sequence e).
    destruct (decide _); [cbn [fmap list_fmap]; f_equal; exact IH|exact IH].
  - clear. unfold numbered. induction l as [|[f [c e]] l IH]; [done|]. cbn [fmap list_fmap compose fst snd]. unfold runRows in *. rewrite !(filter_cons (ofRun t r)).
    change (ofRun t r (storedEvent c e)) with (ofRun t r e). destruct (decide (ofRun t r e)); [|exact IH]. intros [Hs Hall]%StronglySorted_inv. constructor; [by apply IH|].
    rewrite Forall_forall in *. intros x [Hx Hin]%list_elem_of_filter. apply list_elem_of_fmap in Hin as ([f' [c' e']] & -> & Hin). cbn.
    apply (Hall e'). apply list_elem_of_filter. split; [exact Hx|]. apply list_elem_of_fmap. by exists (f', (c', e')).
Qed.

(** ** Subscriptions: bookkeeping *)

Definition openChans (cs : gmap nat chan) : gset nat := dom (filter (λ p, closed p.2 = false) cs).

Lemma elem_of_openChans cs ch : ch ∈ openChans cs ↔ ∃ c, cs !! ch = Some c ∧ closed c = false.
Proof.
  unfold openChans. rewrite elem_of_dom. split.
  - intros [c Hc]. apply map_lookup_filter_Some in Hc as [? ?]. eauto.
  - intros (c & Hc & Ho). exists c. by apply map_lookup_filter_Some.
Qed.

Lemma openChans_same cs ch c c' : cs !! ch = Some c → closed c' = closed c → openChans (<[ch := c']> cs) = openChans cs.
Proof.
  intros Hc Hsame. apply set_eq. intros x. rewrite !elem_of_openChans. destruct (decide (x = ch)) as [->|Hn].
  - rewrite lookup_insert_eq, Hc. split; intros (d & [= <-] & Hd); eexists; split; done || congruence.
  - by rewrite lookup_insert_ne.
Qed.

Abbreviation subsOf s k := (go_get [] (pSubs s) k).

Record pg_ok (s : PgEventLog) : Prop := {
  po_count : pSubCount s = Z.of_nat (size (openChans (pChans s)));
  po_cap : pSubCount s <= maxSubscriptions;
  po_reg : ∀ k ch, ch ∈ subsOf s k → ch ∈ openChans (pChans s);
  po_open : ∀ ch, ch ∈ openChans (pChans s) → ∃ k, ch ∈ subsOf s k;
  po_uniq : ∀ k k' ch, ch ∈ subsOf s k → ch ∈ subsOf s k' → k = k';
  po_nodup : ∀ k, NoDup (subsOf s k);
  po_fresh : ∀ ch, is_Some (pChans s !! ch) → (ch < pNextChan s)%nat
}.

(** Steps that leave the subscriptions and which channels are open as they were. *)
Lemma pg_ok_same s s' : pSubs s' = pSubs s → pSubCount s' = pSubCount s → pNextChan s' = pNextChan s → openChans (pChans s') = openChans (pChans s) →
  (∀ ch, is_Some (pChans s' !! ch) → is_Some (pChans s !! ch)) → pg_ok s → pg_ok s'.
Proof. intros H1 H2 H3 H4 H5 [? ? ? ? ? ? Hf]. split; rewrite ?H1, ?H2, ?H3, ?H4; try done. intros ch Hc. by apply Hf, H5. Qed.

Lemma is_Some_insert_same {V} (cs : gmap nat V) ch c x : is_Some (cs !! ch) → is_Some (<[ch := c]> cs !! x) → is_Some (cs !! x).
Proof. intros Hc. destruct (decide (x = ch)) as [->|]; [done|]. by rewrite lookup_insert_ne. Qed.

Lemma PgSubscribe_ok t r s : pg_ok s → pg_ok (PgSubscribe t r s).2.
Proof.
  intros Hok. unfold PgSubscribe. destruct (decide _) as [|Hcap]; [done|]. destruct Hok as [Hcount _ Hreg Hopen Huniq Hnd Hfresh]. cbv zeta.
  set (ch := pNextChan s) in *. set (key := subKey t r) in *.
  assert (pChans s !! ch = None) as Hnone. { destruct (pChans s !! ch) eqn:E; [|done]. pose proof (Hfresh ch ltac:(eauto)). subst ch. lia. }
  assert (openChans (<[ch := {| buf := []; closed := false |}]> (pChans s)) = {[ch]} ∪ openChans (pChans s)) as Ho.
  { apply set_eq. intros x. rewrite elem_of_union, elem_of_singleton, !elem_of_openChans. destruct (decide (x = ch)) as [->|Hn]; [rewrite lookup_insert_eq; naive_solver|rewrite lookup_insert_ne by done; naive_solver]. }
  assert (ch ∉ openChans (pChans s)) as Hni by (rewrite elem_of_openChans; intros (c & Hc & _); congruence).
  assert (∀ k x, x ∈ go_get [] (<[key := subsOf s key ++ [ch]]> (pSubs s)) k ↔ x ∈ subsOf s k ∨ (k = key ∧ x = ch)) as Hsub.
  { intros k x. rewrite go_get_insert. destruct (decide (key = k)) as [<-|]; [rewrite elem_of_app, list_elem_of_singleton|]; naive_solver. }
  split; cbn [withSubs pSubs pSubCount pChans pNextChan snd].
  - rewrite Ho, size_union, size_singleton by set_solver. lia.
  - lia.
  - intros k x [Hx|[-> ->]]%Hsub; rewrite Ho; [apply elem_of_union; right; by eapply Hreg|set_solver].
  - intros x. rewrite Ho, elem_of_union, elem_of_singleton. intros [->|Hx]; [exists key|destruct (Hopen x Hx) as [k Hk]; exists k]; apply Hsub; auto.
  - intros k k' x Hx Hx'. apply Hsub in Hx as [Hx|[-> ->]], Hx' as [Hx'|[-> Hx']]; try done; [by eapply Huniq|subst x; by apply Hreg in Hx|by apply Hreg in Hx'].
  - intros k. rewrite go_get_insert. destruct (decide _) as [<-|]; [|done]. apply NoDup_app. split_and!; [done| |by apply NoDup_singleton].
    intros x Hx ->%list_elem_of_singleton. by apply Hreg in Hx.
  - intros x [c Hc]. destruct (decide (x = ch)) as [->|Hn]; [lia|]. rewrite lookup_insert_ne in Hc by done. assert (x < ch)%nat by (apply Hfresh; eauto). lia.
Qed.

Lemma PgUnsubscribe_ok t r ch s s' : PgUnsubscribe t r ch s = Some s' → pg_ok s → pg_ok s'.
Proof.
  intros Hu Hok. unfold PgUnsubscribe in Hu. cbv zeta in Hu. set (key := subKey t r) in *. destruct (list_find _ _) as [[i x]|] eqn:El.
  - apply list_find_Some in El as (Hi & -> & _). destruct Hok as [Hcount Hcap Hreg Hopen Huniq Hnd Hfresh].
    assert (ch ∈ subsOf s key) as Hin by (by eapply list_elem_of_lookup_2). pose proof (Hreg _ _ Hin) as Ho. apply elem_of_openChans in Ho as (c & Hc & Hcl).
    unfold closeChan in Hu. rewrite Hc in Hu. cbn in Hu. rewrite Hcl in Hu. cbn in Hu. set (rest := take i _ ++ drop (S i) _) in *. injection Hu as <-.
    assert (∀ k, go_get [] (if decide (rest = []) then delete key (pSubs s) else <[key := rest]> (pSubs s)) k = if decide (k = key) then rest else subsOf s k) as Hg.
    { intros k. destruct (decide (rest = [])) as [->|]; [|rewrite go_get_insert; destruct (decide (key = k)), (decide (k = key)); congruence || done]. unfold go_get. destruct (decide (k = key)) as [->|]; [by rewrite lookup_delete_eq|by rewrite lookup_delete_ne]. }
    assert (subsOf s key ≡ₚ ch :: rest) as HP by (subst rest; rewrite <- (take_drop_middle _ _ _ Hi) at 1; by rewrite Permutation_middle).
    assert (NoDup (ch :: rest)) as Hnd' by (rewrite <- HP; apply Hnd). apply NoDup_cons in Hnd' as [Hni Hnd'].
    assert (∀ k x, x ∈ (if decide (k = key) then rest else subsOf s k) ↔ x ∈ subsOf s k ∧ x ≠ ch) as Hsub.
    { intros k x. destruct (decide (k = key)) as [->|Hk]; [rewrite HP, elem_of_cons; naive_solver|]. split; [|tauto]. intros Hx. split; [done|]. intros ->. by apply Hk, (Huniq k key ch). }
    assert (openChans (<[ch := {| buf := buf c; closed := true |}]> (pChans s)) = openChans (pChans s) ∖ {[ch]}) as Hop.
    { apply set_eq. intros x. rewrite elem_of_difference, elem_of_singleton, !elem_of_openChans. destruct (decide (x = ch)) as [->|]; [rewrite lookup_insert_eq; naive_solver|rewrite lookup_insert_ne by done; naive_solver]. }
    assert (ch ∈ openChans (pChans s)) as Hopc by (apply elem_of_openChans; eauto).
    split; cbn [withSubs pSubs pSubCount pChans pNextChan]; rewrite ?Hop; try setoid_rewrite Hg.
    + rewrite size_difference, size_singleton by set_solver. assert (size (openChans (pChans s)) ≠ 0)%nat by (intros Hz; apply size_empty_inv in Hz; set_solver). lia.
    + lia.
    + intros k x [Hx Hne]%Hsub. apply elem_of_difference. split; [by eapply Hreg|set_solver].
    + intros x [Hx Hne]%elem_of_difference. destruct (Hopen x Hx) as [k Hk]. exists k. apply Hsub. set_solver.
    + intros k k' x [Hx _]%Hsub [Hx' _]%Hsub. by eapply Huniq.
    + intros k. rewrite ?Hg. destruct (decide (k = key)); [done|apply Hnd].
    + intros x Hx. apply Hfresh. by eapply is_Some_insert_same.
  - injection Hu as <-. assert (∀ k, go_get [] (if decide (subsOf s key = []) then delete key (pSubs s) else pSubs s) k = subsOf s k) as Hg.
    { intros k. destruct (decide (subsOf s key = [])) as [He|]; [|done]. unfold go_get in *. destruct (decide (k = key)) as [->|]; [by rewrite lookup_delete_eq|by rewrite lookup_delete_ne]. }
    destruct Hok as [? ? Hreg Hopen Huniq Hnd Hfresh]. split; cbn [withSubs pSubs pSubCount pChans pNextChan]; try done.
    + intros k x. rewrite Hg. apply Hreg.
    + intros x Hx. destruct (Hopen x Hx) as [k Hk]. exists k. by rewrite Hg.
    + intros k k' x. rewrite !Hg. apply Huniq.
    + intros k. rewrite Hg. apply Hnd.
Qed.

Lemma sendNext_same s s' : sendNext s = Some s' → pSubs s' = pSubs s ∧ pSubCount s' = pSubCount s ∧ pNextChan s' = pNextChan s ∧
  openChans (pChans s') = openChans (pChans s) ∧ (∀ ch, is_Some (pChans s' !! ch) → is_Some (pChans s !! ch)).
Proof.
  unfold sendNext. destruct (pInflight s) as [|[ch ev] rest]; [by intros [= <-]|]. destruct (pChans s !! ch) as [c|] eqn:Ec; [|done]. cbn.
  destruct (closed c) eqn:Ecl; [done|]. destruct (decide _); intros [= <-]; cbn; [|done]. split_and!; try done; [by eapply openChans_same; cbn|].
  intros x. by apply is_Some_insert_same.
Qed.

Lemma PgRecv_same ch s : let s' := (PgRecv ch s).2 in pSubs s' = pSubs s ∧ pSubCount s' = pSubCount s ∧ pNextChan s' = pNextChan s ∧
  openChans (pChans s') = openChans (pChans s) ∧ (∀ ch, is_Some (pChans s' !! ch) → is_Some (pChans s !! ch)).
Proof.
  unfold PgRecv. destruct (pChans s !! ch) as [c|] eqn:Ec; [|done]. destruct (buf c) as [|e b]; [done|]. cbn. split_and!; try done; [by eapply openChans_same; cbn|].
  intros x. by apply is_Some_insert_same.
Qed.

Lemma takeNote_same `{SliceSort} f s : ∃ notes last order inflight, takeNote f s = withListener notes last order inflight s ∧ pRows (takeNote f s) = pRows s.
Proof.
  assert (∀ n l o i, ∃ notes last order inflight, withListener n l o i s = withListener notes last order inflight s ∧ pRows (withListener n l o i s) = pRows s) as Hw by (intros; by do 4 eexists).
  assert (∃ notes last order inflight, s = withListener notes last order inflight s ∧ pRows s = pRows s) as Hid by (exists (pNotes s), (pLast s), (pOrder s), (pInflight s); split; [by destruct s|done]).
  unfold takeNote. destruct (pInflight s) as [|p q] eqn:Ei; [|exact Hid].
  destruct (pNotes s) as [|key notes] eqn:En; [exact Hid|]. destruct (splitSubKey key) as [t r]. destruct (decide _); [apply Hw|]. destruct f; [apply Hw|]. cbv zeta.
  destruct (last _); [|apply Hw]. destruct (pLast s !! key); [apply Hw|]. destruct (evictKeys _ _). apply Hw.
Qed.

Lemma pg_ok_step `{SliceSort} op s s' : (pgEventStep op (Some s)).2 = Some s' → pg_ok s → pg_ok s'.
Proof.
  intros Hs Hok. destruct op as [f q c e|t r|t r ch|f| |ch|]; cbn in Hs.
  - injection Hs as <-. unfold PgAppend. destruct (_ || _); [done|]. by apply (pg_ok_same s).
  - injection Hs as <-. by apply PgSubscribe_ok.
  - by eapply PgUnsubscribe_ok.
  - injection Hs as <-. destruct (takeNote_same f s) as (? & ? & ? & ? & -> & _). by apply (pg_ok_same s).
  - apply sendNext_same in Hs as (? & ? & ? & ? & ?). by apply (pg_ok_same s).
  - pose proof (PgRecv_same ch s) as Hr. cbv zeta in Hr. destruct (PgRecv ch s) as [a s1]. cbn in *. injection Hs as <-. destruct Hr as (? & ? & ? & ? & ?). by apply (pg_ok_same s).
  - injection Hs as <-. by apply (pg_ok_same s).
Qed.

Definition pgRun `{SliceSort} (os : option PgEventLog) (ops : list PgEventOp) : option PgEventLog := foldl (λ os op, (pgEventStep op os).2) os ops.

Lemma pgRun_None `{SliceSort} ops : pgRun None ops = None.
Proof. by induction ops. Qed.

Lemma pgRun_cons `{SliceSort} os op ops : pgRun os (op :: ops) = pgRun (pgEventStep op os).2 ops.
Proof. done. Qed.

Lemma pg_ok_new : pg_ok NewPgEventLog.
Proof. split; cbn; try done; try (intros *; by rewrite elem_of_nil); [intros; constructor|]. intros ch [c Hc]. by rewrite lookup_empty in Hc. Qed.

Lemma pgRun_ok `{SliceSort} ops s s' : pgRun (Some s) ops = Some s' → pg_ok s → pg_ok s'.
Proof.
  revert s. induction ops as [|op ops IH]; intros s; [by intros [= ->]|]. rewrite pgRun_cons. intros Hr Hok. destruct (pgEventStep op (Some s)).2 as [s1|] eqn:E; [|by rewrite pgRun_None in Hr].
  apply (IH s1); [done|]. by eapply pg_ok_step.
Qed.

(** What is being sent goes to channels that exist. *)
Definition inflight_known (s : PgEventLog) : Prop := Forall (λ p, (p.1 < pNextChan s)%nat) (pInflight s).

Lemma fanOut_known k evs s : pg_ok s → Forall (λ p : nat * Event, (p.1 < pNextChan s)%nat) (fanOut k evs s).
Proof.
  intros Hok. apply Forall_forall. intros p Hp. unfold fanOut in Hp. apply list_elem_of_bind in Hp as (ch & Hp & Hch). apply list_elem_of_fmap in Hp as (e & -> & _).
  apply (po_reg _ Hok), elem_of_openChans in Hch as (c & Hc & _). apply (po_fresh _ Hok). cbn. eauto.
Qed.

Lemma inflight_step `{SliceSort} op s s' : (pgEventStep op (Some s)).2 = Some s' → pg_ok s → inflight_known s → inflight_known s'.
Proof.
  unfold inflight_known. intros Hs Hok Hi. destruct op as [f q c e|a b|a b ch|f| |ch|]; cbn -[PgAppend PgSubscribe PgUnsubscribe takeNote sendNext PgRecv] in Hs.
  - injection Hs as <-. unfold PgAppend. destruct (_ || _); exact Hi.
  - injection Hs as <-. unfold PgSubscribe. destruct (decide _); [exact Hi|]. cbn. eapply Forall_impl; [exact Hi|]. cbn. lia.
  - unfold PgUnsubscribe in Hs. cbv zeta in Hs. destruct (list_find _ _) as [[]|]; [destruct (closeChan _ _); [|done]|]; cbn in Hs; injection Hs as <-; exact Hi.
  - injection Hs as <-. unfold takeNote. destruct (pInflight s) as [|p q] eqn:Ei; [|by rewrite Ei]. destruct (pNotes s) as [|key notes]; [by rewrite Ei|]. destruct (splitSubKey key) as [a b].
    destruct (decide _); [exact Hi|]. destruct f; [exact Hi|]. cbv zeta. destruct (last _); [|exact Hi]. destruct (pLast s !! key); [|destruct (evictKeys _ _)]; exact (fanOut_known key _ s Hok).
  - unfold sendNext in Hs. destruct (pInflight s) as [|[ch ev] rest] eqn:Ei; [injection Hs as <-; by rewrite Ei|]. apply Forall_cons in Hi as [_ Hi]. destruct (pChans s !! ch) as [c|]; [|done]. cbn in Hs. destruct (closed c); [done|].
    destruct (decide _); injection Hs as <-; exact Hi.
  - unfold PgRecv in Hs. destruct (pChans s !! ch) as [c|]; [destruct (buf c)|]; injection Hs as <-; exact Hi.
  - injection Hs as <-. exact Hi.
Qed.

Lemma pgRun_inflight `{SliceSort} ops s s' : pgRun (Some s) ops = Some s' → pg_ok s → inflight_known s → inflight_known s'.
Proof.
  revert s. induction ops as [|op ops IH]; intros s; [by intros [= ->]|]. rewrite pgRun_cons. intros Hr Hok Hi. destruct (pgEventStep op (Some s)).2 as [s1|] eqn:E; [|by rewrite pgRun_None in Hr].
  apply (IH s1); [done|by eapply pg_ok_step|by eapply inflight_step].
Qed.

(** C33. Whatever is appended, subscribed, unsubscribed, notified and read in whatever order,
    while the process lives the counter of subscriptions is the number of open channels and
    at most a thousand; every open channel is registered under exactly one key; and a
    subscription is refused exactly when a thousand channels are open. *)
Theorem subscriptions_bounded `{SliceSort} ops s (Hrun : pgRun (Some NewPgEventLog) ops = Some s) t r :
  pSubCount s = Z.of_nat (size (openChans (pChans s))) ∧ Z.of_nat (size (openChans (pChans s))) <= maxSubscriptions ∧
  (∀ ch, ch ∈ openChans (pChans s) ↔ ∃ k, ch ∈ subsOf s k) ∧ (∀ k k' ch, ch ∈ subsOf s k → ch ∈ subsOf s k' → k = k') ∧
  match PgSubscribe t r s with
  | (None, s') => Z.of_nat (size (openChans (pChans s))) = maxSubscriptions ∧ s' = s
  | (Some ch, s') => ch ∉ openChans (pChans s) ∧ subsOf s' (subKey t r) = subsOf s (subKey t r) ++ [ch] ∧ openChans (pChans s') = {[ch]} ∪ openChans (pChans s)
  end.
Proof.
  pose proof (pgRun_ok _ _ _ Hrun pg_ok_new) as Hok. pose proof (PgSubscribe_ok t r s Hok) as Hok'. destruct Hok as [Hc Hcap Hreg Hopen Hu _ Hf].
  split; [done|]. split; [lia|]. split; [intros ch; split; [apply Hopen|intros [k Hk]; by eapply Hreg]|]. split; [done|].
  unfold PgSubscribe in *. destruct (decide _) as [Hle|Hle]; [split; [lia|done]|]. cbv zeta in *. cbn [withSubs pSubs pChans].
  split; [|split; [rewrite go_get_insert; by rewrite decide_True|]].
  - rewrite elem_of_openChans. intros (c & Hch & _). pose proof (Hf _ ltac:(eauto)). lia.
  - apply set_eq. intros x. rewrite elem_of_union, elem_of_singleton, !elem_of_openChans.
    destruct (decide (x = pNextChan s)) as [->|Hn]; [rewrite lookup_insert_eq; naive_solver|rewrite lookup_insert_ne by done; naive_solver].
Qed.

(** ** What a subscriber gets *)

Section delivery.
Context `{SliceSort, !SliceSortLaws} (t r : string).
Hypothesis (Ht : t ≠ "") (Hr : r ≠ "") (Hcolon : ∀ x y, t ≠ x +:+ ":" +:+ y).

Abbreviation key := (subKey t r).

Lemma split_key : splitSubKey key = (t, r).
Proof. unfold splitSubKey, subKey. change (":" +:+ r) with (String ":" r). by rewrite (proj2 (Cut_char_Some _ ":" t r)). Qed.

Lemma splitSubKey_inv k a b : splitSubKey k = (a, b) → a ≠ "" → k = subKey a b.
Proof. unfold splitSubKey. destruct (Cut k ":") as [[a' b']|] eqn:E; cbn; intros [= -> ->] Ha; [|done]. by apply Cut_char_Some in E as [-> _]. Qed.

Definition pairOf (e : Event) : string * string := (ETenantID e, ERunID e).

Definition lastOf (s : PgEventLog) : Z := default 0 (pLast s !! key).

Definition bufOf (ch : nat) (s : PgEventLog) : list Event := match pChans s !! ch with Some c => buf c | None => [] end.

Definition inflightOf (ch : nat) (s : PgEventLog) : list Event := (filter (λ p, p.1 = ch) (pInflight s)).*2.

(** The events of the run with a number in (a, b]. *)
Definition window (a b : Z) (s : PgEventLog) : list Event := filter (λ e, a < Sequence e ∧ Sequence e <= b) (runRows t r (pRows s)).

(** What is asked of a history, in terms of the state that it leads to. *)
Record good (s : PgEventLog) : Prop := {
  g_numbered : numbered (runRows t r (pRows s));
  g_positive : Forall (λ e, 0 < Sequence e) (runRows t r (pRows s));
  g_keys : Z.of_nat (size (list_to_set (pairOf <$> pRows s) : gset (string * string))) <= maxSubscriptions;
  g_undropped : pDropped s <= 0
}.

(** The listener's memory. *)
Record listener_ok (s : PgEventLog) : Prop := {
  l_dom : ∀ k, is_Some (pLast s !! k) ↔ k ∈ pOrder s;
  l_nodup : NoDup (pOrder s);
  l_rows : ∀ k z, pLast s !! k = Some z → ∃ e, e ∈ pRows s ∧ splitSubKey k = pairOf e ∧ Sequence e = z ∧ ETenantID e ≠ "";
  l_dropped : 0 <= pDropped s
}.

(** Rows are only added, drops only counted up. *)
Lemma step_rows op s s' : (pgEventStep op (Some s)).2 = Some s' → ∃ more, pRows s' = pRows s ++ more ∧ pDropped s <= pDropped s'.
Proof.
  intros Hs. destruct op as [f q c e|a b|a b ch|f| |ch|]; cbn in Hs.
  - injection Hs as <-. unfold PgAppend. destruct (_ || _); cbn; [exists []; rewrite app_nil_r|eexists]; split; done || lia.
  - injection Hs as <-. unfold PgSubscribe. exists []. rewrite app_nil_r. destruct (decide _); cbn; split; done || lia.
  - exists []. rewrite app_nil_r. unfold PgUnsubscribe in Hs. cbv zeta in Hs. destruct (list_find _ _) as [[]|]; [destruct (closeChan _ _); [|done]|]; cbn in Hs; injection Hs as <-; cbn; split; done || lia.
  - injection Hs as <-. exists []. rewrite app_nil_r. destruct (takeNote_same f s) as (? & ? & ? & ? & -> & _). cbn. split; done || lia.
  - exists []. rewrite app_nil_r. unfold sendNext in Hs. destruct (pInflight s) as [|[ch ev] rest]; [injection Hs as <-; split; done || lia|].
    destruct (pChans s !! ch) as [c|]; [|done]. cbn in Hs. destruct (closed c); [done|]. destruct (decide _); injection Hs as <-; cbn; split; done || lia.
  - exists []. rewrite app_nil_r. unfold PgRecv in Hs. destruct (pChans s !! ch) as [c|]; [destruct (buf c)|]; injection Hs as <-; cbn; split; done || lia.
  - injection Hs as <-. exists []. rewrite app_nil_r. cbn. split; done || lia.
Qed.

Lemma good_back op s s' : (pgEventStep op (Some s)).2 = Some s' → good s' → good s.
Proof.
  intros Hs [Hn Hp Hk Hd]. destruct (step_rows _ _ _ Hs) as (more & Hr' & Hd'). rewrite Hr', ?runRows_app in *. split.
  - by eapply numbered_prefix.
  - by apply Forall_app in Hp as [? _].
  - etrans; [|exact Hk]. apply inj_le, subseteq_size. rewrite fmap_app, list_to_set_app. set_solver.
  - lia.
Qed.

Lemma evictKeys_none order lastSeq : Z.of_nat (length order) < maxSubscriptions → evictKeys order lastSeq = (order, lastSeq).
Proof. destruct order; [done|]. cbn [evictKeys]. intros. by rewrite decide_False by lia. Qed.

Lemma order_bound s k e : listener_ok s → good s → pLast s !! k = None → e ∈ pRows s → splitSubKey k = pairOf e → ETenantID e ≠ "" →
  Z.of_nat (length (pOrder s)) < maxSubscriptions.
Proof.
  intros [Hdom Hnd Hrows _] [_ _ Hk _] Hnone He Hs Hne.
  assert (∀ x, x ∈ k :: pOrder s → ∃ e, e ∈ pRows s ∧ splitSubKey x = pairOf e ∧ ETenantID e ≠ "") as Hall.
  { intros x [->|Hx]%elem_of_cons; [eauto|]. apply Hdom in Hx as [z Hz]. destruct (Hrows _ _ Hz) as (e' & ? & ? & _ & ?). eauto. }
  assert (NoDup (splitSubKey <$> k :: pOrder s)) as Hnd'.
  { apply NoDup_fmap_2_strong; [|apply NoDup_cons; split; [rewrite <- Hdom, Hnone; by intros []|done]].
    intros x y Hx Hy Heq. destruct (Hall _ Hx) as (e1 & _ & H1 & Hn1), (Hall _ Hy) as (e2 & _ & H2 & Hn2).
    rewrite (splitSubKey_inv _ _ _ H1 Hn1), (splitSubKey_inv _ _ _ H2 Hn2). rewrite H1, H2 in Heq. unfold pairOf in Heq. by injection Heq as -> ->. }
  assert (length (splitSubKey <$> k :: pOrder s) ≤ size (list_to_set (pairOf <$> pRows s) : gset (string * string)))%nat as Hle.
  { rewrite <- (size_list_to_set (C := gset (string * string)) _ Hnd'). apply subseteq_size. intros p. rewrite !elem_of_list_to_set, !list_elem_of_fmap.
    intros (x & -> & Hx). destruct (Hall _ Hx) as (e' & ? & ? & _). eauto. }
  rewrite length_fmap in Hle. cbn [length] in Hle. lia.
Qed.

(** The three ways a notification goes. *)
Inductive took (f : bool) (s : PgEventLog) : PgEventLog → Prop :=
  | took_nothing : pInflight s ≠ [] ∨ pNotes s = [] → took f s s
  | took_skip k notes : pInflight s = [] → pNotes s = k :: notes →
      (f = false → k = key → Forall (λ e, Sequence e <= lastOf s) (runRows t r (pRows s))) →
      took f s (withListener notes (pLast s) (pOrder s) [] s)
  | took_events k notes a b events newest : pInflight s = [] → pNotes s = k :: notes → f = false → splitSubKey k = (a, b) → a ≠ "" →
      events = PgQuery a b (default 0 (pLast s !! k)) s → last events = Some newest →
      took f s (withListener notes (<[k := Sequence newest]> (pLast s)) (if pLast s !! k then pOrder s else pOrder s ++ [k]) (fanOut k events s) s).

Lemma PgQuery_elem a b z s e : e ∈ PgQuery a b z s ↔ e ∈ pRows s ∧ pairOf e = (a, b) ∧ z < Sequence e.
Proof. unfold PgQuery. rewrite (sort_perm bySequence), list_elem_of_filter. unfold pairOf. naive_solver. Qed.

Lemma last_elem {A} (l : list A) x : last l = Some x → x ∈ l.
Proof. rewrite last_lookup. apply list_elem_of_lookup_2. Qed.

Lemma takeNote_took f s : listener_ok s → good s → took f s (takeNote f s).
Proof.
  intros Hl Hg. unfold takeNote. destruct (pInflight s) as [|p q] eqn:Ei; [|constructor; left; by rewrite Ei].
  destruct (pNotes s) as [|k notes] eqn:En; [constructor; by right|]. destruct (splitSubKey k) as [a b] eqn:Es.
  destruct (decide (a = "" ∨ b = "")) as [Hm|Hm].
  { apply (took_skip _ _ k); [done..|]. intros _ ->. rewrite split_key in Es. injection Es as -> ->. naive_solver. }
  destruct f; [by apply (took_skip _ _ k)|]. cbv zeta. destruct (last _) as [newest|] eqn:El.
  - assert (a ≠ "") as Ha by naive_solver. pose proof (last_elem _ _ El) as Hin. apply PgQuery_elem in Hin as (Hin & Hp & _).
    pose proof (took_events false s k notes a b _ newest Ei En eq_refl Es Ha eq_refl El) as Ht'.
    destruct (pLast s !! k) eqn:Ek; cbn in *; [exact Ht'|]. rewrite evictKeys_none; [exact Ht'|].
    apply (order_bound s k newest); try done; [by rewrite Hp|]. unfold pairOf in Hp. by injection Hp as -> _.
  - apply (took_skip _ _ k); [done..|]. intros _ ->. rewrite split_key in Es. injection Es as <- <-. apply last_None in El.
    apply Forall_forall. intros e He. destruct (decide (Sequence e <= lastOf s)); [done|]. exfalso.
    assert (e ∈ PgQuery t r (lastOf s) s) as Hq; [|unfold lastOf in Hq; rewrite El in Hq; by apply elem_of_nil in Hq].
    apply PgQuery_elem. unfold runRows in He. apply list_elem_of_filter in He as [[? ?] ?]. unfold pairOf. split; [done|]. split; [by f_equal|lia].
Qed.

Lemma listener_step op s s' : (pgEventStep op (Some s)).2 = Some s' → good s' → listener_ok s → listener_ok s'.
Proof.
  intros Hs Hg' Hl. pose proof (good_back _ _ _ Hs Hg') as Hg. pose proof (step_rows _ _ _ Hs) as (more & Hr' & Hd').
  assert (pLast s' = pLast s → pOrder s' = pOrder s → listener_ok s') as Hsame.
  { intros H1 H2. destruct Hl as [Hdom Hnd Hrows Hd]. split; rewrite ?H1, ?H2; [done..| |lia]. intros k z Hz. destruct (Hrows k z Hz) as (e & He & ?). exists e. rewrite Hr'. set_solver. }
  destruct op as [f q c e|a b|a b ch|f| |ch|]; cbn in Hs.
  - injection Hs as <-. apply Hsame; unfold PgAppend; by destruct (_ || _).
  - injection Hs as <-. apply Hsame; unfold PgSubscribe; by destruct (decide _).
  - unfold PgUnsubscribe in Hs. cbv zeta in Hs. destruct (list_find _ _) as [[]|]; [destruct (closeChan _ _); [|done]|]; cbn in Hs; injection Hs as <-; by apply Hsame.
  - injection Hs as <-. destruct (takeNote_took f s Hl Hg) as [|k notes|k notes a b evs newest Hi Hn -> Hsp Ha -> Hlast]; [done|by apply Hsame|]. clear Hsame.
    destruct Hl as [Hdom Hnd Hrows Hd]. split; cbn [withListener pLast pOrder pRows pDropped]; [..|done].
    + intros x. destruct (decide (x = k)) as [->|Hne]; [rewrite lookup_insert_eq|rewrite lookup_insert_ne by done; rewrite Hdom].
      * split; [|done]. intros _. destruct (pLast s !! k) eqn:Ek; [apply Hdom; by rewrite Ek|set_solver].
      * destruct (pLast s !! k); set_solver.
    + destruct (pLast s !! k) eqn:Ek; [done|]. apply NoDup_app. split_and!; [done| |apply NoDup_singleton]. intros x Hx ->%list_elem_of_singleton. apply Hdom in Hx as [? ?]. congruence.
    + intros x z. destruct (decide (x = k)) as [->|Hne]; [rewrite lookup_insert_eq; intros [= <-]|rewrite lookup_insert_ne by done; apply Hrows].
      apply last_elem, PgQuery_elem in Hlast as (Hin & Hp & _). exists newest. rewrite Hsp, Hp. split_and!; try done. unfold pairOf in Hp. by injection Hp as -> _.
  - unfold sendNext in Hs. destruct (pInflight s) as [|[ch ev] rest]; [by injection Hs as <-|]. destruct (pChans s !! ch) as [c|]; [|done]. cbn in Hs. destruct (closed c); [done|].
    destruct (decide _); injection Hs as <-; by apply Hsame.
  - unfold PgRecv in Hs. destruct (pChans s !! ch) as [c|]; [destruct (buf c)|]; injection Hs as <-; by apply Hsame.
  - injection Hs as <-. by apply Hsame.
Qed.

(** The listener's memory of the run is zero or the number of one of its events. *)
Lemma lastOf_row s : listener_ok s → lastOf s = 0 ∨ ∃ e, e ∈ runRows t r (pRows s) ∧ Sequence e = lastOf s.
Proof.
  intros Hl. unfold lastOf. destruct (pLast s !! key) as [z|] eqn:Ez; [right|by left]. destruct (l_rows _ Hl _ _ Ez) as (e & He & Hp & Hz & _).
  exists e. split; [|done]. unfold runRows, ofRun. rewrite split_key in Hp. unfold pairOf in Hp. injection Hp as -> ->. by apply list_elem_of_filter.
Qed.

Lemma numbered_app l k : numbered (l ++ k) → Forall (λ e, Forall (λ e', Sequence e' < Sequence e) l) k.
Proof.
  unfold numbered. intros Hs. apply Forall_forall. intros e He. apply Forall_forall. intros e' He'.
  exact (StronglySorted_app_1_elem_of (λ a b, Sequence a < Sequence b) l k e' e Hs He' He).
Qed.

(** An event that is added has a greater number than the listener has seen. *)
Lemma new_row_later s more : listener_ok s → numbered (runRows t r (pRows s ++ more)) → Forall (λ e, 0 < Sequence e) (runRows t r (pRows s ++ more)) →
  Forall (λ e, lastOf s < Sequence e) (runRows t r more).
Proof.
  intros Hl Hn Hp. rewrite runRows_app in *. apply Forall_app in Hp as [_ Hp]. apply numbered_app in Hn. rewrite !Forall_forall in *. intros e He.
  destruct (lastOf_row s Hl) as [->|(e0 & He0 & <-)]; [by apply Hp|]. pose proof (Hn e He) as Hall. rewrite Forall_forall in Hall. by apply Hall.
Qed.

Record watched (s0 : Z) (ch : nat) (got : list Event) (s : PgEventLog) : Prop := {
  w_reg : ch ∈ subsOf s key;
  w_flow : got ++ bufOf ch s ++ inflightOf ch s = window s0 (lastOf s) s;
  w_le : s0 <= lastOf s
}.

Lemma window_app a b s more : window a b (withTable (pRows s ++ more) (pNotes s) s) = window a b s ++ filter (λ e, a < Sequence e ∧ Sequence e <= b) (runRows t r more).
Proof. unfold window. cbn [withTable pRows]. by rewrite runRows_app, filter_app. Qed.

(** The next piece of the window. *)
Lemma window_extend s0 z newest s : numbered (runRows t r (pRows s)) → s0 <= z →
  last (filter (λ e, z < Sequence e) (runRows t r (pRows s))) = Some newest →
  window s0 (Sequence newest) s = window s0 z s ++ filter (λ e, z < Sequence e) (runRows t r (pRows s)) ∧ z < Sequence newest ∧
  Forall (λ e, Sequence e <= Sequence newest) (runRows t r (pRows s)).
Proof.
  unfold window. generalize (runRows t r (pRows s)) as l. intros l Hn Hz Hlast. pose proof (last_elem _ _ Hlast) as Hin. apply list_elem_of_filter in Hin as [Hzn Hin].
  assert (Forall (λ e, Sequence e <= Sequence newest) l) as Hmax.
  { apply Forall_forall. intros e He. destruct (decide (z < Sequence e)) as [Hze|]; [|lia]. pose proof (numbered_filter (λ e, z < Sequence e) _ Hn) as Hnf.
    apply last_Some in Hlast as [l' Hl']. assert (e ∈ filter (λ e, z < Sequence e) l) as Hef by (by apply list_elem_of_filter).
    rewrite Hl' in *. apply elem_of_app in Hef as [Hef| ->%list_elem_of_singleton]; [|lia]. apply numbered_app in Hnf. apply Forall_cons in Hnf as [Hnf _].
    rewrite Forall_forall in Hnf. specialize (Hnf _ Hef). lia. }
  split; [|done]. clear Hlast Hin. induction l as [|e l IH]; [done|]. apply StronglySorted_inv in Hn as [Hn Hall]. apply Forall_cons in Hmax as [He Hmax].
  rewrite !filter_cons. destruct (decide (z < Sequence e)) as [Hze|Hze].
  - rewrite (decide_True (P := s0 < Sequence e ∧ Sequence e <= Sequence newest)) by lia. rewrite (decide_False (P := s0 < Sequence e ∧ Sequence e <= z)) by lia.
    assert (Forall (λ e', z < Sequence e') l) as Hlater by (eapply Forall_impl; [exact Hall|]; cbn; intros; lia).
    rewrite (filter_none (λ e, s0 < Sequence e ∧ Sequence e <= z) l), (filter_all (λ e, z < Sequence e) l) by (done || (eapply Forall_impl; [exact Hlater|]; cbn; intros; lia)).
    cbn. f_equal. apply filter_all. rewrite !Forall_forall in *. intros x Hx. specialize (Hlater x Hx). specialize (Hmax x Hx). lia.
  - rewrite IH by done. destruct (decide (s0 < Sequence e ∧ Sequence e <= z)); [rewrite decide_True by lia|rewrite decide_False by lia]; done.
Qed.

Lemma inflight_fanOut ch k evs s : pg_ok s → inflightOf ch (withListener [] (pLast s) (pOrder s) (fanOut k evs s) s) = if decide (ch ∈ subsOf s k) then evs else [].
Proof.
  intros Hok. unfold inflightOf. cbn [withListener pInflight]. unfold fanOut. pose proof (po_nodup _ Hok k) as Hnd. revert Hnd. generalize (subsOf s k) as l. induction l as [|c l IH]; intros Hnd; [done|].
  apply NoDup_cons in Hnd as [Hni Hnd]. rewrite bind_cons, filter_app, fmap_app, (IH Hnd).
  assert ((filter (λ p : nat * Event, p.1 = ch) ((λ ev, (c, ev)) <$> evs)).*2 = if decide (c = ch) then evs else []) as ->.
  { clear. induction evs as [|e evs IH]; [by destruct (decide _)|]. cbn [fmap list_fmap]. rewrite filter_cons. cbn [fst]. destruct (decide (c = ch)); cbn; [by rewrite IH|done]. }
  destruct (decide (c = ch)) as [->|Hne].
  - rewrite (decide_False (P := ch ∈ l)), decide_True by (done || by left). apply app_nil_r.
  - cbn. destruct (decide (ch ∈ l)), (decide (ch ∈ c :: l)); set_solver.
Qed.

(** The operations that leave a subscription in place. *)
Definition keeps (ch : nat) (op : PgEventOp) : Prop :=
  match op with PUnsubscribe a b ch' => ch' ≠ ch ∨ subKey a b ≠ key | _ => True end.

Lemma reg_chan s ch : pg_ok s → ch ∈ subsOf s key → ∃ c, pChans s !! ch = Some c ∧ closed c = false.
Proof. intros Hok Hr'. by apply elem_of_openChans, (po_reg _ Hok key). Qed.

Lemma watched_take f s0 ch got s : pg_ok s → listener_ok s → good s → watched s0 ch got s → watched s0 ch got (takeNote f s).
Proof.
  intros Hok Hl Hg Hw. destruct (takeNote_took f s Hl Hg) as [|k notes Hi|k notes a b evs newest Hi Hn -> Hsp Ha -> Hlast]; [done| |].
  - destruct Hw as [Hreg Hflow Hle]. split; [done| |done]. unfold inflightOf in *. rewrite Hi in Hflow. exact Hflow.
  - destruct Hw as [Hreg Hflow Hle]. pose proof (inflight_fanOut ch k (PgQuery a b (default 0 (pLast s !! k)) s) s Hok) as Hfan.
    unfold inflightOf in *. cbn [withListener pInflight] in Hfan. rewrite Hi in Hflow. cbn in Hflow. rewrite app_nil_r in Hflow.
    destruct (decide (k = key)) as [->|Hk].
    + rewrite split_key in Hsp. injection Hsp as <- <-. fold (lastOf s) in *. rewrite PgQuery_numbered in * by (done || apply Hg).
      destruct (window_extend s0 (lastOf s) newest s (g_numbered _ Hg) Hle Hlast) as (Hwin & Hlt & _). split; [done| |].
      * replace (lastOf (withListener _ _ _ _ s)) with (Sequence newest) by (unfold lastOf; cbn; by rewrite lookup_insert_eq).
        unfold inflightOf. cbn [withListener pInflight]. rewrite Hfan, decide_True, app_assoc by done. change (bufOf ch (withListener _ _ _ _ s)) with (bufOf ch s).
        rewrite Hflow. symmetry. exact Hwin.
      * unfold lastOf. cbn [withListener pLast]. rewrite lookup_insert_eq. cbn. unfold lastOf in Hlt, Hle. lia.
    + assert (ch ∉ subsOf s k) as Hni by (intros Hx; by apply Hk, (po_uniq _ Hok _ _ ch)). assert (lastOf (withListener notes (<[k := Sequence newest]> (pLast s))
        (if pLast s !! k then pOrder s else pOrder s ++ [k]) (fanOut k (PgQuery a b (default 0 (pLast s !! k)) s) s) s) = lastOf s) as Hlo by (unfold lastOf; cbn; by rewrite lookup_insert_ne).
      split; [done| |by rewrite Hlo]. rewrite Hlo. unfold inflightOf. cbn [withListener pInflight]. rewrite Hfan, decide_False by done. rewrite app_nil_r. exact Hflow.
Qed.

Lemma watched_unsubscribe a b ch' s0 ch got s s' : pg_ok s → keeps ch (PUnsubscribe a b ch') → PgUnsubscribe a b ch' s = Some s' → watched s0 ch got s → watched s0 ch got s'.
Proof.
  intros Hok Hkeep Hs [Hreg Hflow Hle]. unfold PgUnsubscribe in Hs. cbv zeta in Hs. destruct (list_find _ _) as [[i x]|] eqn:El.
  - apply list_find_Some in El as (Hi & -> & _). pose proof (list_elem_of_lookup_2 _ _ _ Hi) as Hin.
    assert (ch' ≠ ch) as Hne. { intros ->. destruct Hkeep as [|Hk]; [done|]. by apply Hk, (po_uniq _ Hok _ _ ch). }
    destruct (reg_chan s ch Hok Hreg) as (c & Hc & _). unfold closeChan in Hs. destruct (pChans s !! ch') as [c'|] eqn:Ec'; [|done]. cbn in Hs. destruct (closed c'); [done|]. cbn in Hs.
    set (rest := take i _ ++ drop (S i) _) in *. injection Hs as <-.
    assert (ch ∈ go_get [] (if decide (rest = []) then delete (subKey a b) (pSubs s) else <[subKey a b := rest]> (pSubs s)) key) as Hreg'.
    { destruct (decide (subKey a b = key)) as [Hk|Hk].
      - assert (ch ∈ rest) as Hch. { subst rest. rewrite <- Hk in Hreg. rewrite <- (take_drop_middle _ _ _ Hi) in Hreg. set_solver. }
        destruct (decide (rest = [])) as [He|]; [rewrite He in Hch; by apply elem_of_nil in Hch|]. rewrite go_get_insert. by rewrite decide_True.
      - destruct (decide (rest = [])); unfold go_get in *; [by rewrite lookup_delete_ne|by rewrite lookup_insert_ne]. }
    split; [exact Hreg'| |done]. unfold bufOf in *. cbn [withSubs pChans]. by rewrite lookup_insert_ne.
  - injection Hs as <-. split; cbn [withSubs pSubs]; [|done|done]. destruct (decide (_ = [])) as [He|]; [|done].
    destruct (decide (subKey a b = key)) as [Hk|Hk]; [rewrite Hk in He; rewrite He in Hreg; by apply elem_of_nil in Hreg|]. unfold go_get in *. by rewrite lookup_delete_ne.
Qed.

Lemma watched_step s0 ch got s op got' s' : pg_ok s → listener_ok s → good s' → keeps ch op → watchStep ch (got, Some s) op = (got', Some s') →
  watched s0 ch got s → watched s0 ch got' s'.
Proof.
  intros Hok Hl Hg' Hkeep Hstep Hw. assert ((pgEventStep op (Some s)).2 = Some s') as Hs by (unfold watchStep in Hstep; cbn [snd] in Hstep; destruct (pgEventStep op (Some s)); by injection Hstep).
  pose proof (good_back _ _ _ Hs Hg') as Hg. unfold watchStep in Hstep. cbn [fst snd] in Hstep.
  destruct op as [f q c e|a b|a b ch'|f| |ch'|]; cbn -[PgAppend PgSubscribe PgUnsubscribe takeNote sendNext PgRecv] in Hs, Hstep; rewrite ?app_nil_r in Hstep.
  - injection Hstep as <- <-. destruct Hg' as [Hn Hp _ _]. unfold PgAppend in *. destruct (_ || _); [done|]. cbn [snd] in *. destruct Hw as [Hreg Hflow Hle]. split; [done| |done].
    change (lastOf (withTable _ _ s)) with (lastOf s). cbn [withTable pRows] in *. pose proof (new_row_later s _ Hl Hn Hp) as Hnew.
    change (got ++ bufOf ch s ++ inflightOf ch s = window s0 (lastOf s) (withTable (pRows s ++ [storedEvent c e]) (pNotes s) s)). rewrite window_app, filter_none, app_nil_r; [done|].
    eapply Forall_impl; [exact Hnew|]. cbn. intros; lia.
  - injection Hstep as <- <-. destruct Hw as [Hreg Hflow Hle]. unfold PgSubscribe. destruct (decide _); [done|]. cbv zeta. cbn [snd]. destruct (reg_chan s ch Hok Hreg) as (c & Hc & _).
    pose proof (po_fresh _ Hok ch ltac:(eauto)). split; cbn [withSubs pSubs]; [rewrite go_get_insert; destruct (decide _) as [He|]; [rewrite He; set_solver|done]| |done].
    unfold bufOf in *. cbn [withSubs pChans]. by rewrite lookup_insert_ne by lia.
  - rewrite Hs in Hstep. injection Hstep as <-. by eapply watched_unsubscribe.
  - injection Hstep as <- <-. by apply watched_take.
  - rewrite Hs in Hstep. injection Hstep as <-. unfold sendNext in Hs. destruct (pInflight s) as [|[c0 ev] rest] eqn:Ei; [by injection Hs as <-|].
    destruct (pChans s !! c0) as [c|] eqn:Ec; [|done]. cbn in Hs. destruct (closed c); [done|]. destruct (decide _); injection Hs as <-.
    + destruct Hw as [Hreg Hflow Hle]. split; [done| |done]. change (lastOf (withChans _ _ _ s)) with (lastOf s). unfold window. cbn [withChans pRows]. fold (window s0 (lastOf s) s). rewrite <- Hflow.
      unfold bufOf, inflightOf. rewrite Ei. cbn [withChans pChans pInflight]. rewrite filter_cons. cbn [fst]. destruct (decide (c0 = ch)) as [->|Hne].
      * rewrite lookup_insert_eq, Ec. cbn. by rewrite <- app_assoc.
      * by rewrite lookup_insert_ne.
    + destruct Hg' as [_ _ _ Hd]. cbn in Hd. pose proof (l_dropped _ Hl). lia.
  - unfold PgRecv in Hstep. destruct Hw as [Hreg Hflow Hle]. destruct (reg_chan s ch Hok Hreg) as (cw & Hcw & _). destruct (pChans s !! ch') as [c|] eqn:Ec; [destruct (buf c) as [|e rest] eqn:Eb|].
    + destruct (closed c); rewrite app_nil_r in Hstep; by injection Hstep as <- <-.
    + destruct (decide (ch' = ch)) as [->|Hne]; injection Hstep as <- <-; (split; [done| |done]); change (lastOf (withChans _ _ _ s)) with (lastOf s);
        unfold window, inflightOf, bufOf in *; cbn [withChans pRows pInflight pChans]; rewrite <- Hflow.
      * rewrite lookup_insert_eq, Hcw. rewrite Hcw in Ec. injection Ec as ->. rewrite Eb. cbn [buf]. by rewrite <- app_assoc.
      * by rewrite lookup_insert_ne, app_nil_r.
    + rewrite app_nil_r in Hstep. by injection Hstep as <- <-.
  - injection Hstep as <- <-. destruct Hw. by split.
Qed.

(** Nothing goes wrong with the notifications. *)
Definition calm (op : PgEventOp) : Prop :=
  match op with PAppend _ quiet _ _ => quiet = false | PTake fault => fault = false | PReconnect => False | _ => True end.

(** What the listener has not seen is announced. *)
Definition announced (s : PgEventLog) : Prop := key ∈ pNotes s ∨ Forall (λ e, Sequence e <= lastOf s) (runRows t r (pRows s)).

Lemma announced_step s op s' : listener_ok s → good s' → calm op → (pgEventStep op (Some s)).2 = Some s' → announced s → announced s'.
Proof.
  intros Hl Hg' Hcalm Hs Ha. pose proof (good_back _ _ _ Hs Hg') as Hg.
  assert (pNotes s' = pNotes s → pRows s' = pRows s → pLast s' = pLast s → announced s') as Hsame by (unfold announced, lastOf; intros -> -> ->; exact Ha).
  destruct op as [f q c e|a b|a b ch|f| |ch|]; cbn -[PgAppend PgSubscribe PgUnsubscribe takeNote sendNext PgRecv] in Hs, Hcalm; try done.
  - injection Hs as <-. subst q. unfold PgAppend. destruct (_ || _); [done|]. cbn [snd]. unfold announced. cbn [withTable pNotes pRows]. rewrite runRows_app, elem_of_app, list_elem_of_singleton.
    destruct (decide (ofRun t r e)) as [[<- <-]|Hno]; [auto|]. assert (runRows t r [storedEvent c e] = []) as ->; [|rewrite app_nil_r; destruct Ha; auto].
    unfold runRows. rewrite filter_cons, filter_nil. change (ofRun t r (storedEvent c e)) with (ofRun t r e). by rewrite decide_False.
  - injection Hs as <-. unfold PgSubscribe in *. destruct (decide _); [done|]. by apply Hsame.
  - unfold PgUnsubscribe in Hs. cbv zeta in Hs. destruct (list_find _ _) as [[]|]; [destruct (closeChan _ _); [|done]|]; cbn in Hs; injection Hs as <-; by apply Hsame.
  - injection Hs as <-. subst f. destruct (takeNote_took false s Hl Hg) as [|k notes Hi Hn Hsk|k notes a b evs newest Hi Hn _ Hsp Hane -> Hlast]; [done|..].
    + unfold announced in *. cbn [withListener pNotes pRows]. change (lastOf (withListener _ _ _ _ s)) with (lastOf s). rewrite Hn in Ha. destruct (decide (k = key)) as [->|]; [right; by apply Hsk|set_solver].
    + destruct (decide (k = key)) as [->|Hk].
      * right. rewrite split_key in Hsp. injection Hsp as <- <-. fold (lastOf s) in *. rewrite PgQuery_numbered in Hlast by apply Hg.
        destruct (window_extend (lastOf s) (lastOf s) newest s (g_numbered _ Hg) ltac:(lia) Hlast) as (_ & _ & Hmax).
        replace (lastOf (withListener _ _ _ _ s)) with (Sequence newest) by (unfold lastOf; cbn; by rewrite lookup_insert_eq). exact Hmax.
      * unfold announced in *. rewrite Hn in Ha. cbn [withListener pNotes pRows]. replace (lastOf (withListener _ _ _ _ s)) with (lastOf s) by (unfold lastOf; cbn; by rewrite lookup_insert_ne). set_solver.
  - unfold sendNext in Hs. destruct (pInflight s) as [|[ch ev] rest]; [by injection Hs as <-|]. destruct (pChans s !! ch) as [c|]; [|done]. cbn in Hs. destruct (closed c); [done|].
    destruct (decide _); injection Hs as <-; by apply Hsame.
  - unfold PgRecv in Hs. destruct (pChans s !! ch) as [c|]; [destruct (buf c)|]; injection Hs as <-; by apply Hsame.
Qed.

Lemma listener_new : listener_ok NewPgEventLog.
Proof. split; cbn; [|constructor| |done]; intros k; rewrite lookup_empty; [split; [by intros []|by intros ?%elem_of_nil]|done]. Qed.

(** Histories from the empty log. *)
Lemma reached ops s : pgRun (Some NewPgEventLog) ops = Some s → good s → listener_ok s ∧ (Forall calm ops → announced s).
Proof.
  revert s. induction ops as [|op ops IH] using rev_ind; intros s; [intros [= <-] _; split; [apply listener_new|by right]|].
  unfold pgRun. rewrite foldl_app. cbn [foldl]. fold (pgRun (Some NewPgEventLog) ops). destruct (pgRun (Some NewPgEventLog) ops) as [s1|]; [|done].
  intros Hs Hg. pose proof (good_back _ _ _ Hs Hg) as Hg1. destruct (IH s1 eq_refl Hg1) as [Hl Ha]. split; [by eapply listener_step|].
  intros [Hc1 Hc2]%Forall_app. apply Forall_cons in Hc2 as [Hc2 _]. eapply announced_step; eauto.
Qed.

Definition watchRun (ch : nat) (gs : list Event * option PgEventLog) (ops : list PgEventOp) : list Event * option PgEventLog := foldl (watchStep ch) gs ops.

Lemma watchRun_pgRun ch gs ops : (watchRun ch gs ops).2 = pgRun gs.2 ops.
Proof.
  revert gs. induction ops as [|op ops IH]; intros gs; [done|]. cbn [watchRun foldl]. fold (watchRun ch (watchStep ch gs op) ops). rewrite IH, pgRun_cons. f_equal.
  unfold watchStep. by destruct (pgEventStep op gs.2).
Qed.

Lemma watched_run ch s0 s2 ops got s3 : pg_ok s2 → listener_ok s2 → watched s0 ch [] s2 → Forall (keeps ch) ops → good s3 →
  watchRun ch ([], Some s2) ops = (got, Some s3) → watched s0 ch got s3.
Proof.
  intros Hok Hl Hw. revert got s3. induction ops as [|op ops IH] using rev_ind; intros got s3 Hk Hg; [by intros [= <- <-]|].
  apply Forall_app in Hk as [Hk1 Hk2]. apply Forall_cons in Hk2 as [Hk2 _]. unfold watchRun. rewrite foldl_app. cbn [foldl]. fold (watchRun ch ([], Some s2) ops).
  destruct (watchRun ch ([], Some s2) ops) as [got1 [s1|]] eqn:E1; [|unfold watchStep; cbn; by intros [=]]. intros Hstep.
  assert ((pgEventStep op (Some s1)).2 = Some s3) as Hs by (unfold watchStep in Hstep; cbn [snd] in Hstep; destruct (pgEventStep op (Some s1)); by injection Hstep).
  pose proof (good_back _ _ _ Hs Hg) as Hg1. pose proof (watchRun_pgRun ch ([], Some s2) ops) as Hrun. rewrite E1 in Hrun. cbn in Hrun. symmetry in Hrun.
  assert (pg_ok s1) by (by eapply pgRun_ok). assert (listener_ok s1).
  { clear -Hl Hrun Hg1 Ht Hr Hcolon H0. revert s1 Hg1 Hrun. induction ops as [|o ops IH] using rev_ind; intros s1 Hg1; [by intros [= <-]|]. unfold pgRun. rewrite foldl_app. cbn [foldl].
    fold (pgRun (Some s2) ops). destruct (pgRun (Some s2) ops) as [s'|]; [|done]. intros Hs. pose proof (good_back _ _ _ Hs Hg1). eapply listener_step; eauto. }
  eapply watched_step; eauto.
Qed.
End delivery.

(** C11. A subscriber to a run gets, in order and without gaps or repetitions, exactly the
    events between what the listener had seen when it subscribed and what the listener has seen
    now (received, buffered or about to be sent), under every interleaving of appends,
    notifications, sends, readers and other subscriptions, failed queries and reconnections
    included.  It must stay subscribed; the run's events must be numbered, positive and rising,
    and those of at most a thousand runs logged ([full_memory_forgets] says what happens beyond);
    nothing may be dropped for a full channel; and the tenant has no colon in its name.  When no
    statement has failed and no connection was lost, and no notification is waiting, that is
    every event from then on. *)
Theorem subscriber_gets_the_run `{SliceSort, !SliceSortLaws} t r ops1 ops2 s1 s2 s3 ch got
    (Ht : t ≠ "") (Hr : r ≠ "") (Hcolon : ∀ x y, t ≠ x +:+ ":" +:+ y)
    (H1 : pgRun (Some NewPgEventLog) ops1 = Some s1) (H2 : PgSubscribe t r s1 = (Some ch, s2)) (H3 : watchRun ch ([], Some s2) ops2 = (got, Some s3))
    (Hkeeps : Forall (keeps t r ch) ops2) (Hgood : good t r s3) :
  got ++ bufOf ch s3 ++ inflightOf ch s3 = window t r (lastOf t r s1) (lastOf t r s3) s3 ∧
  (Forall calm (ops1 ++ ops2) → pNotes s3 = [] → pInflight s3 = [] →
   got ++ bufOf ch s3 = filter (λ e, lastOf t r s1 < Sequence e) (runRows t r (pRows s3))).
Proof.
  pose proof (watchRun_pgRun ch ([], Some s2) ops2) as Hrun. rewrite H3 in Hrun. cbn in Hrun. symmetry in Hrun.
  assert (pgEventStep (PSubscribe t r) (Some s1) = (Blocks, Some s2)) as Hsub by (cbn; by rewrite H2).
  assert (pgRun (Some NewPgEventLog) (ops1 ++ PSubscribe t r :: ops2) = Some s3) as Hall.
  { unfold pgRun. rewrite foldl_app. fold (pgRun (Some NewPgEventLog) ops1). rewrite H1. cbn [foldl]. rewrite Hsub. exact Hrun. }
  assert (∀ ops s, pgRun (Some s) ops = Some s3 → good t r s) as Hback.
  { intros ops. induction ops as [|op ops IH]; intros s; [by intros [= ->]|]. rewrite pgRun_cons. destruct (pgEventStep op (Some s)).2 as [s'|] eqn:E; [|by rewrite pgRun_None].
    intros Hp. eapply (good_back t r Ht Hr Hcolon); [exact E|]. by apply IH. }
  pose proof (Hback _ _ Hrun) as Hg2. assert (good t r s1) as Hg1 by (eapply (good_back t r Ht Hr Hcolon (PSubscribe t r)); [by rewrite Hsub|done]).
  destruct (reached t r Ht Hr Hcolon _ _ H1 Hg1) as [Hl1 _]. pose proof (pgRun_ok _ _ _ H1 pg_ok_new) as Hok1.
  assert (listener_ok s2) as Hl2 by (eapply (listener_step t r Ht Hr Hcolon (PSubscribe t r)); [by rewrite Hsub|done|done]).
  assert (pg_ok s2) as Hok2 by (pose proof (PgSubscribe_ok t r s1 Hok1) as Hx; by rewrite H2 in Hx).
  assert (watched t r (lastOf t r s1) ch [] s2) as Hw2.
  { unfold PgSubscribe in H2. destruct (decide _); [done|]. injection H2 as <- <-. split; [cbn [withSubs pSubs]; rewrite go_get_insert, decide_True by done; set_solver| |done].
    unfold bufOf, inflightOf. cbn [withSubs pChans pInflight]. rewrite lookup_insert_eq. cbn. change (lastOf t r (withSubs _ _ _ _ s1)) with (lastOf t r s1).
    assert (filter (λ p, p.1 = pNextChan s1) (pInflight s1) = []) as ->.
    { apply filter_none. pose proof (pgRun_inflight _ _ _ H1 pg_ok_new ltac:(constructor)) as Hi. eapply Forall_impl; [exact Hi|]. cbn. lia. }
    cbn. symmetry. unfold window. apply filter_none, Forall_forall. intros e _. cbn. lia. }
  pose proof (watched_run t r Ht Hr Hcolon ch _ s2 ops2 got s3 Hok2 Hl2 Hw2 Hkeeps Hgood H3) as [_ Hflow _]. split; [exact Hflow|].
  intros [Hc1 Hc2]%Forall_app Hn Hi. destruct (reached t r Ht Hr Hcolon _ _ Hall Hgood) as [_ Ha].
  destruct Ha as [Ha|Ha]; [apply Forall_app; split; [done|]; by constructor|rewrite Hn in Ha; by apply elem_of_nil in Ha|].
  unfold inflightOf in Hflow. rewrite Hi in Hflow. cbn in Hflow. rewrite app_nil_r in Hflow. rewrite Hflow. unfold window. apply filter_ext_elem. intros e He.
  rewrite Forall_forall in Ha. specialize (Ha e He). tauto.
Qed.

(** ** Trying it *)

#[local] Instance pgevents_sort : SliceSort := mergeSlice.
#[local] Instance pgevents_sort_laws : SliceSortLaws := mergeSlice_laws.

Definition pg_event (id run : string) (n : Z) : Event := {|
  EventID := id; Sequence := n; ETime := "then"; EType := "step.token"; ETenantID := "acme"; EAgentID := "bot"; ERunID := run; StepID := "s"; Traceparent := ""; Payload := []
|}.

Definition before_ops : list PgEventOp := [PAppend false false "now" (pg_event "a1" "r1" 1); PTake false].
Definition after_ops : list PgEventOp :=
  [PAppend false false "now" (pg_event "a2" "r1" 2); PAppend false false "now" (pg_event "b1" "r2" 1); PTake false; PSend; PRecv 0;
   PAppend false false "now" (pg_event "a3" "r1" 3); PTake false; PTake false; PSend].

Definition theLog (os : option PgEventLog) : PgEventLog := default NewPgEventLog os.

Definition log1 : PgEventLog := theLog (pgRun (Some NewPgEventLog) before_ops).
Definition log2 : PgEventLog := (PgSubscribe "acme" "r1" log1).2.
Definition log3 : PgEventLog := theLog (watchRun 0 ([], Some log2) after_ops).2.

Lemma subscriber_gets_the_run_witness :
  EventID <$> ((watchRun 0 ([], Some log2) after_ops).1 ++ bufOf 0 log3) = ["a2"; "a3"] ∧
  (watchRun 0 ([], Some log2) after_ops).1 ++ bufOf 0 log3 = filter (λ e, lastOf "acme" "r1" log1 < Sequence e) (runRows "acme" "r1" (pRows log3)).
Proof.
  split; [by vm_compute|].
  assert (∀ x y, "acme" ≠ x +:+ ":" +:+ y) as Hc.
  { intros [|c1 [|c2 [|c3 [|c4 x]]]] y; rewrite ?string_app_cons, ?string_app_nil; try (by intros [=]); by destruct x. }
  assert (pgRun (Some NewPgEventLog) before_ops = Some log1) as H1 by (vm_compute; reflexivity).
  assert (PgSubscribe "acme" "r1" log1 = (Some 0%nat, log2)) as H2 by (vm_compute; reflexivity).
  assert (watchRun 0 ([], Some log2) after_ops = ((watchRun 0 ([], Some log2) after_ops).1, Some log3)) as H3 by (vm_compute; reflexivity).
  assert (Forall (keeps "acme" "r1" 0) after_ops) as Hk by (repeat constructor; done).
  assert (good "acme" "r1" log3) as Hg by (split; [unfold numbered; vm_compute; repeat constructor|vm_compute; by repeat constructor|by vm_compute|by vm_compute]).
  assert (Forall calm (before_ops ++ after_ops)) as Hcalm by by repeat constructor.
  assert (pNotes log3 = [] ∧ pInflight log3 = []) as [Hn Hi] by (split; vm_compute; reflexivity).
  destruct (subscriber_gets_the_run "acme" "r1" before_ops after_ops log1 log2 log3 0 _ ltac:(done) ltac:(done) Hc H1 H2 H3 Hk Hg) as [_ Hall].
  exact (Hall Hcalm Hn Hi).
Defined.

Lemma subscriptions_bounded_witness : pSubCount log3 = 1 ∧ pSubCount log3 = Z.of_nat (size (openChans (pChans log3))).
Proof.
  split; [by vm_compute|].
  assert (pgRun (Some NewPgEventLog) (before_ops ++ PSubscribe "acme" "r1" :: after_ops) = Some log3) as H by (vm_compute; reflexivity).
  destruct (subscriptions_bounded _ log3 H "acme" "r1") as [Hc _]. exact Hc.
Defined.

Definition two_runs : list (bool * (string * Event)) :=
  [(false, ("t1", pg_event "a1" "r1" 1)); (false, ("t2", pg_event "b1" "r2" 1)); (true, ("t3", pg_event "a2" "r1" 2))].

Lemma event_logs_agree_witness : ∃ file, foldl logStep (Some (NewFileEventLogStore ∅)) ((λ x, (x.1, x.2.2)) <$> two_runs) = Some file ∧
  kept <$> PgQuery "acme" "r1" 1 (foldl (λ s x, (PgAppend false false x.1 x.2 s).2) NewPgEventLog two_runs.*2) = kept <$> QueryFromSequence "acme" "r1" 1 file.
Proof.
  apply (event_logs_agree two_runs "acme" "r1" 1).
  - vm_compute. repeat constructor; set_solver.
  - unfold numbered. vm_compute. repeat constructor.
  - by repeat constructor.
  - done.
  - repeat constructor; done.
  - by vm_compute.
Defined.

(** The listener sends after it has let go of the lock: a subscriber that leaves between has
    its channel closed, and the send on it ends the process. *)
Example fan_out_panics :
  pgRun (Some NewPgEventLog) [PSubscribe "acme" "r1"; PAppend false false "now" (pg_event "a1" "r1" 1); PTake false; PUnsubscribe "acme" "r1" 0; PSend] = None.
Proof. by vm_compute. Qed.

(** Notifications that are lost with the connection are not made up for: the event stays
    unsent until the run's next one. *)
Example reconnect_misses_events :
  pInflight (theLog (pgRun (Some NewPgEventLog) [PSubscribe "acme" "r1"; PAppend false false "now" (pg_event "a1" "r1" 1); PReconnect; PTake false])) = [].
Proof. by vm_compute. Qed.

(** The listener remembers the last sequence of at most a thousand runs: a notification of
    another one makes it forget the oldest, whose next notification sends its subscribers all
    the run's events once more. *)
Lemma full_memory_forgets oldest rest key notes t r (s : PgEventLog) :
  pInflight s = [] → pNotes s = key :: notes → splitSubKey key = (t, r) → t ≠ "" → r ≠ "" → pLast s !! key = None →
  PgQuery t r 0 s ≠ [] →
  pInflight (takeNote false s) = fanOut key (PgQuery t r 0 s) s ∧
  (pOrder s = oldest :: rest → Z.of_nat (length (pOrder s)) = maxSubscriptions → oldest ≠ key → pLast (takeNote false s) !! oldest = None).
Proof.
  intros Hi Hn Hk Ht Hr Hl Hq. unfold takeNote. rewrite Hi, Hn, Hk, Hl, decide_False by tauto. cbn [default from_option id].
  destruct (last (PgQuery t r 0 s)) as [newest|] eqn:E; [|by apply last_None in E]. split; [by destruct (evictKeys _ _)|].
  intros Ho Hfull Hne. rewrite Ho in *. cbn [evictKeys]. rewrite decide_True by lia.
  rewrite evictKeys_none by (cbn [length] in Hfull; lia). cbn. rewrite lookup_insert_ne by done. apply lookup_delete_eq.
Qed.

(** Tenant and run are joined by a colon: a tenant whose name has one shares its key with a
    run of another tenant, and is sent that one's events. *)
Example colon_tenant_gets_others :
  let s := theLog (pgRun (Some NewPgEventLog) [PSubscribe "acme:eu" "r1"; PAppend false false "now" (pg_event "x" "eu:r1" 1); PTake false; PSend]) in
  ETenantID <$> bufOf 0 s = ["acme"].
Proof. by vm_compute. Qed.
