(* ===== verification/UsageReport.v ===== *)
(** * UsageReport: recorded usage, its reports and its export

    internal/storage/postgres/usage_store.go (the recorder behind the token budget of
    [Quota]) and usage_query.go (the aggregations), internal/usage/api.go and export.go (the
    two endpoints).  The table is the list of its rows; a statement fails when the database
    is down, which the outside decides.  The queries of a report see the same rows.  Reading
    a time from its text is an argument. *)
From S2P Require Import Prelude GoTime GoPath GoStrings GoCalendar Quota Access.

Record UsageRow := { uTenant : string; uModel : string; uTokens : Z; uRecordedAt : Time }.

Record PgUsage := { uRows : list UsageRow; uDown : bool }.

(** The column tokens is an INTEGER of 32 bits. *)
Definition in_int32 (z : Z) : Prop := - 2 ^ 31 <= z < 2 ^ 31.

#[global] Instance in_int32_dec z : Decision (in_int32 z).
Proof. unfold in_int32. apply _. Defined.

(** The model is not among the columns that are written. *)
Definition pgRecord (tenantID : string) (tokens : Z) (timestamp : Time) (s : PgUsage) : bool * PgUsage :=
  if decide (uDown s = true ∨ ¬ in_int32 tokens) then (false, s)
  else (true, {| uRows := uRows s ++ [{| uTenant := tenantID; uModel := ""; uTokens := tokens; uRecordedAt := timestamp |}]; uDown := uDown s |}).

Definition inRange (tenantID : string) (start end_ : Time) (r : UsageRow) : Prop := uTenant r = tenantID ∧ start <= uRecordedAt r ∧ uRecordedAt r < end_.

#[global] Instance inRange_dec t a b r : Decision (inRange t a b r).
Proof. unfold inRange. apply _. Defined.

Definition sumTokens (rows : list UsageRow) : Z := foldr (λ r, Z.add (uTokens r)) 0 rows.

(** Scanning a sum into an int fails when it does not fit. *)
Definition scanInt (z : Z) : option Z := if decide (in_int64 z) then Some z else None.

Definition usageWithin (unit : Duration) (tenantID : string) (at_ : Time) (s : PgUsage) : option Z :=
  let h := at_ - at_ mod unit in
  if uDown s then None else scanInt (sumTokens (filter (inRange tenantID h (h + unit)) (uRows s))).

Definition HourlyUsage : string → Time → PgUsage → option Z := usageWithin Hour.
Definition DailyUsage : string → Time → PgUsage → option Z := usageWithin Day.

#[export] Instance PgUsageRecorder : UsageRecorder PgUsage := {| usageRecord := pgRecord; hourlyUsage := HourlyUsage |}.

(** ** The report *)

Record UsageLine := { ulKey : string; ulTokens : Z; ulRuns : Z }.

Record UsageReport := { urTenant : string; urStart : string; urEnd : string; TotalTokens : Z; TotalRuns : Z; ByModel : list UsageLine; ByBucket : list UsageLine }.

Inductive UsageError := TotalQuery | ModelQuery | InvalidGranularity | BucketQuery.

(** [GROUP BY] a text: one line for each of its values. *)
Definition groupLines (key : UsageRow → string) (rows : list UsageRow) : list UsageLine :=
  (λ k, let g := filter (λ r, key r = k) rows in {| ulKey := k; ulTokens := sumTokens g; ulRuns := Z.of_nat (length g) |}) <$> remove_dups (key <$> rows).

Definition moreTokens (a b : UsageLine) : Prop := ulTokens b <= ulTokens a.

#[global] Instance moreTokens_dec a b : Decision (moreTokens a b).
Proof. unfold moreTokens. apply _. Defined.
#[global] Instance moreTokens_trans : Transitive moreTokens.
Proof. unfold moreTokens. intros a b c. lia. Qed.
#[global] Instance moreTokens_total : Total moreTokens.
Proof. unfold moreTokens. intros a b. lia. Qed.

Definition earlierKey (a b : UsageLine) : Prop := String.le (ulKey a) (ulKey b).

#[global] Instance earlierKey_dec a b : Decision (earlierKey a b).
Proof. unfold earlierKey. apply _. Defined.
#[global] Instance earlierKey_trans : Transitive earlierKey.
Proof. unfold earlierKey. intros a b c. apply (transitivity (R := String.le)). Qed.
#[global] Instance earlierKey_total : Total earlierKey.
Proof. unfold earlierKey. intros a b. apply (total String.le). Qed.

(** The text of a bucket: the day, or the hour with the rest of the time zero. *)
Definition bucketOf (hourly : bool) (r : UsageRow) : string :=
  if hourly then formatDay (uRecordedAt r) +:+ "T" +:+ pad 2 (uRecordedAt r mod Day / Hour) +:+ ":00:00Z" else formatDay (uRecordedAt r).

Definition hourlyOf (granularity : string) : option bool :=
  if decide (granularity = "hour") then Some true else if decide (granularity = "day" ∨ granularity = "") then Some false else None.

(** Every line's sum must fit. *)
Definition scanLines (ls : list UsageLine) : option (list UsageLine) :=
  if decide (Forall (λ l, in_int64 (ulTokens l)) ls) then Some ls else None.

(** The queries run one after the other; [faults] says which of the three fails. *)
Definition QueryUsage `{SliceSort} (faults : bool * bool * bool) (tenantID : string) (start end_ : Time) (granularity : string) (s : PgUsage) : UsageError + UsageReport :=
  let rows := filter (inRange tenantID start end_) (uRows s) in
  match (if faults.1.1 then None else scanInt (sumTokens rows)) with
  | None => inl TotalQuery
  | Some total =>
      match (if faults.1.2 then None else scanLines (sortSlice moreTokens (groupLines uModel rows))) with
      | None => inl ModelQuery
      | Some models =>
          match hourlyOf granularity with
          | None => inl InvalidGranularity
          | Some hourly =>
              match (if faults.2 then None else scanLines (sortSlice earlierKey (groupLines (bucketOf hourly) rows))) with
              | None => inl BucketQuery
              | Some buckets =>
                  inr {| urTenant := tenantID; urStart := formatRFC3339 start; urEnd := formatRFC3339 end_; TotalTokens := total;
                         TotalRuns := Z.of_nat (length rows); ByModel := models; ByBucket := buckets |}
              end
          end
      end
  end.

(** ** CSV (package encoding/csv) *)

(** A quotation mark as a text of its own. *)
Definition dquote : ascii := "034"%char.
Definition newline : ascii := "010"%char.

(** [fieldNeedsQuotes] *)
Definition fieldNeedsQuotes (field : string) : bool :=
  if decide (field = "") then false
  else if decide (field = "\.") then true
  else negb (stringForall (λ c, negb (bool_decide (c ∈ [newline; "013"%char; dquote; ","%char]))) field) || bool_decide (spaceLen field ≠ 0)%nat.

Fixpoint doubleQuotes (s : string) : string :=
  match s with
  | EmptyString => EmptyString
  | String c s => if decide (c = dquote) then String c (String c (doubleQuotes s)) else String c (doubleQuotes s)
  end.

Definition csvField (field : string) : string :=
  if fieldNeedsQuotes field then String dquote (doubleQuotes field +:+ String dquote "") else field.

Fixpoint csvRecord (fields : list string) : string :=
  match fields with
  | [] => String newline ""
  | [f] => csvField f +:+ String newline ""
  | f :: fields => csvField f +:+ String "," (csvRecord fields)
  end.

Definition csvWrite (records : list (list string)) : string := foldr (λ r, String.append (csvRecord r)) "" records.

(** ** The endpoints *)

Record UsageRequest := { ugMethod : string; ugAuth : option AuthContext; ugStart : string; ugEnd : string; ugGranularity : string }.

Inductive UsageAnswer := UDenied (status : Z) (code : string) | UReport (r : UsageReport) | UExport (body : string).

(** The first instant of the month. *)
Definition monthStart (now : Time) : Time := (now / Day - ((dateOf (now / Day)).2 - 1)) * Day.

Section handlers.
Context `{SliceSort} (env : Environ) (parseTime : string → option Time).

(** The common beginning: who asks, and for what period. *)
Definition usagePeriod (rq : UsageRequest) (now : Time) : UsageAnswer + (string * Time * Time) :=
  if decide (ugMethod rq ≠ "GET") then inl (UDenied 405 "method_not_allowed")
  else match ugAuth rq with
  | None => inl (UDenied 401 "unauthorized")
  | Some ac =>
      match RequireTenant env ac with
      | inl _ => inl (UDenied 400 "invalid_tenant")
      | inr tenantID =>
          match (if decide (ugStart rq = "") then Some (monthStart now) else parseTime (ugStart rq)) with
          | None => inl (UDenied 400 "invalid_start")
          | Some start =>
              match (if decide (ugEnd rq = "") then Some now else parseTime (ugEnd rq)) with
              | None => inl (UDenied 400 "invalid_end")
              | Some end_ => inr (tenantID, start, end_)
              end
          end
      end
  end.

Definition UsageHandler (rq : UsageRequest) (now : Time) (faults : bool * bool * bool) (s : PgUsage) : UsageAnswer :=
  match usagePeriod rq now with
  | inl a => a
  | inr (tenantID, start, end_) =>
      let g := ugGranularity rq in
      if decide (g ≠ "" ∧ g ≠ "day" ∧ g ≠ "hour") then UDenied 400 "invalid_granularity"
      else match QueryUsage faults tenantID start end_ (if decide (g = "") then "day" else g) s with
      | inl _ => UDenied 500 "internal"
      | inr r => UReport r
      end
  end.

Definition csvHeader : list string := ["date"; "tenant_id"; "model"; "input_tokens"; "output_tokens"; "runs"].

Definition exportRows (tenantID : string) (r : UsageReport) : list (list string) :=
  ((λ b, [ulKey b; tenantID; ""; pretty (ulTokens b); "0"; pretty (ulRuns b)]) <$> ByBucket r) ++
  ((λ m, ["total"; tenantID; ulKey m; pretty (ulTokens m); "0"; pretty (ulRuns m)]) <$> ByModel r).

Definition ExportHandler (rq : UsageRequest) (now : Time) (faults : bool * bool * bool) (s : PgUsage) : UsageAnswer :=
  match usagePeriod rq now with
  | inl a => a
  | inr (tenantID, start, end_) =>
      match QueryUsage faults tenantID start end_ "day" s with
      | inl _ => UDenied 500 "internal"
      | inr r => UExport (csvWrite (csvHeader :: exportRows tenantID r))
      end
  end.
End handlers.

(** ** The report adds up *)

Definition sumLines (f : UsageLine → Z) (ls : list UsageLine) : Z := foldr (λ l, Z.add (f l)) 0 ls.

Definition sumRows (g : UsageRow → Z) (rows : list UsageRow) : Z := foldr (λ r, Z.add (g r)) 0 rows.

Lemma sumRows_one rows : sumRows (λ _, 1) rows = Z.of_nat (length rows).
Proof. induction rows as [|r rows IH]; [done|]. cbn [sumRows foldr length]. fold (sumRows (λ _, 1) rows). lia. Qed.

Lemma sumLines_perm f ls ls' : ls ≡ₚ ls' → sumLines f ls = sumLines f ls'.
Proof. unfold sumLines. induction 1; cbn in *; lia. Qed.

Section groups.
Context (key : UsageRow → string) (g : UsageRow → Z).

Definition groupSum (rows : list UsageRow) (k : string) : Z := sumRows g (filter (λ r, key r = k) rows).

Lemma groupSum_cons r rows k : groupSum (r :: rows) k = (if decide (key r = k) then g r else 0) + groupSum rows k.
Proof. unfold groupSum. rewrite filter_cons. destruct (decide (key r = k)); cbn [sumRows foldr]; [done|lia]. Qed.

(** The sums of the groups add up to the sum, when every value of the key is listed once. *)
Lemma groups_sum ks rows : NoDup ks → Forall (λ r, key r ∈ ks) rows → foldr (λ k, Z.add (groupSum rows k)) 0 ks = sumRows g rows.
Proof.
  intros Hnd. induction rows as [|r rows IH]; intros Hall.
  - clear. induction ks as [|k ks IH]; [done|]. cbn [foldr]. rewrite IH. done.
  - apply Forall_cons in Hall as [Hr Hall]. cbn [sumRows foldr]. fold (sumRows g rows). rewrite <- (IH Hall). clear IH Hall.
    assert (foldr (λ k, Z.add (groupSum (r :: rows) k)) 0 ks = (if decide (key r ∈ ks) then g r else 0) + foldr (λ k, Z.add (groupSum rows k)) 0 ks) as ->; [|by rewrite decide_True].
    clear Hr. induction Hnd as [|k ks Hk Hnd IH]; [done|]. cbn [foldr]. rewrite IH, groupSum_cons.
    destruct (decide (key r = k)) as [->|Hn]; [rewrite (decide_False (P := k ∈ ks)), decide_True by (done || by left); lia|].
    destruct (decide (key r ∈ ks)), (decide (key r ∈ k :: ks)); try lia; set_solver.
Qed.
End groups.

(** The lines of a grouping: one for each value of the key in the rows, with its sum and count. *)
Definition linesOf (key : UsageRow → string) (rows : list UsageRow) (ls : list UsageLine) : Prop :=
  NoDup (ulKey <$> ls) ∧ sumLines ulTokens ls = sumTokens rows ∧ sumLines ulRuns ls = Z.of_nat (length rows) ∧
  ∀ l, l ∈ ls ↔ (∃ r, r ∈ rows ∧ key r = ulKey l) ∧ ulTokens l = sumTokens (filter (λ r, key r = ulKey l) rows) ∧
                ulRuns l = Z.of_nat (length (filter (λ r, key r = ulKey l) rows)).

Lemma groupLines_keys key rows : ulKey <$> groupLines key rows = remove_dups (key <$> rows).
Proof. unfold groupLines. rewrite <- list_fmap_compose. apply list_fmap_id. Qed.

Lemma groupLines_of key rows : linesOf key rows (groupLines key rows).
Proof.
  assert (Forall (λ r, key r ∈ remove_dups (key <$> rows)) rows) as Hall.
  { apply Forall_forall. intros r Hr. rewrite elem_of_remove_dups. apply list_elem_of_fmap. eauto. }
  split; [rewrite groupLines_keys; apply NoDup_remove_dups|]. split; [|split].
  - change (sumTokens rows) with (sumRows uTokens rows). rewrite <- (groups_sum key uTokens _ _ (NoDup_remove_dups _) Hall).
    unfold sumLines, groupLines. by rewrite foldr_fmap.
  - rewrite <- sumRows_one, <- (groups_sum key (λ _, 1) _ _ (NoDup_remove_dups _) Hall). unfold sumLines, groupLines. rewrite foldr_fmap.
    apply foldr_ext; [|done..]. intros k z. unfold groupSum. by rewrite sumRows_one.
  - intros l. unfold groupLines. rewrite list_elem_of_fmap. split.
    + intros (k & -> & Hk). cbn. rewrite elem_of_remove_dups, list_elem_of_fmap in Hk. destruct Hk as (r & -> & Hr). eauto.
    + intros ((r & Hr & Hk) & Ht & Hn). exists (ulKey l). split; [destruct l; cbn in *; by subst|]. rewrite elem_of_remove_dups, list_elem_of_fmap. eauto.
Qed.

Lemma linesOf_perm key rows ls ls' : ls ≡ₚ ls' → linesOf key rows ls → linesOf key rows ls'.
Proof.
  intros HP (H1 & H2 & H3 & H4). split; [by rewrite <- HP|]. split; [by rewrite <- (sumLines_perm _ _ _ HP)|]. split; [by rewrite <- (sumLines_perm _ _ _ HP)|].
  intros l. rewrite <- HP. apply H4.
Qed.

Lemma scanLines_Some ls ls' : scanLines ls = Some ls' → ls' = ls.
Proof. unfold scanLines. destruct (decide _); [by intros [= ->]|done]. Qed.

(** A report adds up: its total is the sum over the tenant's records in the period (the
    end excluded), its models and its buckets are the groups of exactly these records, each
    value once, and both add up to the total and to the number of records; models come by
    falling sum, buckets in the order of time. *)
Theorem usage_report_exact `{SliceSort, !SliceSortLaws} faults tenantID start end_ granularity s rep
    (Hrep : QueryUsage faults tenantID start end_ granularity s = inr rep) :
  let rows := filter (inRange tenantID start end_) (uRows s) in
  ∃ hourly, hourlyOf granularity = Some hourly ∧ urTenant rep = tenantID ∧ TotalTokens rep = sumTokens rows ∧ in_int64 (TotalTokens rep) ∧
    TotalRuns rep = Z.of_nat (length rows) ∧ linesOf uModel rows (ByModel rep) ∧ StronglySorted moreTokens (ByModel rep) ∧
    linesOf (bucketOf hourly) rows (ByBucket rep) ∧ StronglySorted earlierKey (ByBucket rep).
Proof.
  cbv zeta. unfold QueryUsage in Hrep. set (rows := filter _ (uRows s)) in *. destruct faults as [[f1 f2] f3]. cbn in Hrep.
  destruct (if f1 then _ else _) as [total|] eqn:E1; [|done]. destruct (if f2 then _ else _) as [models|] eqn:E2; [|done].
  destruct (hourlyOf granularity) as [hourly|]; [|done]. destruct (if f3 then _ else _) as [buckets|] eqn:E3; [|done]. injection Hrep as <-. cbn.
  destruct f1, f2, f3; try done. unfold scanInt in E1. destruct (decide _) as [Hi|]; [|done]. injection E1 as <-.
  apply scanLines_Some in E2 as ->, E3 as ->. exists hourly. split_and!; try done; try (apply sort_sorted; apply _);
    (eapply linesOf_perm; [symmetry; apply sort_perm|apply groupLines_of]).
Qed.

(** ** What the budget reads *)

Definition recordStep (s : PgUsage) (op : bool * (string * Z * Time)) : PgUsage :=
  (usageRecord op.2.1.1 op.2.1.2 op.2.2 {| uRows := uRows s; uDown := op.1 |}).2.

(** The records that were acknowledged. *)
Definition acknowledged (ops : list (bool * (string * Z * Time))) : list (string * Z * Time) := (filter (λ op, op.1 = false ∧ in_int32 op.2.1.2) ops).*2.

Lemma recorded_rows ops s : uRows (foldl recordStep s ops) =
  uRows s ++ ((λ x, {| uTenant := x.1.1; uModel := ""; uTokens := x.1.2; uRecordedAt := x.2 |}) <$> acknowledged ops).
Proof.
  revert s. induction ops as [|[down [[t n] ts]] ops IH]; intros s; [cbn; by rewrite app_nil_r|]. cbn [foldl]. rewrite IH. unfold acknowledged. rewrite filter_cons. cbn [fst snd].
  unfold recordStep at 1. cbn. unfold pgRecord. cbn [uDown uRows]. destruct down.
  - rewrite decide_True by auto. rewrite decide_False by naive_solver. done.
  - destruct (decide (in_int32 n)) as [Hn|Hn].
    + rewrite decide_False by naive_solver. rewrite decide_True by done. cbn. by rewrite <- app_assoc.
    + rewrite decide_True by auto. rewrite decide_False by naive_solver. done.
Qed.

Lemma same_unit unit t now : 0 < unit → now - now mod unit <= t ∧ t < now - now mod unit + unit ↔ t / unit = now / unit.
Proof.
  intros Hu. pose proof (Z.div_mod now unit ltac:(lia)). pose proof (Z.mod_pos_bound now unit Hu). pose proof (Z.div_mod t unit ltac:(lia)). pose proof (Z.mod_pos_bound t unit Hu). nia.
Qed.

(** What the token budget reads for an hour is the sum of the tokens that were
    acknowledged for the tenant in that hour of the clock, as long as it fits and the
    database answers; likewise for a day.  Failed and oversized records count nowhere. *)
Theorem usage_recorded_exact ops tenantID now :
  let s := foldl recordStep {| uRows := []; uDown := false |} ops in
  let up := {| uRows := uRows s; uDown := false |} in
  let within unit := sumTokens ((λ x, {| uTenant := x.1.1; uModel := ""; uTokens := x.1.2; uRecordedAt := x.2 |}) <$>
    filter (λ x, x.1.1 = tenantID ∧ x.2 / unit = now / unit) (acknowledged ops)) in
  hourlyUsage tenantID now up = scanInt (within Hour) ∧ DailyUsage tenantID now up = scanInt (within Day) ∧
  hourlyUsage tenantID now {| uRows := uRows s; uDown := true |} = None.
Proof.
  cbv zeta. rewrite recorded_rows. cbn [uRows app]. assert (∀ unit, 0 < unit → usageWithin unit tenantID now
    {| uRows := (λ x, {| uTenant := x.1.1; uModel := ""; uTokens := x.1.2; uRecordedAt := x.2 |}) <$> acknowledged ops; uDown := false |} =
    scanInt (sumTokens ((λ x, {| uTenant := x.1.1; uModel := ""; uTokens := x.1.2; uRecordedAt := x.2 |}) <$> filter (λ x, x.1.1 = tenantID ∧ x.2 / unit = now / unit) (acknowledged ops)))) as Hw.
  { intros unit Hu. unfold usageWithin. cbn [uDown uRows]. cbv zeta. f_equal. f_equal. generalize (acknowledged ops) as l. induction l as [|[[t n] ts] l IH]; [done|].
    cbn [fmap list_fmap]. rewrite !filter_cons. cbn [fst snd]. pose proof (same_unit unit ts now Hu) as Hs.
    set (row := {| uTenant := t; uModel := ""; uTokens := n; uRecordedAt := ts |}).
    assert (inRange tenantID (now - now mod unit) (now - now mod unit + unit) row ↔ t = tenantID ∧ ts / unit = now / unit) as Hr by (rewrite <- Hs; done).
    destruct (decide (t = tenantID ∧ ts / unit = now / unit)) as [He|Hn]; [rewrite decide_True by tauto|rewrite decide_False by tauto; exact IH].
    cbn [fmap list_fmap]. unfold sumTokens in *. cbn [foldr]. by f_equal. }
  split; [apply (Hw Hour); done|]. split; [apply (Hw Day); done|done].
Qed.

(** ** The export can be read back *)

(** A reader of RFC 4180: where it is in a field, the fields before it, and the rest. *)
Inductive CsvState := AtStart | Plain (cur : string) | Quoted (cur : string) | Closing (cur : string).

Fixpoint csvParse (st : CsvState) (fields : list string) (s : string) : option (list (list string)) :=
  match s with
  | EmptyString => match st, fields with AtStart, [] => Some [] | _, _ => None end
  | String c s =>
      let ends (cur : string) := if decide (c = newline) then cons (fields ++ [cur]) <$> csvParse AtStart [] s else csvParse AtStart (fields ++ [cur]) s in
      match st with
      | AtStart =>
          if decide (c = dquote) then csvParse (Quoted "") fields s
          else if decide (c = newline ∨ c = ","%char) then ends "" else csvParse (Plain (String c "")) fields s
      | Plain cur =>
          if decide (c = newline ∨ c = ","%char) then ends cur
          else if decide (c = dquote) then None else csvParse (Plain (cur +:+ String c "")) fields s
      | Quoted cur => if decide (c = dquote) then csvParse (Closing cur) fields s else csvParse (Quoted (cur +:+ String c "")) fields s
      | Closing cur =>
          if decide (c = dquote) then csvParse (Quoted (cur +:+ String c "")) fields s
          else if decide (c = newline ∨ c = ","%char) then ends cur else None
      end
  end.

(** What a field is followed by, and what becomes of it. *)
Definition fieldEnds (c : ascii) (fields : list string) (cur s : string) : option (list (list string)) :=
  if decide (c = newline) then cons (fields ++ [cur]) <$> csvParse AtStart [] s else csvParse AtStart (fields ++ [cur]) s.

Lemma snoc_app cur c f : (cur +:+ String c "") +:+ f = cur +:+ String c f.
Proof. rewrite <- string_app_assoc, string_app_cons. done. Qed.

Lemma parse_quoted f cur fields t : csvParse (Quoted cur) fields (doubleQuotes f +:+ t) = csvParse (Quoted (cur +:+ f)) fields t.
Proof.
  revert cur. induction f as [|c f IH]; intros cur; [by rewrite string_app_nil_r|]. cbn [doubleQuotes]. destruct (decide (c = dquote)) as [->|Hn].
  - rewrite !string_app_cons. cbn [csvParse]. rewrite decide_True by done. cbn [csvParse]. rewrite decide_True, IH by done. by rewrite snoc_app.
  - rewrite string_app_cons. cbn [csvParse]. rewrite decide_False, IH by done. by rewrite snoc_app.
Qed.

Definition plainByte (c : ascii) : bool := negb (bool_decide (c ∈ [newline; "013"%char; dquote; ","%char])).

Lemma parse_plain f cur fields t : stringForall plainByte f = true → csvParse (Plain cur) fields (f +:+ t) = csvParse (Plain (cur +:+ f)) fields t.
Proof.
  revert cur. induction f as [|c f IH]; intros cur Hf; [by rewrite string_app_nil_r|]. cbn [stringForall] in Hf. apply andb_true_iff in Hf as [Hc Hf].
  rewrite string_app_cons. cbn [csvParse]. unfold plainByte in Hc. apply negb_true_iff, bool_decide_eq_false in Hc.
  rewrite !decide_False, IH by (done || set_solver). by rewrite snoc_app.
Qed.

Lemma parse_field f fields c t : c = newline ∨ c = ","%char → csvParse AtStart fields (csvField f +:+ String c t) = fieldEnds c fields f t.
Proof.
  intros Hc. assert (c ≠ dquote) as Hq by (by destruct Hc as [->| ->]). unfold csvField. destruct (fieldNeedsQuotes f) eqn:En.
  - rewrite string_app_cons. cbn [csvParse]. rewrite decide_True by done. rewrite <- string_app_assoc, parse_quoted. cbn [String.append csvParse].
    rewrite string_app_cons, string_app_nil. cbn [csvParse]. rewrite decide_True by done. rewrite ?string_app_nil. cbn [csvParse]. by rewrite decide_False, decide_True by done.
  - unfold fieldNeedsQuotes in En. destruct (decide (f = "")) as [->|Hf].
    + rewrite string_app_nil. cbn [csvParse]. by rewrite decide_False, decide_True by done.
    + destruct (decide (f = "\.")); [done|]. apply orb_false_iff in En as [En _]. apply negb_false_iff in En. change (stringForall plainByte f = true) in En.
      destruct f as [|x f]; [done|]. cbn [stringForall] in En. apply andb_true_iff in En as [Hx En]. unfold plainByte in Hx. apply negb_true_iff, bool_decide_eq_false in Hx.
      rewrite string_app_cons. cbn [csvParse]. rewrite !(decide_False (P := x = dquote)), (decide_False (P := x = newline ∨ _)) by set_solver.
      rewrite parse_plain by done. rewrite string_app_cons, string_app_nil. cbn [csvParse]. by rewrite decide_True by done.
Qed.

Lemma parse_record r fields t : r ≠ [] → csvParse AtStart fields (csvRecord r +:+ t) = cons (fields ++ r) <$> csvParse AtStart [] t.
Proof.
  revert fields. induction r as [|f r IH]; intros fields; [done|]. intros _. destruct r as [|f' r].
  - cbn [csvRecord]. rewrite <- string_app_assoc, string_app_cons, string_app_nil, parse_field by auto. unfold fieldEnds. by rewrite decide_True by done.
  - change (csvRecord (f :: f' :: r)) with (csvField f +:+ String "," (csvRecord (f' :: r))). rewrite <- string_app_assoc, string_app_cons, parse_field by auto.
    unfold fieldEnds. rewrite decide_False by done. rewrite IH by done. by rewrite <- app_assoc.
Qed.

Lemma parse_write rs : Forall (λ r, r ≠ []) rs → csvParse AtStart [] (csvWrite rs) = Some rs.
Proof.
  induction 1 as [|r rs Hr Hrs IH]; [done|]. change (csvWrite (r :: rs)) with (csvRecord r +:+ csvWrite rs). rewrite parse_record by done. by rewrite IH.
Qed.

Lemma usagePeriod_denied env parseTime rq now a : usagePeriod env parseTime rq now = inl a → ∃ status code, a = UDenied status code.
Proof. unfold usagePeriod. intros Ha. repeat case_match; simplify_eq; eauto. Qed.

(** The lines of a grouping are made from their keys. *)
Lemma lines_from_keys key rows ls : linesOf key rows ls →
  ls = (λ k, let g := filter (λ r, key r = k) rows in {| ulKey := k; ulTokens := sumTokens g; ulRuns := Z.of_nat (length g) |}) <$> (ulKey <$> ls).
Proof.
  intros (_ & _ & _ & Hl). rewrite <- list_fmap_compose. symmetry. transitivity (id <$> ls); [|apply list_fmap_id].
  apply list_fmap_ext. intros i l Hi. apply list_elem_of_lookup_2, Hl in Hi as (_ & Ht & Hn). cbn. rewrite <- Ht, <- Hn. by destruct l.
Qed.

Lemma StronglySorted_map {A B} (f : A → B) (R : relation B) l : StronglySorted (λ x y, R (f x) (f y)) l → StronglySorted R (f <$> l).
Proof. induction 1 as [|x l _ IH Hx]; constructor; [done|]. by apply Forall_fmap. Qed.

Lemma sumTokens_tokens rows : sumTokens rows = foldr Z.add 0 (uTokens <$> rows).
Proof. unfold sumTokens. by rewrite foldr_fmap. Qed.

Lemma lines_keys key rows ls : linesOf key rows ls → ∀ k, k ∈ ulKey <$> ls ↔ filter (λ r, key r = k) rows ≠ [].
Proof.
  intros HL k. pose proof (lines_from_keys _ _ _ HL) as HK. destruct HL as (_ & _ & _ & Hl). split.
  - intros (l & -> & Hin)%list_elem_of_fmap. apply Hl in Hin as ((r & Hr & Hk) & _). intros HE.
    assert (Hx : r ∈ filter (λ r, key r = ulKey l) rows) by (by apply list_elem_of_filter). rewrite HE in Hx. by apply not_elem_of_nil in Hx.
  - intros HN. destruct (filter _ rows) as [|r rs] eqn:E; [done|]. assert (Hr : r ∈ filter (λ r, key r = k) rows) by (rewrite E; left).
    apply list_elem_of_filter in Hr as [Hk Hr]. apply list_elem_of_fmap.
    exists {| ulKey := k; ulTokens := sumTokens (filter (λ r, key r = k) rows); ulRuns := Z.of_nat (length (filter (λ r, key r = k) rows)) |}.
    split; [done|]. apply Hl. cbn. eauto.
Qed.

Lemma StronglySorted_keys key rows ls : linesOf key rows ls → StronglySorted moreTokens ls →
  StronglySorted (λ m m', foldr Z.add 0 (uTokens <$> filter (λ r, key r = m') rows) <= foldr Z.add 0 (uTokens <$> filter (λ r, key r = m) rows)) (ulKey <$> ls).
Proof.
  intros (_ & _ & _ & Hl) HS. apply StronglySorted_map. assert (HF : ∀ l, l ∈ ls → ulTokens l = foldr Z.add 0 (uTokens <$> filter (λ r, key r = ulKey l) rows)).
  { intros l (_ & Ht & _)%Hl. by rewrite <- sumTokens_tokens. }
  clear Hl. induction HS as [|l ls _ IH Hx]; constructor; [apply IH; intros; apply HF; by right|]. rewrite Forall_forall in *. intros x Hin.
  rewrite <- !HF by (by left || by right). by apply Hx.
Qed.

(** Parts of a sum of counts that fits, fit. *)
Lemma sumTokens_part (P : UsageRow → Prop) `{∀ r, Decision (P r)} rows : Forall (λ r, 0 <= uTokens r) rows →
  0 <= sumTokens (filter P rows) <= sumTokens rows.
Proof.
  induction 1 as [|r rows Hr _ IH]; [done|]. rewrite filter_cons. destruct (decide (P r)); unfold sumTokens in *; cbn [foldr]; lia.
Qed.

Lemma scanLines_fit key rows ls : ls ≡ₚ groupLines key rows → Forall (λ r, 0 <= uTokens r) rows → in_int64 (sumTokens rows) → scanLines ls = Some ls.
Proof.
  intros HP Hpos [_ Hfit]. unfold scanLines. rewrite decide_True; [done|]. apply Forall_forall. intros l Hl. rewrite HP in Hl.
  apply (proj2 (proj2 (proj2 (groupLines_of key rows)))) in Hl as (_ & -> & _).
  pose proof (sumTokens_part (λ r, key r = ulKey l) rows Hpos). split; lia.
Qed.

Lemma QueryUsage_answers `{SliceSort, !SliceSortLaws} tenantID start end_ s :
  let rows := filter (inRange tenantID start end_) (uRows s) in
  Forall (λ r, 0 <= uTokens r) rows → in_int64 (sumTokens rows) → ∃ rep, QueryUsage (false, false, false) tenantID start end_ "day" s = inr rep.
Proof.
  cbv zeta. intros Hpos Hfit. unfold QueryUsage. cbn [fst snd]. unfold scanInt. rewrite decide_True by done.
  rewrite (scanLines_fit uModel _ _ (sort_perm _ _) Hpos Hfit). change (hourlyOf "day") with (Some false). cbv iota. rewrite (scanLines_fit (bucketOf false) _ _ (sort_perm _ _) Hpos Hfit). eauto.
Qed.

(** C35. The export reads back as the tenant's usage: whatever the tenant and the models are
    named (commas, quotation marks, line ends), a reader of CSV finds the header, a row for
    each day of the period on which the tenant has records, in the order of the days, and
    then one for each model they name, by falling tokens.  A row has the day, or the word
    total; the tenant; the model, or nothing; the sum of the tokens of exactly those records
    of the tenant in the period (from the start, up to the end); a zero; and their number.
    When the queries do not fail and the tokens, none negative, have a sum that fits, there
    is an export. *)
Theorem usage_export_roundtrip `{SliceSort, !SliceSortLaws} env parseTime rq now faults s ac tenantID start end_ :
  ugMethod rq = "GET" → ugAuth rq = Some ac → RequireTenant env ac = inr tenantID →
  (if decide (ugStart rq = "") then Some (monthStart now) else parseTime (ugStart rq)) = Some start →
  (if decide (ugEnd rq = "") then Some now else parseTime (ugEnd rq)) = Some end_ →
  let rows := filter (λ r, uTenant r = tenantID ∧ start <= uRecordedAt r ∧ uRecordedAt r < end_) (uRows s) in
  let onDay d := filter (λ r, formatDay (uRecordedAt r) = d) rows in
  let ofModel m := filter (λ r, uModel r = m) rows in
  let tokens (rs : list UsageRow) := foldr Z.add 0 (uTokens <$> rs) in
  let count (rs : list UsageRow) := Z.of_nat (length rs) in
  (faults = (false, false, false) → Forall (λ r, 0 <= uTokens r) rows → in_int64 (tokens rows) → ∃ body, ExportHandler env parseTime rq now faults s = UExport body) ∧
  ∀ body, ExportHandler env parseTime rq now faults s = UExport body → ∃ days models,
    (NoDup days ∧ StronglySorted String.le days ∧ ∀ d, d ∈ days ↔ onDay d ≠ []) ∧
    (NoDup models ∧ StronglySorted (λ m m', tokens (ofModel m') <= tokens (ofModel m)) models ∧ ∀ m, m ∈ models ↔ ofModel m ≠ []) ∧
    csvParse AtStart [] body = Some (["date"; "tenant_id"; "model"; "input_tokens"; "output_tokens"; "runs"] ::
      ((λ d, [d; tenantID; ""; pretty (tokens (onDay d)); "0"; pretty (count (onDay d))]) <$> days) ++
      ((λ m, ["total"; tenantID; m; pretty (tokens (ofModel m)); "0"; pretty (count (ofModel m))]) <$> models)).
Proof.
  intros Hm Ha Ht Hs He. cbv zeta. change (filter (λ r, uTenant r = tenantID ∧ start <= uRecordedAt r ∧ uRecordedAt r < end_) (uRows s)) with (filter (inRange tenantID start end_) (uRows s)).
  set (rows := filter (inRange tenantID start end_) (uRows s)). unfold ExportHandler, usagePeriod. rewrite decide_False by auto. rewrite Ha, Ht, Hs, He.
  rewrite <- sumTokens_tokens. split.
  { intros -> Hpos Hfit. destruct (QueryUsage_answers tenantID start end_ s Hpos Hfit) as [rep ->]. eauto. }
  intros body. destruct (QueryUsage faults tenantID start end_ "day" s) as [|rep] eqn:Eq; [done|]. intros [= <-].
  destruct (usage_report_exact _ _ _ _ _ _ _ Eq) as (hourly & [= <-] & _ & _ & _ & _ & HM & HMs & HB & HBs). fold rows in HM, HB.
  exists (ulKey <$> ByBucket rep), (ulKey <$> ByModel rep). split_and!.
  - apply HB.
  - by apply StronglySorted_map.
  - apply (lines_keys _ _ _ HB).
  - apply HM.
  - eapply StronglySorted_keys; [exact HM|exact HMs].
  - apply (lines_keys _ _ _ HM).
  - transitivity (Some (csvHeader :: exportRows tenantID rep)).
    { refine (parse_write (csvHeader :: exportRows tenantID rep) _). constructor; [done|]. unfold exportRows.
      apply Forall_app. split; apply Forall_forall; intros r Hr; apply list_elem_of_fmap in Hr as (l & -> & _); done. }
    f_equal. f_equal. unfold exportRows. rewrite (lines_from_keys _ _ _ HM) at 1. rewrite (lines_from_keys _ _ _ HB) at 1. rewrite <- !list_fmap_compose.
    f_equal; apply list_fmap_ext; intros i l _; cbn; by rewrite sumTokens_tokens.
Qed.

(** Usage is the caller's own: both endpoints answer from the records of the tenant that
    the request is admitted for, and only from those, whatever else is in the table. *)
Theorem usage_isolated `{SliceSort} env parseTime rq now faults s s' :
  (∀ ac t, ugAuth rq = Some ac → RequireTenant env ac = inr t → filter (λ r, uTenant r = t) (uRows s) = filter (λ r, uTenant r = t) (uRows s')) →
  UsageHandler env parseTime rq now faults s = UsageHandler env parseTime rq now faults s' ∧
  ExportHandler env parseTime rq now faults s = ExportHandler env parseTime rq now faults s'.
Proof.
  intros Hsame. unfold UsageHandler, ExportHandler. destruct (usagePeriod env parseTime rq now) as [a|[[t start] end_]] eqn:Ep; [done|].
  assert (filter (λ r, uTenant r = t) (uRows s) = filter (λ r, uTenant r = t) (uRows s')) as Hr.
  { unfold usagePeriod in Ep. destruct (decide _); [done|]. destruct (ugAuth rq) as [ac|] eqn:Ea; [|done]. destruct (RequireTenant env ac) as [|t'] eqn:Et; [done|].
    destruct (if decide (ugStart rq = "") then _ else _); [|done]. destruct (if decide (ugEnd rq = "") then _ else _); [|done]. injection Ep as -> _ _. by eapply Hsame. }
  assert (∀ g, QueryUsage faults t start end_ g s = QueryUsage faults t start end_ g s') as Hq.
  { intros g. unfold QueryUsage. cbv zeta. assert (∀ x, filter (inRange t start end_) (uRows x) = filter (λ r, start <= uRecordedAt r ∧ uRecordedAt r < end_) (filter (λ r, uTenant r = t) (uRows x))) as Hf.
    { intros x. rewrite list_filter_filter. apply list_filter_iff. unfold inRange. intros; tauto. }
    by rewrite !Hf, Hr. }
  by rewrite !Hq.
Qed.

(** ** Trying it *)

#[local] Instance usage_sort : SliceSort := mergeSlice.
#[local] Instance usage_sort_laws : SliceSortLaws := mergeSlice_laws.

Definition usage_day : Time := 63844797600 * Second.

Definition sample_usage : PgUsage := {|
  uRows := [{| uTenant := "acme"; uModel := "a,b"; uTokens := 5; uRecordedAt := usage_day |}; {| uTenant := "other"; uModel := ""; uTokens := 9; uRecordedAt := usage_day |};
            {| uTenant := "acme"; uModel := ""; uTokens := 7; uRecordedAt := usage_day + Day |}];
  uDown := false
|}.

Definition sample_usage_auth : AuthContext := FromRequest (λ h, if decide (h = "X-Tenant-Id") then "acme" else "").

Definition sample_usage_request : UsageRequest :=
  {| ugMethod := "GET"; ugAuth := Some sample_usage_auth; ugStart := ""; ugEnd := ""; ugGranularity := "" |}.

Example month_starts : formatRFC3339 (monthStart usage_day) = "2024-02-01T00:00:00Z".
Proof. by vm_compute. Qed.

Definition sample_usage_report : UsageReport :=
  match QueryUsage (false, false, false) "acme" usage_day (usage_day + 2 * Day) "day" sample_usage with
  | inr r => r
  | inl _ => {| urTenant := ""; urStart := ""; urEnd := ""; TotalTokens := 0; TotalRuns := 0; ByModel := []; ByBucket := [] |}
  end.

Lemma usage_report_exact_witness : TotalTokens sample_usage_report = 12 ∧
  ByBucket sample_usage_report = [{| ulKey := "2024-02-29"; ulTokens := 5; ulRuns := 1 |}; {| ulKey := "2024-03-01"; ulTokens := 7; ulRuns := 1 |}] ∧
  StronglySorted moreTokens (ByModel sample_usage_report).
Proof.
  assert (QueryUsage (false, false, false) "acme" usage_day (usage_day + 2 * Day) "day" sample_usage = inr sample_usage_report) as Hq by (vm_compute; reflexivity).
  split; [vm_compute; reflexivity|]. split; [vm_compute; reflexivity|].
  destruct (usage_report_exact _ _ _ _ _ _ _ Hq) as (h & _ & _ & _ & _ & _ & _ & Hs & _). exact Hs.
Defined.

Definition sample_export_request : UsageRequest :=
  {| ugMethod := "GET"; ugAuth := Some sample_usage_auth; ugStart := "2024-02-29"; ugEnd := ""; ugGranularity := "" |}.

Lemma usage_export_roundtrip_witness : ∃ body,
  ExportHandler (λ _, "") (λ _, Some usage_day) sample_export_request (usage_day + Day + 1) (false, false, false) sample_usage = UExport body ∧
  ∃ days models, (StronglySorted String.le days ∧ "2024-02-29" ∈ days ∧ "2024-03-01" ∈ days) ∧ ("a,b" ∈ models ∧ "other" ∉ models) ∧
    (λ rs, length rs) <$> csvParse AtStart [] body = Some (S (length days + length models)).
Proof.
  destruct (usage_export_roundtrip (λ _, "") (λ _, Some usage_day) sample_export_request (usage_day + Day + 1) (false, false, false) sample_usage
    sample_usage_auth "acme" usage_day (usage_day + Day + 1) eq_refl eq_refl eq_refl eq_refl eq_refl) as [HE HB].
  destruct HE as [body Hb]; [done|vm_compute; repeat constructor; discriminate|vm_compute; split; [discriminate|reflexivity]|].
  exists body. split; [exact Hb|]. destruct (HB body Hb) as (days & models & (_ & Hs & Hd) & (_ & _ & Hm) & Hc). exists days, models. split_and!.
  - exact Hs.
  - apply Hd. vm_compute. discriminate.
  - apply Hd. vm_compute. discriminate.
  - apply Hm. vm_compute. discriminate.
  - rewrite Hm. intros HN. apply HN. vm_compute. reflexivity.
  - rewrite Hc. cbn [fmap option_fmap option_map length]. by rewrite length_app, !length_fmap.
Defined.

Lemma usage_isolated_witness : UsageHandler (λ _, "") (λ _, Some usage_day) sample_usage_request (usage_day + Day) (false, false, false) sample_usage =
  UsageHandler (λ _, "") (λ _, Some usage_day) sample_usage_request (usage_day + Day) (false, false, false) {| uRows := filter (λ r, uTenant r = "acme") (uRows sample_usage); uDown := true |}.
Proof.
  assert (∀ ac t, ugAuth sample_usage_request = Some ac → RequireTenant (λ _, "") ac = inr t →
    filter (λ r, uTenant r = t) (uRows sample_usage) = filter (λ r, uTenant r = t) (filter (λ r, uTenant r = "acme") (uRows sample_usage))) as H.
  { intros ac t [= <-]. assert (RequireTenant (λ _, "") sample_usage_auth = inr "acme") as -> by (vm_compute; reflexivity). intros [= <-]. vm_compute. reflexivity. }
  destruct (usage_isolated (λ _, "") (λ _, Some usage_day) sample_usage_request (usage_day + Day) (false, false, false) sample_usage
    {| uRows := filter (λ r, uTenant r = "acme") (uRows sample_usage); uDown := true |} H) as [Hu _].
  exact Hu.
Defined.
