(* ===== verification/AuditLog.v ===== *)
(** * AuditLog: writing and querying the audit trail

    internal/audit/logger.go (the log of lines that every service writes),
    internal/admin/audit_query.go with its endpoint handleAuditLog
    (agentorchestrator/server.go), and internal/storage/postgres/audit_store.go.  Reading a
    time from its text is an argument; encoding an entry can fail. *)
From S2P Require Import Prelude GoTime GoPath GoStrings GoCalendar Types Access.

Record Entry := {
  Time_ : string; EnTenantID : string; EnPrincipalID : string; Action : string; Resource : string; Outcome : string; EnCorrelationID : string; RequestID : string;
  Meta : gmap string any
}.

(** ** The logger *)

Inductive Sink := SinkStdout | SinkStderr | SinkFile (path : string).

(** The lines written so far; a logger of a file that could not be opened writes to the
    standard output. *)
Record jsonLineLogger := { lSink : Sink; lLines : list Entry; lClosed : bool }.

Definition stampTime (now : Time) (e : Entry) : Entry :=
  if decide (Time_ e = "") then {|
    Time_ := formatRFC3339 now; EnTenantID := EnTenantID e; EnPrincipalID := EnPrincipalID e; Action := Action e; Resource := Resource e; Outcome := Outcome e;
    EnCorrelationID := EnCorrelationID e; RequestID := RequestID e; Meta := Meta e |}
  else e.

(** [encodes] and [written] say whether the entry can be encoded and its line written. *)
Definition Log (encodes written : bool) (now : Time) (e : Entry) (l : jsonLineLogger) : jsonLineLogger :=
  if lClosed l then l
  else if encodes && written then {| lSink := lSink l; lLines := lLines l ++ [stampTime now e]; lClosed := false |}
  else l.

Definition Close (l : jsonLineLogger) : jsonLineLogger := {| lSink := lSink l; lLines := lLines l; lClosed := true |}.

(** The sink that the environment asks for; [opens] says whether a file can be opened. *)
Definition NewFromEnv (env : Environ) (opens : string → bool) : jsonLineLogger :=
  let sink := TrimSpace (env "AGENTOS_AUDIT_SINK") in
  let sink := if decide (sink = "") then
                let svc := TrimSpace (env "AGENTOS_SERVICE") in
                "file:" +:+ Join ["data"; "audit"; if decide (svc = "") then "audit.log" else svc +:+ ".audit.log"]
              else sink in
  let s := if decide (sink = "" ∨ sink = "stdout") then SinkStdout
           else if decide (sink = "stderr") then SinkStderr
           else if HasPrefix sink "file:" then
             let p := TrimPrefix sink "file:" in if opens p then SinkFile p else SinkStdout
           else SinkStdout in
  {| lSink := s; lLines := []; lClosed := false |}.

(** The optional interface [AuditReader] is implemented by no logger of the program. *)
Definition readerOf (l : jsonLineLogger) : option (list Entry) := None.

(** ** The query *)

Record AuditQueryParams := { aqStart : string; aqEnd : string; aqAction : string; aqLimit : Z; aqAfter : string }.

Record AuditQueryResult := { Entries : list Entry; HasMore : bool }.

Definition earlierEntry (a b : Entry) : Prop := String.le (Time_ a) (Time_ b).

#[global] Instance earlierEntry_dec a b : Decision (earlierEntry a b).
Proof. unfold earlierEntry. apply _. Defined.
#[global] Instance earlierEntry_trans : Transitive earlierEntry.
Proof. unfold earlierEntry. intros a b c. apply (transitivity (R := String.le)). Qed.
#[global] Instance earlierEntry_total : Total earlierEntry.
Proof. unfold earlierEntry. intros a b. apply (total String.le). Qed.

Definition clampLimit (limit : Z) : Z :=
  let limit := if decide (limit <= 0) then 50 else limit in if decide (200 < limit) then 200 else limit.

(** The entries at the front whose time is not after the cursor. *)
Fixpoint skipUntil (after : string) (entries : list Entry) : list Entry :=
  match entries with
  | e :: rest => if decide (String.le (Time_ e) after) then skipUntil after rest else entries
  | [] => []
  end.

Definition notBefore (parseTime : string → option Time) (a : Time) (e : Entry) : Prop := match parseTime (Time_ e) with Some t => a <= t | None => False end.
Definition notAfter (parseTime : string → option Time) (b : Time) (e : Entry) : Prop := match parseTime (Time_ e) with Some t => t <= b | None => False end.

#[global] Instance notBefore_dec p a e : Decision (notBefore p a e).
Proof. unfold notBefore. destruct (p (Time_ e)); apply _. Defined.
#[global] Instance notAfter_dec p a e : Decision (notAfter p a e).
Proof. unfold notAfter. destruct (p (Time_ e)); apply _. Defined.

Section query.
Context `{SliceSort} (parseTime : string → option Time).

(** A bound that cannot be read filters nothing; an entry whose time cannot be read is left
    out by a bound. *)
Definition fromStart (start : string) (entries : list Entry) : list Entry :=
  match (if decide (start = "") then None else parseTime start) with
  | None => entries
  | Some a => filter (notBefore parseTime a) entries
  end.

Definition untilEnd (end_ : string) (entries : list Entry) : list Entry :=
  match (if decide (end_ = "") then None else parseTime end_) with
  | None => entries
  | Some b => filter (notAfter parseTime b) entries
  end.

Definition ofAction (action : string) (entries : list Entry) : list Entry :=
  if decide (action = "") then entries else filter (λ e, Action e = action) entries.

Definition QueryAuditLog (reader : option (list Entry)) (params : AuditQueryParams) : AuditQueryResult :=
  match reader with
  | None => {| Entries := []; HasMore := false |}
  | Some all =>
      let limit := clampLimit (aqLimit params) in
      let entries := ofAction (aqAction params) (untilEnd (aqEnd params) (fromStart (aqStart params) (sortSlice earlierEntry all))) in
      let entries := if decide (aqAfter params = "") then entries else skipUntil (aqAfter params) entries in
      if decide (limit < Z.of_nat (length entries)) then {| Entries := take (Z.to_nat limit) entries; HasMore := true |}
      else {| Entries := entries; HasMore := false |}
  end.

(** ** The endpoint *)

Record AuditRequest := { arMethod : string; arScopes : list string; arLimit : string; arParams : AuditQueryParams }.

Inductive AuditAnswer := AuditDenied (status : Z) | AuditPage (r : AuditQueryResult).

Definition handleAuditLog (rq : AuditRequest) (reader : option (list Entry)) : AuditAnswer :=
  if decide (arMethod rq ≠ "GET") then AuditDenied 405
  else if negb (hasScope (arScopes rq) "tenants:admin") then AuditDenied 403
  else
    let limit := match Atoi (arLimit rq) with Some n => if decide (0 < n) then n else 50 | None => 50 end in
    let limit := if decide (200 < limit) then 200 else limit in
    AuditPage (QueryAuditLog reader {| aqStart := aqStart (arParams rq); aqEnd := aqEnd (arParams rq); aqAction := aqAction (arParams rq); aqLimit := limit; aqAfter := aqAfter (arParams rq) |}).

(** All the pages: each continues after the time of the last entry of the one before. *)
Fixpoint allPages (fuel : nat) (reader : option (list Entry)) (params : AuditQueryParams) (after : string) : list Entry :=
  match fuel with
  | O => []
  | S fuel =>
      let r := QueryAuditLog reader {| aqStart := aqStart params; aqEnd := aqEnd params; aqAction := aqAction params; aqLimit := aqLimit params; aqAfter := after |} in
      Entries r ++ match last (Entries r) with
                   | Some e => if HasMore r then allPages fuel reader params (Time_ e) else []
                   | None => []
                   end
  end.
End query.

(** ** The table (internal/storage/postgres/audit_store.go) *)

Record AuditEvent := { avTenantID : string; avAction : string; avActor : string; avDetail : gmap string any; avTimestamp : Time }.

(** A time of zero is the moment of the call. *)
Definition auditStore (fault : bool) (now : Time) (e : AuditEvent) (rows : list AuditEvent) : bool * list AuditEvent :=
  if fault then (false, rows)
  else (true, rows ++ [{| avTenantID := avTenantID e; avAction := avAction e; avActor := avActor e; avDetail := avDetail e;
                          avTimestamp := if decide (avTimestamp e = 0) then now else avTimestamp e |}]).

Definition newerEvent (a b : AuditEvent) : Prop := avTimestamp b <= avTimestamp a.

#[global] Instance newerEvent_dec a b : Decision (newerEvent a b).
Proof. unfold newerEvent. apply _. Defined.
#[global] Instance newerEvent_trans : Transitive newerEvent.
Proof. unfold newerEvent. intros a b c. lia. Qed.
#[global] Instance newerEvent_total : Total newerEvent.
Proof. unfold newerEvent. intros a b. lia. Qed.

Definition auditList `{SliceSort} (fault : bool) (tenantID : string) (limit : Z) (rows : list AuditEvent) : option (list AuditEvent) :=
  if decide (tenantID = "") then Some []
  else if fault then None
  else Some (take (Z.to_nat (if decide (limit <= 0) then 100 else limit)) (sortSlice newerEvent (filter (λ e, avTenantID e = tenantID) rows))).

(** ** Pages *)

Section pages.
Context `{SliceSort, !SliceSortLaws} (parseTime : string → option Time).

(** The entries that match, in the order of their times. *)
Definition matching (all : list Entry) (params : AuditQueryParams) : list Entry :=
  ofAction (aqAction params) (untilEnd parseTime (aqEnd params) (fromStart parseTime (aqStart params) (sortSlice earlierEntry all))).

(** What asks a bound of an entry. *)
Definition admits (params : AuditQueryParams) (e : Entry) : Prop :=
  (∀ a, aqStart params ≠ "" → parseTime (aqStart params) = Some a → ∃ t, parseTime (Time_ e) = Some t ∧ a <= t) ∧
  (∀ b, aqEnd params ≠ "" → parseTime (aqEnd params) = Some b → ∃ t, parseTime (Time_ e) = Some t ∧ t <= b) ∧
  (aqAction params ≠ "" → Action e = aqAction params).

Lemma sorted_filter (P : Entry → Prop) `{∀ e, Decision (P e)} l : StronglySorted earlierEntry l → StronglySorted earlierEntry (filter P l).
Proof.
  induction 1 as [|e l Hs IH Hf]; [constructor|]. rewrite filter_cons. destruct (decide _); [|done]. constructor; [done|].
  rewrite Forall_forall in *. intros x Hx. apply list_elem_of_filter in Hx as [_ Hx]. by apply Hf.
Qed.

Lemma matching_sorted all params : StronglySorted earlierEntry (matching all params).
Proof.
  unfold matching, ofAction, untilEnd, fromStart.
  assert (StronglySorted earlierEntry (sortSlice earlierEntry all)) by (apply sort_sorted; apply _).
  repeat (case_match; try apply sorted_filter); done.
Qed.

Lemma matching_elem all params e : e ∈ matching all params ↔ e ∈ all ∧ admits params e.
Proof.
  assert (∀ l, e ∈ ofAction (aqAction params) l ↔ e ∈ l ∧ (aqAction params ≠ "" → Action e = aqAction params)) as Ha.
  { intros l. unfold ofAction. destruct (decide _); [tauto|]. rewrite list_elem_of_filter. tauto. }
  assert (∀ l, e ∈ untilEnd parseTime (aqEnd params) l ↔ e ∈ l ∧ (∀ b, aqEnd params ≠ "" → parseTime (aqEnd params) = Some b → ∃ t, parseTime (Time_ e) = Some t ∧ t <= b)) as Hu.
  { intros l. unfold untilEnd. destruct (decide _); [naive_solver|]. destruct (parseTime (aqEnd params)) as [b|]; [|naive_solver]. rewrite list_elem_of_filter. unfold notBefore, notAfter. destruct (parseTime (Time_ e)); naive_solver. }
  assert (∀ l, e ∈ fromStart parseTime (aqStart params) l ↔ e ∈ l ∧ (∀ b, aqStart params ≠ "" → parseTime (aqStart params) = Some b → ∃ t, parseTime (Time_ e) = Some t ∧ b <= t)) as Hs.
  { intros l. unfold fromStart. destruct (decide _); [naive_solver|]. destruct (parseTime (aqStart params)) as [b|]; [|naive_solver]. rewrite list_elem_of_filter. unfold notBefore, notAfter. destruct (parseTime (Time_ e)); naive_solver. }
  unfold matching, admits. rewrite Ha, Hu, Hs, (sort_perm earlierEntry). tauto.
Qed.

Lemma skipUntil_filter after l : StronglySorted earlierEntry l → skipUntil after l = filter (λ e, ¬ String.le (Time_ e) after) l.
Proof.
  induction 1 as [|e l Hs IH Hf]; [done|]. cbn [skipUntil]. rewrite filter_cons. destruct (decide (String.le (Time_ e) after)) as [Hle|Hle].
  - rewrite decide_False by tauto. exact IH.
  - rewrite decide_True by done. f_equal. symmetry. apply filter_all. eapply Forall_impl; [exact Hf|]. intros x Hx Hle'. apply Hle. unfold earlierEntry in Hx. by etrans.
Qed.

Lemma QueryAuditLog_page all params : let rest := if decide (aqAfter params = "") then matching all params else filter (λ e, ¬ String.le (Time_ e) (aqAfter params)) (matching all params) in
  QueryAuditLog parseTime (Some all) params = {| Entries := take (Z.to_nat (clampLimit (aqLimit params))) rest; HasMore := bool_decide (clampLimit (aqLimit params) < Z.of_nat (length rest)) |}.
Proof.
  cbv zeta. unfold QueryAuditLog. fold (matching all params). rewrite skipUntil_filter by apply matching_sorted. cbv zeta.
  set (rest := if decide (aqAfter params = "") then _ else _). assert (1 <= clampLimit (aqLimit params)) by (unfold clampLimit; cbv zeta; repeat destruct (decide _); lia).
  clearbody rest. destruct (decide (clampLimit (aqLimit params) < Z.of_nat (length rest))) as [Hl|Hl]; [rewrite bool_decide_true by exact Hl; done|]. rewrite bool_decide_false, firstn_all2 by (done || lia). done.
Qed.

Lemma clampLimit_bounds n : 1 <= clampLimit n <= 200 ∧ (1 <= n <= 200 → clampLimit n = n).
Proof. unfold clampLimit. cbv zeta. repeat destruct (decide _); lia. Qed.

(** A page of the audit trail has, in the order of their times, the first entries that
    the bounds and the action admit and whose time is after the cursor: as many as asked for,
    between one and two hundred, and says whether there are more. *)
Theorem audit_page_exact all params :
  let r := QueryAuditLog parseTime (Some all) params in
  let limit := clampLimit (aqLimit params) in
  ∃ rest, StronglySorted earlierEntry rest ∧
    (∀ e, e ∈ rest ↔ e ∈ all ∧ admits params e ∧ (aqAfter params = "" ∨ ¬ String.le (Time_ e) (aqAfter params))) ∧
    Entries r = take (Z.to_nat limit) rest ∧ (HasMore r = true ↔ limit < Z.of_nat (length rest)) ∧ 1 <= limit <= 200 ∧ (1 <= aqLimit params <= 200 → limit = aqLimit params).
Proof.
  cbv zeta. rewrite QueryAuditLog_page. cbv zeta. exists (if decide (aqAfter params = "") then matching all params else filter (λ e, ¬ String.le (Time_ e) (aqAfter params)) (matching all params)).
  split; [destruct (decide _); [|apply sorted_filter]; apply matching_sorted|]. split; [|split; [done|split; [apply bool_decide_eq_true|split; apply clampLimit_bounds]]].
  intros e. destruct (decide (aqAfter params = "")) as [He|He]; [|rewrite list_elem_of_filter]; rewrite matching_elem; naive_solver.
Qed.

(** With times that differ, the entries after a cursor are those behind it in the list. *)
Lemma distinct_split front e back : StronglySorted earlierEntry (front ++ e :: back) → NoDup (Time_ <$> (front ++ e :: back)) →
  filter (λ x, ¬ String.le (Time_ x) (Time_ e)) (front ++ e :: back) = back.
Proof.
  intros Hs Hd. rewrite filter_app, filter_cons, decide_False by (intros Hx; by apply Hx). rewrite filter_none, filter_all; [done| |].
  - apply Forall_forall. intros x Hx Hle. assert (String.le (Time_ e) (Time_ x)) as Hge.
    { apply StronglySorted_app_1_r, StronglySorted_inv in Hs as [_ Hs]. rewrite Forall_forall in Hs. by apply Hs. }
    rewrite fmap_app, fmap_cons in Hd. apply NoDup_app in Hd as (_ & _ & Hd). apply NoDup_cons in Hd as [Hn _]. apply Hn.
    assert (Time_ x = Time_ e) as <- by (by apply (anti_symm String.le)). apply list_elem_of_fmap. eauto.
  - apply Forall_forall. intros x Hx Hn. apply Hn. exact (StronglySorted_app_1_elem_of earlierEntry front (e :: back) x e Hs Hx ltac:(by left)).
Qed.

(** C36. When the matching entries have times, and different ones, following the cursors from
    page to page gives every matching entry exactly once, in order, and ends. *)
Theorem audit_pages_cover all params (Hne : Forall (λ e, Time_ e ≠ "") (matching all params)) (Hd : NoDup (Time_ <$> matching all params)) :
  allPages parseTime (S (length (matching all params))) (Some all) params "" = matching all params.
Proof.
  pose proof (matching_sorted all params) as Hs. set (L := matching all params) in *. set (n := Z.to_nat (clampLimit (aqLimit params))).
  assert (∀ fuel cursor back, (length back < fuel)%nat →
    (if decide (cursor = "") then L else filter (λ x, ¬ String.le (Time_ x) cursor) L) = back → (∃ front, L = front ++ back) →
    allPages parseTime fuel (Some all) params cursor = back) as Hgo.
  { induction fuel as [|fuel IH]; intros cursor back Hf Hback [front HL]; [lia|]. cbn [allPages]. rewrite QueryAuditLog_page. cbn [aqAfter aqLimit Entries HasMore].
    change (matching all _) with L. rewrite Hback. fold n. destruct (last (take n back)) as [e|] eqn:El.
    - case_bool_decide as Hm.
      + apply last_Some in El as [l' Hl']. assert (back = l' ++ e :: drop n back) as Hb by (rewrite <- (take_drop n back) at 1; by rewrite Hl', <- app_assoc).
        assert (Time_ e ≠ "") as Hte. { rewrite Forall_forall in Hne. apply Hne. rewrite HL, Hb. set_solver. }
        rewrite (IH (Time_ e) (drop n back)).
        * by rewrite take_drop.
        * rewrite length_drop. assert (1 <= n)%nat by (subst n; pose proof (clampLimit_bounds (aqLimit params)); lia). assert (length back ≠ 0)%nat by (rewrite Hb, length_app; cbn; lia). lia.
        * rewrite decide_False by done. rewrite HL, Hb at 1. rewrite app_assoc. apply distinct_split; rewrite <- app_assoc, <- Hb, <- HL; done.
        * exists (front ++ l' ++ [e]). rewrite HL at 1. rewrite Hb at 1. by rewrite <- !app_assoc.
      + rewrite app_nil_r. apply firstn_all2. subst n. lia.
    - apply last_None in El. rewrite El. assert (1 <= n)%nat by (subst n; pose proof (clampLimit_bounds (aqLimit params)); lia). destruct n, back; done || lia. }
  apply Hgo; [lia| |by exists []]. by rewrite decide_True.
Qed.
End pages.

(** ** What is logged *)

Inductive LogOp := OLog (encodes written : bool) (now : Time) (e : Entry) | OClose.

Definition logStep (l : jsonLineLogger) (op : LogOp) : jsonLineLogger :=
  match op with OLog a b now e => Log a b now e l | OClose => Close l end.

(** The entries that arrive before the logger is closed. *)
Fixpoint loggedBy (ops : list LogOp) : list Entry :=
  match ops with
  | [] | OClose :: _ => []
  | OLog encodes written now e :: ops => (if encodes && written then [stampTime now e] else []) ++ loggedBy ops
  end.

(** The trail has, in order, exactly the entries logged before the logger was closed that
    could be encoded and written, each with a time; nothing is written after. *)
Theorem audit_trail_exact ops l : lClosed l = false → lLines (exec logStep l ops) = lLines l ++ loggedBy ops ∧ lSink (exec logStep l ops) = lSink l.
Proof.
  assert (∀ l, lClosed l = true → exec logStep l ops = l) as Hclosed.
  { induction ops as [|op ops IH]; intros l' Hc; [done|]. unfold exec. cbn [foldl]. assert (logStep l' op = l') as ->; [|by apply IH].
    destruct op; cbn; [unfold Log; by rewrite Hc|]. destruct l'. cbn in *. by subst. }
  revert l. induction ops as [|op ops IH]; intros l Hl; [by rewrite app_nil_r|]. unfold exec in *. cbn [foldl]. destruct op as [a b now e|]; cbn [logStep loggedBy].
  - assert (∀ l, lClosed l = true → foldl logStep l ops = l) as Hc'. { intros l' Hc. specialize (Hclosed l' Hc). cbn [foldl logStep] in Hclosed. unfold Log in Hclosed. by rewrite Hc in Hclosed. }
    unfold Log. rewrite Hl. destruct (a && b).
    + destruct (IH Hc' {| lSink := lSink l; lLines := lLines l ++ [stampTime now e]; lClosed := false |} eq_refl) as [-> ->]. cbn. by rewrite <- app_assoc.
    + by apply IH.
  - assert (foldl logStep (Close l) ops = Close l) as ->; [|by rewrite app_nil_r]. specialize (Hclosed (Close l) eq_refl). exact Hclosed.
Qed.

(** The endpoint answers an empty page, whatever has been logged: no logger of the program
    can be read back. *)
Theorem audit_endpoint_is_empty `{SliceSort} parseTime rq l : arMethod rq = "GET" → hasScope (arScopes rq) "tenants:admin" = true →
  handleAuditLog parseTime rq (readerOf l) = AuditPage {| Entries := []; HasMore := false |}.
Proof. intros Hm Hs. unfold handleAuditLog. rewrite decide_False by (rewrite Hm; intros Hx; by apply Hx). by rewrite Hs. Qed.

(** The table's list is the tenant's newest events, newest first, a hundred unless asked
    for otherwise; no other tenant's rows matter. *)
Theorem audit_table_exact `{SliceSort, !SliceSortLaws} tenantID limit rows l (Hl : auditList false tenantID limit rows = Some l) :
  (tenantID = "" ∧ l = []) ∨
  (tenantID ≠ "" ∧ ∃ later, l ++ later ≡ₚ filter (λ e, avTenantID e = tenantID) rows ∧ StronglySorted newerEvent (l ++ later) ∧
    length l = Nat.min (Z.to_nat (if decide (limit <= 0) then 100 else limit)) (length (filter (λ e, avTenantID e = tenantID) rows))).
Proof.
  unfold auditList in Hl. destruct (decide (tenantID = "")); [left; split; [done|congruence]|right]. split; [done|]. injection Hl as <-.
  set (size := Z.to_nat _). set (sorted := sortSlice newerEvent _). exists (drop size sorted). rewrite take_drop. split; [apply sort_perm|]. split; [apply sort_sorted; apply _|].
  rewrite length_take. f_equal. subst sorted. apply Permutation_length, sort_perm.
Qed.

(** ** Trying it *)

#[local] Instance audit_sort : SliceSort := mergeSlice.
#[local] Instance audit_sort_laws : SliceSortLaws := mergeSlice_laws.

Definition audit_entry (t a : string) : Entry := {|
  Time_ := t; EnTenantID := "acme"; EnPrincipalID := ""; Action := a; Resource := ""; Outcome := "ok"; EnCorrelationID := ""; RequestID := ""; Meta := ∅
|}.

Definition audit_params (limit : Z) : AuditQueryParams := {| aqStart := ""; aqEnd := ""; aqAction := "runs.create"; aqLimit := limit; aqAfter := "" |}.

Definition sample_trail : list Entry := [audit_entry "2024-03-02" "runs.create"; audit_entry "2024-03-01" "runs.create"; audit_entry "2024-03-03" "runs.get"; audit_entry "2024-03-04" "runs.create"].

Lemma audit_page_exact_witness : Time_ <$> Entries (QueryAuditLog (λ _, None) (Some sample_trail) (audit_params 2)) = ["2024-03-01"; "2024-03-02"] ∧
  ∃ rest, StronglySorted earlierEntry rest ∧ Entries (QueryAuditLog (λ _, None) (Some sample_trail) (audit_params 2)) = take 2 rest.
Proof.
  split; [vm_compute; reflexivity|]. destruct (audit_page_exact (λ _, None) sample_trail (audit_params 2)) as (rest & Hs & _ & He & _). exists rest. split; [exact Hs|exact He].
Defined.

Lemma audit_pages_cover_witness : Time_ <$> allPages (λ _, None) 4 (Some sample_trail) (audit_params 2) "" = ["2024-03-01"; "2024-03-02"; "2024-03-04"] ∧
  allPages (λ _, None) 4 (Some sample_trail) (audit_params 2) "" = matching (λ _, None) sample_trail (audit_params 2).
Proof.
  split; [vm_compute; reflexivity|].
  assert (Forall (λ e, Time_ e ≠ "") (matching (λ _, None) sample_trail (audit_params 2))) as H1 by (vm_compute; repeat constructor; discriminate).
  assert (NoDup (Time_ <$> matching (λ _, None) sample_trail (audit_params 2))) as H2 by (vm_compute; repeat constructor; set_solver).
  pose proof (audit_pages_cover (λ _, None) sample_trail (audit_params 2) H1 H2) as Hp. exact Hp.
Defined.

Lemma audit_trail_exact_witness : lLines (exec logStep (NewFromEnv (λ _, "stderr") (λ _, true)) [OLog true true 0 (audit_entry "" "a"); OClose; OLog true true 0 (audit_entry "t" "b")]) = [audit_entry "0001-01-01T00:00:00Z" "a"].
Proof. exact (proj1 (audit_trail_exact [OLog true true 0 (audit_entry "" "a"); OClose; OLog true true 0 (audit_entry "t" "b")] (NewFromEnv (λ _, "stderr") (λ _, true)) eq_refl)). Defined.

Definition audit_rows : list AuditEvent := (auditStore false 7 {| avTenantID := "acme"; avAction := "a"; avActor := "x"; avDetail := ∅; avTimestamp := 0 |} []).2.

Lemma audit_table_exact_witness : ∃ later, audit_rows ++ later ≡ₚ filter (λ e, avTenantID e = "acme") audit_rows.
Proof.
  assert (auditList false "acme" 0 audit_rows = Some audit_rows) as Hl by (vm_compute; reflexivity).
  destruct (audit_table_exact "acme" 0 audit_rows audit_rows Hl) as [[He _]|(_ & later & Hp & _)]; [discriminate He|]. exists later. exact Hp.
Defined.

(** Entries of the same second that do not fit on a page are on no page. *)
Example pages_skip_same_second :
  Action <$> allPages (λ _, None) 9 (Some [audit_entry "t1" "a"; audit_entry "t1" "b"; audit_entry "t2" "c"]) {| aqStart := ""; aqEnd := ""; aqAction := ""; aqLimit := 1; aqAfter := "" |} "" = ["a"; "c"].
Proof. vm_compute. reflexivity. Qed.
