(* ===== verification/Codegen.v ===== *)
(** * Codegen: the generate_implementation tool (mcp/tools/codegen.go)

    The files of a repository are put into a prompt, the answer of the model is searched for
    SEARCH/REPLACE blocks, and the edits are applied to the files.  The file system, the
    model endpoint and the order in which a map is visited are arguments; the two patterns
    are those of the source, run by [GoRegexp]. *)
From S2P Require Import Prelude GoPath GoStrings GoText GoRegexp Knowledge Observe.

#[local] Definition dquote : string := String "034" "".

(** Lines with a newline between them. *)
Definition unlines (ls : list string) : string := String.concat (String newline "") ls.

Record codegenInput := { cgRepo : string; IssueTitle : string; IssueBody : string; FileScope : list string; cgContext : string }.

(** The Action of every result is modify. *)
Record codegenFileResult := { cfPath : string; cfContent : string }.

Record codegenResult := { cgFiles : list codegenFileResult; Reasoning : string; TokensUsed : Z }.

Record CodegenConfig := { cgBaseURL : string; cgAPIKey : string; cgDefaultModel : string; RepoBase : string }.

(** ** The prompt *)

(** The content of a file or the text of the error. *)
Definition FileSystem := string → string + string.

Definition fileSection (readFile : FileSystem) (repoPath fp : string) : string :=
  match readFile (Join [repoPath; fp]) with
  | inl err => unlines ["### " +:+ fp; "(file not found: " +:+ err +:+ ")"; ""; ""]
  | inr data => unlines ["### " +:+ fp +:+ " (" +:+ pretty (Z.of_nat (CountByte data newline) + 1) +:+ " lines)"; "```"; data; "```"; ""; ""]
  end.

Definition fileContents (readFile : FileSystem) (repoPath : string) (scope : list string) : string :=
  foldl (λ sb fp, sb +:+ fileSection readFile repoPath fp) "" scope.

Definition repoName (repo : string) : string := afterLast "/" repo.

Definition buildCodegenPrompt (input : codegenInput) (fileContents : string) : string :=
  unlines ["## Issue"; ""; "**Title:** " +:+ IssueTitle input; ""; IssueBody input; ""; ""] +:+
  (if decide (cgContext input = "") then "" else unlines ["## Additional Context"; ""; cgContext input; ""; ""]) +:+
  unlines ["## Current File Contents"; ""; fileContents] +:+
  unlines [""; "## Instructions"; ""; "Implement the changes described in the issue using SEARCH/REPLACE blocks ONLY.";
           "Each block must contain exact existing code in SEARCH and the new code in REPLACE."; "Do not output whole files. Do not use placeholder comments."; ""].

Definition codegenSystemPrompt : string := unlines [
  "You are a code editor. Given an issue and existing file contents, output ONLY the minimal SEARCH/REPLACE blocks needed to satisfy the issue.";
  "";
  "You MUST use SEARCH/REPLACE block format. Whole-file output is forbidden.";
  "";
  "Format for each edit:";
  "";
  "### file: path/to/file.go";
  "SEARCH:";
  "```";
  "<exact existing code from the file — copy verbatim>";
  "```";
  "REPLACE:";
  "```";
  "<new code that should replace the search block>";
  "```";
  "";
  "Rules:";
  "- The SEARCH block MUST be an EXACT character-for-character copy of code from the file. Whitespace, indentation, and punctuation must match.";
  "- The SEARCH block must be unique within the file (long enough to identify a single location).";
  "- Use multiple SEARCH/REPLACE blocks for the same file if you need to make multiple edits.";
  "- To ADD new code (e.g., a new function), make the SEARCH block be the line BEFORE where you want to insert, and the REPLACE block be that same line PLUS your new code.";
  "- Keep blocks small and surgical. Prefer 5-line blocks over 50-line blocks.";
  "- NEVER output a whole file. NEVER use placeholder comments like " +:+ dquote +:+ "// existing code here" +:+ dquote +:+ ".";
  "";
  "Process:";
  "1. Read the existing file carefully.";
  "2. Identify the smallest exact section you need to change.";
  "3. Copy that section verbatim into SEARCH.";
  "4. Write the new version into REPLACE.";
  "5. Repeat for each separate edit.";
  "";
  "Example — adding a metric counter to an existing Go file:";
  "";
  "### file: internal/metrics/metrics.go";
  "SEARCH:";
  "```";
  "	memoryOps = prometheus.NewCounterVec(";
  "		prometheus.CounterOpts{";
  "			Name: " +:+ dquote +:+ "agentos_memory_operations_total" +:+ dquote +:+ ",";
  "			Help: " +:+ dquote +:+ "Memory store operations." +:+ dquote +:+ ",";
  "		},";
  "		[]string{" +:+ dquote +:+ "operation" +:+ dquote +:+ ", " +:+ dquote +:+ "status" +:+ dquote +:+ "},";
  "	)";
  ")";
  "```";
  "REPLACE:";
  "```";
  "	memoryOps = prometheus.NewCounterVec(";
  "		prometheus.CounterOpts{";
  "			Name: " +:+ dquote +:+ "agentos_memory_operations_total" +:+ dquote +:+ ",";
  "			Help: " +:+ dquote +:+ "Memory store operations." +:+ dquote +:+ ",";
  "		},";
  "		[]string{" +:+ dquote +:+ "operation" +:+ dquote +:+ ", " +:+ dquote +:+ "status" +:+ dquote +:+ "},";
  "	)";
  "";
  "	dailyTokenBudgetUsed = prometheus.NewGaugeVec(";
  "		prometheus.GaugeOpts{";
  "			Name: " +:+ dquote +:+ "agentos_daily_token_budget_used" +:+ dquote +:+ ",";
  "			Help: " +:+ dquote +:+ "Cumulative tokens used per agent per day." +:+ dquote +:+ ",";
  "		},";
  "		[]string{" +:+ dquote +:+ "agent" +:+ dquote +:+ "},";
  "	)";
  ")";
  "```";
  "";
  "Before the SEARCH/REPLACE blocks, write 1-2 sentences explaining your approach."].

(** ** The patterns *)

Definition spaces : re := Star true (Lit spaceClass).
Definition fence : string := "```".

(** The part of both kinds of a block from the fence that opens to the fence that closes. *)
Definition searchReplacePattern : re :=
  Cat (word "### file: ") (Cat (Cap 1 (Plus (Lit notNewline))) (Cat spaces (Cat (chr newline)
  (Cat (word "SEARCH:") (Cat spaces (Cat (chr newline)
  (Cat (word fence) (Cat (Star true (Lit alpha)) (Cat spaces (Cat (chr newline)
  (Cat (Cap 2 (Star false (Lit anyByte))) (Cat (chr newline) (Cat (word fence)
  (Cat spaces (Cat (chr newline)
  (Cat (word "REPLACE:") (Cat spaces (Cat (chr newline)
  (Cat (word fence) (Cat (Star true (Lit alpha)) (Cat spaces (Cat (chr newline)
  (Cat (Cap 3 (Star false (Lit anyByte))) (Cat (chr newline) (word fence))))))))))))))))))))))))).

Definition pathByte (c : ascii) : bool := negb (spaceClass c) && negb (bool_decide (c = "`"%char)).

Definition codeBlockPattern : re :=
  Cat (word fence) (Cat (Cap 1 (Cat (Plus (Lit pathByte)) (Cat (chr ".") (Plus (Lit alpha)))))
  (Cat spaces (Cat (chr newline) (Cat (Cap 2 (Star false (Lit anyByte))) (Cat (chr newline) (word fence)))))).

(** [FindAllStringSubmatch]: the groups of the matches. *)
Definition hitGroups (g : Seg) : option (list (nat * string)) := match g with Hit _ _ groups => Some groups | Raw _ => None end.

Definition FindAllStringSubmatch (r : re) (s : string) : list (list (nat * string)) := omap hitGroups (allSegments r s).

(** ** Edits *)

Record edit := { eSearch : string; eReplace : string }.

Inductive EditError := FileNotFound (path : string) | SearchNotFound (path : string) (n : Z).

(** The trimmed path and the edit of every block, in order. *)
Definition foundEdits (content : string) : list (string * edit) :=
  (λ g, (TrimSpace (groupOf 1 g), {| eSearch := groupOf 2 g; eReplace := groupOf 3 g |})) <$> FindAllStringSubmatch searchReplacePattern content.

Definition groupEdit (m : gmap string (list edit)) (pe : string * edit) : gmap string (list edit) := <[pe.1 := go_get [] m pe.1 ++ [pe.2] ]> m.

(** The number of the first edit whose text is not there, or the edited text. *)
Fixpoint applyEdits (i : Z) (edits : list edit) (modified : string) : Z + string :=
  match edits with
  | [] => inr modified
  | e :: edits => if strContains modified (eSearch e) then applyEdits (i + 1) edits (ReplaceOnce modified (eSearch e) (eReplace e)) else inl (i + 1)
  end.

Fixpoint editFiles (readFile : FileSystem) (repoPath : string) (files : list (string * list edit)) (results : list codegenFileResult) : EditError + list codegenFileResult :=
  match files with
  | [] => inr results
  | (path, edits) :: files =>
      match readFile (Join [repoPath; path]) with
      | inl _ => inl (FileNotFound path)
      | inr original =>
          match applyEdits 0 edits original with
          | inl i => inl (SearchNotFound path i)
          | inr modified => editFiles readFile repoPath files (results ++ [{| cfPath := path; cfContent := modified |}])
          end
      end
  end.

Section codegen.
Context (rng : gmap string (list edit) → list (string * list edit)) (readFile : FileSystem).

Definition extractSearchReplaceBlocks (content repoPath : string) : EditError + list codegenFileResult :=
  match foundEdits content with
  | [] => inr []
  | found => editFiles readFile repoPath (rng (foldl groupEdit ∅ found)) []
  end.

Definition extractCodeBlocks (content : string) : list codegenFileResult :=
  omap (λ g, let path := TrimSpace (groupOf 1 g) in
             if negb (strContains path "/") && negb (strContains path ".") then None
             else Some {| cfPath := path; cfContent := groupOf 2 g |}) (FindAllStringSubmatch codeBlockPattern content).

Definition extractReasoning (content : string) : string :=
  let cleaned := TrimSpace (ReplaceAll codeBlockPattern (λ _ _, "") content) in
  if decide (500 < String.length cleaned)%nat then takeBytes 500 cleaned else cleaned.

(** ** The handler *)

Record CodegenRequest := { crURL : string; crAuthorization : option string; crModel : string; crSystem : string; crUser : string; crMaxTokens : Z }.

(** The contents of the choices and the tokens of the usage. *)
Record LLMAnswer := { llmContents : list string; llmTotalTokens : Z }.

Inductive CodegenError := CgInvalidArguments | CgMissing | CgRequest (e : ObserveError) | CgNoChoices.

(** The files of an answer: those of the edits, or else the fenced blocks that have a path.
    An edit that fails is logged. *)
Definition filesOf (content repoPath : string) : list codegenFileResult :=
  match extractSearchReplaceBlocks content repoPath with
  | inr (f :: fs) => f :: fs
  | _ => extractCodeBlocks content
  end.

Definition codegenRequest (cfg : CodegenConfig) (input : codegenInput) : CodegenRequest :=
  {| crURL := trimRightChar "/" (cgBaseURL cfg) +:+ "/chat/completions";
     crAuthorization := if decide (cgAPIKey cfg = "") then None else Some ("Bearer " +:+ cgAPIKey cfg);
     crModel := cgDefaultModel cfg; crSystem := codegenSystemPrompt;
     crUser := buildCodegenPrompt input (fileContents readFile (Join [RepoBase cfg; repoName (cgRepo input)]) (FileScope input));
     crMaxTokens := 32768 |}.

(** The answer and the requests that were made. *)
Definition codegenHandler (cfg : CodegenConfig) (llm : CodegenRequest → Fetched LLMAnswer) (params : option codegenInput) : (CodegenError + codegenResult) * list CodegenRequest :=
  match params with
  | None => (inl CgInvalidArguments, [])
  | Some input =>
      if decide (cgRepo input = "" ∨ IssueTitle input = "" ∨ FileScope input = []) then (inl CgMissing, [])
      else
        let rq := codegenRequest cfg input in
        match llm rq with
        | BadAddress => (inl (CgRequest BuildFailed), [])
        | answer =>
            (match expectOK answer with
             | inl e => inl (CgRequest e)
             | inr a =>
                 match llmContents a with
                 | [] => inl CgNoChoices
                 | content :: _ =>
                     inr {| cgFiles := filesOf content (Join [RepoBase cfg; repoName (cgRepo input)]); Reasoning := extractReasoning content; TokensUsed := llmTotalTokens a |}
                 end
             end, [rq])
        end
  end.
End codegen.

(** ** Running a pattern with what follows it *)

Definition at_ (b : option ascii) (s : string) (c : list (nat * string)) : Pos := {| before := b; after := s; caps := c |}.

Definition run (r : re) (k : Pos → list Pos) (p : Pos) : list Pos := flat_map k (results r p).

Lemma flat_map_flat_map {A B C} (k : B → list C) (f : A → list B) l : flat_map k (flat_map f l) = flat_map (λ x, flat_map k (f x)) l.
Proof. induction l as [|x l IH]; [done|]. cbn. by rewrite flat_map_app, IH. Qed.

Lemma run_Cat a b k p : run (Cat a b) k p = run a (run b k) p.
Proof. apply flat_map_flat_map. Qed.

Lemma run_Cap n a k p : run (Cap n a) k p = run a (λ q, k (closeGroup n p q)) p.
Proof. unfold run. cbn. induction (results a p) as [|q l IH]; [done|]. cbn. f_equal. exact IH. Qed.

Lemma run_ret r p : run r (λ q, [q]) p = results r p.
Proof. unfold run. induction (results r p) as [|q l IH]; [done|]. cbn. by f_equal. Qed.

Lemma run_chr x k b s c : run (chr x) k (at_ b (String x s) c) = k (at_ (Some x) s c).
Proof. unfold run, chr. cbn. rewrite bool_decide_true by done. cbn. apply app_nil_r. Qed.

Lemma run_chr_no x k b s c : headByte s ≠ Some x → run (chr x) k (at_ b s c) = [].
Proof. unfold run, chr. cbn. destruct s as [|y s]; [done|]. cbn. intros Hx. rewrite bool_decide_false by (intros ->; by apply Hx). done. Qed.

Lemma word_cons x w k p : run (word (String x w)) k p = run (chr x) (run (word w) k) p.
Proof. destruct w as [|y w]; [|apply run_Cat]. unfold run at 1 2. cbn [word results]. apply flat_map_ext. intros q. unfold run. cbn. by rewrite app_nil_r. Qed.

Lemma run_word w k s c q : (∀ b, head (k (at_ b s c)) = Some q) → ∀ b, head (run (word w) k (at_ b (w +:+ s) c)) = Some q.
Proof.
  intros Hk. induction w as [|x w IH]; intros b; [unfold run; cbn; rewrite app_nil_r; apply Hk|].
  rewrite word_cons, string_app_cons, run_chr. apply IH.
Qed.

Lemma run_word_no w k s c : String.prefix w s = false → ∀ b, run (word w) k (at_ b s c) = [].
Proof.
  revert s. induction w as [|x w IH]; intros s Hp b; [destruct s; done|]. rewrite word_cons. destruct s as [|y s]; [by apply run_chr_no|].
  cbn in Hp. destruct (ascii_dec x y) as [<-|Hn]; [rewrite run_chr; by apply IH|]. apply run_chr_no. cbn. congruence.
Qed.

Lemma step_lit t b x s c g fuel : t x = true → starResults (results (Lit t)) g (S fuel) (at_ b (String x s) c) =
  (if g then starResults (results (Lit t)) g fuel (at_ (Some x) s c) ++ [at_ b (String x s) c] else at_ b (String x s) c :: starResults (results (Lit t)) g fuel (at_ (Some x) s c)).
Proof.
  intros Ht. assert (filter (λ q, left_ q < left_ (at_ b (String x s) c))%nat (results (Lit t) (at_ b (String x s) c)) = [at_ (Some x) s c]) as Hf.
  { cbn [results at_ after caps]. rewrite Ht. apply filter_all. constructor; [unfold left_; cbn; lia|constructor]. }
  cbn [starResults]. rewrite Hf. cbn [flat_map]. by rewrite app_nil_r.
Qed.

Lemma stop_lit t b s c g fuel : (∀ x s', s = String x s' → t x = false) → starResults (results (Lit t)) g fuel (at_ b s c) = [at_ b s c].
Proof. intros Hs. destruct fuel as [|fuel]; [done|]. cbn [starResults results at_ after]. destruct s as [|x s]; [by destruct g|]. rewrite (Hs x s eq_refl). by destruct g. Qed.

(** A greedy repetition whose longer choices fail. *)
Lemma greedy_fails t (k : Pos → list Pos) c s : ∀ fuel b, (String.length s ≤ fuel)%nat → (∀ b x y, s = x +:+ y → x ≠ "" → stringForall t x = true → k (at_ b y c) = []) →
  flat_map k (starResults (results (Lit t)) true fuel (at_ b s c)) = k (at_ b s c).
Proof.
  induction s as [|x s IH]; intros fuel b Hf Hk; [rewrite stop_lit by done; cbn; apply app_nil_r|].
  destruct (t x) eqn:Ht; [|rewrite stop_lit by (intros y s' [= -> ->]; done); cbn; apply app_nil_r].
  destruct fuel as [|fuel]; [cbn in Hf; lia|]. rewrite step_lit, flat_map_app by done. rewrite IH.
  - rewrite (Hk (Some x) (String x "") s) by (done || (cbn; by rewrite Ht)). cbn. apply app_nil_r.
  - cbn in Hf. lia.
  - intros b' u v -> Hu Hall. apply (Hk b' (String x u) v); [done|done|]. cbn. by rewrite Ht.
Qed.

Lemma head_app_Some {A} (l k : list A) x : head l = Some x → head (l ++ k) = Some x.
Proof. by destruct l. Qed.

Lemma run_greedy t k w rest c q : stringForall t w = true → (∀ b x y, rest = x +:+ y → x ≠ "" → stringForall t x = true → k (at_ b y c) = []) →
  (∀ b, head (k (at_ b rest c)) = Some q) → ∀ b, head (run (Star true (Lit t)) k (at_ b (w +:+ rest) c)) = Some q.
Proof.
  intros Hw Hno Hk b. unfold run. cbn [results]. unfold left_. cbn [after at_].
  assert (∀ fuel b, (String.length (w +:+ rest) ≤ fuel)%nat → head (flat_map k (starResults (results (Lit t)) true fuel (at_ b (w +:+ rest) c))) = Some q) as Hgo; [|by apply Hgo].
  clear b. induction w as [|x w IH]; intros fuel b Hf; [rewrite string_app_nil in *; rewrite greedy_fails by done; apply Hk|].
  rewrite string_app_cons in *. cbn in Hw, Hf. apply andb_true_iff in Hw as [Hx Hw]. destruct fuel as [|fuel]; [lia|].
  rewrite step_lit, flat_map_app by done. apply head_app_Some, (IH Hw). lia.
Qed.

Lemma run_lazy k w rest c q : (∀ b x y, w = x +:+ y → y ≠ "" → k (at_ b (y +:+ rest) c) = []) →
  (∀ b, head (k (at_ b rest c)) = Some q) → ∀ b, head (run (Star false (Lit anyByte)) k (at_ b (w +:+ rest) c)) = Some q.
Proof.
  intros Hno Hk b. unfold run. cbn [results]. unfold left_. cbn [after at_].
  assert (∀ fuel b, (String.length (w +:+ rest) ≤ fuel)%nat → head (flat_map k (starResults (results (Lit anyByte)) false fuel (at_ b (w +:+ rest) c))) = Some q) as Hgo; [|by apply Hgo].
  clear b. induction w as [|x w IH]; intros fuel b Hf.
  - rewrite string_app_nil. destruct fuel as [|fuel]; cbn [starResults flat_map]; apply head_app_Some, Hk.
  - rewrite string_app_cons in *. cbn in Hf. destruct fuel as [|fuel]; [lia|]. rewrite step_lit by done. cbn [flat_map].
    rewrite <- string_app_cons, (Hno b "" (String x w)) by done. cbn [app]. apply IH; [|lia]. intros b' u v -> Hv. by apply (Hno b' (String x u) v).
Qed.

(** ** Blocks as the prompt asks for them *)

Definition nl : string := String newline "".

(** The first line of the text has a byte that is not a space. *)
Definition startsClear (s : string) : Prop := ∃ w x t, s = w +:+ String x t ∧ stringForall (λ c, spaceClass c && notNewline c) w = true ∧ spaceClass x = false.

Definition noFence (s : string) : Prop := strContains s (nl +:+ fence) = false.

Record block := { bGap : string; bPath : string; bEdit : edit }.

Definition written (b : block) : string :=
  "### file: " +:+ bPath b +:+ nl +:+ "SEARCH:" +:+ nl +:+ fence +:+ nl +:+ eSearch (bEdit b) +:+ nl +:+ fence +:+ nl +:+ "REPLACE:" +:+ nl +:+ fence +:+ nl +:+
  eReplace (bEdit b) +:+ nl +:+ fence.

(** No byte [#] before a block, a path of one line that is trimmed, and texts that neither
    hold a closing fence nor begin with an empty line. *)
Record block_ok (b : block) : Prop := {
  ok_gap : stringForall (λ c, negb (bool_decide (c = "#"%char))) (bGap b) = true;
  ok_path : bPath b ≠ "" ∧ stringForall notNewline (bPath b) = true ∧ TrimSpace (bPath b) = bPath b;
  ok_search : startsClear (eSearch (bEdit b)) ∧ noFence (eSearch (bEdit b));
  ok_replace : startsClear (eReplace (bEdit b)) ∧ noFence (eReplace (bEdit b))
}.

Fixpoint writeBlocks (bs : list block) (tail : string) : string :=
  match bs with [] => tail | b :: bs => bGap b +:+ written b +:+ writeBlocks bs tail end.

(** A space class up to a newline, before a text whose first line has a byte. *)
Lemma run_line k s c q : startsClear s → (∀ b, head (k (at_ b s c)) = Some q) → ∀ b, head (run spaces (run (chr newline) k) (at_ b (nl +:+ s) c)) = Some q.
Proof.
  intros (w & x & t & -> & Hw & Hx) Hk b. assert (∀ u v, w +:+ String x t = u +:+ v → stringForall spaceClass u = true → headByte v ≠ Some newline) as Hclear.
  { clear Hk b. induction w as [|y w IH]; intros [|z u] v.
    - rewrite !string_app_nil. intros <- _. cbn. intros [= ->]. done.
    - rewrite string_app_nil, string_app_cons. intros [= <- ->]. cbn. by rewrite Hx.
    - rewrite string_app_nil, string_app_cons. intros <- _. cbn in *. intros [= ->]. by rewrite andb_false_r in Hw.
    - rewrite !string_app_cons. intros [= <- E]. cbn in *. rewrite !andb_true_iff in *. destruct Hw as [_ Hw]. intros [_ Hu]. by apply (IH Hw u). }
  change (nl +:+ w +:+ String x t) with ("" +:+ (nl +:+ (w +:+ String x t))). apply run_greedy; [done| |].
  - intros b' u v E Hu Hall. destruct u as [|y u]; [done|]. cbn in E. rewrite string_app_cons in E. injection E as <- E. cbn in Hall. apply run_chr_no. by apply (Hclear u).
  - intros b'. change (nl +:+ (w +:+ String x t)) with (String newline (w +:+ String x t)). rewrite run_chr. apply Hk.
Qed.

(** A word that begins with no space is such a text. *)
Lemma clear_cons x t : spaceClass x = false → startsClear (String x t).
Proof. intros Hx. exists "", x, t. done. Qed.

Lemma clear_app s t : startsClear s → startsClear (s +:+ t).
Proof. intros (w & x & u & -> & Hw & Hx). exists w, x, (u +:+ t). by rewrite <- string_app_assoc, string_app_cons. Qed.

Lemma run_rest R k s c q : startsClear s → (∀ b, head (run R k (at_ b s c)) = Some q) → ∀ b, head (run (Cat spaces (Cat (chr newline) R)) k (at_ b (nl +:+ s) c)) = Some q.
Proof.
  intros Hs Hk b. rewrite run_Cat. unfold run at 1. rewrite (flat_map_ext _ (run (chr newline) (run R k))) by (intros p; apply run_Cat). by apply run_line.
Qed.

(** A word and the rest of its line. *)
Lemma run_header w R k s c q : startsClear s → (∀ b, head (run R k (at_ b s c)) = Some q) →
  ∀ b, head (run (Cat (word w) (Cat spaces (Cat (chr newline) R))) k (at_ b (w +:+ nl +:+ s) c)) = Some q.
Proof.
  intros Hs Hk b. rewrite run_Cat. apply run_word. intros b'. by apply run_rest.
Qed.

(** A fence that opens, without the name of a language. *)
Lemma run_open R k s c q : startsClear s → (∀ b, head (run R k (at_ b s c)) = Some q) →
  ∀ b, head (run (Cat (word fence) (Cat (Star true (Lit alpha)) (Cat spaces (Cat (chr newline) R)))) k (at_ b (fence +:+ nl +:+ s) c)) = Some q.
Proof.
  intros Hs Hk b. rewrite run_Cat. apply run_word. intros b'. rewrite run_Cat. change (nl +:+ s) with ("" +:+ (nl +:+ s)). apply run_greedy; [done| |].
  - intros b2 u v E Hu Hall. destruct u as [|y u]; [done|]. cbn in E. rewrite string_app_cons in E. injection E as <- E. by vm_compute in Hall.
  - intros b2. by apply run_rest.
Qed.

Lemma closeGroup_at n w b b' s c : closeGroup n (at_ b (w +:+ s) c) (at_ b' s c) = at_ b' s ((n, w) :: c).
Proof. unfold closeGroup. by rewrite (captured_starts (at_ b (w +:+ s) c) w (at_ b' s c)). Qed.

Lemma at_eta p : at_ (before p) (after p) (caps p) = p.
Proof. by destruct p. Qed.

(** Before a fence that closes, nothing of a text without one matches it. *)
Lemma close_fails F k p : (∀ p, String.prefix fence (after p) = false → run F k p = []) → String.prefix (nl +:+ fence) (after p) = false → run (Cat (chr newline) F) k p = [].
Proof.
  intros HF Hp. rewrite run_Cat, <- (at_eta p). destruct (after p) as [|x s] eqn:E; [by apply run_chr_no|]. destruct (decide (x = newline)) as [->|Hn].
  - rewrite run_chr. apply HF. cbn [after at_]. exact Hp.
  - apply run_chr_no. cbn. congruence.
Qed.

Lemma noFence_suffix w rest x y : noFence w → w = x +:+ y → y ≠ "" → String.prefix (nl +:+ fence) (y +:+ nl +:+ rest) = false.
Proof.
  intros Hw -> Hy. apply not_true_iff_false. intros Hp. apply prefix_HasPrefix in Hp as [t Ht].
  assert (∃ z, y = nl +:+ fence +:+ z) as [z ->].
  { unfold nl, fence in *. destruct y as [|c1 [|c2 [|c3 [|c4 y]]]]; [done|..]; rewrite ?string_app_cons, ?string_app_nil in Ht; try discriminate Ht.
    injection Ht as -> -> -> -> _. exists y. by rewrite !string_app_cons, !string_app_nil. }
  unfold noFence in Hw. rewrite (proj2 (strContains_spec _ _)) in Hw; [done|]. exists x, z. by rewrite (string_app_assoc nl).
Qed.

(** The text of a group up to the first fence that closes. *)
Lemma run_body n K w rest c q : noFence w → (∀ p, String.prefix (nl +:+ fence) (after p) = false → K p = []) →
  (∀ b, head (K (at_ b (nl +:+ rest) ((n, w) :: c))) = Some q) → ∀ b, head (run (Cap n (Star false (Lit anyByte))) K (at_ b (w +:+ nl +:+ rest) c)) = Some q.
Proof.
  intros Hw HK Hk b. rewrite run_Cap. apply run_lazy.
  - intros b' x y E Hy. apply HK. cbn [closeGroup after at_]. by apply (noFence_suffix w rest x).
  - intros b'. rewrite closeGroup_at. apply Hk.
Qed.

(** The path is the rest of its line. *)
Lemma run_path n K w rest c q : w ≠ "" → stringForall notNewline w = true → (∀ b, head (K (at_ b (nl +:+ rest) ((n, w) :: c))) = Some q) →
  ∀ b, head (run (Cap n (Plus (Lit notNewline))) K (at_ b (w +:+ nl +:+ rest) c)) = Some q.
Proof.
  intros Hw Hall Hk b. rewrite run_Cap. destruct w as [|x w]; [done|]. cbn in Hall. apply andb_true_iff in Hall as [Hx Hall].
  unfold Plus. rewrite run_Cat. unfold run at 1. cbn [results after at_]. rewrite string_app_cons, Hx. cbn [flat_map before caps]. rewrite app_nil_r.
  change {| before := Some x; after := w +:+ nl +:+ rest; caps := c |} with (at_ (Some x) (w +:+ nl +:+ rest) c). apply run_greedy; [done| |].
  - intros b' u v E Hu Hu'. destruct u as [|y u]; [done|]. cbn in E. rewrite string_app_cons in E. injection E as <- _. by vm_compute in Hu'.
  - intros b'. change (String x (w +:+ nl +:+ rest)) with (String x w +:+ nl +:+ rest). rewrite closeGroup_at. apply Hk.
Qed.

(** The pattern reads a written block whole. *)
Lemma block_read b rest : block_ok b → ∀ prev, first searchReplacePattern (at_ prev (written b +:+ rest) []) =
  Some (at_ (Some "`"%char) rest [(3%nat, eReplace (bEdit b)); (2%nat, eSearch (bEdit b)); (1%nat, bPath b)]).
Proof.
  intros [_ (Hp1 & Hp2 & _) [Hs1 Hs2] [Hr1 Hr2]] prev. unfold first. rewrite <- run_ret. unfold searchReplacePattern, written. rewrite <- !string_app_assoc.
  rewrite run_Cat. apply run_word. intros b0. rewrite run_Cat. apply run_path; [done..|]. intros b1.
  apply run_rest; [by apply clear_cons|]. intros b2.
  apply run_header; [by apply clear_cons|]. intros b3. apply run_open; [by apply clear_app|]. intros b4.
  rewrite run_Cat. apply run_body; [done| |].
  { intros p. apply close_fails. intros p' Hp'. rewrite run_Cat, <- (at_eta p'). by apply run_word_no. }
  intros b5. rewrite run_Cat. change (nl +:+ fence +:+ ?r) with (String newline (fence +:+ r)). rewrite run_chr.
  apply run_header; [by apply clear_cons|]. intros b6. apply run_header; [by apply clear_cons|]. intros b7. apply run_open; [by apply clear_app|]. intros b8.
  rewrite run_Cat. apply run_body; [done| |].
  { intros p. apply close_fails. intros p' Hp'. rewrite <- (at_eta p'). by apply run_word_no. }
  intros b9. rewrite run_Cat. change (nl +:+ fence +:+ ?r) with (String newline (fence +:+ r)). rewrite run_chr. done.
Qed.

(** ** All the blocks of a text *)

Definition hitsAre (s : string) (L : list (list (nat * string))) : Prop := ∀ prev pos, omap hitGroups (segments searchReplacePattern prev pos 0 s) = L.

Lemma segments_skip r w rest : ∀ prev pos, ∃ prev' pos', segments r prev pos (String.length w) (w +:+ rest) = segments r prev' pos' 0 rest.
Proof. induction w as [|c w IH]; intros prev pos; [by exists prev, pos|]. rewrite string_app_cons. cbn [String.length segments]. apply IH. Qed.

Lemma noHash_first c s prev : c ≠ "#"%char → first searchReplacePattern (at_ prev (String c s) []) = None.
Proof.
  intros Hc. unfold first. rewrite <- run_ret. unfold searchReplacePattern. rewrite run_Cat, run_word_no; [done|].
  cbn [String.prefix]. destruct (ascii_dec "#" c); congruence.
Qed.

Lemma hitsAre_gap gap s L : stringForall (λ c, negb (bool_decide (c = "#"%char))) gap = true → hitsAre s L → hitsAre (gap +:+ s) L.
Proof.
  intros Hg HL. induction gap as [|c gap IH]; [done|]. cbn in Hg. apply andb_true_iff in Hg as [Hc Hg]. apply negb_true_iff, bool_decide_eq_false in Hc.
  intros prev pos. rewrite string_app_cons. cbn [segments]. fold (at_ prev (String c (gap +:+ s)) []). rewrite noHash_first by done. cbn [omap list_omap hitGroups]. by apply IH.
Qed.

Lemma hitsAre_none s : stringForall (λ c, negb (bool_decide (c = "#"%char))) s = true → hitsAre s [].
Proof. intros Hs. rewrite <- (string_app_nil_r s). by apply hitsAre_gap. Qed.

Definition groupsOf (b : block) : list (nat * string) := [(3%nat, eReplace (bEdit b)); (2%nat, eSearch (bEdit b)); (1%nat, bPath b)].

Lemma hitsAre_block b s L : block_ok b → hitsAre s L → hitsAre (written b +:+ s) (groupsOf b :: L).
Proof.
  intros Hb HL prev pos. pose proof (block_read b s Hb prev) as Hr. assert (∃ c w, written b = String c w) as (c & w & Ew) by (unfold written; cbn; eauto).
  rewrite Ew in *. rewrite string_app_cons in *. cbn [segments]. fold (at_ prev (String c (w +:+ s)) []). rewrite Hr. unfold left_. cbn [after at_ caps].
  replace (String.length (String c (w +:+ s)) - String.length s)%nat with (S (String.length w)) by (cbn; rewrite string_length_app; lia).
  cbn [omap list_omap hitGroups]. f_equal. destruct (segments_skip searchReplacePattern w s (Some c) (S pos)) as (p' & n' & ->). apply HL.
Qed.

Lemma found_written bs tail : Forall block_ok bs → stringForall (λ c, negb (bool_decide (c = "#"%char))) tail = true →
  foundEdits (writeBlocks bs tail) = (λ b, (bPath b, bEdit b)) <$> bs.
Proof.
  intros Hbs Ht. unfold foundEdits, FindAllStringSubmatch, allSegments.
  assert (hitsAre (writeBlocks bs tail) (groupsOf <$> bs)) as ->.
  { induction Hbs as [|b bs Hb Hbs IH]; [by apply hitsAre_none|]. cbn [writeBlocks fmap list_fmap]. apply hitsAre_gap; [apply Hb|]. by apply hitsAre_block. }
  rewrite <- list_fmap_compose. apply list_fmap_ext. intros i b Hi. cbn. apply list_elem_of_lookup_2 in Hi. rewrite Forall_forall in Hbs. destruct (Hbs b Hi) as [_ (_ & _ & Hp) _ _].
  transitivity (TrimSpace (bPath b), {| eSearch := eSearch (bEdit b); eReplace := eReplace (bEdit b) |}); [done|]. rewrite Hp. by destruct (bEdit b).
Qed.

(** ** Applying the edits *)

Definition firstPlace (a old b : string) : Prop := ∀ a' b', a +:+ old +:+ b = a' +:+ old +:+ b' → (String.length a ≤ String.length a')%nat.

(** An edit replaces the first place where its text stands. *)
Inductive edited : list edit → string → string → Prop :=
  | edited_nil s : edited [] s s
  | edited_cons e es a b c : firstPlace a (eSearch e) b → edited es (a +:+ eReplace e +:+ b) c → edited (e :: es) (a +:+ eSearch e +:+ b) c.

Lemma firstPlace_replace a old b new : firstPlace a old b → strContains (a +:+ old +:+ b) old = true ∧ ReplaceOnce (a +:+ old +:+ b) old new = a +:+ new +:+ b.
Proof.
  intros Hf. split; [apply strContains_spec; eauto|]. unfold ReplaceOnce. destruct (GoText.Index _ old) as [i|] eqn:Ei; [|by destruct (Index_None _ _ Ei a b)].
  pose proof (Index_Some _ _ _ Ei) as [Hs Hl]. apply Hf in Hs. rewrite Hl in Hs.
  assert (¬ (String.length a < i)%nat) as Hn. { intros Hlt. pose proof (Index_first _ _ _ _ Ei Hlt) as Hp. rewrite dropBytes_app in Hp. pose proof (HasPrefix_app old b) as Hx. unfold HasPrefix in Hx. congruence. }
  replace i with (String.length a) by lia. by rewrite takeBytes_app, <- dropBytes_add, !dropBytes_app.
Qed.

Lemma firstPlace_found s old : strContains s old = true → ∃ a b, s = a +:+ old +:+ b ∧ firstPlace a old b.
Proof.
  unfold strContains. intros [i Hi]%bool_decide_eq_true. pose proof (Index_Some _ _ _ Hi) as [Hs Hl]. do 2 eexists. split; [exact Hs|]. intros a' b' E. rewrite Hl, <- Hs in *.
  destruct (decide (i ≤ String.length a')%nat) as [|Hn]; [done|]. pose proof (Index_first _ _ _ (String.length a') Hi ltac:(lia)) as Hp.
  rewrite E, dropBytes_app in Hp. pose proof (HasPrefix_app old b') as Hx. unfold HasPrefix in Hx. congruence.
Qed.

Lemma applyEdits_edited es : ∀ i s c, applyEdits i es s = inr c ↔ edited es s c.
Proof.
  induction es as [|e es IH]; intros i s c; cbn [applyEdits]; [split; [intros [= <-]; constructor|by inversion 1]|]. split.
  - destruct (strContains s (eSearch e)) eqn:Ec; [|done]. apply firstPlace_found in Ec as (a & b & -> & Hf).
    destruct (firstPlace_replace _ _ _ (eReplace e) Hf) as [_ ->]. intros H%IH. by constructor.
  - inversion 1 as [|e' es' a b c' Hf He]; simplify_eq. destruct (firstPlace_replace _ _ _ (eReplace e) Hf) as [-> ->]. by apply IH.
Qed.

(** The edits of a file, in the order of the answer. *)
Definition editsOf (path : string) (bs : list block) : list edit := bEdit <$> filter (λ b, bPath b = path) bs.

Lemma grouped bs : ∀ m p, go_get [] (foldl groupEdit m ((λ b, (bPath b, bEdit b)) <$> bs)) p = go_get [] m p ++ editsOf p bs.
Proof.
  induction bs as [|b bs IH]; intros m p; [by rewrite app_nil_r|]. cbn [fmap list_fmap foldl]. rewrite IH. unfold groupEdit. cbn [fst snd]. rewrite go_get_insert. unfold editsOf. rewrite filter_cons.
  destruct (decide (bPath b = p)) as [->|Hn]; [by rewrite <- app_assoc|done].
Qed.

Lemma grouped_dom bs : ∀ m p, is_Some (foldl groupEdit m ((λ b, (bPath b, bEdit b)) <$> bs) !! p) ↔ is_Some (m !! p) ∨ p ∈ bPath <$> bs.
Proof.
  induction bs as [|b bs IH]; intros m p; [set_solver|]. cbn [fmap list_fmap foldl]. rewrite IH. unfold groupEdit at 1. cbn [fst snd]. rewrite lookup_insert_is_Some'. fold (bPath <$> bs). rewrite elem_of_cons. intuition congruence.
Qed.

Lemma grouped_lookup bs p es : foldl groupEdit ∅ ((λ b, (bPath b, bEdit b)) <$> bs) !! p = Some es ↔ p ∈ bPath <$> bs ∧ es = editsOf p bs.
Proof.
  pose proof (grouped bs ∅ p) as Hg. pose proof (grouped_dom bs ∅ p) as Hd. unfold go_get in Hg. rewrite lookup_empty in Hg, Hd. cbn in Hg. rewrite is_Some_alt in Hd.
  destruct (foldl groupEdit ∅ _ !! p) as [es'|]; cbn in *; naive_solver.
Qed.

(** The result of one file, when its edits can be made. *)
Definition fileResult (readFile : FileSystem) (repoPath : string) (f : string * list edit) : option codegenFileResult :=
  match readFile (Join [repoPath; f.1]) with
  | inr original => match applyEdits 0 f.2 original with inr modified => Some {| cfPath := f.1; cfContent := modified |} | inl _ => None end
  | inl _ => None
  end.

Lemma editFiles_spec readFile repoPath files : ∀ results,
  match mapM (fileResult readFile repoPath) files with
  | Some rs => editFiles readFile repoPath files results = inr (results ++ rs)
  | None => ∃ e, editFiles readFile repoPath files results = inl e
  end.
Proof.
  induction files as [|[p es] files IH]; intros results; [cbn; by rewrite app_nil_r|]. cbn [mapM editFiles].
  assert (fileResult readFile repoPath (p, es) = match readFile (Join [repoPath; p]) with
    | inr original => match applyEdits 0 es original with inr modified => Some {| cfPath := p; cfContent := modified |} | inl _ => None end
    | inl _ => None end) as -> by done.
  destruct (readFile (Join [repoPath; p])) as [err|orig]; [cbn; eauto|]. destruct (applyEdits 0 es orig) as [i|m]; [cbn; eauto|].
  specialize (IH (results ++ [{| cfPath := p; cfContent := m |}])). cbn [mbind option_bind].
  destruct (mapM (fileResult readFile repoPath) files) as [rs|]; cbn; [|done]. by rewrite IH, <- app_assoc.
Qed.

Lemma mapM_Some_elem {A B} (f : A → option B) l : ∀ k, mapM f l = Some k → ∀ y, y ∈ k ↔ ∃ x, x ∈ l ∧ f x = Some y.
Proof.
  induction l as [|x l IH]; intros k; cbn [mapM]; [intros [= <-]; set_solver|]. destruct (f x) as [y0|] eqn:Ex; cbn; [|done].
  destruct (mapM f l) as [k'|]; cbn; [|done]. intros [= <-] y. rewrite elem_of_cons, (IH k' eq_refl). set_solver.
Qed.

Lemma mapM_None_elem {A B} (f : A → option B) l : mapM f l = None → ∃ x, x ∈ l ∧ f x = None.
Proof.
  induction l as [|x l IH]; cbn [mapM]; [done|]. destruct (f x) as [y0|] eqn:Ex; cbn; [|intros _; exists x; split; [by left|done]].
  destruct (mapM f l) as [k'|]; cbn; [done|]. intros _. destruct (IH eq_refl) as (z & Hz & Ez). exists z. split; [by right|done].
Qed.

Section applying.
Context (rng : gmap string (list edit) → list (string * list edit)) `{!GoRange rng} (readFile : FileSystem).

Definition fileMade (repoPath : string) (f : string * list edit) (c : string) : Prop := ∃ original, readFile (Join [repoPath; f.1]) = inr original ∧ edited f.2 original c.

Lemma fileResult_Some repoPath f r : fileResult readFile repoPath f = Some r ↔ cfPath r = f.1 ∧ fileMade repoPath f (cfContent r).
Proof.
  unfold fileResult, fileMade. destruct f as [p es], r as [q c]. cbn. destruct (readFile _) as [err|orig]; [split; [done|by intros (_ & o & [=] & _)]|].
  destruct (applyEdits 0 es orig) as [i|m] eqn:Ea; split.
  - done.
  - intros (_ & o & [= <-] & Hc%(applyEdits_edited _ 0)). congruence.
  - intros [= <- <-]. split; [done|]. exists orig. split; [done|]. by apply (applyEdits_edited _ 0).
  - intros (-> & o & [= <-] & Hc%(applyEdits_edited _ 0)). congruence.
Qed.

Lemma fileResult_None repoPath f : fileResult readFile repoPath f = None → ∀ c, ¬ fileMade repoPath f c.
Proof. intros Hn c Hc. assert (fileResult readFile repoPath f = Some {| cfPath := f.1; cfContent := c |}) by by apply fileResult_Some. congruence. Qed.

Lemma results_paths repoPath files : ∀ rs, mapM (fileResult readFile repoPath) files = Some rs → cfPath <$> rs = files.*1.
Proof.
  induction files as [|f files IH]; intros rs; cbn [mapM]; [by intros [= <-]|]. destruct (fileResult readFile repoPath f) as [r|] eqn:Ef; [|done]. cbn [mbind option_bind].
  destruct (mapM _ files) as [rs'|]; [|done]. intros [= <-]. apply fileResult_Some in Ef as [Ep _]. cbn. by rewrite Ep, (IH rs' eq_refl).
Qed.

(** C18. When the model answers with blocks as the prompt asks for them, whose texts each
    have a first line that is not blank (so none is empty) and hold no closing fence, whose
    paths are one trimmed line, and with no byte [#] outside the blocks, every file that is
    named is read, its edits are made in the order of the answer, each at the first place
    where its text stands, and the results are those files, each once; if a file is missing
    or a text is not found there is no result.  The order in which the map is visited does
    not matter.  Other blocks, a deletion for one, are misread: see
    [deletion_swallows_next_edit] and [leading_lines_dropped]. *)
Theorem codegen_edits_exact repoPath bs tail (Hbs : Forall block_ok bs) (Hne : bs ≠ []) (Ht : stringForall (λ c, negb (bool_decide (c = "#"%char))) tail = true) :
  let made p c := ∃ original, readFile (Join [repoPath; p]) = inr original ∧ edited (editsOf p bs) original c in
  (∃ files, extractSearchReplaceBlocks rng readFile (writeBlocks bs tail) repoPath = inr files ∧ NoDup (cfPath <$> files) ∧
     (∀ p c, {| cfPath := p; cfContent := c |} ∈ files ↔ p ∈ bPath <$> bs ∧ made p c) ∧ ∀ p, p ∈ bPath <$> bs → ∃ c, made p c) ∨
  (∃ e p, extractSearchReplaceBlocks rng readFile (writeBlocks bs tail) repoPath = inl e ∧ p ∈ bPath <$> bs ∧ ∀ c, ¬ made p c).
Proof.
  cbv zeta. set (m := foldl groupEdit ∅ ((λ b, (bPath b, bEdit b)) <$> bs)).
  assert (extractSearchReplaceBlocks rng readFile (writeBlocks bs tail) repoPath = editFiles readFile repoPath (rng m) []) as ->.
  { unfold extractSearchReplaceBlocks. rewrite found_written by done. by destruct bs. }
  assert (∀ p es, (p, es) ∈ rng m ↔ p ∈ bPath <$> bs ∧ es = editsOf p bs) as Hm by (intros p es; rewrite (elem_of_range rng); apply grouped_lookup).
  pose proof (editFiles_spec readFile repoPath (rng m) []) as He. destruct (mapM (fileResult readFile repoPath) (rng m)) as [rs|] eqn:Em.
  - left. exists rs. split; [exact He|]. rewrite (results_paths _ _ _ Em). split; [apply NoDup_range_fst; apply _|].
    assert (∀ p c, {| cfPath := p; cfContent := c |} ∈ rs ↔ p ∈ bPath <$> bs ∧ fileMade repoPath (p, editsOf p bs) c) as Hrs.
    { intros p c. rewrite (mapM_Some_elem _ _ _ Em). split; [intros ([q es] & Hq & Ef)|intros [Hp Hc]; exists (p, editsOf p bs); split; [by apply Hm|by apply fileResult_Some]].
      apply fileResult_Some in Ef as [Ep Hc]. cbn in Ep. subst q. apply Hm in Hq as [Hp ->]. done. }
    split; [exact Hrs|]. intros p Hp. assert (p ∈ cfPath <$> rs) as Hx. { rewrite (results_paths _ _ _ Em). apply list_elem_of_fmap. exists (p, editsOf p bs). split; [done|by apply Hm]. }
    apply list_elem_of_fmap in Hx as ([q c] & -> & Hx). exists c. by apply Hrs in Hx as [_ Hx].
  - right. destruct He as [e He]. apply mapM_None_elem in Em as ([p es] & Hp & Ef). apply Hm in Hp as [Hp ->]. exists e, p. split; [done|]. split; [done|]. by apply (fileResult_None _ (p, editsOf p bs)).
Qed.
End applying.

Lemma length_reasoning content : (String.length (extractReasoning content) ≤ 500)%nat.
Proof. unfold extractReasoning. cbv zeta. destruct (decide _) as [Hl|Hl]; [rewrite length_takeBytes; lia|lia]. Qed.

(** At most one request is made, and only for a named repository with a title and files:
    it goes to the configured address with the configured key.  A result comes from the first
    choice of an answer with status 200, with its tokens and at most 500 bytes of reasoning. *)
Theorem codegen_handler_exact rng readFile cfg llm params :
  let '(r, posts) := codegenHandler rng readFile cfg llm params in
  (posts = [] ∨ ∃ input, params = Some input ∧ cgRepo input ≠ "" ∧ IssueTitle input ≠ "" ∧ FileScope input ≠ [] ∧ posts = [codegenRequest readFile cfg input]) ∧
  (∀ res, r = inr res ↔ ∃ input content rest, params = Some input ∧ cgRepo input ≠ "" ∧ IssueTitle input ≠ "" ∧ FileScope input ≠ [] ∧
     llm (codegenRequest readFile cfg input) = Got 200 (Some {| llmContents := content :: rest; llmTotalTokens := TokensUsed res |}) ∧
     cgFiles res = filesOf rng readFile content (Join [RepoBase cfg; repoName (cgRepo input)]) ∧ Reasoning res = extractReasoning content) ∧
  (∀ res, r = inr res → (String.length (Reasoning res) ≤ 500)%nat).
Proof.
  unfold codegenHandler. destruct params as [input|]; [|split; [by left|split; [intros res; split; [done|by intros (? & ? & ? & ? & _)]|done]]].
  destruct (decide _) as [Hd|Hd]; [split; [by left|split; [|done]]; intros res; split; [done|intros (? & ? & ? & [= <-] & ? & ? & ? & _); tauto]|].
  assert (cgRepo input ≠ "" ∧ IssueTitle input ≠ "" ∧ FileScope input ≠ []) as (H1 & H2 & H3) by tauto. cbv zeta.
  destruct (llm (codegenRequest readFile cfg input)) as [| |st body] eqn:El.
  1: split; [by left|]. 2, 3: split; [right; by exists input|].
  1, 2: split; [|done]; intros res; split; [done|]; intros (i & c & rest & [= <-] & _ & _ & _ & E & _); congruence.
  cbn [expectOK]. destruct (decide (st ≠ 200)) as [Hst|Hst].
  { split; [|done]. intros res. split; [done|]. intros (i & c & rest & [= <-] & _ & _ & _ & E & _). congruence. }
  apply dec_stable in Hst as ->. destruct body as [[[|content rest] tok]|]; cbn [llmContents llmTotalTokens].
  1, 3: split; [|done]; intros res; split; [done|]; intros (i & c & r & [= <-] & _ & _ & _ & E & _); congruence.
  split; [|intros res [= <-]; apply length_reasoning]. intros res. split.
  - intros [= <-]. by exists input, content, rest.
  - intros (i & c & r & [= <-] & _ & _ & _ & E & Hf & Hr). rewrite El in E. injection E as -> -> ->. destruct res. cbn in *. by subst.
Qed.

(** ** Trying it *)

Definition sample_repo : FileSystem := λ p,
  if decide (p = "/workspace/app/a.go") then inr ("one" +:+ nl +:+ "two" +:+ nl +:+ "two")
  else if decide (p = "/etc/passwd") then inr "root" else inl "no such file".

Definition sample_block (path old new : string) : block := {| bGap := nl; bPath := path; bEdit := {| eSearch := old; eReplace := new |} |}.

Definition sample_blocks : list block := [sample_block "a.go" "two" "2"; sample_block "a.go" "one" "1"].

Lemma sample_blocks_ok : Forall block_ok sample_blocks.
Proof.
  repeat constructor; try done; try (exists "", "t"%char, "wo"; done); try (exists "", "2"%char, ""; done); try (exists "", "o"%char, "ne"; done); try (exists "", "1"%char, ""; done).
Qed.

Lemma codegen_edits_exact_witness : ∃ files, extractSearchReplaceBlocks map_to_list sample_repo (writeBlocks sample_blocks nl) "/workspace/app" = inr files ∧
  {| cfPath := "a.go"; cfContent := "1" +:+ nl +:+ "2" +:+ nl +:+ "two" |} ∈ files.
Proof.
  assert (∃ f, extractSearchReplaceBlocks map_to_list sample_repo (writeBlocks sample_blocks nl) "/workspace/app" = inr f ∧ f = [{| cfPath := "a.go"; cfContent := "1" +:+ nl +:+ "2" +:+ nl +:+ "two" |}]) as (f & Ef & E)
    by (eexists; split; vm_compute; reflexivity).
  destruct (codegen_edits_exact map_to_list sample_repo "/workspace/app" sample_blocks nl sample_blocks_ok ltac:(discriminate) eq_refl) as [(files & Hf & _)|(e & p & He & _)].
  - exists files. split; [exact Hf|]. rewrite Hf in Ef. injection Ef as ->. rewrite E. by left.
  - exfalso. rewrite He in Ef. discriminate Ef.
Defined.

(** An edit that does not apply is an error of the blocks, and a result of the tool without
    the edit. *)
Example failed_edit_is_silent : let content := writeBlocks [sample_block "a.go" "three" "3"] "" in
  extractSearchReplaceBlocks map_to_list sample_repo content "/workspace/app" = inl (SearchNotFound "a.go" 1) ∧ filesOf map_to_list sample_repo content "/workspace/app" = [].
Proof. split; vm_compute; reflexivity. Qed.

(** An empty replacement, which deletes a text, takes the next block for what replaces it. *)
Example deletion_swallows_next_edit : foundEdits (writeBlocks [sample_block "a.go" "one" ""; sample_block "b.go" "x" "y"] "") =
  [("a.go", {| eSearch := "one"; eReplace := fence +:+ nl +:+ "### file: b.go" +:+ nl +:+ "SEARCH:" |})].
Proof. vm_compute. reflexivity. Qed.

(** The empty lines at the beginning of a text are dropped. *)
Example leading_lines_dropped : foundEdits (writeBlocks [sample_block "a.go" "two" (nl +:+ "two")] "") = [("a.go", {| eSearch := "two"; eReplace := "two" |})].
Proof. vm_compute. reflexivity. Qed.

(** The files that are asked for need not lie in the repository. *)
Example scope_leaves_repository : fileContents sample_repo (Join ["/workspace"; repoName "nexixai/app"]) ["../../etc/passwd"] =
  unlines ["### ../../etc/passwd (1 lines)"; "```"; "root"; "```"; ""; ""].
Proof. vm_compute. reflexivity. Qed.

(** The blocks of the answer stand in its reasoning. *)
Example reasoning_keeps_blocks : let content := "I edit." +:+ writeBlocks [sample_block "a.go" "two" "2"] "" in extractReasoning content = content.
Proof. vm_compute. reflexivity. Qed.
