(* ===== verification/Config.v ===== *)
(** * Config: settings, profiles and what is measured

    internal/config (config.go, profile.go, validate.go), internal/secrets/loader.go,
    internal/tlsconfig/tls.go, internal/storage/factory.go and the parts of
    internal/metrics/metrics.go that compute (the daily totals, the recorded status, the
    labels).  Reading a file and loading a key pair are arguments. *)
From S2P Require Import Prelude GoTime GoPath GoStrings GoCalendar Access.

(** ** Settings (config.go) *)

Definition envOrDefault (env : Environ) (key fallback : string) : string := if decide (env key = "") then fallback else env key.

(** A setting that is kept when its text cannot be read. *)
Definition readSetting {A} (env : Environ) (key : string) (parse : string → option A) (def : A) : A :=
  if decide (env key = "") then def else default def (parse (env key)).

Definition positiveDuration (s : string) : option Duration :=
  match ParseDuration s with Some d => if decide (0 < d) then Some d else None | None => None end.

Record PostgresConfig := { pgHost : string; pgPort : Z; pgName : string; pgUser : string; pgPassword : string; SSLMode : string; PoolSize : Z }.

Record ModelConfig := { mcProvider : string; mcBaseURL : string; mcAPIKey : string; mcDefaultModel : string; mcTimeout : Duration }.

Record ExecConfig := { exWorkers : Z; exDefaultMaxSteps : Z; exDefaultTimeout : Duration; ToolMaxOutputSize : Z }.

Record PIIConfig := { piEnabled : bool; piDefaultMode : string }.

Record StorageConfig := {
  Backend : string; Postgres : PostgresConfig; ShutdownTimeout : Duration; LogFormat : string; MaxBodySize : Z;
  MemoryMaxMessages : Z; MemoryMaxTokens : Z; KVMaxValueSize : Z; KVMaxKeysPerAgent : Z; PII : PIIConfig
}.

Record MCPConfig := { mcpEnabled : bool; mcpPort : Z }.

Record KBConfig := { kbcURL : string; kbcAPIKey : string }.

Section load.
Context (env : Environ) (readFile : string → option string).

(** A secret in a file comes before the one in the environment. *)
Definition fileOrEnv (fileKey key : string) : string :=
  if decide (env fileKey = "") then env key
  else match readFile (env fileKey) with Some data => trimRightChar "010" data | None => env key end.

Definition LoadModelConfig : ModelConfig := {|
  mcProvider := env "AGENTOS_MODEL_PROVIDER"; mcBaseURL := env "AGENTOS_MODEL_BASE_URL";
  mcAPIKey := fileOrEnv "AGENTOS_MODEL_API_KEY_FILE" "AGENTOS_MODEL_API_KEY"; mcDefaultModel := env "AGENTOS_MODEL_DEFAULT";
  mcTimeout := readSetting env "AGENTOS_MODEL_TIMEOUT" ParseDuration (60 * Second)
|}.

Definition LoadExecConfig : ExecConfig := {|
  exWorkers := envInt env "AGENTOS_EXEC_WORKERS" 5; exDefaultMaxSteps := envInt env "AGENTOS_EXEC_DEFAULT_MAX_STEPS" 10;
  exDefaultTimeout := readSetting env "AGENTOS_EXEC_DEFAULT_TIMEOUT" positiveDuration (300 * Second);
  ToolMaxOutputSize := envInt env "AGENTOS_EXEC_TOOL_MAX_OUTPUT" (1024 * 1024)
|}.

Definition LoadFromEnv : StorageConfig := {|
  Backend := env "AGENTOS_STORAGE_BACKEND";
  Postgres := {|
    pgHost := env "AGENTOS_DB_HOST"; pgPort := readSetting env "AGENTOS_DB_PORT" Atoi 5432; pgName := env "AGENTOS_DB_NAME"; pgUser := env "AGENTOS_DB_USER";
    pgPassword := fileOrEnv "AGENTOS_DB_PASSWORD_FILE" "AGENTOS_DB_PASSWORD"; SSLMode := envOrDefault env "AGENTOS_DB_SSLMODE" "require";
    PoolSize := readSetting env "AGENTOS_DB_POOL_SIZE" Atoi 10
  |};
  ShutdownTimeout := readSetting env "AGENTOS_SHUTDOWN_TIMEOUT" ParseDuration (30 * Second); LogFormat := envOrDefault env "AGENTOS_LOG_FORMAT" "";
  MaxBodySize := readSetting env "AGENTOS_MAX_BODY_SIZE" Atoi 1048576;
  MemoryMaxMessages := readSetting env "AGENTOS_MEMORY_MAX_MESSAGES" Atoi 50; MemoryMaxTokens := readSetting env "AGENTOS_MEMORY_MAX_TOKENS" Atoi 8192;
  KVMaxValueSize := readSetting env "AGENTOS_KV_MAX_VALUE_SIZE" Atoi 65536; KVMaxKeysPerAgent := readSetting env "AGENTOS_KV_MAX_KEYS_PER_AGENT" Atoi 1000;
  PII := {| piEnabled := bool_decide (ToLower (envOrDefault env "AGENTOS_PII_ENABLED" "true") = "true"); piDefaultMode := envOrDefault env "AGENTOS_PII_DEFAULT_MODE" "warn" |}
|}.

Definition validPort (s : string) : option Z := match Atoi s with Some n => if decide (0 < n ∧ n <= 65535) then Some n else None | None => None end.

Definition LoadMCPConfig : MCPConfig := {|
  mcpEnabled := if decide (env "AGENTOS_MCP_ENABLED" = "") then false else bool_decide (ToLower (env "AGENTOS_MCP_ENABLED") = "true");
  mcpPort := readSetting env "AGENTOS_MCP_PORT" validPort 9092
|}.

Definition LoadKBConfig : KBConfig := {|
  kbcURL := envOrDefault env "AGENTOS_KB_URL" "http://nexixai-kb:9093"; kbcAPIKey := envOrDefault env "AGENTOS_KB_API_KEY" (env "KB_API_KEY")
|}.
End load.

(** The problems of a configuration, in the order in which they are reported. *)
Inductive Problem :=
  | ProviderMissing | BaseURLMissing | APIKeyMissing | ProviderUnknown | TimeoutNotPositive
  | HostMissing | NameMissing | UserMissing | PasswordMissing | PortInvalid | PoolSizeInvalid
  | MetricsOpen | PeersFileMissing | PeersFileUnreadable.

Definition report (c : Prop) `{Decision c} (p : Problem) : list Problem := if decide c then [p] else [].

Definition ValidateModel (c : ModelConfig) : list Problem :=
  (if decide (mcProvider c = "") then [ProviderMissing]
   else if decide (mcProvider c = "stub") then []
   else if decide (mcProvider c = "openai") then report (mcBaseURL c = "") BaseURLMissing ++ report (mcAPIKey c = "") APIKeyMissing
   else if decide (mcProvider c = "anthropic") then report (mcAPIKey c = "") APIKeyMissing
   else [ProviderUnknown]) ++ report (mcTimeout c <= 0) TimeoutNotPositive.

Definition ValidateStorage (c : StorageConfig) : list Problem :=
  (if decide (ToLower (Backend c) = "postgres") then
     report (pgHost (Postgres c) = "") HostMissing ++ report (pgName (Postgres c) = "") NameMissing ++
     report (pgUser (Postgres c) = "") UserMissing ++ report (pgPassword (Postgres c) = "") PasswordMissing
   else []) ++
  report (pgPort (Postgres c) < 1 ∨ 65535 < pgPort (Postgres c)) PortInvalid ++ report (PoolSize (Postgres c) < 1) PoolSizeInvalid.

(** ** Profiles (profile.go, validate.go) *)

Inductive Profile := ProfileDev | ProfileDemo | ProfileProd.
#[global] Instance Profile_eq_dec : EqDecision Profile.
Proof. solve_decision. Defined.

Definition CurrentProfile (env : Environ) : Profile :=
  let p := ToLower (TrimSpace (env "AGENTOS_PROFILE")) in
  if decide (p = "demo") then ProfileDemo else if decide (p = "prod") then ProfileProd else ProfileDev.

Inductive UnsafeProfile := DefaultTenantSet | DevHeadersAllowed.

Definition EnsureSafeProfile (env : Environ) : option UnsafeProfile :=
  if decide (CurrentProfile env ≠ ProfileProd) then None
  else if decide (TrimSpace (env "AGENTOS_DEFAULT_TENANT") ≠ "") then Some DefaultTenantSet
  else if decide (TrimSpace (env "AGENTOS_ALLOW_DEV_HEADERS") = "1") then Some DevHeadersAllowed
  else None.

(** [stat] says whether a file is there. *)
Definition ValidateServiceConfig (env : Environ) (stat : string → bool) (service : string) : list Problem :=
  if decide (CurrentProfile env ≠ ProfileProd) then []
  else
    let service := ToLower (TrimSpace service) in
    report (TrimSpace (env "AGENTOS_METRICS_REQUIRE_AUTH") ≠ "1") MetricsOpen ++
    (if decide (service = "federation") then
       let peersPath := TrimSpace (env "AGENTOS_PEERS_FILE") in
       if decide (peersPath = "") then [PeersFileMissing] else if stat peersPath then [] else [PeersFileUnreadable]
     else []).

(** [MetricsRequireAuth] (metrics.go). *)
Definition MetricsRequireAuth (env : Environ) : bool :=
  let v := env "AGENTOS_METRICS_REQUIRE_AUTH" in
  if decide (v = "") then true else match Atoi v with Some i => bool_decide (i ≠ 0) | None => true end.

(** ** Certificates and secrets *)

Inductive TLSError := OnlyOneSet | LoadFailed.

Definition LoadTLS {Cert} (env : Environ) (loadKeyPair : string → string → option Cert) : TLSError + option (Cert * string * string) :=
  let certPath := env "AGENTOS_TLS_CERT" in
  let keyPath := env "AGENTOS_TLS_KEY" in
  if decide (certPath = "" ∧ keyPath = "") then inr None
  else if decide (certPath = "" ∨ keyPath = "") then inl OnlyOneSet
  else match loadKeyPair certPath keyPath with Some c => inr (Some (c, certPath, keyPath)) | None => inl LoadFailed end.

Inductive SecretError := SecretNameRequired | SecretFileUnreadable | ExternalFailed | SecretMissing.

(** The loader of secrets: the environment, a file, an external provider. *)
Definition LoadSecret (env : Environ) (readFile : string → option string) (external : option (string → option string)) (name : string) : SecretError + string :=
  let key := TrimSpace name in
  if decide (key = "") then inl SecretNameRequired
  else
    let v := TrimSpace (env key) in
    if decide (v ≠ "") then inr v
    else
      let path := TrimSpace (env (key +:+ "_FILE")) in
      if decide (path ≠ "") then match readFile path with Some b => inr (TrimSpace b) | None => inl SecretFileUnreadable end
      else match external with
           | Some ext => match ext key with Some v => inr (TrimSpace v) | None => inl ExternalFailed end
           | None => inr ""
           end.

Definition RequireSecret (env : Environ) (readFile : string → option string) (external : option (string → option string)) (name : string) : SecretError + string :=
  match LoadSecret env readFile external name with
  | inl e => inl e
  | inr v => if decide (v = "") then inl SecretMissing else inr v
  end.

(** ** Which store (internal/storage/factory.go) *)

Inductive Chosen := InPostgres (c : PostgresConfig) | InFiles (path : string) | NotStored | UnknownBackend.

Definition chooseStore (cfg : StorageConfig) (path : string) : Chosen :=
  let b := ToLower (Backend cfg) in
  if decide (b = "postgres") then InPostgres (Postgres cfg)
  else if decide (b = "file" ∨ b = "") then InFiles path
  else UnknownBackend.

(** The variable of a store, or its default place. *)
Definition placeOf (env : Environ) (key : string) (elems : list string) : string := let p := TrimSpace (env key) in if decide (p = "") then Join elems else p.

Definition NewRunStore (env : Environ) (cfg : StorageConfig) : Chosen := chooseStore cfg (placeOf env "AGENTOS_RUN_STORE_FILE" ["data"; "agent-orchestrator"; "runs.json"]).
Definition NewAgentStore (env : Environ) (cfg : StorageConfig) : Chosen := chooseStore cfg (placeOf env "AGENTOS_AGENT_STORE_DIR" ["data"; "agents"]).
Definition NewMemoryStore (env : Environ) (cfg : StorageConfig) : Chosen := chooseStore cfg (placeOf env "AGENTOS_MEMORY_STORE_DIR" ["data"; "memory"]).
Definition NewEventLogStore (dataDir : string) (cfg : StorageConfig) : Chosen := chooseStore cfg dataDir.
Definition NewKVStore (env : Environ) (cfg : StorageConfig) : Chosen := chooseStore cfg (placeOf env "AGENTOS_KV_STORE_DIR" ["data"; "kv"]).
Definition NewUsageStore (cfg : StorageConfig) : Chosen := if decide (ToLower (Backend cfg) = "postgres") then InPostgres (Postgres cfg) else NotStored.

(** ** What is measured (internal/metrics/metrics.go) *)

Definition maxLabelLen : nat := 128.

Definition truncateLabel (s : string) : string := if decide (maxLabelLen < String.length s)%nat then takeBytes maxLabelLen s else s.

(** The status of [Instrument]: the last one written, 200 if none is. *)
Definition capturedStatus (writes : list Z) : Z := foldl (λ _ code, code) 200 writes.

Section budget.
(** Tokens are counted in floating-point numbers. *)
Context {F : Type} (zero : F) (plus : F → F → F).

(** The totals of the day and the gauge that is exported. *)
Record dailyTokenBudgetTracker := { currentDay : string; usageByTenant : gmap string F; dailyTokenBudgetUsed : gmap string F }.

Definition newTracker : dailyTokenBudgetTracker := {| currentDay := ""; usageByTenant := ∅; dailyTokenBudgetUsed := ∅ |}.

Definition syncDay (now : Time) (d : dailyTokenBudgetTracker) : dailyTokenBudgetTracker :=
  if decide (currentDay d = formatDay now) then d else {| currentDay := formatDay now; usageByTenant := ∅; dailyTokenBudgetUsed := ∅ |}.

Definition addTokens (tenant : string) (tokens : F) (now : Time) (d : dailyTokenBudgetTracker) : dailyTokenBudgetTracker :=
  let d := syncDay now d in
  let total := plus (go_get zero (usageByTenant d) tenant) tokens in
  {| currentDay := currentDay d; usageByTenant := <[tenant := total]> (usageByTenant d); dailyTokenBudgetUsed := <[tenant := total]> (dailyTokenBudgetUsed d) |}.

Inductive MeterOp := MeterAdd (tenant : string) (tokens : F) (now : Time) | MeterScrape (now : Time).

(** [AddModelTokens] adds under the label of the tenant; a scrape only notices a new day. *)
Definition meterStep (d : dailyTokenBudgetTracker) (op : MeterOp) : dailyTokenBudgetTracker :=
  match op with
  | MeterAdd tenant tokens now => addTokens (truncateLabel tenant) tokens now d
  | MeterScrape now => syncDay now d
  end.

Definition meterTime (op : MeterOp) : Time := match op with MeterAdd _ _ now | MeterScrape now => now end.
End budget.
Arguments dailyTokenBudgetTracker : clear implicits.
Arguments MeterOp : clear implicits.

(** ** What the settings guarantee *)

Lemma elem_of_report (c : Prop) `{Decision c} p q : q ∈ report c p ↔ c ∧ q = p.
Proof. unfold report. destruct (decide c); set_solver. Qed.

(** What makes a problem of a storage configuration. *)
Definition storageProblem (c : StorageConfig) (p : Problem) : Prop :=
  let pg := Postgres c in
  match p with
  | HostMissing => ToLower (Backend c) = "postgres" ∧ pgHost pg = ""
  | NameMissing => ToLower (Backend c) = "postgres" ∧ pgName pg = ""
  | UserMissing => ToLower (Backend c) = "postgres" ∧ pgUser pg = ""
  | PasswordMissing => ToLower (Backend c) = "postgres" ∧ pgPassword pg = ""
  | PortInvalid => ¬ (1 <= pgPort pg <= 65535)
  | PoolSizeInvalid => PoolSize pg < 1
  | _ => False
  end.

(** The check of a storage configuration reports exactly its problems, each once: what is
    missing for a database is a problem for the backend postgres only, a port outside 1 to
    65535 and an empty pool for every backend. *)
Theorem storage_problems_exact c : NoDup (ValidateStorage c) ∧ ∀ p, p ∈ ValidateStorage c ↔ storageProblem c p.
Proof.
  unfold ValidateStorage. split.
  - unfold report. destruct (decide (ToLower _ = _)); repeat destruct (decide _); repeat constructor; set_solver.
  - intros p. rewrite !elem_of_app, !elem_of_report. unfold storageProblem. destruct (decide (ToLower (Backend c) = "postgres")) as [Hb|Hb].
    + rewrite !elem_of_app, !elem_of_report. destruct p; intuition (try discriminate; try lia).
    + rewrite elem_of_nil. destruct p; intuition (try discriminate; try lia).
Qed.

Lemma envInt_positive env key def : 0 < def → 0 < envInt env key def.
Proof. intros Hd. unfold envInt. destruct (decide _); [done|]. destruct (Atoi _); [|done]. case_bool_decide; lia. Qed.

(** Whatever stands in the environment, an executor has at least one worker, one step, a
    positive timeout and a positive output limit, and the MCP server a port of 1 to 65535. *)
Theorem loaded_limits_positive env : let c := LoadExecConfig env in
  0 < exWorkers c ∧ 0 < exDefaultMaxSteps c ∧ 0 < exDefaultTimeout c ∧ 0 < ToolMaxOutputSize c ∧ 1 <= mcpPort (LoadMCPConfig env) <= 65535.
Proof.
  cbv zeta. split; [by apply envInt_positive|]. split; [by apply envInt_positive|]. split; [|split; [by apply envInt_positive|]]; cbn [exDefaultTimeout LoadExecConfig mcpPort LoadMCPConfig]; unfold readSetting.
  - destruct (decide _); [done|]. unfold positiveDuration. destruct (ParseDuration _); [|done]. destruct (decide _); done.
  - destruct (decide _); [done|]. unfold validPort. destruct (Atoi _); [|done]. destruct (decide _); cbn; lia.
Qed.

(** A model configuration without problems has what its provider needs. *)
Lemma model_valid c : ValidateModel c = [] → 0 < mcTimeout c ∧
  (mcProvider c = "stub" ∨ (mcProvider c = "openai" ∧ mcBaseURL c ≠ "" ∧ mcAPIKey c ≠ "") ∨ (mcProvider c = "anthropic" ∧ mcAPIKey c ≠ "")).
Proof.
  unfold ValidateModel, report. repeat destruct (decide _); try done; split; try lia; tauto.
Qed.

(** Which model providers can be started with: the stub, one like OpenAI with an address
    and a key, or Anthropic with a key, and always with a positive timeout; of the two places
    for the key, a file that can be read comes first. *)
Theorem model_config_exact env readFile : let c := LoadModelConfig env readFile in
  (ValidateModel c = [] ↔ 0 < mcTimeout c ∧
    (mcProvider c = "stub" ∨ (mcProvider c = "openai" ∧ mcBaseURL c ≠ "" ∧ mcAPIKey c ≠ "") ∨ (mcProvider c = "anthropic" ∧ mcAPIKey c ≠ ""))) ∧
  (∀ data, env "AGENTOS_MODEL_API_KEY_FILE" ≠ "" → readFile (env "AGENTOS_MODEL_API_KEY_FILE") = Some data → mcAPIKey c = trimRightChar "010" data).
Proof.
  cbv zeta. split.
  - split; [apply model_valid|]. generalize (LoadModelConfig env readFile). intros c [Ht Hp]. unfold ValidateModel, report. rewrite (decide_False (P := mcTimeout c <= 0)) by lia.
    repeat case_decide; try done; intuition congruence.
  - intros data Hf Hr. cbn. unfold fileOrEnv. by rewrite decide_False, Hr.
Qed.

(** ** A production service *)

Lemma digit_graphic c : is_Some (digit_of c) → graphic c = true.
Proof.
  unfold digit_of, graphic. case_bool_decide as Hc; [|by intros [? [=]]]. intros _. apply bool_decide_eq_true. lia.
Qed.

Lemma parse_digits_graphic s : ∀ acc n, parse_digits acc s = Some n → stringForall graphic s = true.
Proof.
  induction s as [|c s IH]; intros acc n; [done|]. cbn. destruct (digit_of c) eqn:Ed; cbn; [|done]. intros Hp. rewrite digit_graphic by eauto. by eapply IH.
Qed.

Lemma Atoi_graphic s n : Atoi s = Some n → stringForall graphic s = true.
Proof.
  assert (∀ s m, parse_uint s = Some m → stringForall graphic s = true) as Hu by (intros [|c s'] m; [done|apply parse_digits_graphic]).
  intros Ha. assert (stringForall graphic s = true ∨ ∃ c s' m, s = String c s' ∧ graphic c = true ∧ parse_uint s' = Some m) as [Hs|(c & s' & m & -> & Hc & Hm)].
  - unfold Atoi in Ha. destruct s as [|c s]; [done|]. destruct (decide (c = "-"%char)) as [->|H1]; [destruct (parse_uint s) eqn:E; [right; by eauto 7|done]|].
    destruct (decide (c = "+"%char)) as [->|H2]; [destruct (parse_uint s) eqn:E; [right; by eauto 7|done]|]. left.
    assert (parse_uint (String c s) ≫= check_int64 = Some n) as Hx. { destruct c as [[] [] [] [] [] [] [] []]; try exact Ha; first [by destruct H1|by destruct H2]. }
    destruct (parse_uint (String c s)) eqn:E; [by apply (Hu _ _ E)|done].
  - done.
  - cbn. by rewrite Hc, (Hu _ _ Hm).
Qed.

Lemma metrics_required env : TrimSpace (env "AGENTOS_METRICS_REQUIRE_AUTH") = "1" → MetricsRequireAuth env = true.
Proof.
  intros Ht. unfold MetricsRequireAuth. cbv zeta. destruct (decide _); [done|]. destruct (Atoi _) as [i|] eqn:Ea; [|done].
  rewrite (TrimSpace_graphic_all _ (Atoi_graphic _ _ Ea)) in Ht. rewrite Ht in Ea. injection Ea as <-. done.
Qed.

(** A production service that passes both checks at its start takes no default tenant:
    a request that names no tenant is refused, and so is a reader of the metrics without
    one; the federation service has a list of its peers. *)
Theorem prod_service_safe env stat service (Hprod : CurrentProfile env = ProfileProd) (Hsafe : EnsureSafeProfile env = None) (Hconf : ValidateServiceConfig env stat service = []) :
  (∀ ac, TrimSpace (TokenTenantID ac) = "" → TrimSpace (ATenantID ac) = "" →
     RequireTenant env ac = inl ErrTenantRequired ∧ ProtectMetrics env (MetricsRequireAuth env) ac = Some (deny 401 "unauthorized")) ∧
  (ToLower (TrimSpace service) = "federation" → TrimSpace (env "AGENTOS_PEERS_FILE") ≠ "" ∧ stat (TrimSpace (env "AGENTOS_PEERS_FILE")) = true).
Proof.
  unfold EnsureSafeProfile in Hsafe. rewrite decide_False in Hsafe by (intros Hx; by apply Hx). destruct (decide (TrimSpace (env "AGENTOS_DEFAULT_TENANT") ≠ "")) as [|Hd]; [done|]. apply dec_stable in Hd.
  unfold ValidateServiceConfig in Hconf. rewrite decide_False in Hconf by (intros Hx; by apply Hx). apply app_nil in Hconf as [Hm Hp]. unfold report in Hm.
  destruct (decide (TrimSpace (env "AGENTOS_METRICS_REQUIRE_AUTH") ≠ "1")) as [|Hr]; [done|]. apply dec_stable, metrics_required in Hr. split.
  - intros ac Ht Ha. assert (RequireTenant env ac = inl ErrTenantRequired) as E.
    { unfold RequireTenant, DefaultTenant. cbv zeta. rewrite Ht, Ha, Hd. by repeat (rewrite decide_False by tauto). }
    split; [done|]. unfold ProtectMetrics, ResolveTenantHTTP. by rewrite Hr, E.
  - intros Hs. rewrite decide_True in Hp by done. destruct (decide (TrimSpace (env "AGENTOS_PEERS_FILE") = "")); [done|]. by destruct (stat _).
Qed.

(** The variable that the check of the profile refuses is read nowhere else; the one that
    switches authentication off passes. *)
Theorem prod_accepts_dev_mode env : env "AGENTOS_DEV_MODE" = "true" → TrimSpace (env "AGENTOS_DEFAULT_TENANT") = "" → TrimSpace (env "AGENTOS_ALLOW_DEV_HEADERS") ≠ "1" →
  EnsureSafeProfile env = None ∧ DevMode env = true.
Proof.
  intros Hd Ht Ha. split; [|unfold DevMode; by apply bool_decide_eq_true]. unfold EnsureSafeProfile. destruct (decide _); [done|].
  rewrite decide_False by tauto. by rewrite decide_False.
Qed.

(** ** Stores *)

(** A configuration without problems may name a backend that no store has; usage is then
    silently not stored. *)
Theorem unknown_backend_passes env cfg dir : ToLower (Backend cfg) ≠ "postgres" → ToLower (Backend cfg) ≠ "file" → Backend cfg ≠ "" →
  1 <= pgPort (Postgres cfg) <= 65535 → 1 <= PoolSize (Postgres cfg) →
  ValidateStorage cfg = [] ∧ NewUsageStore cfg = NotStored ∧
  Forall (λ c, c = UnknownBackend) [NewRunStore env cfg; NewAgentStore env cfg; NewMemoryStore env cfg; NewEventLogStore dir cfg; NewKVStore env cfg].
Proof.
  intros H1 H2 H3 Hp Hs. assert (ToLower (Backend cfg) ≠ "") as H4 by (destruct (Backend cfg); done). split; [|split].
  - unfold ValidateStorage, report. rewrite decide_False by done. rewrite (decide_False (P := _ ∨ _)) by lia. by rewrite decide_False by lia.
  - unfold NewUsageStore. by rewrite decide_False.
  - unfold NewRunStore, NewAgentStore, NewMemoryStore, NewEventLogStore, NewKVStore, chooseStore. cbv zeta. rewrite !(decide_False (P := ToLower (Backend cfg) = "postgres")) by done.
    rewrite !decide_False by tauto. by repeat constructor.
Qed.

(** A secret that is required is never empty; it is the variable's, or that of the file
    which a second variable names when the first is empty, or the external provider's when
    both are. *)
Theorem secret_exact env readFile external name v : RequireSecret env readFile external name = inr v ↔
  let key := TrimSpace name in
  key ≠ "" ∧ v ≠ "" ∧
  ((TrimSpace (env key) = v) ∨
   (TrimSpace (env key) = "" ∧ ∃ b, TrimSpace (env (key +:+ "_FILE")) ≠ "" ∧ readFile (TrimSpace (env (key +:+ "_FILE"))) = Some b ∧ v = TrimSpace b) ∨
   (TrimSpace (env key) = "" ∧ TrimSpace (env (key +:+ "_FILE")) = "" ∧ ∃ ext x, external = Some ext ∧ ext key = Some x ∧ v = TrimSpace x)).
Proof.
  unfold RequireSecret, LoadSecret. cbv zeta. set (key := TrimSpace name). destruct (decide (key = "")) as [Hk|Hk]; [split; [done|tauto]|].
  destruct (decide (TrimSpace (env key) ≠ "")) as [Hv|Hv].
  { rewrite decide_False by done. split; [intros [= <-]; tauto|]. intros (_ & _ & [->|[[E _]|[E _]]]); congruence. }
  apply dec_stable in Hv. destruct (decide (TrimSpace (env (key +:+ "_FILE")) ≠ "")) as [Hf|Hf].
  - destruct (readFile _) as [b|] eqn:Er; [|split; [done|]; intros (_ & Hn & [E|[(_ & b & _ & Eb & _)|(_ & E & _)]]); congruence].
    destruct (decide (TrimSpace b = "")) as [Hb|Hb].
    + split; [done|]. intros (_ & Hn & [E|[(_ & b' & _ & Eb & Ev)|(_ & E & _)]]); congruence.
    + split; [intros [= <-]; split; [done|]; split; [done|]; right; left; by eauto|]. intros (_ & Hn & [E|[(_ & b' & _ & Eb & Ev)|(_ & E & _)]]); congruence.
  - apply dec_stable in Hf. assert (∀ ext x, external = Some ext → ext key = Some x → (if decide (TrimSpace x = "") then inl SecretMissing else inr (TrimSpace x)) = inr v ↔
      key ≠ "" ∧ v ≠ "" ∧ v = TrimSpace x) as Hx.
    { intros ext x _ _. destruct (decide _); split; [done| |intros [= <-]; done|]; intros (_ & Hn & ->); congruence. }
    destruct external as [ext|]; [|rewrite decide_True by done; split; [done|]; intros (_ & Hn & [E|[(_ & b' & H0 & _)|(_ & _ & e & x & [=] & _)]]); congruence].
    destruct (ext key) as [x|] eqn:Ex; [|split; [done|]; intros (_ & Hn & [E|[(_ & b' & H0 & _)|(_ & _ & e & x & [= <-] & Ey & _)]]); congruence].
    rewrite (Hx ext x eq_refl Ex). split.
    + intros (_ & Hn & ->). split; [done|]. split; [done|]. right; right. by eauto 7.
    + intros (_ & Hn & [E|[(_ & b' & H0 & _)|(_ & _ & e & y & [= <-] & Ey & ->)]]); [congruence..|]. repeat split; congruence.
Qed.

(** ** The totals of a day *)

Section totals.
Context {F : Type} (zero : F) (plus : F → F → F).

(** The tokens added under a label. *)
Definition addedTo (label : string) (ops : list (MeterOp F)) : list F :=
  omap (λ op, match op with MeterAdd tenant tokens _ => if decide (truncateLabel tenant = label) then Some tokens else None | MeterScrape _ => None end) ops.

Definition addTo (total : option F) (tokens : F) : option F := Some (plus (default zero total) tokens).

Lemma formatDay_nonempty t : formatDay t ≠ "".
Proof.
  unfold formatDay. cbv zeta. intros E. apply (f_equal String.length) in E. rewrite !string_length_app in E. cbn in E. lia.
Qed.
Lemma meter_gauge ops d : usageByTenant d = dailyTokenBudgetUsed d → let d' := exec (meterStep zero plus) d ops in usageByTenant d' = dailyTokenBudgetUsed d'.
Proof.
  intros Hd. cbv zeta. apply (exec_invariant (meterStep zero plus) (λ d, usageByTenant d = dailyTokenBudgetUsed d)); [done|].
  intros d0 op H0 _. assert (∀ now, usageByTenant (syncDay now d0) = dailyTokenBudgetUsed (syncDay now d0)) as Hs by (intros now; unfold syncDay; by destruct (decide _)).
  destruct op as [t k now|now]; [|apply Hs]. cbn. by rewrite Hs.
Qed.

(** Within a day, the totals grow by what is added. *)
Lemma meter_day day ops : ∀ d, currentDay d = day → usageByTenant d = dailyTokenBudgetUsed d → Forall (λ op, formatDay (meterTime op) = day) ops →
  currentDay (exec (meterStep zero plus) d ops) = day ∧
  ∀ label, dailyTokenBudgetUsed (exec (meterStep zero plus) d ops) !! label = foldl addTo (dailyTokenBudgetUsed d !! label) (addedTo label ops).
Proof.
  induction ops as [|op ops IH]; intros d Hd Hu Ho; [done|]. apply Forall_cons in Ho as [Ho Hos]. unfold exec. cbn [foldl]. fold (exec (meterStep zero plus)).
  assert (syncDay (meterTime op) d = d) as Hsync by (unfold syncDay; rewrite decide_True; congruence).
  destruct op as [t k now|now]; cbn [meterTime] in *; cbn [meterStep].
  - unfold addTokens at 1 2. rewrite Hsync. cbv zeta.
    set (d1 := {| currentDay := currentDay d; usageByTenant := _; dailyTokenBudgetUsed := _ |}). destruct (IH d1) as [Hc Hl]; [done| |done|].
    { subst d1. cbn. by rewrite Hu. }
    split; [exact Hc|]. intros label. etrans; [apply Hl|]. subst d1. cbn [dailyTokenBudgetUsed]. unfold addedTo at 2. cbn [omap list_omap]. rewrite lookup_insert.
    destruct (decide (truncateLabel t = label)) as [->|Hn]; [|done]. cbn [foldl]. unfold addTo at 3, go_get. by rewrite Hu.
  - rewrite Hsync. destruct (IH d Hd Hu Hos) as [Hc Hl]. split; [exact Hc|]. intros label. etrans; [apply Hl|]. done.
Qed.

(** The gauge of a tenant is the sum of what was added for it since the day began, as long
    as the clock stays in the day; a new day, noticed by an addition or by a reading of the
    metrics, starts from nothing.  Tenants are told apart by the first 128 bytes of their
    names. *)
Theorem daily_totals_exact earlier today day (Htoday : Forall (λ op, formatDay (meterTime op) = day) today) (Hne : today ≠ [])
    (Hearlier : ∀ op, last earlier = Some op → formatDay (meterTime op) ≠ day) :
  let d := exec (meterStep zero plus) (newTracker (F := F)) (earlier ++ today) in
  currentDay d = day ∧ ∀ label, dailyTokenBudgetUsed d !! label = foldl addTo None (addedTo label today).
Proof.
  cbv zeta. rewrite exec_app. set (d := exec _ newTracker earlier).
  assert (usageByTenant d = dailyTokenBudgetUsed d) as Hu by by apply meter_gauge.
  assert (currentDay d ≠ day) as Hd.
  { subst d. destruct earlier as [|op earlier _] using rev_ind.
    - destruct today as [|op today]; [done|]. apply Forall_cons in Htoday as [<- _]. cbn. intros Hx. by apply (formatDay_nonempty (meterTime op)).
    - rewrite exec_app. specialize (Hearlier op ltac:(by rewrite last_snoc)). unfold exec at 1. cbn [foldl]. set (d0 := exec _ _ earlier).
      assert (∀ now, currentDay (syncDay now d0) = formatDay now) as Hs by (intros now; unfold syncDay; by destruct (decide _)). destruct op; cbn; by rewrite Hs. }
  destruct today as [|op today]; [done|]. pose proof Htoday as [Ho _]%Forall_cons.
  assert (∀ op, formatDay (meterTime op) = day → meterStep zero plus d op = meterStep zero plus {| currentDay := day; usageByTenant := ∅; dailyTokenBudgetUsed := ∅ |} op) as Hreset.
  { intros op' Hop. unfold meterStep, addTokens. destruct op'; cbn [meterTime] in Hop; unfold syncDay; cbn [currentDay]; rewrite Hop, (decide_False (P := currentDay d = day)), decide_True by done; done. }
  unfold exec. cbn [foldl]. rewrite (Hreset op Ho). 
  destruct (meter_day day (op :: today) {| currentDay := day; usageByTenant := ∅; dailyTokenBudgetUsed := ∅ |} eq_refl eq_refl Htoday) as [Hc Hl].
  split; [exact Hc|]. intros label. exact (Hl label).
Qed.
End totals.

(** ** Trying it *)

Definition empty_env : Environ := λ _, "".

Example defaults_are_valid : ValidateStorage (LoadFromEnv empty_env (λ _, None)) = [] ∧ ValidateModel (LoadModelConfig empty_env (λ _, None)) = [ProviderMissing].
Proof. split; vm_compute; reflexivity. Qed.

Definition prod_env : Environ := λ k,
  if decide (k = "AGENTOS_PROFILE") then " Prod" else if decide (k = "AGENTOS_METRICS_REQUIRE_AUTH") then "1" else if decide (k = "AGENTOS_PEERS_FILE") then "/etc/peers.json" else "".

Lemma prod_service_safe_witness : RequireTenant prod_env zeroAuth = inl ErrTenantRequired ∧ ProtectMetrics prod_env (MetricsRequireAuth prod_env) zeroAuth = Some (deny 401 "unauthorized").
Proof.
  assert (CurrentProfile prod_env = ProfileProd) as H1 by (vm_compute; reflexivity).
  assert (EnsureSafeProfile prod_env = None) as H2 by (vm_compute; reflexivity).
  assert (ValidateServiceConfig prod_env (λ _, true) "federation" = []) as H3 by (vm_compute; reflexivity).
  exact (proj1 (prod_service_safe prod_env (λ _, true) "federation" H1 H2 H3) zeroAuth eq_refl eq_refl).
Defined.

Definition first_day : Time := 63844797600 * Second.

Definition meter_earlier : list (MeterOp Z) := [MeterAdd "acme" 5 first_day].
Definition meter_today : list (MeterOp Z) := [MeterScrape (first_day + Day); MeterAdd "acme" 7 (first_day + Day); MeterAdd "beta" 1 (first_day + Day); MeterAdd "acme" 2 (first_day + Day + Hour)].

Lemma daily_totals_exact_witness : dailyTokenBudgetUsed (exec (meterStep 0 Z.add) newTracker (meter_earlier ++ meter_today)) !! "acme" = Some 9.
Proof.
  assert (Forall (λ op, formatDay (meterTime op) = "2024-03-01") meter_today) as H1 by (repeat constructor).
  assert (meter_today ≠ []) as H2 by discriminate.
  assert (∀ op, last meter_earlier = Some op → formatDay (meterTime op) ≠ "2024-03-01") as H3 by (intros op [= <-]; vm_compute; discriminate).
  destruct (daily_totals_exact 0 Z.add meter_earlier meter_today "2024-03-01" H1 H2 H3) as [_ Hl]. exact (Hl "acme").
Defined.

(** The clock is read before the lock is taken: an addition of the day before that comes late
    clears the new day, and the next clears the old one. *)
Example late_addition_clears_the_day : (λ d, dailyTokenBudgetUsed d !! "acme") <$>
  [exec (meterStep 0 Z.add) newTracker [MeterAdd "acme" 7 (first_day + Day)];
   exec (meterStep 0 Z.add) newTracker [MeterAdd "acme" 7 (first_day + Day); MeterAdd "acme" 5 first_day; MeterAdd "acme" 1 (first_day + Day)]] = [Some 7; Some 1].
Proof. vm_compute. reflexivity. Qed.

(** The first status is the one that is sent, the last one is the one that is counted. *)
Example second_status_is_counted : capturedStatus [200; 500] = 500 ∧ capturedStatus [] = 200.
Proof. done. Qed.
