(* ===== verification/Operations.v ===== *)
(** * Operations: what an operator runs

    cmd/agentos/bootstrap.go (the first tenant and its key), internal/admin/backup.go,
    internal/auth/refresh.go and internal/deploy (validate.go, compose.go).  The schema is
    that of [Migration], the tables of keys and tenants are those of [Access] and [Tenancy];
    any statement can fail.  What is reached over HTTP is an argument. *)
From S2P Require Import Prelude GoTime GoPath GoStrings GoCalendar Access.
From S2P Require Tenancy Migration Config.

(** ** The first tenant (cmd/agentos/bootstrap.go) *)

Record BootTables := { btTenants : gmap string Tenancy.Tenant; btKeys : gmap string APIKeyRecord }.

Record bootstrapResult := { brTenantID : string; brKeyID : string; brAPIKey : string }.

Inductive BootstrapError :=
  | MigrationsFailed (e : Migration.Schema.MigrateError) | CountFailed | TenantsExist (n : Z) | TenantNotCreated | KeyNotGenerated | KeyNotCreated.

Section bootstrap.
Context `{Bcrypt} (run : string → BootTables → option BootTables) (checksum : string → string) (fails : nat → bool) (ms : list Migration.Schema.migration).

#[local] Abbreviation Database := (Migration.Schema.Database (D := BootTables)).

Definition setTables (t : BootTables) (d : Database) : Database :=
  {| Migration.Schema.applied := Migration.Schema.applied d; Migration.Schema.content := t; Migration.Schema.statements := Migration.Schema.statements d |}.

Definition firstTenant (tenantID tenantName : string) (now : Time) : Tenancy.Tenant := {|
  Tenancy.TenantID := tenantID; Tenancy.Name := if decide (tenantName = "") then tenantID else tenantName;
  Tenancy.Slug := ToLower (replaceChar "_" "-" tenantID); Tenancy.Plan := "default"; Tenancy.CreatedAt := now; Tenancy.UpdatedAt := now; Tenancy.DeletedAt := None
|}.

Definition ownerKey (tenantID keyName : string) (now : Time) (g : GeneratedKey) : APIKeyRecord := {|
  KeyID := gKeyID g; KTenantID := tenantID; KeyHash := gKeyHash g; KeyPrefix := gPrefix g; KName := keyName; KRole := "owner"; CreatedBy := "bootstrap";
  KCreatedAt := now; ExpiresAt := None; RevokedAt := None
|}.

(** [raw], [idRaw] and [salt] are what the source of randomness gives. *)
Definition bootstrapRun (tenantID tenantName keyName : string) (now : Time) (raw idRaw : option (list ascii)) (salt : string) (d : Database) : (BootstrapError + bootstrapResult) * Database :=
  match Migration.Schema.Migrate run checksum fails false ms d with
  | (Some e, d) => (inl (MigrationsFailed e), d)
  | (None, d) =>
      let '(f, d) := Migration.Schema.tick fails d in
      if f then (inl CountFailed, d)
      else if decide (0 < size (btTenants (Migration.Schema.content d)))%nat then (inl (TenantsExist (Z.of_nat (size (btTenants (Migration.Schema.content d))))), d)
      else
        let tenant := firstTenant tenantID tenantName now in
        let '(f, d) := Migration.Schema.tick fails d in
        if (f : bool) || bool_decide (is_Some (btTenants (Migration.Schema.content d) !! tenantID) ∨ Tenancy.slugTaken (Tenancy.Slug tenant) (btTenants (Migration.Schema.content d)))
        then (inl TenantNotCreated, d)
        else
          let d := setTables {| btTenants := <[tenantID := tenant]> (btTenants (Migration.Schema.content d)); btKeys := btKeys (Migration.Schema.content d) |} d in
          match GenerateKey raw idRaw salt with
          | None => (inl KeyNotGenerated, d)
          | Some g =>
              let '(f, d) := Migration.Schema.tick fails d in
              match CreateKey (ownerKey tenantID keyName now g) {| kRows := btKeys (Migration.Schema.content d); kFaults := [f] |} with
              | (Some _, _) => (inl KeyNotCreated, d)
              | (None, keys) =>
                  (inr {| brTenantID := tenantID; brKeyID := gKeyID g; brAPIKey := gFullKey g |},
                   setTables {| btTenants := btTenants (Migration.Schema.content d); btKeys := kRows keys |} d)
              end
          end
  end.

(** The command: the exit status, after the result. *)
Inductive Exit := Exit2 | Exit1 | Done (r : bootstrapResult).

Definition bootstrap (cfg : Config.StorageConfig) (opens : bool) (tenantID tenantName keyName : string) (now : Time) (raw idRaw : option (list ascii)) (salt : string) (d : Database) : Exit * Database :=
  if decide (TrimSpace tenantID = "") then (Exit2, d)
  else if decide (Config.ValidateStorage cfg ≠ []) then (Exit1, d)
  else if decide (ToLower (Config.Backend cfg) ≠ "postgres") then (Exit1, d)
  else if opens then
    match bootstrapRun tenantID tenantName keyName now raw idRaw salt d with
    | (inl _, d) => (Exit1, d)
    | (inr r, d) => (Done r, d)
    end
  else (Exit1, d).
End bootstrap.

(** ** Backups (internal/admin/backup.go) *)

Record BackupCheckResponse := { LastBackupTS : string; bkWarning : string; DatabaseSizeBytes : Z; TableRowCounts : gmap string Z }.

Definition monitoredTables : list string := ["runs"; "agents"; "audit_events"; "usage_records"; "event_log"; "tenants"; "tenant_members"; "api_keys"].

Definition backupWarning : string := "No backup detected in >24h".

(** A database answers its size and the number of rows of a table, or fails. *)
Record BackupDB := { dbSize : option Z; dbRows : string → option Z }.

Definition BackupCheckHandler (env : Environ) (parseTime : string → option Time) (now : Time) (method : string) (db : option BackupDB) : option BackupCheckResponse :=
  if decide (method ≠ "GET") then None
  else
    let ts := env "AGENTOS_LAST_BACKUP_TS" in
    Some {|
      LastBackupTS := ts;
      bkWarning := if decide (ts = "") then backupWarning
                   else match parseTime ts with
                        | None => backupWarning
                        | Some t => if decide (24 * Hour < now - t) then backupWarning else ""
                        end;
      DatabaseSizeBytes := match db with None => -1 | Some db => default (-1) (dbSize db) end;
      TableRowCounts := foldl (λ m t, <[t := match db with None => -1 | Some db => default (-1) (dbRows db t) end]> m) ∅ monitoredTables
    |}.

(** ** Refreshing a token (internal/auth/refresh.go) *)

(** What the handler reads of the request: its method, and its refresh token unless the body
    cannot be read. *)
Record RefreshRequest := { rfMethod : string; rfBody : option string }.

Inductive RefreshAnswer := RefreshError (status : Z) (code : string) | RefreshProxied (body : string).

(** What is posted to the token endpoint. *)
Record GrantPost := { gpURL : string; gpGrantType : string; gpRefreshToken : string }.

(** The identity provider: no request can be made of the address, no answer, or a status and
    a body that can be read or not. *)
Inductive IdP := IdPBadRequest | IdPUnreachable | IdPAnswer (status : Z) (body : option string).

Definition RefreshHandler (env : Environ) (scheme : string → option string) (idp : GrantPost → IdP) (rq : RefreshRequest) : RefreshAnswer * list GrantPost :=
  if decide (rfMethod rq ≠ "POST") then (RefreshError 405 "method_not_allowed", [])
  else
    let tokenEndpoint := TrimSpace (env "AGENTOS_OIDC_TOKEN_ENDPOINT") in
    if decide (tokenEndpoint = "") then (RefreshError 501 "not_implemented", [])
    else if decide (scheme tokenEndpoint ≠ Some "http" ∧ scheme tokenEndpoint ≠ Some "https") then (RefreshError 502 "invalid_configuration", [])
    else match rfBody rq with
    | None => (RefreshError 400 "invalid_request", [])
    | Some token =>
        if decide (token = "") then (RefreshError 400 "invalid_request", [])
        else
          let post := {| gpURL := tokenEndpoint; gpGrantType := "refresh_token"; gpRefreshToken := token |} in
          match idp post with
          | IdPBadRequest => (RefreshError 500 "internal_error", [])
          | IdPUnreachable => (RefreshError 502 "idp_unavailable", [post])
          | IdPAnswer _ None => (RefreshError 502 "idp_unavailable", [post])
          | IdPAnswer status (Some body) =>
              if decide (status < 200 ∨ 300 <= status) then (RefreshError 401 "refresh_denied", [post])
              else (RefreshProxied body, [post])
          end
    end.

(** ** Deployments (internal/deploy) *)

Record DeployCheck := { dcName : string; dcOK : bool; dcURL : string }.

Record Validator := { vdAgentOrchestrator : string; vdModelPolicy : string; vdFed : string; vdRepoRoot : string; vdTenantID : string; vdPrincipalID : string }.

Definition vdTenant (v : Validator) : string := if decide (vdTenantID v = "") then "tnt_demo" else vdTenantID v.
Definition vdPrincipal (v : Validator) : string := if decide (vdPrincipalID v = "") then "prn_local" else vdPrincipalID v.

(** A request of a check: method, address, tenant, principal, body. *)
Record DeployRequest := { dqMethod : string; dqURL : string; dqTenant : string; dqPrincipal : string; dqBody : string }.

Section deploy.
(** The status of an answer, if there is one, and whether its body can be read. *)
Context (env : Environ) (readFile : string → option string) (net : DeployRequest → option (Z * bool)).

Definition succeeded (answer : option (Z * bool)) : bool := match answer with Some (status, _) => bool_decide (200 <= status < 300) | None => false end.

Definition checkGET (v : Validator) (name url : string) : DeployCheck :=
  {| dcName := name; dcOK := succeeded (net {| dqMethod := "GET"; dqURL := url; dqTenant := vdTenant v; dqPrincipal := vdPrincipal v; dqBody := "" |}); dcURL := url |}.

Definition checkPOST (v : Validator) (name url body : string) : DeployCheck :=
  let answer := net {| dqMethod := "POST"; dqURL := url; dqTenant := vdTenant v; dqPrincipal := vdPrincipal v; dqBody := body |} in
  {| dcName := name; dcOK := match answer with Some (_, true) => succeeded answer | _ => false end; dcURL := url |}.

Definition smokeCheck (v : Validator) (name url path : string) : DeployCheck :=
  match readFile path with Some b => checkPOST v name url b | None => {| dcName := name; dcOK := false; dcURL := path |} end.

Definition optionalCheck (v : Validator) (name key suffix : string) : list DeployCheck :=
  let url := TrimSpace (env key) in if decide (url = "") then [] else [checkGET v name (trimRightChar "/" url +:+ suffix)].

(** The checks, and whether one of them failed. *)
Definition ValidateAll (v : Validator) : list DeployCheck * bool :=
  let checks :=
    [checkGET v "agent-orchestrator health" (vdAgentOrchestrator v +:+ "/v1/health");
     checkGET v "model-policy health" (vdModelPolicy v +:+ "/v1/health");
     checkGET v "federation health" (vdFed v +:+ "/v1/federation/health");
     checkGET v "agent-orchestrator metrics" (vdAgentOrchestrator v +:+ "/metrics");
     checkGET v "model-policy metrics" (vdModelPolicy v +:+ "/metrics");
     checkGET v "federation metrics" (vdFed v +:+ "/metrics");
     smokeCheck v "agent-orchestrator create run" (vdAgentOrchestrator v +:+ "/v1/agents/agt_demo/runs")
       (Join [vdRepoRoot v; "docs"; "api"; "agent-orchestrator"; "examples"; "runs-create.request.json"]);
     smokeCheck v "model-policy invoke" (vdModelPolicy v +:+ "/v1/models:invoke")
       (Join [vdRepoRoot v; "docs"; "api"; "model-policy"; "examples"; "chat.request.json"])] ++
    optionalCheck v "prometheus ready" "AGENTOS_PROM_URL" "/-/ready" ++ optionalCheck v "grafana health" "AGENTOS_GRAFANA_URL" "/api/health" in
  (checks, existsb (λ c, negb (dcOK c)) checks).
End deploy.

Record ComposeRunner := { ComposeFile : string; ProjectName : string }.

(** [lookPath] says which programs there are. *)
Definition composeCmd (lookPath : string → bool) : option (list string) :=
  if lookPath "docker" then Some ["docker"; "compose"] else if lookPath "docker-compose" then Some ["docker-compose"] else None.

Definition baseArgs (c : ComposeRunner) : list string :=
  (if decide (ProjectName c = "") then [] else ["-p"; ProjectName c]) ++ (if decide (ComposeFile c = "") then [] else ["-f"; ComposeFile c]).

(** The command that is run. *)
Definition composeRun (lookPath : string → bool) (c : ComposeRunner) (subArgs : list string) : option (list string) :=
  match composeCmd lookPath with None => None | Some prefix => Some (prefix ++ baseArgs c ++ subArgs) end.

Definition composeUp (build : bool) : list string := ["up"; "-d"] ++ (if build then ["--build"] else []).
Definition composeDown (volumes : bool) : list string := ["down"] ++ (if volumes then ["-v"] else []).
Definition composeLogs (follow : bool) : list string := ["logs"] ++ (if follow then ["-f"] else []).

(** ** The first tenant and its key *)

Section owner.
Context `{BcryptLaws} `{KeyScan, !GoRange key_scan} (run : string → BootTables → option BootTables) (checksum : string → string) (fails : nat → bool) (ms : list Migration.Schema.migration).
Context (tenantID tenantName keyName : string) (now : Time) (raw idRaw : option (list ascii)) (salt : string).

#[local] Abbreviation tables := Migration.Schema.content (only parsing).
#[local] Abbreviation boot := (bootstrapRun run checksum fails ms tenantID tenantName keyName now raw idRaw salt) (only parsing).

Lemma tick_tables (d : Migration.Schema.Database (D := BootTables)) f d' : Migration.Schema.tick fails d = (f, d') → tables d' = tables d.
Proof. by intros [= _ <-]. Qed.

(** What a bootstrap leaves behind: the tenant and its key, or at most the tenant. *)
Lemma bootstrap_cases d r d' : boot d = (r, d') → let d1 := (Migration.Schema.Migrate run checksum fails false ms d).2 in
  match r with
  | inr res => btTenants (tables d1) = ∅ ∧ btTenants (tables d') = {[tenantID := firstTenant tenantID tenantName now]} ∧ brTenantID res = tenantID ∧
      ∃ g, GenerateKey raw idRaw salt = Some g ∧ brAPIKey res = gFullKey g ∧ brKeyID res = gKeyID g ∧
        btKeys (tables d') = <[gKeyID g := ownerKey tenantID keyName now g]> (btKeys (tables d1))
  | inl _ => btKeys (tables d') = btKeys (tables d1) ∧
      (btTenants (tables d') = btTenants (tables d1) ∨ (btTenants (tables d1) = ∅ ∧ btTenants (tables d') = {[tenantID := firstTenant tenantID tenantName now]}))
  end.
Proof.
  unfold bootstrapRun. destruct (Migration.Schema.Migrate run checksum fails false ms d) as [[e|] d1]; cbn [snd]; [intros [= <- <-]; auto|].
  destruct (Migration.Schema.tick fails d1) as [f d2] eqn:E2. apply tick_tables in E2. cbn beta iota. destruct f; [intros [= <- <-]; rewrite E2; auto|].
  rewrite E2. destruct (decide _) as [Hs|Hs]; [intros [= <- <-]; rewrite E2; auto|]. assert (btTenants (tables d1) = ∅) as He by (apply map_size_empty_iff; lia).
  destruct (Migration.Schema.tick fails d2) as [f2 d3] eqn:E3. apply tick_tables in E3. rewrite E2 in E3. cbn beta iota zeta. rewrite E3. destruct (_ || _); [intros [= <- <-]; rewrite E3; auto|].
  assert (<[tenantID := firstTenant tenantID tenantName now]> (btTenants (tables d1)) = {[tenantID := firstTenant tenantID tenantName now]}) as Hi by (rewrite He; done).
  destruct (GenerateKey raw idRaw salt) as [g|]; [|intros [= <- <-]; cbn; auto].
  destruct (Migration.Schema.tick fails _) as [f3 d4] eqn:E4. apply tick_tables in E4. cbn beta iota. rewrite E4. cbn [btKeys btTenants tables setTables Migration.Schema.content].
  destruct (CreateKey _ _) as [[e|] keys] eqn:Ec; [intros [= <- <-]; rewrite E4; cbn; auto|]. intros [= <- <-]. cbn. split; [done|]. split; [exact Hi|]. split; [done|].
  exists g. split; [done|]. split; [done|]. split; [done|]. unfold CreateKey in Ec. cbn in Ec. destruct (_ || bool_decide _); [done|]. injection Ec as <-. done.
Qed.
(** The first tenant: a bootstrap succeeds only where there is no tenant, leaves exactly
    the tenant and its key, and the key it gives authenticates a request as owner of that
    tenant, whatever the settings, when the request names no other tenant and there were no
    keys before. *)
Theorem bootstrap_exact (jwtParse : OIDCConfig → string → option Claims) (oidc : option OIDCConfig) (env : Environ) (h : Header) (later : Time) rawBytes idBytes d res d'
    (Hraw : raw = Some rawBytes) (Hid : idRaw = Some idBytes) (Hlen : length rawBytes = 16%nat) (Hrun : boot d = (inr res, d')) :
  let d1 := (Migration.Schema.Migrate run checksum fails false ms d).2 in
  btTenants (tables d1) = ∅ ∧ btTenants (tables d') = {[tenantID := firstTenant tenantID tenantName now]} ∧
  (btKeys (tables d1) = ∅ → h "Authorization" = "Bearer " +:+ brAPIKey res → (∀ t, RequireTenant env (FromRequest h) = inr t → t = tenantID) →
   ∃ ac, (authenticate jwtParse oidc env true later h (Some {| kRows := btKeys (tables d'); kFaults := [] |})).1 = inr ac ∧
     ATenantID ac = tenantID ∧ ARole ac = "owner" ∧ PrincipalID ac = brKeyID res).
Proof.
  apply bootstrap_cases in Hrun as (He & Ht & _ & g & Hg & Ha & Hk & Hkeys). cbv zeta. split; [done|]. split; [done|]. intros Hno Hh Hten.
  subst raw idRaw. destruct (GenerateKey_ok rawBytes idBytes salt Hlen) as (g' & Hg' & _ & Hapi & Hpx & Hpne & Hv & Hgr). rewrite Hg in Hg'. injection Hg' as <-. rewrite Ha in Hh.
  assert (gFullKey g ≠ "") as Hne by (intros E; rewrite E in Hapi; done).
  destruct (authenticate_key jwtParse oidc env later h (gFullKey g) (Some {| kRows := btKeys (tables d'); kFaults := [] |}) Hh Hne Hgr Hapi) as [-> Hb].
  exists (withKey (ownerKey tenantID keyName now g) (FromRequest h)). split; [|split; [done|split; [done|by rewrite Hk]]].
  assert (kRows {| kRows := btKeys (tables d'); kFaults := [] |} = {[gKeyID g := ownerKey tenantID keyName now g]}) as Hrows by (cbn; by rewrite Hkeys, Hno).
  rewrite (APIKeyMiddleware_accepts rawBytes Hlen env later (FromRequest h) (gKeyID g) (ownerKey tenantID keyName now g)); rewrite ?Hb; try done.
  - rewrite Hrows. apply lookup_singleton_eq.
  - intros id' r Hr _. rewrite Hrows in Hr. by apply lookup_singleton_Some in Hr as [<- _].
Qed.
End owner.

(** ** Backups, tokens and deployments *)

(** The report of backups: a warning exactly when no time of a backup is set, it cannot be
    read, or it is more than a day ago; a row count for each of the eight tables and no other,
    and -1 for what cannot be asked. *)
Theorem backup_check_exact env parseTime now db r (Hr : BackupCheckHandler env parseTime now "GET" db = Some r) :
  (bkWarning r = "" ↔ ∃ t, env "AGENTOS_LAST_BACKUP_TS" ≠ "" ∧ parseTime (env "AGENTOS_LAST_BACKUP_TS") = Some t ∧ now - t <= 24 * Hour) ∧
  (∀ table, TableRowCounts r !! table = if decide (table ∈ monitoredTables) then Some (default (-1) (x ← db; dbRows x table)) else None) ∧
  DatabaseSizeBytes r = default (-1) (x ← db; dbSize x).
Proof.
  unfold BackupCheckHandler in Hr. rewrite decide_False in Hr by (intros Hx; by apply Hx). injection Hr as <-. cbn [bkWarning DatabaseSizeBytes TableRowCounts]. split; [|split].
  - destruct (decide _) as [He|He]; [split; [done|naive_solver]|]. destruct (parseTime _) as [t|]; [|split; [done|naive_solver]].
    destruct (decide _) as [Hl|Hl]; split; try done; [intros (t' & _ & [= <-] & Ht); lia|intros _; exists t; split; [done|]; split; [done|lia]].
  - assert (∀ (f : string → Z) ts m table, foldl (λ m t, <[t := f t]> m) m ts !! table = if decide (table ∈ ts) then Some (f table) else (m : gmap string Z) !! table) as Hf.
    { intros f ts. induction ts as [|t ts IH]; intros m table; [by rewrite decide_False by apply not_elem_of_nil|]. cbn [foldl]. rewrite IH, lookup_insert.
      destruct (decide (table ∈ ts)) as [Hi|Hi]; [by rewrite decide_True by by right|]. destruct (decide (t = table)) as [->|Hn]; [by rewrite decide_True by by left|].
      rewrite decide_False; [done|]. intros [->|]%elem_of_cons; done. }
    intros table. etrans; [exact (Hf (λ t, match db with None => -1 | Some db => default (-1) (dbRows db t) end) monitoredTables ∅ table)|]. cbv beta. rewrite lookup_empty. destruct (decide _); [|done]. by destruct db.
  - by destruct db.
Qed.

#[local] Ltac refused := split; [by left|]; intros b; split; [done|]; intros (t & st & (A & B & C & D & E) & Fi & G); solve [congruence | destruct C; tauto].

(** A refresh posts at most once, to the configured endpoint of http or https, the token
    that it was given; the caller gets a body exactly when the provider answered with 200 to
    299, and then that body. *)
Theorem refresh_exact env scheme idp rq : let endpoint := TrimSpace (env "AGENTOS_OIDC_TOKEN_ENDPOINT") in
  let asked token := rfMethod rq = "POST" ∧ endpoint ≠ "" ∧ (scheme endpoint = Some "http" ∨ scheme endpoint = Some "https") ∧ rfBody rq = Some token ∧ token ≠ "" in
  let post token := {| gpURL := endpoint; gpGrantType := "refresh_token"; gpRefreshToken := token |} in
  let '(answer, posts) := RefreshHandler env scheme idp rq in
  (posts = [] ∨ ∃ token, asked token ∧ posts = [post token]) ∧
  (∀ body, answer = RefreshProxied body ↔ ∃ token status, asked token ∧ idp (post token) = IdPAnswer status (Some body) ∧ 200 <= status < 300).
Proof.
  cbv zeta. unfold RefreshHandler. cbv zeta. set (endpoint := TrimSpace _). destruct (decide (rfMethod rq ≠ "POST")) as [Hm|Hm%dec_stable]; [refused|].
  destruct (decide (endpoint = "")) as [He|He]; [refused|]. destruct (decide _) as [Hs|Hs]; [refused|].
  assert (scheme endpoint = Some "http" ∨ scheme endpoint = Some "https") as Hsc by (destruct (decide (scheme endpoint = Some "http")), (decide (scheme endpoint = Some "https")); tauto).
  destruct (rfBody rq) as [token|] eqn:Eb; [|refused]. destruct (decide (token = "")) as [Ht|Ht]; [refused|].
  destruct (idp _) as [| |status [body|]] eqn:Ei; [refused| | |].
  1, 3: split; [right; by exists token|]; intros b; split; [done|]; intros (t & st & (_ & _ & _ & D & _) & Fi & _); congruence.
  destruct (decide _) as [Hst|Hst]; (split; [right; by exists token|]); intros b.
  - split; [done|]. intros (t & st & (_ & _ & _ & [= <-] & _) & Hi & Hr). rewrite Ei in Hi. injection Hi as -> ->. lia.
  - split; [intros [= <-]; exists token, status; split; [done|]; split; [done|lia]|]. intros (t & st & (_ & _ & _ & [= <-] & _) & Hi & Hr). congruence.
Qed.

(** A deployment is valid exactly when every check succeeded: the health and the metrics
    of the three services, a run and an invocation from the examples of the repository, and
    Prometheus and Grafana when their addresses are set; the two examples are posted only when
    they can be read. *)
Theorem validate_all_exact env readFile net v : let '(checks, failed) := ValidateAll env readFile net v in
  (failed = false ↔ Forall (λ c, dcOK c = true) checks) ∧
  dcName <$> checks = ["agent-orchestrator health"; "model-policy health"; "federation health"; "agent-orchestrator metrics"; "model-policy metrics"; "federation metrics";
    "agent-orchestrator create run"; "model-policy invoke"] ++ (if decide (TrimSpace (env "AGENTOS_PROM_URL") = "") then [] else ["prometheus ready"]) ++
    (if decide (TrimSpace (env "AGENTOS_GRAFANA_URL") = "") then [] else ["grafana health"]).
Proof.
  unfold ValidateAll. cbv zeta. set (checks := _ ++ _). split.
  - generalize checks. intros cs. induction cs as [|c cs IH]; [split; [constructor|done]|]. cbn [existsb]. rewrite Forall_cons, <- IH, orb_false_iff, negb_false_iff. done.
  - subst checks. unfold optionalCheck. cbv zeta. rewrite !fmap_app. f_equal; [cbn; unfold smokeCheck; by do 2 destruct (readFile _)|]. f_equal; by destruct (decide _).
Qed.

(** The command line of docker compose: the program, the project, the file, what to do. *)
Example compose_up : composeRun (λ p, bool_decide (p = "docker")) {| ComposeFile := "c.yaml"; ProjectName := "agentos" |} (composeUp true) =
  Some ["docker"; "compose"; "-p"; "agentos"; "-f"; "c.yaml"; "up"; "-d"; "--build"].
Proof. reflexivity. Qed.

(** ** Trying it *)

Definition boot_db : Migration.Schema.Database (D := BootTables) :=
  {| Migration.Schema.applied := None; Migration.Schema.content := {| btTenants := ∅; btKeys := ∅ |}; Migration.Schema.statements := 0%nat |}.

Definition sample_boot (fails : nat → bool) (idRaw : option (list ascii)) (d : Migration.Schema.Database) : (BootstrapError + bootstrapResult) * Migration.Schema.Database :=
  @bootstrapRun plainBcrypt (λ _ t, Some t) (λ s, s) fails [] "acme_1" "" "bootstrap" 7 (Some sample_raw) idRaw "salt" d.

Lemma bootstrap_exact_witness : ∃ res d', sample_boot (λ _, false) (Some ["001"%char]) boot_db = (inr res, d') ∧ brAPIKey res = "aos_live_00112233445566778899aabbccddeeff" ∧
  ∃ ac, (@authenticate plainBcrypt forwardScan no_tokens None no_env true 9 (sample_header "" (brAPIKey res)) (Some {| kRows := btKeys (Migration.Schema.content d'); kFaults := [] |})).1 = inr ac ∧
    ATenantID ac = "acme_1" ∧ ARole ac = "owner" ∧ PrincipalID ac = brKeyID res.
Proof.
  eexists _, _. split; [vm_compute; reflexivity|]. split; [reflexivity|].
  refine (proj2 (proj2 (@bootstrap_exact plainBcrypt plainBcrypt_laws forwardScan GoRange_map_to_list (λ _ t, Some t) (λ s, s) (λ _, false) [] "acme_1" "" "bootstrap" 7 (Some sample_raw) (Some ["001"%char]) "salt"
    no_tokens None no_env (sample_header "" "aos_live_00112233445566778899aabbccddeeff") 9 sample_raw ["001"%char] boot_db _ _ eq_refl eq_refl eq_refl _)) _ _ _).
  - vm_compute. reflexivity.
  - vm_compute. reflexivity.
  - reflexivity.
  - intros t Ht. vm_compute in Ht. discriminate Ht.
Defined.

(** When the key cannot be made or stored, the tenant remains without a key, and every later
    bootstrap is refused because there is a tenant. *)
Example failed_key_locks_out : let '(r, d) := sample_boot (λ _, false) None boot_db in
  r = inl KeyNotGenerated ∧ (sample_boot (λ _, false) (Some ["001"%char]) d).1 = inl (TenantsExist 1).
Proof. vm_compute. split; reflexivity. Qed.

Definition sample_backup_env : Environ := λ k, if decide (k = "AGENTOS_LAST_BACKUP_TS") then "2024-03-01T00:00:00Z" else "".

Lemma backup_check_exact_witness : ∃ r, BackupCheckHandler sample_backup_env (λ _, Some (10 * Hour)) (30 * Hour) "GET" None = Some r ∧ bkWarning r = "" ∧ TableRowCounts r !! "runs" = Some (-1).
Proof.
  assert (∃ r, BackupCheckHandler sample_backup_env (λ _, Some (10 * Hour)) (30 * Hour) "GET" None = Some r) as [r Hr] by (eexists; reflexivity).
  exists r. split; [exact Hr|]. destruct (backup_check_exact sample_backup_env (λ _, Some (10 * Hour)) (30 * Hour) None r Hr) as (Hw & Ht & _). split; [|exact (Ht "runs")].
  apply Hw. exists (10 * Hour). split; [discriminate|]. split; [reflexivity|]. vm_compute. discriminate.
Defined.

(** A time in the future is taken for a recent backup. *)
Example future_backup_accepted : bkWarning <$> BackupCheckHandler sample_backup_env (λ _, Some (1000 * Hour)) 0 "GET" None = Some "".
Proof. reflexivity. Qed.
